(* ===== verification/_CoqProject ===== *)
-Q . S2P
Prelude.v
Digits.v
HostQueue.v
Allocator.v
Port.v
Handles.v
Engine.v
Stubs.v
StubsInv.v
StubsProps.v
Cutils.v
Utf8.v
IntToA.v
Limbs.v
BigInt.v
BigIntString.v
BigIntFloat.v
Sort.v
SortProps.v
Exchange.v
CharRange.v
CharRangeProps.v
UnicodeTables.v
UnicodeCase.v
UnicodeCaseProps.v
UnicodeCaseMem.v
UnicodeProp.v
UnicodeData.v
UnicodeSets.v
UnicodeSequences.v
UnicodeSetsProps.v
UnicodeNormData.v
UnicodeNorm.v
UnicodeOrder.v
UnicodeNormProps.v
UnicodeNfd.v
UnicodeCompose.v
UnicodeForms.v
UnicodeNamed.v
UnicodeSequencesProps.v
Gc.v
GcProps.v
Arena.v
ArenaProps.v
ArenaRealloc.v
ArenaHistory.v
Date.v
DateProps.v
DateParse.v
DateIso.v
Regexp.v
RegexpSim.v
RegexpUndo.v
RegexpSearch.v
RegexpRange.v
RegexpType.v
RegexpRegs.v
RegexpParse.v
RegexpCompile.v
RegexpBlock.v
RegexpMono.v
RegexpTyped.v
RegexpCompiled.v
RegexpText.v
RegexpTotal.v
RegexpSets.v
RegexpStrings.v
RegexpClass.v
RegexpUnicode.v
RegexpTerms.v
RegexpAnswers.v
