(* ===== verification/Prelude.v ===== *)
(** * Mirage Lambda: a verification library for its C implementation

    Mirage Lambda runs JavaScript bundles inside a unikernel or a Unix process.
    An OCaml worker drives QuickJS through a small C layer: the OCaml stubs
    (src/qjs/c/qjs_stubs.c), a bounded queue of host requests
    (qjs_host_queue.c), an allocator with counters per invocation
    (qjs_allocator.c) and a platform port with a Unix and a Solo5
    implementation (qjs_port*.c).  Below it is the QuickJS engine of
    src/qjs/lib/_qjs_*.c.  This library models the C layer completely and, of
    the engine, the parts that are algorithms in their own right: its memory
    allocator, its cycle collector, its C utilities, BigInt arithmetic, dates,
    Unicode sets and normal forms, and regular expressions, compiler and executor.

    ** How the code is modelled

    Integers are [Z]; what can leave the width of its C type goes through
    [u8] ... [i64] below.  Pointers to blocks are locations of a heap, indices
    into an array, or plain addresses where the code computes with them.
    Stateful code of the C layer is written in the monad [M] of this file,
    whose outcomes separate an OCaml exception ([Raise]), an abort ([Abort])
    and undefined behaviour ([UB]); engine code returns [option], where [None]
    is an access out of range, a failed assertion or an exhausted loop bound,
    or a sum with the JavaScript exception it throws.  Allocation failures are
    inputs: a function or a flag says which requests succeed.  The size of
    pointers, [size_t] and BigInt limbs is 64 bits.

    ** Files, and the code each models

    The C layer:
    - HostQueue: qjs_host_queue.c, with the specification [Fifo];
    - Allocator: qjs_allocator.c; Port: qjs_port.h, qjs_port_unix.c,
      qjs_port_solo5.c (the class [Port] and its two instances);
    - Handles: the handle table, limits decoder and promise table of
      qjs_stubs.c, with the limits encoder of qjs_engine.ml;
    - Engine: the interface of quickjs.h as a class, for the stubs; a run of
      JavaScript is a tree of the callbacks it makes;
    - Stubs: the entry points and callbacks of qjs_stubs.c on one state
      [world]; StubsInv, StubsProps: their invariant and properties.

    The engine:
    - Arena: the "JS malloc" of quickjs.c (arenas of equal blocks with free
      chains, large blocks from the host); ArenaProps: its invariant and the
      operations; ArenaRealloc: realloc; ArenaHistory: sequences of calls, and
      the invocation's allocator as its host;
    - Gc: marking, [gc_decref] and [gc_scan] of quickjs.c; GcProps: what they
      decide;
    - Cutils, Utf8: strings, dynamic buffers and UTF-8 of cutils.c; Sort,
      SortProps, Exchange: [rqsort] and its byte exchanges;
    - Digits: positional notation, shared; IntToA: the integer printers of
      dtoa.c;
    - Limbs: the mp_* routines of quickjs.c; BigInt, BigIntString, BigIntFloat:
      the js_bigint_* functions over them;
    - Date: calendar arithmetic, printed forms and the parsers of Date.parse
      (quickjs.c); DateProps, DateParse, DateIso: their properties;
    - CharRange, CharRangeProps: sets of code points of libunicode.c;
      UnicodeTables: the tables of libunicode-table.h, transcribed;
      UnicodeCase, UnicodeCaseProps: case conversion and canonicalization;
      UnicodeCaseMem: canonicalization when memory runs out;
      UnicodeProp: the indexed property tables;
    - UnicodeData: the tables of categories, scripts, properties and emoji
      sequences of libunicode-table.h, transcribed; UnicodeSets: the functions
      behind \p{...} that decode and combine them ([unicode_script],
      [unicode_general_category], [unicode_prop]); UnicodeSequences:
      [unicode_sequence_prop]; UnicodeSetsProps, UnicodeNamed,
      UnicodeSequencesProps: what they build;
    - UnicodeNormData: the tables of decompositions, compositions and combining
      classes, transcribed; UnicodeNorm: their decoders and
      [unicode_normalize]; UnicodeOrder: the canonical ordering of marks;
      UnicodeNormProps: combining classes and full decompositions;
      UnicodeNfd, UnicodeCompose, UnicodeForms: the normal forms;
    - Regexp: the backtracking executor [lre_exec] of libregexp.c on its own
      stack of undo records, against a class for the engine's callbacks;
      RegexpSim: the same executor over stacks that copy their state, and the
      simulation; RegexpUndo: the undo stack keeps the promises of such a stack;
      RegexpSearch: a recursive search as the specification; RegexpRange: the
      range instructions; RegexpType: a checker of bytecode; RegexpRegs:
      [compute_register_count];
    - RegexpParse: the lexical part of the regular expression compiler
      [lre_compile] and its character classes, in a monad [P] of its own;
      RegexpCompile: terms, quantifiers and the bytecode it emits; RegexpBlock:
      pieces of bytecode and the combinators that keep them well typed;
      RegexpMono: the invariant of the parser's state; RegexpTyped: every
      parsing function emits such a piece; RegexpCompiled: [lre_compile];
    - RegexpText: the lexical functions stay inside the text; RegexpTotal: rules
      for total correctness of the parser's monad and the quantifiers;
      RegexpSets, RegexpStrings: lists of strings, emitted and computed;
      RegexpClass: character classes; RegexpUnicode: libunicode.c keeps the laws
      of the class [UnicodeDb], and returns when memory is there; RegexpTerms:
      atoms, terms, disjunctions; RegexpAnswers: [lre_compile] answers.

    ** What the theorems show

    - C1, C3-C9 (StubsProps): in every state that calls from OCaml can reach,
      with any JavaScript behaviour, the handle table, the runtimes, the promise
      table and the heap are consistent, and no call uses freed memory, except a
      [mlqjs_resolve] that finds the promise of another runtime under its id (C9
      says when; with one live runtime there is none); what creation, interrupts,
      the module registry, the request drain and destruction do, and that
      destruction ends the process while a promise is pending; and that a call
      leaves the other runtimes alone.  (What the job pump does is a theorem of
      StubsProps too.)  C10 (Utf8): UTF-8 is read back.
    - C2 (HostQueue): the ring buffer refines a bounded FIFO queue and frees
      what it owns.
    - C11, C12 (Handles): stale handles are refused, and from generation 32768
      on a handle is unusable.  (Fresh handles resolve and limits round trip:
      theorems of Handles too.)
    - C13, C14 (RegexpSearch, RegexpType): the regular expression executor, with
      its undo log and growing stack, computes what a recursive backtracking
      search over copied states computes, unless the host ends the run; on
      bytecode that the checker accepts it never reads or writes outside the
      bytecode, the captures or the subject.  C15 (RegexpCompiled): the checker
      accepts whatever the compiler returns, so compiled expressions are safe
      to execute.  C16 (RegexpAnswers): the compiler answers, for every text of
      code points up to 21 bits, every choice of flags and of refused requests
      (under the v flag: of requests of 16 MB and more), unless a call of
      [unicode_script] does not return, and goes wrong only after a refused
      request for the bytecode or the names.  (That the binary search of the range instructions decides
      membership is a theorem of RegexpRange, what the register count of the
      compiler covers one of RegexpRegs.)
    - C17, C18 (ArenaHistory): in every history of the engine's allocator the
      blocks in use are aligned, disjoint and inside host memory, the host gets
      its memory back, and realloc keeps contents.  The host is a class with
      laws; the instance [mlqjs_alloc_functions] satisfies them over any libc
      that keeps its contract.
    - C19 (GcProps): the collector's two passes leave exactly the unreachable
      objects to be freed and restore every count.
    - C20 (SortProps): [rqsort] ends within its fixed stack, permutes and
      sorts.  (That the byte exchanges implement the swaps it is built on is a
      theorem of Exchange.)
    - C21-C23 (DateProps, DateIso, DateParse): time values and calendar fields
      determine each other, printed ISO dates parse back, and the parsers of
      Date.parse end and stay inside the text on every input.
    - C24, C34: canonicalization of character sets, and set operations on
      character ranges.  C25-C28 (UnicodeNamed, UnicodeSequencesProps): the sets
      behind \p{...} are the ones their names stand for, scripts included, up
      to an allocation failure that [unicode_script] does not survive; the tests
      on single characters agree with these sets; the properties of strings
      stay inside their array and list code points.  (Case conversion is a
      theorem of UnicodeCaseProps, the agreement of the indexed with the linear
      decoder of a table one of UnicodeProp.)
    - C29, C30 (UnicodeForms): [unicode_normalize] gives a text in canonical
      order with the same decomposition as the source, the decomposition itself
      for NFD and NFKD; its results decide whether two texts have the same
      decomposition, and are fixed points.  For the composed forms a hypothesis
      leaves out texts with U+11A7: the code loses that letter behind a Hangul
      syllable without final consonant.
    - C31-C33, C35-C40: BigInt operations are those of the integers, with the
      errors and the rounding of the code; printing and parsing.  (Comparison
      and shifts are theorems of BigInt too.)
    - Without a number: integer printing (IntToA), the dynamic buffer (Cutils),
      the random source (Port).

    ** Bounds

    Loops that are not structural take a bound and return [None] when it is
    used up; the theorems show a result, so the bounds suffice.  The collector's
    loops get the number of objects, [rqsort] the number of elements with the
    code's own stack of 50 segments, the correction loop of the long division
    [addback_fuel] = 3 rounds, the search for a year four.  The bound of a
    JavaScript run in [exec] is a parameter: the claims of the stubs hold for
    every bound, and [OutOfFuel] is an outcome of its own.  The
    number of steps of [lre_exec] is a parameter too: a program can loop for
    ever, and C13 says of every number of steps what the search with as many
    calls says.  The loops and the recursion of the compiler get the length of
    the text; running out of it has the outcome of a call that does not return,
    which C16 excludes but for [unicode_script]: a loop moves its pointer and a
    parenthesis or bracket takes a byte.  The recursion
    of [to_nfd_rec] gets depth [NFD_DEPTH] = 4, which the tables never use up.
    The facts about the Unicode tables are evaluated on the tables themselves.

    ** Not modelled

    Of quickjs.c: the parser, the bytecode interpreter, objects, shapes, atoms
    and the other builtins (of Date, the conversion of arguments; the system's
    time zone is a parameter); of the collector, [gc_free_cycles] with the finalizers of
    the classes and the weak references ([gc_remove_weak_objects]).  What a
    class's [gc_mark] callback visits is part of an object's payload.  Of
    dtoa.c, the conversions of floating-point numbers; of libunicode.c
    and libregexp.c, the debugging dumps and [cr_free].  The compiler of regular
    expressions sees libunicode.c through the class [UnicodeDb], of which
    RegexpUnicode.v has the instance over the models of its functions.  The stubs
    see the engine through the class [JSEngine]; of [JS_FreeRuntime] the assertion
    that no object is left is modelled.  The OCaml services (control plane,
    worker, CLI, unikernel) are outside the C implementation. *)

From stdpp Require Export base gmap list strings.
From Stdlib Require Export ZArith Lia ZifyNat.

#[global] Open Scope Z_scope.

(** ** Machine integers

    A [w]-bit C integer is a [Z]; every operation that can leave the range is
    followed by one of these conversions, which are the casts of the C
    abstract machine (two's complement). *)
Definition u8 (x : Z) : Z := x mod 2 ^ 8.
Definition u16 (x : Z) : Z := x mod 2 ^ 16.
Definition u32 (x : Z) : Z := x mod 2 ^ 32.
Definition u64 (x : Z) : Z := x mod 2 ^ 64.
Definition i32 (x : Z) : Z := (x + 2 ^ 31) mod 2 ^ 32 - 2 ^ 31.
Definition i64 (x : Z) : Z := (x + 2 ^ 63) mod 2 ^ 64 - 2 ^ 63.

Lemma u8_range x : 0 <= u8 x < 2 ^ 8.
Proof. by apply Z.mod_pos_bound. Qed.
Lemma u32_range x : 0 <= u32 x < 2 ^ 32.
Proof. by apply Z.mod_pos_bound. Qed.
Lemma u64_range x : 0 <= u64 x < 2 ^ 64.
Proof. by apply Z.mod_pos_bound. Qed.
Lemma i32_range x : - 2 ^ 31 <= i32 x < 2 ^ 31.
Proof. unfold i32. pose proof (Z.mod_pos_bound (x + 2 ^ 31) (2 ^ 32)). lia. Qed.

Lemma u8_id x : 0 <= x < 2 ^ 8 -> u8 x = x.
Proof. apply Z.mod_small. Qed.
Lemma u32_id x : 0 <= x < 2 ^ 32 -> u32 x = x.
Proof. apply Z.mod_small. Qed.
Lemma u64_id x : 0 <= x < 2 ^ 64 -> u64 x = x.
Proof. apply Z.mod_small. Qed.
Lemma i32_id x : - 2 ^ 31 <= x < 2 ^ 31 -> i32 x = x.
Proof. intros ?. unfold i32. rewrite Z.mod_small; lia. Qed.

(** ** Outcomes of a C function called from OCaml

    [Raise] is [caml_failwith], [Abort] is [mlqjs_abort] (the process ends),
    [UB] marks a point where the C code would free or read memory it does not
    own, [OutOfFuel] is the bound of the model's interpreter of engine runs. *)
Inductive outcome (A : Type) : Type :=
| Ok (a : A)
| Raise (msg : string)
| Abort (msg : string)
| UB (msg : string)
| OutOfFuel.
Arguments Ok {A} a.
Arguments Raise {A} msg.
Arguments Abort {A} msg.
Arguments UB {A} msg.
Arguments OutOfFuel {A}.

(** The state-and-outcome monad in which the stateful C code is written: the
    state survives every outcome, as C memory survives an OCaml exception. *)
Definition M (S A : Type) : Type := S -> S * outcome A.

Definition mret {S A} (a : A) : M S A := fun s => (s, Ok a).
Definition mfail {S A} (o : outcome A) : M S A := fun s => (s, o).
Definition mbind {S A B} (m : M S A) (k : A -> M S B) : M S B := fun s =>
  match m s with
  | (s', Ok a) => k a s'
  | (s', Raise e) => (s', Raise e)
  | (s', Abort e) => (s', Abort e)
  | (s', UB e) => (s', UB e)
  | (s', OutOfFuel) => (s', OutOfFuel)
  end.
Definition mget {S} : M S S := fun s => (s, Ok s).
Definition mput {S} (s : S) : M S unit := fun _ => (s, Ok tt).
Definition mmodify {S} (f : S -> S) : M S unit := fun s => (f s, Ok tt).

Declare Scope c_scope.
Delimit Scope c_scope with c.
#[global] Open Scope c_scope.
Notation "'let*' p ':=' m 'in' k" := (mbind m (fun p => k))
  (at level 10, p as pattern, m at level 200, k at level 200,
   format "'[v' 'let*'  p  ':='  m  'in' '/' k ']'") : c_scope.
Notation "m ;;; k" := (mbind m (fun _ => k))
  (at level 100, right associativity) : c_scope.

(** Running a computation on a part of the state. *)
Definition zoom {S T A} (get : S -> T) (set : T -> S -> S) (m : M T A) : M S A :=
  fun s => let '(t, r) := m (get s) in (set t s, r).

(** *** Reasoning: a triple on all outcomes

    [spec P m Q]: from a state satisfying [P], [m] ends with [Q s' r]. *)
Definition spec {S A} (P : S -> Prop) (m : M S A) (Q : S -> outcome A -> Prop) : Prop :=
  forall s, P s -> Q (fst (m s)) (snd (m s)).

(** [preserves I m]: [I] is an invariant of [m], on every outcome, and [m]
    has no undefined behaviour. *)
Definition no_ub {A} (r : outcome A) : Prop :=
  match r with UB _ => False | _ => True end.
Definition preserves {S A} (I : S -> Prop) (m : M S A) : Prop :=
  spec I m (fun s r => I s /\ no_ub r).

Lemma mbind_ok {S A B} (m : M S A) (k : A -> M S B) s s' a :
  m s = (s', Ok a) -> mbind m k s = k a s'.
Proof. intros H. unfold mbind. by rewrite H. Qed.

Lemma preserves_eq {S A} (I : S -> Prop) (m : M S A) :
  (forall s, I s -> exists s' r, m s = (s', r) /\ I s' /\ no_ub r) -> preserves I m.
Proof. intros H s Hs. destruct (H s Hs) as (s' & r & -> & ?). done. Qed.

Lemma preserves_ret {S A} (I : S -> Prop) (a : A) : preserves I (mret a).
Proof. done. Qed.

Lemma preserves_fail {S A} (I : S -> Prop) (o : outcome A) : no_ub o -> preserves I (mfail o).
Proof. done. Qed.

Lemma preserves_bind {S A B} (I : S -> Prop) (m : M S A) (k : A -> M S B) :
  preserves I m -> (forall a, preserves I (k a)) -> preserves I (mbind m k).
Proof.
  intros Hm Hk s Hs. unfold mbind. specialize (Hm s Hs).
  destruct (m s) as [s' []]; naive_solver.
Qed.

(** The bind rule that keeps what the first computation established. *)
Lemma spec_bind {S A B} (P : S -> Prop) (m : M S A) (k : A -> M S B) R Q :
  spec P m R ->
  (forall a, spec (fun s => R s (Ok a)) (k a) Q) ->
  (forall s e, R s (Raise e) -> Q s (Raise e)) ->
  (forall s e, R s (Abort e) -> Q s (Abort e)) ->
  (forall s e, R s (UB e) -> Q s (UB e)) ->
  (forall s, R s OutOfFuel -> Q s OutOfFuel) ->
  spec P (mbind m k) Q.
Proof.
  intros Hm Hk H1 H2 H3 H4 s Hs. unfold mbind. specialize (Hm s Hs).
  destruct (m s) as [s' []]; naive_solver.
Qed.

Lemma preserves_modify {S} (I : S -> Prop) (f : S -> S) :
  (forall s, I s -> I (f s)) -> preserves I (mmodify f).
Proof. intros Hf s Hs. cbn. auto. Qed.

Lemma preserves_get {S A} (I : S -> Prop) (k : S -> M S A) :
  (forall s, I s -> spec (eq s) (k s) (fun s r => I s /\ no_ub r)) ->
  preserves I (mbind mget k).
Proof. intros Hk s Hs. by apply (Hk s). Qed.

Create HintDb pres.
#[export] Hint Resolve preserves_ret preserves_bind preserves_fail : pres.
#[export] Hint Extern 1 (no_ub _) => exact I : pres.

(** ** Memory: malloc'd blocks

    The C heap as the blocks that are live; a block is its bytes. *)
Definition loc : Type := positive.
Definition mem : Type := gmap loc (list Z).

(** [malloc] may fail; whether it does is the environment's choice. *)
Definition malloc (ok : bool) (bytes : list Z) : M (gmap loc (list Z)) (option loc) := fun h =>
  if ok then let l := fresh (dom h) in (<[l := bytes]> h, Ok (Some l)) else (h, Ok None).

(** [free(NULL)] does nothing; freeing a block that is not live is undefined. *)
Definition free (p : option loc) : M (gmap loc (list Z)) unit := fun h =>
  match p with
  | None => (h, Ok tt)
  | Some l => match h !! l with
              | Some _ => (delete l h, Ok tt)
              | None => (h, UB "free of a block that is not live")
              end
  end.

(** ** C strings: the bytes up to the first NUL *)
Fixpoint c_str (s : list Z) : list Z :=
  match s with
  | [] => []
  | c :: s' => if c =? 0 then [] else c :: c_str s'
  end.
Definition strlen (s : list Z) : nat := length (c_str s).

(** [strcmp(a, b) == 0] *)
Definition strcmp_eq (a b : list Z) : bool := bool_decide (c_str a = c_str b).

Lemma c_str_length s : (length (c_str s) <= length s)%nat.
Proof. induction s as [|c s IH]; cbn; [lia|]. case_match; cbn; lia. Qed.

Lemma c_str_no_nul s : Forall (fun c => c <> 0) s -> c_str s = s.
Proof.
  induction 1 as [|c s Hc _ IH]; cbn; [done|].
  rewrite (proj2 (Z.eqb_neq _ _) Hc). by rewrite IH.
Qed.

Lemma c_str_Forall s : Forall (fun c => c <> 0) (c_str s).
Proof.
  induction s as [|c s IH]; cbn; [constructor|].
  case_match; constructor; [by apply Z.eqb_neq|done].
Qed.

Lemma c_str_app_nul s t : Forall (fun c => c <> 0) s -> c_str (s ++ 0 :: t) = s.
Proof.
  induction 1 as [|c s Hc _ IH]; cbn; [done|].
  rewrite (proj2 (Z.eqb_neq _ _) Hc). by rewrite IH.
Qed.

Lemma c_str_idemp s : c_str (c_str s) = c_str s.
Proof. apply c_str_no_nul, c_str_Forall. Qed.

Lemma strcmp_eq_spec a b : strcmp_eq a b = true <-> c_str a = c_str b.
Proof. apply bool_decide_eq_true. Qed.

(** The bytes of an ASCII literal of the source. *)
Fixpoint bytes_of_string (s : string) : list Z :=
  match s with
  | EmptyString => []
  | String c s' => Z.of_N (Ascii.N_of_ascii c) :: bytes_of_string s'
  end.

(** ** First index satisfying a test: the [for (i = 0; i < n; i++) if (..)] loop *)
Fixpoint find_index {A} (p : A -> bool) (l : list A) : option nat :=
  match l with
  | [] => None
  | x :: l' => if p x then Some 0%nat else S <$> find_index p l'
  end.

Lemma find_index_Some {A} (p : A -> bool) l i :
  find_index p l = Some i <->
  (exists x, l !! i = Some x /\ p x = true) /\
  (forall j y, (j < i)%nat -> l !! j = Some y -> p y = false).
Proof.
  revert i. induction l as [|x l IH]; intros i; cbn.
  - split; [done|]. intros [(y & Hy & _) _]. by rewrite lookup_nil in Hy.
  - destruct (p x) eqn:Hp.
    + split.
      * intros [= <-]. split; [by exists x|]. lia.
      * intros [_ Hlt]. destruct i as [|i]; [done|].
        specialize (Hlt 0%nat x ltac:(lia) eq_refl). congruence.
    + destruct i as [|i].
      * split; [by destruct (find_index p l)|].
        intros [(y & [= <-] & Hy) _]. congruence.
      * transitivity (find_index p l = Some i).
        { destruct (find_index p l); naive_solver. }
        rewrite IH. split; intros [H1 H2]; split; [done| |done|].
        -- intros [|j] y Hj Hy; cbn in Hy; [naive_solver|]. apply (H2 j); [lia|done].
        -- intros j y Hj Hy. apply (H2 (S j)); [lia|done].
Qed.

Lemma find_index_None {A} (p : A -> bool) l :
  find_index p l = None <-> forall i x, l !! i = Some x -> p x = false.
Proof.
  induction l as [|x l IH]; cbn.
  - split; [|done]. intros _ i x Hx. by rewrite lookup_nil in Hx.
  - destruct (p x) eqn:Hp.
    + split; [done|]. intros H. specialize (H 0%nat x eq_refl). congruence.
    + rewrite fmap_None, IH. split.
      * intros H [|i] y Hy; cbn in Hy; [naive_solver|eauto].
      * intros H i y Hy. apply (H (S i)). done.
Qed.

Lemma find_index_lt {A} (p : A -> bool) l i :
  find_index p l = Some i -> (i < length l)%nat.
Proof. intros [(x & Hx & _) _]%find_index_Some. by apply lookup_lt_Some in Hx. Qed.

(** ** Tactics of the library *)

(** Split on the boolean tests of a goal, keeping the arithmetic facts. *)
Ltac case_bool :=
  match goal with
  | |- context [Z.eqb ?a ?b] => destruct (Z.eqb_spec a b)
  | |- context [Z.ltb ?a ?b] => destruct (Z.ltb_spec a b)
  | |- context [Z.leb ?a ?b] => destruct (Z.leb_spec a b)
  | |- context [Nat.eqb ?a ?b] => destruct (Nat.eqb_spec a b)
  | |- context [Nat.ltb ?a ?b] => destruct (Nat.ltb_spec a b)
  | |- context [Nat.leb ?a ?b] => destruct (Nat.leb_spec a b)
  end.

(** Linear arithmetic with division and modulo by constants. *)
Ltac mod_lia := zify; Z.to_euclidean_division_equations; lia.

(** ** Bit fields *)

Lemma testbit_small b n k : 0 <= b < 2 ^ n -> n <= k -> Z.testbit b k = false.
Proof.
  intros Hb Hk. destruct (decide (b = 0)) as [->|]; [apply Z.bits_0|].
  apply Z.bits_above_log2; [lia|].
  assert (0 <= n) by (destruct (Z.leb_spec 0 n); [done|]; rewrite Z.pow_neg_r in Hb by lia; lia).
  eapply Z.lt_le_trans; [|exact Hk]. apply Z.log2_lt_pow2; lia.
Qed.

Lemma land_shiftl_small a b n : 0 <= n -> 0 <= b < 2 ^ n -> Z.land (Z.shiftl a n) b = 0.
Proof.
  intros Hn Hb. apply Z.bits_inj'. intros k Hk. rewrite Z.land_spec, Z.bits_0, Z.shiftl_spec by lia.
  destruct (Z.ltb_spec k n).
  - by rewrite Z.testbit_neg_r by lia.
  - by rewrite (testbit_small b n k), andb_false_r by lia.
Qed.

(** Packing a field below a shifted one is addition. *)
Lemma lor_shiftl_small a b n :
  0 <= n -> 0 <= b < 2 ^ n -> Z.lor (Z.shiftl a n) b = a * 2 ^ n + b.
Proof.
  intros Hn Hb. pose proof (Z.add_lor_land (Z.shiftl a n) b) as H.
  rewrite land_shiftl_small, Z.shiftl_mul_pow2 in H by lia.
  rewrite Z.shiftl_mul_pow2 by lia. lia.
Qed.

Lemma lor_mul_small a b n :
  0 <= n -> 0 <= b < 2 ^ n -> Z.lor (a * 2 ^ n) b = a * 2 ^ n + b.
Proof. intros. rewrite <- (Z.shiftl_mul_pow2 a n) at 1 by lia. by apply lor_shiftl_small. Qed.

(** Unpacking it again. *)
Lemma shiftr_pack a b n : 0 <= n -> 0 <= b < 2 ^ n -> Z.shiftr (a * 2 ^ n + b) n = a.
Proof.
  intros Hn Hb. rewrite Z.shiftr_div_pow2, Z.add_comm, Z.div_add by lia.
  rewrite Z.div_small by lia. lia.
Qed.
