(* ===== verification/Digits.v ===== *)
(** * Positional notation

    Digit strings in a radix, their value, and the printers and scanners of
    decimal numbers that several components share: C's [strtol], OCaml's
    [%ld], and the reference for the digit printers of dtoa.c. *)
From S2P Require Import Prelude.

(** The value of digits, most significant first, after an accumulator. *)
Fixpoint digits_acc (r acc : Z) (ds : list Z) : Z :=
  match ds with [] => acc | d :: ds' => digits_acc r (acc * r + d) ds' end.
Definition digits_value (r : Z) (ds : list Z) : Z := digits_acc r 0 ds.

(** The digits of [n] in radix [r], without leading zeros ([[0]] for 0). *)
Fixpoint to_digits_fuel (fuel : nat) (r n : Z) : list Z :=
  match fuel with
  | O => [n]
  | S fuel => if n <? r then [n] else to_digits_fuel fuel r (n / r) ++ [n mod r]
  end.
Definition to_digits (r n : Z) : list Z := to_digits_fuel (S (Z.to_nat (Z.log2 n))) r n.

Lemma digits_acc_app r acc ds es :
  digits_acc r acc (ds ++ es) = digits_acc r (digits_acc r acc ds) es.
Proof. revert acc. induction ds; intros acc; cbn; [done|auto]. Qed.

Lemma to_digits_fuel_spec fuel r n :
  2 <= r -> 0 <= n -> n < 2 ^ Z.of_nat fuel ->
  digits_value r (to_digits_fuel fuel r n) = n /\
  Forall (fun d => 0 <= d < r) (to_digits_fuel fuel r n) /\ to_digits_fuel fuel r n <> [].
Proof.
  intros Hr. revert n. induction fuel as [|fuel IH]; intros n Hn Hlt; cbn [to_digits_fuel].
  { cbn in Hlt. assert (n = 0) as -> by lia. repeat constructor; lia || done. }
  destruct (Z.ltb_spec n r) as [Hnr|Hnr].
  { unfold digits_value. cbn. repeat constructor; lia || done. }
  assert (0 <= n / r /\ n / r < 2 ^ Z.of_nat fuel) as [Hq Hq'].
  { split; [apply Z.div_pos; lia|]. apply Z.div_lt_upper_bound; [lia|].
    rewrite Nat2Z.inj_succ, Z.pow_succ_r in Hlt by lia. nia. }
  destruct (IH (n / r) Hq Hq') as (Hv & Hf & Hne).
  pose proof (Z.mod_pos_bound n r ltac:(lia)).
  split; [|split].
  - unfold digits_value in *. rewrite digits_acc_app, Hv. cbn.
    pose proof (Z.div_mod n r ltac:(lia)). lia.
  - apply Forall_app. split; [done|]. repeat constructor; lia.
  - intros [_ ?]%app_eq_nil. done.
Qed.

Lemma to_digits_spec r n :
  2 <= r -> 0 <= n ->
  digits_value r (to_digits r n) = n /\
  Forall (fun d => 0 <= d < r) (to_digits r n) /\ to_digits r n <> [].
Proof.
  intros Hr Hn. apply to_digits_fuel_spec; [done..|].
  rewrite Nat2Z.inj_succ, Z2Nat.id by apply Z.log2_nonneg.
  destruct (decide (n = 0)) as [->|]; [done|]. apply Z.log2_spec. lia.
Qed.

(** ** Decimal text *)

Definition ch_0 : Z := 48.
Definition ch_minus : Z := 45.
Definition ch_plus : Z := 43.
Definition ch_bar : Z := 124.

Definition is_digit (c : Z) : bool := (48 <=? c) && (c <=? 57).
Definition is_space (c : Z) : bool := (c =? 32) || ((9 <=? c) && (c <=? 13)).

(** Signed decimal, as printf's [%ld] and OCaml's [Printf.sprintf "%ld"]. *)
Definition print_int (n : Z) : list Z :=
  if n <? 0 then ch_minus :: (Z.add ch_0 <$> to_digits 10 (- n))
  else Z.add ch_0 <$> to_digits 10 n.

(** The longest prefix of digits, and the rest. *)
Fixpoint span_digits (s : list Z) : list Z * list Z :=
  match s with
  | [] => ([], [])
  | c :: s' => if is_digit c then let '(d, rest) := span_digits s' in (c - ch_0 :: d, rest)
               else ([], s)
  end.

Fixpoint skip_spaces (s : list Z) : list Z :=
  match s with
  | c :: s' => if is_space c then skip_spaces s' else s
  | [] => []
  end.

Definition LONG_MIN : Z := - 2 ^ 63.
Definition LONG_MAX : Z := 2 ^ 63 - 1.
Definition clamp_long (x : Z) : Z := Z.min LONG_MAX (Z.max LONG_MIN x).

(** [strtol(s, &end, 10)]: the value and the text from [end] on; when there
    is no digit, [end] is [s]. *)
Definition strtol10 (s : list Z) : Z * list Z :=
  let s1 := skip_spaces s in
  let '(neg, s2) := match s1 with
                    | c :: s' => if c =? ch_minus then (true, s')
                                 else if c =? ch_plus then (false, s') else (false, s1)
                    | [] => (false, [])
                    end in
  match span_digits s2 with
  | ([], _) => (0, s)
  | (ds, rest) => let v := digits_value 10 ds in
                  (clamp_long (if neg then - v else v), rest)
  end.

Definition stops_digits (s : list Z) : Prop :=
  match s with [] => True | c :: _ => is_digit c = false end.

Lemma is_digit_chr d : 0 <= d < 10 -> is_digit (ch_0 + d) = true.
Proof. intros. unfold is_digit, ch_0. lia. Qed.

Lemma span_digits_print ds rest :
  Forall (fun d => 0 <= d < 10) ds -> stops_digits rest ->
  span_digits ((Z.add ch_0 <$> ds) ++ rest) = (ds, rest).
Proof.
  intros Hds Hrest. induction Hds as [|d ds Hd _ IH]; cbn [fmap list_fmap app span_digits].
  - destruct rest as [|c rest]; cbn; [done|]. cbn in Hrest. by rewrite Hrest.
  - rewrite is_digit_chr, IH by done. repeat f_equal. lia.
Qed.

Lemma strtol10_unsigned ds rest :
  Forall (fun d => 0 <= d < 10) ds -> ds <> [] -> stops_digits rest ->
  strtol10 ((Z.add ch_0 <$> ds) ++ rest) = (clamp_long (digits_value 10 ds), rest).
Proof.
  intros Hds Hne Hrest. destruct ds as [|d ds]; [done|]. pose proof Hds as Hds0.
  inversion Hds as [|? ? Hd _]; subst. unfold strtol10. cbn [fmap list_fmap app skip_spaces].
  assert (is_space (ch_0 + d) = false) as -> by (unfold is_space, ch_0; lia).
  assert ((ch_0 + d =? ch_minus) = false) as -> by (unfold ch_0, ch_minus; lia).
  assert ((ch_0 + d =? ch_plus) = false) as -> by (unfold ch_0, ch_plus; lia).
  pose proof (span_digits_print (d :: ds) rest Hds0 Hrest) as Hsp.
  cbn [fmap list_fmap app] in Hsp. by rewrite Hsp.
Qed.

(** Scanning what [%ld] printed gives the number back. *)
Lemma strtol10_print_int n rest :
  LONG_MIN <= n <= LONG_MAX -> stops_digits rest ->
  strtol10 (print_int n ++ rest) = (n, rest).
Proof.
  intros Hn Hrest. unfold print_int. destruct (Z.ltb_spec n 0).
  - destruct (to_digits_spec 10 (- n)) as (Hv & Hf & Hne); [lia..|].
    cbn [app]. unfold strtol10. cbn [skip_spaces].
    change (is_space ch_minus) with false. cbv iota. rewrite Z.eqb_refl.
    rewrite span_digits_print by done. destruct (to_digits 10 (- n)) as [|d ds]; [done|].
    rewrite Hv, Z.opp_involutive. unfold clamp_long, LONG_MIN, LONG_MAX in *. f_equal. lia.
  - destruct (to_digits_spec 10 n) as (Hv & Hf & Hne); [lia..|].
    rewrite strtol10_unsigned, Hv by done. unfold clamp_long, LONG_MIN, LONG_MAX in *. f_equal. lia.
Qed.

Lemma print_int_nonnil n : print_int n <> [].
Proof.
  unfold print_int. case_bool; [done|].
  destruct (to_digits_spec 10 n) as (_ & _ & Hne); [lia..|]. by intros ?%fmap_nil_inv.
Qed.

(** A printed number never contains a NUL byte. *)
Lemma print_int_no_nul n : Forall (fun c => c <> 0) (print_int n).
Proof.
  unfold print_int. case_bool; [constructor; [done|]|];
    (apply Forall_fmap; eapply Forall_impl; [apply to_digits_spec; lia|]);
    cbn; unfold ch_0; intros; lia.
Qed.

(** ** Digits in any radix *)

(** The [len] low digits of [n]. *)
Fixpoint fixed_digits (r : Z) (len : nat) (n : Z) : list Z :=
  match len with
  | O => []
  | S len' => fixed_digits r len' (n / r) ++ [n mod r]
  end.

(** The digit characters 0-9a-z. *)
Definition digit_char (d : Z) : Z := if d <? 10 then d + 48 else d + 87.

(** The text of an integer in radix [r]. *)
Definition print_radix (r n : Z) : list Z :=
  if n <? 0 then ch_minus :: (digit_char <$> to_digits r (- n)) else digit_char <$> to_digits r n.

Lemma to_digits_fuel_irrel f1 f2 r n :
  2 <= r -> 0 <= n -> n < 2 ^ Z.of_nat f1 -> n < 2 ^ Z.of_nat f2 ->
  to_digits_fuel f1 r n = to_digits_fuel f2 r n.
Proof.
  intros Hr. revert f2 n. induction f1 as [|f1 IH]; intros f2 n Hn H1 H2.
  { cbn in H1. assert (n = 0) as -> by lia. destruct f2; cbn; [done|]. case_bool; [done|lia]. }
  destruct f2 as [|f2].
  { cbn in H2. assert (n = 0) as -> by lia. cbn. case_bool; [done|lia]. }
  cbn [to_digits_fuel]. case_bool; [done|]. f_equal.
  rewrite Nat2Z.inj_succ, Z.pow_succ_r in H1, H2 by lia.
  apply IH; [apply Z.div_pos; lia|apply Z.div_lt_upper_bound; nia..].
Qed.

Lemma log2_fuel n : 0 <= n -> n < 2 ^ Z.of_nat (S (Z.to_nat (Z.log2 n))).
Proof.
  intros Hn. rewrite Nat2Z.inj_succ, Z2Nat.id by apply Z.log2_nonneg.
  destruct (decide (n = 0)) as [->|]; [done|]. apply Z.log2_spec. lia.
Qed.

Lemma to_digits_eq r n :
  2 <= r -> 0 <= n -> to_digits r n = if n <? r then [n] else to_digits r (n / r) ++ [n mod r].
Proof.
  intros Hr Hn. unfold to_digits at 1. cbn [to_digits_fuel]. case_bool; [done|]. f_equal.
  apply to_digits_fuel_irrel; [done|apply Z.div_pos; lia| |apply log2_fuel, Z.div_pos; lia].
  pose proof (log2_fuel n Hn) as Hl. rewrite Nat2Z.inj_succ, Z.pow_succ_r in Hl by lia.
  apply Z.div_lt_upper_bound; nia.
Qed.

Lemma fixed_digits_length r len n : length (fixed_digits r len n) = len.
Proof. revert n. induction len as [|len IH]; intros n; cbn; [done|]. rewrite length_app, IH. cbn. lia. Qed.

Lemma fixed_digits_cons r len n :
  0 < r -> fixed_digits r (S len) n = (n / r ^ Z.of_nat len) mod r :: fixed_digits r len n.
Proof.
  intros Hr. revert n. induction len as [|len IH]; intros n.
  - cbn. by rewrite Z.div_1_r.
  - change (fixed_digits r (S (S len)) n) with (fixed_digits r (S len) (n / r) ++ [n mod r]).
    rewrite IH. cbn [app]. f_equal.
    rewrite Nat2Z.inj_succ, Z.pow_succ_r, Z.div_div by (lia || apply Z.pow_pos_nonneg; lia). done.
Qed.

(** Printing a number is printing its high part, then [k] digits of the low part. *)
Lemma to_digits_split r k n :
  2 <= r -> 0 <= n -> 1 <= n / r ^ Z.of_nat k ->
  to_digits r n = to_digits r (n / r ^ Z.of_nat k) ++ fixed_digits r k n.
Proof.
  intros Hr. revert n. induction k as [|k IH]; intros n Hn Hq.
  - cbn. by rewrite Z.div_1_r, app_nil_r.
  - rewrite Nat2Z.inj_succ, Z.pow_succ_r in * by lia.
    assert (0 < r ^ Z.of_nat k) by (apply Z.pow_pos_nonneg; lia).
    rewrite <- Z.div_div in * by lia. rewrite (to_digits_eq r n) by done.
    case_bool; [exfalso; rewrite (Z.div_small n r), Z.div_0_l in Hq; lia|].
    cbn [fixed_digits]. rewrite IH by (try apply Z.div_pos; lia). by rewrite app_assoc.
Qed.

(** When [n] has exactly [S k] digits they are all of them. *)
Lemma fixed_digits_all r k n :
  2 <= r -> r ^ Z.of_nat k <= n < r ^ Z.of_nat (S k) -> fixed_digits r (S k) n = to_digits r n.
Proof.
  intros Hr Hn. assert (0 < r ^ Z.of_nat k) by (apply Z.pow_pos_nonneg; lia).
  rewrite Nat2Z.inj_succ, Z.pow_succ_r in Hn by lia.
  assert (1 <= n / r ^ Z.of_nat k) by (apply Z.div_le_lower_bound; lia).
  assert (n / r ^ Z.of_nat k < r) by (apply Z.div_lt_upper_bound; lia).
  rewrite (to_digits_split r k n), (to_digits_eq r (n / _)) by lia. case_bool; [|lia].
  rewrite fixed_digits_cons, Z.mod_small by lia. done.
Qed.

Lemma fixed_digits_mod r k n : 0 < r -> fixed_digits r k (n mod r ^ Z.of_nat k) = fixed_digits r k n.
Proof.
  intros Hr. revert n. induction k as [|k IH]; intros n; cbn [fixed_digits]; [done|].
  assert (0 < r ^ Z.of_nat k) by (apply Z.pow_pos_nonneg; lia).
  rewrite Nat2Z.inj_succ, Z.pow_succ_r by lia. rewrite Z.rem_mul_r by lia.
  rewrite (Z.mul_comm r), Z.div_add, Z.mod_add by lia.
  rewrite (Z.div_small (n mod r)) by (apply Z.mod_pos_bound; lia). by rewrite Z.add_0_l, IH, Z.mod_mod by lia.
Qed.
