(* ===== verification/HostQueue.v ===== *)
(** * The bounded host request queue (qjs/c/qjs_host_queue.c)

    The ring buffer through which a JavaScript host callback hands a request
    to OCaml.  Slots are a 256-element array, [head]/[tail]/[count] are its
    [size_t] indices (naturals: the invariant bounds them by the capacity, so
    they never wrap), [next_id] is a wrapping [uint64_t].  Payloads are
    malloc'd blocks of the heap of [Prelude], so ownership is visible: [push]
    takes a block, [take] gives it to the caller, [destroy] frees the rest. *)
From S2P Require Import Prelude.

Definition MLQJS_MAX_OP_LEN : nat := 64.
Definition MLQJS_QUEUE_CAP : nat := 256.

Record mlqjs_request := mk_request {
  req_id : Z;
  req_operation : list Z;
  req_payload : option loc;
  req_payload_len : Z }.

Record mlqjs_host_queue := mk_queue {
  q_slots : list mlqjs_request;
  q_head : nat;
  q_tail : nat;
  q_count : nat;
  q_next_id : Z }.

(** [memset(.., 0, ..)] of a request and of the queue. *)
Definition zero_request : mlqjs_request :=
  mk_request 0 (replicate MLQJS_MAX_OP_LEN 0) None 0.
Definition zero_queue : mlqjs_host_queue :=
  mk_queue (replicate MLQJS_QUEUE_CAP zero_request) 0 0 0 0.

Definition mlqjs_host_queue_init : mlqjs_host_queue :=
  mk_queue (q_slots zero_queue) (q_head zero_queue) (q_tail zero_queue)
    (q_count zero_queue) 1.

(** The loop of [destroy]: free each slot's payload. *)
Fixpoint free_slots (rs : list mlqjs_request) : M (gmap loc (list Z)) unit :=
  match rs with
  | [] => mret tt
  | r :: rs' => free (req_payload r) ;;; free_slots rs'
  end.

Definition mlqjs_host_queue_destroy (q : mlqjs_host_queue) :
    M (gmap loc (list Z)) mlqjs_host_queue :=
  free_slots (q_slots q) ;;; mret zero_queue.

(** [memcpy(dst, src, n); dst[n] = 0] on a fixed array. *)
Definition copy_string (dst src : list Z) (n : nat) : list Z :=
  take n src ++ [0] ++ drop (S n) dst.

(** [op ? op : ""] *)
Definition op_bytes (op : option (list Z)) : list Z :=
  match op with Some s => s | None => [] end.

Definition req_set (r : mlqjs_request) (id : Z) (op : option (list Z))
    (payload : option loc) (payload_len : Z) : mlqjs_request :=
  let op_len := match op with Some s => strlen s | None => 0%nat end in
  let op_len := if (MLQJS_MAX_OP_LEN <=? op_len)%nat then (MLQJS_MAX_OP_LEN - 1)%nat else op_len in
  mk_request id
    (copy_string (req_operation r) (op_bytes op) op_len)
    payload payload_len.

(** [push] returns the queue and the id, 0 when the queue is full. *)
Definition mlqjs_host_queue_push (q : mlqjs_host_queue) (op : option (list Z))
    (payload : option loc) (payload_len : Z) :
    M (gmap loc (list Z)) (mlqjs_host_queue * Z) :=
  if (MLQJS_QUEUE_CAP <=? q_count q)%nat then
    free payload ;;; mret (q, 0)
  else
    let slot := q_tail q in
    let id := q_next_id q in
    let r := req_set (default zero_request (q_slots q !! slot)) id op payload payload_len in
    mret (mk_queue (<[slot := r]> (q_slots q)) (q_head q)
            ((q_tail q + 1) mod MLQJS_QUEUE_CAP)%nat (q_count q + 1)%nat
            (u64 (q_next_id q + 1)), id).

(** [take] with the caller's [out] buffer; [None] when it returns 0. *)
Definition mlqjs_host_queue_take (q : mlqjs_host_queue) (out : mlqjs_request) :
    option (mlqjs_host_queue * mlqjs_request) :=
  if (q_count q =? 0)%nat then None
  else
    let src := default zero_request (q_slots q !! q_head q) in
    let out' := req_set out (req_id src) (Some (req_operation src))
                  (req_payload src) (req_payload_len src) in
    let src' := mk_request 0 (req_operation src) None 0 in
    Some (mk_queue (<[q_head q := src']> (q_slots q))
            ((q_head q + 1) mod MLQJS_QUEUE_CAP)%nat (q_tail q)
            (q_count q - 1)%nat (q_next_id q), out').

Definition mlqjs_host_queue_count (q : mlqjs_host_queue) : nat := q_count q.

(** ** Abstract view: a FIFO of at most 256 requests *)

(** What a request means to its reader: the operation is a C string. *)
Definition view (r : mlqjs_request) : Z * list Z * option loc * Z :=
  (req_id r, c_str (req_operation r), req_payload r, req_payload_len r).

(** The array index of the [i]-th live request. *)
Definition slot_of (head i : nat) : nat := ((head + i) mod MLQJS_QUEUE_CAP)%nat.

Definition nth_live (q : mlqjs_host_queue) (i : nat) : mlqjs_request :=
  default zero_request (q_slots q !! slot_of (q_head q) i).

Definition live (q : mlqjs_host_queue) : list mlqjs_request :=
  nth_live q <$> seq 0 (q_count q).

Definition contents (q : mlqjs_host_queue) : list (Z * list Z * option loc * Z) :=
  view <$> live q.

(** The blocks the queue owns. *)
Definition payloads (q : mlqjs_host_queue) : list loc := omap req_payload (live q).

(** The operation name as it reaches the reader: cut to 63 bytes. *)
Definition op_name (op : option (list Z)) : list Z :=
  take (MLQJS_MAX_OP_LEN - 1) (c_str (op_bytes op)).

Record queue_wf (q : mlqjs_host_queue) : Prop := {
  wf_slots : length (q_slots q) = MLQJS_QUEUE_CAP;
  wf_head : (q_head q < MLQJS_QUEUE_CAP)%nat;
  wf_count : (q_count q <= MLQJS_QUEUE_CAP)%nat;
  wf_tail : q_tail q = slot_of (q_head q) (q_count q);
  wf_ops : Forall (fun r => length (req_operation r) = MLQJS_MAX_OP_LEN /\
                            (strlen (req_operation r) < MLQJS_MAX_OP_LEN)%nat) (q_slots q);
  (* a slot outside the live window holds no block *)
  wf_dead : forall i, (q_count q <= i < MLQJS_QUEUE_CAP)%nat ->
              req_payload (nth_live q i) = None }.

(** The queue owns its payloads: they are live blocks, each held once. *)
Definition queue_owns (h : gmap loc (list Z)) (q : mlqjs_host_queue) : Prop :=
  NoDup (payloads q) /\ forall l, l ∈ payloads q -> is_Some (h !! l).

(** ** Slots of the ring *)

Lemma slot_of_lt head i : (slot_of head i < MLQJS_QUEUE_CAP)%nat.
Proof. unfold slot_of, MLQJS_QUEUE_CAP. mod_lia. Qed.

Lemma slot_of_inj head i j :
  (i < MLQJS_QUEUE_CAP)%nat -> (j < MLQJS_QUEUE_CAP)%nat ->
  slot_of head i = slot_of head j -> i = j.
Proof. unfold slot_of, MLQJS_QUEUE_CAP. mod_lia. Qed.

Lemma slot_of_0 head : (head < MLQJS_QUEUE_CAP)%nat -> slot_of head 0 = head.
Proof. unfold slot_of, MLQJS_QUEUE_CAP. mod_lia. Qed.

Lemma slot_of_next head i :
  slot_of ((head + 1) mod MLQJS_QUEUE_CAP) i = slot_of head (S i).
Proof. unfold slot_of, MLQJS_QUEUE_CAP. mod_lia. Qed.

Lemma slot_of_succ head i :
  ((slot_of head i + 1) mod MLQJS_QUEUE_CAP)%nat = slot_of head (i + 1).
Proof. unfold slot_of, MLQJS_QUEUE_CAP. mod_lia. Qed.

Lemma slot_of_wrap head i :
  slot_of head (MLQJS_QUEUE_CAP + i) = slot_of head i.
Proof. unfold slot_of, MLQJS_QUEUE_CAP. mod_lia. Qed.

(** Writing one slot changes one position of the window. *)
Lemma nth_live_insert q head slots tail count nid k r i :
  length (q_slots q) = MLQJS_QUEUE_CAP ->
  slots = <[slot_of head k := r]> (q_slots q) ->
  head = q_head q ->
  (k < MLQJS_QUEUE_CAP)%nat -> (i < MLQJS_QUEUE_CAP)%nat ->
  nth_live (mk_queue slots head tail count nid) i = if decide (i = k) then r else nth_live q i.
Proof.
  intros Hlen -> -> Hk Hi. unfold nth_live. cbn. case_decide as E; [subst i|].
  - rewrite list_lookup_insert_eq; [done|]. rewrite Hlen. apply slot_of_lt.
  - rewrite list_lookup_insert_ne; [done|]. intros H%slot_of_inj; done.
Qed.

(** *** The request record *)

Lemma copy_string_c_str dst s n :
  (n <= strlen s)%nat -> c_str (copy_string dst s n) = take n (c_str s).
Proof.
  intros Hn. unfold copy_string.
  assert (take n s = take n (c_str s)) as ->.
  { revert n Hn. unfold strlen. induction s as [|c s IH]; intros [|n] Hn; cbn in *; try done.
    - destruct (Z.eqb_spec c 0); cbn in *; [lia|]. f_equal. apply IH. lia. }
  apply c_str_app_nul, Forall_take, c_str_Forall.
Qed.

Lemma req_set_view r id op p len :
  view (req_set r id op p len) = (id, op_name op, p, len).
Proof.
  unfold view, req_set, op_name. cbn [req_id req_operation req_payload req_payload_len].
  f_equal; f_equal; f_equal. destruct op as [s|]; cbn [op_bytes].
  - destruct (Nat.leb_spec MLQJS_MAX_OP_LEN (strlen s)); cbv iota;
      rewrite copy_string_c_str by lia; [done|].
    rewrite !take_ge; [done|unfold strlen in *; lia|unfold strlen in *; lia].
  - done.
Qed.

Lemma req_set_op_wf r id op p len :
  length (req_operation r) = MLQJS_MAX_OP_LEN ->
  length (req_operation (req_set r id op p len)) = MLQJS_MAX_OP_LEN /\
  (strlen (req_operation (req_set r id op p len)) < MLQJS_MAX_OP_LEN)%nat.
Proof.
  intros Hr. pose proof (f_equal (fun v => v.1.1.2) (req_set_view r id op p len)) as Hv.
  unfold view in Hv. cbn [fst snd] in Hv. split.
  - unfold req_set, copy_string. cbn [req_operation].
    rewrite !length_app, length_drop, length_take, Hr. cbn [length].
    destruct op as [s|]; cbn [op_bytes];
      [pose proof (c_str_length s)|]; unfold strlen, MLQJS_MAX_OP_LEN in *;
      [destruct (Nat.leb_spec 64 (length (c_str s)))|]; cbn -[Nat.sub]; lia.
  - unfold strlen. rewrite Hv. unfold op_name, MLQJS_MAX_OP_LEN. rewrite length_take. lia.
Qed.

Lemma wf_default_op q i :
  queue_wf q ->
  length (req_operation (default zero_request (q_slots q !! i))) = MLQJS_MAX_OP_LEN /\
  (strlen (req_operation (default zero_request (q_slots q !! i))) < MLQJS_MAX_OP_LEN)%nat.
Proof.
  intros Hwf. destruct (q_slots q !! i) as [r|] eqn:E; cbn [default from_option].
  - pose proof (wf_ops q Hwf) as H. rewrite Forall_lookup in H. by eapply H.
  - by split; [|apply Nat.ltb_lt].

Qed.

Lemma op_name_short op :
  (strlen op < MLQJS_MAX_OP_LEN)%nat -> op_name (Some op) = c_str op.
Proof. intros H. unfold op_name; cbn [op_bytes]. apply take_ge.
  unfold strlen in H. lia. Qed.

(** *** What each operation does to the window *)

Lemma live_ext q q' n :
  (forall i, (i < n)%nat -> nth_live q i = nth_live q' i) ->
  nth_live q <$> seq 0 n = nth_live q' <$> seq 0 n.
Proof. intros H. apply list_fmap_ext. intros i x [-> Hi]%lookup_seq. apply H. lia. Qed.

(** The queue after a push that fits. *)
Definition pushed (q : mlqjs_host_queue) (op : option (list Z)) (p : option loc) (len : Z) :=
  mk_queue
    (<[q_tail q := req_set (default zero_request (q_slots q !! q_tail q)) (q_next_id q) op p len]>
       (q_slots q))
    (q_head q) ((q_tail q + 1) mod MLQJS_QUEUE_CAP)%nat (q_count q + 1)%nat
    (u64 (q_next_id q + 1)).

Lemma push_fits q op p len h :
  (q_count q < MLQJS_QUEUE_CAP)%nat ->
  mlqjs_host_queue_push q op p len h = (h, Ok (pushed q op p len, q_next_id q)).
Proof.
  intros Hc. unfold mlqjs_host_queue_push.
  destruct (Nat.leb_spec MLQJS_QUEUE_CAP (q_count q)); [lia|done].
Qed.

Lemma push_full q op p len h :
  (MLQJS_QUEUE_CAP <= q_count q)%nat ->
  mlqjs_host_queue_push q op p len h = (free p ;;; mret (q, 0)) h.
Proof.
  intros Hc. unfold mlqjs_host_queue_push.
  destruct (Nat.leb_spec MLQJS_QUEUE_CAP (q_count q)); [done|lia].
Qed.

Section Push.
Context (q : mlqjs_host_queue) (op : option (list Z)) (p : option loc) (len : Z).
Context (Hwf : queue_wf q) (Hc : (q_count q < MLQJS_QUEUE_CAP)%nat).

Lemma pushed_nth i :
  (i < MLQJS_QUEUE_CAP)%nat ->
  nth_live (pushed q op p len) i =
    if decide (i = q_count q)
    then req_set (default zero_request (q_slots q !! q_tail q)) (q_next_id q) op p len
    else nth_live q i.
Proof.
  intros Hi. unfold pushed. apply nth_live_insert; try done.
  - apply Hwf.
  - by rewrite (wf_tail q Hwf).
Qed.

Lemma pushed_live :
  live (pushed q op p len) =
  live q ++ [req_set (default zero_request (q_slots q !! q_tail q)) (q_next_id q) op p len].
Proof.
  unfold live. replace (q_count (pushed q op p len)) with (q_count q + 1)%nat by done.
  rewrite seq_app, fmap_app. cbn [seq fmap list_fmap Nat.add]. f_equal.
  - apply live_ext. intros i Hi. rewrite pushed_nth by lia. case_decide; [lia|done].
  - rewrite pushed_nth by lia. by case_decide.
Qed.

Lemma pushed_contents :
  contents (pushed q op p len) = contents q ++ [(q_next_id q, op_name op, p, len)].
Proof. unfold contents. rewrite pushed_live, fmap_app. cbn. by rewrite req_set_view. Qed.

Lemma pushed_payloads :
  payloads (pushed q op p len) = payloads q ++ option_list p.
Proof. unfold payloads. rewrite pushed_live, omap_app. by destruct p. Qed.

Lemma pushed_wf : queue_wf (pushed q op p len).
Proof.
  destruct (wf_default_op q (q_tail q) Hwf) as [Ho _].
  split; cbn [pushed q_slots q_head q_tail q_count].
  - rewrite length_insert. apply Hwf.
  - apply Hwf.
  - lia.
  - rewrite (wf_tail q Hwf). apply slot_of_succ.
  - apply Forall_insert; [apply Hwf|]. by apply req_set_op_wf.
  - intros i Hi. rewrite pushed_nth by lia. case_decide; [lia|].
    apply (wf_dead q Hwf). lia.
Qed.
End Push.

(** The queue after a take, and the request it hands out. *)
Definition taken (q : mlqjs_host_queue) : mlqjs_host_queue :=
  mk_queue
    (<[q_head q := mk_request 0 (req_operation (default zero_request (q_slots q !! q_head q))) None 0]>
       (q_slots q))
    ((q_head q + 1) mod MLQJS_QUEUE_CAP)%nat (q_tail q) (q_count q - 1)%nat (q_next_id q).

Section Take.
Context (q : mlqjs_host_queue) (Hwf : queue_wf q) (Hc : (q_count q <> 0)%nat).

Lemma nth_live_0 : nth_live q 0 = default zero_request (q_slots q !! q_head q).
Proof. clear Hc. unfold nth_live. rewrite slot_of_0; [done|apply Hwf]. Qed.

Lemma take_some out :
  exists out', mlqjs_host_queue_take q out = Some (taken q, out') /\
               view out' = view (nth_live q 0).
Proof.
  unfold mlqjs_host_queue_take. rewrite (proj2 (Nat.eqb_neq _ _) Hc).
  eexists. split; [reflexivity|]. rewrite req_set_view, nth_live_0. unfold view.
  rewrite op_name_short; [done|]. apply (wf_default_op q (q_head q) Hwf).
Qed.

Lemma taken_nth i :
  (i < MLQJS_QUEUE_CAP)%nat ->
  nth_live (taken q) i =
    if decide (S i = MLQJS_QUEUE_CAP)
    then mk_request 0 (req_operation (nth_live q 0)) None 0
    else nth_live q (S i).
Proof.
  clear Hc. intros Hi. unfold nth_live at 1. cbn [taken q_slots q_head].
  rewrite slot_of_next, <- nth_live_0. case_decide as E.
  - assert (slot_of (q_head q) (S i) = q_head q) as ->.
    { rewrite E, <- (Nat.add_0_r MLQJS_QUEUE_CAP), slot_of_wrap.
      apply slot_of_0, Hwf. }
    rewrite list_lookup_insert_eq; [done|]. rewrite (wf_slots q Hwf). apply Hwf.
  - rewrite list_lookup_insert_ne; [done|]. intros Heq.
    rewrite <- (slot_of_0 (q_head q)) in Heq at 1 by apply Hwf.
    apply slot_of_inj in Heq; lia.
Qed.

Lemma live_taken : live q = nth_live q 0 :: live (taken q).
Proof.
  unfold live. cbn [taken q_count]. destruct (q_count q) as [|n] eqn:E; [done|].
  cbn [seq fmap list_fmap]. f_equal. rewrite Nat.sub_succ, Nat.sub_0_r.
  rewrite <- fmap_S_seq, <- list_fmap_compose. apply list_fmap_ext.
  intros i x [-> Hi]%lookup_seq. cbn [compose].
  pose proof (wf_count q Hwf). rewrite taken_nth by lia. case_decide; [lia|done].
Qed.

Lemma contents_taken : contents q = view (nth_live q 0) :: contents (taken q).
Proof. unfold contents. by rewrite live_taken. Qed.

Lemma payloads_taken :
  payloads q = option_list (req_payload (nth_live q 0)) ++ payloads (taken q).
Proof. unfold payloads. rewrite live_taken. cbn. by destruct (req_payload _). Qed.

Lemma taken_wf : queue_wf (taken q).
Proof.
  pose proof (wf_count q Hwf). split; cbn [taken q_slots q_head q_tail q_count].
  - rewrite length_insert. apply Hwf.
  - apply Nat.mod_upper_bound. done.
  - lia.
  - rewrite slot_of_next, (wf_tail q Hwf). f_equal. lia.
  - apply Forall_insert; [apply Hwf|]. apply (wf_default_op q (q_head q) Hwf).
  - intros i Hi. rewrite taken_nth by lia. case_decide; [done|].
    apply (wf_dead q Hwf). lia.
Qed.
End Take.

Lemma take_none q out : q_count q = 0%nat -> mlqjs_host_queue_take q out = None.
Proof. intros E. unfold mlqjs_host_queue_take. by rewrite E. Qed.

Lemma contents_length q : length (contents q) = q_count q.
Proof. unfold contents, live. by rewrite !length_fmap, length_seq. Qed.

Lemma init_wf : queue_wf mlqjs_host_queue_init.
Proof.
  split; cbn [mlqjs_host_queue_init zero_queue q_slots q_head q_tail q_count]; try done.
  - apply Nat.ltb_lt. done.
  - lia.
  - apply Forall_replicate. by split; [|apply Nat.ltb_lt].
  - intros i _. unfold nth_live. cbn [mlqjs_host_queue_init zero_queue q_slots q_head].
    destruct (replicate _ _ !! _) eqn:E; [|done].
    apply lookup_replicate in E as [-> _]. done.
Qed.

(** ** Abstract specification: a bounded FIFO of byte strings

    The contract of [qjs_host_queue.h]: at most 256 requests, served in the
    order they were accepted, each with the next id and its own payload. *)
Module Fifo.
Definition item : Type := Z * list Z * option (list Z) * Z.

Record t := mk { items : list item; next : Z }.

Definition init : t := mk [] 1.

Definition push (f : t) (op : option (list Z)) (bytes : list Z) : t * Z :=
  if (MLQJS_QUEUE_CAP <=? length (items f))%nat then (f, 0)
  else (mk (items f ++ [(next f, op_name op, Some bytes, Z.of_nat (length bytes))])
           (u64 (next f + 1)), next f).

Definition take (f : t) : t * option item :=
  match items f with
  | [] => (f, None)
  | x :: rest => (mk rest (next f), Some x)
  end.
End Fifo.

(** The two uses the stubs make of the queue: a producer that mallocs the
    payload it pushes, a consumer that copies the payload out and frees it. *)
Inductive cmd :=
| Push (op : option (list Z)) (bytes : list Z)
| Take (out : mlqjs_request).

Inductive reply :=
| Pushed (id : Z)
| Taken (r : option Fifo.item).

Definition cstate : Type := mlqjs_host_queue * gmap loc (list Z).

(** The payload bytes behind a request. *)
Definition read (h : gmap loc (list Z)) (v : Z * list Z * option loc * Z) : Fifo.item :=
  (v.1.1.1, v.1.1.2, v.1.2 ≫= (fun l => h !! l), v.2).

Definition run_cmd (c : cmd) (s : cstate) : cstate * outcome reply :=
  let '(q, h) := s in
  match c with
  | Push op bytes =>
      match (let* p := malloc true bytes in
             mlqjs_host_queue_push q op p (Z.of_nat (length bytes))) h with
      | (h', Ok (q', id)) => ((q', h'), Ok (Pushed id))
      | (h', _) => ((q, h'), UB "push")
      end
  | Take out =>
      match mlqjs_host_queue_take q out with
      | None => ((q, h), Ok (Taken None))
      | Some (q', r) =>
          match free (req_payload r) h with
          | (h', Ok _) => ((q', h'), Ok (Taken (Some (read h (view r)))))
          | (h', _) => ((q', h'), UB "take")
          end
      end
  end.

Fixpoint run_cmds (cs : list cmd) (s : cstate) : cstate * list (outcome reply) :=
  match cs with
  | [] => (s, [])
  | c :: cs' =>
      let '(s', r) := run_cmd c s in
      let '(s'', rs) := run_cmds cs' s' in (s'', r :: rs)
  end.

Definition spec_cmd (c : cmd) (f : Fifo.t) : Fifo.t * reply :=
  match c with
  | Push op bytes => let '(f', id) := Fifo.push f op bytes in (f', Pushed id)
  | Take _ => let '(f', r) := Fifo.take f in (f', Taken r)
  end.

Fixpoint spec_cmds (cs : list cmd) (f : Fifo.t) : Fifo.t * list reply :=
  match cs with
  | [] => (f, [])
  | c :: cs' =>
      let '(f', r) := spec_cmd c f in
      let '(f'', rs) := spec_cmds cs' f' in (f'', r :: rs)
  end.

(** The simulation relation: same requests, and the heap holds exactly the
    queued payloads (nothing leaked, nothing freed early). *)
Record refines (s : cstate) (f : Fifo.t) : Prop := {
  ref_wf : queue_wf s.1;
  ref_items : read s.2 <$> contents s.1 = Fifo.items f;
  ref_next : q_next_id s.1 = Fifo.next f;
  ref_nodup : NoDup (payloads s.1);
  ref_heap : forall l, is_Some (s.2 !! l) <-> l ∈ payloads s.1 }.

Lemma payloads_elem q v l :
  v ∈ contents q -> v.1.2 = Some l -> l ∈ payloads q.
Proof.
  unfold contents, payloads. intros (r & -> & Hr)%list_elem_of_fmap Hl.
  apply list_elem_of_omap. by exists r.
Qed.

(** Reading is unaffected by a change to a block the queue does not own. *)
Lemma read_contents_ext q h h' :
  (forall l, l ∈ payloads q -> h !! l = h' !! l) ->
  read h <$> contents q = read h' <$> contents q.
Proof.
  intros H. apply list_fmap_ext. intros i v Hv%list_elem_of_lookup_2.
  unfold read. f_equal. f_equal. destruct (v.1.2) as [l|] eqn:E; [|done]. cbn.
  apply H. by eapply payloads_elem.
Qed.

Lemma refines_push s f op bytes :
  refines s f ->
  exists s', run_cmd (Push op bytes) s = (s', Ok (Pushed (Fifo.push f op bytes).2)) /\
             refines s' (Fifo.push f op bytes).1.
Proof.
  destruct s as [q h]. intros [Hwf Hit Hnx Hnd Hh]; cbn [fst snd] in *.
  assert (length (Fifo.items f) = q_count q) as Hlen
    by (by rewrite <- Hit, length_fmap, contents_length).
  set (l := fresh (dom h)).
  assert (h !! l = None) as Hl by apply not_elem_of_dom, is_fresh.
  assert (l ∉ payloads q) as Hlq by (rewrite <- Hh, Hl; by intros []).
  unfold run_cmd, Fifo.push. unfold mbind at 1. cbn [malloc fst snd]. fold l. rewrite Hlen.
  destruct (Nat.leb_spec MLQJS_QUEUE_CAP (q_count q)).
  - rewrite push_full by done. unfold mbind, mret, free. rewrite lookup_insert_eq.
    rewrite delete_insert_eq, delete_id by done. eexists. by split.
  - rewrite push_fits by done. eexists. split; [by rewrite Hnx|].
    split; cbn [fst snd Fifo.items Fifo.next].
    + by apply pushed_wf.
    + rewrite pushed_contents, fmap_app by done. cbn [fmap list_fmap]. unfold read at 2. cbn.
      rewrite lookup_insert_eq, Hnx, <- Hit. f_equal. apply read_contents_ext.
      intros k Hk. rewrite lookup_insert_ne; [done|]. by intros ->.
    + cbn. by rewrite Hnx.
    + rewrite pushed_payloads by done. cbn. apply NoDup_app.
      split; [done|]. split; [|apply NoDup_singleton]. set_solver.
    + intros k. rewrite pushed_payloads by done. cbn.
      rewrite lookup_insert_is_Some, elem_of_app, Hh, list_elem_of_singleton.
      destruct (decide (l = k)); naive_solver.
Qed.

Lemma refines_take s f out :
  refines s f ->
  exists s', run_cmd (Take out) s = (s', Ok (Taken (Fifo.take f).2)) /\
             refines s' (Fifo.take f).1.
Proof.
  destruct s as [q h]. intros Hr. pose proof Hr as [Hwf Hit Hnx Hnd Hh]; cbn [fst snd] in *.
  destruct (decide (q_count q = 0%nat)) as [E|E].
  - assert (Fifo.items f = []) as Hf
      by (apply length_zero_iff_nil; by rewrite <- Hit, length_fmap, contents_length).
    unfold run_cmd, Fifo.take. rewrite take_none, Hf by done. by eexists.
  - destruct (take_some q Hwf E out) as (r & Ht & Hv).
    rewrite (contents_taken q Hwf E) in Hit. cbn [fmap list_fmap] in Hit.
    rewrite (payloads_taken q Hwf E) in *.
    unfold run_cmd, Fifo.take. rewrite Ht, <- Hit. cbn [fst snd].
    assert (req_payload r = req_payload (nth_live q 0)) as Hp by (by injection Hv).
    rewrite Hp, Hv. destruct (req_payload (nth_live q 0)) as [l|] eqn:El; cbn in Hnd, Hh.
    + apply NoDup_cons in Hnd as [Hnl Hnd].
      destruct (proj2 (Hh l)) as [b Hb]; [set_solver|].
      unfold free. rewrite Hb. eexists. split; [done|].
      split; cbn [fst snd Fifo.items Fifo.next]; [by apply taken_wf| |done|done|].
      * apply read_contents_ext. intros k Hk. rewrite lookup_delete_ne; [done|]. by intros ->.
      * intros k. rewrite lookup_delete_is_Some, Hh, elem_of_cons.
        split; [intros [? [->|?]]; done|]. intros Hk. split; [by intros ->|by right].
    + unfold free. eexists. split; [done|].
      split; cbn [fst snd Fifo.items Fifo.next]; [by apply taken_wf|done|done|done|done].
Qed.

Lemma refines_init : refines (mlqjs_host_queue_init, ∅) Fifo.init.
Proof.
  split; cbn [fst snd]; [apply init_wf|done|done|constructor|].
  intros l. rewrite lookup_empty. split; [by intros []|]. by intros ?%not_elem_of_nil.
Qed.

Lemma refines_cmds cs s f :
  refines s f ->
  exists s', run_cmds cs s = (s', Ok <$> (spec_cmds cs f).2) /\ refines s' (spec_cmds cs f).1.
Proof.
  revert s f. induction cs as [|c cs IH]; intros s f Hr; cbn [run_cmds spec_cmds].
  { by exists s. }
  assert (exists s', run_cmd c s = (s', Ok (spec_cmd c f).2) /\ refines s' (spec_cmd c f).1)
    as (s' & Hs & Hr').
  { destruct c as [op bytes|out]; cbn [spec_cmd].
    - destruct (refines_push s f op bytes Hr) as (s' & H1 & H2). exists s'.
      by destruct (Fifo.push f op bytes).
    - destruct (refines_take s f out Hr) as (s' & H1 & H2). exists s'.
      by destruct (Fifo.take f). }
  rewrite Hs. destruct (spec_cmd c f) as [f' r]. cbn [fst snd] in *.
  destruct (IH s' f' Hr') as (s'' & -> & Hr''). exists s''.
  by destruct (spec_cmds cs f').
Qed.

(** ** Destruction *)

(** The slots are a rotation of the window. *)
Lemma slots_rotate q :
  queue_wf q -> nth_live q <$> seq 0 MLQJS_QUEUE_CAP = rotate (q_head q) (q_slots q).
Proof.
  intros Hwf. apply list_eq_same_length with MLQJS_QUEUE_CAP.
  - rewrite length_rotate. apply Hwf.
  - by rewrite length_fmap, length_seq.
  - intros i x y Hi Hx Hy. rewrite list_lookup_fmap_Some in Hx.
    destruct Hx as (j & -> & Hj). apply lookup_seq in Hj as [-> _]. rewrite lookup_rotate_r in Hy by (rewrite (wf_slots q Hwf); lia).
    unfold nth_live. rewrite (wf_slots q Hwf) in Hy.
    replace (slot_of (q_head q) (0 + i)) with (rotate_nat_add (q_head q) i MLQJS_QUEUE_CAP);
      [by rewrite Hy|].
    unfold rotate_nat_add, slot_of, MLQJS_QUEUE_CAP. mod_lia.
Qed.

Lemma omap_None {A B} (f : A -> option B) l :
  (forall x, x ∈ l -> f x = None) -> omap f l = [].
Proof.
  induction l as [|x l IH]; intros H; cbn; [done|].
  rewrite (H x) by set_solver. apply IH. set_solver.
Qed.

Lemma slots_payloads q :
  queue_wf q -> omap req_payload (q_slots q) ≡ₚ payloads q.
Proof.
  intros Hwf. pose proof (wf_count q Hwf).
  assert (q_slots q ≡ₚ nth_live q <$> seq 0 MLQJS_QUEUE_CAP) as ->.
  { rewrite slots_rotate by done. unfold rotate.
    by rewrite (Permutation_app_comm (drop _ _)), take_drop. }
  replace MLQJS_QUEUE_CAP with (q_count q + (MLQJS_QUEUE_CAP - q_count q))%nat by lia.
  rewrite seq_app, fmap_app, omap_app. unfold payloads, live.
  rewrite (omap_None _ (nth_live q <$> seq (0 + q_count q) _)); [by rewrite app_nil_r|].
  intros r (i & -> & Hi)%list_elem_of_fmap. apply (wf_dead q Hwf).
  apply elem_of_seq in Hi. lia.
Qed.

(** Freeing distinct live blocks succeeds and removes exactly these. *)
Lemma free_slots_spec (rs : list mlqjs_request) (h : gmap loc (list Z)) :
  NoDup (omap req_payload rs) ->
  (forall l, l ∈ omap req_payload rs -> is_Some (h !! l)) ->
  exists h' : gmap loc (list Z), free_slots rs h = (h', Ok tt) /\
    forall l, h' !! l = if decide (l ∈ omap req_payload rs) then None else h !! l.
Proof.
  revert h. induction rs as [|r rs IH]; intros h Hnd Hlive; cbn [free_slots].
  { exists h. split; [done|]. intros l. case_decide as E; [|done]. by apply not_elem_of_nil in E. }
  cbn [omap list_omap] in *. unfold mbind, free.
  destruct (req_payload r) as [k|]; [|by apply IH].
  apply NoDup_cons in Hnd as [Hk Hnd].
  destruct (Hlive k) as [b Hb]; [set_solver|]. rewrite Hb.
  destruct (IH (delete k h) Hnd) as (h' & Hrun & Hh').
  { intros l Hl. rewrite lookup_delete_ne; [set_solver|]. by intros ->. }
  exists h'. split; [done|]. intros l. rewrite Hh'.
  destruct (decide (l = k)) as [->|Hne].
  - rewrite lookup_delete_eq. by repeat case_decide; set_solver.
  - rewrite lookup_delete_ne by done. repeat case_decide; set_solver.
Qed.

Lemma destroy_spec q (h : gmap loc (list Z)) :
  queue_wf q -> queue_owns h q ->
  exists h' : gmap loc (list Z), mlqjs_host_queue_destroy q h = (h', Ok zero_queue) /\
    forall l, h' !! l = if decide (l ∈ payloads q) then None else h !! l.
Proof.
  intros Hwf [Hnd Hlive]. pose proof (slots_payloads q Hwf) as Hp.
  destruct (free_slots_spec (q_slots q) h) as (h' & Hrun & Hh').
  - by rewrite Hp.
  - intros l. rewrite Hp. apply Hlive.
  - exists h'. unfold mlqjs_host_queue_destroy, mbind. rewrite Hrun. split; [done|].
    intros l. rewrite Hh'.
    by destruct (decide (l ∈ omap req_payload (q_slots q))) as [E|E]; rewrite Hp in E;
      destruct (decide (l ∈ payloads q)).
Qed.

(** ** Properties *)

(** C2: started from [mlqjs_host_queue_init], every sequence of pushes (each
    with its own malloc'd payload) and takes (each freeing what it was given)
    replies exactly as a FIFO bounded at 256 does: same ids, same order, same
    operation names (cut to 63 bytes) and payload bytes, the 257th live request
    refused with id 0.  No operation frees a block it does not own, the ring
    invariant holds at the end and the heap then holds exactly the payloads of
    the requests still queued. *)
Theorem host_queue_refines_fifo (cs : list cmd) :
  let '(s, replies) := run_cmds cs (mlqjs_host_queue_init, ∅) in
  let '(f, expected) := spec_cmds cs Fifo.init in
  replies = Ok <$> expected /\ refines s f /\ (length (Fifo.items f) <= MLQJS_QUEUE_CAP)%nat.
Proof.
  destruct (refines_cmds cs _ _ refines_init) as (s & -> & Hr).
  destruct (spec_cmds cs Fifo.init) as [f expected]. cbn [fst snd] in *.
  split; [done|]. split; [done|].
  rewrite <- (ref_items _ _ Hr), length_fmap, contents_length. apply Hr.
Qed.

(** Destroying a queue frees each queued payload exactly once, never a
    block it does not own, touches no other block of the heap, and leaves the
    queue zeroed. *)
Theorem host_queue_destroy_frees_all (q : mlqjs_host_queue) (h : gmap loc (list Z))
    (Hwf : queue_wf q) (Hown : queue_owns h q) :
  exists h' : gmap loc (list Z), mlqjs_host_queue_destroy q h = (h', Ok zero_queue) /\
    (forall l, l ∈ payloads q -> h' !! l = None) /\
    (forall l, l ∉ payloads q -> h' !! l = h !! l).
Proof.
  destruct (destroy_spec q h Hwf Hown) as (h' & Hrun & Hh'). exists h'.
  split; [done|]. split; intros l Hl; rewrite Hh'; by case_decide.
Qed.

(** A queue with one request, whose payload is block 1. *)
Definition one_request : mlqjs_host_queue :=
  pushed mlqjs_host_queue_init (Some (bytes_of_string "host.later")) (Some 1%positive) 2.

Lemma host_queue_destroy_witness :
  payloads one_request = [1%positive] /\
  exists h' : gmap loc (list Z), mlqjs_host_queue_destroy one_request {[1%positive := [52; 50]]} = (h', Ok zero_queue) /\
    (forall l, l ∈ payloads one_request -> h' !! l = None) /\
    (forall l, l ∉ payloads one_request -> h' !! l = ({[1%positive := [52; 50]]} : gmap loc (list Z)) !! l).
Proof.
  assert (payloads one_request = [1%positive]) as Hp by reflexivity.
  split; [done|]. apply host_queue_destroy_frees_all.
  - apply pushed_wf; [apply init_wf|]. apply Nat.ltb_lt. reflexivity.
  - split; rewrite Hp; [apply NoDup_singleton|].
    intros l ->%list_elem_of_singleton. rewrite lookup_singleton_eq. by eexists.
Defined.
