(* ===== verification/Allocator.v ===== *)
(** * The invocation-owned allocator (qjs/c/qjs_allocator.c)

    The counters the allocator callbacks keep for one invocation, beside the
    engine's own [JSMallocState] counters.  All counters are [size_t], so every
    addition wraps at 2^64.  libc's [malloc]/[realloc] are the environment: a
    call receives whether the system call succeeded. *)
From S2P Require Import Prelude.

Record mlqjs_alloc_state := mk_alloc_state {
  a_limit : Z;
  a_used : Z;
  a_peak : Z;
  a_alloc_count : Z }.

(** quickjs.h's [JSMallocState]; [opaque] is the counter block, or NULL. *)
Record JSMallocState := mk_malloc_state {
  malloc_count : Z;
  malloc_size : Z;
  malloc_limit : Z;
  opaque : option mlqjs_alloc_state }.

Definition charge (st : mlqjs_alloc_state) (size : Z) : mlqjs_alloc_state :=
  let used := u64 (a_used st + size) in
  mk_alloc_state (a_limit st) used
    (if a_peak st <? used then used else a_peak st) (u64 (a_alloc_count st + 1)).

(** The pointer returned is the size the system was asked for, [None] is NULL. *)
Definition mlqjs_malloc (sys_ok : bool) (s : JSMallocState) (size : Z) :
    JSMallocState * option Z :=
  if sys_ok then
    (mk_malloc_state (u64 (malloc_count s + 1)) (u64 (malloc_size s + size)) (malloc_limit s)
       (match opaque s with Some st => Some (charge st size) | None => None end),
     Some (if size =? 0 then 1 else size))
  else (s, None).

Definition mlqjs_free (s : JSMallocState) (ptr : option Z) : JSMallocState := s.

Definition mlqjs_realloc (sys_ok : bool) (s : JSMallocState) (ptr : option Z) (size : Z) :
    JSMallocState * option Z :=
  if sys_ok then
    (mk_malloc_state (u64 (malloc_count s + 1)) (u64 (malloc_size s + size)) (malloc_limit s)
       (opaque s),
     Some (if size =? 0 then 1 else size))
  else (s, None).

Definition mlqjs_init_malloc : JSMallocState := mk_malloc_state 0 0 0 None.

(** The counter block on the heap: its fields in order *)
Definition state_fields (st : mlqjs_alloc_state) : list Z := [a_limit st; a_used st; a_peak st; a_alloc_count st].
Definition mlqjs_alloc_state_new (calloc_ok : bool) (heap_limit : Z) : M (gmap loc (list Z)) loc :=
  let* st := malloc calloc_ok (state_fields (mk_alloc_state heap_limit 0 0 0)) in
  match st with
  | Some l => mret l
  | None => mfail (Abort "mlqjs_alloc_state_new: out of memory")
  end.
Definition mlqjs_alloc_state_free (st : loc) : M (gmap loc (list Z)) unit := free (Some st).

Definition mlqjs_alloc_used (st : option mlqjs_alloc_state) : Z :=
  match st with Some st => a_used st | None => 0 end.
Definition mlqjs_alloc_peak (st : option mlqjs_alloc_state) : Z :=
  match st with Some st => a_peak st | None => 0 end.
Definition mlqjs_alloc_count (st : option mlqjs_alloc_state) : Z :=
  match st with Some st => a_alloc_count st | None => 0 end.

(** A history of allocator calls, each with the system's answer. *)
Inductive acall :=
| AMalloc (sys_ok : bool) (size : Z)
| AFree (ptr : option Z)
| ARealloc (sys_ok : bool) (ptr : option Z) (size : Z).

Definition run_acall (c : acall) (s : JSMallocState) : JSMallocState :=
  match c with
  | AMalloc ok size => (mlqjs_malloc ok s size).1
  | AFree p => mlqjs_free s p
  | ARealloc ok p size => (mlqjs_realloc ok s p size).1
  end.

Definition run_acalls (cs : list acall) (s : JSMallocState) : JSMallocState :=
  fold_left (fun s c => run_acall c s) cs s.

(** Bytes requested by the successful [mlqjs_malloc] calls of a history. *)
Definition malloc_bytes (c : acall) : Z :=
  match c with AMalloc true size => size | _ => 0 end.
Definition malloc_calls (c : acall) : Z :=
  match c with AMalloc true _ => 1 | _ => 0 end.
Fixpoint total (f : acall -> Z) (cs : list acall) : Z :=
  match cs with [] => 0 | c :: cs' => f c + total f cs' end.

Lemma u64_add_l x y : u64 (u64 x + y) = u64 (x + y).
Proof. unfold u64. by rewrite Zplus_mod_idemp_l. Qed.

Lemma total_nonneg cs :
  Forall (fun c => 0 <= malloc_bytes c) cs -> 0 <= total malloc_bytes cs.
Proof. induction 1; cbn; lia. Qed.

(** One call changes the counters by its own size, the limit never, and the
    peak stays the running maximum. *)
Lemma run_acall_opaque c s st :
  opaque s = Some st ->
  exists st', opaque (run_acall c s) = Some st' /\
    a_limit st' = a_limit st /\
    a_used st' = (if malloc_calls c =? 0 then a_used st else u64 (a_used st + malloc_bytes c)) /\
    a_alloc_count st' =
      (if malloc_calls c =? 0 then a_alloc_count st else u64 (a_alloc_count st + malloc_calls c)) /\
    a_peak st' = (if malloc_calls c =? 0 then a_peak st else Z.max (a_peak st) (a_used st')).
Proof.
  intros Ho. destruct c as [ok size|p|ok p size]; cbn -[u64].
  - destruct ok; cbn -[u64]; [|by eexists].
    rewrite Ho. eexists. repeat split; cbn -[u64]. case_bool; lia.
  - by eexists.
  - destruct ok; cbn; by eexists.
Qed.

Lemma run_acalls_counters cs s st :
  opaque s = Some st ->
  0 <= a_used st -> 0 <= a_alloc_count st ->
  Forall (fun c => 0 <= malloc_bytes c) cs ->
  a_used st + total malloc_bytes cs < 2 ^ 64 ->
  a_alloc_count st + total malloc_calls cs < 2 ^ 64 ->
  a_used st <= a_peak st ->
  exists st', opaque (run_acalls cs s) = Some st' /\
    a_limit st' = a_limit st /\
    a_used st' = a_used st + total malloc_bytes cs /\
    a_alloc_count st' = a_alloc_count st + total malloc_calls cs /\
    a_peak st' = Z.max (a_peak st) (a_used st').
Proof.
  revert s st. induction cs as [|c cs IH]; intros s st Ho Hu Hn Hs Hb Hc Hp; cbn.
  { exists st. cbn in *. repeat split; try done; lia. }
  inversion Hs as [|? ? Hc0 Hs']; subst. cbn in Hb, Hc.
  destruct (run_acall_opaque c s st Ho) as (st1 & Ho1 & Hl1 & Hu1 & Hn1 & Hp1).
  pose proof (total_nonneg cs Hs').
  assert (0 <= total malloc_calls cs) by (clear; induction cs as [|[[]| |] ? ?]; cbn; lia).
  assert (0 <= malloc_calls c <= 1) by (destruct c as [[]| |]; cbn; lia).
  assert (a_used st1 = a_used st + malloc_bytes c /\
          a_alloc_count st1 = a_alloc_count st + malloc_calls c /\
          a_peak st1 = Z.max (a_peak st) (a_used st1)) as (E1 & E2 & E3).
  { rewrite Hp1, Hu1, Hn1. destruct c as [[] size|p|ok p size]; cbn -[u64] in *;
      rewrite ?u64_id by lia; lia. }
  destruct (IH (run_acall c s) st1 Ho1) as (st' & F1 & F2 & F3 & F4 & F5); try lia; [done|].
  exists st'. split; [done|]. lia.
Qed.

(** From a fresh state, after any history of allocator calls whose sizes
    sum below 2^64, [used] is the sum of the sizes of the successful
    [mlqjs_malloc] calls and [alloc_count] their number (frees and reallocs are
    not subtracted or charged), [peak] equals [used], and the configured limit
    is unchanged. *)
Theorem alloc_counters_cumulative (heap_limit : Z) (cs : list acall)
    (Hsizes : Forall (fun c => 0 <= malloc_bytes c) cs)
    (Hbytes : total malloc_bytes cs < 2 ^ 64)
    (Hcalls : total malloc_calls cs < 2 ^ 64) :
  let s := run_acalls cs (mk_malloc_state 0 0 0 (Some (mk_alloc_state heap_limit 0 0 0))) in
  mlqjs_alloc_used (opaque s) = total malloc_bytes cs /\
  mlqjs_alloc_count (opaque s) = total malloc_calls cs /\
  mlqjs_alloc_peak (opaque s) = total malloc_bytes cs /\
  (a_limit <$> opaque s) = Some heap_limit.
Proof.
  cbn zeta.
  destruct (run_acalls_counters cs (mk_malloc_state 0 0 0 (Some (mk_alloc_state heap_limit 0 0 0)))
              (mk_alloc_state heap_limit 0 0 0)) as (st' & -> & H2 & H3 & H4 & H5);
    cbn in *; try lia; [done|done|].
  pose proof (total_nonneg cs Hsizes). repeat split; [lia..|by f_equal].
Qed.

Lemma alloc_counters_witness :
  let cs := [AMalloc true 16; AMalloc false 8; AFree (Some 16); AMalloc true 32] in
  mlqjs_alloc_used (opaque (run_acalls cs
    (mk_malloc_state 0 0 0 (Some (mk_alloc_state 10 0 0 0))))) = 48.
Proof.
  pose proof (alloc_counters_cumulative 10
    [AMalloc true 16; AMalloc false 8; AFree (Some 16); AMalloc true 32]) as H.
  destruct H as [H _]; [repeat constructor; cbn; lia|reflexivity|reflexivity|exact H].
Defined.

(** The allocator accounts but does not enforce: whatever the configured
    limit and the bytes already used, an allocation is refused only when the
    system allocator refuses it. *)
Theorem alloc_limit_not_enforced (s : JSMallocState) (size : Z) (sys_ok : bool) (ptr : option Z) :
  ((mlqjs_malloc sys_ok s size).2 = None <-> sys_ok = false) /\
  ((mlqjs_realloc sys_ok s ptr size).2 = None <-> sys_ok = false).
Proof. destruct sys_ok; cbn; split; split; congruence. Qed.
