(* ===== verification/Port.v ===== *)
(** * The platform boundary (qjs/c/qjs_port.h) and its two implementations

    [Port] is the interface of qjs_port.h: a clock, a wall clock, a random
    source and an abort that does not return.  [Unix] is qjs_port_unix.c over
    the system calls it makes, [Solo5] is qjs_port_solo5.c over the callback
    table the worker installs. *)
From S2P Require Import Prelude.

Class Port (S : Type) := {
  port_monotonic_ns : M S Z;
  port_wall_time_ms : M S Z;
  port_random_bytes : nat -> M S (list Z);
  port_abort : string -> forall A, M S A }.

(** ** Unix *)
Module Unix.
Record timespec := mk_timespec { tv_sec : Z; tv_nsec : Z }.

(** One answer of [read(fd, ..)]: interrupted, failed, end of file, or bytes. *)
Inductive read_result := REintr | RError | REof | RBytes (bs : list Z).

(** The system as the port sees it: the two clocks' next readings, whether
    /dev/urandom opens, what reads will answer, and the descriptors open. *)
Record sys := mk_sys {
  clock_monotonic : option timespec;
  clock_realtime : option timespec;
  urandom_opens : bool;
  reads : list read_result;
  open_fds : nat }.

Definition mlqjs_abort (reason : string) (A : Type) : M sys A := mfail (Abort reason).

Definition mlqjs_monotonic_ns : M sys Z := fun s =>
  match clock_monotonic s with
  | None => mlqjs_abort "mlqjs_monotonic_ns: clock_gettime failed" Z s
  | Some ts => (s, Ok (u64 (u64 (u64 (tv_sec ts) * 1000000000) + u64 (tv_nsec ts))))
  end.

Definition mlqjs_wall_time_ms : M sys Z := fun s =>
  match clock_realtime s with
  | None => (s, Ok 0)
  | Some ts => (s, Ok (i64 (i64 (i64 (tv_sec ts) * 1000) + Z.quot (i64 (tv_nsec ts)) 1000000)))
  end.

Definition close_fd : M sys unit :=
  mmodify (fun s => mk_sys (clock_monotonic s) (clock_realtime s) (urandom_opens s)
                      (reads s) (open_fds s - 1)).

(** The [while (got < len)] loop, one iteration per answer of [read]: the
    kernel never returns more than the [len - got] bytes asked for. *)
Fixpoint read_loop (rs : list read_result) (len : nat) (got : list Z) : M sys (list Z) :=
  if (length got <? len)%nat then
    match rs with
    | [] => mfail OutOfFuel
    | r :: rs' =>
        mmodify (fun s => mk_sys (clock_monotonic s) (clock_realtime s) (urandom_opens s)
                            rs' (open_fds s)) ;;;
        match r with
        | REintr => read_loop rs' len got
        | RError => close_fd ;;; mlqjs_abort "mlqjs_random_bytes: read failed" _
        | REof => close_fd ;;; mlqjs_abort "mlqjs_random_bytes: unexpected EOF" _
        | RBytes [] => close_fd ;;; mlqjs_abort "mlqjs_random_bytes: unexpected EOF" _
        | RBytes bs => read_loop rs' len (got ++ take (len - length got) bs)
        end
    end
  else mret got.

Definition mlqjs_random_bytes (len : nat) : M sys (list Z) :=
  if (len =? 0)%nat then mret []
  else
    let* s := mget in
    if urandom_opens s then
      mmodify (fun s => mk_sys (clock_monotonic s) (clock_realtime s) (urandom_opens s)
                          (reads s) (open_fds s + 1)) ;;;
      let* bytes := read_loop (reads s) len [] in
      close_fd ;;; mret bytes
    else mlqjs_abort "mlqjs_random_bytes: cannot open /dev/urandom" _.

#[global] Instance unix_port : Port sys := {
  port_monotonic_ns := mlqjs_monotonic_ns;
  port_wall_time_ms := mlqjs_wall_time_ms;
  port_random_bytes := mlqjs_random_bytes;
  port_abort := mlqjs_abort }.

Lemma ns_of_timespec s n :
  0 <= s < 18446744073 -> 0 <= n < 1000000000 ->
  u64 (u64 (u64 s * 1000000000) + u64 n) = s * 1000000000 + n.
Proof.
  intros Hs Hn. rewrite (u64_id s), (u64_id n), (u64_id (s * _)) by lia.
  rewrite u64_id by lia. done.
Qed.

(** The bytes the answers of [read] carry, in order. *)
Definition bytes_of (r : read_result) : list Z :=
  match r with RBytes bs => bs | _ => [] end.

Definition good_read (r : read_result) : Prop :=
  match r with REintr => True | RBytes bs => bs <> [] | _ => False end.

(** Given enough successful or interrupted reads, the loop returns exactly
    the first [len] bytes: what it had, then what the reads carry. *)
Lemma read_loop_ok rs len got s :
  Forall good_read rs -> (length got <= len)%nat ->
  (len <= length got + length (concat (bytes_of <$> rs)))%nat ->
  exists s', read_loop rs len got s = (s', Ok (take len (got ++ concat (bytes_of <$> rs)))) /\
    open_fds s' = open_fds s.
Proof.
  revert got s. induction rs as [|r rs IH]; intros got s Hg Hle Hen.
  - cbn [read_loop fmap list_fmap concat length] in *. rewrite app_nil_r.
    destruct (Nat.ltb_spec (length got) len); [lia|].
    exists s. rewrite take_ge by lia. done.
  - inversion Hg as [|? ? Hr Hg']; subst. cbn [read_loop fmap list_fmap concat].
    destruct (Nat.ltb_spec (length got) len) as [Hlt|Hge].
    2:{ exists s. split; [|done]. unfold mret.
        by rewrite take_app_le, take_ge by lia. }
    unfold mbind, mmodify. cbn [fmap list_fmap concat] in Hen.
    destruct r as [| | |bs]; try done.
    + cbn [bytes_of app] in *. apply (IH got (mk_sys (clock_monotonic s)
        (clock_realtime s) (urandom_opens s) rs (open_fds s)) Hg' Hle Hen).
    + cbn [good_read bytes_of] in *. destruct bs as [|b bs]; [done|].
      set (bs0 := b :: bs) in *. rewrite length_app in Hen.
      destruct (IH (got ++ take (len - length got) bs0)
        (mk_sys (clock_monotonic s) (clock_realtime s) (urandom_opens s) rs (open_fds s)) Hg')
        as (s' & Heq & Hfd).
      * rewrite length_app, length_take. lia.
      * rewrite length_app, length_take. destruct (decide (length bs0 <= len - length got)%nat); lia.
      * exists s'. split; [|done]. rewrite Heq. f_equal. f_equal.
        rewrite <- !app_assoc, !(take_app _ _ len). f_equal.
        destruct (decide (length bs0 <= len - length got)%nat).
        -- by rewrite (take_ge bs0 (len - length got)) by lia.
        -- rewrite !take_app_le by (rewrite ?length_take; lia).
           by rewrite take_take, Nat.min_id.
Qed.
End Unix.

(** ** Solo5 *)
Module Solo5.
(** A callback is NULL or a function of the host; a NULL call is undefined.
    The abort callback ends the run. *)
Record mlqjs_platform := mk_platform {
  monotonic_ns : option Z;
  wall_time_ms : option Z;
  random_bytes : option (nat -> list Z);
  abort : bool }.

Definition null_platform : mlqjs_platform := mk_platform None None None false.

Definition call_abort (reason : string) (A : Type) : M mlqjs_platform A := fun g =>
  if abort g then (g, Abort reason) else (g, UB "call through a NULL abort callback").

(** [g_platform = *p], then the check of the required callbacks. *)
Definition mlqjs_platform_init (p : mlqjs_platform) : M mlqjs_platform unit :=
  mput p ;;;
  let* g := mget in
  if negb (bool_decide (is_Some (monotonic_ns g))) || negb (abort g)
  then call_abort "mlqjs_platform_init: required callbacks missing" unit
  else mret tt.

Definition mlqjs_monotonic_ns : M mlqjs_platform Z := fun g =>
  match monotonic_ns g with
  | Some t => (g, Ok t)
  | None => (g, UB "call through a NULL monotonic_ns callback")
  end.

Definition mlqjs_wall_time_ms : M mlqjs_platform Z := fun g =>
  match wall_time_ms g with
  | None => (g, Ok 0)
  | Some t => (g, Ok t)
  end.

Definition mlqjs_random_bytes (len : nat) : M mlqjs_platform (list Z) := fun g =>
  match random_bytes g with
  | None => if (len =? 0)%nat then (g, Ok [])
            else call_abort "mlqjs_random_bytes: no crypto capability" _ g
  | Some f => if (len =? 0)%nat then (g, Ok []) else (g, Ok (f len))
  end.

Definition mlqjs_abort (reason : string) (A : Type) : M mlqjs_platform A := call_abort reason A.

#[global] Instance solo5_port : Port mlqjs_platform := {
  port_monotonic_ns := mlqjs_monotonic_ns;
  port_wall_time_ms := mlqjs_wall_time_ms;
  port_random_bytes := mlqjs_random_bytes;
  port_abort := mlqjs_abort }.
End Solo5.

(** ** Properties *)

(** On Unix, a request for [len] > 0 random bytes, with /dev/urandom open
    and reads that are interrupted or short but never fail, returns exactly the
    first [len] bytes the reads delivered, in order, and closes the descriptor. *)
Theorem unix_random_bytes_exact (s : Unix.sys) (len : nat)
    (Hopen : Unix.urandom_opens s = true)
    (Hgood : Forall Unix.good_read (Unix.reads s))
    (Henough : (len <= length (concat (Unix.bytes_of <$> Unix.reads s)))%nat) :
  exists s', Unix.mlqjs_random_bytes len s =
               (s', Ok (take len (concat (Unix.bytes_of <$> Unix.reads s)))) /\
             Unix.open_fds s' = Unix.open_fds s.
Proof.
  unfold Unix.mlqjs_random_bytes. destruct (Nat.eqb_spec len 0) as [->|Hlen].
  { exists s. by rewrite take_0. }
  unfold mbind, mget, mmodify. rewrite Hopen.
  destruct (Unix.read_loop_ok (Unix.reads s) len []
    (Unix.mk_sys (Unix.clock_monotonic s) (Unix.clock_realtime s) (Unix.urandom_opens s)
       (Unix.reads s) (Unix.open_fds s + 1)) Hgood) as (s' & -> & Hfd); [cbn; lia..|].
  eexists. split; [reflexivity|]. cbn in *. lia.
Qed.

Lemma unix_random_bytes_witness :
  exists s', Unix.mlqjs_random_bytes 3
      (Unix.mk_sys None None true [Unix.RBytes [1; 2]; Unix.REintr; Unix.RBytes [3; 4]] 0) =
    (s', Ok [1; 2; 3]) /\ Unix.open_fds s' = 0%nat.
Proof.
  apply (unix_random_bytes_exact
    (Unix.mk_sys None None true [Unix.RBytes [1; 2]; Unix.REintr; Unix.RBytes [3; 4]] 0) 3).
  - reflexivity.
  - repeat constructor; done.
  - cbn. lia.
Defined.

(** The Unix clocks do not overflow and lose nothing for any time before
    the year 2554 (2^64 ns): monotonic nanoseconds are exactly
    [tv_sec * 10^9 + tv_nsec], and a later timespec never reads earlier. *)
Theorem unix_monotonic_exact (s1 s2 : Unix.sys) (t1 t2 : Unix.timespec)
    (H1 : Unix.clock_monotonic s1 = Some t1) (H2 : Unix.clock_monotonic s2 = Some t2)
    (Hn1 : 0 <= Unix.tv_nsec t1 < 1000000000) (Hn2 : 0 <= Unix.tv_nsec t2 < 1000000000)
    (Hs1 : 0 <= Unix.tv_sec t1) (Hs2 : Unix.tv_sec t1 <= Unix.tv_sec t2 < 18446744073)
    (Hle : Unix.tv_sec t1 = Unix.tv_sec t2 -> Unix.tv_nsec t1 <= Unix.tv_nsec t2) :
  exists n1 n2, Unix.mlqjs_monotonic_ns s1 = (s1, Ok n1) /\
    Unix.mlqjs_monotonic_ns s2 = (s2, Ok n2) /\
    n1 = Unix.tv_sec t1 * 1000000000 + Unix.tv_nsec t1 /\ n1 <= n2.
Proof.
  unfold Unix.mlqjs_monotonic_ns. rewrite H1, H2. do 2 eexists.
  split; [reflexivity|]. split; [reflexivity|].
  rewrite !Unix.ns_of_timespec by lia.
  split; [done|]. destruct (decide (Unix.tv_sec t1 = Unix.tv_sec t2)); lia.
Qed.

Lemma unix_monotonic_witness :
  exists n1 n2,
    Unix.mlqjs_monotonic_ns (Unix.mk_sys (Some (Unix.mk_timespec 1 999999999)) None true [] 0) =
      (Unix.mk_sys (Some (Unix.mk_timespec 1 999999999)) None true [] 0, Ok n1) /\
    Unix.mlqjs_monotonic_ns (Unix.mk_sys (Some (Unix.mk_timespec 2 0)) None true [] 0) =
      (Unix.mk_sys (Some (Unix.mk_timespec 2 0)) None true [] 0, Ok n2) /\
    n1 = 1 * 1000000000 + 999999999 /\ n1 <= n2.
Proof.
  apply (unix_monotonic_exact _ _ (Unix.mk_timespec 1 999999999) (Unix.mk_timespec 2 0));
    cbn; lia || reflexivity.
Defined.

(** On Solo5, an installed platform without the abort callback is not
    rejected cleanly: the check of the required callbacks itself calls through
    the NULL pointer; with an abort callback but no clock it aborts; with both
    it installs the table. *)
Theorem solo5_platform_init_cases (g p : Solo5.mlqjs_platform) :
  Solo5.mlqjs_platform_init p g =
  (p, if Solo5.abort p
      then match Solo5.monotonic_ns p with
           | Some _ => Ok tt
           | None => Abort "mlqjs_platform_init: required callbacks missing"
           end
      else UB "call through a NULL abort callback").
Proof.
  unfold Solo5.mlqjs_platform_init, mbind, mput, mget, Solo5.call_abort, mret.
  destruct (Solo5.monotonic_ns p), (Solo5.abort p) eqn:E; cbn; by rewrite ?E.
Qed.
