(* ===== verification/Handles.v ===== *)
(** * Handles, limits and the promise table (qjs/c/qjs_stubs.c)

    The parts of the stubs that do not call the engine: the table that turns
    an OCaml integer into a runtime pointer with a generation check, the
    decoder of the limits blob (with its OCaml encoder from qjs_engine.ml), and
    the table of pending promises.  C [int] values are kept at 32 bits. *)
From S2P Require Import Prelude Digits.

Definition MLQJS_TABLE_CAP : nat := 64.
Definition MLQJS_GEN_SHIFT : Z := 16.
Definition MLQJS_INDEX_MASK : Z := Z.shiftl 1 MLQJS_GEN_SHIFT - 1.

(** ** The handle table *)

(** [Int_val]: an OCaml integer truncated to a C [int]. *)
Definition Int_val (v : Z) : Z := i32 v.

(** [g_generation[i] = (g_generation[i] + 1) & 0xffff; if 0 then 1] *)
Definition next_generation (g : Z) : Z :=
  let g' := Z.land (g + 1) 65535 in if g' =? 0 then 1 else g'.

(** [(generation << 16) | index], an [int]. *)
Definition make_handle (gen : Z) (i : nat) : Z :=
  i32 (Z.lor (Z.shiftl gen MLQJS_GEN_SHIFT) (Z.of_nat i)).

(** The first free slot: its index, the two updated tables and the handle;
    [None] is the return value 0, "table full".  The runtime's own [gen] field
    is set by the caller from the generation table. *)
Definition table_alloc (table : list (option loc)) (generation : list Z) (q : loc) :
    option (nat * list (option loc) * list Z * Z) :=
  match find_index (fun e => bool_decide (e = None)) table with
  | None => None
  | Some i =>
      let g := next_generation (default 0 (generation !! i)) in
      Some (i, <[i := Some q]> table, <[i := g]> generation, make_handle g i)
  end.

(** [gen_of q] reads the [gen] field of the runtime behind a pointer. *)
Definition table_get (table : list (option loc)) (gen_of : loc -> Z) (v_handle : Z) :
    option (nat * loc) :=
  let h := Int_val v_handle in
  let index := Z.land h MLQJS_INDEX_MASK in
  let gen := Z.shiftr h MLQJS_GEN_SHIFT in
  if (index <? 0) || (Z.of_nat MLQJS_TABLE_CAP <=? index) then None
  else match table !! Z.to_nat index with
       | Some (Some q) => if negb (gen_of q =? gen) then None else Some (Z.to_nat index, q)
       | _ => None
       end.

Lemma index_mask : MLQJS_INDEX_MASK = Z.ones 16.
Proof. reflexivity. Qed.

(** The two fields of a handle come back as long as the generation fits in 15
    bits; above, the sign bit is set and the shift brings down ones. *)
Lemma handle_fields gen i :
  0 <= gen < 2 ^ 16 -> (i < MLQJS_TABLE_CAP)%nat ->
  Z.land (Int_val (make_handle gen i)) MLQJS_INDEX_MASK = Z.of_nat i /\
  Z.shiftr (Int_val (make_handle gen i)) MLQJS_GEN_SHIFT =
    (if gen <? 2 ^ 15 then gen else gen - 2 ^ 16).
Proof.
  intros Hg Hi. unfold MLQJS_TABLE_CAP in Hi. unfold make_handle, MLQJS_GEN_SHIFT.
  rewrite lor_shiftl_small by lia.
  assert (Int_val (i32 (gen * 2 ^ 16 + Z.of_nat i)) =
          (if gen <? 2 ^ 15 then gen else gen - 2 ^ 16) * 2 ^ 16 + Z.of_nat i) as ->.
  { unfold Int_val. rewrite (i32_id (i32 _)) by (pose proof (i32_range (gen * 2 ^ 16 + Z.of_nat i)); lia).
    unfold i32. case_bool; [rewrite Z.mod_small; lia|].
    rewrite <- (Z.mod_unique (gen * 2 ^ 16 + Z.of_nat i + 2 ^ 31) (2 ^ 32) 1
                  (gen * 2 ^ 16 + Z.of_nat i + 2 ^ 31 - 2 ^ 32)); lia. }
  split; [|apply shiftr_pack; lia].
  rewrite index_mask, Z.land_ones by lia.
  rewrite Z.add_comm, Z.mod_add by lia. apply Z.mod_small. lia.
Qed.

(** *** Generations *)

Lemma land_ffff x : Z.land x 65535 = x mod 2 ^ 16.
Proof. change 65535 with (Z.ones 16). by rewrite Z.land_ones. Qed.

Lemma next_generation_range g : 0 <= g -> 1 <= next_generation g < 2 ^ 16.
Proof.
  intros Hg. unfold next_generation. rewrite land_ffff. pose proof (Z.mod_pos_bound (g + 1) (2 ^ 16) ltac:(lia)).
  case_bool; lia.
Qed.

Lemma next_generation_eq g :
  0 <= g < 2 ^ 16 -> next_generation g = if g =? 65535 then 1 else g + 1.
Proof.
  intros Hg. unfold next_generation. rewrite land_ffff. destruct (Z.eqb_spec g 65535) as [->|].
  - done.
  - rewrite Z.mod_small by lia. destruct (Z.eqb_spec (g + 1) 0); lia.
Qed.

(** After [k] allocations of one slot, its generation; it walks the cycle
    1, 2, .., 65535. *)
Lemma generations_iter g k :
  1 <= g < 2 ^ 16 ->
  Nat.iter k next_generation g = (g - 1 + Z.of_nat k) mod 65535 + 1.
Proof.
  intros Hg. induction k as [|k IH].
  - cbn [Nat.iter nat_rect]. rewrite Z.add_0_r, Z.mod_small by lia. cbn; lia.
  - rewrite Nat.iter_succ, IH.
    pose proof (Z.mod_pos_bound (g - 1 + Z.of_nat k) 65535 ltac:(lia)).
    rewrite next_generation_eq by lia.
    rewrite Nat2Z.inj_succ. replace (g - 1 + Z.succ (Z.of_nat k)) with (g - 1 + Z.of_nat k + 1) by lia.
    destruct (Z.eqb_spec ((g - 1 + Z.of_nat k) mod 65535 + 1) 65535) as [E|E].
    + rewrite <- Zplus_mod_idemp_l. replace ((g - 1 + Z.of_nat k) mod 65535) with 65534 by lia. done.
    + rewrite <- (Zplus_mod_idemp_l (g - 1 + Z.of_nat k)). rewrite (Z.mod_small (_ + 1)); lia.
Qed.

(** *** What a handle designates *)

(** A handle made of generation [g] and slot [i] designates the runtime of that
    slot exactly when the runtime carries that generation and it fits 15 bits. *)
Lemma table_get_handle (table : list (option loc)) gen_of g i j p :
  1 <= g < 2 ^ 16 -> (i < MLQJS_TABLE_CAP)%nat ->
  (forall q, table !! i = Some (Some q) -> 0 <= gen_of q) ->
  table_get table gen_of (make_handle g i) = Some (j, p) <->
  j = i /\ table !! i = Some (Some p) /\ gen_of p = g /\ g < 2 ^ 15.
Proof.
  intros Hg Hi Hpos. destruct (handle_fields g i) as [Hidx Hgen]; [lia|done|].
  unfold table_get. rewrite Hidx, Hgen, Nat2Z.id. unfold MLQJS_TABLE_CAP in *.
  rewrite (proj2 (Z.ltb_ge (Z.of_nat i) 0)), (proj2 (Z.leb_gt (Z.of_nat 64) (Z.of_nat i))) by lia.
  cbn [orb].
  destruct (table !! i) as [[p'|]|]; [|naive_solver..].
  pose proof (Hpos p' eq_refl).
  destruct (Z.eqb_spec (gen_of p') (if g <? 2 ^ 15 then g else g - 2 ^ 16)) as [E|E]; cbn [negb].
  - destruct (Z.ltb_spec g (2 ^ 15)); [|lia]. split; [intros [= <- <-]; repeat split; done|naive_solver].
  - split; [done|]. intros (-> & [= ->] & Hp & Hlt). destruct (Z.ltb_spec g (2 ^ 15)); lia.
Qed.

(** What [table_alloc] finds and builds. *)
Lemma table_alloc_Some table gens q i table' gens' h :
  table_alloc table gens q = Some (i, table', gens', h) ->
  length table = MLQJS_TABLE_CAP ->
  table !! i = Some None /\ (i < MLQJS_TABLE_CAP)%nat /\
  (forall j e, (j < i)%nat -> table !! j = Some e -> e <> None) /\
  table' = <[i := Some q]> table /\
  gens' = <[i := next_generation (default 0 (gens !! i))]> gens /\
  h = make_handle (next_generation (default 0 (gens !! i))) i.
Proof.
  unfold table_alloc. intros H Hlen.
  destruct (find_index _ table) as [k|] eqn:E; [|done]. injection H as <- <- <- <-.
  pose proof (find_index_lt _ _ _ E). apply find_index_Some in E as [(x & Hx & Hp) Hfirst].
  apply bool_decide_eq_true in Hp as ->. repeat split; try done; [lia|].
  intros j e Hj He. specialize (Hfirst j e Hj He). by apply bool_decide_eq_false in Hfirst.
Qed.

Lemma table_alloc_None table gens q :
  table_alloc table gens q = None <-> forall i e, table !! i = Some e -> e <> None.
Proof.
  unfold table_alloc. destruct (find_index _ table) as [k|] eqn:E.
  - split; [done|]. intros H. apply find_index_Some in E as [(x & Hx & Hp) _].
    apply bool_decide_eq_true in Hp as ->. by apply H in Hx.
  - split; [|done]. intros _ i e He. apply (proj1 (find_index_None _ _) E) in He.
    by apply bool_decide_eq_false in He.
Qed.

(** A fresh handle works: while the slot's new generation is below 2^15,
    [table_get] on the handle [table_alloc] returned gives back the runtime that
    was stored (with its [gen] field set), at the slot that was chosen, and the
    handle is not 0 (the value that means "table full"). *)
Theorem handle_fresh_roundtrip (table : list (option loc)) (gens : list Z) (q : loc)
    (gen_of : loc -> Z) (i : nat) (table' : list (option loc)) (gens' : list Z) (h : Z)
    (Hlen : length table = MLQJS_TABLE_CAP) (Hgens : length gens = MLQJS_TABLE_CAP)
    (Hrange : Forall (fun g => 0 <= g < 2 ^ 16) gens)
    (Halloc : table_alloc table gens q = Some (i, table', gens', h))
    (Hgen : gens' !! i = Some (gen_of q)) (Hpos : forall p, 0 <= gen_of p)
    (Hfit : gen_of q < 2 ^ 15) :
  table_get table' gen_of h = Some (i, q) /\ h <> 0.
Proof.
  destruct (table_alloc_Some _ _ _ _ _ _ _ Halloc Hlen) as (Hi & Hlt & _ & -> & -> & ->).
  rewrite list_lookup_insert_eq in Hgen by lia. injection Hgen as Hgen.
  destruct (gens !! i) as [g|] eqn:Eg; [|apply lookup_ge_None in Eg; lia].
  rewrite Forall_lookup in Hrange. specialize (Hrange i g Eg). cbn [default from_option] in *.
  change (Datatypes.id g) with g in *.
  pose proof (next_generation_range g ltac:(lia)).
  assert (table_get (<[i:=Some q]> table) gen_of (make_handle (next_generation g) i) = Some (i, q))
    as Hget.
  { apply table_get_handle; try done. rewrite list_lookup_insert_eq by lia. split_and!; try done; lia. }
  split; [done|]. intros E.
  destruct (handle_fields (next_generation g) i) as [_ Hf]; [lia|done|].
  rewrite E in Hf. change (Z.shiftr (Int_val 0) MLQJS_GEN_SHIFT) with 0 in Hf.
  destruct (Z.ltb_spec (next_generation g) (2 ^ 15)); lia.
Qed.

Lemma handle_fresh_witness :
  let table := replicate 64 None in let gens := replicate 64 0 in
  table_get (<[0%nat := Some 7%positive]> table) (fun _ => 1) 65536 = Some (0%nat, 7%positive) /\
  65536 <> 0.
Proof.
  apply (handle_fresh_roundtrip (replicate 64 None) (replicate 64 0) 7%positive (fun _ => 1)
           0%nat _ (<[0%nat := 1]> (replicate 64 0))); try reflexivity; try lia.
  apply Forall_replicate. lia.
Defined.

(** C11: a stale handle is rejected: once the slot of a handle has been emptied,
    or reused by 1 to 65534 later allocations, [table_get] refuses it (the
    generation counter wraps only after 65535 reuses of one slot). *)
Theorem stale_handle_rejected (table : list (option loc)) (gen_of : loc -> Z) (g : Z) (i k : nat)
    (Hg : 1 <= g < 2 ^ 16) (Hi : (i < MLQJS_TABLE_CAP)%nat) (Hpos : forall p, 0 <= gen_of p)
    (Hk : 1 <= Z.of_nat k < 65535)
    (Hslot : match table !! i with
             | Some (Some p) => gen_of p = Nat.iter k next_generation g
             | _ => True
             end) :
  table_get table gen_of (make_handle g i) = None.
Proof.
  destruct (table_get table gen_of (make_handle g i)) as [[j p]|] eqn:E; [|done].
  apply table_get_handle in E as (-> & Hp & Hgp & _); [|done..].
  rewrite Hp, Hgp, generations_iter in Hslot by done. exfalso.
  clear -Hg Hk Hslot. pose proof (Z.div_mod (g - 1 + Z.of_nat k) 65535 ltac:(lia)).
  assert (0 <= (g - 1 + Z.of_nat k) / 65535 <= 1) by
    (split; [apply Z.div_pos; lia|apply Z.lt_succ_r, Z.div_lt_upper_bound; lia]).
  lia.
Qed.

Lemma stale_handle_witness :
  table_get (<[3%nat := Some 9%positive]> (replicate 64 None)) (fun _ => 6) (make_handle 5 3) = None.
Proof.
  apply (stale_handle_rejected _ (fun _ => 6) 5 3 1); try lia.
  - apply Nat.ltb_lt. reflexivity.
  - reflexivity.
Defined.

(** C12: the generation field of a handle has one bit less than the counter: a
    slot whose counter has reached 32767 hands out, on its next 32768 reuses,
    handles that [table_get] always refuses (the shift fills the sign bit). *)
Theorem handle_unusable_from_generation_32768 (table : list (option loc)) (gen_of : loc -> Z)
    (g : Z) (i : nat)
    (Hg : 32768 <= g < 65536) (Hi : (i < MLQJS_TABLE_CAP)%nat) (Hpos : forall p, 0 <= gen_of p) :
  table_get table gen_of (make_handle g i) = None.
Proof.
  destruct (table_get table gen_of (make_handle g i)) as [[j p]|] eqn:E; [|done].
  apply table_get_handle in E as (_ & _ & _ & Hlt); [lia|lia|done|done].
Qed.

Lemma handle_unusable_witness :
  next_generation 32767 = 32768 /\
  table_get (<[0%nat := Some 7%positive]> (replicate 64 None)) (fun _ => 32768)
    (make_handle 32768 0) = None.
Proof.
  split; [reflexivity|]. apply handle_unusable_from_generation_32768; try lia.
  apply Nat.ltb_lt. reflexivity.
Defined.

(** ** The limits blob *)

(** [Budget.Engine_limits.t] of common/budget.ml, the fields in order. *)
Record engine_limits := mk_limits {
  js_heap_bytes : Z; native_overhead_bytes : Z; stack_bytes : Z; timeout_ms : Z; cpu_ms : Z;
  max_host_calls : Z; max_pending_promises : Z; max_log_bytes : Z; max_outbound_bytes : Z;
  max_redirects : Z; max_child_invocations : Z }.

Definition limit_fields (l : engine_limits) : list Z :=
  [js_heap_bytes l; native_overhead_bytes l; stack_bytes l; timeout_ms l; cpu_ms l;
   max_host_calls l; max_pending_promises l; max_log_bytes l; max_outbound_bytes l;
   max_redirects l; max_child_invocations l].

(** qjs_engine.ml's encoder: each field through [Int32.of_int], then ["%ld|"]. *)
Definition limits_blob (l : engine_limits) : list Z :=
  concat ((fun n => print_int (i32 n) ++ [ch_bar]) <$> limit_fields l).

(** The [while (p[0] && n < 11)] loop of the C decoder: [vals] are the values
    written so far, in order. *)
Fixpoint decode_loop (room : nat) (p : list Z) (vals : list Z) : list Z :=
  match room, p with
  | O, _ | _, [] => vals
  | S room', c :: _ =>
      let '(v, end_) := strtol10 p in
      let vals' := vals ++ [v] in
      if bool_decide (end_ = p) then vals'
      else
        let p' := match end_ with
                  | c' :: rest => if c' =? ch_bar then rest else end_
                  | [] => []
                  end in
        decode_loop room' p' vals'
  end.

(** heap, stack, timeout_ns, cpu_ns; [vals] starts zeroed. *)
Definition decode_limits (s : list Z) : Z * Z * Z * Z :=
  let vals := decode_loop 11 (c_str s) [] in
  let v i := default 0 (vals !! i) in
  (u64 (v 0%nat), u64 (v 2%nat), u64 (u64 (v 3%nat) * 1000000), u64 (u64 (v 4%nat) * 1000000)).

Lemma decode_loop_fields fields room vals :
  (length fields <= room)%nat -> Forall (fun n => - 2 ^ 31 <= n < 2 ^ 31) fields ->
  decode_loop room (concat ((fun n => print_int n ++ [ch_bar]) <$> fields)) vals = vals ++ fields.
Proof.
  revert fields vals. induction room as [|room IH]; intros fields vals Hlen Hf.
  { destruct fields; [cbn; by rewrite app_nil_r|cbn in Hlen; lia]. }
  destruct fields as [|n fields]; cbn [fmap list_fmap concat].
  { cbn. by rewrite app_nil_r. }
  inversion Hf as [|? ? Hn Hf']; subst. cbn [length] in Hlen.
  set (rest := concat _). rewrite <- app_assoc. cbn [app].
  destruct (print_int n ++ ch_bar :: rest) as [|c s] eqn:E.
  { by apply app_eq_nil in E as [? ?]. }
  cbn [decode_loop]. rewrite <- E, strtol10_print_int by (unfold LONG_MIN, LONG_MAX; cbn; lia || done).
  rewrite bool_decide_eq_false_2.
  - rewrite Z.eqb_refl. unfold rest. rewrite IH by (done || lia). by rewrite <- app_assoc.
  - intros Heq. apply (f_equal length) in Heq. rewrite length_app in Heq.
    assert (print_int n <> []) as Hne by apply print_int_nonnil.
    destruct (print_int n); [done|]. cbn in Heq. lia.
Qed.

Lemma limits_blob_fields l :
  limits_blob l = concat ((fun n => print_int n ++ [ch_bar]) <$> (i32 <$> limit_fields l)).
Proof. done. Qed.

Lemma blob_no_nul fields :
  Forall (fun c => c <> 0) (concat ((fun n => print_int n ++ [ch_bar]) <$> fields)).
Proof.
  induction fields as [|n fields IH]; cbn; [constructor|].
  apply Forall_app. split; [|done]. apply Forall_app. split; [apply print_int_no_nul|].
  by repeat constructor.
Qed.

(** Decoding is exact on the fields as [Int32.of_int] left them. *)
Lemma decode_limits_blob l :
  decode_limits (limits_blob l) =
  (u64 (i32 (js_heap_bytes l)), u64 (i32 (stack_bytes l)),
   u64 (u64 (i32 (timeout_ms l)) * 1000000), u64 (u64 (i32 (cpu_ms l)) * 1000000)).
Proof.
  unfold decode_limits. rewrite limits_blob_fields, c_str_no_nul by apply blob_no_nul.
  rewrite decode_loop_fields; [done| |].
  - by rewrite length_fmap.
  - apply Forall_fmap, Forall_forall. intros n _. cbn. apply i32_range.
Qed.

Lemma decode_limits_exact l :
  0 <= js_heap_bytes l < 2 ^ 31 -> 0 <= stack_bytes l < 2 ^ 31 ->
  0 <= timeout_ms l < 2 ^ 31 -> 0 <= cpu_ms l < 2 ^ 31 ->
  decode_limits (limits_blob l) =
  (js_heap_bytes l, stack_bytes l, timeout_ms l * 1000000, cpu_ms l * 1000000).
Proof.
  intros. rewrite decode_limits_blob, !i32_id by lia.
  rewrite (u64_id (js_heap_bytes l)), (u64_id (stack_bytes l)), (u64_id (timeout_ms l)),
    (u64_id (cpu_ms l)) by lia.
  by rewrite !u64_id by lia.
Qed.

(** Limits cross the FFI unchanged: for any limits whose heap, stack and
    two time fields are in [0, 2^31), what the C decoder reads from the blob the
    OCaml encoder wrote is the heap and stack in bytes and the two times in
    nanoseconds, exactly. *)
Theorem limits_roundtrip (l : engine_limits)
    (Hheap : 0 <= js_heap_bytes l < 2 ^ 31) (Hstack : 0 <= stack_bytes l < 2 ^ 31)
    (Htime : 0 <= timeout_ms l < 2 ^ 31) (Hcpu : 0 <= cpu_ms l < 2 ^ 31) :
  decode_limits (limits_blob l) =
  (js_heap_bytes l, stack_bytes l, timeout_ms l * 1000000, cpu_ms l * 1000000).
Proof. by apply decode_limits_exact. Qed.

Definition default_limits : engine_limits :=
  mk_limits 16777216 4194304 262144 100 50 32 16 32768 262144 2 4.

Lemma limits_roundtrip_witness :
  decode_limits (limits_blob default_limits) = (16777216, 262144, 100000000, 50000000).
Proof. apply (limits_roundtrip default_limits); cbn; lia. Defined.

(** A heap limit of 2 GiB or more is not carried: the encoder truncates to
    a signed 32-bit integer, so a limit in [2^31, 2^32) reaches the engine as a
    limit above 2^63 bytes, which never binds. *)
Theorem limits_heap_wraps (l : engine_limits) (Hheap : 2 ^ 31 <= js_heap_bytes l < 2 ^ 32) :
  (decode_limits (limits_blob l)).1.1.1 = 2 ^ 64 - 2 ^ 32 + js_heap_bytes l.
Proof.
  rewrite decode_limits_blob. cbn [fst]. unfold u64, i32.
  rewrite <- (Z.mod_unique (js_heap_bytes l + 2 ^ 31) (2 ^ 32) 1 (js_heap_bytes l - 2 ^ 31)) by lia.
  rewrite <- (Z.mod_unique (js_heap_bytes l - 2 ^ 31 - 2 ^ 31) (2 ^ 64) (-1)
                (2 ^ 64 - 2 ^ 32 + js_heap_bytes l)) by lia.
  done.
Qed.

Lemma limits_heap_wraps_witness :
  (decode_limits (limits_blob (mk_limits 2147483648 0 0 0 0 0 0 0 0 0 0))).1.1.1 =
  18446744071562067968.
Proof. apply (limits_heap_wraps (mk_limits 2147483648 0 0 0 0 0 0 0 0 0 0)). cbn. lia. Defined.

(** ** The promise table

    The global table from request id to the two resolving functions; [V] is the
    engine's [JSValue]. *)
Definition MLQJS_MAX_PROMISES : nat := 256.

Section Promises.
Context {V : Type}.

Record mlqjs_promise_slot := mk_slot {
  slot_id : Z; slot_resolve : V; slot_reject : V; slot_in_use : bool }.

(** [None]: table full (the caller's two values are then freed). *)
Definition promise_insert (ps : list mlqjs_promise_slot) (resolve reject : V) (id : Z) :
    option (list mlqjs_promise_slot) :=
  match find_index (fun s => negb (slot_in_use s)) ps with
  | Some i => Some (<[i := mk_slot id resolve reject true]> ps)
  | None => None
  end.

(** The index of the slot (the C code returns its address). *)
Definition promise_find (ps : list mlqjs_promise_slot) (id : Z) : option nat :=
  find_index (fun s => slot_in_use s && (slot_id s =? id)) ps.

(** [promise_remove] frees the two values (in the caller) and clears [in_use]. *)
Definition promise_remove (ps : list mlqjs_promise_slot) (i : nat) : list mlqjs_promise_slot :=
  match ps !! i with
  | Some s => <[i := mk_slot (slot_id s) (slot_resolve s) (slot_reject s) false]> ps
  | None => ps
  end.

(** The pending promises as a list of (id, resolve, reject). *)
Definition pending (ps : list mlqjs_promise_slot) : list (Z * V * V) :=
  omap (fun s => if slot_in_use s then Some (slot_id s, slot_resolve s, slot_reject s) else None) ps.

Lemma promise_insert_Some ps res rej id ps' :
  promise_insert ps res rej id = Some ps' ->
  exists i s, ps !! i = Some s /\ slot_in_use s = false /\
    ps' = <[i := mk_slot id res rej true]> ps /\ (i < length ps)%nat.
Proof.
  unfold promise_insert. destruct (find_index _ ps) as [i|] eqn:E; [|done]. intros [= <-].
  pose proof (find_index_lt _ _ _ E).
  apply find_index_Some in E as [(s & Hs & Hp) _]. exists i, s.
  by destruct (slot_in_use s).
Qed.

Lemma promise_find_Some ps id i :
  promise_find ps id = Some i ->
  exists s, ps !! i = Some s /\ slot_in_use s = true /\ slot_id s = id.
Proof.
  unfold promise_find. intros [(s & Hs & Hp) _]%find_index_Some. exists s.
  apply andb_true_iff in Hp as [Hu Hid%Z.eqb_eq]. done.
Qed.

(** Exactly one slot is in use with a given id. *)
Definition unique_id (ps : list mlqjs_promise_slot) (id : Z) : Prop :=
  forall i j s t, ps !! i = Some s -> ps !! j = Some t ->
    slot_in_use s = true -> slot_in_use t = true -> slot_id s = id -> slot_id t = id -> i = j.

Definition id_free (ps : list mlqjs_promise_slot) (id : Z) : Prop :=
  forall i s, ps !! i = Some s -> slot_in_use s = true -> slot_id s <> id.

Lemma promise_find_None ps id : promise_find ps id = None <-> id_free ps id.
Proof.
  unfold promise_find. rewrite find_index_None. split.
  - intros H i s Hs Hu Hid. specialize (H i s Hs). cbn in H. rewrite Hu, Hid, Z.eqb_refl in H. done.
  - intros H i s Hs. destruct (slot_in_use s) eqn:Hu; [|done]. cbn.
    apply Z.eqb_neq. by eapply H.
Qed.
End Promises.
Arguments mlqjs_promise_slot V : clear implicits.

(** The promise table is a map on fresh ids: inserting under an id not in
    use and then looking it up finds the slot holding exactly these resolving
    functions; every other id finds what it found before; removing the slot
    makes the id unknown again and leaves other ids alone. *)
Theorem promise_table_map {V} (ps ps' : list (mlqjs_promise_slot V)) (res rej : V) (id : Z)
    (Hfree : id_free ps id) (Hins : promise_insert ps res rej id = Some ps') :
  exists i, promise_find ps' id = Some i /\ ps' !! i = Some (mk_slot id res rej true) /\
    promise_find (promise_remove ps' i) id = None /\
    (forall id', id' <> id -> forall j s, ps !! j = Some s ->
       slot_in_use s = true -> slot_id s = id' -> 
       ps' !! j = Some s /\ promise_remove ps' i !! j = Some s).
Proof.
  destruct (promise_insert_Some ps res rej id ps' Hins) as (i & s & Hs & Hu & -> & Hlt).
  exists i. assert (<[i:=mk_slot id res rej true]> ps !! i = Some (mk_slot id res rej true)) as Hi
    by (by rewrite list_lookup_insert_eq).
  split_and!; [|done| |].
  - unfold promise_find. apply find_index_Some. split.
    + exists (mk_slot id res rej true). split; [done|]. cbn. apply Z.eqb_refl.
    + intros j t Hj Ht. rewrite list_lookup_insert_ne in Ht by lia.
      destruct (slot_in_use t) eqn:Ht'; [|done]. cbn. apply Z.eqb_neq. by eapply Hfree.
  - apply promise_find_None. intros j t Ht Htu Htid. unfold promise_remove in Ht.
    rewrite Hi in Ht. rewrite list_insert_insert_eq in Ht.
    destruct (decide (i = j)) as [<-|Hne].
    + rewrite list_lookup_insert_eq in Ht by done. by injection Ht as <-.
    + rewrite list_lookup_insert_ne in Ht by done. by eapply Hfree.
  - intros id' Hid' j t Ht Htu Htid. assert (i <> j) by (intros <-; congruence).
    unfold promise_remove. rewrite Hi.
    by rewrite !list_lookup_insert_ne by done.
Qed.

Lemma promise_table_map_witness :
  let empty := replicate MLQJS_MAX_PROMISES (mk_slot 0 0 0 false) in
  exists i, promise_find (<[0%nat := mk_slot 1 10 20 true]> empty) 1 = Some i /\
    (<[0%nat := mk_slot 1 10 20 true]> empty) !! i = Some (mk_slot 1 10 20 true).
Proof.
  destruct (promise_table_map (replicate MLQJS_MAX_PROMISES (mk_slot 0 0 0 false))
    (<[0%nat := mk_slot 1 10 20 true]> (replicate MLQJS_MAX_PROMISES (mk_slot 0 0 0 false))) 10 20 1)
    as (i & H1 & H2 & _).
  - intros i s [-> _]%lookup_replicate. done.
  - reflexivity.
  - by exists i.
Defined.
