(* ===== verification/Engine.v ===== *)
(** * The QuickJS interface the stubs are written against

    qjs_stubs.c drives the engine through quickjs.h.  Here that interface is a
    class: [E] is the state of a [JSRuntime] with its [JSContext], [V] a
    [JSValue].  A call that may run JavaScript is a [run]: a tree of the points
    at which the engine calls back into qjs_stubs.c, so that a theorem about
    the stubs holds whatever script runs.  The engine's internals are behind
    the interface; the stubs' theorems are proved for every instance. *)
From S2P Require Import Prelude.

Inductive eval_kind := EvalGlobal | EvalModule | EvalModuleCompileOnly.
Inductive intrinsic :=
| IBaseObjects | IEval | IJSON | IRegExp | IMapSet | ITypedArrays | IPromise.

(** An engine call, seen from the stubs: it ends, or calls one of the
    registered C callbacks and goes on with its answer. *)
Inductive run (E V A : Type) : Type :=
| Done (a : A)
| OnHostLater (e : E) (argv : list V) (k : E -> V -> run E V A)
| OnHostRpc (e : E) (argv : list V) (k : E -> V -> run E V A)
| OnInterrupt (k : bool -> run E V A)
| OnRejection (is_handled : bool) (k : run E V A)
| OnLoadModule (e : E) (name : list Z) (k : E -> option V -> run E V A).
Arguments Done {E V A} a.
Arguments OnHostLater {E V A} e argv k.
Arguments OnHostRpc {E V A} e argv k.
Arguments OnInterrupt {E V A} k.
Arguments OnRejection {E V A} is_handled k.
Arguments OnLoadModule {E V A} e name k.

(** Post-processing the result of an engine call. *)
Fixpoint run_map {E V A B} (f : A -> B) (m : run E V A) : run E V B :=
  match m with
  | Done a => Done (f a)
  | OnHostLater e argv k => OnHostLater e argv (fun e v => run_map f (k e v))
  | OnHostRpc e argv k => OnHostRpc e argv (fun e v => run_map f (k e v))
  | OnInterrupt k => OnInterrupt (fun b => run_map f (k b))
  | OnRejection h k => OnRejection h (run_map f k)
  | OnLoadModule e n k => OnLoadModule e n (fun e v => run_map f (k e v))
  end.

Class JSEngine (E V : Type) := {
  JS_UNDEFINED : V;
  JS_IsException : V -> bool;
  (* values and errors *)
  JS_GetException : E -> E * V;
  JS_FreeValue : E -> V -> E;
  JS_FreeCString : E -> list Z -> E;
  JS_ThrowTypeError : E -> list Z -> E * V;
  JS_ThrowInternalError : E -> list Z -> E * V;
  JS_ThrowReferenceError : E -> list Z -> E * V;
  JS_NewString : E -> list Z -> E * V;
  JS_ParseJSON : E -> list Z -> E * V;
  JS_NewPromiseCapability : E -> E * V * V * V;
  JS_NewObject : E -> E * V;
  JS_NewCFunction : E -> list Z -> Z -> E * V;
  JS_GetGlobalObject : E -> E * V;
  (* configuration *)
  JS_SetMemoryLimit : E -> Z -> E;
  JS_SetMaxStackSize : E -> Z -> E;
  JS_SetInterruptHandler : E -> loc -> E;
  JS_SetCanBlock : E -> bool -> E;
  JS_SetHostPromiseRejectionTracker : E -> loc -> E;
  JS_AddIntrinsic : E -> intrinsic -> E;
  JS_SetContextOpaque : E -> loc -> E;
  JS_SetModuleLoaderFunc : E -> loc -> E;
  (* observations *)
  JS_IsJobPending : E -> bool;
  JS_memory_used_size : E -> Z;
  (* calls that may run JavaScript *)
  JS_Eval : E -> list Z -> list Z -> eval_kind -> run E V (E * V);
  JS_ToInt32 : E -> V -> run E V (E * option Z);
  JS_ToCString : E -> V -> run E V (E * option (list Z));
  JS_JSONStringify : E -> V -> run E V (E * V);
  JS_SetPropertyStr : E -> V -> list Z -> V -> run E V E;
  JS_Call : E -> V -> V -> run E V (E * V);
  JS_ExecutePendingJob : E -> run E V (E * Z);
  (* teardown: whether the last collection of [JS_FreeRuntime] leaves
     gc_obj_list and weakref_list empty when C holds no object *)
  JS_FreeContext : E -> E;
  JS_lists_empty : E -> bool }.

(** [JS_FreeRuntime] asserts after its last collection that no object is left.
    [held] are the objects of the runtime to which C code outside the engine
    still has a reference: a collection keeps those. *)
Definition JS_FreeRuntime {E V} `{!JSEngine E V} {S} (e : E) (held : list V) : M S unit :=
  match held with
  | [] => if JS_lists_empty e then mret tt else mfail (Abort "assert(list_empty(&rt->gc_obj_list))")
  | _ => mfail (Abort "assert(list_empty(&rt->gc_obj_list))")
  end.
