(* ===== verification/Stubs.v ===== *)
(** * The OCaml FFI of the engine (qjs/c/qjs_stubs.c)

    The C globals ([g_table], [g_generation], [g_promises]), the runtimes they
    point to, the malloc'd blocks and the platform are the state [world]; every
    CAMLprim entry point and every callback the engine can make is a
    computation on it.  An OCaml exception ([caml_failwith]) leaves the C state
    as it is at the raise. *)
From S2P Require Import Prelude Digits HostQueue Allocator Port Handles Engine.

Inductive mlqjs_interrupt_reason :=
| MLQJS_REASON_NONE | MLQJS_REASON_DEADLINE | MLQJS_REASON_CPU | MLQJS_REASON_CANCEL.

#[export] Instance reason_eq_dec : EqDecision mlqjs_interrupt_reason.
Proof. solve_decision. Defined.

Definition MLQJS_MAX_MODULES : nat := 256.
Definition MLQJS_MAX_PATH_LEN : nat := 512.

Record mlqjs_module_entry := mk_module {
  mod_path : list Z;
  mod_source : loc;
  mod_source_len : nat }.

(** [modules] lists the entries below [module_count]. *)
Record mlqjs_runtime (E : Type) := mk_runtime {
  rt_eng : E;
  rt_a_state : loc;
  rt_requests : mlqjs_host_queue;
  rt_modules : list mlqjs_module_entry;
  rt_deadline_ns : Z;
  rt_cpu_budget_ns : Z;
  rt_engine_start_ns : Z;
  rt_cancelled : bool;
  rt_terminal : bool;
  rt_interrupt_reason : mlqjs_interrupt_reason;
  rt_gen : Z }.
Arguments mk_runtime {E}.
Arguments rt_eng {E}. Arguments rt_a_state {E}. Arguments rt_requests {E}.
Arguments rt_modules {E}. Arguments rt_deadline_ns {E}. Arguments rt_cpu_budget_ns {E}.
Arguments rt_engine_start_ns {E}. Arguments rt_cancelled {E}. Arguments rt_terminal {E}.
Arguments rt_interrupt_reason {E}. Arguments rt_gen {E}.

(** Assignments to one field of a runtime. *)
Definition set_eng {E} (e : E) (r : mlqjs_runtime E) : mlqjs_runtime E :=
  mk_runtime e (rt_a_state r) (rt_requests r) (rt_modules r) (rt_deadline_ns r)
    (rt_cpu_budget_ns r) (rt_engine_start_ns r) (rt_cancelled r) (rt_terminal r)
    (rt_interrupt_reason r) (rt_gen r).
Definition set_requests {E} (q : mlqjs_host_queue) (r : mlqjs_runtime E) : mlqjs_runtime E :=
  mk_runtime (rt_eng r) (rt_a_state r) q (rt_modules r) (rt_deadline_ns r)
    (rt_cpu_budget_ns r) (rt_engine_start_ns r) (rt_cancelled r) (rt_terminal r)
    (rt_interrupt_reason r) (rt_gen r).
Definition set_modules {E} (ms : list mlqjs_module_entry) (r : mlqjs_runtime E) : mlqjs_runtime E :=
  mk_runtime (rt_eng r) (rt_a_state r) (rt_requests r) ms (rt_deadline_ns r)
    (rt_cpu_budget_ns r) (rt_engine_start_ns r) (rt_cancelled r) (rt_terminal r)
    (rt_interrupt_reason r) (rt_gen r).
Definition set_cancelled {E} (r : mlqjs_runtime E) : mlqjs_runtime E :=
  mk_runtime (rt_eng r) (rt_a_state r) (rt_requests r) (rt_modules r) (rt_deadline_ns r)
    (rt_cpu_budget_ns r) (rt_engine_start_ns r) true (rt_terminal r)
    (rt_interrupt_reason r) (rt_gen r).
Definition set_terminal {E} (r : mlqjs_runtime E) : mlqjs_runtime E :=
  mk_runtime (rt_eng r) (rt_a_state r) (rt_requests r) (rt_modules r) (rt_deadline_ns r)
    (rt_cpu_budget_ns r) (rt_engine_start_ns r) (rt_cancelled r) true
    (rt_interrupt_reason r) (rt_gen r).
Definition set_reason {E} (x : mlqjs_interrupt_reason) (r : mlqjs_runtime E) : mlqjs_runtime E :=
  mk_runtime (rt_eng r) (rt_a_state r) (rt_requests r) (rt_modules r) (rt_deadline_ns r)
    (rt_cpu_budget_ns r) (rt_engine_start_ns r) (rt_cancelled r) (rt_terminal r)
    x (rt_gen r).

(** The C state.  A [JSValue] that outlives a call, in [g_promises], points into
    the heap of a runtime: it is kept with that runtime's address, to tell when
    it is used elsewhere.  [w_malloc] answers the next mallocs (exhausted: they succeed). *)
Record world (E V P : Type) := mk_world {
  g_table : list (option loc);
  g_generation : list Z;
  g_promises : list (mlqjs_promise_slot (loc * V));
  w_rts : gmap loc (mlqjs_runtime E);
  w_mem : gmap loc (list Z);
  w_malloc : list bool;
  w_port : P }.
Arguments mk_world {E V P}.
Arguments g_table {E V P}. Arguments g_generation {E V P}. Arguments g_promises {E V P}.
Arguments w_rts {E V P}. Arguments w_mem {E V P}. Arguments w_malloc {E V P}.
Arguments w_port {E V P}.

Section Stubs.
Context {E V P : Type} `{!JSEngine E V} `{!Port P}.

Definition set_rts (m : gmap loc (mlqjs_runtime E)) (w : world E V P) : world E V P :=
  mk_world (g_table w) (g_generation w) (g_promises w) m (w_mem w) (w_malloc w) (w_port w).
Definition set_mem (m : gmap loc (list Z)) (w : world E V P) : world E V P :=
  mk_world (g_table w) (g_generation w) (g_promises w) (w_rts w) m (w_malloc w) (w_port w).
Definition set_promises (ps : list (mlqjs_promise_slot (loc * V))) (w : world E V P) : world E V P :=
  mk_world (g_table w) (g_generation w) ps (w_rts w) (w_mem w) (w_malloc w) (w_port w).
Definition set_port (p : P) (w : world E V P) : world E V P :=
  mk_world (g_table w) (g_generation w) (g_promises w) (w_rts w) (w_mem w) (w_malloc w) p.
Definition set_table (t : list (option loc)) (g : list Z) (w : world E V P) : world E V P :=
  mk_world t g (g_promises w) (w_rts w) (w_mem w) (w_malloc w) (w_port w).

(** Reading and writing through a runtime pointer. *)
Definition get_rt (q : loc) : M (world E V P) (mlqjs_runtime E) := fun w =>
  match w_rts w !! q with Some r => (w, Ok r) | None => (w, UB "runtime used after free") end.
Definition modify_rt (q : loc) (f : mlqjs_runtime E -> mlqjs_runtime E) : M (world E V P) unit :=
  fun w => match w_rts w !! q with
           | Some r => (set_rts (<[q := f r]> (w_rts w)) w, Ok tt)
           | None => (w, UB "runtime used after free")
           end.

Definition on_mem {A} (m : M (gmap loc (list Z)) A) : M (world E V P) A := zoom w_mem set_mem m.
Definition on_port {A} (m : M P A) : M (world E V P) A := zoom w_port set_port m.

(** [malloc(n)] followed by the [memcpy] that fills the block. *)
Definition w_alloc (bytes : list Z) : M (world E V P) (option loc) := fun w =>
  let '(ok, rest) := match w_malloc w with b :: bs => (b, bs) | [] => (true, []) end in
  let w' := mk_world (g_table w) (g_generation w) (g_promises w) (w_rts w) (w_mem w) rest (w_port w) in
  on_mem (malloc ok bytes) w'.

(** The bytes behind a pointer. *)
Definition load (l : loc) : M (world E V P) (list Z) := fun w =>
  match w_mem w !! l with Some bs => (w, Ok bs) | None => (w, UB "block used after free") end.

(** ** Callbacks *)

Definition mlqjs_interrupt (q : loc) : M (world E V P) bool :=
  let* r := get_rt q in
  if rt_cancelled r then modify_rt q (set_reason MLQJS_REASON_CANCEL) ;;; mret true
  else
    let* now := on_port port_monotonic_ns in
    if negb (rt_deadline_ns r =? 0) && (rt_deadline_ns r <=? now) then
      modify_rt q (set_reason MLQJS_REASON_DEADLINE) ;;; mret true
    else if negb (rt_cpu_budget_ns r =? 0) then
      let used := u64 (now - rt_engine_start_ns r) in
      if rt_cpu_budget_ns r <=? used then
        modify_rt q (set_reason MLQJS_REASON_CPU) ;;; mret true
      else mret false
    else mret false.

Definition mlqjs_rejection_tracker (q : loc) (is_handled : bool) : M (world E V P) unit :=
  if negb is_handled then modify_rt q set_terminal else mret tt.

(** The part the two host callbacks share: copy the payload to a malloc'd
    block and push the request.  [None]: malloc failed; [Some 0]: queue full. *)
Definition enqueue (q : loc) (op : list Z) (bytes : list Z) (len : Z) :
    M (world E V P) (option Z) :=
  let* p := w_alloc bytes in
  match p with
  | None => mret None
  | Some _ =>
      let* r := get_rt q in
      let* qi := on_mem (mlqjs_host_queue_push (rt_requests r) (Some op) p len) in
      modify_rt q (set_requests qi.1) ;;;
      mret (Some qi.2)
  end.

(** [JS_FreeValue] on several values. *)
Definition free_values (e : E) (vs : list V) : E := fold_left JS_FreeValue vs e.

(** [promise_insert], freeing the two values when the table is full. *)
Definition store_promise (q : loc) (e : E) (res rej : V) (id : Z) : M (world E V P) (E * bool) := fun w =>
  match promise_insert (g_promises w) (q, res) (q, rej) id with
  | Some ps => (set_promises ps w, Ok (e, true))
  | None => (w, Ok (free_values e [res; rej], false))
  end.

Section Callbacks.
(** How a nested engine call is run. *)
Context (ex : forall A, run E V A -> M (world E V P) A).

Definition mlqjs_module_loader (q : loc) (e : E) (module_name : list Z) :
    M (world E V P) (E * option V) :=
  let* r := get_rt q in
  match find_index (fun m => strcmp_eq (mod_path m) module_name) (rt_modules r) with
  | Some i =>
      match rt_modules r !! i with
      | Some m =>
          let* src := load (mod_source m) in
          let* ev := ex _ (JS_Eval e (take (mod_source_len m) src) module_name
                             EvalModuleCompileOnly) in
          if JS_IsException ev.2 then mret (ev.1, None)
          else mret (JS_FreeValue ev.1 ev.2, Some ev.2)
      | None => mret (e, None)
      end
  | None =>
      mret ((JS_ThrowReferenceError e (bytes_of_string "could not load module '" ++
               c_str module_name ++ bytes_of_string "'")).1, None)
  end.

Definition mlqjs_host_later (q : loc) (e : E) (argv : list V) : M (world E V P) (E * V) :=
  match argv with
  | [] => mret (JS_ThrowTypeError e (bytes_of_string "host.later expects 1 argument"))
  | arg0 :: _ =>
      let* ei := ex _ (JS_ToInt32 e arg0) in
      match ei.2 with
      | None => mret (JS_ThrowTypeError ei.1 (bytes_of_string "host.later expects an int"))
      | Some arg =>
          let '(e, promise, res, rej) := JS_NewPromiseCapability ei.1 in
          if JS_IsException promise then mret (e, promise)
          else
            let payload := print_int arg in
            let plen := Z.of_nat (length payload) in
            let* id := enqueue q (bytes_of_string "host.later") (payload ++ [0]) plen in
            match id with
            | None => mret (JS_ThrowTypeError (free_values e [promise; res; rej])
                              (bytes_of_string "oom"))
            | Some id =>
                if id =? 0 then
                  mret (JS_ThrowInternalError (free_values e [promise; res; rej])
                          (bytes_of_string "host request queue full"))
                else
                  let* eb := store_promise q e res rej id in
                  if negb eb.2
                  then mret (JS_ThrowInternalError eb.1 (bytes_of_string "promise table full"))
                  else mret (eb.1, promise)
            end
      end
  end.

Definition mlqjs_host_rpc (q : loc) (e : E) (argv : list V) : M (world E V P) (E * V) :=
  match argv with
  | arg0 :: arg1 :: _ =>
      let* eo := ex _ (JS_ToCString e arg0) in
      match eo.2 with
      | None => mret (JS_ThrowTypeError eo.1 (bytes_of_string "host.rpc: op must be a string"))
      | Some op =>
          let* ej := ex _ (JS_JSONStringify eo.1 arg1) in
          let* ea := if negb (JS_IsException ej.2) then
                       let* ec := ex _ (JS_ToCString ej.1 ej.2) in
                       mret (JS_FreeValue ec.1 ej.2, ec.2)
                     else mret (ej.1, None) in
          match ea.2 with
          | None => mret (JS_ThrowTypeError (JS_FreeCString ea.1 op)
                            (bytes_of_string "host.rpc: bad arg"))
          | Some arg_json =>
              let '(e, promise, res, rej) := JS_NewPromiseCapability ea.1 in
              if JS_IsException promise then
                mret (JS_FreeCString (JS_FreeCString e op) arg_json, promise)
              else
                let payload := c_str op ++ [10] ++ c_str arg_json in
                let plen := Z.of_nat (length payload) in
                let e := JS_FreeCString (JS_FreeCString e op) arg_json in
                let* id := enqueue q (bytes_of_string "host.rpc") (payload ++ [0]) plen in
                match id with
                | None => mret (JS_ThrowInternalError (free_values e [promise; res; rej])
                                  (bytes_of_string "oom"))
                | Some id =>
                    if id =? 0 then
                      mret (JS_ThrowInternalError (free_values e [promise; res; rej])
                              (bytes_of_string "queue full"))
                    else
                      let* eb := store_promise q e res rej id in
                      if negb eb.2
                      then mret (JS_ThrowInternalError eb.1 (bytes_of_string "promise table full"))
                      else mret (eb.1, promise)
                end
          end
      end
  | _ => mret (JS_ThrowTypeError e (bytes_of_string "host.rpc expects (op, arg)"))
  end.
End Callbacks.

(** Running an engine call made for runtime [q]: each callback the engine
    makes is answered by the stub registered for it. *)
Fixpoint exec (fuel : nat) (q : loc) (A : Type) (m : run E V A) : M (world E V P) A :=
  match fuel with
  | O => mfail OutOfFuel
  | S n =>
      match m with
      | Done a => mret a
      | OnHostLater e argv k =>
          let* r := mlqjs_host_later (exec n q) q e argv in exec n q A (k r.1 r.2)
      | OnHostRpc e argv k =>
          let* r := mlqjs_host_rpc (exec n q) q e argv in exec n q A (k r.1 r.2)
      | OnInterrupt k => let* b := mlqjs_interrupt q in exec n q A (k b)
      | OnRejection h k => mlqjs_rejection_tracker q h ;;; exec n q A k
      | OnLoadModule e name k =>
          let* r := mlqjs_module_loader (exec n q) q e name in exec n q A (k r.1 r.2)
      end
  end.

(** ** Entry points

    [fuel] bounds the engine runs an entry point starts. *)

(** [table_get(v_handle, &index)]: reading the generation goes through the
    runtime pointer of the slot. *)
Definition w_table_get (v_handle : Z) : M (world E V P) (option (nat * loc)) := fun w =>
  let gen_of q := match w_rts w !! q with Some r => rt_gen r | None => -1 end in
  (w, Ok (table_get (g_table w) gen_of v_handle)).

(** The prologue of most entry points: a stale handle raises. *)
Definition get_or_fail (v_handle : Z) (msg : string) : M (world E V P) loc :=
  let* t := w_table_get v_handle in
  match t with Some (_, q) => mret q | None => mfail (Raise msg) end.

(** What the environment decides during [mlqjs_create]. *)
Record create_env := mk_create_env {
  calloc_runtime_ok : bool;
  calloc_state_ok : bool;
  new_runtime : option E;
  new_context : E -> option E }.

Definition add_intrinsics (e : E) : E :=
  fold_left JS_AddIntrinsic
    [IBaseObjects; IEval; IJSON; IRegExp; IMapSet; ITypedArrays; IPromise] e.

Definition mlqjs_create (env : create_env) (v_limits : list Z) : M (world E V P) Z :=
  if negb (calloc_runtime_ok env) then mfail (Raise "mlqjs_create: out of memory")
  else
    let '(heap, stack, timeout_ns, cpu_ns) := decode_limits v_limits in
    let* a_state := on_mem (mlqjs_alloc_state_new (calloc_state_ok env) heap) in
    let* deadline := if negb (timeout_ns =? 0)
                     then let* now := on_port port_monotonic_ns in mret (u64 (now + timeout_ns))
                     else mret 0 in
    let* start := on_port port_monotonic_ns in
    match new_runtime env with
    | None => on_mem (free (Some a_state)) ;;; mfail (Raise "mlqjs_create: JS_NewRuntime")
    | Some e =>
        let* w := mget in
        let q := fresh (dom (w_rts w)) in
        let e := JS_SetMemoryLimit e heap in
        let e := JS_SetMaxStackSize e stack in
        let e := JS_SetInterruptHandler e q in
        let e := JS_SetCanBlock e false in
        let e := JS_SetHostPromiseRejectionTracker e q in
        match new_context env e with
        | None =>
            JS_FreeRuntime e [] ;;;
            on_mem (free (Some a_state)) ;;;
            mfail (Raise "mlqjs_create: JS_NewContextRaw")
        | Some e =>
            let e := JS_SetModuleLoaderFunc (JS_SetContextOpaque (add_intrinsics e) q) q in
            match table_alloc (g_table w) (g_generation w) q with
            | None =>
                JS_FreeRuntime (JS_FreeContext e) [] ;;;
                on_mem (mlqjs_host_queue_destroy mlqjs_host_queue_init) ;;;
                on_mem (free (Some a_state)) ;;;
                mfail (Raise "mlqjs_create: handle table full")
            | Some (i, table', gens', handle) =>
                let r := mk_runtime e a_state mlqjs_host_queue_init [] deadline cpu_ns start
                           false false MLQJS_REASON_NONE (default 0 (gens' !! i)) in
                mmodify (fun w => set_rts (<[q := r]> (w_rts w)) (set_table table' gens' w)) ;;;
                mret handle
            end
        end
    end.

(** [for (i..) free(q->modules[i].source)] *)
Fixpoint free_sources (ms : list mlqjs_module_entry) : M (gmap loc (list Z)) unit :=
  match ms with
  | [] => mret tt
  | m :: ms' => free (Some (mod_source m)) ;;; free_sources ms'
  end.

(** The references that [g_promises] holds to objects of the runtime *)
Definition held (q : loc) (ps : list (mlqjs_promise_slot (loc * V))) : list V :=
  concat (map (fun s => if slot_in_use s then
                          map snd (filter (fun v => v.1 = q) [slot_resolve s; slot_reject s]) else []) ps).

Definition mlqjs_destroy (v_handle : Z) : M (world E V P) unit :=
  let* t := w_table_get v_handle in
  match t with
  | None => mret tt
  | Some (index, q) =>
      let* r := get_rt q in
      mmodify (fun w => set_table (<[index := None]> (g_table w)) (g_generation w) w) ;;;
      let e := JS_FreeContext (rt_eng r) in
      let* w := mget in
      JS_FreeRuntime e (held q (g_promises w)) ;;;
      on_mem (mlqjs_host_queue_destroy (rt_requests r)) ;;;
      on_mem (mlqjs_alloc_state_free (rt_a_state r)) ;;;
      on_mem (free_sources (rt_modules r)) ;;;
      mmodify (fun w => set_rts (delete q (w_rts w)) w)
  end.

(** Running an engine call of an entry point: the context's state is read from
    the runtime, and written back when the call returns. *)
Definition call_engine {A} (fuel : nat) (q : loc) (f : E -> run E V (E * A)) : M (world E V P) A :=
  let* r := get_rt q in
  let* ea := exec fuel q _ (f (rt_eng r)) in
  modify_rt q (set_eng ea.1) ;;;
  mret ea.2.

(** An engine call that runs no JavaScript. *)
Definition with_engine {A} (q : loc) (f : E -> E * A) : M (world E V P) A :=
  let* r := get_rt q in
  let '(e, a) := f (rt_eng r) in
  modify_rt q (set_eng e) ;;;
  mret a.
Definition free_value (q : loc) (v : V) : M (world E V P) unit :=
  with_engine q (fun e => (JS_FreeValue e v, tt)).

(** [JSValue e = JS_GetException(ctx); JS_FreeValue(ctx, e)] *)
Definition drop_exception (q : loc) : M (world E V P) unit :=
  with_engine q (fun e => let '(e', v) := JS_GetException e in (JS_FreeValue e' v, tt)).

Definition eval_name : list Z := bytes_of_string "<eval>".

Definition mlqjs_eval (fuel : nat) (v_handle : Z) (v_src : list Z) : M (world E V P) bool :=
  let* q := get_or_fail v_handle "mlqjs_eval: stale handle" in
  let* r := call_engine fuel q (fun e => JS_Eval e v_src eval_name EvalGlobal) in
  let is_exc := JS_IsException r in
  (if is_exc then drop_exception q else mret tt) ;;;
  free_value q r ;;;
  mret is_exc.

Definition mlqjs_eval_int (fuel : nat) (v_handle : Z) (v_src : list Z) : M (world E V P) Z :=
  let* q := get_or_fail v_handle "mlqjs_eval_int: stale handle" in
  let* r := call_engine fuel q (fun e => JS_Eval e v_src eval_name EvalGlobal) in
  if JS_IsException r then
    drop_exception q ;;; free_value q r ;;; mfail (Raise "mlqjs_eval_int: eval threw")
  else
    let* out := call_engine fuel q (fun e => JS_ToInt32 e r) in
    match out with
    | None => free_value q r ;;; mfail (Raise "mlqjs_eval_int: not an int")
    | Some out => free_value q r ;;; mret out
    end.

Definition mlqjs_eval_string (fuel : nat) (v_handle : Z) (v_src : list Z) : M (world E V P) (list Z) :=
  let* q := get_or_fail v_handle "mlqjs_eval_string: stale handle" in
  let* r := call_engine fuel q (fun e => JS_Eval e v_src eval_name EvalGlobal) in
  if JS_IsException r then
    drop_exception q ;;; free_value q r ;;; mfail (Raise "mlqjs_eval_string: eval threw")
  else
    let* s := call_engine fuel q (fun e => JS_ToCString e r) in
    match s with
    | None => free_value q r ;;; mfail (Raise "mlqjs_eval_string: not a string-convertible")
    | Some s =>
        let v_result := c_str s in
        with_engine q (fun e => (JS_FreeCString e s, tt)) ;;;
        free_value q r ;;;
        mret v_result
    end.

Definition mlqjs_set_module (v_handle : Z) (v_path v_src : list Z) : M (world E V P) unit :=
  let* q := get_or_fail v_handle "mlqjs_set_module: stale handle" in
  let* r := get_rt q in
  if (MLQJS_MAX_MODULES <=? length (rt_modules r))%nat
  then mfail (Raise "mlqjs_set_module: too many modules")
  else if (MLQJS_MAX_PATH_LEN <=? length v_path)%nat
  then mfail (Raise "mlqjs_set_module: path too long")
  else
    let* p := w_alloc v_src in
    match p with
    | None => mfail (Raise "mlqjs_set_module: oom")
    | Some l => modify_rt q (fun r => set_modules (rt_modules r ++ [mk_module v_path l (length v_src)]) r)
    end.

Definition mlqjs_eval_module (fuel : nat) (v_handle : Z) (v_path : list Z) : M (world E V P) bool :=
  let* q := get_or_fail v_handle "mlqjs_eval_module: stale handle" in
  let* r := get_rt q in
  match find_index (fun m => strcmp_eq (mod_path m) v_path) (rt_modules r) ≫= (fun i => rt_modules r !! i) with
  | Some m =>
      let* src := load (mod_source m) in
      let* val := call_engine fuel q (fun e => JS_Eval e (take (mod_source_len m) src) v_path EvalModule) in
      let is_exc := JS_IsException val in
      (if is_exc then drop_exception q else mret tt) ;;;
      free_value q val ;;;
      mret is_exc
  | None => mfail (Raise "mlqjs_eval_module: entrypoint not found")
  end.

(** Installing [host.later] and [host.rpc]. *)
Definition mlqjs_install_host (fuel : nat) (v_handle : Z) : M (world E V P) unit :=
  let* q := get_or_fail v_handle "mlqjs_install_host: stale handle" in
  let set o name v :=
    call_engine fuel q (fun e => run_map (fun e => (e, tt)) (JS_SetPropertyStr e o name v)) in
  let* host := with_engine q JS_NewObject in
  let* later_fn := with_engine q (fun e => JS_NewCFunction e (bytes_of_string "later") 1) in
  let* rpc_fn := with_engine q (fun e => JS_NewCFunction e (bytes_of_string "rpc") 2) in
  set host (bytes_of_string "later") later_fn ;;;
  set host (bytes_of_string "rpc") rpc_fn ;;;
  let* global := with_engine q JS_GetGlobalObject in
  set global (bytes_of_string "host") host ;;;
  free_value q global.

(** A value kept in [g_promises], used in the context of [q]: runtimes cannot
    exchange objects. *)
Definition foreign_value : string := "value of another runtime".
Definition own_value (q : loc) (v : loc * V) : M (world E V P) V :=
  if decide (v.1 = q) then mret v.2 else mfail (UB foreign_value).

Definition mlqjs_resolve (fuel : nat) (v_handle v_id : Z) (v_result : list Z) : M (world E V P) unit :=
  let* q := get_or_fail v_handle "mlqjs_resolve: stale handle" in
  let id := u64 v_id in
  let* w := mget in
  match promise_find (g_promises w) id with
  | None => mret tt
  | Some i =>
      match g_promises w !! i with
      | None => mret tt
      | Some s =>
          let* val := with_engine q (fun e => JS_ParseJSON e v_result) in
          (if JS_IsException val then
             let* err := with_engine q (fun e => JS_NewString e (bytes_of_string "bad result JSON")) in
             let* reject := own_value q (slot_reject s) in
             call_engine fuel q (fun e => JS_Call e reject err) ;;;
             free_value q err
           else
             let* resolve := own_value q (slot_resolve s) in
             let* ret := call_engine fuel q (fun e => JS_Call e resolve val) in
             free_value q ret ;;; free_value q val) ;;;
          (* promise_remove(q->ctx, s): the slot is read again through [s] *)
          let* w := mget in
          match g_promises w !! i with
          | Some s => let* resolve := own_value q (slot_resolve s) in free_value q resolve ;;;
                      let* reject := own_value q (slot_reject s) in free_value q reject ;;;
                      mmodify (fun w => set_promises (promise_remove (g_promises w) i) w)
          | None => mret tt
          end
      end
  end.

Definition mlqjs_has_unhandled_rejection (v_handle : Z) : M (world E V P) bool :=
  let* q := get_or_fail v_handle "mlqjs_has_unhandled_rejection: stale handle" in
  let* r := get_rt q in mret (rt_terminal r).

(** The job loop of [mlqjs_pump], [n] iterations left; [inl] is the early
    return 2. *)
Fixpoint pump_loop (fuel : nat) (q : loc) (n : nat) (ran : bool) : M (world E V P) (unit + bool) :=
  match n with
  | O => mret (inr ran)
  | S n' =>
      let* r := get_rt q in
      if rt_cancelled r then mret (inl tt)
      else if negb (JS_IsJobPending (rt_eng r)) then mret (inr ran)
      else
        let* rc := call_engine fuel q (fun e => JS_ExecutePendingJob e) in
        if rc =? 0 then mret (inr ran)
        else
          (if rc <? 0 then drop_exception q else mret tt) ;;;
          pump_loop fuel q n' true
  end.

Definition mlqjs_pump (fuel : nat) (v_handle v_max_jobs : Z) : M (world E V P) Z :=
  let* q := get_or_fail v_handle "mlqjs_pump: stale handle" in
  let max_jobs := Int_val v_max_jobs in
  let* res := pump_loop fuel q (Z.to_nat max_jobs) false in
  match res with
  | inl _ => mret 2
  | inr ran =>
      let* r := get_rt q in
      if bool_decide (rt_interrupt_reason r <> MLQJS_REASON_NONE) then mret 2
      else mret (if ran : bool then 1 else 0)
  end.

Definition mlqjs_cancel (v_handle : Z) : M (world E V P) unit :=
  let* t := w_table_get v_handle in
  match t with
  | Some (_, q) => modify_rt q set_cancelled
  | None => mret tt
  end.

(** One iteration of the drain: the request's id, operation and payload copied
    to OCaml, the payload freed. *)
Definition take_one (q : loc) : M (world E V P) (option (Z * list Z * list Z)) :=
  let* r := get_rt q in
  match mlqjs_host_queue_take (rt_requests r) zero_request with
  | None => mret None
  | Some (rq, out) =>
      modify_rt q (set_requests rq) ;;;
      match req_payload out with
      | None => mfail (UB "read through a NULL payload")
      | Some l =>
          let* bytes := load l in
          on_mem (free (Some l)) ;;;
          mret (Some (req_id out, c_str (req_operation out),
                      take (Z.to_nat (req_payload_len out)) bytes))
      end
  end.

Fixpoint take_loop (q : loc) (n : nat) : M (world E V P) (list (Z * list Z * list Z)) :=
  match n with
  | O => mret []
  | S n' =>
      let* x := take_one q in
      match x with
      | None => mret []
      | Some x => let* rest := take_loop q n' in mret (x :: rest)
      end
  end.

Definition mlqjs_take_requests (v_handle : Z) : M (world E V P) (list (Z * list Z * list Z)) :=
  let* q := get_or_fail v_handle "mlqjs_take_requests: stale handle" in
  let* r := get_rt q in
  take_loop q (mlqjs_host_queue_count (rt_requests r)).

Definition mlqjs_host_call_count (v_handle : Z) : M (world E V P) Z :=
  let* q := get_or_fail v_handle "mlqjs_host_call_count: stale handle" in
  let* r := get_rt q in mret (Z.of_nat (mlqjs_host_queue_count (rt_requests r))).

(** used size, limit, whether a job is pending; the sizes cast to [int]. *)
Definition mlqjs_mem_usage (v_handle : Z) : M (world E V P) (Z * Z * Z) :=
  let* q := get_or_fail v_handle "mlqjs_mem_usage: stale handle" in
  let* r := get_rt q in
  let* st := load (rt_a_state r) in
  mret (i32 (JS_memory_used_size (rt_eng r)), i32 (default 0 (st !! 0%nat)),
        if JS_IsJobPending (rt_eng r) then 1 else 0).

End Stubs.
