(* ===== verification/StubsInv.v ===== *)
(** * The invariant of the FFI state

    Whatever JavaScript runs and in whatever order OCaml calls the entry points
    of [Stubs], the handle table, the runtimes it points to and the heap stay
    consistent: no entry point touches a freed runtime or block, the heap holds
    exactly the payloads, module sources and counter blocks of the live
    runtimes, and a call on one runtime leaves the others as they are. *)
From S2P Require Import Prelude Digits HostQueue Allocator Port Handles Engine Stubs.

Section Inv.
Context {E V P : Type} `{!JSEngine E V} `{!Port P}.

(** The blocks a runtime owns: queued payloads, module sources, its counters. *)
Definition owned (r : mlqjs_runtime E) : list loc :=
  payloads (rt_requests r) ++ (mod_source <$> rt_modules r) ++ [rt_a_state r].

Record rt_wf (r : mlqjs_runtime E) : Prop := {
  rwf_queue : queue_wf (rt_requests r);
  rwf_payloads : Forall (fun x => is_Some (req_payload x)) (live (rt_requests r));
  rwf_modules : (length (rt_modules r) <= MLQJS_MAX_MODULES)%nat;
  rwf_paths : Forall (fun m => (length (mod_path m) < MLQJS_MAX_PATH_LEN)%nat) (rt_modules r);
  rwf_gen : 1 <= rt_gen r < 2 ^ 16;
  rwf_owned : NoDup (owned r) }.

Record world_wf (w : world E V P) : Prop := {
  wwf_table : length (g_table w) = MLQJS_TABLE_CAP;
  wwf_gens : length (g_generation w) = MLQJS_TABLE_CAP;
  wwf_gen_range : Forall (fun g => 0 <= g < 2 ^ 16) (g_generation w);
  wwf_promises : length (g_promises w) = MLQJS_MAX_PROMISES;
  (* every table entry is a live runtime carrying the slot's generation *)
  wwf_entry : forall i q, g_table w !! i = Some (Some q) ->
    exists r, w_rts w !! q = Some r /\ g_generation w !! i = Some (rt_gen r);
  (* every live runtime is in the table, once *)
  wwf_listed : forall q r, w_rts w !! q = Some r -> exists i, g_table w !! i = Some (Some q);
  wwf_once : forall i j q, g_table w !! i = Some (Some q) -> g_table w !! j = Some (Some q) -> i = j;
  wwf_rt : forall q r, w_rts w !! q = Some r -> rt_wf r;
  (* the heap is what the runtimes own, each block with one owner *)
  wwf_heap : forall l, is_Some (w_mem w !! l) <-> exists q r, w_rts w !! q = Some r /\ l ∈ owned r;
  wwf_disjoint : forall q1 q2 r1 r2 l, w_rts w !! q1 = Some r1 -> w_rts w !! q2 = Some r2 ->
    l ∈ owned r1 -> l ∈ owned r2 -> q1 = q2;
  (* pending promises are of live runtimes *)
  wwf_held : forall i s, g_promises w !! i = Some s -> slot_in_use s = true ->
    (slot_resolve s).1 = (slot_reject s).1 /\ is_Some (w_rts w !! (slot_resolve s).1) }.

(** What a call on runtime [q] leaves as it was: the tables, the other runtimes
    with their blocks, and every pending promise. *)
Record frame (q : loc) (w0 w : world E V P) : Prop := {
  fr_table : g_table w = g_table w0;
  fr_gens : g_generation w = g_generation w0;
  fr_rts : forall p, p <> q -> w_rts w !! p = w_rts w0 !! p;
  fr_mem : forall p r l, p <> q -> w_rts w0 !! p = Some r -> l ∈ owned r -> w_mem w !! l = w_mem w0 !! l;
  fr_slots : forall i s, g_promises w0 !! i = Some s -> slot_in_use s = true -> g_promises w !! i = Some s }.
Lemma frame_refl q w : frame q w w.
Proof. by split. Qed.
Lemma frame_trans q w0 w1 w2 : frame q w0 w1 -> frame q w1 w2 -> frame q w0 w2.
Proof.
  intros [A1 A2 A3 A4 A5] [B1 B2 B3 B4 B5]. split; [congruence|congruence| | |auto].
  - intros p Hp. by rewrite B3, A3.
  - intros p r l Hp Hr Hl. rewrite (B4 p r l), (A4 p r l); [done..|by rewrite A3|done].
Qed.
(** One runtime changes, and only blocks no other one owns. *)
Lemma frame_update q w r' (m' : gmap loc (list Z)) ora port :
  (forall p r l, p <> q -> w_rts w !! p = Some r -> l ∈ owned r -> m' !! l = w_mem w !! l) ->
  frame q w (mk_world (g_table w) (g_generation w) (g_promises w) (<[q := r']> (w_rts w)) m' ora port).
Proof. intros Hm. split; cbn; try done. intros p Hp. by rewrite lookup_insert_ne. Qed.

(** The invariant while a call on runtime [q], started in [w0], is running. *)
Definition running (w0 : world E V P) (q : loc) (w : world E V P) : Prop :=
  world_wf w /\ is_Some (w_rts w !! q) /\ frame q w0 w.
Lemma running_start w q : world_wf w -> is_Some (w_rts w !! q) -> running w q w.
Proof. intros Hw Hq. split_and!; [done|done|apply frame_refl]. Qed.
Lemma running_step w0 q w w' : running w0 q w -> world_wf w' -> is_Some (w_rts w' !! q) -> frame q w w' -> running w0 q w'.
Proof. intros (_ & _ & Hf) Hw Hq Hf'. split_and!; [done|done|by eapply frame_trans]. Qed.

(** ** One runtime and its blocks change *)

Lemma world_wf_update w q r r' (m' : gmap loc (list Z)) ora port :
  world_wf w -> w_rts w !! q = Some r -> rt_wf r' -> rt_gen r' = rt_gen r ->
  (forall l, l ∈ owned r' -> l ∈ owned r \/ w_mem w !! l = None) ->
  (forall l, is_Some (m' !! l) <-> l ∈ owned r' \/ (is_Some (w_mem w !! l) /\ l ∉ owned r)) ->
  world_wf (mk_world (g_table w) (g_generation w) (g_promises w)
              (<[q := r']> (w_rts w)) m' ora port).
Proof.
  intros Hw Hr Hr' Hg Hown Hmem. destruct Hw as [H1 H2 H3 H4 H5 H6 H7 H8 H9 H10 H11].
  split; cbn; try done.
  - intros i p Hp. destruct (H5 i p Hp) as (rp & Hrp & Hgp).
    rewrite lookup_insert. case_decide as E0; [subst p|by eauto].
    exists r'. split; [done|]. rewrite Hg. congruence.
  - intros p rp. rewrite lookup_insert. case_decide as E0; [subst p; eauto|eauto].
  - intros p rp. rewrite lookup_insert. case_decide; [by intros [= <-]|by apply H8].
  - intros l. rewrite Hmem. split.
    + intros [Hl|[Hl Hn]].
      * exists q, r'. by rewrite lookup_insert_eq.
      * apply H9 in Hl as (p & rp & Hp & Hl). exists p, rp.
        rewrite lookup_insert_ne; [done|]. intros <-. congruence.
    + intros (p & rp & Hp & Hl). rewrite lookup_insert in Hp.
      case_decide as E0; [injection Hp as <-; by left|]. right.
      split; [apply H9; by eauto|]. intros Hl'. by eapply E0, H10.
  - intros q1 q2 r1 r2 l. rewrite !lookup_insert.
    assert (forall p rp, q <> p -> w_rts w !! p = Some rp -> l ∈ owned r' -> l ∈ owned rp -> False) as Hx.
    { intros p rp Hne Hp Ha Hb. destruct (Hown l Ha) as [Hc|Hc]; [by eapply Hne, H10|].
      assert (is_Some (w_mem w !! l)) as [? ?] by (apply H9; eauto). congruence. }
    repeat case_decide; intros; simplify_eq; try done; [exfalso; eauto..|by eapply H10].
  - intros i s Hs Hu. destruct (H11 i s Hs Hu) as [He Hl]. split; [done|].
    rewrite lookup_insert_is_Some'. by right.
Qed.

(** The runtime gains one freshly allocated block. *)
Lemma world_wf_grow w q r r' l bytes ora port :
  world_wf w -> w_rts w !! q = Some r -> rt_wf r' -> rt_gen r' = rt_gen r ->
  w_mem w !! l = None -> owned r' ≡ₚ l :: owned r ->
  world_wf (mk_world (g_table w) (g_generation w) (g_promises w)
              (<[q := r']> (w_rts w)) (<[l := bytes]> (w_mem w)) ora port).
Proof.
  intros Hw Hr Hr' Hg Hl Ho. apply (world_wf_update w q r r' (<[l := bytes]> (w_mem w))); try done.
  - intros k. rewrite Ho, elem_of_cons. intros [->|?]; [by right|by left].
  - intros k. rewrite lookup_insert_is_Some, Ho, elem_of_cons.
    split; [|intros [[->|Hk]|[Hk _]]].
    + intros [->|[? ?]]; [auto|]. destruct (decide (k ∈ owned r)); auto.
    + by left.
    + right. assert (is_Some (w_mem w !! k)) as Hk' by (apply (wwf_heap w Hw); eauto).
      split; [|done]. intros ->. rewrite Hl in Hk'. by destruct Hk'.
    + destruct (decide (l = k)); auto.
Qed.

Lemma fresh_not_owned w q r :
  world_wf w -> w_rts w !! q = Some r ->
  w_mem w !! fresh (dom (w_mem w)) = None /\ fresh (dom (w_mem w)) ∉ owned r.
Proof.
  intros Hw Hr. assert (w_mem w !! fresh (dom (w_mem w)) = None) as Hf
    by apply not_elem_of_dom, is_fresh.
  split; [done|]. intros Hl.
  assert (is_Some (w_mem w !! fresh (dom (w_mem w)))) as [? ?] by (apply (wwf_heap w Hw); eauto).
  congruence.
Qed.

(** The change keeps the blocks. *)
Lemma world_wf_modify w q r r' :
  world_wf w -> w_rts w !! q = Some r -> rt_wf r' -> rt_gen r' = rt_gen r -> owned r' = owned r ->
  world_wf (set_rts (<[q := r']> (w_rts w)) w).
Proof.
  intros Hw Hr Hr' Hg Ho. apply (world_wf_update w q r r' (w_mem w)); try done.
  - intros l. rewrite Ho. by left.
  - intros l. rewrite Ho. split.
    + intros Hl. destruct (decide (l ∈ owned r)); auto.
    + intros [Hl|[? ?]]; [|done]. apply (wwf_heap w Hw). eauto.
Qed.

(** Setters that leave queue, modules and generation alone. *)
Definition neutral (f : mlqjs_runtime E -> mlqjs_runtime E) : Prop :=
  forall r, rt_requests (f r) = rt_requests r /\ rt_modules (f r) = rt_modules r /\
            rt_a_state (f r) = rt_a_state r /\ rt_gen (f r) = rt_gen r.

Lemma neutral_wf f r : neutral f -> rt_wf r -> rt_wf (f r) /\ owned (f r) = owned r.
Proof.
  intros Hf [H1 H2 H3 H4 H5 H6]. destruct (Hf r) as (E1 & E2 & E4 & E3).
  assert (owned (f r) = owned r) as Ho by (unfold owned; by rewrite E1, E2, E4).
  split; [|done]. split; by rewrite ?E1, ?E2, ?E3, ?Ho.
Qed.

Lemma running_modify w0 q f : neutral f -> preserves (running w0 q) (modify_rt (V:=V) (P:=P) q f).
Proof.
  intros Hf w Hq. pose proof Hq as (Hw & [r Hr] & _). unfold modify_rt. rewrite Hr. cbn.
  destruct (neutral_wf f r Hf (wwf_rt w Hw q r Hr)) as [Hr' Ho].
  split; [|done]. apply (running_step w0 q w); [done| |cbn; rewrite lookup_insert_eq; by eexists|by apply frame_update].
  apply world_wf_modify with r; try done. apply Hf.
Qed.

Lemma running_get w0 q : preserves (running w0 q) (get_rt (V:=V) (P:=P) q).
Proof. intros w Hq. pose proof Hq as (Hw & [r Hr] & _). unfold get_rt. rewrite Hr. done. Qed.

Lemma running_port {A} w0 q (m : M P A) :
  (forall p, no_ub (m p).2) -> preserves (running w0 q) (on_port (E:=E) (V:=V) m).
Proof.
  intros Hm w Hq. pose proof Hq as (Hw & Hs & _). unfold on_port, zoom. specialize (Hm (w_port w)).
  destruct (m (w_port w)) as [p r]. cbn in *. split; [|done].
  apply (running_step w0 q w); [done| |done|by split]. destruct Hw. by split.
Qed.

Lemma neutral_eng e : neutral (set_eng e). Proof. by intros r. Qed.
Lemma neutral_cancelled : neutral set_cancelled. Proof. by intros r. Qed.
Lemma neutral_terminal : neutral set_terminal. Proof. by intros r. Qed.
Lemma neutral_reason x : neutral (set_reason x). Proof. by intros r. Qed.

(** Oracle and clock are not part of the invariant. *)
Lemma world_wf_env w ora port :
  world_wf w ->
  world_wf (mk_world (g_table w) (g_generation w) (g_promises w) (w_rts w) (w_mem w) ora port).
Proof. intros []. by split. Qed.

Lemma world_wf_promises w ps :
  world_wf w -> length ps = MLQJS_MAX_PROMISES ->
  (forall i s, ps !! i = Some s -> slot_in_use s = true ->
     (slot_resolve s).1 = (slot_reject s).1 /\ is_Some (w_rts w !! (slot_resolve s).1)) ->
  world_wf (set_promises ps w).
Proof. intros [] ? ?. by split. Qed.

(** ** Enqueueing a request *)

Lemma rt_wf_pushed r op l len :
  rt_wf r -> (q_count (rt_requests r) < MLQJS_QUEUE_CAP)%nat -> l ∉ owned r ->
  rt_wf (set_requests (pushed (rt_requests r) op (Some l) len) r) /\
  owned (set_requests (pushed (rt_requests r) op (Some l) len) r) ≡ₚ l :: owned r.
Proof.
  intros [H1 H2 H3 H4 H5 H6] Hc Hl.
  assert (owned (set_requests (pushed (rt_requests r) op (Some l) len) r) ≡ₚ l :: owned r) as Ho.
  { unfold owned. cbn [set_requests rt_requests rt_modules].
    rewrite pushed_payloads by done. cbn [option_list].
    rewrite <- app_assoc. cbn [app set_requests rt_a_state]. symmetry. apply Permutation_middle. }
  split; [|done]. split; cbn [set_requests rt_requests rt_modules rt_gen]; try done.
  - by apply pushed_wf.
  - rewrite pushed_live by done. apply Forall_app. split; [done|]. repeat constructor. by eexists.
  - rewrite Ho. by constructor.
Qed.

Lemma w_alloc_cases bytes (w : world E V P) :
  let rest := match w_malloc w with b :: bs => bs | [] => [] end in
  w_alloc bytes w =
    (mk_world (g_table w) (g_generation w) (g_promises w) (w_rts w) (w_mem w) rest (w_port w), Ok None) \/
  w_alloc bytes w =
    (mk_world (g_table w) (g_generation w) (g_promises w) (w_rts w)
       (<[fresh (dom (w_mem w)) := bytes]> (w_mem w)) rest (w_port w), Ok (Some (fresh (dom (w_mem w))))).
Proof. unfold w_alloc, on_mem, zoom, malloc. destruct (w_malloc w) as [|[] ?]; cbn; auto. Qed.

Lemma enqueue_preserves w0 q op bytes len :
  preserves (running w0 q) (enqueue (E:=E) (V:=V) (P:=P) q op bytes len).
Proof.
  apply preserves_eq. intros w Hq. pose proof Hq as (Hw & [r Hr] & _). unfold enqueue.
  destruct (fresh_not_owned w q r Hw Hr) as [Hfresh Hl]. set (l := fresh (dom (w_mem w))) in *.
  pose proof (wwf_rt w Hw q r Hr) as Hwfr.
  unfold mbind at 1. destruct (w_alloc_cases bytes w) as [->| ->]; cbn.
  { do 2 eexists. split; [reflexivity|]. split; [|done].
    apply (running_step w0 q w); [done|by apply world_wf_env|by eexists|by split]. }
  fold l. unfold mbind, get_rt, on_mem, zoom, modify_rt, mret. cbn. rewrite Hr. cbn.
  destruct (Nat.leb_spec MLQJS_QUEUE_CAP (q_count (rt_requests r))) as [Hfull|Hfit].
  - rewrite push_full by done. unfold mbind, free, mret. rewrite lookup_insert_eq.
    rewrite delete_insert_eq, delete_id by done. cbn. rewrite Hr. cbn.
    do 2 eexists. split; [reflexivity|]. split; [|done].
    apply (running_step w0 q w); [done| |cbn; rewrite lookup_insert_eq; by eexists|by apply (frame_update q w)].
    apply (world_wf_env (set_rts _ w)). apply world_wf_modify with r; try done.
    destruct Hwfr. by split.
  - rewrite push_fits by done. cbn. rewrite Hr. cbn.
    do 2 eexists. split; [reflexivity|]. split; [|done].
    destruct (rt_wf_pushed r (Some op) l len Hwfr Hfit Hl) as [Hwf' Ho].
    apply (running_step w0 q w); [done|by apply (world_wf_grow w q r _ l bytes)|cbn; rewrite lookup_insert_eq; by eexists|].
    apply (frame_update q w). intros p rp k Hp Hrp Hk. cbn. rewrite lookup_insert_ne; [done|]. intros <-.
    assert (is_Some (w_mem w !! l)) as [? ?] by (apply (wwf_heap w Hw); eauto). congruence.
Qed.

Lemma store_promise_preserves w0 q e res rej id :
  preserves (running w0 q) (store_promise (E:=E) (V:=V) (P:=P) q e res rej id).
Proof.
  intros w Hq. pose proof Hq as (Hw & Hs & _). unfold store_promise.
  destruct (promise_insert _ _ _ _) as [ps|] eqn:Eps; cbn; [|done].
  apply promise_insert_Some in Eps as (i & s & Hi & Hu & -> & _).
  split; [|done]. apply (running_step w0 q w); [done| |done|].
  - apply world_wf_promises; [done|rewrite length_insert; apply Hw|]. intros j t. rewrite list_lookup_insert. case_decide as Ej.
    + intros [= <-] _. done.
    + intros Ht Hut. by apply (wwf_held w Hw j t).
  - split; cbn; try done. intros j t Ht Hut. rewrite list_lookup_insert_ne; [done|]. intros ->. congruence.
Qed.

(** ** Draining requests *)

Lemma live_head_payload r id op p len rest :
  rt_wf r -> contents (rt_requests r) = (id, op, p, len) :: rest -> exists l, p = Some l.
Proof.
  intros Hr Hc. assert (view <$> live (rt_requests r) = (id, op, p, len) :: rest) as Hv by done.
  pose proof (rwf_payloads r Hr) as Hp. destruct (live (rt_requests r)) as [|x xs]; [done|].
  inversion Hp as [|? ? [l Hl] _]; subst. exists l. injection Hv. congruence.
Qed.

Lemma take_one_spec q w r id op l len rest :
  world_wf w -> w_rts w !! q = Some r ->
  contents (rt_requests r) = (id, op, Some l, len) :: rest ->
  exists r' bytes, w_mem w !! l = Some bytes /\ rt_wf r' /\
    contents (rt_requests r') = rest /\
    take_one q w = (set_mem (delete l (w_mem w)) (set_rts (<[q := r']> (w_rts w)) w),
                    Ok (Some (id, op, take (Z.to_nat len) bytes))) /\
    world_wf (set_mem (delete l (w_mem w)) (set_rts (<[q := r']> (w_rts w)) w)) /\
    frame q w (set_mem (delete l (w_mem w)) (set_rts (<[q := r']> (w_rts w)) w)).
Proof.
  intros Hw Hr Hc. pose proof (wwf_rt w Hw q r Hr) as Hwfr.
  pose proof (rwf_queue r Hwfr) as Hq.
  assert (q_count (rt_requests r) <> 0%nat) as Hne.
  { rewrite <- contents_length, Hc. done. }
  destruct (take_some _ Hq Hne zero_request) as (out & Ht & Hv).
  pose proof (contents_taken _ Hq Hne) as Hct. rewrite Hc in Hct.
  assert (view (nth_live (rt_requests r) 0) = (id, op, Some l, len) /\ contents (taken (rt_requests r)) = rest)
    as [Hhd Htl] by (split; congruence). symmetry in Hhd.
  pose proof (payloads_taken _ Hq Hne) as Hpt.
  rewrite <- Hhd in Hv. unfold view in Hv. injection Hv as Hv1 Hv2 Hv3 Hv4.
  assert (req_payload (nth_live (rt_requests r) 0) = Some l) as Hp0
    by (unfold view in Hhd; by injection Hhd).
  rewrite Hp0 in Hpt. cbn in Hpt.
  set (r' := set_requests (taken (rt_requests r)) r).
  assert (owned r = l :: owned r') as Ho by (unfold owned; cbn; by rewrite Hpt).
  pose proof (rwf_owned r Hwfr) as Hnd. rewrite Ho in Hnd. apply NoDup_cons in Hnd as [Hnl Hnd].
  assert (is_Some (w_mem w !! l)) as [bytes Hb].
  { apply (wwf_heap w Hw). exists q, r. split; [done|]. rewrite Ho. set_solver. }
  assert (rt_wf r') as Hwf'.
  { destruct Hwfr. split; cbn; try done; [by apply taken_wf|].
    rewrite (live_taken _ Hq Hne) in *. by inversion rwf_payloads0. }
  exists r', bytes. split_and!; try done.
  - unfold take_one, mbind, get_rt, modify_rt, load, on_mem, zoom. rewrite Hr, Ht. cbn.
    rewrite Hr. cbn. rewrite Hv3. cbn. rewrite Hb. unfold free. cbn. rewrite Hb. cbn.
    unfold mret. rewrite Hv1, Hv2, Hv4. done.
  - apply (world_wf_update w q r r' (delete l (w_mem w))); try done.
    + intros k Hk. left. rewrite Ho. set_solver.
    + intros k. rewrite lookup_delete_is_Some, Ho, not_elem_of_cons. split.
      * intros [Hkl Hk]. destruct (decide (k ∈ owned r')); [by left|right]. split; [done|]. auto.
      * intros [Hk|[Hk [? _]]]; [|auto]. split; [by intros ->|].
        apply (wwf_heap w Hw). exists q, r. split; [done|]. rewrite Ho. set_solver.
  - apply (frame_update q w). intros p rp k Hp Hrp Hk. cbn. rewrite lookup_delete_ne; [done|]. intros <-.
    apply Hp. eapply (wwf_disjoint w Hw); [exact Hrp|exact Hr|exact Hk|]. rewrite Ho. set_solver.
Qed.

(** What OCaml receives for a queued request. *)
Definition delivered (h : gmap loc (list Z)) (v : Z * list Z * option loc * Z) : Z * list Z * list Z :=
  (v.1.1.1, v.1.1.2, take (Z.to_nat v.2) (default [] (v.1.2 ≫= (fun l => h !! l)))).

Lemma contents_payloads_nodup r id op l len rest :
  rt_wf r -> contents (rt_requests r) = (id, op, Some l, len) :: rest ->
  forall v k, v ∈ rest -> v.1.2 = Some k -> k <> l.
Proof.
  intros Hr Hc v k Hv Hk ->. pose proof (rwf_owned r Hr) as Hnd.
  apply NoDup_app in Hnd as [Hnd _]. unfold payloads in Hnd.
  assert (view <$> live (rt_requests r) = (id, op, Some l, len) :: rest) as Hl by done.
  destruct (live (rt_requests r)) as [|x xs]; [done|]. cbn in Hl. injection Hl as Hx1 Hx2 Hx3 Hx4 Hxs.
  cbn in Hnd. rewrite Hx3 in Hnd. apply NoDup_cons in Hnd as [Hn _]. apply Hn.
  rewrite <- Hxs in Hv. apply list_elem_of_fmap in Hv as (y & -> & Hy).
  apply list_elem_of_omap. by exists y.
Qed.

Lemma take_loop_spec n q w r :
  world_wf w -> w_rts w !! q = Some r -> q_count (rt_requests r) = n ->
  exists w' r', take_loop q n w = (w', Ok (delivered (w_mem w) <$> contents (rt_requests r))) /\
    world_wf w' /\ w_rts w' !! q = Some r' /\ contents (rt_requests r') = [] /\ frame q w w'.
Proof.
  revert w r. induction n as [|n IH]; intros w r Hw Hr Hn; cbn [take_loop].
  { exists w, r. assert (contents (rt_requests r) = []) as ->
      by (apply length_zero_iff_nil; by rewrite contents_length). split_and!; [done..|apply frame_refl]. }
  destruct (contents (rt_requests r)) as [|[[[id op] p] len] rest] eqn:Hc.
  { pose proof (contents_length (rt_requests r)) as Hl. rewrite Hc, Hn in Hl. done. }
  destruct (live_head_payload r id op p len rest (wwf_rt w Hw q r Hr) Hc) as [l ->].
  pose proof (contents_payloads_nodup r id op l len rest (wwf_rt w Hw q r Hr) Hc) as Hnl.
  destruct (take_one_spec q w r id op l len rest Hw Hr Hc) as (r1 & bytes & Hb & Hr1 & Hc1 & Ht & Hw1 & Hf1).
  unfold mbind at 1. rewrite Ht.
  destruct (IH _ r1 Hw1) as (w' & r' & Hrun & Hw' & Hr' & Hc' & Hfr).
  { cbn. by rewrite lookup_insert_eq. }
  { pose proof (contents_length (rt_requests r)) as Hl. rewrite Hc in Hl. cbn in Hl.
    rewrite <- contents_length, Hc1. lia. }
  exists w', r'. unfold mbind. rewrite Hrun. split_and!; try done.
  - unfold mret. rewrite Hc1. cbn [fmap list_fmap]. do 3 f_equal.
    + unfold delivered. cbn. by rewrite Hb.
    + apply list_fmap_ext. intros i v Hv%list_elem_of_lookup_2. unfold delivered. cbn.
      destruct (v.1.2) as [k|] eqn:Ek; [|done]. cbn. rewrite lookup_delete_ne; [done|].
      intros <-. by eapply Hnl.
  - by eapply frame_trans.
Qed.
End Inv.

#[export] Hint Resolve running_modify running_get neutral_eng neutral_cancelled
  neutral_terminal neutral_reason : pres.

(** ** Callbacks and engine runs preserve the invariant *)

(** What the stubs need of the platform's clock. *)
Class SafePort (P : Type) `{!Port P} : Prop :=
  clock_answers : forall p : P, match (port_monotonic_ns p).2 with Ok _ | Abort _ => True | _ => False end.
Lemma clock_no_ub `{SafePort P} (p : P) : no_ub (port_monotonic_ns p).2.
Proof. pose proof (clock_answers p) as Hc. by destruct (port_monotonic_ns p).2. Qed.

#[export] Instance unix_safe_port : SafePort Unix.sys.
Proof.
  intros s. unfold port_monotonic_ns. cbn. unfold Unix.mlqjs_monotonic_ns.
  by destruct (Unix.clock_monotonic s).
Qed.

(** Decompose a computation along its structure, closing the leaves with the
    lemmas of the [pres] database. *)
Ltac pres :=
  repeat first
    [ solve [eauto with pres]
    | apply preserves_bind; [|intros ?]
    | match goal with
      | |- preserves _ (match ?x with _ => _ end) => destruct x
      | |- preserves _ (let '(_, _) := ?x in _) => destruct x
      | |- preserves _ (if ?x then _ else _) => destruct x
      end ].

Section Runs.
Context {E V P : Type} `{!JSEngine E V} `{!Port P} `{!SafePort P}.
Implicit Types w : world E V P.

Lemma running_clock w0 q : preserves (running (E:=E) (V:=V) w0 q) (on_port (port_monotonic_ns (S:=P))).
Proof. apply running_port, clock_no_ub. Qed.
Hint Resolve running_clock enqueue_preserves store_promise_preserves : pres.

Lemma interrupt_preserves w0 q : preserves (running w0 q) (mlqjs_interrupt (E:=E) (V:=V) (P:=P) q).
Proof. unfold mlqjs_interrupt. pres. Qed.

Lemma rejection_preserves w0 q h :
  preserves (running w0 q) (mlqjs_rejection_tracker (E:=E) (V:=V) (P:=P) q h).
Proof. unfold mlqjs_rejection_tracker. pres. Qed.

(** Reading a runtime and then a block it owns. *)
Lemma preserves_get_rt {A} w0 q (k : mlqjs_runtime E -> M (world E V P) A) :
  (forall w r, running w0 q w -> w_rts w !! q = Some r -> running w0 q (k r w).1 /\ no_ub (k r w).2) ->
  preserves (running w0 q) (mbind (get_rt q) k).
Proof.
  intros Hk w Hq. pose proof Hq as (Hw & [r Hr] & _). unfold mbind, get_rt. rewrite Hr. by apply Hk.
Qed.

Lemma load_block w q r l :
  world_wf w -> w_rts w !! q = Some r -> l ∈ owned r -> exists bytes, load l w = (w, Ok bytes).
Proof.
  intros Hw Hr Hl. assert (is_Some (w_mem w !! l)) as [bytes Hb] by (apply (wwf_heap w Hw); eauto).
  exists bytes. unfold load. by rewrite Hb.
Qed.
Lemma load_owned w q r i m :
  world_wf w -> w_rts w !! q = Some r -> rt_modules r !! i = Some m ->
  exists src, load (mod_source m) w = (w, Ok src).
Proof.
  intros Hw Hr Hm. eapply load_block; [done|exact Hr|]. unfold owned. rewrite !elem_of_app. right; left.
  apply list_elem_of_fmap. exists m. split; [done|]. by eapply list_elem_of_lookup_2.
Qed.

Section WithExec.
Context (w0 : world E V P) (q : loc) (ex : forall A, run E V A -> M (world E V P) A).
Context (Hex : forall A m, preserves (running w0 q) (ex A m)).
Hint Resolve Hex : pres.

Lemma module_loader_preserves e name :
  preserves (running w0 q) (mlqjs_module_loader ex q e name).
Proof.
  unfold mlqjs_module_loader. apply preserves_get_rt. intros w r Hq Hr. pose proof (proj1 Hq) as Hw.
  destruct (find_index _ _) as [i|]; [|done].
  destruct (rt_modules r !! i) as [m|] eqn:Hm; [|done].
  destruct (load_owned w q r i m Hw Hr Hm) as [src Hload].
  rewrite (mbind_ok _ _ _ _ _ Hload).
  match goal with |- running w0 q (?f w).1 /\ _ => enough (preserves (running w0 q) f) as Hf by exact (Hf w Hq) end.
  pres.
Qed.

Lemma host_later_preserves e argv : preserves (running w0 q) (mlqjs_host_later ex q e argv).
Proof. unfold mlqjs_host_later. pres. Qed.

Lemma host_rpc_preserves e argv : preserves (running w0 q) (mlqjs_host_rpc ex q e argv).
Proof. unfold mlqjs_host_rpc. pres. Qed.
End WithExec.

Lemma exec_preserves fuel w0 q A (m : run E V A) :
  preserves (running w0 q) (exec (P:=P) fuel q A m).
Proof.
  revert A m. induction fuel as [|n IH]; intros A m; cbn [exec]; [by apply preserves_fail|].
  destruct m; eauto using host_later_preserves, host_rpc_preserves, interrupt_preserves,
    rejection_preserves, module_loader_preserves, preserves_ret, preserves_bind.
Qed.
End Runs.

#[export] Hint Resolve running_clock enqueue_preserves store_promise_preserves
  interrupt_preserves rejection_preserves exec_preserves : pres.

(** ** Entry points preserve the invariant *)

Section Entries.
Context {E V P : Type} `{!JSEngine E V} `{!Port P} `{!SafePort P}.
Implicit Types w : world E V P.

Lemma call_engine_preserves {A} fuel w0 q (f : E -> run E V (E * A)) :
  preserves (running w0 q) (call_engine (P:=P) fuel q f).
Proof. unfold call_engine. pres. Qed.

Lemma with_engine_preserves {A} w0 q (f : E -> E * A) :
  preserves (running w0 q) (with_engine (V:=V) (P:=P) q f).
Proof. unfold with_engine. pres. Qed.
Hint Resolve call_engine_preserves with_engine_preserves : pres.

Lemma free_value_preserves w0 q v : preserves (running w0 q) (free_value (E:=E) (V:=V) (P:=P) q v).
Proof. unfold free_value. pres. Qed.

Lemma drop_exception_preserves w0 q : preserves (running w0 q) (drop_exception (E:=E) (V:=V) (P:=P) q).
Proof. unfold drop_exception. pres. Qed.
Hint Resolve free_value_preserves drop_exception_preserves : pres.

(** A handle that resolves designates a live runtime. *)
Lemma w_table_get_live w v_handle i q :
  world_wf w -> (w_table_get v_handle w).2 = Ok (Some (i, q)) ->
  g_table w !! i = Some (Some q) /\ is_Some (w_rts w !! q).
Proof.
  intros Hw. unfold w_table_get, table_get. cbn.
  set (idx := Z.to_nat (Z.land (Int_val v_handle) MLQJS_INDEX_MASK)).
  case_match; [done|]. destruct (g_table w !! idx) as [[q'|]|] eqn:Ht; [|done..].
  case_match; [done|]. intros [= <- <-]. split; [done|].
  destruct (wwf_entry w Hw _ _ Ht) as (r & -> & _). by eexists.
Qed.

(** A live runtime that a call leaves alone: its record, its blocks and its
    pending promises *)
Record untouched (p : loc) (r : mlqjs_runtime E) (w w' : world E V P) : Prop := {
  un_rt : w_rts w' !! p = Some r;
  un_mem : forall l, l ∈ owned r -> w_mem w' !! l = w_mem w !! l;
  un_slots : forall i s, g_promises w !! i = Some s -> slot_in_use s = true -> (slot_resolve s).1 = p -> g_promises w' !! i = Some s }.
(** What holds after a call with a handle: the invariant, every runtime but the
    one the handle designates is untouched, and there is no new one. *)
Record kept (v_handle : Z) (w w' : world E V P) : Prop := {
  kept_wf : world_wf w';
  kept_others : forall p r, w_rts w !! p = Some r -> (forall i, (w_table_get v_handle w).2 <> Ok (Some (i, p))) -> untouched p r w w';
  kept_live : forall p, is_Some (w_rts w' !! p) -> is_Some (w_rts w !! p) }.
Lemma kept_refl v_handle w : world_wf w -> kept v_handle w w.
Proof. by split. Qed.
Lemma kept_frame v_handle w w' i q :
  (w_table_get v_handle w).2 = Ok (Some (i, q)) -> world_wf w -> world_wf w' -> frame q w w' -> kept v_handle w w'.
Proof.
  intros Hg Hw Hw' [_ _ F3 F4 F5]. destruct (w_table_get_live w v_handle i q Hw Hg) as [_ Hq]. split; [done| |].
  - intros p r Hr Hp. assert (p <> q) as Hne by (intros ->; by apply (Hp i)). split; [by rewrite F3|eauto|auto].
  - intros p. destruct (decide (p = q)) as [->|Hne]; [done|]. by rewrite F3.
Qed.

(** The process goes on after an answer or an exception. *)
Definition survives {A} (r : outcome A) : bool := match r with Abort _ | UB _ => false | _ => true end.
Definition sound {A} (v_handle : Z) (m : M (world E V P) A) : Prop :=
  forall w, world_wf w -> no_ub (m w).2 /\ (survives (m w).2 = true -> kept v_handle w (m w).1).

Lemma running_kept {A} v_handle i q (m : M (world E V P) A) w :
  (w_table_get v_handle w).2 = Ok (Some (i, q)) -> world_wf w -> preserves (running w q) m ->
  no_ub (m w).2 /\ (survives (m w).2 = true -> kept v_handle w (m w).1).
Proof.
  intros Hg Hw Hm. destruct (w_table_get_live w v_handle i q Hw Hg) as [_ Hq].
  destruct (Hm w (running_start w q Hw Hq)) as [(Hw' & _ & Hf) Hn]. split; [done|]. intros _. by eapply kept_frame.
Qed.
Lemma sound_handle {A} v_handle msg (k : loc -> M (world E V P) A) :
  (forall w0 q, preserves (running w0 q) (k q)) -> sound v_handle (mbind (get_or_fail v_handle msg) k).
Proof.
  intros Hk w Hw. assert (forall o, (w_table_get v_handle w).2 = Ok o -> mbind (get_or_fail v_handle msg) k w =
    match o with Some (_, q) => k q w | None => (w, Raise msg) end) as Heq.
  { unfold mbind, get_or_fail, mbind. unfold w_table_get. cbn. intros o [= ->]. by destruct o as [[]|]. }
  destruct (w_table_get v_handle w).2 as [[[i q]|]| | | |] eqn:Hg; try done; rewrite (Heq _ eq_refl).
  - eapply running_kept; [exact Hg|done|apply Hk].
  - split; [done|]. intros _. by apply kept_refl.
Qed.

Lemma eval_sound fuel h src : sound h (mlqjs_eval (E:=E) (V:=V) (P:=P) fuel h src).
Proof. apply sound_handle. intros w0 q. pres. Qed.

Lemma eval_int_sound fuel h src :
  sound h (mlqjs_eval_int (E:=E) (V:=V) (P:=P) fuel h src).
Proof. apply sound_handle. intros w0 q. pres. Qed.

Lemma eval_string_sound fuel h src :
  sound h (mlqjs_eval_string (E:=E) (V:=V) (P:=P) fuel h src).
Proof. apply sound_handle. intros w0 q. pres. Qed.

Lemma install_host_sound fuel h :
  sound h (mlqjs_install_host (E:=E) (V:=V) (P:=P) fuel h).
Proof. apply sound_handle. intros w0 q. pres. Qed.

Lemma has_unhandled_sound h :
  sound h (mlqjs_has_unhandled_rejection (E:=E) (V:=V) (P:=P) h).
Proof. apply sound_handle. intros w0 q. pres. Qed.

Lemma host_call_count_sound h :
  sound h (mlqjs_host_call_count (E:=E) (V:=V) (P:=P) h).
Proof. apply sound_handle. intros w0 q. pres. Qed.

Lemma mem_usage_sound h : sound h (mlqjs_mem_usage (E:=E) (V:=V) (P:=P) h).
Proof.
  apply sound_handle. intros w0 q. apply preserves_get_rt. intros w r Hq Hr.
  destruct (load_block w q r (rt_a_state r) (proj1 Hq) Hr) as [st Hst]; [unfold owned; rewrite !elem_of_app; right; right; by left|].
  by rewrite (mbind_ok _ _ _ _ _ Hst).
Qed.

Lemma pump_loop_preserves w0 fuel q n ran :
  preserves (running w0 q) (pump_loop (E:=E) (V:=V) (P:=P) fuel q n ran).
Proof. revert ran. induction n as [|n IH]; intros ran; cbn [pump_loop]; pres. Qed.
Hint Resolve pump_loop_preserves : pres.

Lemma pump_sound fuel h n : sound h (mlqjs_pump (E:=E) (V:=V) (P:=P) fuel h n).
Proof. apply sound_handle. intros w0 q. pres. Qed.

Lemma eval_module_sound fuel h path :
  sound h (mlqjs_eval_module (E:=E) (V:=V) (P:=P) fuel h path).
Proof.
  apply sound_handle. intros w0 q. apply preserves_get_rt. intros w r Hq Hr. pose proof (proj1 Hq) as Hw.
  destruct (find_index _ _) as [i|]; cbn; [|done].
  destruct (rt_modules r !! i) as [m|] eqn:Hm; cbn; [|done].
  destruct (load_owned w q r i m Hw Hr Hm) as [src Hload].
  rewrite (mbind_ok _ _ _ _ _ Hload).
  match goal with |- running w0 q (?f w).1 /\ _ => enough (preserves (running w0 q) f) as Hf by exact (Hf w Hq) end.
  pres.
Qed.

Lemma preserves_get_world {A} w0 q (k : world E V P -> M (world E V P) A) :
  (forall w, preserves (running w0 q) (k w)) -> preserves (running w0 q) (mbind mget k).
Proof. intros Hk w Hw. unfold mbind, mget. by apply Hk. Qed.

(** *** Settling a promise *)

(** The promise found under an id belongs to another runtime. *)
Definition foreign (q : loc) (id : Z) (w : world E V P) : Prop :=
  exists i s, promise_find (g_promises w) id = Some i /\ g_promises w !! i = Some s /\ (slot_resolve s).1 <> q.

Lemma own_value_ok (q : loc) (v : loc * V) : v.1 = q -> own_value (E:=E) (P:=P) q v = mret v.2.
Proof. intros Hv. unfold own_value. by rewrite decide_True. Qed.

(** [promise_remove] on a slot of the runtime itself *)
Lemma remove_kept v_handle j q w w' i s :
  (w_table_get v_handle w).2 = Ok (Some (j, q)) -> world_wf w -> g_promises w !! i = Some s -> slot_in_use s = true ->
  (slot_resolve s).1 = q -> running w q w' -> kept v_handle w (set_promises (promise_remove (g_promises w') i) w').
Proof.
  intros Hg Hw Hs Hu Hq (Hw' & Hq' & Hf). pose proof (fr_slots q w w' Hf i s Hs Hu) as Hs'.
  assert (promise_remove (g_promises w') i = <[i := mk_slot (slot_id s) (slot_resolve s) (slot_reject s) false]> (g_promises w')) as Er
    by (unfold promise_remove; by rewrite Hs').
  destruct (kept_frame v_handle w w' j q Hg Hw Hw' Hf) as [_ Ko Kl]. split; [|intros p r Hr Hp|done].
  - apply world_wf_promises; [done|rewrite Er, length_insert; apply Hw'|]. rewrite Er. intros k t.
    rewrite list_lookup_insert. case_decide; [by intros [= <-]|]. apply (wwf_held w' Hw').
  - destruct (Ko p r Hr Hp) as [U1 U2 U3]. split; [done|done|]. intros k t Ht Hut Hpt. cbn. rewrite Er, list_lookup_insert_ne; [by apply U3|].
    intros <-. rewrite Hs in Ht. injection Ht as <-. apply (Hp j). by rewrite <- Hpt, Hq.
Qed.
Lemma preserves_then {A B} (I : world E V P -> Prop) (m : M (world E V P) A) (k : A -> M (world E V P) B) Q :
  preserves I m -> (forall s o, I s -> no_ub o -> Q s o) -> (forall a, spec I (k a) Q) -> spec I (mbind m k) Q.
Proof.
  intros Hm HQ Hk s Hs. unfold mbind. specialize (Hm s Hs). destruct (m s) as [s' []]; cbn in *; destruct Hm; auto. by apply Hk.
Qed.
Lemma resolve_own fuel v_handle j q id v_result w :
  world_wf w -> (w_table_get v_handle w).2 = Ok (Some (j, q)) -> ~ foreign q (u64 id) w ->
  no_ub (mlqjs_resolve fuel v_handle id v_result w).2 /\
  (survives (mlqjs_resolve fuel v_handle id v_result w).2 = true -> kept v_handle w (mlqjs_resolve fuel v_handle id v_result w).1).
Proof.
  intros Hw Hg Hnf. unfold mlqjs_resolve.
  assert (get_or_fail v_handle "mlqjs_resolve: stale handle" w = (w, Ok q)) as Eg.
  { unfold get_or_fail, mbind. unfold w_table_get in *. by injection Hg as ->. }
  rewrite (mbind_ok _ _ _ _ _ Eg), (mbind_ok mget _ w w w eq_refl).
  destruct (promise_find (g_promises w) (u64 id)) as [i|] eqn:Ef; [|split; [done|intros _; by apply kept_refl]].
  destruct (promise_find_Some _ _ _ Ef) as (s & Hs & Hu & _). rewrite Hs.
  assert ((slot_resolve s).1 = q) as Hq1 by (destruct (decide ((slot_resolve s).1 = q)); [done|]; destruct Hnf; by exists i, s).
  destruct (wwf_held w Hw i s Hs Hu) as [Hq2 Hlive]. rewrite Hq1 in Hq2, Hlive.
  set (Q := fun (w' : world E V P) (o : outcome unit) => no_ub o /\ (survives o = true -> kept v_handle w w')).
  assert (forall w' o, running w q w' -> no_ub o -> Q w' o) as HQ.
  { intros w' o (Hw' & _ & Hf) Ho. split; [done|]. intros _. by eapply kept_frame. }
  match goal with |- no_ub (?m w).2 /\ _ => enough (spec (running w q) m Q) as Hm by exact (Hm w (running_start w q Hw Hlive)) end.
  apply preserves_then; [pres|done|intros val]. rewrite !own_value_ok by done.
  apply preserves_then; [pres|done|intros _]. intros w1 Hr1. rewrite (mbind_ok mget _ w1 w1 w1 eq_refl).
  rewrite (fr_slots q w w1 (proj2 (proj2 Hr1)) i s Hs Hu), !own_value_ok by done.
  match goal with |- Q (?m w1).1 _ => enough (spec (running w q) m Q) as Hm by exact (Hm w1 Hr1) end.
  apply preserves_then; [pres|done|intros resolve]. apply preserves_then; [pres|done|intros _].
  apply preserves_then; [pres|done|intros reject]. apply preserves_then; [pres|done|intros _].
  intros w3 Hr3. cbn. split; [done|]. intros _. by eapply remove_kept.
Qed.
(** Settling a promise of another runtime: its function is called here. *)
Lemma resolve_foreign fuel v_handle j q id v_result w :
  world_wf w -> (w_table_get v_handle w).2 = Ok (Some (j, q)) -> foreign q (u64 id) w ->
  (mlqjs_resolve fuel v_handle id v_result w).2 = UB foreign_value.
Proof.
  intros Hw Hg (i & s & Ef & Hs & Hq). destruct (w_table_get_live w v_handle j q Hw Hg) as [_ [r Hr]]. unfold mlqjs_resolve.
  assert (get_or_fail v_handle "mlqjs_resolve: stale handle" w = (w, Ok q)) as Eg.
  { unfold get_or_fail, mbind. unfold w_table_get in *. by injection Hg as ->. }
  rewrite (mbind_ok _ _ _ _ _ Eg), (mbind_ok mget _ w w w eq_refl), Ef, Hs.
  destruct (promise_find_Some _ _ _ Ef) as (s' & Hs' & Hu & _). rewrite Hs in Hs'. injection Hs' as <-. destruct (wwf_held w Hw i s Hs Hu) as [Hrr _].
  assert (forall {A} (f : E -> E * A) w r, w_rts w !! q = Some r -> exists w' r' a, with_engine q f w = (w', Ok a) /\ w_rts w' !! q = Some r') as Heng.
  { clear. intros A f w r Hr. unfold with_engine, mbind, get_rt, modify_rt, mret. rewrite Hr. destruct (f (rt_eng r)) as [e a]. rewrite Hr. cbn.
    do 3 eexists. split; [done|]. cbn. by rewrite lookup_insert_eq. }
  assert (forall {A B} v (k : V -> M (world E V P) A) (k' : A -> M (world E V P) B) w', v.1 <> q -> (mbind (mbind (own_value q v) k) k' w').2 = UB foreign_value) as Hbad.
  { intros A B v k k' w' Hv. unfold own_value, mbind. by rewrite decide_False. }
  destruct (Heng _ (fun e => JS_ParseJSON e v_result) w r Hr) as (w1 & r1 & val & E1 & Hr1). rewrite (mbind_ok _ _ _ _ _ E1).
  destruct (JS_IsException val); [|by apply Hbad].
  destruct (Heng _ (fun e => JS_NewString e (bytes_of_string "bad result JSON")) w1 r1 Hr1) as (w2 & r2 & err & E2 & _).
  match goal with |- (mbind (mbind ?m ?k) ?k' w1).2 = _ => assert (mbind (mbind m k) k' w1 = mbind (k err) k' w2) as -> end.
  { unfold mbind. by rewrite E2. }
  apply Hbad. by rewrite <- Hrr.
Qed.
Lemma resolve_stale fuel v_handle id v_result w :
  (w_table_get v_handle w).2 = Ok None -> mlqjs_resolve fuel v_handle id v_result w = (w, Raise "mlqjs_resolve: stale handle").
Proof. intros Hg. unfold mlqjs_resolve, get_or_fail, mbind. unfold w_table_get in *. by injection Hg as ->. Qed.

Lemma cancel_sound h : sound h (mlqjs_cancel (E:=E) (V:=V) (P:=P) h).
Proof.
  intros w Hw. destruct (w_table_get h w).2 as [[[i q]|]| | | |] eqn:Hg; try done.
  - assert (mlqjs_cancel h w = modify_rt q set_cancelled w) as ->.
    { unfold mlqjs_cancel, mbind. unfold w_table_get in *. by injection Hg as ->. }
    eapply running_kept; [exact Hg|done|pres].
  - assert (mlqjs_cancel h w = (w, Ok tt)) as ->; [|split; [done|intros _; by apply kept_refl]].
    unfold mlqjs_cancel, mbind. unfold w_table_get in *. by injection Hg as ->.
Qed.

Lemma take_requests_sound h : sound h (mlqjs_take_requests (E:=E) (V:=V) (P:=P) h).
Proof.
  apply sound_handle. intros w0 q. apply preserves_get_rt. intros w r Hq Hr.
  destruct (take_loop_spec (q_count (rt_requests r)) q w r (proj1 Hq) Hr eq_refl)
    as (w' & r' & Hrun & Hw' & Hr' & _ & Hf).
  unfold mlqjs_host_queue_count. rewrite Hrun. cbn. split; [|done]. by apply (running_step w0 q w); [| |eexists|].
Qed.

Lemma set_module_sound h path src : sound h (mlqjs_set_module (E:=E) (V:=V) (P:=P) h path src).
Proof.
  apply sound_handle. intros w0 q. apply preserves_get_rt. intros w r Hq Hr. pose proof (proj1 Hq) as Hw.
  destruct (Nat.leb_spec MLQJS_MAX_MODULES (length (rt_modules r))); [done|].
  destruct (Nat.leb_spec MLQJS_MAX_PATH_LEN (length path)); [done|].
  destruct (fresh_not_owned w q r Hw Hr) as [Hfresh Hl]. set (l := fresh (dom (w_mem w))) in *.
  destruct (w_alloc_cases src w) as [Ha|Ha]; rewrite (mbind_ok _ _ _ _ _ Ha).
  { cbn. split; [|done]. apply (running_step w0 q w); [done|by apply world_wf_env|by eexists|by split]. }
  fold l. unfold modify_rt. cbn. rewrite Hr. cbn. split; [|done]. set (r' := set_modules _ r).
  assert (owned r' ≡ₚ l :: owned r) as Ho.
  { unfold owned. cbn. rewrite fmap_app. cbn. rewrite <- app_assoc. cbn. rewrite app_assoc. rewrite <- Permutation_middle. by rewrite <- app_assoc. }
  apply (running_step w0 q w); [done| |cbn; rewrite lookup_insert_eq; by eexists|].
  - apply (world_wf_grow w q r r' l src); try done.
    destruct (wwf_rt w Hw q r Hr). split; try done; cbn [r' set_modules rt_modules].
    + rewrite length_app. cbn [length]. lia.
    + apply Forall_app. split; [done|]. by apply Forall_singleton.
    + rewrite Ho. by constructor.
  - apply (frame_update q w). intros p rp k Hp Hrp Hk. cbn. rewrite lookup_insert_ne; [done|]. intros <-.
    assert (is_Some (w_mem w !! l)) as [? ?] by (apply (wwf_heap w Hw); eauto). congruence.
Qed.
End Entries.

(** ** Creation and destruction *)

Lemma free_sources_spec ms (h : gmap loc (list Z)) :
  NoDup (mod_source <$> ms) -> (forall l, l ∈ mod_source <$> ms -> is_Some (h !! l)) ->
  exists h' : gmap loc (list Z), free_sources ms h = (h', Ok tt) /\
    forall l, h' !! l = if decide (l ∈ mod_source <$> ms) then None else h !! l.
Proof.
  revert h. induction ms as [|m ms IH]; intros h Hnd Hlive; cbn [free_sources].
  { exists h. split; [done|]. intros l. by case_decide as E0; [apply not_elem_of_nil in E0|]. }
  cbn [fmap list_fmap] in *. apply NoDup_cons in Hnd as [Hm Hnd].
  destruct (Hlive (mod_source m)) as [b Hb]; [set_solver|].
  unfold mbind, free. rewrite Hb.
  destruct (IH (delete (mod_source m) h) Hnd) as (h' & Hrun & Hh').
  { intros l Hl. rewrite lookup_delete_ne; [set_solver|]. by intros <-. }
  exists h'. split; [done|]. intros l. rewrite Hh'.
  destruct (decide (l = mod_source m)) as [->|Hne].
  - rewrite lookup_delete_eq. by repeat case_decide; set_solver.
  - rewrite lookup_delete_ne by done. repeat case_decide; set_solver.
Qed.

Section Lifecycle.
Context {E V P : Type} `{!JSEngine E V} `{!Port P}.
Implicit Types w : world E V P.

(** A new runtime enters the table. *)
Lemma world_wf_create w q (r : mlqjs_runtime E) i table' gens' handle bytes ora (port : P) :
  world_wf w -> w_rts w !! q = None -> w_mem w !! rt_a_state r = None ->
  table_alloc (g_table w) (g_generation w) q = Some (i, table', gens', handle) ->
  rt_gen r = default 0 (gens' !! i) -> rt_requests r = mlqjs_host_queue_init -> rt_modules r = [] ->
  world_wf (mk_world table' gens' (g_promises w) (<[q := r]> (w_rts w)) (<[rt_a_state r := bytes]> (w_mem w)) ora port).
Proof.
  intros Hw Hq Hfresh Ha Hg Hreq Hmod.
  destruct (table_alloc_Some _ _ _ _ _ _ _ Ha (wwf_table w Hw)) as (Hi & Hlt & _ & -> & -> & _).
  destruct Hw as [H1 H2 H3 H4 H5 H6 H7 H8 H9 H10 H11].
  set (g := next_generation _) in *.
  assert (1 <= g < 2 ^ 16) as Hgr.
  { apply next_generation_range. destruct (g_generation w !! i) as [g0|] eqn:Eg; cbn; [|lia].
    rewrite Forall_lookup in H3. apply (H3 i g0 Eg). }
  rewrite list_lookup_insert_eq in Hg by lia. cbn in Hg. change (Datatypes.id g) with g in Hg.
  assert (owned r = [rt_a_state r]) as Ho by (unfold owned; rewrite Hreq, Hmod; reflexivity).
  assert (forall p rp, w_rts w !! p = Some rp -> rt_a_state r ∉ owned rp) as Hnew.
  { intros p rp Hp Hl. assert (is_Some (w_mem w !! rt_a_state r)) as [? ?] by (apply H9; eauto). congruence. }
  assert (forall j p, g_table w !! j = Some (Some p) -> p <> q /\ j <> i) as Hold.
  { intros j p Hp. split; [|congruence]. intros ->. destruct (H5 j q Hp) as (r0 & ? & _). congruence. }
  split; cbn [g_table g_generation g_promises w_rts w_mem]; try done.
  - by rewrite length_insert.
  - by rewrite length_insert.
  - apply Forall_insert; [done|lia].
  - intros j p. rewrite list_lookup_insert. case_decide as Ej.
    + destruct Ej as [<- _]. intros [= <-]. exists r.
      rewrite lookup_insert_eq, list_lookup_insert_eq, Hg by lia. done.
    + intros Hp. destruct (Hold j p Hp) as [Hne Hji]. destruct (H5 j p Hp) as (r0 & Hr0 & Hg0).
      exists r0. by rewrite lookup_insert_ne, list_lookup_insert_ne by done.
  - intros p rp. rewrite lookup_insert. case_decide as E0.
    + intros _. subst p. exists i. apply list_lookup_insert_eq. lia.
    + intros Hp. destruct (H6 p rp Hp) as [j Hj]. exists j.
      rewrite list_lookup_insert_ne; [done|]. intros ->. congruence.
  - intros j k p Hj Hk.
    destruct (decide (i = j)) as [<-|Hij], (decide (i = k)) as [<-|Hik]; [done|..].
    + rewrite list_lookup_insert_eq in Hj by lia. rewrite list_lookup_insert_ne in Hk by done.
      injection Hj as <-. by apply Hold in Hk as [? _].
    + rewrite list_lookup_insert_eq in Hk by lia. rewrite list_lookup_insert_ne in Hj by done.
      injection Hk as <-. by apply Hold in Hj as [? _].
    + rewrite list_lookup_insert_ne in Hj, Hk by done. by eapply H7.
  - intros p rp. rewrite lookup_insert. case_decide; [intros [= <-]|by apply H8].
    split; rewrite ?Hreq, ?Hmod, ?Ho; try done; [apply init_wf|cbn; lia|lia|apply NoDup_singleton].
  - intros l. rewrite lookup_insert_is_Some'. split.
    + intros [<-|Hl]; [exists q, r; rewrite lookup_insert_eq, Ho; split; [done|by left]|].
      apply H9 in Hl as (p & rp & Hp & Hl). exists p, rp. rewrite lookup_insert_ne by congruence. done.
    + intros (p & rp & Hp & Hl). rewrite lookup_insert in Hp. case_decide; [|right; apply H9; eauto].
      injection Hp as <-. rewrite Ho in Hl. left. by apply list_elem_of_singleton in Hl.
  - intros p1 p2 r1 r2 l. rewrite !lookup_insert.
    repeat case_decide; intros; simplify_eq; try done; [..|by eapply H10];
      rewrite Ho in *; match goal with H : _ ∈ [_] |- _ => apply list_elem_of_singleton in H; subst l end; exfalso; by eapply Hnew.
  - intros k s Hs Hu. destruct (H11 k s Hs Hu) as [He Hl]. split; [done|]. rewrite lookup_insert_is_Some'. by right.
Qed.

(** *** Destruction *)

Lemma held_nil q (ps : list (mlqjs_promise_slot (loc * V))) :
  held q ps = [] <-> forall i s, ps !! i = Some s -> slot_in_use s = true -> (slot_resolve s).1 <> q /\ (slot_reject s).1 <> q.
Proof.
  unfold held. induction ps as [|s ps IH]; cbn [map concat]; [by split|].
  assert ((if slot_in_use s then map snd (filter (fun v : loc * V => v.1 = q) [slot_resolve s; slot_reject s]) else []) = [] <->
    (slot_in_use s = true -> (slot_resolve s).1 <> q /\ (slot_reject s).1 <> q)) as Hs.
  { destruct (slot_in_use s); [|done]. rewrite !filter_cons, filter_nil. repeat case_decide; cbn; naive_solver. }
  split.
  - intros H. apply app_eq_nil in H as [H1 H2]. rewrite Hs in H1. intros [|i] t Ht; [injection Ht as <-; exact H1|]. exact (proj1 IH H2 i t Ht).
  - intros H. rewrite (proj2 Hs (H 0%nat s eq_refl)). apply IH. intros i t. apply (H (S i) t).
Qed.

(** A runtime and all its blocks leave. *)
Lemma world_wf_destroy w i q r (m' : gmap loc (list Z)) :
  world_wf w -> g_table w !! i = Some (Some q) -> w_rts w !! q = Some r -> held q (g_promises w) = [] ->
  (forall l, m' !! l = if decide (l ∈ owned r) then None else w_mem w !! l) ->
  world_wf (mk_world (<[i := None]> (g_table w)) (g_generation w) (g_promises w)
              (delete q (w_rts w)) m' (w_malloc w) (w_port w)).
Proof.
  intros [H1 H2 H3 H4 H5 H6 H7 H8 H9 H10 H11] Hi Hr Hh Hm.
  assert (i < length (g_table w))%nat as Hlt by (by eapply lookup_lt_Some).
  assert (forall j p, <[i:=None]> (g_table w) !! j = Some (Some p) ->
            g_table w !! j = Some (Some p) /\ p <> q) as Hold.
  { intros j p. rewrite list_lookup_insert. case_decide as Ej; [done|]. intros Hp.
    split; [done|]. intros ->. pose proof (H7 i j q Hi Hp). tauto. }
  split; cbn; try done.
  - by rewrite length_insert.
  - intros j p [Hp Hne]%Hold. rewrite lookup_delete_ne by done. by apply H5.
  - intros p rp [Hne Hp]%lookup_delete_Some. destruct (H6 p rp Hp) as [j Hj]. exists j.
    rewrite list_lookup_insert_ne; [done|]. intros <-. congruence.
  - intros j k p [Hj _]%Hold [Hk _]%Hold. by eapply H7.
  - intros p rp [_ Hp]%lookup_delete_Some. by eapply H8.
  - intros l. rewrite Hm. case_decide as Hl.
    + split; [by intros []|]. intros (p & rp & [Hne Hp]%lookup_delete_Some & Hlp).
      exfalso. by eapply Hne, H10.
    + rewrite H9. split; intros (p & rp & Hp & Hlp).
      * exists p, rp. split; [|done]. apply lookup_delete_Some. split; [|done]. intros <-. congruence.
      * apply lookup_delete_Some in Hp as [_ Hp]. eauto.
  - intros p1 p2 r1 r2 l [_ Hp1]%lookup_delete_Some [_ Hp2]%lookup_delete_Some. by eapply H10.
  - intros k s Hs Hu. destruct (H11 k s Hs Hu) as [He Hl]. split; [done|]. rewrite lookup_delete_ne; [done|].
    intros Heq. by destruct (proj1 (held_nil q (g_promises w)) Hh k s Hs Hu).
Qed.

(** No object of the runtime is left when its context is gone. *)
Definition releasable (q : loc) (r : mlqjs_runtime E) (w : world E V P) : Prop :=
  held q (g_promises w) = [] /\ JS_lists_empty (JS_FreeContext (rt_eng r)) = true.
Lemma destroy_live w v_handle i q r :
  world_wf w -> (w_table_get v_handle w).2 = Ok (Some (i, q)) -> w_rts w !! q = Some r -> releasable q r w ->
  exists m' : gmap loc (list Z),
    (forall l, m' !! l = if decide (l ∈ owned r) then None else w_mem w !! l) /\
    mlqjs_destroy v_handle w =
      (mk_world (<[i := None]> (g_table w)) (g_generation w) (g_promises w)
         (delete q (w_rts w)) m' (w_malloc w) (w_port w), Ok tt).
Proof.
  intros Hw Hg Hr [Hh He]. pose proof (wwf_rt w Hw q r Hr) as Hwf.
  pose proof (rwf_owned r Hwf) as Hnd. unfold owned in Hnd. apply NoDup_app in Hnd as (Hnd1 & Hdis & Hnd2). apply NoDup_app in Hnd2 as (Hnd2 & Hdis2 & _).
  assert (forall l, l ∈ owned r -> is_Some (w_mem w !! l)) as Hlive.
  { intros l Hl. apply (wwf_heap w Hw). eauto. }
  destruct (destroy_spec (rt_requests r) (w_mem w) (rwf_queue r Hwf)) as (m1 & Hd & Hm1).
  { split; [done|]. intros l Hl. apply Hlive, elem_of_app. by left. }
  assert (rt_a_state r ∉ payloads (rt_requests r)) as Ha1 by (intros Ha; apply (Hdis _ Ha); set_solver).
  assert (rt_a_state r ∉ mod_source <$> rt_modules r) as Ha2 by (intros Ha; apply (Hdis2 _ Ha); set_solver).
  destruct (Hlive (rt_a_state r)) as [st Hst]; [unfold owned; set_solver|].
  destruct (free_sources_spec (rt_modules r) (delete (rt_a_state r) m1)) as (m2 & Hs & Hm2); [done| |].
  { intros l Hl. rewrite lookup_delete_ne by (by intros <-). rewrite Hm1, decide_False; [|intros Hp; apply (Hdis l Hp); set_solver].
    apply Hlive. unfold owned. set_solver. }
  exists m2. split.
  { intros l. rewrite Hm2. unfold owned. destruct (decide (l = rt_a_state r)) as [->|Hne].
    - rewrite lookup_delete_eq. repeat case_decide; try done; set_solver.
    - rewrite lookup_delete_ne by done. rewrite Hm1. repeat case_decide; try done; set_solver. }
  unfold mlqjs_destroy. unfold w_table_get in *. injection Hg as Hg.
  unfold mbind at 1. rewrite Hg. cbn.
  unfold mbind, get_rt, mmodify, mget, on_mem, zoom, mlqjs_alloc_state_free, free, JS_FreeRuntime. rewrite Hr. cbn -[held]. rewrite Hh, He. cbn. rewrite Hd. cbn.
  rewrite Hm1, decide_False by done. rewrite Hst. cbn. rewrite Hs. done.
Qed.
(** Otherwise the assertion of [JS_FreeRuntime] ends the process. *)
Lemma destroy_aborts w v_handle i q r :
  (w_table_get v_handle w).2 = Ok (Some (i, q)) -> w_rts w !! q = Some r -> ~ releasable q r w ->
  (mlqjs_destroy v_handle w).2 = Abort "assert(list_empty(&rt->gc_obj_list))".
Proof.
  intros Hg Hr Hn. unfold mlqjs_destroy. unfold w_table_get in *. injection Hg as Hg. unfold mbind at 1. rewrite Hg. cbn.
  unfold mbind, get_rt, mmodify, mget, JS_FreeRuntime. rewrite Hr. cbn -[held]. unfold releasable in Hn.
  destruct (held q (g_promises w)); [|done]. destruct (JS_lists_empty _); [by destruct Hn|done].
Qed.

Lemma destroy_sound v_handle : sound v_handle (mlqjs_destroy (E:=E) (V:=V) (P:=P) v_handle).
Proof.
  intros w Hw. destruct (w_table_get v_handle w).2 as [[[i q]|]| | | |] eqn:Hg; try done.
  - destruct (w_table_get_live w v_handle i q Hw Hg) as [Hi [r Hr]].
    assert (releasable q r w \/ ~ releasable q r w) as [Hrel|Hrel].
    { unfold releasable. destruct (held q (g_promises w)) eqn:Eh, (JS_lists_empty _); [by left|right..]; naive_solver. }
    + destruct (destroy_live w v_handle i q r Hw Hg Hr Hrel) as (m' & Hm' & ->). cbn. split; [done|]. intros _. split.
      * by apply (world_wf_destroy w i q r m'); [| | |apply Hrel|].
      * intros p rp Hp Hnp. assert (p <> q) as Hne by (intros ->; by apply (Hnp i)). split; cbn; [by rewrite lookup_delete_ne| |auto].
        intros l Hl. rewrite Hm', decide_False; [done|]. intros Hl'. by apply Hne, (wwf_disjoint w Hw p q rp r l).
      * cbn. intros p [? [_ ?]%lookup_delete_Some]. by eexists.
    + by rewrite (destroy_aborts w v_handle i q r Hg Hr Hrel).
  - assert (mlqjs_destroy v_handle w = (w, Ok tt)) as ->; [|split; [done|intros _; by apply kept_refl]].
    unfold mlqjs_destroy, mbind. unfold w_table_get in *. by injection Hg as ->.
Qed.
(** *** Creation *)

Context `{!SafePort P}.

Lemma mbind_abort {S A B} (m : M S A) (k : A -> M S B) s s' msg : m s = (s', Abort msg) -> mbind m k s = (s', Abort msg).
Proof. intros H. unfold mbind. by rewrite H. Qed.

(** A new counter block, and the clock *)
Definition with_block (w : world E V P) (a : loc) (st : list Z) (port : P) : world E V P :=
  mk_world (g_table w) (g_generation w) (g_promises w) (w_rts w) (<[a := st]> (w_mem w)) (w_malloc w) port.
Lemma with_block_clock w a st port :
  exists port', (exists t, on_port port_monotonic_ns (with_block w a st port) = (with_block w a st port', Ok t)) \/
    exists msg, on_port port_monotonic_ns (with_block w a st port) = (with_block w a st port', Abort msg).
Proof.
  unfold on_port, zoom. cbn. pose proof (clock_answers port) as Hc. destruct (port_monotonic_ns port) as [port' o]. exists port'.
  destruct o; try done; [left|right]; by eexists.
Qed.
Lemma with_block_free w a st port : w_mem w !! a = None ->
  on_mem (free (Some a)) (with_block w a st port) = (set_port port w, Ok tt).
Proof. intros Ha. unfold on_mem, zoom, free. cbn. rewrite lookup_insert_eq. unfold set_mem, set_port. cbn. by rewrite delete_insert_id. Qed.

(** Every runtime there is stays. *)
Definition create_keeps (w w' : world E V P) : Prop := world_wf w' /\ forall p r, w_rts w !! p = Some r -> untouched p r w w'.
Lemma create_failed w port : world_wf w -> create_keeps w (set_port port w).
Proof. intros Hw. split; [by apply (world_wf_env w)|]. intros p r Hr. by split. Qed.
Lemma create_sound env limits w : world_wf w ->
  no_ub (mlqjs_create env limits w).2 /\ (survives (mlqjs_create env limits w).2 = true -> create_keeps w (mlqjs_create env limits w).1).
Proof.
  intros Hw. assert (create_keeps w w) as Hsame by (split; [done|by split]).
  unfold mlqjs_create. destruct (negb _); [done|]. destruct (decode_limits limits) as [[[heap stack] timeout] cpu].
  set (a := fresh (dom (w_mem w))). assert (w_mem w !! a = None) as Ha by apply not_elem_of_dom, is_fresh.
  destruct (calloc_state_ok env); [|done]. set (st := state_fields (mk_alloc_state heap 0 0 0)).
  assert (on_mem (mlqjs_alloc_state_new true heap) w = (with_block w a st (w_port w), Ok a)) as Ea by done.
  rewrite (mbind_ok _ _ _ _ _ Ea). clear Ea. generalize (w_port w). intros port0.
  match goal with |- no_ub (mbind ?m ?k _).2 /\ _ =>
    assert (exists port1, (exists t, m (with_block w a st port0) = (with_block w a st port1, Ok t)) \/
                          exists msg, m (with_block w a st port0) = (with_block w a st port1, Abort msg)) as (port1 & [[deadline E1]|[msg E1]]) end.
  { destruct (negb _); [|exists port0; left; by eexists]. destruct (with_block_clock w a st port0) as (port1 & [[t Et]|[msg Et]]); exists port1.
    - left. eexists. by rewrite (mbind_ok _ _ _ _ _ Et).
    - right. exists msg. by rewrite (mbind_abort _ _ _ _ _ Et). }
  2:{ by rewrite (mbind_abort _ _ _ _ _ E1). }
  rewrite (mbind_ok _ _ _ _ _ E1). clear E1. destruct (with_block_clock w a st port1) as (port2 & [[start E2]|[msg E2]]); [|by rewrite (mbind_abort _ _ _ _ _ E2)].
  rewrite (mbind_ok _ _ _ _ _ E2). clear E2 port0 port1. pose proof (with_block_free w a st port2 Ha) as Hfree.
  pose proof (create_failed w port2 Hw) as Hfail. destruct (new_runtime env) as [e|]; [|by rewrite (mbind_ok _ _ _ _ _ Hfree)].
  rewrite (mbind_ok mget _ _ _ _ eq_refl). cbn [with_block w_rts g_table g_generation].
  set (q := fresh (dom (w_rts w))). assert (w_rts w !! q = None) as Hq by apply not_elem_of_dom, is_fresh.
  assert (forall (e : E) {A} (k : unit -> M (world E V P) A) w0, (JS_lists_empty e = true -> no_ub (k tt w0).2 /\ (survives (k tt w0).2 = true -> create_keeps w (k tt w0).1)) ->
    no_ub (mbind (JS_FreeRuntime e []) k w0).2 /\ (survives (mbind (JS_FreeRuntime e []) k w0).2 = true -> create_keeps w (mbind (JS_FreeRuntime e []) k w0).1)) as Hrt.
  { intros e0 A k w0 Hk. unfold mbind, JS_FreeRuntime. destruct (JS_lists_empty e0); [|done]. by apply Hk. }
  cbv zeta. destruct (new_context env _) as [e'|]; [|apply Hrt; intros _; by rewrite (mbind_ok _ _ _ _ _ Hfree)].
  destruct (table_alloc _ _ q) as [[[[i table'] gens'] handle]|] eqn:Hal.
  2:{ apply Hrt. intros _. assert (on_mem (mlqjs_host_queue_destroy mlqjs_host_queue_init) (with_block w a st port2) = (with_block w a st port2, Ok zero_queue)) as Hd.
      { unfold on_mem, zoom. destruct (destroy_spec mlqjs_host_queue_init (w_mem (with_block w a st port2)) init_wf) as (h' & -> & Hh').
        { split; [constructor|]. intros l Hl. by apply not_elem_of_nil in Hl. }
        f_equal. unfold set_mem, with_block. cbn. f_equal. apply map_eq. intros l. rewrite Hh'. rewrite decide_False; [done|]. apply not_elem_of_nil. }
      rewrite (mbind_ok _ _ _ _ _ Hd). by rewrite (mbind_ok _ _ _ _ _ Hfree). }
  cbn. split; [done|]. intros _. split.
  - match goal with |- world_wf (set_rts (<[q := ?r]> _) _) => apply (world_wf_create w q r i table' gens' handle st (w_malloc w) port2) end; done.
  - intros p r Hr. assert (p <> q) as Hne by (intros ->; congruence). split; cbn; [by rewrite lookup_insert_ne| |done].
    intros l Hl. rewrite lookup_insert_ne; [done|]. intros <-. assert (is_Some (w_mem w !! a)) as [? ?] by (apply (wwf_heap w Hw); eauto). congruence.
Qed.
End Lifecycle.
