(* ===== verification/StubsProps.v ===== *)
(** * Properties of the FFI

    The invariant over arbitrary call sequences and the isolation of runtimes
    from each other, the functional behaviour of the entry points (limits armed
    at creation, interrupts, the module registry, draining of host requests, the
    job pump, destruction), and what happens when two runtimes have a promise
    pending under one id. *)
From S2P Require Import Prelude Digits HostQueue Allocator Port Handles Engine Stubs StubsInv.

Section Props.
Context {E V P : Type} `{!JSEngine E V} `{!Port P}.

(** ** Arbitrary use of the interface *)

Inductive entry :=
| CCreate (env : create_env (E:=E)) (limits : list Z)
| CDestroy (h : Z)
| CEval (fuel : nat) (h : Z) (src : list Z)
| CEvalInt (fuel : nat) (h : Z) (src : list Z)
| CEvalString (fuel : nat) (h : Z) (src : list Z)
| CSetModule (h : Z) (path src : list Z)
| CEvalModule (fuel : nat) (h : Z) (path : list Z)
| CInstallHost (fuel : nat) (h : Z)
| CResolve (fuel : nat) (h id : Z) (result : list Z)
| CHasUnhandled (h : Z)
| CPump (fuel : nat) (h max_jobs : Z)
| CCancel (h : Z)
| CTakeRequests (h : Z)
| CHostCallCount (h : Z)
| CMemUsage (h : Z).

Definition forget {A} (m : M (world E V P) A) : M (world E V P) unit := m ;;; mret tt.

Definition run_entry (c : entry) : M (world E V P) unit :=
  match c with
  | CCreate env limits => forget (mlqjs_create env limits)
  | CDestroy h => mlqjs_destroy h
  | CEval fuel h src => forget (mlqjs_eval fuel h src)
  | CEvalInt fuel h src => forget (mlqjs_eval_int fuel h src)
  | CEvalString fuel h src => forget (mlqjs_eval_string fuel h src)
  | CSetModule h path src => mlqjs_set_module h path src
  | CEvalModule fuel h path => forget (mlqjs_eval_module fuel h path)
  | CInstallHost fuel h => mlqjs_install_host fuel h
  | CResolve fuel h id result => mlqjs_resolve fuel h id result
  | CHasUnhandled h => forget (mlqjs_has_unhandled_rejection h)
  | CPump fuel h n => forget (mlqjs_pump fuel h n)
  | CCancel h => mlqjs_cancel h
  | CTakeRequests h => forget (mlqjs_take_requests h)
  | CHostCallCount h => forget (mlqjs_host_call_count h)
  | CMemUsage h => forget (mlqjs_mem_usage h)
  end.

(** The handle an entry point gets *)
Definition entry_handle (c : entry) : option Z :=
  match c with
  | CCreate _ _ => None
  | CDestroy h | CEval _ h _ | CEvalInt _ h _ | CEvalString _ h _ | CSetModule h _ _ | CEvalModule _ h _ | CInstallHost _ h
  | CResolve _ h _ _ | CHasUnhandled h | CPump _ h _ | CCancel h | CTakeRequests h | CHostCallCount h | CMemUsage h => Some h
  end.

(** OCaml may catch an exception and go on: each call starts from the state
    the previous one left, until the process ends. *)
Fixpoint run_entries (cs : list entry) (w : world E V P) : world E V P * list (outcome unit) :=
  match cs with
  | [] => (w, [])
  | c :: cs' =>
      let '(w1, r) := run_entry c w in
      if survives r then let '(w2, rs) := run_entries cs' w1 in (w2, r :: rs) else (w1, [r])
  end.

(** The C globals at program start: zeroed tables. *)
Definition initial_world (v0 : V) (ora : list bool) (port : P) : world E V P :=
  mk_world (replicate MLQJS_TABLE_CAP None) (replicate MLQJS_TABLE_CAP 0)
    (replicate MLQJS_MAX_PROMISES (mk_slot 0 (1%positive, v0) (1%positive, v0) false)) ∅ ∅ ora port.

Lemma initial_wf v0 ora port : world_wf (initial_world v0 ora port).
Proof.
  split; cbn [initial_world g_table g_generation g_promises w_rts w_mem]; try done.
  - apply Forall_replicate. lia.
  - intros i q Hq. by apply lookup_replicate in Hq as [? _].
  - intros i j q Hq. by apply lookup_replicate in Hq as [? _].
  - intros l. rewrite lookup_empty. split; [by intros []|]. intros (q & r & Hq & _). done.
  - intros i s Hs Hu. by apply lookup_replicate in Hs as [-> _].
Qed.

(** The states a program can bring the FFI into *)
Inductive reachable : world E V P -> Prop :=
| reach_init v0 ora port : reachable (initial_world v0 ora port)
| reach_call w c w' r : reachable w -> run_entry c w = (w', r) -> survives r = true -> reachable w'.

(** A call that settles a promise of another runtime *)
Definition crossing (w : world E V P) (c : entry) : Prop :=
  match c with
  | CResolve _ h id _ => exists i q, (w_table_get h w).2 = Ok (Some (i, q)) /\ foreign q (u64 id) w
  | _ => False
  end.
Definition call_keeps (w : world E V P) (c : entry) (w' : world E V P) : Prop :=
  match entry_handle c with Some h => kept h w w' | None => create_keeps w w' end.

Lemma sound_forget {A} h (m : M (world E V P) A) : sound h m -> sound h (forget m).
Proof. intros Hm w Hw. destruct (Hm w Hw) as [Hn Hk]. unfold forget, mbind. by destruct (m w) as [w' []]. Qed.
Lemma foreign_dec q id (w : world E V P) : foreign q id w \/ ~ foreign q id w.
Proof.
  unfold foreign. destruct (promise_find (g_promises w) id) as [i|]; [|right; naive_solver].
  destruct (g_promises w !! i) as [s|] eqn:Hs; [|right; naive_solver]. destruct (decide ((slot_resolve s).1 = q)); [right|left]; naive_solver.
Qed.
Lemma run_entry_sound `{!SafePort P} c (w : world E V P) : world_wf w ->
  crossing w c \/ (no_ub (run_entry c w).2 /\ (survives (run_entry c w).2 = true -> call_keeps w c (run_entry c w).1)).
Proof.
  intros Hw. unfold call_keeps. destruct c; cbn [run_entry entry_handle crossing];
    try (right; apply (sound_forget _ _); eauto using eval_sound, eval_int_sound, eval_string_sound, eval_module_sound, has_unhandled_sound,
           pump_sound, take_requests_sound, host_call_count_sound, mem_usage_sound; fail);
    try (right; first [apply destroy_sound|apply set_module_sound|apply install_host_sound|apply cancel_sound]; exact Hw).
  - right. destruct (create_sound env limits w Hw) as [Hn Hk]. unfold forget, mbind. by destruct (mlqjs_create env limits w) as [w' []].
  - destruct (w_table_get h w).2 as [[[i q]|]| | | |] eqn:Hg; try done.
    + destruct (foreign_dec q (u64 id) w) as [Hf|Hf]; [left; by exists i, q|right]. by eapply resolve_own.
    + right. rewrite resolve_stale by done. split; [done|]. intros _. by apply kept_refl.
Qed.
Lemma reachable_wf `{!SafePort P} (w : world E V P) : reachable w -> world_wf w.
Proof.
  induction 1 as [v0 ora port|w c w' r _ IH Hrun Hs]; [apply initial_wf|].
  destruct (run_entry_sound c w IH) as [Hx|[_ Hk]].
  - destruct c; try done. destruct Hx as (i & q & Hg & Hf). cbn in Hrun. pose proof (resolve_foreign fuel h i q id result w IH Hg Hf) as Hu.
    rewrite Hrun in Hu. cbn in Hu. by subst r.
  - rewrite Hrun in Hk. specialize (Hk Hs). unfold call_keeps in Hk. destruct (entry_handle c); apply Hk.
Qed.



(** ** Handles at the interface *)

(** The runtime a handle designates. *)
Definition designates (w : world E V P) (h : Z) (i : nat) (q : loc) (r : mlqjs_runtime E) : Prop :=
  (w_table_get h w).2 = Ok (Some (i, q)) /\ w_rts w !! q = Some r.

Lemma get_or_fail_ok w h i q r msg :
  designates w h i q r -> get_or_fail h msg w = (w, Ok q).
Proof.
  intros [Hg _]. unfold get_or_fail, mbind. unfold w_table_get in *. injection Hg as ->. done.
Qed.

Lemma get_rt_ok (w : world E V P) q r : w_rts w !! q = Some r -> get_rt q w = (w, Ok r).
Proof. intros H. unfold get_rt. by rewrite H. Qed.

(** C3: destruction, on the handle of a live runtime.  When no promise of the
    runtime is pending and its last collection leaves no object, it removes the
    runtime, frees exactly the blocks it owns (queued payloads, module sources,
    the counters) and no other, and empties its slot; the same handle then
    designates nothing, and destroying it again changes nothing.  While a promise
    of the runtime is pending it ends the process: the table still holds the
    resolving functions, and [JS_FreeRuntime] asserts that no object is left. *)
Theorem destroy_releases (w : world E V P) (h : Z) (i : nat) (q : loc) (r : mlqjs_runtime E)
    (Hw : world_wf w) (Hd : designates w h i q r) :
  (held q (g_promises w) = [] -> JS_lists_empty (JS_FreeContext (rt_eng r)) = true ->
   exists w', mlqjs_destroy h w = (w', Ok tt) /\
    w_rts w' = delete q (w_rts w) /\
    (forall l, w_mem w' !! l = if decide (l ∈ owned r) then None else w_mem w !! l) /\
    w_table_get h w' = (w', Ok None) /\
    mlqjs_destroy h w' = (w', Ok tt)) /\
  (forall j s, g_promises w !! j = Some s -> slot_in_use s = true -> (slot_resolve s).1 = q ->
   (mlqjs_destroy h w).2 = Abort "assert(list_empty(&rt->gc_obj_list))").
Proof.
  destruct Hd as [Hg Hr]. destruct (w_table_get_live w h i q Hw Hg) as [Hi _]. split.
  2:{ intros j s Hs Hu Hq. apply (destroy_aborts w h i q r Hg Hr). intros [Hh _]. by destruct (proj1 (held_nil q (g_promises w)) Hh j s Hs Hu). }
  intros Hh He. destruct (destroy_live w h i q r Hw Hg Hr (conj Hh He)) as (m' & Hm' & Hrun).
  eexists. split; [exact Hrun|]. cbn [w_rts w_mem]. split; [done|]. split; [done|].
  set (w' := mk_world _ _ _ _ _ _ _).
  assert (w_table_get h w' = (w', Ok None)) as Hnone.
  { unfold w_table_get in *. cbn [snd] in Hg. injection Hg as Hg. f_equal. f_equal.
    unfold table_get in *. case_match; [done|].
    destruct (g_table w !! _) as [[q'|]|]; [|done..]. case_match; [done|]. injection Hg as -> ->.
    cbn [w' g_table]. rewrite list_lookup_insert_eq; [done|].
    apply lookup_lt_Some in Hi. done. }
  split; [done|]. unfold mlqjs_destroy. rewrite (mbind_ok _ _ _ _ _ Hnone). done.
Qed.

(** ** Draining host requests *)

(** C4: [mlqjs_take_requests] hands OCaml every queued request, oldest first,
    each with its id, its operation name and its payload bytes, empties the
    queue, and leaves other runtimes untouched. *)
Theorem take_requests_drains (w : world E V P) (h : Z) (i : nat) (q : loc) (r : mlqjs_runtime E)
    (Hw : world_wf w) (Hd : designates w h i q r) :
  exists w' r',
    mlqjs_take_requests h w = (w', Ok (delivered (w_mem w) <$> contents (rt_requests r))) /\
    world_wf w' /\ w_rts w' !! q = Some r' /\ contents (rt_requests r') = [] /\
    (forall p, p <> q -> w_rts w' !! p = w_rts w !! p).
Proof.
  unfold mlqjs_take_requests.
  rewrite (mbind_ok _ _ _ _ _ (get_or_fail_ok _ _ _ _ _ _ Hd)).
  rewrite (mbind_ok _ _ _ _ _ (get_rt_ok _ _ _ (proj2 Hd))).
  destruct (take_loop_spec (mlqjs_host_queue_count (rt_requests r)) q w r Hw (proj2 Hd) eq_refl) as (w' & r' & H1 & H2 & H3 & H4 & H5).
  exists w', r'. split_and!; [done..|]. apply (fr_rts q w w' H5).
Qed.

(** ** The module registry *)

(** The source the loader compiles for a name: the first registered module
    whose path is the same C string. *)
Definition module_source (mem : gmap loc (list Z)) (r : mlqjs_runtime E) (name : list Z) : option (list Z) :=
  m ← find_index (fun m => strcmp_eq (mod_path m) name) (rt_modules r) ≫= (fun i => rt_modules r !! i);
  src ← mem !! mod_source m;
  Some (take (mod_source_len m) src).

Lemma find_index_app {A} (p : A -> bool) l x :
  find_index p (l ++ [x]) =
  match find_index p l with Some i => Some i | None => if p x then Some (length l) else None end.
Proof.
  induction l as [|y l IH]; cbn; [by destruct (p x)|].
  destruct (p y); [done|]. rewrite IH. destruct (find_index p l); cbn; [done|]. by destruct (p x).
Qed.

(** C7: registering a module: with room, a path below 512 bytes and memory,
    the loader's lookup afterwards answers as before for every name already
    registered (the first registration of a path wins), and the new source for
    the new path; without room or with a longer path it raises and changes
    nothing. *)
Theorem set_module_registers (w : world E V P) (h : Z) (i : nat) (q : loc) (r : mlqjs_runtime E)
    (path src : list Z) (Hw : world_wf w) (Hd : designates w h i q r)
    (Hora : w_malloc w = []) :
  if (MLQJS_MAX_MODULES <=? length (rt_modules r))%nat
  then mlqjs_set_module h path src w = (w, Raise "mlqjs_set_module: too many modules")
  else if (MLQJS_MAX_PATH_LEN <=? length path)%nat
  then mlqjs_set_module h path src w = (w, Raise "mlqjs_set_module: path too long")
  else exists w' r', mlqjs_set_module h path src w = (w', Ok tt) /\ w_rts w' !! q = Some r' /\
    forall name, module_source (w_mem w') r' name =
      match module_source (w_mem w) r name with
      | Some s => Some s
      | None => if strcmp_eq path name then Some src else None
      end.
Proof.
  assert (forall m, mlqjs_set_module h path src w = m <->
    (if (MLQJS_MAX_MODULES <=? length (rt_modules r))%nat
     then mfail (Raise "mlqjs_set_module: too many modules")
     else if (MLQJS_MAX_PATH_LEN <=? length path)%nat
     then mfail (Raise "mlqjs_set_module: path too long")
     else let* p := w_alloc src in
          match p with
          | None => mfail (Raise "mlqjs_set_module: oom")
          | Some l => modify_rt q (fun r => set_modules (rt_modules r ++ [mk_module path l (length src)]) r)
          end) w = m) as Heq.
  { intros m. unfold mlqjs_set_module.
    rewrite (mbind_ok _ _ _ _ _ (get_or_fail_ok _ _ _ _ _ _ Hd)).
    rewrite (mbind_ok _ _ _ _ _ (get_rt_ok _ _ _ (proj2 Hd))). done. }
  destruct (MLQJS_MAX_MODULES <=? _)%nat; [by apply Heq|].
  destruct (MLQJS_MAX_PATH_LEN <=? _)%nat; [by apply Heq|]. destruct Hd as [_ Hr].
  set (l := fresh (dom (w_mem w))).
  assert (w_mem w !! l = None) as Hl by apply not_elem_of_dom, is_fresh.
  do 2 eexists. split; [apply Heq|].
  { unfold mbind, w_alloc, on_mem, zoom, malloc, modify_rt. rewrite Hora. cbn. rewrite Hr. fold l. reflexivity. }
  cbn. split; [by rewrite lookup_insert_eq|]. intros name. unfold module_source. cbn.
  rewrite find_index_app. destruct (find_index _ (rt_modules r)) as [j|] eqn:Ef; cbn.
  - apply find_index_Some in Ef as [(m & Hm & _) _].
    rewrite lookup_app_l by (by eapply lookup_lt_Some). rewrite Hm. cbn.
    assert (is_Some (w_mem w !! mod_source m)) as [s Hs].
    { apply (wwf_heap w Hw). exists q, r. split; [done|]. unfold owned. rewrite !elem_of_app. right; left.
      apply list_elem_of_fmap. exists m. split; [done|]. by eapply list_elem_of_lookup_2. }
    rewrite lookup_insert_ne; [|intros Hx; rewrite Hx in Hl; congruence]. by rewrite Hs.
  - destruct (strcmp_eq path name); [|done]. cbn.
    rewrite lookup_app_r by lia. rewrite Nat.sub_diag. cbn.
    rewrite lookup_insert_eq. cbn. by rewrite take_ge.
Qed.
End Props.

(** ** Interrupts *)

(** Which limit a poll at time [now] finds exceeded, in the order of the
    handler: cancellation, then the deadline, then the CPU budget. *)
Definition exceeded {E} (r : mlqjs_runtime E) (now : Z) : option mlqjs_interrupt_reason :=
  if rt_cancelled r then Some MLQJS_REASON_CANCEL
  else if negb (rt_deadline_ns r =? 0) && (rt_deadline_ns r <=? now) then Some MLQJS_REASON_DEADLINE
  else if negb (rt_cpu_budget_ns r =? 0) && (rt_cpu_budget_ns r <=? u64 (now - rt_engine_start_ns r))
  then Some MLQJS_REASON_CPU
  else None.

Section Interrupts.
Context {E V P : Type} `{!JSEngine E V} `{!Port P}.

Lemma modify_rt_ok (w : world E V P) q r f :
  w_rts w !! q = Some r -> modify_rt q f w = (set_rts (<[q := f r]> (w_rts w)) w, Ok tt).
Proof. intros H. unfold modify_rt. by rewrite H. Qed.

(** C6: the interrupt handler stops the engine exactly when the runtime is
    cancelled, its deadline has passed or its CPU budget is used up at the time
    the clock gives, records the first of these reasons and changes nothing
    else; otherwise it lets the engine run and leaves the recorded reason.  The
    clock is not read when the runtime is already cancelled. *)
Theorem interrupt_decides (w : world E V P) (q : loc) (r : mlqjs_runtime E) (port' : P) (now : Z)
    (Hr : w_rts w !! q = Some r) (Hclock : port_monotonic_ns (w_port w) = (port', Ok now)) :
  let w' := if rt_cancelled r then w else set_port port' w in
  mlqjs_interrupt q w =
  match exceeded r now with
  | Some reason => (set_rts (<[q := set_reason reason r]> (w_rts w')) w', Ok true)
  | None => (w', Ok false)
  end.
Proof.
  unfold mlqjs_interrupt, exceeded. rewrite (mbind_ok _ _ _ _ _ (get_rt_ok _ _ _ Hr)).
  destruct (rt_cancelled r); cbn zeta.
  { rewrite (mbind_ok _ _ _ _ _ (modify_rt_ok w q r _ Hr)). done. }
  assert (on_port (E:=E) (V:=V) port_monotonic_ns w = (set_port port' w, Ok now)) as Hp
    by (unfold on_port, zoom; by rewrite Hclock).
  rewrite (mbind_ok _ _ _ _ _ Hp). set (w1 := set_port port' w).
  assert (w_rts w1 !! q = Some r) as Hr1 by done.
  destruct (negb (rt_deadline_ns r =? 0) && (rt_deadline_ns r <=? now)).
  { rewrite (mbind_ok _ _ _ _ _ (modify_rt_ok w1 q r _ Hr1)). done. }
  destruct (negb (rt_cpu_budget_ns r =? 0)); [|done]. cbn [andb].
  destruct (rt_cpu_budget_ns r <=? u64 (now - rt_engine_start_ns r)); [|done].
  rewrite (mbind_ok _ _ _ _ _ (modify_rt_ok w1 q r _ Hr1)). done.
Qed.

(** An exceeded limit stays exceeded: on a clock that does not go back,
    every later poll of the same runtime also stops the engine. *)
Theorem interrupt_stays (r : mlqjs_runtime E) (now later : Z)
    (Hstart : 0 <= rt_engine_start_ns r <= now) (Hle : now <= later < 2 ^ 64)
    (Hex : is_Some (exceeded r now)) : is_Some (exceeded r later).
Proof.
  unfold exceeded in *. destruct (rt_cancelled r); [done|].
  rewrite !u64_id in * by lia.
  destruct (Z.eqb_spec (rt_deadline_ns r) 0), (Z.eqb_spec (rt_cpu_budget_ns r) 0),
    (Z.leb_spec (rt_deadline_ns r) now), (Z.leb_spec (rt_deadline_ns r) later),
    (Z.leb_spec (rt_cpu_budget_ns r) (now - rt_engine_start_ns r)),
    (Z.leb_spec (rt_cpu_budget_ns r) (later - rt_engine_start_ns r));
    cbn in *; try done; try lia; by destruct Hex.
Qed.

(** *** Limits are armed at creation *)

(** C5: creating a runtime from the blob of limits below 2^31 with a free slot
    and a timeout other than 0 gives a runtime whose deadline is [timeout_ms]
    after the creation clock, whose CPU budget is [cpu_ms] counted from the start
    clock, not cancelled, with an empty request queue and no module - and the
    returned handle designates it while the slot's generation is below 2^15. *)
Theorem create_arms_limits (w : world E V P) (env : create_env) (l : engine_limits)
    (e : E) (port1 port2 : P) (t1 t2 : Z) (i : nat) (table' : list (option loc)) (gens' : list Z) (h : Z)
    (Hw : world_wf w)
    (Hbig : 0 <= js_heap_bytes l < 2 ^ 31 /\ 0 <= stack_bytes l < 2 ^ 31)
    (Htime : 0 < timeout_ms l < 2 ^ 31 /\ 0 <= cpu_ms l < 2 ^ 31)
    (Hc1 : port_monotonic_ns (w_port w) = (port1, Ok t1)) (Hc2 : port_monotonic_ns port1 = (port2, Ok t2))
    (Ht : 0 <= t1 < 2 ^ 63)
    (Hok : calloc_runtime_ok env = true /\ calloc_state_ok env = true)
    (Hrt : new_runtime env = Some e) (Hctx : forall x, is_Some (new_context env x))
    (Halloc : table_alloc (g_table w) (g_generation w) (fresh (dom (w_rts w))) = Some (i, table', gens', h))
    (Hfit : default 0 (g_generation w !! i) < 2 ^ 15 - 1) :
  exists w' r, mlqjs_create env (limits_blob l) w = (w', Ok h) /\
    designates w' h i (fresh (dom (w_rts w))) r /\
    rt_deadline_ns r = t1 + timeout_ms l * 1000000 /\
    rt_cpu_budget_ns r = cpu_ms l * 1000000 /\ rt_engine_start_ns r = t2 /\
    rt_cancelled r = false /\ contents (rt_requests r) = [] /\ rt_modules r = [].
Proof.
  destruct Hok as [Ho1 Ho2]. set (q := fresh (dom (w_rts w))) in *.
  assert (w_rts w !! q = None) as Hq by apply not_elem_of_dom, is_fresh.
  assert (decode_limits (limits_blob l) =
    (js_heap_bytes l, stack_bytes l, timeout_ms l * 1000000, cpu_ms l * 1000000)) as Hdec.
  { apply decode_limits_exact; lia. }
  destruct (table_alloc_Some _ _ _ _ _ _ _ Halloc (wwf_table w Hw)) as (Hi & Hlt & _ & -> & -> & ->).
  set (g := next_generation _) in *.
  assert (0 <= default 0 (g_generation w !! i)) as Hg0.
  { pose proof (wwf_gen_range w Hw) as Hf. rewrite Forall_lookup in Hf.
    destruct (g_generation w !! i) as [x|] eqn:Ex; cbn; [|lia]. apply (Hf i x Ex). }
  assert (g = default 0 (g_generation w !! i) + 1) as Hg.
  { unfold g. rewrite next_generation_eq by lia. case_bool; lia. }
  unfold mlqjs_create. rewrite Ho1, Hdec. cbn [negb]. rewrite Ho2.
  rewrite (proj2 (Z.eqb_neq _ _)) by lia. cbn [negb].
  set (a := fresh (dom (w_mem w))). set (st := state_fields (mk_alloc_state (js_heap_bytes l) 0 0 0)).
  assert (on_mem (mlqjs_alloc_state_new true (js_heap_bytes l)) w = (with_block w a st (w_port w), Ok a)) as Ea by done.
  rewrite (mbind_ok _ _ _ _ _ Ea). clear Ea.
  assert (forall p p' t, port_monotonic_ns p = (p', Ok t) ->
    on_port port_monotonic_ns (with_block w a st p) = (with_block w a st p', Ok t)) as Hclock.
  { intros p p' t Hp. unfold on_port, zoom. cbn. by rewrite Hp. }
  match goal with |- context [mbind (mbind ?m ?k) ?k' (with_block w a st (w_port w))] =>
    rewrite (mbind_ok (mbind m k) k' (with_block w a st (w_port w)) (with_block w a st port1) (u64 (t1 + timeout_ms l * 1000000)))
      by (by rewrite (mbind_ok _ _ _ _ _ (Hclock _ _ _ Hc1))) end.
  rewrite (mbind_ok _ _ _ _ _ (Hclock _ _ _ Hc2)), Hrt, (mbind_ok mget _ _ _ _ eq_refl). cbv zeta. cbn [with_block w_rts g_table g_generation]. fold q.
  match goal with |- context [new_context env ?x] => destruct (Hctx x) as [e' ->] end. rewrite Halloc.
  do 2 eexists. split; [reflexivity|]. split.
  { split; cbn; [|by rewrite lookup_insert_eq]. f_equal. unfold w_table_get. cbn. f_equal.
    apply table_get_handle; [lia|done| |];
      rewrite !list_lookup_insert_eq by (rewrite ?(wwf_table w Hw), ?(wwf_gens w Hw); done).
    - intros p [= <-]. rewrite lookup_insert_eq. cbn. change (Datatypes.id g) with g. lia.
    - rewrite lookup_insert_eq. cbn. change (Datatypes.id g) with g. split_and!; try done. lia. }
  cbn -[u64]. rewrite u64_id by lia. by split_and!.
Qed.
End Interrupts.

(** ** The job pump *)

Section Pump.
Context {E V P : Type} `{!JSEngine E V} `{!Port P}.

(** A turn of the loop that runs a job: the job may call the host, enqueue jobs
    or throw, and then its exception is dropped. *)
Definition job_run (fuel : nat) (q : loc) (w w' : world E V P) : Prop :=
  exists r rc w1, w_rts w !! q = Some r /\ rt_cancelled r = false /\ JS_IsJobPending (rt_eng r) = true /\
    call_engine fuel q (fun e => JS_ExecutePendingJob e) w = (w1, Ok rc) /\ rc <> 0 /\
    (if rc <? 0 then drop_exception q else mret tt) w1 = (w', Ok tt).
(** Why the loop ended after [k] of at most [n] jobs; [true] for cancellation *)
Inductive pump_end (fuel : nat) (q : loc) (n k : nat) (w w' : world E V P) : bool -> Prop :=
| end_count : k = n -> w' = w -> pump_end fuel q n k w w' false
| end_cancelled r : (k < n)%nat -> w_rts w !! q = Some r -> rt_cancelled r = true -> w' = w -> pump_end fuel q n k w w' true
| end_idle r : (k < n)%nat -> w_rts w !! q = Some r -> rt_cancelled r = false -> JS_IsJobPending (rt_eng r) = false -> w' = w ->
    pump_end fuel q n k w w' false
| end_no_job r : (k < n)%nat -> w_rts w !! q = Some r -> rt_cancelled r = false -> JS_IsJobPending (rt_eng r) = true ->
    call_engine fuel q (fun e => JS_ExecutePendingJob e) w = (w', Ok 0) -> pump_end fuel q n k w w' false.

Lemma mbind_inv {A B} (m : M (world E V P) A) (k : A -> M (world E V P) B) w w' b :
  mbind m k w = (w', Ok b) -> exists w1 a, m w = (w1, Ok a) /\ k a w1 = (w', Ok b).
Proof. unfold mbind. destruct (m w) as [w1 []]; try done. eauto. Qed.
Lemma pump_loop_runs fuel q n : forall ran w w' res, pump_loop fuel q n ran w = (w', Ok res) ->
  exists k w1 c, nsteps (job_run fuel q) k w w1 /\ (k <= n)%nat /\ pump_end fuel q n k w1 w' c /\
    res = (if c : bool then inl tt else inr (ran || negb (k =? 0)%nat)).
Proof.
  induction n as [|n IH]; intros ran w w' res; cbn [pump_loop].
  { intros [= <- <-]. exists 0%nat, w, false. split_and!; [constructor|lia|by apply end_count|by rewrite orb_false_r]. }
  intros (w0 & r & Hg & H)%mbind_inv. unfold get_rt in Hg. destruct (w_rts w !! q) as [r0|] eqn:Hr; [|done]. injection Hg as <- <-.
  destruct (rt_cancelled r0) eqn:Hc.
  { injection H as <- <-. exists 0%nat, w, true. split_and!; [constructor|lia| |done]. eapply end_cancelled; eauto with lia. }
  destruct (JS_IsJobPending (rt_eng r0)) eqn:Hj; cbn [negb] in H.
  2:{ injection H as <- <-. exists 0%nat, w, false. split_and!; [constructor|lia| |by rewrite orb_false_r]. eapply end_idle; eauto with lia. }
  apply mbind_inv in H as (w1 & rc & Hrun & H). destruct (Z.eqb_spec rc 0) as [->|Hrc].
  { injection H as <- <-. exists 0%nat, w, false. split_and!; [constructor|lia| |by rewrite orb_false_r]. eapply end_no_job; eauto with lia. }
  apply mbind_inv in H as (w2 & [] & Hd & H). destruct (IH true w2 w' res H) as (k & w3 & c & Hk & Hle & He & ->).
  exists (S k), w3, c. split_and!; [|lia| |by rewrite orb_true_r].
  - econstructor; [|exact Hk]. by exists r0, rc, w1.
  - inversion He; [apply end_count|eapply end_cancelled|eapply end_idle|eapply end_no_job]; eauto with lia.
Qed.

(** The pump, on any engine, runs jobs one after the other, at most as many as
    asked for; it ends early only when the runtime is cancelled or there is no
    job, and reports 2 for a cancelled or interrupted runtime and else whether
    a job ran. *)
Theorem pump_runs_jobs (w w' : world E V P) (h n code : Z) (fuel i : nat) (q : loc) (r : mlqjs_runtime E)
    (Hd : designates w h i q r) (Hrun : mlqjs_pump fuel h n w = (w', Ok code)) :
  exists k w1 c, nsteps (job_run fuel q) k w w1 /\ (k <= Z.to_nat (Int_val n))%nat /\ pump_end fuel q (Z.to_nat (Int_val n)) k w1 w' c /\
    (if c : bool then code = 2
     else exists r', w_rts w' !! q = Some r' /\
            code = (if bool_decide (rt_interrupt_reason r' <> MLQJS_REASON_NONE) then 2 else if (k =? 0)%nat then 0 else 1)).
Proof.
  unfold mlqjs_pump in Hrun. rewrite (mbind_ok _ _ _ _ _ (get_or_fail_ok _ _ _ _ _ _ Hd)) in Hrun. cbv zeta in Hrun.
  apply mbind_inv in Hrun as (w2 & res & Hl & Hrun). destruct (pump_loop_runs _ _ _ _ _ _ _ Hl) as (k & w1 & c & Hk & Hle & He & ->).
  exists k, w1, c. destruct c.
  { injection Hrun as <- <-. done. }
  apply mbind_inv in Hrun as (w3 & r' & Hg & Hrun). unfold get_rt in Hg. destruct (w_rts w2 !! q) as [r0|] eqn:Hr; [|done]. injection Hg as <- <-.
  assert (w' = w2) as -> by (by case_match; injection Hrun). split_and!; [done..|]. exists r0. split; [done|]. cbn [orb] in Hrun.
  case_bool_decide; [by injection Hrun|]. injection Hrun as <-. by destruct (k =? 0)%nat.
Qed.

(** ** Settling promises *)

(** Settling with an id no pending promise has (already settled, or never
    issued) is ignored: the call succeeds and the state is unchanged. *)
Theorem resolve_unknown_ignored (w : world E V P) (h id : Z) (fuel i : nat) (q : loc)
    (r : mlqjs_runtime E) (result : list Z)
    (Hd : designates w h i q r) (Hfree : id_free (g_promises w) (u64 id)) :
  mlqjs_resolve fuel h id result w = (w, Ok tt).
Proof.
  unfold mlqjs_resolve. rewrite (mbind_ok _ _ _ _ _ (get_or_fail_ok _ _ _ _ _ _ Hd)).
  unfold mbind at 1, mget. by rewrite (proj2 (promise_find_None _ _) Hfree).
Qed.

(** C9: request ids are counted per runtime, but promises are looked up by id
    alone.  When two live runtimes have a promise pending under the same id, as
    the first requests of any two have, settling it goes wrong on one of the two
    handles, whatever the result and the engine: the resolving function of the
    other runtime is called in its context. *)
Theorem resolve_crosses_runtimes (w : world E V P) (h1 h2 id : Z) (i1 i2 : nat) (q1 q2 : loc) (r1 r2 : mlqjs_runtime E)
    (j1 j2 : nat) (s1 s2 : mlqjs_promise_slot (loc * V))
    (Hw : world_wf w) (Hd1 : designates w h1 i1 q1 r1) (Hd2 : designates w h2 i2 q2 r2) (Hne : q1 <> q2)
    (Hs1 : g_promises w !! j1 = Some s1 /\ slot_in_use s1 = true /\ slot_id s1 = u64 id /\ (slot_resolve s1).1 = q1)
    (Hs2 : g_promises w !! j2 = Some s2 /\ slot_in_use s2 = true /\ slot_id s2 = u64 id /\ (slot_resolve s2).1 = q2) :
  exists h, (h = h1 \/ h = h2) /\ forall fuel result, (mlqjs_resolve fuel h id result w).2 = UB foreign_value.
Proof.
  destruct (promise_find (g_promises w) (u64 id)) as [i|] eqn:Ef.
  2:{ exfalso. apply promise_find_None in Ef. destruct Hs1 as (Hj & Hu & Hid & _). by apply (Ef j1 s1 Hj Hu). }
  destruct (promise_find_Some _ _ _ Ef) as (s & Hs & _ & _).
  destruct (decide ((slot_resolve s).1 = q1)) as [Hq|Hq].
  - exists h2. split; [by right|]. intros fuel result. apply (resolve_foreign fuel h2 i2 q2); [done|apply Hd2|]. exists i, s. split_and!; [done..|]. by rewrite Hq.
  - exists h1. split; [by left|]. intros fuel result. apply (resolve_foreign fuel h1 i1 q1); [done|apply Hd1|]. by exists i, s.
Qed.
End Pump.

(** ** A small engine, to exercise the interface

    Its values carry the name of the engine that made them; every script calls
    [host.later] once and returns the promise; it logs the functions called. *)
Record echo := mk_echo { echo_name : nat; echo_next : Z; echo_called : list (nat * Z); echo_jobs : nat }.

#[export] Instance echo_engine : JSEngine echo (nat * Z) := {
  JS_UNDEFINED := (0%nat, 0);
  JS_IsException v := v.2 =? -1;
  JS_GetException e := (e, (echo_name e, -2));
  JS_FreeValue e _ := e;
  JS_FreeCString e _ := e;
  JS_ThrowTypeError e _ := (e, (echo_name e, -1));
  JS_ThrowInternalError e _ := (e, (echo_name e, -1));
  JS_ThrowReferenceError e _ := (e, (echo_name e, -1));
  JS_NewString e _ := (e, (echo_name e, 50));
  JS_ParseJSON e _ := (e, (echo_name e, 60));
  JS_NewPromiseCapability e :=
    (mk_echo (echo_name e) (echo_next e + 3) (echo_called e) (echo_jobs e),
     (echo_name e, echo_next e), (echo_name e, echo_next e + 1), (echo_name e, echo_next e + 2));
  JS_NewObject e := (e, (echo_name e, 70));
  JS_NewCFunction e _ _ := (e, (echo_name e, 71));
  JS_GetGlobalObject e := (e, (echo_name e, 72));
  JS_SetMemoryLimit e _ := e;
  JS_SetMaxStackSize e _ := e;
  JS_SetInterruptHandler e _ := e;
  JS_SetCanBlock e _ := e;
  JS_SetHostPromiseRejectionTracker e _ := e;
  JS_AddIntrinsic e _ := e;
  JS_SetContextOpaque e _ := e;
  JS_SetModuleLoaderFunc e _ := e;
  JS_IsJobPending e := negb (echo_jobs e =? 0)%nat;
  JS_memory_used_size e := 0;
  JS_Eval e _ _ _ := OnHostLater e [(echo_name e, 7)] (fun e v => Done (e, v));
  JS_ToInt32 e v := Done (e, Some v.2);
  JS_ToCString e v := Done (e, Some (print_int v.2));
  JS_JSONStringify e v := Done (e, v);
  JS_SetPropertyStr e _ _ _ := Done e;
  JS_Call e f _ := Done (mk_echo (echo_name e) (echo_next e) (echo_called e ++ [f]) (echo_jobs e),
                         (echo_name e, 0));
  JS_ExecutePendingJob e := Done (mk_echo (echo_name e) (echo_next e) (echo_called e) (pred (echo_jobs e)), 1);
  JS_FreeContext e := e;
  JS_lists_empty _ := true }.

Definition echo_env (name jobs : nat) : create_env (E:=echo) :=
  mk_create_env true true (Some (mk_echo name 100 [] jobs)) Some.

Definition clock_at (sec : Z) : Unix.sys :=
  Unix.mk_sys (Some (Unix.mk_timespec sec 0)) None true [] 0.

Definition echo_world : world echo (nat * Z) Unix.sys :=
  initial_world (0%nat, 0) [] (clock_at 1).

Definition src0 : list Z := bytes_of_string "host.later(7)".

(** ** Witnesses: the theorems applied to runs of the small engine *)

Lemma run_entries_reachable cs : forall w : world echo (nat * Z) Unix.sys,
  reachable w -> Forall (fun r => survives r = true) (run_entries cs w).2 -> reachable (run_entries cs w).1.
Proof.
  induction cs as [|c cs IH]; intros w Hw; cbn [run_entries]; [done|].
  destruct (run_entry c w) as [w1 r] eqn:E. destruct (survives r) eqn:Es.
  - specialize (IH w1 (reach_call w c w1 r Hw E Es)). destruct (run_entries cs w1) as [w2 rs]. cbn. intros [_ H]%Forall_cons. by apply IH.
  - cbn. intros [H _]%Forall_cons. by rewrite Es in H.
Qed.

(** One runtime with two queued requests *)
Definition live_calls : list (entry (E := echo)) :=
  [CCreate (echo_env 1 3) (limits_blob default_limits); CEval 10 65536 src0; CEval 10 65536 src0].
Definition live_world : world echo (nat * Z) Unix.sys := (run_entries live_calls echo_world).1.
(** one with a module and no request, and two with a request each *)
Definition idle_world : world echo (nat * Z) Unix.sys :=
  (run_entries [CCreate (echo_env 1 0) (limits_blob default_limits); CSetModule 65536 (bytes_of_string "./a.js") [49]] echo_world).1.
Definition two_world : world echo (nat * Z) Unix.sys :=
  (run_entries [CCreate (echo_env 1 0) (limits_blob default_limits); CCreate (echo_env 2 0) (limits_blob default_limits);
                CEval 10 65536 src0; CEval 10 65537 src0] echo_world).1.
Definition rt_at (w : world echo (nat * Z) Unix.sys) (q : loc) : mlqjs_runtime echo :=
  default (mk_runtime (mk_echo 0 0 [] 0) 1%positive mlqjs_host_queue_init [] 0 0 0
             false false MLQJS_REASON_NONE 0) (w_rts w !! q).
Definition live_rt : mlqjs_runtime echo := rt_at live_world 1%positive.

Ltac reach := apply run_entries_reachable; [apply reach_init|vm_compute; repeat constructor].
Lemma live_reachable : reachable live_world. Proof. reach. Qed.
Lemma idle_reachable : reachable idle_world. Proof. reach. Qed.
Lemma two_reachable : reachable two_world. Proof. reach. Qed.
Lemma live_world_wf : world_wf live_world.
Proof. apply reachable_wf, live_reachable. Qed.

Lemma live_designates : designates live_world 65536 0 1%positive live_rt.
Proof. split; vm_compute; reflexivity. Qed.



Lemma destroy_releases_witness :
  (exists w', mlqjs_destroy 65536 idle_world = (w', Ok tt) /\ w_rts w' = delete 1%positive (w_rts idle_world) /\
     w_table_get 65536 w' = (w', Ok None)) /\
  (mlqjs_destroy 65536 live_world).2 = Abort "assert(list_empty(&rt->gc_obj_list))".
Proof.
  split.
  - destruct (destroy_releases idle_world 65536 0 1%positive (rt_at idle_world 1%positive)) as [H _].
    + exact (reachable_wf _ idle_reachable).
    + split; vm_compute; reflexivity.
    + destruct H as (w' & H1 & H2 & _ & H4 & _); [vm_compute; reflexivity|reflexivity|]. exists w'. exact (conj H1 (conj H2 H4)).
  - destruct (destroy_releases live_world 65536 0 1%positive live_rt live_world_wf live_designates) as [_ H].
    apply (H 0%nat (mk_slot 1 (1%positive, (1%nat, 101)) (1%positive, (1%nat, 102)) true)); vm_compute; reflexivity.
Defined.

Lemma resolve_crosses_witness :
  exists h, (h = 65536 \/ h = 65537) /\ forall fuel result, (mlqjs_resolve fuel h 1 result two_world).2 = UB foreign_value.
Proof.
  apply (resolve_crosses_runtimes two_world 65536 65537 1 0 1 1%positive 2%positive (rt_at two_world 1%positive) (rt_at two_world 2%positive) 0 1
    (mk_slot 1 (1%positive, (1%nat, 101)) (1%positive, (1%nat, 102)) true) (mk_slot 1 (2%positive, (2%nat, 101)) (2%positive, (2%nat, 102)) true)).
  - exact (reachable_wf _ two_reachable).
  - split; vm_compute; reflexivity.
  - split; vm_compute; reflexivity.
  - discriminate.
  - split_and!; vm_compute; reflexivity.
  - split_and!; vm_compute; reflexivity.
Defined.

Lemma take_requests_witness :
  exists w', mlqjs_take_requests 65536 live_world =
    (w', Ok [(1, bytes_of_string "host.later", [55]); (2, bytes_of_string "host.later", [55])]).
Proof.
  destruct (take_requests_drains live_world 65536 0 1%positive live_rt live_world_wf live_designates)
    as (w' & r' & H & _). exists w'. rewrite H.
  assert (delivered (w_mem live_world) <$> contents (rt_requests live_rt) =
    [(1, bytes_of_string "host.later", [55]); (2, bytes_of_string "host.later", [55])]) as ->
    by (vm_compute; reflexivity).
  reflexivity.
Defined.

Lemma set_module_witness :
  exists w' r', mlqjs_set_module 65536 (bytes_of_string "./a.js") [49] live_world = (w', Ok tt) /\
    w_rts w' !! 1%positive = Some r' /\
    module_source (w_mem w') r' (bytes_of_string "./a.js") = Some [49].
Proof.
  pose proof (set_module_registers live_world 65536 0 1%positive live_rt (bytes_of_string "./a.js")
    [49] live_world_wf live_designates ltac:(vm_compute; reflexivity)) as H.
  assert ((MLQJS_MAX_MODULES <=? length (rt_modules live_rt))%nat = false) as E1 by (vm_compute; reflexivity).
  rewrite E1 in H.
  change (MLQJS_MAX_PATH_LEN <=? length (bytes_of_string "./a.js"))%nat with false in H.
  destruct H as (w' & r' & H1 & H2 & H3). exists w', r'. refine (conj H1 (conj H2 _)).
  rewrite H3. vm_compute. reflexivity.
Defined.

Lemma interrupt_witness :
  (mlqjs_interrupt 1%positive (set_port (clock_at 2) live_world)).2 = Ok true.
Proof.
  rewrite (interrupt_decides (set_port (clock_at 2) live_world) 1%positive live_rt (clock_at 2) 2000000000).
  - vm_compute. reflexivity.
  - vm_compute. reflexivity.
  - vm_compute. reflexivity.
Defined.

Lemma interrupt_stays_witness : is_Some (exceeded live_rt 1200000000) /\ is_Some (exceeded live_rt 1300000000).
Proof.
  assert (is_Some (exceeded live_rt 1200000000)) as H by (vm_compute; by eexists).
  split; [exact H|]. refine (interrupt_stays live_rt 1200000000 1300000000 _ _ H); vm_compute; by split.
Defined.

Lemma create_witness :
  exists w' r, mlqjs_create (echo_env 1 0) (limits_blob default_limits) echo_world = (w', Ok 65536) /\
    designates w' 65536 0 1%positive r /\ rt_deadline_ns r = 1100000000.
Proof.
  destruct (create_arms_limits echo_world (echo_env 1 0) default_limits (mk_echo 1 100 [] 0)
    (clock_at 1) (clock_at 1) 1000000000 1000000000 0
    (<[0%nat := Some 1%positive]> (replicate 64 None)) (<[0%nat := 1]> (replicate 64 0)) 65536)
    as (w' & r & H1 & H2 & H3 & _).
  - apply initial_wf.
  - cbn. lia.
  - cbn. lia.
  - reflexivity.
  - reflexivity.
  - lia.
  - split; reflexivity.
  - reflexivity.
  - by eexists.
  - vm_compute. reflexivity.
  - cbn. lia.
  - exists w', r. refine (conj H1 (conj H2 _)). rewrite H3. reflexivity.
Defined.

Lemma pump_witness : exists k w1 c, nsteps (job_run 5 1%positive) k live_world w1 /\ (k <= 2)%nat /\
  pump_end 5 1%positive 2 k w1 (mlqjs_pump 5 65536 2 live_world).1 c.
Proof.
  destruct (pump_runs_jobs live_world (mlqjs_pump 5 65536 2 live_world).1 65536 2 1 5 0 1%positive live_rt live_designates) as (k & w1 & c & H1 & H2 & H3 & _).
  - vm_compute. reflexivity.
  - exists k, w1, c. exact (conj H1 (conj H2 H3)).
Defined.

Lemma resolve_unknown_witness :
  mlqjs_resolve 5 65536 99 [] live_world = (live_world, Ok tt).
Proof.
  apply (resolve_unknown_ignored live_world 65536 99 5 0 1%positive live_rt).
  - exact live_designates.
  - apply promise_find_None. vm_compute. reflexivity.
Defined.
