(* ===== verification/Cutils.v ===== *)
(** * String helpers and the dynamic buffer (cutils.c)

    Bytes are integers below 256, a [char *] is the list of bytes it points to.
    A [DynBuf] is its first [size] bytes, its allocated size and its error flag;
    [realloc] is the environment: a function telling whether a request of a
    given size succeeds. *)
From S2P Require Import Prelude.

(** ** Bounded string copies *)

(** The copy loop of [pstrcpy]: [room] bytes may still be written before the
    terminator. *)
Fixpoint pstrcpy_loop (room : nat) (str : list Z) {struct str} : list Z :=
  match str with
  | [] => []
  | c :: str' =>
      if c =? 0 then []
      else match room with O => [] | S room' => c :: pstrcpy_loop room' str' end
  end.

(** [buf] is the destination array; bytes after the terminator keep their value. *)
Definition pstrcpy (buf : list Z) (buf_size : Z) (str : list Z) : list Z :=
  if buf_size <=? 0 then buf
  else let s := pstrcpy_loop (Z.to_nat (buf_size - 1)) str in
       s ++ [0] ++ drop (S (length s)) buf.

Definition pstrcat (buf : list Z) (buf_size : Z) (s : list Z) : list Z :=
  let len := Z.of_nat (strlen buf) in
  if len <? buf_size
  then take (strlen buf) buf ++ pstrcpy (drop (strlen buf) buf) (buf_size - len) s
  else buf.

(** The suffix of [str] after [val], when [str] starts with it. *)
Fixpoint strstart (str val : list Z) : option (list Z) :=
  match val with
  | [] => Some str
  | q :: val' =>
      if q =? 0 then Some str
      else match str with
           | p :: str' => if p =? q then strstart str' val' else None
           | [] => None
           end
  end.

Definition has_suffix (str suffix : list Z) : bool :=
  let len := strlen str in
  let slen := strlen suffix in
  (slen <=? len)%nat && bool_decide (take slen (drop (len - slen) (c_str str)) = c_str suffix).

Lemma pstrcpy_loop_eq room str : pstrcpy_loop room str = take room (c_str str).
Proof.
  revert room. induction str as [|c str IH]; intros room; cbn [pstrcpy_loop c_str].
  { by rewrite take_nil. }
  destruct (c =? 0); [by rewrite take_nil|]. destruct room; cbn; [done|]. by rewrite IH.
Qed.

Lemma pstrcpy_c_str buf buf_size str :
  0 < buf_size ->
  c_str (pstrcpy buf buf_size str) = take (Z.to_nat (buf_size - 1)) (c_str str).
Proof.
  intros Hs. unfold pstrcpy. destruct (Z.leb_spec buf_size 0); [lia|].
  rewrite pstrcpy_loop_eq. apply c_str_app_nul, Forall_take, c_str_Forall.
Qed.

Lemma pstrcpy_length buf buf_size str :
  0 < buf_size -> Z.of_nat (length buf) = buf_size -> length (pstrcpy buf buf_size str) = length buf.
Proof.
  intros Hs Hl. unfold pstrcpy. destruct (Z.leb_spec buf_size 0); [lia|].
  rewrite pstrcpy_loop_eq, !length_app, length_drop, length_take. cbn. lia.
Qed.

Lemma c_str_app s t : Forall (fun c => c <> 0) s -> c_str (s ++ t) = s ++ c_str t.
Proof.
  induction 1 as [|c s Hc _ IH]; cbn; [done|].
  rewrite (proj2 (Z.eqb_neq _ _) Hc). by rewrite IH.
Qed.

Lemma take_strlen buf : take (strlen buf) buf = c_str buf.
Proof.
  unfold strlen. induction buf as [|c buf IH]; cbn; [done|].
  destruct (c =? 0); cbn; [done|]. by rewrite IH.
Qed.

(** [pstrcat] into a [buf_size] buffer that holds a C string: the result is
    the concatenation cut to [buf_size - 1] bytes, always terminated, and the
    buffer is never overrun. *)
Theorem pstrcat_truncates (buf s : list Z) (buf_size : Z)
    (Hsize : Z.of_nat (length buf) = buf_size) (Hterm : Z.of_nat (strlen buf) < buf_size) :
  c_str (pstrcat buf buf_size s) = take (Z.to_nat (buf_size - 1)) (c_str buf ++ c_str s) /\
  length (pstrcat buf buf_size s) = length buf.
Proof.
  unfold pstrcat. destruct (Z.ltb_spec (Z.of_nat (strlen buf)) buf_size); [|lia].
  assert (strlen buf <= length buf)%nat by apply c_str_length. split.
  - rewrite take_strlen, c_str_app, pstrcpy_c_str by (apply c_str_Forall || lia).
    rewrite take_app. rewrite (take_ge (c_str buf)) by (unfold strlen in *; lia).
    f_equal. f_equal. unfold strlen. lia.
  - rewrite length_app, pstrcpy_length, length_take, length_drop by (rewrite ?length_drop; lia). lia.
Qed.

Lemma pstrcat_truncates_witness :
  c_str (pstrcat [97; 98; 0; 9; 9] 5 [99; 100; 101]) = [97; 98; 99; 100] /\
  length (pstrcat [97; 98; 0; 9; 9] 5 [99; 100; 101]) = 5%nat.
Proof. apply (pstrcat_truncates [97; 98; 0; 9; 9] [99; 100; 101] 5); cbn; lia. Defined.

(** ** The dynamic buffer *)

Record DynBuf := mk_dbuf {
  db_data : list Z;
  db_allocated_size : Z;
  db_error : bool }.

Definition db_size (s : DynBuf) : Z := Z.of_nat (length (db_data s)).

Definition dbuf_init : DynBuf := mk_dbuf [] 0 false.

Section DynBuf.
Context (realloc_ok : Z -> bool).

(** [true] is the return value 0. *)
Definition dbuf_claim (s : DynBuf) (len : Z) : DynBuf * bool :=
  let new_size := u64 (db_size s + len) in
  if new_size <? len then (s, false)
  else if db_allocated_size s <? new_size then
    if db_error s then (s, false)
    else
      let size := u64 (db_allocated_size s + db_allocated_size s / 2) in
      if size <? db_allocated_size s then (s, false)
      else
        let new_size := if new_size <? size then size else new_size in
        if realloc_ok new_size
        then (mk_dbuf (db_data s) new_size (db_error s), true)
        else (mk_dbuf (db_data s) (db_allocated_size s) true, false)
  else (s, true).

Definition dbuf_put (s : DynBuf) (data : list Z) : DynBuf * bool :=
  let len := Z.of_nat (length data) in
  let '(s', ok) := if u64 (db_allocated_size s - db_size s) <? len then dbuf_claim s len else (s, true) in
  if ok then (mk_dbuf (db_data s' ++ data) (db_allocated_size s') (db_error s'), true)
  else (s', false).

Definition dbuf_put_self (s : DynBuf) (offset len : nat) : DynBuf * bool :=
  let '(s', ok) := if u64 (db_allocated_size s - db_size s) <? Z.of_nat len
                   then dbuf_claim s (Z.of_nat len) else (s, true) in
  if ok then (mk_dbuf (db_data s' ++ take len (drop offset (db_data s')))
                (db_allocated_size s') (db_error s'), true)
  else (s', false).

(** The [n] bytes of an integer in memory (little-endian). *)
Fixpoint le_bytes (n : nat) (v : Z) : list Z :=
  match n with O => [] | S n' => v mod 256 :: le_bytes n' (v / 256) end.

Definition dbuf_putc (s : DynBuf) (c : Z) : DynBuf * bool := dbuf_put s [u8 c].
Definition dbuf_put_u16 (s : DynBuf) (val : Z) : DynBuf * bool := dbuf_put s (le_bytes 2 (u16 val)).
Definition dbuf_put_u32 (s : DynBuf) (val : Z) : DynBuf * bool := dbuf_put s (le_bytes 4 (u32 val)).
Definition dbuf_put_u64 (s : DynBuf) (val : Z) : DynBuf * bool := dbuf_put s (le_bytes 8 (u64 val)).
Definition dbuf_putstr (s : DynBuf) (str : list Z) : DynBuf * bool := dbuf_put s (c_str str).

(** [text] is what [vsnprintf] formats; below 128 bytes it goes through the
    stack buffer, else it is formatted in place after a claim. *)
Definition dbuf_printf (s : DynBuf) (text : list Z) : DynBuf * bool :=
  let len := Z.of_nat (length text) in
  if len <? 128 then dbuf_put s text
  else
    let '(s', ok) := dbuf_claim s (len + 1) in
    if ok then (mk_dbuf (db_data s' ++ take (Z.to_nat (db_allocated_size s' - db_size s' - 1)) text)
                  (db_allocated_size s') (db_error s'), true)
    else (s', false).

Definition dbuf_free (s : DynBuf) : DynBuf := dbuf_init.

(** *** Invariant: the data fits the allocation, a [size_t] *)
Definition dbuf_wf (s : DynBuf) : Prop := db_size s <= db_allocated_size s < 2 ^ 64.

Lemma dbuf_claim_spec s len :
  dbuf_wf s -> 0 <= len ->
  let '(s', ok) := dbuf_claim s len in
  db_data s' = db_data s /\ dbuf_wf s' /\ db_allocated_size s <= db_allocated_size s' /\
  (ok = true -> db_size s + len <= db_allocated_size s' /\ db_error s' = db_error s) /\
  (db_error s = true -> ok = true -> s' = s).
Proof.
  intros Hwf Hlen. pose proof Hwf as [Hle Hlt]. unfold dbuf_claim.
  assert (0 <= db_size s) by (unfold db_size; lia).
  pose proof (u64_range (db_size s + len)) as Hnr.
  destruct (Z.ltb_spec (u64 (db_size s + len)) len) as [|Hov]; [repeat split; done|].
  assert (db_size s + len < 2 ^ 64 -> u64 (db_size s + len) = db_size s + len) as Hsmall
    by (intros; apply u64_id; lia).
  assert (db_size s + len < 2 ^ 64) as Hfit.
  { destruct (Z.ltb_spec (db_size s + len) (2 ^ 64)); [done|].
    destruct (Z.ltb_spec len (2 ^ 64)); [|lia]. exfalso.
    unfold u64 in Hov. rewrite <- (Z.mod_unique _ (2 ^ 64) 1 (db_size s + len - 2 ^ 64)) in Hov by lia. lia. }
  rewrite Hsmall in * by done.
  destruct (Z.ltb_spec (db_allocated_size s) (db_size s + len)) as [Hbig|]; [|repeat split; done || lia].
  destruct (db_error s) eqn:He; [repeat split; done|].
  destruct (Z.ltb_spec (u64 (db_allocated_size s + db_allocated_size s / 2)) (db_allocated_size s));
    [repeat split; done|].
  set (ns := if _ <? _ then _ else _).
  assert (db_size s + len <= ns /\ ns < 2 ^ 64 /\ db_allocated_size s <= ns) as (Hns1 & Hns2 & Hns3).
  { pose proof (u64_range (db_allocated_size s + db_allocated_size s / 2)).
    unfold ns. case_bool; lia. }
  destruct (realloc_ok ns); cbn; (split; [done|]); unfold dbuf_wf, db_size in *; cbn in *;
    repeat split; done || lia.
Qed.

Lemma dbuf_put_ok s data :
  dbuf_wf s -> Z.of_nat (length data) < 2 ^ 64 ->
  let '(s', ok) := dbuf_put s data in
  dbuf_wf s' /\ db_data s' = (if ok then db_data s ++ data else db_data s).
Proof.
  intros Hwf Hd. pose proof Hwf as [Hle Hlt]. unfold dbuf_put.
  assert (0 <= db_size s) by (unfold db_size; lia).
  rewrite u64_id by lia.
  destruct (Z.ltb_spec (db_allocated_size s - db_size s) (Z.of_nat (length data))).
  - pose proof (dbuf_claim_spec s (Z.of_nat (length data)) Hwf ltac:(lia)) as Hc.
    destruct (dbuf_claim s (Z.of_nat (length data))) as [s' []].
    + destruct Hc as (Hda & Hwf' & _ & Hok & _). destruct (Hok eq_refl) as [Hroom _].
      cbn. rewrite Hda. split; [|done]. unfold dbuf_wf, db_size in *. cbn. rewrite length_app. lia.
    + by destruct Hc as (-> & ? & _).
  - cbn. split; [|done]. unfold dbuf_wf, db_size in *. cbn. rewrite length_app. lia.
Qed.
End DynBuf.

(** A sequence of appends that stops reporting at nothing: every result is kept. *)
Fixpoint dbuf_puts (realloc_ok : Z -> bool) (s : DynBuf) (chunks : list (list Z)) :
    DynBuf * list bool :=
  match chunks with
  | [] => (s, [])
  | d :: ds =>
      let '(s1, ok) := dbuf_put realloc_ok s d in
      let '(s2, oks) := dbuf_puts realloc_ok s1 ds in (s2, ok :: oks)
  end.

(** The slack of the growth policy: at most half of the data. *)
Definition dbuf_tight (s : DynBuf) : Prop := 2 * db_allocated_size s <= 3 * db_size s.

Lemma dbuf_put_tight rok s data :
  dbuf_wf s -> dbuf_tight s -> db_size s + Z.of_nat (length data) < 2 ^ 62 ->
  dbuf_tight (dbuf_put rok s data).1 /\
  (db_error s = false -> (forall n, n < 2 ^ 63 -> rok n = true) ->
   (dbuf_put rok s data).2 = true /\ db_error (dbuf_put rok s data).1 = false).
Proof.
  intros [Hle Hlt] Ht Hsz. unfold dbuf_tight in *.
  assert (0 <= db_size s) by (unfold db_size; lia).
  unfold dbuf_put, dbuf_claim. rewrite !(u64_id (db_allocated_size s - db_size s)) by lia.
  rewrite (u64_id (db_size s + Z.of_nat (length data))) by lia.
  assert (2 * (db_allocated_size s / 2) <= db_allocated_size s /\ 0 <= db_allocated_size s / 2)
    as (Hh2 & Hh0) by (split; mod_lia).
  rewrite (u64_id (db_allocated_size s + _)) by lia.
  assert (forall a e, db_size (mk_dbuf (db_data s ++ data) a e) = db_size s + Z.of_nat (length data)) as Hsz'.
  { intros. unfold db_size. cbn. rewrite length_app. lia. }
  destruct (Z.ltb_spec (db_allocated_size s - db_size s) (Z.of_nat (length data))) as [Hc|Hc].
  2:{ cbn [fst snd db_error]. rewrite Hsz'. cbn [db_allocated_size]. split; [lia|done]. }
  destruct (Z.ltb_spec (db_size s + Z.of_nat (length data)) (Z.of_nat (length data))); [lia|].
  destruct (Z.ltb_spec (db_allocated_size s) (db_size s + Z.of_nat (length data))); [|lia].
  destruct (db_error s) eqn:He; [cbn; split; [lia|done]|].
  destruct (Z.ltb_spec (db_allocated_size s + db_allocated_size s / 2) (db_allocated_size s)); [lia|].
  set (ns := if _ <? _ then _ else _).
  assert (2 * ns <= 3 * (db_size s + Z.of_nat (length data)) /\ ns < 2 ^ 63) as [Hn1 Hn2]
    by (unfold ns; case_bool; lia).
  destruct (rok ns) eqn:Hr; cbn [fst snd].
  - rewrite Hsz'. cbn [db_allocated_size db_error]. done.
  - unfold db_size in *. cbn [db_allocated_size db_data]. split; [lia|]. intros _ Hok.
    rewrite Hok in Hr by done. done.
Qed.

(** The chunks whose append returned 0. *)
Fixpoint accepted (chunks : list (list Z)) (oks : list bool) : list Z :=
  match chunks, oks with
  | d :: ds, ok :: oks' => (if ok then d else []) ++ accepted ds oks'
  | _, _ => []
  end.

Lemma dbuf_puts_spec rok s chunks :
  dbuf_wf s -> dbuf_tight s -> db_size s + Z.of_nat (length (concat chunks)) < 2 ^ 62 ->
  let '(s', oks) := dbuf_puts rok s chunks in
  dbuf_wf s' /\ dbuf_tight s' /\ db_data s' = db_data s ++ accepted chunks oks /\
  (db_error s = false -> (forall n, n < 2 ^ 63 -> rok n = true) -> Forall (eq true) oks).
Proof.
  revert s. induction chunks as [|d ds IH]; intros s Hwf Ht Hsz; cbn [dbuf_puts concat] in *.
  { cbn. rewrite app_nil_r. done. }
  rewrite length_app in Hsz.
  pose proof (dbuf_put_ok rok s d Hwf ltac:(unfold db_size in *; lia)) as Hput.
  pose proof (dbuf_put_tight rok s d Hwf Ht ltac:(lia)) as Htight.
  destruct (dbuf_put rok s d) as [s1 ok]. cbn [fst snd] in *.
  destruct Hput as [Hwf1 Hd1]. destruct Htight as [Ht1 Hok1].
  specialize (IH s1 Hwf1 Ht1). destruct (dbuf_puts rok s1 ds) as [s2 oks].
  destruct IH as (Hwf2 & Ht2 & Hd2 & Hok2).
  { unfold db_size in *. rewrite Hd1. destruct ok; rewrite ?length_app; lia. }
  split; [done|]. split; [done|]. split.
  - rewrite Hd2, Hd1. cbn [accepted]. destruct ok; [by rewrite app_assoc|done].
  - intros He Hrok. destruct (Hok1 He Hrok) as [-> He1]. constructor; [done|]. auto.
Qed.

(** Appending to a dynamic buffer: after any sequence of appends, whatever
    reallocations failed, the buffer holds exactly the chunks whose append
    returned 0, in order, and its allocation covers the data and exceeds it by
    at most half; when reallocations below 2^63 bytes succeed, every append
    does. *)
Theorem dbuf_appends (realloc_ok : Z -> bool) (chunks : list (list Z))
    (Hsmall : Z.of_nat (length (concat chunks)) < 2 ^ 62) :
  let '(s, oks) := dbuf_puts realloc_ok dbuf_init chunks in
  db_size s <= db_allocated_size s /\ 2 * db_allocated_size s <= 3 * db_size s /\
  db_data s = accepted chunks oks /\
  ((forall n, n < 2 ^ 63 -> realloc_ok n = true) -> Forall (eq true) oks).
Proof.
  pose proof (dbuf_puts_spec realloc_ok dbuf_init chunks ltac:(done) ltac:(done)
    ltac:(unfold db_size; cbn [dbuf_init db_data length]; lia)) as H.
  destruct (dbuf_puts realloc_ok dbuf_init chunks) as [s oks].
  destruct H as ([? ?] & ? & ? & Hok). repeat split; try done. by apply Hok.
Qed.

Lemma dbuf_appends_witness :
  let '(s, oks) := dbuf_puts (fun n => n <? 4) dbuf_init [[1; 2]; [3]; [4; 5]] in
  db_data s = [1; 2; 3] /\ oks = [true; true; false].
Proof.
  pose proof (dbuf_appends (fun n => n <? 4) [[1; 2]; [3]; [4; 5]] ltac:(cbn; lia)) as H.
  destruct (dbuf_puts _ _ _) as [s oks] eqn:E. vm_compute in E. injection E as <- <-.
  destruct H as (_ & _ & H & _). split; [exact H|reflexivity].
Defined.
