(* ===== verification/Utf8.v ===== *)
(** * UTF-8 encoding and decoding (cutils.c)

    [unicode_to_utf8] writes the up-to-6-byte encoding of a 31-bit code;
    [unicode_from_utf8] reads one character and returns the code with the bytes
    after it, or [None] for the return value -1. *)
From S2P Require Import Prelude.

(** [((c >> k) & 0x3f) | 0x80] *)
Definition utf8_cont (c k : Z) : Z := u8 (Z.lor (Z.land (Z.shiftr c k) 63) 128).

Definition unicode_to_utf8 (c : Z) : list Z :=
  if c <? 0x80 then [u8 c]
  else
    let t := [utf8_cont c 0] in
    if c <? 0x800 then u8 (Z.lor (Z.shiftr c 6) 0xc0) :: t
    else
      let t := utf8_cont c 6 :: t in
      if c <? 0x10000 then u8 (Z.lor (Z.shiftr c 12) 0xe0) :: t
      else
        let t := utf8_cont c 12 :: t in
        if c <? 0x200000 then u8 (Z.lor (Z.shiftr c 18) 0xf0) :: t
        else
          let t := utf8_cont c 18 :: t in
          if c <? 0x4000000 then u8 (Z.lor (Z.shiftr c 24) 0xf8) :: t
          else if c <? 0x80000000 then
            u8 (Z.lor (Z.shiftr c 30) 0xfc) :: utf8_cont c 24 :: t
          else [].

Definition utf8_min_code : list Z := [0x80; 0x800; 0x10000; 0x00200000; 0x04000000].
Definition utf8_first_code_mask : list Z := [0x1f; 0xf; 0x7; 0x3; 0x1].

(** The [switch] on the first byte: how many continuation bytes follow. *)
Definition utf8_length (c : Z) : option nat :=
  if (0xc0 <=? c) && (c <=? 0xdf) then Some 1%nat
  else if (0xe0 <=? c) && (c <=? 0xef) then Some 2%nat
  else if (0xf0 <=? c) && (c <=? 0xf7) then Some 3%nat
  else if (0xf8 <=? c) && (c <=? 0xfb) then Some 4%nat
  else if (0xfc <=? c) && (c <=? 0xfd) then Some 5%nat
  else None.

Fixpoint utf8_loop (i : nat) (c : Z) (p : list Z) : option (Z * list Z) :=
  match i with
  | O => Some (c, p)
  | S i' =>
      match p with
      | [] => None
      | b :: p' =>
          if (b <? 0x80) || (0xc0 <=? b) then None
          else utf8_loop i' (Z.lor (Z.shiftl c 6) (Z.land b 0x3f)) p'
      end
  end.

Definition unicode_from_utf8 (p : list Z) (max_len : Z) : option (Z * list Z) :=
  match p with
  | [] => None
  | c :: p' =>
      if c <? 0x80 then Some (c, p')
      else match utf8_length c with
           | None => None
           | Some l =>
               if max_len - 1 <? Z.of_nat l then None
               else
                 let c0 := Z.land c (default 0 (utf8_first_code_mask !! (l - 1)%nat)) in
                 match utf8_loop l c0 p' with
                 | None => None
                 | Some (c', rest) =>
                     if c' <? default 0 (utf8_min_code !! (l - 1)%nat) then None
                     else Some (c', rest)
                 end
           end
  end.

(** ** The bytes as arithmetic *)

Lemma utf8_cont_eq c k : 0 <= k -> utf8_cont c k = 128 + (c / 2 ^ k) mod 64.
Proof.
  intros Hk. unfold utf8_cont. rewrite Z.shiftr_div_pow2 by lia.
  change 63 with (Z.ones 6). rewrite Z.land_ones by lia.
  pose proof (Z.mod_pos_bound (c / 2 ^ k) (2 ^ 6) ltac:(lia)).
  rewrite Z.lor_comm. change 128 with (2 * 2 ^ 6). rewrite lor_mul_small by lia.
  rewrite u8_id by lia. lia.
Qed.

(** A first byte: the tag is [a * 2^n], the payload the bits above [k]. *)
Lemma utf8_head_eq c k a n tag :
  0 <= k -> 0 <= n <= 8 -> tag = a * 2 ^ n -> 0 <= a -> a * 2 ^ n + 2 ^ n <= 256 ->
  0 <= c / 2 ^ k < 2 ^ n ->
  u8 (Z.lor (Z.shiftr c k) tag) = tag + c / 2 ^ k.
Proof.
  intros Hk Hn -> Ha Hle Hc. rewrite Z.shiftr_div_pow2, Z.lor_comm, lor_mul_small by lia.
  apply u8_id. change (2 ^ 8) with 256. nia.
Qed.

Lemma utf8_loop_step i c b p :
  0x80 <= b < 0xc0 -> utf8_loop (S i) c (b :: p) = utf8_loop i (c * 64 + b mod 64) p.
Proof.
  intros Hb. cbn [utf8_loop]. destruct (Z.ltb_spec b 0x80); [lia|].
  destruct (Z.leb_spec 0xc0 b); [lia|]. cbn [orb]. f_equal.
  change 0x3f with (Z.ones 6). rewrite Z.land_ones by lia.
  pose proof (Z.mod_pos_bound b (2 ^ 6) ltac:(lia)). by rewrite lor_shiftl_small by lia.
Qed.

Lemma utf8_loop_cont i c d k p :
  0 <= k -> utf8_loop (S i) c (utf8_cont d k :: p) = utf8_loop i (c * 64 + (d / 2 ^ k) mod 64) p.
Proof.
  intros Hk. rewrite utf8_cont_eq by done.
  pose proof (Z.mod_pos_bound (d / 2 ^ k) 64 ltac:(lia)). rewrite utf8_loop_step by lia.
  f_equal. f_equal. rewrite <- Zplus_mod_idemp_l. change (128 mod 64) with 0.
  rewrite Z.add_0_l. by apply Z.mod_small.
Qed.

(** A continuation byte of [c] itself puts the next six bits of [c] back. *)
Lemma utf8_loop_join i c k p :
  0 <= k -> utf8_loop (S i) (c / 2 ^ (k + 6)) (utf8_cont c k :: p) = utf8_loop i (c / 2 ^ k) p.
Proof.
  intros Hk. rewrite utf8_loop_cont by done. f_equal.
  rewrite Z.pow_add_r, <- Z.div_div by lia. change (2 ^ 6) with 64.
  pose proof (Z.div_mod (c / 2 ^ k) 64). lia.
Qed.

(** The bits of [c] above [k]. *)
Lemma div_pow_lt c k n : 0 <= k -> 0 <= n -> 0 <= c < 2 ^ (k + n) -> 0 <= c / 2 ^ k < 2 ^ n.
Proof.
  intros Hk Hn Hc. split; [apply Z.div_pos; lia|].
  apply Z.div_lt_upper_bound; [lia|]. rewrite <- Z.pow_add_r by lia. lia.
Qed.

(** Dispatch on a first byte of [l] continuation bytes. *)
Lemma from_utf8_head c p l max_len c0 :
  0x80 <= c -> utf8_length c = Some l -> Z.of_nat l < max_len ->
  Z.land c (default 0 (utf8_first_code_mask !! (l - 1)%nat)) = c0 ->
  unicode_from_utf8 (c :: p) max_len =
  match utf8_loop l c0 p with
  | None => None
  | Some (c', rest) =>
      if c' <? default 0 (utf8_min_code !! (l - 1)%nat) then None else Some (c', rest)
  end.
Proof.
  intros Hc Hl Hm Hc0. unfold unicode_from_utf8.
  destruct (Z.ltb_spec c 0x80); [lia|]. rewrite Hl.
  destruct (Z.ltb_spec (max_len - 1) (Z.of_nat l)); [lia|]. by rewrite Hc0.
Qed.

(** The first byte of an [l]-continuation encoding is recognised and gives the
    payload bits back. *)
Lemma from_utf8_tagged x p l max_len a n tag :
  (1 <= l)%nat -> 0 <= n -> tag = a * 2 ^ n -> 0x80 <= tag ->
  0 <= x < 2 ^ n -> default 0 (utf8_first_code_mask !! (l - 1)%nat) = Z.ones n ->
  utf8_length (tag + x) = Some l -> Z.of_nat l < max_len ->
  unicode_from_utf8 ((tag + x) :: p) max_len =
  match utf8_loop l x p with
  | None => None
  | Some (c', rest) =>
      if c' <? default 0 (utf8_min_code !! (l - 1)%nat) then None else Some (c', rest)
  end.
Proof.
  intros Hl Hn Ht Htag Hx Hmask Hlen Hm. apply from_utf8_head; try done; [lia|].
  rewrite Hmask, Z.land_ones by lia. subst tag.
  rewrite Z.add_comm, Z.mod_add by lia. by apply Z.mod_small.
Qed.

(** The [switch] on a first byte: decided by the range the byte is in. *)
Ltac utf8_len :=
  match goal with
  | H : 0 <= ?x < _ |- utf8_length (_ + ?x) = _ =>
      clear - H; revert H; generalize x; clear; intros y Hy; unfold utf8_length;
      repeat (case_bool; cbn [andb]; try lia); done
  end.

(** Decode an encoding whose head has been normalised. *)
Ltac utf8_decode c k l a n :=
  rewrite (from_utf8_tagged (c / 2 ^ k) _ l _ a n) by (first [done | lia | utf8_len]);
  repeat match goal with
         | |- context [utf8_loop (S _) (c / 2 ^ ?k1) (utf8_cont c ?k2 :: _)] =>
             change (c / 2 ^ k1) with (c / 2 ^ (k2 + 6)); rewrite (utf8_loop_join _ c k2 _) by lia
         end;
  rewrite Z.div_1_r; cbn; case_bool; [lia|done].

(** C10: encode then decode: every code below 2^31 is read back from its
    encoding, whatever follows it and for any [max_len] covering the encoding,
    leaving exactly what follows; the encoding has 1 to 6 bytes. *)
Theorem utf8_roundtrip (c max_len : Z) (rest : list Z)
    (Hc : 0 <= c < 2 ^ 31) (Hmax : Z.of_nat (length (unicode_to_utf8 c)) <= max_len) :
  unicode_from_utf8 (unicode_to_utf8 c ++ rest) max_len = Some (c, rest) /\
  (1 <= length (unicode_to_utf8 c) <= 6)%nat.
Proof.
  unfold unicode_to_utf8 in *.
  destruct (Z.ltb_spec c 0x80) as [H0|H0].
  { rewrite u8_id in * by lia. cbn. destruct (Z.ltb_spec c 0x80); [|lia]. split; [done|lia]. }
  destruct (Z.ltb_spec c 0x800) as [H1|H1].
  { pose proof (div_pow_lt c 6 5 ltac:(lia) ltac:(lia) ltac:(lia)) as Hx.
    rewrite (utf8_head_eq c 6 6 5 0xc0) in * by (try done; lia).
    cbn [length app] in *. split; [|lia]. utf8_decode c 6 1%nat 6 5. }
  destruct (Z.ltb_spec c 0x10000) as [H2|H2].
  { pose proof (div_pow_lt c 12 4 ltac:(lia) ltac:(lia) ltac:(lia)) as Hx.
    rewrite (utf8_head_eq c 12 14 4 0xe0) in * by (try done; lia).
    cbn [length app] in *. split; [|lia]. utf8_decode c 12 2%nat 14 4. }
  destruct (Z.ltb_spec c 0x200000) as [H3|H3].
  { pose proof (div_pow_lt c 18 3 ltac:(lia) ltac:(lia) ltac:(lia)) as Hx.
    rewrite (utf8_head_eq c 18 30 3 0xf0) in * by (try done; lia).
    cbn [length app] in *. split; [|lia]. utf8_decode c 18 3%nat 30 3. }
  destruct (Z.ltb_spec c 0x4000000) as [H4|H4].
  { pose proof (div_pow_lt c 24 2 ltac:(lia) ltac:(lia) ltac:(lia)) as Hx.
    rewrite (utf8_head_eq c 24 62 2 0xf8) in * by (try done; lia).
    cbn [length app] in *. split; [|lia]. utf8_decode c 24 4%nat 62 2. }
  { destruct (Z.ltb_spec c 0x80000000); [|lia].
    pose proof (div_pow_lt c 30 1 ltac:(lia) ltac:(lia) ltac:(lia)) as Hx.
    rewrite (utf8_head_eq c 30 126 1 0xfc) in * by (try done; lia).
    cbn [length app] in *. split; [|lia]. utf8_decode c 30 5%nat 126 1. }
Qed.

Lemma utf8_roundtrip_witness :
  unicode_from_utf8 (unicode_to_utf8 0x20AC ++ [65]) 6 = Some (0x20AC, [65]) /\
  (1 <= length (unicode_to_utf8 0x20AC) <= 6)%nat.
Proof. apply (utf8_roundtrip 0x20AC 6 [65]); [lia|cbn; lia]. Defined.
