(* ===== verification/IntToA.v ===== *)
(** * Integers to text (dtoa.c)

    The integer printers behind Number.prototype.toString and the BigInt fast
    path.  A printer returns the characters it writes; [None] is a write below
    the start of its local buffer. *)
From S2P Require Import Prelude Digits.

(** [for(i = len - 1; i >= 0; i--)]: [len] decimal digits of [n]. *)
Fixpoint u32toa_len (n : Z) (len : nat) (buf : list Z) : list Z :=
  match len with
  | O => buf
  | S i => u32toa_len (n / 10) i (n mod 10 + 48 :: buf)
  end.

Fixpoint u64toa_bin_len (n radix_bits : Z) (len : nat) (buf : list Z) : list Z :=
  match len with
  | O => buf
  | S i =>
      let mask := Z.shiftl 1 radix_bits - 1 in
      let digit := Z.land n mask in
      u64toa_bin_len (Z.shiftr n radix_bits) radix_bits i (digit_char digit :: buf)
  end.

(** [n]: a 32-bit limb. *)
Fixpoint limb_to_a_loop (n radix : Z) (len : nat) (buf : list Z) : list Z :=
  match len with
  | O => buf
  | S i => limb_to_a_loop (n / radix) radix i (digit_char (n mod radix) :: buf)
  end.
Definition limb_to_a (n radix : Z) (len : nat) : list Z :=
  if radix =? 10 then u32toa_len n len [] else limb_to_a_loop n radix len [].

(** [do { *--q = ...; n /= radix; } while (n != 0)] in a buffer of [room] bytes. *)
Fixpoint digits_backwards (room : nat) (n radix : Z) (q : list Z) : option (list Z) :=
  match room with
  | O => None
  | S room' =>
      let q := digit_char (n mod radix) :: q in
      let n := n / radix in
      if n =? 0 then Some q else digits_backwards room' n radix q
  end.

Definition u32toa (n : Z) : option (list Z) := digits_backwards 10 n 10 [].

Definition i32toa (n : Z) : option (list Z) :=
  if 0 <=? n then u32toa n else cons 45 <$> u32toa (u32 (- u32 n)).

Definition u64toa (n : Z) : option (list Z) :=
  if n <? 0x100000000 then u32toa n
  else
    let n1 := n / 1000000000 in
    let n := n mod 1000000000 in
    if 0x100000000 <=? n1 then
      let n2 := u32 (n1 / 1000000000) in
      let n1 := n1 mod 1000000000 in
      let '(hi, n2) := if 10 <=? n2 then ([n2 / 10 + 48], n2 mod 10) else ([], n2) in
      Some (hi ++ [n2 + 48] ++ u32toa_len (u32 n1) 9 [] ++ u32toa_len (u32 n) 9 [])
    else
      q ← u32toa (u32 n1); Some (q ++ u32toa_len (u32 n) 9 []).

Definition i64toa (n : Z) : option (list Z) :=
  if 0 <=? n then u64toa n else cons 45 <$> u64toa (u64 (- u64 n)).

(** [clz64(n)] for [n != 0]. *)
Definition clz64 (n : Z) : Z := 63 - Z.log2 n.

Definition u64toa_radix (n radix : Z) : option (list Z) :=
  if radix =? 10 then u64toa n
  else if Z.land radix (radix - 1) =? 0 then
    let radix_bits := Z.log2 radix in (* 31 - clz32(radix) *)
    let l := if n =? 0 then 1 else (64 - clz64 n + radix_bits - 1) / radix_bits in
    Some (u64toa_bin_len n radix_bits (Z.to_nat l) [])
  else digits_backwards 41 n radix [].

Definition i64toa_radix (n radix : Z) : option (list Z) :=
  if 0 <=? n then u64toa_radix n radix else cons 45 <$> u64toa_radix (u64 (- u64 n)) radix.

(** ** Each loop prints the digits of the number *)

Lemma u32toa_len_eq n len buf : 0 <= n ->
  u32toa_len n len buf = (digit_char <$> fixed_digits 10 len n) ++ buf.
Proof.
  revert n buf. induction len as [|len IH]; intros n buf Hn; cbn [u32toa_len fixed_digits]; [done|].
  rewrite IH by (apply Z.div_pos; lia). rewrite fmap_app, <- app_assoc. cbn. do 3 f_equal.
  unfold digit_char. pose proof (Z.mod_pos_bound n 10). case_bool; lia.
Qed.

Lemma limb_to_a_loop_eq n radix len buf : 2 <= radix -> 0 <= n ->
  limb_to_a_loop n radix len buf = (digit_char <$> fixed_digits radix len n) ++ buf.
Proof.
  intros Hr. revert n buf. induction len as [|len IH]; intros n buf Hn; cbn [limb_to_a_loop fixed_digits]; [done|].
  rewrite IH by (apply Z.div_pos; lia). by rewrite fmap_app, <- app_assoc.
Qed.

Lemma u64toa_bin_len_eq n b len buf : 1 <= b -> 0 <= n ->
  u64toa_bin_len n b len buf = (digit_char <$> fixed_digits (2 ^ b) len n) ++ buf.
Proof.
  intros Hb. revert n buf. induction len as [|len IH]; intros n buf Hn; cbn [u64toa_bin_len fixed_digits]; [done|].
  rewrite Z.shiftr_div_pow2 by lia. rewrite IH by (apply Z.div_pos; lia).
  rewrite fmap_app, <- app_assoc. cbn. do 3 f_equal.
  rewrite Z.shiftl_1_l. replace (2 ^ b - 1) with (Z.ones b) by (rewrite Z.ones_equiv; lia).
  by rewrite Z.land_ones by lia.
Qed.

Lemma digits_backwards_eq room n radix q :
  2 <= radix -> 0 <= n < radix ^ Z.of_nat room -> (1 <= room)%nat ->
  digits_backwards room n radix q = Some ((digit_char <$> to_digits radix n) ++ q).
Proof.
  intros Hr. revert n q. induction room as [|room IH]; intros n q Hn Hroom; [lia|].
  cbn [digits_backwards]. rewrite (to_digits_eq radix n) by lia.
  rewrite Nat2Z.inj_succ, Z.pow_succ_r in Hn by lia.
  destruct (Z.ltb_spec n radix).
  - rewrite Z.div_small, Z.mod_small by lia. done.
  - assert (1 <= n / radix) by (apply Z.div_le_lower_bound; lia).
    destruct (Z.eqb_spec (n / radix) 0); [lia|].
    assert (n / radix < radix ^ Z.of_nat room) by (apply Z.div_lt_upper_bound; lia).
    destruct room as [|room]; [cbn in *; lia|].
    rewrite IH by lia. by rewrite fmap_app, <- app_assoc.
Qed.

Lemma u32toa_eq n : 0 <= n < 2 ^ 32 -> u32toa n = Some (digit_char <$> to_digits 10 n).
Proof. intros Hn. unfold u32toa. rewrite digits_backwards_eq, app_nil_r by lia. done. Qed.

Lemma u64toa_eq n : 0 <= n < 2 ^ 64 -> u64toa n = Some (digit_char <$> to_digits 10 n).
Proof.
  intros Hn. unfold u64toa. case_bool; [apply u32toa_eq; lia|].
  set (n1 := n / 1000000000). assert (4 <= n1 < 18446744074) as Hn1 by (subst n1; mod_lia).
  rewrite (to_digits_split 10 9 n) by (fold n1 || idtac; try lia; change (10 ^ Z.of_nat 9) with 1000000000; fold n1; lia).
  change (10 ^ Z.of_nat 9) with 1000000000. fold n1.
  rewrite (u32_id (n mod _)) by mod_lia.
  assert (u32toa_len (n mod 1000000000) 9 [] = digit_char <$> fixed_digits 10 9 n) as ->.
  { rewrite u32toa_len_eq, app_nil_r by mod_lia. f_equal. exact (fixed_digits_mod 10 9 n ltac:(lia)). }
  rewrite fmap_app. destruct (Z.leb_spec 0x100000000 n1).
  - rewrite (to_digits_split 10 9 n1) by (try lia; change (10 ^ Z.of_nat 9) with 1000000000; mod_lia).
    change (10 ^ Z.of_nat 9) with 1000000000.
    set (n2 := n1 / 1000000000). assert (4 <= n2 <= 18) as Hn2 by (subst n2; mod_lia).
    rewrite (u32_id n2) by lia. rewrite (u32_id (n1 mod _)) by mod_lia.
    assert (u32toa_len (n1 mod 1000000000) 9 [] = digit_char <$> fixed_digits 10 9 n1) as ->.
    { rewrite u32toa_len_eq, app_nil_r by mod_lia. f_equal. exact (fixed_digits_mod 10 9 n1 ltac:(lia)). }
    rewrite fmap_app, <- app_assoc.
    assert (n2 = 4 \/ n2 = 5 \/ n2 = 6 \/ n2 = 7 \/ n2 = 8 \/ n2 = 9 \/ n2 = 10 \/ n2 = 11 \/ n2 = 12 \/
      n2 = 13 \/ n2 = 14 \/ n2 = 15 \/ n2 = 16 \/ n2 = 17 \/ n2 = 18) as Hcases by lia.
    generalize (digit_char <$> fixed_digits 10 9 n1) (digit_char <$> fixed_digits 10 9 n). intros l1 l2.
    repeat (destruct Hcases as [->|Hcases]; [done|]). by rewrite Hcases.
  - rewrite (u32_id n1), u32toa_eq by lia. done.
Qed.

Lemma land_pred_pow2 r : 2 <= r -> Z.land r (r - 1) = 0 -> r = 2 ^ Z.log2 r.
Proof.
  intros Hr Hl. pose proof (Z.log2_spec r ltac:(lia)) as [H1 H2]. set (n := Z.log2 r) in *.
  assert (0 <= n) by apply Z.log2_nonneg.
  destruct (decide (r = 2 ^ n)) as [|Hne]; [done|]. exfalso.
  assert (Z.log2 (r - 1) = n) as Hn by (apply Z.log2_unique; lia).
  assert (Z.testbit (Z.land r (r - 1)) n = true) as Hb.
  { rewrite Z.land_spec. subst n. rewrite Z.bit_log2 by lia. rewrite <- Hn, Z.bit_log2 by lia. done. }
  by rewrite Hl, Z.bits_0 in Hb.
Qed.

(** The digit count of the power-of-two case is exact. *)
Lemma bin_len_digits n b :
  1 <= b -> 0 <= n < 2 ^ 64 ->
  let l := if n =? 0 then 1 else (64 - clz64 n + b - 1) / b in
  fixed_digits (2 ^ b) (Z.to_nat l) n = to_digits (2 ^ b) n.
Proof.
  intros Hb Hn. cbn zeta. assert (2 <= 2 ^ b) by (apply (Z.pow_le_mono_r 2 1); lia).
  destruct (Z.eqb_spec n 0) as [->|Hnz].
  { rewrite to_digits_eq by lia. case_bool; [|lia]. change (Z.to_nat 1) with 1%nat. cbn. by rewrite Z.mod_0_l by lia. }
  unfold clz64. replace (64 - (63 - Z.log2 n) + b - 1) with (Z.log2 n + 1 * b) by lia.
  rewrite Z.div_add by lia. pose proof (Z.log2_nonneg n). pose proof (Z.log2_spec n ltac:(lia)) as [L1 L2].
  set (k := Z.log2 n / b). assert (0 <= k) by (apply Z.div_pos; lia).
  pose proof (Z.div_mod (Z.log2 n) b ltac:(lia)) as Hdm. pose proof (Z.mod_pos_bound (Z.log2 n) b ltac:(lia)).
  fold k in Hdm. replace (Z.to_nat (k + 1)) with (S (Z.to_nat k)) by lia.
  apply fixed_digits_all; [done|]. rewrite Nat2Z.inj_succ, Z2Nat.id, <- !Z.pow_mul_r by lia. split.
  - etransitivity; [|exact L1]. apply Z.pow_le_mono_r; lia.
  - eapply Z.lt_le_trans; [exact L2|]. apply Z.pow_le_mono_r; lia.
Qed.

Lemma u64toa_radix_eq n radix :
  2 <= radix <= 36 -> 0 <= n < 2 ^ 64 ->
  u64toa_radix n radix = Some (digit_char <$> to_digits radix n).
Proof.
  intros Hr Hn. unfold u64toa_radix. destruct (Z.eqb_spec radix 10) as [->|]; [by apply u64toa_eq|].
  destruct (Z.eqb_spec (Z.land radix (radix - 1)) 0) as [Hp|Hp].
  - apply land_pred_pow2 in Hp; [|lia]. set (b := Z.log2 radix) in *.
    assert (1 <= b) by (apply Z.log2_le_pow2; lia).
    rewrite u64toa_bin_len_eq, app_nil_r by lia. by rewrite bin_len_digits, <- Hp by lia.
  - assert (radix <> 2) by (intros ->; done).
    rewrite digits_backwards_eq, app_nil_r; [done|lia| |lia].
    split; [lia|]. eapply Z.lt_le_trans; [apply Hn|].
    etransitivity; [|apply (Z.pow_le_mono_l 3 radix); lia]. vm_compute. discriminate.
Qed.

(** Integer printing: for every 64-bit integer and every radix from 2 to 36
    the text is the sign and the digits of the magnitude without leading
    zeros, the fast decimal path with its 9-digit groups, the power-of-two path
    and the generic path alike, and no local buffer overflows. *)
Theorem i64toa_radix_correct (n radix : Z) (Hn : - 2 ^ 63 <= n < 2 ^ 63) (Hr : 2 <= radix <= 36) :
  i64toa_radix n radix = Some (print_radix radix n) /\
  i64toa n = Some (print_radix 10 n) /\
  (- 2 ^ 31 <= n < 2 ^ 31 -> i32toa n = Some (print_radix 10 n)).
Proof.
  unfold i64toa_radix, i64toa, i32toa, print_radix.
  destruct (Z.leb_spec 0 n), (Z.ltb_spec n 0); try lia.
  - rewrite u64toa_radix_eq, u64toa_eq by lia. split_and!; [done..|]. intros. apply u32toa_eq; lia.
  - assert (u64 n = n + 2 ^ 64) as -> by (unfold u64; symmetry; apply Z.mod_unique with (-1); lia).
    assert (u64 (- (n + 2 ^ 64)) = - n) as -> by (unfold u64; symmetry; apply Z.mod_unique with (-1); lia).
    rewrite u64toa_radix_eq, u64toa_eq by lia. split_and!; [done..|]. intros Hn32.
    assert (u32 n = n + 2 ^ 32) as -> by (unfold u32; symmetry; apply Z.mod_unique with (-1); lia).
    assert (u32 (- (n + 2 ^ 32)) = - n) as -> by (unfold u32; symmetry; apply Z.mod_unique with (-1); lia).
    by rewrite u32toa_eq by lia.
Qed.

Lemma i64toa_radix_correct_witness :
  i64toa_radix (- 2 ^ 63) 10 = Some (bytes_of_string "-9223372036854775808") /\
  i64toa_radix (- 2 ^ 63) 10 = Some (print_radix 10 (- 2 ^ 63)).
Proof.
  split; [vm_compute; reflexivity|].
  apply (i64toa_radix_correct (- 2 ^ 63) 10); lia.
Defined.
