(* ===== verification/Limbs.v ===== *)
(** * Limb arithmetic of the BigInt engine (quickjs.c, mp_* functions)

    A multi-precision number is a list of 64-bit limbs, least significant
    first ([JS_LIMB_BITS] is 64 on the supported targets).  A routine that
    writes [tabr] returns it; a loop over [n] limbs is a recursion on the lists
    of [n] limbs it reads, upwards from the head or downwards from the tail as
    the source loops.  Every routine is related to integer arithmetic on
    [lval], the value of a limb list. *)
From S2P Require Import Prelude.

Definition JS_LIMB_BITS : Z := 64.
(** The base: one more than the largest limb. *)
Definition B : Z := 2 ^ 64.
Definition limb (x : Z) : Prop := 0 <= x < B.
Definition limbs (l : list Z) : Prop := Forall limb l.
(** [js_dlimb_t]: 128 bits. *)
Definition u128 (x : Z) : Z := x mod 2 ^ 128.
Definition bit (c : Z) : Prop := c = 0 \/ c = 1.
Definition b2z (b : bool) : Z := if b then 1 else 0.

Fixpoint lval (l : list Z) : Z :=
  match l with
  | [] => 0
  | x :: l' => x + B * lval l'
  end.

(** [B^n]: what the [n]-limb numbers stay below. *)
Definition Bn (n : nat) : Z := B ^ Z.of_nat n.

(** ** Operations *)

(** The [ADDC] macro: [op1 + op2 + carry_in] as a limb and a carry out. *)
Definition ADDC (op1 op2 carry_in : Z) : Z * Z :=
  let a := u64 (op1 + op2) in
  let k1 := b2z (a <? op1) in
  let a' := u64 (a + carry_in) in
  (a', Z.lor (b2z (a' <? carry_in)) k1).

(** [__builtin_clzll]; the source calls it on non-zero limbs. *)
Definition js_limb_clz (a : Z) : Z := 63 - Z.log2 a.

Definition js_limb_safe_clz (a : Z) : Z :=
  if a =? 0 then JS_LIMB_BITS else js_limb_clz a.

Fixpoint mp_add (op1 op2 : list Z) (carry : Z) : list Z * Z :=
  match op1, op2 with
  | x :: op1', y :: op2' =>
      let '(r, c) := ADDC x y carry in
      let '(rs, c') := mp_add op1' op2' c in (r :: rs, c')
  | _, _ => ([], carry)
  end.

Fixpoint mp_sub (op1 op2 : list Z) (k : Z) : list Z * Z :=
  match op1, op2 with
  | v :: op1', y :: op2' =>
      let a := u64 (v - y) in
      let k1 := b2z (v <? a) in
      let v' := u64 (a - k) in
      let '(rs, c') := mp_sub op1' op2' (Z.lor (b2z (a <? v')) k1) in (v' :: rs, c')
  | _, _ => ([], k)
  end.

Fixpoint mp_neg_loop (op2 : list Z) (carry : Z) : list Z * Z :=
  match op2 with
  | [] => ([], carry)
  | y :: op2' =>
      let v := u64 (u64 (Z.lnot y) + carry) in
      let '(rs, c') := mp_neg_loop op2' (b2z (v <? carry)) in (v :: rs, c')
  end.
Definition mp_neg (op2 : list Z) : list Z * Z := mp_neg_loop op2 1.

Fixpoint mp_mul1 (taba : list Z) (b l : Z) : list Z * Z :=
  match taba with
  | [] => ([], l)
  | x :: taba' =>
      let t := u128 (x * b + l) in
      let '(rs, h) := mp_mul1 taba' b (u64 (Z.shiftr t 64)) in (u64 t :: rs, h)
  end.

(** Downwards from limb [n - 1]. *)
Fixpoint mp_div1 (taba : list Z) (b r : Z) : list Z * Z :=
  match taba with
  | [] => ([], r)
  | x :: taba' =>
      let '(qs, r') := mp_div1 taba' b r in
      let a1 := Z.lor (Z.shiftl r' 64) x in (u64 (a1 / b) :: qs, a1 mod b)
  end.

Fixpoint mp_add_mul1 (tabr taba : list Z) (b l : Z) : list Z * Z :=
  match tabr, taba with
  | y :: tabr', x :: taba' =>
      let t := u128 (x * b + l + y) in
      let '(rs, h) := mp_add_mul1 tabr' taba' b (u64 (Z.shiftr t 64)) in (u64 t :: rs, h)
  | _, _ => ([], l)
  end.

(** The rows after the first: [result] holds the limbs written so far. *)
Fixpoint mp_mul_rows (result op1 : list Z) (i : nat) (op2 : list Z) : list Z :=
  match op2 with
  | [] => result
  | y :: op2' =>
      let '(s, r) := mp_add_mul1 (drop i result) op1 y 0 in
      mp_mul_rows (take i result ++ s ++ [r]) op1 (S i) op2'
  end.
Definition mp_mul_basecase (op1 op2 : list Z) : list Z :=
  match op2 with
  | [] => []
  | y :: op2' => let '(s, r) := mp_mul1 op1 y 0 in mp_mul_rows (s ++ [r]) op1 1 op2'
  end.

Fixpoint mp_sub_mul1 (tabr taba : list Z) (b l : Z) : list Z * Z :=
  match tabr, taba with
  | y :: tabr', x :: taba' =>
      let t := u128 (y - x * b - l) in
      let '(rs, h) := mp_sub_mul1 tabr' taba' b (u64 (- Z.shiftr t 64)) in (u64 t :: rs, h)
  | _, _ => ([], l)
  end.

Definition udiv1norm_init (d : Z) : Z :=
  let a1 := u64 (- d - 1) in
  let a0 := u64 (-1) in
  u64 (Z.lor (Z.shiftl a1 64) a0 / d).

(** The quotient and the remainder of [a1*2^64 + a0] by [d]. *)
Definition udiv1norm (a1 a0 d d_inv : Z) : Z * Z :=
  let n1m := u64 (Z.shiftr (i64 a0) 63) in
  let n_adj := u64 (a0 + Z.land n1m d) in
  let a := u128 (d_inv * u64 (a1 - n1m) + n_adj) in
  let q := u64 (Z.shiftr a 64 + a1) in
  let a := Z.lor (Z.shiftl a1 64) a0 in
  let a := u128 (a - q * d - d) in
  let ah := u64 (Z.shiftr a 64) in
  (u64 (q + (1 + ah)), u64 (u64 a + Z.land ah d)).

Definition UDIV1NORM_THRESHOLD : nat := 3.

Fixpoint mp_div1norm_loop (taba : list Z) (b b_inv r : Z) : list Z * Z :=
  match taba with
  | [] => ([], r)
  | x :: taba' =>
      let '(qs, r') := mp_div1norm_loop taba' b b_inv r in
      let '(q, r'') := udiv1norm r' x b b_inv in (q :: qs, r'')
  end.
Definition mp_div1norm (taba : list Z) (b r : Z) : list Z * Z :=
  if (UDIV1NORM_THRESHOLD <=? length taba)%nat then
    mp_div1norm_loop taba b (udiv1norm_init b) r
  else mp_div1 taba b r.

(** Writing the limbs [s] at [tab + i]. *)
Definition splice (i : nat) (s tab : list Z) : list Z :=
  take i tab ++ s ++ drop (i + length s) tab.
Definition slice (i n : nat) (tab : list Z) : list Z := take n (drop i tab).

(** [for(j = nb - 1; j >= 0; j--)]: the first limb that differs, from the top,
    decides the first quotient digit; [None] when no limb differs. *)
Fixpoint mp_first_diff (w tabb : list Z) : option Z :=
  match w, tabb with
  | x :: w', y :: tabb' =>
      match mp_first_diff w' tabb' with
      | Some q => Some q
      | None => if x =? y then None else Some (if x <? y then 0 else 1)
      end
  | _, _ => None
  end.

(** The [for(;;)] that adds [tabb] back while the window is negative: [top] is
    [taba[i + nb]].  [None]: out of fuel. *)
Fixpoint mp_addback (fuel : nat) (w tabb : list Z) (top q : Z) : option (list Z * Z * Z) :=
  match fuel with
  | O => None
  | S fuel' =>
      let q := u64 (q - 1) in
      let '(w', c) := mp_add w tabb 0 in
      if negb (c =? 0) then
        let top := u64 (top + 1) in
        if top =? 0 then Some (w', top, q) else mp_addback fuel' w' tabb top q
      else mp_addback fuel' w' tabb top q
  end.
Definition addback_fuel : nat := 3.

(** One digit: window [taba[i .. i+nb-1]], next limb [t = taba[i + nb]]. *)
Definition mp_divnorm_digit (w : list Z) (t : Z) (tabb : list Z) (b1 b1_inv : Z)
  : option (list Z * Z * Z) :=
  let t1 := default 0 (last w) in
  let q :=
    if b1 <=? t then u64 (-1)
    else if negb (b1_inv =? 0) then fst (udiv1norm t t1 b1 b1_inv)
    else u64 (Z.lor (Z.shiftl t 64) t1 / b1) in
  let '(w', r) := mp_sub_mul1 w tabb q 0 in
  let a := u64 (t - r) in
  if t <? a then mp_addback addback_fuel w' tabb a q else Some (w', a, q).

(** [for(i = n - 1; i >= 0; i--)]: the final [taba] and the digits below [i]. *)
Fixpoint mp_divnorm_loop (i : nat) (taba tabb : list Z) (b1 b1_inv : Z)
  : option (list Z * list Z) :=
  match i with
  | O => Some (taba, [])
  | S i' =>
      let nb := length tabb in
      match mp_divnorm_digit (slice i' nb taba) (default 0 (taba !! (i' + nb)%nat))
                             tabb b1 b1_inv with
      | None => None
      | Some (w, top, q) =>
          match mp_divnorm_loop i' (splice i' (w ++ [top]) taba) tabb b1 b1_inv with
          | None => None
          | Some (taba', qs) => Some (taba', qs ++ [q])
          end
      end
  end.

(** [taba] (the remainder in its first [nb] limbs) and [tabq]. *)
Definition mp_divnorm (taba tabb : list Z) : option (list Z * list Z) :=
  let na := length taba in
  let nb := length tabb in
  let b1 := default 0 (last tabb) in
  if (nb =? 1)%nat then
    let '(tabq, r) := mp_div1norm taba b1 0 in Some (splice 0 [r] taba, tabq)
  else
    let n := (na - nb)%nat in
    let b1_inv := if (UDIV1NORM_THRESHOLD <=? n)%nat then udiv1norm_init b1 else 0 in
    let q := default 1 (mp_first_diff (slice n nb taba) tabb) in
    let taba := if negb (q =? 0) then splice n (fst (mp_sub (slice n nb taba) tabb 0)) taba
                else taba in
    match mp_divnorm_loop n taba tabb b1 b1_inv with
    | None => None
    | Some (taba', qs) => Some (taba', qs ++ [q])
    end.

(** [1 <= shift <= 63] in the two shifts. *)
Fixpoint mp_shl_loop (taba : list Z) (shift l : Z) : list Z * Z :=
  match taba with
  | [] => ([], l)
  | v :: taba' =>
      let '(rs, h) := mp_shl_loop taba' shift (Z.shiftr v (JS_LIMB_BITS - shift)) in
      (Z.lor (u64 (Z.shiftl v shift)) l :: rs, h)
  end.
Definition mp_shl (taba : list Z) (shift : Z) : list Z * Z := mp_shl_loop taba shift 0.

Fixpoint mp_shr_loop (tab : list Z) (shift high : Z) : list Z * Z :=
  match tab with
  | [] => ([], high)
  | a :: tab' =>
      let '(rs, l) := mp_shr_loop tab' shift high in
      (Z.lor (Z.shiftr a shift) (u64 (Z.shiftl l (JS_LIMB_BITS - shift))) :: rs, a)
  end.
Definition mp_shr (tab : list Z) (shift high : Z) : list Z * Z :=
  let '(r, l) := mp_shr_loop tab shift high in (r, Z.land l (u64 (Z.shiftl 1 shift - 1))).

(** ** Values *)

Lemma B_pos : 0 < B. Proof. done. Qed.
Lemma B_big : 2 ^ 32 < B. Proof. done. Qed.
Lemma u64_mod x : u64 x = x mod B. Proof. done. Qed.
Lemma u128_mod x : u128 x = x mod (B * B). Proof. done. Qed.
Lemma B_half : B = 2 * 2 ^ 63. Proof. done. Qed.
#[global] Opaque B.

Lemma Bn_0 : Bn 0 = 1. Proof. done. Qed.
Lemma Bn_1 : Bn 1 = B. Proof. apply Z.pow_1_r. Qed.
Lemma Bn_S n : Bn (S n) = B * Bn n.
Proof. unfold Bn. rewrite Nat2Z.inj_succ, Z.pow_succ_r; lia. Qed.
Lemma Bn_add n m : Bn (n + m) = Bn n * Bn m.
Proof. unfold Bn. rewrite Nat2Z.inj_add, Z.pow_add_r; lia. Qed.
Lemma Bn_pos n : 0 < Bn n.
Proof. apply Z.pow_pos_nonneg; [apply B_pos|lia]. Qed.

Lemma limbs_nil : limbs []. Proof. constructor. Qed.
Lemma limbs_cons x l : limbs (x :: l) <-> limb x /\ limbs l.
Proof. apply Forall_cons. Qed.
Lemma limbs_app l l' : limbs (l ++ l') <-> limbs l /\ limbs l'.
Proof. apply Forall_app. Qed.
Lemma limbs_take n l : limbs l -> limbs (take n l).
Proof. apply Forall_take. Qed.
Lemma limbs_drop n l : limbs l -> limbs (drop n l).
Proof. apply Forall_drop. Qed.
Lemma u64_limb x : limb (u64 x).
Proof. rewrite u64_mod. apply Z.mod_pos_bound, B_pos. Qed.
Lemma u64_limb_id x : limb x -> u64 x = x.
Proof. intros. rewrite u64_mod. by apply Z.mod_small. Qed.

Lemma lval_app l l' : lval (l ++ l') = lval l + Bn (length l) * lval l'.
Proof.
  induction l as [|x l IH]; cbn [lval app length]; [rewrite Bn_0; lia|].
  rewrite IH, Bn_S. lia.
Qed.
Lemma lval_single x : lval [x] = x.
Proof. cbn. lia. Qed.

Lemma lval_bound l : limbs l -> 0 <= lval l < Bn (length l).
Proof.
  induction 1 as [|x l Hx _ IH]; cbn [lval length]; [rewrite Bn_0; lia|].
  rewrite Bn_S. unfold limb in *. nia.
Qed.

Lemma lval_inj l l' :
  limbs l -> limbs l' -> length l = length l' -> lval l = lval l' -> l = l'.
Proof.
  revert l'. induction l as [|x l IH]; intros [|y l'] Hl Hl' Hlen Hv; try done.
  apply limbs_cons in Hl as [Hx Hl], Hl' as [Hy Hl']. cbn [lval] in Hv. unfold limb in *.
  assert (lval l = lval l') as Heq by nia.
  f_equal; [lia|]. apply IH; auto.
Qed.

Lemma lval_replicate_0 n : lval (replicate n 0) = 0.
Proof. induction n as [|n IH]; [done|]. cbn [replicate lval]. rewrite IH. lia. Qed.

Create HintDb limbs.
#[export] Hint Resolve u64_limb limbs_take limbs_drop limbs_nil : limbs.

Lemma b2z_lor a b : Z.lor (b2z a) (b2z b) = b2z (a || b).
Proof. by destruct a, b. Qed.
(** Carries computed by comparisons. *)
Ltac carry := rewrite ?b2z_lor; cbn [orb b2z]; lia.

(** ** Addition, subtraction, negation *)

Lemma ADDC_spec x y c :
  limb x -> limb y -> bit c ->
  let '(r, c') := ADDC x y c in limb r /\ bit c' /\ r + B * c' = x + y + c.
Proof.
  intros Hx Hy Hc. unfold ADDC, limb, bit in *. rewrite !u64_mod.
  destruct (Z.ltb_spec (x + y) B).
  - rewrite (Z.mod_small (x + y)) by lia. destruct (Z.ltb_spec (x + y) x); [lia|].
    destruct (Z.ltb_spec (x + y + c) B).
    + rewrite Z.mod_small by lia. destruct (Z.ltb_spec (x + y + c) c); [lia|]. carry.
    + replace (x + y + c) with (0 + 1 * B) by lia. rewrite Z.mod_add, Z.mod_0_l by lia.
      destruct (Z.ltb_spec 0 c); [|lia]. carry.
  - replace (x + y) with (x + y - B + 1 * B) by lia. rewrite Z.mod_add, (Z.mod_small (_ - _)) by lia.
    destruct (Z.ltb_spec (x + y - B) x); [|lia]. rewrite Z.mod_small by lia.
    destruct (Z.ltb_spec (x + y - B + c) c); carry.
Qed.

Lemma mp_add_spec a b c :
  limbs a -> limbs b -> length a = length b -> bit c ->
  let '(r, c') := mp_add a b c in
  limbs r /\ length r = length a /\ bit c' /\ lval r + Bn (length a) * c' = lval a + lval b + c.
Proof.
  revert b c. induction a as [|x a IH]; intros [|y b] c Ha Hb Hl Hc; try done.
  - cbn. rewrite Bn_0. split_and!; auto with limbs; lia.
  - apply limbs_cons in Ha as [Hx Ha], Hb as [Hy Hb]. cbn [mp_add].
    pose proof (ADDC_spec x y c Hx Hy Hc) as HA. destruct (ADDC x y c) as [r k].
    destruct HA as (Hr & Hk & HA). specialize (IH b k Ha Hb ltac:(by injection Hl) Hk).
    destruct (mp_add a b k) as [rs c']. destruct IH as (Hrs & Hlr & Hc' & IH).
    cbn [lval length]. rewrite Bn_S. split_and!; [by apply limbs_cons|by rewrite Hlr|done|nia].
Qed.

Lemma sub_borrow_spec v y k :
  limb v -> limb y -> bit k ->
  let a := u64 (v - y) in let v' := u64 (a - k) in
  let k' := Z.lor (b2z (a <? v')) (b2z (v <? a)) in
  limb v' /\ bit k' /\ v' - B * k' = v - y - k.
Proof.
  intros Hv Hy Hk. pose proof B_big. unfold limb, bit in *. cbn zeta. rewrite !u64_mod.
  destruct (Z.leb_spec y v).
  - rewrite (Z.mod_small (v - y)) by lia. destruct (Z.ltb_spec v (v - y)); [lia|].
    destruct (Z.leb_spec k (v - y)).
    + rewrite Z.mod_small by lia. destruct (Z.ltb_spec (v - y) (v - y - k)); [lia|]. carry.
    + replace (v - y - k) with (B - 1 + (-1) * B) by lia.
      rewrite Z.mod_add, Z.mod_small by lia. destruct (Z.ltb_spec (v - y) (B - 1)); [|lia]. carry.
  - replace (v - y) with (v - y + B + (-1) * B) by lia. rewrite Z.mod_add, (Z.mod_small (_ + _)) by lia.
    destruct (Z.ltb_spec v (v - y + B)); [|lia]. rewrite Z.mod_small by lia.
    destruct (Z.ltb_spec (v - y + B) (v - y + B - k)); [lia|]. carry.
Qed.

Lemma mp_sub_spec a b k :
  limbs a -> limbs b -> length a = length b -> bit k ->
  let '(r, k') := mp_sub a b k in
  limbs r /\ length r = length a /\ bit k' /\ lval r - Bn (length a) * k' = lval a - lval b - k.
Proof.
  revert b k. induction a as [|v a IH]; intros [|y b] k Ha Hb Hl Hk; try done.
  - cbn. rewrite Bn_0. split_and!; auto with limbs; lia.
  - apply limbs_cons in Ha as [Hv Ha], Hb as [Hy Hb]. cbn [mp_sub].
    pose proof (sub_borrow_spec v y k Hv Hy Hk) as (Hr & Hk' & HA). cbn zeta in HA, Hr, Hk' |- *.
    specialize (IH b _ Ha Hb ltac:(by injection Hl) Hk').
    destruct (mp_sub a b _) as [rs c']. destruct IH as (Hrs & Hlr & Hc' & IH).
    cbn [lval length]. rewrite Bn_S. split_and!; [by apply limbs_cons|by rewrite Hlr|done|nia].
Qed.

Lemma u64_lnot x : limb x -> u64 (Z.lnot x) = B - 1 - x.
Proof.
  intros Hx. unfold limb in *. rewrite u64_mod. unfold Z.lnot, Z.pred.
  replace (- x + -1) with (B - 1 - x + (-1) * B) by lia. rewrite Z.mod_add by lia.
  apply Z.mod_small. lia.
Qed.

Lemma mp_neg_loop_spec a c :
  limbs a -> bit c ->
  let '(r, c') := mp_neg_loop a c in
  limbs r /\ length r = length a /\ bit c' /\
  lval r + Bn (length a) * c' = Bn (length a) - 1 - lval a + c.
Proof.
  revert c. induction a as [|y a IH]; intros c Ha Hc.
  - cbn. rewrite Bn_0. split_and!; auto with limbs; lia.
  - apply limbs_cons in Ha as [Hy Ha]. cbn [mp_neg_loop]. rewrite u64_lnot by done.
    assert (limb (u64 (B - 1 - y + c)) /\ bit (b2z (u64 (B - 1 - y + c) <? c)) /\
      u64 (B - 1 - y + c) + B * b2z (u64 (B - 1 - y + c) <? c) = B - 1 - y + c) as (H1 & H2 & H3).
    { split; [apply u64_limb|]. unfold limb, bit in *. rewrite u64_mod.
      destruct (Z.ltb_spec (B - 1 - y + c) B).
      - rewrite Z.mod_small by lia. case_bool; carry.
      - replace (B - 1 - y + c) with (0 + 1 * B) by lia. rewrite Z.mod_add, Z.mod_0_l by lia.
        case_bool; carry. }
    specialize (IH _ Ha H2). destruct (mp_neg_loop a _) as [rs c'].
    destruct IH as (Hrs & Hlr & Hc' & IH). cbn [lval length]. rewrite Bn_S.
    split_and!; [by apply limbs_cons|by rewrite Hlr|done|nia].
Qed.

(** The negation modulo [B^n]: of a non-zero number it is [B^n - a]. *)
Lemma mp_neg_spec a :
  limbs a ->
  limbs (fst (mp_neg a)) /\ length (fst (mp_neg a)) = length a /\
  lval (fst (mp_neg a)) = (if lval a =? 0 then 0 else Bn (length a) - lval a).
Proof.
  intros Ha. unfold mp_neg. pose proof (mp_neg_loop_spec a 1 Ha ltac:(by right)) as H.
  destruct (mp_neg_loop a 1) as [r c]. destruct H as (Hr & Hl & Hc & H). cbn [fst].
  split_and!; [done..|]. pose proof (lval_bound r Hr). pose proof (lval_bound a Ha).
  rewrite Hl in *. unfold bit in *. case_bool; nia.
Qed.

(** ** Multiplication *)

Lemma shiftr64 x : Z.shiftr x 64 = x / B.
Proof. by rewrite Z.shiftr_div_pow2. Qed.
Lemma dlimb_pack h l : limb l -> Z.lor (Z.shiftl h 64) l = h * B + l.
Proof. intros Hl. by apply lor_shiftl_small. Qed.

(** A double limb splits into its two limbs. *)
Lemma dlimb_split t :
  0 <= t < B * B ->
  u128 t = t /\ limb (u64 t) /\ limb (u64 (Z.shiftr t 64)) /\
  u64 t + B * u64 (Z.shiftr t 64) = t.
Proof.
  intros Ht. pose proof B_pos. rewrite u128_mod, Z.mod_small by done. split; [done|].
  split_and!; try apply u64_limb.
  assert (0 <= t / B < B) by (split; [apply Z.div_pos|apply Z.div_lt_upper_bound]; lia).
  rewrite shiftr64, (u64_limb_id (t / B)), u64_mod by done.
  pose proof (Z.div_mod t B). lia.
Qed.

Lemma mp_mul1_spec a b l :
  limbs a -> limb b -> limb l ->
  let '(r, h) := mp_mul1 a b l in
  limbs r /\ length r = length a /\ limb h /\ lval r + Bn (length a) * h = lval a * b + l.
Proof.
  revert l. induction a as [|x a IH]; intros l Ha Hb Hl.
  - cbn. rewrite Bn_0. split_and!; auto with limbs; lia.
  - apply limbs_cons in Ha as [Hx Ha]. cbn [mp_mul1].
    assert (0 <= x * b + l < B * B) as Ht by (unfold limb in *; nia).
    apply dlimb_split in Ht as (-> & H1 & H2 & H3).
    specialize (IH _ Ha Hb H2). destruct (mp_mul1 a b _) as [rs h].
    destruct IH as (Hrs & Hlr & Hh & IH). cbn [lval length]. rewrite Bn_S.
    split_and!; [by apply limbs_cons|by rewrite Hlr|done|nia].
Qed.

Lemma mp_add_mul1_spec r a b l :
  limbs r -> limbs a -> length r = length a -> limb b -> limb l ->
  let '(r', h) := mp_add_mul1 r a b l in
  limbs r' /\ length r' = length a /\ limb h /\
  lval r' + Bn (length a) * h = lval r + lval a * b + l.
Proof.
  revert r l. induction a as [|x a IH]; intros [|y r] l Hr Ha Hlen Hb Hl; try done.
  - cbn. rewrite Bn_0. split_and!; auto with limbs; lia.
  - apply limbs_cons in Ha as [Hx Ha], Hr as [Hy Hr]. cbn [mp_add_mul1].
    assert (0 <= x * b + l + y < B * B) as Ht by (unfold limb in *; nia).
    apply dlimb_split in Ht as (-> & H1 & H2 & H3).
    specialize (IH r _ Hr Ha ltac:(by injection Hlen) Hb H2).
    destruct (mp_add_mul1 r a b _) as [rs h].
    destruct IH as (Hrs & Hlr & Hh & IH). cbn [lval length]. rewrite Bn_S.
    split_and!; [by apply limbs_cons|by rewrite Hlr|done|nia].
Qed.

Lemma mp_mul_rows_spec op2 res op1 i :
  limbs res -> limbs op1 -> limbs op2 -> length res = (i + length op1)%nat ->
  limbs (mp_mul_rows res op1 i op2) /\
  length (mp_mul_rows res op1 i op2) = (length res + length op2)%nat /\
  lval (mp_mul_rows res op1 i op2) = lval res + Bn i * (lval op1 * lval op2).
Proof.
  revert res i. induction op2 as [|y op2 IH]; intros res i Hr H1 H2 Hl; cbn [mp_mul_rows].
  - cbn. split_and!; [done|lia|lia].
  - apply limbs_cons in H2 as [Hy H2].
    pose proof (mp_add_mul1_spec (drop i res) op1 y 0 ltac:(auto with limbs) H1
      ltac:(rewrite length_drop; lia) Hy ltac:(split; [lia|apply B_pos])) as HS.
    destruct (mp_add_mul1 (drop i res) op1 y 0) as [s r].
    destruct HS as (Hs & Hls & Hlr & HS).
    destruct (IH (take i res ++ s ++ [r]) (S i)) as (G1 & G2 & G3); [|done..| |].
    { rewrite !limbs_app, limbs_cons. auto with limbs. }
    { rewrite !length_app, length_take, Hls. cbn. lia. }
    split_and!; [done| |].
    + rewrite G2, !length_app, length_take, Hls. cbn. lia.
    + rewrite G3, !lval_app, lval_single, length_take, Hls. cbn [lval].
      replace (i `min` length res)%nat with i by lia.
      assert (lval res = lval (take i res) + Bn i * lval (drop i res)) as ->.
      { rewrite <- (take_drop i res) at 1. rewrite lval_app, length_take.
        by replace (i `min` length res)%nat with i by lia. }
      rewrite Bn_S. nia.
Qed.

Lemma mp_mul_basecase_spec op1 op2 :
  limbs op1 -> limbs op2 -> op2 <> [] ->
  limbs (mp_mul_basecase op1 op2) /\
  length (mp_mul_basecase op1 op2) = (length op1 + length op2)%nat /\
  lval (mp_mul_basecase op1 op2) = lval op1 * lval op2.
Proof.
  intros H1 H2 Hne. destruct op2 as [|y op2]; [done|]. apply limbs_cons in H2 as [Hy H2].
  cbn [mp_mul_basecase].
  pose proof (mp_mul1_spec op1 y 0 H1 Hy ltac:(split; [lia|apply B_pos])) as HS.
  destruct (mp_mul1 op1 y 0) as [s r]. destruct HS as (Hs & Hls & Hlr & HS).
  destruct (mp_mul_rows_spec op2 (s ++ [r]) op1 1) as (G1 & G2 & G3); [|done..| |].
  { rewrite limbs_app, limbs_cons. auto with limbs. }
  { rewrite length_app, Hls. cbn. lia. }
  split_and!; [done| |].
  - rewrite G2, length_app, Hls. cbn. lia.
  - rewrite G3, lval_app, lval_single, Hls, Bn_1. cbn [lval]. nia.
Qed.

Lemma mp_sub_mul1_spec r a b l :
  limbs r -> limbs a -> length r = length a -> limb b -> limb l ->
  let '(r', h) := mp_sub_mul1 r a b l in
  limbs r' /\ length r' = length a /\ limb h /\
  lval r' - Bn (length a) * h = lval r - lval a * b - l.
Proof.
  revert r l. induction a as [|x a IH]; intros [|y r] l Hr Ha Hlen Hb Hl; try done.
  - cbn. rewrite Bn_0. split_and!; auto with limbs; lia.
  - apply limbs_cons in Ha as [Hx Ha], Hr as [Hy Hr]. cbn [mp_sub_mul1].
    pose proof B_pos as HB. set (t := y - x * b - l).
    assert (- (B * (B - 1)) <= t < B) as Ht by (unfold limb in *; subst t; nia).
    assert (- (B - 1) <= t / B <= 0) as Hq.
    { split; [apply Z.div_le_lower_bound; lia|]. pose proof (Z.div_lt_upper_bound t B 1). lia. }
    assert (u64 (u128 t) = t mod B) as ->.
    { rewrite u64_mod, u128_mod. apply Z.mod_mod_divide. by exists B. }
    assert (u64 (- Z.shiftr (u128 t) 64) = - (t / B)) as Hh.
    { rewrite shiftr64, u128_mod, Z.rem_mul_r by lia. rewrite Z.mul_comm, Z.div_add by lia.
      rewrite (Z.div_small (t mod B)) by (apply Z.mod_pos_bound; lia). rewrite Z.add_0_l, u64_mod.
      rewrite <- Z.sub_0_l, Zminus_mod_idemp_r, Z.sub_0_l. apply Z.mod_small. lia. }
    rewrite Hh. specialize (IH r (- (t / B)) Hr Ha ltac:(by injection Hlen) Hb ltac:(split; lia)).
    destruct (mp_sub_mul1 r a b _) as [rs h]. destruct IH as (Hrs & Hlr & Hlh & IH).
    pose proof (Z.mod_pos_bound t B HB). pose proof (Z.div_mod t B).
    cbn [lval length]. rewrite Bn_S. subst t.
    split_and!; [by apply limbs_cons|by rewrite Hlr|done|nia].
Qed.

(** ** Division by one limb *)

Lemma mp_div1_spec a b r :
  limbs a -> limb b -> 0 <= r < b ->
  let '(q, r') := mp_div1 a b r in
  limbs q /\ length q = length a /\ 0 <= r' < b /\
  lval a + Bn (length a) * r = lval q * b + r'.
Proof.
  intros Ha Hb Hr. induction a as [|x a IH]; cbn [mp_div1].
  - cbn. rewrite Bn_0. split_and!; auto with limbs; lia.
  - apply limbs_cons in Ha as [Hx Ha]. specialize (IH Ha).
    destruct (mp_div1 a b r) as [qs r']. destruct IH as (Hqs & Hlq & Hr' & IH).
    rewrite dlimb_pack by done. pose proof (Z.div_mod (r' * B + x) b ltac:(lia)) as Hdm.
    pose proof (Z.mod_pos_bound (r' * B + x) b ltac:(lia)).
    assert (limb ((r' * B + x) / b)) as Hq.
    { unfold limb in *. split; [apply Z.div_pos; nia|]. apply Z.div_lt_upper_bound; nia. }
    rewrite (u64_limb_id _ Hq). cbn [lval length]. rewrite Bn_S.
    split_and!; [by apply limbs_cons|by rewrite Hlq|lia..|nia].
Qed.

(** The reciprocal: [(B + d_inv) * d] is within [d] below [B^2]. *)
Lemma udiv1norm_init_spec d :
  2 ^ 63 <= d < B ->
  limb (udiv1norm_init d) /\ 1 <= B * B - (B + udiv1norm_init d) * d <= d.
Proof.
  intros Hd. pose proof B_half as HB. unfold udiv1norm_init.
  assert (u64 (- d - 1) = B - 1 - d) as ->.
  { rewrite u64_mod. replace (- d - 1) with (B - 1 - d + (-1) * B) by lia.
    rewrite Z.mod_add, Z.mod_small; lia. }
  assert (u64 (-1) = B - 1) as ->.
  { rewrite u64_mod. replace (-1) with (B - 1 + (-1) * B) by lia.
    rewrite Z.mod_add, Z.mod_small; lia. }
  rewrite dlimb_pack by (unfold limb; lia).
  replace ((B - 1 - d) * B + (B - 1)) with (B * B - 1 + (- B) * d) by lia.
  rewrite Z.div_add by lia. pose proof (Z.div_mod (B * B - 1) d ltac:(lia)) as Hdm.
  pose proof (Z.mod_pos_bound (B * B - 1) d ltac:(lia)).
  assert (limb ((B * B - 1) / d + - B)) as Hl.
  { assert (B <= (B * B - 1) / d) by (apply Z.div_le_lower_bound; nia).
    assert ((B * B - 1) / d < 2 * B) by (apply Z.div_lt_upper_bound; nia). unfold limb. lia. }
  rewrite (u64_limb_id _ Hl). split; [done|]. nia.
Qed.

(** The first estimate of the quotient is exact or one too small: with
    [T = B*q + rest], [0 <= rest < B], and [k] the error of the reciprocal. *)
Lemma udiv1norm_estimate d v a1 a0 q rest k :
  2 ^ 63 <= d < B -> 1 <= k <= d -> (B + v) * d = B * B - k -> 0 <= a1 < d -> limb a0 ->
  0 <= rest < B ->
  B * q + rest = (if a0 <? 2 ^ 63 then (B + v) * a1 + a0
                  else (B + v) * (a1 + 1) + a0 + d - 2 * B) ->
  q * d <= a1 * B + a0 < (q + 2) * d.
Proof.
  unfold limb. pose proof B_half as HB. generalize dependent (2 ^ 63). generalize dependent B.
  intros b h HB Hd Hk Hv Ha1 Ha0 Hrest HT.
  assert (0 <= rest * d) by (apply Z.mul_nonneg_nonneg; lia).
  assert (0 <= (b - 1 - rest) * d) by (apply Z.mul_nonneg_nonneg; lia).
  assert (0 <= a1 * (k - 1)) by (apply Z.mul_nonneg_nonneg; lia).
  assert (0 <= (d - 1 - a1) * (k - 1)) by (apply Z.mul_nonneg_nonneg; lia).
  assert (0 <= (d - 1) * (d - k)) by (apply Z.mul_nonneg_nonneg; lia).
  assert (0 <= (b - d) * (d - h)) by (apply Z.mul_nonneg_nonneg; lia).
  assert (b * (q * d) = (b * q + rest) * d - rest * d) as Hqd by ring.
  revert HT. case_bool; intros HT; rewrite HT in Hqd.
  - replace (((b + v) * a1 + a0) * d) with (a1 * ((b + v) * d) + a0 * d) in Hqd by ring.
    rewrite Hv in Hqd.
    assert (0 <= a0 * (b - d)) by (apply Z.mul_nonneg_nonneg; lia).
    assert (0 <= (h - a0) * (b - d)) by (apply Z.mul_nonneg_nonneg; lia).
    split; [apply (Zmult_le_reg_r _ _ b)|apply (Zmult_lt_reg_r _ _ b)]; lia.
  - replace (((b + v) * (a1 + 1) + a0 + d - 2 * b) * d)
      with ((a1 + 1) * ((b + v) * d) + (a0 + d - 2 * b) * d) in Hqd by ring.
    rewrite Hv in Hqd.
    assert (0 <= (b - d) * (a0 + d - b)) by (apply Z.mul_nonneg_nonneg; lia).
    assert (0 <= (b - d) * (b - a0)) by (apply Z.mul_nonneg_nonneg; lia).
    split; [apply (Zmult_le_reg_r _ _ b)|apply (Zmult_lt_reg_r _ _ b)]; lia.
Qed.

Lemma u64_sign_mask x : limb x -> u64 (Z.shiftr (i64 x) 63) = if x <? 2 ^ 63 then 0 else B - 1.
Proof.
  intros Hx. pose proof B_half as HB. unfold limb in Hx.
  rewrite Z.shiftr_div_pow2 by lia. unfold i64. rewrite <- HB || change (2 ^ 64) with B.
  case_bool.
  - rewrite (Z.mod_small (x + 2 ^ 63)) by lia. rewrite Z.add_simpl_r, Z.div_small by lia.
    rewrite u64_mod. apply Z.mod_0_l. lia.
  - replace (x + 2 ^ 63) with (x - 2 ^ 63 + 1 * B) by lia. rewrite Z.mod_add, Z.mod_small by lia.
    replace ((x - 2 ^ 63 - 2 ^ 63) / 2 ^ 63) with (-1).
    2: { apply Z.div_unique with (r := x - 2 ^ 63); lia. }
    rewrite u64_mod. replace (-1) with (B - 1 + (-1) * B) by lia. rewrite Z.mod_add, Z.mod_small; lia.
Qed.

Lemma land_ones_limb d : limb d -> Z.land (B - 1) d = d.
Proof.
  intros Hd. change (B - 1) with (Z.ones 64). rewrite Z.land_comm, Z.land_ones by lia.
  by apply Z.mod_small.
Qed.

(** The correction step: from an estimate exact or one too small to the
    quotient and remainder. *)
Lemma udiv1norm_correct a1 a0 d q :
  0 < d < B -> 0 <= a1 < d -> limb a0 -> 0 <= q -> q * d <= a1 * B + a0 < (q + 2) * d ->
  let a := u128 (Z.lor (Z.shiftl a1 64) a0 - u64 q * d - d) in
  let ah := u64 (Z.shiftr a 64) in
  (u64 (u64 q + (1 + ah)), u64 (u64 a + Z.land ah d)) =
  ((a1 * B + a0) / d, (a1 * B + a0) mod d).
Proof.
  intros Hd Ha1 Ha0 Hq0 Hq. cbn zeta. rewrite dlimb_pack by done. unfold limb in Ha0.
  assert (0 <= q < B) as Hqb by nia. rewrite (u64_limb_id q) by done.
  set (N := a1 * B + a0) in *. set (r := N - q * d).
  replace (N - q * d - d) with (r - d) by (subst r; lia).
  assert (0 <= r < 2 * d) as Hr by (subst r; lia).
  destruct (Z.ltb_spec r d).
  - assert (N / d = q) as -> by (symmetry; apply Z.div_unique with (r := r); subst r; lia).
    assert (N mod d = r) as -> by (symmetry; apply Z.mod_unique with (q := q); subst r; lia).
    assert (u128 (r - d) = (B - 1) * B + (r - d + B)) as ->.
    { rewrite u128_mod. replace (r - d) with (B * B + (r - d) + (-1) * (B * B)) by lia.
      rewrite Z.mod_add, Z.mod_small; nia. }
    rewrite shiftr64, Z.div_add_l, (Z.div_small (r - d + B)) by lia.
    rewrite Z.add_0_r, (u64_limb_id (B - 1)) by (unfold limb; lia).
    rewrite land_ones_limb by (unfold limb; lia). rewrite !u64_mod. f_equal.
    + replace (q + (1 + (B - 1))) with (q + 1 * B) by lia. rewrite Z.mod_add, Z.mod_small; lia.
    + rewrite Zplus_mod_idemp_l. replace (_ + _ + d) with (r + B * B) by lia.
      rewrite Z.mod_add, Z.mod_small; lia.
  - assert (N / d = q + 1) as -> by (symmetry; apply Z.div_unique with (r := r - d); subst r; lia).
    assert (N mod d = r - d) as -> by (symmetry; apply Z.mod_unique with (q := q + 1); subst r; lia).
    rewrite u128_mod, Z.mod_small by nia. rewrite shiftr64, (Z.div_small (r - d)) by lia.
    rewrite (u64_limb_id 0), Z.land_0_l, !Z.add_0_r by (unfold limb; lia).
    rewrite (u64_limb_id (r - d)) by (unfold limb; lia).
    f_equal; apply u64_limb_id; unfold limb; [|lia]. nia.
Qed.

Lemma udiv1norm_spec a1 a0 d :
  2 ^ 63 <= d < B -> 0 <= a1 < d -> limb a0 ->
  udiv1norm a1 a0 d (udiv1norm_init d) = ((a1 * B + a0) / d, (a1 * B + a0) mod d).
Proof.
  intros Hd Ha1 Ha0. pose proof B_half as HB.
  destruct (udiv1norm_init_spec d Hd) as [Hv Hk]. set (v := udiv1norm_init d) in *.
  unfold udiv1norm. rewrite u64_sign_mask by done.
  set (m := if a0 <? 2 ^ 63 then 0 else B - 1).
  set (T := v * u64 (a1 - m) + u64 (a0 + Z.land m d)).
  assert (0 <= T < B * B /\ T + B * a1 =
    if a0 <? 2 ^ 63 then (B + v) * a1 + a0 else (B + v) * (a1 + 1) + a0 + d - 2 * B) as [HT1 HT2].
  { unfold limb in *. subst m T. case_bool.
    - rewrite Z.land_0_l, Z.sub_0_r, Z.add_0_r, !u64_limb_id by (unfold limb; lia). nia.
    - rewrite land_ones_limb, !u64_mod by (unfold limb; lia).
      replace (a1 - (B - 1)) with (a1 + 1 + (-1) * B) by lia.
      replace (a0 + d) with (a0 + d - B + 1 * B) by lia.
      rewrite !Z.mod_add, !Z.mod_small by lia. nia. }
  assert (u128 T = T) as -> by (rewrite u128_mod; apply Z.mod_small; lia).
  rewrite shiftr64. apply udiv1norm_correct; [lia..|done| |].
  { pose proof (Z.div_pos T B). lia. }
  pose proof (Z.div_mod T B ltac:(lia)). pose proof (Z.mod_pos_bound T B ltac:(lia)).
  apply (udiv1norm_estimate d v a1 a0 _ (T mod B) (B * B - (B + v) * d)); try lia; try done.
Qed.

Lemma mp_div1norm_loop_eq a b r :
  limbs a -> 2 ^ 63 <= b < B -> 0 <= r < b ->
  mp_div1norm_loop a b (udiv1norm_init b) r = mp_div1 a b r.
Proof.
  intros Ha Hb Hr. induction a as [|x a IH]; [done|].
  apply limbs_cons in Ha as [Hx Ha]. cbn [mp_div1norm_loop mp_div1]. rewrite IH by done.
  pose proof (mp_div1_spec a b r Ha ltac:(unfold limb; lia) Hr) as HS.
  destruct (mp_div1 a b r) as [qs r']. destruct HS as (_ & _ & Hr' & _).
  rewrite udiv1norm_spec, dlimb_pack by done. f_equal. f_equal. symmetry. apply u64_limb_id.
  unfold limb in *. split; [apply Z.div_pos; nia|apply Z.div_lt_upper_bound; nia].
Qed.

(** Division with the reciprocal computes the same digits as plain division. *)
Lemma mp_div1norm_eq a b r :
  limbs a -> 2 ^ 63 <= b < B -> 0 <= r < b -> mp_div1norm a b r = mp_div1 a b r.
Proof. intros. unfold mp_div1norm. case_match; [by apply mp_div1norm_loop_eq|done]. Qed.

(** ** Division by several limbs *)

(** The digit estimated from the two top limbs of the window and the top limb
    of a normalised divisor is at most two too large. *)
Lemma knuth_estimate P w w' b1 b' q :
  0 < P -> 2 ^ 63 <= b1 < B -> 0 <= b' < P -> 0 <= w' < P -> 0 <= w ->
  0 <= w * P + w' < B * (b1 * P + b') -> q = Z.min (w / b1) (B - 1) ->
  (w * P + w') / (b1 * P + b') <= q <= (w * P + w') / (b1 * P + b') + 2.
Proof.
  intros HP Hb1 Hb' Hw' Hw HW Hq. pose proof B_half as HB.
  set (b := b1 * P + b') in *. set (W := w * P + w') in *.
  assert (0 < b) as Hb by (subst b; nia).
  pose proof (Z.div_mod W b ltac:(lia)) as HWd. pose proof (Z.mod_pos_bound W b Hb) as HWm.
  set (Q := W / b) in *. set (R := W mod b) in *.
  assert (0 <= Q < B) as HQ by (subst Q; split; [apply Z.div_pos|apply Z.div_lt_upper_bound]; lia).
  pose proof (Z.div_mod w b1 ltac:(lia)) as Hwd. pose proof (Z.mod_pos_bound w b1 ltac:(lia)) as Hwm.
  split.
  - (* Q * b1 <= w, so Q <= w / b1 *)
    rewrite Hq. apply Z.min_glb; [|lia]. apply Z.div_le_lower_bound; [lia|].
    assert (0 <= Q * b') by (apply Z.mul_nonneg_nonneg; lia).
    assert (Q * b1 < w + 1); [|lia]. apply (Zmult_lt_reg_r _ _ P); [done|]. subst b W. lia.
  - assert (q * b1 <= w) as Hq1.
    { assert (q <= w / b1) as Hle by lia. apply (Z.mul_le_mono_nonneg_r _ _ b1) in Hle; lia. }
    assert (0 <= q <= B - 1) as Hqb by (pose proof (Z.div_pos w b1); lia).
    (* q * b <= W + q * b' < W + B * P <= W + 2 * b *)
    assert (q * b' <= (B - 1) * P) by (apply Z.mul_le_mono_nonneg; lia).
    assert (q * b1 * P <= w * P) by (apply Z.mul_le_mono_nonneg_r; lia).
    assert (B * P <= 2 * b1 * P) by (apply Z.mul_le_mono_nonneg_r; lia).
    assert (q * b < W + 2 * b) by (subst b W; lia).
    assert (q < Q + 3) by (apply (Zmult_lt_reg_r _ _ b); lia). lia.
Qed.

Lemma limb_last l : limbs l -> l <> [] -> exists l0 x, l = l0 ++ [x] /\ limbs l0 /\ limb x.
Proof.
  intros Hl Hne. destruct (exists_last Hne) as (l0 & x & ->). exists l0, x.
  rewrite limbs_app, limbs_cons in Hl. tauto.
Qed.

(** The add-back loop started from a window whose value is [V - Bn (nb + 1)]
    with [V] the unsigned reading of the limbs: it stops as soon as the value is
    non-negative, after [k] additions. *)
Lemma mp_addback_spec (k : nat) fuel w b top q :
  limbs w -> limbs b -> length w = length b -> limb top -> Z.of_nat k < q < B ->
  (k < fuel)%nat -> 0 <= lval b ->
  lval w + Bn (length b) * top - B * Bn (length b) + Z.of_nat k * lval b < 0 ->
  0 <= lval w + Bn (length b) * top - B * Bn (length b) + Z.of_nat (S k) * lval b ->
  exists w', mp_addback fuel w b top q = Some (w', 0, q - Z.of_nat (S k)) /\
    limbs w' /\ length w' = length b /\
    lval w' = lval w + Bn (length b) * top - B * Bn (length b) + Z.of_nat (S k) * lval b.
Proof.
  revert fuel w top q. induction k as [|k IH]; intros fuel w top q Hw Hb Hl Ht Hq Hf Hb0 Hneg Hpos;
    (destruct fuel as [|fuel]; [lia|]); cbn [mp_addback];
    pose proof (mp_add_spec w b 0 Hw Hb Hl ltac:(by left)) as HA;
    destruct (mp_add w b 0) as [w' c]; destruct HA as (Hw' & Hlw & Hc & HA); rewrite Hl in *;
    pose proof (lval_bound w' Hw') as Hbw; rewrite Hlw in Hbw; pose proof (Bn_pos (length b));
    rewrite (u64_limb_id (q - 1)) by (unfold limb; lia); unfold limb in Ht.
  - assert (c = 1 /\ top = B - 1) as [-> ->] by (destruct Hc as [-> | ->]; nia).
    cbn [Z.eqb negb]. rewrite u64_mod. replace (B - 1 + 1) with (0 + 1 * B) by lia.
    rewrite Z.mod_add, Z.mod_0_l by lia. cbn [Z.eqb]. exists w'. split_and!; [f_equal; f_equal|done..|]; lia.
  - assert (exists top', limb top' /\ lval w' + Bn (length b) * top' = lval w + lval b + Bn (length b) * top
      /\ (if negb (c =? 0) then (if u64 (top + 1) =? 0 then Some (w', u64 (top + 1), q - 1)
            else mp_addback fuel w' b (u64 (top + 1)) (q - 1))
          else mp_addback fuel w' b top (q - 1)) = mp_addback fuel w' b top' (q - 1))
      as (top' & Ht' & Hv & ->).
    { destruct Hc as [-> | ->]; cbn [Z.eqb negb].
      - exists top. split_and!; [done|lia|done].
      - exists (top + 1). assert (top + 1 < B) by nia.
        rewrite u64_limb_id by (unfold limb; lia).
        destruct (Z.eqb_spec (top + 1) 0); [lia|]. split_and!; [unfold limb; lia|lia|done]. }
    destruct (IH fuel w' top' (q - 1)) as (w2 & -> & H1 & H2 & H3); [done..|lia|lia|done|lia|lia|].
    exists w2. split_and!; [f_equal; f_equal; lia|done..|lia].
Qed.

(** The estimated digit. *)
Lemma divnorm_estimate w t b b1 b1_inv :
  limbs w -> limbs b -> length w = length b -> b <> [] -> limb t ->
  last b = Some b1 -> 2 ^ 63 <= b1 -> b1_inv = 0 \/ b1_inv = udiv1norm_init b1 ->
  lval w + Bn (length b) * t < B * lval b ->
  let t1 := default 0 (last w) in
  let q := if b1 <=? t then u64 (-1)
           else if negb (b1_inv =? 0) then fst (udiv1norm t t1 b1 b1_inv)
           else u64 (Z.lor (Z.shiftl t 64) t1 / b1) in
  let Q := (lval w + Bn (length b) * t) / lval b in limb q /\ Q <= q <= Q + 2.
Proof.
  intros Hw Hb Hl Hne Ht Hlast Hb1 Hinv HW. cbn zeta.
  destruct (limb_last b Hb Hne) as (b0 & b1' & -> & Hb0 & Hb1').
  rewrite last_snoc in Hlast. injection Hlast as ->.
  destruct (limb_last w Hw) as (w0 & t1 & -> & Hw0 & Ht1).
  { destruct w; [destruct b0|]; done. }
  rewrite last_snoc. cbn [default from_option]. unfold id. rewrite !length_app in Hl. cbn [length] in Hl.
  assert (length w0 = length b0) as Hl0 by lia.
  rewrite !lval_app, !lval_single, length_app in *. cbn [length] in *. rewrite Hl0 in *.
  rewrite Nat.add_1_r, Bn_S in *. pose proof (lval_bound _ Hw0) as HBw. pose proof (lval_bound _ Hb0) as HBb.
  rewrite Hl0 in *. pose proof (Bn_pos (length b0)) as HP. pose proof B_half as HB.
  set (P := Bn (length b0)) in *. unfold limb in Ht, Ht1, Hb1'.
  replace (lval w0 + P * t1 + B * P * t) with ((t * B + t1) * P + lval w0) in * by ring.
  replace (lval b0 + P * b1) with (b1 * P + lval b0) in * by ring.
  match goal with |- limb ?q /\ _ => assert (q = Z.min ((t * B + t1) / b1) (B - 1)) as -> end.
  { destruct (Z.leb_spec b1 t).
    - assert (B <= (t * B + t1) / b1) by (apply Z.div_le_lower_bound; nia). rewrite Z.min_r by lia.
      rewrite u64_mod. replace (-1) with (B - 1 + (-1) * B) by lia. rewrite Z.mod_add, Z.mod_small; lia.
    - assert ((t * B + t1) / b1 < B) by (apply Z.div_lt_upper_bound; nia).
      rewrite Z.min_l by lia. destruct Hinv as [-> | ->]; [|case_match].
      + cbn [Z.eqb negb]. rewrite dlimb_pack by done. apply u64_limb_id. split; [apply Z.div_pos; lia|done].
      + by rewrite udiv1norm_spec by (unfold limb; lia).
      + rewrite dlimb_pack by done. apply u64_limb_id. split; [apply Z.div_pos; lia|done]. }
  split.
  { unfold limb. pose proof (Z.div_pos (t * B + t1) b1). lia. }
  apply (knuth_estimate P _ (lval w0) b1 (lval b0)); lia.
Qed.

Lemma mp_divnorm_digit_spec w t b b1 b1_inv :
  limbs w -> limbs b -> length w = length b -> b <> [] -> limb t ->
  last b = Some b1 -> 2 ^ 63 <= b1 -> b1_inv = 0 \/ b1_inv = udiv1norm_init b1 ->
  lval w + Bn (length b) * t < B * lval b ->
  exists w', mp_divnorm_digit w t b b1 b1_inv =
    Some (w', 0, (lval w + Bn (length b) * t) / lval b) /\
    limbs w' /\ length w' = length b /\ lval w' = (lval w + Bn (length b) * t) mod lval b.
Proof.
  intros Hw Hb Hl Hne Ht Hlast Hb1 Hinv HW. unfold mp_divnorm_digit.
  destruct (divnorm_estimate w t b b1 b1_inv Hw Hb Hl Hne Ht Hlast Hb1 Hinv HW) as [Hq Hest].
  match goal with |- context [mp_sub_mul1 w b ?x 0] => set (q := x) in * end.
  pose proof (lval_bound b Hb) as HBb. pose proof (lval_bound w Hw) as HBw. rewrite Hl in HBw.
  pose proof (Bn_pos (length b)) as HP. set (P := Bn (length b)) in *.
  set (W := lval w + P * t) in *. unfold limb in Ht.
  assert (0 < lval b) as Hb0 by nia.
  pose proof (Z.div_mod W (lval b) ltac:(lia)) as HWd.
  pose proof (Z.mod_pos_bound W (lval b) Hb0) as HWm.
  set (Q := W / lval b) in *. set (R := W mod lval b) in *.
  assert (0 <= Q) as HQ by (apply Z.div_pos; nia).
  pose proof (mp_sub_mul1_spec w b q 0 Hw Hb Hl Hq ltac:(split; [lia|apply B_pos])) as HS.
  destruct (mp_sub_mul1 w b q 0) as [w' r]. destruct HS as (Hw' & Hlw & Hr & HS).
  fold P in HS. pose proof (lval_bound w' Hw') as HBw'. rewrite Hlw in HBw'. fold P in HBw'.
  unfold limb in Hr, Hq.
  assert (exists c, bit c /\ 0 <= t - r + B * c < B /\
    u64 (t - r) = t - r + B * c /\ (t <? u64 (t - r)) = negb (c =? 0)) as (c & Hc & Ha & -> & ->).
  { rewrite u64_mod. destruct (Z.leb_spec r t).
    - exists 0. rewrite Z.mod_small by lia. split_and!; [by left|lia..|]. case_bool; [lia|done].
    - exists 1. replace (t - r) with (t - r + B + (-1) * B) by lia.
      rewrite Z.mod_add, Z.mod_small by lia. split_and!; [by right|lia..|]. case_bool; [done|lia]. }
  assert (lval w' + P * (t - r) = W - q * lval b) as HV by (subst W; lia).
  destruct Hc as [-> | ->]; cbn [Z.eqb negb].
  - assert (0 <= P * (t - r)) by (apply Z.mul_nonneg_nonneg; lia).
    assert (q < Q + 1) by (apply (Zmult_lt_reg_r _ _ (lval b)); lia).
    assert (q = Q) as Heq by lia. rewrite Heq in *.
    assert (t - r < 1) by (apply (Zmult_lt_reg_r _ _ P); lia).
    exists w'. assert (t - r = 0) as Ht0 by lia. rewrite Ht0 in *.
    split_and!; [f_equal; f_equal; f_equal; lia|done|done|lia].
  - assert (P * (t - r) <= P * -1) by (apply Z.mul_le_mono_nonneg_l; lia).
    assert (Q < q) by (apply (Zmult_lt_reg_r _ _ (lval b)); lia).
    destruct (mp_addback_spec (Z.to_nat (q - Q - 1)) addback_fuel w' b (t - r + B) q)
      as (w2 & Heq & H1 & H2 & H3); try done; try (unfold limb, addback_fuel; lia); fold P.
    { replace (Z.of_nat (S (Z.to_nat (q - Q - 1)))) with (q - Q) by lia. lia. }
    replace (Z.of_nat (S (Z.to_nat (q - Q - 1)))) with (q - Q) in * by lia.
    exists w2. replace (t - r + B * 1) with (t - r + B) by lia. rewrite Heq.
    split_and!; [f_equal; f_equal; lia|done|done|]. rewrite H3. fold P. lia.
Qed.

Lemma slice_app lo w hi : slice (length lo) (length w) (lo ++ w ++ hi) = w.
Proof. unfold slice. by rewrite drop_app_length, take_app_length. Qed.
Lemma splice_app lo s w hi :
  length s = length w -> splice (length lo) s (lo ++ w ++ hi) = lo ++ s ++ hi.
Proof.
  intros Hl. unfold splice. rewrite take_app_length. do 2 f_equal.
  rewrite app_assoc, Hl, <- length_app. apply drop_app_length.
Qed.

(** The window of [n] limbs at [i], with what is below and above. *)
Lemma window_split (i n : nat) (tab : list Z) :
  (i + n <= length tab)%nat ->
  exists lo w hi, tab = lo ++ w ++ hi /\ length lo = i /\ length w = n.
Proof.
  intros H. exists (take i tab), (slice i n tab), (drop n (drop i tab)). unfold slice.
  split_and!; [by rewrite !take_drop|rewrite length_take; lia|].
  rewrite length_take, length_drop. lia.
Qed.

Lemma mp_divnorm_loop_spec i taba b b1 b1_inv :
  limbs taba -> limbs b -> b <> [] -> (i + length b <= length taba)%nat ->
  last b = Some b1 -> 2 ^ 63 <= b1 -> b1_inv = 0 \/ b1_inv = udiv1norm_init b1 ->
  lval (slice i (length b) taba) < lval b ->
  exists taba' qs, mp_divnorm_loop i taba b b1 b1_inv = Some (taba', qs) /\
    limbs taba' /\ length taba' = length taba /\ limbs qs /\ length qs = i /\
    lval (take (length b) taba') < lval b /\
    lval (take (i + length b) taba) = lval qs * lval b + lval (take (length b) taba').
Proof.
  revert taba. induction i as [|i IH]; intros taba Ha Hb Hne Hlen Hlast Hb1 Hinv Hlt.
  { exists taba, []. cbn. unfold slice in Hlt. rewrite drop_0 in Hlt. split_and!; auto with limbs; lia. }
  destruct (window_split i (length b + 1) taba) as (lo & w & hi & -> & Hlo & Hlw); [lia|].
  rewrite !limbs_app in Ha. destruct Ha as (Hllo & Hlw' & Hlhi).
  destruct (limb_last w Hlw') as (w0 & t & -> & Hw0 & Ht); [by destruct w; cbn in Hlw; [lia|]|].
  rewrite length_app in Hlw. cbn in Hlw. assert (length w0 = length b) as Hl0 by lia.
  cbn [mp_divnorm_loop].
  assert (slice i (length b) (lo ++ (w0 ++ [t]) ++ hi) = w0) as ->.
  { rewrite <- app_assoc, <- Hlo, <- Hl0. apply slice_app. }
  assert (default 0 ((lo ++ (w0 ++ [t]) ++ hi) !! (i + length b)%nat) = t) as ->.
  { rewrite <- Hl0, lookup_app_r, <- app_assoc, lookup_app_r by lia.
    by replace (i + length w0 - length lo - length w0)%nat with 0%nat by lia. }
  assert (lval w0 + Bn (length b) * t < B * lval b) as HW.
  { assert (slice (S i) (length b) (lo ++ (w0 ++ [t]) ++ hi) = drop 1 (w0 ++ [t])) as Hs.
    { destruct w0 as [|x w0]; [by destruct b|]. rewrite <- Hl0.
      replace (S i) with (length (lo ++ [x])) by (rewrite length_app; cbn; lia).
      replace (lo ++ ((x :: w0) ++ [t]) ++ hi) with ((lo ++ [x]) ++ (w0 ++ [t]) ++ hi)
        by (by rewrite <- !app_assoc).
      replace (length (x :: w0)) with (length (w0 ++ [t])) by (rewrite length_app; cbn; lia).
      apply slice_app. }
    rewrite Hs in Hlt. rewrite <- Hl0, <- (lval_single t), <- lval_app.
    destruct w0 as [|x w0]; [by destruct b|]. apply limbs_cons in Hw0 as [Hx Hw0].
    cbn [app lval drop] in Hlt |- *. unfold limb in Hx. rewrite ?drop_0 in Hlt. assert (B * (lval (w0 ++ [t]) + 1) <= B * lval b) by (apply Z.mul_le_mono_nonneg_l; lia). lia. }
  destruct (mp_divnorm_digit_spec w0 t b b1 b1_inv) as (w' & -> & Hw' & Hlw2 & Hv); try done.
  assert (splice i (w' ++ [0]) (lo ++ (w0 ++ [t]) ++ hi) = lo ++ (w' ++ [0]) ++ hi) as ->.
  { rewrite <- Hlo. apply splice_app. rewrite !length_app. cbn. lia. }
  destruct (IH (lo ++ (w' ++ [0]) ++ hi)) as (taba' & qs & -> & G1 & G2 & G3 & G4 & G5 & G6); try done.
  { rewrite !limbs_app, limbs_cons. split_and!; auto with limbs. split; [lia|apply B_pos]. }
  { rewrite !length_app in *. cbn in *. lia. }
  { rewrite <- app_assoc, <- Hlo, <- Hlw2, slice_app, Hv. apply Z.mod_pos_bound.
    pose proof (lval_bound w0 Hw0). pose proof (Bn_pos (length b)). unfold limb in Ht. nia. }
  assert (0 < lval b) as Hb0.
  { pose proof (lval_bound w0 Hw0). pose proof (Bn_pos (length b)). unfold limb in Ht.
    pose proof (lval_bound b Hb). nia. }
  eexists taba', _. split_and!; [done|done| | | |done|].
  { rewrite G2, !length_app. cbn. lia. }
  { rewrite limbs_app, limbs_cons. split_and!; auto with limbs.
    pose proof (lval_bound w0 Hw0). pose proof (Bn_pos (length b)). unfold limb in *.
    split; [apply Z.div_pos; nia|apply Z.div_lt_upper_bound; lia]. }
  { rewrite length_app. cbn. lia. }
  assert (take (S i + length b) (lo ++ (w0 ++ [t]) ++ hi) = lo ++ w0 ++ [t]) as ->.
  { rewrite app_assoc. replace (S i + length b)%nat with (length (lo ++ w0 ++ [t])).
    - apply take_app_length.
    - rewrite !length_app. cbn. lia. }
  assert (take (i + length b) (lo ++ (w' ++ [0]) ++ hi) = lo ++ w') as Htk.
  { rewrite <- app_assoc, app_assoc. replace (i + length b)%nat with (length (lo ++ w')).
    - apply take_app_length.
    - rewrite !length_app. lia. }
  rewrite Htk, lval_app, Hlo, Hv in G6.
  rewrite !lval_app, !lval_single, Hl0, Hlo, G4.
  pose proof (Z.div_mod (lval w0 + Bn (length b) * t) (lval b) ltac:(lia)) as Hdm.
  set (W := lval w0 + Bn (length b) * t) in *. set (X := lval lo) in *.
  assert (Bn i * W = Bn i * (lval b * (W / lval b) + W mod lval b)) by (by rewrite <- Hdm). lia.
Qed.

Lemma mp_first_diff_spec w b :
  limbs w -> limbs b -> length w = length b ->
  match mp_first_diff w b with
  | None => lval w = lval b
  | Some q => (q = 0 /\ lval w < lval b) \/ (q = 1 /\ lval b < lval w)
  end.
Proof.
  revert b. induction w as [|x w IH]; intros [|y b] Hw Hb Hl; try done.
  apply limbs_cons in Hw as [Hx Hw], Hb as [Hy Hb]. cbn [mp_first_diff lval].
  specialize (IH b Hw Hb ltac:(by injection Hl)). unfold limb in *.
  destruct (mp_first_diff w b) as [q|].
  - destruct IH as [[-> ?]|[-> ?]]; [left|right]; (split; [done|nia]).
  - rewrite IH. case_bool; [lia|]. case_bool; [left|right]; lia.
Qed.

(** The first digit: [0] or [1], leaving a window below the divisor. *)
Lemma mp_divnorm_first w b b1 :
  limbs w -> limbs b -> length w = length b -> last b = Some b1 -> 2 ^ 63 <= b1 ->
  exists w1 : list Z, let q := default 1 (mp_first_diff w b) in
    w1 = (if negb (q =? 0) then fst (mp_sub w b 0) else w) /\ limbs w1 /\ length w1 = length b /\ 
    bit q /\ lval w1 < lval b /\ lval w = lval w1 + q * lval b.
Proof.
  intros Hw Hb Hl Hlast Hb1. pose proof (mp_first_diff_spec w b Hw Hb Hl) as HF.
  pose proof (mp_sub_spec w b 0 Hw Hb Hl ltac:(by left)) as HS.
  destruct (mp_sub w b 0) as [w1 k]. destruct HS as (Hw1 & Hl1 & Hk & HS). rewrite Hl in *. cbn [fst].
  pose proof (lval_bound w Hw) as HBw. pose proof (lval_bound w1 Hw1) as HBw1. rewrite Hl1, ?Hl in *.
  assert (Bn (length b) <= 2 * lval b) as Hhalf.
  { assert (b <> []) as Hne by (by destruct b).
    destruct (limb_last b Hb Hne) as (b0 & b1' & -> & Hb0 & _). rewrite last_snoc in Hlast.
    injection Hlast as ->. rewrite lval_app, lval_single, length_app, Nat.add_1_r, Bn_S.
    pose proof (lval_bound b0 Hb0). pose proof B_half. pose proof (Bn_pos (length b0)). nia. }
  assert (lval b <= lval w -> lval w1 = lval w - lval b /\ lval w1 < lval b) as Hge.
  { intros Hge. destruct Hk as [-> | ->]; [lia|]. lia. }
  destruct (mp_first_diff w b) as [q|]; [destruct HF as [[-> HF]|[-> HF]]|];
    cbn [default from_option id Z.eqb negb]; unfold id; eexists; (split; [done|]);
    split_and!; try done; try (by left); try (by right); lia.
Qed.

(** Division of multi-limb numbers: it returns, whatever the digits, with the
    quotient and the remainder of the values. *)
Lemma mp_divnorm_spec a b b1 :
  limbs a -> limbs b -> (length b <= length a)%nat -> last b = Some b1 -> 2 ^ 63 <= b1 ->
  exists a' q, mp_divnorm a b = Some (a', q) /\
    limbs a' /\ length a' = length a /\ limbs q /\ length q = (length a - length b + 1)%nat /\
    lval q = lval a / lval b /\ lval (take (length b) a') = lval a mod lval b.
Proof.
  intros Ha Hb Hlen Hlast Hb1. unfold mp_divnorm. rewrite Hlast. change (default 0 (Some b1)) with b1.
  assert (b <> []) as Hne by (by destruct b).
  destruct (limb_last b Hb Hne) as (b0 & b1' & Hbeq & Hb0 & Hb1').
  assert (b1' = b1) as -> by (rewrite Hbeq, last_snoc in Hlast; congruence). unfold limb in Hb1'.
  destruct (Nat.eqb_spec (length b) 1) as [H1|H1].
  { destruct b0; [|rewrite Hbeq, length_app in H1; cbn in H1; lia]. cbn in Hbeq. subst b.
    rewrite mp_div1norm_eq by (done || lia). pose proof (mp_div1_spec a b1 0 Ha Hb1' ltac:(lia)) as HS.
    destruct (mp_div1 a b1 0) as [q r]. destruct HS as (Hq & Hlq & Hr & HS).
    destruct a as [|x a]; [cbn in Hlen; lia|]. apply limbs_cons in Ha as [Hx Ha].
    eexists _, _. split_and!; [done| | |done| | |]; cbn [splice take app drop length Nat.add] in *; rewrite ?lval_single.
    - apply limbs_cons. split; [unfold limb; lia|]. by rewrite drop_0.
    - rewrite ?drop_0. done.
    - lia.
    - apply Z.div_unique with (r := r); lia.
    - apply Z.mod_unique with (q := lval q); lia. }
  set (n := (length a - length b)%nat).
  destruct (window_split n (length b) a) as (lo & w & hi & -> & Hlo & Hlw); [lia|].
  assert (hi = []) as -> by (apply length_zero_iff_nil; subst n; rewrite !length_app in *; lia).
  rewrite <- Hlo, <- Hlw, slice_app, app_nil_r in *. rewrite !limbs_app in Ha. destruct Ha as [Hllo Hw].
  destruct (mp_divnorm_first w b b1) as (w1 & Hw1 & Hlw1 & Hll1 & Hq & Hlt & Hval); try done.
  set (q := default 1 (mp_first_diff w b)) in *.
  assert ((if negb (q =? 0) then splice (length lo) (fst (mp_sub w b 0)) (lo ++ w) else lo ++ w) = lo ++ w1) as ->.
  { rewrite Hw1 in Hll1 |- *. case_match; [|done].
    pose proof (splice_app lo (fst (mp_sub w b 0)) w []) as Hsp. rewrite !app_nil_r in Hsp. apply Hsp. lia. }
  match goal with |- context [mp_divnorm_loop _ _ b b1 ?x] => set (inv := x) end.
  destruct (mp_divnorm_loop_spec (length lo) (lo ++ w1) b b1 inv)
    as (a' & qs & -> & G1 & G2 & G3 & G4 & G5 & G6); try done.
  { rewrite limbs_app. done. }
  { rewrite length_app. lia. }
  { subst inv. destruct (_ <=? _)%nat; auto. }
  { pose proof (slice_app lo w1 []) as Hsl. rewrite app_nil_r, Hll1 in Hsl. by rewrite Hsl. }
  rewrite take_ge, lval_app in G6 by (rewrite length_app; lia).
  pose proof (lval_bound _ (limbs_take (length b) _ G1)) as Hrem.
  assert (lval (lo ++ w) = lval b * lval (qs ++ [q]) + lval (take (length b) a')) as Hdiv.
  { rewrite !lval_app, lval_single, G4, Hval. lia. }
  eexists a', _. split_and!; [done|done| | | | |].
  - rewrite G2, !length_app. lia.
  - rewrite limbs_app, limbs_cons. split_and!; auto with limbs.
    pose proof B_half. destruct Hq as [-> | ->]; unfold limb; lia.
  - rewrite !length_app. cbn. lia.
  - apply Z.div_unique with (r := lval (take (length b) a')); [lia|done].
  - rewrite Hlw. apply Z.mod_unique with (q := lval (qs ++ [q])); [lia|done].
Qed.

(** ** Shifts *)

Lemma B_shift s : 0 <= s <= 64 -> 2 ^ s * 2 ^ (64 - s) = B.
Proof. intros. rewrite <- Z.pow_add_r by lia. by replace (s + (64 - s)) with 64 by lia. Qed.

Lemma u64_shiftl x s :
  0 <= s <= 64 -> u64 (Z.shiftl x s) = (x mod 2 ^ (64 - s)) * 2 ^ s.
Proof.
  intros Hs. rewrite u64_mod, Z.shiftl_mul_pow2 by lia.
  rewrite <- (B_shift s), (Z.mul_comm (2 ^ s)), Z.mul_mod_distr_r by lia. done.
Qed.

Lemma mp_shl_loop_spec a s l :
  limbs a -> 1 <= s <= 63 -> 0 <= l < 2 ^ s ->
  let '(r, h) := mp_shl_loop a s l in
  limbs r /\ length r = length a /\ 0 <= h < 2 ^ s /\
  lval r + Bn (length a) * h = lval a * 2 ^ s + l.
Proof.
  intros Ha Hs. revert l. induction a as [|x a IH]; intros l Hl.
  - cbn. rewrite Bn_0. split_and!; auto with limbs; lia.
  - apply limbs_cons in Ha as [Hx Ha]. cbn [mp_shl_loop]. unfold JS_LIMB_BITS.
    pose proof (B_shift s ltac:(lia)) as HBs. unfold limb in Hx.
    assert (0 < 2 ^ s) by lia. assert (0 < 2 ^ (64 - s)) by (apply Z.pow_pos_nonneg; lia).
    rewrite Z.shiftr_div_pow2 by lia.
    assert (0 <= x / 2 ^ (64 - s) < 2 ^ s) as Hh
      by (split; [apply Z.div_pos|apply Z.div_lt_upper_bound]; lia).
    specialize (IH Ha _ Hh). destruct (mp_shl_loop a s _) as [rs h]. destruct IH as (Hrs & Hlr & Hhh & IH).
    rewrite u64_shiftl, lor_mul_small by lia.
    pose proof (Z.div_mod x (2 ^ (64 - s)) ltac:(lia)). pose proof (Z.mod_pos_bound x (2 ^ (64 - s)) ltac:(lia)).
    set (m := x mod 2 ^ (64 - s)) in *. set (d := x / 2 ^ (64 - s)) in *.
    cbn [lval length]. rewrite Bn_S.
    assert (m * 2 ^ s <= (2 ^ (64 - s) - 1) * 2 ^ s) by (apply Z.mul_le_mono_nonneg_r; lia).
    assert (0 <= m * 2 ^ s) by (apply Z.mul_nonneg_nonneg; lia).
    split_and!; [|by rewrite Hlr|lia..|].
    + apply limbs_cons. split; [unfold limb; lia|done].
    + assert (x * 2 ^ s = B * d + m * 2 ^ s) by (rewrite <- HBs; lia).
      assert (B * (lval rs + Bn (length a) * h) = B * (lval a * 2 ^ s + d)) by (by rewrite IH). lia.
Qed.

Lemma mp_shl_spec a s :
  limbs a -> 1 <= s <= 63 ->
  let '(r, h) := mp_shl a s in
  limbs r /\ length r = length a /\ 0 <= h < 2 ^ s /\
  lval r + Bn (length a) * h = lval a * 2 ^ s.
Proof.
  intros Ha Hs. pose proof (mp_shl_loop_spec a s 0 Ha Hs ltac:(lia)) as H. unfold mp_shl.
  destruct (mp_shl_loop a s 0). by rewrite Z.add_0_r in H.
Qed.

Lemma mp_shr_loop_spec a s high :
  limbs a -> 1 <= s <= 63 -> limb high ->
  let '(r, l) := mp_shr_loop a s high in
  limbs r /\ length r = length a /\ limb l /\
  lval r * 2 ^ s + l mod 2 ^ s = lval a + Bn (length a) * (high mod 2 ^ s).
Proof.
  intros Ha Hs Hh. induction a as [|x a IH].
  - cbn. rewrite Bn_0. split_and!; auto with limbs; lia.
  - apply limbs_cons in Ha as [Hx Ha]. specialize (IH Ha). cbn [mp_shr_loop]. unfold JS_LIMB_BITS.
    destruct (mp_shr_loop a s high) as [rs l]. destruct IH as (Hrs & Hlr & Hl & IH).
    pose proof (B_shift s ltac:(lia)) as HBs. unfold limb in Hx.
    assert (0 < 2 ^ s) by lia. assert (0 < 2 ^ (64 - s)) by (apply Z.pow_pos_nonneg; lia).
    rewrite u64_shiftl by lia. replace (64 - (64 - s)) with s by lia.
    rewrite Z.shiftr_div_pow2 by lia.
    assert (0 <= x / 2 ^ s < 2 ^ (64 - s)) as Hd
      by (split; [apply Z.div_pos|apply Z.div_lt_upper_bound]; lia).
    rewrite Z.lor_comm, lor_mul_small by lia.
    pose proof (Z.div_mod x (2 ^ s) ltac:(lia)). pose proof (Z.mod_pos_bound l (2 ^ s) ltac:(lia)).
    set (m := l mod 2 ^ s) in *. set (d := x / 2 ^ s) in *.
    assert (m * 2 ^ (64 - s) <= (2 ^ s - 1) * 2 ^ (64 - s)) by (apply Z.mul_le_mono_nonneg_r; lia).
    assert (0 <= m * 2 ^ (64 - s)) by (apply Z.mul_nonneg_nonneg; lia).
    cbn [lval length]. rewrite Bn_S. split_and!; [|by rewrite Hlr|done|].
    + apply limbs_cons. split; [unfold limb; lia|done].
    + assert (m * 2 ^ (64 - s) * 2 ^ s = m * B) by (rewrite <- HBs; lia).
      assert (B * (lval rs * 2 ^ s + m) = B * (lval a + Bn (length a) * (high mod 2 ^ s))) by (by rewrite IH).
      lia.
Qed.

(** [mp_shr] is the floor of the value with [high] on top, [n] limbs of it. *)
Lemma mp_shr_spec a s high :
  limbs a -> 1 <= s <= 63 -> limb high -> a <> [] ->
  limbs (fst (mp_shr a s high)) /\ length (fst (mp_shr a s high)) = length a /\
  lval (fst (mp_shr a s high)) = (lval a + Bn (length a) * (high mod 2 ^ s)) / 2 ^ s.
Proof.
  intros Ha Hs Hh Hne. unfold mp_shr. pose proof (mp_shr_loop_spec a s high Ha Hs Hh) as H.
  destruct (mp_shr_loop a s high) as [r l]. destruct H as (Hr & Hl & Hll & H). cbn [fst].
  split_and!; [done..|]. rewrite <- H, Z.div_add_l by lia.
  rewrite Z.div_small by (apply Z.mod_pos_bound; lia). lia.
Qed.
