(* ===== verification/BigInt.v ===== *)
(** * JSBigInt: arithmetic on two's complement limb arrays (quickjs.c)

    A [JSBigInt] is its [tab]: at least one limb, least significant first, read
    in two's complement, and without redundant high limbs.  [bval] is the
    integer it stands for; every operation is related to the operation of [Z]
    it implements.  The engine context is the source of the two failures the
    code reports: a length over [JS_BIGINT_MAX_SIZE] and a refused allocation. *)
From S2P Require Import Prelude Limbs.

(** Which allocation sizes [js_malloc] grants. *)
Record JSContext : Type := { js_malloc_ok : Z -> bool }.

(** The exception pending when a function returns [NULL]; [Diverges] is a loop
    of the model that ran out of fuel, [Fault] a failed assertion or an access
    outside a buffer. *)
Inductive js_error : Type :=
| RangeError (msg : string)
| OutOfMemory
| Diverges
| Fault (why : string).

Definition res (A : Type) : Type := js_error + A.
Definition rbind {A C} (m : res A) (k : A -> res C) : res C :=
  match m with inl e => inl e | inr a => k a end.
Notation "'let!' p ':=' m 'in' k" := (rbind m (fun p => k))
  (at level 10, p as pattern, m at level 200, k at level 200,
   format "'[v' 'let!'  p  ':='  m  'in' '/' k ']'") : c_scope.

Definition JSBigInt : Type := list Z.

Definition JS_BIGINT_MAX_SIZE : Z := 1024 * 1024 / JS_LIMB_BITS.
Definition too_large_to_allocate : js_error := RangeError "BigInt is too large to allocate".

(** Room for [len] limbs; the caller fills [tab]. *)
Definition js_bigint_new (ctx : JSContext) (len : nat) : res unit :=
  if JS_BIGINT_MAX_SIZE <? Z.of_nat len then inl too_large_to_allocate
  else if js_malloc_ok ctx (8 + Z.of_nat len * 8) then inr tt else inl OutOfMemory.

(** ** Constructors from machine integers *)

Definition js_bigint_set_si (a : Z) : JSBigInt := [u64 a].
Definition js_bigint_set_si64 (a : Z) : JSBigInt := js_bigint_set_si a.
Definition js_bigint_set_short (val : Z) : JSBigInt := js_bigint_set_si val.

Definition js_bigint_new_si (ctx : JSContext) (a : Z) : res JSBigInt :=
  let! _ := js_bigint_new ctx 1 in inr [u64 a].
Definition js_bigint_new_si64 (ctx : JSContext) (a : Z) : res JSBigInt := js_bigint_new_si ctx a.

(** [a]: uint64_t. *)
Definition js_bigint_new_ui64 (ctx : JSContext) (a : Z) : res JSBigInt :=
  if a <=? 2 ^ 63 - 1 then js_bigint_new_si64 ctx (i64 a)
  else let! _ := js_bigint_new ctx 2 in inr [u64 a; 0].

(** [a]: a signed double limb. *)
Definition js_bigint_new_di (ctx : JSContext) (a : Z) : res JSBigInt :=
  if a =? i64 a then let! _ := js_bigint_new ctx 1 in inr [u64 a]
  else let! _ := js_bigint_new ctx 2 in inr [u64 a; u64 (Z.shiftr a JS_LIMB_BITS)].

(** ** Normal form *)

(** The test of [js_bigint_normalize1] and [js_bigint_extend]: the limb [v]
    above [w] only repeats the sign bit of [w]. *)
Definition limb_redundant (v w : Z) : bool :=
  negb ((negb (v =? 0) && negb (v =? u64 (-1))) || negb (Z.land v 1 =? Z.shiftr w 63)).

(** [while (l > 1)] of [js_bigint_normalize1]. *)
Fixpoint normalize_len (tab : list Z) (l : nat) : nat :=
  match l with
  | S (S l'' as l') =>
      if limb_redundant (default 0 (tab !! l')) (default 0 (tab !! l''))
      then normalize_len tab l' else l
  | _ => l
  end.
Definition js_bigint_normalize1 (a : JSBigInt) (l : nat) : JSBigInt :=
  take (normalize_len a l) a.
Definition js_bigint_normalize (a : JSBigInt) : JSBigInt := js_bigint_normalize1 a (length a).

Definition js_bigint_sign (a : JSBigInt) : Z := Z.shiftr (default 0 (last a)) 63.

Definition js_bigint_get_si_sat (a : JSBigInt) : Z :=
  if (length a =? 1)%nat then i64 (default 0 (a !! 0%nat))
  else if negb (js_bigint_sign a =? 0) then - 2 ^ 63 else 2 ^ 63 - 1.

(** Add the limb [op1] on top of [r], unless it is redundant. *)
Definition js_bigint_extend (ctx : JSContext) (r : JSBigInt) (op1 : Z) : res JSBigInt :=
  if negb (limb_redundant op1 (default 0 (last r))) then
    if js_malloc_ok ctx (8 + (Z.of_nat (length r) + 1) * 8) then inr (r ++ [op1])
    else inl OutOfMemory
  else inr (js_bigint_normalize r).

(** ** Addition, subtraction, multiplication *)

(** Limbs [i >= n1] of the longer operand against the sign of the other. *)
Fixpoint add_sign_loop (tab : list Z) (sign carry : Z) : list Z * Z :=
  match tab with
  | [] => ([], carry)
  | x :: tab' =>
      let '(r, c) := ADDC x sign carry in
      let '(rs, c') := add_sign_loop tab' sign c in (r :: rs, c')
  end.

(** The same with the sign as the first operand. *)
Fixpoint sign_add_loop (sign : Z) (tab : list Z) (carry : Z) : list Z * Z :=
  match tab with
  | [] => ([], carry)
  | y :: tab' =>
      let '(r, c) := ADDC sign y carry in
      let '(rs, c') := sign_add_loop sign tab' c in (r :: rs, c')
  end.

(** [op2 = b->tab[i] ^ (-b_neg)] *)
Definition xor_neg (b_neg : bool) (x : Z) : Z := Z.lxor x (u64 (- b2z b_neg)).

Definition js_bigint_add (ctx : JSContext) (a b : JSBigInt) (b_neg : bool) : res JSBigInt :=
  let n2 := Nat.max (length a) (length b) in
  let n1 := Nat.min (length a) (length b) in
  let! _ := js_bigint_new ctx n2 in
  let '(r1, carry) := mp_add (take n1 a) (xor_neg b_neg <$> take n1 b) (b2z b_neg) in
  let a_sign := u64 (- js_bigint_sign a) in
  let b_sign := xor_neg b_neg (u64 (- js_bigint_sign b)) in
  let '(r2, carry) :=
    if (length b <? length a)%nat then add_sign_loop (drop n1 a) b_sign carry
    else if (length a <? length b)%nat then
      sign_add_loop a_sign (xor_neg b_neg <$> drop n1 b) carry
    else ([], carry) in
  js_bigint_extend ctx (r1 ++ r2) (u64 (a_sign + b_sign + carry)).

Definition js_bigint_neg (ctx : JSContext) (a : JSBigInt) : res JSBigInt :=
  js_bigint_add ctx (js_bigint_set_si 0) a true.

(** [mp_sub(r + i, r + i, t, n, 0)] in place. *)
Definition sub_at (i : nat) (r t : list Z) : list Z :=
  splice i (fst (mp_sub (slice i (length t) r) t 0)) r.

Definition js_bigint_mul (ctx : JSContext) (a b : JSBigInt) : res JSBigInt :=
  let! _ := js_bigint_new ctx (length a + length b) in
  let r := mp_mul_basecase a b in
  let r := if negb (js_bigint_sign a =? 0) then sub_at (length a) r b else r in
  let r := if negb (js_bigint_sign b =? 0) then sub_at (length b) r a else r in
  inr (js_bigint_normalize r).

(** ** Division *)

(** [while (n > 1 && tab[n - 1] == 0) n--;] *)
Fixpoint strip_len (tab : list Z) (n : nat) : nat :=
  match n with
  | S (S _ as n') => if default 0 (tab !! n') =? 0 then strip_len tab n' else n
  | _ => n
  end.

(** [abs(a)] as limbs: [mp_neg] or a copy, without its high zero limbs. *)
Definition abs_limbs (sign : Z) (tab : list Z) : list Z :=
  let r := if negb (sign =? 0) then fst (mp_neg tab) else tab in
  take (strip_len r (length r)) r.

Definition is_zero (a : JSBigInt) : bool :=
  (length a =? 1)%nat && (default 0 (a !! 0%nat) =? 0).

Definition js_malloc (ctx : JSContext) (size : Z) : res unit :=
  if js_malloc_ok ctx size then inr tt else inl OutOfMemory.

Definition js_bigint_divrem (ctx : JSContext) (a b : JSBigInt) (is_rem : bool) : res JSBigInt :=
  if is_zero b then inl (RangeError "BigInt division by zero")
  else
    let a_sign := js_bigint_sign a in
    let b_sign := js_bigint_sign b in
    let! _ := js_bigint_new ctx (length a + 2) in
    let r := abs_limbs a_sign a in
    let! _ := js_malloc ctx (Z.of_nat (length b) * 8) in
    let tabb := abs_limbs b_sign b in
    let nb := length tabb in
    if (length r <? nb)%nat then
      if is_rem then let! _ := js_bigint_new ctx (length a) in inr a
      else js_bigint_new_si ctx 0
    else
      let shift := js_limb_clz (default 0 (last tabb)) in
      let '(tabb, r) :=
        if negb (shift =? 0) then
          let '(r', h) := mp_shl r shift in
          (fst (mp_shl tabb shift), if negb (h =? 0) then r' ++ [h] else r')
        else (tabb, r) in
      let! _ := js_bigint_new ctx (length r - nb + 2) in
      match mp_divnorm r tabb with
      | None => inl Diverges
      | Some (r, q) =>
          if is_rem then
            let r := take nb r in
            let r := if negb (shift =? 0) then fst (mp_shr r shift 0) else r in
            let r := r ++ [0] in
            let r := if negb (a_sign =? 0) then fst (mp_neg r) else r in
            inr (js_bigint_normalize1 r (nb + 1))
          else
            let q := q ++ [0] in
            let q := if negb (Z.lxor a_sign b_sign =? 0) then fst (mp_neg q) else q in
            inr (js_bigint_normalize q)
      end.

(** ** Bitwise operations and shifts *)

Inductive logic_op : Type := OP_or | OP_and | OP_xor.
Definition logic_fun (op : logic_op) : Z -> Z -> Z :=
  match op with OP_or => Z.lor | OP_and => Z.land | OP_xor => Z.lxor end.

Definition js_bigint_logic (ctx : JSContext) (a b : JSBigInt) (op : logic_op) : res JSBigInt :=
  let '(a, b) := if (length a <? length b)%nat then (b, a) else (a, b) in
  let b_len := length b in
  let b_sign := u64 (- js_bigint_sign b) in
  let! _ := js_bigint_new ctx (length a) in
  let f := logic_fun op in
  inr (js_bigint_normalize
         (zip_with f (take b_len a) b ++ ((fun x => f x b_sign) <$> drop b_len a))).

Definition js_bigint_not (ctx : JSContext) (a : JSBigInt) : res JSBigInt :=
  let! _ := js_bigint_new ctx (length a) in
  inr ((fun x => u64 (Z.lnot x)) <$> a).

(** [shift1]: unsigned int. *)
Definition js_bigint_shl (ctx : JSContext) (a : JSBigInt) (shift1 : Z) : res JSBigInt :=
  if is_zero a then js_bigint_new_si ctx 0
  else
    let d := Z.to_nat (shift1 / JS_LIMB_BITS) in
    let shift := shift1 mod JS_LIMB_BITS in
    let! _ := js_bigint_new ctx (length a + d) in
    if shift =? 0 then inr (replicate d 0 ++ a)
    else
      let '(t, l) := mp_shl a shift in
      let l := if negb (js_bigint_sign a =? 0) then Z.lor l (u64 (Z.shiftl (-1) shift)) else l in
      js_bigint_extend ctx (replicate d 0 ++ t) l.

Definition js_bigint_shr (ctx : JSContext) (a : JSBigInt) (shift1 : Z) : res JSBigInt :=
  let d := Z.to_nat (shift1 / JS_LIMB_BITS) in
  let shift := shift1 mod JS_LIMB_BITS in
  let a_sign := js_bigint_sign a in
  if (length a <=? d)%nat then js_bigint_new_si ctx (- a_sign)
  else
    let n1 := (length a - d)%nat in
    let! _ := js_bigint_new ctx n1 in
    if shift =? 0 then inr (drop d a)
    else inr (js_bigint_normalize (fst (mp_shr (drop d a) shift (u64 (- a_sign))))).

(** ** Power *)

(** [for(i = n_bits - 2; i >= 0; i--)], with [i + 1] rounds left. *)
Fixpoint pow_loop (ctx : JSContext) (a : JSBigInt) (e : Z) (i : nat) (r : JSBigInt) : res JSBigInt :=
  match i with
  | O => inr r
  | S i' =>
      let! r := js_bigint_mul ctx r r in
      let! r := (if Z.land (Z.shiftr e (Z.of_nat i')) 1 =? 0 then inr r
                 else js_bigint_mul ctx r a) in
      pow_loop ctx a e i' r
  end.

Definition too_large : js_error := RangeError "BigInt is too large".

(** From [if (b->len > 1) goto overflow]: square and multiply. *)
Definition pow_general (ctx : JSContext) (a b : JSBigInt) : res JSBigInt :=
  let b0 := default 0 (b !! 0%nat) in
  if (1 <? length b)%nat then inl too_large
  else if 2 ^ 31 - 1 <? b0 then inl too_large
  else
    let! _ := js_bigint_new ctx (length a) in
    pow_loop ctx a b0 (Z.to_nat (Z.log2 b0)) a.

(** [(+/- 2^n)^e]: a single bit, or the sign and the bit. *)
Definition pow_two (ctx : JSContext) (v : Z) (is_neg : bool) (b : JSBigInt) : res JSBigInt :=
  let b0 := default 0 (b !! 0%nat) in
  let n := JS_LIMB_BITS - 1 - js_limb_clz v in
  if (1 <? length b)%nat then inl too_large
  else if 2 ^ 31 - 1 <? b0 then inl too_large
  else
    let e1 := u64 (b0 * n) in
    if JS_BIGINT_MAX_SIZE * JS_LIMB_BITS <? e1 then inl too_large
    else
      let e := u32 e1 in
      let neg := if is_neg then Z.land b0 1 else 0 in
      let len := Z.to_nat ((e + JS_LIMB_BITS + 1 - neg) / JS_LIMB_BITS) in
      let! _ := js_bigint_new ctx len in
      inr (<[Z.to_nat (e / JS_LIMB_BITS) := u64 (Z.shiftl (u64 (1 - 2 * neg)) (e mod JS_LIMB_BITS))]>
             (replicate len 0)).

Definition js_bigint_pow (ctx : JSContext) (a b : JSBigInt) : res JSBigInt :=
  let b0 := default 0 (b !! 0%nat) in
  if negb (js_bigint_sign b =? 0) then inl (RangeError "BigInt negative exponent")
  else if is_zero b then js_bigint_new_si ctx 1
  else if (length a =? 1)%nat then
    let v := default 0 (a !! 0%nat) in
    if v <=? 1 then js_bigint_new_si ctx v
    else if v =? u64 (-1) then js_bigint_new_si ctx (1 - 2 * Z.land b0 1)
    else
      let is_neg := i64 v <? 0 in
      let v := if is_neg then u64 (- v) else v in
      if Z.land v (u64 (v - 1)) =? 0 then pow_two ctx v is_neg b
      else pow_general ctx a b
  else pow_general ctx a b.

(** ** Comparison *)

(** [for(i = a->len - 1; i >= 0; i--)]: the first limb that differs from the top. *)
Fixpoint cmp_limbs (a b : list Z) : Z :=
  match a, b with
  | x :: a', y :: b' =>
      let r := cmp_limbs a' b' in
      if negb (r =? 0) then r else if x =? y then 0 else if x <? y then -1 else 1
  | _, _ => 0
  end.

Definition js_bigint_cmp (a b : JSBigInt) : Z :=
  let a_sign := js_bigint_sign a in
  let b_sign := js_bigint_sign b in
  if negb (a_sign =? b_sign) then 1 - 2 * a_sign
  else if negb (length a =? length b)%nat then
    if (length a <? length b)%nat then 2 * a_sign - 1 else 1 - 2 * a_sign
  else cmp_limbs a b.

(** ** Values *)

(** A limb read as signed. *)
Definition sl (x : Z) : Z := if x <? 2 ^ 63 then x else x - B.

(** The integer a limb array stands for in two's complement. *)
Definition bval (a : JSBigInt) : Z := lval a - js_bigint_sign a * Bn (length a).

(** No redundant high limb. *)
Definition normalized (a : JSBigInt) : Prop :=
  forall l w v, a = l ++ [w; v] -> limb_redundant v w = false.
Definition bigint_wf (a : JSBigInt) : Prop := limbs a /\ a <> [] /\ normalized a.

(** An error is a refused allocation, or a length over the limit when the
    operation needs [n] limbs. *)
Definition alloc_fails (ctx : JSContext) (n : nat) (e : js_error) : Prop :=
  (e = OutOfMemory /\ exists size, js_malloc_ok ctx size = false) \/
  (e = too_large_to_allocate /\ JS_BIGINT_MAX_SIZE < Z.of_nat n).

(** The result is a well-formed BigInt of value [v], or an allocation failed. *)
Definition gives (ctx : JSContext) (n : nat) (m : res JSBigInt) (v : Z) : Prop :=
  match m with
  | inr r => bigint_wf r /\ bval r = v
  | inl e => alloc_fails ctx n e
  end.

Lemma shiftr63 x : limb x -> Z.shiftr x 63 = if x <? 2 ^ 63 then 0 else 1.
Proof.
  intros Hx. rewrite Z.shiftr_div_pow2 by lia. pose proof B_half. unfold limb in Hx. case_bool.
  - apply Z.div_small. lia.
  - symmetry. apply Z.div_unique with (r := x - 2 ^ 63); lia.
Qed.

Lemma sl_eq x : limb x -> sl x = x - B * Z.shiftr x 63.
Proof. intros Hx. rewrite shiftr63 by done. unfold sl. case_bool; lia. Qed.

Lemma sl_range x : limb x -> - 2 ^ 63 <= sl x < 2 ^ 63.
Proof. intros Hx. pose proof B_half. unfold sl, limb in *. case_bool; lia. Qed.

Lemma sign_snoc l x : js_bigint_sign (l ++ [x]) = Z.shiftr x 63.
Proof. unfold js_bigint_sign. by rewrite last_snoc. Qed.

Lemma bval_snoc l x : limb x -> bval (l ++ [x]) = lval l + Bn (length l) * sl x.
Proof.
  intros Hx. unfold bval. rewrite sign_snoc, lval_app, lval_single, sl_eq by done.
  rewrite length_app, Nat.add_1_r, Bn_S. lia.
Qed.

Lemma bval_single x : limb x -> bval [x] = sl x.
Proof. intros Hx. pose proof (bval_snoc [] x Hx) as H. cbn in H. rewrite Bn_0 in H. rewrite H. lia. Qed.

Lemma bval_app l a : a <> [] -> bval (l ++ a) = lval l + Bn (length l) * bval a.
Proof.
  intros Hne. unfold bval. rewrite lval_app, length_app, Bn_add.
  assert (js_bigint_sign (l ++ a) = js_bigint_sign a) as ->; [|lia].
  unfold js_bigint_sign. destruct (exists_last Hne) as (a0 & x & ->). by rewrite app_assoc, !last_snoc.
Qed.

Lemma bval_cons x a : a <> [] -> bval (x :: a) = x + B * bval a.
Proof. intros Hne. pose proof (bval_app [x] a Hne) as H. cbn [app length] in H. by rewrite H, lval_single, Bn_1. Qed.

Lemma sign_cases a : limbs a -> a <> [] -> bit (js_bigint_sign a).
Proof.
  intros Ha Hne. destruct (limb_last a Ha Hne) as (a0 & x & -> & _ & Hx).
  rewrite sign_snoc, shiftr63 by done. case_bool; [by left|by right].
Qed.

(** The range of [n] limbs, written without halves. *)
Lemma bval_range a : limbs a -> a <> [] -> - Bn (length a) <= 2 * bval a < Bn (length a).
Proof.
  intros Ha Hne. destruct (limb_last a Ha Hne) as (a0 & x & -> & Ha0 & Hx).
  rewrite bval_snoc, length_app, Nat.add_1_r, Bn_S by done.
  pose proof (lval_bound a0 Ha0). pose proof (sl_range x Hx). pose proof B_half. nia.
Qed.

Lemma bval_sign a : limbs a -> a <> [] -> js_bigint_sign a = if bval a <? 0 then 1 else 0.
Proof.
  intros Ha Hne. pose proof (sign_cases a Ha Hne) as [Hs|Hs]; unfold bval; rewrite Hs;
    pose proof (lval_bound a Ha); case_bool; lia.
Qed.

(** Two's complement: the value is determined by its residue and its range. *)
Lemma bval_unique r v k :
  limbs r -> r <> [] -> lval r = v + k * Bn (length r) ->
  - Bn (length r) <= 2 * v < Bn (length r) -> bval r = v.
Proof.
  intros Hr Hne Hv Hrange. pose proof (bval_range r Hr Hne) as HR. unfold bval in *.
  set (n := Bn (length r)) in *. set (s := js_bigint_sign r) in *.
  assert (k - s = 0) as Hk by nia. rewrite Hv. nia.
Qed.

(** ** The normal form *)

Lemma u64_m1 : u64 (-1) = B - 1.
Proof. done. Qed.

Lemma land_1 v : Z.land v 1 = v mod 2.
Proof. change 1 with (Z.ones 1). by rewrite Z.land_ones. Qed.

(** A redundant limb repeats the sign of the limb below: removing it keeps the
    value. *)
Lemma limb_redundant_true v w :
  limb v -> limb w -> limb_redundant v w = true -> sl v = - Z.shiftr w 63.
Proof.
  intros Hv Hw. pose proof B_half. unfold limb_redundant. rewrite u64_m1, land_1, shiftr63 by done.
  rewrite negb_true_iff, orb_false_iff, andb_false_iff, !negb_false_iff, !Z.eqb_eq.
  unfold sl, limb in *. intros [[-> | ->] Hb]; revert Hb; repeat case_bool; mod_lia.
Qed.

Lemma limb_redundant_false v w :
  limb v -> limb w -> limb_redundant v w = false -> sl v <> - Z.shiftr w 63.
Proof.
  intros Hv Hw. pose proof B_half. unfold limb_redundant. rewrite u64_m1, land_1, shiftr63 by done.
  rewrite negb_false_iff, orb_true_iff, andb_true_iff, !negb_true_iff, !Z.eqb_neq.
  unfold sl, limb in *. intros [[H1 H2]|Hb]; revert Hb || idtac; repeat case_bool; mod_lia.
Qed.

Lemma take_S_snoc (a : list Z) i : (i < length a)%nat -> take (S i) a = take i a ++ [default 0 (a !! i)].
Proof.
  intros Hi. destruct (lookup_lt_is_Some_2 a i Hi) as [x Hx]. rewrite Hx.
  by rewrite (take_S_r a i x Hx).
Qed.

Lemma lookup_limb a i : limbs a -> (i < length a)%nat -> limb (default 0 (a !! i)).
Proof.
  intros Ha Hi. destruct (lookup_lt_is_Some_2 a i Hi) as [x Hx]. rewrite Hx.
  by apply (Forall_lookup_1 _ _ _ _ Ha Hx).
Qed.

Lemma normalized_short a : (length a <= 1)%nat -> normalized a.
Proof. intros Hl l w v ->. rewrite length_app in Hl. cbn in Hl. lia. Qed.

Lemma normalized_snoc l w v : normalized (l ++ [w; v]) <-> limb_redundant v w = false.
Proof.
  split; [intros H; by apply (H l)|]. intros H l' w' v' Heq.
  replace (l ++ [w; v]) with ((l ++ [w]) ++ [v]) in Heq by (by rewrite <- app_assoc).
  replace (l' ++ [w'; v']) with ((l' ++ [w']) ++ [v']) in Heq by (by rewrite <- app_assoc).
  apply app_inj_tail in Heq as [Heq <-]. by apply app_inj_tail in Heq as [_ <-].
Qed.

Lemma normalize_len_spec a l :
  limbs a -> (1 <= l <= length a)%nat ->
  let n := normalize_len a l in
  (1 <= n <= l)%nat /\ bval (take n a) = bval (take l a) /\ normalized (take n a).
Proof.
  intros Ha. induction l as [|l IH]; intros Hl; [lia|]. cbn zeta.
  destruct l as [|l]; cbn [normalize_len].
  { split_and!; [lia..|done|]. apply normalized_short. rewrite length_take. lia. }
  pose proof (lookup_limb a (S l) Ha ltac:(lia)) as Hv. pose proof (lookup_limb a l Ha ltac:(lia)) as Hw.
  pose proof (take_S_snoc a (S l) ltac:(lia)) as HS. pose proof (take_S_snoc a l ltac:(lia)) as HS'.
  destruct (limb_redundant _ _) eqn:Hr.
  - destruct (IH ltac:(lia)) as (H1 & H2 & H3). cbn [normalize_len] in *. split_and!; [lia..| |done].
    rewrite H2, HS. apply (limb_redundant_true _ _ Hv Hw) in Hr.
    rewrite bval_snoc, Hr by done. unfold bval. rewrite HS' at 2. rewrite sign_snoc. lia.
  - split_and!; [lia..|done|]. rewrite HS, HS', <- app_assoc. cbn [app]. by apply normalized_snoc.
Qed.

Lemma normalize1_spec a l :
  limbs a -> (1 <= l <= length a)%nat ->
  bigint_wf (js_bigint_normalize1 a l) /\ bval (js_bigint_normalize1 a l) = bval (take l a).
Proof.
  intros Ha Hl. destruct (normalize_len_spec a l Ha Hl) as (H1 & H2 & H3). cbn zeta in *.
  unfold js_bigint_normalize1. split; [|done]. split_and!; auto with limbs.
  intros He%(f_equal length). rewrite length_take in He. cbn in He. lia.
Qed.

Lemma normalize_spec a :
  limbs a -> a <> [] ->
  bigint_wf (js_bigint_normalize a) /\ bval (js_bigint_normalize a) = bval a.
Proof.
  intros Ha Hne. assert (1 <= length a)%nat by (destruct a; cbn; [done|lia]).
  rewrite <- (take_ge a (length a)) at 3 by done. apply normalize1_spec; [done|lia].
Qed.

Lemma normalize_gives ctx n a v :
  limbs a -> a <> [] -> bval a = v -> gives ctx n (inr (js_bigint_normalize a)) v.
Proof. intros Ha Hne <-. by apply normalize_spec. Qed.

Lemma new_gives ctx n len k v :
  (len <= n)%nat -> (js_malloc_ok ctx (8 + Z.of_nat len * 8) = true -> gives ctx n k v) ->
  gives ctx n (rbind (js_bigint_new ctx len) (fun _ => k)) v.
Proof.
  intros Hn Hk. unfold js_bigint_new, rbind. case_bool.
  - right. split; [done|lia].
  - destruct (js_malloc_ok _ _) eqn:Hm; [auto|]. left. split; [done|by eexists].
Qed.

Lemma extend_gives ctx n r op1 :
  limbs r -> r <> [] -> limb op1 ->
  gives ctx n (js_bigint_extend ctx r op1) (lval r + Bn (length r) * sl op1).
Proof.
  intros Hr Hne Hop. unfold js_bigint_extend. destruct (limb_last r Hr Hne) as (r0 & w & -> & Hr0 & Hw).
  rewrite last_snoc. change (default 0 (Some w)) with w.
  destruct (limb_redundant op1 w) eqn:Hred; cbn [negb].
  - apply normalize_gives; [done..|]. apply (limb_redundant_true _ _ Hop Hw) in Hred.
    unfold bval. rewrite sign_snoc, Hred. lia.
  - destruct (js_malloc_ok _ _) eqn:Hm; [|by left; eauto]. cbn [gives]. rewrite bval_snoc by done.
    split; [|done]. split_and!; [|by destruct r0|].
    + rewrite !limbs_app, !limbs_cons in *. auto with limbs.
    + rewrite <- app_assoc. by apply normalized_snoc.
Qed.

Lemma single_wf x : limb x -> bigint_wf [x].
Proof. intros Hx. split_and!; [by apply limbs_cons; auto with limbs|done|by apply normalized_short]. Qed.

Lemma sl_u64 x : - 2 ^ 63 <= x < 2 ^ 63 -> sl (u64 x) = x.
Proof.
  intros Hx. pose proof B_half. rewrite u64_mod. unfold sl. destruct (Z.ltb_spec x 0).
  - assert (x mod B = x + B) as -> by (symmetry; apply Z.mod_unique with (-1); lia). case_bool; lia.
  - rewrite Z.mod_small by lia. case_bool; lia.
Qed.

Lemma new_si_gives ctx n x :
  (1 <= n)%nat -> - 2 ^ 63 <= x < 2 ^ 63 -> gives ctx n (js_bigint_new_si ctx x) x.
Proof.
  intros Hn Hx. apply new_gives; [done|]. intros _. cbn [gives].
  split; [apply single_wf, u64_limb|]. rewrite bval_single, sl_u64; auto using u64_limb.
Qed.

(** ** Addition *)

Lemma xor_neg_eq neg x : limb x -> xor_neg neg x = if neg then B - 1 - x else x.
Proof.
  intros Hx. unfold xor_neg. destruct neg; cbn [b2z]; [|by rewrite Z.lxor_0_r].
  rewrite <- u64_lnot by done. change (u64 (- (1))) with (Z.ones 64).
  rewrite u64_mod. change B with (2 ^ 64). rewrite <- Z.land_ones by lia.
  apply Z.bits_inj'. intros k Hk. rewrite Z.lxor_spec, Z.land_spec, Z.lnot_spec by lia.
  destruct (Z.ltb_spec k 64).
  - rewrite Z.ones_spec_low by lia. by rewrite xorb_true_r, andb_true_r.
  - rewrite Z.ones_spec_high by lia. rewrite (testbit_small x 64 k) by (done || lia). done.
Qed.

Lemma xor_neg_limb neg x : limb x -> limb (xor_neg neg x).
Proof. intros Hx. rewrite xor_neg_eq by done. unfold limb in *. destruct neg; lia. Qed.

Lemma xor_neg_limbs neg l : limbs l -> limbs (xor_neg neg <$> l).
Proof. intros Hl. apply Forall_fmap. eapply Forall_impl; [exact Hl|]. intros. by apply xor_neg_limb. Qed.

Lemma xor_neg_lval neg l :
  limbs l -> lval (xor_neg neg <$> l) = if neg then Bn (length l) - 1 - lval l else lval l.
Proof.
  induction 1 as [|x l Hx Hl IH]; cbn [fmap list_fmap lval length]; [rewrite Bn_0; by destruct neg|].
  change (list_fmap Z Z (xor_neg neg) l) with (xor_neg neg <$> l).
  rewrite IH, xor_neg_eq, Bn_S by done. destruct neg; lia.
Qed.

(** Complementing the limbs complements the value. *)
Lemma xor_neg_bval neg a :
  limbs a -> a <> [] ->
  bval (xor_neg neg <$> a) = (if neg then -1 - bval a else bval a) /\
  js_bigint_sign (xor_neg neg <$> a) = (if neg then 1 - js_bigint_sign a else js_bigint_sign a).
Proof.
  intros Ha Hne. assert (js_bigint_sign (xor_neg neg <$> a) =
    if neg then 1 - js_bigint_sign a else js_bigint_sign a) as Hs.
  { destruct (limb_last a Ha Hne) as (a0 & x & -> & _ & Hx). rewrite fmap_app. cbn [fmap list_fmap].
    rewrite !sign_snoc, xor_neg_eq by done. destruct neg; [|done]. pose proof B_half. unfold limb in Hx.
    rewrite !shiftr63 by (unfold limb; lia). repeat case_bool; lia. }
  split; [|done]. unfold bval. rewrite Hs, xor_neg_lval, length_fmap by done. destruct neg; lia.
Qed.

Lemma add_sign_loop_eq tab s c : add_sign_loop tab s c = mp_add tab (replicate (length tab) s) c.
Proof.
  revert c. induction tab as [|x tab IH]; intros c; [done|]. cbn. destruct (ADDC x s c) as [r k].
  by rewrite IH.
Qed.
Lemma sign_add_loop_eq tab s c : sign_add_loop s tab c = mp_add (replicate (length tab) s) tab c.
Proof.
  revert c. induction tab as [|x tab IH]; intros c; [done|]. cbn. destruct (ADDC s x c) as [r k].
  by rewrite IH.
Qed.

Lemma mp_add_app a1 a2 b1 b2 c :
  length a1 = length b1 ->
  mp_add (a1 ++ a2) (b1 ++ b2) c =
  let '(r1, c1) := mp_add a1 b1 c in let '(r2, c2) := mp_add a2 b2 c1 in (r1 ++ r2, c2).
Proof.
  revert b1 c. induction a1 as [|x a1 IH]; intros [|y b1] c Hl; try done; cbn [mp_add app].
  - by destruct (mp_add a2 b2 c).
  - destruct (ADDC x y c) as [r k]. rewrite IH by (by injection Hl).
    destruct (mp_add a1 b1 k) as [r1 c1]. by destruct (mp_add a2 b2 c1).
Qed.

(** Sign extension to [n] limbs. *)
Definition sext (n : nat) (a : JSBigInt) : list Z :=
  a ++ replicate (n - length a) (u64 (- js_bigint_sign a)).

Lemma u64_neg_bit s : bit s -> u64 (- s) = s * (B - 1).
Proof. pose proof B_big. intros [-> | ->]; [done|]. change (u64 (- (1))) with (B - 1). lia. Qed.

Lemma sext_spec n a :
  limbs a -> a <> [] -> (length a <= n)%nat ->
  limbs (sext n a) /\ length (sext n a) = n /\ lval (sext n a) = bval a + js_bigint_sign a * Bn n.
Proof.
  intros Ha Hne Hn. unfold sext. pose proof (sign_cases a Ha Hne) as Hs.
  assert (forall k, lval (replicate k (B - 1)) = Bn k - 1) as Hrep.
  { intros k. induction k as [|k IH]; cbn [replicate lval]; [done|]. rewrite IH, Bn_S. lia. }
  split_and!.
  - apply limbs_app. split; [done|]. by apply Forall_replicate, u64_limb.
  - rewrite length_app, length_replicate. lia.
  - rewrite lval_app, u64_neg_bit by done. unfold bval.
    replace n with (length a + (n - length a))%nat at 2 by lia. rewrite Bn_add.
    destruct Hs as [-> | ->].
    + rewrite lval_replicate_0. lia.
    + rewrite Z.mul_1_l, Hrep. lia.
Qed.

(** The two loops of [js_bigint_add] are one addition of sign-extended operands. *)
Lemma add_loops_eq a b c :
  let n2 := Nat.max (length a) (length b) in let n1 := Nat.min (length a) (length b) in
  (let '(r1, carry) := mp_add (take n1 a) (take n1 b) c in
   let '(r2, carry) :=
     if (length b <? length a)%nat then add_sign_loop (drop n1 a) (u64 (- js_bigint_sign b)) carry
     else if (length a <? length b)%nat then
       sign_add_loop (u64 (- js_bigint_sign a)) (drop n1 b) carry
     else ([], carry) in
   (r1 ++ r2, carry)) = mp_add (sext n2 a) (sext n2 b) c.
Proof.
  cbn zeta. unfold sext. set (sa := u64 (- js_bigint_sign a)). set (sb := u64 (- js_bigint_sign b)).
  destruct (Nat.ltb_spec (length b) (length a)); [|destruct (Nat.ltb_spec (length a) (length b))].
  - rewrite Nat.max_l, Nat.min_r, Nat.sub_diag, (take_ge b) by lia. rewrite app_nil_r.
    transitivity (mp_add (take (length b) a ++ drop (length b) a)
      (b ++ replicate (length a - length b) sb) c); [|by rewrite take_drop].
    rewrite mp_add_app by (rewrite length_take; lia).
    destruct (mp_add _ b c) as [r1 c1]. by rewrite add_sign_loop_eq, length_drop.
  - rewrite Nat.max_r, Nat.min_l, Nat.sub_diag, (take_ge a) by lia. rewrite app_nil_r.
    transitivity (mp_add (a ++ replicate (length b - length a) sa)
      (take (length a) b ++ drop (length a) b) c); [|by rewrite take_drop].
    rewrite mp_add_app by (rewrite length_take; lia).
    destruct (mp_add a _ c) as [r1 c1]. by rewrite sign_add_loop_eq, length_drop.
  - rewrite Nat.max_l, Nat.min_l, Nat.sub_diag, !take_ge by lia. rewrite app_nil_r.
    replace (length a - length b)%nat with 0%nat by lia. rewrite app_nil_r.
    destruct (mp_add a b c). by rewrite app_nil_r.
Qed.

Lemma add_gives ctx a b neg :
  bigint_wf a -> bigint_wf b ->
  gives ctx (Nat.max (length a) (length b)) (js_bigint_add ctx a b neg)
    (if neg then bval a - bval b else bval a + bval b).
Proof.
  intros (Ha & Hane & _) (Hb & Hbne & _). unfold js_bigint_add. apply new_gives; [done|]. intros _.
  set (b' := xor_neg neg <$> b).
  destruct (xor_neg_bval neg b Hb Hbne) as [Hb'v Hb's]. fold b' in Hb'v, Hb's.
  pose proof (xor_neg_limbs neg b Hb) as Hb'. fold b' in Hb'.
  assert (b' <> []) as Hb'ne by (by destruct b). assert (length b' = length b) as Hb'l by apply length_fmap.
  pose proof (sign_cases a Ha Hane) as Hsa. pose proof (sign_cases b Hb Hbne) as Hsb.
  pose proof (sign_cases b' Hb' Hb'ne) as Hsb'.
  assert (xor_neg neg (u64 (- js_bigint_sign b)) = u64 (- js_bigint_sign b')) as ->.
  { rewrite xor_neg_eq by apply u64_limb. rewrite !u64_neg_bit, Hb's by done. destruct neg; lia. }
  rewrite fmap_take, fmap_drop. fold b'. rewrite <- Hb'l.
  pose proof (add_loops_eq a b' (b2z neg)) as Hloop. cbn zeta in Hloop.
  set (n := Nat.max (length a) (length b')) in *.
  destruct (sext_spec n a Ha Hane ltac:(lia)) as (Hea & Hela & Heva).
  destruct (sext_spec n b' Hb' Hb'ne ltac:(lia)) as (Heb & Helb & Hevb).
  pose proof (mp_add_spec (sext n a) (sext n b') (b2z neg) Hea Heb ltac:(congruence)
    ltac:(destruct neg; [by right|by left])) as HA.
  rewrite <- Hloop in HA. clear Hloop.
  destruct (mp_add (take _ a) _ (b2z neg)) as [r1 c1].
  match goal with |- context [if (length b' <? length a)%nat then ?x else ?y] =>
    destruct (if (length b' <? length a)%nat then x else y) as [r2 carry] end.
  destruct HA as (Hr & Hlr & Hc & HA). rewrite Hela in Hlr, HA. rewrite Heva, Hevb in HA.
  assert (r1 ++ r2 <> []) as Hrne.
  { intros He. rewrite He in Hlr. cbn in Hlr. destruct a; [done|]. cbn in *. lia. }
  assert (u64 (u64 (- js_bigint_sign a) + u64 (- js_bigint_sign b') + carry) =
    u64 (carry - js_bigint_sign a - js_bigint_sign b')) as ->.
  { rewrite !u64_mod. rewrite <- Zplus_mod_idemp_l, <- Zplus_mod, Zplus_mod_idemp_l. f_equal. lia. }
  match goal with |- gives _ _ _ ?v => replace v with
    (lval (r1 ++ r2) + Bn (length (r1 ++ r2)) * sl (u64 (carry - js_bigint_sign a - js_bigint_sign b'))) end.
  - apply extend_gives; auto using u64_limb.
  - unfold bit in *. rewrite sl_u64, Hlr by lia. destruct neg; cbn [b2z] in *; nia.
Qed.

Lemma zero_wf : bigint_wf (js_bigint_set_si 0).
Proof. apply single_wf, u64_limb. Qed.
Lemma set_si_bval x : - 2 ^ 63 <= x < 2 ^ 63 -> bval (js_bigint_set_si x) = x.
Proof. intros Hx. unfold js_bigint_set_si. by rewrite bval_single, sl_u64 by auto using u64_limb. Qed.

Lemma neg_gives ctx a :
  bigint_wf a -> gives ctx (length a) (js_bigint_neg ctx a) (- bval a).
Proof.
  intros Ha. pose proof (add_gives ctx _ a true zero_wf Ha) as H. cbn iota in H.
  rewrite set_si_bval in H by lia. destruct Ha as (_ & Hne & _).
  replace (Nat.max _ _) with (length a) in H by (destruct a; cbn; [done|lia]). exact H.
Qed.

(** ** Multiplication *)

Lemma sub_at_spec i r t :
  limbs r -> limbs t -> length r = (i + length t)%nat ->
  limbs (sub_at i r t) /\ length (sub_at i r t) = length r /\
  exists k, lval (sub_at i r t) = lval r - Bn i * lval t + k * Bn (length r).
Proof.
  intros Hr Ht Hl. unfold sub_at.
  destruct (window_split i (length t) r) as (lo & w & hi & -> & Hlo & Hlw); [lia|].
  assert (hi = []) as -> by (apply length_zero_iff_nil; rewrite !length_app in Hl; lia).
  rewrite <- Hlw, <- Hlo, slice_app. rewrite !limbs_app in Hr. destruct Hr as (Hllo & Hw & _).
  pose proof (mp_sub_spec w t 0 Hw Ht ltac:(lia) ltac:(by left)) as HS.
  destruct (mp_sub w t 0) as [s k]. destruct HS as (Hs & Hls & Hk & HS). cbn [fst].
  rewrite splice_app, !app_nil_r by done. split_and!.
  - by rewrite limbs_app.
  - rewrite !length_app. lia.
  - exists k. rewrite !lval_app, length_app, Bn_add. nia.
Qed.

Lemma mul_gives ctx a b :
  bigint_wf a -> bigint_wf b ->
  gives ctx (length a + length b) (js_bigint_mul ctx a b) (bval a * bval b).
Proof.
  intros (Ha & Hane & _) (Hb & Hbne & _). unfold js_bigint_mul. apply new_gives; [done|]. intros _.
  destruct (mp_mul_basecase_spec a b Ha Hb Hbne) as (Hr & Hlr & Hv).
  set (r := mp_mul_basecase a b) in *.
  pose proof (sign_cases a Ha Hane) as Hsa. pose proof (sign_cases b Hb Hbne) as Hsb.
  set (r1 := if negb (js_bigint_sign a =? 0) then sub_at (length a) r b else r).
  assert (limbs r1 /\ length r1 = (length a + length b)%nat /\ exists k, lval r1 =
    lval a * lval b - js_bigint_sign a * (Bn (length a) * lval b) + k * Bn (length a + length b))
    as (Hr1 & Hlr1 & k1 & Hv1).
  { subst r1. destruct (sub_at_spec (length a) r b Hr Hb Hlr) as (S1 & S2 & k & S3).
    destruct Hsa as [-> | ->]; cbn [Z.eqb negb]; rewrite Hlr in *; split_and!; try done.
    - exists 0. lia.
    - exists k. lia. }
  set (r2 := if negb (js_bigint_sign b =? 0) then sub_at (length b) r1 a else r1).
  assert (limbs r2 /\ length r2 = (length a + length b)%nat /\ exists k, lval r2 =
    lval r1 - js_bigint_sign b * (Bn (length b) * lval a) + k * Bn (length a + length b))
    as (Hr2 & Hlr2 & k2 & Hv2).
  { subst r2. destruct (sub_at_spec (length b) r1 a Hr1 Ha ltac:(lia)) as (S1 & S2 & k & S3).
    destruct Hsb as [-> | ->]; cbn [Z.eqb negb]; rewrite Hlr1 in *; split_and!; try done.
    - exists 0. lia.
    - exists k. lia. }
  apply normalize_gives; [done| |].
  { intros He. rewrite He in Hlr2. cbn in Hlr2. destruct a; [done|]. cbn in Hlr2. lia. }
  pose proof (bval_range a Ha Hane) as Hra. pose proof (bval_range b Hb Hbne) as Hrb.
  pose proof (Bn_pos (length a)). pose proof (Bn_pos (length b)).
  apply (bval_unique r2 _ (k1 + k2 - js_bigint_sign a * js_bigint_sign b)); [done| | |].
  { intros He. rewrite He in Hlr2. cbn in Hlr2. destruct a; [done|]. cbn in Hlr2. lia. }
  { rewrite Hlr2, Hv2, Hv1. unfold bval. rewrite Bn_add. ring. }
  rewrite Hlr2, Bn_add. set (x := bval a) in *. set (y := bval b) in *.
  assert (Z.abs (2 * x) * Z.abs (2 * y) <= Bn (length a) * Bn (length b)) as Hab
    by (apply Z.mul_le_mono_nonneg; lia).
  rewrite <- Z.abs_mul in Hab.
  assert (0 < Bn (length a) * Bn (length b)) by (apply Z.mul_pos_pos; lia). lia.
Qed.

(** ** Bitwise operations *)

Lemma testbit_pack x X k :
  limb x -> 0 <= k -> Z.testbit (x + B * X) k = if k <? 64 then Z.testbit x k else Z.testbit X (k - 64).
Proof.
  intros Hx Hk. replace (x + B * X) with (X * B + x) by lia. rewrite <- dlimb_pack by done.
  rewrite Z.lor_spec, Z.shiftl_spec by done. case_bool.
  - by rewrite Z.testbit_neg_r by lia.
  - rewrite (testbit_small x 64 k) by (done || lia). apply orb_false_r.
Qed.

Lemma bits_limb x : 0 <= x -> (forall k, 64 <= k -> Z.testbit x k = false) -> limb x.
Proof.
  intros Hx Hbits. split; [done|]. change B with (2 ^ 64). destruct (decide (x = 0)) as [->|]; [done|].
  apply Z.log2_lt_pow2; [lia|]. destruct (Z.ltb_spec (Z.log2 x) 64); [done|].
  specialize (Hbits (Z.log2 x) ltac:(done)). rewrite Z.bit_log2 in Hbits by lia. done.
Qed.

Section logic.
Variable op : logic_op.
Let f := logic_fun op.
Let g (a b : bool) : bool := match op with OP_or => a || b | OP_and => a && b | OP_xor => xorb a b end.

Lemma logic_bit x y k : 0 <= k -> Z.testbit (f x y) k = g (Z.testbit x k) (Z.testbit y k).
Proof. intros Hk. subst f g. destruct op; cbn; [apply Z.lor_spec|apply Z.land_spec|apply Z.lxor_spec]. Qed.

Lemma logic_limb x y : limb x -> limb y -> limb (f x y).
Proof.
  intros Hx Hy. apply bits_limb.
  - unfold limb in *. subst f. destruct op; cbn;
      [apply Z.lor_nonneg|apply Z.land_nonneg|apply Z.lxor_nonneg]; lia.
  - intros k Hk. rewrite logic_bit, (testbit_small x 64 k), (testbit_small y 64 k) by (done || lia).
    subst g. by destruct op.
Qed.

Lemma logic_pack x y X Y :
  limb x -> limb y -> f (x + B * X) (y + B * Y) = f x y + B * f X Y.
Proof.
  intros Hx Hy. apply Z.bits_inj'. intros k Hk.
  rewrite testbit_pack by auto using logic_limb. rewrite logic_bit by done.
  rewrite !testbit_pack by done. case_bool; by rewrite logic_bit by lia.
Qed.

Lemma logic_comm x y : f x y = f y x.
Proof. subst f. destruct op; cbn; [apply Z.lor_comm|apply Z.land_comm|apply Z.lxor_comm]. Qed.

(** The signed reading of limbs: signs combine as bits do. *)
Lemma logic_sl x y : limb x -> limb y -> sl (f x y) = f (sl x) (sl y).
Proof.
  intros Hx Hy. rewrite !sl_eq by auto using logic_limb.
  replace (x - B * Z.shiftr x 63) with (x + B * (- Z.shiftr x 63)) by lia.
  replace (y - B * Z.shiftr y 63) with (y + B * (- Z.shiftr y 63)) by lia.
  rewrite logic_pack by done.
  assert (Z.shiftr (f x y) 63 = f (Z.shiftr x 63) (Z.shiftr y 63)) as ->.
  { subst f. destruct op; cbn; [apply Z.shiftr_lor|apply Z.shiftr_land|apply Z.shiftr_lxor]. }
  assert (f (- Z.shiftr x 63) (- Z.shiftr y 63) = - f (Z.shiftr x 63) (Z.shiftr y 63)) as ->; [|lia].
  rewrite !shiftr63 by done. subst f. destruct op; repeat case_bool; done.
Qed.

Lemma logic_sign_bval a s :
  limbs a -> a <> [] -> bit s -> bval ((fun x => f x (u64 (- s))) <$> a) = f (bval a) (- s).
Proof.
  intros Ha Hne Hs. induction a as [|x a IH]; [done|]. apply limbs_cons in Ha as [Hx Ha].
  assert (limb (u64 (- s))) as Hu by apply u64_limb.
  destruct a as [|x' a].
  - cbn [fmap list_fmap]. rewrite !bval_single, logic_sl by auto using logic_limb.
    f_equal. apply sl_u64. unfold bit in Hs. lia.
  - specialize (IH Ha ltac:(done)). rewrite fmap_cons.
    rewrite !bval_cons, IH by done.
    rewrite <- logic_pack by done. f_equal. rewrite u64_neg_bit by done. lia.
Qed.

Lemma logic_zip_bval a b :
  limbs a -> limbs b -> b <> [] -> (length b <= length a)%nat ->
  bval (zip_with f (take (length b) a) b ++
        ((fun x => f x (u64 (- js_bigint_sign b))) <$> drop (length b) a)) = f (bval a) (bval b).
Proof.
  revert a. induction b as [|y b IH]; intros a Ha Hb Hne Hl; [done|].
  destruct a as [|x a]; [cbn in Hl; lia|]. apply limbs_cons in Ha as [Hx Ha], Hb as [Hy Hb].
  cbn [length take drop zip_with app].
  destruct b as [|y' b].
  - cbn [length take drop zip_with app].
    assert (js_bigint_sign [y] = Z.shiftr y 63) as -> by done.
    assert (bit (Z.shiftr y 63)) as Hs by (rewrite shiftr63 by done; case_bool; [by left|by right]).
    rewrite (bval_single y) by done. destruct a as [|x' a].
    + cbn [fmap list_fmap]. rewrite !bval_single by auto using logic_limb. by apply logic_sl.
    + rewrite drop_0, (bval_cons (f x y)), (bval_cons x (x' :: a)) by done.
      change (zip_with f (take 0 (x' :: a)) []) with (@nil Z). cbn [app].
      rewrite logic_sign_bval, <- logic_pack by done. f_equal. rewrite sl_eq by done. lia.
  - cbn [length] in Hl. assert (a <> []) as Hane by (destruct a; [cbn in Hl; lia|done]).
    assert (js_bigint_sign (y :: y' :: b) = js_bigint_sign (y' :: b)) as -> by done.
    specialize (IH a Ha Hb ltac:(done) ltac:(cbn; lia)).
    rewrite (bval_cons x a), (bval_cons y), (bval_cons (f x y)), IH by (try done; by destruct a).
    symmetry. by apply logic_pack.
Qed.

Lemma logic_limbs a b :
  limbs a -> limbs b -> limbs (zip_with f (take (length b) a) b ++
        ((fun x => f x (u64 (- js_bigint_sign b))) <$> drop (length b) a)).
Proof.
  intros Ha Hb. apply limbs_app. split.
  - apply (limbs_take (length b)) in Ha. revert Hb Ha. generalize (take (length b) a). intros l Hb.
    revert b Hb. induction l as [|x l IH]; intros [|y b] Hb Ha; try apply limbs_nil. cbn [zip_with].
    apply limbs_cons in Ha as [Hx Ha], Hb as [Hy Hb]. apply limbs_cons. auto using logic_limb.
  - apply Forall_fmap. apply (limbs_drop (length b)) in Ha. eapply Forall_impl; [exact Ha|].
    intros x Hx. apply logic_limb; [done|apply u64_limb].
Qed.

Lemma logic_gives ctx a b :
  bigint_wf a -> bigint_wf b ->
  gives ctx (Nat.max (length a) (length b)) (js_bigint_logic ctx a b op) (f (bval a) (bval b)).
Proof.
  intros Ha Hb. unfold js_bigint_logic. case_bool.
  - destruct Hb as (Hb & Hbne & _), Ha as (Ha & Hane & _). apply new_gives; [lia|]. intros _.
    apply normalize_gives; [by apply logic_limbs| |].
    + destruct a; [done|]. destruct b; [cbn in *; lia|]. done.
    + rewrite logic_comm. apply logic_zip_bval; done || lia.
  - destruct Hb as (Hb & Hbne & _), Ha as (Ha & Hane & _). apply new_gives; [lia|]. intros _.
    apply normalize_gives; [by apply logic_limbs| |].
    + destruct b; [done|]. destruct a; [cbn in *; lia|]. done.
    + apply logic_zip_bval; done || lia.
Qed.
End logic.

Lemma not_limbs_eq a : limbs a -> (fun x => u64 (Z.lnot x)) <$> a = xor_neg true <$> a.
Proof.
  intros Ha. apply list_fmap_ext. intros i x Hx. apply (Forall_lookup_1 _ _ _ _ Ha) in Hx.
  by rewrite u64_lnot, xor_neg_eq by done.
Qed.

Lemma not_gives ctx a :
  bigint_wf a -> gives ctx (length a) (js_bigint_not ctx a) (Z.lnot (bval a)).
Proof.
  intros (Ha & Hne & Hn). unfold js_bigint_not. apply new_gives; [done|]. intros _. cbn [gives].
  rewrite not_limbs_eq by done. destruct (xor_neg_bval true a Ha Hne) as [Hv _]. split; [split_and!|].
  - by apply xor_neg_limbs.
  - by destruct a.
  - intros l w v Heq. apply fmap_app_inv in Heq as (l1 & l2 & Hl & H2 & Ha1). symmetry in H2.
    destruct l2 as [|w' [|v' [|]]]; try done. injection H2 as <- <-.
    specialize (Hn l1 w' v' Ha1). rewrite Ha1, limbs_app, !limbs_cons in Ha.
    destruct Ha as (_ & Hw & Hv' & _). apply not_true_iff_false. intros Hr.
    apply limb_redundant_true in Hr; [|by apply xor_neg_limb..].
    apply (limb_redundant_false v' w' Hv' Hw) in Hn. apply Hn. clear Hn. revert Hr.
    rewrite !xor_neg_eq by done. pose proof B_half. unfold limb in *.
    rewrite !shiftr63 by (unfold limb; lia). unfold sl. repeat case_bool; lia.
  - rewrite Hv. unfold Z.lnot. lia.
Qed.

(** ** Shifts *)

Lemma Bn_pow n : Bn n = 2 ^ (64 * Z.of_nat n).
Proof. unfold Bn. change B with (2 ^ 64). by rewrite <- Z.pow_mul_r by lia. Qed.

Lemma shift_split s : 0 <= s ->
  2 ^ s = Bn (Z.to_nat (s / JS_LIMB_BITS)) * 2 ^ (s mod JS_LIMB_BITS).
Proof.
  intros Hs. unfold JS_LIMB_BITS. rewrite Bn_pow, <- Z.pow_add_r by (mod_lia). f_equal. mod_lia.
Qed.

Lemma is_zero_spec a : bigint_wf a -> is_zero a = true <-> bval a = 0.
Proof.
  intros (Ha & Hne & Hn). unfold is_zero. rewrite andb_true_iff, Nat.eqb_eq, Z.eqb_eq. split.
  - intros [Hl H0]. destruct a as [|x [|]]; try done. cbn in H0. unfold id in H0. subst x. done.
  - intros Hv. destruct (limb_last a Ha Hne) as (a0 & v & -> & Ha0 & Hlv).
    rewrite bval_snoc in Hv by done. pose proof (lval_bound a0 Ha0) as Hb.
    assert (sl v = 0) as Hs by nia. assert (lval a0 = 0) as H0 by nia.
    assert (v = 0) as -> by (unfold sl, limb in *; case_match; lia).
    destruct a0 as [|x a0] using rev_ind; [done|]. exfalso. clear IHa0. rewrite <- app_assoc in Hn.
    cbn [app] in Hn. apply normalized_snoc in Hn. rewrite limbs_app, limbs_cons in Ha0.
    destruct Ha0 as (Ha0 & Hx & _). apply (limb_redundant_false 0 x Hlv Hx) in Hn.
    rewrite lval_app, lval_single in H0. pose proof (lval_bound a0 Ha0). unfold limb in Hx.
    assert (x = 0) as -> by nia. done.
Qed.

Lemma replicate_limbs n : limbs (replicate n 0).
Proof. apply Forall_replicate. split; [lia|apply B_pos]. Qed.

Lemma bval_shifted d a : a <> [] -> bval (replicate d 0 ++ a) = Bn d * bval a.
Proof. intros Hne. rewrite bval_app, lval_replicate_0, length_replicate by done. lia. Qed.

Lemma shl_wf d a : bigint_wf a -> bval a <> 0 -> bigint_wf (replicate d 0 ++ a).
Proof.
  intros (Ha & Hne & Hn) Hnz. split_and!.
  - apply limbs_app. split; [apply replicate_limbs|done].
  - destruct d; [done|]. done.
  - destruct (limb_last a Ha Hne) as (a0 & v & -> & Ha0 & Hv).
    destruct a0 as [|w a0 _] using rev_ind.
    + destruct d as [|d]; [done|]. rewrite replicate_S_end, <- app_assoc. cbn [app].
      apply normalized_snoc. apply not_true_iff_false. intros Hr.
      apply limb_redundant_true in Hr; [|done|split; [lia|apply B_pos]].
      cbn [app] in Hnz. rewrite bval_single in Hnz by done. by rewrite Hr in Hnz.
    + rewrite <- app_assoc in *. cbn [app] in *. rewrite app_assoc. apply normalized_snoc.
      by apply normalized_snoc in Hn.
Qed.

Lemma shl_gives ctx a s :
  bigint_wf a -> 0 <= s ->
  gives ctx (length a + Z.to_nat (s / JS_LIMB_BITS)) (js_bigint_shl ctx a s) (Z.shiftl (bval a) s).
Proof.
  intros Ha Hs. unfold js_bigint_shl. rewrite (Z.shiftl_mul_pow2 (bval a) s), (shift_split s) by done.
  destruct (is_zero a) eqn:Hz.
  { apply (is_zero_spec a Ha) in Hz. rewrite Hz. apply new_si_gives; [|lia].
    destruct Ha as (_ & Hne & _). destruct a; [done|]. cbn. lia. }
  assert (bval a <> 0) as Hnz by (intros ?%(is_zero_spec a Ha); congruence). clear Hz.
  set (d := Z.to_nat (s / JS_LIMB_BITS)). apply new_gives; [done|]. intros _.
  assert (0 <= s mod JS_LIMB_BITS < 64) as Hr by (unfold JS_LIMB_BITS; mod_lia).
  set (r := s mod JS_LIMB_BITS) in *. case_bool.
  { cbn [gives]. split; [by apply shl_wf|]. rewrite bval_shifted by apply Ha.
    replace r with 0 by lia. cbn. lia. }
  destruct Ha as (Ha & Hne & _). pose proof (mp_shl_spec a r Ha ltac:(lia)) as HS.
  destruct (mp_shl a r) as [t l]. destruct HS as (Ht & Hlt & Hl & HS).
  assert (2 ^ r <= 2 ^ 63) by (apply Z.pow_le_mono_r; lia). pose proof B_half.
  set (l' := if negb (js_bigint_sign a =? 0) then Z.lor l (u64 (Z.shiftl (-1) r)) else l).
  assert (limb l' /\ sl l' = l - js_bigint_sign a * 2 ^ r) as [Hl' Hsl].
  { subst l'. destruct (sign_cases a Ha Hne) as [-> | ->]; cbn [Z.eqb negb]; unfold limb, sl.
    - split; [lia|]. case_bool; lia.
    - pose proof (B_shift r ltac:(lia)) as HBs. rewrite u64_shiftl by lia.
      assert (-1 mod 2 ^ (64 - r) = 2 ^ (64 - r) - 1) as ->.
      { symmetry. apply Z.mod_unique with (-1); [|lia]. left.
        assert (0 < 2 ^ (64 - r)) by (apply Z.pow_pos_nonneg; lia). lia. }
      rewrite Z.lor_comm, lor_mul_small by lia. split; [lia|]. case_bool; lia. }
  match goal with |- gives _ _ _ ?v =>
    replace v with (lval (replicate d 0 ++ t) + Bn (length (replicate d 0 ++ t)) * sl l') end.
  - apply extend_gives; [|by destruct d, t; [destruct a| | |]|done].
    apply limbs_app. split; [apply replicate_limbs|done].
  - rewrite lval_app, lval_replicate_0, length_app, !length_replicate, Hlt, Hsl, Bn_add.
    unfold bval. replace (lval t) with (lval a * 2 ^ r - Bn (length a) * l) by lia. ring.
Qed.

(** Dropping low limbs divides, rounding down. *)
Lemma bval_drop d a :
  limbs a -> (d < length a)%nat -> bval (drop d a) = bval a / Bn d.
Proof.
  intros Ha Hd. rewrite <- (take_drop d a) at 2.
  assert (drop d a <> []) as Hne.
  { intros He%(f_equal length). rewrite length_drop in He. cbn in He. lia. }
  rewrite bval_app by done. rewrite length_take, Nat.min_l by lia.
  pose proof (lval_bound _ (limbs_take d a Ha)) as Hb. rewrite length_take, Nat.min_l in Hb by lia.
  pose proof (Bn_pos d). rewrite Z.add_comm, Z.mul_comm, Z.div_add_l, Z.div_small by lia. lia.
Qed.

Lemma bval_drop_all d a :
  limbs a -> a <> [] -> (length a <= d)%nat -> bval a / Bn d = - js_bigint_sign a.
Proof.
  intros Ha Hne Hd. pose proof (bval_range a Ha Hne) as Hr. rewrite bval_sign by done.
  assert (Bn (length a) <= Bn d).
  { replace d with (length a + (d - length a))%nat by lia. rewrite Bn_add.
    pose proof (Bn_pos (length a)). pose proof (Bn_pos (d - length a)). nia. }
  pose proof (Bn_pos (length a)). case_bool.
  - symmetry. apply Z.div_unique with (r := bval a + Bn d); lia.
  - symmetry. apply Z.div_unique with (r := bval a); lia.
Qed.

Lemma drop_normalized d a : normalized a -> normalized (drop d a).
Proof. intros Hn l w v Heq. apply (Hn (take d a ++ l)). by rewrite <- app_assoc, <- Heq, take_drop. Qed.

Lemma shr_gives ctx a s :
  bigint_wf a -> 0 <= s ->
  gives ctx (length a) (js_bigint_shr ctx a s) (Z.shiftr (bval a) s).
Proof.
  intros (Ha & Hne & Hn) Hs. unfold js_bigint_shr.
  rewrite (Z.shiftr_div_pow2 (bval a) s), (shift_split s) by done.
  assert (0 <= s mod JS_LIMB_BITS < 64) as Hr by (unfold JS_LIMB_BITS; mod_lia).
  set (d := Z.to_nat (s / JS_LIMB_BITS)) in *. set (r := s mod JS_LIMB_BITS) in *.
  pose proof (Bn_pos d). assert (0 < 2 ^ r) by (apply Z.pow_pos_nonneg; lia).
  rewrite <- Z.div_div by lia. pose proof (sign_cases a Ha Hne) as Hsg.
  destruct (Nat.leb_spec (length a) d).
  { rewrite bval_drop_all by done.
    assert (- js_bigint_sign a / 2 ^ r = - js_bigint_sign a) as ->.
    { destruct Hsg as [-> | ->]; [apply Z.div_0_l; lia|].
      symmetry. apply Z.div_unique with (r := 2 ^ r - 1); lia. }
    apply new_si_gives; [destruct a; [done|cbn; lia]|]. unfold bit in Hsg. lia. }
  rewrite <- bval_drop by done. apply new_gives; [lia|]. intros _.
  assert (drop d a <> []) as Hdne.
  { intros He%(f_equal length). rewrite length_drop in He. cbn in He. lia. }
  pose proof (limbs_drop d a Ha) as Hd. case_bool.
  { cbn [gives]. split; [split_and!; [done..|by apply drop_normalized]|].
    replace r with 0 by lia. by rewrite Z.div_1_r. }
  assert (js_bigint_sign (drop d a) = js_bigint_sign a) as Hsd.
  { unfold js_bigint_sign. rewrite <- (take_drop d a) at 2.
    destruct (exists_last Hdne) as (a0 & x & ->). by rewrite app_assoc, !last_snoc. }
  rewrite <- Hsd in *. set (a' := drop d a) in *.
  destruct (mp_shr_spec a' r (u64 (- js_bigint_sign a')) Hd ltac:(lia) ltac:(apply u64_limb) Hdne)
    as (G1 & G2 & G3).
  assert (fst (mp_shr a' r (u64 (- js_bigint_sign a'))) <> []) as Hrne.
  { intros He%(f_equal length). rewrite G2 in He. by destruct a'. }
  apply normalize_gives; [done..|]. pose proof (Bn_pos (length a')).
  pose proof (bval_range a' Hd Hdne) as Hra.
  apply (bval_unique _ _ (js_bigint_sign a')); [done..| |].
  - rewrite G3, G2. rewrite u64_neg_bit by done.
    assert (js_bigint_sign a' * (B - 1) mod 2 ^ r = js_bigint_sign a' * (2 ^ r - 1)) as ->.
    { destruct Hsg as [-> | ->]; [rewrite Z.mod_0_l; lia|]. rewrite !Z.mul_1_l.
      symmetry. apply Z.mod_unique with (2 ^ (64 - r) - 1); [lia|].
      rewrite <- (B_shift r) by lia. ring. }
    replace (lval a' + Bn (length a') * (js_bigint_sign a' * (2 ^ r - 1)))
      with (bval a' + js_bigint_sign a' * Bn (length a') * 2 ^ r) by (unfold bval; ring).
    rewrite Z.div_add by lia. ring.
  - rewrite G2. pose proof (Z.div_mod (bval a') (2 ^ r) ltac:(lia)).
    pose proof (Z.mod_pos_bound (bval a') (2 ^ r) ltac:(lia)).
    assert (2 <= 2 ^ r) by (replace r with (1 + (r - 1)) by lia; rewrite Z.pow_add_r by lia;
      assert (0 < 2 ^ (r - 1)) by (apply Z.pow_pos_nonneg; lia); lia).
    set (q := bval a' / 2 ^ r) in *. nia.
Qed.

(** ** Comparison *)

Lemma cmp_limbs_spec a b :
  limbs a -> limbs b -> length a = length b ->
  cmp_limbs a b = match lval a ?= lval b with Lt => -1 | Eq => 0 | Gt => 1 end.
Proof.
  revert b. induction a as [|x a IH]; intros [|y b] Ha Hb Hl; try done.
  apply limbs_cons in Ha as [Hx Ha], Hb as [Hy Hb]. cbn [cmp_limbs lval].
  rewrite (IH b Ha Hb) by (by injection Hl). unfold limb in *.
  destruct (Z.compare_spec (lval a) (lval b)); cbn [Z.eqb negb];
    destruct (Z.compare_spec (x + B * lval a) (y + B * lval b)); try nia;
    repeat case_bool; (lia || nia).
Qed.

(** Normal form is minimal length: more limbs, larger magnitude. *)
Lemma normalized_big a :
  limbs a -> normalized a -> (2 <= length a)%nat ->
  (js_bigint_sign a = 0 -> Bn (length a - 1) <= 2 * bval a) /\
  (js_bigint_sign a = 1 -> 2 * bval a < - Bn (length a - 1)).
Proof.
  intros Ha Hn Hl. assert (a <> []) as Hne by (by destruct a; [cbn in Hl; lia|]).
  destruct (limb_last a Ha Hne) as (a0 & v & -> & Ha0 & Hv).
  assert (a0 <> []) as Hne0 by (by destruct a0; [cbn in Hl; lia|]).
  destruct (limb_last a0 Ha0 Hne0) as (a1 & w & -> & Ha1 & Hw).
  assert (limb_redundant v w = false) as Hr.
  { rewrite <- app_assoc in Hn. by apply normalized_snoc in Hn. }
  apply (limb_redundant_false v w Hv Hw) in Hr.
  rewrite sign_snoc, bval_snoc, !length_app, lval_app, lval_single by done. cbn [length].
  replace (length a1 + 1 + 1 - 1)%nat with (S (length a1)) by lia.
  rewrite Nat.add_1_r, Bn_S. pose proof (lval_bound a1 Ha1). pose proof (Bn_pos (length a1)).
  pose proof B_half as HB. set (P := Bn (length a1)) in *.
  revert Hr. rewrite !shiftr63 by done. unfold sl, limb in *. repeat case_bool; intros Hr;
    (split; intros ?; [try lia|try lia]); nia.
Qed.

Lemma cmp_spec a b :
  bigint_wf a -> bigint_wf b ->
  js_bigint_cmp a b = match bval a ?= bval b with Lt => -1 | Eq => 0 | Gt => 1 end.
Proof.
  intros (Ha & Hane & Han) (Hb & Hbne & Hbn). unfold js_bigint_cmp.
  pose proof (bval_sign a Ha Hane) as Hsa. pose proof (bval_sign b Hb Hbne) as Hsb.
  assert (1 <= length a)%nat by (destruct a; cbn; [done|lia]).
  assert (1 <= length b)%nat by (destruct b; cbn; [done|lia]).
  pose proof (bval_range a Ha Hane) as Hra. pose proof (bval_range b Hb Hbne) as Hrb.
  pose proof (sign_cases a Ha Hane) as Hba. pose proof (sign_cases b Hb Hbne) as Hbb.
  destruct (Z.eqb_spec (js_bigint_sign a) (js_bigint_sign b)) as [Heq|Hne]; cbn [negb].
  2: { revert Hne. rewrite Hsa, Hsb. destruct (Z.compare_spec (bval a) (bval b)); repeat case_bool; lia. }
  assert (forall n m, (n < m)%nat -> Bn n <= Bn (m - 1)) as Hmono.
  { intros n m Hnm. replace (m - 1)%nat with (n + (m - 1 - n))%nat by lia. rewrite Bn_add.
    pose proof (Bn_pos n). pose proof (Bn_pos (m - 1 - n)). nia. }
  destruct (Nat.eqb_spec (length a) (length b)) as [Hl|Hl]; cbn [negb].
  { rewrite cmp_limbs_spec by done. unfold bval. rewrite Heq, Hl.
    repeat match goal with |- context [?x ?= ?y] => destruct (Z.compare_spec x y) end; lia. }
  destruct (Nat.ltb_spec (length a) (length b)).
  - destruct (normalized_big b Hb Hbn ltac:(lia)) as [Hp Hm]. specialize (Hmono _ _ H1).
    destruct Hbb as [Hz|Hz]; rewrite Heq, Hz in *; destruct (Z.compare_spec (bval a) (bval b)); lia.
  - destruct (normalized_big a Ha Han ltac:(lia)) as [Hp Hm]. specialize (Hmono (length b) (length a) ltac:(lia)).
    destruct Hba as [Hz|Hz]; rewrite <- Heq, Hz in *; destruct (Z.compare_spec (bval a) (bval b)); lia.
Qed.

(** ** Division *)

Lemma strip_len_spec r n :
  limbs r -> (1 <= n <= length r)%nat ->
  let m := strip_len r n in
  (1 <= m <= n)%nat /\ lval (take m r) = lval (take n r) /\
  (m = 1%nat \/ default 0 (r !! (m - 1)%nat) <> 0).
Proof.
  intros Hr. induction n as [|n IH]; intros Hn; [lia|]. cbn zeta. destruct n as [|n]; cbn [strip_len].
  { split_and!; [lia..|done|by left]. }
  destruct (Z.eqb_spec (default 0 (r !! S n)) 0) as [Hz|Hz].
  - destruct (IH ltac:(lia)) as (H1 & H2 & H3). cbn [strip_len] in *. split_and!; [lia..| |done].
    rewrite H2, (take_S_snoc r (S n)) by lia. rewrite Hz, lval_app, lval_single. lia.
  - split_and!; [lia..|done|]. right. by replace (S (S n) - 1)%nat with (S n) by lia.
Qed.

Lemma abs_limbs_spec a :
  limbs a -> a <> [] ->
  let r := abs_limbs (js_bigint_sign a) a in
  limbs r /\ r <> [] /\ (length r <= length a)%nat /\ lval r = Z.abs (bval a) /\
  exists r0 top, r = r0 ++ [top] /\ (r0 = [] \/ top <> 0).
Proof.
  intros Ha Hne. cbn zeta. unfold abs_limbs.
  assert (1 <= length a)%nat by (destruct a; cbn; [done|lia]).
  set (t := if negb (js_bigint_sign a =? 0) then fst (mp_neg a) else a).
  assert (limbs t /\ length t = length a /\ lval t = Z.abs (bval a)) as (Ht & Hlt & Hvt).
  { pose proof (lval_bound a Ha) as Hb. pose proof (bval_range a Ha Hne) as Hr. unfold bval in *.
    subst t. destruct (sign_cases a Ha Hne) as [Hs|Hs]; rewrite Hs in *; cbn [Z.eqb negb].
    - split_and!; [done..|]. lia.
    - destruct (mp_neg_spec a Ha) as (H1 & H2 & ->). split_and!; [done..|].
      pose proof (Bn_pos (length a)). case_bool; lia. }
  destruct (strip_len_spec t (length t) Ht ltac:(lia)) as (H1 & H2 & H3). cbn zeta in *.
  set (m := strip_len t (length t)) in *. rewrite (take_ge t (length t)) in H2 by done.
  split_and!; [auto with limbs| | |congruence|].
  - intros He%(f_equal length). rewrite length_take in He. cbn in He. lia.
  - rewrite length_take. lia.
  - exists (take (m - 1) t), (default 0 (t !! (m - 1)%nat)). split.
    + rewrite <- take_S_snoc by lia. by replace (S (m - 1)) with m by lia.
    + destruct H3 as [-> | H3]; [by left|by right].
Qed.

(** Normalising the divisor: its top limb gets its high bit. *)
Lemma clz_spec x : limb x -> x <> 0 ->
  0 <= js_limb_clz x <= 63 /\ 2 ^ 63 <= x * 2 ^ js_limb_clz x /\ (x + 1) * 2 ^ js_limb_clz x <= B.
Proof.
  intros Hx Hnz. unfold js_limb_clz, limb in *. pose proof (Z.log2_spec x ltac:(lia)) as [H1 H2].
  assert (Z.log2 x < 64) as Hlt by (apply Z.log2_lt_pow2; [lia|]; change (2 ^ 64) with B; lia).
  pose proof (Z.log2_nonneg x). split; [lia|]. set (k := Z.log2 x) in *.
  assert (0 < 2 ^ (63 - k)) by (apply Z.pow_pos_nonneg; lia). split.
  - replace (2 ^ 63) with (2 ^ k * 2 ^ (63 - k)) by (rewrite <- Z.pow_add_r by lia; f_equal; lia). nia.
  - replace B with (2 ^ Z.succ k * 2 ^ (63 - k)); [nia|].
    rewrite <- Z.pow_add_r by lia. change B with (2 ^ 64). f_equal. lia.
Qed.

Lemma shl_divisor b0 top :
  limbs b0 -> limb top -> top <> 0 -> 0 < js_limb_clz top ->
  let b' := fst (mp_shl (b0 ++ [top]) (js_limb_clz top)) in
  limbs b' /\ length b' = S (length b0) /\ lval b' = lval (b0 ++ [top]) * 2 ^ js_limb_clz top /\
  exists b1, last b' = Some b1 /\ 2 ^ 63 <= b1.
Proof.
  intros Hb0 Ht Hnz Hs. cbn zeta. destruct (clz_spec top Ht Hnz) as (H1 & H2 & H3).
  set (s := js_limb_clz top) in *.
  assert (limbs (b0 ++ [top])) as Hb by (rewrite limbs_app, limbs_cons; auto with limbs).
  pose proof (mp_shl_spec (b0 ++ [top]) s Hb ltac:(lia)) as HS.
  destruct (mp_shl (b0 ++ [top]) s) as [b' h]. destruct HS as (Hb' & Hl & Hh & HS). cbn [fst].
  rewrite length_app, Nat.add_1_r in *. rewrite Bn_S in HS. pose proof (lval_bound b0 Hb0) as Hbb.
  pose proof (lval_bound b' Hb') as Hbb'. rewrite Hl, Bn_S in Hbb'. pose proof (Bn_pos (length b0)).
  set (P := Bn (length b0)) in *. rewrite lval_app, lval_single in *. fold P in HS |- *.
  assert (0 < 2 ^ s) by (apply Z.pow_pos_nonneg; lia).
  assert ((lval b0 + P * top) * 2 ^ s < B * P) as Hlt.
  { assert ((lval b0 + P * top) * 2 ^ s < P * (top + 1) * 2 ^ s) by (apply Z.mul_lt_mono_pos_r; lia).
    assert (P * ((top + 1) * 2 ^ s) <= P * B) by (apply Z.mul_le_mono_nonneg_l; lia). lia. }
  assert (h = 0) as -> by nia.
  split_and!; [done|done|lia|].
  destruct (limb_last b' Hb') as (b2 & b1 & -> & Hb2 & Hb1); [by intros ->|].
  exists b1. rewrite last_snoc. split; [done|]. rewrite lval_app, lval_single in HS.
  rewrite length_app, Nat.add_1_r in Hl. injection Hl as Hl. rewrite Hl in HS. fold P in HS.
  pose proof (lval_bound b2 Hb2) as Hbb2. rewrite Hl in Hbb2. fold P in Hbb2.
  assert (P * 2 ^ 63 <= P * (top * 2 ^ s)) by (apply Z.mul_le_mono_nonneg_l; lia).
  assert (0 <= lval b0 * 2 ^ s) by (apply Z.mul_nonneg_nonneg; lia).
  assert (P * 2 ^ 63 < P * (b1 + 1)) by lia.
  assert (2 ^ 63 < b1 + 1); [|lia]. apply (Z.mul_lt_mono_pos_l P); lia.
Qed.

(** A magnitude with a zero limb on top, and its negation. *)
Lemma bval_unsigned l : limbs l -> bval (l ++ [0]) = lval l.
Proof. intros Hl. rewrite bval_snoc by (split; [lia|apply B_pos]). change (sl 0) with 0. lia. Qed.

Lemma bval_neg_unsigned l :
  limbs l ->
  limbs (fst (mp_neg (l ++ [0]))) /\ length (fst (mp_neg (l ++ [0]))) = S (length l) /\
  bval (fst (mp_neg (l ++ [0]))) = - lval l.
Proof.
  intros Hl. pose proof B_big.
  assert (limbs (l ++ [0])) as Hl0 by (rewrite limbs_app, limbs_cons; unfold limb; auto with limbs lia).
  destruct (mp_neg_spec _ Hl0) as (H1 & H2 & H3). rewrite lval_app, lval_single in H3.
  rewrite length_app, Nat.add_1_r, Bn_S in *. pose proof (lval_bound l Hl). pose proof (Bn_pos (length l)).
  split_and!; [done..|].
  apply (bval_unique _ _ (if lval l =? 0 then 0 else 1)); [done|by intros He; rewrite He in H2| |].
  - rewrite H2, H3, Bn_S, Z.mul_0_r, Z.add_0_r. case_bool; lia.
  - rewrite H2, Bn_S. nia.
Qed.

Lemma malloc_gives ctx n size k v :
  gives ctx n k v -> gives ctx n (rbind (js_malloc ctx size) (fun _ => k)) v.
Proof. intros Hk. unfold js_malloc, rbind. destruct (js_malloc_ok ctx size) eqn:Hm; [done|]. left. eauto. Qed.

(** Truncated division of signed numbers from the division of magnitudes. *)
Lemma quot_abs x y : y <> 0 -> Z.quot x y = Z.sgn x * Z.sgn y * (Z.abs x / Z.abs y).
Proof. intros Hy. rewrite Z.quot_div by done. lia. Qed.
Lemma rem_abs x y : y <> 0 -> Z.rem x y = Z.sgn x * (Z.abs x mod Z.abs y).
Proof. intros Hy. by rewrite Z.rem_mod by done. Qed.

(** Normalising both operands: the pair [(tabb, r)] before [mp_divnorm]. *)
Lemma divrem_normalize r b0 top :
  limbs r -> r <> [] -> limbs b0 -> limb top -> top <> 0 ->
  let s := js_limb_clz top in
  exists tabb r', (if negb (s =? 0) then
       let '(r', h) := mp_shl r s in
       (fst (mp_shl (b0 ++ [top]) s), if negb (h =? 0) then r' ++ [h] else r')
     else (b0 ++ [top], r)) = (tabb, r') /\
    limbs tabb /\ length tabb = S (length b0) /\ lval tabb = lval (b0 ++ [top]) * 2 ^ s /\
    limbs r' /\ (length r <= length r' <= length r + 1)%nat /\ lval r' = lval r * 2 ^ s /\
    exists b1, last tabb = Some b1 /\ 2 ^ 63 <= b1.
Proof.
  intros Hr Hne Hb0 Ht Hnz s. destruct (clz_spec top Ht Hnz) as (H1 & H2 & H3). fold s in H1, H2, H3.
  destruct (Z.eqb_spec s 0) as [Hs|Hs]; cbn [negb].
  - exists (b0 ++ [top]), r. rewrite Hs in *. cbn [Z.pow] in *.
    rewrite limbs_app, limbs_cons, length_app, Nat.add_1_r, last_snoc. split_and!; auto with limbs; try lia.
    exists top. split; [done|lia].
  - destruct (shl_divisor b0 top Hb0 Ht Hnz ltac:(fold s; lia)) as (G1 & G2 & G3 & G4). fold s in G1, G2, G3, G4.
    pose proof (mp_shl_spec r s Hr ltac:(lia)) as HS. destruct (mp_shl r s) as [r' h].
    destruct HS as (Hr' & Hl & Hh & HS). eexists _, _. split; [done|]. split_and!; try done.
    + destruct (Z.eqb_spec h 0); cbn [negb]; [done|]. rewrite limbs_app, limbs_cons.
      split_and!; auto with limbs. assert (2 ^ s <= 2 ^ 63) by (apply Z.pow_le_mono_r; lia).
      pose proof B_half. unfold limb. lia.
    + destruct (Z.eqb_spec h 0); cbn [negb]; rewrite ?length_app; lia.
    + destruct (Z.eqb_spec h 0); cbn [negb]; rewrite ?length_app; cbn; lia.
    + destruct (Z.eqb_spec h 0); cbn [negb]; [subst h; lia|]. rewrite lval_app, lval_single, Hl. lia.
Qed.

Lemma div_scaled x y s : 0 < y -> 0 <= s ->
  x * 2 ^ s / (y * 2 ^ s) = x / y /\ (x * 2 ^ s) mod (y * 2 ^ s) = x mod y * 2 ^ s.
Proof.
  intros Hy Hs. assert (0 < 2 ^ s) by (apply Z.pow_pos_nonneg; lia).
  split; [apply Z.div_mul_cancel_r; lia|apply Z.mul_mod_distr_r; lia].
Qed.

(** The remainder's sign is the dividend's. *)
Lemma divrem_rem_tail ctx n a r nb x y s :
  limbs a -> a <> [] -> limbs r -> length r = nb -> (1 <= nb)%nat -> 0 <= s <= 63 -> y <> 0 ->
  bval a = x -> lval r = Z.abs x mod Z.abs y * 2 ^ s ->
  gives ctx n (let r := if negb (s =? 0) then fst (mp_shr r s 0) else r in
    let r := r ++ [0] in
    let r := if negb (js_bigint_sign a =? 0) then fst (mp_neg r) else r in
    inr (js_bigint_normalize1 r (nb + 1))) (Z.rem x y).
Proof.
  intros Ha Hane Hr Hl Hnb Hs Hy Hx Hv. cbn zeta. rewrite rem_abs by done.
  assert (0 < 2 ^ s) by (apply Z.pow_pos_nonneg; lia).
  assert (r <> []) as Hrne by (intros ->; cbn in Hl; lia).
  set (r1 := if negb (s =? 0) then fst (mp_shr r s 0) else r).
  assert (limbs r1 /\ length r1 = nb /\ lval r1 = Z.abs x mod Z.abs y) as (Hr1 & Hl1 & Hv1).
  { subst r1. destruct (Z.eqb_spec s 0); cbn [negb].
    - subst s. split_and!; [done..|]. rewrite Hv. lia.
    - destruct (mp_shr_spec r s 0) as (G1 & G2 & G3); [done|lia|split; [lia|apply B_pos]|done|].
      split_and!; [done|congruence|]. rewrite G3, Hv, Z.mod_0_l, Z.mul_0_r, Z.add_0_r, Z.div_mul; lia. }
  pose proof (bval_sign a Ha Hane) as Hsg. rewrite Hx in Hsg.
  set (r2 := if negb (js_bigint_sign a =? 0) then fst (mp_neg (r1 ++ [0])) else r1 ++ [0]).
  assert (limbs r2 /\ length r2 = (nb + 1)%nat /\ bval r2 = Z.sgn x * (Z.abs x mod Z.abs y))
    as (Hr2 & Hl2 & Hv2).
  { subst r2. rewrite Hsg, <- Hv1. destruct (bval_neg_unsigned r1 Hr1) as (G1 & G2 & G3).
    destruct (Z.ltb_spec x 0); cbn [Z.eqb negb].
    - split_and!; [done|lia|]. rewrite G3. lia.
    - rewrite bval_unsigned by done. rewrite length_app. cbn [length]. split_and!; [|lia|].
      + rewrite limbs_app, limbs_cons. split_and!; auto with limbs. split; [lia|apply B_pos].
      + rewrite Hv1. destruct (decide (x = 0)) as [->|]; [by rewrite Z.mod_0_l by lia|lia]. }
  destruct (normalize1_spec r2 (nb + 1) Hr2 ltac:(lia)) as [G1 G2]. cbn [gives].
  split; [done|]. rewrite G2, take_ge by lia. done.
Qed.

Lemma divrem_quot_tail ctx n a b q x y :
  limbs a -> a <> [] -> limbs b -> b <> [] -> limbs q -> bval a = x -> bval b = y -> y <> 0 ->
  lval q = Z.abs x / Z.abs y ->
  gives ctx n (let q := q ++ [0] in
    let q := if negb (Z.lxor (js_bigint_sign a) (js_bigint_sign b) =? 0) then fst (mp_neg q) else q in
    inr (js_bigint_normalize q)) (Z.quot x y).
Proof.
  intros Ha Hane Hb Hbne Hq Hx Hy Hnz Hv. cbn zeta. rewrite quot_abs by done.
  rewrite (bval_sign a Ha Hane), (bval_sign b Hb Hbne), Hx, Hy.
  destruct (bval_neg_unsigned q Hq) as (G1 & G2 & G3).
  assert (limbs (q ++ [0])) as Hq0.
  { rewrite limbs_app, limbs_cons. split_and!; auto with limbs. split; [lia|apply B_pos]. }
  assert (x = 0 -> Z.abs x / Z.abs y = 0) as H0 by (intros ->; apply Z.div_0_l; lia).
  destruct (Z.ltb_spec x 0), (Z.ltb_spec y 0);
    match goal with |- context [negb ?t] => let v := eval vm_compute in t in change t with v end;
    cbn [negb]; (apply normalize_gives; [done|first [by destruct q|by intros He; rewrite He in G2]|]);
    rewrite ?G3, ?bval_unsigned, Hv by done; destruct (decide (x = 0)); lia.
Qed.

Lemma divrem_gives ctx a b is_rem :
  bigint_wf a -> bigint_wf b -> bval b <> 0 ->
  gives ctx (length a + 2) (js_bigint_divrem ctx a b is_rem)
    (if is_rem then Z.rem (bval a) (bval b) else Z.quot (bval a) (bval b)).
Proof.
  intros Hwa Hwb Hb0. pose proof Hwa as (Ha & Hane & _). pose proof Hwb as (Hb & Hbne & _).
  unfold js_bigint_divrem.
  assert (is_zero b = false) as -> by (apply not_true_iff_false; by intros ?%(is_zero_spec b Hwb)).
  apply new_gives; [done|]. intros _. apply malloc_gives.
  destruct (abs_limbs_spec a Ha Hane) as (Hr & Hrne & Hlr & Hvr & _). cbn zeta in *.
  destruct (abs_limbs_spec b Hb Hbne) as (Ht & Htne & Hlt & Hvt & t0 & top & Hteq & Htop). cbn zeta in *.
  set (r := abs_limbs (js_bigint_sign a) a) in *. rewrite Hteq in *. clear Hteq.
  rewrite limbs_app, limbs_cons in Ht. destruct Ht as (Ht0 & Htl & _).
  assert (top <> 0) as Htnz.
  { destruct Htop as [-> | ?]; [|done]. cbn [app] in Hvt. rewrite lval_single in Hvt. lia. }
  rewrite length_app, Nat.add_1_r. cbn [length]. destruct (Nat.ltb_spec (length r) (S (length t0))).
  { assert (Z.abs (bval a) < Z.abs (bval b)) as Hsmall.
    { rewrite <- Hvr, <- Hvt, lval_app, lval_single. pose proof (lval_bound r Hr). pose proof (lval_bound t0 Ht0).
      assert (Bn (length r) <= Bn (length t0)).
      { replace (length t0) with (length r + (length t0 - length r))%nat by lia. rewrite Bn_add.
        pose proof (Bn_pos (length r)). pose proof (Bn_pos (length t0 - length r)). nia. }
      unfold limb in Htl. nia. }
    destruct is_rem.
    - apply new_gives; [lia|]. intros _. cbn [gives]. split; [done|].
      rewrite rem_abs, Z.mod_small by lia. lia.
    - rewrite quot_abs, Z.div_small by lia. rewrite Z.mul_0_r. apply new_si_gives; lia. }
  rewrite last_snoc. change (default 0 (Some top)) with top.
  destruct (clz_spec top Htl Htnz) as (Hs & _ & _).
  destruct (divrem_normalize r t0 top Hr Hrne Ht0 Htl Htnz)
    as (tabb & r' & -> & Hb' & Hlb' & Hvb' & Hr' & Hlr' & Hvr' & b1 & Hlast & Hb1).
  apply new_gives; [lia|]. intros _.
  destruct (mp_divnorm_spec r' tabb b1 Hr' Hb' ltac:(lia) Hlast Hb1)
    as (r2 & q & -> & Hr2 & Hlr2 & Hq & Hlq & Hqv & Hrv).
  rewrite Hvb', Hvr', Hvt, Hvr in Hqv, Hrv.
  destruct (div_scaled (Z.abs (bval a)) (Z.abs (bval b)) (js_limb_clz top) ltac:(lia) ltac:(lia)) as [D1 D2].
  rewrite D1 in Hqv. rewrite D2 in Hrv. rewrite <- Hlb'. destruct is_rem.
  - assert (length (take (length tabb) r2) = length tabb /\ (1 <= length tabb)%nat) as [L1 L2].
    { clear - Hlr2 Hlr' Hlb' H. rewrite length_take. lia. }
    exact (divrem_rem_tail ctx (length a + 2) a (take (length tabb) r2) (length tabb) (bval a) (bval b)
      (js_limb_clz top) Ha Hane (limbs_take _ _ Hr2) L1 L2 Hs Hb0 eq_refl Hrv).
  - exact (divrem_quot_tail ctx (length a + 2) a b q (bval a) (bval b)
      Ha Hane Hb Hbne Hq eq_refl eq_refl Hb0 Hqv).
Qed.

(** ** Power *)

(** Results that do not fit the limit on the size of a BigInt, up to two limbs. *)
Definition huge_bits : Z := JS_LIMB_BITS * (JS_BIGINT_MAX_SIZE - 2).
Definition huge (v : Z) : Prop := 2 ^ huge_bits <= Z.abs v.

(** [pow] gives the power, or the power is huge, or an allocation is refused. *)
Definition pow_ok (ctx : JSContext) (m : res JSBigInt) (v : Z) : Prop :=
  match m with
  | inr r => bigint_wf r /\ bval r = v
  | inl OutOfMemory => exists size, js_malloc_ok ctx size = false
  | inl (RangeError _) => huge v
  | inl Diverges | inl (Fault _) => False
  end.

Lemma huge_bits_eq : huge_bits = 1048448. Proof. done. Qed.
Lemma max_size_eq : JS_BIGINT_MAX_SIZE = 16384. Proof. done. Qed.
#[global] Opaque huge_bits.

Lemma huge_pow x k : 2 <= Z.abs x -> huge_bits <= k -> huge (x ^ k).
Proof.
  intros Hx Hk. unfold huge. rewrite Z.abs_pow. pose proof huge_bits_eq.
  etransitivity; [apply (Z.pow_le_mono_r 2 huge_bits k); lia|]. apply Z.pow_le_mono_l. lia.
Qed.

Lemma huge_mono x j k : x <> 0 -> 0 <= j <= k -> huge (x ^ j) -> huge (x ^ k).
Proof.
  intros Hx Hj. unfold huge. rewrite !Z.abs_pow. intros H.
  etransitivity; [exact H|]. clear H. apply Z.pow_le_mono_r; lia.
Qed.

(** The length of a non-zero BigInt bounds its magnitude from below. *)
Lemma bval_lower a : bigint_wf a -> bval a <> 0 -> Bn (length a - 1) <= 2 * Z.abs (bval a).
Proof.
  intros (Ha & Hne & Hn) Hnz. destruct (decide (length a <= 1)%nat) as [Hl|Hl].
  - replace (length a - 1)%nat with 0%nat by lia. rewrite Bn_0. lia.
  - destruct (normalized_big a Ha Hn ltac:(lia)) as [H0 H1].
    destruct (sign_cases a Ha Hne) as [Hs|Hs]; [specialize (H0 Hs)|specialize (H1 Hs)]; lia.
Qed.

Lemma huge_len n v : JS_BIGINT_MAX_SIZE < Z.of_nat n -> Bn (n - 2) <= 4 * Z.abs v -> huge v.
Proof.
  intros Hn Hv. unfold huge. pose proof max_size_eq. pose proof huge_bits_eq.
  rewrite Bn_pow in Hv. revert Hv. generalize dependent huge_bits. intros h Hh Hv.
  assert (2 ^ (h + 2) <= 2 ^ (64 * Z.of_nat (n - 2))) as Hp by (apply Z.pow_le_mono_r; lia).
  rewrite Z.pow_add_r in Hp by lia. clear Hh. lia.
Qed.

Lemma mul_pow_ok ctx x y :
  bigint_wf x -> bigint_wf y -> bval x <> 0 -> bval y <> 0 ->
  pow_ok ctx (js_bigint_mul ctx x y) (bval x * bval y).
Proof.
  intros Hx Hy Hx0 Hy0. pose proof (mul_gives ctx x y Hx Hy) as HG.
  destruct (js_bigint_mul ctx x y) as [e|r]; [|done]. cbn [gives pow_ok] in *.
  destruct HG as [[-> HG]|[-> HG]]; [done|]. cbn. apply (huge_len _ _ HG).
  pose proof (bval_lower x Hx Hx0). pose proof (bval_lower y Hy Hy0).
  destruct Hx as (_ & Hxne & _), Hy as (_ & Hyne & _).
  replace (length x + length y - 2)%nat with ((length x - 1) + (length y - 1))%nat
    by (destruct x, y; cbn; done || lia).
  rewrite Bn_add, Z.abs_mul. pose proof (Bn_pos (length x - 1)). pose proof (Bn_pos (length y - 1)).
  assert (Bn (length x - 1) * Bn (length y - 1) <= 2 * Z.abs (bval x) * (2 * Z.abs (bval y)))
    by (apply Z.mul_le_mono_nonneg; lia). lia.
Qed.

Lemma pow_ok_bind ctx m k v' v :
  pow_ok ctx m v' -> (huge v' -> huge v) ->
  (forall r, bigint_wf r -> bval r = v' -> pow_ok ctx (k r) v) -> pow_ok ctx (rbind m k) v.
Proof.
  intros Hm Hh Hk. destruct m as [[]|r]; cbn [rbind pow_ok] in *; [exact (Hh Hm)|exact Hm|exact Hm|exact Hm|].
  destruct Hm as [Hm1 Hm2]. exact (Hk r Hm1 Hm2).
Qed.

Lemma gives_pow_ok ctx m v : gives ctx 1 m v -> pow_ok ctx m v.
Proof.
  destruct m as [e|r]; [|done]. intros [[-> H]|[-> H]]; [done|]. rewrite max_size_eq in H. lia.
Qed.

Lemma shiftr_step e i : 0 <= e ->
  Z.shiftr e (Z.of_nat i) = 2 * Z.shiftr e (Z.of_nat (S i)) + Z.land (Z.shiftr e (Z.of_nat i)) 1.
Proof.
  intros He. rewrite land_1, Nat2Z.inj_succ, <- Z.add_1_r, <- Z.shiftr_shiftr by lia.
  rewrite (Z.shiftr_div_pow2 _ 1) by lia. change (2 ^ 1) with 2.
  apply Z.div_mod. lia.
Qed.

Lemma pow_loop_ok ctx a e i r :
  bigint_wf a -> bval a <> 0 -> 0 <= e -> bigint_wf r -> bval r = bval a ^ Z.shiftr e (Z.of_nat i) ->
  pow_ok ctx (pow_loop ctx a e i r) (bval a ^ e).
Proof.
  intros Ha Ha0 He. revert r. induction i as [|i IH]; intros r Hr Hv; cbn [pow_loop].
  { cbn. rewrite Z.shiftr_0_r in Hv. done. }
  pose proof (shiftr_step e i He) as Hst. set (bt := Z.land (Z.shiftr e (Z.of_nat i)) 1) in *.
  assert (0 <= Z.shiftr e (Z.of_nat (S i))) by (apply Z.shiftr_nonneg; lia).
  assert (bit bt) as Hbt by (subst bt; rewrite land_1; unfold bit; mod_lia).
  assert (Z.shiftr e (Z.of_nat i) <= e).
  { rewrite Z.shiftr_div_pow2 by lia. apply Z.div_le_upper_bound; [lia|].
    assert (1 <= 2 ^ Z.of_nat i) by (apply (Z.pow_le_mono_r 2 0); lia). nia. }
  assert (bval r <> 0) as Hr0 by (rewrite Hv; apply Z.pow_nonzero; lia).
  assert (bval r * bval r = bval a ^ (2 * Z.shiftr e (Z.of_nat (S i)))) as Hsq.
  { rewrite Hv, <- Z.pow_add_r by lia. f_equal. lia. }
  unfold bit in Hbt. eapply pow_ok_bind; [by apply mul_pow_ok| |].
  { rewrite Hsq. apply huge_mono; [done|lia]. }
  intros r1 Hr1 Hv1. rewrite Hsq in Hv1. eapply pow_ok_bind with (v' := bval a ^ Z.shiftr e (Z.of_nat i)).
  - destruct (Z.eqb_spec bt 0) as [Hb|Hb].
    + cbn. split; [done|]. rewrite Hv1. f_equal. lia.
    + replace (bval a ^ Z.shiftr e (Z.of_nat i)) with (bval r1 * bval a).
      * apply mul_pow_ok; try done. rewrite Hv1. apply Z.pow_nonzero; lia.
      * rewrite Hv1. rewrite Hst, Z.pow_add_r by lia. f_equal. replace bt with 1 by lia. lia.
  - apply huge_mono; [done|]. split; [apply Z.shiftr_nonneg; lia|done].
  - intros r2 Hr2 Hv2. by apply IH.
Qed.

(** A non-negative exponent: one limb, or too many to represent the power. *)
Lemma exponent_cases b :
  bigint_wf b -> 0 <= bval b ->
  (length b = 1%nat /\ b = [bval b]) \/ ((1 < length b)%nat /\ huge_bits <= bval b).
Proof.
  intros (Hb & Hne & Hn) H0. destruct b as [|x [|y b]]; [done| |].
  - left. split; [done|]. apply limbs_cons in Hb as [Hx _]. rewrite bval_single in * by done.
    f_equal. revert H0. unfold sl, limb in *. case_bool; lia.
  - right. split; [cbn; lia|]. destruct (normalized_big _ Hb Hn ltac:(cbn; lia)) as [Hp _].
    rewrite bval_sign in Hp by done. destruct (Z.ltb_spec (bval (x :: y :: b)) 0); [lia|].
    specialize (Hp eq_refl). cbn [length] in Hp. rewrite huge_bits_eq. pose proof B_big.
    replace (S (S (length b)) - 1)%nat with (S (length b)) in Hp by lia.
    rewrite Bn_S in Hp. pose proof (Bn_pos (length b)). nia.
Qed.

Lemma pow_general_ok ctx a b :
  bigint_wf a -> bigint_wf b -> 2 <= Z.abs (bval a) -> 0 < bval b ->
  pow_ok ctx (pow_general ctx a b) (bval a ^ bval b).
Proof.
  intros Ha Hb Ha2 Hb0. unfold pow_general. pose proof huge_bits_eq.
  destruct (exponent_cases b Hb ltac:(lia)) as [[Hl Heq]|[Hl Hbig]].
  - assert (default 0 (b !! 0%nat) = bval b) as -> by (by rewrite Heq at 1).
    rewrite Hl. change (1 <? 1)%nat with false. cbn iota.
    destruct (Z.ltb_spec (2 ^ 31 - 1) (bval b)).
    { cbn. apply huge_pow; lia. }
    unfold js_bigint_new. destruct (Z.ltb_spec JS_BIGINT_MAX_SIZE (Z.of_nat (length a))).
    { cbn [rbind pow_ok too_large_to_allocate].
      assert (huge (bval a ^ 1)) as Hh.
      { rewrite Z.pow_1_r. apply (huge_len (length a)); [done|]. pose proof (bval_lower a Ha ltac:(lia)) as Hlo.
        replace (length a - 1)%nat with (S (length a - 2)) in Hlo by (pose proof max_size_eq; lia).
        rewrite Bn_S in Hlo. pose proof B_big. pose proof (Bn_pos (length a - 2)). nia. }
      revert Hh. apply huge_mono; lia. }
    destruct (js_malloc_ok _ _) eqn:Hm; cbn [rbind]; [|cbn; eauto].
    apply pow_loop_ok; [done|lia|lia|done|].
    replace (Z.shiftr (bval b) _) with 1; [lia|].
    rewrite Z2Nat.id by apply Z.log2_nonneg. rewrite Z.shiftr_div_pow2 by apply Z.log2_nonneg.
    pose proof (Z.log2_spec (bval b) Hb0) as Hlog.
    rewrite Z.pow_succ_r in Hlog by apply Z.log2_nonneg.
    apply Z.div_unique with (r := bval b - 2 ^ Z.log2 (bval b)); lia.
  - destruct (Nat.ltb_spec 1 (length b)); [|lia]. cbn. by apply huge_pow.
Qed.

Lemma power_of_two_test v : 0 < v -> Z.land v (v - 1) = 0 -> v = 2 ^ Z.log2 v.
Proof.
  intros Hv Hl. pose proof (Z.log2_spec v Hv) as [H1 H2]. set (n := Z.log2 v) in *.
  assert (0 <= n) by apply Z.log2_nonneg.
  destruct (decide (v = 2 ^ n)) as [|Hne]; [done|]. exfalso.
  assert (Z.log2 (v - 1) = n) as Hn by (apply Z.log2_unique; lia).
  assert (0 < 2 ^ n) by (apply Z.pow_pos_nonneg; lia).
  assert (Z.testbit (Z.land v (v - 1)) n = true) as Hb.
  { rewrite Z.land_spec. subst n. rewrite Z.bit_log2 by lia. rewrite <- Hn, Z.bit_log2 by lia. done. }
  rewrite Hl, Z.bits_0 in Hb. done.
Qed.

(** The limb array of [+/- 2^e]. *)
Lemma pow_two_array e neg :
  0 <= e -> bit neg ->
  let r := <[Z.to_nat (e / 64) := u64 (Z.shiftl (u64 (1 - 2 * neg)) (e mod 64))]>
             (replicate (Z.to_nat ((e + 64 + 1 - neg) / 64)) 0) in
  bigint_wf r /\ bval r = (1 - 2 * neg) * 2 ^ e.
Proof.
  intros He Hneg. cbn zeta. pose proof B_half as HB.
  set (k := Z.to_nat (e / 64)). set (s := e mod 64). assert (0 <= s < 64) as Hs by (subst s; mod_lia).
  assert (e = 64 * Z.of_nat k + s) as Hek by (subst k s; mod_lia).
  assert (0 < 2 ^ s) by (apply Z.pow_pos_nonneg; lia).
  assert (2 ^ s <= 2 ^ 63) by (apply Z.pow_le_mono_r; lia).
  pose proof (B_shift s ltac:(lia)) as HBs.
  set (v := u64 (Z.shiftl (u64 (1 - 2 * neg)) s)).
  assert (v = if neg =? 0 then 2 ^ s else B - 2 ^ s) as Hv.
  { subst v. assert (1 < 2 ^ (64 - s)) by (apply Z.pow_gt_1; lia). rewrite u64_shiftl by lia.
    destruct Hneg as [-> | ->]; cbn [Z.eqb].
    - change (u64 (1 - 2 * 0)) with 1. rewrite Z.mod_small by lia. lia.
    - change (u64 (1 - 2 * 1)) with (B - 1).
      assert ((B - 1) mod 2 ^ (64 - s) = 2 ^ (64 - s) - 1) as ->; [|lia].
      symmetry. apply Z.mod_unique with (2 ^ s - 1); [lia|]. rewrite <- HBs. ring. }
  assert (limb v) as Hvl by apply u64_limb.
  assert (limb 0) as H0l by (unfold limb; lia).
  assert (2 ^ e = Bn k * 2 ^ s) as -> by (rewrite Bn_pow, <- Z.pow_add_r by lia; f_equal; lia).
  assert (forall m, <[k := v]> (replicate (k + S m) 0) = replicate k 0 ++ v :: replicate m 0) as Hins.
  { intros m. rewrite replicate_add. rewrite insert_app_r_alt by (rewrite length_replicate; lia).
    rewrite length_replicate, Nat.sub_diag. done. }
  assert (forall w, limb w -> w <> 0 -> bigint_wf [w] /\ bval [w] <> 0) as Hone.
  { intros w Hw Hw0. split; [by apply single_wf|]. rewrite bval_single by done. unfold sl, limb in *.
    case_bool; lia. }
  destruct Hneg as [-> | ->]; cbn [Z.eqb] in Hv.
  - destruct (decide (s = 63)) as [H63|H63].
    + replace (Z.to_nat ((e + 64 + 1 - 0) / 64)) with (k + 2)%nat by (rewrite Hek, H63; mod_lia).
      rewrite (Hins 1%nat). cbn [replicate].
      assert (bval [v; 0] = 2 ^ s) as Hb2.
      { rewrite bval_cons, bval_single by done. change (sl 0) with 0. lia. }
      split; [|rewrite bval_shifted by done; lia]. apply shl_wf; [|lia].
      split_and!; [by rewrite !limbs_cons; auto with limbs|done|]. apply (normalized_snoc []).
      unfold limb_redundant. rewrite Hv, H63. done.
    + replace (Z.to_nat ((e + 64 + 1 - 0) / 64)) with (k + 1)%nat by (rewrite Hek; mod_lia).
      rewrite (Hins 0%nat). cbn [replicate]. destruct (Hone v Hvl ltac:(lia)) as [G1 G2].
      split; [by apply shl_wf|]. rewrite bval_shifted, bval_single by done.
      assert (2 ^ s < 2 ^ 63) by (apply Z.pow_lt_mono_r; lia).
      unfold sl. rewrite Hv. case_bool; lia.
  - replace (Z.to_nat ((e + 64 + 1 - 1) / 64)) with (k + 1)%nat by (rewrite Hek; mod_lia).
    rewrite (Hins 0%nat). cbn [replicate]. destruct (Hone v Hvl ltac:(lia)) as [G1 G2].
    split; [by apply shl_wf|]. rewrite bval_shifted, bval_single by done.
    unfold sl. rewrite Hv. case_bool; lia.
Qed.

Lemma pow_neg_parity x k : 0 <= k -> (- x) ^ k = (1 - 2 * (k mod 2)) * x ^ k.
Proof.
  intros Hk. rewrite Zmod_even. destruct (Z.even k) eqn:Hev.
  - apply Z.even_spec in Hev. rewrite Z.pow_opp_even by done. lia.
  - assert (Z.Odd k) as Ho by (apply Z.odd_spec; by rewrite <- Z.negb_even, Hev).
    rewrite Z.pow_opp_odd by done. lia.
Qed.

Lemma pow_two_ok ctx v is_neg b :
  limb v -> 2 <= v -> Z.land v (v - 1) = 0 -> bigint_wf b -> 0 < bval b ->
  pow_ok ctx (pow_two ctx v is_neg b) ((if is_neg then - v else v) ^ bval b).
Proof.
  intros Hvl Hv Htest Hb Hb0. unfold pow_two. pose proof huge_bits_eq as Hhb. unfold JS_LIMB_BITS.
  apply power_of_two_test in Htest; [|lia]. unfold js_limb_clz.
  replace (64 - 1 - (63 - Z.log2 v)) with (Z.log2 v) by lia. set (n := Z.log2 v) in *.
  assert (0 <= n < 64) as Hn.
  { split; [apply Z.log2_nonneg|]. apply Z.log2_lt_pow2; [lia|]. unfold limb in Hvl.
    change (2 ^ 64) with B. lia. }
  assert (1 <= n) by (apply Z.log2_le_pow2; lia).
  assert (2 <= Z.abs (if is_neg then - v else v)) as Habs by (destruct is_neg; lia).
  destruct (exponent_cases b Hb ltac:(lia)) as [[Hl Heq]|[Hl Hbig]].
  2: { destruct (Nat.ltb_spec 1 (length b)); [|lia]. by apply huge_pow. }
  assert (default 0 (b !! 0%nat) = bval b) as -> by (by rewrite Heq at 1).
  rewrite Hl. change (1 <? 1)%nat with false. cbn iota.
  destruct (Z.ltb_spec (2 ^ 31 - 1) (bval b)); [apply huge_pow; lia|].
  pose proof B_half. assert (0 <= bval b * n <= (2 ^ 31 - 1) * 63) as Hbn
    by (split; [apply Z.mul_nonneg_nonneg|apply Z.mul_le_mono_nonneg]; lia).
  rewrite (u64_limb_id (bval b * n)) by (unfold limb; lia). rewrite max_size_eq.
  assert ((if is_neg then - v else v) ^ bval b =
    (1 - 2 * (if is_neg then bval b mod 2 else 0)) * 2 ^ (bval b * n)) as Hpow.
  { rewrite (Z.mul_comm (bval b)), Z.pow_mul_r, <- Htest by lia. destruct is_neg; [apply pow_neg_parity|]; lia. }
  destruct (Z.ltb_spec (16384 * 64) (bval b * n)) as [Hover|Hok].
  { cbn [pow_ok too_large]. unfold huge. rewrite Z.abs_pow.
    replace (Z.abs (if is_neg then - v else v)) with v by (destruct is_neg; lia).
    rewrite Htest, <- Z.pow_mul_r by lia. apply Z.pow_le_mono_r; lia. }
  rewrite u32_id by lia. rewrite land_1.
  destruct (pow_two_array (bval b * n) (if is_neg then bval b mod 2 else 0)) as [G1 G2]; [nia| |].
  { destruct is_neg; [|by left]. unfold bit. mod_lia. }
  unfold js_bigint_new. rewrite max_size_eq.
  match goal with |- context [if 16384 <? ?x then _ else _] => destruct (Z.ltb_spec 16384 x) as [Hbig|Hsm] end.
  { cbn [rbind pow_ok too_large_to_allocate]. unfold huge. rewrite Z.abs_pow.
    replace (Z.abs (if is_neg then - v else v)) with v by (destruct is_neg; lia).
    rewrite Htest, <- Z.pow_mul_r by lia. apply Z.pow_le_mono_r; [lia|].
    assert (0 <= (if is_neg then bval b mod 2 else 0)) by (destruct is_neg; mod_lia). mod_lia. }
  destruct (js_malloc_ok _ _) eqn:Hm; cbn [rbind pow_ok]; [|by eauto]. rewrite Hpow. done.
Qed.

(** The low bit of a non-negative BigInt is that of its first limb. *)
Lemma bval_parity b : bigint_wf b -> Z.land (default 0 (b !! 0%nat)) 1 = bval b mod 2.
Proof.
  intros (Hb & Hne & _). destruct b as [|x b]; [done|]. apply limbs_cons in Hb as [Hx Hb].
  change (default 0 ((x :: b) !! 0%nat)) with x. rewrite land_1. pose proof B_half as HB.
  destruct b as [|y b].
  - rewrite bval_single by done. unfold sl. case_bool; mod_lia.
  - rewrite bval_cons by done. rewrite HB. generalize (bval (y :: b)). intros z.
    replace (x + 2 * 2 ^ 63 * z) with (x + 2 ^ 63 * z * 2) by lia. by rewrite Z.mod_add.
Qed.

Lemma pow_spec ctx a b :
  bigint_wf a -> bigint_wf b -> 0 <= bval b ->
  pow_ok ctx (js_bigint_pow ctx a b) (bval a ^ bval b).
Proof.
  intros Ha Hb Hb0. unfold js_bigint_pow. pose proof B_half as HB.
  pose proof Hb as (Hbl & Hbne & _). rewrite (bval_sign b Hbl Hbne), (bval_parity b Hb).
  destruct (Z.ltb_spec (bval b) 0); [lia|]. cbn [Z.eqb negb].
  destruct (is_zero b) eqn:Hz.
  { apply (is_zero_spec b Hb) in Hz. rewrite Hz. apply gives_pow_ok, new_si_gives; lia. }
  assert (0 < bval b) as Hpos.
  { destruct (decide (bval b = 0)) as [Hd|]; [|lia]. apply (is_zero_spec b Hb) in Hd. congruence. }
  pose proof Ha as (Hal & Hane & Han). destruct (Nat.eqb_spec (length a) 1) as [Hl|Hl].
  - destruct a as [|v [|]]; try done. apply limbs_cons in Hal as [Hv _]. cbn [lookup list_lookup].
    change (default 0 (Some v)) with v. pose proof (bval_single v Hv) as Hbv. unfold limb in Hv.
    destruct (Z.leb_spec v 1).
    { replace (bval [v] ^ bval b) with v.
      - apply gives_pow_ok, new_si_gives; lia.
      - rewrite Hbv. unfold sl. destruct (Z.ltb_spec v (2 ^ 63)); [|lia].
        assert (v = 0 \/ v = 1) as [-> | ->] by lia; [by rewrite Z.pow_0_l|by rewrite Z.pow_1_l by lia]. }
    rewrite u64_m1. destruct (Z.eqb_spec v (B - 1)) as [Hm1|Hm1].
    { replace (bval [v] ^ bval b) with (1 - 2 * (bval b mod 2)).
      - apply gives_pow_ok, new_si_gives; [lia|]. mod_lia.
      - rewrite Hbv. unfold sl. destruct (Z.ltb_spec v (2 ^ 63)); [lia|].
        replace (v - B) with (- (1)) by lia. rewrite pow_neg_parity, Z.pow_1_l by lia. lia. }
    assert (i64 v = sl v) as Hi.
    { unfold i64, sl. change (2 ^ 64) with B. case_bool.
      - rewrite Z.mod_small; lia.
      - replace (v + 2 ^ 63) with (v - 2 ^ 63 + 1 * B) by lia. rewrite Z.mod_add, Z.mod_small; lia. }
    rewrite Hi. set (v' := if sl v <? 0 then u64 (- v) else v).
    assert (limb v' /\ 2 <= v' /\ bval [v] = if sl v <? 0 then - v' else v') as (Hv'l & Hv'2 & Hbv').
    { subst v'. rewrite Hbv. unfold sl, limb. destruct (Z.ltb_spec v (2 ^ 63)).
      - destruct (Z.ltb_spec v 0); lia.
      - destruct (Z.ltb_spec (v - B) 0); [|lia]. rewrite u64_mod.
        assert (- v mod B = B - v) as -> by (symmetry; apply Z.mod_unique with (-1); lia). lia. }
    rewrite (u64_limb_id (v' - 1)) by (unfold limb in *; lia).
    destruct (Z.eqb_spec (Z.land v' (v' - 1)) 0).
    + rewrite Hbv'. by apply pow_two_ok.
    + apply pow_general_ok; try done. rewrite Hbv'. case_match; lia.
  - apply pow_general_ok; try done.
    assert (2 <= length a)%nat by (destruct a as [|? [|]]; cbn in *; done || lia).
    destruct (normalized_big a Hal Han ltac:(lia)) as [G0 G1].
    assert (B <= Bn (length a - 1)).
    { replace (length a - 1)%nat with (S (length a - 2)) by lia. rewrite Bn_S.
      pose proof (Bn_pos (length a - 2)). nia. }
    pose proof B_big. destruct (sign_cases a Hal Hane) as [Hs|Hs]; [specialize (G0 Hs)|specialize (G1 Hs)]; lia.
Qed.

(** ** The operations implement the integers *)

(** A context that grants every allocation. *)
Definition ctx_ok : JSContext := {| js_malloc_ok := fun _ => true |}.

Lemma bigint_inj a b : bigint_wf a -> bigint_wf b -> bval a = bval b -> a = b.
Proof.
  intros Ha Hb Hv. pose proof (cmp_spec a b Ha Hb) as Hc. rewrite Hv, Z.compare_refl in Hc.
  destruct Ha as (Ha & Hane & _), Hb as (Hb & Hbne & _). unfold js_bigint_cmp in Hc.
  pose proof (sign_cases a Ha Hane) as Hsa. unfold bit in Hsa.
  destruct (Z.eqb_spec (js_bigint_sign a) (js_bigint_sign b)) as [Hs|]; cbn [negb] in Hc; [|lia].
  destruct (Nat.eqb_spec (length a) (length b)) as [Hl|]; cbn [negb] in Hc; [|case_match; lia].
  apply lval_inj; try done. unfold bval in Hv. rewrite Hs, Hl in Hv. lia.
Qed.

(** C38: addition, subtraction, negation and multiplication of BigInts are those
    of the integers: the result is a well-formed array with the exact value,
    unless an allocation is refused or more than [JS_BIGINT_MAX_SIZE] limbs are
    needed. *)
Theorem bigint_ring_correct (ctx : JSContext) (a b : JSBigInt)
    (Ha : bigint_wf a) (Hb : bigint_wf b) :
  gives ctx (Nat.max (length a) (length b)) (js_bigint_add ctx a b false) (bval a + bval b) /\
  gives ctx (Nat.max (length a) (length b)) (js_bigint_add ctx a b true) (bval a - bval b) /\
  gives ctx (length a) (js_bigint_neg ctx a) (- bval a) /\
  gives ctx (length a + length b) (js_bigint_mul ctx a b) (bval a * bval b).
Proof.
  split_and!; [exact (add_gives ctx a b false Ha Hb)|exact (add_gives ctx a b true Ha Hb)|by apply neg_gives|by apply mul_gives].
Qed.

(** [2^63 - 1] and [1]: the sum needs a second limb. *)
Definition w_max : JSBigInt := [2 ^ 63 - 1].
Definition w_one : JSBigInt := [1].
Lemma w_max_wf : bigint_wf w_max.
Proof. apply single_wf. split; [lia|done]. Qed.
Lemma w_one_wf : bigint_wf w_one.
Proof. apply single_wf. split; [lia|done]. Qed.

Lemma bigint_ring_correct_witness :
  gives ctx_ok 1 (js_bigint_add ctx_ok w_max w_one false) (2 ^ 63) /\
  js_bigint_add ctx_ok w_max w_one false = inr [2 ^ 63; 0] /\
  gives ctx_ok 2 (js_bigint_mul ctx_ok w_max w_max) ((2 ^ 63 - 1) * (2 ^ 63 - 1)).
Proof.
  split; [exact (proj1 (bigint_ring_correct ctx_ok w_max w_one w_max_wf w_one_wf))|]. split; [vm_compute; reflexivity|].
  exact (proj2 (proj2 (proj2 (bigint_ring_correct ctx_ok w_max w_max w_max_wf w_max_wf)))).
Defined.

(** C31: division and remainder of BigInts truncate towards zero, with the
    dividend's sign on the remainder; a zero divisor raises the RangeError of
    the source.  The digit loop always ends: there is no other outcome. *)
Theorem bigint_divrem_correct (ctx : JSContext) (a b : JSBigInt) (is_rem : bool)
    (Ha : bigint_wf a) (Hb : bigint_wf b) :
  if bval b =? 0 then
    js_bigint_divrem ctx a b is_rem = inl (RangeError "BigInt division by zero")
  else
    gives ctx (length a + 2) (js_bigint_divrem ctx a b is_rem)
      (if is_rem then Z.rem (bval a) (bval b) else Z.quot (bval a) (bval b)).
Proof.
  destruct (Z.eqb_spec (bval b) 0) as [Hz|Hz]; [|by apply divrem_gives].
  unfold js_bigint_divrem. by rewrite (proj2 (is_zero_spec b Hb) Hz).
Qed.

(** [2^128 - 1], a dividend for which the digits come from the reciprocal. *)
Definition w_big : JSBigInt := [2 ^ 64 - 1; 2 ^ 64 - 1; 0].
Lemma w_big_wf : bigint_wf w_big.
Proof.
  split_and!; [|done|].
  - repeat constructor; try (split; [lia|done]); done.
  - apply (normalized_snoc [2 ^ 64 - 1]). done.
Qed.

Lemma bigint_divrem_correct_witness :
  gives ctx_ok 5 (js_bigint_divrem ctx_ok w_big w_max false) (Z.quot (2 ^ 128 - 1) (2 ^ 63 - 1)).
Proof. exact (bigint_divrem_correct ctx_ok w_big w_max false w_big_wf w_max_wf). Defined.

(** C39: the bitwise operations are those of the integers in infinite two's
    complement, negative operands included. *)
Theorem bigint_bitwise_correct (ctx : JSContext) (a b : JSBigInt)
    (Ha : bigint_wf a) (Hb : bigint_wf b) :
  gives ctx (Nat.max (length a) (length b)) (js_bigint_logic ctx a b OP_and) (Z.land (bval a) (bval b)) /\
  gives ctx (Nat.max (length a) (length b)) (js_bigint_logic ctx a b OP_or) (Z.lor (bval a) (bval b)) /\
  gives ctx (Nat.max (length a) (length b)) (js_bigint_logic ctx a b OP_xor) (Z.lxor (bval a) (bval b)) /\
  gives ctx (length a) (js_bigint_not ctx a) (Z.lnot (bval a)).
Proof.
  split_and!; [exact (logic_gives OP_and ctx a b Ha Hb)|exact (logic_gives OP_or ctx a b Ha Hb)|
    exact (logic_gives OP_xor ctx a b Ha Hb)|by apply not_gives].
Qed.

Lemma bigint_bitwise_correct_witness :
  gives ctx_ok 3 (js_bigint_logic ctx_ok w_big w_max OP_and) (2 ^ 63 - 1).
Proof. exact (proj1 (bigint_bitwise_correct ctx_ok w_big w_max w_big_wf w_max_wf)). Defined.

(** The shifts multiply by a power of two and divide by it rounding down,
    for every shift count and sign. *)
Theorem bigint_shift_correct (ctx : JSContext) (a : JSBigInt) (s : Z)
    (Ha : bigint_wf a) (Hs : 0 <= s) :
  gives ctx (length a + Z.to_nat (s / JS_LIMB_BITS)) (js_bigint_shl ctx a s) (bval a * 2 ^ s) /\
  gives ctx (length a) (js_bigint_shr ctx a s) (bval a / 2 ^ s).
Proof.
  pose proof (shl_gives ctx a s Ha Hs) as H1. pose proof (shr_gives ctx a s Ha Hs) as H2.
  rewrite Z.shiftl_mul_pow2 in H1 by done. by rewrite Z.shiftr_div_pow2 in H2 by done.
Qed.

Lemma bigint_shift_correct_witness : gives ctx_ok 3 (js_bigint_shr ctx_ok w_big 65) (2 ^ 63 - 1).
Proof. exact (proj2 (bigint_shift_correct ctx_ok w_big 65 w_big_wf ltac:(lia))). Defined.

(** C40: exponentiation: a negative exponent raises; otherwise the result is the
    exact power, or the power has more than 2^20 - 128 bits and a RangeError is
    raised, or an allocation is refused. *)
Theorem bigint_pow_correct (ctx : JSContext) (a b : JSBigInt)
    (Ha : bigint_wf a) (Hb : bigint_wf b) :
  if bval b <? 0 then
    js_bigint_pow ctx a b = inl (RangeError "BigInt negative exponent")
  else pow_ok ctx (js_bigint_pow ctx a b) (bval a ^ bval b).
Proof.
  destruct (Z.ltb_spec (bval b) 0) as [Hn|Hn]; [|by apply pow_spec].
  destruct Hb as (Hb & Hne & _). unfold js_bigint_pow. rewrite (bval_sign b Hb Hne).
  by rewrite (proj2 (Z.ltb_lt _ _) Hn).
Qed.

Lemma bigint_pow_correct_witness :
  js_bigint_pow ctx_ok [3] [41] = inr [3 ^ 41 mod 2 ^ 64; 3 ^ 41 / 2 ^ 64] /\
  pow_ok ctx_ok (js_bigint_pow ctx_ok [3] [41]) (3 ^ 41).
Proof.
  split; [vm_compute; reflexivity|].
  exact (bigint_pow_correct ctx_ok [3] [41] (single_wf 3 ltac:(split; [lia|done]))
           (single_wf 41 ltac:(split; [lia|done]))).
Defined.

(** Comparison orders BigInts as the integers, and the array of an integer
    is unique: equal values are equal arrays. *)
Theorem bigint_cmp_correct (a b : JSBigInt) (Ha : bigint_wf a) (Hb : bigint_wf b) :
  js_bigint_cmp a b = match bval a ?= bval b with Lt => -1 | Eq => 0 | Gt => 1 end /\
  (bval a = bval b <-> a = b).
Proof. split; [by apply cmp_spec|]. split; [by apply bigint_inj|by intros ->]. Qed.

Lemma bigint_cmp_correct_witness : js_bigint_cmp w_big w_max = 1.
Proof. exact (proj1 (bigint_cmp_correct w_big w_max w_big_wf w_max_wf)). Defined.
