(* ===== verification/BigIntString.v ===== *)
(** * BigInt to and from text (quickjs.c)

    [js_bigint_from_string] and [js_bigint_to_string1].  A write outside the
    buffer the code allocated is a [Fault]; the theorems show there is none. *)
From S2P Require Import Prelude Digits IntToA Limbs BigInt.

(** [to_digit]: the value of a digit character, 36 for any other. *)
Definition to_digit (c : Z) : Z :=
  if (48 <=? c) && (c <=? 57) then c - 48
  else if (65 <=? c) && (c <=? 90) then c - 65 + 10
  else if (97 <=? c) && (c <=? 122) then c - 97 + 10
  else 36.

Definition JS_LIMB_DIGITS : nat := 19.

(** [10^i]. *)
Definition js_pow_dec : list Z :=
  [1; 10; 100; 1000; 10000; 100000; 1000000; 10000000; 100000000; 1000000000;
   10000000000; 100000000000; 1000000000000; 10000000000000; 100000000000000;
   1000000000000000; 10000000000000000; 100000000000000000; 1000000000000000000;
   10000000000000000000].

(** [while ( *p == '0') p++] *)
Fixpoint skip_zeros (p : list Z) : list Z :=
  match p with
  | c :: p' => if c =? 48 then skip_zeros p' else p
  | [] => []
  end.

(** Up to [n] digits from [p]: their number, their value and the rest. *)
Fixpoint dec_chunk (n : nat) (i : nat) (v : Z) (p : list Z) : nat * Z * list Z :=
  match n, p with
  | S n', c :: p' =>
      if 10 <=? to_digit c then (i, v, p)
      else dec_chunk n' (S i) (u64 (v * 10 + to_digit c)) p'
  | _, _ => (i, v, p)
  end.

(** [tab = tab * 10^i + v], growing [tab] by the high limb. *)
Definition dec_push (n_limbs : nat) (tab : list Z) (i : nat) (v : Z) : res (list Z) :=
  if (length tab =? 1)%nat && (default 0 (tab !! 0%nat) =? 0) then inr [v]
  else
    let '(tab, h) := mp_mul1 tab (default 0 (js_pow_dec !! i)) v in
    if negb (h =? 0) then
      if (length tab <? n_limbs)%nat then inr (tab ++ [h]) else inl (Fault "write past tab")
    else inr tab.

(** The [for(;;)] of the decimal case; [tab] is [r->tab[0..len-1]]. *)
Fixpoint dec_loop (fuel : nat) (n_limbs : nat) (tab : list Z) (p : list Z) : res (list Z) :=
  match fuel with
  | O => inl Diverges
  | S fuel' =>
      let '(i, v, p) := dec_chunk JS_LIMB_DIGITS 0 0 p in
      if (i =? 0)%nat then inr tab
      else
        let! tab := dec_push n_limbs tab i v in
        dec_loop fuel' n_limbs tab p
  end.

(** Or [x] into [tab[pos]]. *)
Definition or_at (tab : list Z) (pos : nat) (x : Z) : res (list Z) :=
  match tab !! pos with
  | Some y => inr (<[pos := Z.lor y x]> tab)
  | None => inl (Fault "write past tab")
  end.

(** The loop of the power-of-two case over the digits, last one first. *)
Fixpoint bin_loop (tab : list Z) (i : Z) (radix log2_radix : Z) (rp : list Z) : res (list Z) :=
  match rp with
  | [] => inr tab
  | ch :: rp' =>
      let c := to_digit ch in
      if radix <=? c then inl (Fault "assert(c < radix)")
      else
        let bit_pos := i * log2_radix in
        let shift := Z.land bit_pos 63 in
        let pos := Z.to_nat (bit_pos / 64) in
        let! tab := or_at tab pos (u64 (Z.shiftl c shift)) in
        let! tab := (if 64 <? shift + log2_radix then or_at tab (S pos) (Z.shiftr c (64 - shift))
                     else inr tab) in
        bin_loop tab (i + 1) radix log2_radix rp'
  end.

(** Limbs allocated for [n_digits] digits. *)
Definition from_string_limbs (radix n_digits : Z) : nat :=
  let log2_radix := Z.log2 (radix - 1) + 1 in (* 32 - clz32(radix - 1) *)
  let n_bits := if radix =? 10 then (n_digits * 27 + 7) / 8 else n_digits * log2_radix in
  Z.to_nat (Z.max 1 (n_bits / 64 + 1)).

Definition js_bigint_from_string (ctx : JSContext) (str : list Z) (radix : Z) : res JSBigInt :=
  let p := c_str str in
  let '(is_neg, p) := match p with
                      | c :: p' => if c =? 45 then (true, p') else (false, p)
                      | [] => (false, [])
                      end in
  let p := skip_zeros p in
  let n_digits := Z.of_nat (length p) in
  if JS_BIGINT_MAX_SIZE * JS_LIMB_BITS <? n_digits then inl too_large_to_allocate
  else
    let n_limbs := from_string_limbs radix n_digits in
    let! _ := js_bigint_new ctx n_limbs in
    let! r :=
      (if radix =? 10 then
         let! tab := dec_loop (S (length p)) n_limbs [0] p in
         if negb (Z.shiftr (default 0 (last tab)) 63 =? 0) then
           if (length tab <? n_limbs)%nat then inr (tab ++ [0]) else inl (Fault "write past tab")
         else inr tab
       else bin_loop (replicate n_limbs 0) 0 radix (Z.log2 (radix - 1) + 1) (rev p)) in
    let r := js_bigint_normalize r in
    if is_neg : bool then js_bigint_neg ctx r else inr r.

(** ** Printing *)

Definition digits_per_limb_table : list Z :=
  [64;40;32;27;24;22;21;20;19;18;17;17;16;16;16;15;15;15;14;14;14;14;13;13;13;13;13;13;13;12;12;12;12;12;12].
Definition radix_base_table : list Z :=
  [0x0000000000000000; 0xa8b8b452291fe821; 0x0000000000000000; 0x6765c793fa10079d;
   0x41c21cb8e1000000; 0x3642798750226111; 0x8000000000000000; 0xa8b8b452291fe821;
   0x8ac7230489e80000; 0x4d28cb56c33fa539; 0x1eca170c00000000; 0x780c7372621bd74d;
   0x1e39a5057d810000; 0x5b27ac993df97701; 0x0000000000000000; 0x27b95e997e21d9f1;
   0x5da0e1e53c5c8000; 0xd2ae3299c1c4aedb; 0x16bcc41e90000000; 0x2d04b7fdd9c0ef49;
   0x5658597bcaa24000; 0xa0e2073737609371; 0x0c29e98000000000; 0x14adf4b7320334b9;
   0x226ed36478bfa000; 0x383d9170b85ff80b; 0x5a3c23e39c000000; 0x8e65137388122bcd;
   0xdd41bb36d259e000; 0x0aee5720ee830681; 0x1000000000000000; 0x172588ad4f5f0981;
   0x211e44f7d02c1000; 0x2ee56725f06e5c71; 0x41c21cb8e1000000].

(** [js_u64toa]: digits backwards from [q], at least one. *)
Fixpoint js_u64toa (fuel : nat) (q : list Z) (n base : Z) : list Z :=
  match fuel with
  | O => q
  | S fuel' =>
      let q := digit_char (n mod base) :: q in
      if n / base =? 0 then q else js_u64toa fuel' q (n / base) base
  end.

(** [limb_to_a] of quickjs.c: exactly [len] digits. *)
Fixpoint js_limb_to_a (q : list Z) (n radix : Z) (len : nat) : list Z :=
  match len with
  | O => q
  | S len' => js_limb_to_a (digit_char (n mod radix) :: q) (n / radix) radix len'
  end.

(** The [for(;;)] of the general radix. *)
Fixpoint to_string_loop (fuel : nat) (tab : list Z) (radix radix_base : Z) (dpl : nat) (q : list Z)
  : res (list Z) :=
  match fuel with
  | O => inl Diverges
  | S fuel' =>
      let tab := take (strip_len tab (length tab)) tab in
      if (length tab =? 1)%nat && (default 0 (tab !! 0%nat) <? radix_base) then
        let v := default 0 (tab !! 0%nat) in
        if negb (v =? 0) then inr (js_u64toa 64 q v radix) else inr q
      else
        let '(tab, v) := mp_div1 tab radix_base 0 in
        to_string_loop fuel' tab radix radix_base dpl (js_limb_to_a q v radix dpl)
  end.

(** The loop of the power-of-two radix, [i] from 0 to [n_digits - 1]. *)
Fixpoint to_string_bin (n : nat) (i : Z) (tab : list Z) (radix log2_radix : Z) (q : list Z) : list Z :=
  match n with
  | O => q
  | S n' =>
      let bit_pos := i * log2_radix in
      let pos := Z.to_nat (bit_pos / 64) in
      let shift := bit_pos mod 64 in
      let c := u32 (Z.shiftr (default 0 (tab !! pos)) shift) in
      let c := if (64 <? shift + log2_radix) && (S pos <? length tab)%nat
               then u32 (Z.lor c (u64 (Z.shiftl (default 0 (tab !! S pos)) (64 - shift)))) else c in
      let c := Z.land c (radix - 1) in
      to_string_bin n' (i + 1) tab radix log2_radix (digit_char c :: q)
  end.

Definition js_new_string8_len (ctx : JSContext) (s : list Z) : res (list Z) :=
  match s with
  | [] => inr []
  | _ => let! _ := js_malloc ctx (12 + Z.of_nat (length s) + 1) in inr s
  end.

(** The big case: [r] is not a short BigInt. *)
Definition to_string_big (ctx : JSContext) (r : JSBigInt) (radix : Z) : res (list Z) :=
  if is_zero r then js_new_string8_len ctx [48]
  else
    let is_binary_radix := Z.land radix (radix - 1) =? 0 in
    let is_neg := negb (js_bigint_sign r =? 0) in
    let! r := (if is_neg then js_bigint_neg ctx r
               else if is_binary_radix then inr r
               else let! _ := js_bigint_new ctx (length r) in inr r) in
    let log2_radix := Z.log2 radix in (* 31 - clz32(radix) *)
    let n_bits := Z.of_nat (length r) * JS_LIMB_BITS - js_limb_safe_clz (default 0 (last r)) in
    let n_digits := (n_bits + log2_radix - 1) / log2_radix in
    let! _ := js_malloc ctx (n_digits + b2z is_neg + 1) in
    let! q :=
      (if negb is_binary_radix then
         to_string_loop (S (Z.to_nat n_bits)) r radix
           (default 0 (radix_base_table !! Z.to_nat (radix - 2)))
           (Z.to_nat (default 0 (digits_per_limb_table !! Z.to_nat (radix - 2)))) []
       else inr (to_string_bin (Z.to_nat n_digits) 0 r radix log2_radix [])) in
    let q := if is_neg then 45 :: q else q in
    if n_digits + b2z is_neg <? Z.of_nat (length q) then inl (Fault "write below buf")
    else js_new_string8_len ctx q.

(** [JSValue] of a BigInt: a short one holds a signed 64-bit integer. *)
Inductive bigint_value : Type :=
| ShortBigInt (v : Z)
| BigIntPtr (p : JSBigInt).

Definition js_bigint_to_string1 (ctx : JSContext) (val : bigint_value) (radix : Z) : res (list Z) :=
  match val with
  | ShortBigInt v =>
      match i64toa_radix v radix with
      | Some s => js_new_string8_len ctx s
      | None => inl (Fault "write below buf")
      end
  | BigIntPtr r => to_string_big ctx r radix
  end.

Definition JS_CompactBigInt (p : JSBigInt) : bigint_value :=
  if (length p =? 1)%nat then ShortBigInt (i64 (default 0 (p !! 0%nat))) else BigIntPtr p.

(** ** Parsing *)

Definition is_digit_in (radix c : Z) : Prop := 0 <= to_digit c < radix.

Lemma digits_acc_bound r acc ds :
  0 < r -> 0 <= acc -> Forall (fun d => 0 <= d < r) ds ->
  0 <= digits_acc r acc ds /\ digits_acc r acc ds < (acc + 1) * r ^ Z.of_nat (length ds) /\
  acc * r ^ Z.of_nat (length ds) <= digits_acc r acc ds.
Proof.
  intros Hr Ha Hds. revert acc Ha. induction Hds as [|d ds Hd _ IH]; intros acc Ha; cbn [digits_acc length].
  { cbn. lia. }
  destruct (IH (acc * r + d) ltac:(nia)) as (H1 & H2 & H3).
  rewrite Nat2Z.inj_succ, Z.pow_succ_r by lia.
  assert (0 < r ^ Z.of_nat (length ds)) by (apply Z.pow_pos_nonneg; lia). nia.
Qed.

Lemma digits_acc_eq r acc ds :
  digits_acc r acc ds = acc * r ^ Z.of_nat (length ds) + digits_value r ds.
Proof.
  unfold digits_value. revert acc. induction ds as [|d ds IH]; intros acc; cbn [digits_acc length].
  { cbn. lia. }
  rewrite IH, (IH (0 * r + d)), Nat2Z.inj_succ, Z.pow_succ_r by lia. lia.
Qed.

Lemma dec_chunk_spec n i v p :
  Forall (is_digit_in 10) p -> (i + n <= 19)%nat -> 0 <= v < 10 ^ Z.of_nat i ->
  dec_chunk n i v p =
  ((i + Nat.min n (length p))%nat, digits_acc 10 v (to_digit <$> take n p), drop n p).
Proof.
  intros Hp. revert i v p Hp. induction n as [|n IH]; intros i v p Hp Hn Hv; cbn [dec_chunk].
  { cbn. by rewrite Nat.add_0_r. }
  destruct p as [|c p]; [cbn; by rewrite Nat.add_0_r|].
  apply Forall_cons in Hp as [Hc Hp]. unfold is_digit_in in Hc.
  destruct (Z.leb_spec 10 (to_digit c)); [lia|].
  assert (0 <= v * 10 + to_digit c < 10 ^ Z.of_nat (S i)) as Hv'.
  { rewrite Nat2Z.inj_succ, Z.pow_succ_r by lia. lia. }
  assert (10 ^ Z.of_nat (S i) <= 10 ^ 19) as Hle by (apply Z.pow_le_mono_r; lia).
  rewrite u64_id by (clear - Hv' Hle; lia). rewrite (IH (S i) _ p Hp ltac:(lia) Hv').
  cbn [length take drop fmap list_fmap digits_acc]. f_equal. f_equal. lia.
Qed.

Lemma js_pow_dec_spec i : (i <= 19)%nat -> default 0 (js_pow_dec !! i) = 10 ^ Z.of_nat i.
Proof. intros Hi. do 20 (destruct i as [|i]; [done|]). lia. Qed.

(** No redundant zero limb on top. *)
Definition tight (tab : list Z) : Prop :=
  exists t x, tab = t ++ [x] /\ (t = [] \/ x <> 0).

(** The limbs of a product stay tight. *)
Lemma tight_mul tab tab1 T v :
  limbs tab -> limbs tab1 -> length tab1 = length tab -> tight tab -> 1 <= T -> 0 <= v ->
  lval tab1 = lval tab * T + v -> tight tab1.
Proof.
  intros Ht Ht1 Hl (t0 & x0 & -> & Hx0) HT Hv Heq. rewrite length_app in Hl. cbn in Hl.
  destruct (limb_last tab1 Ht1) as (t1 & x1 & -> & L1 & L2); [intros ->; cbn in Hl; lia|].
  exists t1, x1. split; [done|]. rewrite length_app in Hl. cbn in Hl.
  destruct Hx0 as [-> | Hx0]; [left; destruct t1; [done|cbn in Hl; lia]|right; intros ->].
  apply limbs_app in Ht as [Ht0 Hx]. apply limbs_cons in Hx as [Hx _]. unfold limb in Hx.
  rewrite !lval_app, !lval_single in Heq. replace (length t0) with (length t1) in * by lia.
  pose proof (lval_bound t1 L1). pose proof (lval_bound t0 Ht0). pose proof (Bn_pos (length t1)).
  set (P := Bn (length t1)) in *.
  assert (0 <= lval t0 * T) by (apply Z.mul_nonneg_nonneg; lia).
  assert (1 * 1 <= x0 * T) by (apply Z.mul_le_mono_nonneg; lia).
  assert (P * 1 <= P * (x0 * T)) by (apply Z.mul_le_mono_nonneg_l; lia). lia.
Qed.

(** One round of the decimal loop. *)
Lemma dec_step_spec n_limbs tab k v :
  limbs tab -> tight tab -> (k <= 19)%nat -> limb v ->
  lval tab * 10 ^ Z.of_nat k + v < 2 ^ (64 * Z.of_nat n_limbs - 1) -> (1 <= n_limbs)%nat ->
  exists tab', dec_push n_limbs tab k v = inr tab' /\ limbs tab' /\ tight tab' /\
    lval tab' = lval tab * 10 ^ Z.of_nat k + v.
Proof.
  intros Ht Htt Hk Hv Hcap Hn. unfold dec_push.
  destruct ((length tab =? 1)%nat && (default 0 (tab !! 0%nat) =? 0)) eqn:Hz.
  { rewrite andb_true_iff, Nat.eqb_eq, Z.eqb_eq in Hz. destruct Hz as [Hl1 Hx0].
    destruct tab as [|x [|]]; [discriminate Hl1| |discriminate Hl1]. change (x = 0) in Hx0. subst x.
    exists [v]. split_and!; [reflexivity|apply limbs_cons; auto with limbs|exists [], v; auto|].
    rewrite !lval_single. lia. }
  rewrite js_pow_dec_spec by done. set (T := 10 ^ Z.of_nat k) in *.
  assert (1 <= T) by (apply (Z.pow_le_mono_r 10 0); lia).
  assert (limb T) as HT.
  { split; [lia|]. assert (T <= 10 ^ 19) by (apply Z.pow_le_mono_r; lia).
    change B with (2 ^ 64). lia. }
  pose proof (mp_mul1_spec tab T v Ht HT Hv) as HM.
  destruct (mp_mul1 tab T v) as [tab1 h]. destruct HM as (M1 & M2 & M3 & M4). unfold limb in M3, Hv.
  destruct (Z.eqb_spec h 0) as [->|Hh]; cbn [negb].
  { exists tab1. split_and!; [reflexivity|exact M1| |lia].
    apply (tight_mul tab tab1 T v); try assumption; lia. }
  assert (length tab1 < n_limbs)%nat as Hlt.
  { rewrite M2. pose proof (Bn_pos (length tab)). pose proof (lval_bound tab1 M1).
    assert (Bn (length tab) * 1 <= Bn (length tab) * h) by (apply Z.mul_le_mono_nonneg_l; lia).
    assert (Bn (length tab) < 2 ^ (64 * Z.of_nat n_limbs - 1)) as Hbig by lia.
    rewrite Bn_pow in Hbig. apply Z.pow_lt_mono_r_iff in Hbig; lia. }
  destruct (Nat.ltb_spec (length tab1) n_limbs); [|lia]. exists (tab1 ++ [h]). split_and!.
  - reflexivity.
  - rewrite limbs_app, limbs_cons. split_and!; auto with limbs.
  - exists tab1, h. auto.
  - rewrite lval_app, lval_single, M2. lia.
Qed.

Lemma dec_loop_spec fuel n_limbs tab p :
  limbs tab -> tight tab -> Forall (is_digit_in 10) p -> (length p < fuel)%nat ->
  (lval tab + 1) * 10 ^ Z.of_nat (length p) <= 2 ^ (64 * Z.of_nat n_limbs - 1) ->
  (1 <= n_limbs)%nat ->
  exists tab', dec_loop fuel n_limbs tab p = inr tab' /\ limbs tab' /\ tight tab' /\
    lval tab' = digits_acc 10 (lval tab) (to_digit <$> p).
Proof.
  revert tab p. induction fuel as [|fuel IH]; intros tab p Ht Htt Hp Hf Hcap Hn1; [lia|].
  cbn [dec_loop]. rewrite dec_chunk_spec by (first [exact Hp|unfold JS_LIMB_DIGITS; lia|split; done]).
  cbn [Nat.add]. destruct p as [|c p]; [exists tab; cbn; auto|].
  set (k := Nat.min JS_LIMB_DIGITS (length (c :: p))).
  assert (1 <= k <= 19)%nat as Hk by (subst k; unfold JS_LIMB_DIGITS; cbn [length]; lia).
  destruct (Nat.eqb_spec k 0); [lia|].
  set (ds := to_digit <$> take JS_LIMB_DIGITS (c :: p)). set (p' := drop JS_LIMB_DIGITS (c :: p)).
  assert (length ds = k) as Hlds by (subst ds k; rewrite length_fmap, length_take; reflexivity).
  assert (Forall (fun d => 0 <= d < 10) ds) as Hds by (apply Forall_fmap, Forall_take; exact Hp).
  destruct (digits_acc_bound 10 0 ds) as (V1 & V2 & _); [lia..|exact Hds|]. rewrite Hlds in V2.
  set (v := digits_acc 10 0 ds) in *.
  assert (10 ^ Z.of_nat (length (c :: p)) = 10 ^ Z.of_nat k * 10 ^ Z.of_nat (length p')) as Hpow.
  { rewrite <- Z.pow_add_r by lia. f_equal. subst p' k. rewrite length_drop. lia. }
  assert (digits_acc 10 (lval tab) (to_digit <$> c :: p) =
    digits_acc 10 (lval tab * 10 ^ Z.of_nat k + v) (to_digit <$> p')) as ->.
  { rewrite <- (take_drop JS_LIMB_DIGITS (c :: p)) at 1. rewrite fmap_app, digits_acc_app. fold ds p'.
    f_equal. rewrite (digits_acc_eq 10 (lval tab)), Hlds. reflexivity. }
  assert (length p' < fuel)%nat as Hf'.
  { subst p'. rewrite length_drop. unfold JS_LIMB_DIGITS. cbn [length] in *. lia. }
  assert (limb v) as Hv.
  { assert (10 ^ Z.of_nat k <= 10 ^ 19) by (apply Z.pow_le_mono_r; lia).
    split; [exact V1|]. change B with (2 ^ 64). clear - V2 H. lia. }
  pose proof (lval_bound tab Ht) as Hb0. set (T := 10 ^ Z.of_nat k) in *. set (R := 10 ^ Z.of_nat (length p')) in *.
  assert (1 <= R) by (apply (Z.pow_le_mono_r 10 0); lia).
  assert ((lval tab * T + v + 1) * R <= (lval tab + 1) * (T * R)) as Hle.
  { rewrite Z.mul_assoc. apply Z.mul_le_mono_nonneg_r; lia. }
  assert (Forall (is_digit_in 10) p') as Hp' by (apply Forall_drop; exact Hp).
  rewrite Hpow in Hcap. clearbody p' ds v k.
  assert ((lval tab * T + v + 1) * 1 <= (lval tab * T + v + 1) * R) by (apply Z.mul_le_mono_nonneg_l; nia).
  destruct (dec_step_spec n_limbs tab k v Ht Htt ltac:(lia) Hv ltac:(fold T; lia) Hn1) as (tab1 & -> & T1 & T2 & T3).
  cbn [rbind]. fold T in T3. rewrite <- T3 in *.
  apply (IH tab1 p' T1 T2 Hp' Hf'); [|exact Hn1]. fold R. lia.
Qed.

(** [10^n <= 2^ceil(27 n / 8)], since [10^8 <= 2^27]. *)
Lemma dec_bits n : 0 <= n -> 10 ^ n <= 2 ^ ((n * 27 + 7) / 8).
Proof.
  intros Hn. assert (0 <= (n * 27 + 7) / 8) as Hm by (apply Z.div_pos; lia).
  set (m := (n * 27 + 7) / 8) in *. assert (27 * n <= 8 * m) as Hmn by (subst m; mod_lia).
  assert ((10 ^ n) ^ 8 <= (2 ^ m) ^ 8) as H8.
  { rewrite <- !Z.pow_mul_r by lia. rewrite (Z.mul_comm n), (Z.mul_comm m), !Z.pow_mul_r by lia.
    transitivity ((2 ^ 27) ^ n); [apply Z.pow_le_mono_l; split; [lia|done]|].
    rewrite <- !Z.pow_mul_r by lia. apply Z.pow_le_mono_r; lia. }
  apply Z.nlt_ge. intros Hlt. assert ((2 ^ m) ^ 8 < (10 ^ n) ^ 8) as H8'.
  { apply Z.pow_lt_mono_l; [lia|]. split; [apply Z.pow_nonneg; lia|exact Hlt]. }
  exact (Z.lt_irrefl _ (Z.lt_le_trans _ _ _ H8' H8)).
Qed.

Lemma lval_insert tab pos x y :
  tab !! pos = Some x -> lval (<[pos := y]> tab) = lval tab + (y - x) * Bn pos.
Proof.
  revert pos. induction tab as [|z tab IH]; intros pos Hx; [done|].
  destruct pos as [|pos]; cbn in Hx |- *.
  - injection Hx as ->. rewrite Bn_0. lia.
  - rewrite IH, Bn_S by done. lia.
Qed.

Lemma limbs_insert tab pos y : limbs tab -> limb y -> limbs (<[pos := y]> tab).
Proof. intros. by apply Forall_insert. Qed.

(** A number below [2^b] has small limbs from bit [b] on. *)
Lemma limb_small tab pos x sh :
  limbs tab -> tab !! pos = Some x -> 0 <= sh ->
  lval tab < Bn pos * 2 ^ sh -> 0 <= x < 2 ^ sh.
Proof.
  intros Ht Hx Hs Hv. pose proof Hx as Hxl. apply (Forall_lookup_1 _ _ _ _ Ht) in Hxl.
  unfold limb in Hxl. split; [lia|].
  rewrite <- (take_drop_middle tab pos x Hx), lval_app in Hv. cbn [lval] in Hv.
  rewrite length_take in Hv. apply lookup_lt_Some in Hx. rewrite Nat.min_l in Hv by lia.
  pose proof (lval_bound _ (limbs_take pos tab Ht)). pose proof (lval_bound _ (limbs_drop (S pos) tab Ht)).
  pose proof (Bn_pos pos). pose proof B_pos.
  set (h := lval (drop (S pos) tab)) in *.
  assert (0 <= Bn pos * (B * h)) by (apply Z.mul_nonneg_nonneg; [lia|apply Z.mul_nonneg_nonneg; lia]).
  apply (Z.mul_lt_mono_pos_l (Bn pos)); [done|]. lia.
Qed.

Lemma or_at_spec tab pos x y sh :
  limbs tab -> tab !! pos = Some x -> 0 <= sh <= 64 -> 0 <= x < 2 ^ sh ->
  0 <= y < 2 ^ (64 - sh) ->
  or_at tab pos (y * 2 ^ sh) = inr (<[pos := x + y * 2 ^ sh]> tab) /\ limb (x + y * 2 ^ sh).
Proof.
  intros Ht Hx Hsh Hxs Hy. unfold or_at. rewrite Hx. rewrite Z.lor_comm, lor_mul_small by lia.
  split; [by rewrite Z.add_comm|]. pose proof (B_shift sh Hsh) as HB. unfold limb.
  assert (0 < 2 ^ sh) by (apply Z.pow_pos_nonneg; lia).
  assert (y * 2 ^ sh <= (2 ^ (64 - sh) - 1) * 2 ^ sh) by (apply Z.mul_le_mono_nonneg_r; lia). nia.
Qed.

(** One digit of the power-of-two loop. *)
Lemma bin_step_spec tab pos shift c lr :
  limbs tab -> 0 <= shift < 64 -> 1 <= lr <= 32 -> 0 <= c < 2 ^ lr ->
  lval tab < Bn pos * 2 ^ shift -> 64 * Z.of_nat pos + shift + lr < 64 * Z.of_nat (length tab) ->
  exists tab', (let! tab := or_at tab pos (u64 (Z.shiftl c shift)) in
     (if 64 <? shift + lr then or_at tab (S pos) (Z.shiftr c (64 - shift)) else inr tab)) = inr tab' /\
    limbs tab' /\ length tab' = length tab /\ lval tab' = lval tab + c * (Bn pos * 2 ^ shift).
Proof.
  intros Ht Hsh Hlr Hc Hv Hlen. pose proof (B_shift shift ltac:(lia)) as HB.
  destruct (lookup_lt_is_Some_2 tab pos ltac:(lia)) as [x Hx].
  pose proof (limb_small tab pos x shift Ht Hx ltac:(lia) Hv) as Hxs.
  set (lo := c mod 2 ^ (64 - shift)). assert (0 < 2 ^ (64 - shift)) by (apply Z.pow_pos_nonneg; lia).
  assert (0 < 2 ^ shift) by (apply Z.pow_pos_nonneg; lia).
  assert (0 <= lo < 2 ^ (64 - shift)) as Hlo by (apply Z.mod_pos_bound; lia).
  rewrite u64_shiftl by lia. fold lo.
  destruct (or_at_spec tab pos x lo shift Ht Hx ltac:(lia) Hxs Hlo) as [-> Hl1]. cbn [rbind].
  set (tab1 := <[pos := x + lo * 2 ^ shift]> tab).
  assert (limbs tab1) as Ht1 by (by apply limbs_insert).
  assert (lval tab1 = lval tab + lo * 2 ^ shift * Bn pos) as Hv1.
  { subst tab1. rewrite (lval_insert _ _ x) by done. lia. }
  pose proof (Z.div_mod c (2 ^ (64 - shift)) ltac:(lia)) as Hdm. fold lo in Hdm.
  destruct (Z.ltb_spec 64 (shift + lr)).
  - assert (S pos < length tab)%nat as HS by lia.
    assert (length tab1 = length tab) as Hl by apply length_insert.
    destruct (lookup_lt_is_Some_2 tab (S pos) ltac:(lia)) as [y Hy].
    assert (y = 0) as ->.
    { assert (lval tab < Bn (S pos) * 2 ^ 0) as Hlt.
      { rewrite Bn_S. pose proof (Bn_pos pos).
        assert (Bn pos * 2 ^ shift <= Bn pos * B) by (apply Z.mul_le_mono_nonneg_l; nia). cbn. lia. }
      pose proof (limb_small tab (S pos) y 0 Ht Hy ltac:(lia) Hlt). cbn in *. lia. }
    assert (tab1 !! S pos = Some 0) as Hy1 by (subst tab1; rewrite list_lookup_insert_ne by lia; done).
    rewrite Z.shiftr_div_pow2 by lia. set (hi := c / 2 ^ (64 - shift)) in *.
    assert (0 <= hi < 2 ^ 64) as Hhi.
    { split; [apply Z.div_pos; lia|]. apply Z.div_lt_upper_bound; [lia|].
      assert (2 ^ lr <= 2 ^ 64) by (apply Z.pow_le_mono_r; lia). nia. }
    destruct (or_at_spec tab1 (S pos) 0 hi 0 Ht1 Hy1 ltac:(lia) ltac:(done) ltac:(cbn; lia)) as [Ho Hl2].
    rewrite Z.mul_1_r in Ho, Hl2. rewrite Ho. eexists. split; [done|]. split_and!.
    + by apply limbs_insert.
    + rewrite length_insert. done.
    + rewrite (lval_insert _ _ 0) by done. rewrite Hv1, Bn_S.
      assert (c * 2 ^ shift = hi * B + lo * 2 ^ shift) as Hcs by (rewrite <- HB, Hdm at 1; ring). nia.
  - exists tab1. split_and!; [done..|apply length_insert|].
    assert (lo = c) as ->.
    { apply Z.mod_small. split; [lia|]. assert (2 ^ lr <= 2 ^ (64 - shift)) by (apply Z.pow_le_mono_r; lia). lia. }
    rewrite Hv1. ring.
Qed.

Lemma bin_loop_spec rp tab i lr :
  1 <= lr <= 5 -> 0 <= i -> limbs tab -> Forall (is_digit_in (2 ^ lr)) rp ->
  lval tab < 2 ^ (i * lr) -> (i + Z.of_nat (length rp)) * lr < 64 * Z.of_nat (length tab) ->
  exists tab', bin_loop tab i (2 ^ lr) lr rp = inr tab' /\ limbs tab' /\ length tab' = length tab /\
    lval tab' = lval tab + 2 ^ (i * lr) * digits_value (2 ^ lr) (to_digit <$> rev rp) /\
    lval tab' < 2 ^ ((i + Z.of_nat (length rp)) * lr).
Proof.
  intros Hlr. revert tab i. induction rp as [|ch rp IH]; intros tab i Hi Ht Hrp Hv Hlen; cbn [bin_loop].
  { exists tab. split_and!; try done; cbn; [unfold digits_value; cbn; lia|]. by rewrite Z.add_0_r. }
  apply Forall_cons in Hrp as [Hch Hrp]. unfold is_digit_in in Hch.
  destruct (Z.leb_spec (2 ^ lr) (to_digit ch)); [lia|]. cbn [length] in Hlen.
  assert (0 <= i * lr) as Hil by (apply Z.mul_nonneg_nonneg; lia). set (bp := i * lr) in *.
  assert (Z.land bp 63 = bp mod 64) as -> by (change 63 with (Z.ones 6); by rewrite Z.land_ones).
  set (pos := Z.to_nat (bp / 64)).
  assert (bp = 64 * Z.of_nat pos + bp mod 64) as Hbp by (subst pos; mod_lia).
  assert (0 <= bp mod 64 < 64) by mod_lia.
  assert (2 ^ bp = Bn pos * 2 ^ (bp mod 64)) as Hpow.
  { rewrite Bn_pow, <- Z.pow_add_r by lia. by rewrite <- Hbp. }
  destruct (bin_step_spec tab pos (bp mod 64) (to_digit ch) lr Ht ltac:(lia) ltac:(lia) Hch) as (tab1 & Hst & T1 & T2 & T3).
  { by rewrite <- Hpow. } { lia. }
  rewrite <- Hpow in T3. set (sh := bp mod 64) in *.
  assert (2 ^ ((i + 1) * lr) = 2 ^ bp * 2 ^ lr) as Hnext.
  { rewrite <- Z.pow_add_r by lia. f_equal. lia. }
  assert (0 < 2 ^ bp) by (apply Z.pow_pos_nonneg; lia).
  destruct (IH tab1 (i + 1)) as (tab2 & E1 & E2 & E3 & E4 & E5); [lia|done|done| |lia|].
  { rewrite Hnext, T3. assert ((to_digit ch + 1) * 2 ^ bp <= 2 ^ lr * 2 ^ bp) by (apply Z.mul_le_mono_nonneg_r; lia). lia. }
  exists tab2. split_and!; [|done|lia| |].
  - destruct (or_at tab pos (u64 (Z.shiftl (to_digit ch) sh))) as [e|t]; cbn [rbind] in *; [done|].
    by rewrite Hst.
  - rewrite E4, T3, Hnext. cbn [rev]. rewrite fmap_app. unfold digits_value. rewrite digits_acc_app. cbn. ring.
  - by replace (i + Z.of_nat (length (ch :: rp))) with (i + 1 + Z.of_nat (length rp)) by (cbn [length]; lia).
Qed.

Lemma skip_zeros_spec radix p :
  Forall (is_digit_in radix) p ->
  Forall (is_digit_in radix) (skip_zeros p) /\
  digits_value radix (to_digit <$> skip_zeros p) = digits_value radix (to_digit <$> p).
Proof.
  induction 1 as [|c p Hc Hp [IH1 IH2]]; cbn [skip_zeros]; [done|].
  destruct (Z.eqb_spec c 48) as [->|]; [|split; [by constructor|done]].
  split; [done|]. rewrite IH2. unfold digits_value. cbn [fmap list_fmap digits_acc]. done.
Qed.

Lemma digit_not_special radix c :
  is_digit_in radix c -> radix <= 36 -> c <> 0 /\ c <> 45.
Proof.
  unfold is_digit_in, to_digit. intros Hc Hr. split; intros ->; cbn in Hc; lia.
Qed.

Lemma gives_mono ctx n m v r : (n <= m)%nat -> gives ctx n r v -> gives ctx m r v.
Proof.
  intros Hnm. destruct r as [e|r]; [|done]. intros [?|[? ?]]; [by left|right]. split; [done|lia].
Qed.

Lemma normalize_length a : (length (js_bigint_normalize a) <= length a)%nat.
Proof. unfold js_bigint_normalize, js_bigint_normalize1. rewrite length_take. lia. Qed.

(** The decimal magnitude, with room for the sign bit. *)
Lemma dec_finish n t0 x V :
  limbs t0 -> limb x -> t0 = [] \/ x <> 0 -> lval t0 + Bn (length t0) * x = V ->
  V < 2 ^ (64 * Z.of_nat n - 1) -> (1 <= n)%nat ->
  exists r, (if negb (Z.shiftr x 63 =? 0) then
           if (length (t0 ++ [x]) <? n)%nat then inr ((t0 ++ [x]) ++ [0]) else inl (Fault "write past tab")
         else inr (t0 ++ [x])) = @inr js_error _ r /\
    limbs r /\ r <> [] /\ (length r <= n)%nat /\ bval r = V.
Proof.
  intros Ht0 Hx Htx HV Hcap Hn. pose proof (lval_bound t0 Ht0) as Hb0. pose proof (Bn_pos (length t0)) as HP.
  assert (limbs (t0 ++ [x])) as Hl by (rewrite limbs_app, limbs_cons; auto with limbs).
  set (cap := 2 ^ (64 * Z.of_nat n - 1)) in *. rewrite shiftr63 by done. unfold limb in Hx.
  destruct (Z.ltb_spec x (2 ^ 63)) as [Hs|Hs]; cbn [Z.eqb negb].
  - exists (t0 ++ [x]). split_and!; [done|done|by destruct t0| |].
    + rewrite length_app. cbn [length]. destruct Htx as [-> | Hx0]; [cbn; lia|].
      assert (Bn (length t0) * 1 <= Bn (length t0) * x) by (apply Z.mul_le_mono_nonneg_l; lia).
      assert (Bn (length t0) < cap) as Hlt by lia. subst cap. rewrite Bn_pow in Hlt.
      apply Z.pow_lt_mono_r_iff in Hlt; lia.
    + rewrite bval_snoc by done. unfold sl. destruct (Z.ltb_spec x (2 ^ 63)); lia.
  - rewrite length_app. cbn [length]. assert (length t0 + 1 < n)%nat as Hlt.
    { assert (Bn (length t0) * 2 ^ 63 <= Bn (length t0) * x) by (apply Z.mul_le_mono_nonneg_l; lia).
      assert (2 ^ (64 * Z.of_nat (length t0) + 63) < cap) as Hlt.
      { rewrite Z.pow_add_r, <- Bn_pow by lia. lia. }
      subst cap. apply Z.pow_lt_mono_r_iff in Hlt; lia. }
    destruct (Nat.ltb_spec (length t0 + 1) n); [|lia]. exists ((t0 ++ [x]) ++ [0]). split_and!; [done| |by destruct t0| |].
    + rewrite limbs_app, limbs_cons. split_and!; auto with limbs. split; [lia|apply B_pos].
    + rewrite !length_app. cbn [length]. lia.
    + by rewrite bval_unsigned, lval_app, lval_single.
Qed.

Lemma from_string_dec p n :
  Forall (is_digit_in 10) p -> n = from_string_limbs 10 (Z.of_nat (length p)) ->
  exists r, (let! tab := dec_loop (S (length p)) n [0] p in
         if negb (Z.shiftr (default 0 (last tab)) 63 =? 0) then
           if (length tab <? n)%nat then inr (tab ++ [0]) else inl (Fault "write past tab")
         else inr tab) = inr r /\
    limbs r /\ r <> [] /\ (length r <= n)%nat /\ bval r = digits_value 10 (to_digit <$> p).
Proof.
  intros Hp Hn. set (N := Z.of_nat (length p)) in *. assert (0 <= N) as HN by lia.
  unfold from_string_limbs in Hn. change (10 =? 10) with true in Hn. cbv iota in Hn.
  set (nb := (N * 27 + 7) / 8) in *. assert (0 <= nb) by (apply Z.div_pos; lia).
  assert (Z.of_nat n = nb / 64 + 1) as HnZ by mod_lia. assert (nb < 64 * Z.of_nat n) as Hnb by mod_lia.
  assert (limbs [0]) as H0 by (apply limbs_cons; split; [split; [lia|apply B_pos]|apply limbs_nil]).
  assert (10 ^ N <= 2 ^ (64 * Z.of_nat n - 1)) as Hcap.
  { etransitivity; [exact (dec_bits N HN)|]. apply Z.pow_le_mono_r; lia. }
  assert ((lval [0] + 1) * 10 ^ N <= 2 ^ (64 * Z.of_nat n - 1)) as Hcap' by (rewrite lval_single; lia).
  destruct (dec_loop_spec (S (length p)) n [0] p H0) as (tab & -> & T1 & T2 & T3);
    [exists [], 0; auto|exact Hp|lia|exact Hcap'|lia|]. cbn [rbind]. rewrite lval_single in T3.
  destruct (digits_acc_bound 10 0 (to_digit <$> p)) as (D1 & D2 & _); [lia..|by apply Forall_fmap|].
  rewrite length_fmap in D2. fold N in D2. unfold digits_value.
  destruct T2 as (t0 & x & -> & Htx). apply limbs_app in T1 as [Ht0 Hx]. apply limbs_cons in Hx as [Hx _].
  rewrite last_snoc. change (default 0 (Some x)) with x. rewrite lval_app, lval_single in T3.
  apply dec_finish; [assumption..| |lia]. lia.
Qed.

Lemma from_string_bin p n lr :
  1 <= lr <= 5 -> lr = Z.log2 (2 ^ lr - 1) + 1 -> 2 ^ lr <> 10 ->
  Forall (is_digit_in (2 ^ lr)) p -> n = from_string_limbs (2 ^ lr) (Z.of_nat (length p)) ->
  exists r, bin_loop (replicate n 0) 0 (2 ^ lr) lr (rev p) = inr r /\
    limbs r /\ r <> [] /\ (length r <= n)%nat /\ bval r = digits_value (2 ^ lr) (to_digit <$> p).
Proof.
  intros Hlr Hlog Hne10 Hp Hn. set (N := Z.of_nat (length p)) in *. assert (0 <= N) as HN by lia.
  unfold from_string_limbs in Hn. destruct (Z.eqb_spec (2 ^ lr) 10); [done|]. rewrite <- Hlog in Hn.
  assert (0 <= N * lr) by (apply Z.mul_nonneg_nonneg; lia).
  assert (Z.of_nat n = N * lr / 64 + 1) as HnZ by mod_lia. assert (N * lr < 64 * Z.of_nat n) as Hnb by mod_lia.
  destruct (bin_loop_spec (rev p) (replicate n 0) 0 lr Hlr ltac:(lia) (replicate_limbs n))
    as (tab & E1 & E2 & E3 & E4 & E5).
  { by apply Forall_rev. }
  { rewrite lval_replicate_0. cbn. lia. }
  { rewrite length_rev, length_replicate. fold N. lia. }
  rewrite length_rev in E5. rewrite rev_involutive, lval_replicate_0, Z.mul_0_l, Z.pow_0_r, Z.mul_1_l, Z.add_0_l in E4.
  rewrite length_replicate in E3. assert (tab <> []) as Hne by (intros ->; cbn in E3; lia).
  exists tab. split_and!; [done..|lia|]. apply (bval_unique tab _ 0 E2 Hne).
  - rewrite E4. lia.
  - rewrite <- E4. pose proof (lval_bound tab E2). rewrite E3, Bn_pow in *. split; [lia|].
    assert (2 * 2 ^ ((0 + Z.of_nat (length p)) * lr) <= 2 ^ (64 * Z.of_nat n)); [|lia].
    rewrite <- Z.pow_succ_r by lia. apply Z.pow_le_mono_r; [lia|]. fold N. lia.
Qed.

Lemma from_string_limbs_lower radix N :
  0 <= N -> N / 64 + 1 <= Z.of_nat (from_string_limbs radix N).
Proof.
  intros HN. unfold from_string_limbs. pose proof (Z.log2_nonneg (radix - 1)).
  set (nb := if radix =? 10 then _ else _). assert (N <= nb) by (subst nb; case_bool; [mod_lia|nia]).
  assert (N / 64 <= nb / 64) by (apply Z.div_le_mono; lia). lia.
Qed.

(** The four radixes of the source. *)
Definition parse_radix (radix : Z) : Prop := radix = 10 \/ radix = 2 \/ radix = 8 \/ radix = 16.

Lemma from_string_gives ctx (neg : bool) p radix :
  parse_radix radix -> Forall (is_digit_in radix) p ->
  gives ctx (from_string_limbs radix (Z.of_nat (length (skip_zeros p))))
    (js_bigint_from_string ctx (if neg then 45 :: p else p) radix)
    ((if neg then -1 else 1) * digits_value radix (to_digit <$> p)).
Proof.
  intros Hr Hp. unfold js_bigint_from_string.
  assert (2 <= radix <= 36) as Hr36 by (destruct Hr as [-> | [-> | [-> | ->]]]; lia).
  assert (forall c, is_digit_in radix c -> c <> 0 /\ c <> 45) as Hsp by (intros c Hc; apply (digit_not_special radix c Hc); lia).
  assert (c_str p = p) as Hcp.
  { apply c_str_no_nul. eapply Forall_impl; [exact Hp|]. intros c Hc. by apply Hsp. }
  assert (c_str (if neg then 45 :: p else p) = if neg then 45 :: p else p) as ->.
  { destruct neg; [|done]. cbn. by rewrite Hcp. }
  assert ((match (if neg then 45 :: p else p) with
          | c :: p' => if c =? 45 then (true, p') else (false, if neg then 45 :: p else p)
          | [] => (false, []) end) = (neg, p)) as ->.
  { destruct neg; [done|]. destruct Hp as [|c p Hc Hp]; [done|].
    by rewrite (proj2 (Z.eqb_neq _ _) (proj2 (Hsp c Hc))). }
  destruct (skip_zeros_spec radix p Hp) as [Hp' <-]. set (p' := skip_zeros p) in *.
  set (n := from_string_limbs radix (Z.of_nat (length p'))).
  destruct (Z.ltb_spec (JS_BIGINT_MAX_SIZE * JS_LIMB_BITS) (Z.of_nat (length p'))) as [Hbig|_].
  { right. split; [done|]. pose proof (from_string_limbs_lower radix (Z.of_nat (length p')) ltac:(lia)) as Hlo.
    fold n in Hlo. rewrite max_size_eq in *. unfold JS_LIMB_BITS in Hbig. mod_lia. }
  apply new_gives; [done|]. intros _.
  match goal with |- gives _ _ (rbind ?t _) _ =>
    assert (exists r, t = inr r /\ limbs r /\ r <> [] /\ (length r <= n)%nat /\
      bval r = digits_value radix (to_digit <$> p')) as (r & -> & R1 & R2 & R3 & R4) end.
  { destruct Hr as [-> | [-> | [-> | ->]]].
    - by apply from_string_dec.
    - by apply (from_string_bin p' n 1).
    - by apply (from_string_bin p' n 3).
    - by apply (from_string_bin p' n 4). }
  cbn [rbind]. destruct (normalize_spec r R1 R2) as [N1 N2]. destruct neg.
  - apply (gives_mono _ (length (js_bigint_normalize r))); [pose proof (normalize_length r); lia|].
    replace (-1 * digits_value radix (to_digit <$> p')) with (- bval (js_bigint_normalize r)) by lia.
    by apply neg_gives.
  - cbn [gives]. split; [done|]. lia.
Qed.

(** ** Printing *)

Lemma js_limb_to_a_eq q n radix len :
  2 <= radix -> 0 <= n -> js_limb_to_a q n radix len = (digit_char <$> fixed_digits radix len n) ++ q.
Proof.
  intros Hr. revert q n. induction len as [|len IH]; intros q n Hn; cbn [js_limb_to_a fixed_digits]; [done|].
  rewrite IH by (apply Z.div_pos; lia). by rewrite fmap_app, <- app_assoc.
Qed.

Lemma js_u64toa_eq fuel q n radix :
  2 <= radix -> 0 <= n < 2 ^ Z.of_nat fuel -> (1 <= fuel)%nat ->
  js_u64toa fuel q n radix = (digit_char <$> to_digits radix n) ++ q.
Proof.
  intros Hr. revert q n. induction fuel as [|fuel IH]; intros q n Hn Hf; [lia|].
  cbn [js_u64toa]. rewrite (to_digits_eq radix n) by lia. rewrite Nat2Z.inj_succ, Z.pow_succ_r in Hn by lia.
  destruct (Z.ltb_spec n radix).
  - rewrite Z.div_small, Z.mod_small by lia. done.
  - assert (1 <= n / radix) by (apply Z.div_le_lower_bound; lia).
    destruct (Z.eqb_spec (n / radix) 0); [lia|].
    assert (n / radix < 2 ^ Z.of_nat fuel) by (apply Z.div_lt_upper_bound; nia).
    destruct fuel as [|fuel]; [cbn in *; lia|].
    rewrite IH by lia. by rewrite fmap_app, <- app_assoc.
Qed.

(** The tables: [radix^digits_per_limb], for the radixes that use them. *)
Lemma radix_tables radix :
  2 <= radix <= 36 -> Z.land radix (radix - 1) <> 0 ->
  let dpl := Z.to_nat (default 0 (digits_per_limb_table !! Z.to_nat (radix - 2))) in
  let base := default 0 (radix_base_table !! Z.to_nat (radix - 2)) in
  base = radix ^ Z.of_nat dpl /\ limb base /\ 2 <= base.
Proof.
  intros Hr Hb. cbn zeta. change limb with (fun x => 0 <= x < 2 ^ 64). cbv beta.
  assert (exists k : nat, radix = 2 + Z.of_nat k /\ (k < 35)%nat) as (k & -> & Hk).
  { exists (Z.to_nat (radix - 2)). lia. }
  replace (Z.to_nat (2 + Z.of_nat k - 2)) with k by lia. clear Hr.
  do 35 (destruct k as [|k]; [try (exfalso; apply Hb; reflexivity); vm_compute; repeat split; discriminate|]).
  lia.
Qed.

Lemma strip_bound tab :
  limbs tab -> tab <> [] ->
  let t := take (strip_len tab (length tab)) tab in
  limbs t /\ lval t = lval tab /\
  ((exists x, t = [x]) \/ ((1 < length t)%nat /\ B <= lval t)).
Proof.
  intros Ht Hne. cbn zeta. assert (1 <= length tab)%nat by (destruct tab; cbn; [done|lia]).
  destruct (strip_len_spec tab (length tab) Ht ltac:(lia)) as (H1 & H2 & H3). cbn zeta in *.
  set (m := strip_len tab (length tab)) in *. rewrite (take_ge tab (length tab)) in H2 by done.
  split_and!; [auto with limbs|done|]. destruct (decide (m = 1%nat)) as [Hm|Hm].
  - left. rewrite Hm. destruct tab as [|x tab]; [done|]. by exists x.
  - right. destruct H3 as [?|H3]; [done|]. rewrite length_take. split; [lia|].
    pose proof (lookup_limb tab (m - 1) Ht ltac:(lia)) as Hx.
    replace m with (S (m - 1)) by lia. rewrite take_S_snoc by lia. rewrite lval_app, lval_single, length_take.
    rewrite Nat.min_l by lia. pose proof (lval_bound _ (limbs_take (m - 1) tab Ht)).
    replace (m - 1)%nat with (S (m - 2)) by lia. rewrite Bn_S.
    replace (S (m - 2)) with (m - 1)%nat by lia. pose proof (Bn_pos (m - 2)). pose proof B_pos.
    unfold limb in Hx. set (x := default 0 (tab !! (m - 1)%nat)) in *.
    assert (B * 1 * 1 <= B * Bn (m - 2) * x) by (apply Z.mul_le_mono_nonneg; nia). lia.
Qed.

Lemma to_string_loop_spec fuel tab radix base dpl q :
  2 <= radix -> limbs tab -> tab <> [] -> base = radix ^ Z.of_nat dpl -> limb base -> 2 <= base ->
  0 < lval tab < 2 ^ Z.of_nat fuel ->
  to_string_loop (S fuel) tab radix base dpl q = inr ((digit_char <$> to_digits radix (lval tab)) ++ q).
Proof.
  intros Hr Ht Hne Hb Hbl Hb2. revert tab Ht Hne q. induction fuel as [|fuel IH]; intros tab Ht Hne q Hv;
    [cbn in Hv; lia|].
  remember (S fuel) as f eqn:Hf. cbn [to_string_loop]. subst f.
  destruct (strip_bound tab Ht Hne) as (S1 & S2 & S3). cbn zeta in *.
  set (t := take (strip_len tab (length tab)) tab) in *. rewrite <- S2 in *. clearbody t.
  assert (base <= lval t ->
    (let '(tab, v) := mp_div1 t base 0 in to_string_loop (S fuel) tab radix base dpl (js_limb_to_a q v radix dpl)) =
    inr ((digit_char <$> to_digits radix (lval t)) ++ q)) as Hstep.
  { intros Hge. pose proof (mp_div1_spec t base 0 S1 Hbl ltac:(lia)) as HD.
    destruct (mp_div1 t base 0) as [qs r]. destruct HD as (D1 & D2 & D3 & D4).
    rewrite Z.mul_0_r, Z.add_0_r in D4.
    assert (lval t / base = lval qs) as Hq by (symmetry; apply Z.div_unique with (r := r); lia).
    assert (lval t mod base = r) as Hm by (symmetry; apply Z.mod_unique with (q := lval qs); lia).
    assert (1 <= lval qs) by (rewrite <- Hq; apply Z.div_le_lower_bound; lia).
    rewrite IH; [|done|by intros ->; cbn in *; lia|].
    2: { split; [lia|]. rewrite <- Hq. rewrite Nat2Z.inj_succ, Z.pow_succ_r in Hv by lia.
         apply Z.div_lt_upper_bound; nia. }
    rewrite (to_digits_split radix dpl (lval t)) by (try lia; rewrite <- Hb, Hq; lia).
    rewrite <- Hb, Hq, js_limb_to_a_eq, <- Hm by lia. rewrite Hb, fixed_digits_mod by lia.
    by rewrite fmap_app, app_assoc. }
  destruct S3 as [[x ->]|[Hl Hbig]].
  - change (length [x] =? 1)%nat with true. change (default 0 ([x] !! 0%nat)) with x. rewrite lval_single in *.
    cbn [andb]. destruct (Z.ltb_spec x base); [|by apply Hstep].
    destruct (Z.eqb_spec x 0); [lia|]. cbn [negb]. f_equal. apply js_u64toa_eq; [done| |lia].
    unfold limb in Hbl. change (2 ^ Z.of_nat 64) with B. lia.
  - destruct (Nat.eqb_spec (length t) 1); [lia|]. cbn [andb]. apply Hstep. unfold limb in Hbl. lia.
Qed.

(** The bits of a limb array. *)
Lemma lval_testbit tab k :
  limbs tab -> 0 <= k ->
  Z.testbit (lval tab) k = Z.testbit (default 0 (tab !! Z.to_nat (k / 64))) (k mod 64).
Proof.
  intros Ht. revert k. induction Ht as [|x tab Hx Ht IH]; intros k Hk; cbn [lval].
  - by rewrite !Z.bits_0.
  - rewrite testbit_pack by done. case_bool.
    + rewrite Z.div_small, Z.mod_small by lia. done.
    + rewrite IH by lia. replace (Z.to_nat (k / 64)) with (S (Z.to_nat ((k - 64) / 64))) by mod_lia.
      cbn [lookup list_lookup]. f_equal. mod_lia.
Qed.

Lemma u32_testbit x k : 0 <= k < 32 -> Z.testbit (u32 x) k = Z.testbit x k.
Proof.
  intros Hk. unfold u32. rewrite <- Z.land_ones by lia. rewrite Z.land_spec, Z.ones_spec_low by lia.
  apply andb_true_r.
Qed.
Lemma u64_testbit x k : 0 <= k < 64 -> Z.testbit (u64 x) k = Z.testbit x k.
Proof.
  intros Hk. unfold u64. rewrite <- Z.land_ones by lia. rewrite Z.land_spec, Z.ones_spec_low by lia.
  apply andb_true_r.
Qed.

(** The digit read at [bit_pos]. *)
Lemma bin_digit tab bp lr :
  limbs tab -> 0 <= bp -> 1 <= lr <= 5 ->
  let pos := Z.to_nat (bp / 64) in
  let shift := bp mod 64 in
  let c := u32 (Z.shiftr (default 0 (tab !! pos)) shift) in
  let c := if (64 <? shift + lr) && (S pos <? length tab)%nat
           then u32 (Z.lor c (u64 (Z.shiftl (default 0 (tab !! S pos)) (64 - shift)))) else c in
  Z.land c (2 ^ lr - 1) = (lval tab / 2 ^ bp) mod 2 ^ lr.
Proof.
  intros Ht Hbp Hlr pos shift c c'. assert (0 <= shift < 64) as Hsh by (subst shift; mod_lia).
  replace (2 ^ lr - 1) with (Z.ones lr) by (rewrite Z.ones_equiv; lia).
  rewrite <- Z.land_ones, <- Z.shiftr_div_pow2 by lia. apply Z.bits_inj'. intros k Hk.
  rewrite !Z.land_spec. destruct (Z.ltb_spec k lr) as [Hklr|Hklr].
  2: { by rewrite Z.ones_spec_high, !andb_false_r by lia. }
  f_equal. rewrite Z.shiftr_spec, (lval_testbit tab (k + bp)) by (done || lia).
  assert (Z.testbit c k = Z.testbit (default 0 (tab !! pos)) (k + shift)) as Hc.
  { subst c. rewrite u32_testbit, Z.shiftr_spec by lia. done. }
  destruct (Z.ltb_spec (k + shift) 64) as [Hlow|Hhigh].
  - replace (Z.to_nat ((k + bp) / 64)) with pos by (subst pos shift; mod_lia).
    replace ((k + bp) mod 64) with (k + shift) by (subst shift; mod_lia). rewrite <- Hc. subst c'.
    destruct ((64 <? shift + lr) && _); [|done]. rewrite u32_testbit, Z.lor_spec by lia.
    rewrite u64_testbit, Z.shiftl_spec, (Z.testbit_neg_r _ (k - _)) by lia. apply orb_false_r.
  - replace (Z.to_nat ((k + bp) / 64)) with (S pos) by (subst pos shift; mod_lia).
    replace ((k + bp) mod 64) with (k - (64 - shift)) by (subst shift; mod_lia). subst c'.
    assert (Z.testbit c k = false) as Hc0.
    { rewrite Hc. destruct (decide (pos < length tab)%nat) as [Hp|Hp].
      - pose proof (lookup_limb tab pos Ht Hp). apply (testbit_small _ 64); [done|lia].
      - rewrite lookup_ge_None_2 by lia. apply Z.bits_0. }
    destruct (Z.ltb_spec 64 (shift + lr)); [|lia]. cbn [andb].
    destruct (Nat.ltb_spec (S pos) (length tab)).
    + rewrite u32_testbit, Z.lor_spec, Hc0, u64_testbit, Z.shiftl_spec by lia. done.
    + rewrite Hc0, lookup_ge_None_2 by lia. by rewrite Z.bits_0.
Qed.

Lemma to_string_bin_spec n i tab lr q :
  limbs tab -> 0 <= i -> 1 <= lr <= 5 ->
  to_string_bin n i tab (2 ^ lr) lr q =
  (digit_char <$> fixed_digits (2 ^ lr) n (lval tab / 2 ^ (i * lr))) ++ q.
Proof.
  intros Ht Hi Hlr. revert i q Hi. induction n as [|n IH]; intros i q Hi; cbn [to_string_bin fixed_digits]; [done|].
  rewrite IH by lia. rewrite (bin_digit tab (i * lr) lr) by (done || nia).
  assert (lval tab / 2 ^ (i * lr) / 2 ^ lr = lval tab / 2 ^ ((i + 1) * lr)) as ->.
  { rewrite Z.div_div, <- Z.pow_add_r by (try apply Z.pow_pos_nonneg; nia). do 2 f_equal. lia. }
  by rewrite fmap_app, <- app_assoc.
Qed.

(** The bit count [n_bits] of a positive BigInt is exact. *)
Lemma n_bits_spec r :
  bigint_wf r -> 0 < bval r ->
  lval r = bval r /\
  Z.of_nat (length r) * JS_LIMB_BITS - js_limb_safe_clz (default 0 (last r)) = Z.log2 (bval r) + 1.
Proof.
  intros (Hr & Hne & Hn) Hpos. pose proof (bval_sign r Hr Hne) as Hs.
  destruct (Z.ltb_spec (bval r) 0); [lia|]. assert (lval r = bval r) as Hl by (unfold bval in *; rewrite Hs in *; lia).
  split; [done|]. rewrite <- Hl in *. clear Hl.
  destruct (limb_last r Hr Hne) as (t0 & x & -> & Ht0 & Hx). rewrite last_snoc. change (default 0 (Some x)) with x.
  rewrite length_app. cbn [length]. unfold js_limb_safe_clz, JS_LIMB_BITS, js_limb_clz.
  assert (forall t y, limbs t -> 0 < y -> Z.log2 (lval t + Bn (length t) * y) = 64 * Z.of_nat (length t) + Z.log2 y) as Hlog.
  { intros t y Hlt Hy. pose proof (lval_bound t Hlt). rewrite Bn_pow in *. pose proof (Z.log2_spec y Hy).
    pose proof (Z.log2_nonneg y). set (P := 2 ^ (64 * Z.of_nat (length t))) in *.
    apply Z.log2_unique; [lia|]. rewrite <- Z.add_succ_r, !Z.pow_add_r by lia. fold P. nia. }
  destruct (Z.eqb_spec x 0) as [->|Hx0].
  - destruct t0 as [|w t1 _] using rev_ind; [cbn in Hpos; lia|].
    apply limbs_app in Ht0 as [Ht1 Hw]. apply limbs_cons in Hw as [Hw _].
    rewrite <- app_assoc in Hn. apply normalized_snoc in Hn.
    apply (limb_redundant_false 0 w Hx Hw) in Hn. rewrite shiftr63 in Hn by done.
    destruct (Z.ltb_spec w (2 ^ 63)); [done|]. unfold limb in Hw.
    assert (lval ((t1 ++ [w]) ++ [0]) = lval t1 + Bn (length t1) * w) as ->.
    { rewrite !lval_app, !lval_single. lia. }
    rewrite Hlog by (done || lia). assert (Z.log2 w = 63) as ->.
    { apply Z.log2_unique; [lia|]. change (2 ^ Z.succ 63) with B. lia. }
    rewrite length_app. cbn [length]. lia.
  - unfold limb in Hx. rewrite lval_app, lval_single, Hlog by (done || lia). lia.
Qed.

Lemma to_digits_length radix n :
  2 <= radix -> 0 < n -> radix ^ (Z.of_nat (length (to_digits radix n)) - 1) <= n.
Proof.
  intros Hr Hn. destruct (to_digits_spec radix n) as (Hv & Hf & Hne); [lia..|].
  assert (forall k m, (k <= length (to_digits radix m))%nat -> 0 < m -> (1 <= k)%nat -> radix ^ (Z.of_nat k - 1) <= m) as H.
  { induction k as [|k IH]; intros m Hk Hm Hk1; [lia|].
    destruct k as [|k]; [cbn; lia|]. rewrite to_digits_eq in Hk by lia.
    destruct (Z.ltb_spec m radix); [cbn in Hk; lia|]. rewrite length_app in Hk. cbn [length] in Hk.
    assert (1 <= m / radix) by (apply Z.div_le_lower_bound; lia).
    specialize (IH (m / radix) ltac:(lia) ltac:(lia) ltac:(lia)).
    replace (Z.of_nat (S (S k)) - 1) with (1 + (Z.of_nat (S k) - 1)) by lia. rewrite Z.pow_add_r, Z.pow_1_r by lia.
    pose proof (Z.div_mod m radix ltac:(lia)). pose proof (Z.mod_pos_bound m radix ltac:(lia)). nia. }
  apply H; [done|done|]. destruct (to_digits radix n); [done|]. cbn. lia.
Qed.

(** A power-of-two radix: [ceil(bits / lr)] digits are all of them. *)
Lemma bits_digits n lr :
  1 <= lr -> 0 < n ->
  fixed_digits (2 ^ lr) (Z.to_nat ((Z.log2 n + 1 + lr - 1) / lr)) n = to_digits (2 ^ lr) n.
Proof.
  intros Hlr Hn. pose proof (Z.log2_nonneg n). pose proof (Z.log2_spec n Hn) as [L1 L2].
  replace (Z.log2 n + 1 + lr - 1) with (Z.log2 n + 1 * lr) by lia. rewrite Z.div_add by lia.
  set (k := Z.log2 n / lr). assert (0 <= k) by (apply Z.div_pos; lia).
  pose proof (Z.div_mod (Z.log2 n) lr ltac:(lia)) as Hdm. pose proof (Z.mod_pos_bound (Z.log2 n) lr ltac:(lia)).
  fold k in Hdm. replace (Z.to_nat (k + 1)) with (S (Z.to_nat k)) by lia.
  apply fixed_digits_all; [apply (Z.pow_le_mono_r 2 1); lia|].
  rewrite Nat2Z.inj_succ, Z2Nat.id, <- !Z.pow_mul_r by lia. split.
  - etransitivity; [|exact L1]. apply Z.pow_le_mono_r; lia.
  - eapply Z.lt_le_trans; [exact L2|]. apply Z.pow_le_mono_r; lia.
Qed.

Lemma digits_fit radix n :
  2 <= radix -> 0 < n ->
  Z.of_nat (length (to_digits radix n)) <= (Z.log2 n + 1 + Z.log2 radix - 1) / Z.log2 radix.
Proof.
  intros Hr Hn. pose proof (to_digits_length radix n Hr Hn) as Hlen.
  assert (1 <= Z.log2 radix) by (apply Z.log2_le_pow2; lia). pose proof (Z.log2_spec radix ltac:(lia)) as [L1 _].
  set (d := Z.of_nat (length (to_digits radix n))) in *. set (lr := Z.log2 radix) in *.
  destruct (decide (d = 0)); [apply Z.div_le_lower_bound; pose proof (Z.log2_nonneg n); lia|].
  assert (lr * (d - 1) <= Z.log2 n).
  { apply Z.log2_le_pow2; [done|]. rewrite Z.pow_mul_r by lia.
    etransitivity; [|exact Hlen]. apply Z.pow_le_mono_l. lia. }
  apply Z.div_le_lower_bound; nia.
Qed.

(** The text is produced, or an allocation failed. *)
Definition prints (ctx : JSContext) (n : nat) (m : res (list Z)) (s : list Z) : Prop :=
  match m with
  | inr t => t = s
  | inl e => alloc_fails ctx n e
  end.

Lemma malloc_prints ctx n size k s :
  prints ctx n k s -> prints ctx n (rbind (js_malloc ctx size) (fun _ => k)) s.
Proof. intros Hk. unfold js_malloc, rbind. destruct (js_malloc_ok ctx size) eqn:Hm; [done|]. left. eauto. Qed.

Lemma new_string_prints ctx n s : prints ctx n (js_new_string8_len ctx s) s.
Proof. destruct s; [done|]. by apply malloc_prints. Qed.

(** The digits of the magnitude, in either kind of radix. *)
Lemma to_string_digits r radix :
  bigint_wf r -> 0 < bval r -> 2 <= radix <= 36 ->
  let n_bits := Z.of_nat (length r) * JS_LIMB_BITS - js_limb_safe_clz (default 0 (last r)) in
  let n_digits := (n_bits + Z.log2 radix - 1) / Z.log2 radix in
  (if negb (Z.land radix (radix - 1) =? 0) then
     to_string_loop (S (Z.to_nat n_bits)) r radix
       (default 0 (radix_base_table !! Z.to_nat (radix - 2)))
       (Z.to_nat (default 0 (digits_per_limb_table !! Z.to_nat (radix - 2)))) []
   else inr (to_string_bin (Z.to_nat n_digits) 0 r radix (Z.log2 radix) [])) =
  inr (digit_char <$> to_digits radix (bval r)) /\
  Z.of_nat (length (digit_char <$> to_digits radix (bval r))) <= n_digits.
Proof.
  intros Hr Hpos Hrad. cbn zeta. destruct (n_bits_spec r Hr Hpos) as [Hl ->].
  split; [|rewrite length_fmap; apply digits_fit; lia].
  pose proof (Z.log2_nonneg (bval r)). destruct Hr as (Hr & Hne & _).
  destruct (Z.eqb_spec (Z.land radix (radix - 1)) 0) as [Hb|Hb]; cbn [negb].
  - apply land_pred_pow2 in Hb; [|lia]. set (lr := Z.log2 radix) in *.
    assert (1 <= lr) by (apply Z.log2_le_pow2; lia).
    assert (lr <= 5) by (assert (lr < 6) by (apply Z.log2_lt_pow2; lia); lia).
    rewrite Hb, to_string_bin_spec by (done || lia). rewrite Z.mul_0_l, Z.pow_0_r, Z.div_1_r, Hl, app_nil_r.
    by rewrite bits_digits by lia.
  - destruct (radix_tables radix Hrad Hb) as (T1 & T2 & T3). cbn zeta in *.
    rewrite to_string_loop_spec, app_nil_r, Hl by (try done; try lia; rewrite Hl, Z2Nat.id by lia;
      pose proof (Z.log2_spec (bval r) Hpos); rewrite Z.add_1_r; lia). done.
Qed.

Lemma to_string1_spec ctx r radix :
  bigint_wf r -> 2 <= radix <= 36 ->
  prints ctx (length r) (to_string_big ctx r radix) (print_radix radix (bval r)).
Proof.
  intros Hr Hrad. unfold to_string_big. destruct (is_zero r) eqn:Hz.
  { apply (is_zero_spec r Hr) in Hz. rewrite Hz.
    assert (print_radix radix 0 = [48]) as ->; [|apply new_string_prints].
    unfold print_radix. cbn [Z.ltb Z.compare]. rewrite to_digits_eq by lia. case_bool; [done|lia]. }
  assert (bval r <> 0) as Hnz by (intros ?%(is_zero_spec r Hr); congruence). clear Hz.
  pose proof Hr as (Hl & Hne & _). rewrite (bval_sign r Hl Hne).
  assert (negb ((if bval r <? 0 then 1 else 0) =? 0) = (bval r <? 0)) as -> by (by case_match).
  set (is_neg := bval r <? 0).
  match goal with |- prints _ _ (rbind ?t _) _ =>
    assert (match t with inr r' => bigint_wf r' /\ bval r' = Z.abs (bval r) | inl e => alloc_fails ctx (length r) e end) as Ht end.
  { subst is_neg. destruct (Z.ltb_spec (bval r) 0).
    - pose proof (neg_gives ctx r Hr) as HG. destruct (js_bigint_neg ctx r); cbn in *; [done|].
      destruct HG as [? ->]. split; [done|lia].
    - destruct (Z.land radix (radix - 1) =? 0); [split; [done|lia]|].
      unfold js_bigint_new. case_bool; [right; split; [done|lia]|].
      destruct (js_malloc_ok _ _) eqn:Hm; cbn; [split; [done|lia]|left; eauto]. }
  match goal with |- prints _ _ (rbind ?t _) _ => destruct t as [e|r'] end; [done|]. destruct Ht as [Hr' Hv'].
  cbn [rbind]. apply malloc_prints.
  destruct (to_string_digits r' radix Hr' ltac:(lia) Hrad) as [HD HL]. cbn zeta in HD, HL.
  rewrite HD. cbn [rbind]. rewrite Hv' in *.
  assert ((if is_neg then 45 :: (digit_char <$> to_digits radix (Z.abs (bval r)))
           else digit_char <$> to_digits radix (Z.abs (bval r))) = print_radix radix (bval r)) as Heq.
  { subst is_neg. unfold print_radix. destruct (Z.ltb_spec (bval r) 0).
    - by rewrite Z.abs_neq by lia.
    - by rewrite Z.abs_eq by lia. }
  rewrite Heq. match goal with |- context [?x <? ?y] => destruct (Z.ltb_spec x y) as [Hbad|_] end.
  - exfalso. rewrite <- Heq in Hbad. destruct is_neg; cbn [b2z length] in Hbad; lia.
  - apply new_string_prints.
Qed.

Lemma compact_bval a :
  bigint_wf a ->
  match JS_CompactBigInt a with
  | ShortBigInt v => - 2 ^ 63 <= v < 2 ^ 63 /\ v = bval a
  | BigIntPtr p => p = a /\ (1 < length a)%nat
  end.
Proof.
  intros (Ha & Hne & _). unfold JS_CompactBigInt. destruct (Nat.eqb_spec (length a) 1) as [Hl|Hl].
  - destruct a as [|x [|]]; [done| |done]. apply limbs_cons in Ha as [Hx _].
    change (default 0 ([x] !! 0%nat)) with x. rewrite bval_single by done.
    assert (i64 x = sl x) as ->; [|split; [by apply sl_range|done]].
    pose proof B_half. unfold i64, sl, limb in *. change (2 ^ 64) with B. case_bool.
    + rewrite Z.mod_small; lia.
    + replace (x + 2 ^ 63) with (x - 2 ^ 63 + 1 * B) by lia. rewrite Z.mod_add, Z.mod_small; lia.
  - split; [done|]. destruct a; [done|]. cbn in *. lia.
Qed.

Lemma u64toa_radix_print v radix :
  - 2 ^ 63 <= v < 2 ^ 63 -> 2 <= radix <= 36 -> i64toa_radix v radix = Some (print_radix radix v).
Proof.
  intros Hv Hr. unfold i64toa_radix, print_radix. destruct (Z.leb_spec 0 v), (Z.ltb_spec v 0); try lia.
  - by rewrite u64toa_radix_eq by lia.
  - assert (u64 (- u64 v) = - v) as ->.
    { assert (u64 v = v + 2 ^ 64) as -> by (unfold u64; symmetry; apply Z.mod_unique with (-1); lia).
      unfold u64; symmetry; apply Z.mod_unique with (-1); lia. }
    by rewrite u64toa_radix_eq by lia.
Qed.

(** C33: printing: the text of a BigInt, short or not, in any radix from 2 to 36
    is its sign and the digits of its magnitude without leading zeros; the
    buffer sized from the bit count is never overrun and the loops end. *)
Theorem bigint_to_string_correct (ctx : JSContext) (a : JSBigInt) (radix : Z)
    (Ha : bigint_wf a) (Hr : 2 <= radix <= 36) :
  prints ctx (length a) (js_bigint_to_string1 ctx (JS_CompactBigInt a) radix) (print_radix radix (bval a)) /\
  prints ctx (length a) (to_string_big ctx a radix) (print_radix radix (bval a)).
Proof.
  split; [|by apply to_string1_spec]. pose proof (compact_bval a Ha) as Hc.
  destruct (JS_CompactBigInt a) as [v|p]; cbn [js_bigint_to_string1].
  - destruct Hc as [Hv ->]. rewrite u64toa_radix_print by done. apply new_string_prints.
  - destruct Hc as [-> _]. by apply to_string1_spec.
Qed.

Lemma bigint_to_string_correct_witness :
  to_string_big ctx_ok w_big 10 = inr (bytes_of_string "340282366920938463463374607431768211455") /\
  prints ctx_ok 3 (to_string_big ctx_ok w_big 10) (print_radix 10 (2 ^ 128 - 1)).
Proof.
  split; [vm_compute; reflexivity|].
  exact (proj2 (bigint_to_string_correct ctx_ok w_big 10 w_big_wf ltac:(lia))).
Defined.

Lemma to_digit_char d : 0 <= d < 36 -> to_digit (digit_char d) = d.
Proof. intros Hd. unfold digit_char, to_digit. repeat (case_bool; cbn [andb]; try lia). Qed.

Lemma print_parse_digits radix n :
  2 <= radix <= 36 -> 0 <= n ->
  Forall (is_digit_in radix) (digit_char <$> to_digits radix n) /\
  to_digit <$> (digit_char <$> to_digits radix n) = to_digits radix n.
Proof.
  intros Hr Hn. destruct (to_digits_spec radix n) as (_ & Hf & _); [lia..|]. split.
  - apply Forall_fmap. eapply Forall_impl; [exact Hf|]. intros d Hd. unfold is_digit_in. cbn in Hd |- *.
    rewrite to_digit_char by lia. done.
  - rewrite <- list_fmap_compose. rewrite <- (list_fmap_id (to_digits radix n)) at 2.
    apply list_fmap_ext. intros i d Hd. apply (Forall_lookup_1 _ _ _ _ Hf) in Hd. cbn in Hd |- *.
    by rewrite to_digit_char by lia.
Qed.

Lemma skip_zeros_length p : (length (skip_zeros p) <= length p)%nat.
Proof. induction p as [|c p IH]; cbn; [done|]. case_match; cbn; lia. Qed.

Lemma from_string_limbs_mono radix n m :
  0 <= n <= m -> (from_string_limbs radix n <= from_string_limbs radix m)%nat.
Proof.
  intros Hnm. unfold from_string_limbs. pose proof (Z.log2_nonneg (radix - 1)).
  set (f := fun n => if radix =? 10 then (n * 27 + 7) / 8 else n * (Z.log2 (radix - 1) + 1)).
  assert (f n <= f m) by (subst f; cbv beta; case_bool; [apply Z.div_le_mono; lia|nia]).
  fold (f n) (f m). assert (f n / 64 <= f m / 64) by (apply Z.div_le_mono; lia). lia.
Qed.

(** C32: parsing: a digit string in radix 10, 2, 8 or 16, with an optional
    minus sign, is read as the integer it denotes, without a write past the
    limbs allocated from the digit count; in particular what is printed is
    parsed back. *)
Theorem bigint_from_string_correct (ctx : JSContext) (radix : Z) (Hr : parse_radix radix) :
  (forall (neg : bool) (ds : list Z), Forall (is_digit_in radix) ds ->
     gives ctx (from_string_limbs radix (Z.of_nat (length (skip_zeros ds))))
       (js_bigint_from_string ctx (if neg then 45 :: ds else ds) radix)
       ((if neg then -1 else 1) * digits_value radix (to_digit <$> ds))) /\
  (forall v : Z,
     gives ctx (from_string_limbs radix (Z.of_nat (length (to_digits radix (Z.abs v)))))
       (js_bigint_from_string ctx (print_radix radix v) radix) v).
Proof.
  split; [intros; by apply from_string_gives|]. intros v.
  assert (2 <= radix <= 36) as Hr36 by (destruct Hr as [-> | [-> | [-> | ->]]]; lia).
  destruct (print_parse_digits radix (Z.abs v) Hr36 ltac:(lia)) as [Hd He].
  destruct (to_digits_spec radix (Z.abs v)) as (Hv & _); [lia..|].
  pose proof (from_string_gives ctx (v <? 0) (digit_char <$> to_digits radix (Z.abs v)) radix Hr Hd) as HG.
  rewrite He, Hv in HG. unfold print_radix.
  apply (gives_mono ctx (from_string_limbs radix (Z.of_nat (length (skip_zeros (digit_char <$> to_digits radix (Z.abs v))))))).
  { apply from_string_limbs_mono. pose proof (skip_zeros_length (digit_char <$> to_digits radix (Z.abs v))) as Hl.
    rewrite length_fmap in Hl. split; [lia|]. apply Nat2Z.inj_le, Hl. }
  revert HG. destruct (Z.ltb_spec v 0); intros HG.
  - rewrite Z.abs_neq in HG |- * by lia. by replace (-1 * - v) with v in HG by lia.
  - rewrite Z.abs_eq in HG |- * by lia. by replace (1 * v) with v in HG by lia.
Qed.

Lemma bigint_from_string_correct_witness :
  js_bigint_from_string ctx_ok (bytes_of_string "-18446744073709551616") 10 = inr [0; 2 ^ 64 - 1] /\
  gives ctx_ok 2 (js_bigint_from_string ctx_ok (print_radix 10 (- 2 ^ 64)) 10) (- 2 ^ 64).
Proof.
  split; [vm_compute; reflexivity|].
  exact (proj2 (bigint_from_string_correct ctx_ok 10 (or_introl eq_refl)) (- 2 ^ 64)).
Defined.
