(* ===== verification/BigIntFloat.v ===== *)
(** * BigInt and double precision floats (quickjs.c)

    A double is its 64 bits, as [float64_as_uint64] gives them.  Conversion
    of a BigInt rounds to nearest, ties to even; conversion from a double is
    exact or refused; comparison is by sign, exponent and mantissa. *)
From S2P Require Import Prelude Limbs BigInt.

(** ** The double format *)

Definition f64_sign (b : Z) : Z := Z.shiftr b 63.
Definition f64_exp (b : Z) : Z := Z.land (Z.shiftr b 52) (Z.shiftl 1 11 - 1).
Definition f64_mant (b : Z) : Z := Z.land b (Z.shiftl 1 52 - 1).

(** A finite double times [2^1075]: an integer. *)
Definition f64_scaled (b : Z) : Z :=
  (1 - 2 * f64_sign b) *
  (if f64_exp b =? 0 then 2 * f64_mant b else (2 ^ 52 + f64_mant b) * 2 ^ f64_exp b).
(** The finite double [b] is the integer [v]. *)
Definition f64_is (b v : Z) : Prop := f64_exp b < 2047 /\ v * 2 ^ 1075 = f64_scaled b.

(** Assembling the fields. *)
Definition f64_pack (sgn e mant : Z) : Z :=
  Z.lor (Z.lor (Z.shiftl sgn 63) (Z.shiftl (e + 1023) 52)) mant.

(** The double nearest to a non-zero magnitude [m] with sign [sgn], ties to
    even; infinity above the range.  [q] is the 53-bit significand before
    rounding, [r] what is cut off. *)
Definition round_ties_even (q r ulp : Z) : Z :=
  if 2 * r <? ulp then q
  else if ulp <? 2 * r then q + 1
  else if Z.even q then q else q + 1.

Definition f64_nearest (sgn m : Z) : Z :=
  let e := Z.log2 m in
  let q := if e <=? 52 then m * 2 ^ (52 - e)
           else round_ties_even (m / 2 ^ (e - 52)) (m mod 2 ^ (e - 52)) (2 ^ (e - 52)) in
  let '(q, e) := if q =? 2 ^ 53 then (2 ^ 52, e + 1) else (q, e) in
  if 1023 <? e then f64_pack sgn 1024 0 else f64_pack sgn e (q - 2 ^ 52).

(** Conversion of an integer to double, C's [(double)x] for a 64-bit [x]. *)
Definition f64_of_Z (x : Z) : Z :=
  if x =? 0 then 0 else f64_nearest (if x <? 0 then 1 else 0) (Z.abs x).

(** ** The code *)

(** The limbs of [abs(a)] below the two high ones: only whether one is non-zero
    and the carry matter. *)
Fixpoint low_limbs (tab : list Z) (sgn carry low_bits : Z) : Z * Z :=
  match tab with
  | [] => (low_bits, carry)
  | x :: tab' =>
      let v := u64 (Z.lxor x (u64 (- sgn)) + carry) in
      low_limbs tab' sgn (b2z (v <? carry)) (Z.lor low_bits v)
  end.

(** The two high limbs [t[0], t[1]]; [None]: the index is negative. *)
Definition high_limb (x : option Z) (sgn carry : Z) : Z * Z :=
  match x with
  | None => (0, carry)
  | Some x => let v := u64 (Z.lxor x (u64 (- sgn)) + carry) in (v, b2z (v <? carry))
  end.

(** From [a0 |= (low_bits != 0)]: the shift that normalises [t1:t0], and the
    high limb with the bits below it kept for the final rounding. *)
Definition mant_norm (t1 t0 : Z) (s : bool) : Z * Z :=
  let a0 := Z.lor t0 (b2z s) in
  let '(shift, a1, a0) :=
    if t1 =? 0 then (64, a0, 0)
    else
      let shift := js_limb_clz t1 in
      if negb (shift =? 0) then
        (shift, Z.lor (u64 (Z.shiftl t1 shift)) (Z.shiftr a0 (64 - shift)), u64 (Z.shiftl a0 shift))
      else (shift, t1, a0) in
  (shift, Z.lor a1 (b2z (negb (a0 =? 0)))).

(** [mant] and [exp] with [abs(a) ~ mant * 2^(exp - 63)]. *)
Definition js_bigint_get_mant_exp (a : JSBigInt) : Z * Z :=
  let n := length a in
  let sgn := js_bigint_sign a in
  let '(low_bits, carry) := low_limbs (take (n - 2) a) sgn sgn 0 in
  let '(t0, carry) := high_limb (if (2 <=? n)%nat then a !! (n - 2)%nat else None) sgn carry in
  let '(t1, carry) := high_limb (a !! (n - 1)%nat) sgn carry in
  let '(shift, a1) := mant_norm t1 t0 (negb (low_bits =? 0)) in
  (a1, Z.of_nat n * JS_LIMB_BITS - shift - 1).

Definition shr_rndn (a n : Z) : Z :=
  let addend := Z.land (Z.shiftr a n) 1 + (Z.shiftl 1 (n - 1) - 1) in
  Z.shiftr (u64 (a + addend)) n.

Definition js_bigint_to_float64 (a : JSBigInt) : Z :=
  if (length a =? 1)%nat then f64_of_Z (i64 (default 0 (a !! 0%nat)))
  else
    let sgn := js_bigint_sign a in
    let '(mant, e) := js_bigint_get_mant_exp a in
    let '(mant, e) :=
      if 1023 <? e then (0, 1024)
      else
        let mant := Z.lor (Z.shiftr mant 1) (Z.land mant 1) in
        let mant := shr_rndn mant 10 in
        let '(mant, e) := if Z.shiftl 1 53 <=? mant then (Z.shiftr mant 1, e + 1) else (mant, e) in
        (Z.land mant (Z.shiftl 1 52 - 1), e) in
    f64_pack sgn e mant.

(** [*pres] and the pointer returned. *)
Definition js_bigint_from_float64 (ctx : JSContext) (a1 : Z) : Z * option (res JSBigInt) :=
  let a := a1 in
  let sgn := Z.shiftr a 63 in
  let e := Z.land (Z.shiftr a 52) (Z.shiftl 1 11 - 1) in
  let mant := Z.land a (Z.shiftl 1 52 - 1) in
  if e =? 2047 then (2, None)
  else if (e =? 0) && (mant =? 0) then (0, Some (js_bigint_new_si ctx 0))
  else
    let e := e - 1023 in
    if e <? 0 then (1, None)
    else
      let mant := Z.lor mant (Z.shiftl 1 52) in
      let finish mant e :=
        let mant := if negb (sgn =? 0) then u64 (- mant) else mant in
        (0, Some (js_bigint_shl ctx (js_bigint_set_si64 (i64 mant)) e)) in
      if e <? 52 then
        let shift := 52 - e in
        if negb (Z.land mant (Z.shiftl 1 shift - 1) =? 0) then (1, None)
        else finish (Z.shiftr mant shift) 0
      else finish mant (e - 52).

Definition js_bigint_float64_cmp (a : JSBigInt) (b : Z) : Z :=
  let b1 := b in
  let b_sign := Z.shiftr b1 63 in
  let e := Z.land (Z.shiftr b1 52) (Z.shiftl 1 11 - 1) in
  let mant := Z.land b1 (Z.shiftl 1 52 - 1) in
  let a_sign := js_bigint_sign a in
  if e =? 2047 then
    if negb (mant =? 0) then 2 else 2 * b_sign - 1
  else if (e =? 0) && (mant =? 0) then
    if is_zero a then 0 else 1 - 2 * a_sign
  else if is_zero a then 2 * b_sign - 1
  else if negb (a_sign =? b_sign) then 1 - 2 * a_sign
  else
    let e := e - 1023 in
    let '(a_mant, f) := js_bigint_get_mant_exp a in
    if negb (f =? e) then (if f <? e then -1 else 1)
    else
      let mant := Z.shiftl (Z.lor mant (Z.shiftl 1 52)) 11 in
      if a_mant <? mant then 2 * a_sign - 1
      else if mant <? a_mant then 1 - 2 * a_sign
      else 0.

(** ** The magnitude, limb by limb *)

(** [tab[i] ^ (-sgn)] with the carry from below is the limb of [abs(a)]. *)
Lemma abs_limb x sgn c :
  limb x -> bit sgn -> bit c ->
  let v := u64 (Z.lxor x (u64 (- sgn)) + c) in
  limb v /\ bit (b2z (v <? c)) /\ v + B * b2z (v <? c) = (if sgn =? 0 then x else B - 1 - x) + c.
Proof.
  intros Hx Hs Hc. cbn zeta. split; [apply u64_limb|].
  pose proof (xor_neg_eq (negb (sgn =? 0)) x Hx) as Hxn. unfold xor_neg in Hxn.
  assert (b2z (negb (sgn =? 0)) = sgn) as Hb by (by destruct Hs as [-> | ->]). rewrite Hb in Hxn. rewrite Hxn.
  set (y := if negb (sgn =? 0) then B - 1 - x else x).
  assert (0 <= y < B) by (subst y; unfold limb in Hx; case_match; lia).
  assert ((if sgn =? 0 then x else B - 1 - x) = y) as -> by (subst y; by destruct (sgn =? 0)).
  rewrite u64_mod. unfold bit in *. destruct (Z.ltb_spec (y + c) B).
  - rewrite Z.mod_small by lia. destruct (Z.ltb_spec (y + c) c); cbn [b2z]; lia.
  - replace (y + c) with (0 + 1 * B) by lia. rewrite Z.mod_add, Z.mod_0_l by lia.
    destruct (Z.ltb_spec 0 c); cbn [b2z]; lia.
Qed.

(** The value the complemented limbs stand for. *)
Definition compl (sgn : Z) (tab : list Z) : Z :=
  if sgn =? 0 then lval tab else Bn (length tab) - 1 - lval tab.

Lemma compl_cons sgn x tab :
  compl sgn (x :: tab) = (if sgn =? 0 then x else B - 1 - x) + B * compl sgn tab.
Proof. unfold compl. cbn [lval length]. rewrite Bn_S. case_match; lia. Qed.

Lemma low_limbs_spec tab sgn c lb :
  limbs tab -> bit sgn -> bit c -> 0 <= lb ->
  let '(lb', c') := low_limbs tab sgn c lb in
  bit c' /\ exists L, 0 <= L < Bn (length tab) /\ L + Bn (length tab) * c' = compl sgn tab + c /\
    (lb' = 0 <-> lb = 0 /\ L = 0).
Proof.
  intros Ht Hs. revert c lb. induction Ht as [|x tab Hx Ht IH]; intros c lb Hc Hlb; cbn [low_limbs].
  { split; [done|]. exists 0. unfold compl. cbn. rewrite Bn_0. case_match; lia. }
  destruct (abs_limb x sgn c Hx Hs Hc) as (Hv & Hc' & Hval). cbn zeta in *.
  set (v := u64 (Z.lxor x (u64 (- sgn)) + c)) in *. unfold limb in Hv.
  assert (0 <= Z.lor lb v) as Hlb' by (apply Z.lor_nonneg; lia).
  specialize (IH _ _ Hc' Hlb'). destruct (low_limbs tab sgn _ _) as [lb' c'].
  destruct IH as (Hbc & L & HL & Heq & Hiff). split; [done|]. exists (v + B * L).
  rewrite compl_cons. cbn [length]. rewrite Bn_S. split_and!; [nia..| |].
  - nia.
  - rewrite Hiff, Z.lor_eq_0_iff. split; [intros [[-> ->] ->]; lia|]. intros [-> Hz]. nia.
Qed.

Lemma compl_abs a :
  limbs a -> a <> [] -> compl (js_bigint_sign a) a + js_bigint_sign a = Z.abs (bval a).
Proof.
  intros Ha Hne. pose proof (lval_bound a Ha). pose proof (bval_range a Ha Hne) as Hr. unfold compl, bval in *.
  destruct (sign_cases a Ha Hne) as [Hs|Hs]; rewrite Hs in *; cbn [Z.eqb]; lia.
Qed.

(** [t0] and [t1] hold the top of [abs(a)], [low_bits] whether anything is below. *)
Lemma mant_limbs a :
  limbs a -> a <> [] ->
  let n := length a in let sgn := js_bigint_sign a in
  let '(low_bits, carry) := low_limbs (take (n - 2) a) sgn sgn 0 in
  let '(t0, carry) := high_limb (if (2 <=? n)%nat then a !! (n - 2)%nat else None) sgn carry in
  let '(t1, carry) := high_limb (a !! (n - 1)%nat) sgn carry in
  limb t0 /\ limb t1 /\ exists L, 0 <= L < Bn (n - 1) /\ (low_bits = 0 <-> L = 0) /\
    Z.abs (bval a) * B = L + Bn (n - 1) * (t1 * B + t0).
Proof.
  intros Ha Hne. cbn zeta. pose proof (sign_cases a Ha Hne) as Hs. pose proof (compl_abs a Ha Hne) as HM.
  pose proof (bval_range a Ha Hne) as Hr. set (sgn := js_bigint_sign a) in *. set (M := Z.abs (bval a)) in *.
  assert (0 <= M < Bn (length a)) as HMb by (pose proof (Bn_pos (length a)); subst M; lia). pose proof B_pos as HB.
  destruct a as [|v a _] using rev_ind; [done|]. apply limbs_app in Ha as [Ha Hv]. apply limbs_cons in Hv as [Hv _].
  clear Hne. destruct a as [|w a _] using rev_ind.
  - change (length ([] ++ [v])) with 1%nat in *. cbn [Nat.sub take low_limbs Nat.leb high_limb app lookup list_lookup] in *.
    destruct (abs_limb v sgn sgn Hv Hs Hs) as (Ht & Hc & Heq). cbn zeta in *.
    set (t := u64 (Z.lxor v (u64 (- sgn)) + sgn)) in *. unfold compl in HM. cbn [lval length] in HM. rewrite Bn_1 in *.
    split; [split; lia|]. split; [done|]. exists 0. rewrite Bn_0. split; [lia|]. split; [done|].
    unfold limb, bit in *. destruct (sgn =? 0); nia.
  - apply limbs_app in Ha as [Ha Hw]. apply limbs_cons in Hw as [Hw _].
    assert (length ((a ++ [w]) ++ [v]) = S (S (length a))) as Hlen by (rewrite !length_app; cbn; lia).
    rewrite Hlen in *. cbn [Nat.sub Nat.leb]. rewrite Nat.sub_0_r.
    assert (take (length a) ((a ++ [w]) ++ [v]) = a) as -> by (rewrite <- app_assoc; apply take_app_length).
    assert (((a ++ [w]) ++ [v]) !! length a = Some w) as ->.
    { rewrite <- app_assoc, lookup_app_r, Nat.sub_diag by lia. done. }
    assert (((a ++ [w]) ++ [v]) !! S (length a) = Some v) as ->.
    { rewrite lookup_app_r by (rewrite length_app; cbn; lia). rewrite length_app. cbn [length].
      by replace (S (length a) - (length a + 1))%nat with 0%nat by lia. }
    pose proof (low_limbs_spec a sgn sgn 0 Ha Hs Hs ltac:(lia)) as HL.
    destruct (low_limbs a sgn sgn 0) as [lb c1]. destruct HL as (Hc1 & L & HL & HLe & Hiff).
    cbn [high_limb]. destruct (abs_limb w sgn c1 Hw Hs Hc1) as (Ht0 & Hc2 & He0). cbn zeta in *.
    set (t0 := u64 (Z.lxor w (u64 (- sgn)) + c1)) in *. set (c2 := b2z (t0 <? c1)) in *.
    destruct (abs_limb v sgn c2 Hv Hs Hc2) as (Ht1 & Hc3 & He1). cbn zeta in *.
    set (t1 := u64 (Z.lxor v (u64 (- sgn)) + c2)) in *. set (c3 := b2z (t1 <? c2)) in *.
    split_and!; [done..|]. exists (B * L). rewrite Bn_S in *. pose proof (Bn_pos (length a)) as HP.
    set (P := Bn (length a)) in *.
    assert (compl sgn ((a ++ [w]) ++ [v]) = compl sgn a +
      P * ((if sgn =? 0 then w else B - 1 - w) + B * (if sgn =? 0 then v else B - 1 - v))) as Hcompl.
    { unfold compl. rewrite Hlen, !lval_app, !lval_single, length_app, Nat.add_1_r, !Bn_S. fold P. case_match; lia. }
    rewrite Hcompl in HM. rewrite Bn_S in HMb. fold P in HMb.
    assert (M = L + P * (t0 + B * t1) + P * B * B * c3) as HMe by lia.
    assert (c3 = 0) as Hc30.
    { unfold bit in Hc3. destruct Hc3 as [?|Hc31]; [done|]. rewrite Hc31 in HMe. unfold limb in *.
      assert (0 <= P * (t0 + B * t1)) by (apply Z.mul_nonneg_nonneg; nia). lia. }
    rewrite Hc30 in HMe. split_and!; [nia..| |].
    + rewrite Hiff. split; [intros [_ ->]; lia|]. intros ?. split; [done|nia].
    + rewrite HMe. ring.
Qed.

(** ** Normalisation and the sticky bit *)

Lemma lor_1 t : Z.lor t 1 = 2 * (t / 2) + 1.
Proof.
  pose proof (Z.div_mod t 2 ltac:(lia)) as Hd. pose proof (Z.mod_pos_bound t 2 ltac:(lia)).
  rewrite Hd at 1. apply Z.bits_inj'. intros k Hk. rewrite Z.lor_spec.
  destruct (decide (k = 0)) as [->|Hk0].
  - rewrite (Z.add_comm (2 * (t / 2)) 1), Z.add_comm. change (Z.testbit 1 0) with true. rewrite orb_true_r.
    rewrite Z.add_comm, Z.testbit_odd_0. done.
  - replace k with (Z.succ (k - 1)) by lia. rewrite Z.testbit_odd_succ by lia.
    assert (Z.testbit 1 (Z.succ (k - 1)) = false) as -> by (apply (testbit_small 1 1); lia).
    rewrite orb_false_r. assert (t mod 2 = 0 \/ t mod 2 = 1) as [-> | ->] by lia.
    + rewrite Z.add_0_r. by rewrite Z.testbit_even_succ by lia.
    + by rewrite Z.testbit_odd_succ by lia.
Qed.

Lemma lor_b2z_div t (s : bool) k : 1 <= k -> Z.lor t (b2z s) / 2 ^ k = t / 2 ^ k.
Proof.
  intros Hk. destruct s; cbn [b2z]; [|by rewrite Z.lor_0_r]. rewrite lor_1.
  replace k with (1 + (k - 1)) by lia. rewrite Z.pow_add_r by lia. change (2 ^ 1) with 2.
  rewrite <- !Z.div_div by lia. f_equal. rewrite Z.add_comm, Z.mul_comm, Z.div_add by lia. done.
Qed.

Lemma lor_b2z_mod t (s : bool) k :
  1 <= k -> Z.lor t (b2z s) mod 2 ^ k = 0 <-> t mod 2 ^ k = 0 /\ s = false.
Proof.
  intros Hk. destruct s; cbn [b2z]; [|rewrite Z.lor_0_r; tauto]. split; [|by intros []].
  intros H. exfalso. rewrite lor_1 in H. replace k with (1 + (k - 1)) in H by lia.
  rewrite Z.pow_add_r, Z.rem_mul_r in H by lia. change (2 ^ 1) with 2 in H.
  rewrite Z.add_comm, Z.mul_comm in H. rewrite (Z.add_comm (2 * _)), (Z.mul_comm 2), Z.mod_add in H by lia.
  change (1 mod 2) with 1 in H. lia.
Qed.

Lemma mant_norm_spec t1 t0 s :
  limb t0 -> limb t1 -> 2 ^ 63 <= t1 * B + t0 ->
  let k := Z.log2 (t1 * B + t0) - 63 in
  mant_norm t1 t0 s = (64 - k, Z.lor ((t1 * B + t0) / 2 ^ k)
                         (b2z (negb ((t1 * B + t0) mod 2 ^ k =? 0) || s))) /\ 0 <= k <= 64.
Proof.
  intros H0 H1 HW. cbn zeta. pose proof B_half as HB. unfold limb in *. unfold mant_norm.
  destruct (Z.eqb_spec t1 0) as [->|Hnz].
  { rewrite Z.mul_0_l, Z.add_0_l in *. assert (Z.log2 t0 = 63) as ->.
    { apply Z.log2_unique; [lia|]. change (2 ^ Z.succ 63) with B. lia. }
    change (63 - 63) with 0. rewrite Z.div_1_r, Z.mod_1_r. cbn [Z.eqb negb orb b2z].
    rewrite Z.lor_0_r. split; [done|lia]. }
  pose proof (Z.log2_spec t1 ltac:(lia)) as [L1 L2]. pose proof (Z.log2_nonneg t1).
  assert (Z.log2 t1 < 64) as Hlt by (apply Z.log2_lt_pow2; [lia|]; change (2 ^ 64) with B; lia).
  assert (Z.log2 (t1 * B + t0) = 64 + Z.log2 t1) as ->.
  { apply Z.log2_unique; [lia|]. rewrite <- Z.add_succ_r, !Z.pow_add_r by lia. change (2 ^ 64) with B. nia. }
  unfold js_limb_clz. replace (64 + Z.log2 t1 - 63) with (64 - (63 - Z.log2 t1)) by lia.
  set (sh := 63 - Z.log2 t1) in *. split; [|lia]. pose proof (B_shift sh ltac:(lia)) as HBs.
  set (k := 64 - sh) in *. assert (1 <= k <= 64) as Hk by lia.
  assert (0 < 2 ^ sh) by (apply Z.pow_pos_nonneg; lia). assert (0 < 2 ^ k) by (apply Z.pow_pos_nonneg; lia).
  assert ((t1 * B + t0) / 2 ^ k = t1 * 2 ^ sh + t0 / 2 ^ k) as ->.
  { rewrite <- HBs. replace (t1 * (2 ^ sh * 2 ^ k) + t0) with (t1 * 2 ^ sh * 2 ^ k + t0) by ring.
    by rewrite Z.div_add_l by lia. }
  assert ((t1 * B + t0) mod 2 ^ k = t0 mod 2 ^ k) as ->.
  { rewrite <- HBs. replace (t1 * (2 ^ sh * 2 ^ k) + t0) with (t0 + t1 * 2 ^ sh * 2 ^ k) by ring.
    by rewrite Z.mod_add by lia. }
  assert (b2z (negb (Z.lor t0 (b2z s) mod 2 ^ k =? 0)) = b2z (negb (t0 mod 2 ^ k =? 0) || s)) as Hst.
  { pose proof (lor_b2z_mod t0 s k ltac:(lia)) as Hiff.
    destruct (Z.eqb_spec (Z.lor t0 (b2z s) mod 2 ^ k) 0), (Z.eqb_spec (t0 mod 2 ^ k) 0), s; cbn; try done;
      exfalso; destruct Hiff as [Hf Hg]; naive_solver. }
  replace (64 - k) with sh by lia.
  destruct (Z.eqb_spec sh 0) as [Hz|Hz]; cbn [negb].
  - rewrite Hz in *. replace k with 64 in * by lia. change (2 ^ 64) with B in *.
    rewrite Z.mul_1_r, (Z.div_small t0), Z.add_0_r by lia. f_equal. f_equal. rewrite <- Hst.
    rewrite (Z.mod_small (Z.lor _ _)); [done|]. assert (limb (Z.lor t0 (b2z s))) as Hll; [|exact Hll].
    apply (logic_limb OP_or); unfold limb; [lia|]. destruct s; cbn; lia.
  - rewrite u64_shiftl, Z.shiftr_div_pow2, (lor_b2z_div t0 s k) by lia.
    rewrite (Z.mod_small t1).
    2: { split; [lia|]. replace (64 - sh) with (Z.succ (Z.log2 t1)) by lia. lia. }
    rewrite lor_mul_small.
    2: lia.
    2: { split; [apply Z.div_pos; lia|]. apply Z.div_lt_upper_bound; [lia|]. rewrite Z.mul_comm. lia. }
    f_equal. f_equal. rewrite <- Hst. f_equal. f_equal. rewrite u64_shiftl by lia. fold k.
    destruct (Z.eqb_spec (Z.lor t0 (b2z s) mod 2 ^ k) 0) as [->|]; [done|].
    destruct (Z.eqb_spec (Z.lor t0 (b2z s) mod 2 ^ k * 2 ^ sh) 0); [nia|done].
Qed.

(** The mantissa is the top 64 bits of [abs(a)], its last bit also set when
    anything non-zero is cut off; the exponent is exact. *)
Lemma get_mant_exp_spec a :
  bigint_wf a -> bval a <> 0 ->
  let M := Z.abs (bval a) in let e := Z.log2 M in
  js_bigint_get_mant_exp a =
  (Z.lor (M * B / 2 ^ (e + 1)) (b2z (negb (M * B mod 2 ^ (e + 1) =? 0))), e).
Proof.
  intros Ha Hnz. cbn zeta. pose proof (bval_lower a Ha Hnz) as Hlow. destruct Ha as (Ha & Hne & _).
  unfold js_bigint_get_mant_exp. pose proof (mant_limbs a Ha Hne) as HM. cbn zeta in HM.
  destruct (low_limbs _ _ _ _) as [lb c]. destruct (high_limb _ _ c) as [t0 c2]. destruct (high_limb _ _ c2) as [t1 c3].
  destruct HM as (H0 & H1 & L & HL & Hlb & HM). set (M := Z.abs (bval a)) in *.
  assert (1 <= length a)%nat as Hlen by (destruct a; cbn; [done|lia]).
  set (W := t1 * B + t0) in *. pose proof (Bn_pos (length a - 1)) as HP. set (P := Bn (length a - 1)) in *.
  pose proof B_half as HB.
  assert (2 ^ 63 <= W) as HW.
  { assert (P * 2 ^ 63 < P * (W + 1)) as Hlt by lia. apply Z.mul_lt_mono_pos_l in Hlt; lia. }
  destruct (mant_norm_spec t1 t0 (negb (lb =? 0)) H0 H1 HW) as [-> Hk]. fold W in Hk |- *. cbn zeta.
  set (k := Z.log2 W - 63) in *.
  assert (P = 2 ^ (64 * (Z.of_nat (length a) - 1))) as HPow by (subst P; rewrite Bn_pow; f_equal; lia).
  assert (Z.log2 M = 64 * (Z.of_nat (length a) - 1) + Z.log2 W - 64) as He.
  { assert (0 < M) as HMp by (subst M; lia).
    assert (Z.log2 (M * 2 ^ 64) = 64 + Z.log2 M) as Hl by (apply Z.log2_mul_pow2; lia).
    change (2 ^ 64) with B in Hl. rewrite HM in Hl.
    assert (Z.log2 (L + P * W) = 64 * (Z.of_nat (length a) - 1) + Z.log2 W) as Hl2; [|lia].
    pose proof (Z.log2_spec W ltac:(lia)) as [L1 L2]. pose proof (Z.log2_nonneg W).
    apply Z.log2_unique; [lia|]. rewrite <- Z.add_succ_r, !Z.pow_add_r, <- HPow by lia. nia. }
  assert (2 ^ (Z.log2 M + 1) = P * 2 ^ k) as Hpow.
  { rewrite HPow, <- Z.pow_add_r by lia. f_equal. lia. }
  rewrite Hpow, HM. assert (0 < 2 ^ k) by (apply Z.pow_pos_nonneg; lia).
  pose proof (Z.div_mod W (2 ^ k) ltac:(lia)) as Hdm. pose proof (Z.mod_pos_bound W (2 ^ k) ltac:(lia)) as Hmb.
  assert (P * (W mod 2 ^ k) <= P * (2 ^ k - 1)) by (apply Z.mul_le_mono_nonneg_l; lia).
  assert (0 <= P * (W mod 2 ^ k)) by (apply Z.mul_nonneg_nonneg; lia).
  assert (L + P * W = P * 2 ^ k * (W / 2 ^ k) + (L + P * (W mod 2 ^ k))) as Hsplit by (rewrite Hdm at 1; ring).
  assert ((L + P * W) / (P * 2 ^ k) = W / 2 ^ k) as ->.
  { symmetry. apply Z.div_unique with (r := L + P * (W mod 2 ^ k)); [left; lia|exact Hsplit]. }
  assert ((L + P * W) mod (P * 2 ^ k) = L + P * (W mod 2 ^ k)) as ->.
  { symmetry. apply Z.mod_unique with (q := W / 2 ^ k); [left; lia|exact Hsplit]. }
  f_equal; [|unfold JS_LIMB_BITS; lia]. do 2 f_equal.
  destruct (Z.eqb_spec (W mod 2 ^ k) 0) as [Hz|Hz]; cbn [negb orb].
  - rewrite Hz, Z.mul_0_r, Z.add_0_r.
    destruct (Z.eqb_spec lb 0), (Z.eqb_spec L 0); tauto || done.
  - destruct (Z.eqb_spec (L + P * (W mod 2 ^ k)) 0); [nia|done].
Qed.

(** ** Rounding *)

Lemma lor_b2z_eq t (s : bool) : Z.lor t (b2z s) = if s then 2 * (t / 2) + 1 else t.
Proof. destruct s; [apply lor_1|apply Z.lor_0_r]. Qed.

(** Rounding the sticky mantissa from 63 to 53 bits rounds the exact number:
    [r / ulp] is the fraction below the significand [X / 2^11]. *)
Lemma round_sticky X (st : bool) r ulp :
  2 ^ 63 <= X < 2 ^ 64 ->
  (2 * r < ulp <-> X mod 2048 < 1024) ->
  (ulp < 2 * r <-> 1024 < X mod 2048 \/ (X mod 2048 = 1024 /\ st = true)) ->
  let mant := Z.lor X (b2z st) in
  shr_rndn (Z.lor (Z.shiftr mant 1) (Z.land mant 1)) 10 = round_ties_even (X / 2048) r ulp.
Proof.
  intros HX Hlt Hgt mant.
  assert (Z.land mant 1 = b2z (mant mod 2 =? 1)) as ->.
  { rewrite land_1. case_bool; cbn [b2z]; mod_lia. }
  rewrite Z.shiftr_div_pow2, lor_b2z_eq by lia. change (2 ^ 1) with 2.
  unfold shr_rndn. rewrite !Z.shiftr_div_pow2, land_1 by lia. change (2 ^ 10) with 1024.
  change (Z.shiftl 1 (10 - 1) - 1) with 511. unfold mant. rewrite lor_b2z_eq.
  set (X' := if st then 2 * (X / 2) + 1 else X).
  assert (2 ^ 63 <= X' < 2 ^ 64) by (subst X'; destruct st; mod_lia).
  set (m1 := if X' mod 2 =? 1 then 2 * (X' / 2 / 2) + 1 else X' / 2).
  assert (0 <= m1 < 2 ^ 63) by (subst m1; case_bool; mod_lia).
  rewrite u64_id by mod_lia. unfold round_ties_even.
  assert (Z.even (X / 2048) = ((X / 2048) mod 2 =? 0)) as ->.
  { rewrite Zeven_mod. unfold Zeq_bool. by destruct (Z.compare_spec ((X / 2048) mod 2) 0), (Z.eqb_spec ((X / 2048) mod 2) 0); try lia. }
  assert (m1 / 1024 = X / 2048) as Hq by (subst m1 X'; destruct st; case_bool; mod_lia).
  destruct (Z.ltb_spec (2 * r) ulp) as [H1|H1]; [|destruct (Z.ltb_spec ulp (2 * r)) as [H2|H2]].
  - apply Hlt in H1. assert (m1 mod 1024 < 512) by (subst m1 X'; destruct st; case_bool; mod_lia). mod_lia.
  - apply Hgt in H2. assert (512 < m1 mod 1024) by (subst m1 X'; destruct st; case_bool; destruct H2 as [?|[? ?]]; try done; mod_lia). mod_lia.
  - assert (X mod 2048 = 1024 /\ st = false) as [Hx ->].
    { assert (~ X mod 2048 < 1024) by (rewrite <- Hlt; lia).
      assert (~ (1024 < X mod 2048 \/ (X mod 2048 = 1024 /\ st = true))) as Hn by (rewrite <- Hgt; lia).
      destruct st; [exfalso; apply Hn; destruct (decide (X mod 2048 = 1024)); [by right|left; lia]|].
      split; [|done]. assert (~ 1024 < X mod 2048) by tauto. lia. }
    assert (m1 mod 1024 = 512) by (subst m1 X'; case_bool; mod_lia). case_bool; mod_lia.
Qed.

Lemma land_ones_52 x : Z.land x (Z.shiftl 1 52 - 1) = x mod 2 ^ 52.
Proof. change (Z.shiftl 1 52 - 1) with (Z.ones 52). by rewrite Z.land_ones. Qed.
Lemma land_ones_11 x : Z.land x (Z.shiftl 1 11 - 1) = x mod 2 ^ 11.
Proof. change (Z.shiftl 1 11 - 1) with (Z.ones 11). by rewrite Z.land_ones. Qed.

(** The fields of the mantissa and what they round to, for [log2 M >= 63]. *)
Lemma mant_round M :
  0 < M -> 63 <= Z.log2 M ->
  let e := Z.log2 M in
  let mant := Z.lor (M * B / 2 ^ (e + 1)) (b2z (negb (M * B mod 2 ^ (e + 1) =? 0))) in
  let q := round_ties_even (M / 2 ^ (e - 52)) (M mod 2 ^ (e - 52)) (2 ^ (e - 52)) in
  shr_rndn (Z.lor (Z.shiftr mant 1) (Z.land mant 1)) 10 = q /\ 2 ^ 52 <= q <= 2 ^ 53.
Proof.
  intros HM He. cbn zeta. set (e := Z.log2 M) in *. pose proof (Z.log2_spec M HM) as [L1 L2]. fold e in L1, L2.
  set (D := 2 ^ (e - 63)). assert (0 < D) as HD by (apply Z.pow_pos_nonneg; lia). pose proof B_pos as HBp.
  assert (2 ^ (e + 1) = D * B) as ->.
  { subst D. change B with (2 ^ 64). rewrite <- Z.pow_add_r by lia. f_equal. lia. }
  assert (2 ^ (e - 52) = D * 2048) as ->.
  { subst D. change 2048 with (2 ^ 11). rewrite <- Z.pow_add_r by lia. f_equal. lia. }
  assert (D * 2 ^ 63 <= M < D * 2 ^ 64) as HMD.
  { subst D. rewrite <- !Z.pow_add_r by lia. replace (e - 63 + 63) with e by lia.
    replace (e - 63 + 64) with (Z.succ e) by lia. lia. }
  rewrite Z.div_mul_cancel_r, Z.mul_mod_distr_r by lia.
  set (X := M / D). set (R := M mod D). pose proof (Z.div_mod M D ltac:(lia)) as Hdm.
  pose proof (Z.mod_pos_bound M D HD) as HR. fold X R in Hdm, HR.
  assert (2 ^ 63 <= X < 2 ^ 64) as HX
    by (split; [apply Z.div_le_lower_bound|apply Z.div_lt_upper_bound]; lia).
  pose proof (Z.div_mod X 2048 ltac:(lia)) as HdX. pose proof (Z.mod_pos_bound X 2048 ltac:(lia)) as HmX.
  set (xl := X mod 2048) in *. set (xh := X / 2048) in *.
  assert (M = D * 2048 * xh + (xl * D + R)) as HMs by (rewrite Hdm, HdX; ring).
  assert (xl * D <= 2047 * D) by (apply Z.mul_le_mono_nonneg_r; lia).
  assert (0 <= xl * D) by (apply Z.mul_nonneg_nonneg; lia).
  assert (M / (D * 2048) = xh) as -> by (symmetry; apply Z.div_unique with (r := xl * D + R); lia).
  assert (M mod (D * 2048) = xl * D + R) as -> by (symmetry; apply Z.mod_unique with (q := xh); lia).
  assert ((R * B =? 0) = (R =? 0)) as ->.
  { destruct (Z.eqb_spec R 0) as [->|]; [done|]. destruct (Z.eqb_spec (R * B) 0); [nia|done]. }
  split.
  - apply round_sticky; [done| |]; fold xl.
    + destruct (Z.ltb_spec xl 1024); [assert (xl * D <= 1023 * D)|assert (1024 * D <= xl * D)];
        try (apply Z.mul_le_mono_nonneg_r; lia); lia.
    + rewrite negb_true_iff, Z.eqb_neq. destruct (Z.compare_spec xl 1024) as [->|Hc|Hc]; [lia| |].
      * assert (xl * D <= 1023 * D) by (apply Z.mul_le_mono_nonneg_r; lia). lia.
      * assert (1025 * D <= xl * D) by (apply Z.mul_le_mono_nonneg_r; lia). lia.
  - assert (2 ^ 52 <= xh < 2 ^ 53) by (subst xh; mod_lia). unfold round_ties_even. repeat case_match; lia.
Qed.

Lemma to_float64_spec a : bigint_wf a -> js_bigint_to_float64 a = f64_of_Z (bval a).
Proof.
  intros Ha. pose proof Ha as (Hl & Hne & Hn). unfold js_bigint_to_float64.
  destruct (Nat.eqb_spec (length a) 1) as [Hl1|Hl1].
  { destruct a as [|x [|]]; [done| |done]. apply limbs_cons in Hl as [Hx _].
    change (default 0 ([x] !! 0%nat)) with x. rewrite bval_single by done. f_equal.
    pose proof B_half. unfold i64, sl, limb in *. change (2 ^ 64) with B. case_bool.
    - rewrite Z.mod_small; lia.
    - replace (x + 2 ^ 63) with (x - 2 ^ 63 + 1 * B) by lia. rewrite Z.mod_add, Z.mod_small; lia. }
  assert (2 <= length a)%nat by (destruct a as [|? [|]]; cbn in *; done || lia).
  assert (bval a <> 0) as Hnz.
  { intros Hz%(is_zero_spec a Ha). unfold is_zero in Hz. apply andb_true_iff in Hz as [Hz _].
    apply Nat.eqb_eq in Hz. done. }
  rewrite get_mant_exp_spec by done. cbn zeta. pose proof (bval_lower a Ha Hnz) as Hlow.
  set (M := Z.abs (bval a)) in *. pose proof B_half as HB.
  assert (63 <= Z.log2 M) as He.
  { apply Z.log2_le_pow2; [subst M; lia|]. replace (length a - 1)%nat with (S (length a - 2)) in Hlow by lia.
    rewrite Bn_S in Hlow. pose proof (Bn_pos (length a - 2)). nia. }
  destruct (mant_round M ltac:(subst M; lia) He) as [-> Hq]. cbn zeta in Hq.
  unfold f64_of_Z, f64_nearest. destruct (Z.eqb_spec (bval a) 0); [done|]. fold M.
  rewrite (bval_sign a Hl Hne). destruct (Z.leb_spec (Z.log2 M) 52); [lia|].
  set (q := round_ties_even _ _ _) in *. set (e := Z.log2 M) in *.
  change (Z.shiftl 1 53) with (2 ^ 53). destruct (Z.ltb_spec 1023 e).
  - destruct (Z.eqb_spec q (2 ^ 53)); [destruct (Z.ltb_spec 1023 (e + 1)); [done|lia]|].
    destruct (Z.ltb_spec 1023 e); [done|lia].
  - destruct (Z.leb_spec (2 ^ 53) q), (Z.eqb_spec q (2 ^ 53)); try lia.
    + replace q with (2 ^ 53) by lia. rewrite land_ones_52. change (Z.shiftr (2 ^ 53) 1 mod 2 ^ 52) with 0.
      destruct (Z.ltb_spec 1023 (e + 1)); [by replace (e + 1) with 1024 by lia|done].
    + destruct (Z.ltb_spec 1023 e); [lia|]. rewrite land_ones_52. f_equal.
      symmetry. apply Z.mod_unique with 1; lia.
Qed.

(** ** From a double *)

Lemma f64_fields b : 0 <= b < 2 ^ 64 ->
  bit (f64_sign b) /\ 0 <= f64_exp b <= 2047 /\ 0 <= f64_mant b < 2 ^ 52.
Proof.
  intros Hb. unfold f64_sign, f64_exp, f64_mant, bit. rewrite land_ones_52, land_ones_11, !Z.shiftr_div_pow2 by lia.
  split_and!; mod_lia.
Qed.

Lemma implicit_bit m : 0 <= m < 2 ^ 52 -> Z.lor m (Z.shiftl 1 52) = 2 ^ 52 + m.
Proof. intros Hm. rewrite Z.lor_comm. rewrite lor_shiftl_small by lia. lia. Qed.

Lemma set_si64_signed sgn m :
  bit sgn -> 0 <= m < 2 ^ 54 ->
  let m' := if negb (sgn =? 0) then u64 (- m) else m in
  bigint_wf (js_bigint_set_si64 (i64 m')) /\ bval (js_bigint_set_si64 (i64 m')) = (1 - 2 * sgn) * m.
Proof.
  intros Hs Hm. cbn zeta. split; [apply single_wf, u64_limb|]. unfold js_bigint_set_si64.
  assert (i64 (if negb (sgn =? 0) then u64 (- m) else m) = (1 - 2 * sgn) * m) as ->.
  { destruct Hs as [-> | ->]; cbn [Z.eqb negb]; unfold i64.
    - rewrite Z.mod_small; lia.
    - unfold u64. destruct (decide (m = 0)) as [->|]; [done|].
      assert (- m mod 2 ^ 64 = 2 ^ 64 - m) as -> by (symmetry; apply Z.mod_unique with (-1); lia).
      replace (2 ^ 64 - m + 2 ^ 63) with (2 ^ 63 - m + 1 * 2 ^ 64) by lia. rewrite Z.mod_add, Z.mod_small; lia. }
  apply set_si_bval. destruct Hs as [-> | ->]; lia.
Qed.

Lemma sign_factor sgn x : bit sgn -> Z.abs ((1 - 2 * sgn) * x) = Z.abs x.
Proof. intros [-> | ->]; lia. Qed.

(** Doubles below 1 in magnitude are not non-zero integers. *)
Lemma small_not_integer E m s :
  bit s -> 0 <= E < 1023 -> 0 <= m < 2 ^ 52 ->
  let N := if E =? 0 then 2 * m else (2 ^ 52 + m) * 2 ^ E in
  0 < N -> forall v, v * 2 ^ 1075 <> (1 - 2 * s) * N.
Proof.
  intros Hs HE Hm N Hpos v Hv. apply (f_equal Z.abs) in Hv.
  rewrite sign_factor, (Z.abs_eq N), Z.abs_mul in Hv by (done || lia).
  assert (N < 2 ^ 1075) as HN.
  { subst N. destruct (Z.eqb_spec E 0).
    - apply Z.lt_le_trans with (2 ^ 53); [lia|]. apply Z.pow_le_mono_r; lia.
    - apply Z.lt_le_trans with (2 ^ 53 * 2 ^ E).
      + apply Z.mul_lt_mono_pos_r; [apply Z.pow_pos_nonneg|]; lia.
      + rewrite <- Z.pow_add_r by lia. apply Z.pow_le_mono_r; lia. }
  assert (0 < 2 ^ 1075) as HK by (apply Z.pow_pos_nonneg; lia). rewrite (Z.abs_eq (2 ^ 1075)) in Hv by lia.
  clearbody N. generalize dependent (2 ^ 1075). intros K Hv HN HK. destruct (decide (v = 0)); nia.
Qed.

(** The integer [+/- M * 2^k] of the last step. *)
Lemma from_float64_finish ctx s M k :
  bit s -> 0 <= M < 2 ^ 54 -> 0 <= k < 1024 ->
  gives ctx 17 (js_bigint_shl ctx (js_bigint_set_si64 (i64 (if negb (s =? 0) then u64 (- M) else M))) k)
    ((1 - 2 * s) * M * 2 ^ k).
Proof.
  intros Hs HM Hk. destruct (set_si64_signed s M Hs HM) as [Hw Hv]. cbn zeta in *.
  pose proof (shl_gives ctx _ k Hw ltac:(lia)) as HG. rewrite Hv, Z.shiftl_mul_pow2 in HG by lia.
  destruct (js_bigint_shl _ _ _) as [e|r]; [|exact HG]. destruct HG as [HG|[HG1 HG2]]; [by left|right].
  split; [done|]. unfold JS_LIMB_BITS in HG2. cbn [length js_bigint_set_si64 js_bigint_set_si] in HG2.
  eapply Z.lt_le_trans; [exact HG2|]. apply Nat2Z.inj_le. mod_lia.
Qed.

(** What [js_bigint_from_float64] finds out, for any double. *)
Lemma from_float64_spec ctx b :
  0 <= b < 2 ^ 64 ->
  match js_bigint_from_float64 ctx b with
  | (pres, None) => if pres =? 2 then f64_exp b = 2047 else pres = 1 /\ f64_exp b < 2047 /\ forall v, ~ f64_is b v
  | (pres, Some r) => pres = 0 /\ exists v, f64_is b v /\ gives ctx 17 r v
  end.
Proof.
  intros Hb. destruct (f64_fields b Hb) as (Hs & He & Hm). unfold js_bigint_from_float64.
  fold (f64_sign b) (f64_exp b) (f64_mant b). unfold f64_is, f64_scaled.
  set (s := f64_sign b) in *. set (E := f64_exp b) in *. set (m := f64_mant b) in *.
  destruct (Z.eqb_spec E 2047) as [->|HE]; [done|].
  destruct ((E =? 0) && (m =? 0)) eqn:Hz.
  { apply andb_true_iff in Hz as [->%Z.eqb_eq ->%Z.eqb_eq]. split; [done|]. exists 0. split.
    - split; [lia|]. cbn [Z.eqb]. lia.
    - apply new_si_gives; lia. }
  destruct (Z.ltb_spec (E - 1023) 0) as [Hsmall|Hbig].
  { cbn [Z.eqb]. split; [done|]. split; [lia|]. intros v [_ Hv]. revert Hv.
    apply small_not_integer; [done|lia|done|]. destruct (Z.eqb_spec E 0); cbn [andb] in Hz.
    - apply Z.eqb_neq in Hz. lia.
    - assert (0 < 2 ^ E) by (apply Z.pow_pos_nonneg; lia). nia. }
  destruct (Z.eqb_spec E 0); [lia|]. rewrite implicit_bit by done. set (M := 2 ^ 52 + m).
  assert (2 ^ 52 <= M < 2 ^ 53) as HM by (subst M; lia). clearbody M.
  destruct (Z.ltb_spec (E - 1023) 52) as [Hfrac|Hint].
  - set (sh := 52 - (E - 1023)). assert (0 <= sh <= 52) as Hsh by lia.
    assert (0 < 2 ^ sh) by (apply Z.pow_pos_nonneg; lia). assert (0 < 2 ^ E) by (apply Z.pow_pos_nonneg; lia).
    assert (2 ^ 1075 = 2 ^ sh * 2 ^ E) as -> by (rewrite <- Z.pow_add_r by lia; f_equal; lia).
    replace (Z.shiftl 1 sh - 1) with (Z.ones sh) by (rewrite Z.shiftl_1_l, Z.ones_equiv; lia).
    rewrite Z.land_ones by lia. pose proof (Z.div_mod M (2 ^ sh) ltac:(lia)) as Hdm.
    destruct (Z.eqb_spec (M mod 2 ^ sh) 0) as [Hr0|Hr0]; cbn [negb].
    + split; [done|]. rewrite Hr0 in Hdm. set (Q := M / 2 ^ sh) in *. exists ((1 - 2 * s) * Q). split.
      * split; [lia|]. rewrite Hdm. ring.
      * rewrite Z.shiftr_div_pow2 by lia. fold Q.
        assert (0 <= Q < 2 ^ 54) as HQ.
        { split; [apply Z.div_pos; lia|]. apply Z.div_lt_upper_bound; nia. }
        pose proof (from_float64_finish ctx s Q 0 Hs HQ ltac:(lia)) as HG. by rewrite Z.pow_0_r, Z.mul_1_r in HG.
    + cbn [Z.eqb]. split; [done|]. split; [lia|]. intros v [_ Hv]. apply Hr0.
      assert (v * 2 ^ sh = (1 - 2 * s) * M) as Hv'.
      { apply (Z.mul_cancel_r _ _ (2 ^ E)); [lia|]. rewrite <- Z.mul_assoc, Hv. ring. }
      apply Z.mod_divide; [lia|]. exists ((1 - 2 * s) * v). destruct Hs as [Hs|Hs]; rewrite Hs in *; lia.
  - split; [done|]. set (k := E - 1023 - 52). exists ((1 - 2 * s) * M * 2 ^ k). split.
    + split; [lia|]. replace E with (k + 1075) by lia. rewrite Z.pow_add_r by lia. ring.
    + apply from_float64_finish; [done|lia|lia].
Qed.

(** ** Comparison with a double *)

(** Magnitudes compare by exponent, then by mantissa. *)
Lemma mag_cmp_exp M E m :
  0 < M -> 0 <= E < 2047 -> 0 <= m < 2 ^ 52 ->
  let N := if E =? 0 then 2 * m else (2 ^ 52 + m) * 2 ^ E in
  (Z.log2 M < E - 1023 -> M * 2 ^ 1075 < N) /\ (E - 1023 < Z.log2 M -> N < M * 2 ^ 1075).
Proof.
  intros HM HE Hm N. pose proof (Z.log2_spec M HM) as [L1 L2]. pose proof (Z.log2_nonneg M).
  assert (0 < 2 ^ 1075) by (apply Z.pow_pos_nonneg; lia). set (f := Z.log2 M) in *. split; intros Hlt; subst N.
  - destruct (Z.eqb_spec E 0); [lia|].
    apply Z.lt_le_trans with (2 ^ Z.succ f * 2 ^ 1075); [by apply Z.mul_lt_mono_pos_r|].
    rewrite <- Z.pow_add_r by lia. apply Z.le_trans with (2 ^ 52 * 2 ^ E).
    + rewrite <- Z.pow_add_r by lia. apply Z.pow_le_mono_r; lia.
    + apply Z.mul_le_mono_nonneg_r; [apply Z.pow_nonneg|]; lia.
  - apply Z.lt_le_trans with (2 ^ f * 2 ^ 1075); [|by apply Z.mul_le_mono_nonneg_r; lia].
    rewrite <- Z.pow_add_r by lia. destruct (Z.eqb_spec E 0).
    + apply Z.lt_le_trans with (2 ^ 53); [lia|]. apply Z.pow_le_mono_r; lia.
    + apply Z.lt_le_trans with (2 ^ 53 * 2 ^ E); [apply Z.mul_lt_mono_pos_r; [apply Z.pow_pos_nonneg|]; lia|].
      rewrite <- Z.pow_add_r by lia. apply Z.pow_le_mono_r; lia.
Qed.

Lemma mag_cmp_mant M E m :
  0 < M -> 1 <= E < 2047 -> 0 <= m < 2 ^ 52 -> Z.log2 M = E - 1023 ->
  let f := Z.log2 M in
  let a_mant := Z.lor (M * B / 2 ^ (f + 1)) (b2z (negb (M * B mod 2 ^ (f + 1) =? 0))) in
  (a_mant ?= (2 ^ 52 + m) * 2048) = (M * 2 ^ 1075 ?= (2 ^ 52 + m) * 2 ^ E).
Proof.
  intros HM HE Hm Hf. cbn zeta. pose proof (Z.log2_nonneg M). set (f := Z.log2 M) in *. set (Y := (2 ^ 52 + m) * 2048).
  set (D := 2 ^ (f + 1)). assert (0 < D) as HD by (apply Z.pow_pos_nonneg; lia).
  assert (0 < 2 ^ 1011) as HK by (apply Z.pow_pos_nonneg; lia).
  assert ((M * 2 ^ 1075 ?= (2 ^ 52 + m) * 2 ^ E) = (M * B ?= Y * D)) as ->.
  { assert (M * 2 ^ 1075 = 2 ^ 1011 * (M * B)) as ->.
    { change B with (2 ^ 64). replace 1075 with (1011 + 64) by lia. rewrite Z.pow_add_r by lia. ring. }
    assert ((2 ^ 52 + m) * 2 ^ E = 2 ^ 1011 * (Y * D)) as ->.
    { subst Y D. replace E with (1011 + (11 + (f + 1))) by lia. rewrite !(Z.pow_add_r 2 _ (_ + _)) by lia.
      change 2048 with (2 ^ 11). ring. }
    symmetry. by apply Zmult_compare_compat_l, Z.lt_gt. }
  pose proof (Z.div_mod (M * B) D ltac:(lia)) as Hdm. pose proof (Z.mod_pos_bound (M * B) D HD) as Hmb.
  set (X := M * B / D) in *. set (R := (M * B) mod D) in *. rewrite lor_b2z_eq.
  assert (Y mod 2 = 0) as HY by (subst Y; mod_lia). clearbody X R Y D.
  destruct (Z.compare_spec X Y) as [->|Hlt|Hgt].
  - destruct (Z.eqb_spec R 0) as [->|HR]; cbn [negb].
    + destruct (Z.compare_spec Y Y), (Z.compare_spec (M * B) (Y * D)); try lia; done.
    + destruct (Z.compare_spec (2 * (Y / 2) + 1) Y), (Z.compare_spec (M * B) (Y * D)); try done; try mod_lia; lia.
  - assert (D * X + D <= D * Y) by nia.
    destruct (Z.eqb_spec R 0) as [->|HR]; cbn [negb].
    + destruct (Z.compare_spec X Y), (Z.compare_spec (M * B) (Y * D)); try done; lia.
    + destruct (Z.compare_spec (2 * (X / 2) + 1) Y), (Z.compare_spec (M * B) (Y * D)); try done; try mod_lia; lia.
  - assert (D * Y + D <= D * X) by nia.
    destruct (Z.eqb_spec R 0) as [->|HR]; cbn [negb].
    + destruct (Z.compare_spec X Y), (Z.compare_spec (M * B) (Y * D)); try done; lia.
    + destruct (Z.compare_spec (2 * (X / 2) + 1) Y), (Z.compare_spec (M * B) (Y * D)); try done; try mod_lia; lia.
Qed.

(** [-1], [0] or [1] as the integers compare. *)
Definition cmp_sign (x y : Z) : Z := match x ?= y with Lt => -1 | Eq => 0 | Gt => 1 end.

(** Both operands negative with different binary exponents: the case the code
    decides by the exponents alone, without the sign. *)
Definition neg_exp_differ (a : JSBigInt) (b : Z) : bool :=
  (bval a <? 0) && (f64_scaled b <? 0) && negb (Z.log2 (Z.abs (bval a)) =? f64_exp b - 1023).

Lemma float64_cmp_spec a b :
  bigint_wf a -> 0 <= b < 2 ^ 64 -> f64_exp b < 2047 ->
  js_bigint_float64_cmp a b =
  (if neg_exp_differ a b then -1 else 1) * cmp_sign (bval a * 2 ^ 1075) (f64_scaled b).
Proof.
  intros Ha Hb HE. destruct (f64_fields b Hb) as (Hs & He & Hm). pose proof Ha as (Hl & Hne & _).
  unfold js_bigint_float64_cmp, neg_exp_differ. fold (f64_sign b) (f64_exp b) (f64_mant b). unfold f64_scaled.
  pose proof (bval_sign a Hl Hne) as Hsa. pose proof (is_zero_spec a Ha) as Hiz.
  set (s := f64_sign b) in *. set (E := f64_exp b) in *. set (m := f64_mant b) in *.
  set (N := if E =? 0 then 2 * m else (2 ^ 52 + m) * 2 ^ E).
  assert (0 < 2 ^ 1075) as HK by (apply Z.pow_pos_nonneg; lia).
  destruct (Z.eqb_spec E 2047); [lia|].
  destruct ((E =? 0) && (m =? 0)) eqn:Hz.
  { apply andb_true_iff in Hz as [HE0%Z.eqb_eq Hm0%Z.eqb_eq].
    assert (N = 0) as -> by (subst N; rewrite HE0, Hm0; done). rewrite Z.mul_0_r, andb_false_r. cbn [andb].
    unfold cmp_sign. destruct (is_zero a).
    - rewrite (proj1 Hiz eq_refl). done.
    - assert (bval a <> 0) by (intros ?%Hiz; done). rewrite Hsa. generalize dependent (2 ^ 1075). intros K HK.
      destruct (Z.ltb_spec (bval a) 0), (Z.compare_spec (bval a * K) 0); try done; nia. }
  assert (0 < N) as HN.
  { subst N. destruct (Z.eqb_spec E 0); cbn [andb] in Hz; [apply Z.eqb_neq in Hz; lia|].
    assert (0 < 2 ^ E) by (apply Z.pow_pos_nonneg; lia). nia. }
  destruct (is_zero a) eqn:Hza.
  { rewrite (proj1 Hiz eq_refl). cbn [Z.ltb Z.compare andb]. unfold cmp_sign. rewrite Z.mul_0_l.
    destruct Hs as [-> | ->]; destruct (Z.compare_spec 0 ((1 - 2 * 0) * N)), (Z.compare_spec 0 ((1 - 2 * 1) * N)); lia. }
  assert (bval a <> 0) as Hnz by (intros ?%Hiz; done). rewrite Hsa.
  destruct (Z.eqb_spec (if bval a <? 0 then 1 else 0) s) as [Heq|Hdiff]; cbn [negb].
  2: { (* different signs *)
    assert ((bval a <? 0) && ((1 - 2 * s) * N <? 0) = false) as ->.
    { apply andb_false_iff. destruct (Z.ltb_spec (bval a) 0); [right|by left]. apply Z.ltb_ge. unfold bit in Hs. nia. }
    cbn [andb]. unfold cmp_sign. generalize dependent (2 ^ 1075). intros K HK.
    destruct (Z.ltb_spec (bval a) 0), Hs as [-> | ->]; try done;
      match goal with |- context [?x ?= ?y] => destruct (Z.compare_spec x y) end; try done; nia. }
  rewrite get_mant_exp_spec by done. cbn zeta. set (M := Z.abs (bval a)) in *. assert (0 < M) as HM by (subst M; lia).
  assert (bval a = (1 - 2 * s) * M) as HA by (subst M; rewrite <- Heq; case_bool; lia).
  assert (cmp_sign (bval a * 2 ^ 1075) ((1 - 2 * s) * N) = (1 - 2 * s) * cmp_sign (M * 2 ^ 1075) N) as ->.
  { rewrite HA. unfold cmp_sign. generalize dependent (2 ^ 1075). intros K HK.
    destruct Hs as [-> | ->]; destruct (Z.compare_spec (M * K) N);
      match goal with |- context [?x ?= ?y] => destruct (Z.compare_spec x y) end; lia. }
  assert ((bval a <? 0) && ((1 - 2 * s) * N <? 0) = negb (s =? 0)) as ->.
  { rewrite HA. destruct Hs as [-> | ->]; cbn [Z.eqb negb]; [apply andb_false_iff; left; apply Z.ltb_ge; lia|].
    apply andb_true_iff. rewrite !Z.ltb_lt. lia. }
  destruct (mag_cmp_exp M E m HM ltac:(lia) Hm) as [Hlt Hgt]. fold N in Hlt, Hgt. rewrite Heq.
  destruct (Z.eqb_spec (Z.log2 M) (E - 1023)) as [Hf|Hf]; cbn [negb].
  - pose proof (Z.log2_nonneg M). rewrite andb_false_r. rewrite implicit_bit by done.
    rewrite Z.shiftl_mul_pow2 by lia. change (2 ^ 11) with 2048.
    pose proof (mag_cmp_mant M E m HM ltac:(lia) Hm Hf) as HC. cbn zeta in HC.
    assert (N = (2 ^ 52 + m) * 2 ^ E) as -> by (subst N; destruct (Z.eqb_spec E 0); [lia|done]).
    unfold cmp_sign. rewrite <- HC. clear HC.
    match goal with |- context [?x ?= ?y] => destruct (Z.compare_spec x y) as [Hc|Hc|Hc] end;
      repeat case_bool; lia.
  - rewrite andb_true_r. unfold cmp_sign. destruct (Z.ltb_spec (Z.log2 M) (E - 1023)) as [Hc|Hc].
    + specialize (Hlt Hc). rewrite (proj2 (Z.compare_lt_iff _ _) Hlt). by destruct Hs as [-> | ->].
    + specialize (Hgt ltac:(lia)). rewrite (proj2 (Z.compare_gt_iff _ _) Hgt). by destruct Hs as [-> | ->].
Qed.

(** C35: a BigInt converts to the nearest double, ties to even, and to infinity
    beyond the range: the 64-bit mantissa with its sticky bit rounds as the
    exact integer does. *)
Theorem bigint_to_float64_correct (a : JSBigInt) (Ha : bigint_wf a) :
  js_bigint_to_float64 a = f64_of_Z (bval a).
Proof. by apply to_float64_spec. Qed.

(** [2^128 - 1] is half-way below [2^128]: it rounds up. *)
Lemma bigint_to_float64_correct_witness :
  js_bigint_to_float64 w_big = f64_pack 0 128 0 /\ js_bigint_to_float64 w_big = f64_of_Z (bval w_big).
Proof. split; [vm_compute; reflexivity|exact (bigint_to_float64_correct w_big w_big_wf)]. Defined.

(** C36: a double converts to a BigInt exactly when it is an integer: NaN and
    infinities are reported as 2, other non-integers as 1, and an integer gives
    its exact value (or a refused allocation). *)
Theorem bigint_from_float64_correct (ctx : JSContext) (b : Z) (Hb : 0 <= b < 2 ^ 64) :
  match js_bigint_from_float64 ctx b with
  | (pres, None) => if pres =? 2 then f64_exp b = 2047
                    else pres = 1 /\ f64_exp b < 2047 /\ forall v, ~ f64_is b v
  | (pres, Some r) => pres = 0 /\ exists v, f64_is b v /\ gives ctx 17 r v
  end.
Proof. by apply from_float64_spec. Qed.

(** [-2^100] as a double. *)
Definition w_m2_100 : Z := f64_pack 1 100 0.
Lemma bigint_from_float64_correct_witness :
  js_bigint_from_float64 ctx_ok w_m2_100 = (0, Some (inr [0; 2 ^ 64 - 2 ^ 36])) /\
  match js_bigint_from_float64 ctx_ok w_m2_100 with
  | (pres, Some r) => pres = 0 /\ exists v, f64_is w_m2_100 v /\ gives ctx_ok 17 r v
  | _ => False
  end.
Proof.
  split; [vm_compute; reflexivity|].
  exact (bigint_from_float64_correct ctx_ok w_m2_100 (conj (ltac:(vm_compute; discriminate) : 0 <= w_m2_100)
    (ltac:(vm_compute; reflexivity) : w_m2_100 < 2 ^ 64))).
Defined.

(** C37: comparison of a BigInt with a finite double: exact, except when both
    are negative and their binary exponents differ, where the answer is the
    opposite of the true order. *)
Theorem bigint_float64_cmp_exact_or_reversed (a : JSBigInt) (b : Z)
    (Ha : bigint_wf a) (Hb : 0 <= b < 2 ^ 64) (Hfin : f64_exp b < 2047) :
  js_bigint_float64_cmp a b =
  (if neg_exp_differ a b then -1 else 1) * cmp_sign (bval a * 2 ^ 1075) (f64_scaled b).
Proof. by apply float64_cmp_spec. Qed.

(** [-2^64] against [-2^100]: reported as smaller. *)
Definition w_m2_64 : JSBigInt := [0; 2 ^ 64 - 1].
Lemma w_m2_64_wf : bigint_wf w_m2_64.
Proof.
  split_and!; [|done|].
  - repeat constructor; try (split; [lia|done]); done.
  - apply (normalized_snoc []). done.
Qed.

Lemma bigint_float64_cmp_exact_or_reversed_witness :
  js_bigint_float64_cmp w_m2_64 w_m2_100 = -1 /\ f64_scaled w_m2_100 < bval w_m2_64 * 2 ^ 1075 /\
  js_bigint_float64_cmp w_m2_64 w_m2_100 =
  (if neg_exp_differ w_m2_64 w_m2_100 then -1 else 1) *
  cmp_sign (bval w_m2_64 * 2 ^ 1075) (f64_scaled w_m2_100).
Proof.
  split; [vm_compute; reflexivity|]. split; [vm_compute; reflexivity|].
  exact (bigint_float64_cmp_exact_or_reversed w_m2_64 w_m2_100 w_m2_64_wf
    (conj (ltac:(vm_compute; discriminate) : 0 <= w_m2_100) (ltac:(vm_compute; reflexivity) : w_m2_100 < 2 ^ 64))
    ltac:(vm_compute; reflexivity)).
Defined.
