(* ===== verification/Sort.v ===== *)
(** * Sorting: [rqsort] and [heapsortx] (cutils.c)

    The array is a list of elements of [size] bytes, a pointer
    [ptr + k * size] is the index [k], and [swap] and [swap_block] exchange
    elements (Exchange.v proves that the byte exchanges do exactly that).  An
    index outside the array, a push on a full stack and an exhausted loop bound
    are all [None], so a result is also a proof of memory safety and
    termination.  SortProps.v has the correctness proof. *)
From S2P Require Import Prelude.

#[local] Open Scope nat_scope.

(** ** The element level *)

Section Algorithms.
Context {A : Type} (cmp : A -> A -> Z).

(** The comparison of two array elements, and their exchange. *)
Definition cmp_at (l : list A) (i j : nat) : option Z :=
  x ← l !! i; y ← l !! j; Some (cmp x y).
Definition swap (l : list A) (i j : nat) : option (list A) :=
  x ← l !! i; y ← l !! j; Some (<[j:=x]> (<[i:=y]> l)).
Fixpoint swap_block (l : list A) (i j count : nat) : option (list A) :=
  match count with
  | O => Some l
  | S count => l ← swap l i j; swap_block l (S i) (S j) count
  end.

(** The inner loop of [heapsortx]: [r] sinks in the heap of [n] elements at
    [ptr]. *)
Fixpoint sift (fuel : nat) (l : list A) (ptr r n : nat) : option (list A) :=
  match fuel with
  | O => None
  | S fuel =>
      let c := r * 2 + 1 in
      if c <? n then
        c ← (if c <? n - 1 then
               k ← cmp_at l (ptr + c) (ptr + c + 1);
               Some (if (k <=? 0)%Z then c + 1 else c)
             else Some c);
        k ← cmp_at l (ptr + r) (ptr + c);
        if (0 <? k)%Z then Some l
        else l ← swap l (ptr + r) (ptr + c); sift fuel l ptr c n
      else Some l
  end.

(** [while (i > 0) { i -= size; sift }] *)
Fixpoint heap_build (i : nat) (l : list A) (ptr n : nat) : option (list A) :=
  match i with
  | O => Some l
  | S i => l ← sift (S n) l ptr i n; heap_build i l ptr n
  end.

(** [for (i = n - size; i > 0; i -= size) { swap(base, base + i); sift }] *)
Fixpoint heap_extract (i : nat) (l : list A) (ptr : nat) : option (list A) :=
  match i with
  | O => Some l
  | S i' =>
      l ← swap l ptr (ptr + i);
      l ← sift (S i) l ptr 0 i;
      heap_extract i' l ptr
  end.

Definition heapsortx (l : list A) (ptr nmemb : nat) : option (list A) :=
  if 1 <? nmemb then
    l ← heap_build (nmemb / 2) l ptr nmemb;
    heap_extract (nmemb - 1) l ptr
  else Some l.

(** The index of the median of three elements. *)
Definition med3 (l : list A) (a b c : nat) : option nat :=
  ab ← cmp_at l a b;
  bc ← cmp_at l b c;
  if (ab <? 0)%Z then
    if (bc <? 0)%Z then Some b
    else ac ← cmp_at l a c; Some (if (ac <? 0)%Z then c else a)
  else
    if (0 <? bc)%Z then Some b
    else ac ← cmp_at l a c; Some (if (ac <? 0)%Z then a else c).

(** The partition loop.  [i], [lt], [gt] are the source's counters, which it
    also keeps as pointers [pi], [plt], [pgt] ([pi = ptr + i * size], ...); [j]
    is [pj] relative to [ptr].  First the scan from the left. *)
Fixpoint scan_left (fuel : nat) (l : list A) (ptr i lt j : nat) : option (list A * nat * nat) :=
  match fuel with
  | O => None
  | S fuel =>
      if i <? j then
        c ← cmp_at l ptr (ptr + i);
        if (0 <=? c)%Z then
          if (c =? 0)%Z then
            l ← swap l (ptr + lt) (ptr + i);
            scan_left fuel l ptr (S i) (S lt) j
          else scan_left fuel l ptr (S i) lt j
        else Some (l, i, lt)
      else Some (l, i, lt)
  end.

(** The scan from the right: [pj] is decremented before each test. *)
Fixpoint scan_right (fuel : nat) (l : list A) (ptr i j gt : nat) : option (list A * nat * nat) :=
  match fuel with
  | O => None
  | S fuel =>
      let j := j - 1 in
      if i <? j then
        c ← cmp_at l ptr (ptr + j);
        if (c <=? 0)%Z then
          if (c =? 0)%Z then
            let gt := gt - 1 in
            l ← swap l (ptr + gt) (ptr + j);
            scan_right fuel l ptr i j gt
          else scan_right fuel l ptr i j gt
        else Some (l, j, gt)
      else Some (l, j, gt)
  end.

(** The [for(;;)] around the two scans; the result is [(l, i, lt, gt)]. *)
Fixpoint partition_loop (fuel : nat) (l : list A) (ptr i lt j gt : nat) :
    option (list A * nat * nat * nat) :=
  match fuel with
  | O => None
  | S fuel =>
      '(l, i, lt) ← scan_left (S (j - i)) l ptr i lt j;
      '(l, j, gt) ← scan_right (S (j - i)) l ptr i j gt;
      if j <=? i then Some (l, i, lt, gt)
      else
        l ← swap l (ptr + i) (ptr + j);
        partition_loop fuel l ptr (S i) lt j gt
  end.

(** One pass on [nmemb] elements at [ptr]: pivot selection, partition, and the
    two block exchanges that bring the elements equal to the pivot to the
    middle.  The result is [(l, lt, gt)]. *)
Definition partition (l : list A) (ptr nmemb : nat) : option (list A * nat * nat) :=
  let m4 := nmemb / 4 in
  m ← med3 l (ptr + m4) (ptr + 2 * m4) (ptr + 3 * m4);
  l ← swap l ptr m;
  '(l, i, lt, gt) ← partition_loop nmemb l ptr 1 1 nmemb nmemb;
  let span := if i - lt <? lt then i - lt else lt in
  let lt := i - lt in
  l ← swap_block l ptr (ptr + i - span) span;
  let span := nmemb - gt in
  let span2 := gt - i in
  let gt := nmemb - (gt - i) in
  let span := if span2 <? span then span2 else span in
  l ← swap_block l (ptr + i) (ptr + nmemb - span) span;
  Some (l, lt, gt).

(** An entry of the local stack, and its capacity. *)
Record segment := mk_segment { seg_base : nat; seg_count : nat; seg_depth : nat }.
Definition stack_size : nat := 50.
Definition push (st : list segment) (s : segment) : option (list segment) :=
  if length st <? stack_size then Some (s :: st) else None.

(** [while (nmemb > 6)]: the result is the array, the stack, and the segment
    left to the insertion sort. *)
Fixpoint quick_loop (fuel : nat) (l : list A) (st : list segment) (ptr nmemb depth : nat) :
    option (list A * list segment * nat * nat) :=
  match fuel with
  | O => None
  | S fuel =>
      if 6 <? nmemb then
        let depth := S depth in
        if 50 <? depth then
          l ← heapsortx l ptr nmemb;
          Some (l, st, ptr, 0)
        else
          '(l, lt, gt) ← partition l ptr nmemb;
          if nmemb - gt <? lt then
            st ← push st (mk_segment ptr lt depth);
            quick_loop fuel l st (ptr + gt) (nmemb - gt) depth
          else
            st ← push st (mk_segment (ptr + gt) (nmemb - gt) depth);
            quick_loop fuel l st ptr lt depth
      else Some (l, st, ptr, nmemb)
  end.

(** [for (pj = pi; pj > ptr && cmp(pj - size, pj) > 0; pj -= size) swap(pj, pj - size)] *)
Fixpoint insert_loop (j : nat) (l : list A) (ptr : nat) : option (list A) :=
  match j with
  | O => Some l
  | S j' =>
      c ← cmp_at l (ptr + j') (ptr + j);
      if (0 <? c)%Z then
        l ← swap l (ptr + j) (ptr + j');
        insert_loop j' l ptr
      else Some l
  end.
Fixpoint insertion_loop (todo i : nat) (l : list A) (ptr : nat) : option (list A) :=
  match todo with
  | O => Some l
  | S todo => l ← insert_loop i l ptr; insertion_loop todo (S i) l ptr
  end.

(** [while (sp > stack)] *)
Fixpoint rqsort_loop (fuel : nat) (l : list A) (st : list segment) : option (list A) :=
  match fuel with
  | O => None
  | S fuel =>
      match st with
      | [] => Some l
      | s :: st =>
          '(l, st, ptr, nmemb) ← quick_loop (S (seg_count s)) l st (seg_base s) (seg_count s) (seg_depth s);
          l ← insertion_loop (nmemb - 1) 1 l ptr;
          rqsort_loop fuel l st
      end
  end.

Definition rqsort (l : list A) (nmemb size : nat) : option (list A) :=
  if (nmemb <? 2) || (size <=? 0) then Some l
  else
    st ← push [] (mk_segment 0 nmemb 0);
    rqsort_loop (nmemb + 2) l st.

End Algorithms.

(** ** Exchanges and permutations *)
Section Permutations.
Context {A : Type}.
Implicit Types l : list A.

Lemma swap_spec l i j :
  i < length l -> j < length l ->
  exists l', swap l i j = Some l' /\ length l' = length l /\
    forall k, l' !! k = if decide (k = j) then l !! i else if decide (k = i) then l !! j else l !! k.
Proof.
  intros [x Hx]%lookup_lt_is_Some_2 [y Hy]%lookup_lt_is_Some_2.
  unfold swap. rewrite Hx; cbn; rewrite Hy; cbn. eexists. split; [done|].
  split; [by rewrite !length_insert|]. intros k.
  pose proof (lookup_lt_Some _ _ _ Hx). pose proof (lookup_lt_Some _ _ _ Hy).
  case_decide as Hk; [subst k; by rewrite list_lookup_insert_eq by (rewrite length_insert; lia)|].
  rewrite list_lookup_insert_ne by done. case_decide as Hk'; [subst k|].
  - apply list_lookup_insert_eq. lia.
  - by rewrite list_lookup_insert_ne.
Qed.

Lemma swap_lookup l l' i j k :
  swap l i j = Some l' ->
  l' !! k = if decide (k = j) then l !! i else if decide (k = i) then l !! j else l !! k.
Proof.
  intros H. assert (i < length l /\ j < length l) as [Hi Hj].
  { unfold swap in H. destruct (l !! i) eqn:Ei; [|done]. cbn in H.
    destruct (l !! j) eqn:Ej; [|done]. split; by eapply lookup_lt_Some. }
  destruct (swap_spec l i j Hi Hj) as (l1 & H1 & _ & H2). by simplify_eq.
Qed.

Lemma swap_length l l' i j : swap l i j = Some l' -> length l' = length l.
Proof.
  unfold swap. destruct (l !! i); [|done]. destruct (l !! j); [|done]. cbn. intros [= <-].
  by rewrite !length_insert.
Qed.

Lemma swap_perm l l' i j : swap l i j = Some l' -> l' ≡ₚ l.
Proof.
  intros H. apply Permutation_inj. split; [by eapply swap_length|].
  exists (fun k => if decide (k = j) then i else if decide (k = i) then j else k).
  split; [intros a b; repeat case_decide; lia|].
  intros k. rewrite (swap_lookup _ _ _ _ _ H). repeat case_decide; done.
Qed.

(** [perm_in lo hi l l']: [l'] is [l] after exchanges inside [lo, hi). *)
Inductive perm_in (lo hi : nat) : list A -> list A -> Prop :=
| perm_refl l : perm_in lo hi l l
| perm_step l l1 l2 i j :
    lo <= i < hi -> lo <= j < hi -> swap l i j = Some l1 -> perm_in lo hi l1 l2 -> perm_in lo hi l l2.

Lemma perm_in_swap lo hi l l' i j :
  lo <= i < hi -> lo <= j < hi -> swap l i j = Some l' -> perm_in lo hi l l'.
Proof. intros Hi Hj Hs. exact (perm_step lo hi _ _ _ i j Hi Hj Hs (perm_refl _ _ _)). Qed.

Lemma perm_in_trans lo hi l1 l2 l3 : perm_in lo hi l1 l2 -> perm_in lo hi l2 l3 -> perm_in lo hi l1 l3.
Proof.
  induction 1 as [|??? i j Hi Hj H _ IH]; [done|]. intros H3. exact (perm_step _ _ _ _ _ i j Hi Hj H (IH H3)).
Qed.

Lemma perm_in_mono lo hi lo' hi' l l' :
  perm_in lo hi l l' -> lo' <= lo -> hi <= hi' -> perm_in lo' hi' l l'.
Proof.
  induction 1 as [|??? i j Hi Hj H _ IH]; intros Hlo Hhi; [constructor|].
  apply (perm_step _ _ _ l1 _ i j); [lia..|exact H|auto].
Qed.

Lemma perm_in_length lo hi l l' : perm_in lo hi l l' -> length l' = length l.
Proof. induction 1 as [|??????? H _ IH]; [done|]. rewrite IH. by eapply swap_length. Qed.

Lemma perm_in_perm lo hi l l' : perm_in lo hi l l' -> l' ≡ₚ l.
Proof. induction 1 as [|??????? H _ IH]; [done|]. rewrite IH. by eapply swap_perm. Qed.

Lemma perm_in_frame lo hi l l' k : perm_in lo hi l l' -> k < lo \/ hi <= k -> l' !! k = l !! k.
Proof.
  induction 1 as [|??????? H _ IH]; intros Hk; [done|]. rewrite IH by done.
  rewrite (swap_lookup _ _ _ _ _ H). repeat case_decide; done || lia.
Qed.

(** Every element of [lo, hi) satisfies [P]. *)
Definition all_in (P : A -> Prop) l (lo hi : nat) : Prop :=
  forall i x, lo <= i < hi -> l !! i = Some x -> P x.

Lemma perm_in_all P lo hi a b l l' :
  perm_in lo hi l l' -> a <= lo -> hi <= b -> all_in P l a b -> all_in P l' a b.
Proof.
  induction 1 as [|??????? H _ IH]; intros Ha Hb HP; [done|]. apply IH; [done..|].
  intros k x Hk. rewrite (swap_lookup _ _ _ _ _ H).
  repeat case_decide; intros Hx; eapply HP; [|exact Hx| |exact Hx| |exact Hx]; lia.
Qed.

Lemma perm_in_all_frame P lo hi a b l l' :
  perm_in lo hi l l' -> b <= lo \/ hi <= a -> all_in P l a b -> all_in P l' a b.
Proof. intros H Hab HP k x Hk Hx. eapply HP; [exact Hk|]. rewrite <- Hx. symmetry. eapply perm_in_frame; [done|lia]. Qed.

Lemma all_in_mono (P Q : A -> Prop) l a b : (forall x, P x -> Q x) -> all_in P l a b -> all_in Q l a b.
Proof. intros H HP k x Hk Hx. eauto. Qed.

Lemma all_in_snoc (P : A -> Prop) l a b x :
  all_in P l a b -> l !! b = Some x -> P x -> all_in P l a (S b).
Proof.
  intros HP Hx Px k y Hk Hy. destruct (decide (k = b)) as [->|]; [by simplify_eq|].
  apply (HP k); [lia|done].
Qed.
Lemma all_in_cons (P : A -> Prop) l a b x :
  all_in P l (S a) b -> l !! a = Some x -> P x -> all_in P l a b.
Proof.
  intros HP Hx Px k y Hk Hy. destruct (decide (k = a)) as [->|]; [by simplify_eq|].
  apply (HP k); [lia|done].
Qed.
Lemma all_in_nil (P : A -> Prop) l a b : b <= a -> all_in P l a b.
Proof. intros ? k x ?. lia. Qed.

Lemma swap_block_spec l i j count :
  i + count <= j -> j + count <= length l ->
  exists l', swap_block l i j count = Some l' /\ perm_in i (j + count) l l' /\
    forall k, l' !! k = if decide (i <= k < i + count) then l !! (k - i + j)
                        else if decide (j <= k < j + count) then l !! (k - j + i) else l !! k.
Proof.
  revert l i j. induction count as [|count IH]; intros l i j Hij Hj; cbn [swap_block].
  - exists l. split; [done|]. split; [constructor|]. intros k. repeat case_decide; lia || done.
  - destruct (swap_spec l i j) as (l1 & E1 & Hl1 & H1); [lia..|]. rewrite E1. cbn.
    destruct (IH l1 (S i) (S j)) as (l2 & E2 & Hp & H2); [lia..|]. exists l2. split; [done|]. split.
    + eapply perm_step; [| |exact E1|]; [lia..|]. eapply perm_in_mono; [exact Hp|lia..].
    + intros k. rewrite H2, !H1. repeat case_decide; try lia; try (f_equal; lia); done.
Qed.

(** The block exchange of [u] elements of one kind with the [v] following ones
    of another. *)
Lemma swap_block_rotate (P Q : A -> Prop) l a u v span :
  a + u + v <= length l -> span = Nat.min u v ->
  all_in P l a (a + u) -> all_in Q l (a + u) (a + u + v) ->
  exists l', swap_block l a (a + u + v - span) span = Some l' /\ perm_in a (a + u + v) l l' /\
    all_in Q l' a (a + v) /\ all_in P l' (a + v) (a + u + v).
Proof.
  intros Hl -> HP HQ. destruct (swap_block_spec l a (a + u + v - u `min` v) (u `min` v)) as (l' & E & Hp & H); [lia..|].
  exists l'. split; [done|]. split; [eapply perm_in_mono; [exact Hp|lia..]|].
  split; intros k x Hk; rewrite H; repeat case_decide; intros Hx;
    first [eapply HQ; [|exact Hx]; lia | eapply HP; [|exact Hx]; lia | lia].
Qed.
End Permutations.

Lemma cmp_at_Some {A} (cmp : A -> A -> Z) (l : list A) i j x y :
  l !! i = Some x -> l !! j = Some y -> cmp_at cmp l i j = Some (cmp x y).
Proof. intros Hx Hy. unfold cmp_at. by rewrite Hx; cbn; rewrite Hy. Qed.

(** Reduce the option monad's bind on a known result. *)
Ltac bind := cbn [base.mbind option_bind].
