(* ===== verification/SortProps.v ===== *)
(** * Correctness of [rqsort]

    Heap sort, the three-way partition, the insertion sort and their driver:
    for every comparison function the run ends, stays inside the array and the
    stack, and permutes; for a comparison that is a total preorder the result
    is sorted. *)
From Stdlib Require Import Sorted.
From S2P Require Import Prelude Sort.

#[local] Open Scope nat_scope.

(** The comparison functions for which sorting means something: the sign of
    [cmp] is that of a total preorder. *)
Class CmpOrder {A : Type} (cmp : A -> A -> Z) : Prop := {
  cmp_sym : forall x y, Z.sgn (cmp x y) = (- Z.sgn (cmp y x))%Z;
  cmp_trans : forall x y z, (cmp x y <= 0 -> cmp y z <= 0 -> cmp x z <= 0)%Z
}.

Section Correctness.
Context {A : Type} (cmp : A -> A -> Z).
Implicit Types l : list A.

Definition le (x y : A) : Prop := (cmp x y <= 0)%Z.

(** The elements at [i] and [j] are in order. *)
Definition le_at l (i j : nat) : Prop :=
  forall x y, l !! i = Some x -> l !! j = Some y -> le x y.
(** The elements of [lo, hi) are in order. *)
Definition sorted_in l (lo hi : nat) : Prop :=
  forall i j, lo <= i -> i < j -> j < hi -> le_at l i j.

Lemma le_of_sgn `{!CmpOrder cmp} x y : (0 <= cmp x y)%Z -> le y x.
Proof. unfold le. pose proof (cmp_sym x y). lia. Qed.
Lemma cmp_refl `{!CmpOrder cmp} x : cmp x x = 0%Z.
Proof. pose proof (cmp_sym x x). lia. Qed.
Lemma le_at_trans `{!CmpOrder cmp} l i j k y :
  l !! j = Some y -> le_at l i j -> le_at l j k -> le_at l i k.
Proof. intros Hy H1 H2 x z Hx Hz. eapply cmp_trans; [by apply H1|by apply H2]. Qed.

(** ** Insertion sort *)

(** All pairs of the first [i + 1] elements are in order, but those whose
    second is the element being inserted, at [j]. *)
Definition inserting l (ptr i j : nat) : Prop :=
  forall a b, a < b -> b <= i -> b <> j -> le_at l (ptr + a) (ptr + b).

Lemma insert_loop_spec j l ptr i :
  j <= i -> ptr + i < length l ->
  exists l', insert_loop cmp j l ptr = Some l' /\ perm_in ptr (ptr + S i) l l' /\
    (CmpOrder cmp -> inserting l ptr i j -> sorted_in l' ptr (ptr + S i)).
Proof.
  revert l. induction j as [|j IH]; intros l Hj Hl; cbn [insert_loop].
  - exists l. split; [done|]. split; [constructor|]. intros _ H a b Ha Hab Hb.
    specialize (H (a - ptr) (b - ptr) ltac:(lia) ltac:(lia) ltac:(lia)).
    by replace (ptr + (a - ptr)) with a in H by lia; replace (ptr + (b - ptr)) with b in H by lia.
  - destruct (lookup_lt_is_Some_2 l (ptr + j)) as [x Hx]; [lia|].
    destruct (lookup_lt_is_Some_2 l (ptr + S j)) as [y Hy]; [lia|].
    rewrite (cmp_at_Some cmp _ _ _ _ _ Hx Hy). bind.
    destruct (Z.ltb_spec 0 (cmp x y)) as [Hc|Hc].
    + destruct (swap_spec l (ptr + S j) (ptr + j)) as (l1 & E1 & Hl1 & H1); [lia..|].
      rewrite E1. bind. destruct (IH l1) as (l2 & -> & Hp & Hs); [lia..|]. exists l2. split; [done|]. split.
      * eapply (perm_step _ _ _ _ _ (ptr + S j) (ptr + j)); [lia..|done|done].
      * intros Ho Hins. apply Hs; [done|]. intros a b Hab Hb Hne u v. rewrite !H1.
        repeat case_decide; try lia; intros Hu Hv.
        -- simplify_eq. unfold le. pose proof (cmp_sym x y). lia.
        -- apply (Hins (S j) b ltac:(lia) Hb ltac:(lia)); done.
        -- apply (Hins j b ltac:(lia) Hb ltac:(lia)); done.
        -- apply (Hins a j ltac:(lia) ltac:(lia) ltac:(lia)); done.
        -- apply (Hins a b); done || lia.
    + exists l. split; [done|]. split; [constructor|]. intros Ho Hins a b Ha Hab Hb.
      destruct (decide (b = ptr + S j)) as [->|Hne].
      * destruct (decide (a = ptr + j)) as [->|]; [intros ????; by simplify_eq|].
        eapply (le_at_trans _ _ (ptr + j)); [exact Hx| |intros ????; by simplify_eq].
        specialize (Hins (a - ptr) j ltac:(lia) ltac:(lia) ltac:(lia)).
        by replace (ptr + (a - ptr)) with a in Hins by lia.
      * specialize (Hins (a - ptr) (b - ptr) ltac:(lia) ltac:(lia) ltac:(lia)).
        by replace (ptr + (a - ptr)) with a in Hins by lia; replace (ptr + (b - ptr)) with b in Hins by lia.
Qed.

Lemma insertion_loop_spec todo i l ptr :
  ptr + i + todo <= length l ->
  exists l', insertion_loop cmp todo i l ptr = Some l' /\ perm_in ptr (ptr + i + todo) l l' /\
    (CmpOrder cmp -> sorted_in l ptr (ptr + i) -> sorted_in l' ptr (ptr + i + todo)).
Proof.
  revert i l. induction todo as [|todo IH]; intros i l Hl; cbn [insertion_loop].
  - exists l. rewrite Nat.add_0_r. split; [done|]. split; [constructor|done].
  - destruct (insert_loop_spec i l ptr i) as (l1 & -> & Hp1 & Hs1); [lia..|]. bind.
    pose proof (perm_in_length _ _ _ _ Hp1).
    destruct (IH (S i) l1) as (l2 & -> & Hp2 & Hs2); [lia|].
    replace (ptr + S i + todo) with (ptr + i + S todo) in * by lia.
    exists l2. split; [done|]. split.
    + eapply perm_in_trans; [|exact Hp2]. eapply perm_in_mono; [exact Hp1|lia..].
    + intros Ho Hs. apply Hs2; [done|]. apply Hs1; [done|]. intros a b Hab Hb Hne.
      apply Hs; lia.
Qed.

(** ** Heap sort *)

(** Heap order of the [n] elements at [ptr], for the parents from [lo] on. *)
Definition heap_edge l (ptr p k : nat) : Prop := le_at l (ptr + k) (ptr + p).
Definition heap l (ptr lo n : nat) : Prop :=
  forall k, 0 < k < n -> lo <= (k - 1) / 2 -> heap_edge l ptr ((k - 1) / 2) k.
(** The same, when the element at [r] may be too small for its place: it is
    exempt as a parent, and its children are compared with its own parent. *)
Definition heap_but l (ptr lo r n : nat) : Prop :=
  (forall k, 0 < k < n -> lo <= (k - 1) / 2 -> (k - 1) / 2 <> r -> heap_edge l ptr ((k - 1) / 2) k) /\
  (forall k, 0 < k < n -> (k - 1) / 2 = r -> 0 < r -> lo <= (r - 1) / 2 -> heap_edge l ptr ((r - 1) / 2) k).

(** The larger child, as [sift] selects it. *)
Lemma sift_child l ptr r n :
  ptr + n <= length l -> r * 2 + 1 < n ->
  exists c, (if r * 2 + 1 <? n - 1 then
               k ← cmp_at cmp l (ptr + (r * 2 + 1)) (ptr + (r * 2 + 1) + 1);
               Some (if (k <=? 0)%Z then r * 2 + 1 + 1 else r * 2 + 1)
             else Some (r * 2 + 1)) = Some c /\
    c < n /\ (c = 2 * r + 1 \/ c = 2 * r + 2) /\
    (CmpOrder cmp -> forall k, 0 < k < n -> (k - 1) / 2 = r -> le_at l (ptr + k) (ptr + c)).
Proof.
  intros Hl Hr.
  assert (forall k, 0 < k -> (k - 1) / 2 = r -> k = 2 * r + 1 \/ k = 2 * r + 2) as Hkid.
  { intros k Hk Hd. pose proof (Nat.div_mod_eq (k - 1) 2). pose proof (Nat.mod_upper_bound (k - 1) 2). lia. }
  assert (CmpOrder cmp -> forall i, le_at l i i) as Hrefl.
  { intros Ho i x y ??. simplify_eq. unfold le. by rewrite cmp_refl. }
  destruct (Nat.ltb_spec (r * 2 + 1) (n - 1)).
  - destruct (lookup_lt_is_Some_2 l (ptr + (r * 2 + 1))) as [x Hx]; [lia|].
    destruct (lookup_lt_is_Some_2 l (ptr + (r * 2 + 1) + 1)) as [y Hy]; [lia|].
    rewrite (cmp_at_Some cmp _ _ _ _ _ Hx Hy). bind.
    destruct (Z.leb_spec (cmp x y) 0) as [Hc|Hc]; (eexists; split; [done|]; split; [lia|]; split; [lia|]);
      intros Ho k Hk Hd; destruct (Hkid k ltac:(lia) Hd) as [->| ->].
    + intros u v Hu Hv. replace (ptr + (2 * r + 1)) with (ptr + (r * 2 + 1)) in Hu by lia.
      replace (ptr + (r * 2 + 1 + 1)) with (ptr + (r * 2 + 1) + 1) in Hv by lia. by simplify_eq.
    + replace (2 * r + 2) with (r * 2 + 1 + 1) by lia. by apply Hrefl.
    + replace (2 * r + 1) with (r * 2 + 1) by lia. by apply Hrefl.
    + intros u v Hu Hv. replace (ptr + (2 * r + 2)) with (ptr + (r * 2 + 1) + 1) in Hu by lia.
      simplify_eq. apply le_of_sgn. lia.
  - eexists. split; [done|]. split; [lia|]. split; [lia|]. intros Ho k Hk Hd.
    destruct (Hkid k ltac:(lia) Hd) as [->| ->]; [|lia].
    replace (2 * r + 1) with (r * 2 + 1) by lia. by apply Hrefl.
Qed.

(** One exchange on the way down. *)
Lemma heap_but_sink `{!CmpOrder cmp} l l' ptr lo r c n :
  swap l (ptr + r) (ptr + c) = Some l' ->
  c < n -> lo <= r -> (c - 1) / 2 = r -> r < c -> le_at l (ptr + r) (ptr + c) ->
  (forall k, 0 < k < n -> (k - 1) / 2 = r -> le_at l (ptr + k) (ptr + c)) ->
  heap_but l ptr lo r n -> heap_but l' ptr lo c n.
Proof.
  intros E Hc Hlo Hp Hrc Hle Hmax [H1 H2].
  assert (forall k, 0 < k -> (k - 1) / 2 < k) as Hpar by (intros; apply Nat.Div0.div_lt_upper_bound; lia).
  pose proof (fun k => swap_lookup _ _ _ _ k E) as H. split.
  - intros k Hk Hlk Hne u v. rewrite !H. pose proof (Hpar k).
    repeat case_decide; try lia; intros Hu Hv.
    + by apply Hle.
    + destruct (decide (k = r)) as [->|]; [|lia]. apply (H2 c ltac:(lia) Hp ltac:(lia) Hlk); done.
    + apply (Hmax k Hk ltac:(lia)); done.
    + apply (H1 k Hk Hlk ltac:(lia)); done.
  - intros k Hk Hkc Hc0 Hlc u v. rewrite Hp, !H. pose proof (Hpar k).
    repeat case_decide; try lia; intros Hu Hv.
    rewrite <- Hkc in Hv. apply (H1 k Hk ltac:(lia) ltac:(lia)); done.
Qed.

Lemma sift_spec fuel l ptr lo r n :
  ptr + n <= length l -> lo <= r -> n - r < fuel ->
  exists l', sift cmp fuel l ptr r n = Some l' /\ perm_in (ptr + lo) (ptr + n) l l' /\
    (CmpOrder cmp -> heap_but l ptr lo r n -> heap l' ptr lo n).
Proof.
  revert l r. induction fuel as [|fuel IH]; intros l r Hl Hlo Hf; [lia|]. cbn [sift].
  destruct (Nat.ltb_spec (r * 2 + 1) n) as [Hc|Hc].
  2:{ exists l. split; [done|]. split; [constructor|]. intros Ho [H _] k Hk Hlk. apply H; [done..|].
      intros Hd. pose proof (Nat.div_mod_eq (k - 1) 2). pose proof (Nat.mod_upper_bound (k - 1) 2). lia. }
  destruct (sift_child l ptr r n Hl Hc) as (c & -> & Hcn & Hcr & Hmax). bind.
  assert ((c - 1) / 2 = r) as Hpar.
  { symmetry. destruct Hcr as [->| ->]; [apply (Nat.div_unique _ _ _ 0)|apply (Nat.div_unique _ _ _ 1)]; lia. }
  destruct (lookup_lt_is_Some_2 l (ptr + r)) as [x Hx]; [lia|].
  destruct (lookup_lt_is_Some_2 l (ptr + c)) as [y Hy]; [lia|].
  rewrite (cmp_at_Some cmp _ _ _ _ _ Hx Hy). bind.
  destruct (Z.ltb_spec 0 (cmp x y)) as [Hk|Hk].
  - exists l. split; [done|]. split; [constructor|]. intros Ho [H _] k Hkn Hlk.
    destruct (decide ((k - 1) / 2 = r)) as [Hd|Hd]; [|by apply H]. rewrite Hd.
    eapply (le_at_trans _ _ (ptr + c)); [done|by apply Hmax|].
    intros u v Hu Hv. simplify_eq. apply le_of_sgn. lia.
  - destruct (swap_spec l (ptr + r) (ptr + c)) as (l1 & E1 & Hl1 & _); [lia..|]. rewrite E1. bind.
    destruct (IH l1 c) as (l2 & -> & Hp & Hh); [lia..|]. exists l2. split; [done|]. split.
    + apply (perm_step _ _ _ l1 _ (ptr + r) (ptr + c)); [lia..|done|done].
    + intros Ho Hb. apply Hh; [done|]. eapply (heap_but_sink l); [done..|lia|done|lia| |by apply Hmax|done].
      intros ????. by simplify_eq.
Qed.

Lemma heap_build_spec i l ptr n :
  ptr + n <= length l -> i <= n ->
  exists l', heap_build cmp i l ptr n = Some l' /\ perm_in ptr (ptr + n) l l' /\
    (CmpOrder cmp -> heap l ptr i n -> heap l' ptr 0 n).
Proof.
  revert l. induction i as [|i IH]; intros l Hl Hi; cbn [heap_build].
  - exists l. split; [done|]. split; [constructor|done].
  - destruct (sift_spec (S n) l ptr i i n) as (l1 & -> & Hp1 & Hh1); [lia..|]. bind.
    pose proof (perm_in_length _ _ _ _ Hp1).
    destruct (IH l1) as (l2 & -> & Hp2 & Hh2); [lia..|]. exists l2. split; [done|]. split.
    + eapply perm_in_trans; [|exact Hp2]. eapply perm_in_mono; [exact Hp1|lia..].
    + intros Ho Hh. apply Hh2; [done|]. apply Hh1; [done|]. split; [intros; apply Hh; lia|].
      intros k Hk Hki Hi0 Hle.
      assert ((i - 1) / 2 < i) by (apply Nat.Div0.div_lt_upper_bound; lia). lia.
Qed.

Lemma heap_max `{!CmpOrder cmp} l ptr n k :
  heap l ptr 0 n -> ptr + n <= length l -> k < n -> le_at l (ptr + k) ptr.
Proof.
  intros Hh Hl. induction k as [k IH] using lt_wf_ind. intros Hk.
  destruct (decide (k = 0)) as [->|].
  - rewrite Nat.add_0_r. intros x y ??. simplify_eq. unfold le. by rewrite cmp_refl.
  - assert ((k - 1) / 2 < k) by (apply Nat.Div0.div_lt_upper_bound; lia).
    destruct (lookup_lt_is_Some_2 l (ptr + (k - 1) / 2)) as [z Hz]; [lia|].
    eapply le_at_trans; [exact Hz|apply Hh; lia|apply IH; lia].
Qed.

(** Every pair whose second element lies beyond [i] is in order. *)
Definition tail_sorted l (ptr i n : nat) : Prop :=
  forall a b, a < b -> b < n -> i < b -> le_at l (ptr + a) (ptr + b).

(** Exchanges below [i] keep it. *)
Lemma tail_sorted_perm l l' ptr i n :
  perm_in ptr (ptr + S i) l l' -> tail_sorted l ptr i n -> tail_sorted l' ptr i n.
Proof.
  intros Hp Ht a b Hab Hb Hi x y Hx Hy.
  rewrite (perm_in_frame _ _ _ _ _ Hp) in Hy by lia.
  destruct (decide (a <= i)).
  - refine (perm_in_all (fun x => le x y) _ _ ptr (ptr + S i) _ _ Hp _ _ _ (ptr + a) x _ Hx); [lia..| |lia].
    intros k z Hk Hz. refine (Ht (k - ptr) b _ _ _ z y _ Hy); [lia..|]. by replace (ptr + (k - ptr)) with k by lia.
  - rewrite (perm_in_frame _ _ _ _ _ Hp) in Hx by lia. exact (Ht a b Hab Hb Hi x y Hx Hy).
Qed.

Lemma heap_extract_spec i l ptr n :
  ptr + n <= length l -> i < n ->
  exists l', heap_extract cmp i l ptr = Some l' /\ perm_in ptr (ptr + n) l l' /\
    (CmpOrder cmp -> heap l ptr 0 (S i) -> tail_sorted l ptr i n -> tail_sorted l' ptr 0 n).
Proof.
  revert l. induction i as [|i IH]; intros l Hl Hi; cbn [heap_extract].
  - exists l. split; [done|]. split; [constructor|done].
  - destruct (swap_spec l ptr (ptr + S i)) as (l1 & E1 & Hl1 & H1); [lia..|]. rewrite E1. bind.
    assert (perm_in ptr (ptr + S (S i)) l l1) as Hp1 by (eapply perm_in_swap; [| |done]; lia).
    destruct (sift_spec (S (S i)) l1 ptr 0 0 (S i)) as (l2 & -> & Hp2 & Hh2); [lia..|]. bind.
    rewrite Nat.add_0_r in Hp2. pose proof (perm_in_length _ _ _ _ Hp2).
    destruct (IH l2) as (l3 & -> & Hp3 & Hs3); [lia..|]. exists l3. split; [done|]. split.
    + eapply perm_in_trans; [eapply perm_in_mono; [exact Hp1|lia..]|].
      eapply perm_in_trans; [eapply perm_in_mono; [exact Hp2|lia..]|exact Hp3].
    + intros Ho Hh Ht. apply Hs3; [done| |].
      * apply Hh2; [done|]. split; [|lia]. intros k Hk _ Hne u v.
        assert ((k - 1) / 2 < k) by (apply Nat.Div0.div_lt_upper_bound; lia).
        rewrite !H1. repeat case_decide; try lia. apply Hh; lia.
      * eapply tail_sorted_perm; [exact Hp2|]. intros a b Hab Hb Hib.
        destruct (decide (b = S i)) as [->|]; [|apply (tail_sorted_perm l l1 ptr (S i) n Hp1 Ht); lia].
        intros x y Hx. rewrite H1, decide_True by done. revert Hx. rewrite H1.
        repeat case_decide; try lia; intros Hx Hy.
        -- exact (heap_max l ptr _ (S i) Hh ltac:(lia) ltac:(lia) x y Hx Hy).
        -- exact (heap_max l ptr _ a Hh ltac:(lia) ltac:(lia) x y Hx Hy).
Qed.

Lemma heapsortx_spec l ptr n :
  ptr + n <= length l ->
  exists l', heapsortx cmp l ptr n = Some l' /\ perm_in ptr (ptr + n) l l' /\
    (CmpOrder cmp -> sorted_in l' ptr (ptr + n)).
Proof.
  intros Hl. unfold heapsortx. destruct (Nat.ltb_spec 1 n) as [Hn|Hn].
  2:{ exists l. split; [done|]. split; [constructor|]. intros _ a b ???. lia. }
  pose proof (Nat.div_mod_eq n 2). pose proof (Nat.mod_upper_bound n 2).
  destruct (heap_build_spec (n / 2) l ptr n) as (l1 & -> & Hp1 & Hh1); [lia..|]. bind.
  pose proof (perm_in_length _ _ _ _ Hp1).
  destruct (heap_extract_spec (n - 1) l1 ptr n) as (l2 & -> & Hp2 & Hs2); [lia..|].
  exists l2. split; [done|]. split; [by eapply perm_in_trans|]. intros Ho a b Ha Hab Hb.
  assert (heap l1 ptr 0 n) as Hh.
  { apply Hh1; [done|]. intros k Hk Hle. exfalso.
    pose proof (Nat.div_mod_eq (k - 1) 2). pose proof (Nat.mod_upper_bound (k - 1) 2). lia. }
  assert (tail_sorted l2 ptr 0 n) as Ht.
  { apply Hs2; [done| |intros ?????; lia]. by replace (S (n - 1)) with n by lia. }
  specialize (Ht (a - ptr) (b - ptr) ltac:(lia) ltac:(lia) ltac:(lia)).
  by replace (ptr + (a - ptr)) with a in Ht by lia; replace (ptr + (b - ptr)) with b in Ht by lia.
Qed.

(** ** The partition *)

Lemma med3_spec l a b c :
  a < length l -> b < length l -> c < length l ->
  exists m, med3 cmp l a b c = Some m /\ (m = a \/ m = b \/ m = c).
Proof.
  intros [x Hx]%lookup_lt_is_Some_2 [y Hy]%lookup_lt_is_Some_2 [z Hz]%lookup_lt_is_Some_2.
  unfold med3. rewrite (cmp_at_Some cmp _ _ _ _ _ Hx Hy), (cmp_at_Some cmp _ _ _ _ _ Hy Hz),
    (cmp_at_Some cmp _ _ _ _ _ Hx Hz). bind.
  repeat case_match; eauto.
Qed.

(** The three classes of elements, relative to the pivot. *)
Definition below p (x : A) : Prop := (0 < cmp p x)%Z.
Definition same p (x : A) : Prop := x = p \/ cmp p x = 0%Z.
Definition above p (x : A) : Prop := (cmp p x < 0)%Z.

Lemma scan_left_spec fuel l ptr i lt j p :
  ptr + j <= length l -> 1 <= lt -> lt <= i -> i <= j -> j - i < fuel -> l !! ptr = Some p ->
  all_in (same p) l ptr (ptr + lt) -> all_in (below p) l (ptr + lt) (ptr + i) ->
  exists l' i' lt', scan_left cmp fuel l ptr i lt j = Some (l', i', lt') /\
    perm_in (ptr + 1) (ptr + j) l l' /\ i <= i' <= j /\ lt <= lt' <= i' /\
    all_in (same p) l' ptr (ptr + lt') /\ all_in (below p) l' (ptr + lt') (ptr + i') /\
    (i' < j -> all_in (above p) l' (ptr + i') (ptr + S i')).
Proof.
  revert l i lt. induction fuel as [|fuel IH]; intros l i lt Hl Hlt Hlti Hij Hf Hp Hs Hb; [lia|].
  cbn [scan_left]. destruct (Nat.ltb_spec i j) as [Hi|Hi].
  2:{ exists l, i, lt. split; [done|]. split; [constructor|]. repeat split; try lia; done. }
  destruct (lookup_lt_is_Some_2 l (ptr + i)) as [x Hx]; [lia|].
  rewrite (cmp_at_Some cmp _ _ _ _ _ Hp Hx). bind.
  destruct (Z.leb_spec 0 (cmp p x)) as [Hc|Hc].
  2:{ exists l, i, lt. split; [done|]. split; [constructor|]. repeat split; try lia; [done..|].
      intros _ k y Hk Hy. replace k with (ptr + i) in Hy by lia. by simplify_eq. }
  destruct (Z.eqb_spec (cmp p x) 0) as [Hz|Hz].
  - destruct (swap_spec l (ptr + lt) (ptr + i)) as (l1 & E1 & Hl1 & H1); [lia..|]. rewrite E1. bind.
    destruct (IH l1 (S i) (S lt)) as (l2 & i2 & lt2 & -> & Hp2 & ? & ? & Hs2 & Hb2 & Ha2); [lia..| | | |].
    + rewrite H1. repeat case_decide; try lia. done.
    + intros k y Hk. rewrite H1. repeat case_decide; intros Hy.
      * subst k. assert (lt = i) by lia. subst. simplify_eq. by right.
      * simplify_eq. by right.
      * apply (Hs k); [lia|done].
    + intros k y Hk. rewrite H1. repeat case_decide; intros Hy; try lia.
      * apply (Hb (ptr + lt)); [lia|done].
      * apply (Hb k); [lia|done].
    + exists l2, i2, lt2. split; [done|]. split; [|repeat split; try lia; done].
      apply (perm_step _ _ _ l1 _ (ptr + lt) (ptr + i)); [lia..|done|done].
  - destruct (IH l (S i) lt) as (l2 & i2 & lt2 & -> & Hp2 & ? & ? & Hs2 & Hb2 & Ha2); [lia..|done|done| |].
    + rewrite Nat.add_succ_r. eapply all_in_snoc; [done..|]. unfold below. lia.
    + exists l2, i2, lt2. split; [done|]. split; [done|repeat split; try lia; done].
Qed.

Lemma scan_right_spec fuel l ptr i j gt n p :
  ptr + n <= length l -> 1 <= i -> i <= j -> j <= gt -> gt <= n -> j - i < fuel -> l !! ptr = Some p ->
  (i < j -> all_in (above p) l (ptr + i) (ptr + S i)) ->
  all_in (above p) l (ptr + j) (ptr + gt) -> all_in (same p) l (ptr + gt) (ptr + n) ->
  exists l' j' gt', scan_right cmp fuel l ptr i j gt = Some (l', j', gt') /\
    perm_in (ptr + S i) (ptr + n) l l' /\ i <= gt' <= gt /\
    all_in (same p) l' (ptr + gt') (ptr + n) /\
    ((j' <= i /\ all_in (above p) l' (ptr + i) (ptr + gt')) \/
     (i < j' < j /\ j' < gt' /\ all_in (below p) l' (ptr + j') (ptr + S j') /\
      all_in (above p) l' (ptr + S j') (ptr + gt'))).
Proof.
  revert l j gt. induction fuel as [|fuel IH]; intros l j gt Hl Hi Hij Hjg Hgn Hf Hp Hia Ha Hs; [lia|].
  cbn [scan_right]. destruct (Nat.ltb_spec i (j - 1)) as [Hlt|Hlt].
  2:{ exists l, (j - 1), gt. split; [done|]. split; [constructor|]. split; [lia|]. split; [done|]. left.
      split; [lia|]. destruct (decide (i = j)) as [->|]; [done|].
      intros k x Hk Hx. destruct (decide (k = ptr + i)) as [->|].
      - apply (Hia ltac:(lia) (ptr + i)); [lia|done].
      - apply (Ha k); [lia|done]. }
  destruct (lookup_lt_is_Some_2 l (ptr + (j - 1))) as [x Hx]; [lia|].
  rewrite (cmp_at_Some cmp _ _ _ _ _ Hp Hx). bind.
  destruct (Z.leb_spec (cmp p x) 0) as [Hc|Hc].
  2:{ exists l, (j - 1), gt. split; [done|]. split; [constructor|]. split; [lia|]. split; [done|]. right.
      split; [lia|]. split; [lia|]. split.
      - intros k y Hk Hy. replace k with (ptr + (j - 1)) in Hy by lia. simplify_eq. unfold below. lia.
      - by replace (S (j - 1)) with j by lia. }
  destruct (Z.eqb_spec (cmp p x) 0) as [Hz|Hz].
  - destruct (swap_spec l (ptr + (gt - 1)) (ptr + (j - 1))) as (l1 & E1 & Hl1 & H1); [lia..|]. rewrite E1. bind.
    destruct (IH l1 (j - 1) (gt - 1)) as (l2 & j2 & gt2 & -> & Hp2 & ? & Hs2 & Hc2); [lia..| | | | |].
    + rewrite H1. repeat case_decide; try lia. done.
    + intros _ k y Hk. rewrite H1. repeat case_decide; try lia. intros Hy. apply (Hia ltac:(lia) k); [lia|done].
    + intros k y Hk. rewrite H1. repeat case_decide; intros Hy; try lia.
      * apply (Ha (ptr + (gt - 1))); [lia|done].
      * apply (Ha k); [lia|done].
    + intros k y Hk. rewrite H1. repeat case_decide; intros Hy.
      * assert (gt = j) by lia. subst gt. simplify_eq. by right.
      * simplify_eq. by right.
      * apply (Hs k); [lia|done].
    + exists l2, j2, gt2. split; [done|]. split; [|split; [lia|split; [done|]]].
      * apply (perm_step _ _ _ l1 _ (ptr + (gt - 1)) (ptr + (j - 1))); [lia..|done|done].
      * destruct Hc2 as [?|(? & ? & ?)]; [by left|right; split; [lia|done]].
  - destruct (IH l (j - 1) gt) as (l2 & j2 & gt2 & -> & Hp2 & ? & Hs2 & Hc2); [lia..|done| | |done|].
    + intros _. apply Hia. lia.
    + eapply all_in_cons; [|exact Hx|unfold above; lia]. by replace (S (ptr + (j - 1))) with (ptr + j) by lia.
    + exists l2, j2, gt2. split; [done|]. split; [done|]. split; [lia|]. split; [done|].
      destruct Hc2 as [?|(? & ? & ?)]; [by left|right; split; [lia|done]].
Qed.

Lemma partition_loop_spec fuel l ptr i lt j gt n p :
  ptr + n <= length l -> 1 <= lt -> lt <= i -> i <= j -> j <= gt -> gt <= n -> j - i < fuel ->
  l !! ptr = Some p ->
  all_in (same p) l ptr (ptr + lt) -> all_in (below p) l (ptr + lt) (ptr + i) ->
  all_in (above p) l (ptr + j) (ptr + gt) -> all_in (same p) l (ptr + gt) (ptr + n) ->
  exists l' i' lt' gt', partition_loop cmp fuel l ptr i lt j gt = Some (l', i', lt', gt') /\
    perm_in (ptr + 1) (ptr + n) l l' /\ 1 <= lt' <= i' /\ i' <= gt' <= n /\
    all_in (same p) l' ptr (ptr + lt') /\ all_in (below p) l' (ptr + lt') (ptr + i') /\
    all_in (above p) l' (ptr + i') (ptr + gt') /\ all_in (same p) l' (ptr + gt') (ptr + n).
Proof.
  revert l i lt j gt. induction fuel as [|fuel IH]; intros l i lt j gt Hl Hlt Hlti Hij Hjg Hgn Hf Hp Hs Hb Ha Hs'; [lia|].
  cbn [partition_loop].
  destruct (scan_left_spec (S (j - i)) l ptr i lt j p)
    as (l1 & i1 & lt1 & -> & Hp1 & Hi1 & Hlt1 & Hs1 & Hb1 & Ha1); [lia..|done|done|done|]. bind.
  pose proof (perm_in_length _ _ _ _ Hp1) as Hlen1.
  apply (perm_in_all_frame _ _ _ _ _ _ _ Hp1) in Ha; [|lia].
  apply (perm_in_all_frame _ _ _ _ _ _ _ Hp1) in Hs'; [|lia].
  destruct (scan_right_spec (S (j - i1)) l1 ptr i1 j gt n p)
    as (l2 & j2 & gt2 & -> & Hp2 & Hg2 & Hs2 & Hc2); [lia..| |done|done|done|].
  { rewrite <- Hp. eapply perm_in_frame; [exact Hp1|lia]. }
  bind. pose proof (perm_in_length _ _ _ _ Hp2) as Hlen2.
  apply (perm_in_all_frame _ _ _ _ _ _ _ Hp2) in Hs1; [|lia].
  apply (perm_in_all_frame _ _ _ _ _ _ _ Hp2) in Hb1; [|lia].
  assert (perm_in (ptr + 1) (ptr + n) l l2) as Hp12.
  { eapply perm_in_trans; [eapply perm_in_mono; [exact Hp1|lia..]|eapply perm_in_mono; [exact Hp2|lia..]]. }
  destruct (Nat.leb_spec j2 i1) as [Hji|Hji].
  - exists l2, i1, lt1, gt2. split; [done|]. split; [done|].
    destruct Hc2 as [[_ Hc2]|(? & _)]; [|lia]. repeat split; try lia; done.
  - destruct Hc2 as [[? _]|(Hj2 & Hjg2 & Hb2 & Ha2)]; [lia|].
    destruct (swap_spec l2 (ptr + i1) (ptr + j2)) as (l3 & E3 & Hl3 & H3); [lia..|]. rewrite E3. bind.
    assert (all_in (above p) l2 (ptr + i1) (ptr + S i1)) as Hai.
    { eapply perm_in_all_frame; [exact Hp2|lia|apply Ha1; lia]. }
    destruct (IH l3 (S i1) lt1 j2 gt2) as (l4 & i4 & lt4 & gt4 & -> & Hp4 & H4); [lia..| | | | | |].
    + rewrite H3. repeat case_decide; try lia. rewrite <- Hp. eapply perm_in_frame; [exact Hp12|lia].
    + intros k x Hk. rewrite H3. repeat case_decide; try lia. intros Hx. apply (Hs1 k); [lia|done].
    + intros k x Hk. rewrite H3. repeat case_decide; try lia; intros Hx.
      * apply (Hb2 (ptr + j2)); [lia|done].
      * apply (Hb1 k); [lia|done].
    + intros k x Hk. rewrite H3. repeat case_decide; try lia; intros Hx.
      * apply (Hai (ptr + i1)); [lia|done].
      * apply (Ha2 k); [lia|done].
    + intros k x Hk. rewrite H3. repeat case_decide; try lia. intros Hx. apply (Hs2 k); [lia|done].
    + exists l4, i4, lt4, gt4. split; [done|]. split; [|done].
      eapply perm_in_trans; [exact Hp12|]. apply (perm_step _ _ _ l3 _ (ptr + i1) (ptr + j2)); [lia..|done|done].
Qed.

(** The array after a pass: smaller, equal, larger, with at least the pivot in
    the middle. *)
Lemma partition_spec l ptr n :
  6 < n -> ptr + n <= length l ->
  exists l' lt gt p, partition cmp l ptr n = Some (l', lt, gt) /\
    perm_in ptr (ptr + n) l l' /\ lt < gt <= n /\
    all_in (below p) l' ptr (ptr + lt) /\ all_in (same p) l' (ptr + lt) (ptr + gt) /\
    all_in (above p) l' (ptr + gt) (ptr + n).
Proof.
  intros Hn Hl. unfold partition. pose proof (Nat.div_mod_eq n 4). pose proof (Nat.mod_upper_bound n 4).
  destruct (med3_spec l (ptr + n / 4) (ptr + 2 * (n / 4)) (ptr + 3 * (n / 4))) as (m & -> & Hm); [lia..|]. bind.
  destruct (swap_spec l ptr m) as (l1 & E1 & Hl1 & _); [lia..|]. rewrite E1. bind.
  assert (perm_in ptr (ptr + n) l l1) as Hp1 by (eapply perm_in_swap; [| |exact E1]; lia).
  destruct (lookup_lt_is_Some_2 l1 ptr) as [p Hp]; [lia|].
  destruct (partition_loop_spec n l1 ptr 1 1 n n n p)
    as (l2 & i & lt & gt & -> & Hp2 & Hlt & Hgt & Hs & Hb & Ha & Hs'); [lia..|done| | | | |].
  { intros k x Hk Hx. replace k with ptr in Hx by lia. simplify_eq. by left. }
  1-3: apply all_in_nil; lia.
  bind. pose proof (perm_in_length _ _ _ _ Hp2).
  set (span := if i - lt <? lt then i - lt else lt).
  assert (span = lt `min` (i - lt)) as Hspan by (unfold span; destruct (Nat.ltb_spec (i - lt) lt); lia).
  destruct (swap_block_rotate (same p) (below p) l2 ptr lt (i - lt) span) as (l3 & E3 & Hp3 & Hb3 & Hs3);
    [lia|done|done|by replace (ptr + lt + (i - lt)) with (ptr + i) by lia|].
  replace (ptr + lt + (i - lt)) with (ptr + i) in * by lia. rewrite E3. bind.
  pose proof (perm_in_length _ _ _ _ Hp3).
  apply (perm_in_all_frame _ _ _ _ _ _ _ Hp3) in Ha; [|lia].
  apply (perm_in_all_frame _ _ _ _ _ _ _ Hp3) in Hs'; [|lia].
  set (span2 := if gt - i <? n - gt then gt - i else n - gt).
  assert (span2 = (gt - i) `min` (n - gt)) as Hspan2 by (unfold span2; destruct (Nat.ltb_spec (gt - i) (n - gt)); lia).
  destruct (swap_block_rotate (above p) (same p) l3 (ptr + i) (gt - i) (n - gt) span2)
    as (l4 & E4 & Hp4 & Hs4 & Ha4); [lia|done|by replace (ptr + i + (gt - i)) with (ptr + gt) by lia| |].
  { by replace (ptr + i + (gt - i)) with (ptr + gt) by lia; replace (ptr + gt + (n - gt)) with (ptr + n) by lia. }
  replace (ptr + i + (gt - i) + (n - gt)) with (ptr + n) in * by lia. rewrite E4. bind.
  exists l4, (i - lt), (n - (gt - i)), p. split; [done|]. split.
  { eapply perm_in_trans; [exact Hp1|]. eapply perm_in_trans; [eapply perm_in_mono; [exact Hp2|lia..]|].
    eapply perm_in_trans; [eapply perm_in_mono; [exact Hp3|lia..]|eapply perm_in_mono; [exact Hp4|lia..]]. }
  split; [lia|]. split; [eapply perm_in_all_frame; [exact Hp4|lia|exact Hb3]|].
  replace (ptr + i + (n - gt)) with (ptr + (n - (gt - i))) in * by lia. split; [|done].
  apply (perm_in_all_frame _ _ _ _ _ _ _ Hp4) in Hs3; [|lia].
  intros k x Hk Hx. destruct (decide (k < ptr + i)); [apply (Hs3 k)|apply (Hs4 k)]; done || lia.
Qed.

(** ** The driver *)

(** A segment still to be sorted, as its first index and its length. *)
Definition in_seg (s : nat * nat) (i : nat) : Prop := s.1 <= i < s.1 + s.2.
Definition apart (s t : nat * nat) : Prop := forall i, in_seg s i -> in_seg t i -> False.
Fixpoint disjoint_segs (segs : list (nat * nat)) : Prop :=
  match segs with
  | [] => True
  | s :: segs => Forall (apart s) segs /\ disjoint_segs segs
  end.
Definition pending (st : list segment) : list (nat * nat) := (fun s => (seg_base s, seg_count s)) <$> st.

(** Every pair is in order but those inside one pending segment. *)
Definition ordered_but l (segs : list (nat * nat)) : Prop :=
  forall i j, i < j -> le_at l i j \/ exists s, s ∈ segs /\ in_seg s i /\ in_seg s j.

(** Work inside a pending segment [s] that leaves only the segments [ts]. *)
Lemma ordered_but_refine l l' s ts segs :
  perm_in s.1 (s.1 + s.2) l l' -> Forall (apart s) segs -> ordered_but l (s :: segs) ->
  (forall i j, i < j -> in_seg s i -> in_seg s j ->
    le_at l' i j \/ exists t, t ∈ ts /\ in_seg t i /\ in_seg t j) ->
  ordered_but l' (ts ++ segs).
Proof.
  intros Hp Hap Ho Hin i j Hij.
  assert (forall i j, i < j -> (in_seg s i /\ ~ in_seg s j) \/ (~ in_seg s i /\ in_seg s j) -> le_at l i j) as Hmix.
  { intros a b Hab Hm. destruct (Ho a b Hab) as [|(t & Ht & Ha & Hb)]; [done|].
    apply elem_of_cons in Ht as [->|Ht]; [tauto|]. rewrite Forall_forall in Hap.
    specialize (Hap t Ht). destruct Hm as [[Hs _]|[_ Hs]]; exfalso; eauto. }
  destruct (decide (s.1 <= i < s.1 + s.2)) as [Hi|Hi]; destruct (decide (s.1 <= j < s.1 + s.2)) as [Hj|Hj].
  - destruct (Hin i j Hij Hi Hj) as [|(t & Ht & ?)]; [by left|right]. exists t. rewrite elem_of_app. tauto.
  - left. intros x y Hx Hy. rewrite (perm_in_frame _ _ _ _ _ Hp) in Hy by lia.
    refine (perm_in_all (fun x => le x y) _ _ _ _ _ _ Hp _ _ _ i x Hi Hx); [lia..|].
    intros k z Hk Hz. refine (Hmix k j _ _ z y Hz Hy); [lia|]. left. unfold in_seg. lia.
  - left. intros x y Hx Hy. rewrite (perm_in_frame _ _ _ _ _ Hp) in Hx by lia.
    refine (perm_in_all (fun y => le x y) _ _ _ _ _ _ Hp _ _ _ j y Hj Hy); [lia..|].
    intros k z Hk Hz. refine (Hmix i k _ _ x z Hx Hz); [lia|]. right. unfold in_seg. lia.
  - destruct (Ho i j Hij) as [Hl|(t & Ht & Ha & Hb)].
    + left. intros x y. rewrite !(perm_in_frame _ _ _ _ _ Hp) by lia. apply Hl.
    + apply elem_of_cons in Ht as [->|Ht]; [done|]. right. exists t. rewrite elem_of_app. tauto.
Qed.

(** The pairs that a partition leaves unordered. *)
Lemma partition_ordered `{!CmpOrder cmp} l ptr n lt gt p i j :
  all_in (below p) l ptr (ptr + lt) -> all_in (same p) l (ptr + lt) (ptr + gt) ->
  all_in (above p) l (ptr + gt) (ptr + n) -> lt < gt <= n ->
  i < j -> in_seg (ptr, n) i -> in_seg (ptr, n) j ->
  le_at l i j \/ exists t, t ∈ [(ptr, lt); (ptr + gt, n - gt)] /\ in_seg t i /\ in_seg t j.
Proof.
  unfold in_seg. cbn [fst snd]. intros Hb Hs Ha Hg Hij Hi Hj.
  destruct (decide (j < ptr + lt)); [right; exists (ptr, lt); cbn; split; [by left|lia]|].
  destruct (decide (ptr + gt <= i)); [right; exists (ptr + gt, n - gt); cbn; split; [by right; left|lia]|].
  left. intros x y Hx Hy.
  assert (cmp p x >= 0)%Z as Hpx.
  { destruct (decide (i < ptr + lt)); [pose proof (Hb i x ltac:(lia) Hx) as Hpx; unfold below in Hpx; lia|].
    destruct (Hs i x ltac:(lia) Hx) as [->|?]; [rewrite cmp_refl|]; lia. }
  assert (cmp p y <= 0)%Z as Hpy.
  { destruct (decide (ptr + gt <= j)); [pose proof (Ha j y ltac:(lia) Hy) as Hpy; unfold above in Hpy; lia|].
    destruct (Hs j y ltac:(lia) Hy) as [->|?]; [rewrite cmp_refl|]; lia. }
  apply (cmp_trans _ p); [apply le_of_sgn; lia|done].
Qed.

(** The stack: an entry at height [h] has been pushed at a depth of at least
    [h], so [50] entries are enough for a depth of [50]. *)
Fixpoint stack_ok (N : nat) (st : list segment) : Prop :=
  match st with
  | [] => True
  | s :: st => length st <= seg_depth s <= 50 /\ seg_base s + seg_count s <= N /\ stack_ok N st
  end.
Definition weight (st : list segment) : nat := sum_list_with (fun s => S (seg_count s)) st.

Lemma apart_sub s t u : (forall i, in_seg t i -> in_seg s i) -> apart s u -> apart t u.
Proof. intros H Ha i ??. eapply Ha; eauto. Qed.

(** Splitting the head segment in two. *)
Lemma disjoint_split s t u segs :
  (forall i, in_seg t i -> in_seg s i) -> (forall i, in_seg u i -> in_seg s i) -> apart t u ->
  disjoint_segs (s :: segs) -> disjoint_segs (t :: u :: segs).
Proof.
  intros Ht Hu Htu [Hs Hd]. split; [|split; [|done]].
  - constructor; [done|]. eapply Forall_impl; [exact Hs|]. intros. by eapply apart_sub.
  - eapply Forall_impl; [exact Hs|]. intros. by eapply apart_sub.
Qed.

Lemma quick_loop_spec fuel l st ptr n depth :
  n < fuel -> ptr + n <= length l -> stack_ok (length l) st -> length st <= depth <= 50 ->
  disjoint_segs ((ptr, n) :: pending st) ->
  exists l' st' ptr' n', quick_loop cmp fuel l st ptr n depth = Some (l', st', ptr', n') /\
    perm_in 0 (length l) l l' /\ ptr' + n' <= length l /\ stack_ok (length l) st' /\
    weight st' + n' <= weight st + n /\ disjoint_segs ((ptr', n') :: pending st') /\
    (CmpOrder cmp -> ordered_but l ((ptr, n) :: pending st) -> ordered_but l' ((ptr', n') :: pending st')).
Proof.
  revert l st ptr n depth. induction fuel as [|fuel IH]; intros l st ptr n depth Hf Hl Hst Hd Hdis; [lia|].
  cbn [quick_loop]. destruct (Nat.ltb_spec 6 n) as [Hn|Hn].
  2:{ exists l, st, ptr, n. split; [done|]. split; [constructor|]. done. }
  destruct (Nat.ltb_spec 50 (S depth)) as [H50|H50].
  { destruct (heapsortx_spec l ptr n Hl) as (l1 & -> & Hp1 & Hs1). bind.
    exists l1, st, ptr, 0. split; [done|]. split; [eapply perm_in_mono; [exact Hp1|lia..]|].
    split; [lia|]. split; [done|]. split; [lia|]. destruct Hdis as [Hap Hdis]. split.
    - split; [|done]. eapply Forall_impl; [exact Hap|]. intros. eapply apart_sub; [|done].
      unfold in_seg. cbn. lia.
    - intros Ho Hb. apply (ordered_but_refine l l1 (ptr, n) [(ptr, 0)]); [done..|].
      unfold in_seg. cbn. intros i j ???. left. apply Hs1; done || lia. }
  destruct (partition_spec l ptr n Hn Hl) as (l1 & lt & gt & p & -> & Hp1 & Hg & Hb & Hs & Ha). bind.
  pose proof (perm_in_length _ _ _ _ Hp1) as Hlen.
  assert (length st < stack_size) as Hcap by (unfold stack_size; lia).
  assert (CmpOrder cmp -> ordered_but l ((ptr, n) :: pending st) ->
    ordered_but l1 ([(ptr, lt); (ptr + gt, n - gt)] ++ pending st)) as Hord.
  { intros Ho Hob. apply (ordered_but_refine l l1 (ptr, n)); [done|by destruct Hdis|done|].
    intros i j. by apply partition_ordered with (p := p). }
  assert (forall q m q' m', (q = ptr /\ m = lt /\ q' = ptr + gt /\ m' = n - gt) \/
                       (q = ptr + gt /\ m = n - gt /\ q' = ptr /\ m' = lt) ->
    let st1 := mk_segment q' m' (S depth) :: st in
    disjoint_segs ((q, m) :: pending st1) /\ stack_ok (length l1) st1 /\ q + m <= length l1 /\ m < fuel /\
    weight st1 + m <= weight st + n /\
    (CmpOrder cmp -> ordered_but l ((ptr, n) :: pending st) -> ordered_but l1 ((q, m) :: pending st1))) as Hnext.
  { intros q m q' m' Hq st1. split.
    - apply (disjoint_split (ptr, n)); [..|done]; unfold apart, in_seg; cbn; lia.
    - rewrite Hlen. split; [cbn; split; [lia|split; [lia|done]]|]. split; [lia|]. split; [lia|].
      split; [unfold weight; cbn; lia|]. intros Ho Hob i j Hij.
      destruct (Hord Ho Hob i j Hij) as [|(t & Ht & ?)]; [by left|right]. exists t. split; [|done].
      cbn. destruct Hq as [(->&->&->&->)|(->&->&->&->)];
        apply elem_of_app in Ht as [[->|[->|[]%elem_of_nil]%elem_of_cons]%elem_of_cons|Ht];
        rewrite !elem_of_cons; tauto. }
  unfold push. rewrite (proj2 (Nat.ltb_lt _ _) Hcap).
  destruct (Nat.ltb_spec (n - gt) lt); bind.
  - destruct (Hnext (ptr + gt) (n - gt) ptr lt ltac:(by right)) as (Hd1 & Hs1 & Hl1 & Hf1 & Hw1 & Ho1).
    destruct (IH l1 (mk_segment ptr lt (S depth) :: st) (ptr + gt) (n - gt) (S depth))
      as (l2 & st2 & ptr2 & n2 & -> & Hp2 & Hb2 & Hs2 & Hw2 & Hd2 & Ho2); [lia|lia|done|cbn; lia|done|].
    exists l2, st2, ptr2, n2. rewrite Hlen in *. split; [done|].
    split; [eapply perm_in_trans; [eapply perm_in_mono; [exact Hp1|lia..]|done]|]. repeat (split; [done || lia|]). auto.
  - destruct (Hnext ptr lt (ptr + gt) (n - gt) ltac:(by left)) as (Hd1 & Hs1 & Hl1 & Hf1 & Hw1 & Ho1).
    destruct (IH l1 (mk_segment (ptr + gt) (n - gt) (S depth) :: st) ptr lt (S depth))
      as (l2 & st2 & ptr2 & n2 & -> & Hp2 & Hb2 & Hs2 & Hw2 & Hd2 & Ho2); [lia|lia|done|cbn; lia|done|].
    exists l2, st2, ptr2, n2. rewrite Hlen in *. split; [done|].
    split; [eapply perm_in_trans; [eapply perm_in_mono; [exact Hp1|lia..]|done]|]. repeat (split; [done || lia|]). auto.
Qed.

Lemma rqsort_loop_spec fuel l st :
  weight st < fuel -> stack_ok (length l) st -> disjoint_segs (pending st) ->
  exists l', rqsort_loop cmp fuel l st = Some l' /\ perm_in 0 (length l) l l' /\
    (CmpOrder cmp -> ordered_but l (pending st) -> ordered_but l' []).
Proof.
  revert l st. induction fuel as [|fuel IH]; intros l st Hf Hst Hd; [lia|]. cbn [rqsort_loop].
  destruct st as [|s st].
  { exists l. split; [done|]. split; [constructor|done]. }
  destruct Hst as (Hds & Hb & Hst). unfold weight in Hf. cbn in Hf. fold (weight st) in Hf.
  destruct (quick_loop_spec (S (seg_count s)) l st (seg_base s) (seg_count s) (seg_depth s))
    as (l1 & st1 & ptr & n & -> & Hp1 & Hb1 & Hs1 & Hw1 & Hd1 & Ho1); [lia..|done|lia|done|]. bind.
  pose proof (perm_in_length _ _ _ _ Hp1) as Hlen1.
  assert (exists l2, insertion_loop cmp (n - 1) 1 l1 ptr = Some l2 /\ perm_in ptr (ptr + n) l1 l2 /\
    (CmpOrder cmp -> sorted_in l2 ptr (ptr + n))) as (l2 & -> & Hp2 & Hs2).
  { destruct n as [|n].
    - exists l1. split; [done|]. split; [constructor|]. intros _ i j ???. lia.
    - destruct (insertion_loop_spec (S n - 1) 1 l1 ptr) as (l2 & E & Hp2 & Hs2); [lia|].
      replace (ptr + 1 + (S n - 1)) with (ptr + S n) in * by lia. exists l2. split; [done|]. split; [done|].
      intros Ho. apply Hs2; [done|]. intros i j ???. lia. }
  bind. pose proof (perm_in_length _ _ _ _ Hp2) as Hlen2. destruct Hd1 as [Hap1 Hd1].
  destruct (IH l2 st1) as (l3 & -> & Hp3 & Ho3); [lia|by rewrite Hlen2, Hlen1|done|].
  exists l3. split; [done|]. rewrite Hlen2, Hlen1 in *. split.
  - eapply perm_in_trans; [exact Hp1|]. eapply perm_in_trans; [eapply perm_in_mono; [exact Hp2|lia..]|done].
  - intros Ho Hob. apply Ho3; [done|]. apply (ordered_but_refine l1 l2 (ptr, n) []); [done|done|by apply Ho1|].
    unfold in_seg. cbn. intros i j ???. left. apply Hs2; done || lia.
Qed.
End Correctness.

(** [rqsort] on a whole array, for the components that call it. *)
Lemma rqsort_sorts {A} (cmp : A -> A -> Z) (l : list A) (size : nat) (Hsize : 0 < size) :
  exists l', rqsort cmp l (length l) size = Some l' /\ l' ≡ₚ l /\
    (CmpOrder cmp -> StronglySorted (fun x y => cmp x y <= 0)%Z l').
Proof.
  assert (forall l', (forall i j, i < j -> le_at cmp l' i j) -> StronglySorted (fun x y => cmp x y <= 0)%Z l') as Hss.
  { clear. induction l' as [|x l' IH]; intros H; constructor.
    - apply IH. intros i j Hij. exact (H (S i) (S j) ltac:(lia)).
    - apply Forall_lookup. intros i y Hy. exact (H 0 (S i) ltac:(lia) x y eq_refl Hy). }
  unfold rqsort. rewrite (proj2 (Nat.leb_gt _ _) Hsize), orb_false_r.
  destruct (Nat.ltb_spec (length l) 2) as [Hn|Hn].
  - exists l. split; [done|]. split; [done|]. intros Ho. apply Hss. intros i j Hij x y Hx Hy.
    apply lookup_lt_Some in Hy. lia.
  - change (push [] (mk_segment 0 (length l) 0)) with (Some [mk_segment 0 (length l) 0]). bind. destruct (rqsort_loop_spec cmp (length l + 2) l [mk_segment 0 (length l) 0])
      as (l' & -> & Hp & Hs).
    + unfold weight. cbn. lia.
    + cbn. lia.
    + cbn. by repeat constructor.
    + exists l'. split; [done|]. split; [by eapply perm_in_perm|]. intros Ho. apply Hss. intros i j Hij.
      destruct (Hs Ho) with (i := i) (j := j) as [|(s & []%elem_of_nil & _)]; [|done|done].
      intros a b Hab. destruct (decide (b < length l)).
      * right. exists (0, length l). split; [by left|]. unfold in_seg. cbn. lia.
      * left. intros x y _ Hy. apply lookup_lt_Some in Hy. lia.
Qed.

(** C20: sorting, total correctness: for every comparison function, consistent
    or not, [rqsort] ends, stays inside the array and its 50-entry stack, and
    returns a permutation of the array; when the comparison is a total preorder
    the result is sorted. *)
Theorem rqsort_correct {A} (cmp : A -> A -> Z) (l : list A) (size : nat) (Hsize : 0 < size) :
  exists l', rqsort cmp l (length l) size = Some l' /\ l' ≡ₚ l /\
    (CmpOrder cmp -> StronglySorted (fun x y => cmp x y <= 0)%Z l').
Proof. exact (rqsort_sorts cmp l size Hsize). Qed.

Lemma rqsort_correct_witness :
  exists l', rqsort Z.sub [5; 3; 8; 1; 9; 2; 7; 7; 0; 4]%Z 10 8 = Some l' /\ l' ≡ₚ [5; 3; 8; 1; 9; 2; 7; 7; 0; 4]%Z /\
    StronglySorted (fun x y => x - y <= 0)%Z l'.
Proof.
  destruct (rqsort_correct Z.sub [5; 3; 8; 1; 9; 2; 7; 7; 0; 4]%Z 8 ltac:(lia)) as (l' & H1 & H2 & H3).
  exists l'. split; [exact H1|]. split; [exact H2|]. apply H3. split; lia.
Defined.
