(* ===== verification/Exchange.v ===== *)
(** * The byte exchanges of the sort (cutils.c)

    Memory is a list of bytes at an address [base], a pointer is an offset in
    it, a word access is in range and aligned or it is a fault ([None]).  The
    function that [exchange_func] selects from the alignment of the array and of
    its elements exchanges two elements, or two blocks of elements, without a
    misaligned access. *)
From S2P Require Import Prelude Sort.

#[local] Open Scope nat_scope.

(** An access of [w] bytes at offset [a] of memory at [base], through a pointer
    to a type of alignment [w]. *)
Definition load (base : Z) (w : nat) (mem : list Z) (a : nat) : option (list Z) :=
  if bool_decide ((base + Z.of_nat a) mod Z.of_nat w = 0)%Z && (a + w <=? length mem)
  then Some (take w (drop a mem)) else None.

Definition store (base : Z) (w : nat) (mem : list Z) (a : nat) (v : list Z) : option (list Z) :=
  if bool_decide ((base + Z.of_nat a) mod Z.of_nat w = 0)%Z && (a + w <=? length mem)
  then Some (take a mem ++ v ++ drop (a + w) mem) else None.

(** [t = *ap; *ap = *bp; *bp = t] on words of [w] bytes. *)
Definition exchange_word (base : Z) (w : nat) (mem : list Z) (a b : nat) : option (list Z) :=
  t ← load base w mem a;
  u ← load base w mem b;
  mem ← store base w mem a u;
  store base w mem b t.

Fixpoint exchange_words (base : Z) (w : nat) (mem : list Z) (a b count : nat) : option (list Z) :=
  match count with
  | O => Some mem
  | S count =>
      mem ← exchange_word base w mem a b;
      exchange_words base w mem (a + w) (b + w) count
  end.

(** The type [exchange_f]: memory, the two pointers, the byte count. *)
Definition exchange_f : Type := Z -> list Z -> nat -> nat -> nat -> option (list Z).

Definition exchange_bytes : exchange_f := fun base mem a b size => exchange_words base 1 mem a b size.
Definition exchange_one_byte : exchange_f := fun base mem a b size => exchange_word base 1 mem a b.
Definition exchange_int16s : exchange_f := fun base mem a b size => exchange_words base 2 mem a b (size / 2).
Definition exchange_one_int16 : exchange_f := fun base mem a b size => exchange_word base 2 mem a b.
Definition exchange_int32s : exchange_f := fun base mem a b size => exchange_words base 4 mem a b (size / 4).
Definition exchange_one_int32 : exchange_f := fun base mem a b size => exchange_word base 4 mem a b.
Definition exchange_int64s : exchange_f := fun base mem a b size => exchange_words base 8 mem a b (size / 8).
Definition exchange_one_int64 : exchange_f := fun base mem a b size => exchange_word base 8 mem a b.

Definition exchange_one_int128 : exchange_f := fun base mem a b size =>
  t ← load base 8 mem a;
  u ← load base 8 mem (a + 8);
  b0 ← load base 8 mem b;
  mem ← store base 8 mem a b0;
  b1 ← load base 8 mem (b + 8);
  mem ← store base 8 mem (a + 8) b1;
  mem ← store base 8 mem b t;
  store base 8 mem (b + 8) u.

Fixpoint int128_loop (base : Z) (mem : list Z) (a b count : nat) : option (list Z) :=
  match count with
  | O => Some mem
  | S count =>
      mem ← exchange_one_int128 base mem a b 16;
      int128_loop base mem (a + 16) (b + 16) count
  end.
Definition exchange_int128s : exchange_f := fun base mem a b size => int128_loop base mem a b (size / 16).

Definition exchange_func (base size : Z) : exchange_f :=
  let k := Z.land (Z.lor base size) 15 in
  if (k =? 0)%Z then
    if (size =? 16)%Z then exchange_one_int128 else exchange_int128s
  else if (k =? 8)%Z then
    if (size =? 8)%Z then exchange_one_int64 else exchange_int64s
  else if (k =? 4)%Z || (k =? 12)%Z then
    if (size =? 4)%Z then exchange_one_int32 else exchange_int32s
  else if (k =? 2)%Z || (k =? 6)%Z || (k =? 10)%Z || (k =? 14)%Z then
    if (size =? 2)%Z then exchange_one_int16 else exchange_int16s
  else
    if (size =? 1)%Z then exchange_one_byte else exchange_bytes.

(** ** Proofs *)

(** [mem'] is [mem] with the [n] bytes (or elements) at [a] and at [b]
    exchanged. *)
Definition exchanged {A} (mem mem' : list A) (a b n : nat) : Prop :=
  length mem' = length mem /\
  forall k, mem' !! k = if decide (a <= k < a + n) then mem !! (k - a + b)
                        else if decide (b <= k < b + n) then mem !! (k - b + a) else mem !! k.

(** The two ranges are the same or apart, as the sort uses them. *)
Definition ranges_ok (a b n len : nat) : Prop :=
  (a = b \/ a + n <= b \/ b + n <= a) /\ a + n <= len /\ b + n <= len.

Definition aligned (base : Z) (w a : nat) : Prop := ((base + Z.of_nat a) mod Z.of_nat w = 0)%Z.

Lemma load_ok base w mem a :
  aligned base w a -> a + w <= length mem ->
  exists v, load base w mem a = Some v /\ length v = w /\ forall i, i < w -> v !! i = mem !! (a + i).
Proof.
  intros Ha Hl. unfold load. rewrite bool_decide_eq_true_2 by done. rewrite (proj2 (Nat.leb_le _ _) Hl).
  eexists. split; [done|]. split; [rewrite length_take, length_drop; lia|].
  intros i Hi. by rewrite lookup_take_lt, lookup_drop by done.
Qed.

Lemma store_ok base w mem a v :
  aligned base w a -> a + w <= length mem -> length v = w ->
  exists mem', store base w mem a v = Some mem' /\ length mem' = length mem /\
    forall k, mem' !! k = if decide (a <= k < a + w) then v !! (k - a) else mem !! k.
Proof.
  intros Ha Hl Hv. unfold store. rewrite bool_decide_eq_true_2 by done. rewrite (proj2 (Nat.leb_le _ _) Hl).
  eexists. split; [done|]. split; [rewrite !length_app, length_take, length_drop; lia|].
  intros k. case_decide.
  - rewrite lookup_app_r by (rewrite length_take; lia). rewrite length_take, lookup_app_l by lia. f_equal. lia.
  - destruct (decide (k < a)).
    + rewrite lookup_app_l by (rewrite length_take; lia). by rewrite lookup_take_lt.
    + rewrite lookup_app_r by (rewrite length_take; lia). rewrite lookup_app_r by (rewrite length_take; lia).
      rewrite lookup_drop, length_take. f_equal. lia.
Qed.

Lemma exchange_word_ok base w mem a b :
  aligned base w a -> aligned base w b -> ranges_ok a b w (length mem) ->
  exists mem', exchange_word base w mem a b = Some mem' /\ exchanged mem mem' a b w.
Proof.
  intros Ha Hb (Hab & Hla & Hlb). unfold exchange_word.
  destruct (load_ok base w mem a Ha Hla) as (t & -> & Ht & Ht').
  destruct (load_ok base w mem b Hb Hlb) as (u & -> & Hu & Hu'). bind.
  destruct (store_ok base w mem a u Ha Hla Hu) as (m1 & -> & Hl1 & H1). bind.
  destruct (store_ok base w m1 b t Hb ltac:(lia) Ht) as (m2 & -> & Hl2 & H2).
  exists m2. split; [done|]. split; [lia|]. intros k. rewrite H2, H1.
  repeat case_decide; try lia; try done; rewrite ?Ht', ?Hu' by lia; f_equal; lia.
Qed.

Lemma exchange_one_int128_ok base mem a b size :
  aligned base 8 a -> aligned base 8 b -> ranges_ok a b 16 (length mem) ->
  exists mem', exchange_one_int128 base mem a b size = Some mem' /\ exchanged mem mem' a b 16.
Proof.
  intros Ha Hb (Hab & Hla & Hlb).
  assert (forall c, aligned base 8 c -> aligned base 8 (c + 8)) as Hn.
  { unfold aligned. intros c Hc. replace (base + Z.of_nat (c + 8))%Z with (base + Z.of_nat c + 1 * 8)%Z by lia.
    by rewrite Z.mod_add. }
  unfold exchange_one_int128.
  destruct (load_ok base 8 mem a Ha ltac:(lia)) as (t & -> & Ht & Ht').
  destruct (load_ok base 8 mem (a + 8) (Hn _ Ha) ltac:(lia)) as (u & -> & Hu & Hu').
  destruct (load_ok base 8 mem b Hb ltac:(lia)) as (b0 & -> & Hb0 & Hb0'). bind.
  destruct (store_ok base 8 mem a b0 Ha ltac:(lia) Hb0) as (m1 & -> & Hl1 & H1). bind.
  destruct (load_ok base 8 m1 (b + 8) (Hn _ Hb) ltac:(lia)) as (b1 & -> & Hb1 & Hb1'). bind.
  destruct (store_ok base 8 m1 (a + 8) b1 (Hn _ Ha) ltac:(lia) Hb1) as (m2 & -> & Hl2 & H2). bind.
  destruct (store_ok base 8 m2 b t Hb ltac:(lia) Ht) as (m3 & -> & Hl3 & H3). bind.
  destruct (store_ok base 8 m3 (b + 8) u (Hn _ Hb) ltac:(lia) Hu) as (m4 & -> & Hl4 & H4).
  exists m4. split; [done|]. split; [lia|].
  assert (forall i, i < 8 -> b1 !! i = mem !! (b + 8 + i)) as Hb1m.
  { intros i Hi. rewrite Hb1', H1 by done. case_decide; [lia|done]. }
  intros k. rewrite H4, H3, H2, H1.
  repeat case_decide; try lia; try done; rewrite ?Ht', ?Hu', ?Hb0', ?Hb1m by lia; f_equal; lia.
Qed.

Lemma exchanged_app {A} (mem m1 m2 : list A) a b w n :
  ranges_ok a b (w + n) (length mem) ->
  exchanged mem m1 a b w -> exchanged m1 m2 (a + w) (b + w) n -> exchanged mem m2 a b (w + n).
Proof.
  intros (Hab & Hla & Hlb) [Hl1 H1] [Hl2 H2]. split; [lia|]. intros k. rewrite H2, !H1.
  repeat case_decide; try lia; try done; f_equal; lia.
Qed.

Lemma aligned_add base w a k : w <> 0 -> aligned base w a -> aligned base w (a + k * w).
Proof.
  unfold aligned. intros Hw Ha.
  replace (base + Z.of_nat (a + k * w))%Z with (base + Z.of_nat a + Z.of_nat k * Z.of_nat w)%Z by lia.
  rewrite Z.mod_add by lia. done.
Qed.

Lemma exchange_words_ok base w mem a b count :
  w <> 0 -> aligned base w a -> aligned base w b -> ranges_ok a b (count * w) (length mem) ->
  exists mem', exchange_words base w mem a b count = Some mem' /\ exchanged mem mem' a b (count * w).
Proof.
  intros Hw. revert mem a b. induction count as [|count IH]; intros mem a b Ha Hb Hr; cbn [exchange_words].
  - exists mem. split; [done|]. split; [done|]. intros k. repeat case_decide; lia || done.
  - destruct (exchange_word_ok base w mem a b Ha Hb) as (m1 & -> & H1).
    { destruct Hr as (? & ? & ?). split; [|split]; lia. }
    bind. destruct (IH m1 (a + w) (b + w)) as (m2 & -> & H2).
    { pose proof (aligned_add base w a 1 Hw Ha). by rewrite Nat.mul_1_l in *. }
    { pose proof (aligned_add base w b 1 Hw Hb). by rewrite Nat.mul_1_l in *. }
    { destruct Hr as (? & ? & ?), H1 as [Hl1 _]. rewrite Hl1. split; [|split]; lia. }
    exists m2. split; [done|]. cbn [Nat.mul]. eapply exchanged_app; [|done..]. exact Hr.
Qed.

Lemma int128_loop_ok base mem a b count :
  aligned base 8 a -> aligned base 8 b -> ranges_ok a b (count * 16) (length mem) ->
  exists mem', int128_loop base mem a b count = Some mem' /\ exchanged mem mem' a b (count * 16).
Proof.
  revert mem a b. induction count as [|count IH]; intros mem a b Ha Hb Hr; cbn [int128_loop].
  - exists mem. split; [done|]. split; [done|]. intros k. repeat case_decide; lia || done.
  - destruct (exchange_one_int128_ok base mem a b 16 Ha Hb) as (m1 & -> & H1).
    { destruct Hr as (? & ? & ?). split; [|split]; lia. }
    bind. destruct (IH m1 (a + 16) (b + 16)) as (m2 & -> & H2).
    { exact (aligned_add base 8 a 2 ltac:(lia) Ha). }
    { exact (aligned_add base 8 b 2 ltac:(lia) Hb). }
    { destruct Hr as (? & ? & ?), H1 as [Hl1 _]. rewrite Hl1. split; [|split]; lia. }
    exists m2. split; [done|]. cbn [Nat.mul]. eapply exchanged_app; [|done..]. exact Hr.
Qed.

(** The selector of [exchange_func]: its low bits bound the alignment of both
    the array and the element size. *)
Lemma selector_aligned base sel p :
  (0 <= p <= 4 -> Z.land (Z.lor base sel) 15 mod 2 ^ p = 0 -> base mod 2 ^ p = 0 /\ sel mod 2 ^ p = 0)%Z.
Proof.
  intros Hp H. change 15%Z with (Z.ones 4) in H. rewrite Z.land_ones in H by lia.
  rewrite (Z.mod_mod_divide) in H by (exists (2 ^ (4 - p))%Z; rewrite <- Z.pow_add_r by lia; f_equal; lia).
  rewrite <- Z.land_ones, Z.land_lor_distr_l in H by lia. apply Z.lor_eq_0_iff in H as [H1 H2].
  rewrite Z.land_ones in H1, H2 by lia. done.
Qed.

(** What the sort passes: [n] bytes at [a] and [b], all three multiples of
    whatever power of two divides both the address and the selector. *)
Definition granular (base sel : Z) (a b n : nat) : Prop :=
  forall p, p <= 4 -> (base mod 2 ^ Z.of_nat p = 0)%Z -> (sel mod 2 ^ Z.of_nat p = 0)%Z ->
    aligned base (2 ^ p) a /\ aligned base (2 ^ p) b /\ n mod 2 ^ p = 0.

Lemma exchange_func_ok base sel mem a b n :
  granular base sel a b n -> ((sel <= 16)%Z -> Z.of_nat n = sel) -> ranges_ok a b n (length mem) ->
  exists mem', exchange_func base sel base mem a b n = Some mem' /\ exchanged mem mem' a b n.
Proof.
  intros Hg Hn Hr.
  assert (forall p w, w = 2 ^ p -> p <= 4 -> (Z.land (Z.lor base sel) 15 mod Z.of_nat w = 0)%Z ->
    aligned base w a /\ aligned base w b /\ n = n / w * w) as Hw.
  { intros p w -> Hp Hk. rewrite Nat2Z.inj_pow in Hk.
    destruct (selector_aligned base sel (Z.of_nat p) ltac:(lia) Hk) as [H1 H2].
    destruct (Hg p Hp H1 H2) as (? & ? & Hm).
    split; [done|]. split; [done|]. rewrite (Nat.div_mod_eq n (2 ^ p)) at 1. lia. }
  pose proof (Z.mod_pos_bound (Z.lor base sel) (2 ^ 4) ltac:(lia)) as Hk.
  rewrite <- Z.land_ones in Hk by lia. change (Z.ones 4) with 15%Z in Hk.
  unfold exchange_func. set (k := Z.land (Z.lor base sel) 15) in *.
  assert (forall p w (f one : exchange_f), w = 2 ^ p -> p <= 3 -> (k mod Z.of_nat w = 0)%Z ->
    f base mem a b n = exchange_words base w mem a b (n / w) ->
    one base mem a b n = exchange_word base w mem a b ->
    exists mem', (if (sel =? Z.of_nat w)%Z then one else f) base mem a b n = Some mem' /\
      exchanged mem mem' a b n) as Hwords.
  { intros p w f one Hwp Hp Hkw Ef Eone. destruct (Hw p w Hwp ltac:(lia) Hkw) as (Ha & Hb & Hnw).
    assert (w <> 0) by (subst w; by apply Nat.pow_nonzero).
    assert (w <= 8) by (subst w; change 8 with (2 ^ 3); apply Nat.pow_le_mono_r; lia).
    destruct (Z.eqb_spec sel (Z.of_nat w)) as [Hs|_].
    - assert (n = w) as Enw by lia. rewrite Eone, Enw. rewrite Enw in Hr. by apply exchange_word_ok.
    - rewrite Ef. rewrite Hnw in Hr. destruct (exchange_words_ok base w mem a b (n / w)) as (m & ? & Hm); [done..|].
      exists m. split; [done|]. by rewrite <- Hnw in Hm. }
  destruct (Z.eqb_spec k 0) as [H0|H0].
  { destruct (Hw 4 16 eq_refl ltac:(lia) ltac:(rewrite H0; done)) as (_ & _ & Hn16).
    destruct (Hw 3 8 eq_refl ltac:(lia) ltac:(rewrite H0; done)) as (Ha & Hb & _).
    destruct (Z.eqb_spec sel 16) as [Hs|_].
    - assert (n = 16) as -> by lia. by apply exchange_one_int128_ok.
    - unfold exchange_int128s. rewrite Hn16 in Hr. destruct (int128_loop_ok base mem a b (n / 16)) as (m & ? & Hm); [done..|].
      exists m. split; [done|]. by rewrite <- Hn16 in Hm. }
  destruct (Z.eqb_spec k 8); [apply (Hwords 3 8); [done|lia|by replace k with 8%Z|done..]|].
  destruct (Z.eqb_spec k 4); [apply (Hwords 2 4); [done|lia|by replace k with 4%Z|done..]|].
  destruct (Z.eqb_spec k 12); [apply (Hwords 2 4); [done|lia|by replace k with 12%Z|done..]|].
  destruct (Z.eqb_spec k 2); [apply (Hwords 1 2); [done|lia|by replace k with 2%Z|done..]|].
  destruct (Z.eqb_spec k 6); [apply (Hwords 1 2); [done|lia|by replace k with 6%Z|done..]|].
  destruct (Z.eqb_spec k 10); [apply (Hwords 1 2); [done|lia|by replace k with 10%Z|done..]|].
  destruct (Z.eqb_spec k 14); [apply (Hwords 1 2); [done|lia|by replace k with 14%Z|done..]|].
  apply (Hwords 0 1); [done|lia|by rewrite Z.mod_1_r| |done]. by rewrite Nat.div_1_r.
Qed.

Lemma exchanged_unique {A} (mem m1 m2 : list A) a b n :
  exchanged mem m1 a b n -> exchanged mem m2 a b n -> m1 = m2.
Proof. intros [_ H1] [_ H2]. apply list_eq. intros k. by rewrite H1, H2. Qed.

(** An array of elements of [size] bytes. *)
Definition elements (size : nat) (l : list (list Z)) : Prop := Forall (fun x => length x = size) l.

Lemma concat_lookup size l q r :
  elements size l -> r < size -> concat l !! (q * size + r) = l !! q ≫= (.!! r).
Proof.
  intros Hl Hr. revert q. induction Hl as [|x l Hx _ IH]; intros q; [by rewrite !lookup_nil|].
  cbn [concat]. destruct q as [|q].
  - rewrite lookup_app_l by lia. done.
  - rewrite lookup_app_r by lia. cbn [lookup list_lookup]. rewrite <- IH. f_equal. lia.
Qed.

Lemma concat_length size l : elements size l -> length (concat l) = length l * size.
Proof. induction 1 as [|x l Hx _ IH]; [done|]. cbn. rewrite length_app. lia. Qed.

Lemma exchanged_elements size l l' i j count :
  elements size l -> exchanged l l' i j count -> elements size l'.
Proof.
  intros Hl [_ H]. apply Forall_lookup. intros k x. rewrite H.
  repeat case_decide; intros Hx; by eapply (Forall_lookup_1 _ _ _ _ Hl).
Qed.

Lemma exchanged_concat size l l' i j count :
  size <> 0 -> elements size l -> exchanged l l' i j count ->
  exchanged (concat l) (concat l') (i * size) (j * size) (count * size).
Proof.
  intros Hs Hl Hx. pose proof (exchanged_elements _ _ _ _ _ _ Hl Hx) as Hl'. destruct Hx as [Hlen Hx].
  split; [rewrite !(concat_length size) by done; by rewrite Hlen|]. intros k.
  pose proof (Nat.div_mod_eq k size) as Hk. pose proof (Nat.mod_upper_bound k size Hs) as Hr.
  rewrite (Nat.mul_comm size) in Hk. set (q := k / size) in *. set (r := k mod size) in *. clearbody q r. subst k.
  assert (forall c, c * size <= q * size + r <-> c <= q) as Hle.
  { intros c. split; intros Hc; [|pose proof (Nat.mul_le_mono_r c q size Hc); lia].
    destruct (decide (c <= q)) as [|Hn]; [done|].
    pose proof (Nat.mul_le_mono_r (S q) c size ltac:(lia)). lia. }
  pose proof (Hle i). pose proof (Hle (i + count)). pose proof (Hle j). pose proof (Hle (j + count)).
  rewrite !Nat.mul_add_distr_r in *. rewrite (concat_lookup size l') by done. rewrite Hx.
  assert (forall c, c <= q -> c * size <= q * size) as Hmul by (intros; by apply Nat.mul_le_mono_r).
  pose proof (Hmul i). pose proof (Hmul j).
  repeat case_decide; try (exfalso; lia).
  - replace (q * size + r - i * size + j * size) with ((q - i + j) * size + r).
    2:{ rewrite Nat.mul_add_distr_r, Nat.mul_sub_distr_r. lia. }
    by rewrite (concat_lookup size l).
  - replace (q * size + r - j * size + i * size) with ((q - j + i) * size + r).
    2:{ rewrite Nat.mul_add_distr_r, Nat.mul_sub_distr_r. lia. }
    by rewrite (concat_lookup size l).
  - by rewrite (concat_lookup size l).
Qed.

Lemma multiples_granular base sel size i j count :
  (forall p, 0 <= p <= 4 -> sel mod 2 ^ p = 0 -> Z.of_nat size mod 2 ^ p = 0)%Z ->
  granular base sel (i * size) (j * size) (count * size).
Proof.
  intros Hsel p Hp Hb Hs. specialize (Hsel (Z.of_nat p) ltac:(lia) Hs).
  assert (2 ^ p <> 0) by (by apply Nat.pow_nonzero).
  change 2%Z with (Z.of_nat 2) in *. rewrite <- Nat2Z.inj_pow in *. rewrite <- Nat2Z.inj_mod in Hsel.
  assert (forall c, (c * size) mod 2 ^ p = 0) as Hc.
  { intros c. rewrite Nat.Div0.mul_mod. replace (size mod 2 ^ p) with 0 by lia. by rewrite Nat.mul_0_r, Nat.Div0.mod_0_l. }
  assert (forall c, aligned base (2 ^ p) (c * size)) as Ha; [|by auto].
  intros c. unfold aligned. rewrite Z.add_mod, Hb, <- Nat2Z.inj_mod, Hc by lia. apply Z.mod_0_l. lia.
Qed.

(** The exchange function picked from the alignment of the array and of its
    elements exchanges two elements of the array, and, picked for blocks, two
    blocks of elements that do not overlap, in 16, 8, 4, 2 or 1 byte steps, with
    every access aligned and inside the array. *)
Theorem exchange_func_swaps (base : Z) (size : nat) (l : list (list Z)) (i j : nat)
    (Hsize : 0 < size) (Hl : elements size l) (Hi : i < length l) (Hj : j < length l) :
  (exists l', swap l i j = Some l' /\
    exchange_func base (Z.of_nat size) base (concat l) (i * size) (j * size) size = Some (concat l')) /\
  forall count, i + count <= j -> j + count <= length l ->
    exists l', swap_block l i j count = Some l' /\
      exchange_func base (Z.lor (Z.of_nat size) 128) base (concat l) (i * size) (j * size) (count * size)
      = Some (concat l').
Proof.
  assert (forall c d, c <= d -> c * size <= d * size) as Hmul by (intros; by apply Nat.mul_le_mono_r).
  split.
  - destruct (swap_spec l i j Hi Hj) as (l' & -> & Hlen & H'). exists l'. split; [done|].
    assert (exchanged l l' i j 1) as Hx.
    { split; [done|]. intros k. rewrite H'. repeat case_decide; try lia; subst; f_equal; lia. }
    apply (exchanged_concat size) in Hx; [|lia|done]. rewrite Nat.mul_1_l in Hx.
    destruct (exchange_func_ok base (Z.of_nat size) (concat l) (i * size) (j * size) size) as (m & -> & Hm).
    + pose proof (multiples_granular base (Z.of_nat size) size i j 1 ltac:(done)) as Hg. by rewrite Nat.mul_1_l in Hg.
    + lia.
    + rewrite (concat_length size) by done. pose proof (Hmul (S i) (length l) Hi). pose proof (Hmul (S j) (length l) Hj).
      split; [|lia]. destruct (Nat.lt_trichotomy i j) as [Hij|[->|Hij]]; [pose proof (Hmul (S i) j Hij)| |pose proof (Hmul (S j) i Hij)]; lia.
    + by rewrite (exchanged_unique _ _ _ _ _ _ Hx Hm).
  - intros count Hij Hc. destruct (swap_block_spec l i j count Hij Hc) as (l' & -> & Hp & H'). exists l'. split; [done|].
    assert (exchanged l l' i j count) as Hx by (split; [by eapply perm_in_length|done]).
    apply (exchanged_concat size) in Hx; [|lia|done].
    destruct (exchange_func_ok base (Z.lor (Z.of_nat size) 128) (concat l) (i * size) (j * size) (count * size))
      as (m & -> & Hm).
    + apply multiples_granular. intros p Hp4 Hs. rewrite <- Z.land_ones, Z.land_lor_distr_l in Hs by lia.
      apply Z.lor_eq_0_iff in Hs as [Hs _]. by rewrite Z.land_ones in Hs by lia.
    + intros Hle. exfalso.
      assert (Z.testbit (Z.lor (Z.of_nat size) 128) 7 = true) as Ht by (rewrite Z.lor_spec; apply orb_true_r).
      rewrite Z.bits_above_log2 in Ht; [done| |].
      * apply Z.lor_nonneg. lia.
      * pose proof (Z.log2_le_mono _ _ Hle) as Hlog. change (Z.log2 16) with 4%Z in Hlog. lia.
    + rewrite (concat_length size) by done. pose proof (Hmul (j + count) (length l) Hc). pose proof (Hmul (i + count) j Hij).
      split; lia.
    + by rewrite (exchanged_unique _ _ _ _ _ _ Hx Hm).
Qed.

Lemma exchange_func_swaps_witness :
  exists l', swap [[1; 2; 3; 4; 5; 6]; [7; 8; 9; 10; 11; 12]; [0; 0; 0; 0; 0; 0]]%Z 0 1 = Some l' /\
    exchange_func 4098%Z 6%Z 4098%Z [1; 2; 3; 4; 5; 6; 7; 8; 9; 10; 11; 12; 0; 0; 0; 0; 0; 0]%Z 0 6 6 = Some (concat l').
Proof.
  exact (proj1 (exchange_func_swaps 4098%Z 6 [[1; 2; 3; 4; 5; 6]; [7; 8; 9; 10; 11; 12]; [0; 0; 0; 0; 0; 0]]%Z 0 1
    ltac:(lia) ltac:(repeat constructor) ltac:(cbn; lia) ltac:(cbn; lia))).
Defined.
