(* ===== verification/CharRange.v ===== *)
(** * Character ranges (libunicode.c, libunicode.h)

    A set of code points as an array of points: [points[2i], points[2i+1]) are
    its intervals.  The record keeps the [len] live points and the allocated
    [size]; [realloc_func] is the environment, a function telling whether a
    request of a given number of bytes succeeds.  Point counts are far below
    the range of [int] (a set of code points has fewer than 2^22 points), so
    they are unbounded here. *)
From Stdlib Require Import Sorted.
From S2P Require Import Prelude Sort SortProps.

Record CharRange := mk_cr { cr_points : list Z; cr_size : Z }.
Definition cr_len (cr : CharRange) : Z := Z.of_nat (length (cr_points cr)).

Inductive CharRangeOpEnum := CR_OP_UNION | CR_OP_INTER | CR_OP_XOR | CR_OP_SUB.

Definition UINT32_MAX : Z := 2 ^ 32 - 1.

(** ** Operations *)
Section Operations.
Context (realloc_ok : Z -> bool).

Definition cr_init : CharRange := mk_cr [] 0.

(** The result is [0] ([true]) or [-1] ([false]). *)
Definition cr_realloc (cr : CharRange) (size : Z) : CharRange * bool :=
  if cr_size cr <? size then
    let new_size := Z.max size (cr_size cr * 3 / 2) in
    if realloc_ok (new_size * 4) then (mk_cr (cr_points cr) new_size, true) else (cr, false)
  else (cr, true).

Definition cr_add_point (cr : CharRange) (v : Z) : CharRange * bool :=
  let '(cr, ok) := if cr_size cr <=? cr_len cr then cr_realloc cr (cr_len cr + 1) else (cr, true) in
  if ok then (mk_cr (cr_points cr ++ [v]) (cr_size cr), true) else (cr, false).

Definition cr_add_interval (cr : CharRange) (c1 c2 : Z) : CharRange * bool :=
  let '(cr, ok) := if cr_size cr <? cr_len cr + 2 then cr_realloc cr (cr_len cr + 2) else (cr, true) in
  if ok then (mk_cr (cr_points cr ++ [c1; c2]) (cr_size cr), true) else (cr, false).

Definition cr_copy (cr cr1 : CharRange) : CharRange * bool :=
  let '(cr, ok) := cr_realloc cr (cr_len cr1) in
  if ok then (mk_cr (cr_points cr1) (cr_size cr), true) else (cr, false).

(** [pt[i]]; the array is read inside its length only. *)
Definition pt_get (pt : list Z) (i : nat) : Z := default 0 (pt !! i).

(** [while ((j + 3) < len && pt[j + 1] == pt[j + 2]) j += 2] *)
Fixpoint compress_scan (fuel : nat) (pt : list Z) (len j : nat) : nat :=
  match fuel with
  | O => j
  | S fuel =>
      if (j + 3 <? len)%nat && (pt_get pt (j + 1) =? pt_get pt (j + 2))
      then compress_scan fuel pt len (j + 2) else j
  end.

(** The loop of [cr_compress], in place: the intervals up to [k] are final.
    The result is the array and the new length. *)
Fixpoint compress_loop (fuel : nat) (pt : list Z) (len i k : nat) : list Z * nat :=
  match fuel with
  | O => (pt, k)
  | S fuel =>
      if (i + 1 <? len)%nat then
        if pt_get pt i =? pt_get pt (i + 1) then compress_loop fuel pt len (i + 2) k
        else
          let j := compress_scan len pt len i in
          let pt := <[k := pt_get pt i]> pt in
          let pt := <[(k + 1)%nat := pt_get pt (j + 1)]> pt in
          compress_loop fuel pt len (j + 2) (k + 2)
      else (pt, k)
  end.

Definition cr_compress (cr : CharRange) : CharRange :=
  let len := length (cr_points cr) in
  let '(pt, k) := compress_loop len (cr_points cr) len 0 0 in
  mk_cr (take k pt) (cr_size cr).

(** The in/out status of the result, from the parities of the two indices. *)
Definition cr_is_in (op : CharRangeOpEnum) (a_idx b_idx : nat) : bool :=
  let a := Nat.odd a_idx in
  let b := Nat.odd b_idx in
  match op with
  | CR_OP_UNION => a || b
  | CR_OP_INTER => a && b
  | CR_OP_XOR => xorb a b
  | CR_OP_SUB => a && xorb b true
  end.

(** One more point from [a] or [b] in increasing order: the point and the new
    indices. *)
Definition cr_next (a_pt b_pt : list Z) (a_idx b_idx : nat) : option (Z * nat * nat) :=
  match a_pt !! a_idx, b_pt !! b_idx with
  | Some x, Some y =>
      if x <? y then Some (x, S a_idx, b_idx)
      else if x =? y then Some (x, S a_idx, S b_idx)
      else Some (y, a_idx, S b_idx)
  | Some x, None => Some (x, S a_idx, b_idx)
  | None, Some y => Some (y, a_idx, S b_idx)
  | None, None => None
  end.

Fixpoint cr_op_loop (fuel : nat) (cr : CharRange) (a_pt b_pt : list Z) (a_idx b_idx : nat)
    (op : CharRangeOpEnum) : CharRange * bool :=
  match fuel with
  | O => (cr, false)
  | S fuel =>
      match cr_next a_pt b_pt a_idx b_idx with
      | None => (cr, true)
      | Some (v, a_idx, b_idx) =>
          if xorb (cr_is_in op a_idx b_idx) (Nat.odd (length (cr_points cr))) then
            let '(cr, ok) := cr_add_point cr v in
            if ok then cr_op_loop fuel cr a_pt b_pt a_idx b_idx op else (cr, false)
          else cr_op_loop fuel cr a_pt b_pt a_idx b_idx op
      end
  end.

Definition cr_op (cr : CharRange) (a_pt b_pt : list Z) (op : CharRangeOpEnum) : CharRange * bool :=
  let '(cr, ok) := cr_op_loop (S (length a_pt + length b_pt)) cr a_pt b_pt 0 0 op in
  if ok then (cr_compress cr, true) else (cr, false).

Definition cr_op1 (cr : CharRange) (b_pt : list Z) (op : CharRangeOpEnum) : CharRange * bool :=
  cr_op cr_init (cr_points cr) b_pt op.

Definition cr_union_interval (cr : CharRange) (c1 c2 : Z) : CharRange * bool :=
  cr_op1 cr [c1; u32 (c2 + 1)] CR_OP_UNION.

Definition cr_invert (cr : CharRange) : CharRange * bool :=
  let '(cr, ok) := cr_realloc cr (cr_len cr + 2) in
  if ok then (cr_compress (mk_cr ([0] ++ cr_points cr ++ [UINT32_MAX]) (cr_size cr)), true)
  else (cr, false).
End Operations.

(** *** Sorting and merging overlapping intervals *)

(** The array as pairs, the elements that [rqsort] moves. *)
Fixpoint to_pairs (pt : list Z) : list (Z * Z) :=
  match pt with
  | s :: e :: pt => (s, e) :: to_pairs pt
  | _ => []
  end.
Fixpoint of_pairs (ps : list (Z * Z)) : list Z :=
  match ps with
  | [] => []
  | (s, e) :: ps => s :: e :: of_pairs ps
  end.

(** [point_cmp] compares the first word of each element. *)
Definition point_cmp (p1 p2 : Z * Z) : Z :=
  Z.b2z (p2.1 <? p1.1) - Z.b2z (p1.1 <? p2.1).

(** The inner [while]: absorb the intervals that start by [end_]. *)
Fixpoint overlap_scan (fuel : nat) (pt : list Z) (len i : nat) (end_ : Z) : nat * Z :=
  match fuel with
  | O => (i, end_)
  | S fuel =>
      if (i <? len)%nat then
        let start1 := pt_get pt i in
        let end1 := pt_get pt (i + 1) in
        if end_ <? start1 then (i, end_)
        else if end1 <=? end_ then overlap_scan fuel pt len (i + 2) end_
        else overlap_scan fuel pt len (i + 2) end1
      else (i, end_)
  end.

Fixpoint overlap_loop (fuel : nat) (pt : list Z) (len i j : nat) : list Z * nat :=
  match fuel with
  | O => (pt, j)
  | S fuel =>
      if (i <? len)%nat then
        let start := pt_get pt i in
        let end_ := pt_get pt (i + 1) in
        let '(i, end_) := overlap_scan len pt len (i + 2) end_ in
        let pt := <[(j + 1)%nat := end_]> (<[j := start]> pt) in
        overlap_loop fuel pt len i (j + 2)
      else (pt, j)
  end.

(** [None] is a fault of the sort. *)
Definition cr_sort_and_remove_overlap (cr : CharRange) : option CharRange :=
  sorted ← rqsort point_cmp (to_pairs (cr_points cr)) (length (cr_points cr) / 2) 8;
  let pt := of_pairs sorted in
  let '(pt, j) := overlap_loop (length pt) pt (length pt) 0 0 in
  Some (mk_cr (take j pt) (cr_size cr)).
