(* ===== verification/CharRangeProps.v ===== *)
(** * Correctness of the character ranges

    The set operations of [cr_op], [cr_invert] and the sort-and-merge pass, on
    arrays of points read as lists of half-open intervals. *)
From Stdlib Require Import Sorted.
From stdpp Require Import sorting.
From S2P Require Import Prelude Sort SortProps CharRange.

(** The set that an array of points stands for. *)
Fixpoint in_ranges (pts : list Z) (c : Z) : bool :=
  match pts with
  | s :: e :: pts => (s <=? c) && (c <? e) || in_ranges pts c
  | _ => false
  end.

(** Points in increasing order, as the operations expect and as they return
    them (without empty or adjacent intervals). *)
Definition weakly_sorted (pts : list Z) : Prop := StronglySorted Z.le pts /\ Nat.Even (length pts).
Definition strictly_sorted (pts : list Z) : Prop := StronglySorted Z.lt pts /\ Nat.Even (length pts).

Lemma strictly_weakly pts : strictly_sorted pts -> weakly_sorted pts.
Proof.
  intros [Hs He]. split; [|done]. clear He. induction Hs as [|x l Hs IH Hx]; constructor; [done|].
  eapply Forall_impl; [exact Hx|]. cbn. lia.
Qed.

(** ** Membership as a parity *)
Fixpoint par (pts : list Z) (c : Z) : bool :=
  match pts with
  | [] => false
  | p :: pts => xorb (p <=? c) (par pts c)
  end.

Lemma par_app p q c : par (p ++ q) c = xorb (par p c) (par q c).
Proof. induction p as [|x p IH]; cbn; [by destruct (par q c)|]. rewrite IH. by rewrite xorb_assoc. Qed.

Lemma par_above pts c : Forall (fun p => c < p) pts -> par pts c = false.
Proof. induction 1 as [|p pts Hp _ IH]; cbn; [done|]. rewrite IH. by rewrite (proj2 (Z.leb_gt _ _) Hp). Qed.

Lemma list_pair_ind (P : list Z -> Prop) :
  P [] -> (forall x, P [x]) -> (forall x y l, P l -> P (x :: y :: l)) -> forall l, P l.
Proof.
  intros H0 H1 H2. assert (forall n l, (length l <= n)%nat -> P l) as H; [|eauto].
  induction n as [|n IH]; intros [|x [|y l]] Hl; cbn in Hl; auto; try lia. apply H2, IH. lia.
Qed.

Lemma even_two n : Nat.Even (S (S n)) -> Nat.Even n.
Proof. intros [k Hk]. exists (k - 1)%nat. lia. Qed.

Lemma in_ranges_par pts c : weakly_sorted pts -> in_ranges pts c = par pts c.
Proof.
  intros [Hs He]. induction pts as [|x|s e pts IH] using list_pair_ind; [done| |].
  - destruct He as [k Hk]. cbn in Hk. lia.
  - apply StronglySorted_inv in Hs as [Hs Hx]. apply StronglySorted_inv in Hs as [Hs Hy].
    apply Forall_cons_1 in Hx as [Hse Hx]. cbn. rewrite IH by (done || by apply even_two).
    destruct (Z.leb_spec s c), (Z.leb_spec e c), (Z.ltb_spec c e); try lia; cbn; try done.
    + by destruct (par pts c).
    + rewrite par_above; [done|]. eapply Forall_impl; [exact Hy|]. cbn. lia.
Qed.

(** ** The compression pass *)

Lemma pt_get_Some pt i : (i < length pt)%nat -> pt !! i = Some (pt_get pt i).
Proof. intros [x Hx]%lookup_lt_is_Some_2. unfold pt_get. by rewrite Hx. Qed.

Lemma drop_get pt i : (i < length pt)%nat -> drop i pt = pt_get pt i :: drop (S i) pt.
Proof. intros Hi. by apply drop_S, pt_get_Some. Qed.

Lemma drop_get2 pt i : (i + 1 < length pt)%nat -> drop i pt = pt_get pt i :: pt_get pt (i + 1) :: drop (i + 2) pt.
Proof.
  intros Hi. rewrite drop_get, (drop_get _ (S i)) by lia.
  by replace (S i) with (i + 1)%nat by lia; replace (S (i + 1)) with (i + 2)%nat by lia.
Qed.

Lemma sorted_drop (R : Z -> Z -> Prop) n l : StronglySorted R l -> StronglySorted R (drop n l).
Proof.
  revert l. induction n as [|n IH]; intros l Hl; [by rewrite drop_0|].
  destruct l as [|x l]; [done|]. apply StronglySorted_inv in Hl as [Hl _]. by apply IH.
Qed.

Lemma compress_scan_spec fuel pt i :
  (i + 1 < length pt)%nat -> StronglySorted Z.le (drop i pt) -> (length pt <= i + fuel)%nat ->
  exists j, compress_scan fuel pt (length pt) i = j /\ (i <= j)%nat /\ (j + 1 < length pt)%nat /\
    (exists m, j = i + 2 * m)%nat /\ pt_get pt (i + 1) <= pt_get pt (j + 1) /\
    (forall c, par (drop (i + 1) pt) c = par (drop (j + 1) pt) c) /\
    ((j + 3 < length pt)%nat -> pt_get pt (j + 1) < pt_get pt (j + 2)).
Proof.
  revert i. induction fuel as [|fuel IH]; intros i Hi Hs Hf; [lia|]. cbn [compress_scan].
  destruct (Nat.ltb_spec (i + 3) (length pt)) as [Hl|Hl]; cbn [andb].
  2:{ exists i. repeat split; try lia. by exists 0%nat; lia. }
  assert (drop i pt = pt_get pt i :: pt_get pt (i + 1) :: pt_get pt (i + 2) :: pt_get pt (i + 3) :: drop (i + 4) pt) as Hd.
  { rewrite drop_get2, (drop_get2 _ (i + 2)) by lia. repeat (f_equal; try lia). }
  rewrite Hd in Hs. apply StronglySorted_inv in Hs as [Hs _]. apply StronglySorted_inv in Hs as [Hs H1].
  apply Forall_cons_1 in H1 as [H12 H1]. apply Forall_cons_1 in H1 as [H13 _].
  destruct (Z.eqb_spec (pt_get pt (i + 1)) (pt_get pt (i + 2))) as [He|He].
  2:{ exists i. repeat split; try lia. by exists 0%nat; lia. }
  destruct (IH (i + 2)%nat) as (j & -> & Hij & Hj & [m Hm] & Hle & Hp & Hn); [lia| |lia|].
  { rewrite drop_get2 by lia.
    replace (i + 2 + 1)%nat with (i + 3)%nat by lia. by replace (i + 2 + 2)%nat with (i + 4)%nat by lia. }
  exists j. split; [done|]. split; [lia|]. split; [lia|]. split; [by exists (S m); lia|].
  replace (i + 2 + 1)%nat with (i + 3)%nat in * by lia. split; [lia|]. split; [|done].
  intros c. rewrite <- Hp, drop_get2 by lia. replace (i + 1 + 1)%nat with (i + 2)%nat by lia.
  replace (i + 1 + 2)%nat with (i + 3)%nat by lia. cbn. rewrite He. by destruct (_ <=? _), (par _ _).
Qed.

(** What the pass makes of the points from [i] on. *)
Definition compressed (src dst : list Z) : Prop :=
  (forall c, par dst c = par src c) /\ strictly_sorted dst /\
  (forall b, Forall (fun p => b < p) src -> Forall (fun p => b < p) dst) /\
  (forall b, Forall (fun p => p <= b) src -> Forall (fun p => p <= b) dst).

Lemma compressed_nil : compressed [] [].
Proof. split_and!; [done| |done..]. split; [constructor|by exists 0%nat]. Qed.

Lemma compress_loop_spec fuel pt i k :
  StronglySorted Z.le (drop i pt) -> (k <= i <= length pt)%nat -> (length pt <= i + fuel)%nat ->
  (exists m, length pt = i + 2 * m)%nat ->
  exists pt' k' dst, compress_loop fuel pt (length pt) i k = (pt', k') /\
    take k' pt' = take k pt ++ dst /\ compressed (drop i pt) dst.
Proof.
  revert pt i k. induction fuel as [|fuel IH]; intros pt i k Hs Hk Hf [m Hm]; cbn [compress_loop].
  { exists pt, k, []. rewrite app_nil_r, drop_ge by lia. split; [done|]. split; [done|apply compressed_nil]. }
  destruct (Nat.ltb_spec (i + 1) (length pt)) as [Hi|Hi].
  2:{ exists pt, k, []. rewrite app_nil_r, drop_ge by lia. split; [done|]. split; [done|apply compressed_nil]. }
  pose proof (drop_get2 pt i ltac:(lia)) as Hd. pose proof Hs as Hs0. rewrite Hd in Hs.
  apply StronglySorted_inv in Hs as [Hs H1]. apply StronglySorted_inv in Hs as [Hs H2].
  apply Forall_cons_1 in H1 as [H01 H1].
  destruct (Z.eqb_spec (pt_get pt i) (pt_get pt (i + 1))) as [He|He].
  - destruct (IH pt (i + 2)%nat k) as (pt' & k' & dst & E & Ht & Hp & Hss & Hb & Hu); [done|lia|lia|by exists (m - 1)%nat; lia|].
    exists pt', k', dst. split; [done|]. split; [done|]. rewrite Hd. split_and!; [|done| |].
    + intros c. rewrite Hp. cbn. rewrite He. by destruct (_ <=? _), (par _ _).
    + intros b Hf'. apply Hb. by inversion_clear Hf' as [|?? _ Hf'']; inversion_clear Hf''.
    + intros b Hf'. apply Hu. by inversion_clear Hf' as [|?? _ Hf'']; inversion_clear Hf''.
  - destruct (compress_scan_spec (length pt) pt i) as (j & -> & Hij & Hj & [m' Hm'] & Hle & Hp & Hn); [lia|done|lia|].
    set (s := pt_get pt i) in *. set (pt1 := <[k := s]> pt).
    assert (length pt1 = length pt) as Hl1 by apply length_insert.
    assert (pt_get pt1 (j + 1) = pt_get pt (j + 1)) as ->.
    { unfold pt_get, pt1. by rewrite list_lookup_insert_ne by lia. }
    set (e := pt_get pt (j + 1)) in *. set (pt2 := <[(k + 1)%nat := e]> pt1).
    assert (length pt2 = length pt) as Hl2 by (unfold pt2; by rewrite length_insert).
    assert (drop (j + 2) pt2 = drop (j + 2) pt) as Hd2.
    { unfold pt2, pt1. by rewrite !drop_insert_lt by lia. }
    assert (StronglySorted Z.le (drop (j + 2) pt)) as Hs2.
    { replace (j + 2)%nat with (i + (2 * m' + 2))%nat by lia. rewrite <- drop_drop. by apply sorted_drop. }
    rewrite <- Hl2. destruct (IH pt2 (j + 2)%nat (k + 2)%nat) as (pt' & k' & dst & E & Ht & Hpd & [Hss Hev] & Hb & Hu);
      [by rewrite Hd2|lia|lia|exists (m - m' - 1)%nat; lia|]. rewrite Hd2 in *.
    exists pt', k', (s :: e :: dst). split; [done|].
    assert (s < e) as Hse by lia.
    assert (Forall (fun p => e < p) (drop (j + 2) pt)) as Hgt.
    { destruct (decide (j + 2 < length pt)%nat) as [Hj2|Hj2]; [|rewrite drop_ge by lia; constructor].
      pose proof (Hn ltac:(lia)) as Hej. rewrite drop_get in Hs2 |- * by lia.
      apply StronglySorted_inv in Hs2 as [_ Hs2]. constructor; [lia|]. eapply Forall_impl; [exact Hs2|]. cbn. lia. }
    split; [|split_and!].
    + rewrite Ht. replace (k + 2)%nat with (S (k + 1)) by lia.
      rewrite (take_S_r _ _ e) by (unfold pt2; apply list_lookup_insert_eq; lia).
      unfold pt2 at 1. rewrite take_insert_ge by lia.
      replace (k + 1)%nat with (S k) by lia.
      rewrite (take_S_r _ _ s) by (unfold pt1; apply list_lookup_insert_eq; lia).
      unfold pt1 at 1. rewrite take_insert_ge by lia. by rewrite <- !app_assoc.
    + intros c. cbn. rewrite Hpd. rewrite (drop_get pt i) by lia. cbn.
      replace (S i) with (i + 1)%nat by lia. rewrite Hp, (drop_get pt (j + 1)) by lia. cbn.
      by replace (S (j + 1)) with (j + 2)%nat by lia.
    + split; [|destruct Hev as [h Hh]; exists (S h); cbn; lia].
      pose proof (Hb e Hgt) as Hge. repeat constructor; [done|done|lia|].
      eapply Forall_impl; [exact Hge|]. cbn. lia.
    + intros b Hf'. rewrite (drop_get pt i) in Hf' by lia. apply Forall_cons_1 in Hf' as [Hbs _].
      constructor; [done|]. constructor; [fold s in Hbs; lia|]. apply Hb. eapply Forall_impl; [exact Hgt|]. cbn. fold s in Hbs. lia.
    + intros b Hf'. rewrite Forall_lookup in Hf'.
      assert (forall q x, (i <= q)%nat -> pt !! q = Some x -> x <= b) as Hall.
      { intros q x Hq Hx. apply (Hf' (q - i)%nat). rewrite lookup_drop. by replace (i + (q - i))%nat with q by lia. }
      constructor; [apply (Hall i); [lia|apply pt_get_Some; lia]|].
      constructor; [apply (Hall (j + 1)%nat); [lia|apply pt_get_Some; lia]|].
      apply Hu, Forall_lookup. intros q x. rewrite lookup_drop. apply Hall. lia.
Qed.

Lemma cr_compress_spec cr :
  weakly_sorted (cr_points cr) -> compressed (cr_points cr) (cr_points (cr_compress cr)).
Proof.
  intros [Hs He]. unfold cr_compress.
  destruct (compress_loop_spec (length (cr_points cr)) (cr_points cr) 0 0) as (pt' & k' & dst & E & Ht & Hc);
    [by rewrite drop_0|lia|lia| |].
  { destruct He as [h Hh]. exists h. lia. }
  rewrite E. cbn [cr_points]. rewrite Ht. by rewrite drop_0 in Hc.
Qed.

(** ** The set operations *)

(** The boolean operation of each [op]. *)
Definition op_bool (op : CharRangeOpEnum) (x y : bool) : bool :=
  match op with
  | CR_OP_UNION => x || y
  | CR_OP_INTER => x && y
  | CR_OP_XOR => xorb x y
  | CR_OP_SUB => x && negb y
  end.

Lemma cr_is_in_op op m n : cr_is_in op m n = op_bool op (Nat.odd m) (Nat.odd n).
Proof. destruct op; cbn; [done..|]. by destruct (Nat.odd n). Qed.

Section Ops.
Context (realloc_ok : Z -> bool).
Definition always_ok : Prop := forall n, realloc_ok n = true.

Lemma cr_realloc_spec cr size :
  cr_points (cr_realloc realloc_ok cr size).1 = cr_points cr /\
  (always_ok -> (cr_realloc realloc_ok cr size).2 = true).
Proof.
  unfold cr_realloc. destruct (_ <? _); [|done]. destruct (realloc_ok _) eqn:E; [done|].
  split; [done|]. intros H. by rewrite H in E.
Qed.

Lemma cr_add_point_spec cr v :
  (always_ok -> (cr_add_point realloc_ok cr v).2 = true) /\
  ((cr_add_point realloc_ok cr v).2 = true ->
    cr_points (cr_add_point realloc_ok cr v).1 = cr_points cr ++ [v]).
Proof.
  unfold cr_add_point. destruct (cr_realloc_spec cr (cr_len cr + 1)) as [H1 H2].
  destruct (_ <=? _); [|done]. destruct (cr_realloc _ _ _) as [cr' ok]. cbn in *.
  destruct ok; cbn; rewrite ?H1; [done|]. split; [|done]. intros H. by specialize (H2 H).
Qed.

Lemma cr_add_interval_spec cr c1 c2 :
  (always_ok -> (cr_add_interval realloc_ok cr c1 c2).2 = true) /\
  ((cr_add_interval realloc_ok cr c1 c2).2 = true ->
    cr_points (cr_add_interval realloc_ok cr c1 c2).1 = cr_points cr ++ [c1; c2]).
Proof.
  unfold cr_add_interval. destruct (cr_realloc_spec cr (cr_len cr + 2)) as [H1 H2].
  destruct (_ <? _); [|done]. destruct (cr_realloc _ _ _) as [cr' ok]. cbn in *.
  destruct ok; cbn; rewrite ?H1; [done|]. split; [|done]. intros H. by specialize (H2 H).
Qed.

(** The merge of two sorted arrays, from the indices [m] and [n] on: what is
    still to be read of each, and the next point. *)
Lemma cr_next_spec a b m n :
  StronglySorted Z.le (drop m a) -> StronglySorted Z.le (drop n b) ->
  match cr_next a b m n with
  | None => drop m a = [] /\ drop n b = []
  | Some (v, m', n') =>
      exists da db, drop m a = da ++ drop m' a /\ drop n b = db ++ drop n' b /\
        (da = [v] /\ m' = S m \/ da = [] /\ m' = m) /\ (db = [v] /\ n' = S n \/ db = [] /\ n' = n) /\
        (m' + n' <> m + n)%nat /\ (m' <= length a \/ m' = m)%nat /\ (n' <= length b \/ n' = n)%nat /\
        Forall (fun p => v <= p) (drop m a) /\ Forall (fun p => v <= p) (drop n b)
  end.
Proof.
  intros Ha Hb. unfold cr_next.
  assert (forall (l : list Z) k x, l !! k = Some x -> StronglySorted Z.le (drop k l) ->
    drop k l = [x] ++ drop (S k) l /\ (S k <= length l)%nat /\ Forall (fun p => x <= p) (drop k l)) as Hcons.
  { intros l k x Hx Hs. pose proof (lookup_lt_Some _ _ _ Hx). rewrite (drop_S _ _ _ Hx) in *.
    split; [done|]. split; [lia|]. apply StronglySorted_inv in Hs as [_ Hs]. by constructor. }
  assert (forall (l : list Z) k, l !! k = None -> drop k l = []) as Hnil by (intros l k ?; by apply drop_ge, lookup_ge_None).
  assert (forall x y l, x <= y -> Forall (fun p => y <= p) l -> Forall (fun p => x <= p) l) as Hmono.
  { intros x y l Hxy H. eapply Forall_impl; [exact H|]. cbn. lia. }
  destruct (a !! m) as [x|] eqn:Ex; destruct (b !! n) as [y|] eqn:Ey.
  - destruct (Hcons _ _ _ Ex Ha) as (Ea & La & Fa). destruct (Hcons _ _ _ Ey Hb) as (Eb & Lb & Fb).
    destruct (Z.ltb_spec x y); [|destruct (Z.eqb_spec x y); [subst y|]].
    + exists [x], []. split_and!; auto; try lia. by apply (Hmono x y); [lia|].
    + exists [x], [x]. split_and!; auto; lia.
    + exists [], [y]. split_and!; auto; try lia. by apply (Hmono y x); [lia|].
  - destruct (Hcons _ _ _ Ex Ha) as (Ea & La & Fa). exists [x], [].
    rewrite (Hnil b n) by done. split_and!; auto; try lia.
  - destruct (Hcons _ _ _ Ey Hb) as (Eb & Lb & Fb). exists [], [y].
    rewrite (Hnil a m) by done. split_and!; auto; try lia.
  - split; by apply Hnil.
Qed.

Lemma odd_succ n : Nat.odd (S n) = negb (Nat.odd n).
Proof. rewrite Nat.odd_succ. by rewrite <- Nat.negb_odd. Qed.

(** The points written for the rest of the input. *)
Definition merged (op : CharRangeOpEnum) (ia ib : bool) (a b out : list Z) : Prop :=
  (forall c, xorb (op_bool op ia ib) (par out c) = op_bool op (xorb ia (par a c)) (xorb ib (par b c))) /\
  StronglySorted Z.le out /\
  (forall v, Forall (fun p => v <= p) a -> Forall (fun p => v <= p) b -> Forall (fun p => v <= p) out) /\
  (forall v, Forall (fun p => p <= v) a -> Forall (fun p => p <= v) b -> Forall (fun p => p <= v) out).

Lemma merged_step op ia ib a b v da db a' b' out :
  a = da ++ a' -> b = db ++ b' -> da = [v] \/ da = [] -> db = [v] \/ db = [] ->
  Forall (fun p => v <= p) a -> Forall (fun p => v <= p) b ->
  let ia' := xorb ia (par da v) in
  let ib' := xorb ib (par db v) in
  merged op ia' ib' a' b' out ->
  merged op ia ib a b ((if xorb (op_bool op ia' ib') (op_bool op ia ib) then [v] else []) ++ out).
Proof.
  intros -> -> Hda Hdb Ha Hb ia' ib' (Hp & Hs & Hlo & Hhi).
  assert (ia' = xorb ia (par da v)) as Eia by done. assert (ib' = xorb ib (par db v)) as Eib by done.
  clearbody ia' ib'.
  assert (forall c d, d = [v] \/ d = [] -> par d c = (v <=? c) && par d v) as Hd.
  { intros c d [->| ->]; cbn; rewrite ?Z.leb_refl; by destruct (v <=? c). }
  assert (Forall (fun p => v <= p) out) as Hv.
  { apply Hlo; [by apply Forall_app in Ha as [_ ?]|by apply Forall_app in Hb as [_ ?]]. }
  assert (forall c l, c < v -> Forall (fun p => v <= p) l -> par l c = false) as Hlow.
  { intros c l Hc Hl. apply par_above. eapply Forall_impl; [exact Hl|]. cbn. lia. }
  split_and!.
  - intros c. destruct (Z.ltb_spec c v) as [Hc|Hc].
    + rewrite (Hlow c (da ++ a')), (Hlow c (db ++ b')), (Hlow c (_ ++ out)); [by rewrite !xorb_false_r|done| |done..].
      destruct (xorb (op_bool _ _ _) _); [by constructor|done].
    + rewrite !par_app. rewrite (Hd c da), (Hd c db) by done. rewrite (proj2 (Z.leb_le v c)) by lia. cbn [andb].
      rewrite <- !xorb_assoc. rewrite <- Eia, <- Eib, <- Hp.
      destruct (op_bool op ia' ib'), (op_bool op ia ib); cbn; rewrite ?(proj2 (Z.leb_le v c)) by lia; by destruct (par out c).
  - destruct (xorb (op_bool _ _ _) _); [|done]. by constructor.
  - intros u Hua Hub. apply Forall_app in Hua as [Hua1 Hua], Hub as [Hub1 Hub]. apply Forall_app. split; [|by apply Hlo].
    destruct (xorb (op_bool _ _ _) _) eqn:E; [|done]. constructor; [|done].
    destruct Hda as [->| ->]; [by inversion Hua1|]. destruct Hdb as [->| ->]; [by inversion Hub1|].
    exfalso. subst ia' ib'. cbn in E. by rewrite !xorb_false_r, xorb_nilpotent in E.
  - intros u Hua Hub. apply Forall_app in Hua as [Hua1 Hua], Hub as [Hub1 Hub]. apply Forall_app. split; [|by apply Hhi].
    destruct (xorb (op_bool _ _ _) _) eqn:E; [|done]. constructor; [|done].
    destruct Hda as [->| ->]; [by inversion Hua1|]. destruct Hdb as [->| ->]; [by inversion Hub1|].
    exfalso. subst ia' ib'. cbn in E. by rewrite !xorb_false_r, xorb_nilpotent in E.
Qed.

Lemma cr_op_loop_spec fuel cr a b m n op :
  StronglySorted Z.le (drop m a) -> StronglySorted Z.le (drop n b) ->
  (m <= length a)%nat -> (n <= length b)%nat -> (length a + length b < m + n + fuel)%nat ->
  Nat.odd (length (cr_points cr)) = cr_is_in op m n ->
  let '(cr', ok) := cr_op_loop realloc_ok fuel cr a b m n op in
  (always_ok -> ok = true) /\
  (ok = true -> exists out, cr_points cr' = cr_points cr ++ out /\
    merged op (Nat.odd m) (Nat.odd n) (drop m a) (drop n b) out /\
    Nat.odd (length (cr_points cr')) = cr_is_in op (length a) (length b)).
Proof.
  revert cr m n. induction fuel as [|fuel IH]; intros cr m n Ha Hb Hm Hn Hf Hodd; [lia|]. cbn [cr_op_loop].
  pose proof (cr_next_spec a b m n Ha Hb) as Hnext.
  destruct (cr_next a b m n) as [[[v m'] n']|].
  2:{ destruct Hnext as [Ea Eb]. split; [done|]. intros _. exists []. rewrite app_nil_r, Ea, Eb. split; [done|].
      assert (m = length a) as -> by (apply (f_equal length) in Ea; rewrite length_drop in Ea; cbn in Ea; lia).
      assert (n = length b) as -> by (apply (f_equal length) in Eb; rewrite length_drop in Eb; cbn in Eb; lia).
      split; [|done]. split_and!; [intros c; cbn; by rewrite !xorb_false_r|constructor|done|done]. }
  destruct Hnext as (da & db & Ea & Eb & Hda & Hdb & Hne & Hm' & Hn' & Fa & Fb).
  assert (StronglySorted Z.le (drop m' a)) as Ha' by (destruct Hda as [[_ ->]|[_ ->]]; [|done];
    replace (S m) with (m + 1)%nat by lia; rewrite <- drop_drop; by apply sorted_drop).
  assert (StronglySorted Z.le (drop n' b)) as Hb' by (destruct Hdb as [[_ ->]|[_ ->]]; [|done];
    replace (S n) with (n + 1)%nat by lia; rewrite <- drop_drop; by apply sorted_drop).
  assert (Nat.odd m' = xorb (Nat.odd m) (par da v)) as Em.
  { destruct Hda as [[-> ->]|[-> ->]]; cbn [par]; rewrite ?Z.leb_refl, ?odd_succ; by destruct (Nat.odd m). }
  assert (Nat.odd n' = xorb (Nat.odd n) (par db v)) as En.
  { destruct Hdb as [[-> ->]|[-> ->]]; cbn [par]; rewrite ?Z.leb_refl, ?odd_succ; by destruct (Nat.odd n). }
  assert (forall out, merged op (Nat.odd m') (Nat.odd n') (drop m' a) (drop n' b) out ->
    merged op (Nat.odd m) (Nat.odd n) (drop m a) (drop n b)
      ((if xorb (cr_is_in op m' n') (Nat.odd (length (cr_points cr))) then [v] else []) ++ out)) as Hstep.
  { intros out Hout. rewrite Hodd, !cr_is_in_op, Em, En in *.
    eapply merged_step; [exact Ea|exact Eb|tauto|tauto|done|done|done]. }
  destruct (xorb (cr_is_in op m' n') (Nat.odd (length (cr_points cr)))) eqn:Ex.
  - destruct (cr_add_point_spec cr v) as [Hok1 Hpts1].
    destruct (cr_add_point realloc_ok cr v) as [cr1 ok1]. cbn in Hok1, Hpts1.
    destruct ok1; [|split; [intros H; by specialize (Hok1 H)|done]]. specialize (Hpts1 eq_refl).
    specialize (IH cr1 m' n' Ha' Hb' ltac:(lia) ltac:(lia) ltac:(lia)).
    destruct (cr_op_loop realloc_ok fuel cr1 a b m' n' op) as [cr2 ok2].
    destruct IH as [Hok2 IH].
    { rewrite Hpts1, length_app. cbn [length]. rewrite Nat.add_1_r, odd_succ. revert Ex. by destruct (cr_is_in op m' n'), (Nat.odd (length _)). }
    split; [done|]. intros H2. destruct (IH H2) as (out & Hpts2 & Hmer & Hlen). exists (v :: out).
    split; [by rewrite Hpts2, Hpts1, <- app_assoc|]. split; [exact (Hstep out Hmer)|done].
  - specialize (IH cr m' n' Ha' Hb' ltac:(lia) ltac:(lia) ltac:(lia)).
    destruct (cr_op_loop realloc_ok fuel cr a b m' n' op) as [cr2 ok2].
    destruct IH as [Hok2 IH]; [revert Ex; by destruct (cr_is_in op m' n'), (Nat.odd (length _))|].
    split; [done|]. intros H2. destruct (IH H2) as (out & Hpts2 & Hmer & Hlen). exists out.
    split; [done|]. split; [exact (Hstep out Hmer)|done].
Qed.

Lemma even_odd n : Nat.Even n -> Nat.odd n = false.
Proof. intros H. rewrite <- Nat.negb_even. apply Nat.even_spec in H. by rewrite H. Qed.

(** [cr_op] on an empty destination. *)
Lemma cr_op_spec cr a b op :
  weakly_sorted a -> weakly_sorted b -> cr_points cr = [] ->
  let '(cr', ok) := cr_op realloc_ok cr a b op in
  (always_ok -> ok = true) /\
  (ok = true -> strictly_sorted (cr_points cr') /\
    (forall c, in_ranges (cr_points cr') c = op_bool op (in_ranges a c) (in_ranges b c)) /\
    (forall v, Forall (fun p => v <= p) a -> Forall (fun p => v <= p) b -> Forall (fun p => v <= p) (cr_points cr')) /\
    (forall v, Forall (fun p => p <= v) a -> Forall (fun p => p <= v) b -> Forall (fun p => p <= v) (cr_points cr'))).
Proof.
  intros Ha Hb Hcr. unfold cr_op.
  pose proof (cr_op_loop_spec (S (length a + length b)) cr a b 0 0 op (proj1 Ha) (proj1 Hb)
    ltac:(lia) ltac:(lia) ltac:(lia)) as H.
  rewrite Hcr in H. specialize (H ltac:(by destruct op)).
  destruct (cr_op_loop _ _ _ _ _ _ _ _) as [cr' ok]. destruct H as [Hok H].
  destruct ok; [|split; [done|done]]. split; [done|]. intros _.
  destruct (H eq_refl) as (out & Hpts & (Hp & Hs & Hlo & Hhi) & Hlen). rewrite !drop_0 in *.
  cbn [app] in Hpts. pose proof Ha as [Hsa Hea]. pose proof Hb as [Hsb Heb].
  assert (weakly_sorted (cr_points cr')) as Hw.
  { rewrite Hpts in *. split; [done|]. apply Nat.even_spec.
    rewrite <- Nat.negb_odd, Hlen, cr_is_in_op, !even_odd by done. by destruct op. }
  destruct (cr_compress_spec cr' Hw) as (Hc & Hss & Hclo & Hchi). split; [done|]. split_and!.
  - intros c. rewrite (in_ranges_par _ c (strictly_weakly _ Hss)), Hc, Hpts, (in_ranges_par a), (in_ranges_par b) by done.
    specialize (Hp c). change (Nat.odd 0) with false in Hp. rewrite !xorb_false_l in Hp. rewrite <- Hp.
    by destruct op.
  - intros v Hva Hvb. specialize (Hclo (v - 1)). rewrite Hpts in Hclo.
    eapply Forall_impl; [apply Hclo; eapply Forall_impl; [exact (Hlo v Hva Hvb)|cbn; lia]|]. cbn. lia.
  - intros v Hva Hvb. apply Hchi. rewrite Hpts. auto.
Qed.

Lemma cr_invert_spec cr :
  weakly_sorted (cr_points cr) -> Forall (fun p => 0 <= p <= UINT32_MAX) (cr_points cr) ->
  let '(cr', ok) := cr_invert realloc_ok cr in
  (always_ok -> ok = true) /\
  (ok = true -> strictly_sorted (cr_points cr') /\
    Forall (fun p => 0 <= p <= UINT32_MAX) (cr_points cr') /\
    forall c, 0 <= c < UINT32_MAX -> in_ranges (cr_points cr') c = negb (in_ranges (cr_points cr) c)).
Proof.
  intros Hw Hr. unfold cr_invert. destruct (cr_realloc_spec cr (cr_len cr + 2)) as [Hpts Hok].
  destruct (cr_realloc _ _ _) as [cr1 ok]. cbn [fst snd] in *.
  destruct ok; [|by split]. split; [done|]. intros _. rewrite Hpts.
  set (pts := [0] ++ cr_points cr ++ [UINT32_MAX]). set (cr2 := mk_cr pts (cr_size cr1)).
  assert (weakly_sorted pts) as Hw2.
  { destruct Hw as [Hs [h Hh]]. split.
    - constructor; [|apply Forall_app; split; [eapply Forall_impl; [exact Hr|cbn; lia]|by constructor]].
      apply StronglySorted_app_2; [|done|by repeat constructor].
      intros x y Hx Hy. apply list_elem_of_singleton in Hy as ->.
      rewrite Forall_forall in Hr. specialize (Hr x Hx). cbn in Hr. lia.
    - exists (S h). unfold pts. rewrite !length_app. cbn. lia. }
  destruct (cr_compress_spec cr2 Hw2) as (Hc & Hss & Hlo & Hhi). split; [done|]. split.
  - assert (Forall (fun p => 0 <= p <= UINT32_MAX) pts) as Hp.
    { constructor; [done|]. apply Forall_app. split; [done|]. by constructor. }
    apply Forall_and. split.
    + eapply Forall_impl; [apply (Hlo (-1)); eapply Forall_impl; [exact Hp|cbn; lia]|]. cbn. lia.
    + apply Hhi. eapply Forall_impl; [exact Hp|]. cbn. lia.
  - intros c Hc'. rewrite (in_ranges_par _ c (strictly_weakly _ Hss)), Hc, (in_ranges_par (cr_points cr)) by done.
    unfold cr2, pts. cbn [cr_points app par]. rewrite par_app. cbn [par].
    rewrite (proj2 (Z.leb_le 0 c)), (proj2 (Z.leb_gt UINT32_MAX c)) by lia. by destruct (par _ c).
Qed.
End Ops.

(** ** Sorting and merging overlapping intervals *)

Lemma of_to_pairs pt : Nat.Even (length pt) -> of_pairs (to_pairs pt) = pt.
Proof.
  induction pt as [|x|s e pt IH] using list_pair_ind; intros He; [done| |].
  - destruct He as [k Hk]. cbn in Hk. lia.
  - cbn. by rewrite IH by (by apply even_two).
Qed.
Lemma of_pairs_length ps : length (of_pairs ps) = (2 * length ps)%nat.
Proof. induction ps as [|[s e] ps IH]; cbn in *; lia. Qed.
Lemma to_pairs_length pt : length (to_pairs pt) = (length pt / 2)%nat.
Proof.
  induction pt as [|x|s e pt IH] using list_pair_ind; [done|done|]. cbn [to_pairs length]. rewrite IH.
  replace (S (S (length pt))) with (1 * 2 + length pt)%nat by lia. rewrite Nat.div_add_l by lia. lia.
Qed.

(** The set of a list of intervals does not depend on their order. *)
Definition in_pairs (ps : list (Z * Z)) (c : Z) : Prop := exists p, p ∈ ps /\ p.1 <= c < p.2.
Lemma in_ranges_pairs ps c : in_ranges (of_pairs ps) c = true <-> in_pairs ps c.
Proof.
  unfold in_pairs. induction ps as [|[s e] ps IH]; cbn.
  - split; [done|]. intros (p & []%elem_of_nil & _).
  - rewrite orb_true_iff, andb_true_iff, IH, Z.leb_le, Z.ltb_lt. split.
    + intros [H|(p & Hp & H)]; [exists (s, e)|exists p]; split; try done; by constructor.
    + intros (p & [->|Hp]%elem_of_cons & H); [by left|right; eauto].
Qed.

Lemma drop_pair pt i s e qs :
  drop i pt = of_pairs ((s, e) :: qs) ->
  (i + 1 < length pt)%nat /\ pt_get pt i = s /\ pt_get pt (i + 1) = e /\ drop (i + 2) pt = of_pairs qs.
Proof.
  intros H. cbn in H.
  assert (i + 1 < length pt)%nat as Hi by (apply (f_equal length) in H; rewrite length_drop in H; cbn in H; lia).
  rewrite (drop_get2 pt i Hi) in H. by injection H as -> -> ->.
Qed.
Lemma drop_nopair pt i : drop i pt = of_pairs [] -> (length pt <= i)%nat.
Proof. intros H. apply (f_equal length) in H. rewrite length_drop in H. cbn in H. lia. Qed.

Definition start_le (p q : Z * Z) : Prop := p.1 <= q.1.

Lemma overlap_scan_spec fuel pt start qs i end_ :
  drop i pt = of_pairs qs -> (length qs < fuel)%nat ->
  StronglySorted start_le qs -> Forall (fun p => start <= p.1) qs ->
  exists pre qs' i' end', overlap_scan fuel pt (length pt) i end_ = (i', end') /\
    drop i' pt = of_pairs qs' /\ (i <= i')%nat /\ qs = pre ++ qs' /\ end_ <= end' /\
    (forall c, (start <= c < end_ \/ in_pairs qs c) <-> (start <= c < end' \/ in_pairs qs' c)) /\
    Forall (fun p => end' < p.1) qs'.
Proof.
  revert qs i end_. induction fuel as [|fuel IH]; intros qs i end_ Hd Hf Hs Hst; [lia|]. cbn [overlap_scan].
  destruct qs as [|[s e] qs].
  { apply drop_nopair in Hd as Hi. rewrite (proj2 (Nat.ltb_ge _ _) Hi).
    exists [], [], i, end_. split_and!; try done; lia. }
  destruct (drop_pair _ _ _ _ _ Hd) as (Hi & -> & -> & Hd'). rewrite (proj2 (Nat.ltb_lt _ _)) by lia.
  apply StronglySorted_inv in Hs as [Hs Hse]. apply Forall_cons_1 in Hst as [Hss Hst].
  destruct (Z.ltb_spec end_ s) as [Hgt|Hle].
  { exists [], ((s, e) :: qs), i, end_. split_and!; try done; try lia. constructor; [done|].
    eapply Forall_impl; [exact Hse|]. unfold start_le. cbn. lia. }
  assert (exists end1, (if e <=? end_ then end_ else e) = end1 /\ end1 = Z.max end_ e) as (end1 & E1 & Hmax).
  { eexists. split; [done|]. destruct (Z.leb_spec e end_); lia. }
  destruct (IH qs (i + 2)%nat end1) as (pre & qs' & i' & end' & E & Hdi & Hii & -> & Hend & Hmem & Hgt);
    [done|cbn in Hf; lia|done|done|].
  exists ((s, e) :: pre), qs', i', end'. split.
  { rewrite <- E, <- E1. by destruct (e <=? end_). }
  split_and!; try done; try lia. intros c. rewrite <- Hmem. cbn in Hss. split.
  - intros [H|(p & [->|Hp]%elem_of_cons & H)]; [left; lia|left; cbn in H; lia|right; by exists p].
  - intros [H|(p & Hp & H)]; [|right; exists p; split; [by right|done]].
    destruct (decide (c < end_)); [left; lia|]. right. exists (s, e). split; [by left|]. cbn. lia.
Qed.

Lemma overlap_loop_spec fuel pt qs i j :
  drop i pt = of_pairs qs -> (length qs <= fuel)%nat -> (j <= i)%nat ->
  StronglySorted start_le qs -> Forall (fun p => p.1 < p.2) qs ->
  exists pt' j' rs, overlap_loop fuel pt (length pt) i j = (pt', j') /\
    take j' pt' = take j pt ++ of_pairs rs /\ (forall c, in_pairs rs c <-> in_pairs qs c) /\
    strictly_sorted (of_pairs rs) /\
    (forall b, Forall (fun p => b < p.1) qs -> Forall (fun p => b < p) (of_pairs rs)).
Proof.
  revert pt qs i j. induction fuel as [|fuel IH]; intros pt qs i j Hd Hf Hj Hs Hne; cbn [overlap_loop].
  { destruct qs; [|cbn in Hf; lia]. exists pt, j, []. rewrite app_nil_r. split_and!; try done. split; [constructor|by exists 0%nat]. }
  destruct qs as [|[s e] qs].
  { apply drop_nopair in Hd as Hi'. rewrite (proj2 (Nat.ltb_ge _ _) Hi').
    exists pt, j, []. rewrite app_nil_r. split_and!; try done. split; [constructor|by exists 0%nat]. }
  destruct (drop_pair _ _ _ _ _ Hd) as (Hi' & -> & -> & Hd'). rewrite (proj2 (Nat.ltb_lt _ _)) by lia.
  apply StronglySorted_inv in Hs as [Hs Hse]. apply Forall_cons_1 in Hne as [Hsne Hne].
  destruct (overlap_scan_spec (length pt) pt s qs (i + 2) e)
    as (pre & qs' & i' & end' & E & Hdi & Hii & -> & Hend & Hmem & Hgt); [done| |done|done|].
  { apply (f_equal length) in Hd'. rewrite length_drop, of_pairs_length in Hd'. lia. }
  rewrite E. set (pt1 := <[(j + 1)%nat := end']> (<[j := s]> pt)).
  assert (length pt1 = length pt) as Hl by (unfold pt1; by rewrite !length_insert).
  assert (drop i' pt1 = of_pairs qs') as Hd1 by (unfold pt1; by rewrite !drop_insert_lt by lia).
  apply StronglySorted_app in Hs as (_ & _ & Hs). apply Forall_app in Hne as [_ Hne].
  rewrite <- Hl. destruct (IH pt1 qs' i' (j + 2)%nat) as (pt' & j' & rs & -> & Ht & Hrs & [Hss [h Hh]] & Hb);
    [done|cbn in Hf; rewrite length_app in Hf; lia|lia|done|done|].
  exists pt', j', ((s, end') :: rs). pose proof (Hb end' Hgt) as Hge. split; [done|]. split_and!.
  - rewrite Ht. replace (j + 2)%nat with (S (j + 1)) by lia.
    rewrite (take_S_r _ _ end') by (unfold pt1; apply list_lookup_insert_eq; rewrite length_insert; lia).
    unfold pt1 at 1. rewrite take_insert_ge by lia. replace (j + 1)%nat with (S j) by lia.
    rewrite (take_S_r _ _ s) by (apply list_lookup_insert_eq; lia).
    rewrite take_insert_ge by lia. by rewrite <- !app_assoc.
  - intros c. unfold in_pairs in *. cbn in Hsne. specialize (Hmem c). specialize (Hrs c). split.
    + intros (p & [->|Hp]%elem_of_cons & H).
      * destruct (proj2 Hmem (or_introl H)) as [H'|(q & Hq & H')]; [exists (s, e)|exists q]; (split; [|done]); by constructor.
      * destruct (proj2 Hmem (or_intror (proj1 Hrs (ex_intro _ p (conj Hp H))))) as [H'|(q & Hq & H')];
          [exists (s, e)|exists q]; (split; [|done]); by constructor.
    + intros (p & Hp & H).
      assert (s <= c < e \/ exists p0, p0 ∈ pre ++ qs' /\ p0.1 <= c < p0.2) as [H'|H']%Hmem.
      { apply elem_of_cons in Hp as [->|Hp]; [by left|right; eauto]. }
      * exists (s, end'). split; [by left|done].
      * destruct (proj2 Hrs H') as (q & Hq & ?). exists q. split; [by right|done].
  - cbn in Hsne. split; [|exists (S h); cbn; lia]. cbn. repeat constructor; [done|done|lia|].
    eapply Forall_impl; [exact Hge|]. cbn. lia.
  - intros b [Hbs _]%Forall_cons_1. cbn in Hbs, Hsne. cbn. repeat constructor; [lia|lia|].
    eapply Forall_impl; [exact Hge|]. cbn. lia.
Qed.

#[global] Instance point_cmp_order : CmpOrder point_cmp.
Proof.
  split; unfold point_cmp.
  - intros x y. destruct (Z.ltb_spec x.1 y.1), (Z.ltb_spec y.1 x.1); cbn; lia.
  - intros x y z. destruct (Z.ltb_spec x.1 y.1), (Z.ltb_spec y.1 x.1), (Z.ltb_spec z.1 y.1), (Z.ltb_spec y.1 z.1),
      (Z.ltb_spec x.1 z.1), (Z.ltb_spec z.1 x.1); cbn; lia.
Qed.

Lemma sort_and_remove_overlap_spec cr :
  Nat.Even (length (cr_points cr)) -> Forall (fun p => p.1 < p.2) (to_pairs (cr_points cr)) ->
  exists cr', cr_sort_and_remove_overlap cr = Some cr' /\ strictly_sorted (cr_points cr') /\
    (forall c, in_ranges (cr_points cr') c = in_ranges (cr_points cr) c).
Proof.
  intros He Hne. unfold cr_sort_and_remove_overlap.
  destruct (rqsort_sorts point_cmp (to_pairs (cr_points cr)) 8 ltac:(lia)) as (ps & Hps & Hperm & Hsort).
  rewrite to_pairs_length in Hps. rewrite Hps. bind. specialize (Hsort point_cmp_order).
  assert (StronglySorted start_le ps) as Hs.
  { clear -Hsort. induction Hsort as [|x l _ IH Hx]; constructor; [done|]. eapply Forall_impl; [exact Hx|].
    intros y. unfold point_cmp, start_le. cbn. destruct (Z.ltb_spec x.1 y.1), (Z.ltb_spec y.1 x.1); cbn; lia. }
  assert (Forall (fun p => p.1 < p.2) ps) as Hne' by (by rewrite Hperm).
  destruct (overlap_loop_spec (length (of_pairs ps)) (of_pairs ps) ps 0 0) as (pt' & j' & rs & -> & Ht & Hm & Hss & Hb);
    [by rewrite drop_0|rewrite of_pairs_length; lia|lia|done|done|].
  eexists. split; [done|]. cbn [cr_points]. rewrite Ht, take_0. cbn [app]. split; [done|].
  intros c. apply eq_true_iff_eq. rewrite in_ranges_pairs, Hm, <- (of_to_pairs (cr_points cr)), in_ranges_pairs by done.
  unfold in_pairs. split; intros (p & Hp & H); exists p; (split; [|done]); [by rewrite <- Hperm|by rewrite Hperm].
Qed.

(** C34: the set operations: on sorted arrays the four operations give the
    union, intersection, symmetric difference and difference of the sets, and
    [cr_invert] the complement, as arrays in strictly increasing order; the only
    failure is a refused reallocation, and then the result is [-1]. *)
Theorem cr_op_correct (realloc_ok : Z -> bool) (a b : list Z) (op : CharRangeOpEnum)
    (Ha : weakly_sorted a) (Hb : weakly_sorted b) (Hu : Forall (fun p => 0 <= p <= UINT32_MAX) a) :
  let '(cr, ok) := cr_op realloc_ok cr_init a b op in
  let '(inv, inv_ok) := cr_invert realloc_ok (mk_cr a (Z.of_nat (length a))) in
  (always_ok realloc_ok -> ok = true /\ inv_ok = true) /\
  (ok = true -> strictly_sorted (cr_points cr) /\
    forall c, in_ranges (cr_points cr) c = op_bool op (in_ranges a c) (in_ranges b c)) /\
  (inv_ok = true -> strictly_sorted (cr_points inv) /\
    forall c, 0 <= c < UINT32_MAX -> in_ranges (cr_points inv) c = negb (in_ranges a c)).
Proof.
  pose proof (cr_op_spec realloc_ok cr_init a b op Ha Hb eq_refl) as H1.
  pose proof (cr_invert_spec realloc_ok (mk_cr a (Z.of_nat (length a))) Ha Hu) as H2.
  destruct (cr_op _ _ _ _ _) as [cr ok], (cr_invert _ _) as [inv inv_ok].
  destruct H1 as [Hok1 H1], H2 as [Hok2 H2]. split; [intros H; split; auto|]. split.
  - intros E. destruct (H1 E) as (Hs & Hm & _). by split.
  - intros E. destruct (H2 E) as (Hs & _ & Hm). by split.
Qed.

Lemma cr_op_correct_witness :
  let '(cr, ok) := cr_op (fun _ => true) cr_init [1; 5; 8; 12] [3; 9] CR_OP_SUB in
  ok = true /\ cr_points cr = [1; 3; 9; 12] /\
  forall c, in_ranges (cr_points cr) c = op_bool CR_OP_SUB (in_ranges [1; 5; 8; 12] c) (in_ranges [3; 9] c).
Proof.
  assert (weakly_sorted [1; 5; 8; 12]) as Ha by (split; [repeat constructor; lia|by exists 2%nat]).
  assert (weakly_sorted [3; 9]) as Hb by (split; [repeat constructor; lia|by exists 1%nat]).
  pose proof (cr_op_correct (fun _ => true) [1; 5; 8; 12] [3; 9] CR_OP_SUB Ha Hb ltac:(by repeat constructor)) as H.
  split; [vm_compute; reflexivity|]. split; [vm_compute; reflexivity|]. exact (proj2 (proj1 (proj2 H) eq_refl)).
Defined.

(** The merge of overlapping intervals: any array of non-empty intervals,
    in any order, becomes one in strictly increasing order with the same
    elements; sorting and merging always end. *)
Theorem sort_and_remove_overlap_correct (cr : CharRange)
    (Heven : Nat.Even (length (cr_points cr)))
    (Hne : Forall (fun p => p.1 < p.2) (to_pairs (cr_points cr))) :
  exists cr', cr_sort_and_remove_overlap cr = Some cr' /\ strictly_sorted (cr_points cr') /\
    (forall c, in_ranges (cr_points cr') c = in_ranges (cr_points cr) c).
Proof. by apply sort_and_remove_overlap_spec. Qed.

Lemma sort_and_remove_overlap_witness :
  exists cr', cr_sort_and_remove_overlap (mk_cr [20; 30; 0; 5; 29; 40; 5; 9] 8) = Some cr' /\
    strictly_sorted (cr_points cr') /\
    (forall c, in_ranges (cr_points cr') c = in_ranges [20; 30; 0; 5; 29; 40; 5; 9] c).
Proof.
  exact (sort_and_remove_overlap_correct (mk_cr [20; 30; 0; 5; 29; 40; 5; 9] 8)
    (ex_intro _ 4%nat eq_refl) ltac:(by repeat constructor)).
Defined.
