(* ===== verification/UnicodeCase.v ===== *)
(** * Case conversion and case folding (libunicode.c)

    The table-driven conversions, on the tables of UnicodeTables.v.  A read past
    the end of a table, a failed assertion and an exhausted recursion are
    [None]. *)
From S2P Require Import Prelude Sort CharRange UnicodeTables.

(** [RUN_TYPE_*]: the type field of a table entry is a number below 16. *)
Definition RUN_TYPE_U := 0.
Definition RUN_TYPE_L := 1.
Definition RUN_TYPE_UF := 2.
Definition RUN_TYPE_LF := 3.
Definition RUN_TYPE_UL := 4.
Definition RUN_TYPE_LSU := 5.
Definition RUN_TYPE_U2L_399_EXT2 := 6.
Definition RUN_TYPE_UF_D20 := 7.
Definition RUN_TYPE_UF_D1_EXT := 8.
Definition RUN_TYPE_U_EXT := 9.
Definition RUN_TYPE_LF_EXT := 10.
Definition RUN_TYPE_UF_EXT2 := 11.
Definition RUN_TYPE_LF_EXT2 := 12.
Definition RUN_TYPE_UF_EXT3 := 13.

(** The fields of an entry of [case_conv_table1]. *)
Definition entry_code (v : Z) : Z := Z.shiftr v (32 - 17).
Definition entry_len (v : Z) : Z := Z.land (Z.shiftr v (32 - 17 - 7)) 0x7f.
Definition entry_type (v : Z) : Z := Z.land (Z.shiftr v (32 - 17 - 7 - 4)) 0xf.

(** An array access. *)
Definition get (tab : list Z) (i : Z) : option Z := if i <? 0 then None else tab !! Z.to_nat i.

(** [lre_case_conv_entry]; [conv1] is [lre_case_conv1(., 1)].  The result is
    the [res] array up to the returned length. *)
Definition lre_case_conv_entry (conv1 : Z -> option Z) (c conv_type idx v : Z) : option (list Z) :=
  let is_lower := Z.b2z (negb (conv_type =? 0)) in
  let type := entry_type v in
  t2 ← get case_conv_table2 idx;
  let data := Z.lor (Z.shiftl (Z.land v 0xf) 8) t2 in
  let code := entry_code v in
  if (type =? RUN_TYPE_U) || (type =? RUN_TYPE_L) || (type =? RUN_TYPE_UF) || (type =? RUN_TYPE_LF) then
    if (conv_type =? Z.land type 1) || ((RUN_TYPE_UF <=? type) && (conv_type =? 2)) then
      t1 ← get case_conv_table1 data;
      Some [u32 (c - code + Z.shiftr t1 (32 - 17))]
    else Some [c]
  else if type =? RUN_TYPE_UL then
    let a := u32 (c - code) in
    if negb (Z.land a 1 =? 1 - is_lower) then Some [c]
    else Some [u32 (Z.lxor a 1 + code)]
  else if type =? RUN_TYPE_LSU then
    let a := u32 (c - code) in
    if a =? 1 then Some [u32 (c + (2 * is_lower - 1))]
    else if a =? (1 - is_lower) * 2 then Some [u32 (c + (2 * is_lower - 1) * 2)]
    else Some [c]
  else if type =? RUN_TYPE_U2L_399_EXT2 then
    if is_lower =? 0 then
      x ← get case_conv_ext (Z.shiftr data 6);
      Some [u32 (c - code + x); 0x399]
    else
      x ← get case_conv_ext (Z.land data 0x3f);
      Some [u32 (c - code + x)]
  else if type =? RUN_TYPE_UF_D20 then
    if conv_type =? 1 then Some [c] else Some [data + Z.b2z (conv_type =? 2) * 0x20]
  else if type =? RUN_TYPE_UF_D1_EXT then
    if conv_type =? 1 then Some [c]
    else x ← get case_conv_ext data; Some [x + Z.b2z (conv_type =? 2)]
  else if (type =? RUN_TYPE_U_EXT) || (type =? RUN_TYPE_LF_EXT) then
    if negb (is_lower =? type - RUN_TYPE_U_EXT) then Some [c]
    else x ← get case_conv_ext data; Some [x]
  else if type =? RUN_TYPE_LF_EXT2 then
    if is_lower =? 0 then Some [c]
    else
      x ← get case_conv_ext (Z.shiftr data 6);
      y ← get case_conv_ext (Z.land data 0x3f);
      Some [u32 (c - code + x); y]
  else if type =? RUN_TYPE_UF_EXT2 then
    if conv_type =? 1 then Some [c]
    else
      x ← get case_conv_ext (Z.shiftr data 6);
      y ← get case_conv_ext (Z.land data 0x3f);
      let x := u32 (c - code + x) in
      if conv_type =? 2 then
        x ← conv1 x; y ← conv1 y; Some [x; y]
      else Some [x; y]
  else
    if conv_type =? 1 then Some [c]
    else
      x ← get case_conv_ext (Z.shiftr data 8);
      y ← get case_conv_ext (Z.land (Z.shiftr data 4) 0xf);
      z ← get case_conv_ext (Z.land data 0xf);
      if conv_type =? 2 then
        x ← conv1 x; y ← conv1 y; z ← conv1 z; Some [x; y; z]
      else Some [x; y; z].

(** The binary search shared by [lre_case_conv], [lre_canonicalize] and
    [lre_is_cased]: [Some None] when the code is in no entry. *)
Fixpoint case_search (fuel : nat) (c idx_min idx_max : Z) : option (option (Z * Z)) :=
  match fuel with
  | O => None
  | S fuel =>
      if idx_min <=? idx_max then
        let idx := (idx_max + idx_min) / 2 in
        v ← get case_conv_table1 idx;
        if c <? entry_code v then case_search fuel c idx_min (idx - 1)
        else if entry_code v + entry_len v <=? c then case_search fuel c (idx + 1) idx_max
        else Some (Some (idx, v))
      else Some None
  end.
Definition case_count : nat := length case_conv_table1.
Definition case_find (c : Z) : option (option (Z * Z)) :=
  case_search (S case_count) c 0 (Z.of_nat case_count - 1).

(** ['A' <= c <= 'Z'] and ['a' <= c <= 'z']. *)
Definition is_upper_ascii (c : Z) : bool := (65 <=? c) && (c <=? 90).
Definition is_lower_ascii (c : Z) : bool := (97 <=? c) && (c <=? 122).

(** The recursion goes through [lre_case_conv1(., 1)], which does not recurse
    further: two levels are enough ([case_conv_total]). *)
Fixpoint lre_case_conv (fuel : nat) (c conv_type : Z) : option (list Z) :=
  match fuel with
  | O => None
  | S fuel =>
      if c <? 128 then
        if negb (conv_type =? 0) then Some [if is_upper_ascii c then c - 65 + 97 else c]
        else Some [if is_lower_ascii c then c - 97 + 65 else c]
      else
        e ← case_find c;
        match e with
        | Some (idx, v) =>
            lre_case_conv_entry (fun c => res ← lre_case_conv fuel c 1; res !! 0%nat) c conv_type idx v
        | None => Some [c]
        end
  end.
Definition lre_case_conv1 (fuel : nat) (c conv_type : Z) : option Z :=
  res ← lre_case_conv fuel c conv_type; res !! 0%nat.

Definition lre_case_folding_entry (c idx v : Z) (is_unicode : bool) : option Z :=
  if is_unicode then
    res ← lre_case_conv_entry (fun c => lre_case_conv1 1 c 1) c 2 idx v;
    match res with
    | [r] => Some r
    | _ =>
        if c =? 0xfb06 then Some 0xfb05
        else if c =? 0x1fd3 then Some 0x390
        else if c =? 0x1fe3 then Some 0x3b0
        else Some c
    end
  else if c <? 128 then Some (if is_lower_ascii c then c - 97 + 65 else c)
  else
    res ← lre_case_conv_entry (fun c => lre_case_conv1 1 c 1) c 0 idx v;
    match res with
    | [r] => Some (if 128 <=? r then r else c)
    | _ => Some c
    end.

Definition lre_canonicalize (c : Z) (is_unicode : bool) : option Z :=
  if c <? 128 then
    if is_unicode then Some (if is_upper_ascii c then c - 65 + 97 else c)
    else Some (if is_lower_ascii c then c - 97 + 65 else c)
  else
    e ← case_find c;
    match e with
    | Some (idx, v) => lre_case_folding_entry c idx v is_unicode
    | None => Some c
    end.

(** *** Sets of characters *)

Definition CASE_U := 1.
Definition CASE_L := 2.
Definition CASE_F := 4.

Definition MR (x : Z) : Z := Z.shiftl 1 x.
Definition mask_of (l : list Z) : Z := foldr (fun x m => Z.lor (MR x) m) 0 l.
Definition tab_run_mask : list Z := [
  mask_of [RUN_TYPE_U; RUN_TYPE_UF; RUN_TYPE_UL; RUN_TYPE_LSU; RUN_TYPE_U2L_399_EXT2; RUN_TYPE_UF_D20;
           RUN_TYPE_UF_D1_EXT; RUN_TYPE_U_EXT; RUN_TYPE_UF_EXT2; RUN_TYPE_UF_EXT3];
  mask_of [RUN_TYPE_L; RUN_TYPE_LF; RUN_TYPE_UL; RUN_TYPE_LSU; RUN_TYPE_U2L_399_EXT2; RUN_TYPE_LF_EXT;
           RUN_TYPE_LF_EXT2];
  mask_of [RUN_TYPE_UF; RUN_TYPE_LF; RUN_TYPE_UL; RUN_TYPE_LSU; RUN_TYPE_U2L_399_EXT2; RUN_TYPE_LF_EXT;
           RUN_TYPE_LF_EXT2; RUN_TYPE_UF_D20; RUN_TYPE_UF_D1_EXT; RUN_TYPE_LF_EXT; RUN_TYPE_UF_EXT2; RUN_TYPE_UF_EXT3]].

(** Reporting: [(cr, true)] is success, [(cr, false)] is [return -1]. *)
Definition then_ (r : CharRange * bool) (k : CharRange -> CharRange * bool) : CharRange * bool :=
  if r.2 then k r.1 else (r.1, false).

Section Sets.
Context (realloc_ok : Z -> bool).
#[local] Abbreviation cr_add_interval := (cr_add_interval realloc_ok).

(** [for(i = 0; i < len; i += 2) cr_add_interval(cr, code + i, code + i + 1)] *)
Fixpoint add_every_other (fuel : nat) (cr : CharRange) (code i len : Z) : CharRange * bool :=
  match fuel with
  | O => (cr, true)
  | S fuel =>
      if i <? len then
        then_ (cr_add_interval cr (code + i) (code + i + 1))
          (fun cr => add_every_other fuel cr code (i + 2) len)
      else (cr, true)
  end.

Definition unicode_case_entry (cr : CharRange) (case_mask v : Z) : CharRange * bool :=
  let type := entry_type v in
  let code := entry_code v in
  let len := entry_len v in
  let has m := negb (Z.land case_mask m =? 0) in
  let both := has CASE_U && has (Z.lor CASE_L CASE_F) in
  if (type =? RUN_TYPE_UL) && negb both then
    let code := code + Z.b2z (has CASE_U) in
    add_every_other (Z.to_nat len) cr code 0 len
  else if (type =? RUN_TYPE_LSU) && negb both then
    then_ (if negb (has CASE_U) then cr_add_interval cr code (code + 1) else (cr, true)) (fun cr =>
    then_ (cr_add_interval cr (code + 1) (code + 2)) (fun cr =>
    if has CASE_U then cr_add_interval cr (code + 2) (code + 3) else (cr, true)))
  else cr_add_interval cr code (code + len).

Fixpoint unicode_case_loop (tab : list Z) (cr : CharRange) (case_mask mask : Z) : CharRange * bool :=
  match tab with
  | [] => (cr, true)
  | v :: tab =>
      if Z.testbit mask (entry_type v) then
        then_ (unicode_case_entry cr case_mask v) (fun cr => unicode_case_loop tab cr case_mask mask)
      else unicode_case_loop tab cr case_mask mask
  end.

(** The union of the run masks selected by [case_mask]. *)
Definition run_mask (case_mask : Z) : Z :=
  foldr Z.lor 0 (imap (fun i m => if Z.testbit case_mask (Z.of_nat i) then m else 0) tab_run_mask).

Definition unicode_case1 (cr : CharRange) (case_mask : Z) : CharRange * bool :=
  if case_mask =? 0 then (cr, true)
  else unicode_case_loop case_conv_table1 cr case_mask (run_mask case_mask).

(** The [for(;;)] that advances to the entry of [c]; [None] is the failed
    assertion. *)
Fixpoint seek_entry (fuel : nat) (c idx : Z) : option (Z * Z) :=
  match fuel with
  | O => None
  | S fuel =>
      v ← get case_conv_table1 idx;
      if (entry_code v <=? c) && (c <? entry_code v + entry_len v) then Some (idx, v)
      else seek_entry fuel c (idx + 1)
  end.

(** The state of the scan: the table index, the interval being built and the
    result so far.  [d_start == -1] is the 32-bit [UINT32_MAX]. *)
Record scan := mk_scan { sc_idx : Z; sc_start : Z; sc_end : Z; sc_result : CharRange }.

(** One character [c]; the result of [cr_add_interval] is ignored, as in the
    source. *)
Definition canon_char (is_unicode : bool) (c : Z) (s : scan) : option scan :=
  '(idx, v) ← seek_entry (S case_count) c (sc_idx s);
  d ← lre_case_folding_entry c idx v is_unicode;
  if sc_start s =? UINT32_MAX then Some (mk_scan idx d (u32 (d + 1)) (sc_result s))
  else if sc_end s =? d then Some (mk_scan idx (sc_start s) (u32 (sc_end s + 1)) (sc_result s))
  else Some (mk_scan idx d (u32 (d + 1)) (cr_add_interval (sc_result s) (sc_start s) (sc_end s)).1).

Fixpoint canon_interval (is_unicode : bool) (count : nat) (c : Z) (s : scan) : option scan :=
  match count with
  | O => Some s
  | S count => s ← canon_char is_unicode c s; canon_interval is_unicode count (c + 1) s
  end.

Fixpoint canon_loop (is_unicode : bool) (inter : list Z) (s : scan) : option scan :=
  match inter with
  | start :: end_ :: inter =>
      s ← canon_interval is_unicode (Z.to_nat (end_ - start)) start s;
      canon_loop is_unicode inter s
  | _ => Some s
  end.

Definition cr_regexp_canonicalize (cr : CharRange) (is_unicode : bool) : option (CharRange * bool) :=
  let fail := Some (cr, false) in
  let '(cr_mask, ok) := unicode_case1 cr_init (if is_unicode then CASE_F else CASE_U) in
  if negb ok then fail else
  let '(cr_inter, ok) := cr_op realloc_ok cr_init (cr_points cr_mask) (cr_points cr) CR_OP_INTER in
  if negb ok then fail else
  let '(cr_mask, ok) := cr_invert realloc_ok cr_mask in
  if negb ok then fail else
  let '(cr_sub, ok) := cr_op realloc_ok cr_init (cr_points cr_mask) (cr_points cr) CR_OP_INTER in
  if negb ok then fail else
  s ← canon_loop is_unicode (cr_points cr_inter) (mk_scan 0 UINT32_MAX UINT32_MAX cr_init);
  let '(cr_result, ok) :=
    if sc_start s =? UINT32_MAX then (sc_result s, true)
    else cr_add_interval (sc_result s) (sc_start s) (sc_end s) in
  if negb ok then fail else
  cr_result ← cr_sort_and_remove_overlap cr_result;
  Some (cr_op realloc_ok (mk_cr [] (cr_size cr)) (cr_points cr_result) (cr_points cr_sub) CR_OP_UNION).
End Sets.
