(* ===== verification/UnicodeCaseProps.v ===== *)
(** * Correctness of case conversion and canonicalization

    The binary search finds the entry of a code point; the conversions are
    total on the actual tables; canonicalization is idempotent; and the set
    version [cr_regexp_canonicalize] computes the image of a set under
    [lre_canonicalize].  Facts about the 378 table entries are checked by
    evaluation, on every code point of every entry. *)
From Stdlib Require Import Sorted.
From S2P Require Import Prelude Sort CharRange CharRangeProps UnicodeTables UnicodeCase.

Definition entry_end (v : Z) : Z := entry_code v + entry_len v.
Definition in_entry (v c : Z) : Prop := entry_code v <= c < entry_end v.

(** ** The order of the table *)
Fixpoint entries_sorted (tab : list Z) : bool :=
  match tab with
  | [] => true
  | v :: tab => (0 <? entry_len v) && (0 <=? entry_code v) &&
      match tab with [] => true | w :: _ => entry_end v <=? entry_code w end && entries_sorted tab
  end.

Lemma table_sorted : entries_sorted case_conv_table1 = true.
Proof. vm_compute. reflexivity. Qed.

Lemma entries_sorted_lookup tab i j v w :
  entries_sorted tab = true -> (i < j)%nat -> tab !! i = Some v -> tab !! j = Some w -> entry_end v <= entry_code w.
Proof.
  revert i j v w. induction tab as [|x tab IH]; intros i j v w Hs Hij Hi Hj; [done|].
  cbn [entries_sorted] in Hs. rewrite !andb_true_iff in Hs. destruct Hs as [[[Hl Hc] Hx] Hs].
  destruct j as [|j]; [lia|]. cbn in Hj. destruct i as [|i].
  - injection Hi as ->. destruct tab as [|y tab]; [done|]. apply Z.leb_le in Hx.
    destruct j as [|j]; [by injection Hj as ->|].
    pose proof (IH 0%nat (S j) y w Hs ltac:(lia) eq_refl Hj).
    cbn [entries_sorted] in Hs. rewrite !andb_true_iff, Z.ltb_lt in Hs. unfold entry_end in *. lia.
  - exact (IH i j v w Hs ltac:(lia) Hi Hj).
Qed.

Lemma get_spec tab i v : get tab i = Some v <-> 0 <= i /\ tab !! Z.to_nat i = Some v.
Proof. unfold get. destruct (Z.ltb_spec i 0); [|tauto]. split; [done|]. intros [? _]. lia. Qed.

Lemma table_before i j v w :
  get case_conv_table1 i = Some v -> get case_conv_table1 j = Some w -> i < j -> entry_end v <= entry_code w.
Proof.
  intros [Hi Hv]%get_spec [Hj Hw]%get_spec Hij.
  eapply entries_sorted_lookup; [exact table_sorted| |exact Hv|exact Hw]. lia.
Qed.

Lemma entry_unique i j v w c :
  get case_conv_table1 i = Some v -> get case_conv_table1 j = Some w -> in_entry v c -> in_entry w c -> i = j.
Proof.
  intros Hi Hj Hv Hw. unfold in_entry in *. destruct (Z.lt_trichotomy i j) as [H|[->|H]]; [|done|].
  - pose proof (table_before _ _ _ _ Hi Hj H). lia.
  - pose proof (table_before _ _ _ _ Hj Hi H). lia.
Qed.

(** ** The binary search *)
Lemma case_search_spec fuel c lo hi :
  0 <= lo -> lo <= hi + 1 -> hi < Z.of_nat case_count -> hi - lo + 1 < Z.of_nat fuel ->
  (forall i v, get case_conv_table1 i = Some v -> in_entry v c -> lo <= i <= hi) ->
  (exists i v, case_search fuel c lo hi = Some (Some (i, v)) /\ get case_conv_table1 i = Some v /\ in_entry v c) \/
  (case_search fuel c lo hi = Some None /\ forall i v, get case_conv_table1 i = Some v -> ~ in_entry v c).
Proof.
  revert lo hi. induction fuel as [|fuel IH]; intros lo hi Hlo Hlh Hhi Hf Hin; [lia|].
  cbn [case_search]. destruct (Z.leb_spec lo hi) as [Hle|Hgt].
  2:{ right. split; [done|]. intros i v Hv H. specialize (Hin i v Hv H). lia. }
  pose proof (Z.div_mod (hi + lo) 2 ltac:(lia)). pose proof (Z.mod_pos_bound (hi + lo) 2 ltac:(lia)).
  set (mid := (hi + lo) / 2) in *.
  destruct (get case_conv_table1 mid) as [v|] eqn:Ev.
  2:{ exfalso. unfold get in Ev. destruct (Z.ltb_spec mid 0); [lia|]. apply lookup_ge_None in Ev. unfold case_count in *. lia. }
  bind. fold (entry_end v). destruct (Z.ltb_spec c (entry_code v)) as [Hc|Hc].
  - apply IH; [lia..|]. intros i w Hw Hcw. specialize (Hin i w Hw Hcw). split; [lia|].
    destruct (Z.le_gt_cases i (mid - 1)) as [|Hi]; [done|]. exfalso. unfold in_entry in Hcw.
    destruct (decide (i = mid)) as [->|]; [simplify_eq; lia|].
    pose proof (table_before mid i v w Ev Hw ltac:(lia)). unfold entry_end in *.
    assert (0 <= entry_len v) by (apply Z.land_nonneg; right; lia). lia.
  - destruct (Z.leb_spec (entry_end v) c) as [Hc'|Hc'].
    + apply IH; [lia..|]. intros i w Hw Hcw. specialize (Hin i w Hw Hcw). split; [|lia].
      destruct (Z.le_gt_cases (mid + 1) i) as [|Hi]; [done|]. exfalso. unfold in_entry in Hcw.
      destruct (decide (i = mid)) as [->|]; [simplify_eq; lia|].
      pose proof (table_before i mid w v Hw Ev ltac:(lia)). unfold entry_end in *. lia.
    + left. exists mid, v. split; [done|]. by split.
Qed.

Lemma case_find_spec c :
  (exists i v, case_find c = Some (Some (i, v)) /\ get case_conv_table1 i = Some v /\ in_entry v c) \/
  (case_find c = Some None /\ forall i v, get case_conv_table1 i = Some v -> ~ in_entry v c).
Proof.
  apply case_search_spec; [lia..|]. intros i v [Hi Hv]%get_spec _.
  apply lookup_lt_Some in Hv. unfold case_count. lia.
Qed.

(** ** Facts checked on every code point of every entry *)
Fixpoint check_range (P : Z -> bool) (count : nat) (c : Z) : bool :=
  match count with
  | O => true
  | S count => P c && check_range P count (c + 1)
  end.
Fixpoint check_entries (P : Z -> Z -> Z -> bool) (tab : list Z) (idx : Z) : bool :=
  match tab with
  | [] => true
  | v :: tab => check_range (P idx v) (Z.to_nat (entry_len v)) (entry_code v) && check_entries P tab (idx + 1)
  end.

Lemma check_range_sound P count c d :
  check_range P count c = true -> c <= d < c + Z.of_nat count -> P d = true.
Proof.
  revert c. induction count as [|count IH]; intros c H Hd; [lia|]. cbn in H.
  apply andb_true_iff in H as [H1 H2]. destruct (decide (d = c)) as [->|]; [done|]. apply (IH _ H2). lia.
Qed.

Lemma check_entries_sound P tab k idx v c :
  check_entries P tab k = true -> k <= idx -> tab !! Z.to_nat (idx - k) = Some v -> in_entry v c -> P idx v c = true.
Proof.
  revert k. induction tab as [|w tab IH]; intros k H Hk Hv Hc; [done|]. cbn [check_entries] in H.
  apply andb_true_iff in H as [H1 H2]. destruct (decide (idx = k)) as [->|Hne].
  - rewrite Z.sub_diag in Hv. injection Hv as ->. eapply check_range_sound; [exact H1|].
    unfold in_entry, entry_end in Hc. lia.
  - apply (IH (k + 1)); [done|lia| |done].
    by replace (Z.to_nat (idx - k)) with (S (Z.to_nat (idx - (k + 1)))) in Hv by lia.
Qed.

Lemma table_check P idx v c :
  check_entries P case_conv_table1 0 = true -> get case_conv_table1 idx = Some v -> in_entry v c -> P idx v c = true.
Proof.
  intros H [Hi Hv]%get_spec Hc. eapply check_entries_sound; [exact H|done| |done]. by rewrite Z.sub_0_r.
Qed.

Definition code_point (c : Z) : bool := (0 <=? c) && (c <? 0x110000).

(** The conversion of [c], through an entry. *)
Definition conv_ok (r : option (list Z)) : bool :=
  match r with
  | Some res => (1 <=? Z.of_nat (length res)) && (Z.of_nat (length res) <=? 3) && forallb code_point res
  | None => false
  end.
Definition opt_is (r : option Z) (c : Z) : bool := match r with Some d => d =? c | None => false end.

(** A heap where every reallocation succeeds. *)
Definition all_ok (n : Z) : bool := true.

(** The points of the mask computed by [unicode_case1]. *)
Definition mask_points (is_unicode : bool) : list Z :=
  cr_points (unicode_case1 all_ok cr_init (if is_unicode then CASE_F else CASE_U)).1.

Definition fold_ok (mask : list Z) (is_unicode : bool) (idx v c : Z) : bool :=
  match lre_canonicalize c is_unicode with
  | Some d => code_point d && opt_is (lre_case_folding_entry c idx v is_unicode) d &&
      opt_is (lre_canonicalize d is_unicode) d && (in_ranges mask c || (d =? c))
  | None => false
  end.

Lemma fold_check is_unicode : check_entries (fold_ok (mask_points is_unicode) is_unicode) case_conv_table1 0 = true.
Proof. destruct is_unicode; vm_compute; reflexivity. Qed.

Lemma conv_check : check_entries (fun _ _ c => (c <? 128) ||
    conv_ok (lre_case_conv 2 c 0) && conv_ok (lre_case_conv 2 c 1) && conv_ok (lre_case_conv 2 c 2))
  case_conv_table1 0 = true.
Proof. vm_compute. reflexivity. Qed.

(** The facts about one code point. *)
Lemma fold_facts is_unicode idx v c :
  get case_conv_table1 idx = Some v -> in_entry v c ->
  exists d, lre_canonicalize c is_unicode = Some d /\ 0 <= d < 0x110000 /\
    lre_case_folding_entry c idx v is_unicode = Some d /\ lre_canonicalize d is_unicode = Some d /\
    (in_ranges (mask_points is_unicode) c = false -> d = c).
Proof.
  intros Hv Hc. pose proof (table_check _ _ _ _ (fold_check is_unicode) Hv Hc) as H. unfold fold_ok in H.
  destruct (lre_canonicalize c is_unicode) as [d|]; [|done]. exists d.
  rewrite !andb_true_iff, orb_true_iff, Z.eqb_eq in H. destruct H as [[[H1 H2] H3] H4].
  unfold code_point in H1. rewrite andb_true_iff, Z.leb_le, Z.ltb_lt in H1.
  assert (forall r, opt_is r d = true -> r = Some d) as Ho.
  { intros [x|] Hx; [|done]. cbn in Hx. apply Z.eqb_eq in Hx. by subst. }
  split; [done|]. split; [lia|]. split; [by apply Ho|]. split; [by apply Ho|].
  intros Hm. destruct H4 as [H4|H4]; congruence.
Qed.

(** Canonicalization of any code point, in an entry or not. *)
Lemma canonicalize_facts is_unicode c :
  0 <= c ->
  exists d, lre_canonicalize c is_unicode = Some d /\ (c < 0x110000 -> 0 <= d < 0x110000) /\
    lre_canonicalize d is_unicode = Some d /\ (in_ranges (mask_points is_unicode) c = false -> d = c).
Proof.
  intros Hc. destruct (case_find_spec c) as [(i & v & Hf & Hv & Hin)|[Hf Hno]].
  - destruct (fold_facts is_unicode i v c Hv Hin) as (d & H1 & H2 & _ & H3 & H4). exists d. auto.
  - assert (lre_canonicalize c is_unicode = Some c) as E; [|by exists c].
    unfold lre_canonicalize. destruct (Z.ltb_spec c 128) as [Hlt|Hge]; [|by rewrite Hf].
    assert (~ 65 <= c < 91) as Hu by exact (Hno 0 0x00209a30 eq_refl).
    assert (~ 97 <= c < 123) as Hl by exact (Hno 1 0x00309a00 eq_refl).
    unfold is_upper_ascii, is_lower_ascii.
    destruct is_unicode; destruct (Z.leb_spec 65 c), (Z.leb_spec c 90), (Z.leb_spec 97 c), (Z.leb_spec c 122); cbn; done || lia.
Qed.

(** Case conversion on the actual tables: every conversion of every 32-bit
    code ends without a read outside a table, gives one to three codes, and
    code points for code points; regular-expression canonicalization is total
    and idempotent in both modes. *)
Theorem case_conv_total (c : Z) (Hc : 0 <= c < 2 ^ 32) :
  (forall conv_type, conv_type = 0 \/ conv_type = 1 \/ conv_type = 2 ->
    exists res, lre_case_conv 2 c conv_type = Some res /\ (1 <= length res <= 3)%nat /\
      (c < 0x110000 -> forallb code_point res = true)) /\
  (forall is_unicode, exists d, lre_canonicalize c is_unicode = Some d /\ (c < 0x110000 -> 0 <= d < 0x110000) /\
    lre_canonicalize d is_unicode = Some d).
Proof.
  split.
  2:{ intros u. destruct (canonicalize_facts u c (proj1 Hc)) as (d & H1 & H2 & H3 & _). eauto. }
  intros t Ht. destruct (Z.ltb_spec c 128) as [Hlt|Hge].
  - cbn [lre_case_conv]. rewrite (proj2 (Z.ltb_lt _ _) Hlt). unfold is_upper_ascii, is_lower_ascii.
    destruct (negb (t =? 0)); (eexists; split; [done|]; split; [cbn; lia|]);
      intros _; unfold code_point; cbn [forallb]; rewrite andb_true_r, andb_true_iff, Z.leb_le, Z.ltb_lt;
      destruct (Z.leb_spec 65 c), (Z.leb_spec c 90), (Z.leb_spec 97 c), (Z.leb_spec c 122); cbn; lia.
  - destruct (case_find_spec c) as [(i & v & Hf & Hv & Hin)|[Hf Hno]].
    + pose proof (table_check _ _ _ _ conv_check Hv Hin) as H. cbv beta in H.
      rewrite (proj2 (Z.ltb_ge _ _) Hge), orb_false_l, !andb_true_iff in H. destruct H as [[H0 H1] H2].
      assert (conv_ok (lre_case_conv 2 c t) = true) as Hok by (destruct Ht as [->|[->| ->]]; assumption).
      unfold conv_ok in Hok. destruct (lre_case_conv 2 c t) as [res|]; [|done]. exists res. split; [done|].
      rewrite !andb_true_iff, !Z.leb_le in Hok. destruct Hok as [[? ?] Hall]. split; [lia|done].
    + exists [c]. cbn [lre_case_conv]. rewrite (proj2 (Z.ltb_ge _ _) Hge), Hf. bind.
      split; [done|]. split; [cbn; lia|]. intros ?. unfold code_point. cbn [forallb].
      rewrite andb_true_r, andb_true_iff, Z.leb_le, Z.ltb_lt. lia.
Qed.

(** U+FB03, the ligature ffi, folds to three letters; U+00B5, the micro sign,
    canonicalizes to the Greek mu and stays there. *)
Lemma case_conv_total_witness :
  lre_case_conv 2 0xfb03 2 = Some [102; 102; 105] /\ lre_canonicalize 0xb5 true = Some 0x3bc /\
  exists d, lre_canonicalize 0xb5 true = Some d /\ (0xb5 < 0x110000 -> 0 <= d < 0x110000) /\
    lre_canonicalize d true = Some d.
Proof.
  split; [vm_compute; reflexivity|]. split; [vm_compute; reflexivity|].
  exact (proj2 (case_conv_total 0xb5 ltac:(lia)) true).
Defined.

(** ** Canonicalizing a set *)

Fixpoint sortedb (l : list Z) : bool :=
  match l with
  | x :: l => match l with [] => true | y :: _ => x <=? y end && sortedb l
  | [] => true
  end.
Lemma sortedb_sound l : sortedb l = true -> StronglySorted Z.le l.
Proof.
  intros H. apply Sorted_StronglySorted; [exact Z.le_trans|]. induction l as [|x l IH]; [constructor|].
  cbn [sortedb] in H. apply andb_true_iff in H as [H1 H2]. constructor; [by apply IH|].
  destruct l as [|y l]; constructor. by apply Z.leb_le.
Qed.

(** Every interval of the mask lies inside one entry. *)
Definition mask_check (mask : list Z) : bool :=
  sortedb mask && Nat.even (length mask) && forallb (fun p => (0 <=? p) && (p <=? 0x110000)) mask &&
  forallb (fun se => existsb (fun v => (entry_code v <=? se.1) && (se.2 <=? entry_end v)) case_conv_table1) (to_pairs mask).

Lemma mask_checked is_unicode : mask_check (mask_points is_unicode) = true.
Proof. destruct is_unicode; vm_compute; reflexivity. Qed.

Lemma mask_built (is_unicode : bool) :
  (unicode_case1 all_ok cr_init (if is_unicode then CASE_F else CASE_U)).2 = true.
Proof. destruct is_unicode; vm_compute; reflexivity. Qed.

(** Sorted points inside the code space, each element in an entry. *)
Definition mask_ok (mask : list Z) : Prop :=
  weakly_sorted mask /\ Forall (fun p => 0 <= p <= 0x110000) mask /\
  forall c, in_ranges mask c = true -> exists j v, get case_conv_table1 j = Some v /\ in_entry v c.
Lemma mask_check_sound mask : mask_check mask = true -> mask_ok mask.
Proof.
  unfold mask_check. rewrite !andb_true_iff. intros [[[Hs He] Hr] Hp].
  apply Nat.even_spec in He. split; [split; [by apply sortedb_sound|done]|]. split.
  - rewrite forallb_forall in Hr. apply Forall_forall. intros p Hin%list_elem_of_In. specialize (Hr p Hin).
    rewrite andb_true_iff, !Z.leb_le in Hr. lia.
  - intros c Hc. rewrite <- (of_to_pairs _ He) in Hc. apply in_ranges_pairs in Hc as (se & Hse & Hc).
    rewrite forallb_forall in Hp. specialize (Hp se (proj1 (list_elem_of_In _ _) Hse)).
    apply existsb_exists in Hp as (v & Hv & Hle). rewrite andb_true_iff, !Z.leb_le in Hle.
    apply list_elem_of_In, list_elem_of_lookup in Hv as [j Hj]. exists (Z.of_nat j), v.
    split; [apply get_spec; split; [lia|by rewrite Nat2Z.id]|]. unfold in_entry. lia.
Qed.
Lemma mask_facts is_unicode : mask_ok (mask_points is_unicode).
Proof. apply mask_check_sound, mask_checked. Qed.

Lemma seek_entry_spec fuel c idx j v :
  get case_conv_table1 j = Some v -> in_entry v c -> 0 <= idx <= j -> j - idx < Z.of_nat fuel ->
  seek_entry fuel c idx = Some (j, v).
Proof.
  intros Hv Hc. revert idx. induction fuel as [|fuel IH]; intros idx Hi Hf; [lia|]. cbn [seek_entry].
  assert (exists w, get case_conv_table1 idx = Some w) as [w Hw].
  { apply get_spec in Hv as [_ Hv]. apply lookup_lt_Some in Hv.
    destruct (lookup_lt_is_Some_2 case_conv_table1 (Z.to_nat idx)) as [w Hw]; [lia|].
    exists w. apply get_spec. split; [lia|done]. }
  rewrite Hw. bind. fold (entry_end w).
  destruct (Z.leb_spec (entry_code w) c), (Z.ltb_spec c (entry_end w)); cbn [andb].
  1:{ assert (idx = j) as -> by (eapply entry_unique; [exact Hw|exact Hv|by split|done]). by simplify_eq. }
  all: apply IH; [|lia]; destruct (decide (idx = j)) as [->|]; [simplify_eq; unfold in_entry in Hc; lia|lia].
Qed.

(** What the scan has produced so far. *)
Definition scan_set (s : scan) (x : Z) : Prop :=
  in_ranges (cr_points (sc_result s)) x = true \/ (sc_start s <> UINT32_MAX /\ sc_start s <= x < sc_end s).
Definition scan_wf (s : scan) : Prop :=
  0 <= sc_idx s /\ Nat.Even (length (cr_points (sc_result s))) /\
  Forall (fun p => p.1 < p.2) (to_pairs (cr_points (sc_result s))) /\
  (sc_start s <> UINT32_MAX -> 0 <= sc_start s < sc_end s /\ sc_end s <= 0x110000).
(** The index has not passed the entry of any code from [c0] on. *)
Definition idx_ok (s : scan) (c0 : Z) : Prop :=
  forall c j v, c0 <= c -> get case_conv_table1 j = Some v -> in_entry v c -> sc_idx s <= j.

Lemma to_pairs_app l1 l2 : Nat.Even (length l1) -> to_pairs (l1 ++ l2) = to_pairs l1 ++ to_pairs l2.
Proof.
  induction l1 as [|x|s e l IH] using list_pair_ind; intros He; [done| |].
  - destruct He as [k Hk]. cbn in Hk. lia.
  - cbn. by rewrite IH by (by apply even_two).
Qed.

Lemma in_ranges_snoc l s e c :
  Nat.Even (length l) -> in_ranges (l ++ [s; e]) c = in_ranges l c || (s <=? c) && (c <? e).
Proof.
  induction l as [|x|a b l IH] using list_pair_ind; intros He.
  - cbn. by rewrite orb_false_r.
  - destruct He as [k Hk]. cbn in Hk. lia.
  - cbn. rewrite IH by (by apply even_two). by rewrite orb_assoc.
Qed.

Lemma canon_char_spec u c s j v :
  get case_conv_table1 j = Some v -> in_entry v c -> 0 <= c -> scan_wf s -> idx_ok s c ->
  exists s', canon_char all_ok u c s = Some s' /\ scan_wf s' /\ idx_ok s' (c + 1) /\
    forall x, scan_set s' x <-> scan_set s x \/ lre_canonicalize c u = Some x.
Proof.
  intros Hv Hc H0 (Hidx & Hev & Hne & Hst) Hio. unfold canon_char.
  rewrite (seek_entry_spec (S case_count) c (sc_idx s) j v Hv Hc).
  2:{ specialize (Hio c j v ltac:(lia) Hv Hc). lia. }
  2:{ apply get_spec in Hv as [_ Hv]. apply lookup_lt_Some in Hv. unfold case_count. lia. }
  bind. destruct (fold_facts u j v c Hv Hc) as (d & Hd & Hdr & -> & _). bind. rewrite Hd.
  assert (0 <= j) as Hj by (by apply get_spec in Hv as [? _]).
  assert (u32 (d + 1) = d + 1) as -> by (apply u32_id; lia).
  assert (forall st e r, idx_ok (mk_scan j st e r) (c + 1)) as Hio'.
  { intros st e r c' j' v' Hc' Hv' Hin. cbn. destruct (Z.le_gt_cases j j') as [|Hlt]; [done|].
    pose proof (table_before _ _ _ _ Hv' Hv Hlt). unfold in_entry in *. lia. }
  assert (d <> UINT32_MAX) as Hdm by (unfold UINT32_MAX; lia).
  assert (forall x, Some d = Some x <-> d <= x < d + 1) as Hsome.
  { intros x. split; [intros [= ->]; lia|intros ?; f_equal; lia]. }
  unfold scan_set, scan_wf. destruct (Z.eqb_spec (sc_start s) UINT32_MAX) as [Hm|Hm].
  { eexists. split; [done|]. cbn [sc_idx sc_start sc_end sc_result]. split; [split_and!; [done..|]; intros _; lia|].
    split; [apply Hio'|]. intros x. rewrite Hsome. naive_solver. }
  specialize (Hst Hm) as Hst'. destruct (Z.eqb_spec (sc_end s) d) as [He|He].
  { eexists. split; [done|]. cbn [sc_idx sc_start sc_end sc_result]. rewrite u32_id by lia.
    split; [split_and!; [done..|]; intros _; lia|]. split; [apply Hio'|]. intros x. rewrite Hsome.
    split; [|intros [[?|?]|?]; [by left|right; split; [done|lia]..]].
    intros [?|[_ ?]]; [tauto|]. destruct (decide (x < sc_end s)); [left; right; lia|right; lia]. }
  eexists. split; [done|]. cbn [sc_idx sc_start sc_end sc_result].
  destruct (cr_add_interval_spec all_ok (sc_result s) (sc_start s) (sc_end s)) as [Ha1 Ha2].
  rewrite Ha2 by (apply Ha1; intros ?; done). split; [split_and!|split; [apply Hio'|]].
  - done.
  - rewrite length_app. destruct Hev as [h Hh]. exists (S h). cbn. lia.
  - rewrite to_pairs_app by done. apply Forall_app. split; [done|]. constructor; [cbn; lia|done].
  - intros _. lia.
  - intros x. rewrite Hsome, in_ranges_snoc, orb_true_iff, andb_true_iff, Z.leb_le, Z.ltb_lt by done. tauto.
Qed.

Definition has_entry (c : Z) : Prop := exists j v, get case_conv_table1 j = Some v /\ in_entry v c.

Lemma idx_ok_mono s c c' : idx_ok s c -> c <= c' -> idx_ok s c'.
Proof. intros H Hle d j v Hd. apply H. lia. Qed.

Lemma canon_interval_spec u count c s :
  (forall d, c <= d < c + Z.of_nat count -> has_entry d) -> 0 <= c -> scan_wf s -> idx_ok s c ->
  exists s', canon_interval all_ok u count c s = Some s' /\ scan_wf s' /\ idx_ok s' (c + Z.of_nat count) /\
    forall x, scan_set s' x <->
      scan_set s x \/ exists d, c <= d < c + Z.of_nat count /\ lre_canonicalize d u = Some x.
Proof.
  revert c s. induction count as [|count IH]; intros c s Hin H0 Hwf Hio; cbn [canon_interval].
  - exists s. rewrite Z.add_0_r. split; [done|]. split; [done|]. split; [done|]. intros x. split; [by left|].
    intros [?|(d & ? & _)]; [done|lia].
  - destruct (Hin c ltac:(lia)) as (j & v & Hv & Hc).
    destruct (canon_char_spec u c s j v Hv Hc H0 Hwf Hio) as (s1 & -> & Hwf1 & Hio1 & Hs1). bind.
    destruct (IH (c + 1) s1) as (s2 & -> & Hwf2 & Hio2 & Hs2); [intros; apply Hin; lia|lia|done|done|].
    exists s2. split; [done|]. split; [done|].
    replace (c + 1 + Z.of_nat count) with (c + Z.of_nat (S count)) in * by lia. split; [done|].
    intros x. rewrite Hs2, Hs1. split.
    + intros [[?|?]|(d & ? & ?)]; [by left|right; exists c; split; [lia|done]|right; exists d; split; [lia|done]].
    + intros [?|(d & ? & ?)]; [by left; left|]. destruct (decide (d = c)) as [->|]; [by left; right|].
      right. exists d. split; [lia|done].
Qed.

Lemma canon_loop_spec u inter s c0 :
  strictly_sorted inter -> (forall d, in_ranges inter d = true -> has_entry d) ->
  0 <= c0 -> Forall (fun p => c0 <= p) inter -> scan_wf s -> idx_ok s c0 ->
  exists s', canon_loop all_ok u inter s = Some s' /\ scan_wf s' /\
    forall x, scan_set s' x <->
      scan_set s x \/ exists d, in_ranges inter d = true /\ lre_canonicalize d u = Some x.
Proof.
  revert s c0. induction inter as [|p|a b inter IH] using list_pair_ind; intros s c0 [Hss He] Hin H0 Hlo Hwf Hio.
  - exists s. split; [done|]. split; [done|]. intros x. split; [by left|]. intros [?|(d & ? & _)]; done.
  - destruct He as [k Hk]. cbn in Hk. lia.
  - apply StronglySorted_inv in Hss as [Hss Ha]. apply StronglySorted_inv in Hss as [Hss Hb].
    apply Forall_cons_1 in Ha as [Hab _]. apply Forall_cons_1 in Hlo as [Hca _]. cbn [canon_loop].
    destruct (canon_interval_spec u (Z.to_nat (b - a)) a s) as (s1 & -> & Hwf1 & Hio1 & Hs1).
    { intros d Hd. apply Hin. cbn. rewrite orb_true_iff, andb_true_iff, Z.leb_le, Z.ltb_lt. left. lia. }
    { lia. } { done. } { by eapply idx_ok_mono. }
    bind. replace (a + Z.of_nat (Z.to_nat (b - a))) with b in * by lia.
    destruct (IH s1 b) as (s2 & -> & Hwf2 & Hs2).
    { split; [done|by apply even_two]. }
    { intros d Hd. apply Hin. cbn. by rewrite Hd, orb_true_r. }
    { lia. } { eapply Forall_impl; [exact Hb|]. cbn. lia. } { done. } { done. }
    exists s2. split; [done|]. split; [done|]. intros x. rewrite Hs2, Hs1. split.
    + intros [[?|(d & ? & ?)]|(d & Hd & ?)]; [by left|right; exists d; split; [|done]..].
      * cbn. rewrite orb_true_iff, andb_true_iff, Z.leb_le, Z.ltb_lt. left. lia.
      * cbn. by rewrite Hd, orb_true_r.
    + intros [?|(d & Hd & ?)]; [by left; left|]. cbn in Hd.
      rewrite orb_true_iff, andb_true_iff, Z.leb_le, Z.ltb_lt in Hd.
      destruct Hd as [?|?]; [left; right|right]; exists d; (split; [|done]); [lia|done].
Qed.

Lemma in_ranges_bounds pts lo hi c :
  Forall (fun p => lo <= p <= hi) pts -> in_ranges pts c = true -> lo <= c < hi.
Proof.
  induction pts as [|x|s e pts IH] using list_pair_ind; intros Hf Hc; [done..|].
  apply Forall_cons_1 in Hf as [Hs Hf]. apply Forall_cons_1 in Hf as [He Hf]. cbn in Hc.
  rewrite orb_true_iff, andb_true_iff, Z.leb_le, Z.ltb_lt in Hc. destruct Hc as [?|Hc]; [lia|by apply IH].
Qed.

(** The image of a set splits along the mask: the elements outside are fixed. *)
Lemma image_by_mask u pts x :
  Forall (fun p => 0 <= p <= 0x110000) pts ->
  ((exists d, in_ranges (mask_points u) d && in_ranges pts d = true /\ lre_canonicalize d u = Some x) \/
   negb (in_ranges (mask_points u) x) && in_ranges pts x = true) <->
  exists c, in_ranges pts c = true /\ lre_canonicalize c u = Some x.
Proof.
  intros Hr. split.
  - intros [(d & [_ Hd]%andb_true_iff & Hx)|[Hm Hx]%andb_true_iff]; [by exists d|]. exists x. split; [done|].
    pose proof (in_ranges_bounds _ _ _ _ Hr Hx).
    destruct (canonicalize_facts u x ltac:(lia)) as (d & Hd & _ & _ & Hfix).
    rewrite Hd. f_equal. apply Hfix. by destruct (in_ranges (mask_points u) x).
  - intros (c & Hc & Hx). destruct (in_ranges (mask_points u) c) eqn:Hm.
    + left. exists c. by rewrite Hm, Hc.
    + right. pose proof (in_ranges_bounds _ _ _ _ Hr Hc).
      destruct (canonicalize_facts u c ltac:(lia)) as (d & Hd & _ & _ & Hfix).
      assert (x = c) as -> by (rewrite Hx in Hd; injection Hd as ->; by apply Hfix). by rewrite Hm, Hc.
Qed.

(** The last interval is written out. *)
Lemma scan_flush s :
  scan_wf s ->
  exists cr, (if sc_start s =? UINT32_MAX then (sc_result s, true)
              else cr_add_interval all_ok (sc_result s) (sc_start s) (sc_end s)) = (cr, true) /\
    Nat.Even (length (cr_points cr)) /\ Forall (fun p => p.1 < p.2) (to_pairs (cr_points cr)) /\
    forall x, in_ranges (cr_points cr) x = true <-> scan_set s x.
Proof.
  intros (_ & He & Hn & Hst). unfold scan_set. destruct (Z.eqb_spec (sc_start s) UINT32_MAX) as [Hm|Hm].
  - exists (sc_result s). split_and!; [done..|]. intros x. tauto.
  - destruct (cr_add_interval_spec all_ok (sc_result s) (sc_start s) (sc_end s)) as [Ha1 Ha2].
    destruct (cr_add_interval _ _ _ _) as [cr ok]. cbn [fst snd] in *.
    assert (ok = true) as -> by (by apply Ha1). exists cr. rewrite Ha2 by done. specialize (Hst Hm). split; [done|]. split_and!.
    + rewrite length_app. destruct He as [h Hh]. exists (S h). cbn. lia.
    + rewrite to_pairs_app by done. apply Forall_app. split; [done|]. constructor; [cbn; lia|done].
    + intros x. rewrite in_ranges_snoc, orb_true_iff, andb_true_iff, Z.leb_le, Z.ltb_lt by done. tauto.
Qed.

(** C24: canonicalizing a set of code points for case-insensitive matching gives
    exactly the canonical forms of its elements: the set routine, built on the
    table scan, the set operations and the sort, agrees with the
    character-by-character [lre_canonicalize], and its assertion holds. *)
Theorem regexp_canonicalize_image (cr : CharRange) (is_unicode : bool)
    (Hs : weakly_sorted (cr_points cr)) (Hr : Forall (fun p => 0 <= p <= 0x110000) (cr_points cr)) :
  exists cr', cr_regexp_canonicalize all_ok cr is_unicode = Some (cr', true) /\
    strictly_sorted (cr_points cr') /\
    forall x, in_ranges (cr_points cr') x = true <->
      exists c, in_ranges (cr_points cr) c = true /\ lre_canonicalize c is_unicode = Some x.
Proof.
  assert (always_ok all_ok) as Hok by done.
  destruct (mask_facts is_unicode) as (Hmw & Hmr & Hme). unfold cr_regexp_canonicalize.
  pose proof (mask_built is_unicode) as Hb.
  assert (cr_points (unicode_case1 all_ok cr_init (if is_unicode then CASE_F else CASE_U)).1 = mask_points is_unicode) as Hmp by done.
  destruct (unicode_case1 _ _ _) as [cr_mask ok]. cbn [fst snd] in Hb, Hmp. subst ok. cbn [negb].
  pose proof (cr_op_spec all_ok cr_init (cr_points cr_mask) (cr_points cr) CR_OP_INTER) as Hi.
  rewrite Hmp in *. specialize (Hi Hmw Hs eq_refl).
  destruct (cr_op _ _ _ _ _) as [cr_inter ok]. destruct Hi as [Hi1 Hi2]. rewrite (Hi1 Hok) in *. cbn [negb].
  destruct (Hi2 eq_refl) as (His & Him & Hilo & _).
  pose proof (cr_invert_spec all_ok cr_mask) as Hv. rewrite Hmp in Hv. specialize (Hv Hmw).
  destruct (cr_invert _ _) as [cr_inv ok2]. destruct Hv as [Hv1 Hv2].
  { eapply Forall_impl; [exact Hmr|]. unfold UINT32_MAX. cbn. lia. }
  rewrite (Hv1 Hok) in *. cbn [negb]. destruct (Hv2 eq_refl) as (Hvs & _ & Hvm).
  pose proof (cr_op_spec all_ok cr_init (cr_points cr_inv) (cr_points cr) CR_OP_INTER (strictly_weakly _ Hvs) Hs eq_refl) as Hu.
  destruct (cr_op _ _ _ _ _) as [cr_sub ok3]. destruct Hu as [Hu1 Hu2]. rewrite (Hu1 Hok) in *. cbn [negb].
  destruct (Hu2 eq_refl) as (Hus & Hum & _).
  destruct (canon_loop_spec is_unicode (cr_points cr_inter) (mk_scan 0 UINT32_MAX UINT32_MAX cr_init) 0)
    as (s & -> & (Hsi & Hse & Hsn & Hsst) & Hset).
  { done. }
  { intros d Hd. rewrite Him in Hd. cbn in Hd. apply andb_true_iff in Hd as [Hd _]. by apply Hme. }
  { lia. }
  { apply Hilo; (eapply Forall_impl; [eassumption|]; cbn; lia). }
  { split_and!; [done|by exists 0%nat|constructor|done]. }
  { intros c j v _ [? _]%get_spec _. done. }
  bind. destruct (scan_flush s) as (cr_res & -> & Hre & Hrn & Hrm); [by split_and!|]. cbn [negb].
  destruct (sort_and_remove_overlap_spec cr_res Hre Hrn) as (cr_sorted & -> & Hss & Hsm). bind.
  pose proof (cr_op_spec all_ok (mk_cr [] (cr_size cr)) (cr_points cr_sorted) (cr_points cr_sub) CR_OP_UNION
    (strictly_weakly _ Hss) (strictly_weakly _ Hus) eq_refl) as Hf.
  destruct (cr_op _ _ _ _ _) as [cr' ok4]. destruct Hf as [Hf1 Hf2]. rewrite (Hf1 Hok) in *.
  destruct (Hf2 eq_refl) as (Hfs & Hfm & _). exists cr'. split; [done|]. split; [done|]. intros x.
  rewrite <- (image_by_mask is_unicode _ x Hr), Hfm. cbn [op_bool]. rewrite orb_true_iff, Hsm, Hrm, Hset, Hum. cbn [op_bool].
  assert (in_ranges (cr_points cr_inv) x && in_ranges (cr_points cr) x =
    negb (in_ranges (mask_points is_unicode) x) && in_ranges (cr_points cr) x) as ->.
  { destruct (in_ranges (cr_points cr) x) eqn:Hx; [|by rewrite !andb_false_r]. f_equal. apply Hvm.
    pose proof (in_ranges_bounds _ _ _ _ Hr Hx). unfold UINT32_MAX. lia. }
  assert (~ scan_set (mk_scan 0 UINT32_MAX UINT32_MAX cr_init) x) as Hemp by (intros [?|[? _]]; done).
  split; (intros [H|H]; [|by right]).
  - destruct H as [?|(d & Hd & Hx)]; [done|]. rewrite Him in Hd. left. by exists d.
  - destruct H as (d & Hd & Hx). left. right. exists d. by rewrite Him.
Qed.

(** The set [a-zA-Z] with the micro sign, under the [u] flag. *)
Lemma regexp_canonicalize_witness :
  exists cr', cr_regexp_canonicalize all_ok (mk_cr [65; 91; 97; 123; 181; 182] 6) true = Some (cr', true) /\
    strictly_sorted (cr_points cr') /\
    forall x, in_ranges (cr_points cr') x = true <->
      exists c, in_ranges [65; 91; 97; 123; 181; 182] c = true /\ lre_canonicalize c true = Some x.
Proof.
  exact (regexp_canonicalize_image (mk_cr [65; 91; 97; 123; 181; 182] 6) true
    (conj (sortedb_sound [65; 91; 97; 123; 181; 182] eq_refl) (ex_intro _ 3%nat eq_refl))
    ltac:(cbn [cr_points]; repeat constructor; lia)).
Defined.
