(* ===== verification/UnicodeCaseMem.v ===== *)
(** * Canonicalizing a set when memory may run out

    [cr_regexp_canonicalize] ignores some failed insertions and reports others;
    whatever fails it ends, its assertion holds, and a result it reports as good
    is a sorted set. *)
From Stdlib Require Import Sorted.
From S2P Require Import Prelude Sort SortProps CharRange CharRangeProps UnicodeTables UnicodeCase UnicodeCaseProps.

(** Sorted points that fit 32 bits *)
Definition cr_ok (cr : CharRange) : Prop :=
  weakly_sorted (cr_points cr) /\ Forall (fun p => 0 <= p <= UINT32_MAX) (cr_points cr).

Lemma interval_points c1 c2 : 0 <= c1 <= c2 -> c2 < UINT32_MAX ->
  weakly_sorted [c1; u32 (c2 + 1)] /\ Forall (fun p => 0 <= p <= UINT32_MAX) [c1; u32 (c2 + 1)].
Proof.
  intros Hc Hm. rewrite u32_id by (unfold UINT32_MAX in Hm; lia). split.
  - split; [|by exists 1%nat]. repeat constructor. lia.
  - repeat constructor; lia.
Qed.

Section Ops.
Context (ok : Z -> bool).
Lemma cr_op_ok cr a b op cr' : cr_points cr = [] ->
  weakly_sorted a -> Forall (fun p => 0 <= p <= UINT32_MAX) a ->
  weakly_sorted b -> Forall (fun p => 0 <= p <= UINT32_MAX) b ->
  cr_op ok cr a b op = (cr', true) -> cr_ok cr'.
Proof.
  intros Hc Ha Hra Hb Hrb E. pose proof (cr_op_spec ok cr a b op Ha Hb Hc) as H. rewrite E in H.
  destruct H as [_ H]. destruct (H eq_refl) as (Hs & _ & Hlo & Hhi). split; [by apply strictly_weakly|].
  apply Forall_and. split; [apply Hlo|apply Hhi]; (eapply Forall_impl; [eassumption|]; cbn; lia).
Qed.
Lemma cr_op1_ok cr b op cr' : cr_ok cr -> weakly_sorted b -> Forall (fun p => 0 <= p <= UINT32_MAX) b ->
  cr_op1 ok cr b op = (cr', true) -> cr_ok cr'.
Proof. intros [Hw Hr] Hb Hrb. by apply cr_op_ok. Qed.
Lemma cr_union_interval_ok cr c1 c2 cr' : cr_ok cr -> 0 <= c1 <= c2 -> c2 < UINT32_MAX ->
  cr_union_interval ok cr c1 c2 = (cr', true) -> cr_ok cr'.
Proof. intros Hcr Hc Hm. destruct (interval_points c1 c2 Hc Hm) as [Hw Hr]. by apply cr_op1_ok. Qed.
Lemma cr_invert_ok cr cr' : cr_ok cr -> cr_invert ok cr = (cr', true) -> cr_ok cr'.
Proof.
  intros [Hw Hr] E. pose proof (cr_invert_spec ok cr Hw Hr) as H. rewrite E in H. destruct H as [_ H].
  destruct (H eq_refl) as (Hs & Hb & _). split; [by apply strictly_weakly|done].
Qed.
(** A failed insertion changes nothing. *)
Lemma cr_add_interval_cases cr c1 c2 :
  cr_points (cr_add_interval ok cr c1 c2).1 = cr_points cr \/
  cr_points (cr_add_interval ok cr c1 c2).1 = cr_points cr ++ [c1; c2].
Proof.
  unfold cr_add_interval. destruct (cr_realloc_spec ok cr (cr_len cr + 2)) as [H1 _].
  destruct (_ <? _); [|by right]. destruct (cr_realloc _ _ _) as [cr' r]. cbn in *.
  destruct r; cbn; rewrite ?H1; auto.
Qed.
End Ops.

(** ** The mask does not depend on the heap *)
Create HintDb agrees.
Definition agrees (r1 r2 : CharRange * bool) : Prop :=
  r1.2 = true -> r2.2 = true -> cr_points r1.1 = cr_points r2.1.
Section Mask.
Context (ok1 ok2 : Z -> bool).
Lemma add_interval_agrees cr1 cr2 a b : cr_points cr1 = cr_points cr2 ->
  agrees (cr_add_interval ok1 cr1 a b) (cr_add_interval ok2 cr2 a b).
Proof.
  intros E H1 H2. destruct (cr_add_interval_spec ok1 cr1 a b) as [_ ->]; [|done].
  destruct (cr_add_interval_spec ok2 cr2 a b) as [_ ->]; [|done]. by rewrite E.
Qed.
Lemma then_agrees r1 r2 k1 k2 : agrees r1 r2 ->
  (forall cr1 cr2, cr_points cr1 = cr_points cr2 -> agrees (k1 cr1) (k2 cr2)) -> agrees (then_ r1 k1) (then_ r2 k2).
Proof.
  intros Hr Hk. unfold then_. destruct r1 as [cr1 []], r2 as [cr2 []]; cbn; try (by intros ? ?).
  apply Hk. by apply Hr.
Qed.
Lemma skip_agrees cr1 cr2 : cr_points cr1 = cr_points cr2 -> agrees (cr1, true) (cr2, true).
Proof. by intros E _ _. Qed.
#[local] Hint Resolve add_interval_agrees skip_agrees then_agrees : agrees.
Lemma every_other_agrees fuel : forall cr1 cr2 code i len, cr_points cr1 = cr_points cr2 ->
  agrees (add_every_other ok1 fuel cr1 code i len) (add_every_other ok2 fuel cr2 code i len).
Proof.
  induction fuel as [|fuel IH]; intros cr1 cr2 code i len E; cbn [add_every_other]; [by apply skip_agrees|].
  destruct (i <? len); [|by apply skip_agrees]. apply then_agrees; [by apply add_interval_agrees|]. auto.
Qed.
Lemma entry_agrees cr1 cr2 mask v : cr_points cr1 = cr_points cr2 ->
  agrees (unicode_case_entry ok1 cr1 mask v) (unicode_case_entry ok2 cr2 mask v).
Proof.
  intros E. unfold unicode_case_entry. cbv zeta. destruct (_ && _); [by apply every_other_agrees|].
  destruct (_ && _); [|by apply add_interval_agrees].
  apply then_agrees; [destruct (negb (negb _)); auto with agrees|]. intros.
  apply then_agrees; [by apply add_interval_agrees|]. intros. destruct (negb _); auto with agrees.
Qed.
Lemma loop_agrees tab : forall cr1 cr2 cm mask, cr_points cr1 = cr_points cr2 ->
  agrees (unicode_case_loop ok1 tab cr1 cm mask) (unicode_case_loop ok2 tab cr2 cm mask).
Proof.
  induction tab as [|v tab IH]; intros cr1 cr2 cm mask E; cbn [unicode_case_loop]; [by apply skip_agrees|].
  destruct (Z.testbit _ _); [|auto]. apply then_agrees; [by apply entry_agrees|]. auto.
Qed.
End Mask.
Lemma mask_any ok u cr : unicode_case1 ok cr_init (if u : bool then CASE_F else CASE_U) = (cr, true) -> cr_points cr = mask_points u.
Proof.
  intros E. unfold mask_points. pose proof (mask_built u) as Hb. unfold unicode_case1 in *.
  assert (((if u then CASE_F else CASE_U) =? 0) = false) as Hz by (by destruct u). rewrite Hz in *.
  pose proof (loop_agrees ok all_ok case_conv_table1 cr_init cr_init (if u then CASE_F else CASE_U)
    (run_mask (if u then CASE_F else CASE_U)) eq_refl) as Ha.
  rewrite E in Ha. by apply Ha.
Qed.

(** ** The scan *)
Section Scan.
Context (ok : Z -> bool).
Definition bounded_scan (s : scan) : Prop :=
  scan_wf s /\ Forall (fun p => 0 <= p <= 0x110000) (cr_points (sc_result s)).
(** Adding an interval, or failing to *)
Lemma add_bounded cr a b : 0 <= a < b -> b <= 0x110000 ->
  Nat.Even (length (cr_points cr)) -> Forall (fun p => p.1 < p.2) (to_pairs (cr_points cr)) ->
  Forall (fun p => 0 <= p <= 0x110000) (cr_points cr) ->
  let cr' := (cr_add_interval ok cr a b).1 in
  Nat.Even (length (cr_points cr')) /\ Forall (fun p => p.1 < p.2) (to_pairs (cr_points cr')) /\
  Forall (fun p => 0 <= p <= 0x110000) (cr_points cr').
Proof.
  intros Ha Hb He Hp Hr. cbv zeta. destruct (cr_add_interval_cases ok cr a b) as [-> | ->]; [done|]. split_and!.
  - rewrite length_app. destruct He as [h Hh]. exists (S h). cbn. lia.
  - rewrite to_pairs_app by done. apply Forall_app. split; [done|]. constructor; [cbn; lia|done].
  - apply Forall_app. split; [done|]. repeat constructor; lia.
Qed.
Lemma canon_char_total u c s j v : get case_conv_table1 j = Some v -> in_entry v c -> bounded_scan s -> idx_ok s c ->
  exists s', canon_char ok u c s = Some s' /\ bounded_scan s' /\ idx_ok s' (c + 1).
Proof.
  intros Hv Hc [(Hidx & Hev & Hne & Hst) Hr] Hio. unfold canon_char.
  rewrite (seek_entry_spec (S case_count) c (sc_idx s) j v Hv Hc).
  2:{ specialize (Hio c j v ltac:(lia) Hv Hc). lia. }
  2:{ apply get_spec in Hv as [_ Hv]. apply lookup_lt_Some in Hv. unfold case_count. lia. }
  bind. destruct (fold_facts u j v c Hv Hc) as (d & _ & Hdr & -> & _). bind.
  assert (0 <= j) as Hj by (by apply get_spec in Hv as [? _]).
  assert (u32 (d + 1) = d + 1) as -> by (apply u32_id; lia).
  assert (forall st e r, idx_ok (mk_scan j st e r) (c + 1)) as Hio'.
  { intros st e r c' j' v' Hc' Hv' Hin. cbn. destruct (Z.le_gt_cases j j') as [|Hlt]; [done|].
    pose proof (table_before _ _ _ _ Hv' Hv Hlt). unfold in_entry in *. lia. }
  unfold bounded_scan, scan_wf. destruct (Z.eqb_spec (sc_start s) UINT32_MAX) as [Hm|Hm].
  { eexists. split; [done|]. cbn [sc_idx sc_start sc_end sc_result]. split; [|apply Hio']. split; [|done]. split_and!; [done..|]. intros _. lia. }
  specialize (Hst Hm) as Hst'. destruct (Z.eqb_spec (sc_end s) d) as [He|He].
  { eexists. split; [done|]. cbn [sc_idx sc_start sc_end sc_result]. rewrite u32_id by lia. split; [|apply Hio']. split; [|done].
    split_and!; [done..|]. intros _. lia. }
  eexists. split; [done|]. cbn [sc_idx sc_start sc_end sc_result]. split; [|apply Hio'].
  destruct (add_bounded (sc_result s) (sc_start s) (sc_end s)) as (H1 & H2 & H3); [lia|lia|done..|].
  split; [|done]. split_and!; [done..|]. intros _. lia.
Qed.
Lemma canon_interval_total u count c s : (forall d, c <= d < c + Z.of_nat count -> has_entry d) ->
  bounded_scan s -> idx_ok s c ->
  exists s', canon_interval ok u count c s = Some s' /\ bounded_scan s' /\ idx_ok s' (c + Z.of_nat count).
Proof.
  revert c s. induction count as [|count IH]; intros c s Hin Hb Hio; cbn [canon_interval].
  { exists s. by rewrite Z.add_0_r. }
  destruct (Hin c ltac:(lia)) as (j & v & Hv & Hc).
  destruct (canon_char_total u c s j v Hv Hc Hb Hio) as (s1 & -> & Hb1 & Hio1). bind.
  destruct (IH (c + 1) s1) as (s2 & -> & Hb2 & Hio2); [intros; apply Hin; lia|done|done|].
  exists s2. by replace (c + Z.of_nat (S count)) with (c + 1 + Z.of_nat count) by lia.
Qed.
Lemma canon_loop_total u inter s c0 : strictly_sorted inter -> (forall d, in_ranges inter d = true -> has_entry d) ->
  Forall (fun p => c0 <= p) inter -> bounded_scan s -> idx_ok s c0 ->
  exists s', canon_loop ok u inter s = Some s' /\ bounded_scan s'.
Proof.
  revert s c0. induction inter as [|p|a b inter IH] using list_pair_ind; intros s c0 [Hss He] Hin Hlo Hb Hio; [by exists s|by exists s|].
  apply StronglySorted_inv in Hss as [Hss Ha]. apply StronglySorted_inv in Hss as [Hss Hbb].
  apply Forall_cons_1 in Ha as [Hab _]. apply Forall_cons_1 in Hlo as [Hca _]. cbn [canon_loop].
  destruct (canon_interval_total u (Z.to_nat (b - a)) a s) as (s1 & -> & Hb1 & Hio1).
  { intros d Hd. apply Hin. cbn. rewrite orb_true_iff, andb_true_iff, Z.leb_le, Z.ltb_lt. left. lia. }
  { done. } { by eapply idx_ok_mono. }
  bind. replace (a + Z.of_nat (Z.to_nat (b - a))) with b in * by lia. apply (IH s1 b).
  - split; [done|by apply even_two].
  - intros d Hd. apply Hin. cbn. by rewrite Hd, orb_true_r.
  - eapply Forall_impl; [exact Hbb|]. cbn. lia.
  - done.
  - done.
Qed.
End Scan.

(** The points of a strictly sorted set are bounded when its elements are. *)
Lemma points_bounded pts hi : strictly_sorted pts -> (forall x, in_ranges pts x = true -> 0 <= x < hi) ->
  Forall (fun p => 0 <= p <= hi) pts.
Proof.
  induction pts as [|x|a b pts IH] using list_pair_ind; intros [Hs He] Hx; [done|destruct He as [k Hk]; cbn in Hk; lia|].
  apply StronglySorted_inv in Hs as [Hs Ha]. apply StronglySorted_inv in Hs as [Hs _]. apply Forall_cons_1 in Ha as [Hab _].
  pose proof (Hx a ltac:(cbn; rewrite orb_true_iff, andb_true_iff, Z.leb_le, Z.ltb_lt; left; lia)).
  pose proof (Hx (b - 1) ltac:(cbn; rewrite orb_true_iff, andb_true_iff, Z.leb_le, Z.ltb_lt; left; lia)).
  constructor; [lia|]. constructor; [lia|]. apply IH; [split; [done|by apply even_two]|].
  intros x Hin. apply Hx. cbn. by rewrite Hin, orb_true_r.
Qed.

Lemma canonicalize_total ok cr u : cr_ok cr ->
  exists cr' r, cr_regexp_canonicalize ok cr u = Some (cr', r) /\ (r = true -> cr_ok cr').
Proof.
  intros [Hs Hr]. destruct (mask_facts u) as (Hmw & Hmr & Hme). unfold cr_regexp_canonicalize.
  assert (exists cr' r, Some (cr, false) = Some (cr', r) /\ (r = true -> cr_ok cr')) as Hfail by by exists cr, false.
  assert (Forall (fun p => 0 <= p <= UINT32_MAX) (mask_points u)) as Hmr'
    by (eapply Forall_impl; [exact Hmr|]; unfold UINT32_MAX; cbn; lia).
  destruct (unicode_case1 _ _ _) as [cr_mask r1] eqn:E1. destruct r1; cbn [negb]; [|done].
  apply mask_any in E1 as Hmp. rewrite Hmp.
  destruct (cr_op ok cr_init (mask_points u) _ _) as [cr_inter r2] eqn:E2. destruct r2; cbn [negb]; [|done].
  pose proof (cr_op_spec ok cr_init (mask_points u) (cr_points cr) CR_OP_INTER Hmw Hs eq_refl) as Hi. rewrite E2 in Hi.
  destruct Hi as [_ Hi]. destruct (Hi eq_refl) as (His & Him & Hilo & _).
  destruct (cr_invert ok cr_mask) as [cr_inv r3] eqn:E3. destruct r3; cbn [negb]; [|done].
  apply cr_invert_ok in E3 as [Hvw Hvr]; [|by split; rewrite Hmp].
  destruct (cr_op ok cr_init (cr_points cr_inv) _ _) as [cr_sub r4] eqn:E4. destruct r4; cbn [negb]; [|done].
  apply cr_op_ok in E4 as [Huw Hur]; [|done..].
  destruct (canon_loop_total ok u (cr_points cr_inter) (mk_scan 0 UINT32_MAX UINT32_MAX cr_init) 0)
    as (s & -> & (Hsi & Hse & Hsn & Hsst) & Hsr).
  { done. }
  { intros d Hd. rewrite Him in Hd. cbn in Hd. apply andb_true_iff in Hd as [Hd _]. by apply Hme. }
  { apply Hilo; (eapply Forall_impl; [eassumption|]; cbn; lia). }
  { split; [|constructor]. split_and!; [done|by exists 0%nat|constructor|done]. }
  { intros c j v _ [? _]%get_spec _. done. }
  bind. destruct (if sc_start s =? UINT32_MAX then _ else _) as [cr_res r5] eqn:E5. destruct r5; cbn [negb]; [|done].
  assert (Nat.Even (length (cr_points cr_res)) /\ Forall (fun p => p.1 < p.2) (to_pairs (cr_points cr_res)) /\
    Forall (fun p => 0 <= p <= 0x110000) (cr_points cr_res)) as (H1 & H2 & H3).
  { destruct (Z.eqb_spec (sc_start s) UINT32_MAX) as [Hm|Hm]; [by injection E5 as <-|]. specialize (Hsst Hm).
    replace cr_res with (cr_add_interval ok (sc_result s) (sc_start s) (sc_end s)).1 by by rewrite E5. apply add_bounded; [lia|lia|done..]. }
  destruct (sort_and_remove_overlap_spec cr_res H1 H2) as (cr_sorted & -> & Hss & Hsm). bind.
  destruct (cr_op ok _ (cr_points cr_sorted) _ _) as [cr' r6] eqn:E6. exists cr', r6. split; [done|]. intros ->.
  eapply cr_op_ok in E6; [done|done|by apply strictly_weakly| |done|done].
  eapply Forall_impl; [apply (points_bounded _ 0x110000 Hss)|unfold UINT32_MAX; cbn; lia].
  intros x Hx. rewrite Hsm in Hx. by eapply in_ranges_bounds.
Qed.
