(* ===== verification/UnicodeProp.v ===== *)
(** * Character properties (libunicode.c)

    The run-length encoded property tables: the indexed membership test
    [lre_is_in_table] with its binary search, and the linear decoder
    [unicode_prop1] that builds the whole set.  Both are proved to describe the
    same set, for the tables behind the identifier and casing predicates.  A
    read past the end of a table is [None]. *)
From Stdlib Require Import Sorted.
From S2P Require Import Prelude Sort CharRange CharRangeProps UnicodeTables UnicodeCase UnicodeCaseProps.

(** [get_le24(index_table + 3 * i)] *)
Definition get_le24 (tab : list Z) (i : Z) : option Z :=
  b0 ← get tab (3 * i);
  b1 ← get tab (3 * i + 1);
  b2 ← get tab (3 * i + 2);
  Some (Z.lor b0 (Z.lor (Z.shiftl b1 8) (Z.shiftl b2 16))).

Definition UNICODE_INDEX_BLOCK_LEN : Z := 32.
Definition code21 (v : Z) : Z := Z.land v (2 ^ 21 - 1).

(** [while ((idx_max - idx_min) > 1)] *)
Fixpoint index_search (fuel : nat) (c : Z) (index_table : list Z) (idx_min idx_max : Z) : option Z :=
  match fuel with
  | O => None
  | S fuel =>
      if 1 <? idx_max - idx_min then
        let idx := (idx_max + idx_min) / 2 in
        v ← get_le24 index_table idx;
        if c <? code21 v then index_search fuel c index_table idx_min idx
        else index_search fuel c index_table idx idx_max
      else Some idx_min
  end.

(** The result is [(code, pos)], or [Some None] for the return value -1. *)
Definition get_index_pos (c : Z) (index_table : list Z) (index_table_len : Z) : option (option (Z * Z)) :=
  v ← get_le24 index_table 0;
  if c <? code21 v then Some (Some (0, 0))
  else
    let idx_max := index_table_len - 1 in
    code ← get_le24 index_table idx_max;
    if code <=? c then Some None
    else
      idx_min ← index_search (Z.to_nat index_table_len) c index_table 0 idx_max;
      v ← get_le24 index_table idx_min;
      Some (Some (code21 v, (idx_min + 1) * UNICODE_INDEX_BLOCK_LEN + Z.shiftr v 21)).

(** The decoding loop of [lre_is_in_table], from the pointer [p]. *)
Fixpoint in_table_loop (p : list Z) (c code : Z) (bit : bool) : option bool :=
  match p with
  | [] => None
  | b :: p =>
      if b <? 64 then
        let code := u32 (code + (Z.shiftr b 3 + 1)) in
        if c <? code then Some bit
        else
          let bit := negb bit in
          let code := u32 (code + (Z.land b 7 + 1)) in
          if c <? code then Some bit else in_table_loop p c code (negb bit)
      else if 0x80 <=? b then
        let code := u32 (code + (b - 0x80 + 1)) in
        if c <? code then Some bit else in_table_loop p c code (negb bit)
      else if b <? 0x60 then
        match p with
        | p0 :: p =>
            let code := u32 (code + (Z.lor (Z.shiftl (b - 0x40) 8) p0 + 1)) in
            if c <? code then Some bit else in_table_loop p c code (negb bit)
        | [] => None
        end
      else
        match p with
        | p0 :: p1 :: p =>
            let code := u32 (code + (Z.lor (Z.shiftl (b - 0x60) 16) (Z.lor (Z.shiftl p0 8) p1) + 1)) in
            if c <? code then Some bit else in_table_loop p c code (negb bit)
        | _ => None
        end
  end.

Definition lre_is_in_table (c : Z) (table index_table : list Z) : option bool :=
  pos ← get_index_pos c index_table (Z.of_nat (length index_table) / 3);
  match pos with
  | None => Some false
  | Some (code, pos) => in_table_loop (drop (Z.to_nat pos) table) c code false
  end.

Definition lre_is_cased (c : Z) : option bool :=
  e ← case_find c;
  match e with
  | Some _ => Some true
  | None => lre_is_in_table c unicode_prop_Cased1_table unicode_prop_Cased1_index
  end.
Definition lre_is_case_ignorable (c : Z) : option bool :=
  lre_is_in_table c unicode_prop_Case_Ignorable_table unicode_prop_Case_Ignorable_index.
Definition lre_is_id_start (c : Z) : option bool :=
  lre_is_in_table c unicode_prop_ID_Start_table unicode_prop_ID_Start_index.
Definition lre_is_id_continue (c : Z) : option bool :=
  b ← lre_is_id_start c;
  if (b : bool) then Some true
  else lre_is_in_table c unicode_prop_ID_Continue1_table unicode_prop_ID_Continue1_index.

(** The loop of [unicode_prop1] from the pointer [p]: [if (bit)
    cr_add_interval(cr, c0, c)] after each run.  A truncated table would read
    past its end: [None]. *)
Section Prop1.
Context (realloc_ok : Z -> bool).

Definition add_run (cr : CharRange) (bit : bool) (c0 c : Z) : CharRange * bool :=
  if bit then cr_add_interval realloc_ok cr c0 c else (cr, true).

Fixpoint prop1_loop (p : list Z) (cr : CharRange) (c : Z) (bit : bool) : option (CharRange * bool) :=
  match p with
  | [] => Some (cr, true)
  | b :: p =>
      if b <? 64 then
        let c1 := u32 (c + (Z.shiftr b 3 + 1)) in
        let '(cr, ok) := add_run cr bit c c1 in
        if negb ok then Some (cr, false) else
        let bit := negb bit in
        let c2 := u32 (c1 + (Z.land b 7 + 1)) in
        let '(cr, ok) := add_run cr bit c1 c2 in
        if negb ok then Some (cr, false) else prop1_loop p cr c2 (negb bit)
      else if 0x80 <=? b then
        let c1 := u32 (c + (b - 0x80 + 1)) in
        let '(cr, ok) := add_run cr bit c c1 in
        if negb ok then Some (cr, false) else prop1_loop p cr c1 (negb bit)
      else if b <? 0x60 then
        match p with
        | p0 :: p =>
            let c1 := u32 (c + (Z.lor (Z.shiftl (b - 0x40) 8) p0 + 1)) in
            let '(cr, ok) := add_run cr bit c c1 in
            if negb ok then Some (cr, false) else prop1_loop p cr c1 (negb bit)
        | [] => None
        end
      else
        match p with
        | p0 :: p1 :: p =>
            let c1 := u32 (c + (Z.lor (Z.shiftl (b - 0x60) 16) (Z.lor (Z.shiftl p0 8) p1) + 1)) in
            let '(cr, ok) := add_run cr bit c c1 in
            if negb ok then Some (cr, false) else prop1_loop p cr c1 (negb bit)
        | _ => None
        end
  end.

(** [unicode_prop1], on the table of the property. *)
Definition unicode_prop1 (cr : CharRange) (table : list Z) : option (CharRange * bool) :=
  prop1_loop table cr 0 false.
End Prop1.

(** ** The runs of a table *)
Fixpoint runs (p : list Z) : option (list Z) :=
  match p with
  | [] => Some []
  | b :: p =>
      if b <? 64 then rs ← runs p; Some (Z.shiftr b 3 + 1 :: Z.land b 7 + 1 :: rs)
      else if 0x80 <=? b then rs ← runs p; Some (b - 0x80 + 1 :: rs)
      else if b <? 0x60 then
        match p with
        | p0 :: p => rs ← runs p; Some (Z.lor (Z.shiftl (b - 0x40) 8) p0 + 1 :: rs)
        | [] => None
        end
      else
        match p with
        | p0 :: p1 :: p =>
            rs ← runs p; Some (Z.lor (Z.shiftl (b - 0x60) 16) (Z.lor (Z.shiftl p0 8) p1) + 1 :: rs)
        | _ => None
        end
  end.
Definition total (rs : list Z) : Z := foldr Z.add 0 rs.

(** Membership by runs, and the intervals of the runs that are set. *)
Fixpoint lookup_runs (rs : list Z) (c code : Z) (bit : bool) : option bool :=
  match rs with
  | [] => None
  | r :: rs => if c <? code + r then Some bit else lookup_runs rs c (code + r) (negb bit)
  end.
Fixpoint run_points (rs : list Z) (code : Z) (bit : bool) : list Z :=
  match rs with
  | [] => []
  | r :: rs => (if bit then [code; code + r] else []) ++ run_points rs (code + r) (negb bit)
  end.

(** Induction on a table along its encoding units. *)
Lemma runs_ind (P : list Z -> list Z -> Prop) :
  P [] [] ->
  (forall b p rs, b < 64 -> runs p = Some rs -> P p rs ->
     P (b :: p) (Z.shiftr b 3 + 1 :: Z.land b 7 + 1 :: rs)) ->
  (forall b p rs, 0x80 <= b -> runs p = Some rs -> P p rs -> P (b :: p) (b - 0x80 + 1 :: rs)) ->
  (forall b p0 p rs, 64 <= b < 0x60 -> runs p = Some rs -> P p rs ->
     P (b :: p0 :: p) (Z.lor (Z.shiftl (b - 0x40) 8) p0 + 1 :: rs)) ->
  (forall b p0 p1 p rs, 0x60 <= b < 0x80 -> runs p = Some rs -> P p rs ->
     P (b :: p0 :: p1 :: p) (Z.lor (Z.shiftl (b - 0x60) 16) (Z.lor (Z.shiftl p0 8) p1) + 1 :: rs)) ->
  forall p rs, runs p = Some rs -> P p rs.
Proof.
  intros H0 H1 H2 H3 H4. assert (forall n p rs, (length p <= n)%nat -> runs p = Some rs -> P p rs) as H; [|eauto].
  induction n as [|n IH]; intros p rs Hl Hr; (destruct p as [|b p]; [by injection Hr as <-|]); cbn in Hl; [lia|].
  cbn [runs] in Hr. destruct (Z.ltb_spec b 64).
  { destruct (runs p) as [rs'|] eqn:E; [|done]. injection Hr as <-. apply H1; [done..|]. apply IH; [lia|done]. }
  destruct (Z.leb_spec 0x80 b).
  { destruct (runs p) as [rs'|] eqn:E; [|done]. injection Hr as <-. apply H2; [done..|]. apply IH; [lia|done]. }
  destruct (Z.ltb_spec b 0x60).
  - destruct p as [|p0 p]; [done|]. destruct (runs p) as [rs'|] eqn:E; [|done]. injection Hr as <-.
    apply H3; [lia|done|]. apply IH; [cbn in Hl; lia|done].
  - destruct p as [|p0 [|p1 p]]; [done..|]. destruct (runs p) as [rs'|] eqn:E; [|done]. injection Hr as <-.
    apply H4; [lia|done|]. apply IH; [cbn in Hl; lia|done].
Qed.

Definition positive (rs : list Z) : Prop := Forall (fun r => 0 < r) rs.

Lemma runs_total_nonneg rs : positive rs -> 0 <= total rs.
Proof. induction 1 as [|r rs Hr _ IH]; [done|]. change (0 <= r + total rs). lia. Qed.

(** Open a goal about the runs of one encoding unit. *)
Ltac open_unit Hp Ht :=
  repeat (apply Forall_cons_1 in Hp as [? Hp]); cbn [total foldr] in Ht;
  match type of Hp with Forall _ ?rs => pose proof (runs_total_nonneg rs Hp); change (foldr Z.add 0 rs) with (total rs) in Ht end.
(** Select the branch of a decoder by the byte [b]. *)
Ltac unit_branch b :=
  repeat first
    [ rewrite (proj2 (Z.ltb_lt b _)) by lia | rewrite (proj2 (Z.ltb_ge b _)) by lia
    | rewrite (proj2 (Z.leb_le _ b)) by lia | rewrite (proj2 (Z.leb_gt _ b)) by lia ].

Lemma in_table_runs p rs c :
  runs p = Some rs -> forall code bit, positive rs -> 0 <= code -> code + total rs < 2 ^ 32 ->
  in_table_loop p c code bit = lookup_runs rs c code bit.
Proof.
  revert p rs. apply (runs_ind (fun p rs => forall code bit, positive rs -> 0 <= code -> code + total rs < 2 ^ 32 ->
    in_table_loop p c code bit = lookup_runs rs c code bit)); [done|intros b p rs Hb _ IH code bit Hp H0 Ht..| |].
  1: open_unit Hp Ht; cbn [in_table_loop lookup_runs]; unit_branch b;
     rewrite (u32_id (code + (Z.shiftr b 3 + 1))) by lia; rewrite u32_id, IH by (done || lia); done.
  1: open_unit Hp Ht; cbn [in_table_loop lookup_runs]; unit_branch b; rewrite u32_id, IH by (done || lia); done.
  1: intros b p0 p rs Hb _ IH code bit Hp H0 Ht.
  2: intros b p0 p1 p rs Hb _ IH code bit Hp H0 Ht.
  all: open_unit Hp Ht; cbn [in_table_loop lookup_runs]; unit_branch b; rewrite u32_id, IH by (done || lia); done.
Qed.

(** One run written by [unicode_prop1]. *)
Ltac prop1_unit Hadd IH :=
  rewrite u32_id by lia;
  match goal with |- context [add_run _ ?cr ?bit ?code ?c1] =>
    destruct (Hadd cr bit code c1) as [Ha1 Ha2]; destruct (add_run _ _ _ _ _) as [cr1 [|]];
    cbn [fst snd negb] in *; [|exists cr1, false; split; [done|]; by split]; specialize (Ha2 eq_refl);
    destruct (IH cr1 c1 (negb bit)) as (cr' & ok & -> & Hk1 & Hk2); [done|lia|lia|];
    exists cr', ok; split; [done|]; split; [done|]; intros E; by rewrite Hk2, Ha2, <- app_assoc
  end.

Lemma prop1_runs realloc_ok p rs :
  runs p = Some rs -> forall cr code bit, positive rs -> 0 <= code -> code + total rs < 2 ^ 32 ->
  exists cr' ok, prop1_loop realloc_ok p cr code bit = Some (cr', ok) /\ (always_ok realloc_ok -> ok = true) /\
    (ok = true -> cr_points cr' = cr_points cr ++ run_points rs code bit).
Proof.
  assert (forall cr bit c0 c1, (always_ok realloc_ok -> (add_run realloc_ok cr bit c0 c1).2 = true) /\
    ((add_run realloc_ok cr bit c0 c1).2 = true ->
     cr_points (add_run realloc_ok cr bit c0 c1).1 = cr_points cr ++ (if bit then [c0; c1] else []))) as Hadd.
  { intros cr [] c0 c1; cbn; [apply cr_add_interval_spec|]. by rewrite app_nil_r. }
  revert p rs. apply (runs_ind (fun p rs => forall cr code bit, positive rs -> 0 <= code -> code + total rs < 2 ^ 32 ->
    exists cr' ok, prop1_loop realloc_ok p cr code bit = Some (cr', ok) /\ (always_ok realloc_ok -> ok = true) /\
      (ok = true -> cr_points cr' = cr_points cr ++ run_points rs code bit))).
  { intros cr code bit _ _ _. exists cr, true. cbn. by rewrite app_nil_r. }
  1: intros b p rs Hb _ IH cr code bit Hp H0 Ht; open_unit Hp Ht; cbn [prop1_loop run_points]; unit_branch b;
     rewrite (u32_id (code + (Z.shiftr b 3 + 1))) by lia; rewrite u32_id by lia.
  1:{ destruct (Hadd cr bit code (code + (Z.shiftr b 3 + 1))) as [Ha1 Ha2]. destruct (add_run _ _ _ _ _) as [cr1 [|]];
        cbn [fst snd negb] in *; [|exists cr1, false; split; [done|]; by split]. specialize (Ha2 eq_refl).
      destruct (Hadd cr1 (negb bit) (code + (Z.shiftr b 3 + 1)) (code + (Z.shiftr b 3 + 1) + (Z.land b 7 + 1))) as [Hb1 Hb2].
      destruct (add_run _ _ _ _ _) as [cr2 [|]]; cbn [fst snd negb] in *; [|exists cr2, false; split; [done|]; by split].
      specialize (Hb2 eq_refl). destruct (IH cr2 (code + (Z.shiftr b 3 + 1) + (Z.land b 7 + 1)) (negb (negb bit))) as (cr' & ok & -> & Hk1 & Hk2);
        [done|lia|lia|]. exists cr', ok. split; [done|]. split; [done|]. intros E. by rewrite Hk2, Hb2, Ha2, <- !app_assoc. }
  - intros b p rs Hb _ IH cr code bit Hp H0 Ht. open_unit Hp Ht. cbn [prop1_loop run_points]. unit_branch b.
    prop1_unit Hadd IH.
  - intros b p0 p rs Hb _ IH cr code bit Hp H0 Ht. open_unit Hp Ht. cbn [prop1_loop run_points]. unit_branch b.
    prop1_unit Hadd IH.
  - intros b p0 p1 p rs Hb _ IH cr code bit Hp H0 Ht. open_unit Hp Ht. cbn [prop1_loop run_points]. unit_branch b.
    prop1_unit Hadd IH.
Qed.

Lemma runs_app p rs q : runs p = Some rs -> runs (p ++ q) = rs' ← runs q; Some (rs ++ rs').
Proof.
  revert p rs. apply (runs_ind (fun p rs => runs (p ++ q) = rs' ← runs q; Some (rs ++ rs'))).
  - cbn. by destruct (runs q).
  - intros b p rs Hb _ IH. cbn [app runs]. unit_branch b. rewrite IH. by destruct (runs q).
  - intros b p rs Hb _ IH. cbn [app runs]. unit_branch b. rewrite IH. by destruct (runs q).
  - intros b p0 p rs Hb _ IH. cbn [app runs]. unit_branch b. rewrite IH. by destruct (runs q).
  - intros b p0 p1 p rs Hb _ IH. cbn [app runs]. unit_branch b. rewrite IH. by destruct (runs q).
Qed.

Lemma lookup_runs_app rs1 rs2 c code bit :
  positive rs1 -> code + total rs1 <= c ->
  lookup_runs (rs1 ++ rs2) c code bit = lookup_runs rs2 c (code + total rs1) (xorb bit (Nat.odd (length rs1))).
Proof.
  intros Hp. revert code bit. induction Hp as [|r rs1 Hr Hp IH]; intros code bit Hc.
  - cbn. rewrite Z.add_0_r. by destruct bit.
  - change (total (r :: rs1)) with (r + total rs1) in *. pose proof (runs_total_nonneg rs1 Hp).
    cbn [app lookup_runs length]. rewrite (proj2 (Z.ltb_ge _ _)) by lia. rewrite IH by lia.
    rewrite odd_succ. f_equal; [lia|]. by destruct bit, (Nat.odd (length rs1)).
Qed.

Lemma run_points_low rs code bit : positive rs -> Forall (fun p => code <= p) (run_points rs code bit).
Proof.
  intros Hp. revert code bit. induction Hp as [|r rs Hr Hp IH]; intros code bit; cbn [run_points]; [done|].
  apply Forall_app. split; [destruct bit; repeat constructor; lia|].
  eapply Forall_impl; [apply IH|]. cbn. lia.
Qed.
Lemma in_ranges_low pts c : Forall (fun p => c < p) pts -> in_ranges pts c = false.
Proof.
  induction pts as [|x|s e pts IH] using list_pair_ind; intros H; [done..|].
  apply Forall_cons_1 in H as [Hs H]. apply Forall_cons_1 in H as [He H]. cbn.
  by rewrite IH, (proj2 (Z.leb_gt _ _)) by done.
Qed.

Lemma run_points_mem rs c code bit :
  positive rs -> code <= c ->
  in_ranges (run_points rs code bit) c = default false (lookup_runs rs c code bit).
Proof.
  intros Hp. revert code bit. induction Hp as [|r rs Hr Hp IH]; intros code bit Hc; [done|].
  cbn [run_points lookup_runs]. destruct (Z.ltb_spec c (code + r)) as [Hlt|Hge].
  - assert (in_ranges (run_points rs (code + r) (negb bit)) c = false) as Hlow.
    { apply in_ranges_low. eapply Forall_impl; [by apply run_points_low|]. cbn. lia. }
    destruct bit; cbn [app negb in_ranges] in *; [|done]. rewrite Hlow. cbn [default].
    by rewrite (proj2 (Z.leb_le _ _)), (proj2 (Z.ltb_lt _ _)) by lia.
  - rewrite <- IH by lia. destruct bit; cbn [app in_ranges negb]; [|done].
    by rewrite (proj2 (Z.ltb_ge c _)), andb_false_r by lia.
Qed.

(** ** A table and its index *)

(** One block of the index: decoding may start at its position with its code
    and a cleared bit. *)
Definition block_ok (table : list Z) (v : Z) (idx : Z) : bool :=
  let pos := Z.to_nat ((idx + 1) * UNICODE_INDEX_BLOCK_LEN + Z.shiftr v 21) in
  match runs (take pos table) with
  | Some rs => Nat.even (length rs) && (total rs =? code21 v)
  | None => false
  end.
Fixpoint blocks_ok (count : nat) (table index : list Z) (idx : Z) : bool :=
  match count with
  | O => true
  | S count =>
      match get_le24 index idx with Some v => block_ok table v idx | None => false end &&
      blocks_ok count table index (idx + 1)
  end.
Definition index_ok (table index : list Z) : bool :=
  let n := Z.of_nat (length index) / 3 in
  match runs table, get_le24 index (n - 1) with
  | Some rs, Some upper =>
      (1 <? n) && blocks_ok (Z.to_nat (n - 1)) table index 0 && forallb (Z.ltb 0) rs && (total rs <? 2 ^ 32) &&
      (upper <=? total rs) && forallb (fun p => p <=? upper) (run_points rs 0 false)
  | _, _ => false
  end.

Lemma blocks_ok_spec count table index idx i :
  blocks_ok count table index idx = true -> idx <= i < idx + Z.of_nat count ->
  exists v, get_le24 index i = Some v /\ block_ok table v i = true.
Proof.
  revert idx. induction count as [|count IH]; intros idx H Hi; [lia|]. cbn [blocks_ok] in H.
  apply andb_true_iff in H as [H1 H2]. destruct (decide (i = idx)) as [->|]; [|apply (IH _ H2); lia].
  destruct (get_le24 index idx) as [v|]; [|done]. by exists v.
Qed.

Lemma index_search_spec fuel c index lo hi :
  (forall i, 0 <= i < hi -> exists v, get_le24 index i = Some v) ->
  0 <= lo < hi -> hi - lo < Z.of_nat fuel ->
  (exists v, get_le24 index lo = Some v /\ code21 v <= c) ->
  exists i v, index_search fuel c index lo hi = Some i /\ lo <= i < hi /\ get_le24 index i = Some v /\ code21 v <= c.
Proof.
  revert lo hi. induction fuel as [|fuel IH]; intros lo hi Hall Hlh Hf (v & Hv & Hc); [lia|]. cbn [index_search].
  destruct (Z.ltb_spec 1 (hi - lo)) as [Hgt|Hle].
  2:{ exists lo, v. split; [done|]. split; [lia|done]. }
  pose proof (Z.div_mod (hi + lo) 2 ltac:(lia)). pose proof (Z.mod_pos_bound (hi + lo) 2 ltac:(lia)).
  set (mid := (hi + lo) / 2) in *. destruct (Hall mid ltac:(lia)) as [w Hw]. rewrite Hw. bind.
  destruct (Z.ltb_spec c (code21 w)).
  - destruct (IH lo mid) as (i & x & ? & ? & ? & ?); [intros; apply Hall; lia|lia|lia|eauto|]. exists i, x. split; [done|]. split; [lia|done].
  - destruct (IH mid hi) as (i & x & ? & ? & ? & ?); [done|lia|lia|eauto|]. exists i, x. split; [done|]. split; [lia|done].
Qed.

Lemma lookup_runs_some rs c code bit : code <= c < code + total rs -> exists b, lookup_runs rs c code bit = Some b.
Proof.
  revert code bit. induction rs as [|r rs IH]; intros code bit Hc; [cbn in Hc; lia|].
  cbn [lookup_runs]. change (total (r :: rs)) with (r + total rs) in Hc.
  destruct (Z.ltb_spec c (code + r)); [eauto|]. apply IH. lia.
Qed.

Lemma total_app rs1 rs2 : total (rs1 ++ rs2) = total rs1 + total rs2.
Proof.
  induction rs1 as [|r rs1 IH]; [done|].
  change (total ((r :: rs1) ++ rs2)) with (r + total (rs1 ++ rs2)). change (total (r :: rs1)) with (r + total rs1). lia.
Qed.

Lemma block_split table rs v idx :
  block_ok table v idx = true -> runs table = Some rs ->
  exists rs1 rs2, rs = rs1 ++ rs2 /\ Nat.odd (length rs1) = false /\ total rs1 = code21 v /\
    runs (drop (Z.to_nat ((idx + 1) * UNICODE_INDEX_BLOCK_LEN + Z.shiftr v 21)) table) = Some rs2.
Proof.
  unfold block_ok. set (pos := Z.to_nat _). intros Hb Hrs.
  destruct (runs (take pos table)) as [rs1|] eqn:E1; [|done].
  apply andb_true_iff in Hb as [Hev Htv]. apply Z.eqb_eq in Htv. apply Nat.even_spec in Hev.
  pose proof (runs_app _ _ (drop pos table) E1) as Happ. rewrite take_drop, Hrs in Happ.
  destruct (runs (drop pos table)) as [rs2|] eqn:E2; [|done]. injection Happ as ->.
  exists rs1, rs2. split; [done|]. split; [by apply even_odd|]. by split.
Qed.

(** The indexed lookup agrees with the runs. *)
Lemma is_in_table_spec table index c :
  index_ok table index = true -> 0 <= c ->
  exists rs, runs table = Some rs /\ positive rs /\ total rs < 2 ^ 32 /\
    lre_is_in_table c table index = Some (in_ranges (run_points rs 0 false) c).
Proof.
  unfold index_ok. intros Hok Hc. set (n := Z.of_nat (length index) / 3) in *.
  destruct (runs table) as [rs|] eqn:Ers; [|done]. destruct (get_le24 index (n - 1)) as [upper|] eqn:Eu; [|done].
  rewrite !andb_true_iff, !Z.ltb_lt, Z.leb_le in Hok. destruct Hok as [[[[[Hn Hblk] Hpos] Htot] Hup] Hpts].
  assert (positive rs) as Hp.
  { apply Forall_forall. intros r Hr%list_elem_of_In. rewrite forallb_forall in Hpos. apply Z.ltb_lt, Hpos, Hr. }
  exists rs. split; [done|]. split; [done|]. split; [done|].
  pose proof (run_points_mem rs c 0 false Hp Hc) as Hmem. rewrite Hmem. unfold lre_is_in_table, get_index_pos. fold n.
  destruct (blocks_ok_spec _ _ _ _ 0 Hblk ltac:(lia)) as (v0 & Hv0 & Hb0). rewrite Hv0. bind.
  assert (c < total rs -> exists b, lookup_runs rs c 0 false = Some b) as Hsome
    by (intros; apply lookup_runs_some; lia).
  destruct (Z.ltb_spec c (code21 v0)) as [Hc0|Hc0].
  - (* before the first block *)
    bind. change (Z.to_nat 0) with 0%nat. rewrite drop_0, (in_table_runs table rs) by (done || lia).
    destruct (block_split _ _ _ _ Hb0 Ers) as (rs1 & rs2 & -> & _ & Ht1 & _). rewrite total_app in Hsome.
    apply Forall_app in Hp as [_ Hp2]. pose proof (runs_total_nonneg rs2 Hp2). by destruct Hsome as [b ->]; [lia|].
  - rewrite Eu. bind. destruct (Z.leb_spec upper c) as [Hge|Hlt].
    + (* past the last run that is set *)
      bind. rewrite <- Hmem. f_equal. symmetry. apply not_true_is_false. intros Hin.
      apply (in_ranges_bounds _ 0 upper) in Hin; [lia|]. apply Forall_forall. intros p Hpin.
      pose proof (run_points_low rs 0 false Hp) as Hlow. rewrite Forall_forall in Hlow. specialize (Hlow p Hpin).
      rewrite forallb_forall in Hpts. specialize (Hpts p (proj1 (list_elem_of_In _ _) Hpin)). apply Z.leb_le in Hpts. cbn in Hlow. lia.
    + destruct (index_search_spec (Z.to_nat n) c index 0 (n - 1)) as (i & v & -> & Hi & Hv & Hcv).
      { intros i Hi. destruct (blocks_ok_spec _ _ _ _ i Hblk ltac:(lia)) as (v & Hv & _). eauto. }
      { lia. } { lia. } { eauto. }
      bind. rewrite Hv. bind. destruct (blocks_ok_spec _ _ _ _ i Hblk ltac:(lia)) as (w & Hw & Hb).
      rewrite Hv in Hw. injection Hw as <-.
      destruct (block_split _ _ _ _ Hb Ers) as (rs1 & rs2 & -> & Hodd & Ht1 & Hd).
      apply Forall_app in Hp as [Hp1 Hp2]. rewrite total_app in *. pose proof (runs_total_nonneg rs1 Hp1).
      rewrite lookup_runs_app, Hodd, Ht1 in Hsome |- * by (done || lia).
      destruct Hsome as [b Hb2]; [lia|]. rewrite (in_table_runs _ rs2) by (done || lia).
      rewrite Z.add_0_l in *. change (xorb false false) with false in Hb2 |- *. by rewrite Hb2.
Qed.

(** The tables of the program. *)
Definition property_tables : list (list Z * list Z) := [
  (unicode_prop_Cased1_table, unicode_prop_Cased1_index);
  (unicode_prop_Case_Ignorable_table, unicode_prop_Case_Ignorable_index);
  (unicode_prop_ID_Start_table, unicode_prop_ID_Start_index);
  (unicode_prop_ID_Continue1_table, unicode_prop_ID_Continue1_index)].

Lemma tables_ok : forallb (fun ti => index_ok ti.1 ti.2) property_tables = true.
Proof. vm_compute. reflexivity. Qed.

(** The indexed membership test agrees with the set: on each of the property
    tables behind the casing and identifier predicates, [lre_is_in_table] ends
    without reading past the table for every 32-bit code, and answers whether
    the code belongs to the set that the linear decoder [unicode_prop1] builds
    from the same table. *)
Theorem is_in_table_agrees (table index : list Z) (c : Z)
    (Htab : (table, index) ∈ property_tables) (Hc : 0 <= c < 2 ^ 32) :
  exists cr, unicode_prop1 all_ok cr_init table = Some (cr, true) /\
    lre_is_in_table c table index = Some (in_ranges (cr_points cr) c).
Proof.
  pose proof tables_ok as H. rewrite forallb_forall in H.
  specialize (H (table, index) (proj1 (list_elem_of_In _ _) Htab)). cbn [fst snd] in H.
  destruct (is_in_table_spec table index c H (proj1 Hc)) as (rs & Hrs & Hp & Ht & ->).
  destruct (prop1_runs all_ok table rs Hrs cr_init 0 false Hp ltac:(lia) ltac:(lia)) as (cr & ok & E & Hok & Hpts).
  exists cr. unfold unicode_prop1. rewrite E. assert (ok = true) as -> by (by apply Hok).
  split; [done|]. by rewrite Hpts.
Qed.

(** The Greek letter alpha starts an identifier. *)
Lemma is_in_table_agrees_witness :
  lre_is_id_start 0x3b1 = Some true /\
  exists cr, unicode_prop1 all_ok cr_init unicode_prop_ID_Start_table = Some (cr, true) /\
    lre_is_in_table 0x3b1 unicode_prop_ID_Start_table unicode_prop_ID_Start_index = Some (in_ranges (cr_points cr) 0x3b1).
Proof.
  split; [vm_compute; reflexivity|].
  apply (is_in_table_agrees unicode_prop_ID_Start_table unicode_prop_ID_Start_index 0x3b1); [|lia].
  do 2 right. left.
Defined.
