(* ===== verification/UnicodeData.v ===== *)
(** * Tables of character sets and sequences (libunicode-table.h)

    The general categories, the scripts with their extensions, the properties
    and the emoji sequences, transcribed; a table of names is the list of its
    strings, each with the aliases of one entry separated by commas. *)
From S2P Require Import Prelude UnicodeTables.

(** [UnicodeGCEnum] *)
Definition UNICODE_GC_Cn : Z := 0.
Definition UNICODE_GC_Lu : Z := 1.
Definition UNICODE_GC_Ll : Z := 2.
Definition UNICODE_GC_Lt : Z := 3.
Definition UNICODE_GC_Lm : Z := 4.
Definition UNICODE_GC_Lo : Z := 5.
Definition UNICODE_GC_Mn : Z := 6.
Definition UNICODE_GC_Mc : Z := 7.
Definition UNICODE_GC_Me : Z := 8.
Definition UNICODE_GC_Nd : Z := 9.
Definition UNICODE_GC_Nl : Z := 10.
Definition UNICODE_GC_No : Z := 11.
Definition UNICODE_GC_Sm : Z := 12.
Definition UNICODE_GC_Sc : Z := 13.
Definition UNICODE_GC_Sk : Z := 14.
Definition UNICODE_GC_So : Z := 15.
Definition UNICODE_GC_Pc : Z := 16.
Definition UNICODE_GC_Pd : Z := 17.
Definition UNICODE_GC_Ps : Z := 18.
Definition UNICODE_GC_Pe : Z := 19.
Definition UNICODE_GC_Pi : Z := 20.
Definition UNICODE_GC_Pf : Z := 21.
Definition UNICODE_GC_Po : Z := 22.
Definition UNICODE_GC_Zs : Z := 23.
Definition UNICODE_GC_Zl : Z := 24.
Definition UNICODE_GC_Zp : Z := 25.
Definition UNICODE_GC_Cc : Z := 26.
Definition UNICODE_GC_Cf : Z := 27.
Definition UNICODE_GC_Cs : Z := 28.
Definition UNICODE_GC_Co : Z := 29.
Definition UNICODE_GC_LC : Z := 30.
Definition UNICODE_GC_L : Z := 31.
Definition UNICODE_GC_M : Z := 32.
Definition UNICODE_GC_N : Z := 33.
Definition UNICODE_GC_S : Z := 34.
Definition UNICODE_GC_P : Z := 35.
Definition UNICODE_GC_Z : Z := 36.
Definition UNICODE_GC_C : Z := 37.

(** [UnicodeScriptEnum]: the scripts the code names *)
Definition UNICODE_SCRIPT_Unknown : Z := 0.
Definition UNICODE_SCRIPT_Common : Z := 26.
Definition UNICODE_SCRIPT_Inherited : Z := 59.

(** [UnicodePropertyEnum]: the properties the code names *)
Definition UNICODE_PROP_Other_Math : Z := 1.
Definition UNICODE_PROP_Other_Alphabetic : Z := 2.
Definition UNICODE_PROP_Other_Lowercase : Z := 3.
Definition UNICODE_PROP_Other_Uppercase : Z := 4.
Definition UNICODE_PROP_Other_Grapheme_Extend : Z := 5.
Definition UNICODE_PROP_Other_ID_Start : Z := 7.
Definition UNICODE_PROP_Other_ID_Continue : Z := 8.
Definition UNICODE_PROP_ID_Continue1 : Z := 10.
Definition UNICODE_PROP_XID_Start1 : Z := 11.
Definition UNICODE_PROP_XID_Continue1 : Z := 12.
Definition UNICODE_PROP_Changes_When_Titlecased1 : Z := 13.
Definition UNICODE_PROP_Changes_When_Casefolded1 : Z := 14.
Definition UNICODE_PROP_Changes_When_NFKC_Casefolded1 : Z := 15.
Definition UNICODE_PROP_Basic_Emoji1 : Z := 16.
Definition UNICODE_PROP_Basic_Emoji2 : Z := 17.
Definition UNICODE_PROP_RGI_Emoji_Flag_Sequence : Z := 19.
Definition UNICODE_PROP_Emoji_Keycap_Sequence : Z := 20.
Definition UNICODE_PROP_ASCII_Hex_Digit : Z := 21.
Definition UNICODE_PROP_Pattern_Syntax : Z := 36.
Definition UNICODE_PROP_Pattern_White_Space : Z := 37.
Definition UNICODE_PROP_Emoji_Modifier_Base : Z := 51.
Definition UNICODE_PROP_ID_Start : Z := 55.
Definition UNICODE_PROP_Case_Ignorable : Z := 56.
Definition UNICODE_PROP_ASCII : Z := 57.
Definition UNICODE_PROP_Alphabetic : Z := 58.
Definition UNICODE_PROP_Any : Z := 59.
Definition UNICODE_PROP_Assigned : Z := 60.
Definition UNICODE_PROP_Cased : Z := 61.
Definition UNICODE_PROP_Changes_When_Casefolded : Z := 62.
Definition UNICODE_PROP_Changes_When_Casemapped : Z := 63.
Definition UNICODE_PROP_Changes_When_Lowercased : Z := 64.
Definition UNICODE_PROP_Changes_When_NFKC_Casefolded : Z := 65.
Definition UNICODE_PROP_Changes_When_Titlecased : Z := 66.
Definition UNICODE_PROP_Changes_When_Uppercased : Z := 67.
Definition UNICODE_PROP_Grapheme_Base : Z := 68.
Definition UNICODE_PROP_Grapheme_Extend : Z := 69.
Definition UNICODE_PROP_ID_Continue : Z := 70.
Definition UNICODE_PROP_Lowercase : Z := 74.
Definition UNICODE_PROP_Math : Z := 75.
Definition UNICODE_PROP_Uppercase : Z := 76.
Definition UNICODE_PROP_XID_Continue : Z := 77.
Definition UNICODE_PROP_XID_Start : Z := 78.

(** [UnicodeSequencePropertyEnum] *)
Definition UNICODE_SEQUENCE_PROP_Basic_Emoji : Z := 0.
Definition UNICODE_SEQUENCE_PROP_Emoji_Keycap_Sequence : Z := 1.
Definition UNICODE_SEQUENCE_PROP_RGI_Emoji_Modifier_Sequence : Z := 2.
Definition UNICODE_SEQUENCE_PROP_RGI_Emoji_Flag_Sequence : Z := 3.
Definition UNICODE_SEQUENCE_PROP_RGI_Emoji_Tag_Sequence : Z := 4.
Definition UNICODE_SEQUENCE_PROP_RGI_Emoji_ZWJ_Sequence : Z := 5.
Definition UNICODE_SEQUENCE_PROP_RGI_Emoji : Z := 6.

Definition unicode_gc_name_table : list string := [
  "Cn,Unassigned"; "Lu,Uppercase_Letter"; "Ll,Lowercase_Letter"; "Lt,Titlecase_Letter"; "Lm,Modifier_Letter";
  "Lo,Other_Letter"; "Mn,Nonspacing_Mark"; "Mc,Spacing_Mark"; "Me,Enclosing_Mark"; "Nd,Decimal_Number,digit";
  "Nl,Letter_Number"; "No,Other_Number"; "Sm,Math_Symbol"; "Sc,Currency_Symbol"; "Sk,Modifier_Symbol";
  "So,Other_Symbol"; "Pc,Connector_Punctuation"; "Pd,Dash_Punctuation"; "Ps,Open_Punctuation";
  "Pe,Close_Punctuation"; "Pi,Initial_Punctuation"; "Pf,Final_Punctuation"; "Po,Other_Punctuation";
  "Zs,Space_Separator"; "Zl,Line_Separator"; "Zp,Paragraph_Separator"; "Cc,Control,cntrl"; "Cf,Format";
  "Cs,Surrogate"; "Co,Private_Use"; "LC,Cased_Letter"; "L,Letter"; "M,Mark,Combining_Mark"; "N,Number"; "S,Symbol";
  "P,Punctuation,punct"; "Z,Separator"; "C,Other"
].

Definition unicode_script_name_table : list string := [
  "Unknown,Zzzz"; "Adlam,Adlm"; "Ahom,Ahom"; "Anatolian_Hieroglyphs,Hluw"; "Arabic,Arab"; "Armenian,Armn";
  "Avestan,Avst"; "Balinese,Bali"; "Bamum,Bamu"; "Bassa_Vah,Bass"; "Batak,Batk"; "Beria_Erfe,Berf"; "Bengali,Beng";
  "Bhaiksuki,Bhks"; "Bopomofo,Bopo"; "Brahmi,Brah"; "Braille,Brai"; "Buginese,Bugi"; "Buhid,Buhd";
  "Canadian_Aboriginal,Cans"; "Carian,Cari"; "Caucasian_Albanian,Aghb"; "Chakma,Cakm"; "Cham,Cham"; "Cherokee,Cher";
  "Chorasmian,Chrs"; "Common,Zyyy"; "Coptic,Copt,Qaac"; "Cuneiform,Xsux"; "Cypriot,Cprt"; "Cyrillic,Cyrl";
  "Cypro_Minoan,Cpmn"; "Deseret,Dsrt"; "Devanagari,Deva"; "Dives_Akuru,Diak"; "Dogra,Dogr"; "Duployan,Dupl";
  "Egyptian_Hieroglyphs,Egyp"; "Elbasan,Elba"; "Elymaic,Elym"; "Ethiopic,Ethi"; "Garay,Gara"; "Georgian,Geor";
  "Glagolitic,Glag"; "Gothic,Goth"; "Grantha,Gran"; "Greek,Grek"; "Gujarati,Gujr"; "Gunjala_Gondi,Gong";
  "Gurmukhi,Guru"; "Gurung_Khema,Gukh"; "Han,Hani"; "Hangul,Hang"; "Hanifi_Rohingya,Rohg"; "Hanunoo,Hano";
  "Hatran,Hatr"; "Hebrew,Hebr"; "Hiragana,Hira"; "Imperial_Aramaic,Armi"; "Inherited,Zinh,Qaai";
  "Inscriptional_Pahlavi,Phli"; "Inscriptional_Parthian,Prti"; "Javanese,Java"; "Kaithi,Kthi"; "Kannada,Knda";
  "Katakana,Kana"; "Katakana_Or_Hiragana,Hrkt"; "Kawi,Kawi"; "Kayah_Li,Kali"; "Kharoshthi,Khar"; "Khmer,Khmr";
  "Khojki,Khoj"; "Khitan_Small_Script,Kits"; "Khudawadi,Sind"; "Kirat_Rai,Krai"; "Lao,Laoo"; "Latin,Latn";
  "Lepcha,Lepc"; "Limbu,Limb"; "Linear_A,Lina"; "Linear_B,Linb"; "Lisu,Lisu"; "Lycian,Lyci"; "Lydian,Lydi";
  "Makasar,Maka"; "Mahajani,Mahj"; "Malayalam,Mlym"; "Mandaic,Mand"; "Manichaean,Mani"; "Marchen,Marc";
  "Masaram_Gondi,Gonm"; "Medefaidrin,Medf"; "Meetei_Mayek,Mtei"; "Mende_Kikakui,Mend"; "Meroitic_Cursive,Merc";
  "Meroitic_Hieroglyphs,Mero"; "Miao,Plrd"; "Modi,Modi"; "Mongolian,Mong"; "Mro,Mroo"; "Multani,Mult";
  "Myanmar,Mymr"; "Nabataean,Nbat"; "Nag_Mundari,Nagm"; "Nandinagari,Nand"; "New_Tai_Lue,Talu"; "Newa,Newa";
  "Nko,Nkoo"; "Nushu,Nshu"; "Nyiakeng_Puachue_Hmong,Hmnp"; "Ogham,Ogam"; "Ol_Chiki,Olck"; "Ol_Onal,Onao";
  "Old_Hungarian,Hung"; "Old_Italic,Ital"; "Old_North_Arabian,Narb"; "Old_Permic,Perm"; "Old_Persian,Xpeo";
  "Old_Sogdian,Sogo"; "Old_South_Arabian,Sarb"; "Old_Turkic,Orkh"; "Old_Uyghur,Ougr"; "Oriya,Orya"; "Osage,Osge";
  "Osmanya,Osma"; "Pahawh_Hmong,Hmng"; "Palmyrene,Palm"; "Pau_Cin_Hau,Pauc"; "Phags_Pa,Phag"; "Phoenician,Phnx";
  "Psalter_Pahlavi,Phlp"; "Rejang,Rjng"; "Runic,Runr"; "Samaritan,Samr"; "Saurashtra,Saur"; "Sharada,Shrd";
  "Shavian,Shaw"; "Siddham,Sidd"; "Sidetic,Sidt"; "SignWriting,Sgnw"; "Sinhala,Sinh"; "Sogdian,Sogd";
  "Sora_Sompeng,Sora"; "Soyombo,Soyo"; "Sundanese,Sund"; "Sunuwar,Sunu"; "Syloti_Nagri,Sylo"; "Syriac,Syrc";
  "Tagalog,Tglg"; "Tagbanwa,Tagb"; "Tai_Le,Tale"; "Tai_Tham,Lana"; "Tai_Viet,Tavt"; "Tai_Yo,Tayo"; "Takri,Takr";
  "Tamil,Taml"; "Tangut,Tang"; "Telugu,Telu"; "Thaana,Thaa"; "Thai,Thai"; "Tibetan,Tibt"; "Tifinagh,Tfng";
  "Tirhuta,Tirh"; "Tangsa,Tnsa"; "Todhri,Todr"; "Tolong_Siki,Tols"; "Toto,Toto"; "Tulu_Tigalari,Tutg";
  "Ugaritic,Ugar"; "Vai,Vaii"; "Vithkuqi,Vith"; "Wancho,Wcho"; "Warang_Citi,Wara"; "Yezidi,Yezi"; "Yi,Yiii";
  "Zanabazar_Square,Zanb"
].

Definition unicode_prop_name_table : list string := [
  "ASCII_Hex_Digit,AHex"; "Bidi_Control,Bidi_C"; "Dash"; "Deprecated,Dep"; "Diacritic,Dia"; "Extender,Ext";
  "Hex_Digit,Hex"; "IDS_Unary_Operator,IDSU"; "IDS_Binary_Operator,IDSB"; "IDS_Trinary_Operator,IDST";
  "Ideographic,Ideo"; "Join_Control,Join_C"; "Logical_Order_Exception,LOE"; "Modifier_Combining_Mark,MCM";
  "Noncharacter_Code_Point,NChar"; "Pattern_Syntax,Pat_Syn"; "Pattern_White_Space,Pat_WS"; "Quotation_Mark,QMark";
  "Radical"; "Regional_Indicator,RI"; "Sentence_Terminal,STerm"; "Soft_Dotted,SD"; "Terminal_Punctuation,Term";
  "Unified_Ideograph,UIdeo"; "Variation_Selector,VS"; "White_Space,space"; "Bidi_Mirrored,Bidi_M"; "Emoji";
  "Emoji_Component,EComp"; "Emoji_Modifier,EMod"; "Emoji_Modifier_Base,EBase"; "Emoji_Presentation,EPres";
  "Extended_Pictographic,ExtPict"; "Default_Ignorable_Code_Point,DI"; "ID_Start,IDS"; "Case_Ignorable,CI"; "ASCII";
  "Alphabetic,Alpha"; "Any"; "Assigned"; "Cased"; "Changes_When_Casefolded,CWCF"; "Changes_When_Casemapped,CWCM";
  "Changes_When_Lowercased,CWL"; "Changes_When_NFKC_Casefolded,CWKCF"; "Changes_When_Titlecased,CWT";
  "Changes_When_Uppercased,CWU"; "Grapheme_Base,Gr_Base"; "Grapheme_Extend,Gr_Ext"; "ID_Continue,IDC";
  "ID_Compat_Math_Start"; "ID_Compat_Math_Continue"; "InCB"; "Lowercase,Lower"; "Math"; "Uppercase,Upper";
  "XID_Continue,XIDC"; "XID_Start,XIDS"
].

Definition unicode_sequence_prop_name_table : list string := [
  "Basic_Emoji"; "Emoji_Keycap_Sequence"; "RGI_Emoji_Modifier_Sequence"; "RGI_Emoji_Flag_Sequence";
  "RGI_Emoji_Tag_Sequence"; "RGI_Emoji_ZWJ_Sequence"; "RGI_Emoji"
].

Definition unicode_gc_table : list Z := [
  250; 24; 23; 86; 13; 86; 18; 19; 22; 12; 22; 17; 54; 233; 2; 54; 76; 54; 225; 18; 18; 22; 19; 14; 16; 14; 226; 18;
  18; 12; 19; 12; 250; 25; 23; 22; 109; 15; 22; 14; 15; 5; 20; 12; 27; 15; 14; 15; 12; 43; 14; 2; 54; 14; 11; 5; 21;
  75; 22; 225; 15; 12; 193; 226; 16; 12; 226; 0; 255; 48; 2; 255; 8; 2; 255; 39; 191; 34; 33; 2; 95; 95; 33; 34; 97;
  2; 33; 2; 65; 66; 33; 2; 33; 2; 159; 127; 2; 95; 95; 33; 2; 95; 63; 2; 5; 63; 34; 101; 1; 3; 2; 1; 3; 2; 1; 3; 2;
  255; 8; 2; 255; 10; 2; 1; 3; 2; 95; 33; 2; 255; 50; 162; 33; 2; 33; 34; 95; 65; 2; 255; 0; 226; 60; 37; 226; 18;
  228; 10; 110; 228; 4; 238; 6; 132; 206; 4; 14; 4; 238; 9; 230; 104; 127; 4; 14; 63; 32; 4; 66; 22; 1; 96; 46; 1;
  22; 65; 0; 1; 0; 33; 2; 225; 9; 0; 225; 1; 226; 27; 63; 2; 65; 66; 255; 16; 98; 63; 12; 95; 63; 2; 225; 43; 226;
  40; 255; 26; 15; 134; 40; 255; 47; 255; 6; 2; 255; 88; 0; 225; 30; 32; 4; 182; 226; 33; 22; 17; 32; 47; 13; 0; 230;
  37; 17; 6; 22; 38; 22; 38; 22; 6; 224; 0; 229; 19; 96; 101; 54; 224; 3; 187; 76; 54; 13; 54; 47; 230; 3; 22; 27;
  86; 229; 24; 4; 229; 2; 230; 13; 233; 2; 118; 37; 6; 229; 91; 22; 5; 198; 27; 15; 166; 36; 38; 15; 102; 37; 233; 2;
  69; 47; 5; 246; 6; 0; 27; 5; 6; 229; 22; 230; 19; 32; 229; 81; 230; 3; 5; 224; 6; 233; 2; 229; 25; 230; 1; 36; 15;
  86; 4; 32; 6; 45; 229; 14; 102; 4; 230; 1; 4; 70; 4; 134; 32; 246; 7; 0; 229; 17; 70; 32; 22; 0; 229; 3; 128; 229;
  16; 14; 197; 59; 128; 230; 1; 229; 33; 4; 230; 16; 27; 230; 24; 7; 229; 46; 6; 7; 6; 5; 71; 230; 0; 103; 6; 39; 5;
  198; 229; 2; 38; 54; 233; 2; 22; 4; 229; 7; 6; 39; 0; 229; 0; 32; 37; 32; 229; 14; 0; 197; 0; 5; 64; 101; 32; 6; 5;
  71; 102; 32; 39; 32; 39; 6; 5; 224; 0; 7; 96; 37; 0; 69; 38; 32; 233; 2; 37; 45; 171; 15; 13; 5; 22; 6; 32; 38; 7;
  0; 165; 96; 37; 32; 229; 14; 0; 197; 0; 37; 0; 37; 0; 37; 32; 6; 0; 71; 38; 96; 38; 32; 70; 64; 6; 192; 101; 0; 5;
  192; 233; 2; 38; 69; 6; 22; 224; 2; 38; 7; 0; 229; 1; 0; 69; 0; 229; 14; 0; 197; 0; 37; 0; 133; 32; 6; 5; 71; 134;
  0; 38; 7; 0; 39; 6; 32; 5; 224; 7; 37; 38; 32; 233; 2; 22; 13; 192; 5; 166; 0; 6; 39; 0; 229; 0; 32; 37; 32; 229;
  14; 0; 197; 0; 37; 0; 133; 32; 6; 5; 7; 6; 7; 102; 32; 39; 32; 39; 6; 192; 38; 7; 96; 37; 0; 69; 38; 32; 233; 2;
  15; 5; 171; 224; 2; 6; 5; 0; 165; 64; 69; 0; 101; 64; 37; 0; 5; 0; 37; 64; 37; 64; 69; 64; 229; 4; 96; 39; 6; 39;
  64; 71; 0; 71; 6; 32; 5; 160; 7; 224; 6; 233; 2; 75; 175; 13; 15; 128; 6; 71; 6; 229; 0; 0; 69; 0; 229; 15; 0; 229;
  8; 32; 6; 5; 70; 103; 0; 70; 0; 102; 192; 38; 0; 69; 0; 37; 32; 37; 38; 32; 233; 2; 192; 22; 203; 15; 5; 6; 39; 22;
  229; 0; 0; 69; 0; 229; 15; 0; 229; 2; 0; 133; 32; 6; 5; 7; 6; 135; 0; 6; 39; 0; 39; 38; 192; 39; 128; 69; 0; 37;
  38; 32; 233; 2; 0; 37; 7; 224; 4; 38; 39; 229; 1; 0; 69; 0; 229; 33; 38; 5; 71; 102; 0; 71; 0; 71; 6; 5; 15; 96;
  69; 7; 203; 69; 38; 32; 233; 2; 235; 1; 15; 165; 0; 6; 39; 0; 229; 10; 64; 229; 16; 0; 229; 1; 0; 5; 32; 197; 64;
  6; 96; 71; 70; 0; 6; 0; 231; 0; 160; 233; 2; 32; 39; 22; 224; 4; 229; 40; 6; 37; 198; 96; 13; 165; 4; 230; 0; 22;
  233; 2; 54; 224; 29; 37; 0; 5; 0; 133; 0; 229; 16; 0; 5; 0; 229; 2; 6; 37; 230; 1; 5; 32; 133; 0; 4; 0; 198; 0;
  233; 2; 32; 101; 224; 24; 5; 79; 246; 7; 15; 22; 79; 38; 175; 233; 2; 235; 2; 15; 6; 15; 6; 15; 6; 18; 19; 18; 19;
  39; 229; 0; 0; 229; 28; 96; 230; 6; 7; 134; 22; 38; 133; 230; 3; 0; 230; 28; 0; 239; 0; 6; 175; 0; 47; 150; 111;
  54; 224; 29; 229; 35; 39; 102; 7; 166; 7; 38; 39; 38; 5; 233; 2; 182; 165; 39; 38; 101; 70; 5; 71; 37; 199; 69;
  102; 229; 5; 6; 39; 38; 167; 6; 5; 7; 233; 2; 71; 6; 47; 225; 30; 0; 1; 128; 1; 32; 226; 35; 22; 4; 66; 229; 128;
  193; 0; 101; 32; 197; 0; 5; 0; 101; 32; 229; 33; 0; 101; 32; 229; 25; 0; 101; 32; 197; 0; 5; 0; 101; 32; 229; 7; 0;
  229; 49; 0; 101; 32; 229; 59; 32; 70; 246; 1; 235; 12; 64; 229; 8; 239; 2; 160; 225; 78; 32; 162; 32; 17; 229; 129;
  228; 15; 22; 229; 9; 23; 229; 18; 18; 19; 64; 229; 67; 86; 74; 229; 0; 192; 229; 10; 70; 7; 224; 1; 229; 11; 38; 7;
  54; 224; 1; 229; 10; 38; 224; 4; 229; 5; 0; 69; 0; 38; 224; 4; 229; 44; 38; 7; 198; 231; 0; 6; 39; 230; 3; 86; 4;
  86; 13; 5; 6; 32; 233; 2; 160; 235; 2; 160; 182; 17; 118; 70; 27; 6; 233; 2; 160; 229; 27; 4; 229; 45; 192; 133;
  38; 229; 26; 6; 5; 128; 229; 62; 224; 2; 229; 23; 0; 70; 103; 38; 71; 96; 39; 6; 167; 70; 96; 15; 64; 54; 233; 2;
  229; 22; 32; 133; 224; 3; 229; 36; 96; 229; 18; 160; 233; 2; 11; 64; 239; 26; 229; 15; 38; 39; 6; 32; 54; 229; 45;
  7; 6; 7; 198; 0; 6; 7; 6; 39; 230; 0; 167; 230; 2; 32; 6; 233; 2; 160; 233; 2; 160; 214; 4; 182; 32; 230; 6; 8;
  230; 23; 32; 230; 4; 224; 12; 102; 7; 229; 39; 6; 7; 134; 7; 6; 135; 6; 39; 229; 0; 0; 54; 233; 2; 214; 239; 2;
  230; 1; 239; 1; 86; 38; 7; 229; 22; 7; 102; 39; 38; 7; 70; 37; 233; 2; 229; 36; 6; 7; 38; 71; 6; 7; 70; 39; 224; 0;
  118; 229; 28; 231; 0; 230; 0; 39; 38; 64; 150; 233; 2; 64; 69; 233; 2; 229; 22; 164; 54; 226; 1; 63; 128; 225; 35;
  32; 65; 246; 0; 224; 0; 70; 22; 230; 5; 7; 198; 101; 6; 165; 6; 37; 7; 38; 5; 128; 226; 36; 228; 55; 226; 5; 4;
  226; 26; 228; 29; 230; 56; 255; 128; 14; 226; 0; 255; 90; 226; 0; 225; 0; 162; 32; 161; 32; 226; 0; 225; 0; 226; 0;
  225; 0; 162; 32; 161; 32; 226; 0; 0; 1; 0; 1; 0; 1; 0; 63; 194; 225; 0; 226; 6; 32; 226; 0; 227; 0; 226; 0; 227; 0;
  226; 0; 227; 0; 130; 0; 34; 97; 3; 14; 2; 78; 66; 0; 34; 97; 3; 78; 98; 32; 34; 97; 0; 78; 226; 0; 129; 78; 32; 66;
  0; 34; 97; 3; 46; 0; 247; 3; 155; 177; 54; 20; 21; 18; 52; 21; 18; 20; 246; 0; 24; 25; 155; 23; 246; 1; 20; 21;
  118; 48; 86; 12; 18; 19; 246; 3; 12; 22; 16; 246; 2; 23; 155; 0; 251; 2; 11; 4; 32; 171; 76; 18; 19; 4; 235; 2; 76;
  18; 19; 0; 228; 5; 64; 237; 26; 224; 6; 230; 5; 104; 6; 72; 230; 4; 224; 7; 47; 1; 111; 1; 47; 2; 65; 34; 65; 2;
  15; 1; 47; 12; 129; 175; 1; 15; 1; 15; 1; 15; 97; 15; 2; 97; 2; 101; 2; 47; 34; 33; 140; 63; 66; 15; 12; 47; 2; 15;
  235; 8; 234; 27; 63; 106; 11; 47; 96; 140; 143; 44; 111; 12; 47; 12; 47; 12; 207; 12; 239; 23; 44; 47; 12; 15; 12;
  239; 23; 236; 128; 132; 239; 0; 18; 19; 18; 19; 239; 12; 44; 207; 18; 19; 239; 73; 12; 239; 22; 236; 17; 239; 32;
  172; 239; 64; 224; 14; 239; 3; 224; 13; 235; 52; 239; 70; 235; 14; 239; 128; 47; 12; 239; 1; 12; 239; 46; 236; 0;
  239; 103; 12; 239; 128; 112; 18; 19; 18; 19; 18; 19; 18; 19; 18; 19; 18; 19; 18; 19; 235; 22; 239; 36; 140; 18; 19;
  236; 23; 18; 19; 18; 19; 18; 19; 18; 19; 18; 19; 236; 8; 239; 128; 120; 236; 123; 18; 19; 18; 19; 18; 19; 18; 19;
  18; 19; 18; 19; 18; 19; 18; 19; 18; 19; 18; 19; 18; 19; 236; 55; 18; 19; 18; 19; 236; 24; 18; 19; 236; 128; 122;
  239; 40; 236; 13; 47; 172; 239; 31; 32; 239; 128; 2; 225; 40; 226; 40; 95; 33; 34; 223; 65; 2; 63; 2; 63; 130; 36;
  65; 2; 255; 90; 2; 175; 127; 70; 63; 128; 118; 11; 54; 226; 30; 0; 2; 128; 2; 32; 229; 48; 192; 4; 22; 224; 6; 6;
  229; 15; 224; 1; 197; 0; 197; 0; 197; 0; 197; 0; 197; 0; 197; 0; 197; 0; 197; 0; 230; 24; 54; 20; 21; 20; 21; 86;
  20; 21; 22; 20; 21; 246; 1; 17; 54; 17; 22; 20; 21; 54; 20; 21; 18; 19; 18; 19; 18; 19; 18; 19; 150; 4; 246; 2; 49;
  118; 17; 22; 18; 246; 5; 47; 86; 18; 19; 18; 19; 18; 19; 18; 19; 17; 224; 26; 239; 18; 0; 239; 81; 224; 4; 239;
  128; 78; 224; 18; 239; 8; 23; 86; 15; 4; 5; 10; 18; 19; 18; 19; 18; 19; 18; 19; 18; 19; 47; 18; 19; 18; 19; 18; 19;
  18; 19; 17; 18; 51; 15; 234; 1; 102; 39; 17; 132; 47; 74; 4; 5; 22; 47; 0; 229; 78; 32; 38; 46; 36; 5; 17; 229; 82;
  22; 68; 5; 128; 229; 35; 0; 229; 86; 0; 47; 107; 239; 2; 229; 24; 239; 30; 224; 1; 15; 229; 8; 239; 23; 0; 235; 2;
  239; 22; 235; 0; 15; 235; 7; 239; 24; 235; 2; 239; 31; 235; 7; 239; 128; 184; 229; 153; 56; 239; 56; 229; 192; 17;
  141; 4; 229; 131; 239; 64; 239; 47; 224; 1; 229; 32; 164; 54; 229; 128; 132; 4; 86; 229; 8; 233; 2; 37; 224; 12;
  255; 38; 5; 6; 72; 22; 230; 2; 22; 4; 255; 20; 36; 38; 229; 62; 234; 2; 38; 182; 224; 0; 238; 15; 228; 1; 46; 255;
  6; 34; 255; 54; 4; 226; 0; 159; 255; 2; 4; 46; 127; 5; 127; 34; 255; 13; 97; 2; 129; 2; 255; 7; 65; 2; 95; 255; 9;
  224; 12; 100; 63; 5; 36; 2; 197; 6; 69; 6; 101; 6; 229; 15; 39; 38; 7; 111; 6; 64; 171; 47; 13; 15; 160; 229; 44;
  118; 224; 0; 39; 229; 42; 231; 8; 38; 224; 0; 54; 233; 2; 160; 230; 10; 165; 86; 5; 22; 37; 6; 233; 2; 229; 20;
  230; 0; 54; 229; 15; 230; 3; 39; 224; 3; 22; 229; 21; 64; 70; 7; 229; 39; 6; 39; 102; 39; 38; 71; 246; 5; 0; 4;
  233; 2; 96; 54; 133; 6; 4; 229; 1; 233; 2; 133; 0; 229; 33; 166; 39; 38; 39; 38; 224; 1; 69; 6; 229; 0; 6; 7; 32;
  233; 2; 32; 118; 229; 8; 4; 165; 79; 5; 7; 6; 7; 229; 42; 6; 5; 70; 37; 38; 133; 38; 5; 6; 5; 224; 16; 37; 4; 54;
  229; 3; 7; 38; 39; 54; 5; 36; 7; 6; 224; 2; 165; 32; 165; 32; 165; 224; 1; 197; 0; 197; 0; 226; 35; 14; 100; 226;
  1; 4; 46; 96; 226; 72; 229; 27; 39; 6; 39; 6; 39; 22; 7; 6; 32; 233; 2; 160; 229; 171; 28; 224; 4; 229; 15; 96;
  229; 41; 96; 252; 135; 120; 253; 152; 120; 229; 128; 230; 32; 229; 98; 224; 30; 194; 224; 4; 130; 128; 5; 6; 229;
  2; 12; 229; 5; 0; 133; 0; 5; 0; 37; 0; 37; 0; 229; 100; 238; 9; 239; 8; 229; 128; 227; 19; 18; 239; 8; 229; 56; 47;
  229; 46; 239; 0; 224; 24; 229; 4; 13; 79; 230; 8; 214; 18; 19; 22; 160; 230; 8; 22; 49; 48; 18; 19; 18; 19; 18; 19;
  18; 19; 18; 19; 18; 19; 18; 19; 18; 19; 54; 18; 19; 118; 80; 86; 0; 118; 17; 18; 19; 18; 19; 18; 19; 86; 12; 17;
  76; 0; 22; 13; 54; 96; 133; 0; 229; 127; 32; 27; 0; 86; 13; 86; 18; 19; 22; 12; 22; 17; 54; 233; 2; 54; 76; 54;
  225; 18; 18; 22; 19; 14; 16; 14; 226; 18; 18; 12; 19; 12; 18; 19; 22; 18; 19; 54; 229; 2; 4; 229; 37; 36; 229; 23;
  64; 165; 32; 165; 32; 165; 32; 69; 64; 45; 12; 14; 15; 45; 0; 15; 108; 47; 224; 2; 91; 47; 32; 229; 4; 0; 229; 18;
  0; 229; 11; 0; 37; 0; 229; 7; 32; 229; 6; 224; 26; 229; 115; 128; 86; 96; 235; 37; 64; 239; 1; 234; 45; 107; 239;
  9; 43; 79; 0; 239; 5; 64; 15; 224; 39; 239; 37; 6; 224; 122; 229; 21; 64; 229; 41; 224; 7; 6; 235; 19; 96; 229; 24;
  107; 224; 1; 229; 12; 10; 229; 0; 10; 128; 229; 30; 134; 128; 229; 22; 0; 22; 229; 28; 96; 229; 0; 22; 138; 224;
  34; 225; 32; 226; 32; 229; 70; 32; 233; 2; 160; 225; 28; 96; 226; 28; 96; 229; 32; 224; 0; 229; 44; 224; 3; 22;
  225; 3; 0; 225; 7; 0; 193; 0; 33; 0; 226; 3; 0; 226; 7; 0; 194; 0; 34; 64; 229; 44; 224; 4; 229; 128; 175; 224; 1;
  229; 14; 224; 2; 229; 0; 224; 16; 164; 0; 228; 34; 0; 228; 1; 224; 61; 165; 32; 5; 0; 229; 36; 0; 37; 64; 5; 32;
  229; 15; 0; 22; 235; 0; 229; 15; 47; 203; 229; 23; 224; 0; 235; 1; 224; 40; 229; 11; 0; 37; 128; 139; 229; 14; 171;
  64; 22; 229; 18; 128; 22; 229; 18; 224; 30; 229; 48; 96; 43; 37; 235; 8; 32; 235; 38; 5; 70; 0; 38; 128; 102; 101;
  0; 69; 0; 229; 21; 32; 70; 96; 6; 235; 1; 192; 246; 1; 192; 229; 21; 43; 22; 229; 21; 75; 224; 24; 229; 0; 15; 229;
  20; 38; 96; 139; 214; 224; 1; 229; 46; 64; 214; 229; 14; 32; 235; 0; 229; 11; 128; 235; 0; 229; 10; 192; 118; 224;
  4; 203; 224; 72; 229; 65; 224; 47; 225; 43; 224; 5; 226; 43; 192; 171; 229; 28; 102; 224; 0; 233; 2; 160; 233; 2;
  101; 4; 5; 225; 14; 64; 134; 17; 4; 226; 14; 224; 0; 44; 224; 128; 72; 235; 23; 0; 229; 34; 0; 38; 17; 32; 37; 224;
  8; 69; 4; 37; 224; 0; 22; 239; 0; 224; 25; 166; 229; 21; 235; 2; 5; 224; 0; 229; 14; 230; 3; 107; 150; 224; 14;
  229; 10; 102; 118; 224; 30; 229; 13; 203; 224; 12; 229; 15; 224; 1; 7; 6; 7; 229; 45; 230; 7; 214; 96; 235; 12;
  233; 2; 6; 37; 38; 5; 224; 1; 70; 7; 229; 37; 71; 102; 39; 38; 54; 27; 118; 6; 224; 2; 27; 32; 229; 17; 192; 233;
  2; 160; 70; 229; 28; 134; 7; 230; 0; 0; 233; 2; 118; 5; 39; 5; 224; 0; 229; 27; 6; 54; 5; 224; 1; 38; 7; 229; 40;
  71; 230; 1; 39; 101; 118; 102; 22; 7; 6; 233; 2; 5; 22; 5; 86; 0; 235; 12; 224; 3; 229; 10; 0; 229; 17; 71; 70; 39;
  6; 7; 38; 182; 6; 37; 6; 224; 54; 197; 0; 5; 0; 101; 0; 229; 7; 0; 229; 2; 22; 160; 229; 39; 6; 71; 230; 0; 128;
  233; 2; 160; 38; 39; 0; 229; 0; 32; 37; 32; 229; 14; 0; 197; 0; 37; 0; 133; 0; 38; 5; 39; 6; 103; 32; 39; 32; 71;
  32; 5; 160; 7; 128; 133; 39; 32; 198; 64; 134; 224; 3; 229; 2; 0; 5; 32; 5; 0; 229; 30; 0; 5; 71; 166; 0; 7; 32; 7;
  0; 103; 0; 39; 6; 7; 6; 5; 6; 5; 54; 0; 54; 224; 0; 38; 224; 21; 229; 45; 71; 230; 0; 39; 70; 7; 6; 101; 150; 233;
  2; 54; 0; 22; 6; 69; 224; 22; 229; 40; 71; 166; 7; 6; 103; 38; 7; 38; 37; 22; 5; 224; 0; 233; 2; 224; 128; 30; 229;
  39; 71; 102; 32; 103; 38; 7; 38; 246; 15; 101; 38; 224; 26; 229; 40; 71; 230; 0; 39; 6; 7; 38; 86; 5; 224; 3; 233;
  2; 160; 246; 5; 224; 11; 229; 35; 6; 7; 6; 39; 166; 7; 6; 5; 22; 160; 233; 2; 160; 233; 12; 224; 20; 229; 19; 32;
  6; 7; 6; 39; 102; 7; 134; 96; 233; 2; 43; 86; 15; 197; 224; 128; 49; 229; 36; 71; 230; 1; 7; 38; 22; 224; 92; 225;
  24; 226; 24; 233; 2; 235; 1; 224; 4; 229; 0; 32; 5; 32; 229; 0; 0; 37; 0; 229; 16; 167; 0; 39; 32; 38; 7; 6; 5; 7;
  5; 7; 6; 86; 224; 1; 233; 2; 224; 62; 229; 0; 32; 229; 31; 71; 102; 32; 38; 103; 6; 5; 22; 5; 7; 224; 19; 5; 230;
  2; 229; 32; 166; 7; 5; 102; 246; 0; 6; 224; 0; 5; 166; 39; 70; 229; 38; 230; 5; 7; 38; 86; 5; 150; 224; 5; 229; 65;
  192; 246; 2; 224; 78; 6; 7; 70; 7; 6; 7; 224; 80; 229; 25; 22; 224; 6; 233; 2; 160; 229; 1; 0; 229; 29; 7; 198; 0;
  166; 7; 6; 5; 150; 224; 2; 233; 2; 235; 11; 64; 54; 229; 22; 32; 230; 14; 0; 7; 198; 7; 38; 7; 38; 224; 65; 197; 0;
  37; 0; 229; 30; 166; 64; 6; 0; 38; 0; 198; 5; 6; 224; 0; 233; 2; 160; 165; 0; 37; 0; 229; 24; 135; 0; 38; 0; 39; 6;
  7; 6; 5; 192; 233; 2; 160; 229; 33; 4; 37; 96; 233; 2; 224; 128; 110; 229; 11; 38; 39; 54; 192; 38; 5; 7; 229; 5;
  0; 229; 26; 39; 134; 64; 39; 6; 7; 6; 246; 5; 233; 2; 6; 224; 77; 5; 224; 7; 235; 13; 239; 0; 109; 239; 9; 224; 5;
  22; 229; 131; 18; 224; 94; 234; 103; 0; 150; 224; 3; 229; 128; 60; 224; 137; 196; 229; 89; 54; 224; 5; 229; 131;
  168; 251; 8; 6; 165; 230; 7; 224; 2; 229; 143; 19; 128; 229; 129; 191; 224; 154; 49; 229; 22; 230; 4; 71; 70; 233;
  2; 224; 134; 62; 229; 129; 177; 192; 229; 23; 0; 233; 2; 96; 54; 229; 71; 0; 233; 2; 160; 229; 22; 32; 134; 22;
  224; 2; 229; 40; 198; 150; 111; 100; 22; 15; 224; 2; 233; 2; 0; 203; 0; 229; 13; 128; 229; 11; 224; 129; 40; 68;
  229; 32; 36; 86; 233; 2; 224; 128; 62; 225; 24; 226; 24; 235; 15; 118; 128; 225; 17; 32; 226; 17; 224; 36; 229; 67;
  96; 6; 5; 231; 47; 192; 102; 228; 5; 224; 56; 36; 22; 4; 6; 224; 3; 39; 36; 74; 224; 1; 229; 156; 78; 224; 33; 229;
  24; 224; 89; 229; 107; 224; 161; 117; 100; 0; 196; 0; 36; 0; 229; 128; 155; 224; 7; 5; 224; 21; 69; 32; 5; 224; 6;
  101; 224; 0; 229; 129; 4; 224; 136; 124; 229; 99; 128; 229; 5; 64; 229; 1; 192; 229; 2; 32; 15; 38; 22; 123; 224;
  142; 212; 239; 128; 104; 233; 2; 79; 64; 239; 129; 44; 160; 239; 15; 224; 7; 239; 8; 12; 224; 7; 230; 38; 32; 230;
  15; 224; 1; 239; 108; 224; 52; 239; 128; 110; 224; 2; 239; 31; 32; 239; 52; 39; 70; 79; 167; 251; 0; 230; 0; 47;
  198; 239; 22; 102; 239; 53; 224; 13; 239; 58; 70; 15; 224; 114; 235; 12; 224; 4; 235; 12; 224; 4; 239; 79; 224; 1;
  235; 17; 224; 127; 225; 18; 226; 18; 225; 18; 194; 0; 226; 10; 225; 18; 226; 18; 1; 0; 33; 32; 1; 32; 33; 32; 97;
  0; 225; 0; 98; 0; 2; 0; 194; 0; 226; 3; 225; 18; 226; 18; 33; 0; 97; 32; 225; 0; 0; 193; 0; 226; 18; 33; 0; 97; 0;
  129; 0; 1; 64; 193; 0; 226; 18; 225; 18; 226; 18; 225; 18; 226; 18; 225; 18; 226; 18; 225; 18; 226; 18; 225; 18;
  226; 18; 225; 18; 226; 20; 32; 225; 17; 12; 226; 17; 12; 162; 225; 17; 12; 226; 17; 12; 162; 225; 17; 12; 226; 17;
  12; 162; 225; 17; 12; 226; 17; 12; 162; 225; 17; 12; 226; 17; 12; 162; 63; 32; 233; 42; 239; 129; 120; 230; 47;
  111; 230; 42; 239; 0; 6; 239; 6; 6; 47; 150; 224; 7; 134; 0; 230; 7; 224; 131; 200; 226; 2; 5; 226; 12; 160; 162;
  224; 128; 77; 198; 0; 230; 9; 32; 198; 0; 38; 0; 134; 128; 228; 54; 224; 25; 6; 224; 104; 229; 37; 64; 198; 196;
  32; 233; 2; 96; 5; 15; 224; 128; 184; 229; 22; 6; 224; 9; 229; 36; 102; 233; 2; 128; 13; 224; 129; 72; 229; 19; 4;
  102; 233; 2; 224; 128; 78; 229; 22; 38; 5; 233; 2; 96; 22; 224; 128; 56; 229; 23; 0; 69; 6; 37; 6; 197; 38; 133; 6;
  224; 0; 5; 4; 224; 128; 88; 197; 0; 101; 0; 37; 0; 229; 7; 0; 229; 128; 61; 32; 235; 1; 198; 224; 33; 225; 26; 226;
  26; 198; 4; 96; 233; 2; 96; 54; 224; 130; 137; 235; 51; 15; 75; 13; 107; 224; 68; 235; 37; 15; 235; 7; 224; 128;
  58; 101; 0; 229; 19; 0; 37; 0; 5; 32; 5; 0; 229; 2; 0; 101; 0; 5; 0; 5; 160; 5; 96; 5; 0; 5; 0; 5; 0; 69; 0; 37; 0;
  5; 32; 5; 0; 5; 0; 5; 0; 5; 0; 5; 0; 37; 0; 5; 32; 101; 0; 197; 0; 101; 0; 101; 0; 5; 0; 229; 2; 0; 229; 9; 128;
  69; 0; 133; 0; 229; 9; 224; 44; 44; 224; 128; 134; 239; 36; 96; 239; 92; 224; 4; 239; 7; 32; 239; 7; 0; 239; 7; 0;
  239; 29; 224; 2; 235; 5; 239; 128; 25; 224; 48; 239; 21; 224; 5; 239; 36; 96; 239; 1; 192; 47; 224; 6; 175; 224;
  128; 18; 239; 128; 115; 142; 239; 130; 81; 64; 239; 9; 64; 239; 5; 64; 239; 128; 82; 160; 239; 4; 96; 15; 224; 7;
  239; 4; 96; 239; 48; 224; 0; 239; 2; 160; 239; 32; 224; 0; 239; 22; 32; 239; 4; 96; 47; 224; 6; 236; 1; 224; 31;
  239; 128; 208; 224; 0; 239; 6; 32; 239; 5; 64; 239; 3; 64; 239; 49; 0; 15; 96; 239; 8; 32; 239; 4; 96; 239; 2; 192;
  239; 128; 11; 0; 239; 84; 233; 2; 15; 224; 131; 125; 229; 192; 102; 88; 224; 24; 229; 144; 150; 32; 229; 150; 6;
  32; 229; 156; 169; 224; 7; 229; 129; 230; 224; 137; 26; 229; 129; 150; 224; 133; 90; 229; 146; 195; 128; 229; 160;
  162; 224; 202; 138; 255; 27; 224; 22; 251; 88; 224; 120; 230; 128; 104; 224; 192; 189; 136; 253; 192; 191; 118; 32;
  253; 192; 191; 118; 32
].

Definition unicode_script_table : list Z := [
  192; 26; 153; 76; 133; 26; 153; 76; 174; 26; 128; 76; 142; 26; 128; 76; 132; 26; 150; 76; 128; 26; 158; 76; 128;
  26; 225; 96; 76; 166; 26; 132; 76; 132; 26; 129; 14; 147; 26; 224; 15; 59; 131; 46; 128; 26; 130; 46; 1; 131; 46;
  128; 26; 128; 46; 3; 128; 46; 128; 26; 128; 46; 128; 26; 130; 46; 0; 128; 46; 0; 147; 46; 0; 190; 46; 141; 27; 143;
  46; 224; 36; 30; 129; 59; 224; 72; 30; 0; 165; 5; 1; 177; 5; 1; 130; 5; 0; 182; 56; 7; 154; 56; 3; 133; 56; 10;
  132; 4; 128; 26; 133; 4; 128; 26; 141; 4; 128; 26; 130; 4; 128; 26; 159; 4; 128; 26; 137; 4; 138; 59; 153; 4; 128;
  59; 224; 11; 4; 128; 26; 161; 4; 141; 147; 0; 187; 147; 1; 130; 147; 175; 4; 177; 158; 13; 186; 107; 1; 130; 107;
  173; 133; 1; 142; 133; 0; 155; 87; 1; 128; 87; 0; 138; 147; 4; 161; 4; 4; 202; 4; 128; 26; 156; 4; 208; 33; 131;
  59; 142; 33; 129; 26; 153; 33; 131; 12; 0; 135; 12; 1; 129; 12; 1; 149; 12; 0; 134; 12; 0; 128; 12; 2; 131; 12; 1;
  136; 12; 1; 129; 12; 1; 131; 12; 7; 128; 12; 3; 129; 12; 0; 132; 12; 1; 152; 12; 1; 130; 49; 0; 133; 49; 3; 129;
  49; 1; 149; 49; 0; 134; 49; 0; 129; 49; 0; 129; 49; 0; 129; 49; 1; 128; 49; 0; 132; 49; 3; 129; 49; 1; 130; 49; 2;
  128; 49; 6; 131; 49; 0; 128; 49; 6; 144; 49; 9; 130; 47; 0; 136; 47; 0; 130; 47; 0; 149; 47; 0; 134; 47; 0; 129;
  47; 0; 132; 47; 1; 137; 47; 0; 130; 47; 0; 130; 47; 1; 128; 47; 14; 131; 47; 1; 139; 47; 6; 134; 47; 0; 130; 122;
  0; 135; 122; 1; 129; 122; 1; 149; 122; 0; 134; 122; 0; 129; 122; 0; 132; 122; 1; 136; 122; 1; 129; 122; 1; 130;
  122; 6; 130; 122; 3; 129; 122; 0; 132; 122; 1; 145; 122; 9; 129; 155; 0; 133; 155; 2; 130; 155; 0; 131; 155; 2;
  129; 155; 0; 128; 155; 0; 129; 155; 2; 129; 155; 2; 130; 155; 2; 139; 155; 3; 132; 155; 2; 130; 155; 0; 131; 155;
  1; 128; 155; 5; 128; 155; 13; 148; 155; 4; 140; 157; 0; 130; 157; 0; 150; 157; 0; 143; 157; 1; 136; 157; 0; 130;
  157; 0; 131; 157; 6; 129; 157; 0; 130; 157; 0; 129; 157; 1; 131; 157; 1; 137; 157; 6; 136; 157; 140; 64; 0; 130;
  64; 0; 150; 64; 0; 137; 64; 0; 132; 64; 1; 136; 64; 0; 130; 64; 0; 131; 64; 6; 129; 64; 4; 130; 64; 0; 131; 64; 1;
  137; 64; 0; 130; 64; 11; 140; 86; 0; 130; 86; 0; 178; 86; 0; 130; 86; 0; 133; 86; 3; 143; 86; 1; 153; 86; 0; 130;
  140; 0; 145; 140; 2; 151; 140; 0; 136; 140; 0; 128; 140; 1; 134; 140; 2; 128; 140; 3; 133; 140; 0; 128; 140; 0;
  135; 140; 5; 137; 140; 1; 130; 140; 11; 185; 159; 3; 128; 26; 155; 159; 36; 129; 75; 0; 128; 75; 0; 132; 75; 0;
  151; 75; 0; 128; 75; 0; 150; 75; 1; 132; 75; 0; 128; 75; 0; 134; 75; 0; 137; 75; 1; 131; 75; 31; 199; 160; 0; 163;
  160; 3; 166; 160; 0; 163; 160; 0; 142; 160; 0; 134; 160; 131; 26; 129; 160; 36; 224; 63; 101; 165; 42; 0; 128; 42;
  4; 128; 42; 1; 170; 42; 128; 26; 131; 42; 224; 159; 52; 200; 40; 0; 131; 40; 1; 134; 40; 0; 128; 40; 0; 131; 40; 1;
  168; 40; 0; 131; 40; 1; 160; 40; 0; 131; 40; 1; 134; 40; 0; 128; 40; 0; 131; 40; 1; 142; 40; 0; 184; 40; 0; 131;
  40; 1; 194; 40; 1; 159; 40; 2; 153; 40; 5; 213; 24; 1; 133; 24; 1; 226; 31; 19; 156; 110; 2; 202; 132; 130; 26;
  138; 132; 6; 149; 148; 8; 128; 148; 148; 54; 129; 26; 8; 147; 18; 11; 140; 149; 0; 130; 149; 0; 129; 149; 11; 221;
  70; 1; 137; 70; 5; 137; 70; 5; 129; 98; 129; 26; 128; 98; 128; 26; 147; 98; 5; 216; 98; 6; 170; 98; 4; 197; 19; 9;
  158; 78; 0; 139; 78; 3; 139; 78; 3; 128; 78; 2; 139; 78; 157; 150; 1; 132; 150; 10; 171; 105; 3; 153; 105; 5; 138;
  105; 2; 129; 105; 159; 70; 155; 17; 1; 129; 17; 190; 151; 0; 156; 151; 1; 138; 151; 5; 137; 151; 5; 141; 151; 1;
  173; 59; 1; 139; 59; 19; 204; 7; 0; 177; 7; 191; 144; 179; 10; 7; 131; 10; 183; 77; 2; 142; 77; 2; 130; 77; 175;
  111; 138; 30; 4; 170; 42; 1; 130; 42; 135; 144; 7; 130; 59; 128; 26; 140; 59; 128; 26; 134; 59; 131; 26; 128; 59;
  133; 26; 128; 59; 130; 26; 129; 59; 128; 26; 4; 165; 76; 132; 46; 128; 30; 176; 76; 132; 46; 131; 76; 132; 46; 140;
  76; 128; 30; 197; 76; 128; 46; 191; 59; 224; 159; 76; 149; 46; 1; 133; 46; 1; 165; 46; 1; 133; 46; 1; 135; 46; 0;
  128; 46; 0; 128; 46; 0; 128; 46; 0; 158; 46; 1; 180; 46; 0; 142; 46; 0; 141; 46; 1; 133; 46; 0; 146; 46; 1; 130;
  46; 0; 136; 46; 0; 139; 26; 129; 59; 214; 26; 0; 138; 26; 128; 76; 1; 138; 26; 128; 76; 142; 26; 0; 140; 76; 2;
  161; 26; 13; 160; 59; 14; 165; 26; 128; 46; 130; 26; 129; 76; 133; 26; 128; 76; 154; 26; 128; 76; 144; 26; 168; 76;
  130; 26; 3; 226; 57; 26; 21; 138; 26; 20; 227; 63; 26; 224; 159; 16; 226; 19; 26; 1; 224; 41; 26; 223; 43; 159; 76;
  224; 19; 27; 4; 134; 27; 165; 42; 0; 128; 42; 4; 128; 42; 1; 183; 161; 6; 129; 161; 13; 128; 161; 150; 40; 8; 134;
  40; 0; 134; 40; 0; 134; 40; 0; 134; 40; 0; 134; 40; 0; 134; 40; 0; 134; 40; 0; 134; 40; 0; 159; 30; 221; 26; 33;
  153; 51; 0; 216; 51; 11; 224; 117; 51; 25; 148; 26; 128; 51; 128; 26; 128; 51; 152; 26; 136; 51; 131; 59; 129; 52;
  135; 26; 131; 51; 131; 26; 0; 213; 57; 1; 129; 59; 129; 26; 130; 57; 128; 26; 217; 65; 129; 26; 130; 65; 4; 170;
  14; 0; 221; 52; 0; 143; 26; 159; 14; 165; 26; 8; 128; 26; 143; 65; 158; 52; 0; 191; 26; 158; 52; 208; 26; 174; 65;
  128; 26; 215; 65; 224; 71; 26; 240; 9; 95; 51; 191; 26; 240; 65; 159; 51; 228; 44; 174; 2; 182; 174; 8; 175; 81;
  224; 203; 169; 19; 223; 30; 215; 8; 7; 161; 26; 224; 5; 76; 130; 26; 209; 76; 19; 142; 76; 172; 146; 2; 137; 26; 5;
  183; 128; 7; 197; 134; 7; 139; 134; 5; 159; 33; 173; 68; 128; 26; 128; 68; 163; 131; 10; 128; 131; 156; 52; 2; 205;
  62; 0; 128; 26; 137; 62; 3; 129; 62; 158; 101; 0; 182; 23; 8; 141; 23; 1; 137; 23; 1; 131; 23; 159; 101; 194; 152;
  23; 132; 152; 150; 92; 9; 133; 40; 1; 133; 40; 1; 133; 40; 8; 134; 40; 0; 134; 40; 0; 170; 76; 128; 26; 136; 76;
  128; 46; 131; 76; 129; 26; 3; 207; 24; 173; 92; 1; 137; 92; 5; 240; 27; 67; 52; 11; 150; 52; 3; 176; 52; 112; 16;
  163; 225; 13; 51; 1; 224; 9; 51; 37; 134; 76; 11; 132; 5; 4; 153; 56; 0; 132; 56; 0; 128; 56; 0; 129; 56; 0; 129;
  56; 0; 137; 56; 225; 141; 4; 129; 26; 224; 47; 4; 31; 143; 4; 143; 59; 137; 26; 5; 141; 59; 129; 30; 162; 26; 0;
  146; 26; 0; 131; 26; 3; 132; 4; 0; 224; 38; 4; 1; 128; 26; 0; 159; 26; 153; 76; 133; 26; 153; 76; 138; 26; 137; 65;
  128; 26; 172; 65; 129; 26; 158; 52; 2; 133; 52; 1; 133; 52; 1; 133; 52; 1; 130; 52; 2; 134; 26; 0; 134; 26; 9; 132;
  26; 1; 139; 80; 0; 153; 80; 0; 146; 80; 0; 129; 80; 0; 142; 80; 1; 141; 80; 33; 224; 26; 80; 4; 130; 26; 3; 172;
  26; 2; 136; 26; 206; 46; 0; 140; 26; 2; 128; 46; 46; 172; 26; 128; 59; 96; 33; 156; 82; 2; 176; 20; 14; 128; 59;
  154; 26; 3; 163; 114; 8; 130; 114; 154; 44; 4; 170; 116; 4; 157; 168; 0; 128; 168; 163; 117; 3; 141; 117; 41; 207;
  32; 175; 136; 157; 124; 1; 137; 124; 5; 163; 123; 3; 163; 123; 3; 167; 38; 7; 179; 21; 10; 128; 21; 138; 170; 0;
  142; 170; 0; 134; 170; 0; 129; 170; 0; 138; 170; 0; 142; 170; 0; 134; 170; 0; 129; 170; 2; 179; 164; 11; 224; 214;
  79; 8; 149; 79; 9; 135; 79; 23; 133; 76; 0; 169; 76; 0; 136; 76; 68; 133; 29; 1; 128; 29; 0; 171; 29; 0; 129; 29;
  2; 128; 29; 1; 128; 29; 149; 58; 0; 136; 58; 159; 126; 158; 102; 7; 136; 102; 47; 146; 55; 0; 129; 55; 4; 132; 55;
  155; 129; 2; 128; 129; 153; 83; 4; 128; 83; 153; 138; 37; 159; 95; 151; 94; 3; 147; 94; 1; 173; 94; 131; 69; 0;
  129; 69; 4; 135; 69; 0; 130; 69; 0; 156; 69; 1; 130; 69; 3; 137; 69; 6; 136; 69; 6; 159; 119; 159; 115; 31; 166;
  88; 3; 139; 88; 8; 181; 6; 2; 134; 6; 149; 61; 1; 135; 61; 146; 60; 4; 135; 60; 145; 130; 6; 131; 130; 11; 134;
  130; 79; 200; 120; 54; 178; 113; 12; 178; 113; 6; 133; 113; 167; 53; 7; 137; 53; 5; 165; 41; 2; 156; 41; 7; 129;
  41; 96; 111; 158; 4; 0; 169; 173; 0; 130; 173; 1; 129; 173; 15; 133; 4; 7; 136; 4; 32; 133; 4; 167; 118; 7; 169;
  141; 21; 153; 121; 37; 155; 25; 19; 150; 39; 8; 205; 15; 3; 163; 15; 8; 128; 15; 194; 63; 9; 128; 63; 1; 152; 142;
  6; 137; 142; 5; 180; 22; 0; 145; 22; 7; 166; 85; 8; 223; 135; 0; 147; 140; 10; 145; 71; 0; 174; 71; 61; 134; 100;
  0; 128; 100; 0; 131; 100; 0; 142; 100; 0; 138; 100; 5; 186; 73; 4; 137; 73; 5; 131; 45; 0; 135; 45; 1; 129; 45; 1;
  149; 45; 0; 134; 45; 0; 129; 45; 0; 132; 45; 0; 128; 59; 136; 45; 1; 129; 45; 1; 130; 45; 1; 128; 45; 5; 128; 45;
  4; 134; 45; 1; 134; 45; 2; 132; 45; 10; 137; 167; 0; 128; 167; 1; 128; 167; 0; 165; 167; 0; 137; 167; 0; 128; 167;
  1; 128; 167; 0; 131; 167; 0; 137; 167; 0; 129; 167; 7; 129; 167; 28; 219; 106; 0; 132; 106; 29; 199; 162; 7; 137;
  162; 96; 69; 181; 137; 1; 165; 137; 33; 196; 97; 10; 137; 97; 5; 140; 98; 18; 185; 154; 5; 137; 154; 5; 147; 101;
  27; 154; 2; 1; 142; 2; 3; 150; 2; 96; 88; 187; 35; 96; 3; 210; 172; 11; 128; 172; 134; 34; 1; 128; 34; 1; 135; 34;
  0; 129; 34; 0; 157; 34; 0; 129; 34; 1; 139; 34; 8; 137; 34; 69; 135; 104; 1; 173; 104; 1; 138; 104; 26; 199; 175;
  7; 210; 143; 12; 143; 19; 184; 127; 6; 137; 33; 85; 135; 135; 87; 161; 145; 13; 137; 145; 5; 136; 13; 0; 172; 13;
  0; 141; 13; 9; 156; 13; 2; 159; 89; 1; 149; 89; 0; 141; 89; 72; 134; 90; 0; 129; 90; 0; 171; 90; 2; 128; 90; 0;
  129; 90; 0; 136; 90; 7; 137; 90; 5; 133; 48; 0; 129; 48; 0; 164; 48; 0; 129; 48; 0; 133; 48; 6; 137; 48; 5; 171;
  165; 3; 137; 165; 96; 149; 152; 84; 6; 144; 67; 0; 168; 67; 2; 156; 67; 84; 128; 81; 14; 177; 155; 12; 128; 155;
  227; 57; 28; 96; 5; 224; 14; 28; 0; 132; 28; 10; 224; 99; 28; 105; 235; 224; 2; 31; 12; 227; 245; 37; 9; 239; 58;
  37; 4; 225; 230; 3; 112; 10; 88; 185; 50; 102; 101; 225; 216; 8; 6; 158; 99; 0; 137; 99; 3; 129; 99; 206; 163; 0;
  137; 163; 5; 157; 9; 1; 133; 9; 9; 197; 125; 9; 137; 125; 0; 134; 125; 0; 148; 125; 4; 146; 125; 97; 79; 185; 74;
  96; 101; 218; 91; 4; 152; 11; 1; 152; 11; 43; 202; 96; 3; 184; 96; 6; 144; 96; 63; 128; 156; 128; 108; 129; 51;
  128; 72; 10; 134; 51; 8; 240; 10; 159; 156; 225; 117; 72; 40; 128; 72; 158; 156; 96; 0; 224; 18; 156; 112; 17; 156;
  131; 65; 0; 134; 65; 0; 129; 65; 0; 128; 65; 224; 190; 57; 130; 65; 14; 128; 57; 28; 130; 57; 1; 128; 65; 13; 131;
  65; 7; 225; 43; 108; 104; 163; 224; 10; 36; 4; 140; 36; 2; 136; 36; 6; 137; 36; 1; 131; 36; 131; 26; 110; 251; 224;
  156; 26; 2; 225; 83; 26; 5; 150; 26; 14; 144; 26; 14; 173; 59; 1; 150; 59; 8; 224; 19; 26; 59; 224; 149; 26; 9;
  166; 26; 1; 189; 26; 130; 59; 144; 26; 135; 59; 129; 26; 134; 59; 157; 26; 131; 59; 188; 26; 20; 197; 46; 96; 25;
  147; 26; 11; 147; 26; 11; 214; 26; 8; 152; 26; 96; 38; 212; 26; 0; 198; 26; 0; 129; 26; 1; 128; 26; 1; 129; 26; 1;
  131; 26; 0; 139; 26; 0; 128; 26; 0; 134; 26; 0; 192; 26; 0; 131; 26; 1; 135; 26; 0; 134; 26; 0; 155; 26; 0; 131;
  26; 0; 132; 26; 0; 128; 26; 2; 134; 26; 0; 224; 243; 26; 1; 224; 195; 26; 1; 177; 26; 226; 43; 139; 14; 132; 139;
  0; 142; 139; 99; 239; 158; 76; 5; 133; 76; 96; 116; 134; 43; 0; 144; 43; 1; 134; 43; 0; 129; 43; 0; 132; 43; 4;
  189; 30; 32; 128; 30; 96; 15; 172; 109; 2; 141; 109; 1; 137; 109; 3; 129; 109; 96; 223; 158; 166; 16; 185; 171; 4;
  128; 171; 97; 111; 169; 103; 96; 117; 170; 112; 3; 128; 112; 96; 95; 158; 153; 0; 149; 153; 7; 129; 153; 96; 127;
  134; 40; 0; 131; 40; 0; 129; 40; 0; 142; 40; 0; 224; 100; 93; 1; 143; 93; 40; 203; 1; 3; 137; 1; 3; 129; 1; 98;
  176; 195; 26; 75; 188; 26; 96; 97; 131; 4; 0; 154; 4; 0; 129; 4; 0; 128; 4; 1; 128; 4; 0; 137; 4; 0; 131; 4; 0;
  128; 4; 0; 128; 4; 5; 128; 4; 3; 128; 4; 0; 128; 4; 0; 128; 4; 0; 130; 4; 0; 129; 4; 0; 128; 4; 1; 128; 4; 0; 128;
  4; 0; 128; 4; 0; 128; 4; 0; 128; 4; 0; 129; 4; 0; 128; 4; 1; 131; 4; 0; 134; 4; 0; 131; 4; 0; 131; 4; 0; 128; 4; 0;
  137; 4; 0; 144; 4; 4; 130; 4; 0; 132; 4; 0; 144; 4; 51; 129; 4; 96; 173; 171; 26; 3; 224; 3; 26; 11; 142; 26; 1;
  142; 26; 0; 142; 26; 0; 164; 26; 9; 224; 77; 26; 55; 153; 26; 128; 57; 129; 26; 12; 171; 26; 3; 136; 26; 6; 129;
  26; 13; 133; 26; 96; 57; 227; 120; 26; 2; 144; 26; 2; 140; 26; 2; 224; 121; 26; 5; 139; 26; 3; 128; 26; 14; 139;
  26; 3; 183; 26; 7; 137; 26; 5; 167; 26; 7; 157; 26; 1; 139; 26; 3; 129; 26; 13; 136; 26; 38; 224; 247; 26; 7; 141;
  26; 1; 140; 26; 2; 138; 26; 2; 184; 26; 0; 128; 26; 3; 143; 26; 1; 139; 26; 3; 137; 26; 6; 224; 50; 26; 0; 224; 6;
  26; 99; 164; 240; 150; 127; 51; 31; 240; 0; 189; 51; 1; 240; 6; 45; 51; 1; 240; 12; 208; 51; 14; 226; 13; 51; 105;
  65; 225; 189; 51; 101; 129; 240; 2; 234; 51; 4; 240; 16; 201; 51; 122; 187; 38; 128; 26; 29; 223; 26; 96; 31; 224;
  143; 59
].

Definition unicode_script_ext_table : list Z := [
  128; 54; 0; 0; 16; 6; 20; 27; 36; 38; 42; 43; 48; 44; 46; 51; 76; 83; 85; 116; 136; 129; 131; 0; 0; 7; 12; 30; 33;
  76; 81; 159; 166; 9; 0; 0; 2; 14; 76; 0; 0; 2; 2; 14; 76; 0; 0; 0; 2; 76; 81; 8; 0; 0; 2; 76; 159; 0; 0; 0; 2; 14;
  76; 37; 0; 0; 8; 24; 27; 30; 46; 76; 116; 145; 150; 0; 8; 24; 30; 46; 76; 123; 145; 150; 164; 0; 4; 24; 30; 76;
  161; 0; 5; 43; 76; 145; 147; 159; 0; 11; 21; 24; 27; 30; 44; 46; 76; 123; 147; 161; 164; 0; 6; 27; 38; 43; 44; 65;
  76; 0; 5; 30; 46; 76; 116; 161; 0; 9; 27; 36; 56; 76; 116; 147; 150; 161; 164; 0; 11; 5; 30; 36; 44; 46; 56; 76;
  116; 147; 150; 161; 0; 2; 76; 161; 0; 3; 36; 76; 147; 0; 4; 24; 30; 76; 123; 0; 3; 24; 76; 150; 0; 2; 76; 145; 0;
  2; 40; 76; 0; 0; 0; 2; 76; 145; 0; 3; 30; 76; 164; 0; 0; 0; 4; 46; 76; 116; 164; 14; 0; 0; 6; 24; 36; 65; 76; 147;
  161; 0; 4; 24; 36; 76; 147; 0; 2; 76; 147; 6; 0; 0; 3; 76; 145; 147; 0; 2; 76; 147; 0; 0; 0; 3; 24; 76; 147; 0; 7;
  21; 24; 44; 76; 145; 147; 159; 15; 0; 0; 1; 46; 1; 0; 0; 1; 46; 17; 0; 0; 2; 76; 123; 4; 0; 0; 3; 21; 76; 164; 3;
  0; 12; 1; 76; 3; 0; 1; 2; 27; 46; 128; 140; 0; 0; 2; 30; 116; 0; 2; 30; 43; 1; 2; 30; 76; 0; 2; 30; 43; 128; 128;
  0; 0; 3; 5; 42; 43; 128; 1; 0; 0; 7; 4; 41; 107; 53; 147; 158; 173; 13; 0; 0; 7; 4; 41; 107; 53; 147; 158; 173; 0;
  3; 4; 147; 158; 1; 0; 0; 8; 1; 4; 41; 107; 53; 147; 158; 173; 31; 0; 0; 9; 1; 4; 87; 88; 121; 130; 53; 141; 147; 9;
  0; 10; 2; 4; 147; 9; 0; 9; 3; 4; 158; 173; 5; 0; 0; 2; 4; 147; 98; 0; 0; 2; 4; 53; 129; 251; 0; 0; 15; 12; 33; 45;
  47; 49; 64; 76; 86; 104; 106; 122; 135; 155; 157; 162; 0; 13; 12; 33; 45; 47; 49; 64; 76; 86; 106; 122; 155; 157;
  162; 16; 0; 0; 21; 12; 33; 35; 48; 90; 45; 47; 49; 64; 85; 86; 104; 112; 122; 73; 140; 146; 154; 155; 157; 162; 0;
  23; 12; 33; 35; 48; 90; 45; 47; 50; 49; 64; 78; 85; 86; 104; 112; 122; 73; 140; 146; 154; 155; 157; 162; 9; 4; 33;
  35; 63; 85; 117; 0; 9; 3; 12; 22; 146; 117; 0; 9; 2; 49; 100; 117; 0; 9; 2; 47; 71; 128; 117; 0; 13; 2; 45; 155;
  128; 113; 0; 9; 3; 64; 104; 167; 130; 207; 0; 9; 3; 22; 101; 150; 128; 48; 0; 0; 3; 42; 43; 76; 133; 110; 0; 2; 1;
  132; 70; 0; 1; 4; 18; 54; 149; 148; 128; 74; 0; 1; 2; 98; 128; 0; 0; 0; 2; 98; 128; 132; 73; 0; 0; 4; 12; 33; 45;
  64; 0; 1; 33; 0; 4; 12; 33; 45; 64; 0; 3; 33; 45; 64; 0; 1; 33; 0; 5; 12; 33; 106; 157; 162; 0; 3; 12; 33; 157; 0;
  3; 33; 106; 135; 0; 4; 12; 33; 106; 157; 0; 2; 33; 135; 0; 6; 33; 64; 86; 122; 155; 157; 0; 1; 33; 1; 2; 33; 135;
  1; 1; 33; 0; 2; 33; 135; 0; 2; 12; 33; 0; 3; 33; 106; 162; 5; 1; 33; 0; 3; 33; 104; 106; 0; 3; 12; 33; 135; 0; 2;
  33; 106; 0; 1; 33; 0; 4; 12; 33; 106; 135; 3; 1; 33; 0; 11; 12; 33; 45; 64; 86; 104; 122; 140; 157; 162; 167; 0; 2;
  33; 45; 0; 4; 33; 45; 64; 167; 1; 2; 12; 33; 0; 1; 12; 1; 2; 33; 45; 0; 1; 104; 128; 68; 0; 1; 1; 46; 53; 0; 0; 3;
  30; 76; 147; 0; 0; 0; 1; 147; 129; 179; 0; 0; 3; 76; 98; 128; 30; 0; 0; 2; 1; 4; 9; 0; 0; 6; 20; 42; 43; 113; 82;
  120; 1; 0; 0; 4; 20; 46; 113; 95; 128; 17; 0; 0; 3; 33; 45; 76; 140; 165; 0; 0; 2; 27; 76; 23; 0; 0; 2; 6; 120; 0;
  7; 6; 20; 42; 113; 63; 83; 133; 9; 0; 0; 1; 36; 3; 0; 0; 3; 1; 4; 113; 0; 0; 0; 2; 30; 43; 129; 43; 0; 15; 2; 51;
  156; 0; 0; 0; 7; 14; 52; 51; 57; 65; 98; 174; 0; 8; 14; 52; 51; 57; 65; 98; 128; 174; 0; 5; 14; 52; 51; 57; 65; 1;
  0; 0; 1; 51; 0; 0; 1; 8; 14; 52; 51; 57; 65; 98; 160; 174; 1; 9; 14; 52; 51; 57; 65; 81; 98; 160; 174; 5; 6; 14;
  52; 51; 57; 65; 174; 0; 0; 0; 5; 14; 52; 51; 57; 65; 7; 6; 14; 52; 51; 57; 65; 174; 3; 5; 14; 52; 51; 57; 65; 9; 0;
  3; 2; 14; 51; 1; 0; 0; 5; 14; 52; 51; 57; 65; 4; 2; 57; 65; 0; 0; 0; 5; 14; 52; 51; 57; 65; 3; 0; 1; 3; 51; 57; 65;
  1; 1; 51; 88; 0; 3; 2; 57; 65; 2; 0; 0; 2; 57; 65; 89; 0; 0; 6; 14; 52; 51; 57; 65; 174; 0; 2; 57; 65; 128; 18; 0;
  15; 1; 51; 31; 0; 37; 1; 51; 8; 0; 0; 2; 51; 156; 47; 0; 39; 1; 51; 55; 0; 48; 1; 51; 14; 0; 11; 1; 51; 50; 0; 0;
  1; 51; 87; 0; 24; 1; 51; 9; 0; 4; 1; 51; 95; 0; 30; 1; 51; 192; 49; 239; 0; 0; 2; 30; 43; 128; 15; 0; 7; 2; 51; 76;
  128; 167; 0; 2; 16; 33; 35; 47; 49; 71; 64; 63; 85; 86; 97; 104; 135; 73; 154; 162; 167; 2; 15; 33; 35; 47; 49; 71;
  64; 63; 85; 97; 104; 135; 73; 154; 162; 167; 1; 11; 33; 35; 47; 49; 71; 63; 85; 97; 73; 154; 162; 0; 12; 33; 35;
  47; 49; 71; 63; 85; 97; 135; 73; 154; 162; 0; 11; 33; 35; 47; 49; 71; 63; 85; 97; 73; 154; 162; 128; 54; 0; 0; 3;
  12; 33; 167; 0; 0; 0; 2; 33; 155; 57; 0; 0; 3; 68; 76; 101; 128; 31; 0; 0; 2; 17; 62; 192; 18; 237; 0; 1; 2; 4;
  107; 128; 49; 0; 0; 2; 4; 158; 9; 0; 0; 2; 4; 158; 70; 0; 1; 5; 14; 52; 51; 57; 65; 128; 153; 0; 4; 6; 14; 52; 51;
  57; 65; 174; 9; 0; 0; 2; 57; 65; 44; 0; 1; 2; 57; 65; 128; 223; 0; 1; 3; 31; 29; 80; 0; 2; 29; 80; 3; 0; 44; 3; 29;
  79; 80; 2; 0; 8; 2; 29; 80; 129; 31; 0; 27; 2; 4; 27; 135; 117; 0; 0; 2; 88; 121; 135; 141; 0; 0; 2; 45; 155; 0; 0;
  0; 2; 45; 155; 54; 0; 1; 2; 45; 155; 140; 18; 0; 1; 2; 45; 155; 0; 0; 0; 2; 45; 155; 192; 92; 75; 0; 3; 1; 36; 150;
  59; 0; 17; 1; 51; 158; 93; 0; 1; 1; 51; 206; 205; 45; 0
].

Definition unicode_prop_Hyphen_table : list Z := [
  172; 128; 254; 128; 68; 219; 128; 82; 122; 128; 72; 8; 129; 78; 4; 128; 66; 226; 128; 96; 205; 102; 128; 64; 168;
  128; 214; 128
].

Definition unicode_prop_Other_Math_table : list Z := [
  221; 128; 67; 112; 17; 128; 153; 9; 129; 92; 31; 128; 154; 130; 138; 128; 159; 131; 151; 129; 141; 129; 192; 140;
  24; 17; 28; 145; 3; 1; 137; 0; 20; 40; 17; 9; 2; 5; 19; 36; 202; 33; 24; 8; 8; 0; 33; 11; 11; 145; 9; 0; 6; 0; 41;
  65; 33; 131; 64; 167; 8; 128; 151; 128; 144; 128; 65; 188; 129; 139; 136; 36; 33; 9; 20; 141; 0; 1; 133; 151; 129;
  184; 0; 128; 156; 131; 136; 129; 65; 85; 129; 158; 137; 65; 146; 149; 190; 131; 159; 129; 96; 212; 98; 0; 3; 128;
  64; 210; 0; 128; 96; 212; 192; 212; 128; 198; 1; 8; 9; 11; 128; 139; 0; 6; 128; 192; 3; 15; 6; 128; 155; 3; 4; 0;
  22; 128; 65; 83; 129; 152; 128; 152; 128; 158; 128; 152; 128; 158; 128; 152; 128; 158; 128; 152; 128; 158; 128;
  152; 7; 129; 177; 85; 255; 24; 154; 1; 0; 8; 128; 137; 3; 0; 0; 40; 24; 0; 0; 2; 1; 0; 8; 0; 0; 0; 0; 1; 0; 11; 6;
  3; 3; 0; 128; 137; 128; 144; 34; 4; 128; 144
].

Definition unicode_prop_Other_Alphabetic_table : list Z := [
  67; 68; 128; 156; 140; 66; 63; 141; 0; 1; 1; 0; 199; 138; 175; 140; 6; 143; 128; 228; 51; 25; 11; 128; 162; 128;
  157; 143; 229; 138; 228; 10; 136; 2; 3; 233; 128; 187; 139; 22; 133; 147; 181; 9; 142; 1; 34; 137; 129; 156; 130;
  185; 49; 9; 129; 137; 128; 137; 129; 156; 130; 185; 35; 9; 11; 128; 157; 10; 128; 138; 130; 185; 56; 16; 129; 148;
  129; 149; 19; 130; 185; 49; 9; 129; 136; 129; 137; 129; 157; 128; 186; 34; 16; 130; 137; 128; 167; 132; 184; 48;
  16; 23; 129; 138; 129; 156; 130; 185; 48; 16; 23; 129; 138; 129; 142; 128; 139; 131; 185; 48; 16; 130; 137; 128;
  137; 129; 156; 130; 202; 40; 0; 135; 145; 129; 188; 1; 134; 145; 128; 226; 1; 40; 129; 143; 128; 64; 162; 146; 136;
  138; 128; 163; 237; 139; 0; 11; 150; 27; 16; 17; 50; 131; 140; 139; 0; 137; 131; 70; 115; 129; 157; 129; 157; 129;
  157; 129; 193; 146; 64; 187; 129; 161; 128; 245; 139; 131; 136; 64; 221; 132; 184; 137; 129; 147; 201; 129; 138;
  130; 176; 132; 175; 142; 187; 130; 157; 136; 9; 184; 138; 177; 146; 65; 155; 161; 70; 192; 179; 72; 245; 159; 96;
  120; 115; 135; 161; 129; 65; 97; 7; 128; 150; 132; 215; 129; 177; 143; 0; 184; 128; 165; 132; 155; 139; 172; 131;
  175; 139; 164; 128; 194; 141; 139; 7; 129; 172; 130; 177; 0; 17; 12; 128; 171; 36; 128; 64; 236; 135; 96; 79; 50;
  128; 72; 86; 132; 70; 133; 16; 12; 131; 67; 19; 131; 192; 128; 65; 64; 129; 204; 130; 65; 2; 130; 180; 141; 172;
  129; 138; 130; 172; 136; 136; 128; 188; 130; 163; 139; 145; 129; 184; 130; 175; 140; 141; 129; 219; 136; 8; 40; 8;
  64; 156; 137; 150; 131; 185; 49; 9; 129; 137; 128; 137; 129; 211; 136; 0; 8; 3; 1; 230; 140; 2; 233; 145; 64; 236;
  49; 134; 156; 129; 209; 142; 0; 233; 138; 230; 141; 65; 0; 140; 64; 246; 40; 9; 10; 0; 128; 64; 141; 49; 43; 128;
  155; 137; 169; 32; 131; 145; 138; 173; 141; 64; 199; 135; 64; 198; 56; 134; 210; 149; 128; 141; 249; 42; 0; 8; 16;
  2; 128; 193; 32; 8; 131; 65; 91; 131; 136; 8; 128; 175; 50; 130; 96; 65; 220; 144; 78; 31; 0; 182; 51; 220; 129;
  96; 76; 171; 128; 96; 35; 96; 48; 144; 14; 1; 4; 227; 128; 70; 82; 1; 6; 12; 128; 66; 80; 128; 71; 231; 153; 133;
  153; 133; 153
].

Definition unicode_prop_Other_Lowercase_table : list Z := [
  64; 169; 128; 142; 128; 65; 244; 136; 49; 157; 132; 223; 128; 179; 128; 77; 128; 128; 76; 46; 190; 140; 128; 161;
  164; 66; 176; 128; 140; 128; 143; 140; 64; 210; 143; 67; 79; 153; 71; 145; 129; 96; 122; 29; 129; 64; 209; 128;
  255; 26; 129; 67; 97; 131; 136; 128; 96; 92; 21; 1; 16; 169; 128; 136; 96; 216; 116; 189
].

Definition unicode_prop_Other_Uppercase_table : list Z := [
  96; 33; 95; 143; 67; 69; 153; 97; 204; 95; 153; 133; 153; 133; 153
].

Definition unicode_prop_Other_Grapheme_Extend_table : list Z := [
  73; 189; 128; 151; 128; 65; 101; 128; 151; 128; 229; 128; 151; 128; 64; 231; 0; 3; 8; 129; 136; 129; 230; 128; 151;
  128; 246; 128; 142; 128; 73; 52; 128; 157; 128; 67; 255; 4; 0; 4; 129; 228; 128; 198; 129; 68; 23; 128; 80; 32;
  129; 96; 121; 34; 128; 235; 128; 96; 85; 220; 129; 82; 31; 128; 243; 128; 65; 7; 128; 141; 128; 136; 128; 223; 128;
  136; 1; 0; 20; 128; 64; 223; 128; 139; 128; 64; 240; 128; 65; 5; 128; 66; 120; 128; 139; 128; 70; 2; 128; 96; 80;
  173; 129; 96; 97; 114; 13; 133; 108; 46; 172; 223
].

Definition unicode_prop_Other_Default_Ignorable_Code_Point_table : list Z := [
  67; 78; 128; 78; 14; 129; 70; 82; 129; 72; 174; 128; 80; 253; 128; 96; 206; 58; 128; 206; 136; 109; 0; 6; 0; 157;
  223; 255; 64; 239; 78; 15
].

Definition unicode_prop_Other_ID_Start_table : list Z := [
  88; 132; 129; 72; 144; 128; 148; 128; 79; 107; 129
].

Definition unicode_prop_Other_ID_Continue_table : list Z := [
  64; 182; 128; 66; 206; 128; 79; 224; 136; 70; 103; 128; 70; 48; 129; 80; 236; 128; 96; 206; 104; 128
].

Definition unicode_prop_Prepended_Concatenation_Mark_table : list Z := [
  69; 255; 133; 64; 214; 128; 176; 128; 65; 127; 129; 207; 128; 97; 7; 217; 128; 142; 128
].

Definition unicode_prop_XID_Start1_table : list Z := [
  67; 121; 128; 74; 183; 128; 254; 128; 96; 33; 230; 129; 96; 203; 192; 133; 65; 149; 129; 243; 0; 0; 0; 0; 0; 0; 0;
  128; 65; 30; 129
].

Definition unicode_prop_XID_Continue1_table : list Z := [
  67; 121; 128; 96; 45; 31; 129; 96; 203; 192; 133; 65; 149; 129; 243; 0; 0; 0; 0; 0; 0; 0; 128
].

Definition unicode_prop_Changes_When_Titlecased1_table : list Z := [
  65; 195; 8; 8; 129; 164; 129; 78; 220; 170; 10; 78; 135; 63; 63; 135; 139; 128; 142; 128; 174; 128
].

Definition unicode_prop_Changes_When_Casefolded1_table : list Z := [
  65; 239; 128; 65; 158; 128; 158; 128; 90; 228; 131; 64; 181; 0; 0; 0; 128; 222; 6; 6; 128; 138; 9; 129; 137; 16;
  129; 141; 128
].

Definition unicode_prop_Changes_When_NFKC_Casefolded1_table : list Z := [
  64; 159; 6; 0; 1; 0; 1; 18; 16; 130; 243; 128; 139; 128; 64; 132; 1; 1; 128; 162; 1; 128; 64; 187; 136; 158; 41;
  132; 218; 8; 129; 137; 128; 163; 4; 2; 4; 8; 7; 128; 158; 128; 160; 130; 156; 128; 66; 40; 128; 215; 131; 66; 222;
  135; 251; 8; 128; 210; 1; 128; 161; 17; 128; 64; 252; 129; 66; 212; 128; 254; 128; 167; 129; 173; 128; 181; 128;
  136; 3; 3; 3; 128; 139; 128; 136; 0; 38; 128; 144; 128; 136; 3; 3; 3; 128; 139; 128; 65; 65; 128; 225; 129; 70; 82;
  129; 212; 132; 69; 27; 16; 138; 128; 145; 128; 155; 140; 128; 161; 164; 64; 213; 131; 64; 181; 0; 0; 0; 128; 153;
  0; 0; 0; 0; 0; 0; 128; 183; 5; 0; 19; 5; 17; 2; 12; 17; 0; 0; 12; 21; 5; 8; 143; 0; 32; 139; 18; 42; 8; 11; 0; 7;
  130; 140; 6; 146; 129; 154; 128; 140; 138; 128; 214; 24; 16; 138; 1; 12; 10; 0; 16; 17; 2; 6; 5; 28; 133; 143; 143;
  143; 136; 128; 64; 161; 8; 129; 64; 247; 129; 65; 52; 213; 153; 154; 69; 32; 128; 230; 130; 228; 128; 65; 158; 129;
  64; 240; 128; 65; 46; 128; 210; 128; 139; 64; 213; 169; 128; 180; 0; 130; 223; 9; 128; 222; 128; 176; 221; 130;
  141; 223; 158; 128; 167; 135; 174; 128; 65; 127; 96; 114; 155; 129; 64; 209; 128; 255; 26; 129; 67; 97; 131; 136;
  128; 96; 77; 149; 65; 13; 8; 0; 129; 137; 0; 0; 9; 130; 195; 129; 233; 194; 0; 151; 4; 0; 1; 1; 128; 235; 160; 65;
  106; 145; 191; 129; 181; 167; 140; 130; 153; 149; 148; 129; 139; 128; 146; 3; 26; 0; 128; 64; 134; 8; 128; 159;
  153; 64; 131; 21; 13; 13; 10; 22; 6; 128; 136; 71; 135; 32; 169; 128; 136; 96; 180; 228; 131; 80; 49; 163; 68; 99;
  134; 141; 135; 191; 133; 66; 62; 212; 128; 198; 1; 8; 9; 11; 128; 139; 0; 6; 128; 192; 3; 15; 6; 128; 155; 3; 4; 0;
  22; 128; 65; 83; 129; 65; 35; 129; 177; 72; 47; 189; 77; 145; 24; 154; 1; 0; 8; 128; 137; 3; 0; 0; 40; 24; 0; 0; 2;
  1; 0; 8; 0; 0; 0; 0; 1; 0; 11; 6; 3; 3; 0; 128; 137; 128; 144; 34; 4; 128; 144; 66; 67; 138; 132; 158; 128; 159;
  153; 130; 162; 128; 238; 130; 140; 171; 131; 136; 49; 73; 157; 137; 96; 252; 5; 66; 29; 107; 5; 225; 79; 255
].

Definition unicode_prop_Basic_Emoji1_table : list Z := [
  96; 35; 25; 129; 64; 204; 26; 1; 128; 66; 8; 129; 148; 129; 177; 139; 170; 128; 146; 128; 140; 7; 129; 144; 12; 15;
  4; 128; 148; 6; 8; 3; 1; 6; 3; 129; 155; 128; 162; 0; 3; 16; 128; 188; 130; 151; 128; 141; 128; 67; 90; 129; 178;
  3; 128; 97; 196; 173; 128; 64; 201; 128; 64; 189; 1; 137; 229; 128; 151; 128; 147; 1; 32; 130; 148; 129; 64; 173;
  160; 139; 136; 128; 197; 128; 149; 139; 170; 28; 139; 144; 16; 130; 198; 0; 128; 64; 186; 129; 190; 140; 24; 151;
  145; 128; 153; 129; 140; 128; 213; 212; 175; 197; 40; 18; 11; 19; 138; 14; 136; 64; 226; 139; 24; 65; 26; 174; 128;
  137; 128; 64; 184; 239; 140; 130; 138; 130; 184; 0; 131; 143; 129; 139; 131; 137
].

Definition unicode_prop_Basic_Emoji2_table : list Z := [
  64; 168; 3; 128; 95; 140; 128; 139; 128; 64; 215; 128; 149; 128; 217; 133; 142; 129; 65; 124; 128; 64; 165; 128;
  156; 16; 12; 130; 64; 198; 128; 64; 230; 129; 137; 128; 136; 128; 185; 10; 132; 136; 1; 5; 3; 1; 0; 9; 2; 2; 15;
  20; 0; 128; 155; 9; 0; 8; 128; 145; 1; 128; 146; 0; 24; 0; 10; 5; 7; 129; 149; 5; 0; 0; 128; 148; 5; 9; 1; 23; 4;
  9; 8; 1; 0; 0; 5; 2; 128; 144; 129; 142; 1; 128; 154; 129; 187; 128; 65; 145; 129; 65; 206; 130; 69; 39; 128; 139;
  128; 66; 88; 0; 128; 97; 190; 213; 129; 139; 129; 64; 129; 128; 179; 128; 64; 232; 1; 136; 136; 128; 197; 128; 151;
  8; 17; 129; 170; 28; 139; 146; 0; 0; 128; 198; 0; 128; 64; 186; 128; 202; 129; 163; 9; 134; 140; 1; 25; 128; 147;
  1; 7; 129; 136; 4; 130; 139; 23; 17; 0; 3; 5; 2; 5; 128; 64; 207; 0; 130; 143; 42; 5; 1; 128
].

Definition unicode_prop_RGI_Emoji_Modifier_Sequence_table : list Z := [
  96; 38; 28; 128; 64; 218; 128; 143; 131; 97; 204; 118; 128; 187; 17; 1; 130; 244; 9; 138; 148; 24; 141; 16; 26; 2;
  48; 0; 151; 128; 64; 200; 11; 128; 148; 3; 129; 64; 173; 18; 132; 210; 128; 143; 130; 136; 128; 138; 128; 66; 62;
  1; 7; 61; 128; 136; 137; 10; 183; 128; 188; 8; 8; 128; 144; 16; 140; 64; 228; 130; 169; 136
].

Definition unicode_prop_RGI_Emoji_Flag_Sequence_table : list Z := [
  12; 0; 9; 0; 4; 1; 2; 6; 3; 3; 1; 2; 1; 3; 7; 13; 24; 0; 9; 0; 0; 137; 8; 0; 0; 129; 136; 131; 140; 16; 0; 1; 7; 8;
  41; 16; 40; 0; 128; 138; 0; 10; 0; 14; 21; 24; 131; 137; 6; 0; 129; 141; 0; 18; 8; 0; 3; 0; 36; 0; 5; 33; 0; 0; 41;
  144; 0; 2; 0; 8; 9; 0; 8; 24; 139; 128; 140; 2; 25; 26; 17; 0; 0; 128; 156; 128; 136; 2; 0; 0; 2; 32; 136; 10; 0;
  3; 1; 2; 5; 8; 0; 1; 9; 32; 33; 24; 34; 0; 0; 0; 0; 24; 40; 137; 128; 139; 128; 144; 128; 146; 128; 141; 5; 128;
  138; 128; 136; 128
].

Definition unicode_prop_Emoji_Keycap_Sequence_table : list Z := [
  162; 5; 4; 137
].

Definition unicode_prop_ASCII_Hex_Digit_table : list Z := [
  175; 137; 53; 153; 133
].

Definition unicode_prop_Bidi_Control_table : list Z := [
  70; 27; 128; 89; 240; 129; 153; 132; 182; 131
].

Definition unicode_prop_Dash_table : list Z := [
  172; 128; 69; 91; 128; 178; 128; 78; 64; 128; 68; 4; 128; 72; 8; 133; 188; 128; 166; 128; 142; 128; 65; 133; 128;
  76; 3; 1; 128; 158; 11; 128; 155; 128; 65; 189; 128; 146; 128; 238; 128; 96; 205; 143; 129; 164; 128; 137; 128; 64;
  168; 128; 78; 95; 128; 65; 61; 128
].

Definition unicode_prop_Deprecated_table : list Z := [
  65; 72; 128; 69; 40; 128; 73; 2; 0; 128; 72; 40; 129; 72; 196; 133; 66; 184; 129; 109; 220; 213; 128
].

Definition unicode_prop_Diacritic_table : list Z := [
  221; 0; 128; 198; 5; 3; 1; 129; 65; 246; 64; 158; 7; 37; 144; 11; 128; 136; 129; 64; 252; 132; 64; 208; 128; 182;
  172; 0; 1; 1; 0; 64; 130; 59; 129; 64; 133; 11; 10; 130; 194; 154; 218; 138; 185; 138; 161; 129; 253; 135; 168;
  137; 143; 155; 188; 128; 143; 2; 131; 155; 128; 201; 128; 143; 128; 237; 128; 143; 128; 237; 128; 143; 128; 174;
  130; 187; 128; 143; 6; 128; 246; 128; 237; 128; 143; 128; 237; 128; 143; 128; 236; 129; 143; 128; 251; 128; 238;
  128; 139; 40; 128; 234; 128; 140; 132; 202; 129; 154; 0; 0; 3; 129; 193; 16; 129; 189; 128; 239; 0; 129; 167; 11;
  132; 152; 48; 128; 137; 129; 66; 192; 130; 67; 179; 129; 157; 128; 64; 147; 138; 136; 128; 65; 90; 130; 65; 35;
  128; 147; 57; 128; 175; 142; 129; 138; 130; 142; 129; 139; 199; 128; 142; 128; 165; 136; 181; 129; 185; 128; 138;
  129; 193; 129; 191; 133; 209; 152; 24; 40; 10; 177; 190; 175; 163; 132; 139; 164; 138; 65; 188; 0; 130; 138; 130;
  140; 130; 140; 130; 140; 129; 76; 239; 130; 65; 60; 128; 65; 249; 133; 232; 131; 222; 128; 96; 117; 113; 128; 139;
  8; 128; 155; 129; 209; 129; 141; 161; 229; 130; 229; 5; 129; 139; 128; 164; 128; 64; 150; 128; 154; 145; 184; 131;
  163; 128; 222; 128; 139; 128; 163; 128; 64; 148; 130; 192; 131; 178; 128; 227; 132; 136; 130; 255; 129; 96; 79; 47;
  128; 67; 0; 143; 65; 13; 0; 128; 174; 128; 172; 129; 194; 128; 66; 251; 128; 68; 158; 40; 169; 128; 136; 66; 124;
  19; 128; 64; 164; 129; 66; 58; 133; 165; 128; 153; 132; 65; 139; 1; 130; 197; 138; 176; 131; 64; 191; 128; 168;
  128; 199; 129; 247; 129; 189; 128; 203; 128; 136; 130; 231; 129; 64; 177; 129; 207; 129; 143; 128; 151; 50; 132;
  216; 16; 129; 140; 129; 222; 2; 128; 250; 129; 64; 250; 129; 253; 128; 245; 129; 242; 128; 65; 12; 129; 65; 1; 11;
  128; 64; 155; 128; 210; 128; 145; 128; 208; 128; 65; 164; 128; 65; 1; 0; 129; 208; 128; 192; 128; 65; 102; 129;
  150; 128; 84; 235; 142; 96; 44; 216; 128; 73; 191; 132; 186; 134; 66; 51; 129; 66; 33; 144; 207; 129; 96; 63; 253;
  24; 48; 129; 95; 0; 173; 129; 150; 66; 31; 18; 47; 57; 134; 157; 131; 78; 129; 189; 64; 193; 134; 65; 118; 128;
  188; 131; 66; 253; 129; 66; 223; 134; 236; 16; 130
].

Definition unicode_prop_Extender_table : list Z := [
  64; 182; 128; 66; 23; 129; 67; 109; 128; 65; 184; 128; 66; 117; 128; 64; 136; 128; 216; 128; 66; 239; 128; 254;
  128; 73; 66; 128; 183; 128; 66; 98; 128; 65; 141; 128; 195; 128; 83; 136; 128; 170; 132; 230; 129; 220; 130; 96;
  111; 21; 128; 69; 245; 128; 67; 193; 128; 149; 128; 64; 136; 128; 235; 128; 148; 129; 96; 84; 122; 128; 72; 15;
  129; 69; 202; 128; 154; 3; 128; 68; 198; 128; 65; 36; 128; 243; 129; 65; 241; 130; 68; 206; 128; 67; 63; 128; 96;
  77; 103; 129; 68; 155; 8; 128; 141; 129; 96; 113; 71; 129; 68; 176; 128; 67; 83; 130
].

Definition unicode_prop_Hex_Digit_table : list Z := [
  175; 137; 53; 153; 133; 96; 254; 168; 137; 53; 153; 133
].

Definition unicode_prop_IDS_Unary_Operator_table : list Z := [
  96; 47; 253; 129
].

Definition unicode_prop_IDS_Binary_Operator_table : list Z := [
  96; 47; 239; 9; 137; 65; 240; 128
].

Definition unicode_prop_IDS_Trinary_Operator_table : list Z := [
  96; 47; 241; 129
].

Definition unicode_prop_Ideographic_table : list Z := [
  96; 48; 5; 129; 152; 136; 141; 130; 67; 196; 89; 191; 191; 96; 81; 255; 96; 88; 255; 65; 109; 129; 233; 96; 117; 9;
  128; 140; 132; 136; 92; 213; 168; 159; 224; 242; 96; 35; 124; 65; 139; 96; 77; 3; 96; 166; 223; 159; 81; 29; 129;
  86; 141; 129; 93; 48; 142; 66; 109; 73; 161; 66; 29; 69; 225; 83; 74; 132; 96; 33; 41
].

Definition unicode_prop_Join_Control_table : list Z := [
  96; 32; 11; 129
].

Definition unicode_prop_Logical_Order_Exception_table : list Z := [
  78; 63; 132; 250; 132; 74; 239; 17; 128; 96; 144; 249; 9; 0; 129
].

Definition unicode_prop_Modifier_Combining_Mark_table : list Z := [
  70; 83; 9; 128; 64; 130; 5; 2; 129; 65; 224; 8; 18; 128; 158; 128
].

Definition unicode_prop_Noncharacter_Code_Point_table : list Z := [
  96; 253; 207; 159; 66; 13; 129; 96; 255; 253; 129; 96; 255; 253; 129; 96; 255; 253; 129; 96; 255; 253; 129; 96;
  255; 253; 129; 96; 255; 253; 129; 96; 255; 253; 129; 96; 255; 253; 129; 96; 255; 253; 129; 96; 255; 253; 129; 96;
  255; 253; 129; 96; 255; 253; 129; 96; 255; 253; 129; 96; 255; 253; 129; 96; 255; 253; 129; 96; 255; 253; 129
].

Definition unicode_prop_Pattern_Syntax_table : list Z := [
  160; 142; 137; 134; 153; 24; 128; 153; 131; 161; 48; 0; 8; 0; 11; 3; 2; 128; 150; 128; 158; 128; 95; 23; 151; 135;
  142; 129; 146; 128; 137; 65; 48; 66; 207; 64; 159; 66; 117; 157; 68; 107; 65; 255; 255; 65; 128; 19; 152; 142; 128;
  96; 205; 12; 129; 65; 4; 129
].

Definition unicode_prop_Pattern_White_Space_table : list Z := [
  136; 132; 145; 128; 227; 128; 95; 135; 129; 151; 129
].

Definition unicode_prop_Quotation_Mark_table : list Z := [
  161; 3; 128; 64; 130; 128; 142; 128; 95; 91; 135; 152; 129; 78; 6; 128; 65; 200; 131; 140; 130; 96; 206; 32; 131;
  64; 188; 3; 128; 217; 129
].

Definition unicode_prop_Radical_table : list Z := [
  96; 46; 127; 153; 128; 216; 139; 64; 213
].

Definition unicode_prop_Regional_Indicator_table : list Z := [
  97; 241; 229; 153
].

Definition unicode_prop_Sentence_Terminal_table : list Z := [
  160; 128; 139; 128; 143; 128; 69; 72; 128; 64; 146; 130; 64; 179; 128; 170; 130; 64; 245; 128; 188; 0; 2; 129; 65;
  36; 129; 70; 227; 129; 67; 21; 3; 129; 67; 4; 128; 64; 197; 129; 64; 156; 129; 172; 4; 128; 65; 57; 129; 65; 97;
  131; 64; 161; 129; 137; 9; 129; 156; 130; 64; 186; 129; 192; 129; 67; 163; 128; 150; 129; 136; 130; 76; 174; 130;
  65; 49; 128; 140; 128; 149; 129; 65; 172; 128; 96; 116; 251; 128; 65; 13; 129; 64; 226; 2; 128; 65; 125; 129; 213;
  129; 222; 128; 64; 151; 129; 64; 146; 130; 64; 143; 129; 64; 248; 128; 96; 82; 37; 1; 129; 186; 2; 129; 64; 168;
  128; 139; 128; 143; 128; 192; 128; 74; 243; 129; 68; 252; 132; 171; 131; 64; 188; 129; 244; 131; 254; 130; 64; 128;
  13; 128; 143; 129; 215; 8; 129; 235; 128; 65; 41; 129; 244; 129; 65; 116; 12; 142; 232; 129; 64; 248; 130; 66; 4;
  0; 128; 64; 250; 129; 214; 129; 65; 163; 129; 66; 179; 129; 201; 129; 96; 75; 40; 129; 64; 132; 128; 192; 129; 138;
  128; 66; 40; 129; 65; 39; 128; 96; 78; 5; 128; 93; 231; 128
].

Definition unicode_prop_Soft_Dotted_table : list Z := [
  232; 129; 64; 195; 128; 65; 24; 128; 157; 128; 179; 128; 147; 128; 65; 63; 128; 225; 0; 128; 89; 8; 128; 178; 128;
  140; 2; 128; 64; 131; 128; 64; 156; 128; 65; 164; 128; 64; 213; 129; 75; 49; 128; 97; 167; 164; 129; 177; 129; 177;
  129; 177; 129; 177; 129; 177; 129; 177; 129; 177; 129; 177; 129; 177; 129; 177; 129; 177; 129; 177; 129; 72; 133;
  128; 65; 48; 129; 153; 128
].

Definition unicode_prop_Terminal_Punctuation_table : list Z := [
  160; 128; 137; 0; 128; 138; 10; 128; 67; 61; 7; 128; 66; 0; 128; 184; 128; 199; 128; 141; 0; 130; 64; 179; 128;
  170; 138; 0; 64; 234; 129; 181; 40; 135; 158; 128; 65; 4; 129; 68; 243; 129; 64; 171; 3; 133; 65; 54; 129; 67; 20;
  135; 67; 4; 128; 251; 130; 198; 129; 64; 156; 18; 128; 166; 25; 129; 65; 57; 129; 65; 97; 131; 64; 161; 129; 137;
  8; 130; 156; 130; 64; 186; 132; 189; 129; 67; 163; 128; 150; 129; 136; 130; 76; 174; 130; 65; 49; 128; 140; 3; 128;
  137; 0; 10; 129; 65; 171; 129; 96; 116; 250; 129; 65; 12; 130; 64; 226; 132; 65; 125; 129; 213; 129; 222; 128; 64;
  150; 130; 64; 146; 130; 254; 128; 143; 129; 64; 248; 128; 96; 82; 37; 1; 129; 184; 16; 131; 64; 168; 128; 137; 0;
  128; 138; 10; 128; 192; 1; 128; 68; 57; 128; 175; 128; 68; 133; 128; 64; 198; 128; 65; 53; 129; 64; 151; 133; 195;
  133; 216; 131; 67; 183; 132; 171; 131; 64; 188; 134; 239; 131; 254; 130; 64; 128; 13; 128; 143; 129; 215; 132; 235;
  128; 65; 41; 129; 244; 130; 139; 129; 65; 101; 26; 142; 232; 129; 64; 248; 130; 66; 4; 0; 128; 64; 250; 129; 214;
  11; 129; 65; 157; 130; 172; 128; 66; 132; 129; 201; 129; 69; 42; 132; 96; 69; 248; 129; 64; 132; 128; 192; 130;
  137; 128; 66; 40; 129; 65; 38; 129; 96; 78; 5; 128; 93; 230; 131
].

Definition unicode_prop_Unified_Ideograph_table : list Z := [
  96; 51; 255; 89; 191; 191; 96; 81; 255; 96; 90; 13; 8; 0; 129; 137; 0; 0; 9; 130; 97; 5; 213; 96; 166; 223; 159;
  81; 29; 129; 86; 141; 129; 93; 48; 142; 66; 109; 81; 161; 83; 74; 132; 96; 33; 41
].

Definition unicode_prop_Variation_Selector_table : list Z := [
  88; 10; 16; 128; 96; 229; 239; 143; 109; 2; 239; 64; 239
].

Definition unicode_prop_White_Space_table : list Z := [
  136; 132; 145; 128; 227; 128; 153; 128; 85; 222; 128; 73; 126; 138; 156; 12; 128; 174; 128; 79; 159; 128
].

Definition unicode_prop_Bidi_Mirrored_table : list Z := [
  167; 129; 145; 0; 128; 155; 0; 128; 156; 0; 128; 172; 128; 142; 128; 78; 125; 131; 71; 92; 129; 73; 155; 129; 137;
  129; 181; 129; 141; 129; 64; 176; 128; 64; 191; 26; 42; 2; 10; 24; 24; 0; 3; 136; 32; 128; 145; 35; 136; 8; 0; 56;
  159; 11; 32; 136; 9; 146; 33; 136; 33; 11; 151; 129; 143; 59; 147; 14; 129; 68; 60; 141; 201; 1; 24; 8; 20; 28; 18;
  141; 65; 146; 149; 13; 128; 141; 56; 53; 16; 28; 1; 12; 24; 2; 9; 137; 41; 129; 139; 146; 3; 8; 0; 8; 3; 33; 42;
  151; 129; 138; 11; 24; 9; 11; 170; 15; 128; 167; 32; 0; 20; 34; 24; 20; 0; 64; 255; 128; 66; 2; 26; 8; 129; 141; 9;
  137; 170; 135; 65; 170; 137; 15; 96; 206; 60; 44; 129; 64; 161; 129; 145; 0; 128; 155; 0; 128; 156; 0; 0; 8; 129;
  96; 215; 118; 128; 184; 128; 184; 128; 184; 128; 184; 128
].

Definition unicode_prop_Emoji_table : list Z := [
  162; 5; 4; 137; 238; 3; 128; 95; 140; 128; 139; 128; 64; 215; 128; 149; 128; 217; 133; 142; 129; 65; 110; 129; 139;
  128; 64; 165; 128; 152; 138; 26; 64; 198; 128; 64; 230; 129; 137; 128; 136; 128; 185; 24; 132; 136; 1; 1; 9; 3; 1;
  0; 9; 2; 2; 15; 20; 0; 4; 139; 138; 9; 0; 8; 128; 145; 1; 129; 145; 40; 0; 10; 12; 1; 11; 129; 138; 12; 9; 4; 8; 0;
  129; 147; 12; 40; 25; 3; 1; 1; 40; 1; 0; 0; 5; 2; 5; 128; 137; 129; 142; 1; 3; 0; 3; 16; 128; 138; 129; 175; 130;
  136; 128; 141; 128; 141; 128; 65; 115; 129; 65; 206; 130; 146; 129; 178; 3; 128; 68; 217; 128; 139; 128; 66; 88; 0;
  128; 97; 189; 105; 128; 64; 201; 128; 64; 159; 129; 139; 129; 141; 1; 137; 202; 153; 1; 150; 128; 147; 1; 136; 148;
  129; 64; 173; 161; 129; 239; 9; 2; 129; 210; 10; 128; 65; 6; 128; 190; 138; 40; 151; 49; 15; 139; 1; 25; 3; 129;
  140; 9; 7; 129; 136; 4; 130; 139; 23; 17; 0; 3; 5; 2; 5; 213; 175; 197; 39; 11; 130; 137; 16; 1; 16; 129; 137; 64;
  226; 139; 24; 65; 26; 174; 128; 137; 128; 64; 184; 239; 140; 130; 138; 130; 184; 0; 131; 143; 129; 139; 131; 137
].

Definition unicode_prop_Emoji_Component_table : list Z := [
  162; 5; 4; 137; 95; 210; 128; 64; 212; 128; 96; 221; 42; 128; 96; 243; 213; 153; 65; 250; 132; 69; 175; 131; 108;
  6; 107; 223
].

Definition unicode_prop_Emoji_Modifier_table : list Z := [
  97; 243; 250; 132
].

Definition unicode_prop_Emoji_Modifier_Base_table : list Z := [
  96; 38; 28; 128; 64; 218; 128; 143; 131; 97; 204; 118; 128; 187; 17; 1; 130; 244; 9; 138; 148; 146; 16; 26; 2; 48;
  0; 151; 128; 64; 200; 11; 128; 148; 3; 129; 64; 173; 18; 132; 210; 128; 143; 130; 136; 128; 138; 128; 66; 62; 1; 7;
  61; 128; 136; 137; 10; 183; 128; 188; 8; 8; 128; 144; 16; 140; 64; 228; 130; 169; 136
].

Definition unicode_prop_Emoji_Presentation_table : list Z := [
  96; 35; 25; 129; 64; 204; 26; 1; 128; 66; 8; 129; 148; 129; 177; 139; 170; 128; 146; 128; 140; 7; 129; 144; 12; 15;
  4; 128; 148; 6; 8; 3; 1; 6; 3; 129; 155; 128; 162; 0; 3; 16; 128; 188; 130; 151; 128; 141; 128; 67; 90; 129; 178;
  3; 128; 97; 196; 173; 128; 64; 201; 128; 64; 189; 1; 137; 202; 153; 0; 151; 128; 147; 1; 32; 130; 148; 129; 64;
  173; 160; 139; 136; 128; 197; 128; 149; 139; 170; 28; 139; 144; 16; 130; 198; 0; 128; 64; 186; 129; 190; 140; 24;
  151; 145; 128; 153; 129; 140; 128; 213; 212; 175; 197; 40; 18; 11; 19; 138; 14; 136; 64; 226; 139; 24; 65; 26; 174;
  128; 137; 128; 64; 184; 239; 140; 130; 138; 130; 184; 0; 131; 143; 129; 139; 131; 137
].

Definition unicode_prop_Extended_Pictographic_table : list Z := [
  64; 168; 3; 128; 95; 140; 128; 139; 128; 64; 215; 128; 149; 128; 217; 133; 142; 129; 65; 110; 129; 139; 128; 64;
  165; 128; 152; 138; 26; 64; 198; 128; 64; 230; 129; 137; 128; 136; 128; 185; 24; 132; 136; 1; 1; 9; 3; 1; 0; 9; 2;
  2; 15; 20; 0; 4; 139; 138; 9; 0; 8; 128; 145; 1; 129; 145; 40; 0; 10; 12; 1; 11; 129; 138; 12; 9; 4; 8; 0; 129;
  147; 12; 40; 25; 3; 1; 1; 40; 1; 0; 0; 5; 2; 5; 128; 137; 129; 142; 1; 3; 0; 3; 16; 128; 138; 129; 175; 130; 136;
  128; 141; 128; 141; 128; 65; 115; 129; 65; 206; 130; 146; 129; 178; 3; 128; 68; 217; 128; 139; 128; 66; 88; 0; 128;
  97; 189; 105; 128; 166; 131; 227; 139; 142; 129; 142; 128; 141; 129; 164; 137; 239; 129; 139; 129; 141; 1; 137;
  146; 183; 154; 142; 137; 128; 147; 1; 136; 3; 136; 150; 133; 64; 187; 129; 239; 9; 2; 129; 210; 10; 3; 132; 64;
  253; 128; 190; 138; 40; 151; 49; 15; 139; 1; 25; 3; 129; 140; 9; 7; 129; 136; 4; 130; 139; 23; 17; 0; 3; 5; 2; 5;
  213; 175; 197; 39; 129; 144; 16; 5; 129; 140; 64; 217; 165; 139; 131; 183; 135; 137; 133; 167; 135; 157; 129; 139;
  25; 141; 136; 166; 139; 174; 128; 137; 128; 64; 184; 215; 135; 141; 64; 145; 64; 255; 67; 253
].

Definition unicode_prop_Default_Ignorable_Code_Point_table : list Z := [
  64; 172; 128; 66; 160; 128; 66; 203; 128; 75; 65; 129; 70; 82; 129; 212; 132; 71; 250; 132; 153; 132; 176; 143; 80;
  243; 128; 96; 204; 154; 143; 64; 238; 128; 64; 159; 128; 206; 136; 96; 188; 166; 131; 84; 206; 135; 108; 46; 132;
  79; 255
].

Definition unicode_rgi_emoji_tag_sequence : list Z := [
  103; 98; 101; 110; 103; 0; 103; 98; 115; 99; 116; 0; 103; 98; 119; 108; 115; 0
].

Definition unicode_rgi_emoji_zwj_sequence : list Z := [
  2; 184; 25; 64; 134; 2; 209; 57; 176; 25; 2; 38; 57; 66; 134; 2; 180; 54; 66; 134; 3; 104; 84; 100; 135; 104; 84;
  2; 220; 57; 66; 134; 2; 209; 57; 115; 19; 2; 57; 57; 64; 134; 2; 105; 52; 189; 25; 3; 182; 54; 64; 134; 161; 135;
  3; 104; 116; 29; 25; 104; 116; 3; 104; 52; 189; 25; 161; 135; 2; 241; 122; 242; 122; 2; 202; 51; 66; 134; 2; 105;
  52; 176; 25; 4; 104; 20; 104; 20; 103; 20; 102; 20; 2; 249; 38; 66; 134; 3; 105; 116; 29; 25; 105; 116; 3; 209; 25;
  188; 25; 161; 135; 2; 60; 25; 64; 134; 2; 104; 52; 235; 19; 2; 195; 51; 161; 135; 2; 112; 52; 64; 134; 2; 212; 57;
  66; 134; 2; 207; 57; 66; 134; 3; 209; 121; 239; 26; 209; 121; 3; 104; 116; 239; 26; 104; 116; 3; 105; 116; 239; 26;
  105; 116; 2; 71; 54; 64; 134; 3; 104; 116; 48; 20; 104; 116; 2; 57; 57; 66; 134; 4; 209; 121; 100; 135; 139; 20;
  209; 121; 3; 105; 116; 48; 20; 105; 116; 2; 209; 57; 149; 134; 2; 104; 52; 147; 19; 2; 105; 52; 237; 19; 2; 218;
  57; 64; 134; 3; 105; 52; 175; 25; 161; 135; 2; 209; 57; 147; 19; 3; 206; 57; 66; 134; 161; 135; 3; 209; 121; 100;
  135; 209; 121; 3; 195; 51; 66; 134; 161; 135; 3; 105; 116; 29; 25; 104; 116; 2; 105; 52; 146; 22; 2; 209; 57; 150;
  134; 4; 105; 20; 100; 135; 139; 20; 104; 20; 2; 71; 54; 66; 134; 2; 104; 52; 124; 19; 2; 134; 52; 66; 134; 2; 209;
  57; 124; 19; 2; 105; 20; 164; 19; 2; 218; 57; 66; 134; 2; 55; 57; 64; 134; 2; 209; 57; 8; 135; 4; 104; 84; 100;
  135; 139; 20; 104; 84; 2; 77; 54; 64; 134; 2; 104; 52; 44; 21; 2; 105; 52; 175; 25; 2; 110; 52; 64; 134; 2; 205;
  57; 66; 134; 2; 209; 57; 44; 21; 2; 111; 20; 64; 134; 3; 209; 57; 188; 25; 161; 135; 2; 104; 52; 168; 19; 2; 105;
  52; 115; 19; 4; 105; 84; 100; 135; 139; 20; 104; 84; 2; 113; 52; 66; 134; 2; 69; 54; 64; 134; 2; 209; 57; 168; 19;
  3; 105; 84; 100; 135; 104; 84; 3; 105; 84; 100; 135; 105; 84; 3; 206; 57; 64; 134; 161; 135; 2; 216; 57; 64; 134;
  3; 195; 51; 64; 134; 161; 135; 2; 77; 54; 66; 134; 2; 209; 25; 146; 22; 2; 209; 57; 235; 19; 2; 104; 52; 188; 20;
  2; 209; 57; 188; 20; 2; 61; 57; 64; 134; 2; 184; 57; 66; 134; 2; 163; 54; 64; 134; 2; 117; 53; 64; 134; 2; 216; 57;
  66; 134; 2; 105; 52; 147; 19; 2; 53; 57; 64; 134; 2; 75; 54; 64; 134; 2; 61; 57; 66; 134; 2; 56; 57; 66; 134; 2;
  163; 54; 66; 134; 3; 105; 20; 103; 20; 103; 20; 2; 182; 54; 64; 134; 2; 105; 52; 124; 19; 2; 117; 53; 66; 134; 2;
  204; 147; 64; 134; 2; 111; 52; 66; 134; 2; 204; 51; 64; 134; 3; 209; 57; 189; 25; 161; 135; 2; 135; 52; 64; 134; 2;
  130; 52; 64; 134; 2; 105; 20; 62; 19; 2; 214; 57; 64; 134; 2; 104; 20; 189; 25; 2; 75; 54; 66; 134; 2; 70; 54; 66;
  134; 2; 105; 52; 44; 21; 3; 182; 54; 66; 134; 161; 135; 2; 196; 51; 64; 134; 2; 38; 25; 64; 134; 2; 105; 20; 176;
  25; 2; 222; 25; 66; 134; 2; 105; 52; 168; 19; 2; 204; 51; 66; 134; 2; 130; 52; 66; 134; 2; 209; 25; 147; 19; 2;
  129; 20; 66; 134; 3; 209; 121; 48; 20; 209; 121; 2; 104; 52; 187; 20; 2; 105; 52; 149; 134; 2; 209; 57; 187; 20; 2;
  105; 52; 235; 19; 2; 209; 57; 132; 19; 2; 105; 52; 188; 20; 4; 105; 84; 100; 135; 139; 20; 105; 84; 2; 38; 57; 64;
  134; 2; 180; 54; 64; 134; 2; 71; 22; 66; 134; 2; 220; 57; 64; 134; 2; 202; 51; 64; 134; 2; 249; 38; 64; 134; 2;
  105; 52; 8; 135; 3; 105; 20; 105; 20; 102; 20; 3; 209; 89; 29; 25; 209; 89; 2; 212; 57; 64; 134; 2; 207; 57; 64;
  134; 2; 104; 52; 164; 19; 2; 209; 57; 164; 19; 2; 209; 25; 168; 19; 2; 215; 57; 66; 134; 3; 105; 52; 188; 25; 161;
  135; 2; 104; 20; 176; 25; 2; 60; 57; 66; 134; 2; 104; 20; 115; 19; 4; 105; 20; 105; 20; 102; 20; 102; 20; 3; 104;
  52; 175; 25; 161; 135; 2; 104; 52; 128; 22; 2; 115; 52; 66; 134; 2; 209; 57; 128; 22; 2; 104; 52; 176; 25; 2; 134;
  52; 64; 134; 2; 56; 25; 66; 134; 2; 105; 52; 187; 20; 2; 181; 54; 66; 134; 2; 205; 57; 64; 134; 2; 104; 52; 39; 21;
  2; 104; 52; 149; 134; 3; 104; 20; 104; 20; 102; 20; 2; 113; 52; 64; 134; 2; 209; 57; 39; 21; 2; 46; 22; 168; 20; 2;
  195; 51; 66; 134; 2; 105; 20; 102; 20; 2; 104; 52; 150; 134; 2; 209; 57; 112; 26; 3; 105; 20; 100; 135; 104; 20; 2;
  105; 52; 164; 19; 2; 184; 57; 64; 134; 2; 104; 52; 62; 19; 3; 209; 25; 175; 25; 161; 135; 2; 209; 57; 62; 19; 2;
  104; 52; 189; 25; 2; 209; 25; 187; 20; 2; 209; 25; 149; 134; 2; 219; 57; 66; 134; 2; 56; 57; 64; 134; 2; 105; 52;
  128; 22; 2; 105; 20; 235; 19; 4; 104; 20; 105; 20; 103; 20; 103; 20; 2; 111; 52; 64; 134; 2; 119; 52; 66; 134; 2;
  70; 54; 64; 134; 2; 104; 52; 146; 22; 2; 78; 54; 66; 134; 3; 105; 20; 189; 25; 161; 135; 2; 222; 25; 64; 134; 2;
  105; 52; 39; 21; 3; 195; 19; 64; 134; 161; 135; 2; 129; 20; 64; 134; 3; 209; 57; 175; 25; 161; 135; 2; 104; 52;
  188; 25; 2; 209; 25; 128; 22; 2; 217; 57; 66; 134; 2; 209; 57; 188; 25; 2; 220; 25; 66; 134; 2; 104; 52; 115; 19;
  2; 105; 52; 62; 19; 2; 71; 22; 64; 134; 2; 209; 57; 189; 25; 2; 62; 57; 66; 134; 2; 105; 20; 149; 134; 2; 104; 20;
  150; 134; 3; 105; 52; 189; 25; 161; 135; 2; 215; 57; 64; 134; 2; 69; 22; 66; 134; 2; 104; 52; 237; 19; 3; 104; 52;
  188; 25; 161; 135; 2; 209; 57; 237; 19; 2; 60; 57; 64; 134; 2; 209; 25; 112; 26; 2; 209; 57; 146; 22; 2; 115; 52;
  64; 134; 2; 56; 25; 64; 134; 2; 181; 54; 64; 134; 2; 104; 52; 175; 25; 2; 209; 57; 175; 25; 2; 105; 52; 188; 25; 2;
  182; 22; 66; 134; 2; 38; 20; 37; 21; 2; 195; 51; 64; 134; 2; 221; 57; 66; 134; 2; 203; 147; 66; 134; 2; 203; 51;
  66; 134; 2; 129; 52; 66; 134; 2; 206; 57; 161; 135; 2; 219; 57; 64; 134; 2; 104; 52; 8; 135; 2; 209; 25; 176; 25;
  2; 119; 52; 64; 134; 2; 78; 54; 64; 134; 2; 206; 57; 66; 134; 2; 78; 22; 66; 134; 2; 217; 57; 64; 134; 2; 220; 25;
  64; 134; 2; 62; 57; 64; 134; 2; 185; 57; 66; 134; 2; 218; 25; 66; 134; 2; 66; 22; 148; 129; 2; 69; 22; 64; 134; 2;
  105; 20; 189; 25; 2; 112; 52; 66; 134; 2; 206; 25; 161; 135; 2; 195; 19; 66; 134; 2; 104; 20; 8; 135; 2; 209; 25;
  124; 19; 2; 104; 20; 146; 22; 2; 182; 22; 64; 134; 2; 55; 57; 66; 134; 3; 206; 25; 66; 134; 161; 135; 3; 104; 20;
  103; 20; 103; 20; 2; 221; 57; 64; 134; 2; 207; 25; 66; 134; 2; 209; 25; 44; 21; 2; 75; 19; 233; 23; 2; 104; 20;
  103; 20; 2; 203; 147; 64; 134; 2; 110; 52; 66; 134; 2; 203; 51; 64; 134; 2; 129; 52; 64; 134; 2; 182; 54; 161; 135;
  2; 69; 54; 66; 134; 2; 180; 22; 66; 134; 2; 105; 20; 115; 19; 4; 105; 20; 105; 20; 103; 20; 102; 20; 2; 53; 57; 66;
  134; 2; 104; 20; 147; 19; 2; 182; 54; 66; 134; 3; 104; 20; 105; 20; 102; 20; 2; 206; 57; 64; 134; 2; 78; 22; 64;
  134; 2; 135; 52; 66; 134; 2; 134; 20; 66; 134; 2; 214; 57; 66; 134; 2; 196; 51; 66; 134; 2; 105; 52; 150; 134; 2;
  185; 57; 64; 134; 2; 104; 20; 168; 19; 2; 209; 25; 132; 19; 2; 218; 25; 64; 134; 2; 216; 25; 66; 134; 2; 195; 19;
  64; 134; 2; 185; 25; 66; 134; 2; 61; 25; 66; 134; 2; 207; 25; 64; 134; 4; 104; 20; 104; 20; 103; 20; 103; 20; 3;
  209; 25; 209; 25; 210; 25; 2; 104; 20; 187; 20; 2; 59; 20; 68; 135; 2; 209; 25; 39; 21; 2; 180; 22; 64; 134; 2;
  205; 25; 66; 134; 2; 211; 134; 165; 20; 2; 112; 20; 66; 134; 3; 182; 22; 66; 134; 161; 135; 4; 105; 20; 100; 135;
  139; 20; 105; 20; 2; 54; 22; 43; 147; 2; 104; 20; 128; 22; 2; 134; 20; 64; 134; 2; 8; 20; 27; 11; 2; 209; 25; 188;
  25; 2; 202; 19; 66; 134; 2; 65; 148; 232; 149; 2; 216; 25; 64; 134; 2; 185; 25; 64; 134; 2; 209; 25; 237; 19; 2;
  249; 134; 66; 134; 3; 209; 25; 189; 25; 161; 135; 2; 61; 25; 64; 134; 2; 214; 25; 66; 134; 3; 105; 20; 102; 20;
  102; 20; 2; 209; 25; 175; 25; 3; 105; 20; 105; 20; 103; 20; 2; 205; 25; 64; 134; 2; 112; 20; 64; 134; 3; 104; 20;
  188; 25; 161; 135; 2; 110; 20; 66; 134; 2; 105; 20; 146; 22; 3; 104; 20; 104; 20; 103; 20; 2; 105; 20; 103; 20; 2;
  117; 149; 66; 134; 3; 105; 20; 100; 135; 105; 20; 2; 209; 25; 188; 20; 2; 223; 25; 66; 134; 2; 202; 19; 64; 134; 2;
  130; 20; 66; 134; 2; 105; 20; 147; 19; 2; 104; 20; 124; 19; 2; 249; 134; 64; 134; 2; 214; 25; 64; 134; 2; 104; 20;
  44; 21; 2; 105; 20; 168; 19; 2; 212; 25; 66; 134; 4; 104; 20; 105; 20; 102; 20; 102; 20; 2; 119; 20; 66; 134; 2;
  57; 25; 66; 134; 2; 209; 25; 164; 19; 2; 110; 20; 64; 134; 3; 209; 25; 210; 25; 210; 25; 2; 105; 20; 187; 20; 2;
  209; 25; 150; 134; 2; 117; 149; 64; 134; 4; 104; 20; 100; 135; 139; 20; 104; 20; 2; 209; 25; 62; 19; 2; 223; 25;
  64; 134; 2; 130; 20; 64; 134; 2; 68; 19; 235; 23; 2; 221; 25; 66; 134; 3; 104; 20; 175; 25; 161; 135; 2; 105; 20;
  128; 22; 2; 163; 22; 66; 134; 2; 105; 20; 150; 134; 2; 70; 22; 66; 134; 2; 182; 22; 161; 135; 2; 104; 20; 39; 21;
  2; 38; 20; 27; 11; 2; 212; 25; 64; 134; 2; 119; 20; 64; 134; 2; 57; 25; 64; 134; 2; 55; 25; 66; 134; 3; 105; 20;
  103; 20; 102; 20; 3; 195; 19; 66; 134; 161; 135; 2; 104; 20; 188; 25; 2; 209; 25; 235; 19; 4; 105; 20; 105; 20;
  103; 20; 103; 20; 2; 209; 25; 8; 135; 2; 104; 20; 237; 19; 3; 105; 20; 188; 25; 161; 135; 2; 221; 25; 64; 134; 2;
  195; 19; 161; 135; 3; 104; 20; 102; 20; 102; 20; 3; 104; 20; 105; 20; 103; 20; 2; 163; 22; 64; 134; 2; 219; 25; 66;
  134; 2; 104; 20; 175; 25; 2; 70; 22; 64; 134; 2; 53; 22; 171; 20; 2; 104; 20; 149; 134; 2; 66; 22; 149; 129; 2;
  196; 19; 66; 134; 2; 21; 20; 186; 25; 3; 209; 25; 29; 25; 209; 25; 2; 105; 20; 8; 135; 2; 105; 20; 124; 19; 2; 55;
  25; 64; 134; 2; 115; 20; 66; 134; 2; 105; 20; 44; 21; 2; 181; 22; 66; 134; 2; 53; 25; 66; 134; 4; 104; 20; 105; 20;
  103; 20; 102; 20; 2; 100; 135; 37; 21; 2; 100; 135; 121; 26; 2; 104; 20; 188; 20; 3; 206; 25; 64; 134; 161; 135; 2;
  135; 20; 66; 134; 2; 77; 22; 66; 134; 4; 104; 20; 104; 20; 102; 20; 102; 20; 2; 219; 25; 64; 134; 2; 217; 25; 66;
  134; 2; 196; 19; 64; 134; 2; 209; 25; 189; 25; 2; 104; 20; 164; 19; 2; 62; 25; 66; 134; 2; 243; 147; 167; 134; 3;
  105; 20; 175; 25; 161; 135; 2; 243; 147; 8; 19; 2; 209; 25; 210; 25; 2; 115; 20; 64; 134; 2; 181; 22; 64; 134; 2;
  53; 25; 64; 134; 2; 105; 20; 39; 21; 2; 206; 25; 66; 134; 2; 113; 20; 66; 134; 2; 209; 25; 115; 19; 2; 104; 20; 62;
  19; 2; 244; 19; 32; 134; 2; 135; 20; 64; 134; 3; 182; 22; 64; 134; 161; 135; 2; 77; 22; 64; 134; 2; 105; 20; 188;
  25; 2; 75; 22; 66; 134; 2; 217; 25; 64; 134; 2; 62; 25; 64; 134; 2; 105; 20; 237; 19; 2; 215; 25; 66; 134; 2; 184;
  25; 66; 134; 3; 104; 20; 103; 20; 102; 20; 2; 60; 25; 66; 134; 2; 104; 20; 102; 20; 3; 104; 20; 100; 135; 104; 20;
  2; 105; 20; 175; 25; 2; 206; 25; 64; 134; 2; 113; 20; 64; 134; 2; 104; 20; 235; 19; 3; 104; 20; 189; 25; 161; 135;
  2; 111; 20; 66; 134; 4; 209; 25; 209; 25; 210; 25; 210; 25; 2; 105; 20; 188; 20; 2; 204; 147; 66; 134; 2; 75; 22;
  64; 134; 2; 38; 25; 66; 134; 2; 215; 25; 64; 134
].

(** [unicode_prop_table], with [unicode_prop_len_table] *)
Definition unicode_prop_table : list (list Z) := [
  unicode_prop_Hyphen_table;
  unicode_prop_Other_Math_table;
  unicode_prop_Other_Alphabetic_table;
  unicode_prop_Other_Lowercase_table;
  unicode_prop_Other_Uppercase_table;
  unicode_prop_Other_Grapheme_Extend_table;
  unicode_prop_Other_Default_Ignorable_Code_Point_table;
  unicode_prop_Other_ID_Start_table;
  unicode_prop_Other_ID_Continue_table;
  unicode_prop_Prepended_Concatenation_Mark_table;
  unicode_prop_ID_Continue1_table;
  unicode_prop_XID_Start1_table;
  unicode_prop_XID_Continue1_table;
  unicode_prop_Changes_When_Titlecased1_table;
  unicode_prop_Changes_When_Casefolded1_table;
  unicode_prop_Changes_When_NFKC_Casefolded1_table;
  unicode_prop_Basic_Emoji1_table;
  unicode_prop_Basic_Emoji2_table;
  unicode_prop_RGI_Emoji_Modifier_Sequence_table;
  unicode_prop_RGI_Emoji_Flag_Sequence_table;
  unicode_prop_Emoji_Keycap_Sequence_table;
  unicode_prop_ASCII_Hex_Digit_table;
  unicode_prop_Bidi_Control_table;
  unicode_prop_Dash_table;
  unicode_prop_Deprecated_table;
  unicode_prop_Diacritic_table;
  unicode_prop_Extender_table;
  unicode_prop_Hex_Digit_table;
  unicode_prop_IDS_Unary_Operator_table;
  unicode_prop_IDS_Binary_Operator_table;
  unicode_prop_IDS_Trinary_Operator_table;
  unicode_prop_Ideographic_table;
  unicode_prop_Join_Control_table;
  unicode_prop_Logical_Order_Exception_table;
  unicode_prop_Modifier_Combining_Mark_table;
  unicode_prop_Noncharacter_Code_Point_table;
  unicode_prop_Pattern_Syntax_table;
  unicode_prop_Pattern_White_Space_table;
  unicode_prop_Quotation_Mark_table;
  unicode_prop_Radical_table;
  unicode_prop_Regional_Indicator_table;
  unicode_prop_Sentence_Terminal_table;
  unicode_prop_Soft_Dotted_table;
  unicode_prop_Terminal_Punctuation_table;
  unicode_prop_Unified_Ideograph_table;
  unicode_prop_Variation_Selector_table;
  unicode_prop_White_Space_table;
  unicode_prop_Bidi_Mirrored_table;
  unicode_prop_Emoji_table;
  unicode_prop_Emoji_Component_table;
  unicode_prop_Emoji_Modifier_table;
  unicode_prop_Emoji_Modifier_Base_table;
  unicode_prop_Emoji_Presentation_table;
  unicode_prop_Extended_Pictographic_table;
  unicode_prop_Default_Ignorable_Code_Point_table;
  unicode_prop_ID_Start_table;
  unicode_prop_Case_Ignorable_table
].
