(* ===== verification/UnicodeSets.v ===== *)
(** * Sets and sequences named by properties (libunicode.c)

    [unicode_script], [unicode_general_category], [unicode_prop] and
    [unicode_sequence_prop]: the decoders of the compressed tables and the
    operations that combine them.  [None] is a read outside a table, an array
    or the operation stack, a failed assertion, or a function that does not
    return; -1 and -2 are the return values of the code. *)
From S2P Require Import Prelude Sort CharRange UnicodeTables UnicodeData UnicodeCase UnicodeProp.

(** ** Names *)

(** [name] among the aliases of an entry, [cur] being what was read of the
    present one *)
Fixpoint match_alias (name cur p : list Z) : bool :=
  match p with
  | [] => bool_decide (cur = name)
  | c :: p =>
      if c =? 44 then if bool_decide (cur = name) then true else match_alias name [] p
      else match_alias name (cur ++ [c]) p
  end.
Fixpoint find_name_loop (table : list string) (name : list Z) (pos : Z) : Z :=
  match table with
  | [] => -1
  | e :: table => if match_alias name [] (bytes_of_string e) then pos else find_name_loop table name (pos + 1)
  end.
Definition unicode_find_name (name_table : list string) (name : list Z) : Z := find_name_loop name_table name 0.

(** ** Compressed runs

    One run from the pointer: its length less one, its value and the rest. *)
Definition script_run (p : list Z) : option (Z * option Z * list Z) :=
  match p with
  | [] => None
  | b :: p =>
      let type := Z.shiftr b 7 in
      let n := Z.land b 0x7f in
      '(n, p) ← (if n <? 96 then Some (n, p)
                 else if n <? 112 then
                   match p with
                   | p0 :: p => Some (Z.lor (Z.shiftl (n - 96) 8) p0 + 96, p)
                   | _ => None
                   end
                 else
                   match p with
                   | p0 :: p1 :: p => Some (Z.lor (Z.lor (Z.shiftl (n - 112) 16) (Z.shiftl p0 8)) p1 + (96 + Z.shiftl 1 12), p)
                   | _ => None
                   end);
      if type =? 0 then Some (n, None, p)
      else match p with v :: p => Some (n, Some v, p) | [] => None end
  end.
(** of the script extensions: the values are the next [v_len] bytes *)
Definition script_ext_run (p : list Z) : option (Z * list Z * list Z) :=
  match p with
  | [] => None
  | b :: p =>
      '(n, p) ← (if b <? 128 then Some (b, p)
                 else if b <? 128 + 64 then
                   match p with
                   | p0 :: p => Some (Z.lor (Z.shiftl (b - 128) 8) p0 + 128, p)
                   | _ => None
                   end
                 else
                   match p with
                   | p0 :: p1 :: p => Some (Z.lor (Z.lor (Z.shiftl (b - 128 - 64) 16) (Z.shiftl p0 8)) p1 + (128 + Z.shiftl 1 14), p)
                   | _ => None
                   end);
      match p with
      | v_len :: p =>
          if Z.of_nat (length p) <? v_len then None
          else Some (n, take (Z.to_nat v_len) p, drop (Z.to_nat v_len) p)
      | [] => None
      end
  end.
Definition gc_run (p : list Z) : option (Z * Z * list Z) :=
  match p with
  | [] => None
  | b :: p =>
      let n := Z.shiftr b 5 in
      let v := Z.land b 0x1f in
      if n =? 7 then
        match p with
        | n :: p =>
            if n <? 128 then Some (n + 7, v, p)
            else if n <? 128 + 64 then
              match p with
              | p0 :: p => Some (Z.lor (Z.shiftl (n - 128) 8) p0 + (7 + 128), v, p)
              | _ => None
              end
            else
              match p with
              | p0 :: p1 :: p => Some (Z.lor (Z.lor (Z.shiftl (n - 128 - 64) 16) (Z.shiftl p0 8)) p1 + (7 + 128 + Z.shiftl 1 14), v, p)
              | _ => None
              end
        | [] => None
        end
      else Some (n, v, p)
  end.

(** [while (p < p_end)]: [add] is what a loop does with a run [c, c1) and its
    value.  The bound is the length of the table, each run having at least one
    byte. *)
Section RunLoop.
Context {V : Type} (decode : list Z -> option (Z * V * list Z)) (add : CharRange -> V -> Z -> Z -> CharRange * bool).
Fixpoint run_loop (fuel : nat) (p : list Z) (cr : CharRange) (c : Z) : option (CharRange * bool) :=
  match p, fuel with
  | [], _ => Some (cr, true)
  | _, O => None
  | _, S fuel =>
      '(n, v, p) ← decode p;
      let c1 := u32 (c + n + 1) in
      let '(cr, ok) := add cr v c c1 in
      if negb ok then Some (cr, false) else run_loop fuel p cr c1
  end.
End RunLoop.

Section Sets.
Context (realloc_ok : Z -> bool).
#[local] Abbreviation add := (cr_add_interval realloc_ok).
Definition add_if (b : bool) (cr : CharRange) (c c1 : Z) : CharRange * bool := if b then add cr c c1 else (cr, true).

(** ** Scripts *)
Definition script_hit (script_idx : Z) (v : option Z) : bool :=
  match v with Some v => (v =? script_idx) || (script_idx =? UNICODE_SCRIPT_Unknown) | None => false end.
Definition script_loop (script_idx : Z) (cr1 : CharRange) : option (CharRange * bool) :=
  run_loop script_run (fun cr v => add_if (script_hit script_idx v) cr) (length unicode_script_table) unicode_script_table cr1 0.
Definition script_ext_hit (script_idx : Z) (is_common : bool) (vs : list Z) : bool :=
  if is_common then negb (length vs =? 0)%nat else existsb (Z.eqb script_idx) vs.
Definition script_ext_loop (script_idx : Z) (is_common : bool) (cr2 : CharRange) : option (CharRange * bool) :=
  run_loop script_ext_run (fun cr vs => add_if (script_ext_hit script_idx is_common vs) cr)
    (length unicode_script_ext_table) unicode_script_ext_table cr2 0.

(** What the label [fail] does: it frees the sets and jumps to itself. *)
Definition script_fail {A} : option A := None.
Definition ok_or_fail (r : CharRange * bool) : option CharRange := if r.2 then Some r.1 else script_fail.
Definition unicode_script (cr : CharRange) (script_name : list Z) (is_ext : bool) : option (CharRange * Z) :=
  let script_idx := unicode_find_name unicode_script_name_table script_name in
  if script_idx <? 0 then Some (cr, -2)
  else
    let is_common := (script_idx =? UNICODE_SCRIPT_Common) || (script_idx =? UNICODE_SCRIPT_Inherited) in
    let cr1 := if is_ext then cr_init else cr in
    r ← script_loop script_idx cr1;
    cr1 ← ok_or_fail r;
    cr1 ← (if script_idx =? UNICODE_SCRIPT_Unknown then ok_or_fail (cr_invert realloc_ok cr1) else Some cr1);
    if is_ext then
      r ← script_ext_loop script_idx is_common cr_init;
      cr2 ← ok_or_fail r;
      cr ← (if is_common then
              cr2 ← ok_or_fail (cr_invert realloc_ok cr2);
              ok_or_fail (cr_op realloc_ok cr (cr_points cr1) (cr_points cr2) CR_OP_INTER)
            else ok_or_fail (cr_op realloc_ok cr (cr_points cr1) (cr_points cr2) CR_OP_UNION));
      Some (cr, 0)
    else Some (cr1, 0).

(** ** General categories *)
Definition gc_mask (ids : list Z) : Z := foldr (fun id m => Z.lor (Z.shiftl 1 id) m) 0 ids.
Definition gc_LuLl : Z := gc_mask [UNICODE_GC_Lu; UNICODE_GC_Ll].
Definition gc_Ll : Z := gc_mask [UNICODE_GC_Ll].

(** [for(; c0 < c; c0 += 2)] *)
Fixpoint gc_every_other (fuel : nat) (cr : CharRange) (c0 c : Z) : CharRange * bool :=
  match fuel with
  | O => (cr, true)
  | S fuel =>
      if c0 <? c then
        let '(cr, ok) := add cr c0 (u32 (c0 + 1)) in
        if ok : bool then gc_every_other fuel cr (c0 + 2) c else (cr, false)
      else (cr, true)
  end.
Definition gc_add (cr : CharRange) (mask v c0 c : Z) : CharRange * bool :=
  if v =? 31 then
    let b := Z.land mask gc_LuLl in
    if b =? 0 then (cr, true)
    else if b =? gc_LuLl then add cr c0 c
    else
      let c0 := if Z.land mask gc_Ll =? 0 then c0 else c0 + 1 in
      gc_every_other (Z.to_nat (c - c0)) cr c0 c
  else add_if (Z.testbit mask v) cr c0 c.
Definition unicode_general_category1 (cr : CharRange) (mask : Z) : option (CharRange * bool) :=
  run_loop gc_run (fun cr v => gc_add cr mask v) (length unicode_gc_table) unicode_gc_table cr 0.

Definition unicode_gc_mask_table : list Z := [
  gc_mask [UNICODE_GC_Lu; UNICODE_GC_Ll; UNICODE_GC_Lt];
  gc_mask [UNICODE_GC_Lu; UNICODE_GC_Ll; UNICODE_GC_Lt; UNICODE_GC_Lm; UNICODE_GC_Lo];
  gc_mask [UNICODE_GC_Mn; UNICODE_GC_Mc; UNICODE_GC_Me];
  gc_mask [UNICODE_GC_Nd; UNICODE_GC_Nl; UNICODE_GC_No];
  gc_mask [UNICODE_GC_Sm; UNICODE_GC_Sc; UNICODE_GC_Sk; UNICODE_GC_So];
  gc_mask [UNICODE_GC_Pc; UNICODE_GC_Pd; UNICODE_GC_Ps; UNICODE_GC_Pe; UNICODE_GC_Pi; UNICODE_GC_Pf; UNICODE_GC_Po];
  gc_mask [UNICODE_GC_Zs; UNICODE_GC_Zl; UNICODE_GC_Zp];
  gc_mask [UNICODE_GC_Cc; UNICODE_GC_Cf; UNICODE_GC_Cs; UNICODE_GC_Co; UNICODE_GC_Cn]].
Definition minus_one (r : CharRange * bool) : CharRange * Z := (r.1, if r.2 then 0 else -1).
Definition unicode_general_category (cr : CharRange) (gc_name : list Z) : option (CharRange * Z) :=
  let gc_idx := unicode_find_name unicode_gc_name_table gc_name in
  if gc_idx <? 0 then Some (cr, -2)
  else
    mask ← (if gc_idx <=? UNICODE_GC_Co then Some (u32 (Z.shiftl 1 gc_idx))
            else unicode_gc_mask_table !! Z.to_nat (gc_idx - UNICODE_GC_LC));
    r ← unicode_general_category1 cr mask;
    Some (minus_one r).

(** ** Properties *)

(** The arguments of [unicode_prop_ops] *)
Inductive PropOPEnum :=
| POP_GC (a : Z)
| POP_PROP (a : Z)
| POP_CASE (a : Z)
| POP_UNION
| POP_INTER
| POP_XOR
| POP_INVERT
| POP_END.
Definition POP_STACK_LEN_MAX : nat := 4.
Definition prop1_at (cr : CharRange) (prop_idx : Z) : option (CharRange * bool) :=
  table ← unicode_prop_table !! Z.to_nat prop_idx;
  unicode_prop1 realloc_ok cr table.

(** [stack] has its top first; [Some (cr, -1)] is the label [fail]. *)
Fixpoint prop_ops_loop (cr : CharRange) (ops : list PropOPEnum) (stack : list CharRange) : option (CharRange * Z) :=
  match ops with
  | [] => None
  | op :: ops =>
      let push (r : option (CharRange * bool)) :=
        if negb (length stack <? POP_STACK_LEN_MAX)%nat then None
        else
          r ← r;
          if r.2 : bool then prop_ops_loop cr ops (r.1 :: stack) else Some (cr, -1) in
      let binary op :=
        match stack with
        | cr2 :: cr1 :: stack' =>
            if negb (length stack <? POP_STACK_LEN_MAX)%nat then None
            else
              let r := cr_op realloc_ok cr_init (cr_points cr1) (cr_points cr2) op in
              if r.2 : bool then prop_ops_loop cr ops (r.1 :: stack') else Some (cr, -1)
        | _ => None
        end in
      match op with
      | POP_GC a => push (unicode_general_category1 cr_init a)
      | POP_PROP a => push (prop1_at cr_init a)
      | POP_CASE a => push (Some (unicode_case1 realloc_ok cr_init a))
      | POP_UNION => binary CR_OP_UNION
      | POP_INTER => binary CR_OP_INTER
      | POP_XOR => binary CR_OP_XOR
      | POP_INVERT =>
          match stack with
          | cr1 :: stack' =>
              let r := cr_invert realloc_ok cr1 in
              if r.2 : bool then prop_ops_loop cr ops (r.1 :: stack') else Some (cr, -1)
          | [] => None
          end
      | POP_END =>
          match stack with
          | [cr1] => Some (minus_one (cr_copy realloc_ok cr cr1))
          | _ => None
          end
      end
  end.
Definition unicode_prop_ops (cr : CharRange) (ops : list PropOPEnum) : option (CharRange * Z) := prop_ops_loop cr ops [].
End Sets.

(** The [switch] of [unicode_prop]: the property of a name that is computed *)
Definition derived_prop (prop_idx : Z) : option (list PropOPEnum) :=
  let letters := [UNICODE_GC_Lu; UNICODE_GC_Ll; UNICODE_GC_Lt; UNICODE_GC_Lm; UNICODE_GC_Lo; UNICODE_GC_Nl] in
  if prop_idx =? UNICODE_PROP_Assigned then Some [POP_GC (gc_mask [UNICODE_GC_Cn]); POP_INVERT; POP_END]
  else if prop_idx =? UNICODE_PROP_Math then
    Some [POP_GC (gc_mask [UNICODE_GC_Sm]); POP_PROP UNICODE_PROP_Other_Math; POP_UNION; POP_END]
  else if prop_idx =? UNICODE_PROP_Lowercase then
    Some [POP_GC (gc_mask [UNICODE_GC_Ll]); POP_PROP UNICODE_PROP_Other_Lowercase; POP_UNION; POP_END]
  else if prop_idx =? UNICODE_PROP_Uppercase then
    Some [POP_GC (gc_mask [UNICODE_GC_Lu]); POP_PROP UNICODE_PROP_Other_Uppercase; POP_UNION; POP_END]
  else if prop_idx =? UNICODE_PROP_Cased then
    Some [POP_GC (gc_mask [UNICODE_GC_Lu; UNICODE_GC_Ll; UNICODE_GC_Lt]); POP_PROP UNICODE_PROP_Other_Uppercase; POP_UNION;
          POP_PROP UNICODE_PROP_Other_Lowercase; POP_UNION; POP_END]
  else if prop_idx =? UNICODE_PROP_Alphabetic then
    Some [POP_GC (gc_mask letters); POP_PROP UNICODE_PROP_Other_Uppercase; POP_UNION;
          POP_PROP UNICODE_PROP_Other_Lowercase; POP_UNION; POP_PROP UNICODE_PROP_Other_Alphabetic; POP_UNION; POP_END]
  else if prop_idx =? UNICODE_PROP_Grapheme_Base then
    Some [POP_GC (gc_mask [UNICODE_GC_Cc; UNICODE_GC_Cf; UNICODE_GC_Cs; UNICODE_GC_Co; UNICODE_GC_Cn; UNICODE_GC_Zl;
                           UNICODE_GC_Zp; UNICODE_GC_Me; UNICODE_GC_Mn]);
          POP_PROP UNICODE_PROP_Other_Grapheme_Extend; POP_UNION; POP_INVERT; POP_END]
  else if prop_idx =? UNICODE_PROP_Grapheme_Extend then
    Some [POP_GC (gc_mask [UNICODE_GC_Me; UNICODE_GC_Mn]); POP_PROP UNICODE_PROP_Other_Grapheme_Extend; POP_UNION; POP_END]
  else if prop_idx =? UNICODE_PROP_XID_Start then
    Some [POP_GC (gc_mask letters); POP_PROP UNICODE_PROP_Other_ID_Start; POP_UNION;
          POP_PROP UNICODE_PROP_Pattern_Syntax; POP_PROP UNICODE_PROP_Pattern_White_Space; POP_UNION;
          POP_PROP UNICODE_PROP_XID_Start1; POP_UNION; POP_INVERT; POP_INTER; POP_END]
  else if prop_idx =? UNICODE_PROP_XID_Continue then
    Some [POP_GC (gc_mask (letters ++ [UNICODE_GC_Mn; UNICODE_GC_Mc; UNICODE_GC_Nd; UNICODE_GC_Pc]));
          POP_PROP UNICODE_PROP_Other_ID_Start; POP_UNION; POP_PROP UNICODE_PROP_Other_ID_Continue; POP_UNION;
          POP_PROP UNICODE_PROP_Pattern_Syntax; POP_PROP UNICODE_PROP_Pattern_White_Space; POP_UNION;
          POP_PROP UNICODE_PROP_XID_Continue1; POP_UNION; POP_INVERT; POP_INTER; POP_END]
  else if prop_idx =? UNICODE_PROP_Changes_When_Titlecased then
    Some [POP_CASE CASE_U; POP_PROP UNICODE_PROP_Changes_When_Titlecased1; POP_XOR; POP_END]
  else if prop_idx =? UNICODE_PROP_Changes_When_Casefolded then
    Some [POP_CASE CASE_F; POP_PROP UNICODE_PROP_Changes_When_Casefolded1; POP_XOR; POP_END]
  else if prop_idx =? UNICODE_PROP_Changes_When_NFKC_Casefolded then
    Some [POP_CASE CASE_F; POP_PROP UNICODE_PROP_Changes_When_NFKC_Casefolded1; POP_XOR; POP_END]
  else if prop_idx =? UNICODE_PROP_ID_Continue then
    Some [POP_PROP UNICODE_PROP_ID_Start; POP_PROP UNICODE_PROP_ID_Continue1; POP_XOR; POP_END]
  else None.
(** and the masks of the properties of case conversion *)
Definition case_prop (prop_idx : Z) : option Z :=
  if prop_idx =? UNICODE_PROP_Changes_When_Uppercased then Some CASE_U
  else if prop_idx =? UNICODE_PROP_Changes_When_Lowercased then Some CASE_L
  else if prop_idx =? UNICODE_PROP_Changes_When_Casemapped then Some (Z.lor (Z.lor CASE_U CASE_L) CASE_F)
  else None.
Definition unicode_prop (realloc_ok : Z -> bool) (cr : CharRange) (prop_name : list Z) : option (CharRange * Z) :=
  let prop_idx := unicode_find_name unicode_prop_name_table prop_name in
  if prop_idx <? 0 then Some (cr, -2)
  else
    let prop_idx := prop_idx + UNICODE_PROP_ASCII_Hex_Digit in
    if prop_idx =? UNICODE_PROP_ASCII then Some (minus_one (cr_add_interval realloc_ok cr 0x00 (0x7f + 1)))
    else if prop_idx =? UNICODE_PROP_Any then Some (minus_one (cr_add_interval realloc_ok cr 0x00000 (0x10ffff + 1)))
    else
      match derived_prop prop_idx, case_prop prop_idx with
      | Some ops, _ => unicode_prop_ops realloc_ok cr ops
      | None, Some mask => Some (minus_one (unicode_case1 realloc_ok cr mask))
      | None, None =>
          if Z.of_nat (length unicode_prop_table) <=? prop_idx then Some (cr, -2)
          else r ← prop1_at realloc_ok cr prop_idx; Some (minus_one r)
      end.
