(* ===== verification/UnicodeSequences.v ===== *)
(** * Properties of strings (libunicode.c)

    [unicode_sequence_prop] calls its callback for every sequence of a property;
    here it returns the list of these sequences, with its temporary set and its
    return value. *)
From S2P Require Import Prelude Sort CharRange UnicodeTables UnicodeData UnicodeCase UnicodeProp UnicodeSets.

Definition SEQ_MAX_LEN : nat := 16.
(** [seq[k++] = c] *)
Definition seq_push (seq : list Z) (c : Z) : option (list Z) :=
  if (length seq <? SEQ_MAX_LEN)%nat then Some (seq ++ [c]) else None.

(** [for(i = 0; i < cr->len; i += 2) for(c = points[i]; c < points[i + 1]; c++)] *)
Fixpoint range_chars (n : nat) (c : Z) : list Z :=
  match n with O => [] | S n => c :: range_chars n (c + 1) end.
Fixpoint points_chars (pts : list Z) : option (list Z) :=
  match pts with
  | [] => Some []
  | [_] => None
  | a :: b :: pts => l ← points_chars pts; Some (range_chars (Z.to_nat (b - a)) a ++ l)
  end.

(** ** Sequences joined by ZWJ *)
Record zwj := mk_zwj {
  z_seq : list Z;
  z_mod : Z;
  z_mod_pos : list nat;
  z_hc_pos : option nat;
}.
(** One element, of two bytes; [more] when another one follows *)
Definition zwj_element (z : zwj) (b0 b1 : Z) (more : bool) : option zwj :=
  let code := Z.lor b0 (Z.shiftl b1 8) in
  let pres := Z.shiftr code 15 in
  let mod1 := Z.land (Z.shiftr code 13) 3 in
  let code := Z.land code 0x1fff in
  let c := if code <? 0x1000 then code + 0x2000 else 0x1f000 + (code - 0x1000) in
  let hc_pos := if c =? 0x1f9b0 then Some (length (z_seq z)) else z_hc_pos z in
  seq ← seq_push (z_seq z) c;
  '(seq, mod_, mod_pos) ←
    (if mod1 =? 0 then Some (seq, z_mod z, z_mod_pos z)
     else if (2 <=? length (z_mod_pos z))%nat then None
     else seq' ← seq_push seq 0; Some (seq', mod1, z_mod_pos z ++ [length seq]));
  seq ← (if pres =? 0 then Some seq else seq_push seq 0xfe0f);
  seq ← (if more then seq_push seq 0x200d else Some seq);
  Some (mk_zwj seq mod_ mod_pos hc_pos).
Fixpoint zwj_elements (len : nat) (p : list Z) (z : zwj) : option (zwj * list Z) :=
  match len with
  | O => Some (z, p)
  | S len =>
      match p with
      | b0 :: b1 :: p => z ← zwj_element z b0 b1 (negb (len =? 0)%nat); zwj_elements len p z
      | _ => None
      end
  end.
(** [seq[mod_pos[i]] = v] *)
Definition seq_set (seq : list Z) (pos : option nat) (v : Z) : option (list Z) :=
  pos ← pos; if (pos <? length seq)%nat then Some (<[pos := v]> seq) else None.
Definition zwj_variant (z : zwj) (hc_idx mod_idx : Z) : option (list Z) :=
  let seq := z_seq z in
  seq ← (match z_hc_pos z with Some _ => seq_set seq (z_hc_pos z) (0x1f9b0 + hc_idx) | None => Some seq end);
  if z_mod z =? 1 then seq_set seq (z_mod_pos z !! 0%nat) (0x1f3fb + mod_idx)
  else if (z_mod z =? 2) || (z_mod z =? 3) then
    let i0 := mod_idx / 5 in
    let i1 := mod_idx mod 5 in
    let i0 := if (z_mod z =? 3) && (i1 <=? i0) then i0 + 1 else i0 in
    seq ← seq_set seq (z_mod_pos z !! 0%nat) (0x1f3fb + i0);
    seq_set seq (z_mod_pos z !! 1%nat) (0x1f3fb + i1)
  else Some seq.
Definition n_mod (z : zwj) : nat :=
  if z_mod z =? 1 then 5 else if z_mod z =? 2 then 25 else if z_mod z =? 3 then 20 else 1.
Definition n_hc (z : zwj) : nat := match z_hc_pos z with Some _ => 4 | None => 1 end.
Definition zwj_variants (z : zwj) : option (list (list Z)) :=
  mapM (fun hm => zwj_variant z hm.1 hm.2)
    (concat (map (fun hc_idx => map (pair hc_idx) (range_chars (n_mod z) 0)) (range_chars (n_hc z) 0))).
Fixpoint zwj_loop (fuel : nat) (p : list Z) : option (list (list Z)) :=
  match p, fuel with
  | [], _ => Some []
  | _, O => None
  | len :: p, S fuel =>
      '(z, p) ← zwj_elements (Z.to_nat len) p (mk_zwj [] 0 [] None);
      l ← zwj_variants z;
      ls ← zwj_loop fuel p;
      Some (l ++ ls)
  end.

(** ** Tag sequences *)
Fixpoint tag_loop (p seq : list Z) : option (list (list Z)) :=
  match p with
  | [] => match seq with [] => Some [] | _ => None end
  | c :: p =>
      seq ← (match seq with [] => seq_push [] 0x1F3F4 | _ => Some seq end);
      if c =? 0 then
        seq ← seq_push seq 0xe007f;
        l ← tag_loop p [];
        Some (seq :: l)
      else seq ← seq_push seq (0xe0000 + c); tag_loop p seq
  end.

Section Sequences.
Context (realloc_ok : Z -> bool).

(** [if (unicode_prop1(cr, idx) < 0) return -1;] and the sequences of its
    characters *)
Definition seq_result : Type := list (list Z) * CharRange * Z.
Definition prop_sequences (cr : CharRange) (prop_idx : Z) (seqs : Z -> list (list Z)) : option seq_result :=
  '(cr, ok) ← prop1_at realloc_ok cr prop_idx;
  if negb ok then Some ([], cr, -1)
  else chars ← points_chars (cr_points cr); Some (concat (map seqs chars), cr, 0).
(** [cr->len = 0] *)
Definition cr_clear (cr : CharRange) : CharRange := mk_cr [] (cr_size cr).
Definition seq_then (r : option seq_result) (k : CharRange -> option seq_result) : option seq_result :=
  '(l, cr, ret) ← r;
  if ret <? 0 then Some (l, cr, ret)
  else '(l', cr, ret) ← k (cr_clear cr); Some (l ++ l', cr, ret).

Definition sequence_prop_case (idx : Z) (cr : CharRange) : option seq_result :=
  if idx =? UNICODE_SEQUENCE_PROP_Basic_Emoji then
    seq_then (prop_sequences cr UNICODE_PROP_Basic_Emoji1 (fun c => [[c]]))
      (fun cr => prop_sequences cr UNICODE_PROP_Basic_Emoji2 (fun c => [[c; 0xfe0f]]))
  else if idx =? UNICODE_SEQUENCE_PROP_RGI_Emoji_Modifier_Sequence then
    prop_sequences cr UNICODE_PROP_Emoji_Modifier_Base (fun c => map (fun j => [c; 0x1f3fb + j]) (range_chars 5 0))
  else if idx =? UNICODE_SEQUENCE_PROP_RGI_Emoji_Flag_Sequence then
    prop_sequences cr UNICODE_PROP_RGI_Emoji_Flag_Sequence (fun c => [[0x1F1E6 + c / 26; 0x1F1E6 + c mod 26]])
  else if idx =? UNICODE_SEQUENCE_PROP_RGI_Emoji_ZWJ_Sequence then
    l ← zwj_loop (length unicode_rgi_emoji_zwj_sequence) unicode_rgi_emoji_zwj_sequence; Some (l, cr, 0)
  else if idx =? UNICODE_SEQUENCE_PROP_RGI_Emoji_Tag_Sequence then
    l ← tag_loop unicode_rgi_emoji_tag_sequence []; Some (l, cr, 0)
  else if idx =? UNICODE_SEQUENCE_PROP_Emoji_Keycap_Sequence then
    prop_sequences cr UNICODE_PROP_Emoji_Keycap_Sequence (fun c => [[c; 0xfe0f; 0x20e3]])
  else Some ([], cr, -2).
(** [UNICODE_SEQUENCE_PROP_RGI_Emoji] calls the cases before it one by one. *)
Fixpoint sequence_props (idxs : list Z) (cr : CharRange) : option seq_result :=
  match idxs with
  | [] => Some ([], cr, 0)
  | i :: idxs => seq_then (sequence_prop_case i cr) (sequence_props idxs)
  end.
Definition unicode_sequence_prop1 (idx : Z) (cr : CharRange) : option seq_result :=
  if idx =? UNICODE_SEQUENCE_PROP_RGI_Emoji then
    sequence_props (range_chars (Z.to_nat (UNICODE_SEQUENCE_PROP_RGI_Emoji_ZWJ_Sequence + 1)) UNICODE_SEQUENCE_PROP_Basic_Emoji) cr
  else sequence_prop_case idx cr.
Definition unicode_sequence_prop (prop_name : list Z) (cr : CharRange) : option seq_result :=
  let seq_prop_idx := unicode_find_name unicode_sequence_prop_name_table prop_name in
  if seq_prop_idx <? 0 then Some ([], cr, -2) else unicode_sequence_prop1 seq_prop_idx cr.
End Sequences.
