(* ===== verification/UnicodeSetsProps.v ===== *)
(** * What the named sets contain

    The compressed tables are lists of runs; a decoder adds the intervals its
    selection picks from each run, so the set it builds is sorted and holds a
    character exactly when the value of its run is selected.  Failures happen
    only when memory is refused, and [unicode_script] then never returns. *)
From Stdlib Require Import Sorted.
From S2P Require Import Prelude Sort SortProps CharRange CharRangeProps UnicodeTables UnicodeData UnicodeCase UnicodeCaseProps UnicodeCaseMem.
From S2P Require Import UnicodeProp UnicodeSets.

Lemma weakly_sorted_app a b m : weakly_sorted a -> weakly_sorted b ->
  Forall (fun p => p <= m) a -> Forall (fun p => m <= p) b -> weakly_sorted (a ++ b).
Proof.
  intros [Ha [ka Hka]] [Hb [kb Hkb]] Hm Hm'. split; [|exists (ka + kb)%nat; rewrite length_app; lia]. clear Hka Hkb.
  induction a as [|x a IH]; [done|]. apply StronglySorted_inv in Ha as [Ha Hx]. apply Forall_cons in Hm as [Hxm Hm]. cbn. constructor; [auto|].
  apply Forall_app. split; [done|]. eapply Forall_impl; [exact Hm'|]. cbn. lia.
Qed.
Lemma in_ranges_app a b x : Nat.Even (length a) -> in_ranges (a ++ b) x = in_ranges a x || in_ranges b x.
Proof.
  induction a as [|y|s e a IH] using list_pair_ind; intros He; [done|destruct He as [k Hk]; cbn in Hk; lia|].
  cbn. rewrite IH by (by apply even_two). by rewrite orb_assoc.
Qed.
Lemma weakly_sorted_nil : weakly_sorted [].
Proof. split; [constructor|by exists 0%nat]. Qed.
Lemma weakly_sorted_pair c c1 : c <= c1 -> weakly_sorted [c; c1].
Proof. intros Hc. split; [|by exists 1%nat]. repeat constructor. lia. Qed.

(** ** Runs *)
Section Runs.
Context {V : Type} (decode : list Z -> option (Z * V * list Z)).
Fixpoint table_runs (fuel : nat) (p : list Z) : option (list (Z * V)) :=
  match p, fuel with
  | [], _ => Some []
  | _, O => None
  | _, S fuel => '(n, v, p) ← decode p; rs ← table_runs fuel p; Some ((n + 1, v) :: rs)
  end.
(** The value of the run that holds [x], and its offset there *)
Fixpoint run_value (rs : list (Z * V)) (c x : Z) : option (V * Z) :=
  match rs with
  | [] => None
  | (n, v) :: rs => if x <? c + n then Some (v, x - c) else run_value rs (c + n) x
  end.
Definition runs_length (rs : list (Z * V)) : Z := foldr (fun r t => r.1 + t) 0 rs.
(** Runs that are not empty and end with the code points *)
Definition runs_ok (rs : list (Z * V)) : bool := forallb (fun r => 0 <? r.1) rs && (runs_length rs <=? 0x110000).

Context (pts : V -> Z -> Z -> list Z) (sel : V -> Z -> bool).
Fixpoint value_points (rs : list (Z * V)) (c : Z) : list Z :=
  match rs with
  | [] => []
  | (n, v) :: rs => pts v c (c + n) ++ value_points rs (c + n)
  end.
Definition in_run (rs : list (Z * V)) (c x : Z) : bool :=
  match run_value rs c x with Some (v, o) => sel v o | None => false end.

Lemma runs_length_nonneg rs : Forall (fun r => 0 < r.1) rs -> 0 <= runs_length rs.
Proof. induction 1 as [|r rs Hr _ IH]; [done|]. change (0 <= r.1 + runs_length rs). lia. Qed.
Lemma runs_length_cons r rs : runs_length (r :: rs) = r.1 + runs_length rs.
Proof. done. Qed.

Context (Hpts : forall v c c1, 0 <= c < c1 -> weakly_sorted (pts v c c1) /\ Forall (fun p => c <= p <= c1) (pts v c c1) /\
  forall x, c <= x < c1 -> in_ranges (pts v c c1) x = sel v (x - c)).
Lemma value_points_ok rs : forall c, Forall (fun r => 0 < r.1) rs -> 0 <= c ->
  weakly_sorted (value_points rs c) /\ Forall (fun p => c <= p <= c + runs_length rs) (value_points rs c) /\
  forall x, c <= x -> in_ranges (value_points rs c) x = in_run rs c x.
Proof.
  induction rs as [|[n v] rs IH]; intros c Hrs Hc; [split; [apply weakly_sorted_nil|done]|].
  apply Forall_cons in Hrs as [Hn Hrs]. cbn [fst] in Hn. cbn [value_points].
  destruct (Hpts v c (c + n) ltac:(lia)) as (Hw & Hb & Hin). destruct (IH (c + n) Hrs ltac:(lia)) as (Hw' & Hb' & Hin').
  pose proof (runs_length_nonneg rs Hrs). rewrite runs_length_cons. cbn [fst]. split_and!.
  - apply (weakly_sorted_app _ _ (c + n)); [done|done|eapply Forall_impl; [exact Hb|]; cbn; lia|eapply Forall_impl; [exact Hb'|]; cbn; lia].
  - apply Forall_app. split; (eapply Forall_impl; [eassumption|]; cbn; lia).
  - intros x Hx. rewrite in_ranges_app by apply Hw. unfold in_run. cbn [run_value]. destruct (Z.ltb_spec x (c + n)).
    + rewrite Hin by lia. rewrite in_ranges_low, orb_false_r; [done|]. eapply Forall_impl; [exact Hb'|]. cbn. lia.
    + rewrite Hin' by lia. destruct (in_ranges (pts v c (c + n)) x) eqn:E; [|done]. eapply in_ranges_bounds in E; [|exact Hb]. lia.
Qed.

(** The loop of a decoder *)
Context (ok : Z -> bool) (add : CharRange -> V -> Z -> Z -> CharRange * bool).
Context (Hadd : forall cr v c c1, 0 <= c < c1 -> c1 <= 0x110000 ->
  (always_ok ok -> (add cr v c c1).2 = true) /\
  ((add cr v c c1).2 = true -> cr_points (add cr v c c1).1 = cr_points cr ++ pts v c c1)).
Lemma run_loop_points fuel : forall p cr c rs, table_runs fuel p = Some rs -> Forall (fun r => 0 < r.1) rs -> 0 <= c -> c + runs_length rs <= 0x110000 ->
  exists r, run_loop decode add fuel p cr c = Some r /\ (always_ok ok -> r.2 = true) /\
    (r.2 = true -> cr_points r.1 = cr_points cr ++ value_points rs c).
Proof.
  induction fuel as [|fuel IH]; intros p cr c rs E Hrs Hc Hl.
  { destruct p; [|done]. injection E as <-. exists (cr, true). cbn. by rewrite app_nil_r. }
  destruct p as [|b p]; [injection E as <-; exists (cr, true); cbn; by rewrite app_nil_r|]. cbn [table_runs run_loop] in *.
  destruct (decode (b :: p)) as [[[n v] p']|]; [|done]. revert E. bind. intros E.
  destruct (table_runs fuel p') as [rs'|] eqn:E'; [|done]. injection E as <-. apply Forall_cons in Hrs as [Hn Hrs]. rewrite runs_length_cons in Hl. cbn [fst] in *.
  pose proof (runs_length_nonneg rs' Hrs). rewrite u32_id by lia. replace (c + n + 1) with (c + (n + 1)) by lia.
  destruct (Hadd cr v c (c + (n + 1)) ltac:(lia) ltac:(lia)) as [Ha Hp]. destruct (add cr v c (c + (n + 1))) as [cr1 []]; cbn [fst snd negb] in *.
  - destruct (IH p' cr1 (c + (n + 1)) rs' E' Hrs ltac:(lia) ltac:(lia)) as (r & -> & Hr & Hr'). exists r. split; [done|]. split; [done|].
    intros H'. cbn [value_points]. by rewrite Hr', Hp, <- app_assoc.
  - exists (cr1, false). by split_and!.
Qed.
End Runs.

(** ** Building a set

    The outcome of an operation that builds a set: it succeeds when memory is
    granted, and a success is the set. *)
Definition builds (ok : Z -> bool) (r : CharRange * bool) (set : Z -> bool) : Prop :=
  (always_ok ok -> r.2 = true) /\
  (r.2 = true -> cr_ok r.1 /\ forall x, 0 <= x < 0x110000 -> in_ranges (cr_points r.1) x = set x).

Lemma builds_ext ok r set set' : (forall x, 0 <= x < 0x110000 -> set x = set' x) -> builds ok r set -> builds ok r set'.
Proof. intros He [H1 H2]. split; [done|]. intros Hr. destruct (H2 Hr) as [Hk Hx]. split; [done|]. intros x Hc. by rewrite Hx, He. Qed.
Lemma builds_points ok r pts (set : Z -> bool) : weakly_sorted pts -> Forall (fun p => 0 <= p <= 0x110000) pts ->
  (forall x, 0 <= x < 0x110000 -> in_ranges pts x = set x) ->
  (always_ok ok -> r.2 = true) -> (r.2 = true -> cr_points r.1 = pts) -> builds ok r set.
Proof.
  intros Hw Hb Hx H1 H2. split; [done|]. intros Hr. unfold cr_ok. rewrite (H2 Hr). split; [|done]. split; [done|].
  eapply Forall_impl; [exact Hb|]. unfold UINT32_MAX. cbn. lia.
Qed.
(** Runs that are taken whole *)
Definition whole {V} (hit : V -> bool) (v : V) (c c1 : Z) : list Z := if hit v then [c; c1] else [].
Lemma whole_points {V} (hit : V -> bool) v c c1 : 0 <= c < c1 ->
  weakly_sorted (whole hit v c c1) /\ Forall (fun p => c <= p <= c1) (whole hit v c c1) /\
  forall x, c <= x < c1 -> in_ranges (whole hit v c c1) x = hit v.
Proof.
  intros Hc. unfold whole. destruct (hit v); [|split; [apply weakly_sorted_nil|done]]. split; [apply weakly_sorted_pair; lia|].
  split; [repeat constructor; lia|]. intros x Hx. cbn. by rewrite (proj2 (Z.leb_le _ _)), (proj2 (Z.ltb_lt _ _)) by lia.
Qed.
Section Builds.
Context (ok : Z -> bool).
Lemma builds_op cr1 cr2 op cr set1 set2 : cr_points cr = [] -> cr_ok cr1 -> cr_ok cr2 ->
  (forall x, 0 <= x < 0x110000 -> in_ranges (cr_points cr1) x = set1 x) ->
  (forall x, 0 <= x < 0x110000 -> in_ranges (cr_points cr2) x = set2 x) ->
  builds ok (cr_op ok cr (cr_points cr1) (cr_points cr2) op) (fun x => op_bool op (set1 x) (set2 x)).
Proof.
  intros Hc [Hw1 Hr1] [Hw2 Hr2] H1 H2. pose proof (cr_op_spec ok cr _ _ op Hw1 Hw2 Hc) as H.
  destruct (cr_op ok cr _ _ op) as [cr' r] eqn:E. destruct H as [Hok H]. split; [done|]. cbn. intros ->.
  destruct (H eq_refl) as (_ & Hin & _). split; [exact (cr_op_ok ok cr _ _ op cr' Hc Hw1 Hr1 Hw2 Hr2 E)|]. intros x Hx. by rewrite Hin, H1, H2.
Qed.
Lemma builds_invert cr set : cr_ok cr -> (forall x, 0 <= x < 0x110000 -> in_ranges (cr_points cr) x = set x) ->
  builds ok (cr_invert ok cr) (fun x => negb (set x)).
Proof.
  intros [Hw Hr] H. pose proof (cr_invert_spec ok cr Hw Hr) as Hi. destruct (cr_invert ok cr) as [cr' r] eqn:E.
  destruct Hi as [Hok Hi]. split; [done|]. cbn. intros ->. destruct (Hi eq_refl) as (_ & _ & Hin).
  split; [exact (cr_invert_ok ok cr cr' (conj Hw Hr) E)|]. intros x Hx. rewrite Hin, H by (unfold UINT32_MAX; lia). done.
Qed.
Lemma builds_copy cr cr1 set : cr_ok cr1 -> (forall x, 0 <= x < 0x110000 -> in_ranges (cr_points cr1) x = set x) ->
  builds ok (cr_copy ok cr cr1) set.
Proof.
  intros Hk H. unfold cr_copy. destruct (cr_realloc_spec ok cr (cr_len cr1)) as [_ Ha]. destruct (cr_realloc ok cr _) as [cr' r]. cbn in Ha.
  destruct r; [split; [done|]; by intros _|]. split; [|done]. intros H'. by apply Ha in H'.
Qed.
(** A table of runs *)
Lemma builds_runs {V} (decode : list Z -> option (Z * V * list Z)) pts sel add table rs :
  (forall v c c1, 0 <= c < c1 -> weakly_sorted (pts v c c1) /\ Forall (fun p => c <= p <= c1) (pts v c c1) /\
    forall x, c <= x < c1 -> in_ranges (pts v c c1) x = sel v (x - c)) ->
  (forall cr v c c1, 0 <= c < c1 -> c1 <= 0x110000 -> (always_ok ok -> (add cr v c c1).2 = true) /\
    ((add cr v c c1).2 = true -> cr_points (add cr v c c1).1 = cr_points cr ++ pts v c c1)) ->
  table_runs decode (length table) table = Some rs -> runs_ok rs = true ->
  exists r, run_loop decode add (length table) table cr_init 0 = Some r /\ builds ok r (in_run sel rs 0).
Proof.
  intros Hpts Hadd E Hok. apply andb_true_iff in Hok as [Hp Hl]. apply Z.leb_le in Hl.
  assert (Forall (fun r => 0 < r.1) rs) as Hp'.
  { apply Forall_forall. intros r Hr%list_elem_of_In. rewrite forallb_forall in Hp. apply Z.ltb_lt, Hp, Hr. }
  destruct (run_loop_points decode pts ok add Hadd (length table) table cr_init 0 rs E Hp' ltac:(lia) ltac:(lia)) as (r & -> & H1 & H2).
  destruct (value_points_ok pts sel Hpts rs 0 Hp' ltac:(lia)) as (Hw & Hb & Hin). exists r. split; [done|].
  apply (builds_points ok r (value_points pts rs 0)); [done| |intros x Hx; apply Hin; lia|done|done].
  eapply Forall_impl; [exact Hb|]. cbn. lia.
Qed.
Lemma add_if_points {V} (hit : V -> bool) cr v c c1 :
  (always_ok ok -> (add_if ok (hit v) cr c c1).2 = true) /\
  ((add_if ok (hit v) cr c c1).2 = true -> cr_points (add_if ok (hit v) cr c c1).1 = cr_points cr ++ whole hit v c c1).
Proof. unfold add_if, whole. destruct (hit v); [apply cr_add_interval_spec|]. by rewrite app_nil_r. Qed.
End Builds.

(** ** Names *)

(** The aliases of an entry *)
Fixpoint aliases_from (cur p : list Z) : list (list Z) :=
  match p with
  | [] => [cur]
  | c :: p => if c =? 44 then cur :: aliases_from [] p else aliases_from (cur ++ [c]) p
  end.
Definition aliases (e : string) : list (list Z) := aliases_from [] (bytes_of_string e).
Lemma match_alias_spec name p : forall cur, match_alias name cur p = true <-> name ∈ aliases_from cur p.
Proof.
  induction p as [|c p IH]; intros cur; cbn.
  { rewrite bool_decide_eq_true, list_elem_of_singleton. naive_solver. }
  destruct (c =? 44); [|apply IH]. rewrite elem_of_cons, <- IH. case_bool_decide as E; [|by intuition congruence]. intuition congruence.
Qed.
(** The entry of a name: the first that has it among its aliases *)
Definition named (table : list string) (name : list Z) (idx : Z) : Prop :=
  (exists e, table !! Z.to_nat idx = Some e /\ name ∈ aliases e) /\
  forall j e, (j < Z.to_nat idx)%nat -> table !! j = Some e -> name ∉ aliases e.
Lemma find_name_spec table name : forall pos, 0 <= pos ->
  (find_name_loop table name pos = -1 /\ forall e, e ∈ table -> name ∉ aliases e) \/
  (pos <= find_name_loop table name pos /\ named table name (find_name_loop table name pos - pos)).
Proof.
  induction table as [|e table IH]; intros pos Hpos; cbn.
  { left. split; [done|]. by intros e []%elem_of_nil. }
  destruct (match_alias name [] (bytes_of_string e)) eqn:E.
  { right. split; [lia|]. rewrite Z.sub_diag. split; [exists e; split; [done|by apply match_alias_spec]|]. intros j e' Hj. cbn in Hj. lia. }
  assert (name ∉ aliases e) as Hn by (intros H; apply match_alias_spec in H; congruence).
  destruct (IH (pos + 1) ltac:(lia)) as [[-> H]|(Hle & (e' & He' & Ha) & Hb)]; [left|right].
  - split; [done|]. intros e' [->|He']%elem_of_cons; auto.
  - split; [lia|]. set (i := find_name_loop table name (pos + 1)) in *. unfold named.
    replace (Z.to_nat (i - pos)) with (S (Z.to_nat (i - (pos + 1)))) by lia. split; [by exists e'|].
    intros [|j] e'' Hj Hl; [by injection Hl as <-|]. eapply Hb; [|exact Hl]. lia.
Qed.
Lemma unicode_find_name_spec table name :
  (unicode_find_name table name = -1 /\ forall e, e ∈ table -> name ∉ aliases e) \/
  (0 <= unicode_find_name table name < Z.of_nat (length table) /\ named table name (unicode_find_name table name)).
Proof.
  destruct (find_name_spec table name 0 ltac:(lia)) as [H|[Hle H]]; [by left|right]. rewrite Z.sub_0_r in H. unfold unicode_find_name.
  split; [|done]. destruct H as [(e & He & _) _]. apply lookup_lt_Some in He. lia.
Qed.

(** ** General categories *)
Definition gc_runs : list (Z * Z) := default [] (table_runs gc_run (length unicode_gc_table) unicode_gc_table).
Lemma gc_table_ok : exists rs, table_runs gc_run (length unicode_gc_table) unicode_gc_table = Some rs /\ runs_ok rs = true /\ runs_length rs = 0x110000.
Proof.
  assert (match table_runs gc_run (length unicode_gc_table) unicode_gc_table with
          | Some rs => runs_ok rs && (runs_length rs =? 0x110000) | None => false end = true) as H by (vm_compute; reflexivity).
  destruct (table_runs _ _ _) as [rs|]; [|done]. exists rs. apply andb_true_iff in H as [H1 H2]. apply Z.eqb_eq in H2. done.
Qed.
(** The category of the code point at an offset of a run: 31 is a run of
    alternating capital and small letters. *)
Definition run_category (v o : Z) : Z := if v =? 31 then if Z.even o then UNICODE_GC_Lu else UNICODE_GC_Ll else v.
Definition general_category (x : Z) : Z :=
  match run_value gc_runs 0 x with Some (v, o) => run_category v o | None => UNICODE_GC_Cn end.

Lemma run_value_some {V} (rs : list (Z * V)) : forall c x, c <= x < c + runs_length rs -> exists v o, run_value rs c x = Some (v, o).
Proof.
  induction rs as [|[n v] rs IH]; intros c x Hx; [cbn in Hx; lia|]. cbn [run_value]. rewrite runs_length_cons in Hx. cbn [fst] in Hx.
  destruct (x <? c + n) eqn:E; [by eexists _, _|]. apply Z.ltb_ge in E. apply IH. lia.
Qed.

Lemma land_LuLl m : Z.land m gc_LuLl = 2 * Z.b2z (Z.testbit m UNICODE_GC_Lu) + 4 * Z.b2z (Z.testbit m UNICODE_GC_Ll) /\
  Z.land m gc_Ll = 4 * Z.b2z (Z.testbit m UNICODE_GC_Ll).
Proof.
  change gc_LuLl with (Z.land 7 6). change gc_Ll with (Z.land 7 4). rewrite !Z.land_assoc. change 7 with (Z.ones 3). rewrite Z.land_ones by lia.
  rewrite <- (Z.mod_pow2_bits_low m 3 UNICODE_GC_Lu), <- (Z.mod_pow2_bits_low m 3 UNICODE_GC_Ll) by (unfold UNICODE_GC_Lu, UNICODE_GC_Ll; lia).
  pose proof (Z.mod_pos_bound m (2 ^ 3) ltac:(lia)) as H. set (k := m mod 2 ^ 3) in *. change (2 ^ 3) with 8 in H.
  assert (k = 0 \/ k = 1 \/ k = 2 \/ k = 3 \/ k = 4 \/ k = 5 \/ k = 6 \/ k = 7) as Hk by lia. clearbody k. by destruct_or! Hk; subst k.
Qed.

Fixpoint other_points (fuel : nat) (c0 c : Z) : list Z :=
  match fuel with
  | O => []
  | S fuel => if c0 <? c then [c0; c0 + 1] ++ other_points fuel (c0 + 2) c else []
  end.
Lemma other_points_ok fuel c : forall c0, 0 <= c0 ->
  weakly_sorted (other_points fuel c0 c) /\ Forall (fun p => c0 <= p <= c) (other_points fuel c0 c) /\
  (forall x, c0 <= x < c -> c - c0 <= Z.of_nat fuel -> in_ranges (other_points fuel c0 c) x = Z.even (x - c0)).
Proof.
  induction fuel as [|fuel IH]; intros c0 H0; cbn [other_points]; [split; [apply weakly_sorted_nil|split; [done|lia]]|].
  destruct (Z.ltb_spec c0 c); [|split; [apply weakly_sorted_nil|split; [done|lia]]]. destruct (IH (c0 + 2) ltac:(lia)) as (Hw & Hb & Hin).
  assert (Forall (fun p => c0 + 2 <= p) (other_points fuel (c0 + 2) c)) as Hlo by (eapply Forall_impl; [exact Hb|]; cbn; lia). split_and!.
  - apply (weakly_sorted_app _ _ (c0 + 1)); [apply weakly_sorted_pair; lia|done|repeat constructor; lia|]. eapply Forall_impl; [exact Hlo|]. cbn. lia.
  - apply Forall_app. split; [repeat constructor; lia|]. eapply Forall_impl; [exact Hb|]. cbn. lia.
  - intros x Hx Hf. rewrite in_ranges_app by by exists 1%nat. cbn [in_ranges]. rewrite orb_false_r. destruct (Z.ltb_spec x (c0 + 2)).
    + rewrite in_ranges_low by (eapply Forall_impl; [exact Hlo|]; cbn; lia). rewrite orb_false_r.
      assert (x = c0 \/ x = c0 + 1) as [->| ->] by lia.
      * rewrite Z.sub_diag, (proj2 (Z.leb_le _ _)), (proj2 (Z.ltb_lt _ _)) by lia. done.
      * replace (c0 + 1 - c0) with 1 by lia. rewrite (proj2 (Z.ltb_ge _ _)) by lia. by rewrite andb_false_r.
    + rewrite (proj2 (Z.ltb_ge x (c0 + 1))), andb_false_r, Hin by lia. cbn. replace (x - c0) with (x - (c0 + 2) + 2) by lia. rewrite Z.even_add. by destruct (Z.even _).
Qed.
Definition gc_points (mask v c0 c : Z) : list Z :=
  if v =? 31 then
    match Z.testbit mask UNICODE_GC_Lu, Z.testbit mask UNICODE_GC_Ll with
    | true, true => [c0; c]
    | true, false => other_points (Z.to_nat (c - c0)) c0 c
    | false, true => other_points (Z.to_nat (c - (c0 + 1))) (c0 + 1) c
    | false, false => []
    end
  else whole (Z.testbit mask) v c0 c.
Lemma gc_points_ok mask v c c1 : 0 <= c < c1 ->
  weakly_sorted (gc_points mask v c c1) /\ Forall (fun p => c <= p <= c1) (gc_points mask v c c1) /\
  forall x, c <= x < c1 -> in_ranges (gc_points mask v c c1) x = Z.testbit mask (run_category v (x - c)).
Proof.
  intros Hc. unfold gc_points, run_category. destruct (v =? 31); [|exact (whole_points (Z.testbit mask) v c c1 Hc)].
  destruct (whole_points (fun _ : Z => true) v c c1 Hc) as (Hw & Hb & Hx). unfold whole in *.
  destruct (Z.testbit mask UNICODE_GC_Lu) eqn:Eu, (Z.testbit mask UNICODE_GC_Ll) eqn:El.
  - split_and!; [done|done|]. intros x Hin. rewrite Hx by done. by destruct (Z.even _).
  - destruct (other_points_ok (Z.to_nat (c1 - c)) c1 c ltac:(lia)) as (H1 & H2 & H3). split_and!; [done..|].
    intros x Hin. rewrite H3 by lia. destruct (Z.even _); congruence.
  - destruct (other_points_ok (Z.to_nat (c1 - (c + 1))) c1 (c + 1) ltac:(lia)) as (H1 & H2 & H3). split_and!; [done| |].
    { eapply Forall_impl; [exact H2|]. cbn. lia. }
    intros x Hin. destruct (Z.eq_dec x c) as [->|].
    { rewrite Z.sub_diag, in_ranges_low; [change (Z.even 0) with true; congruence|]. eapply Forall_impl; [exact H2|]. cbn. lia. }
    rewrite H3 by lia. replace (x - c) with (x - (c + 1) + 1) by lia. rewrite Z.even_add. change (Z.even 1) with false. destruct (Z.even (x - (c + 1))); cbn [Bool.eqb]; congruence.
  - split_and!; [apply weakly_sorted_nil|done|]. intros x _. cbn [in_ranges]. destruct (Z.even _); congruence.
Qed.

Section Categories.
Context (ok : Z -> bool).
Lemma gc_every_other_points fuel c : forall cr c0, 0 <= c0 -> c <= 0x110000 ->
  (always_ok ok -> (gc_every_other ok fuel cr c0 c).2 = true) /\
  ((gc_every_other ok fuel cr c0 c).2 = true -> cr_points (gc_every_other ok fuel cr c0 c).1 = cr_points cr ++ other_points fuel c0 c).
Proof.
  induction fuel as [|fuel IH]; intros cr c0 H0 Hc; cbn [gc_every_other other_points]; [by rewrite app_nil_r|].
  destruct (Z.ltb_spec c0 c); [|by rewrite app_nil_r]. rewrite u32_id by lia.
  destruct (cr_add_interval_spec ok cr c0 (c0 + 1)) as [Ha Hp]. destruct (cr_add_interval ok cr c0 (c0 + 1)) as [cr1 []]; [|done]. cbn [fst snd] in *.
  destruct (IH cr1 (c0 + 2) ltac:(lia) Hc) as [H1 H2]. split; [done|]. intros H'. by rewrite H2, Hp, <- app_assoc.
Qed.
Lemma gc_add_points mask cr v c0 c : 0 <= c0 < c -> c <= 0x110000 ->
  (always_ok ok -> (gc_add ok cr mask v c0 c).2 = true) /\
  ((gc_add ok cr mask v c0 c).2 = true -> cr_points (gc_add ok cr mask v c0 c).1 = cr_points cr ++ gc_points mask v c0 c).
Proof.
  intros Hc Hm. unfold gc_add, gc_points. destruct (v =? 31); [|apply (add_if_points ok (Z.testbit mask))].
  destruct (land_LuLl mask) as [-> ->]. destruct (Z.testbit mask UNICODE_GC_Lu), (Z.testbit mask UNICODE_GC_Ll); cbn -[gc_every_other Z.to_nat].
  - apply cr_add_interval_spec.
  - apply gc_every_other_points; lia.
  - apply gc_every_other_points; lia.
  - by rewrite app_nil_r.
Qed.
Lemma unicode_general_category1_builds mask :
  exists r, unicode_general_category1 ok cr_init mask = Some r /\ builds ok r (fun x => Z.testbit mask (general_category x)).
Proof.
  destruct gc_table_ok as (rs & E & Hok & Hl).
  destruct (builds_runs ok gc_run (gc_points mask) (fun v o => Z.testbit mask (run_category v o)) (fun cr v => gc_add ok cr mask v) unicode_gc_table rs)
    as (r & Er & Hr); [apply gc_points_ok|intros; by apply gc_add_points|done|done|].
  exists r. split; [done|]. eapply builds_ext; [|exact Hr]. intros x Hx. unfold general_category, gc_runs, in_run. rewrite E. cbn [default from_option id].
  by destruct (run_value_some rs 0 x ltac:(lia)) as (v & o & ->).
Qed.
End Categories.

(** ** Scripts *)
Definition script_runs : list (Z * option Z) := default [] (table_runs script_run (length unicode_script_table) unicode_script_table).
Definition script_ext_runs : list (Z * list Z) :=
  default [] (table_runs script_ext_run (length unicode_script_ext_table) unicode_script_ext_table).
(** The script of a code point, if it has one, and its script extensions *)
Definition script_of (x : Z) : option Z := match run_value script_runs 0 x with Some (v, _) => v | None => None end.
Definition script_exts (x : Z) : list Z := match run_value script_ext_runs 0 x with Some (vs, _) => vs | None => [] end.

Lemma script_table_ok : exists rs, table_runs script_run (length unicode_script_table) unicode_script_table = Some rs /\ runs_ok rs = true.
Proof.
  assert (match table_runs script_run (length unicode_script_table) unicode_script_table with Some rs => runs_ok rs | None => false end = true) as H
    by (vm_compute; reflexivity). destruct (table_runs _ _ _) as [rs|]; [|done]. by exists rs.
Qed.
Lemma script_ext_table_ok :
  exists rs, table_runs script_ext_run (length unicode_script_ext_table) unicode_script_ext_table = Some rs /\ runs_ok rs = true.
Proof.
  assert (match table_runs script_ext_run (length unicode_script_ext_table) unicode_script_ext_table with Some rs => runs_ok rs | None => false end = true) as H
    by (vm_compute; reflexivity). destruct (table_runs _ _ _) as [rs|]; [|done]. by exists rs.
Qed.

(** The set of a script, and of a script with its extensions: [Common] and
    [Inherited] leave out the code points that have extensions. *)
Definition is_common (idx : Z) : bool := (idx =? UNICODE_SCRIPT_Common) || (idx =? UNICODE_SCRIPT_Inherited).
Definition script_set (idx : Z) (is_ext : bool) (x : Z) : bool :=
  let base := if idx =? UNICODE_SCRIPT_Unknown then bool_decide (script_of x = None) else bool_decide (script_of x = Some idx) in
  if is_ext then
    if is_common idx then base && bool_decide (script_exts x = []) else base || bool_decide (idx ∈ script_exts x)
  else base.

Section Scripts.
Context (ok : Z -> bool).
Lemma script_loop_builds idx : exists r, script_loop ok idx cr_init = Some r /\ builds ok r (fun x => script_hit idx (script_of x)).
Proof.
  destruct script_table_ok as (rs & E & Hok).
  destruct (builds_runs ok script_run (whole (script_hit idx)) (fun v _ => script_hit idx v) (fun cr v => add_if ok (script_hit idx v) cr) unicode_script_table rs)
    as (r & Er & Hr); [intros; by apply whole_points|intros; apply add_if_points|done|done|].
  exists r. split; [done|]. eapply builds_ext; [|exact Hr]. intros x Hx. unfold script_of, script_runs, in_run. rewrite E.
  cbn [default from_option id]. by destruct (run_value rs 0 x) as [[v o]|].
Qed.
Lemma script_ext_loop_builds idx common :
  exists r, script_ext_loop ok idx common cr_init = Some r /\ builds ok r (fun x => script_ext_hit idx common (script_exts x)).
Proof.
  destruct script_ext_table_ok as (rs & E & Hok).
  destruct (builds_runs ok script_ext_run (whole (script_ext_hit idx common)) (fun v _ => script_ext_hit idx common v)
    (fun cr v => add_if ok (script_ext_hit idx common v) cr) unicode_script_ext_table rs)
    as (r & Er & Hr); [intros; by apply whole_points|intros; apply add_if_points|done|done|].
  exists r. split; [done|]. eapply builds_ext; [|exact Hr]. intros x Hx. unfold script_exts, script_ext_runs, in_run. rewrite E.
  cbn [default from_option id]. destruct (run_value rs 0 x) as [[v o]|]; [done|]. by destruct common.
Qed.

(** What [unicode_script] makes of an operation: the set, or no return *)
Definition finds (r : option CharRange) (set : Z -> bool) : Prop :=
  match r with
  | Some cr => cr_ok cr /\ forall x, 0 <= x < 0x110000 -> in_ranges (cr_points cr) x = set x
  | None => ~ always_ok ok
  end.
Lemma builds_finds r set : builds ok r set -> finds (ok_or_fail r) set.
Proof. intros [H1 H2]. unfold ok_or_fail. destruct r as [cr []]; cbn in *; [by apply H2|]. intros H. by apply H1 in H. Qed.
Lemma script_base idx x : (if idx =? UNICODE_SCRIPT_Unknown then negb (script_hit idx (script_of x)) else script_hit idx (script_of x)) = script_set idx false x.
Proof.
  unfold script_set, script_hit. destruct (Z.eqb_spec idx UNICODE_SCRIPT_Unknown) as [->|Hn].
  - destruct (script_of x) as [v|]; [|by rewrite bool_decide_true]. rewrite orb_true_r. by rewrite bool_decide_false.
  - destruct (script_of x) as [v|]; [|by rewrite bool_decide_false]. rewrite orb_false_r.
    destruct (Z.eqb_spec v idx) as [->|]; [by rewrite bool_decide_true|]. rewrite bool_decide_false; congruence.
Qed.
Lemma script_ext_ops idx x :
  script_set idx true x =
  if is_common idx then op_bool CR_OP_INTER (script_set idx false x) (negb (script_ext_hit idx true (script_exts x)))
  else op_bool CR_OP_UNION (script_set idx false x) (script_ext_hit idx false (script_exts x)).
Proof.
  unfold script_set. cbn [op_bool script_ext_hit]. destruct (is_common idx).
  - rewrite negb_involutive. f_equal. by destruct (script_exts x).
  - f_equal. apply eq_true_iff_eq. rewrite bool_decide_eq_true, existsb_exists. split.
    + intros Hin. exists idx. by rewrite <- list_elem_of_In, Z.eqb_refl.
    + intros (y & Hy & ->%Z.eqb_eq). by apply list_elem_of_In.
Qed.
(** One step of the function: it goes on with the set, or memory was refused. *)
Lemma finds_then {A} (P : option A -> Prop) r set (k : CharRange -> option A) : finds r set -> (~ always_ok ok -> P None) ->
  (forall cr, cr_ok cr -> (forall x, 0 <= x < 0x110000 -> in_ranges (cr_points cr) x = set x) -> P (k cr)) -> P (cr ← r; k cr).
Proof. intros H H0 H1. destruct r as [cr|]; [apply H1; apply H|by apply H0]. Qed.
Lemma unicode_script_builds name is_ext :
  let idx := unicode_find_name unicode_script_name_table name in
  0 <= idx ->
  match unicode_script ok cr_init name is_ext with
  | Some (cr, r) => r = 0 /\ finds (Some cr) (script_set idx is_ext)
  | None => ~ always_ok ok
  end.
Proof.
  intros idx Hidx. unfold unicode_script. fold idx. rewrite (proj2 (Z.ltb_ge _ _)) by lia. fold (is_common idx).
  replace (if is_ext then cr_init else cr_init) with cr_init by by destruct is_ext.
  destruct (script_loop_builds idx) as (r1 & -> & H1). bind.
  set (P := fun o : option (CharRange * Z) => match o with Some (cr, r) => r = 0 /\ finds (Some cr) (script_set idx is_ext) | None => ~ always_ok ok end).
  change (P (cr1 ← ok_or_fail r1;
    cr1 ← (if idx =? UNICODE_SCRIPT_Unknown then ok_or_fail (cr_invert ok cr1) else Some cr1);
    if is_ext then
      r ← script_ext_loop ok idx (is_common idx) cr_init;
      cr2 ← ok_or_fail r;
      cr ← (if is_common idx then
              cr2 ← ok_or_fail (cr_invert ok cr2);
              ok_or_fail (cr_op ok cr_init (cr_points cr1) (cr_points cr2) CR_OP_INTER)
            else ok_or_fail (cr_op ok cr_init (cr_points cr1) (cr_points cr2) CR_OP_UNION));
      Some (cr, 0)
    else Some (cr1, 0))).
  apply (finds_then P _ _ _ (builds_finds _ _ H1)); [done|]. intros cr1 Hk1 Hx1.
  apply (finds_then P _ (script_set idx false)); [|done|].
  { pose proof (script_base idx) as Hb. destruct (idx =? UNICODE_SCRIPT_Unknown).
    - apply builds_finds. eapply builds_ext; [|exact (builds_invert ok cr1 _ Hk1 Hx1)]. intros x Hx. apply Hb.
    - split; [done|]. intros x Hx. by rewrite Hx1, <- Hb. }
  clear cr1 Hk1 Hx1. intros cr1 Hk1 Hx1. destruct is_ext; [|by split].
  destruct (script_ext_loop_builds idx (is_common idx)) as (r2 & -> & H2). bind.
  apply (finds_then P _ _ _ (builds_finds _ _ H2)); [done|]. intros cr2 Hk2 Hx2.
  apply (finds_then P _ (script_set idx true)); [|done|by intros; split].
  pose proof (script_ext_ops idx) as Ho. destruct (is_common idx).
  - apply (finds_then (fun o => finds o (script_set idx true)) _ _ _ (builds_finds _ _ (builds_invert ok cr2 _ Hk2 Hx2))); [done|]. intros cr3 Hk3 Hx3.
    apply builds_finds. eapply builds_ext; [|exact (builds_op ok cr1 cr3 CR_OP_INTER cr_init _ _ eq_refl Hk1 Hk3 Hx1 Hx3)]. intros x Hx. by rewrite Ho.
  - apply builds_finds. eapply builds_ext; [|exact (builds_op ok cr1 cr2 CR_OP_UNION cr_init _ _ eq_refl Hk1 Hk2 Hx1 Hx2)]. intros x Hx. by rewrite Ho.
Qed.
End Scripts.
