(* ===== verification/UnicodeNormData.v ===== *)
(** * Tables of normalization (libunicode-table.h)

    Combining classes, decompositions and compositions, transcribed. *)
From S2P Require Import Prelude.

Definition unicode_cc_table : list Z := [
  178; 207; 212; 0; 232; 3; 220; 0; 232; 0; 216; 4; 220; 1; 202; 3; 220; 1; 202; 10; 220; 4; 1; 3; 220; 199; 0; 240;
  192; 2; 220; 194; 1; 220; 128; 194; 3; 220; 192; 0; 232; 1; 220; 192; 65; 233; 0; 234; 65; 233; 0; 234; 0; 233;
  204; 176; 226; 196; 176; 216; 0; 220; 195; 0; 220; 194; 0; 222; 0; 220; 197; 5; 220; 193; 0; 220; 193; 0; 222; 0;
  228; 192; 73; 10; 67; 19; 128; 0; 23; 128; 65; 24; 128; 192; 0; 220; 128; 0; 18; 176; 23; 199; 66; 30; 175; 71; 27;
  193; 1; 220; 196; 0; 220; 193; 0; 220; 143; 0; 35; 176; 52; 198; 129; 195; 0; 220; 192; 129; 193; 128; 0; 220; 193;
  0; 220; 162; 0; 36; 157; 192; 0; 220; 193; 0; 220; 193; 2; 220; 192; 1; 220; 192; 0; 220; 194; 0; 220; 192; 0; 220;
  192; 0; 220; 192; 0; 220; 193; 176; 111; 198; 0; 220; 192; 136; 0; 220; 151; 195; 128; 200; 128; 194; 128; 196;
  170; 2; 220; 176; 10; 193; 2; 220; 195; 169; 196; 4; 220; 205; 128; 0; 220; 193; 0; 220; 193; 0; 220; 194; 2; 220;
  66; 27; 194; 0; 220; 193; 1; 220; 196; 176; 11; 0; 7; 143; 0; 9; 130; 192; 0; 220; 193; 176; 54; 0; 7; 143; 0; 9;
  175; 192; 176; 12; 0; 7; 143; 0; 9; 176; 61; 0; 7; 143; 0; 9; 176; 61; 0; 7; 143; 0; 9; 176; 78; 0; 9; 176; 61; 0;
  7; 143; 0; 9; 134; 0; 84; 0; 91; 176; 52; 0; 7; 143; 0; 9; 176; 60; 1; 9; 143; 0; 9; 176; 75; 0; 9; 176; 60; 1;
  103; 0; 9; 140; 3; 107; 176; 59; 1; 118; 0; 9; 140; 3; 122; 176; 27; 1; 220; 154; 0; 220; 128; 0; 220; 128; 0; 216;
  176; 6; 65; 129; 128; 0; 132; 132; 3; 130; 129; 0; 130; 128; 193; 0; 9; 128; 193; 176; 13; 0; 220; 176; 63; 0; 7;
  128; 1; 9; 176; 33; 0; 220; 178; 158; 194; 179; 131; 1; 9; 157; 0; 9; 176; 108; 0; 9; 137; 192; 176; 154; 0; 228;
  176; 94; 0; 222; 192; 0; 220; 176; 170; 192; 0; 220; 176; 22; 0; 9; 147; 199; 129; 0; 220; 175; 196; 5; 220; 193;
  0; 220; 128; 1; 220; 193; 1; 220; 196; 0; 220; 209; 0; 220; 129; 197; 0; 220; 195; 0; 234; 176; 23; 0; 7; 142; 0;
  9; 165; 192; 0; 220; 198; 176; 5; 1; 9; 176; 9; 0; 7; 138; 1; 9; 176; 18; 0; 7; 176; 103; 194; 65; 0; 4; 220; 193;
  3; 220; 192; 65; 0; 5; 1; 131; 0; 220; 133; 192; 130; 193; 176; 149; 193; 0; 220; 198; 0; 220; 193; 0; 234; 0; 214;
  0; 220; 0; 202; 228; 0; 232; 1; 228; 0; 220; 0; 218; 192; 0; 233; 0; 220; 192; 0; 220; 178; 159; 193; 1; 1; 195; 2;
  1; 193; 131; 192; 130; 1; 1; 192; 0; 220; 192; 1; 1; 3; 220; 192; 184; 3; 205; 194; 176; 92; 0; 9; 176; 47; 223;
  177; 249; 0; 218; 0; 228; 0; 232; 0; 222; 1; 224; 176; 56; 1; 8; 184; 109; 163; 192; 131; 201; 159; 193; 176; 31;
  193; 176; 227; 0; 9; 164; 0; 9; 176; 102; 0; 9; 154; 209; 176; 8; 2; 220; 164; 0; 9; 176; 46; 0; 7; 139; 0; 9; 176;
  190; 192; 128; 193; 0; 220; 129; 193; 132; 193; 128; 192; 176; 3; 0; 9; 176; 197; 0; 9; 184; 70; 255; 0; 26; 178;
  208; 198; 6; 220; 193; 179; 156; 0; 220; 176; 177; 0; 220; 176; 100; 196; 182; 97; 0; 220; 128; 192; 167; 192; 0;
  1; 0; 220; 131; 0; 9; 176; 116; 192; 0; 220; 178; 12; 195; 176; 16; 196; 177; 12; 193; 176; 28; 1; 220; 128; 2;
  220; 176; 21; 1; 220; 194; 0; 220; 192; 3; 220; 176; 0; 192; 0; 220; 192; 0; 220; 176; 143; 0; 9; 168; 0; 9; 141;
  0; 9; 176; 8; 0; 9; 0; 7; 176; 20; 194; 175; 1; 9; 176; 13; 0; 7; 176; 27; 0; 9; 136; 0; 7; 176; 57; 0; 9; 0; 7;
  176; 129; 0; 7; 0; 9; 176; 31; 1; 7; 143; 0; 9; 151; 198; 130; 196; 176; 40; 2; 9; 176; 64; 0; 9; 130; 0; 7; 150;
  192; 176; 50; 0; 9; 0; 7; 176; 202; 0; 9; 0; 7; 176; 77; 0; 9; 176; 69; 0; 9; 0; 7; 176; 66; 0; 9; 176; 220; 0; 9;
  0; 7; 176; 209; 1; 9; 131; 0; 7; 176; 107; 0; 9; 176; 34; 0; 9; 145; 0; 9; 176; 32; 0; 9; 177; 116; 0; 9; 176; 209;
  0; 7; 128; 1; 9; 176; 32; 0; 9; 177; 120; 1; 9; 184; 57; 187; 0; 9; 184; 1; 143; 4; 1; 176; 10; 198; 180; 136; 1;
  6; 184; 68; 123; 0; 1; 184; 12; 149; 1; 216; 2; 1; 130; 0; 226; 4; 216; 135; 7; 220; 129; 196; 1; 220; 157; 195;
  176; 99; 194; 184; 5; 138; 198; 128; 208; 129; 198; 128; 193; 128; 196; 176; 51; 192; 176; 111; 198; 177; 70; 192;
  176; 12; 195; 177; 203; 1; 232; 0; 220; 192; 176; 205; 192; 0; 220; 176; 194; 192; 129; 192; 134; 193; 132; 192;
  177; 169; 6; 220; 176; 60; 197; 0; 7
].

Definition unicode_cc_index : list Z := [
  77; 3; 0; 151; 5; 32; 198; 5; 0; 231; 6; 0; 69; 7; 0; 156; 8; 0; 77; 9; 0; 60; 11; 0; 61; 13; 0; 54; 15; 0; 56; 16;
  32; 58; 25; 0; 203; 26; 32; 242; 27; 0; 195; 29; 32; 208; 32; 0; 0; 46; 0; 44; 168; 0; 190; 170; 0; 118; 3; 1; 250;
  14; 1; 128; 16; 33; 233; 18; 1; 195; 20; 1; 63; 25; 1; 152; 29; 33; 103; 209; 1; 143; 224; 33; 246; 230; 1; 75;
  233; 1
].

Definition unicode_decomp_table1 : list Z := [
  2621569; 2752663; 2785409; 2867351; 2916629; 2949271; 2965633; 3014807; 3031317; 3080601; 3153942; 4196418;
  4491842; 4850754; 4980886; 5013783; 5046850; 5129026; 5226799; 5292866; 5390527; 5440322; 5572930; 5900354;
  6160534; 6177602; 6275201; 6816066; 7061826; 7405957; 7455511; 7555140; 7832388; 7963458; 8061630; 8143255;
  8192322; 8258628; 8392258; 8880450; 9013060; 11273347; 11928343; 12059267; 13632020; 13697174; 14483584; 14581911;
  14647424; 14745751; 14762302; 14794880; 14812350; 15369134; 15893166; 15991213; 16040238; 16072963; 16515843;
  16662657; 16777790; 16892094; 16974270; 17187006; 17711294; 18088510; 18202814; 18284990; 18710852; 19939652;
  20185668; 20283716; 20349764; 20480836; 20612676; 20840772; 23183493; 25723566; 27083311; 28311940; 28622980;
  38420612; 38551684; 38600836; 39191598; 41074990; 41353504; 41402500; 42778756; 42827908; 43401646; 43483268;
  47317124; 47366446; 47644960; 48562308; 49447342; 51511428; 53477508; 53592354; 53641518; 55738798; 58097796;
  58130862; 59555973; 61653125; 62325039; 63111297; 64012420; 64176260; 64258180; 64340100; 64422020; 64635012;
  64798852; 64831790; 64864389; 64880772; 64897157; 65028228; 65323140; 65486980; 65568900; 65650820; 65732740;
  65945732; 67731588; 71237761; 113345668; 113541252; 114213252; 114295072; 114344068; 122356611; 122471455;
  122623875; 123601025; 124179075; 125836612; 126781762; 127080516; 127864130; 128287254; 128352389; 128368830;
  128453956; 128884804; 130023714; 130057028; 130154786; 130188100; 130285858; 130318916; 130416930; 130449988;
  130552126; 131105348; 131203362; 131236420; 131334434; 131367748; 131484734; 131874944; 131891390; 131907712;
  131924158; 131940480; 131956926; 131973248; 131989694; 132006016; 132022462; 132038784; 132055230; 132071552;
  132122656; 132384800; 132646944; 132908478; 133087360; 133103806; 133120151; 133136512; 133153047; 133186622;
  133316736; 133333182; 133349504; 133366718; 133480576; 133530286; 133611648; 133645118; 133742720; 133759918;
  133873792; 133890366; 133923074; 133989310; 134103168; 134119614; 134135936; 134152382; 134168704; 134185111;
  134218014; 134251669; 134496385; 134594711; 134807681; 134824087; 134840473; 134987905; 135053445; 135069873;
  135102597; 135119025; 135201175; 135381399; 135643315; 135774337; 136054165; 136233089; 136249877; 136316191;
  136480131; 136659989; 136970391; 138412313; 138444929; 138461375; 138494233; 138526849; 138559679; 138577197;
  138756225; 138772631; 138822293; 138936471; 138952857; 138969239; 139001985; 139034752; 139067521; 139100418;
  139134101; 139280927; 139346049; 139378841; 139395715; 139543189; 139723033; 139755675; 139773465; 139968663;
  139985025; 140001431; 140017817; 140034199; 140050561; 140066967; 140083353; 140099739; 140116119; 140132481;
  140148887; 140165273; 140182165; 140263575; 140279961; 140296343; 140312705; 140329111; 140345497; 140361883;
  140378263; 140394625; 140411031; 140427417; 140444181; 140656793; 140935486; 141263038; 141771198; 142672062;
  142753982; 142803134; 143196606; 143327365; 143343793; 143376517; 143392945; 143671486; 143720638; 143770046;
  144179646; 144392894; 144507204; 144572740; 144703812; 144769348; 144834884; 145424958; 146276932; 146440736;
  147472670; 152568991; 152716579; 152879255; 152896677; 153044267; 153206939; 153224353; 153371941; 153534617;
  153554213; 153980191; 154406175; 154828929; 176357555; 178061465; 178077847; 178094233; 179765438; 186581269;
  190562433; 195543169; 196919425; 197133485; 197280941; 197428397; 197587843; 199263533; 199433475; 200378413;
  201326721; 202211971; 202574724; 202982020; 203161890; 203211042; 203260194; 203309346; 203358498; 203751556;
  203866403; 203915396; 203931781; 204147588; 204554884; 204734754; 204783906; 204833058; 204882210; 204931362;
  205324420; 205373984; 205488260; 205504645; 206326317; 206652703; 206817951; 207164845; 207914755; 209717057;
  209944713; 209961257; 209994153; 210043017; 210059561; 210092713; 210174089; 210190479; 210206861; 210244161;
  210829827; 211026073; 211043491; 211190563; 211289901; 211518639; 211665569; 211746997; 211763379; 211779717;
  211818627; 212615715; 212682019; 212844695; 212862113; 213008805; 213057687; 213074073; 213090455; 213106841;
  213129133; 213893253; 213909939; 213958833; 213975219; 213991729; 214024373; 214040755; 214057393; 214106419;
  214139185; 214171781; 214188209; 214204723; 214237317; 214253749; 214270135; 214286517; 214302897; 214319413;
  214352051; 214368689; 214417587; 214433973; 214450355; 214466993; 214516271; 214581553; 214614197; 214630577;
  214646963; 214663349; 214679729; 214696239; 214728885; 214745267; 214761653; 214778033; 214794421; 214810757;
  214827697; 214909107; 214925489; 214941829; 214958513; 215007411; 215024049; 215072949; 215089331; 215105669;
  215122101; 215138437; 215154995; 215187889; 215236787; 215253125; 215269553; 215285939; 215302277; 215318709;
  215335089; 215352609; 215516453; 215679653; 215761049; 215777559; 215810201; 215826839; 215875879; 215908997;
  215990409; 216007743; 216137881; 216154267; 216171455; 216285721; 216351237; 216417087; 216514865; 216547461;
  216564145; 216612997; 216629511; 216662153; 216678551; 216695321; 216760477; 216776845; 216795199; 217055493;
  217088155; 217104791; 217153691; 217170073; 217187607; 217350297; 217366807; 217399577; 217432215; 217448603;
  217464985; 217481751; 217547033; 217580705; 217728293; 217892133; 218054949; 218087577; 698810627; 702283905;
  704397845; 704512259; 718733827; 718946433; 1044386946; 1045069698; 1047150466; 1049272578; 1050345744; 1050423170;
  1051968912; 1052770711; 1052819737; 1052852543; 1053082287; 1053245828; 1053295789; 1053442177; 1053459204;
  1053557664; 1053688480; 1053786244; 1053819168; 1053868320; 1053918382; 1054064773; 1054093613; 1056230317;
  1056606511; 1056899629; 1056976687; 1058505381; 1058586801; 1058604975; 1058865071; 1060929957; 1060988079;
  1062477873; 1063557937; 1065091377; 1065124787; 1065238705; 1065255101; 1065271483; 1065287859; 1065616643;
  1066140077; 1066189589; 1066288685; 1066519555; 1066911381; 1067188655; 1067253893; 1067287855; 1067465389;
  1069368367; 1069575967; 1071104287; 1071144877; 1072169089; 1072189215; 1072726815; 1072857887; 1072988959;
  1073119647; 1073219459; 1098006674; 1098449042; 1105218947; 1105661841; 1143374226; 1143652498; 1145798930;
  1154662674; 1155580306; 1155760274; 1155809426; 1156661778; 1160692242; 1164869906; 1179517074; 1481131026;
  1532625298; 1932889375; 1933313311; 1951892370; 1953415954; 1962937631; 1963363615; 1963789599; 1964213151;
  1964345631; 1964641567; 1965067551; 1965494293; 1966031775; 1966163359; 1966345503; 1966771487; 1967195029;
  1967342623; 1967489951; 1967623455; 1968048021; 1968341919; 1968475423; 1968901407; 1969327391; 1969753375;
  1970179359; 1970605343; 1971031327; 1971457311; 1971883295; 1972309279; 1972735263; 1973161247; 1973587231;
  1974010115; 1974077599; 1974354049; 1974371231; 1974485121; 1974504607; 1974911105; 1974928173; 1975027871;
  1975304321; 1975321503; 1975435393; 1975454879; 1975861377; 1975878445; 1975978143; 1976254593; 1976271775;
  1976385665; 1976405151; 1976811649; 1976828717; 1976928415; 1977204865; 1977222047; 1977335937; 1977355423;
  1977761921; 1977778989; 1977878687; 1978155137; 1978172319; 1978286209; 1978305695; 1978712193; 1978729517;
  1978893599; 1979057439; 1979221279; 1979385119; 1979548959; 2014053535; 2014200223; 2014250399; 2014429699;
  2014498989; 2015035651; 2071986733; 2072071597; 2072527363; 2072625281; 2072659245; 2072839171; 2073067649;
  2073156611; 2074084653; 2074265773; 2074625155; 2074790061; 2084569239; 2084586785; 2084834597; 2085257351;
  2085273877; 2085306647; 2085358879; 2085782039; 2085847193; 2085863575; 2086306199; 2086928535; 2088763695;
  2088796289; 2089031171; 2089813185; 2090074371; 2130445599; 3187671468; 3187724560; 3188279212; 3188537616;
  3190392620; 3190620716; 3190699920; 3192520592; 3194600464
].

Definition unicode_decomp_table2 : list Z := [
  32; 0; 97; 2; 4; 6; 956; 8; 10; 12; 21; 149; 165; 185; 193; 195; 199; 203; 209; 215; 221; 224; 230; 248; 264; 266;
  115; 272; 274; 276; 288; 300; 324; 333; 339; 354; 360; 362; 374; 402; 404; 425; 443; 455; 465; 469; 697; 471; 59;
  473; 475; 183; 481; 508; 524; 536; 541; 547; 551; 931; 563; 575; 578; 587; 590; 593; 605; 608; 617; 620; 623; 629;
  632; 641; 650; 668; 671; 675; 687; 697; 709; 713; 717; 721; 725; 743; 749; 753; 757; 761; 765; 773; 777; 781; 787;
  791; 795; 803; 807; 811; 815; 821; 829; 833; 841; 845; 849; 3851; 855; 859; 863; 867; 871; 875; 879; 883; 889; 893;
  897; 901; 905; 909; 913; 917; 921; 925; 929; 4316; 933; 969; 973; 985; 989; 993; 1007; 1009; 1085; 1103; 1177;
  1264; 1282; 1354; 1380; 1388; 1392; 1395; 1434; 1530; 1534; 1543; 1547; 1556; 1560; 1566; 1570; 1576; 1678; 1684;
  1688; 1694; 1698; 1707; 940; 1779; 941; 1782; 942; 1785; 943; 1788; 972; 1791; 973; 1794; 974; 1797; 1801; 1805;
  1809; 902; 1842; 1845; 953; 1847; 1851; 904; 1875; 905; 1878; 912; 1899; 906; 1911; 944; 1929; 910; 1945; 1951;
  1955; 908; 1976; 911; 1979; 180; 1982; 1984; 1986; 8208; 1995; 46; 1997; 1999; 32; 2002; 2006; 2011; 2015; 2020;
  2026; 2032; 32; 2038; 8722; 2049; 2053; 2055; 2077; 2085; 2087; 67; 2093; 2096; 400; 2102; 2105; 78; 2117; 2119;
  2124; 2126; 2129; 90; 937; 90; 2131; 2135; 2144; 105; 2146; 2149; 2159; 2164; 2170; 2174; 2210; 73; 2212; 2214;
  2217; 86; 2219; 2221; 2224; 2228; 88; 2230; 2232; 2235; 2240; 2242; 2245; 118; 2247; 2249; 2252; 2256; 120; 2258;
  2260; 2263; 2267; 2270; 2276; 2279; 2288; 2291; 2294; 2297; 2306; 2310; 2315; 2319; 2324; 2327; 2330; 2339; 2348;
  2363; 2366; 2369; 2372; 2375; 2378; 2390; 2396; 2400; 2402; 2404; 2408; 2410; 2416; 2424; 2428; 2432; 2438; 2441;
  2447; 2449; 48; 2451; 2457; 2460; 2462; 2465; 2468; 11617; 27597; 40863; 2470; 2481; 2492; 2503; 2709; 2721; 2837;
  32; 2855; 2865; 2957; 2977; 2981; 2985; 2989; 2993; 2997; 3001; 3005; 3009; 3013; 3105; 3125; 3129; 3133; 3137;
  3141; 3145; 3149; 3153; 3157; 3161; 3183; 3185; 3187; 3232; 3260; 3292; 3300; 3308; 3316; 3324; 3332; 3340; 3348;
  3362; 3374; 3450; 3458; 3461; 3465; 3469; 3485; 3505; 3509; 3516; 3522; 3526; 3624; 3628; 3632; 3634; 3638; 3644;
  3646; 3649; 3651; 3654; 3703; 3707; 3721; 3726; 3732; 3740; 3747; 3753; 3764; 3774; 3782; 3786; 3791; 3801; 3805;
  3812; 3820; 3827; 3832; 3844; 3850; 3861; 3867; 3874; 3880; 3891; 3901; 3909; 3916; 3921; 3927; 3934; 3939; 3945;
  3952; 3958; 3965; 3970; 3977; 3981; 3998; 4004; 4009; 4013; 4024; 4030; 4041; 4048; 4054; 4058; 4065; 4069; 4079;
  4090; 4096; 4100; 4105; 4111; 4115; 4122; 4127; 4131; 4137; 4143; 4146; 4150; 4153; 4159; 4165; 4185; 4193; 4217;
  4220; 4224; 4245; 4257; 4273; 4291; 4299; 4303; 4314; 4318; 4330; 4338; 4340; 4352; 4357; 4369; 4417; 4425; 4429;
  4435; 4439; 4442; 4462; 4465; 4469; 4475; 4477; 4481; 4484; 4492; 4498; 4502; 4508; 4514; 4520; 4523; 42863; 4527;
  4531; 4535; 653; 4543; 4625; 4879; 5133; 5265; 5270; 5460; 5485; 5491; 5497; 5503; 5515; 5527; 43; 5538; 5562;
  5566; 5570; 5574; 5578; 5582; 5602; 5606; 5706; 5731; 5769; 5775; 5965; 5971; 5976; 6008; 6264; 6270; 6418; 6612;
  6776; 6784; 6814; 6819; 6839; 6849; 6855; 6875; 6880; 6886; 6900; 6948; 6961; 6969; 6973; 6995; 7114; 7132; 7134;
  7136; 12644; 7201; 7203; 7205; 7207; 7209; 7211; 7241; 7246; 7251; 7305; 7375; 7389; 7394; 7403; 7412; 7426; 7431;
  7436; 7454; 7472; 7481; 7486; 7522; 7536; 7538; 7540; 7572; 7599; 7601; 7603; 7605; 7607; 7609; 7611; 7613; 7645;
  7647; 7649; 7651; 7653; 7660; 7662; 7664; 7666; 7681; 7683; 7685; 7687; 7689; 7691; 7693; 7695; 7697; 7699; 7701;
  7703; 7705; 7707; 7709; 7713; 1012; 7715; 8711; 7717; 8706; 7719; 7727; 1012; 7729; 8711; 7731; 8706; 7733; 7741;
  1012; 7743; 8711; 7745; 8706; 7747; 7755; 1012; 7757; 8711; 7759; 8706; 7761; 7769; 1012; 7771; 8711; 7773; 8706;
  7775; 7785; 7787; 7789; 7791; 7793; 7795; 7797; 7799; 7801; 7809; 7844; 7848; 7854; 7883; 1581; 7891; 7903; 1580;
  7919; 8031; 8043; 8062; 8080; 8099; 8101; 8105; 8111; 8117; 8119; 8123; 8125; 8133; 8136; 8138; 8144; 8146; 12469;
  8152; 8240; 8262; 8266; 8268; 8273; 8350; 8367; 8624; 8640; 8646; 8896; 9182
].

Definition unicode_decomp_data : list Z := [
  32; 136; 32; 132; 50; 51; 32; 129; 32; 167; 49; 111; 49; 208; 52; 49; 208; 50; 51; 208; 52; 65; 128; 65; 129; 65;
  130; 65; 131; 65; 136; 65; 138; 0; 0; 67; 167; 69; 128; 69; 129; 69; 130; 69; 136; 73; 128; 73; 129; 73; 130; 73;
  136; 0; 0; 78; 131; 79; 128; 79; 129; 79; 130; 79; 131; 79; 136; 0; 0; 0; 0; 85; 128; 85; 129; 85; 130; 85; 136;
  89; 129; 0; 0; 0; 0; 97; 128; 97; 129; 97; 130; 97; 131; 97; 136; 97; 138; 0; 0; 99; 167; 101; 128; 101; 129; 101;
  130; 101; 136; 105; 128; 105; 129; 105; 130; 105; 136; 0; 0; 110; 131; 111; 128; 111; 129; 111; 130; 111; 131; 111;
  136; 0; 0; 0; 0; 117; 128; 117; 129; 117; 130; 117; 136; 121; 129; 0; 0; 121; 136; 65; 132; 65; 134; 65; 168; 67;
  129; 67; 130; 67; 135; 67; 140; 68; 140; 69; 132; 69; 134; 69; 135; 69; 168; 69; 140; 71; 130; 71; 134; 71; 135;
  71; 167; 72; 130; 73; 131; 73; 132; 73; 134; 73; 168; 73; 135; 73; 74; 105; 106; 74; 130; 75; 167; 76; 129; 76;
  167; 76; 140; 76; 0; 0; 107; 32; 107; 78; 129; 78; 167; 78; 140; 188; 2; 110; 79; 132; 79; 134; 79; 139; 82; 129;
  82; 167; 82; 140; 83; 129; 83; 130; 83; 167; 83; 140; 84; 167; 84; 140; 85; 131; 85; 132; 85; 134; 85; 138; 85;
  139; 85; 168; 87; 130; 89; 130; 89; 136; 90; 129; 90; 135; 90; 140; 79; 155; 85; 155; 68; 0; 125; 1; 68; 0; 126; 1;
  100; 0; 126; 1; 76; 74; 76; 106; 108; 106; 78; 74; 78; 106; 110; 106; 65; 0; 140; 73; 0; 140; 79; 0; 140; 85; 0;
  140; 220; 0; 132; 220; 0; 129; 220; 0; 140; 220; 0; 128; 196; 0; 132; 38; 2; 132; 198; 0; 132; 71; 140; 75; 140;
  79; 168; 234; 1; 132; 235; 1; 132; 183; 1; 140; 146; 2; 140; 106; 0; 140; 68; 90; 68; 122; 100; 122; 71; 129; 78;
  0; 128; 197; 0; 129; 198; 0; 129; 216; 0; 129; 65; 143; 65; 145; 69; 143; 69; 145; 73; 143; 73; 145; 79; 143; 79;
  145; 82; 143; 82; 145; 85; 143; 85; 145; 83; 166; 84; 166; 72; 140; 65; 0; 135; 69; 0; 167; 214; 0; 132; 213; 0;
  132; 79; 0; 135; 46; 2; 132; 89; 0; 132; 104; 0; 102; 2; 106; 0; 114; 0; 121; 2; 123; 2; 129; 2; 119; 0; 121; 0;
  32; 134; 32; 135; 32; 138; 32; 168; 32; 131; 32; 139; 99; 2; 108; 0; 115; 0; 120; 0; 149; 2; 128; 129; 0; 147; 136;
  129; 32; 197; 32; 129; 168; 0; 129; 145; 3; 129; 149; 3; 129; 151; 3; 129; 153; 3; 129; 0; 0; 0; 159; 3; 129; 0; 0;
  0; 165; 3; 129; 169; 3; 129; 202; 3; 129; 1; 3; 152; 7; 164; 7; 176; 0; 180; 0; 182; 0; 184; 0; 202; 0; 1; 3; 184;
  7; 196; 7; 190; 0; 196; 0; 200; 0; 165; 3; 13; 19; 0; 1; 3; 209; 0; 209; 7; 198; 3; 192; 3; 186; 3; 193; 3; 194; 3;
  0; 0; 152; 3; 181; 3; 21; 4; 128; 21; 4; 136; 0; 0; 0; 19; 4; 129; 6; 4; 136; 26; 4; 129; 24; 4; 128; 35; 4; 134;
  24; 4; 134; 56; 4; 134; 53; 4; 128; 53; 4; 136; 0; 0; 0; 51; 4; 129; 86; 4; 136; 58; 4; 129; 56; 4; 128; 67; 4;
  134; 116; 4; 143; 22; 4; 134; 16; 4; 134; 16; 4; 136; 21; 4; 134; 216; 4; 136; 22; 4; 136; 23; 4; 136; 24; 4; 132;
  24; 4; 136; 30; 4; 136; 232; 4; 136; 45; 4; 136; 35; 4; 132; 35; 4; 136; 35; 4; 139; 39; 4; 136; 43; 4; 136; 101;
  5; 130; 5; 39; 6; 0; 44; 0; 45; 33; 45; 0; 46; 35; 45; 39; 6; 0; 77; 33; 77; 160; 77; 35; 77; 213; 6; 84; 6; 0; 0;
  0; 0; 193; 6; 84; 6; 210; 6; 84; 6; 40; 9; 60; 9; 48; 9; 60; 9; 51; 9; 60; 9; 21; 9; 0; 39; 1; 39; 2; 39; 7; 39;
  12; 39; 13; 39; 22; 39; 26; 39; 190; 9; 9; 0; 9; 25; 161; 9; 188; 9; 175; 9; 188; 9; 50; 10; 60; 10; 56; 10; 60;
  10; 22; 10; 0; 38; 1; 38; 6; 38; 43; 10; 60; 10; 71; 11; 86; 11; 62; 11; 9; 0; 9; 25; 33; 11; 60; 11; 146; 11; 215;
  11; 190; 11; 8; 0; 9; 0; 8; 25; 70; 12; 86; 12; 191; 12; 213; 12; 198; 12; 213; 12; 194; 12; 4; 0; 8; 19; 62; 13;
  8; 0; 9; 0; 8; 25; 217; 13; 202; 13; 202; 13; 15; 5; 18; 0; 15; 21; 77; 14; 50; 14; 205; 14; 178; 14; 153; 14; 18;
  0; 18; 8; 66; 15; 183; 15; 76; 15; 183; 15; 81; 15; 183; 15; 86; 15; 183; 15; 91; 15; 183; 15; 64; 15; 181; 15;
  113; 15; 114; 15; 113; 15; 0; 3; 65; 15; 178; 15; 129; 15; 179; 15; 128; 15; 179; 15; 129; 15; 113; 15; 128; 15;
  146; 15; 183; 15; 156; 15; 183; 15; 161; 15; 183; 15; 166; 15; 183; 15; 171; 15; 183; 15; 144; 15; 181; 15; 37; 16;
  46; 16; 5; 27; 53; 27; 0; 0; 0; 0; 7; 27; 53; 27; 0; 0; 0; 0; 9; 27; 53; 27; 0; 0; 0; 0; 11; 27; 53; 27; 0; 0; 0;
  0; 13; 27; 53; 27; 17; 27; 53; 27; 58; 27; 53; 27; 0; 0; 0; 0; 60; 27; 53; 27; 62; 27; 53; 27; 66; 27; 53; 27; 65;
  0; 198; 0; 66; 0; 0; 0; 68; 0; 69; 0; 142; 1; 71; 0; 79; 0; 34; 2; 80; 0; 82; 0; 84; 0; 85; 0; 87; 0; 97; 0; 80; 2;
  81; 2; 2; 29; 98; 0; 100; 0; 101; 0; 89; 2; 91; 2; 92; 2; 103; 0; 0; 0; 107; 0; 109; 0; 75; 1; 111; 0; 84; 2; 22;
  29; 23; 29; 112; 0; 116; 0; 117; 0; 29; 29; 111; 2; 118; 0; 37; 29; 178; 3; 179; 3; 180; 3; 198; 3; 199; 3; 105; 0;
  114; 0; 117; 0; 118; 0; 178; 3; 179; 3; 193; 3; 198; 3; 199; 3; 82; 2; 99; 0; 85; 2; 240; 0; 92; 2; 102; 0; 95; 2;
  97; 2; 101; 2; 104; 2; 105; 2; 106; 2; 123; 29; 157; 2; 109; 2; 133; 29; 159; 2; 113; 2; 112; 2; 114; 2; 115; 2;
  116; 2; 117; 2; 120; 2; 130; 2; 131; 2; 171; 1; 137; 2; 138; 2; 28; 29; 139; 2; 140; 2; 122; 0; 144; 2; 145; 2;
  146; 2; 184; 3; 65; 0; 165; 66; 0; 135; 66; 0; 163; 66; 0; 177; 199; 0; 129; 68; 0; 135; 68; 0; 163; 68; 0; 177;
  68; 0; 167; 68; 0; 173; 18; 1; 128; 18; 1; 129; 69; 0; 173; 69; 0; 176; 40; 2; 134; 70; 0; 135; 71; 0; 132; 72; 0;
  135; 72; 0; 163; 72; 0; 136; 72; 0; 167; 72; 0; 174; 73; 0; 176; 207; 0; 129; 75; 0; 129; 75; 0; 163; 75; 0; 177;
  76; 0; 163; 54; 30; 132; 76; 177; 76; 173; 77; 129; 77; 135; 77; 163; 78; 135; 78; 163; 78; 177; 78; 173; 213; 0;
  129; 213; 0; 136; 76; 1; 128; 76; 1; 129; 80; 0; 129; 80; 0; 135; 82; 0; 135; 82; 0; 163; 90; 30; 132; 82; 0; 177;
  83; 0; 135; 83; 0; 163; 90; 1; 135; 96; 1; 135; 98; 30; 135; 84; 0; 135; 84; 0; 163; 84; 0; 177; 84; 0; 173; 85; 0;
  164; 85; 0; 176; 85; 0; 173; 104; 1; 129; 106; 1; 136; 86; 131; 86; 163; 87; 128; 87; 129; 87; 136; 87; 135; 87;
  163; 88; 135; 88; 136; 89; 135; 90; 130; 90; 163; 90; 177; 104; 177; 116; 136; 119; 138; 121; 138; 97; 0; 190; 2;
  127; 1; 135; 65; 0; 163; 65; 0; 137; 194; 0; 129; 194; 0; 128; 194; 0; 137; 194; 0; 131; 160; 30; 130; 2; 1; 129;
  2; 1; 128; 2; 1; 137; 2; 1; 131; 160; 30; 134; 69; 0; 163; 69; 0; 137; 69; 0; 131; 202; 0; 129; 202; 0; 128; 202;
  0; 137; 202; 0; 131; 184; 30; 130; 73; 0; 137; 73; 0; 163; 79; 0; 163; 79; 0; 137; 212; 0; 129; 212; 0; 128; 212;
  0; 137; 212; 0; 131; 204; 30; 130; 160; 1; 129; 160; 1; 128; 160; 1; 137; 160; 1; 131; 160; 1; 163; 85; 0; 163; 85;
  0; 137; 175; 1; 129; 175; 1; 128; 175; 1; 137; 175; 1; 131; 175; 1; 163; 89; 0; 128; 89; 0; 163; 89; 0; 137; 89; 0;
  131; 177; 3; 19; 3; 0; 31; 128; 0; 31; 129; 0; 31; 194; 145; 3; 19; 3; 8; 31; 128; 8; 31; 129; 8; 31; 194; 181; 3;
  19; 3; 16; 31; 128; 16; 31; 129; 149; 3; 19; 3; 24; 31; 128; 24; 31; 129; 183; 3; 147; 183; 3; 148; 32; 31; 128;
  33; 31; 128; 32; 31; 129; 33; 31; 129; 32; 31; 194; 33; 31; 194; 151; 3; 147; 151; 3; 148; 40; 31; 128; 41; 31;
  128; 40; 31; 129; 41; 31; 129; 40; 31; 194; 41; 31; 194; 185; 3; 147; 185; 3; 148; 48; 31; 128; 49; 31; 128; 48;
  31; 129; 49; 31; 129; 48; 31; 194; 49; 31; 194; 153; 3; 147; 153; 3; 148; 56; 31; 128; 57; 31; 128; 56; 31; 129;
  57; 31; 129; 56; 31; 194; 57; 31; 194; 191; 3; 147; 191; 3; 148; 64; 31; 128; 64; 31; 129; 159; 3; 19; 3; 72; 31;
  128; 72; 31; 129; 197; 3; 19; 3; 80; 31; 128; 80; 31; 129; 80; 31; 194; 165; 3; 148; 0; 0; 0; 89; 31; 128; 0; 0; 0;
  89; 31; 129; 0; 0; 0; 89; 31; 194; 201; 3; 147; 201; 3; 148; 96; 31; 128; 97; 31; 128; 96; 31; 129; 97; 31; 129;
  96; 31; 194; 97; 31; 194; 169; 3; 147; 169; 3; 148; 104; 31; 128; 105; 31; 128; 104; 31; 129; 105; 31; 129; 104;
  31; 194; 105; 31; 194; 177; 3; 128; 181; 3; 128; 183; 3; 128; 185; 3; 128; 191; 3; 128; 197; 3; 128; 201; 3; 128;
  0; 31; 69; 3; 32; 31; 69; 3; 96; 31; 69; 3; 177; 3; 134; 177; 3; 132; 112; 31; 197; 177; 3; 197; 172; 3; 197; 0; 0;
  0; 177; 3; 194; 182; 31; 197; 145; 3; 134; 145; 3; 132; 145; 3; 128; 145; 3; 197; 32; 147; 32; 147; 32; 194; 168;
  0; 194; 116; 31; 197; 183; 3; 197; 174; 3; 197; 0; 0; 0; 183; 3; 194; 198; 31; 197; 149; 3; 128; 151; 3; 128; 151;
  3; 197; 191; 31; 128; 191; 31; 129; 191; 31; 194; 185; 3; 134; 185; 3; 132; 202; 3; 128; 0; 3; 185; 66; 202; 66;
  153; 6; 153; 4; 153; 0; 254; 31; 128; 254; 31; 129; 254; 31; 194; 197; 3; 134; 197; 3; 132; 203; 3; 128; 0; 3; 193;
  19; 193; 20; 197; 66; 203; 66; 165; 6; 165; 4; 165; 0; 161; 3; 148; 168; 0; 128; 133; 3; 96; 0; 124; 31; 197; 201;
  3; 197; 206; 3; 197; 0; 0; 0; 201; 3; 194; 246; 31; 197; 159; 3; 128; 169; 3; 128; 169; 3; 197; 32; 148; 2; 32; 32;
  32; 32; 32; 32; 32; 32; 32; 32; 32; 179; 46; 46; 46; 46; 46; 50; 32; 50; 32; 50; 32; 0; 0; 0; 53; 32; 53; 32; 53;
  32; 0; 0; 0; 33; 33; 0; 0; 32; 133; 63; 63; 63; 33; 33; 63; 50; 32; 0; 0; 0; 0; 48; 105; 0; 0; 52; 53; 54; 55; 56;
  57; 43; 61; 40; 41; 110; 48; 0; 43; 0; 18; 34; 61; 0; 40; 0; 41; 0; 0; 0; 97; 0; 101; 0; 111; 0; 120; 0; 89; 2;
  104; 107; 108; 109; 110; 112; 115; 116; 82; 115; 97; 47; 99; 97; 47; 115; 176; 0; 67; 99; 47; 111; 99; 47; 117;
  176; 0; 70; 72; 0; 31; 0; 0; 0; 32; 223; 1; 1; 4; 36; 78; 111; 80; 81; 82; 82; 82; 83; 77; 84; 69; 76; 84; 77; 75;
  0; 197; 0; 66; 67; 0; 101; 69; 70; 0; 77; 111; 208; 5; 70; 65; 88; 192; 3; 179; 3; 147; 3; 160; 3; 17; 34; 68; 100;
  101; 105; 106; 49; 208; 55; 49; 208; 57; 49; 208; 49; 48; 49; 208; 51; 50; 208; 51; 49; 208; 53; 50; 208; 53; 51;
  208; 53; 52; 208; 53; 49; 208; 54; 53; 208; 54; 49; 208; 56; 51; 208; 56; 53; 208; 56; 55; 208; 56; 49; 208; 73;
  73; 73; 73; 73; 73; 86; 86; 73; 86; 73; 73; 86; 73; 73; 73; 73; 88; 88; 73; 88; 73; 73; 76; 67; 68; 77; 105; 105;
  105; 105; 105; 105; 105; 118; 118; 105; 118; 105; 105; 118; 105; 105; 105; 105; 120; 120; 105; 120; 105; 105; 108;
  99; 100; 109; 48; 208; 51; 144; 33; 184; 146; 33; 184; 148; 33; 184; 208; 33; 184; 212; 33; 184; 210; 33; 184; 3;
  34; 184; 8; 34; 184; 11; 34; 184; 35; 34; 184; 0; 0; 0; 37; 34; 184; 43; 34; 43; 34; 43; 34; 0; 0; 0; 46; 34; 46;
  34; 46; 34; 0; 0; 0; 60; 34; 184; 67; 34; 184; 69; 34; 184; 0; 0; 0; 72; 34; 184; 61; 0; 184; 0; 0; 0; 97; 34; 184;
  77; 34; 184; 60; 0; 184; 62; 0; 184; 100; 34; 184; 101; 34; 184; 114; 34; 184; 118; 34; 184; 122; 34; 184; 130; 34;
  184; 134; 34; 184; 162; 34; 184; 168; 34; 184; 169; 34; 184; 171; 34; 184; 124; 34; 184; 145; 34; 184; 178; 34; 56;
  3; 8; 48; 49; 0; 49; 0; 48; 0; 50; 48; 40; 0; 49; 0; 41; 0; 40; 0; 49; 0; 48; 0; 41; 0; 40; 50; 48; 41; 49; 0; 46;
  0; 49; 0; 48; 0; 46; 0; 50; 48; 46; 40; 0; 97; 0; 41; 0; 65; 0; 97; 0; 43; 34; 0; 0; 0; 0; 58; 58; 61; 61; 61; 61;
  61; 61; 221; 42; 184; 106; 86; 0; 78; 0; 40; 54; 63; 89; 133; 140; 160; 186; 63; 81; 0; 38; 44; 67; 87; 108; 161;
  182; 193; 155; 82; 0; 94; 122; 127; 157; 166; 193; 206; 231; 182; 83; 200; 83; 227; 83; 215; 86; 31; 87; 235; 88;
  2; 89; 10; 89; 21; 89; 39; 89; 115; 89; 80; 91; 128; 91; 248; 91; 15; 92; 34; 92; 56; 92; 110; 92; 113; 92; 219;
  93; 229; 93; 241; 93; 254; 93; 114; 94; 122; 94; 127; 94; 244; 94; 254; 94; 11; 95; 19; 95; 80; 95; 97; 95; 115;
  95; 195; 95; 8; 98; 54; 98; 75; 98; 47; 101; 52; 101; 135; 101; 151; 101; 164; 101; 185; 101; 224; 101; 229; 101;
  240; 102; 8; 103; 40; 103; 32; 107; 98; 107; 121; 107; 179; 107; 203; 107; 212; 107; 219; 107; 15; 108; 20; 108;
  52; 108; 107; 112; 42; 114; 54; 114; 59; 114; 63; 114; 71; 114; 89; 114; 91; 114; 172; 114; 132; 115; 137; 115;
  220; 116; 230; 116; 24; 117; 31; 117; 40; 117; 48; 117; 139; 117; 146; 117; 118; 118; 125; 118; 174; 118; 191; 118;
  238; 118; 219; 119; 226; 119; 243; 119; 58; 121; 184; 121; 190; 121; 116; 122; 203; 122; 249; 122; 115; 124; 248;
  124; 54; 127; 81; 127; 138; 127; 189; 127; 1; 128; 12; 128; 18; 128; 51; 128; 127; 128; 137; 128; 227; 129; 0; 7;
  16; 25; 41; 56; 60; 139; 143; 149; 77; 134; 107; 134; 64; 136; 76; 136; 99; 136; 126; 137; 139; 137; 210; 137; 0;
  138; 55; 140; 70; 140; 85; 140; 120; 140; 157; 140; 100; 141; 112; 141; 179; 141; 171; 142; 202; 142; 155; 143;
  176; 143; 181; 143; 145; 144; 73; 145; 198; 145; 204; 145; 209; 145; 119; 149; 128; 149; 28; 150; 182; 150; 185;
  150; 232; 150; 81; 151; 94; 151; 98; 151; 105; 151; 203; 151; 237; 151; 243; 151; 1; 152; 168; 152; 219; 152; 223;
  152; 150; 153; 153; 153; 172; 153; 168; 154; 216; 154; 223; 154; 37; 155; 47; 155; 50; 155; 60; 155; 90; 155; 229;
  156; 117; 158; 127; 158; 165; 158; 0; 22; 30; 40; 44; 84; 88; 105; 110; 123; 150; 165; 173; 232; 247; 251; 18; 48;
  0; 0; 65; 83; 68; 83; 69; 83; 75; 48; 153; 48; 0; 0; 0; 0; 77; 48; 153; 48; 0; 0; 0; 0; 79; 48; 153; 48; 0; 0; 0;
  0; 81; 48; 153; 48; 0; 0; 0; 0; 83; 48; 153; 48; 0; 0; 0; 0; 85; 48; 153; 48; 0; 0; 0; 0; 87; 48; 153; 48; 0; 0; 0;
  0; 89; 48; 153; 48; 0; 0; 0; 0; 91; 48; 153; 48; 0; 0; 0; 0; 93; 48; 153; 48; 0; 0; 0; 0; 95; 48; 153; 48; 0; 0; 0;
  0; 97; 48; 153; 48; 100; 48; 153; 48; 0; 0; 0; 0; 102; 48; 153; 48; 0; 0; 0; 0; 104; 48; 153; 48; 111; 48; 153; 48;
  114; 48; 153; 48; 117; 48; 153; 48; 120; 48; 153; 48; 123; 48; 153; 48; 70; 48; 153; 48; 32; 0; 153; 48; 157; 48;
  153; 48; 136; 48; 138; 48; 171; 48; 153; 48; 0; 0; 0; 0; 173; 48; 153; 48; 0; 0; 0; 0; 175; 48; 153; 48; 0; 0; 0;
  0; 177; 48; 153; 48; 0; 0; 0; 0; 179; 48; 153; 48; 0; 0; 0; 0; 181; 48; 153; 48; 0; 0; 0; 0; 183; 48; 153; 48; 0;
  0; 0; 0; 185; 48; 153; 48; 0; 0; 0; 0; 187; 48; 153; 48; 0; 0; 0; 0; 189; 48; 153; 48; 0; 0; 0; 0; 191; 48; 153;
  48; 0; 0; 0; 0; 193; 48; 153; 48; 196; 48; 153; 48; 0; 0; 0; 0; 198; 48; 153; 48; 0; 0; 0; 0; 200; 48; 153; 48;
  207; 48; 153; 48; 210; 48; 153; 48; 213; 48; 153; 48; 216; 48; 153; 48; 219; 48; 153; 48; 166; 48; 153; 48; 239;
  48; 153; 48; 253; 48; 153; 48; 179; 48; 200; 48; 0; 17; 0; 1; 170; 2; 172; 173; 3; 4; 5; 176; 177; 178; 179; 180;
  181; 26; 6; 7; 8; 33; 9; 17; 97; 17; 20; 17; 76; 0; 1; 179; 180; 184; 186; 191; 195; 197; 8; 201; 203; 9; 10; 12;
  14; 15; 19; 21; 23; 24; 25; 26; 27; 30; 34; 44; 51; 56; 221; 222; 67; 68; 69; 112; 113; 116; 125; 126; 128; 138;
  141; 0; 78; 140; 78; 9; 78; 219; 86; 10; 78; 45; 78; 11; 78; 50; 117; 89; 78; 25; 78; 1; 78; 41; 89; 48; 87; 186;
  78; 40; 0; 41; 0; 0; 17; 2; 17; 3; 17; 5; 17; 6; 17; 7; 17; 9; 17; 11; 17; 12; 17; 14; 17; 15; 17; 16; 17; 17; 17;
  18; 17; 40; 0; 0; 17; 97; 17; 41; 0; 40; 0; 2; 17; 97; 17; 41; 0; 40; 0; 5; 17; 97; 17; 41; 0; 40; 0; 9; 17; 97;
  17; 41; 0; 40; 0; 11; 17; 97; 17; 41; 0; 40; 0; 14; 17; 97; 17; 41; 0; 40; 0; 12; 17; 110; 17; 41; 0; 40; 0; 11;
  17; 105; 17; 12; 17; 101; 17; 171; 17; 41; 0; 40; 0; 11; 17; 105; 17; 18; 17; 110; 17; 41; 0; 40; 0; 41; 0; 0; 78;
  140; 78; 9; 78; 219; 86; 148; 78; 109; 81; 3; 78; 107; 81; 93; 78; 65; 83; 8; 103; 107; 112; 52; 108; 40; 103; 209;
  145; 31; 87; 229; 101; 42; 104; 9; 103; 62; 121; 13; 84; 121; 114; 161; 140; 93; 121; 180; 82; 227; 78; 124; 84;
  102; 91; 227; 118; 1; 79; 199; 140; 84; 83; 109; 121; 17; 79; 234; 129; 243; 129; 79; 85; 124; 94; 135; 101; 143;
  123; 80; 84; 69; 50; 0; 49; 0; 51; 0; 48; 0; 0; 17; 0; 2; 3; 5; 6; 7; 9; 11; 12; 14; 15; 16; 17; 18; 0; 17; 0; 97;
  2; 97; 3; 97; 5; 97; 6; 97; 7; 97; 9; 97; 11; 97; 12; 97; 14; 17; 97; 17; 0; 17; 14; 97; 183; 0; 105; 11; 17; 1;
  99; 0; 105; 11; 17; 110; 17; 0; 78; 140; 78; 9; 78; 219; 86; 148; 78; 109; 81; 3; 78; 107; 81; 93; 78; 65; 83; 8;
  103; 107; 112; 52; 108; 40; 103; 209; 145; 31; 87; 229; 101; 42; 104; 9; 103; 62; 121; 13; 84; 121; 114; 161; 140;
  93; 121; 180; 82; 216; 121; 55; 117; 115; 89; 105; 144; 42; 81; 112; 83; 232; 108; 5; 152; 17; 79; 153; 81; 99;
  107; 10; 78; 45; 78; 11; 78; 230; 93; 243; 83; 59; 83; 151; 91; 102; 91; 227; 118; 1; 79; 199; 140; 84; 83; 28; 89;
  51; 0; 54; 0; 52; 0; 48; 0; 53; 48; 49; 0; 8; 103; 49; 0; 48; 0; 8; 103; 72; 103; 101; 114; 103; 101; 86; 76; 84;
  68; 162; 48; 0; 2; 4; 6; 8; 9; 11; 13; 15; 17; 19; 21; 23; 25; 27; 29; 31; 34; 36; 38; 40; 41; 42; 43; 44; 45; 48;
  51; 54; 57; 60; 61; 62; 63; 64; 66; 68; 70; 71; 72; 73; 74; 75; 77; 78; 79; 80; 228; 78; 140; 84; 161; 48; 1; 48;
  91; 39; 1; 74; 52; 0; 1; 82; 57; 1; 162; 48; 0; 90; 73; 164; 48; 0; 39; 79; 12; 164; 48; 0; 79; 29; 2; 5; 79; 168;
  48; 0; 17; 7; 84; 33; 168; 48; 0; 84; 3; 84; 164; 48; 6; 79; 21; 6; 88; 60; 7; 0; 70; 171; 48; 0; 62; 24; 29; 0;
  66; 63; 81; 172; 48; 0; 65; 71; 0; 71; 50; 174; 48; 172; 48; 174; 48; 0; 29; 78; 173; 48; 0; 56; 61; 79; 1; 62; 19;
  79; 173; 48; 237; 48; 173; 48; 0; 64; 3; 60; 51; 173; 48; 0; 64; 52; 79; 27; 62; 173; 48; 0; 64; 66; 22; 27; 176;
  48; 0; 57; 48; 164; 48; 12; 69; 60; 36; 79; 11; 71; 24; 0; 73; 175; 48; 0; 62; 77; 30; 177; 48; 0; 75; 8; 2; 58;
  25; 2; 75; 44; 164; 48; 17; 0; 11; 71; 181; 48; 0; 62; 12; 71; 43; 176; 48; 7; 58; 67; 0; 185; 48; 2; 58; 8; 2; 58;
  15; 7; 67; 0; 183; 48; 16; 0; 18; 52; 17; 60; 19; 23; 164; 48; 42; 31; 36; 43; 0; 32; 187; 48; 22; 65; 0; 56; 13;
  196; 48; 13; 56; 0; 208; 48; 0; 44; 28; 27; 162; 48; 50; 0; 23; 38; 73; 175; 48; 37; 0; 60; 179; 48; 33; 0; 32; 56;
  161; 48; 52; 0; 72; 34; 40; 163; 48; 50; 0; 89; 37; 167; 48; 47; 28; 16; 0; 68; 213; 48; 0; 20; 30; 175; 48; 41; 0;
  16; 77; 60; 218; 48; 189; 48; 184; 48; 34; 19; 26; 32; 51; 12; 34; 59; 1; 34; 68; 0; 33; 68; 7; 164; 48; 57; 0; 79;
  36; 200; 48; 20; 35; 0; 219; 48; 243; 48; 201; 48; 20; 42; 0; 18; 51; 34; 18; 51; 42; 164; 48; 58; 0; 11; 73; 164;
  48; 58; 0; 71; 58; 31; 43; 58; 71; 11; 183; 48; 39; 60; 0; 48; 60; 175; 48; 48; 0; 62; 68; 223; 48; 234; 48; 208;
  48; 15; 26; 0; 44; 27; 225; 48; 172; 48; 172; 48; 53; 0; 28; 71; 53; 80; 28; 63; 162; 48; 66; 90; 39; 66; 90; 73;
  68; 0; 81; 195; 48; 39; 0; 5; 40; 234; 48; 233; 48; 212; 48; 23; 0; 40; 214; 48; 21; 38; 0; 21; 236; 48; 224; 48;
  178; 48; 58; 65; 22; 0; 65; 195; 48; 44; 0; 5; 48; 0; 185; 112; 49; 0; 48; 0; 185; 112; 50; 0; 48; 0; 185; 112;
  104; 80; 97; 100; 97; 65; 85; 98; 97; 114; 111; 86; 112; 99; 100; 109; 100; 0; 109; 0; 178; 0; 73; 0; 85; 0; 115;
  94; 16; 98; 45; 102; 140; 84; 39; 89; 99; 107; 14; 102; 187; 108; 42; 104; 15; 95; 26; 79; 62; 121; 112; 0; 65;
  110; 0; 65; 188; 3; 65; 109; 0; 65; 107; 0; 65; 75; 0; 66; 77; 0; 66; 71; 0; 66; 99; 97; 108; 107; 99; 97; 108;
  112; 0; 70; 110; 0; 70; 188; 3; 70; 188; 3; 103; 109; 0; 103; 107; 0; 103; 72; 0; 122; 107; 72; 122; 77; 72; 122;
  71; 72; 122; 84; 72; 122; 188; 3; 19; 33; 109; 0; 19; 33; 100; 0; 19; 33; 107; 0; 19; 33; 102; 0; 109; 110; 0; 109;
  188; 3; 109; 109; 0; 109; 99; 0; 109; 107; 0; 109; 99; 0; 10; 10; 79; 0; 10; 79; 109; 0; 178; 0; 99; 0; 8; 10; 79;
  10; 10; 80; 0; 10; 80; 109; 0; 179; 0; 107; 0; 109; 0; 179; 0; 109; 0; 21; 34; 115; 0; 109; 0; 21; 34; 115; 0; 178;
  0; 80; 97; 107; 80; 97; 77; 80; 97; 71; 80; 97; 114; 97; 100; 114; 97; 100; 209; 115; 114; 0; 97; 0; 100; 0; 21;
  34; 115; 0; 178; 0; 112; 0; 115; 110; 0; 115; 188; 3; 115; 109; 0; 115; 112; 0; 86; 110; 0; 86; 188; 3; 86; 109; 0;
  86; 107; 0; 86; 77; 0; 86; 112; 0; 87; 110; 0; 87; 188; 3; 87; 109; 0; 87; 107; 0; 87; 77; 0; 87; 107; 0; 169; 3;
  77; 0; 169; 3; 97; 46; 109; 46; 66; 113; 99; 99; 99; 100; 67; 209; 107; 103; 67; 111; 46; 100; 66; 71; 121; 104;
  97; 72; 80; 105; 110; 75; 75; 75; 77; 107; 116; 108; 109; 108; 110; 108; 111; 103; 108; 120; 109; 98; 109; 105;
  108; 109; 111; 108; 80; 72; 112; 46; 109; 46; 80; 80; 77; 80; 82; 115; 114; 83; 118; 87; 98; 86; 209; 109; 65; 209;
  109; 49; 0; 229; 101; 49; 0; 48; 0; 229; 101; 50; 0; 48; 0; 229; 101; 51; 0; 48; 0; 229; 101; 103; 97; 108; 74; 4;
  76; 4; 83; 67; 70; 81; 38; 1; 83; 1; 39; 167; 55; 171; 107; 2; 82; 171; 72; 140; 244; 102; 202; 142; 200; 140; 209;
  110; 50; 78; 229; 83; 156; 159; 156; 159; 81; 89; 209; 145; 135; 85; 72; 89; 246; 97; 105; 118; 133; 127; 63; 134;
  186; 135; 248; 136; 143; 144; 2; 106; 27; 109; 217; 112; 222; 115; 61; 132; 106; 145; 241; 153; 130; 78; 117; 83;
  4; 107; 27; 114; 45; 134; 30; 158; 80; 93; 235; 111; 205; 133; 100; 137; 201; 98; 216; 129; 31; 136; 202; 94; 23;
  103; 106; 109; 252; 114; 206; 144; 134; 79; 183; 81; 222; 82; 196; 100; 211; 106; 16; 114; 231; 118; 1; 128; 6;
  134; 92; 134; 239; 141; 50; 151; 111; 155; 250; 157; 140; 120; 127; 121; 160; 125; 201; 131; 4; 147; 127; 158; 214;
  138; 223; 88; 4; 95; 96; 124; 126; 128; 98; 114; 202; 120; 194; 140; 247; 150; 216; 88; 98; 92; 19; 106; 218; 109;
  15; 111; 47; 125; 55; 126; 75; 150; 210; 82; 139; 128; 220; 81; 204; 81; 28; 122; 190; 125; 241; 131; 117; 150;
  128; 139; 207; 98; 2; 106; 254; 138; 57; 78; 231; 91; 18; 96; 135; 115; 112; 117; 23; 83; 251; 120; 191; 79; 169;
  95; 13; 78; 204; 108; 120; 101; 34; 125; 195; 83; 94; 88; 1; 119; 73; 132; 170; 138; 186; 107; 176; 143; 136; 108;
  254; 98; 229; 130; 160; 99; 101; 117; 174; 78; 105; 81; 201; 81; 129; 104; 231; 124; 111; 130; 210; 138; 207; 145;
  245; 82; 66; 84; 115; 89; 236; 94; 197; 101; 254; 111; 42; 121; 173; 149; 106; 154; 151; 158; 206; 158; 155; 82;
  198; 102; 119; 107; 98; 143; 116; 94; 144; 97; 0; 98; 154; 100; 35; 111; 73; 113; 137; 116; 202; 121; 244; 125;
  111; 128; 38; 143; 238; 132; 35; 144; 74; 147; 23; 82; 163; 82; 189; 84; 200; 112; 194; 136; 170; 138; 201; 94;
  245; 95; 123; 99; 174; 107; 62; 124; 117; 115; 228; 78; 249; 86; 231; 91; 186; 93; 28; 96; 178; 115; 105; 116; 154;
  127; 70; 128; 52; 146; 246; 150; 72; 151; 24; 152; 139; 79; 174; 121; 180; 145; 184; 150; 225; 96; 134; 78; 218;
  80; 238; 91; 63; 92; 153; 101; 2; 106; 206; 113; 66; 118; 252; 132; 124; 144; 141; 159; 136; 102; 46; 150; 137; 82;
  123; 103; 243; 103; 65; 109; 156; 110; 9; 116; 89; 117; 107; 120; 16; 125; 94; 152; 109; 81; 46; 98; 120; 150; 43;
  80; 25; 93; 234; 109; 42; 143; 139; 95; 68; 97; 23; 104; 135; 115; 134; 150; 41; 82; 15; 84; 101; 92; 19; 102; 78;
  103; 168; 104; 229; 108; 6; 116; 226; 117; 121; 127; 207; 136; 225; 136; 204; 145; 226; 150; 63; 83; 186; 110; 29;
  84; 208; 113; 152; 116; 250; 133; 163; 150; 87; 156; 159; 158; 151; 103; 203; 109; 232; 129; 203; 122; 32; 123;
  146; 124; 192; 114; 153; 112; 88; 139; 192; 78; 54; 131; 58; 82; 7; 82; 166; 94; 211; 98; 214; 124; 133; 91; 30;
  109; 180; 102; 59; 143; 76; 136; 77; 150; 139; 137; 211; 94; 64; 81; 192; 85; 0; 0; 0; 0; 90; 88; 0; 0; 116; 102;
  0; 0; 0; 0; 222; 81; 42; 115; 202; 118; 60; 121; 94; 121; 101; 121; 143; 121; 86; 151; 190; 124; 189; 127; 0; 0;
  18; 134; 0; 0; 248; 138; 0; 0; 0; 0; 56; 144; 253; 144; 239; 152; 252; 152; 40; 153; 180; 157; 222; 144; 183; 150;
  174; 79; 231; 80; 77; 81; 201; 82; 228; 82; 81; 83; 157; 85; 6; 86; 104; 86; 64; 88; 168; 88; 100; 92; 110; 92;
  148; 96; 104; 97; 142; 97; 242; 97; 79; 101; 226; 101; 145; 102; 133; 104; 119; 109; 26; 110; 34; 111; 110; 113;
  43; 114; 34; 116; 145; 120; 62; 121; 73; 121; 72; 121; 80; 121; 86; 121; 93; 121; 141; 121; 142; 121; 64; 122; 129;
  122; 192; 123; 244; 125; 9; 126; 65; 126; 114; 127; 5; 128; 237; 129; 121; 130; 121; 130; 87; 132; 16; 137; 150;
  137; 1; 139; 57; 139; 211; 140; 8; 141; 182; 143; 56; 144; 227; 150; 255; 151; 59; 152; 117; 96; 238; 66; 24; 130;
  2; 38; 78; 181; 81; 104; 81; 128; 79; 69; 81; 128; 81; 199; 82; 250; 82; 157; 85; 85; 85; 153; 85; 226; 85; 90; 88;
  179; 88; 68; 89; 84; 89; 98; 90; 40; 91; 210; 94; 217; 94; 105; 95; 173; 95; 216; 96; 78; 97; 8; 97; 142; 97; 96;
  97; 242; 97; 52; 98; 196; 99; 28; 100; 82; 100; 86; 101; 116; 102; 23; 103; 27; 103; 86; 103; 121; 107; 186; 107;
  65; 109; 219; 110; 203; 110; 34; 111; 30; 112; 110; 113; 167; 119; 53; 114; 175; 114; 42; 115; 113; 116; 6; 117;
  59; 117; 29; 118; 31; 118; 202; 118; 219; 118; 244; 118; 74; 119; 64; 119; 204; 120; 177; 122; 192; 123; 123; 124;
  91; 125; 244; 125; 62; 127; 5; 128; 82; 131; 239; 131; 121; 135; 65; 137; 134; 137; 150; 137; 191; 138; 248; 138;
  203; 138; 1; 139; 254; 138; 237; 138; 57; 139; 138; 139; 8; 141; 56; 143; 114; 144; 153; 145; 118; 146; 124; 150;
  227; 150; 86; 151; 219; 151; 255; 151; 11; 152; 59; 152; 18; 155; 156; 159; 74; 40; 68; 40; 213; 51; 157; 59; 24;
  64; 57; 64; 73; 82; 208; 92; 211; 126; 67; 159; 142; 159; 42; 160; 2; 102; 102; 102; 105; 102; 108; 102; 102; 105;
  102; 102; 108; 127; 1; 116; 115; 0; 116; 101; 5; 15; 17; 15; 0; 15; 6; 25; 17; 15; 8; 217; 5; 180; 5; 0; 0; 0; 0;
  242; 5; 183; 5; 208; 5; 18; 0; 3; 4; 11; 12; 13; 24; 26; 233; 5; 193; 5; 233; 5; 194; 5; 73; 251; 193; 5; 73; 251;
  194; 5; 208; 5; 183; 5; 208; 5; 184; 5; 208; 5; 188; 5; 216; 5; 188; 5; 222; 5; 188; 5; 224; 5; 188; 5; 227; 5;
  188; 5; 185; 5; 45; 3; 46; 3; 47; 3; 48; 3; 49; 3; 28; 0; 24; 6; 34; 6; 43; 6; 208; 5; 220; 5; 113; 6; 0; 0; 10;
  10; 10; 10; 13; 13; 13; 13; 15; 15; 15; 15; 9; 9; 9; 9; 14; 14; 14; 14; 8; 8; 8; 8; 51; 51; 51; 51; 53; 53; 53; 53;
  19; 19; 19; 19; 18; 18; 18; 18; 21; 21; 21; 21; 22; 22; 22; 22; 28; 28; 27; 27; 29; 29; 23; 23; 39; 39; 32; 32; 56;
  56; 56; 56; 62; 62; 62; 62; 66; 66; 66; 66; 64; 64; 64; 64; 73; 73; 74; 74; 74; 74; 79; 79; 80; 80; 80; 80; 77; 77;
  77; 77; 97; 97; 98; 98; 73; 6; 100; 100; 100; 100; 126; 126; 125; 125; 127; 127; 46; 130; 130; 124; 124; 128; 128;
  135; 135; 135; 135; 0; 0; 38; 6; 0; 1; 0; 1; 0; 175; 0; 175; 0; 34; 0; 34; 0; 161; 0; 161; 0; 160; 0; 160; 0; 162;
  0; 162; 0; 170; 0; 170; 0; 170; 0; 35; 0; 35; 0; 35; 204; 6; 0; 0; 0; 0; 38; 6; 0; 6; 0; 7; 0; 31; 0; 35; 0; 36; 2;
  6; 2; 7; 2; 8; 2; 31; 2; 35; 2; 36; 4; 6; 4; 7; 4; 8; 4; 31; 4; 35; 4; 36; 5; 6; 5; 31; 5; 35; 5; 36; 6; 7; 6; 31;
  7; 6; 7; 31; 8; 6; 8; 7; 8; 31; 13; 6; 13; 7; 13; 8; 13; 31; 15; 7; 15; 31; 16; 6; 16; 7; 16; 8; 16; 31; 17; 7; 17;
  31; 18; 31; 19; 6; 19; 31; 20; 6; 20; 31; 27; 6; 27; 7; 27; 8; 27; 31; 27; 35; 27; 36; 28; 7; 28; 31; 28; 35; 28;
  36; 29; 1; 29; 6; 29; 7; 29; 8; 29; 30; 29; 31; 29; 35; 29; 36; 30; 6; 30; 7; 30; 8; 30; 31; 30; 35; 30; 36; 31; 6;
  31; 7; 31; 8; 31; 31; 31; 35; 31; 36; 32; 6; 32; 7; 32; 8; 32; 31; 32; 35; 32; 36; 33; 6; 33; 31; 33; 35; 33; 36;
  36; 6; 36; 7; 36; 8; 36; 31; 36; 35; 36; 36; 10; 74; 11; 74; 35; 74; 32; 0; 76; 6; 81; 6; 81; 6; 255; 0; 31; 38; 6;
  0; 11; 0; 12; 0; 31; 0; 32; 0; 35; 0; 36; 2; 11; 2; 12; 2; 31; 2; 32; 2; 35; 2; 36; 4; 11; 4; 12; 4; 31; 38; 6; 4;
  32; 4; 35; 4; 36; 5; 11; 5; 12; 5; 31; 5; 32; 5; 35; 5; 36; 27; 35; 27; 36; 28; 35; 28; 36; 29; 1; 29; 30; 29; 31;
  29; 35; 29; 36; 30; 31; 30; 35; 30; 36; 31; 1; 31; 31; 32; 11; 32; 12; 32; 31; 32; 32; 32; 35; 32; 36; 35; 74; 36;
  11; 36; 12; 36; 31; 36; 32; 36; 35; 36; 36; 0; 6; 0; 7; 0; 8; 0; 31; 0; 33; 2; 6; 2; 7; 2; 8; 2; 31; 2; 33; 4; 6;
  4; 7; 4; 8; 4; 31; 4; 33; 5; 31; 6; 7; 6; 31; 7; 6; 7; 31; 8; 6; 8; 31; 13; 6; 13; 7; 13; 8; 13; 31; 15; 7; 15; 8;
  15; 31; 16; 6; 16; 7; 16; 8; 16; 31; 17; 7; 18; 31; 19; 6; 19; 31; 20; 6; 20; 31; 27; 6; 27; 7; 27; 8; 27; 31; 28;
  7; 28; 31; 29; 6; 29; 7; 29; 8; 29; 30; 29; 31; 30; 6; 30; 7; 30; 8; 30; 31; 30; 33; 31; 6; 31; 7; 31; 8; 31; 31;
  32; 6; 32; 7; 32; 8; 32; 31; 32; 33; 33; 6; 33; 31; 33; 74; 36; 6; 36; 7; 36; 8; 36; 31; 36; 33; 0; 31; 0; 33; 2;
  31; 2; 33; 4; 31; 4; 33; 5; 31; 5; 33; 13; 31; 13; 33; 14; 31; 14; 33; 29; 30; 29; 31; 30; 31; 32; 31; 32; 33; 36;
  31; 36; 33; 64; 6; 78; 6; 81; 6; 39; 6; 16; 34; 16; 35; 18; 34; 18; 35; 19; 34; 19; 35; 12; 34; 12; 35; 13; 34; 13;
  35; 6; 34; 6; 35; 5; 34; 5; 35; 7; 34; 7; 35; 14; 34; 14; 35; 15; 34; 15; 35; 13; 5; 13; 6; 13; 7; 13; 30; 13; 10;
  12; 10; 14; 10; 15; 10; 16; 34; 16; 35; 18; 34; 18; 35; 19; 34; 19; 35; 12; 34; 12; 35; 13; 34; 13; 35; 6; 34; 6;
  35; 5; 34; 5; 35; 7; 34; 7; 35; 14; 34; 14; 35; 15; 34; 15; 35; 13; 5; 13; 6; 13; 7; 13; 30; 13; 10; 12; 10; 14;
  10; 15; 10; 13; 5; 13; 6; 13; 7; 13; 30; 12; 32; 13; 32; 16; 30; 12; 5; 12; 6; 12; 7; 13; 5; 13; 6; 13; 7; 16; 30;
  17; 30; 0; 36; 0; 36; 42; 6; 0; 2; 27; 0; 3; 2; 0; 3; 2; 0; 3; 27; 0; 4; 27; 0; 27; 2; 0; 27; 3; 0; 27; 4; 2; 27;
  3; 2; 27; 3; 3; 27; 32; 3; 27; 31; 9; 3; 2; 9; 2; 3; 9; 2; 31; 9; 27; 3; 9; 27; 3; 9; 27; 2; 9; 27; 27; 9; 27; 27;
  11; 3; 3; 11; 3; 3; 11; 27; 27; 10; 3; 27; 10; 3; 27; 10; 2; 32; 10; 27; 4; 10; 27; 4; 10; 27; 27; 10; 27; 27; 12;
  3; 31; 12; 4; 27; 12; 4; 27; 13; 27; 3; 13; 27; 3; 13; 27; 27; 13; 27; 32; 15; 2; 27; 15; 27; 27; 15; 27; 27; 15;
  27; 31; 16; 27; 27; 16; 27; 32; 16; 27; 31; 23; 4; 27; 23; 4; 27; 24; 27; 3; 24; 27; 27; 26; 3; 27; 26; 3; 32; 26;
  3; 31; 26; 2; 2; 26; 2; 2; 26; 4; 27; 26; 4; 27; 26; 27; 3; 26; 27; 3; 27; 3; 2; 27; 3; 27; 27; 3; 32; 27; 2; 3;
  27; 2; 27; 27; 4; 2; 27; 4; 27; 40; 6; 29; 4; 6; 31; 29; 4; 31; 29; 29; 30; 5; 29; 30; 5; 33; 30; 4; 29; 30; 4; 29;
  30; 4; 33; 30; 29; 34; 30; 29; 33; 34; 29; 29; 34; 29; 29; 0; 6; 34; 2; 4; 34; 2; 4; 33; 2; 6; 34; 2; 6; 33; 2; 29;
  34; 2; 29; 33; 4; 29; 34; 4; 5; 33; 4; 29; 33; 11; 6; 33; 13; 5; 34; 12; 5; 34; 14; 5; 34; 28; 4; 34; 28; 29; 34;
  34; 5; 34; 34; 4; 34; 34; 29; 34; 29; 29; 34; 26; 29; 34; 30; 5; 34; 26; 29; 5; 28; 5; 29; 17; 29; 34; 27; 29; 34;
  30; 4; 5; 29; 6; 34; 28; 4; 29; 27; 29; 29; 28; 4; 29; 30; 4; 5; 4; 5; 34; 5; 4; 34; 29; 4; 34; 25; 29; 34; 0; 5;
  34; 27; 29; 29; 17; 4; 29; 13; 29; 29; 11; 6; 34; 30; 4; 34; 53; 6; 0; 15; 157; 13; 15; 157; 39; 6; 0; 29; 29; 32;
  0; 28; 1; 10; 30; 6; 30; 8; 14; 29; 18; 30; 10; 12; 33; 29; 18; 29; 35; 32; 33; 12; 29; 30; 53; 6; 0; 15; 20; 39;
  6; 14; 29; 34; 255; 0; 29; 29; 32; 255; 18; 29; 35; 32; 255; 33; 12; 29; 30; 39; 6; 5; 29; 255; 5; 29; 0; 29; 32;
  39; 6; 10; 165; 0; 29; 44; 0; 1; 48; 2; 48; 58; 0; 59; 0; 33; 0; 63; 0; 22; 48; 23; 48; 38; 32; 19; 32; 18; 1; 0;
  95; 95; 40; 41; 123; 125; 8; 48; 12; 13; 8; 9; 2; 3; 0; 1; 4; 5; 6; 7; 91; 0; 93; 0; 62; 32; 62; 32; 62; 32; 62;
  32; 95; 0; 95; 0; 95; 0; 44; 0; 1; 48; 46; 0; 0; 0; 59; 0; 58; 0; 63; 0; 33; 0; 20; 32; 40; 0; 41; 0; 123; 0; 125;
  0; 20; 48; 21; 48; 35; 38; 42; 43; 45; 60; 62; 61; 0; 92; 36; 37; 64; 64; 6; 255; 11; 0; 11; 255; 12; 32; 0; 77; 6;
  64; 6; 255; 14; 0; 14; 255; 15; 0; 15; 255; 16; 0; 16; 255; 17; 0; 17; 255; 18; 0; 18; 33; 6; 0; 1; 1; 2; 2; 3; 3;
  4; 4; 5; 5; 5; 5; 6; 6; 7; 7; 7; 7; 8; 8; 9; 9; 9; 9; 10; 10; 10; 10; 11; 11; 11; 11; 12; 12; 12; 12; 13; 13; 13;
  13; 14; 14; 15; 15; 16; 16; 17; 17; 18; 18; 18; 18; 19; 19; 19; 19; 20; 20; 20; 20; 21; 21; 21; 21; 22; 22; 22; 22;
  23; 23; 23; 23; 24; 24; 24; 24; 25; 25; 25; 25; 32; 32; 32; 32; 33; 33; 33; 33; 34; 34; 34; 34; 35; 35; 35; 35; 36;
  36; 36; 36; 37; 37; 37; 37; 38; 38; 38; 38; 39; 39; 40; 40; 41; 41; 41; 41; 34; 6; 34; 0; 34; 0; 34; 1; 34; 1; 34;
  3; 34; 3; 34; 5; 34; 5; 33; 0; 133; 41; 1; 48; 1; 11; 12; 0; 250; 241; 160; 162; 164; 166; 168; 226; 228; 230; 194;
  251; 161; 163; 165; 167; 169; 170; 172; 174; 176; 178; 180; 182; 184; 186; 188; 190; 192; 195; 197; 199; 201; 202;
  203; 204; 205; 206; 209; 212; 215; 218; 221; 222; 223; 224; 225; 227; 229; 231; 232; 233; 234; 235; 236; 238; 242;
  152; 153; 49; 49; 79; 49; 85; 49; 91; 49; 97; 49; 162; 0; 163; 0; 172; 0; 175; 0; 166; 0; 165; 0; 169; 32; 0; 0; 2;
  37; 144; 33; 145; 33; 146; 33; 147; 33; 160; 37; 203; 37; 210; 5; 7; 3; 1; 218; 5; 7; 3; 1; 208; 2; 209; 2; 230; 0;
  153; 2; 83; 2; 0; 0; 163; 2; 102; 171; 165; 2; 164; 2; 86; 2; 87; 2; 145; 29; 88; 2; 94; 2; 169; 2; 100; 2; 98; 2;
  96; 2; 155; 2; 39; 1; 156; 2; 103; 2; 132; 2; 170; 2; 171; 2; 108; 2; 4; 223; 142; 167; 110; 2; 5; 223; 142; 2; 6;
  223; 248; 0; 118; 2; 119; 2; 113; 0; 122; 2; 8; 223; 125; 2; 126; 2; 128; 2; 168; 2; 166; 2; 103; 171; 167; 2; 136;
  2; 113; 44; 0; 0; 143; 2; 161; 2; 162; 2; 152; 2; 192; 1; 193; 1; 194; 1; 10; 223; 30; 223; 65; 4; 64; 0; 0; 0; 0;
  20; 153; 16; 186; 16; 0; 0; 0; 0; 155; 16; 186; 16; 5; 5; 165; 16; 186; 16; 5; 49; 17; 39; 17; 50; 17; 39; 17; 85;
  71; 19; 62; 19; 71; 19; 87; 19; 85; 130; 19; 201; 19; 0; 0; 0; 0; 132; 19; 187; 19; 5; 5; 139; 19; 194; 19; 5; 144;
  19; 201; 19; 5; 194; 19; 194; 19; 0; 0; 0; 0; 194; 19; 184; 19; 194; 19; 201; 19; 5; 85; 185; 20; 186; 20; 185; 20;
  176; 20; 0; 0; 0; 0; 185; 20; 189; 20; 85; 80; 184; 21; 175; 21; 185; 21; 175; 21; 85; 53; 25; 48; 25; 5; 30; 97;
  30; 97; 30; 97; 41; 97; 30; 97; 31; 97; 41; 97; 31; 97; 30; 97; 32; 97; 33; 97; 31; 97; 34; 97; 31; 97; 33; 97; 32;
  97; 85; 85; 85; 85; 103; 109; 103; 109; 99; 109; 103; 109; 105; 109; 103; 109; 85; 5; 65; 0; 48; 0; 87; 209; 101;
  209; 88; 209; 101; 209; 95; 209; 110; 209; 95; 209; 111; 209; 95; 209; 112; 209; 95; 209; 113; 209; 95; 209; 114;
  209; 85; 85; 85; 5; 185; 209; 101; 209; 186; 209; 101; 209; 187; 209; 110; 209; 188; 209; 110; 209; 187; 209; 111;
  209; 188; 209; 111; 209; 85; 85; 85; 65; 0; 97; 0; 65; 0; 97; 0; 105; 0; 65; 0; 97; 0; 65; 0; 67; 68; 0; 0; 71; 0;
  0; 74; 75; 0; 0; 78; 79; 80; 81; 0; 83; 84; 85; 86; 87; 88; 89; 90; 97; 98; 99; 100; 0; 102; 104; 0; 112; 0; 65; 0;
  97; 0; 65; 66; 0; 68; 69; 70; 71; 74; 0; 83; 0; 97; 0; 65; 66; 0; 68; 69; 70; 71; 0; 73; 74; 75; 76; 77; 0; 79; 83;
  0; 97; 0; 65; 0; 97; 0; 65; 0; 97; 0; 65; 0; 97; 0; 65; 0; 97; 0; 65; 0; 97; 0; 65; 0; 97; 0; 49; 1; 55; 2; 145; 3;
  163; 3; 177; 3; 209; 3; 36; 0; 31; 4; 32; 5; 145; 3; 163; 3; 177; 3; 209; 3; 36; 0; 31; 4; 32; 5; 145; 3; 163; 3;
  177; 3; 209; 3; 36; 0; 31; 4; 32; 5; 145; 3; 163; 3; 177; 3; 209; 3; 36; 0; 31; 4; 32; 5; 145; 3; 163; 3; 177; 3;
  209; 3; 36; 0; 31; 4; 32; 5; 11; 12; 48; 0; 48; 0; 48; 0; 48; 0; 48; 0; 48; 4; 58; 4; 62; 4; 75; 4; 77; 4; 78; 4;
  137; 166; 48; 4; 169; 38; 40; 185; 127; 159; 0; 1; 2; 3; 4; 5; 6; 7; 8; 10; 11; 14; 15; 17; 19; 20; 21; 22; 23; 24;
  26; 27; 97; 38; 37; 47; 123; 81; 166; 177; 4; 39; 6; 0; 1; 5; 8; 42; 6; 30; 8; 3; 13; 32; 25; 26; 27; 28; 9; 15;
  23; 11; 24; 7; 10; 0; 1; 4; 6; 12; 14; 16; 68; 144; 119; 69; 40; 6; 44; 6; 0; 0; 71; 6; 51; 6; 23; 16; 17; 18; 19;
  0; 6; 14; 2; 15; 52; 6; 42; 6; 43; 6; 46; 6; 0; 0; 54; 6; 0; 0; 58; 6; 45; 6; 0; 0; 74; 6; 0; 0; 68; 6; 0; 0; 70;
  6; 51; 6; 57; 6; 0; 0; 53; 6; 66; 6; 0; 0; 52; 6; 0; 0; 0; 0; 46; 6; 0; 0; 54; 6; 0; 0; 58; 6; 0; 0; 186; 6; 0; 0;
  111; 6; 0; 0; 40; 6; 44; 6; 0; 0; 71; 6; 0; 0; 0; 0; 45; 6; 55; 6; 74; 6; 67; 6; 0; 0; 69; 6; 70; 6; 51; 6; 57; 6;
  65; 6; 53; 6; 66; 6; 0; 0; 52; 6; 42; 6; 43; 6; 46; 6; 0; 0; 54; 6; 56; 6; 58; 6; 110; 6; 0; 0; 161; 6; 39; 6; 0;
  1; 5; 8; 32; 33; 11; 6; 16; 35; 42; 6; 26; 27; 28; 9; 15; 23; 11; 24; 7; 10; 0; 1; 4; 6; 12; 14; 16; 40; 6; 44; 6;
  47; 6; 0; 0; 72; 6; 50; 6; 45; 6; 55; 6; 74; 6; 42; 6; 26; 27; 28; 9; 15; 23; 11; 24; 7; 10; 0; 1; 4; 6; 12; 14;
  16; 48; 46; 48; 0; 44; 0; 40; 0; 65; 0; 41; 0; 20; 48; 83; 0; 21; 48; 67; 82; 67; 68; 87; 90; 65; 0; 72; 86; 77;
  86; 83; 68; 83; 83; 80; 80; 86; 87; 67; 77; 67; 77; 68; 77; 82; 68; 74; 75; 48; 48; 0; 104; 104; 75; 98; 87; 91;
  204; 83; 199; 48; 140; 78; 26; 89; 227; 137; 41; 89; 164; 78; 32; 102; 33; 113; 153; 101; 77; 82; 140; 95; 141; 81;
  176; 101; 29; 82; 66; 125; 31; 117; 169; 140; 240; 88; 57; 84; 20; 111; 149; 98; 85; 99; 0; 78; 9; 78; 74; 144;
  230; 93; 45; 78; 243; 83; 7; 99; 112; 141; 83; 98; 129; 121; 122; 122; 8; 84; 128; 110; 9; 103; 8; 103; 51; 117;
  114; 82; 182; 85; 77; 145; 20; 48; 21; 48; 44; 103; 9; 78; 140; 78; 137; 91; 185; 112; 83; 98; 215; 118; 221; 82;
  87; 101; 151; 95; 239; 83; 48; 0; 56; 78; 5; 0; 9; 34; 1; 96; 79; 174; 79; 187; 79; 2; 80; 122; 80; 153; 80; 231;
  80; 207; 80; 158; 52; 58; 6; 77; 81; 84; 81; 100; 81; 119; 81; 28; 5; 185; 52; 103; 81; 141; 81; 75; 5; 151; 81;
  164; 81; 204; 78; 172; 81; 181; 81; 223; 145; 245; 81; 3; 82; 223; 52; 59; 82; 70; 82; 114; 82; 119; 82; 21; 53; 2;
  0; 32; 128; 128; 0; 8; 0; 0; 199; 82; 0; 2; 29; 51; 62; 63; 80; 130; 138; 147; 172; 182; 184; 184; 184; 44; 10;
  112; 112; 202; 83; 223; 83; 99; 11; 235; 83; 241; 83; 6; 84; 158; 84; 56; 84; 72; 84; 104; 84; 162; 84; 246; 84;
  16; 85; 83; 85; 99; 85; 132; 85; 132; 85; 153; 85; 171; 85; 179; 85; 194; 85; 22; 87; 6; 86; 23; 87; 81; 86; 116;
  86; 7; 82; 238; 88; 206; 87; 244; 87; 13; 88; 139; 87; 50; 88; 49; 88; 172; 88; 228; 20; 242; 88; 247; 88; 6; 89;
  26; 89; 34; 89; 98; 89; 168; 22; 234; 22; 236; 89; 27; 90; 39; 90; 216; 89; 102; 90; 238; 54; 252; 54; 8; 91; 62;
  91; 62; 91; 200; 25; 195; 91; 216; 91; 231; 91; 243; 91; 24; 27; 255; 91; 6; 92; 83; 95; 34; 92; 129; 55; 96; 92;
  110; 92; 192; 92; 141; 92; 228; 29; 67; 93; 230; 29; 110; 93; 107; 93; 124; 93; 225; 93; 226; 93; 47; 56; 253; 93;
  40; 94; 61; 94; 105; 94; 98; 56; 131; 33; 124; 56; 176; 94; 179; 94; 182; 94; 202; 94; 146; 163; 254; 94; 49; 35;
  49; 35; 1; 130; 34; 95; 34; 95; 199; 56; 184; 50; 218; 97; 98; 95; 107; 95; 227; 56; 154; 95; 205; 95; 215; 95;
  249; 95; 129; 96; 58; 57; 28; 57; 148; 96; 212; 38; 199; 96; 2; 2; 0; 0; 0; 0; 0; 0; 0; 8; 0; 10; 0; 0; 2; 8; 0;
  128; 8; 0; 0; 8; 128; 40; 128; 2; 0; 0; 2; 72; 97; 0; 4; 6; 4; 50; 70; 106; 92; 103; 150; 170; 174; 200; 211; 93;
  98; 0; 84; 119; 243; 12; 43; 61; 99; 252; 98; 104; 99; 131; 99; 228; 99; 241; 43; 34; 100; 197; 99; 169; 99; 46;
  58; 105; 100; 126; 100; 157; 100; 119; 100; 108; 58; 79; 101; 108; 101; 10; 48; 227; 101; 248; 102; 73; 102; 25;
  59; 145; 102; 8; 59; 228; 58; 146; 81; 149; 81; 0; 103; 156; 102; 173; 128; 217; 67; 23; 103; 27; 103; 33; 103; 94;
  103; 83; 103; 195; 51; 73; 59; 250; 103; 133; 103; 82; 104; 133; 104; 109; 52; 142; 104; 31; 104; 20; 105; 157; 59;
  66; 105; 163; 105; 234; 105; 168; 106; 163; 54; 219; 106; 24; 60; 33; 107; 167; 56; 84; 107; 78; 60; 114; 107; 159;
  107; 186; 107; 187; 107; 141; 58; 11; 29; 250; 58; 78; 108; 188; 60; 191; 108; 205; 108; 103; 108; 22; 109; 62;
  109; 119; 109; 65; 109; 105; 109; 120; 109; 133; 109; 30; 61; 52; 109; 47; 110; 110; 110; 51; 61; 203; 110; 199;
  110; 209; 62; 249; 109; 110; 111; 94; 63; 142; 63; 198; 111; 57; 112; 30; 112; 27; 112; 150; 61; 74; 112; 125; 112;
  119; 112; 173; 112; 37; 5; 69; 113; 99; 66; 156; 113; 171; 67; 40; 114; 53; 114; 80; 114; 8; 70; 128; 114; 149;
  114; 53; 71; 2; 32; 0; 0; 32; 0; 0; 0; 0; 8; 128; 0; 0; 2; 2; 128; 138; 0; 0; 32; 0; 8; 10; 0; 128; 136; 128; 32;
  20; 72; 122; 115; 139; 115; 172; 62; 165; 115; 184; 62; 184; 62; 71; 116; 92; 116; 113; 116; 133; 116; 202; 116;
  27; 63; 36; 117; 54; 76; 62; 117; 146; 76; 112; 117; 159; 33; 16; 118; 161; 79; 184; 79; 68; 80; 252; 63; 8; 64;
  244; 118; 243; 80; 242; 80; 25; 81; 51; 81; 30; 119; 31; 119; 31; 119; 74; 119; 57; 64; 139; 119; 70; 64; 150; 64;
  29; 84; 78; 120; 140; 120; 204; 120; 227; 64; 38; 86; 86; 121; 154; 86; 197; 86; 143; 121; 235; 121; 47; 65; 64;
  122; 74; 122; 79; 122; 124; 89; 167; 90; 167; 90; 238; 122; 2; 66; 171; 91; 198; 123; 201; 123; 39; 66; 128; 92;
  210; 124; 160; 66; 232; 124; 227; 124; 0; 125; 134; 95; 99; 125; 1; 67; 199; 125; 2; 126; 69; 126; 52; 67; 40; 98;
  71; 98; 89; 67; 217; 98; 122; 127; 62; 99; 149; 127; 250; 127; 5; 128; 218; 100; 35; 101; 96; 128; 168; 101; 112;
  128; 95; 51; 213; 67; 178; 128; 3; 129; 11; 68; 62; 129; 181; 90; 167; 103; 181; 103; 147; 51; 156; 51; 1; 130; 4;
  130; 158; 143; 107; 68; 145; 130; 139; 130; 157; 130; 179; 82; 177; 130; 179; 130; 189; 130; 230; 130; 60; 107;
  229; 130; 29; 131; 99; 131; 173; 131; 35; 131; 189; 131; 231; 131; 87; 132; 83; 131; 202; 131; 204; 131; 220; 131;
  54; 108; 107; 109; 2; 0; 0; 32; 34; 42; 160; 10; 0; 32; 128; 40; 0; 168; 32; 32; 0; 2; 128; 34; 2; 138; 8; 0; 170;
  0; 0; 0; 2; 0; 0; 40; 213; 108; 43; 69; 241; 132; 243; 132; 22; 133; 202; 115; 100; 133; 44; 111; 93; 69; 97; 69;
  177; 111; 210; 112; 107; 69; 80; 134; 92; 134; 103; 134; 105; 134; 169; 134; 136; 134; 14; 135; 226; 134; 121; 135;
  40; 135; 107; 135; 134; 135; 215; 69; 225; 135; 1; 136; 249; 69; 96; 136; 99; 136; 103; 118; 215; 136; 222; 136;
  53; 70; 250; 136; 187; 52; 174; 120; 102; 121; 190; 70; 199; 70; 160; 138; 237; 138; 138; 139; 85; 140; 168; 124;
  171; 140; 193; 140; 27; 141; 119; 141; 47; 127; 4; 8; 203; 141; 188; 141; 240; 141; 222; 8; 212; 142; 56; 143; 210;
  133; 237; 133; 148; 144; 241; 144; 17; 145; 46; 135; 27; 145; 56; 146; 215; 146; 216; 146; 124; 146; 249; 147; 21;
  148; 250; 139; 139; 149; 149; 73; 183; 149; 119; 141; 230; 73; 195; 150; 178; 93; 35; 151; 69; 145; 26; 146; 110;
  74; 118; 74; 224; 151; 10; 148; 178; 74; 150; 148; 11; 152; 11; 152; 41; 152; 182; 149; 226; 152; 51; 75; 41; 153;
  167; 153; 194; 153; 254; 153; 206; 75; 48; 155; 18; 155; 64; 156; 253; 156; 206; 76; 237; 76; 103; 157; 206; 160;
  248; 76; 5; 161; 14; 162; 145; 162; 187; 158; 86; 77; 249; 158; 254; 158; 5; 159; 15; 159; 22; 159; 59; 159; 0;
  166; 2; 136; 160; 0; 0; 0; 0; 128; 0; 40; 0; 8; 160; 128; 160; 128; 0; 128; 128; 0; 10; 136; 128; 0; 128; 0; 32;
  42; 0; 128
].

Definition unicode_comp_table : list Z := [
  18945; 18880; 18946; 640; 641; 642; 643; 704; 706; 2560; 644; 9282; 645; 1984; 2432; 2434; 9280; 8832; 708; 8834;
  8836; 8838; 710; 712; 714; 716; 647; 8842; 718; 8844; 8848; 8850; 8846; 648; 649; 650; 9346; 768; 770; 772; 651;
  9344; 776; 2436; 2438; 9304; 2562; 774; 8856; 8858; 8862; 2304; 778; 8864; 780; 782; 2112; 784; 786; 8866; 8870;
  2496; 8868; 8872; 8874; 652; 653; 654; 832; 834; 836; 896; 655; 9358; 1986; 2440; 2442; 9360; 838; 8876; 1024;
  8880; 2114; 8882; 1026; 8884; 1088; 1092; 8886; 1090; 8898; 8896; 8900; 8902; 8904; 2368; 1216; 657; 8906; 1220;
  8908; 1218; 8912; 8910; 658; 659; 660; 661; 1344; 1346; 2568; 662; 9364; 1348; 1988; 2444; 2446; 1728; 9362; 2116;
  8968; 8970; 1408; 8972; 1412; 2448; 2450; 8974; 1410; 8978; 1414; 1416; 8980; 1420; 8982; 2456; 1418; 8990; 1424;
  8992; 2458; 1422; 8996; 8994; 665; 666; 667; 1472; 1474; 1476; 668; 9388; 1478; 1480; 1990; 2452; 2454; 1792; 9386;
  8998; 1482; 9002; 9000; 9024; 9026; 9028; 9030; 1484; 9034; 9032; 9036; 9038; 9040; 9400; 669; 1486; 9406; 2572;
  9042; 1536; 9404; 9402; 1600; 9044; 1602; 1604; 9046; 9048; 672; 673; 674; 675; 705; 707; 2561; 676; 9283; 677;
  1985; 2433; 2435; 9281; 8833; 709; 8835; 8837; 8839; 711; 713; 715; 717; 679; 8843; 719; 8845; 8849; 8851; 8847;
  680; 681; 682; 9347; 769; 771; 773; 683; 9345; 777; 2437; 2439; 9305; 2563; 775; 8857; 8859; 8863; 2305; 779; 8865;
  781; 783; 2113; 785; 787; 8867; 8871; 2497; 8869; 8873; 8875; 9088; 684; 685; 686; 833; 835; 837; 687; 9359; 1987;
  2441; 2443; 9361; 839; 8877; 1025; 2180; 8881; 2115; 8883; 1027; 8885; 1089; 1093; 8887; 1091; 8899; 8897; 8901;
  8903; 8905; 2369; 1217; 689; 8907; 1221; 8909; 1219; 8913; 8911; 690; 691; 692; 693; 1345; 1347; 2569; 694; 9365;
  1349; 1989; 2445; 2447; 1729; 9363; 2117; 8969; 8971; 1409; 8973; 1413; 2449; 2451; 8975; 1411; 8979; 1415; 1417;
  8981; 1421; 8983; 2457; 1419; 8991; 9089; 1425; 8993; 2459; 1423; 8997; 8995; 697; 698; 699; 1473; 1475; 1477; 700;
  9389; 1479; 1481; 1991; 2453; 2455; 1793; 9387; 8999; 1483; 9003; 9001; 9025; 9027; 9029; 9031; 1485; 9035; 9033;
  9090; 9037; 9039; 9041; 9401; 701; 1487; 9407; 2573; 9043; 703; 9405; 9091; 9403; 1601; 9045; 1603; 1605; 9047;
  9049; 12545; 3200; 11776; 9286; 9284; 9290; 9288; 2048; 2370; 2372; 2052; 8840; 9350; 9348; 9354; 9352; 8878; 9368;
  9366; 9372; 9370; 8960; 2566; 8962; 2564; 2374; 1998; 1994; 1992; 1996; 9287; 9285; 9291; 9289; 2049; 2371; 2373;
  2053; 8841; 9351; 9349; 9355; 9353; 8879; 9369; 9367; 9373; 9371; 8961; 2567; 8963; 2565; 2375; 1999; 1995; 1993;
  1997; 9296; 9294; 9300; 9298; 9297; 9295; 9301; 9299; 8852; 8854; 8853; 8855; 8964; 8966; 8965; 8967; 8984; 8985;
  8986; 8987; 9004; 9005; 9006; 9007; 9216; 9378; 9376; 9382; 9380; 9384; 9379; 9377; 9383; 9381; 9385; 9392; 9390;
  9396; 9394; 9398; 9393; 9391; 9397; 9395; 9399; 2178; 2176; 2177; 2050; 2051; 8860; 8861; 2570; 2571; 2179; 2880;
  11402; 3201; 11401; 11400; 9536; 9537; 11520; 11783; 3328; 9792; 9793; 11904; 3329; 9928; 9929; 12032; 12164; 3330;
  12163; 12162; 3392; 9944; 9945; 12678; 3332; 10048; 10049; 12544; 12422; 3334; 12421; 12420; 3393; 10304; 12800;
  3335; 10319; 10320; 12928; 11396; 11779; 10327; 3394; 11393; 11392; 9408; 9409; 11398; 11395; 10432; 3395; 9664;
  9665; 10560; 3396; 9920; 9921; 11781; 11778; 10688; 3397; 12037; 12036; 3456; 9936; 9937; 12160; 10816; 3458; 9952;
  9953; 12416; 12417; 10944; 3459; 12292; 12291; 3457; 10176; 10177; 12418; 11072; 3460; 10311; 10312; 12676; 12673;
  12038; 3336; 12161; 12293; 3398; 12419; 12674; 3584; 3585; 3904; 4480; 4482; 3843; 3840; 4544; 3841; 4416; 4610;
  4612; 3969; 4672; 4032; 4674; 3968; 4676; 4740; 3970; 4742; 4744; 4746; 4800; 4738; 4481; 4483; 4163; 4160; 4545;
  4161; 4417; 4611; 4613; 4289; 4673; 4096; 4675; 4288; 4677; 4741; 4290; 4743; 4745; 4747; 4801; 4739; 4224; 4352;
  4353; 4608; 4609; 4736; 4737; 4928; 4929; 4931; 4930; 4932; 5058; 5120; 5056; 5184; 5248; 5312; 5440; 5441; 5952;
  5888; 5953; 6080; 6144; 6146; 6145; 6208; 6272; 6400; 6336; 6337; 6401; 6464; 6466; 6465; 6528; 6592; 6594; 6593;
  7296; 7360; 7616; 8064; 8192; 8194; 8196; 8198; 8200; 8256; 8320; 8322; 8384; 8385; 8448; 8888; 8889; 8976; 8977;
  8988; 8989; 9292; 9302; 9293; 9303; 9356; 9357; 9374; 9375; 9472; 9474; 9476; 11200; 9473; 9475; 9477; 11201;
  11202; 11203; 11204; 11205; 11206; 11207; 9600; 9602; 9604; 11208; 9601; 9603; 9605; 11209; 11210; 11211; 11212;
  11213; 11214; 11215; 9728; 9730; 9729; 9731; 9856; 9858; 9857; 9859; 9922; 9924; 9926; 11264; 9923; 9925; 9927;
  11265; 11266; 11267; 11268; 11269; 11270; 11271; 9930; 9932; 9934; 11272; 9931; 9933; 9935; 11273; 11274; 11275;
  11276; 11277; 11278; 11279; 9938; 9940; 9942; 9939; 9941; 9943; 9946; 9948; 9950; 9947; 9949; 9951; 9984; 9986;
  9985; 9987; 10112; 10114; 10113; 10115; 10240; 10242; 10244; 10241; 10243; 10245; 10306; 10308; 10310; 10313;
  10315; 10317; 11328; 10314; 10316; 10318; 11329; 11330; 11331; 11332; 11333; 11334; 11335; 10321; 10323; 10325;
  11336; 10322; 10324; 10326; 11337; 11338; 11339; 11340; 11341; 11342; 11343; 11394; 11777; 12672; 11399; 12033;
  12034; 12035; 11782; 12677; 12288; 12289; 12290; 17984; 17985; 18048; 18112; 18114; 18113; 18176; 18240; 18304;
  18368; 18370; 18688; 18752; 18816; 18818; 18944; 18882; 18947; 18948; 19008; 19009; 19072; 19073; 19136; 19137;
  19392; 19393; 19200; 19201; 19264; 19265; 19394; 19395; 19328; 19329; 19330; 19331; 19456; 19457; 19458; 19459;
  22016; 21568; 21570; 21572; 21574; 21576; 21578; 21580; 21582; 21584; 21586; 21588; 21590; 21632; 21634; 21636;
  21696; 21697; 21760; 21761; 21824; 21825; 21888; 21889; 21952; 21953; 22144; 22720; 22272; 22274; 22276; 22278;
  22280; 22282; 22284; 22286; 22288; 22290; 22292; 22294; 22336; 22338; 22340; 22400; 22401; 22464; 22465; 22528;
  22529; 22592; 22593; 22656; 22657; 22784; 22785; 22786; 22787; 22848; 36544; 36608; 36800; 36802; 36864; 36928;
  36929; 36992; 36993; 37056; 37058; 37120; 37184; 37250; 37248; 37251; 37313; 37312; 37315; 37376; 37377; 37440;
  37504; 37506; 37508; 37505; 37509; 37511; 37510; 37507; 37569; 37568; 37570
].
