(* ===== verification/UnicodeNorm.v ===== *)
(** * Normalization (libunicode.c)

    Decomposition, composition and the combining classes that order the marks,
    up to [unicode_normalize].  [None] is a read or a write outside a table or an
    array, or an exhausted bound; the theorems exclude it for code points. *)
From S2P Require Import Prelude Cutils UnicodeCase UnicodeProp UnicodeNormData.

(** ** Decomposition *)
Definition UNICODE_DECOMP_LEN_MAX : nat := 18.

(** [DecompTypeEnum] *)
Definition DECOMP_TYPE_C1 : Z := 0.
Definition DECOMP_TYPE_L1 : Z := 1.
Definition DECOMP_TYPE_L7 : Z := 7.
Definition DECOMP_TYPE_LL1 : Z := 8.
Definition DECOMP_TYPE_LL2 : Z := 9.
Definition DECOMP_TYPE_S1 : Z := 10.
Definition DECOMP_TYPE_S5 : Z := 14.
Definition DECOMP_TYPE_I1 : Z := 15.
Definition DECOMP_TYPE_I2_0 : Z := 16.
Definition DECOMP_TYPE_I4_2 : Z := 21.
Definition DECOMP_TYPE_B1 : Z := 22.
Definition DECOMP_TYPE_B8 : Z := 29.
Definition DECOMP_TYPE_B18 : Z := 30.
Definition DECOMP_TYPE_LS2 : Z := 31.
Definition DECOMP_TYPE_PAT3 : Z := 32.
Definition DECOMP_TYPE_S2_UL : Z := 33.
Definition DECOMP_TYPE_LS2_UL : Z := 34.

Definition unicode_short_table : list Z := [0x2044; 0x2215].
Definition unicode_get_short_code (c : Z) : option Z :=
  if c <? 0x80 then Some c
  else if c <? 0x80 + 0x50 then Some (c - 0x80 + 0x300)
  else get unicode_short_table (c - 0x80 - 0x50).
Definition unicode_get_lower_simple (c : Z) : Z :=
  if (c <? 0x100) || (0x410 <=? c) && (c <=? 0x42f) then c + 0x20 else c + 1.

(** [unicode_get16(d + i)] *)
Definition unicode_get16 (d : list Z) (i : Z) : option Z :=
  b0 ← get d i;
  b1 ← get d (i + 1);
  Some (Z.lor b0 (Z.shiftl b1 8)).
(** [d[i]] through the short codes *)
Definition short_at (d : list Z) (i : Z) : option Z := b ← get d i; unicode_get_short_code b.

(** [for(i = 0; i < l; i++) if ((res[i] = rd(i)) == 0) return 0;] *)
Fixpoint res_until_zero (rd : Z -> option Z) (l : nat) (i : Z) (res : list Z) : option (list Z) :=
  match l with
  | O => Some res
  | S l => c1 ← rd i; if c1 =? 0 then Some [] else res_until_zero rd l (i + 1) (res ++ [c1])
  end.
(** [for(i = 0; i < l; i++) res[i] = rd(i);] *)
Fixpoint res_all (rd : Z -> option Z) (l : nat) (i : Z) : option (list Z) :=
  match l with
  | O => Some []
  | S l => c1 ← rd i; rest ← res_all rd l (i + 1); Some (c1 :: rest)
  end.

(** The list is [res] up to the length returned. *)
Definition unicode_decomp_entry (c idx code len type : Z) : option (list Z) :=
  v ← get unicode_decomp_table2 idx;
  if type =? DECOMP_TYPE_C1 then Some [v]
  else
    let d := drop (Z.to_nat v) unicode_decomp_data in
    let o := c - code in
    if (DECOMP_TYPE_L1 <=? type) && (type <=? DECOMP_TYPE_L7) then
      let l := type - DECOMP_TYPE_L1 + 1 in
      res_until_zero (fun i => unicode_get16 d (o * l * 2 + 2 * i)) (Z.to_nat l) 0 []
    else if (DECOMP_TYPE_LL1 <=? type) && (type <=? DECOMP_TYPE_LL2) then
      let l := type - DECOMP_TYPE_LL1 + 1 in
      let p := len * l * 2 in
      res_until_zero (fun i =>
        let k := o * l + i in
        lo ← unicode_get16 d (2 * k);
        hi ← get d (p + k / 4);
        Some (Z.lor lo (Z.shiftl (Z.land (Z.shiftr hi ((k mod 4) * 2)) 3) 16))) (Z.to_nat l) 0 []
    else if (DECOMP_TYPE_S1 <=? type) && (type <=? DECOMP_TYPE_S5) then
      let l := type - DECOMP_TYPE_S1 + 1 in
      res_until_zero (fun i => short_at d (o * l + i)) (Z.to_nat l) 0 []
    else if (type =? DECOMP_TYPE_I1) || (DECOMP_TYPE_I2_0 <=? type) && (type <=? DECOMP_TYPE_I4_2) then
      let l := if type =? DECOMP_TYPE_I1 then 1 else 2 + Z.shiftr (type - DECOMP_TYPE_I2_0) 1 in
      let p := if type =? DECOMP_TYPE_I1 then 0 else Z.land (type - DECOMP_TYPE_I2_0) 1 + Z.b2z (2 <? l) in
      res_all (fun i => c1 ← unicode_get16 d (2 * i); Some (if i =? p then c1 + o else c1)) (Z.to_nat l) 0
    else if (type =? DECOMP_TYPE_B18) || (DECOMP_TYPE_B1 <=? type) && (type <=? DECOMP_TYPE_B8) then
      let l := if type =? DECOMP_TYPE_B18 then 18 else type - DECOMP_TYPE_B1 + 1 in
      c_min ← unicode_get16 d 0;
      res_all (fun i => c1 ← get d (2 + o * l + i); Some (if c1 =? 0xff then 0x20 else c1 + c_min)) (Z.to_nat l) 0
    else if type =? DECOMP_TYPE_LS2 then
      r0 ← unicode_get16 d (o * 3);
      if r0 =? 0 then Some [] else r1 ← short_at d (o * 3 + 2); Some [r0; r1]
    else if type =? DECOMP_TYPE_PAT3 then
      r0 ← unicode_get16 d 0;
      r2 ← unicode_get16 d 2;
      r1 ← unicode_get16 d (4 + o * 2);
      Some [r0; r1; r2]
    else if (type =? DECOMP_TYPE_S2_UL) || (type =? DECOMP_TYPE_LS2_UL) then
      '(c0, i) ← (if type =? DECOMP_TYPE_S2_UL then
                    let i := Z.land o (Z.lnot 1) in c0 ← short_at d i; Some (c0, i + 1)
                  else
                    let i := Z.shiftr o 1 * 3 in c0 ← unicode_get16 d i; Some (c0, i + 2));
      r1 ← short_at d i;
      Some [if Z.testbit o 0 then unicode_get_lower_simple c0 else c0; r1]
    else Some [].

(** The fields of an entry of [unicode_decomp_table1] *)
Definition decomp_code (v : Z) : Z := Z.shiftr v (32 - 18).
Definition decomp_len (v : Z) : Z := Z.land (Z.shiftr v (32 - 18 - 7)) 0x7f.
Definition decomp_type (v : Z) : Z := Z.land (Z.shiftr v (32 - 18 - 7 - 6)) 0x3f.
Definition decomp_is_compat (v : Z) : bool := Z.testbit v 0.
Definition decomp_count : nat := length unicode_decomp_table1.

(** [while (idx_min <= idx_max)]; the empty list is the return value 0. *)
Fixpoint decomp_search (fuel : nat) (c : Z) (is_compat1 : bool) (idx_min idx_max : Z) : option (list Z) :=
  match fuel with
  | O => None
  | S fuel =>
      if idx_min <=? idx_max then
        let idx := (idx_max + idx_min) / 2 in
        v ← get unicode_decomp_table1 idx;
        if c <? decomp_code v then decomp_search fuel c is_compat1 idx_min (idx - 1)
        else if decomp_code v + decomp_len v <=? c then decomp_search fuel c is_compat1 (idx + 1) idx_max
        else if negb is_compat1 && decomp_is_compat v then Some []
        else unicode_decomp_entry c idx (decomp_code v) (decomp_len v) (decomp_type v)
      else Some []
  end.
Definition unicode_decomp_char (c : Z) (is_compat1 : bool) : option (list Z) :=
  decomp_search (S decomp_count) c is_compat1 0 (Z.of_nat decomp_count - 1).

(** ** Composition *)

(** [pair], of the entry of index [idx1]; it has room for two *)
Definition comp_pair (idx1 : Z) : option (Z * Z * Z) :=
  let d_idx := Z.shiftr idx1 6 in
  v ← get unicode_decomp_table1 d_idx;
  let ch := decomp_code v + Z.land idx1 0x3f in
  res ← unicode_decomp_entry ch d_idx (decomp_code v) (decomp_len v) (decomp_type v);
  match res with [p0; p1] => Some (p0, p1, ch) | _ => None end.
Definition comp_count : nat := length unicode_comp_table.
Fixpoint comp_search (fuel : nat) (c0 c1 idx_min idx_max : Z) : option Z :=
  match fuel with
  | O => None
  | S fuel =>
      if idx_min <=? idx_max then
        let idx := (idx_max + idx_min) / 2 in
        idx1 ← get unicode_comp_table idx;
        '(p0, p1, ch) ← comp_pair idx1;
        let d := i32 (c0 - p0) in
        let d := if d =? 0 then i32 (c1 - p1) else d in
        if d <? 0 then comp_search fuel c0 c1 idx_min (idx - 1)
        else if 0 <? d then comp_search fuel c0 c1 (idx + 1) idx_max
        else Some ch
      else Some 0
  end.
Definition unicode_compose_pair (c0 c1 : Z) : option Z := comp_search (S comp_count) c0 c1 0 (Z.of_nat comp_count - 1).
Definition compose_pair (c0 c1 : Z) : option Z :=
  if (0x1100 <=? c0) && (c0 <? 0x1100 + 19) && (0x1161 <=? c1) && (c1 <? 0x1161 + 21) then
    Some (0xac00 + (c0 - 0x1100) * 588 + (c1 - 0x1161) * 28)
  else if (0xac00 <=? c0) && (c0 <? 0xac00 + 11172) && ((c0 - 0xac00) mod 28 =? 0) && (0x11a7 <=? c1) && (c1 <? 0x11a7 + 28) then
    Some (c0 + c1 - 0x11a7)
  else unicode_compose_pair c0 c1.

(** ** Combining classes *)

(** One run: its length less one, its type, its extra byte and the rest *)
Definition cc_run (p : list Z) : option (Z * Z * Z * list Z) :=
  match p with
  | [] => None
  | b :: p =>
      let type := Z.shiftr b 6 in
      let n := Z.land b 0x3f in
      '(n, p) ← (if n <? 48 then Some (n, p)
                 else if n <? 56 then
                   match p with p0 :: p => Some (Z.lor (Z.shiftl (n - 48) 8) p0 + 48, p) | _ => None end
                 else
                   match p with
                   | p0 :: p1 :: p => Some (Z.lor (Z.lor (Z.shiftl (n - 56) 8) (Z.shiftl p0 8)) p1 + (48 + Z.shiftl 1 11), p)
                   | _ => None
                   end);
      if type <=? 1 then match p with e :: p => Some (n, type, e, p) | [] => None end
      else Some (n, type, 0, p)
  end.
Fixpoint cc_loop (fuel : nat) (p : list Z) (c code : Z) : option Z :=
  match fuel with
  | O => None
  | S fuel =>
      '(n, type, e, p) ← cc_run p;
      let c1 := u32 (code + n + 1) in
      if c <? c1 then
        Some (if type =? 0 then e else if type =? 1 then e + c - code else if type =? 2 then 0 else 230)
      else cc_loop fuel p c c1
  end.
Definition unicode_get_cc (c : Z) : option Z :=
  pos ← get_index_pos c unicode_cc_index (Z.of_nat (length unicode_cc_index) / 3);
  match pos with
  | None => Some 0
  | Some (code, pos) => cc_loop (length unicode_cc_table) (drop (Z.to_nat pos) unicode_cc_table) c code
  end.

(** ** Ordering the marks *)

(** [while (k >= start)]: the hole moves down to the place of a mark of class
    [cc1]. *)
Fixpoint sort_shift (fuel : nat) (buf : list Z) (k start cc1 : Z) : option (list Z * Z) :=
  match fuel with
  | O => None
  | S fuel =>
      if start <=? k then
        x ← get buf k;
        cc ← unicode_get_cc x;
        if cc <=? cc1 then Some (buf, k)
        else
          _ ← get buf (k + 1);
          sort_shift fuel (<[Z.to_nat (k + 1) := x]> buf) (k - 1) start cc1
      else Some (buf, k)
  end.
(** [while (j < len)] *)
Fixpoint sort_marks (fuel : nat) (buf : list Z) (start j : Z) : option (list Z * Z) :=
  match fuel with
  | O => None
  | S fuel =>
      if j <? Z.of_nat (length buf) then
        ch1 ← get buf j;
        cc1 ← unicode_get_cc ch1;
        if cc1 =? 0 then Some (buf, j)
        else
          '(buf, k) ← sort_shift (S (length buf)) buf (j - 1) start cc1;
          _ ← get buf (k + 1);
          sort_marks fuel (<[Z.to_nat (k + 1) := ch1]> buf) start (j + 1)
      else Some (buf, j)
  end.
Fixpoint sort_cc_loop (fuel : nat) (buf : list Z) (i : Z) : option (list Z) :=
  match fuel with
  | O => None
  | S fuel =>
      if i <? Z.of_nat (length buf) then
        x ← get buf i;
        cc ← unicode_get_cc x;
        if cc =? 0 then sort_cc_loop fuel buf (i + 1)
        else '(buf, j) ← sort_marks (S (length buf)) buf i (i + 1); sort_cc_loop fuel buf (j + 1)
      else Some buf
  end.
Definition sort_cc (buf : list Z) : option (list Z) := sort_cc_loop (S (length buf)) buf 0.

(** ** Normal forms *)
Inductive UnicodeNormalizationEnum := UNICODE_NFC | UNICODE_NFD | UNICODE_NFKC | UNICODE_NFKD.
#[export] Instance UnicodeNormalizationEnum_eq_dec : EqDecision UnicodeNormalizationEnum.
Proof. solve_decision. Defined.
(** [n_type >> 1], [n_type & 1] *)
Definition nf_compat (n : UnicodeNormalizationEnum) : bool := match n with UNICODE_NFKC | UNICODE_NFKD => true | _ => false end.
Definition nf_decomposed (n : UnicodeNormalizationEnum) : bool := match n with UNICODE_NFD | UNICODE_NFKD => true | _ => false end.

Section Normalize.
Context (realloc_ok : Z -> bool).
Definition put (dbuf : DynBuf) (c : Z) : DynBuf := (dbuf_put_u32 realloc_ok dbuf c).1.

(** The recursion of [to_nfd_rec]; the bound is its depth. *)
Fixpoint to_nfd_rec (fuel : nat) (dbuf : DynBuf) (src : list Z) (is_compat : bool) : option DynBuf :=
  match fuel with
  | O => None
  | S fuel =>
      foldl (fun o c =>
        dbuf ← o;
        if (0xac00 <=? c) && (c <? 0xd7a4) then
          let c := c - 0xac00 in
          let dbuf := put dbuf (0x1100 + c / 588) in
          let dbuf := put dbuf (0x1161 + (c mod 588) / 28) in
          let v := c mod 28 in
          Some (if v =? 0 then dbuf else put dbuf (0x11a7 + v))
        else
          res ← unicode_decomp_char c is_compat;
          if (UNICODE_DECOMP_LEN_MAX <? length res)%nat then None
          else
            match res with
            | [] => Some (put dbuf c)
            | _ => to_nfd_rec fuel dbuf res is_compat
            end) (Some dbuf) src
  end.
Definition NFD_DEPTH : nat := 4.

(** [dbuf->buf] as an array of [int] *)
Fixpoint buf_ints (l : list Z) : list Z :=
  match l with
  | a :: b :: c :: d :: l => a + Z.shiftl b 8 + Z.shiftl c 16 + Z.shiftl d 24 :: buf_ints l
  | _ => []
  end.

(** The inner [while]: [Some (Some pos)] when it ends at [starter_pos = pos],
    [Some None] for [goto next]. *)
Fixpoint find_starter (fuel : nat) (buf : list Z) (starter_pos last_cc : Z) : option (option Z) :=
  match fuel with
  | O => None
  | S fuel =>
      if 0 <=? starter_pos then
        x ← get buf starter_pos;
        cc ← unicode_get_cc x;
        if cc =? 0 then Some (Some starter_pos)
        else if last_cc <=? cc then Some None
        else find_starter fuel buf (starter_pos - 1) 256
      else Some (Some starter_pos)
  end.
Fixpoint compose_loop (fuel : nat) (buf : list Z) (i out_len : Z) : option (list Z) :=
  match fuel with
  | O => None
  | S fuel =>
      if i <? Z.of_nat (length buf) then
        x ← get buf i;
        last_cc ← unicode_get_cc x;
        r ← find_starter (S (length buf)) buf (out_len - 1) last_cc;
        '(starter_pos, p) ←
          (match r with
           | Some starter_pos =>
               if 0 <=? starter_pos then s ← get buf starter_pos; p ← compose_pair s x; Some (starter_pos, p) else Some (starter_pos, 0)
           | None => Some (0, 0)
           end);
        if negb (p =? 0) then compose_loop fuel (<[Z.to_nat starter_pos := p]> buf) (i + 1) out_len
        else compose_loop fuel (<[Z.to_nat out_len := x]> buf) (i + 1) (out_len + 1)
      else Some (take (Z.to_nat out_len) buf)
  end.

(** [Some None] is the return value -1.  [buf_len] is an [int]: a decomposition
    of [2 ^ 31] characters or more is not followed. *)
Definition unicode_normalize (src : list Z) (n_type : UnicodeNormalizationEnum) : option (option (list Z)) :=
  let '(dbuf, ok) := dbuf_claim realloc_ok dbuf_init (4 * Z.of_nat (length src)) in
  if negb ok then Some None
  else if bool_decide (n_type = UNICODE_NFC) && forallb (fun c => c <? 0x100) src then Some (Some src)
  else
    dbuf ← to_nfd_rec NFD_DEPTH dbuf src (nf_compat n_type);
    if db_error dbuf then Some None
    else
      let buf := buf_ints (db_data dbuf) in
      if 2 ^ 31 <=? Z.of_nat (length buf) then None
      else
      buf ← sort_cc buf;
      if (Z.of_nat (length buf) <=? 1) || nf_decomposed n_type then Some (Some buf)
      else out ← compose_loop (S (length buf)) buf 1 1; Some (Some out).
End Normalize.
