(* ===== verification/UnicodeOrder.v ===== *)
(** * Canonical ordering

    A reference for the ordering of combining marks, its algebra, and the proof
    that [sort_cc] computes it in place. *)
From Stdlib Require Import Sorted.
From S2P Require Import Prelude Sort Cutils UnicodeCase UnicodeCaseProps UnicodeProp UnicodeNormData UnicodeNorm.

(** The combining class; [known]: the tables have one for the character. *)
Definition ccc (x : Z) : Z := default 0 (unicode_get_cc x).
Definition known (x : Z) : Prop := unicode_get_cc x = Some (ccc x).
Lemma known_some x cc : unicode_get_cc x = Some cc -> known x /\ ccc x = cc.
Proof. intros E. unfold known, ccc. by rewrite E. Qed.

(** ** Reference *)

(** A mark goes behind the marks of its class and of lower classes. *)
Fixpoint insert_mark (x : Z) (run : list Z) : list Z :=
  match run with
  | [] => [x]
  | y :: run => if ccc y <=? ccc x then y :: insert_mark x run else x :: y :: run
  end.
(** [run] are the marks read since the last starter, in order. *)
Fixpoint reorder_from (run l : list Z) : list Z :=
  match l with
  | [] => run
  | x :: l => if ccc x =? 0 then run ++ x :: reorder_from [] l else reorder_from (insert_mark x run) l
  end.
Definition reorder (l : list Z) : list Z := reorder_from [] l.

Definition marks (run : list Z) : Prop := Forall (fun x => ccc x <> 0) run.
Definition ascending (run : list Z) : Prop := StronglySorted (fun x y => ccc x <= ccc y) run.
(** No two neighbours are a reorderable pair. *)
Definition ordered (l : list Z) : Prop := Sorted (fun x y => ccc y = 0 \/ ccc x <= ccc y) l.

Lemma insert_mark_perm x run : insert_mark x run ≡ₚ x :: run.
Proof. induction run as [|y run IH]; cbn; [done|]. destruct (_ <=? _); [|done]. rewrite IH. apply Permutation_swap. Qed.
Lemma insert_mark_forall P x run : P x -> Forall P run -> Forall P (insert_mark x run).
Proof. intros Hx Hr. rewrite insert_mark_perm. by constructor. Qed.
Lemma insert_mark_ascending x run : ascending run -> ascending (insert_mark x run).
Proof.
  induction 1 as [|y run Hr IH Hy]; cbn; [repeat constructor|]. destruct (Z.leb_spec (ccc y) (ccc x)).
  - constructor; [done|]. by apply insert_mark_forall.
  - constructor; [by constructor|]. constructor; [lia|]. eapply Forall_impl; [exact Hy|]. cbn. lia.
Qed.
Lemma insert_mark_last x run : Forall (fun y => ccc y <= ccc x) run -> insert_mark x run = run ++ [x].
Proof. induction 1 as [|y run Hy _ IH]; cbn; [done|]. by rewrite (proj2 (Z.leb_le _ _) Hy), IH. Qed.
Lemma insert_mark_before x run y : ccc x < ccc y -> insert_mark x (run ++ [y]) = insert_mark x run ++ [y].
Proof.
  intros Hy. induction run as [|z run IH]; cbn; [by rewrite (proj2 (Z.leb_gt _ _) Hy)|]. destruct (_ <=? _); [by rewrite IH|done].
Qed.
(** Marks of different classes commute. *)
Lemma insert_mark_comm u v run : ascending run -> ccc u <> ccc v -> insert_mark u (insert_mark v run) = insert_mark v (insert_mark u run).
Proof.
  intros Hr. induction Hr as [|y run Hr IH Hy]; intros Hn; cbn.
  { destruct (Z.leb_spec (ccc v) (ccc u)), (Z.leb_spec (ccc u) (ccc v)); lia || done. }
  destruct (Z.leb_spec (ccc y) (ccc v)) as [Hv|Hv], (Z.leb_spec (ccc y) (ccc u)) as [Hu|Hu]; cbn.
  - rewrite !(proj2 (Z.leb_le _ _)) by done. by rewrite IH.
  - rewrite (proj2 (Z.leb_gt _ _)) by done. rewrite (proj2 (Z.leb_le (ccc u) (ccc v))) by lia. by rewrite (proj2 (Z.leb_le _ _) Hv).
  - rewrite (proj2 (Z.leb_le (ccc v) (ccc u))), (proj2 (Z.leb_le _ _) Hu) by lia. by rewrite (proj2 (Z.leb_gt _ _) Hv).
  - destruct (Z.leb_spec (ccc v) (ccc u)), (Z.leb_spec (ccc u) (ccc v)); try lia.
    + by rewrite (proj2 (Z.leb_gt _ _) Hu).
    + by rewrite (proj2 (Z.leb_gt _ _) Hv).
Qed.

Lemma reorder_from_perm l : forall run, reorder_from run l ≡ₚ run ++ l.
Proof.
  induction l as [|x l IH]; intros run; cbn; [by rewrite app_nil_r|]. destruct (_ =? _); [by rewrite IH|].
  rewrite IH, insert_mark_perm. cbn. by rewrite Permutation_middle.
Qed.
Lemma reorder_perm l : reorder l ≡ₚ l.
Proof. apply reorder_from_perm. Qed.
Lemma reorder_forall P l : Forall P l -> Forall P (reorder l).
Proof. by rewrite reorder_perm. Qed.

Lemma ascending_ordered run l : ascending run -> (forall x, head l = Some x -> ccc x = 0) -> ordered l -> ordered (run ++ l).
Proof.
  intros Hr Hh Hl. induction Hr as [|y run Hr IH Hy]; [done|]. cbn. constructor; [done|].
  destruct run as [|z run]; cbn; [|apply Forall_cons in Hy as [Hy _]; constructor; by right].
  destruct l as [|x l]; constructor. left. by apply Hh.
Qed.
Definition classed (l : list Z) : Prop := Forall (fun x => 0 <= ccc x) l.
Lemma reorder_from_ordered l : forall run, classed l -> classed run -> ascending run -> ordered (reorder_from run l).
Proof.
  induction l as [|x l IH]; intros run Hl Hn Hr; cbn.
  { rewrite <- (app_nil_r run). apply ascending_ordered; [done|done|constructor]. }
  apply Forall_cons in Hl as [Hx Hl]. destruct (Z.eqb_spec (ccc x) 0) as [E|E]; [|by apply IH; [|apply insert_mark_forall|apply insert_mark_ascending]].
  apply ascending_ordered; [done|by intros y [= <-]|]. constructor; [apply IH; [done|constructor|constructor]|].
  assert (classed (reorder_from [] l)) as Hc by (unfold classed; by rewrite reorder_from_perm).
  destruct Hc; constructor. right. lia.
Qed.
Lemma reorder_ordered l : classed l -> ordered (reorder l).
Proof. intros Hl. apply reorder_from_ordered; [done|constructor|constructor]. Qed.

(** An ordered text stays as it is. *)
Lemma ordered_run run x l : marks (run ++ [x]) -> ordered (run ++ x :: l) -> Forall (fun y => ccc y <= ccc x) run.
Proof.
  revert x l. induction run as [|z run IH] using rev_ind; intros x l Hm Ho; [constructor|]. rewrite <- !app_assoc in *. cbn [app] in *.
  assert (ccc z <= ccc x) as Hzx.
  { clear IH. induction run as [|w run IH]; cbn in *.
    - apply Sorted_inv in Ho as [_ Ho]. apply HdRel_inv in Ho. apply Forall_cons in Hm as [_ Hm]. apply Forall_cons in Hm as [Hx _]. lia.
    - apply Sorted_inv in Ho as [Ho _]. apply Forall_cons in Hm as [_ Hm]. auto. }
  apply Forall_app. split; [|by repeat constructor]. eapply Forall_impl; [apply (IH z (x :: l))|cbn; lia]; [|done].
  apply Forall_app in Hm as [Hm1 Hm2]. apply Forall_app. split; [done|]. by apply Forall_cons in Hm2 as [? _]; repeat constructor.
Qed.
Lemma ordered_tail run l : ordered (run ++ l) -> ordered l.
Proof. induction run as [|y run IH]; cbn; [done|]. intros H. apply IH. by apply Sorted_inv in H as [? _]. Qed.
Lemma reorder_from_id l : forall run, marks run -> ordered (run ++ l) -> reorder_from run l = run ++ l.
Proof.
  induction l as [|x l IH]; intros run Hm Ho; cbn; [by rewrite app_nil_r|]. destruct (Z.eqb_spec (ccc x) 0) as [E|E].
  - rewrite IH; [done|constructor|]. apply ordered_tail in Ho. by apply Sorted_inv in Ho as [? _].
  - assert (marks (run ++ [x])) as Hm' by (apply Forall_app; split; [done|by repeat constructor]).
    rewrite (insert_mark_last x run) by (by eapply ordered_run). rewrite IH; rewrite <- ?app_assoc; done.
Qed.
Lemma reorder_id l : ordered l -> reorder l = l.
Proof. intros Ho. apply reorder_from_id; [constructor|done]. Qed.

(** Exchanging two marks of different classes changes nothing. *)
Lemma reorder_swap l1 u v l2 : ccc u <> 0 -> ccc v <> 0 -> ccc u <> ccc v -> reorder (l1 ++ u :: v :: l2) = reorder (l1 ++ v :: u :: l2).
Proof.
  intros Hu Hv Hn. unfold reorder. assert (ascending []) as Hr by constructor. revert Hr. generalize (@nil Z).
  induction l1 as [|x l1 IH]; intros run Hr; cbn.
  - rewrite (proj2 (Z.eqb_neq _ _) Hu), (proj2 (Z.eqb_neq _ _) Hv). by rewrite insert_mark_comm.
  - destruct (ccc x =? 0); [by rewrite IH by constructor|]. by apply IH, insert_mark_ascending.
Qed.
Lemma reorder_move l1 m x l2 : marks m -> Forall (fun y => ccc y <> ccc x) m -> (m = [] \/ ccc x <> 0) ->
  reorder (l1 ++ m ++ x :: l2) = reorder (l1 ++ x :: m ++ l2).
Proof.
  intros Hm Hn Hx. revert l1. induction m as [|y m IH]; intros l1; [done|]. apply Forall_cons in Hm as [Hy Hm]. apply Forall_cons in Hn as [Hyx Hn].
  destruct Hx as [|Hx]; [done|]. cbn. specialize (IH Hm Hn (or_intror Hx) (l1 ++ [y])). rewrite <- !app_assoc in IH. cbn in IH.
  rewrite IH. by apply reorder_swap.
Qed.

(** ** The loops of [sort_cc] *)
#[local] Abbreviation len l := (Z.of_nat (length l)).
Lemma get_mid {pre x post} i : i = len pre -> get (pre ++ x :: post) i = Some x.
Proof. intros ->. unfold get. rewrite (proj2 (Z.ltb_ge _ _)), Nat2Z.id by lia. by apply list_lookup_middle. Qed.
Lemma insert_between (pre : list Z) x y post i : i = len pre -> <[Z.to_nat i := y]> (pre ++ x :: post) = pre ++ y :: post.
Proof. intros ->. rewrite Nat2Z.id. replace (length pre) with (length pre + 0)%nat by lia. by rewrite insert_app_r. Qed.

Lemma sort_shift_spec run : forall fuel pre hole post x, Forall known run -> ascending run -> (length run < fuel)%nat ->
  exists buf k y, sort_shift fuel (pre ++ run ++ hole :: post) (len pre + len run - 1) (len pre) (ccc x) = Some (buf, k) /\
    get buf (k + 1) = Some y /\ <[Z.to_nat (k + 1) := x]> buf = pre ++ insert_mark x run ++ post.
Proof.
  induction run as [|y run IH] using rev_ind; intros fuel pre hole post x Hk Ha Hf; (destruct fuel as [|fuel]; [cbn in *; lia|]); cbn [sort_shift].
  { rewrite (proj2 (Z.leb_gt _ _)) by (cbn; lia). exists (pre ++ [] ++ hole :: post), (len pre + len (@nil Z) - 1), hole. cbn [app length].
    split; [done|]. rewrite (get_mid (len pre + Z.of_nat 0 - 1 + 1)), insert_between by lia. done. }
  rewrite length_app in *. cbn [length] in *. rewrite (proj2 (Z.leb_le _ _)) by lia. apply Forall_app in Hk as [Hk Hy]. apply Forall_cons in Hy as [Hy _].
  rewrite <- !app_assoc. cbn [app]. rewrite !(app_assoc pre run). rewrite (get_mid (len pre + Z.of_nat (length run + 1) - 1)) by (rewrite length_app; lia).
  bind. rewrite Hy. bind. destruct (Z.leb_spec (ccc y) (ccc x)) as [Hle|Hgt].
  - eexists _, _, hole. split; [done|]. replace ((pre ++ run) ++ y :: hole :: post) with ((pre ++ run ++ [y]) ++ hole :: post) by (by rewrite <- !app_assoc).
    rewrite (get_mid (len pre + Z.of_nat (length run + 1) - 1 + 1)), insert_between by (rewrite !length_app; cbn; lia). split; [done|].
    rewrite (insert_mark_last x (run ++ [y])); [by rewrite <- !app_assoc|]. apply Forall_app. split; [|by repeat constructor].
    assert (forall run, ascending (run ++ [y]) -> Forall (fun z => ccc z <= ccc y) run) as Hmax.
    { clear. induction run as [|z run IH]; intros H; [constructor|]. apply StronglySorted_inv in H as [H Hz]. constructor; [|auto].
      rewrite Forall_app in Hz. destruct Hz as [_ Hz]. by apply Forall_cons in Hz as [? _]. }
    eapply Forall_impl; [by apply Hmax|]. cbn. lia.
  - replace ((pre ++ run) ++ y :: hole :: post) with ((pre ++ run ++ [y]) ++ hole :: post) by (by rewrite <- !app_assoc).
    rewrite (get_mid (len pre + Z.of_nat (length run + 1) - 1 + 1)), insert_between by (rewrite !length_app; cbn; lia). bind.
    replace ((pre ++ run ++ [y]) ++ y :: post) with (pre ++ run ++ y :: y :: post) by (by rewrite <- !app_assoc).
    replace (len pre + Z.of_nat (length run + 1) - 1 - 1) with (len pre + len run - 1) by lia.
    assert (ascending run) as Ha'.
    { clear -Ha. induction run as [|z run IH]; [constructor|]. apply StronglySorted_inv in Ha as [Ha Hz]. constructor; [exact (IH Ha)|]. rewrite Forall_app in Hz. exact (proj1 Hz). }
    destruct (IH fuel pre y (y :: post) x Hk Ha' ltac:(lia)) as (buf & k & z & E & Hg & Hi). exists buf, k, z. split; [done|]. split; [done|].
    rewrite Hi, insert_mark_before by done. by rewrite <- !app_assoc.
Qed.
Lemma sort_marks_spec l : forall fuel pre run, Forall known run -> Forall known l -> ascending run -> (length l < fuel)%nat ->
  exists run' l', sort_marks fuel (pre ++ run ++ l) (len pre) (len pre + len run) = Some (pre ++ run' ++ l', len pre + len run') /\
    reorder_from run l = run' ++ reorder_from [] l' /\ (length l' <= length l)%nat /\ Forall known l' /\ (forall x, head l' = Some x -> ccc x = 0).
Proof.
  induction l as [|x l IH]; intros fuel pre run Hr Hl Ha Hf; (destruct fuel as [|fuel]; [cbn in Hf; lia|]); cbn [sort_marks].
  { rewrite (proj2 (Z.ltb_ge _ _)) by (rewrite !length_app; cbn; lia). exists run, []. cbn. rewrite app_nil_r. split_and!; done || lia. }
  apply Forall_cons in Hl as [Hx Hl]. rewrite (proj2 (Z.ltb_lt _ _)) by (rewrite !length_app; cbn; lia).
  rewrite (app_assoc pre run). rewrite (get_mid (len pre + len run)) by (rewrite length_app; lia). bind. rewrite Hx. bind. rewrite <- app_assoc.
  destruct (Z.eqb_spec (ccc x) 0) as [E|E].
  { exists run, (x :: l). split; [done|]. cbn [reorder_from]. rewrite E. cbn. split_and!; [done|lia|by constructor|by intros y [= <-]]. }
  destruct (sort_shift_spec run (S (length (pre ++ run ++ x :: l))) pre x l x Hr Ha) as (buf & k & y & -> & Hg & Hi); [rewrite !length_app; cbn; lia|]. bind.
  rewrite Hg. bind. rewrite Hi. replace (len pre + len run + 1) with (len pre + len (insert_mark x run)).
  2:{ rewrite insert_mark_perm. cbn. lia. }
  destruct (IH fuel pre (insert_mark x run)) as (run' & l' & -> & Ho & Hl' & Hk & Hh); [by apply insert_mark_forall|done|by apply insert_mark_ascending|cbn in Hf; lia|].
  exists run', l'. cbn [reorder_from]. rewrite (proj2 (Z.eqb_neq _ _) E). split_and!; [done|done|cbn; lia|done|done].
Qed.
Lemma sort_cc_loop_spec n : forall l fuel pre, (length l <= n)%nat -> Forall known l -> (length l < fuel)%nat ->
  sort_cc_loop fuel (pre ++ l) (len pre) = Some (pre ++ reorder l).
Proof.
  induction n as [|n IH]; intros l fuel pre Hn Hl Hf; (destruct fuel as [|fuel]; [lia|]); cbn [sort_cc_loop].
  { destruct l; [|cbn in Hn; lia]. by rewrite (proj2 (Z.ltb_ge _ _)) by (rewrite app_nil_r; lia). }
  destruct l as [|x l]; [by rewrite (proj2 (Z.ltb_ge _ _)) by (rewrite app_nil_r; lia)|]. cbn in Hn, Hf. apply Forall_cons in Hl as [Hx Hl].
  rewrite (proj2 (Z.ltb_lt _ _)) by (rewrite length_app; cbn; lia). rewrite (get_mid (len pre)) by done. bind. rewrite Hx. bind. unfold reorder. cbn [reorder_from].
  destruct (Z.eqb_spec (ccc x) 0) as [E|E].
  - specialize (IH l fuel (pre ++ [x]) ltac:(lia) Hl ltac:(lia)). rewrite <- !app_assoc, length_app in IH. cbn [app length] in *.
    by replace (len pre + 1) with (Z.of_nat (length pre + 1)%nat) by lia.
  - destruct (sort_marks_spec l (S (length (pre ++ x :: l))) pre [x]) as (run' & l' & Es & Ho & Hl' & Hk & Hh);
      [by repeat constructor|done|repeat constructor|rewrite length_app; cbn; lia|].
    cbn [app length] in Es. change (len pre + Z.of_nat 1) with (len pre + 1) in Es. rewrite Es. bind. cbn [insert_mark]. rewrite Ho. destruct l' as [|s l'].
    + destruct fuel as [|fuel]; [destruct l; cbn in Hf; lia|]. cbn [sort_cc_loop]. rewrite (proj2 (Z.ltb_ge _ _)) by (rewrite !length_app; cbn; lia). done.
    + apply Forall_cons in Hk as [_ Hk]. cbn in Hl'. specialize (IH l' fuel (pre ++ run' ++ [s]) ltac:(lia) Hk ltac:(lia)).
      rewrite <- !app_assoc, !length_app in IH. cbn [app length] in IH. cbn [reorder_from]. rewrite (Hh s eq_refl). cbn [Z.eqb app].
      by replace (len pre + len run' + 1) with (Z.of_nat (length pre + (length run' + 1))%nat) by lia.
Qed.
Lemma sort_cc_reorders l : Forall known l -> sort_cc l = Some (reorder l).
Proof. intros Hl. apply (sort_cc_loop_spec (length l) l (S (length l)) []); [done|done|lia]. Qed.
