(* ===== verification/UnicodeNormProps.v ===== *)
(** * Normalization: the tables and the decomposed forms

    The combining class of every code point is found inside the tables; the
    full decomposition of every code point is found within four levels and
    consists of code points that decompose no further; [to_nfd_rec] writes it,
    and NFD and NFKD are its canonical ordering. *)
From Stdlib Require Import Sorted.
From S2P Require Import Prelude Sort SortProps Cutils CharRange CharRangeProps UnicodeTables UnicodeCase UnicodeCaseProps UnicodeProp.
From S2P Require Import UnicodeSets UnicodeSetsProps UnicodeNormData UnicodeNorm UnicodeOrder.

(** ** Combining classes *)
Definition cc_decode (p : list Z) : option (Z * (Z * Z) * list Z) := '(n, type, e, p) ← cc_run p; Some (n, (type, e), p).
Definition cc_value (v : Z * Z) (o : Z) : Z := if v.1 =? 0 then v.2 else if v.1 =? 1 then v.2 + o else if v.1 =? 2 then 0 else 230.
Lemma cc_loop_runs fuel : forall p c code rs, table_runs cc_decode fuel p = Some rs -> Forall (fun r => 0 < r.1) rs -> 0 <= code <= c ->
  c < code + runs_length rs -> code + runs_length rs < 2 ^ 32 ->
  exists v o, run_value rs code c = Some (v, o) /\ cc_loop fuel p c code = Some (cc_value v o).
Proof.
  induction fuel as [|fuel IH]; intros p c code rs E Hrs Hc Hl Hm.
  { destruct p; [|done]. injection E as <-. cbn in Hl. lia. }
  destruct p as [|b p]; [injection E as <-; cbn in Hl; lia|]. cbn [table_runs cc_loop] in *. unfold cc_decode in E.
  destruct (cc_run (b :: p)) as [[[[n type] e] p']|]; [|done]. revert E. bind. intros E. fold cc_decode in E.
  destruct (table_runs cc_decode fuel p') as [rs'|] eqn:E'; [|done]. injection E as <-. apply Forall_cons in Hrs as [Hn Hrs].
  rewrite runs_length_cons in *. cbn [fst] in *. pose proof (runs_length_nonneg rs' Hrs). rewrite u32_id by lia. cbn [run_value].
  replace (code + n + 1) with (code + (n + 1)) by lia. destruct (Z.ltb_spec c (code + (n + 1))).
  - exists (type, e), (c - code). split; [done|]. unfold cc_value. cbn. by replace (e + c - code) with (e + (c - code)) by lia.
  - apply IH; [done|done|lia|lia|lia].
Qed.
(** A fact about every run *)
Fixpoint runs_all {V} (f : Z -> Z -> V -> bool) (rs : list (Z * V)) (code : Z) : bool :=
  match rs with [] => true | (n, v) :: rs => f code n v && runs_all f rs (code + n) end.
Lemma runs_all_value {V} f (rs : list (Z * V)) : forall code x v o, runs_all f rs code = true -> code <= x -> run_value rs code x = Some (v, o) ->
  exists start n, f start n v = true /\ start <= x < start + n /\ o = x - start.
Proof.
  induction rs as [|[n w] rs IH]; intros code x v o H Hx E; [done|]. cbn [runs_all run_value] in *. apply andb_true_iff in H as [H1 H2].
  destruct (Z.ltb_spec x (code + n)); [injection E as -> <-; by exists code, n|]. by apply (IH (code + n)).
Qed.
(** A run of classes from 0 to 255; those of Hangul and of the code points
    below U+0300 are 0 *)
Definition cc_run_ok (start n : Z) (v : Z * Z) : bool :=
  (if v.1 =? 0 then (0 <=? v.2) && (v.2 <=? 255) else if v.1 =? 1 then (0 <=? v.2) && (v.2 + n <=? 256) else true) &&
  ((v.1 =? 2) || (0x300 <=? start) && ((start + n <=? 0xac00) || (0xd7a4 <=? start))).
Definition cc_block_ok (upper code pos : Z) : bool :=
  match table_runs cc_decode (length unicode_cc_table) (drop (Z.to_nat pos) unicode_cc_table) with
  | Some rs => forallb (fun r => 0 <? r.1) rs && (upper <=? code + runs_length rs) && (code + runs_length rs <? 2 ^ 32) && runs_all cc_run_ok rs code
  | None => false
  end.
Definition cc_index_count : Z := Z.of_nat (length unicode_cc_index) / 3.
Definition cc_index_ok : bool :=
  match get_le24 unicode_cc_index (cc_index_count - 1) with
  | Some upper =>
      cc_block_ok upper 0 0 &&
      forallb (fun i => match get_le24 unicode_cc_index i with
                        | Some v => cc_block_ok upper (code21 v) ((i + 1) * UNICODE_INDEX_BLOCK_LEN + Z.shiftr v 21) && (0 <=? code21 v) && (code21 v <=? upper)
                        | None => false
                        end) (seqZ 0 (cc_index_count - 1))
  | None => false
  end.
Lemma cc_index_checked : cc_index_ok = true.
Proof. vm_compute. reflexivity. Qed.
Definition class_ok (c cc : Z) : Prop := 0 <= cc <= 255 /\ (c < 0x300 \/ 0xac00 <= c < 0xd7a4 -> cc = 0).
Lemma cc_block_value upper code pos c : cc_block_ok upper code pos = true -> 0 <= code <= c -> c < upper ->
  exists cc, cc_loop (length unicode_cc_table) (drop (Z.to_nat pos) unicode_cc_table) c code = Some cc /\ class_ok c cc.
Proof.
  unfold cc_block_ok. destruct (table_runs _ _ _) as [rs|] eqn:E; [|done]. rewrite !andb_true_iff, Z.leb_le, Z.ltb_lt. intros [[[Hp Hu] Hm] Ha] Hc Hcu.
  assert (Forall (fun r => 0 < r.1) rs) as Hp'.
  { apply Forall_forall. intros r Hr%list_elem_of_In. rewrite forallb_forall in Hp. apply Z.ltb_lt, Hp, Hr. }
  destruct (cc_loop_runs _ _ c code rs E Hp' Hc ltac:(lia) Hm) as ([type e] & o & Ev & ->). eexists. split; [done|].
  destruct (runs_all_value cc_run_ok rs code c _ o Ha ltac:(lia) Ev) as (start & n & Hf & Hx & ->). unfold cc_run_ok, cc_value, class_ok in *. cbn [fst snd] in *.
  destruct (Z.eqb_spec type 0), (Z.eqb_spec type 1), (Z.eqb_spec type 2); split; lia.
Qed.
Lemma get_cc_total c : 0 <= c -> exists cc, unicode_get_cc c = Some cc /\ class_ok c cc.
Proof.
  intros Hc. pose proof cc_index_checked as H. unfold cc_index_ok in H. destruct (get_le24 unicode_cc_index (cc_index_count - 1)) as [upper|] eqn:Eu; [|done].
  apply andb_true_iff in H as [H0 Hi]. assert (forall i, 0 <= i < cc_index_count - 1 -> exists v, get_le24 unicode_cc_index i = Some v /\
    cc_block_ok upper (code21 v) ((i + 1) * UNICODE_INDEX_BLOCK_LEN + Z.shiftr v 21) = true /\ 0 <= code21 v <= upper) as Hb.
  { intros i Hr. rewrite forallb_forall in Hi. specialize (Hi i (proj1 (list_elem_of_In _ _) (proj2 (elem_of_seqZ 0 (cc_index_count - 1) i) ltac:(lia)))). cbv beta in Hi.
    destruct (get_le24 unicode_cc_index i) as [v|]; [|done]. exists v. rewrite !andb_true_iff, !Z.leb_le in Hi. split; [done|]. destruct Hi as [[? ?] ?]. auto. }
  assert (1 < cc_index_count) as Hn by (vm_compute; reflexivity). destruct (Hb 0 ltac:(lia)) as (v0 & Hv0 & _ & H0u).
  unfold unicode_get_cc, get_index_pos. fold cc_index_count. rewrite Hv0. bind. destruct (Z.ltb_spec c (code21 v0)).
  { bind. apply (cc_block_value upper); [done|lia|lia]. }
  rewrite Eu. bind. assert (upper <= c -> exists cc, Some 0 = Some cc /\ class_ok c cc) as Hzero by (intros _; exists 0; split; [done|]; split; [lia|done]).
  destruct (Z.leb_spec upper c); [bind; by apply Hzero|].
  destruct (index_search_spec (Z.to_nat cc_index_count) c unicode_cc_index 0 (cc_index_count - 1)) as (i & v & -> & Hir & Hv & Hcv).
  { intros i Hr. destruct (Hb i Hr) as (v & ? & _). eauto. }
  { lia. } { lia. } { eauto. }
  bind. rewrite Hv. bind. destruct (Hb i Hir) as (w & Hw & Hok & Hr). rewrite Hv in Hw. injection Hw as <-. apply (cc_block_value upper); [done|lia|lia].
Qed.
Lemma code_known c : 0 <= c -> known c /\ class_ok c (ccc c).
Proof. intros Hc. destruct (get_cc_total c Hc) as (cc & E & Hk). destruct (known_some c cc E) as [Hn ->]. done. Qed.

(** ** Full decompositions *)
Definition is_hangul (c : Z) : bool := (0xac00 <=? c) && (c <? 0xd7a4).
Definition hangul (c : Z) : list Z :=
  let c := c - 0xac00 in
  [0x1100 + c / 588; 0x1161 + (c mod 588) / 28] ++ (if c mod 28 =? 0 then [] else [0x11a7 + c mod 28]).
Fixpoint full (n : nat) (k : bool) (c : Z) : option (list Z) :=
  match n with
  | O => None
  | S n =>
      if is_hangul c then Some (hangul c)
      else
        res ← unicode_decomp_char c k;
        if (UNICODE_DECOMP_LEN_MAX <? length res)%nat then None
        else match res with [] => Some [c] | _ => ls ← mapM (full n k) res; Some (concat ls) end
  end.
(** A character that decomposes no further *)
Definition stable (k : bool) (c : Z) : Prop := is_hangul c = false /\ unicode_decomp_char c k = Some [].

Lemma decomp_search_found fuel c k : forall lo hi, 0 <= lo <= hi + 1 -> hi < Z.of_nat decomp_count -> hi - lo + 1 < Z.of_nat fuel ->
  decomp_search fuel c k lo hi = Some [] \/ exists idx v, get unicode_decomp_table1 idx = Some v /\ decomp_code v <= c < decomp_code v + decomp_len v.
Proof.
  induction fuel as [|fuel IH]; intros lo hi Hlo Hhi Hf; [lia|]. cbn [decomp_search]. destruct (Z.leb_spec lo hi); [|by left].
  pose proof (Z.div_mod (hi + lo) 2 ltac:(lia)). pose proof (Z.mod_pos_bound (hi + lo) 2 ltac:(lia)). set (idx := (hi + lo) / 2) in *.
  destruct (lookup_lt_is_Some_2 unicode_decomp_table1 (Z.to_nat idx)) as [v Hv]; [unfold decomp_count in Hhi; lia|].
  assert (get unicode_decomp_table1 idx = Some v) as Eg by (apply get_spec; split; [lia|done]). rewrite Eg. bind.
  destruct (Z.ltb_spec c (decomp_code v)); [apply IH; lia|]. destruct (Z.leb_spec (decomp_code v + decomp_len v) c); [apply IH; lia|].
  right. exists idx, v. split; [done|lia].
Qed.
(** The characters of the entries *)
Definition decomp_chars : list Z := flat_map (fun v => seqZ (decomp_code v) (decomp_len v)) unicode_decomp_table1.
Lemma decomp_char_found c k : unicode_decomp_char c k = Some [] \/ c ∈ decomp_chars.
Proof.
  destruct (decomp_search_found (S decomp_count) c k 0 (Z.of_nat decomp_count - 1)) as [H|(idx & v & [_ Hv]%get_spec & Hc)]; [lia|lia|lia|by left|right].
  unfold decomp_chars. apply list_elem_of_In, in_flat_map. exists v. split; [by eapply list_elem_of_In, list_elem_of_lookup_2|].
  apply list_elem_of_In, elem_of_seqZ. lia.
Qed.
Definition full_ok (k : bool) (c : Z) : bool :=
  match full NFD_DEPTH k c with Some l => (length l <=? UNICODE_DECOMP_LEN_MAX)%nat && forallb code_point l | None => false end.
Lemma decomp_chars_checked k : forallb (full_ok k) decomp_chars = true.
Proof. destruct k; vm_compute; reflexivity. Qed.
(** The letters of Hangul syllables *)
Definition jamo : list Z := seqZ 0x1100 19 ++ seqZ 0x1161 21 ++ seqZ 0x11a8 27.
Lemma jamo_checked k : forallb (fun c => negb (is_hangul c) && bool_decide (unicode_decomp_char c k = Some [])) jamo = true.
Proof. destruct k; vm_compute; reflexivity. Qed.
Lemma jamo_stable k c : c ∈ jamo -> stable k c.
Proof.
  intros Hc. pose proof (jamo_checked k) as H. rewrite forallb_forall in H. specialize (H c (proj1 (list_elem_of_In _ _) Hc)).
  rewrite andb_true_iff, negb_true_iff, bool_decide_eq_true in H. exact H.
Qed.
Lemma hangul_jamo c : is_hangul c = true -> Forall (fun d => d ∈ jamo) (hangul c).
Proof.
  unfold is_hangul. intros Hc. unfold hangul, jamo. cbv zeta. apply Forall_app. setoid_rewrite elem_of_app. setoid_rewrite elem_of_app. setoid_rewrite elem_of_seqZ. split.
  - constructor; [left|constructor; [right; left|constructor]]; Z.to_euclidean_division_equations; lia.
  - destruct (Z.eqb_spec ((c - 0xac00) mod 28) 0); [constructor|]. constructor; [|constructor]. right; right. Z.to_euclidean_division_equations; lia.
Qed.
Lemma full_stable n k : forall c l, full n k c = Some l -> Forall (stable k) l.
Proof.
  induction n as [|n IH]; intros c l E; [done|]. cbn [full] in E. destruct (is_hangul c) eqn:Eh.
  { injection E as <-. eapply Forall_impl; [by apply hangul_jamo|]. intros d. apply jamo_stable. }
  destruct (unicode_decomp_char c k) as [res|] eqn:Ed; [|done]. revert E. bind. intros E. destruct (_ <? _)%nat; [done|].
  destruct res as [|r res]; [injection E as <-; constructor; [by split|constructor]|]. destruct (mapM (full n k) (r :: res)) as [ls|] eqn:Em; [|done]. injection E as <-.
  apply Forall_concat. apply mapM_Some in Em. clear Ed. induction Em as [|x y xs ys Hx _ IHm]; constructor; [by apply (IH x)|done].
Qed.
Lemma stable_full n k c : stable k c -> full (S n) k c = Some [c].
Proof. intros [Hh Hd]. cbn [full]. rewrite Hh, Hd. done. Qed.
Lemma full_total k c : 0 <= c < 0x110000 ->
  exists l, full NFD_DEPTH k c = Some l /\ (length l <= UNICODE_DECOMP_LEN_MAX)%nat /\ Forall (fun d => 0 <= d < 0x110000) l.
Proof.
  intros Hc. destruct (is_hangul c) eqn:Eh.
  { exists (hangul c). split; [cbn [full NFD_DEPTH]; by rewrite Eh|]. unfold is_hangul in Eh. unfold hangul. cbv zeta. split; [destruct (_ =? 0); unfold UNICODE_DECOMP_LEN_MAX; cbn; lia|].
    apply Forall_app. split; [repeat constructor; Z.to_euclidean_division_equations; lia|]. destruct (_ =? 0); [constructor|]. repeat constructor; Z.to_euclidean_division_equations; lia. }
  destruct (decomp_char_found c k) as [E|Hin].
  { exists [c]. split; [by apply stable_full|]. split; [unfold UNICODE_DECOMP_LEN_MAX; cbn; lia|]. constructor; [done|constructor]. }
  pose proof (decomp_chars_checked k) as H. rewrite forallb_forall in H. specialize (H c (proj1 (list_elem_of_In _ _) Hin)). unfold full_ok in H.
  destruct (full NFD_DEPTH k c) as [l|]; [|done]. exists l. apply andb_true_iff in H as [Hl%Nat.leb_le H]. split_and!; [done|done|].
  apply Forall_forall. intros d Hd%list_elem_of_In. rewrite forallb_forall in H. specialize (H d Hd). unfold code_point in H. lia.
Qed.
(** The decomposition of a character and of a text *)
Definition nfd (k : bool) (c : Z) : list Z := default [] (full NFD_DEPTH k c).
Definition flat (k : bool) (src : list Z) : list Z := concat (map (nfd k) src).
Definition code_points (l : list Z) : Prop := Forall (fun c => 0 <= c < 0x110000) l.
Lemma nfd_full k c : 0 <= c < 0x110000 -> full NFD_DEPTH k c = Some (nfd k c).
Proof. intros Hc. destruct (full_total k c Hc) as (l & E & _). unfold nfd. by rewrite E. Qed.
Lemma flat_ok k src : code_points src -> code_points (flat k src) /\ Forall (stable k) (flat k src) /\ (length (flat k src) <= 18 * length src)%nat.
Proof.
  unfold flat. induction 1 as [|c src Hc _ (IH1 & IH2 & IH3)]; [repeat constructor|]. cbn [map concat]. destruct (full_total k c Hc) as (l & E & Hl & Hd).
  unfold nfd at 1 3 5. rewrite E. cbn [default from_option id]. split_and!; [by apply Forall_app|apply Forall_app; split; [by eapply full_stable|done]|].
  rewrite length_app. unfold UNICODE_DECOMP_LEN_MAX in Hl. cbn [length]. lia.
Qed.
Lemma flat_app k a b : flat k (a ++ b) = flat k a ++ flat k b.
Proof. unfold flat. by rewrite map_app, concat_app. Qed.
Lemma nfd_stable k c : stable k c -> nfd k c = [c].
Proof. intros H. unfold nfd. change NFD_DEPTH with 4%nat. by rewrite (stable_full 3 k c H). Qed.
Lemma flat_stable k l : Forall (stable k) l -> flat k l = l.
Proof. unfold flat. induction 1 as [|c l Hc _ IH]; [done|]. cbn [map concat]. by rewrite nfd_stable, IH. Qed.
(** What compatibility decomposition leaves, canonical decomposition leaves. *)
Lemma stable_compat c : stable true c -> stable false c.
Proof.
  intros [Hh Hd]. split; [done|]. revert Hd. unfold unicode_decomp_char. generalize (S decomp_count) 0 (Z.of_nat decomp_count - 1).
  intros fuel. induction fuel as [|fuel IH]; intros lo hi; cbn [decomp_search]; [done|]. destruct (lo <=? hi); [|done].
  destruct (get unicode_decomp_table1 _) as [v|]; [|done]. bind. destruct (c <? _); [apply IH|]. destruct (_ <=? c); [apply IH|].
  cbn [negb andb]. by destruct (decomp_is_compat v).
Qed.
