(* ===== verification/UnicodeNfd.v ===== *)
(** * The decomposed normal forms

    [to_nfd_rec] writes the full decomposition to the buffer, and
    [unicode_normalize] for NFD and NFKD returns its canonical ordering, or -1
    when memory is refused. *)
From Stdlib Require Import Sorted.
From S2P Require Import Prelude Sort SortProps Cutils CharRange CharRangeProps UnicodeCase UnicodeCaseProps UnicodeProp.
From S2P Require Import UnicodeNormData UnicodeNorm UnicodeOrder UnicodeNormProps.

Section Nfd.
Context (ok : Z -> bool).
#[local] Abbreviation puts := (foldl (put ok)).

Lemma to_nfd_rec_puts n k : forall src dbuf ls, (n = 0%nat -> src <> []) -> mapM (full n k) src = Some ls ->
  to_nfd_rec ok n dbuf src k = Some (puts dbuf (concat ls)).
Proof.
  induction n as [|n IH]; intros src dbuf ls Hn E; [destruct src; [by destruct (Hn eq_refl)|done]|]. clear Hn. cbn [to_nfd_rec].
  revert dbuf ls E. induction src as [|c src IHs]; intros dbuf ls E; [by injection E as <-|].
  apply mapM_Some in E. destruct ls as [|l ls]; [by apply Forall2_nil_inv_r in E|]. apply Forall2_cons in E as [Ec Es]. apply mapM_Some in Es.
  cbn [foldl concat]. rewrite foldl_app. erewrite <- IHs by exact Es. f_equal. bind. cbn [full] in Ec. unfold is_hangul in Ec.
  destruct ((0xac00 <=? c) && (c <? 0xd7a4)).
  { injection Ec as <-. unfold hangul. cbv zeta. by destruct (_ =? 0). }
  destruct (unicode_decomp_char c k) as [res|]; [|done]. revert Ec. bind. intros Ec. destruct (_ <? _)%nat; [done|].
  destruct res as [|r res]; [by injection Ec as <-|]. destruct (mapM (full n k) (r :: res)) as [ls'|] eqn:Em; [|done]. injection Ec as <-. by apply IH.
Qed.
Lemma flat_mapM k src : code_points src -> mapM (full NFD_DEPTH k) src = Some (map (nfd k) src).
Proof. intros Hs. apply mapM_Some. induction Hs as [|c src Hc _ IH]; constructor; [by apply nfd_full|done]. Qed.

(** ** The buffer *)

(** Room for any growth *)
Definition room (s : DynBuf) (n : Z) : Prop := dbuf_wf s /\ db_size s + 4 * n < 2 ^ 60 /\ db_allocated_size s < 2 ^ 61.
Lemma nfd_put_spec s c n : room s (n + 1) -> 0 <= n ->
  let s' := put ok s c in
  room s' n /\ (db_error s = true -> db_error s' = true) /\ (always_ok ok -> db_error s = false -> db_error s' = false) /\
  (db_error s' = false -> db_data s' = db_data s ++ le_bytes 4 (u32 c)).
Proof.
  intros ((Hle & Hlt) & Hsz & Hal) Hn. cbv zeta. unfold put, dbuf_put_u32, dbuf_put. set (bytes := le_bytes 4 (u32 c)).
  assert (length bytes = 4%nat) as Hb by done. clearbody bytes. rewrite Hb. change (Z.of_nat 4) with 4. assert (0 <= db_size s) by (unfold db_size; lia). rewrite u64_id by lia.
  assert (forall a e, db_size (mk_dbuf (db_data s ++ bytes) a e) = db_size s + 4) as Hs4 by (intros; unfold db_size; cbn [db_data]; rewrite length_app, Hb; lia).
  destruct (Z.ltb_spec (db_allocated_size s - db_size s) 4) as [Hsmall|Hbig].
  2:{ cbn. unfold room, dbuf_wf. rewrite Hs4. cbn. split_and!; try done; lia. }
  unfold dbuf_claim. rewrite !(u64_id (db_size s + 4)) by lia. rewrite (proj2 (Z.ltb_ge _ _)) by lia. rewrite (proj2 (Z.ltb_lt (db_allocated_size s) _)) by lia.
  destruct (db_error s) eqn:He.
  { cbn. rewrite He. unfold room, dbuf_wf. split_and!; try done; lia. }
  rewrite u64_id by (Z.to_euclidean_division_equations; lia). rewrite (proj2 (Z.ltb_ge (_ + _) _)) by (Z.to_euclidean_division_equations; lia).
  destruct (ok _) eqn:Eok.
  - cbn [fst]. unfold room, dbuf_wf. rewrite Hs4. cbn. split_and!; try done; destruct (Z.ltb_spec (db_size s + 4) (db_allocated_size s + db_allocated_size s / 2)); Z.to_euclidean_division_equations; lia.
  - cbn. unfold room, dbuf_wf, db_size. cbn. fold (db_size s). split_and!; try done; try lia. intros H'. by rewrite H' in Eok.
Qed.
Lemma puts_spec l : forall s, room s (Z.of_nat (length l)) ->
  let s' := puts s l in
  (db_error s = true -> db_error s' = true) /\ (always_ok ok -> db_error s = false -> db_error s' = false) /\
  (db_error s' = false -> db_data s' = db_data s ++ concat (map (fun c => le_bytes 4 (u32 c)) l)).
Proof.
  induction l as [|c l IH]; intros s Hr; cbn [foldl map concat]; [by rewrite app_nil_r|].
  destruct (nfd_put_spec s c (Z.of_nat (length l))) as (Hr1 & He1 & Hk1 & Hd1); [by replace (Z.of_nat (length l) + 1) with (Z.of_nat (length (c :: l))) by (cbn; lia)|lia|].
  cbv zeta in *. destruct (IH _ Hr1) as (He2 & Hk2 & Hd2). split_and!; [auto|auto|]. intros H'. rewrite Hd2 by done.
  destruct (db_error (put ok s c)) eqn:E; [by rewrite He2 in H'|]. rewrite Hd1 by done. by rewrite <- app_assoc.
Qed.
Lemma buf_ints_bytes l : code_points l -> buf_ints (concat (map (fun c => le_bytes 4 (u32 c)) l)) = l.
Proof.
  induction 1 as [|c l Hc _ IH]; [done|]. cbn [map concat]. set (t := concat _) in *. clearbody t. rewrite u32_id by lia. cbn [le_bytes app buf_ints]. rewrite IH. f_equal.
  rewrite !Z.shiftl_mul_pow2 by lia. Z.to_euclidean_division_equations. lia.
Qed.
(** The start of every form: the decomposition, or -1 *)
Lemma nfd_claim_spec n : 0 <= n < 2 ^ 31 ->
  let s := dbuf_claim ok dbuf_init (4 * n) in
  (always_ok ok -> s.2 = true) /\ (s.2 = true -> db_data s.1 = [] /\ db_error s.1 = false /\ room s.1 (18 * n)).
Proof.
  intros Hn. unfold dbuf_claim, dbuf_init, db_size. cbn [db_data db_allocated_size db_error length Z.of_nat]. change (0 + 0 / 2) with 0. rewrite Z.add_0_l, !u64_id by lia.
  rewrite Z.ltb_irrefl. destruct (Z.ltb_spec 0 (4 * n)); cbv zeta.
  2:{ cbn. split; [done|]. intros _. unfold room, dbuf_wf, db_size. cbn. split_and!; done || lia. }
  change (0 <? 0) with false. rewrite (proj2 (Z.ltb_ge (4 * n) 0)) by lia. cbn iota.
  destruct (ok _) eqn:E; cbn; [|split; [|done]; intros H'; by rewrite H' in E].
  split; [done|]. intros _. unfold room, dbuf_wf, db_size. cbn. split_and!; done || lia.
Qed.

(** The texts whose decomposition has an [int] length *)
Definition fits (k : bool) (src : list Z) : Prop :=
  code_points src /\ Z.of_nat (length src) < 2 ^ 31 /\ Z.of_nat (length (flat k src)) < 2 ^ 31.
Definition canonical (k : bool) (src : list Z) : list Z := reorder (flat k src).
Definition latin1 (n : UnicodeNormalizationEnum) (src : list Z) : bool := bool_decide (n = UNICODE_NFC) && forallb (fun c => c <? 0x100) src.
(** What follows the ordering *)
Definition compose (n : UnicodeNormalizationEnum) (buf : list Z) : option (list Z) :=
  if (Z.of_nat (length buf) <=? 1) || nf_decomposed n then Some buf else compose_loop (S (length buf)) buf 1 1.
Lemma to_nfd_spec k src : fits k src ->
  let s := dbuf_claim ok dbuf_init (4 * Z.of_nat (length src)) in
  (always_ok ok -> s.2 = true) /\
  (s.2 = true -> exists dbuf, to_nfd_rec ok NFD_DEPTH s.1 src k = Some dbuf /\
     (always_ok ok -> db_error dbuf = false) /\ (db_error dbuf = false -> buf_ints (db_data dbuf) = flat k src)).
Proof.
  intros (Hs & Hn & _). cbv zeta. destruct (nfd_claim_spec (Z.of_nat (length src)) ltac:(lia)) as (Hok & Hcl). split; [done|]. intros E.
  destruct (Hcl E) as (Hd & He & Hr & Hsz & Hal). exists (puts (dbuf_claim ok dbuf_init (4 * Z.of_nat (length src))).1 (flat k src)).
  split; [apply to_nfd_rec_puts; [done|by apply flat_mapM]|]. destruct (flat_ok k src Hs) as (Hc & _ & Hl).
  destruct (puts_spec (flat k src) (dbuf_claim ok dbuf_init (4 * Z.of_nat (length src))).1) as (_ & H2 & H3); [split; [done|split; [lia|done]]|].
  split; [auto|]. intros H'. rewrite H3, Hd by done. by apply buf_ints_bytes.
Qed.
(** Either -1, which needs refused memory, or the Latin-1 text itself, or the
    composition of the canonical ordering of the decomposition *)
Lemma unicode_normalize_spec n src : fits (nf_compat n) src ->
  (unicode_normalize ok src n = Some None /\ ~ always_ok ok) \/
  unicode_normalize ok src n = (if latin1 n src then Some (Some src) else option_map Some (compose n (canonical (nf_compat n) src))).
Proof.
  intros Hf. destruct (to_nfd_spec _ _ Hf) as (Hok & Ht). unfold unicode_normalize, latin1. destruct (dbuf_claim ok dbuf_init _) as [s r] eqn:Es. cbn [fst snd] in *.
  destruct r; [|by left; split; [|intros H'%Hok]]. cbn [negb]. destruct (bool_decide _ && _); [by right|]. destruct (Ht eq_refl) as (dbuf & -> & He & Hd). bind.
  destruct (db_error dbuf) eqn:Ed; [by left; split; [|intros H'%He]|]. right. rewrite Hd by done. destruct Hf as (Hs & _ & Hl). rewrite (proj2 (Z.leb_gt _ _)) by done.
  rewrite sort_cc_reorders. 2:{ eapply Forall_impl; [exact (proj1 (flat_ok (nf_compat n) src Hs))|]. intros c Hc. cbv beta in Hc. exact (proj1 (code_known c (proj1 Hc))). }
  fold (canonical (nf_compat n) src). bind. unfold compose. destruct (_ || _); [done|]. by destruct (compose_loop _ _ _ _).
Qed.
End Nfd.
