(* ===== verification/UnicodeCompose.v ===== *)
(** * Composition

    [compose_pair] inverts a decomposition, and the loop of [unicode_normalize]
    for NFC and NFKC replaces pairs without changing the canonical ordering of
    the full decomposition. *)
From Stdlib Require Import Sorted.
From S2P Require Import Prelude Sort SortProps Cutils CharRange CharRangeProps UnicodeCase UnicodeCaseProps UnicodeProp.
From S2P Require Import UnicodeNormData UnicodeNorm UnicodeOrder UnicodeNormProps UnicodeNfd.

(** ** The pairs of the table *)

(** Characters, the second one a mark or a letter from U+0300 on; [ch]
    decomposes into them, and is a starter if the first one is. *)
Definition pair_ok (idx1 : Z) : bool :=
  match comp_pair idx1 with
  | Some (p0, p1, ch) =>
      code_point p0 && code_point p1 && code_point ch && (0x300 <=? p1) && (0 <? ch) &&
      bool_decide (nfd false ch = nfd false p0 ++ nfd false p1) && (negb (ccc p0 =? 0) || (ccc ch =? 0))
  | None => false
  end.
Lemma comp_table_checked : forallb pair_ok unicode_comp_table = true.
Proof. vm_compute. reflexivity. Qed.
Lemma comp_table_pair idx idx1 : get unicode_comp_table idx = Some idx1 -> exists p0 p1 ch, comp_pair idx1 = Some (p0, p1, ch) /\
  0 <= p0 < 0x110000 /\ 0x300 <= p1 < 0x110000 /\ 0 < ch < 0x110000 /\ nfd false ch = nfd false p0 ++ nfd false p1 /\ (ccc p0 = 0 -> ccc ch = 0).
Proof.
  intros [_ Hi%list_elem_of_lookup_2%list_elem_of_In]%get_spec. pose proof comp_table_checked as H. rewrite forallb_forall in H. specialize (H _ Hi). unfold pair_ok in H.
  destruct (comp_pair idx1) as [[[p0 p1] ch]|]; [|done]. exists p0, p1, ch. rewrite !andb_true_iff, orb_true_iff, negb_true_iff, bool_decide_eq_true in H. unfold code_point in H.
  destruct H as [[[[[[? ?] ?] ?] ?] ?] ?]. split_and!; try lia; done.
Qed.
(** What a composed pair is worth *)
Definition composes (c0 c1 p : Z) : Prop := 0 < p < 0x110000 /\ nfd false p = nfd false c0 ++ nfd false c1 /\ (ccc c0 = 0 -> ccc p = 0) /\ 0x300 <= c1.
Lemma comp_search_spec fuel c0 c1 : 0 <= c0 < 0x110000 -> 0 <= c1 < 0x110000 ->
  forall lo hi, 0 <= lo <= hi + 1 -> hi < Z.of_nat comp_count -> hi - lo + 1 < Z.of_nat fuel ->
  exists p, comp_search fuel c0 c1 lo hi = Some p /\ (p <> 0 -> composes c0 c1 p).
Proof.
  intros Hc0 Hc1. induction fuel as [|fuel IH]; intros lo hi Hlo Hhi Hf; [lia|]. cbn [comp_search]. destruct (Z.leb_spec lo hi); [|by exists 0].
  pose proof (Z.div_mod (hi + lo) 2 ltac:(lia)). pose proof (Z.mod_pos_bound (hi + lo) 2 ltac:(lia)). set (idx := (hi + lo) / 2) in *.
  destruct (lookup_lt_is_Some_2 unicode_comp_table (Z.to_nat idx)) as [v Hv]; [unfold comp_count in Hhi; lia|].
  assert (get unicode_comp_table idx = Some v) as Eg by (apply get_spec; split; [lia|done]). rewrite Eg. bind.
  destruct (comp_table_pair idx v Eg) as (p0 & p1 & ch & -> & Hp0 & Hp1 & Hch & Hn & Hcc). bind. rewrite !i32_id by lia. cbv zeta.
  set (d := if c0 - p0 =? 0 then _ else _). assert (d = 0 -> c0 = p0 /\ c1 = p1) as Hd by (unfold d; destruct (Z.eqb_spec (c0 - p0) 0); lia). clearbody d.
  destruct (Z.ltb_spec d 0); [apply IH; lia|]. destruct (Z.ltb_spec 0 d); [apply IH; lia|]. destruct Hd as [-> ->]; [lia|].
  exists ch. split; [done|]. intros _. by split_and!; try lia.
Qed.
Lemma hangul_pair c0 c1 : 0x1100 <= c0 < 0x1113 -> 0x1161 <= c1 < 0x1176 ->
  let p := 0xac00 + (c0 - 0x1100) * 588 + (c1 - 0x1161) * 28 in is_hangul p = true /\ hangul p = [c0; c1].
Proof.
  intros H0 H1. cbv zeta. set (p := _ + _ * 28). split; [unfold is_hangul, p; lia|]. unfold hangul. cbv zeta.
  assert ((p - 0xac00) / 588 = c0 - 0x1100) as -> by (unfold p; Z.to_euclidean_division_equations; lia).
  assert ((p - 0xac00) mod 588 / 28 = c1 - 0x1161) as -> by (unfold p; Z.to_euclidean_division_equations; lia).
  assert ((p - 0xac00) mod 28 = 0) as -> by (unfold p; Z.to_euclidean_division_equations; lia). cbn [Z.eqb app]. f_equal; [lia|]. f_equal. lia.
Qed.
Lemma hangul_final c0 c1 : is_hangul c0 = true -> (c0 - 0xac00) mod 28 = 0 -> 0x11a7 < c1 < 0x11a7 + 28 ->
  let p := c0 + c1 - 0x11a7 in is_hangul p = true /\ hangul p = hangul c0 ++ [c1].
Proof.
  unfold is_hangul. intros Hh Hm Hc. cbv zeta. set (p := c0 + c1 - _). split; [unfold p; Z.to_euclidean_division_equations; lia|]. unfold hangul. cbv zeta.
  assert ((p - 0xac00) / 588 = (c0 - 0xac00) / 588) as -> by (unfold p; Z.to_euclidean_division_equations; lia).
  assert ((p - 0xac00) mod 588 / 28 = (c0 - 0xac00) mod 588 / 28) as -> by (unfold p; Z.to_euclidean_division_equations; lia).
  assert ((p - 0xac00) mod 28 = c1 - 0x11a7) as -> by (unfold p; Z.to_euclidean_division_equations; lia).
  rewrite Hm. rewrite (proj2 (Z.eqb_neq _ _)) by lia. cbn [Z.eqb app]. do 3 f_equal. lia.
Qed.
Lemma nfd_hangul c : is_hangul c = true -> nfd false c = hangul c.
Proof. intros E. unfold nfd. change NFD_DEPTH with 4%nat. cbn [full]. by rewrite E. Qed.
Lemma nfd_jamo c : c ∈ jamo -> nfd false c = [c].
Proof. intros H. by apply nfd_stable, jamo_stable. Qed.
(** U+11A7 is no final consonant: [compose_pair] takes it for the absent one,
    and loses it. *)
Lemma compose_pair_spec c0 c1 : 0 <= c0 < 0x110000 -> 0 <= c1 < 0x110000 -> c1 <> 0x11a7 ->
  exists p, compose_pair c0 c1 = Some p /\ (p <> 0 -> composes c0 c1 p).
Proof.
  intros H0 H1 Hn. unfold compose_pair. destruct (_ && _) eqn:E1.
  { destruct (hangul_pair c0 c1 ltac:(lia) ltac:(lia)) as [Hh Hd]. cbv zeta in *. set (p := 0xac00 + _ + _) in *. exists p. split; [done|]. intros _. unfold is_hangul in Hh.
    split_and!; [lia|lia| | |lia].
    - rewrite nfd_hangul, Hd, !nfd_jamo by (done || (unfold jamo; rewrite !elem_of_app, !elem_of_seqZ; lia)). done.
    - intros _. apply (code_known p); lia. }
  destruct (_ && _) eqn:E2 in |- *.
  { assert (is_hangul c0 = true) as Hh0 by (unfold is_hangul; lia).
    destruct (hangul_final c0 c1 Hh0 ltac:(lia) ltac:(lia)) as [Hh Hd]. cbv zeta in *. set (p := c0 + c1 - _) in *. exists p. split; [done|]. intros _. pose proof Hh as Hh'. unfold is_hangul in Hh'.
    split_and!; [lia|lia| | |lia].
    - rewrite !nfd_hangul, Hd, nfd_jamo by (done || (unfold jamo; rewrite !elem_of_app, !elem_of_seqZ; lia)). done.
    - intros _. apply (code_known p); lia. }
  apply comp_search_spec; lia.
Qed.

(** ** The starter *)
#[local] Abbreviation len l := (Z.of_nat (length l)).
Lemma get_last (out : list Z) y post i : i = len out -> get ((out ++ [y]) ++ post) i = Some y.
Proof. intros ->. rewrite <- app_assoc. by apply get_mid. Qed.
Lemma find_starter_wide out : forall fuel post, code_points out -> (length out < fuel)%nat ->
  find_starter fuel (out ++ post) (len out - 1) 256 = Some (Some (-1)) \/
  exists a s m, out = a ++ s :: m /\ ccc s = 0 /\ marks m /\ find_starter fuel (out ++ post) (len out - 1) 256 = Some (Some (len a)).
Proof.
  induction out as [|y out IH] using rev_ind; intros fuel post Hc Hf; (destruct fuel as [|fuel]; [lia|]); cbn [find_starter]; [by left|].
  rewrite length_app in *. cbn [length] in *. rewrite (proj2 (Z.leb_le 0 _)) by lia. rewrite get_last by lia. bind.
  apply Forall_app in Hc as [Hc Hy]. apply Forall_cons in Hy as [Hy _]. destruct (code_known y ltac:(lia)) as [-> [Hcc _]]. bind.
  replace (Z.of_nat (length out + 1)%nat - 1) with (len out) by lia. destruct (Z.eqb_spec (ccc y) 0) as [E|E].
  { right. exists out, y, []. split_and!; [done|done|constructor|done]. }
  rewrite (proj2 (Z.leb_gt 256 _)), <- app_assoc by lia. destruct (IH fuel ([y] ++ post) Hc ltac:(lia)) as [->|(a & s & m & -> & Hs & Hm & ->)]; [by left|right].
  exists a, s, (m ++ [y]). split_and!; [by rewrite <- app_assoc|done| |done]. apply Forall_app. split; [done|]. by constructor.
Qed.
(** Blocked or no starter, both behind a mark, or the last starter with the marks
    behind it *)
Lemma find_starter_spec out fuel post x : code_points out -> (length out < fuel)%nat ->
  exists r, find_starter fuel (out ++ post) (len out - 1) (ccc x) = Some r /\
    ((r = None \/ r = Some (-1)) /\ (forall s, last out = Some s -> ccc s <> 0) \/
     exists a s m, r = Some (len a) /\ out = a ++ s :: m /\ ccc s = 0 /\ marks m /\ (forall y, last m = Some y -> ccc y < ccc x)).
Proof.
  intros Hc Hf. destruct out as [|y out] using rev_ind; (destruct fuel as [|fuel]; [lia|]); cbn [find_starter]; [by eexists; split; [done|left; split; [right|]]|].
  clear IHout. rewrite length_app in *. cbn [length] in *. rewrite (proj2 (Z.leb_le 0 _)) by lia. rewrite get_last by lia. bind.
  apply Forall_app in Hc as [Hc Hy]. apply Forall_cons in Hy as [Hy _]. destruct (code_known y ltac:(lia)) as [-> _]. bind.
  replace (Z.of_nat (length out + 1)%nat - 1) with (len out) by lia. destruct (Z.eqb_spec (ccc y) 0) as [E|E].
  { eexists. split; [done|]. right. exists out, y, []. split_and!; [done|done|done|constructor|done]. }
  assert (forall s, last (out ++ [y]) = Some s -> ccc s <> 0) as Hl by (intros s; rewrite last_snoc; by intros <-%(inj Some)).
  destruct (Z.leb_spec (ccc x) (ccc y)); [by eexists; split; [done|left; split; [left|]]|]. rewrite <- app_assoc.
  destruct (find_starter_wide out fuel ([y] ++ post) Hc ltac:(lia)) as [->|(a & s & m & -> & Hs & Hm & ->)]; [by eexists; split; [done|left; split; [right|]]|].
  eexists. split; [done|]. right. exists a, s, (m ++ [y]). split_and!; [done|by rewrite <- app_assoc|done| |].
  - apply Forall_app. split; [done|]. by constructor.
  - intros z. rewrite last_snoc. by intros <-%(inj Some).
Qed.

(** ** The loop *)
Lemma ordered_split l1 u l2 : ordered (l1 ++ u :: l2) <-> ordered (l1 ++ [u]) /\ ordered (u :: l2).
Proof.
  induction l1 as [|w l1 IH]; cbn [app].
  - split; [|by intros []]. intros H. split; [repeat constructor|done].
  - split.
    + intros [H Hd]%Sorted_inv. apply IH in H as [Ha Hb]. split; [|done]. constructor; [done|]. destruct l1; apply HdRel_inv in Hd; by constructor.
    + intros [[H Hd]%Sorted_inv Hb]. constructor; [by apply IH|]. destruct l1; apply HdRel_inv in Hd; by constructor.
Qed.
Lemma ordered_starter p l : ccc p = 0 -> classed l -> ordered l -> ordered (p :: l).
Proof. intros Hp Hl Ho. constructor; [done|]. destruct Hl; constructor. right. lia. Qed.
Lemma ordered_snoc a s p : ordered (a ++ [s]) -> ccc p = 0 -> ordered (a ++ [p]).
Proof.
  intros H Hp. induction a as [|w a IH]; cbn [app] in *; [repeat constructor|]. apply Sorted_inv in H as [H Hd]. constructor; [by apply IH|].
  destruct a; [by constructor; left|]. apply HdRel_inv in Hd. by constructor.
Qed.
Lemma code_classed l : code_points l -> classed l.
Proof. intros H. eapply Forall_impl; [exact H|]. intros c Hc. cbv beta in Hc. apply (code_known c (proj1 Hc)). Qed.

(** [out] is written and [rest] is to be read, of a text whose decomposition in
    canonical order is [D]. *)
Record composing (D out rest : list Z) : Prop := {
  co_points : code_points (out ++ rest);
  co_ordered : ordered (out ++ rest);
  co_marks : Forall (fun y => ccc y <> 0 -> stable false y) out;
  co_rest : Forall (stable false) rest;
  co_text : reorder (flat false (out ++ rest)) = D
}.
Lemma composing_keep D out x rest : composing D out (x :: rest) -> composing D (out ++ [x]) rest.
Proof.
  intros [Hp Ho Hm Hr Ht]. apply Forall_cons in Hr as [Hx Hr]. split; rewrite <- ?app_assoc; [done|done| |done|done].
  apply Forall_app. split; [done|]. constructor; [done|constructor].
Qed.
(** The marks between the starter and a character that is not blocked *)
Lemma unblocked m x l : marks m -> ordered (m ++ x :: l) -> classed m -> (forall y, last m = Some y -> ccc y < ccc x) ->
  Forall (fun y => ccc y < ccc x) m /\ (m = [] \/ ccc x <> 0).
Proof.
  intros Hm Ho Hc Hl. destruct m as [|y m] using rev_ind; [by split; [constructor|left]|]. clear IHm. specialize (Hl y (last_snoc _ _)).
  apply Forall_app in Hc as [_ Hy]. apply Forall_cons in Hy as [Hy _]. split; [|right; lia]. apply Forall_app. split; [|by constructor].
  rewrite <- app_assoc in Ho. eapply Forall_impl; [exact (ordered_run m y _ Hm Ho)|]. cbn. lia.
Qed.
Lemma ordered_compose a s m x rest p : ordered (a ++ s :: m ++ x :: rest) -> classed (m ++ x :: rest) -> ccc p = 0 -> marks m ->
  (forall y, last m = Some y -> ccc y < ccc x) -> ordered (a ++ p :: m ++ rest).
Proof.
  intros Ho Hc Hp Hm Hl. apply ordered_split in Ho as [Ha Ho]. apply ordered_split. split; [by eapply ordered_snoc|]. apply Sorted_inv in Ho as [Ho _].
  assert (classed (m ++ rest)) as Hc'.
  { apply Forall_app in Hc as [H1 H2]. apply Forall_cons in H2 as [_ H2]. by apply Forall_app. }
  apply ordered_starter; [done|done|]. destruct m as [|y m] using rev_ind; [by apply Sorted_inv in Ho as [? _]|]. clear IHm. specialize (Hl y (last_snoc _ _)).
  rewrite <- app_assoc in *. cbn [app] in *. apply ordered_split in Ho as [H1 H2]. apply ordered_split. split; [done|].
  apply Sorted_inv in H2 as [H2 _]. apply Sorted_inv in H2 as [H2 Hd]. constructor; [done|]. destruct rest as [|z rest]; constructor. apply HdRel_inv in Hd. lia.
Qed.
Lemma composing_pair D a s m x rest p : composing D (a ++ s :: m) (x :: rest) -> ccc s = 0 -> marks m -> (forall y, last m = Some y -> ccc y < ccc x) ->
  composes s x p -> composing D (a ++ p :: m) rest.
Proof.
  intros [Hp Ho Hm Hr Ht] Hs Hmm Hl (Hpc & Hnf & Hcp & _). rewrite <- app_assoc in *. cbn [app] in *. apply Forall_cons in Hr as [Hx Hr].
  apply Forall_app in Hp as [Hpa Hp]. apply Forall_cons in Hp as [_ Hp]. pose proof (code_classed _ Hp) as Hcl. apply Forall_app in Hm as [Hma Hm]. apply Forall_cons in Hm as [_ Hm].
  assert (ordered (m ++ x :: rest)) as Hom by (apply ordered_split in Ho as [_ Ho]; by apply Sorted_inv in Ho as [? _]).
  destruct (unblocked m x rest Hmm Hom) as [Hlt Hor]; [by apply Forall_app in Hcl as [? _]|done|].
  assert (flat false m = m) as Hfm.
  { apply flat_stable. clear -Hm Hmm. induction Hm as [|y m Hy _ IH]; [constructor|]. apply Forall_cons in Hmm as [Hn Hmm]. constructor; [by apply Hy|by apply IH]. }
  split; rewrite <- ?app_assoc; cbn [app].
  - apply Forall_app. split; [done|]. apply Forall_app in Hp as [H1 H2]. apply Forall_cons in H2 as [_ H2]. constructor; [lia|]. by apply Forall_app.
  - eapply ordered_compose; eauto.
  - apply Forall_app. split; [done|]. constructor; [|done]. intros H'. by destruct H'; apply Hcp.
  - done.
  - rewrite <- Ht. change (p :: m ++ rest) with ([p] ++ m ++ rest). change (s :: m ++ x :: rest) with ([s] ++ m ++ [x] ++ rest). rewrite !flat_app, Hfm, (flat_stable _ rest Hr).
    rewrite (flat_stable false [x]) by (constructor; [done|constructor]). unfold flat at 2 4. cbn [map concat]. rewrite !app_nil_r, Hnf, (nfd_stable false x Hx), <- !app_assoc.
    rewrite (app_assoc (flat false a)). rewrite (app_assoc (flat false a) (nfd false s) (m ++ _)). symmetry. apply reorder_move; [done| |done].
    eapply Forall_impl; [exact Hlt|]. cbn. lia.
Qed.
Lemma insert_at_out (out junk : list Z) (x : Z) (rest : list Z) : exists junk', <[Z.to_nat (len out) := x]> (out ++ junk ++ x :: rest) = (out ++ [x]) ++ junk' ++ rest /\ length junk' = length junk.
Proof.
  destruct junk as [|j junk]; cbn [app].
  - exists []. rewrite insert_between, <- app_assoc by done. done.
  - exists (junk ++ [x]). rewrite insert_between by done. rewrite <- !app_assoc, length_app. cbn. split; [done|lia].
Qed.
(** One turn: [x] is kept, which it is not when the last character composes with
    it, or it is composed with the last starter. *)
Lemma compose_loop_step fuel out junk x rest : code_points out -> 0 <= x < 0x110000 -> x <> 0x11a7 ->
  exists out' junk', compose_loop (S fuel) (out ++ junk ++ x :: rest) (len out + len junk) (len out) =
      compose_loop fuel (out' ++ junk' ++ rest) (len out' + len junk') (len out') /\
    (out' = out ++ [x] /\ (forall s, last out = Some s -> ccc s = 0 -> compose_pair s x = Some 0) \/
     exists a s m p, out = a ++ s :: m /\ out' = a ++ p :: m /\ ccc s = 0 /\ marks m /\ (forall y, last m = Some y -> ccc y < ccc x) /\
       compose_pair s x = Some p /\ composes s x p).
Proof.
  intros Hpo Hpx Hxn. cbn [compose_loop]. rewrite (proj2 (Z.ltb_lt _ _)) by (rewrite !length_app; cbn; lia).
  rewrite (app_assoc out junk), (get_mid (len out + len junk)) by (rewrite length_app; lia). bind.
  rewrite <- app_assoc. destruct (code_known x ltac:(lia)) as [-> _]. bind.
  assert (exists out' junk', compose_loop fuel (<[Z.to_nat (len out) := x]> (out ++ junk ++ x :: rest)) (len out + len junk + 1) (len out + 1) =
    compose_loop fuel (out' ++ junk' ++ rest) (len out' + len junk') (len out') /\ out' = out ++ [x]) as (out' & junk' & Ek & Eo).
  { destruct (insert_at_out out junk x rest) as (junk' & -> & Hl). exists (out ++ [x]), junk'. rewrite length_app, Hl. cbn [length]. split; [f_equal; lia|done]. }
  destruct (find_starter_spec out (S (length (out ++ junk ++ x :: rest))) (junk ++ x :: rest) x Hpo ltac:(rewrite length_app; lia))
    as (r & -> & [[Hr Hl]|(a & s & m & -> & -> & Hs & Hm & Hl)]); bind.
  { exists out', junk'. split; [by destruct Hr as [->| ->]; bind|]. left. split; [done|]. intros s H1 H2. by destruct (Hl s). }
  rewrite (proj2 (Z.leb_le 0 _)) by lia. rewrite <- app_assoc. cbn [app]. rewrite (get_mid (len a)) by done. bind.
  apply Forall_app in Hpo as [_ Hpo]. apply Forall_cons in Hpo as [Hps _]. destruct (compose_pair_spec s x Hps Hpx Hxn) as (p & Ep & Hpp). rewrite Ep. bind.
  destruct (Z.eqb_spec p 0) as [->|Hp0]; cbn [negb].
  - exists out', junk'. rewrite <- app_assoc in Ek. split; [done|]. left. split; [done|]. intros t Ht Hc. destruct m as [|y m] using rev_ind; [|clear IHm].
    + rewrite last_snoc in Ht. by apply (inj Some) in Ht as <-.
    + change (a ++ s :: m ++ [y]) with (a ++ (s :: m) ++ [y]) in Ht. rewrite app_assoc, last_snoc in Ht. apply (inj Some) in Ht as <-.
      apply Forall_app in Hm as [_ Hm]. by apply Forall_cons in Hm as [? _].
  - rewrite insert_between by done. exists (a ++ p :: m), (junk ++ [x]). split; [|right; exists a, s, m, p; split_and!; auto].
    rewrite <- !app_assoc. cbn [app]. f_equal; rewrite ?length_app; cbn [length]; lia.
Qed.
Lemma compose_loop_spec D rest : forall fuel out junk, composing D out rest -> 0x11a7 ∉ rest -> (length rest < fuel)%nat ->
  exists out', compose_loop fuel (out ++ junk ++ rest) (len out + len junk) (len out) = Some out' /\ composing D out' [].
Proof.
  induction rest as [|x rest IH]; intros fuel out junk Hc Hn Hf; (destruct fuel as [|fuel]; [cbn in Hf; lia|]).
  { cbn [compose_loop]. rewrite (proj2 (Z.ltb_ge _ _)) by (rewrite !length_app; cbn; lia). exists out. rewrite Nat2Z.id, take_app_length. done. }
  pose proof (co_points _ _ _ Hc) as Hp. apply Forall_app in Hp as [Hpo Hp]. apply Forall_cons in Hp as [Hpx Hp]. apply not_elem_of_cons in Hn as [Hxn Hn]. cbn [length] in Hf.
  destruct (compose_loop_step fuel out junk x rest Hpo Hpx ltac:(congruence)) as (out' & junk' & -> & [[-> _]|(a & s & m & p & -> & -> & Hs & Hm & Hl & _ & Hcp)]).
  - apply IH; [by apply composing_keep|done|lia].
  - apply IH; [by eapply composing_pair|done|lia].
Qed.
