(* ===== verification/UnicodeForms.v ===== *)
(** * The normal forms

    The results of [unicode_normalize]: the decomposed forms are the canonical
    ordering of the full decomposition, the composed forms have the same
    decomposed form as the text, every form is a fixed point, and the forms of
    two texts are equal exactly when their decomposed forms are.  The composed
    forms are those of texts without U+11A7, a character that composition loses
    after a Hangul syllable without final consonant. *)
From Stdlib Require Import Sorted.
From S2P Require Import Prelude Sort SortProps Cutils CharRange CharRangeProps UnicodeCase UnicodeCaseProps UnicodeProp.
From S2P Require Import UnicodeNormData UnicodeNorm UnicodeOrder UnicodeNormProps UnicodeNfd UnicodeCompose.

#[local] Abbreviation len l := (Z.of_nat (length l)).

(** ** The decomposed text *)
Lemma canonical_ok k src : code_points src -> code_points (canonical k src) /\ Forall (stable k) (canonical k src) /\ ordered (canonical k src).
Proof.
  intros Hs. destruct (flat_ok k src Hs) as (Hc & Hst & _). unfold canonical. split_and!; [by apply reorder_forall|by apply reorder_forall|].
  by apply reorder_ordered, code_classed.
Qed.
Lemma canonical_id k l : Forall (stable k) l -> ordered l -> canonical k l = l.
Proof. intros Hs Ho. unfold canonical. rewrite flat_stable by done. by apply reorder_id. Qed.
Lemma stable_canonical k l : Forall (stable k) l -> Forall (stable false) l.
Proof. destruct k; [|done]. intros H. eapply Forall_impl; [exact H|]. intros c. apply stable_compat. Qed.

(** A canonical decomposition that is also a compatibility decomposition *)
Lemma decomp_char_compat c r res : unicode_decomp_char c false = Some (r :: res) -> unicode_decomp_char c true = Some (r :: res).
Proof.
  unfold unicode_decomp_char. generalize (S decomp_count) 0 (Z.of_nat decomp_count - 1).
  intros fuel. induction fuel as [|fuel IH]; intros lo hi; cbn [decomp_search]; [done|]. destruct (lo <=? hi); [|done].
  destruct (get unicode_decomp_table1 _) as [v|]; [|done]. bind. destruct (c <? _); [apply IH|]. destruct (_ <=? c); [apply IH|].
  cbn [negb andb]. by destruct (decomp_is_compat v).
Qed.
Lemma full_compat n : forall c l, full n false c = Some l -> Forall (stable true) l -> full n true c = Some l.
Proof.
  induction n as [|n IH]; intros c l E Hl; [done|]. cbn [full] in *. destruct (is_hangul c) eqn:Eh; [done|].
  destruct (unicode_decomp_char c false) as [res|] eqn:Ed; [|done]. revert E. bind. intros E. destruct (_ <? _)%nat eqn:El; [done|].
  destruct res as [|r res]; [injection E as <-; apply Forall_cons in Hl as [[_ ->] _]; done|]. rewrite (decomp_char_compat _ _ _ Ed). bind. rewrite El.
  destruct (mapM (full n false) (r :: res)) as [ls|] eqn:Em; [|done]. injection E as <-.
  assert (mapM (full n true) (r :: res) = Some ls) as ->; [|done]. apply mapM_Some in Em. apply mapM_Some. clear Ed El. revert Hl.
  induction Em as [|x y xs ys Hx _ IHm]; [constructor|]. cbn [concat]. intros [H1 H2]%Forall_app. constructor; [by apply IH|by apply IHm].
Qed.
Lemma flat_compat k out : code_points out -> Forall (stable k) (flat false out) -> flat k out = flat false out.
Proof.
  destruct k; [|done]. unfold flat. induction 1 as [|c out Hc _ IH]; cbn [map concat]; [intros _; reflexivity|]. intros [H1 H2]%Forall_app. rewrite (IH H2).
  apply (f_equal (fun l => l ++ _)). unfold nfd at 1. rewrite (full_compat NFD_DEPTH c (nfd false c) (nfd_full false c Hc) H1). cbn [default from_option id]. reflexivity.
Qed.
Lemma canonical_compat k out : code_points out -> Forall (stable k) (canonical false out) -> canonical k out = canonical false out.
Proof.
  intros Hc HD. unfold canonical in *. rewrite reorder_perm in HD. rewrite (flat_compat k out Hc HD). reflexivity.
Qed.
Lemma full_nonempty n k : forall c, full n k c <> Some [].
Proof.
  induction n as [|n IH]; intros c; cbn [full]; [done|]. destruct (is_hangul c); [done|]. destruct (unicode_decomp_char c k) as [res|]; [|done]. bind.
  destruct (_ <? _)%nat; [done|]. destruct res as [|r res]; [done|]. destruct (mapM (full n k) (r :: res)) as [ls|] eqn:Em; [|done]. intros E. bind.
  apply mapM_Some in Em. destruct ls as [|l ls]; [by inversion Em|]. apply Forall2_cons in Em as [El _]. revert E. bind. intros [= E]. apply app_eq_nil in E as [-> _]. by apply (IH r).
Qed.
Lemma flat_length k src : code_points src -> (length src <= length (flat k src))%nat.
Proof.
  unfold flat. induction 1 as [|c src Hc _ IH]; cbn [map concat length]; [lia|]. rewrite length_app. pose proof (nfd_full k c Hc) as E.
  destruct (nfd k c); [by apply full_nonempty in E|]. cbn. lia.
Qed.
Lemma canonical_length k src : length (canonical k src) = length (flat k src).
Proof. unfold canonical. by rewrite reorder_perm. Qed.

(** ** Composition *)

(** The loop may start at the first character. *)
Lemma compose_loop_first n D : code_points D -> nf_decomposed n = false -> compose_loop (S (S (length D))) D 0 0 = compose n D.
Proof.
  intros HD Hn. unfold compose. rewrite Hn, orb_false_r. destruct D as [|x D]; [done|]. apply Forall_cons in HD as [Hx _].
  cbn [compose_loop]. rewrite (proj2 (Z.ltb_lt _ _)) by (cbn; lia). change (get (x :: D) 0) with (Some x). bind.
  destruct (code_known x ltac:(lia)) as [-> _]. bind. change (0 - 1) with (-1). cbn [find_starter Z.leb Z.compare]. bind. cbn [negb Z.eqb]. change (<[Z.to_nat 0:=x]> (x :: D)) with (x :: D).
  change (0 + 1) with 1. destruct (Z.leb_spec (len (x :: D)) 1); [|done]. destruct D; [|cbn in *; lia]. done.
Qed.
Lemma compose_spec n src : code_points src -> 0x11a7 ∉ canonical (nf_compat n) src -> nf_decomposed n = false ->
  exists out, compose n (canonical (nf_compat n) src) = Some out /\ code_points out /\ ordered out /\ canonical false out = canonical (nf_compat n) src.
Proof.
  intros Hs Hx Hn. destruct (canonical_ok (nf_compat n) src Hs) as (Hc & Hst%stable_canonical & Ho). set (D := canonical _ src) in *. clearbody D.
  rewrite <- compose_loop_first by done. destruct (compose_loop_spec D D (S (S (length D))) [] []) as (out & E & [Hp Ho' _ _ Ht]); [|done|lia|].
  - split; [done|done|constructor|done|]. by apply canonical_id.
  - exists out. rewrite app_nil_r in *. split_and!; [exact E|done|done|exact Ht].
Qed.

(** ** Latin-1 *)
Definition latin1_ok (c : Z) : bool :=
  match nfd false c with
  | [d] => d =? c
  | [b; m] => (0 <=? b) && (b <? 0x100) && code_point m && negb (ccc m =? 0) && bool_decide (compose_pair b m = Some c)
  | _ => false
  end.
Lemma latin1_checked : forallb latin1_ok (seqZ 0 0x100) = true.
Proof. vm_compute. reflexivity. Qed.
Definition latin1_text (l : list Z) : Prop := Forall (fun c => 0 <= c < 0x100) l.
Lemma latin1_nfd c : 0 <= c < 0x100 -> nfd false c = [c] \/
  exists b m, nfd false c = [b; m] /\ 0 <= b < 0x100 /\ 0 <= m < 0x110000 /\ ccc m <> 0 /\ compose_pair b m = Some c.
Proof.
  intros Hc. pose proof latin1_checked as H. rewrite forallb_forall in H. specialize (H c). rewrite <- list_elem_of_In, elem_of_seqZ in H. specialize (H ltac:(lia)).
  unfold latin1_ok in H. destruct (nfd false c) as [|b [|m [|]]]; [done| | |done]; [left; by apply Z.eqb_eq in H as ->|right].
  rewrite !andb_true_iff, negb_true_iff, bool_decide_eq_true in H. unfold code_point in H. destruct H as [[[[? ?] ?] ?] ?]. exists b, m. split_and!; done || lia.
Qed.
Lemma latin1_class c : 0 <= c < 0x100 -> ccc c = 0.
Proof. intros Hc. destruct (code_known c ltac:(lia)) as [_ [_ H]]. apply H. lia. Qed.
Lemma latin1_points l : latin1_text l -> code_points l.
Proof. intros H. eapply Forall_impl; [exact H|]. cbn. lia. Qed.
Lemma latin1_ordered src : latin1_text src -> ordered (flat false src) /\ (forall x, head (flat false src) = Some x -> ccc x = 0).
Proof.
  intros H. induction H as [|c src Hc Hs [IH1 IH2]]; [by split; [constructor|]|]. change (flat false (c :: src)) with (nfd false c ++ flat false src).
  pose proof (code_classed _ (proj1 (flat_ok false src (latin1_points _ Hs)))) as Hcl. destruct (latin1_nfd c Hc) as [->|(b & m & -> & Hb & Hm & Hcm & _)]; cbn [app head].
  - split; [by apply ordered_starter; [apply latin1_class| |]|]. intros x <-%(inj Some). by apply latin1_class.
  - split; [|intros x <-%(inj Some); by apply latin1_class]. apply ordered_starter; [by apply latin1_class| |].
    + constructor; [|done]. destruct (code_known m ltac:(lia)) as [_ [? _]]. lia.
    + apply (ascending_ordered [m]); [repeat constructor|done|done].
Qed.
Lemma latin1_loop src : forall fuel out junk, latin1_text src -> latin1_text out -> (length (flat false src) < fuel)%nat ->
  compose_loop fuel (out ++ junk ++ flat false src) (len out + len junk) (len out) = Some (out ++ src).
Proof.
  induction src as [|c src IH]; intros fuel out junk Hs Ho Hf; (destruct fuel as [|fuel]; [lia|]).
  { cbn [compose_loop flat concat map]. rewrite (proj2 (Z.ltb_ge _ _)) by (rewrite !length_app; cbn; lia). by rewrite Nat2Z.id, take_app_length, app_nil_r. }
  apply Forall_cons in Hs as [Hc Hs]. change (flat false (c :: src)) with (nfd false c ++ flat false src) in *.
  replace (out ++ c :: src) with ((out ++ [c]) ++ src) by (by rewrite <- app_assoc).
  assert (forall d fuel rest, 0 <= d < 0x100 -> exists junk', compose_loop (S fuel) (out ++ junk ++ d :: rest) (len out + len junk) (len out) =
    compose_loop fuel ((out ++ [d]) ++ junk' ++ rest) (len (out ++ [d]) + len junk') (len (out ++ [d]))) as Hkeep.
  { clear -Ho. intros d fuel rest Hd. destruct (compose_loop_step fuel out junk d rest) as (out' & junk' & E & [[-> _]|(a & s & m & p & _ & _ & _ & _ & _ & _ & Hp)]);
      [by apply latin1_points|lia|lia|by exists junk'|]. destruct Hp as (_ & _ & _ & ?). lia. }
  assert (forall d, 0 <= d < 0x100 -> latin1_text (out ++ [d])) as Hod by (intros d Hd; apply Forall_app; split; [done|]; constructor; [done|constructor]).
  destruct (latin1_nfd c Hc) as [E|(b & m & E & Hb & Hm & Hcm & Ep)]; rewrite E in *; cbn [app length] in *.
  - destruct (Hkeep c fuel (flat false src) Hc) as [junk' ->]. apply IH; [done|by apply Hod|lia].
  - destruct (Hkeep b fuel (m :: flat false src) Hb) as [junk' ->]. destruct fuel as [|fuel]; [lia|].
    assert (m <> 0x11a7) as Hm7 by (intros ->; by vm_compute in Hcm).
    destruct (compose_loop_step fuel (out ++ [b]) junk' m (flat false src)) as (out' & junk2 & -> & [[_ Hk]|(a & s & m' & p & Eo & -> & Hs' & Hm' & _ & Ep' & Hcp)]);
      [by apply latin1_points, Hod|done|done| |].
    + rewrite (Hk b) in Ep; [|apply last_snoc|by apply latin1_class]. apply (inj Some) in Ep. exfalso. subst c. clear -E. by vm_compute in E.
    + destruct m' as [|y m'] using rev_ind; [|clear IHm'].
      * apply app_inj_tail in Eo as [<- <-]. rewrite Ep in Ep'. apply (inj Some) in Ep' as <-. apply IH; [done|by apply Hod|lia].
      * change (a ++ s :: m' ++ [y]) with (a ++ (s :: m') ++ [y]) in Eo. rewrite app_assoc in Eo. apply app_inj_tail in Eo as [_ <-].
        apply Forall_app in Hm' as [_ Hm']. apply Forall_cons in Hm' as [Hn _]. by destruct Hn; apply latin1_class.
Qed.
(** The Latin-1 case is the general case. *)
Lemma latin1_compose src : latin1_text src -> compose UNICODE_NFC (canonical false src) = Some src.
Proof.
  intros Hs. pose proof (latin1_points _ Hs) as Hp. rewrite <- compose_loop_first by (done || by apply canonical_ok). unfold canonical.
  rewrite reorder_id by (by apply latin1_ordered). apply (latin1_loop src _ [] []); [done|constructor|lia].
Qed.

(** ** The results *)

(** Only U+11A7 has U+11A7 in its decomposition. *)
Definition no_11a7 (k : bool) (c : Z) : bool := match full NFD_DEPTH k c with Some l => negb (existsb (Z.eqb 0x11a7) l) | None => true end.
Lemma no_11a7_checked k : forallb (no_11a7 k) decomp_chars = true.
Proof. destruct k; vm_compute; reflexivity. Qed.
Lemma nfd_11a7 k c : 0 <= c < 0x110000 -> 0x11a7 ∈ nfd k c -> c = 0x11a7.
Proof.
  intros Hc. pose proof (nfd_full k c Hc) as E. revert E. generalize (nfd k c). intros l E Hin. destruct (is_hangul c) eqn:Eh.
  - pose proof (hangul_jamo c Eh) as Hj. change NFD_DEPTH with (S (pred NFD_DEPTH)) in E. cbn [full] in E. rewrite Eh in E. injection E as E. rewrite <- E in Hin.
    rewrite Forall_forall in Hj. specialize (Hj _ Hin). unfold jamo in Hj. rewrite !elem_of_app, !elem_of_seqZ in Hj. lia.
  - destruct (decomp_char_found c k) as [Ed|Hd].
    + change NFD_DEPTH with (S (pred NFD_DEPTH)) in E. cbn [full] in E. rewrite Eh, Ed in E. revert E. bind. intros E. injection E as E. rewrite <- E in Hin.
      by apply list_elem_of_singleton in Hin.
    + pose proof (no_11a7_checked k) as Hn. rewrite forallb_forall in Hn. specialize (Hn c (proj1 (list_elem_of_In _ _) Hd)). unfold no_11a7 in Hn. rewrite E in Hn.
      apply negb_true_iff, not_true_iff_false in Hn. destruct Hn. apply existsb_exists. exists 0x11a7. by rewrite <- list_elem_of_In.
Qed.
Lemma canonical_11a7 k src : code_points src -> 0x11a7 ∉ src -> 0x11a7 ∉ canonical k src.
Proof.
  intros Hs Hn Hin. unfold canonical in Hin. rewrite reorder_perm in Hin. apply Hn. clear Hn. unfold flat in Hin.
  induction Hs as [|c src Hc _ IH]; cbn [map concat] in Hin; [by apply elem_of_nil in Hin|]. apply elem_of_app in Hin as [Hin|Hin]; apply elem_of_cons.
  - left. symmetry. by eapply nfd_11a7.
  - right. by apply IH.
Qed.

(** The texts [normalize_general] is about: code points, with a decomposition of
    [int] length, and for the composed forms without U+11A7 *)
Definition normalizable (n : UnicodeNormalizationEnum) (src : list Z) : Prop :=
  fits (nf_compat n) src /\ (nf_decomposed n = true \/ 0x11a7 ∉ canonical (nf_compat n) src).
Lemma normalize_general ok n src : normalizable n src ->
  exists out, code_points out /\ ordered out /\ canonical false out = canonical (nf_compat n) src /\ (nf_decomposed n = true -> out = canonical (nf_compat n) src) /\
    compose n (canonical (nf_compat n) src) = Some out /\
    (unicode_normalize ok src n = Some None /\ ~ always_ok ok \/ unicode_normalize ok src n = Some (Some out)).
Proof.
  intros [Hf Hx]. assert (exists out, compose n (canonical (nf_compat n) src) = Some out /\ code_points out /\ ordered out /\
    canonical false out = canonical (nf_compat n) src /\ (nf_decomposed n = true -> out = canonical (nf_compat n) src)) as (out & E & Hp & Ho & Hc & Hd).
  { destruct (nf_decomposed n) eqn:En.
    - exists (canonical (nf_compat n) src). destruct (canonical_ok (nf_compat n) src (proj1 Hf)) as (Hc & Hst & Ho). unfold compose. rewrite En, orb_true_r.
      split_and!; try done. apply canonical_id; [by eapply stable_canonical|done].
    - destruct Hx as [|Hx]; [done|]. destruct (compose_spec n src (proj1 Hf) Hx En) as (out & ? & ? & ? & ?). by exists out. }
  exists out. split_and!; [done|done|done|done|done|]. destruct (unicode_normalize_spec ok n src Hf) as [H|H]; [by left|right]. rewrite H. destruct (latin1 n src) eqn:El; [|by rewrite E].
  unfold latin1 in El. apply andb_true_iff in El as [->%bool_decide_eq_true El]. rewrite forallb_forall in El. cbn [nf_compat] in E.
  rewrite latin1_compose in E; [by apply (inj Some) in E as ->|]. apply Forall_forall. intros c Hc'. specialize (El c (proj1 (list_elem_of_In _ _) Hc')).
  pose proof (proj1 (Forall_forall _ _) (proj1 Hf) c Hc'). cbv beta in *. lia.
Qed.
Lemma normalizable_out n src out : normalizable n src -> code_points out -> canonical false out = canonical (nf_compat n) src ->
  normalizable n out /\ canonical (nf_compat n) out = canonical (nf_compat n) src.
Proof.
  intros [(Hs & _ & Hl) Hx] Hp Hc. destruct (canonical_ok (nf_compat n) src Hs) as (_ & Hst & _).
  assert (canonical (nf_compat n) out = canonical (nf_compat n) src) as E by (rewrite <- Hc in *; by apply canonical_compat).
  split; [|done]. split; [|by rewrite E]. assert (length (flat (nf_compat n) out) = length (flat (nf_compat n) src)) as El by (by rewrite <- !canonical_length, E).
  pose proof (flat_length (nf_compat n) out Hp). split_and!; [done|lia|lia].
Qed.

Lemma normalizable_intro n src : fits (nf_compat n) src -> nf_decomposed n = true \/ (0x11a7 ∉ src) -> normalizable n src.
Proof. intros Hf Hn. split; [done|]. destruct Hn as [?|Hn]; [by left|right]. by apply canonical_11a7; [apply Hf|]. Qed.

(** C29: take a text of code points whose decomposition has an [int] length and,
    for the composed forms NFC and NFKC, which does not contain U+11A7.  Then
    [unicode_normalize] returns -1 only when memory is refused; otherwise the
    text it returns has no reorderable pair of marks, and its canonical
    decomposition is that of the source (the compatibility decomposition for NFKC
    and NFKD); for NFD and NFKD the text is that decomposition.  With U+11A7 the
    composed forms may lose a character, see [compose_loses_11a7]. *)
Theorem normalize_correct ok n src : fits (nf_compat n) src -> nf_decomposed n = true \/ (0x11a7 ∉ src) ->
  (unicode_normalize ok src n = Some None /\ ~ always_ok ok) \/
  exists out, unicode_normalize ok src n = Some (Some out) /\ code_points out /\ ordered out /\
    canonical false out = canonical (nf_compat n) src /\ (nf_decomposed n = true -> out = reorder (flat (nf_compat n) src)).
Proof.
  intros Hf Hx. destruct (normalize_general ok n src (normalizable_intro n src Hf Hx)) as (out & H1 & H2 & H3 & H4 & _ & [H5|H5]); [by left|right]. exists out. by split_and!.
Qed.

(** C30: a normal form decides equivalence.  For two texts of code points whose
    decompositions have an [int] length and, for NFC and NFKC, which do not
    contain U+11A7, and for granted memory: the forms are equal exactly when the
    ordered decompositions are; and normalizing a form again changes nothing.
    With U+11A7 the first part fails: U+AC00 U+11A7 and U+AC00 have the same NFC
    and different decompositions. *)
Theorem normalize_decides ok n s1 s2 : always_ok ok -> fits (nf_compat n) s1 -> fits (nf_compat n) s2 ->
  nf_decomposed n = true \/ (0x11a7 ∉ s1) /\ (0x11a7 ∉ s2) ->
  (unicode_normalize ok s1 n = unicode_normalize ok s2 n <-> canonical (nf_compat n) s1 = canonical (nf_compat n) s2) /\
  (forall out, unicode_normalize ok s1 n = Some (Some out) -> unicode_normalize ok out n = Some (Some out)).
Proof.
  intros Hok Hf1 Hf2 Hx. assert (normalizable n s1 /\ normalizable n s2) as [H1 H2] by (split; apply normalizable_intro; tauto). destruct (normalize_general ok n s1 H1) as (o1 & Hp1 & _ & Hc1 & _ & E1 & [[_ []]|Hn1]); [done|].
  destruct (normalize_general ok n s2 H2) as (o2 & _ & _ & Hc2 & _ & E2 & [[_ []]|Hn2]); [done|]. rewrite Hn1, Hn2. split; [split|].
  - intros [= ->]. by rewrite <- Hc1, <- Hc2.
  - intros E. rewrite E in E1. rewrite E1 in E2. apply (inj Some) in E2 as ->. reflexivity.
  - intros out [= <-]. destruct (normalizable_out n s1 o1 H1 Hp1 Hc1) as [Ho Hco].
    destruct (normalize_general ok n o1 Ho) as (o3 & _ & _ & _ & _ & E3 & [[_ []]|Hn3]); [done|]. rewrite Hco, E1 in E3. apply (inj Some) in E3 as <-. exact Hn3.
Qed.

(** U+11A7, a vowel, is taken for the final consonant number 0 and lost. *)
Example compose_loses_11a7 : unicode_normalize (fun _ => true) [0xac00; 0x11a7] UNICODE_NFC = Some (Some [0xac00]) /\
  unicode_normalize (fun _ => true) [0xac00] UNICODE_NFC = Some (Some [0xac00]) /\ canonical false [0xac00; 0x11a7] <> canonical false [0xac00].
Proof. split_and!; [vm_compute; reflexivity..|]. intros E. vm_compute in E. discriminate E. Qed.

Lemma normalize_correct_witness :
  exists out, unicode_normalize (fun _ => true) [0x1e0a; 0x323; 0xd55c] UNICODE_NFC = Some (Some out) /\ code_points out /\ ordered out /\
    canonical false out = canonical false [0x1e0a; 0x323; 0xd55c] /\ out = [0x1e0c; 0x307; 0xd55c].
Proof.
  destruct (normalize_correct (fun _ => true) UNICODE_NFC [0x1e0a; 0x323; 0xd55c]) as [[_ []]|(out & E & Hp & Ho & Hc & _)].
  - split; [do 3 (constructor; [lia|]); constructor|split; vm_compute; reflexivity].
  - right. apply (bool_decide_unpack _). vm_compute. exact I.
  - by intros n.
  - exists out. split; [exact E|]. split; [exact Hp|]. split; [exact Ho|]. split; [exact Hc|]. vm_compute in E. congruence.
Defined.
Lemma normalize_decides_witness :
  unicode_normalize (fun _ => true) [0x1e0a; 0x323] UNICODE_NFKC = unicode_normalize (fun _ => true) [0x44; 0x323; 0x307] UNICODE_NFKC.
Proof.
  apply (normalize_decides (fun _ => true) UNICODE_NFKC [0x1e0a; 0x323] [0x44; 0x323; 0x307]); [done| | | |vm_compute; reflexivity].
  1-2: split; [repeat (constructor; [lia|]); constructor|split; vm_compute; reflexivity].
  right. split; apply (bool_decide_unpack _); vm_compute; exact I.
Defined.
