(* ===== verification/UnicodeNamed.v ===== *)
(** * The sets behind \p{...}

    [unicode_general_category], [unicode_script] and [unicode_prop] build the
    sets their names stand for, stated with the category, the script and the
    property of a code point; the predicates on single characters
    ([lre_is_cased] and the like), which read other tables, agree with the
    sets. *)
From Stdlib Require Import Sorted.
From S2P Require Import Prelude Sort SortProps CharRange CharRangeProps UnicodeTables UnicodeData UnicodeCase UnicodeCaseProps UnicodeCaseMem.
From S2P Require Import UnicodeProp UnicodeSets UnicodeSetsProps.

(** ** One table *)
Lemma run_points_ok rs : forall code bit, positive rs ->
  weakly_sorted (run_points rs code bit) /\ Forall (fun p => p <= code + total rs) (run_points rs code bit).
Proof.
  induction rs as [|r rs IH]; intros code bit Hp; [split; [apply weakly_sorted_nil|done]|]. apply Forall_cons in Hp as [Hr Hp]. cbn [run_points].
  destruct (IH (code + r) (negb bit) Hp) as [Hw Hb]. pose proof (run_points_low rs (code + r) (negb bit) Hp) as Hlo.
  change (total (r :: rs)) with (r + total rs). pose proof (runs_total_nonneg rs Hp). split.
  - apply (weakly_sorted_app _ _ (code + r)); [destruct bit; [apply weakly_sorted_pair; lia|apply weakly_sorted_nil]|done| |done].
    destruct bit; repeat constructor; lia.
  - apply Forall_app. split; [destruct bit; repeat constructor; lia|]. eapply Forall_impl; [exact Hb|]. cbn. lia.
Qed.
Definition table_ok (t : list Z) : bool :=
  match runs t with Some rs => forallb (Z.ltb 0) rs && (total rs <=? 0x110000) | None => false end.
Definition in_table (t : list Z) (x : Z) : bool :=
  match runs t with Some rs => default false (lookup_runs rs x 0 false) | None => false end.
Lemma prop1_builds ok t : table_ok t = true -> exists r, unicode_prop1 ok cr_init t = Some r /\ builds ok r (in_table t).
Proof.
  unfold table_ok, in_table, unicode_prop1. destruct (runs t) as [rs|] eqn:E; [|done]. rewrite andb_true_iff, Z.leb_le. intros [Hp Ht].
  assert (positive rs) as Hp' by (apply Forall_forall; intros r Hr%list_elem_of_In; rewrite forallb_forall in Hp; apply Z.ltb_lt, Hp, Hr).
  destruct (prop1_runs ok t rs E cr_init 0 false Hp' ltac:(lia) ltac:(lia)) as (cr & r & -> & H1 & H2). exists (cr, r). split; [done|].
  destruct (run_points_ok rs 0 false Hp') as [Hw Hb]. pose proof (run_points_low rs 0 false Hp') as Hlo.
  apply (builds_points ok _ (run_points rs 0 false)); [done| |intros x Hx; apply run_points_mem; [done|lia]|done|done].
  apply Forall_and. split; [done|]. eapply Forall_impl; [exact Hb|]. cbn. lia.
Qed.
(** The set of a table and the test of its index *)
Lemma is_in_table_set table index c : index_ok table index = true -> 0 <= c -> lre_is_in_table c table index = Some (in_table table c).
Proof.
  intros Hok Hc. destruct (is_in_table_spec table index c Hok Hc) as (rs & Hrs & Hp & _ & ->). unfold in_table. rewrite Hrs. f_equal. by apply run_points_mem.
Qed.
(** The property of an index of [unicode_prop_table] *)
Definition in_prop (prop_idx x : Z) : bool :=
  match unicode_prop_table !! Z.to_nat prop_idx with Some t => in_table t x | None => false end.
Lemma prop_tables_ok : forallb table_ok unicode_prop_table = true.
Proof. vm_compute. reflexivity. Qed.
Lemma prop1_at_builds ok idx : 0 <= idx < Z.of_nat (length unicode_prop_table) ->
  exists r, prop1_at ok cr_init idx = Some r /\ builds ok r (in_prop idx).
Proof.
  intros Hi. unfold prop1_at, in_prop. destruct (lookup_lt_is_Some_2 unicode_prop_table (Z.to_nat idx) ltac:(lia)) as [t Et]. rewrite Et. bind.
  apply prop1_builds. pose proof prop_tables_ok as H. rewrite forallb_forall in H. apply H, list_elem_of_In. by eapply list_elem_of_lookup_2.
Qed.

(** ** Case conversion *)

(** [conv_type] changes [x]: 0 to capitals, 1 to small letters, 2 folds *)
Definition changes (conv_type x : Z) : bool := negb (bool_decide (lre_case_conv 2 x conv_type = Some [x])).
Definition case_changes (mask x : Z) : bool :=
  existsb (fun t => if Z.testbit mask t then changes t x else false) [0; 1; 2].
Definition case_points (mask : Z) : list Z := cr_points (unicode_case1 all_ok cr_init mask).1.

(** The characters of a set and of the entries, listed *)
Fixpoint expand (pts : list Z) : list Z := match pts with s :: e :: pts => seqZ s (e - s) ++ expand pts | _ => [] end.
Definition entry_chars : list Z := flat_map (fun v => seqZ (entry_code v) (entry_len v)) case_conv_table1.
Lemma in_expand pts x : x ∈ expand pts <-> in_ranges pts x = true.
Proof.
  induction pts as [|y|s e pts IH] using list_pair_ind; [by rewrite elem_of_nil|by rewrite elem_of_nil|]. cbn.
  rewrite elem_of_app, elem_of_seqZ, IH, orb_true_iff, andb_true_iff, Z.leb_le, Z.ltb_lt. intuition lia.
Qed.
Lemma in_entry_chars x : x ∈ entry_chars <-> has_entry x.
Proof.
  unfold entry_chars, has_entry. rewrite list_elem_of_In, in_flat_map. unfold in_entry, entry_end. split.
  - intros (v & Hv & Hx). apply list_elem_of_In, elem_of_seqZ in Hx. apply list_elem_of_In, list_elem_of_lookup in Hv as [j Hj].
    exists (Z.of_nat j), v. split; [apply get_spec; rewrite Nat2Z.id; split; [lia|done]|lia].
  - intros (j & v & [_ Hv]%get_spec & Hx). exists v. split; [by eapply list_elem_of_In, list_elem_of_lookup_2|]. apply list_elem_of_In, elem_of_seqZ. lia.
Qed.
(** The set of a mask, checked against the conversions of each character of
    an entry, for the masks that the properties use *)
Definition case_mask_ok (mask : Z) (pts : list Z) : bool :=
  (0 <? mask) && sortedb pts && Nat.even (length pts) && forallb (fun p => (0 <=? p) && (p <=? 0x110000)) pts &&
  bool_decide (expand pts = List.filter (case_changes mask) entry_chars).
Definition case_masks : list Z := [CASE_U; CASE_L; CASE_F; Z.lor (Z.lor CASE_U CASE_L) CASE_F].
Lemma case_masks_checked : forallb (fun m => case_mask_ok m (case_points m) && (unicode_case1 all_ok cr_init m).2) case_masks = true.
Proof. vm_compute. reflexivity. Qed.
Lemma no_entry_conv c t : 0 <= c -> case_find c = Some None -> (forall i v, get case_conv_table1 i = Some v -> ~ in_entry v c) -> lre_case_conv 2 c t = Some [c].
Proof.
  intros Hc Hf Hno. cbn [lre_case_conv]. destruct (Z.ltb_spec c 128) as [Hlt|Hge]; [|by rewrite Hf].
  assert (~ 65 <= c < 91) as Hu by exact (Hno 0 0x00209a30 eq_refl).
  assert (~ 97 <= c < 123) as Hl by exact (Hno 1 0x00309a00 eq_refl).
  unfold is_upper_ascii, is_lower_ascii. destruct (negb (t =? 0)), (Z.leb_spec 65 c), (Z.leb_spec c 90), (Z.leb_spec 97 c), (Z.leb_spec c 122); cbn; done || lia.
Qed.
(** Nothing but memory fails. *)
Section Granted.
Context (ok : Z -> bool) (Hok : always_ok ok).
Lemma add_granted cr a b : (cr_add_interval ok cr a b).2 = true.
Proof. by apply cr_add_interval_spec. Qed.
Lemma then_granted r k : r.2 = true -> (forall cr, (k cr).2 = true) -> (then_ r k).2 = true.
Proof. unfold then_. destruct r as [cr []]; [|done]. intros _ H. apply H. Qed.
Lemma every_other_granted fuel : forall cr code i len, (add_every_other ok fuel cr code i len).2 = true.
Proof.
  induction fuel as [|fuel IH]; intros cr code i len; cbn [add_every_other]; [done|]. destruct (i <? len); [|done].
  apply then_granted; [apply add_granted|]. auto.
Qed.
Lemma entry_granted cr mask v : (unicode_case_entry ok cr mask v).2 = true.
Proof.
  unfold unicode_case_entry. cbv zeta. destruct (_ && _); [apply every_other_granted|]. destruct (_ && _); [|apply add_granted].
  apply then_granted; [destruct (negb (negb _)); [apply add_granted|done]|]. intros. apply then_granted; [apply add_granted|].
  intros. destruct (negb _); [apply add_granted|done].
Qed.
Lemma case_loop_granted tab : forall cr cm mask, (unicode_case_loop ok tab cr cm mask).2 = true.
Proof.
  induction tab as [|v tab IH]; intros cr cm mask; cbn [unicode_case_loop]; [done|]. destruct (Z.testbit _ _); [|auto].
  apply then_granted; [apply entry_granted|]. auto.
Qed.
End Granted.
Lemma case_points_spec mask : mask ∈ case_masks ->
  0 < mask /\ (unicode_case1 all_ok cr_init mask).2 = true /\ weakly_sorted (case_points mask) /\ Forall (fun p => 0 <= p <= 0x110000) (case_points mask) /\
  forall x, 0 <= x -> in_ranges (case_points mask) x = case_changes mask x.
Proof.
  intros Hm. pose proof case_masks_checked as H. rewrite forallb_forall in H. specialize (H mask (proj1 (list_elem_of_In _ _) Hm)).
  unfold case_mask_ok in H. rewrite !andb_true_iff, bool_decide_eq_true, Z.ltb_lt in H. destruct H as [[[[[Hz Hs] He] Hb] Hl] Hr].
  split_and!; [done|done|split; [by apply sortedb_sound|by apply Nat.even_spec]| |].
  { apply Forall_forall. intros p Hin%list_elem_of_In. rewrite forallb_forall in Hb. specialize (Hb p Hin). lia. }
  intros x Hx. apply eq_true_iff_eq. rewrite <- in_expand, Hl, list_elem_of_In, filter_In, <- list_elem_of_In, in_entry_chars.
  split; [by intros [_ ?]|]. intros Hc. split; [|done]. destruct (case_find_spec x) as [(i & v & _ & Hv & Hin)|[Hf Hno]]; [by exists i, v|].
  assert (forall t, changes t x = false) as Hn.
  { intros t. unfold changes. rewrite (no_entry_conv x t Hx Hf Hno), bool_decide_true by reflexivity. reflexivity. }
  unfold case_changes in Hc. cbn [existsb] in Hc. rewrite !Hn in Hc. exfalso. revert Hc. repeat destruct (Z.testbit _ _); discriminate.
Qed.
Lemma case1_builds ok mask : mask ∈ case_masks -> builds ok (unicode_case1 ok cr_init mask) (case_changes mask).
Proof.
  intros Hm. destruct (case_points_spec mask Hm) as (Hz & Hb & Hw & Hr & Hx). assert ((mask =? 0) = false) as Hz' by (apply Z.eqb_neq; lia).
  apply (builds_points ok _ (case_points mask)); [done|done|intros; apply Hx; lia| |].
  - intros Hok. unfold unicode_case1. rewrite Hz'. by apply case_loop_granted.
  - intros Hr'. unfold case_points, unicode_case1 in *. rewrite Hz' in *.
    exact (loop_agrees ok all_ok case_conv_table1 cr_init cr_init mask (run_mask mask) eq_refl Hr' Hb).
Qed.

(** ** Operations on sets *)

(** The stack machine of [unicode_prop_ops] on sets as predicates, with its
    checks of the stack *)
Fixpoint ops_set (ops : list PropOPEnum) (stack : list (Z -> bool)) : option (Z -> bool) :=
  match ops with
  | [] => None
  | op :: ops =>
      let push set := if (length stack <? POP_STACK_LEN_MAX)%nat then ops_set ops (set :: stack) else None in
      let binary op :=
        match stack with
        | set2 :: set1 :: stack' =>
            if (length stack <? POP_STACK_LEN_MAX)%nat then ops_set ops ((fun x => op_bool op (set1 x) (set2 x)) :: stack') else None
        | _ => None
        end in
      match op with
      | POP_GC a => push (fun x => Z.testbit a (general_category x))
      | POP_PROP a => if (0 <=? a) && (a <? Z.of_nat (length unicode_prop_table)) then push (in_prop a) else None
      | POP_CASE a => if bool_decide (a ∈ case_masks) then push (case_changes a) else None
      | POP_UNION => binary CR_OP_UNION
      | POP_INTER => binary CR_OP_INTER
      | POP_XOR => binary CR_OP_XOR
      | POP_INVERT => match stack with set1 :: stack' => ops_set ops ((fun x => negb (set1 x)) :: stack') | [] => None end
      | POP_END => match stack with [set1] => Some set1 | _ => None end
      end
  end.
(** A set in memory *)
Definition holds (cr : CharRange) (set : Z -> bool) : Prop :=
  cr_ok cr /\ forall x, 0 <= x < 0x110000 -> in_ranges (cr_points cr) x = set x.
(** The outcome of a function that returns 0 or -1 *)
Definition set_answers (ok : Z -> bool) (o : option (CharRange * Z)) (set : Z -> bool) : Prop :=
  exists cr r, o = Some (cr, r) /\ (r = 0 \/ r = -1) /\ (always_ok ok -> r = 0) /\ (r = 0 -> holds cr set).
Lemma builds_answers ok r set : builds ok r set -> set_answers ok (Some (minus_one r)) set.
Proof.
  intros [H1 H2]. destruct r as [cr r]. exists cr, (if r then 0 else -1). split; [done|]. cbn in *. split; [destruct r; auto|].
  split; [intros H; by rewrite H1|]. destruct r; [|done]. intros _. by apply H2.
Qed.
Lemma answers_ext ok o set set' : (forall x, 0 <= x < 0x110000 -> set x = set' x) -> set_answers ok o set -> set_answers ok o set'.
Proof.
  intros He (cr & r & E & Hr & Ha & Hh). exists cr, r. split_and!; [done..|]. intros H0. destruct (Hh H0) as [Hk Hx].
  split; [done|]. intros x Hc. by rewrite Hx, He.
Qed.

Section Ops.
Context (ok : Z -> bool).
Lemma answers_failed cr set : ~ always_ok ok -> set_answers ok (Some (cr, -1)) set.
Proof. intros Hn. exists cr, (-1). split_and!; [done|by right|done|done]. Qed.
(** One operation: its result goes on the stack, or memory was refused. *)
Lemma builds_then cr r set k target : builds ok r set -> (forall cr1, holds cr1 set -> set_answers ok (k cr1) target) ->
  set_answers ok (if r.2 then k r.1 else Some (cr, -1)) target.
Proof.
  intros [H1 H2] Hk. destruct r as [cr1 []]; cbn in *; [apply Hk; by apply H2|]. apply answers_failed. intros H. by apply H1 in H.
Qed.
Lemma prop_ops_loop_answers cr ops target : forall stack sets, Forall2 holds stack sets -> ops_set ops sets = Some target ->
  set_answers ok (prop_ops_loop ok cr ops stack) target.
Proof.
  induction ops as [|op ops IH]; intros stack sets Hst E; [done|].
  assert (forall o set, (exists r, o = Some r /\ builds ok r set) ->
    (if (length sets <? POP_STACK_LEN_MAX)%nat then ops_set ops (set :: sets) else None) = Some target ->
    set_answers ok (if negb (length stack <? POP_STACK_LEN_MAX)%nat then None else
      r ← o; if r.2 : bool then prop_ops_loop ok cr ops (r.1 :: stack) else Some (cr, -1)) target) as Hpush.
  { intros o set (r & -> & Hr) E'. rewrite (Forall2_length _ _ _ Hst). destruct (_ <? _)%nat; [|done]. bind. cbn [negb].
    apply (builds_then cr r set (fun cr1 => prop_ops_loop ok cr ops (cr1 :: stack))); [done|]. intros cr1 Hc. apply (IH _ (set :: sets)); [by constructor|done]. }
  assert (forall bop,
    match sets with
    | set2 :: set1 :: sets' =>
        if (length sets <? POP_STACK_LEN_MAX)%nat then ops_set ops ((fun x => op_bool bop (set1 x) (set2 x)) :: sets') else None
    | _ => None
    end = Some target ->
    set_answers ok match stack with
        | cr2 :: cr1 :: stack' =>
            if negb (length stack <? POP_STACK_LEN_MAX)%nat then None
            else
              let r := cr_op ok cr_init (cr_points cr1) (cr_points cr2) bop in
              if r.2 : bool then prop_ops_loop ok cr ops (r.1 :: stack') else Some (cr, -1)
        | _ => None
        end target) as Hbin.
  { intros bop E'. pose proof (Forall2_length _ _ _ Hst) as Hl. destruct Hst as [|cr2 set2 ? ? [Hk2 Hx2] Hst]; [done|]. destruct Hst as [|cr1 set1 stack' sets' [Hk1 Hx1] Hst]; [done|].
    rewrite Hl. destruct (_ <? _)%nat; [|done]. cbn [negb]. cbv zeta.
    apply (builds_then cr _ (fun x => op_bool bop (set1 x) (set2 x)) (fun cr1 => prop_ops_loop ok cr ops (cr1 :: stack')));
      [by apply builds_op|]. intros cr3 Hc. apply (IH _ ((fun x => op_bool bop (set1 x) (set2 x)) :: sets')); [by constructor|done]. }
  destruct op; cbn [ops_set prop_ops_loop] in *.
  - apply (Hpush _ (fun x => Z.testbit a (general_category x))); [apply unicode_general_category1_builds|done].
  - destruct ((0 <=? a) && (a <? Z.of_nat (length unicode_prop_table))) eqn:Ea; [|done]. apply (Hpush _ (in_prop a)); [apply prop1_at_builds; lia|done].
  - case_bool_decide as Hm; [|done]. apply (Hpush _ (case_changes a)); [eexists; split; [done|by apply case1_builds]|done].
  - by apply Hbin.
  - by apply Hbin.
  - by apply Hbin.
  - destruct Hst as [|cr1 set1 stack' sets' [Hk1 Hx1] Hst]; [done|]. cbv zeta.
    apply (builds_then cr _ (fun x => negb (set1 x)) (fun cr1 => prop_ops_loop ok cr ops (cr1 :: stack'))); [by apply builds_invert|].
    intros cr3 Hc. apply (IH _ ((fun x => negb (set1 x)) :: sets')); [by constructor|done].
  - destruct Hst as [|cr1 set1 stack' sets' [Hk1 Hx1] Hst]; [done|]. destruct Hst; [|done]. injection E as <-. apply builds_answers. by apply builds_copy.
Qed.
Lemma unicode_prop_ops_answers ops target : ops_set ops [] = Some target -> set_answers ok (unicode_prop_ops ok cr_init ops) target.
Proof. intros E. apply (prop_ops_loop_answers _ _ _ [] []); [constructor|done]. Qed.
End Ops.

(** ** The set of a name *)
Lemma seqZ_check (f : Z -> bool) n i : forallb f (seqZ 0 n) = true -> 0 <= i < n -> f i = true.
Proof. rewrite forallb_forall. intros H Hi. apply H, list_elem_of_In, elem_of_seqZ. lia. Qed.

(** The category of the code point is one of [ids]. *)
Definition gc_in (ids : list Z) (x : Z) : bool := existsb (Z.eqb (general_category x)) ids.
Lemma gc_mask_testbit ids v : forallb (Z.leb 0) ids = true -> Z.testbit (gc_mask ids) v = existsb (Z.eqb v) ids.
Proof.
  induction ids as [|id ids IH]; cbn [forallb]; [by rewrite Z.testbit_0_l|]. intros [Hid%Z.leb_le Hids]%andb_true_iff. specialize (IH Hids). cbn [gc_mask foldr existsb]. rewrite Z.lor_spec. fold (gc_mask ids). rewrite IH. f_equal.
  destruct (Z.ltb_spec v 0); [rewrite Z.testbit_neg_r by done; symmetry; apply Z.eqb_neq; lia|].
  rewrite Z.shiftl_1_l, Z.pow2_bits_eqb by done. apply Z.eqb_sym.
Qed.

(** Properties of Unicode that are defined from others *)
Definition letters : list Z := [UNICODE_GC_Lu; UNICODE_GC_Ll; UNICODE_GC_Lt; UNICODE_GC_Lm; UNICODE_GC_Lo; UNICODE_GC_Nl].
Definition derived_set (prop_idx x : Z) : bool :=
  let prop i := in_prop i x in
  let gc ids := gc_in ids x in
  let pattern := prop UNICODE_PROP_Pattern_Syntax || prop UNICODE_PROP_Pattern_White_Space in
  if prop_idx =? UNICODE_PROP_Assigned then negb (gc [UNICODE_GC_Cn])
  else if prop_idx =? UNICODE_PROP_Math then gc [UNICODE_GC_Sm] || prop UNICODE_PROP_Other_Math
  else if prop_idx =? UNICODE_PROP_Lowercase then gc [UNICODE_GC_Ll] || prop UNICODE_PROP_Other_Lowercase
  else if prop_idx =? UNICODE_PROP_Uppercase then gc [UNICODE_GC_Lu] || prop UNICODE_PROP_Other_Uppercase
  else if prop_idx =? UNICODE_PROP_Cased then
    gc [UNICODE_GC_Lu; UNICODE_GC_Ll; UNICODE_GC_Lt] || prop UNICODE_PROP_Other_Uppercase || prop UNICODE_PROP_Other_Lowercase
  else if prop_idx =? UNICODE_PROP_Alphabetic then
    gc letters || prop UNICODE_PROP_Other_Uppercase || prop UNICODE_PROP_Other_Lowercase || prop UNICODE_PROP_Other_Alphabetic
  else if prop_idx =? UNICODE_PROP_Grapheme_Base then
    negb (gc [UNICODE_GC_Cc; UNICODE_GC_Cf; UNICODE_GC_Cs; UNICODE_GC_Co; UNICODE_GC_Cn; UNICODE_GC_Zl; UNICODE_GC_Zp; UNICODE_GC_Me; UNICODE_GC_Mn]
          || prop UNICODE_PROP_Other_Grapheme_Extend)
  else if prop_idx =? UNICODE_PROP_Grapheme_Extend then gc [UNICODE_GC_Me; UNICODE_GC_Mn] || prop UNICODE_PROP_Other_Grapheme_Extend
  else if prop_idx =? UNICODE_PROP_XID_Start then
    (gc letters || prop UNICODE_PROP_Other_ID_Start) && negb (pattern || prop UNICODE_PROP_XID_Start1)
  else if prop_idx =? UNICODE_PROP_XID_Continue then
    (gc (letters ++ [UNICODE_GC_Mn; UNICODE_GC_Mc; UNICODE_GC_Nd; UNICODE_GC_Pc]) || prop UNICODE_PROP_Other_ID_Start || prop UNICODE_PROP_Other_ID_Continue)
    && negb (pattern || prop UNICODE_PROP_XID_Continue1)
  else if prop_idx =? UNICODE_PROP_Changes_When_Titlecased then xorb (changes 0 x) (prop UNICODE_PROP_Changes_When_Titlecased1)
  else if prop_idx =? UNICODE_PROP_Changes_When_Casefolded then xorb (changes 2 x) (prop UNICODE_PROP_Changes_When_Casefolded1)
  else if prop_idx =? UNICODE_PROP_Changes_When_NFKC_Casefolded then xorb (changes 2 x) (prop UNICODE_PROP_Changes_When_NFKC_Casefolded1)
  else if prop_idx =? UNICODE_PROP_ID_Continue then xorb (prop UNICODE_PROP_ID_Start) (prop UNICODE_PROP_ID_Continue1)
  else if prop_idx =? UNICODE_PROP_Changes_When_Uppercased then changes 0 x
  else if prop_idx =? UNICODE_PROP_Changes_When_Lowercased then changes 1 x
  else if prop_idx =? UNICODE_PROP_Changes_When_Casemapped then changes 0 x || changes 1 x || changes 2 x
  else if prop_idx =? UNICODE_PROP_ASCII then x <? 0x80
  else if prop_idx =? UNICODE_PROP_Any then true
  else prop prop_idx.

(** Consider the next property of a [switch]. *)
Ltac next_prop tac :=
  lazymatch goal with |- (if ?idx =? ?c then _ else _) = _ -> _ => destruct (Z.eqb_spec idx c) as [->|_]; [intros <-%(inj Some); tac|] end.
Lemma case_changes_one x : case_changes CASE_U x = changes 0 x /\ case_changes CASE_L x = changes 1 x /\ case_changes CASE_F x = changes 2 x.
Proof. unfold case_changes. cbn -[changes]. by rewrite !orb_false_r. Qed.
Lemma case_changes_all x : case_changes (Z.lor (Z.lor CASE_U CASE_L) CASE_F) x = changes 0 x || changes 1 x || changes 2 x.
Proof. unfold case_changes. cbn -[changes]. by rewrite orb_false_r, orb_assoc. Qed.
Lemma in_prop_tables x :
  in_prop UNICODE_PROP_Case_Ignorable x = in_table unicode_prop_Case_Ignorable_table x /\
  in_prop UNICODE_PROP_ID_Start x = in_table unicode_prop_ID_Start_table x /\
  in_prop UNICODE_PROP_ID_Continue1 x = in_table unicode_prop_ID_Continue1_table x.
Proof. split_and!; reflexivity. Qed.
#[local] Opaque in_prop in_table general_category changes case_changes.
(** The derived properties, by the operations that compute them *)
Lemma derived_ops prop_idx ops : derived_prop prop_idx = Some ops ->
  exists set, ops_set ops [] = Some set /\ forall x, set x = derived_set prop_idx x.
Proof.
  unfold derived_prop. cbv zeta.
  repeat next_prop ltac:(eexists; split; [reflexivity|]; intros x; destruct (case_changes_one x) as (Hu & _ & Hf); cbn [op_bool];
    rewrite ?gc_mask_testbit, ?Hu, ?Hf by reflexivity; reflexivity). done.
Qed.
Lemma case_mask_set prop_idx mask : case_prop prop_idx = Some mask -> mask ∈ case_masks /\ forall x, case_changes mask x = derived_set prop_idx x.
Proof.
  unfold case_prop.
  repeat next_prop ltac:(split; [by apply (bool_decide_unpack _)|]; intros x; first [apply case_changes_one | apply case_changes_all]). done.
Qed.
Lemma plain_set prop_idx x : derived_prop prop_idx = None -> case_prop prop_idx = None ->
  prop_idx <> UNICODE_PROP_ASCII -> prop_idx <> UNICODE_PROP_Any -> derived_set prop_idx x = in_prop prop_idx x.
Proof.
  intros Hd Hc Ha Hn. unfold derived_set. cbv zeta.
  repeat lazymatch goal with |- (if ?i =? ?c then _ else _) = _ => destruct (Z.eqb_spec i c) as [->|_]; [exfalso; discriminate || done|] end. done.
Qed.
(** The names of the table without a set: [ID_Compat_Math_Start],
    [ID_Compat_Math_Continue] and [InCB] *)
Definition unsupported_props : list Z := [71; 72; 73].
Lemma prop_names_known : forallb (fun i =>
  let prop_idx := i + UNICODE_PROP_ASCII_Hex_Digit in
  (prop_idx =? UNICODE_PROP_ASCII) || (prop_idx =? UNICODE_PROP_Any) || (prop_idx <? Z.of_nat (length unicode_prop_table)) ||
  bool_decide (prop_idx ∈ unsupported_props) ||
  match derived_prop prop_idx, case_prop prop_idx with None, None => false | _, _ => true end)
  (seqZ 0 (Z.of_nat (length unicode_prop_name_table))) = true.
Proof. vm_compute. reflexivity. Qed.

Lemma interval_builds ok hi : 0 < hi <= 0x110000 -> builds ok (cr_add_interval ok cr_init 0 hi) (fun x => x <? hi).
Proof.
  intros Hhi. destruct (cr_add_interval_spec ok cr_init 0 hi) as [H1 H2].
  apply (builds_points ok _ [0; hi]); [apply weakly_sorted_pair; lia|repeat constructor; lia| |done|done].
  intros x Hx. cbn [in_ranges]. by rewrite (proj2 (Z.leb_le 0 x)), orb_false_r by lia.
Qed.
Lemma unicode_prop_answers ok name :
  let idx := unicode_find_name unicode_prop_name_table name in
  0 <= idx -> idx + UNICODE_PROP_ASCII_Hex_Digit ∉ unsupported_props -> set_answers ok (unicode_prop ok cr_init name) (derived_set (idx + UNICODE_PROP_ASCII_Hex_Digit)).
Proof.
  intros idx Hidx Hun. unfold unicode_prop. fold idx. rewrite (proj2 (Z.ltb_ge _ _)) by lia. cbv zeta.
  assert (0 <= idx < Z.of_nat (length unicode_prop_name_table)) as Hi.
  { destruct (unicode_find_name_spec unicode_prop_name_table name) as [[E _]|[H _]]; [unfold idx in Hidx; lia|done]. }
  pose proof (seqZ_check _ _ idx prop_names_known Hi) as Hk. cbv beta zeta in Hk.
  clearbody idx. assert (0 <= idx + UNICODE_PROP_ASCII_Hex_Digit) as Hp by (unfold UNICODE_PROP_ASCII_Hex_Digit; lia).
  set (p := idx + UNICODE_PROP_ASCII_Hex_Digit) in *. clearbody p. clear Hidx Hi.
  destruct (Z.eqb_spec p UNICODE_PROP_ASCII) as [->|Ha].
  { apply builds_answers. eapply builds_ext; [|by apply interval_builds]. done. }
  destruct (Z.eqb_spec p UNICODE_PROP_Any) as [->|Hn].
  { apply builds_answers. eapply builds_ext; [|by apply interval_builds]. intros x Hx. change (derived_set UNICODE_PROP_Any x) with true. apply Z.ltb_lt. lia. }
  destruct (derived_prop p) as [ops|] eqn:Ed.
  { destruct (derived_ops p ops Ed) as (set & Es & Hs). eapply answers_ext; [|exact (unicode_prop_ops_answers ok ops set Es)]. intros x _. apply Hs. }
  destruct (case_prop p) as [mask|] eqn:Ec.
  { destruct (case_mask_set p mask Ec) as [Hm Hs]. apply builds_answers. eapply builds_ext; [|by apply case1_builds]. intros x _. apply Hs. }
  rewrite bool_decide_false, !orb_false_r in Hk by exact Hun. cbn [orb] in Hk. rewrite (proj2 (Z.leb_gt _ _)) by lia.
  destruct (prop1_at_builds ok p ltac:(lia)) as (r & -> & Hr). bind. apply builds_answers. eapply builds_ext; [|exact Hr].
  intros x _. by rewrite plain_set.
Qed.

(** The categories of a name: one of them, or one of the groups *)
Definition gc_groups : list (list Z) := [
  [UNICODE_GC_Lu; UNICODE_GC_Ll; UNICODE_GC_Lt];
  [UNICODE_GC_Lu; UNICODE_GC_Ll; UNICODE_GC_Lt; UNICODE_GC_Lm; UNICODE_GC_Lo];
  [UNICODE_GC_Mn; UNICODE_GC_Mc; UNICODE_GC_Me];
  [UNICODE_GC_Nd; UNICODE_GC_Nl; UNICODE_GC_No];
  [UNICODE_GC_Sm; UNICODE_GC_Sc; UNICODE_GC_Sk; UNICODE_GC_So];
  [UNICODE_GC_Pc; UNICODE_GC_Pd; UNICODE_GC_Ps; UNICODE_GC_Pe; UNICODE_GC_Pi; UNICODE_GC_Pf; UNICODE_GC_Po];
  [UNICODE_GC_Zs; UNICODE_GC_Zl; UNICODE_GC_Zp];
  [UNICODE_GC_Cc; UNICODE_GC_Cf; UNICODE_GC_Cs; UNICODE_GC_Co; UNICODE_GC_Cn]].
Definition gc_ids (gc_idx : Z) : list Z :=
  if gc_idx <=? UNICODE_GC_Co then [gc_idx] else default [] (gc_groups !! Z.to_nat (gc_idx - UNICODE_GC_LC)).
Lemma gc_ids_mask : forallb (fun i =>
  forallb (Z.leb 0) (gc_ids i) && bool_decide ((if i <=? UNICODE_GC_Co then Some (u32 (Z.shiftl 1 i))
            else unicode_gc_mask_table !! Z.to_nat (i - UNICODE_GC_LC)) = Some (gc_mask (gc_ids i))))
  (seqZ 0 (Z.of_nat (length unicode_gc_name_table))) = true.
Proof. vm_compute. reflexivity. Qed.
Lemma gc_mask_answers ok ids : forallb (Z.leb 0) ids = true ->
  set_answers ok (r ← unicode_general_category1 ok cr_init (gc_mask ids); Some (minus_one r)) (gc_in ids).
Proof.
  intros Hn. destruct (unicode_general_category1_builds ok (gc_mask ids)) as (r & E & Hr). rewrite E. apply builds_answers.
  eapply builds_ext; [|exact Hr]. intros x _. unfold gc_in. apply gc_mask_testbit. exact Hn.
Qed.
Lemma gc_ids_spec idx : 0 <= idx < Z.of_nat (length unicode_gc_name_table) ->
  forallb (Z.leb 0) (gc_ids idx) = true /\
  (if idx <=? UNICODE_GC_Co then Some (u32 (Z.shiftl 1 idx)) else unicode_gc_mask_table !! Z.to_nat (idx - UNICODE_GC_LC)) = Some (gc_mask (gc_ids idx)).
Proof. intros Hi. apply (seqZ_check _ _ idx gc_ids_mask), andb_true_iff in Hi as [Hn Hm]. by apply bool_decide_eq_true in Hm. Qed.
Lemma some_then {A B} (o : option A) a (f : A -> option B) : o = Some a -> (x ← o; f x) = f a.
Proof. by intros ->. Qed.
Lemma unicode_general_category_answers ok name :
  let idx := unicode_find_name unicode_gc_name_table name in
  0 <= idx -> set_answers ok (unicode_general_category ok cr_init name) (gc_in (gc_ids idx)).
Proof.
  intros idx Hidx. unfold unicode_general_category. fold idx. rewrite (proj2 (Z.ltb_ge _ _)) by lia. cbv zeta.
  assert (0 <= idx < Z.of_nat (length unicode_gc_name_table)) as Hi.
  { destruct (unicode_find_name_spec unicode_gc_name_table name) as [[E _]|[H _]]; [unfold idx in Hidx; lia|done]. }
  clearbody idx. destruct (gc_ids_spec idx Hi) as [Hn Hm]. rewrite (some_then _ _ _ Hm). by apply gc_mask_answers.
Qed.

(** ** The predicates on characters *)

Lemma table_pair_ok table index : (table, index) ∈ property_tables -> index_ok table index = true.
Proof. intros Hin. pose proof tables_ok as H. rewrite forallb_forall in H. exact (H (table, index) (proj1 (list_elem_of_In _ _) Hin)). Qed.

(** Two ways to the cased characters: the entries of the case conversion table
    with the table [Cased1], and the categories with two properties *)
Definition entry_points : list Z := flat_map (fun v => [entry_code v; entry_end v]) case_conv_table1.
Definition points_of (o : option (CharRange * Z)) : list Z := match o with Some (cr, _) => cr_points cr | None => [] end.
Definition table_points (t : list Z) : list Z := match unicode_prop1 all_ok cr_init t with Some (cr, _) => cr_points cr | None => [] end.
Definition same_points (a b : list Z) : bool := bool_decide (cr_points (cr_op all_ok cr_init a b CR_OP_XOR).1 = []).
Lemma cased_same : sortedb entry_points &&
  same_points (cr_points (cr_op all_ok cr_init entry_points (table_points unicode_prop_Cased1_table) CR_OP_UNION).1)
    (points_of (unicode_prop all_ok cr_init (bytes_of_string "Cased"))) = true.
Proof. vm_compute. reflexivity. Qed.
(** The characters that continue but do not start an identifier *)
Lemma continue_disjoint :
  cr_points (cr_op all_ok cr_init (table_points unicode_prop_ID_Start_table) (table_points unicode_prop_ID_Continue1_table) CR_OP_INTER).1 = [].
Proof. vm_compute. reflexivity. Qed.
Lemma same_points_sound a b c : weakly_sorted a -> weakly_sorted b -> same_points a b = true -> in_ranges a c = in_ranges b c.
Proof.
  intros Ha Hb H. apply bool_decide_eq_true in H. pose proof (cr_op_spec all_ok cr_init a b CR_OP_XOR Ha Hb eq_refl) as Hx.
  destruct (cr_op all_ok cr_init a b CR_OP_XOR) as [cr r]. destruct Hx as [Hr Hx]. destruct (Hx (Hr (fun _ => eq_refl))) as (_ & Hin & _).
  specialize (Hin c). cbn [fst] in H. rewrite H in Hin. cbn in Hin. by destruct (in_ranges a c), (in_ranges b c).
Qed.
Lemma union_points a b : weakly_sorted a -> weakly_sorted b ->
  let u := cr_points (cr_op all_ok cr_init a b CR_OP_UNION).1 in weakly_sorted u /\ forall c, in_ranges u c = in_ranges a c || in_ranges b c.
Proof.
  intros Ha Hb. pose proof (cr_op_spec all_ok cr_init a b CR_OP_UNION Ha Hb eq_refl) as Hx.
  destruct (cr_op all_ok cr_init a b CR_OP_UNION) as [cr r]. destruct Hx as [Hr Hx]. destruct (Hx (Hr (fun _ => eq_refl))) as (Hs & Hin & _).
  split; [by apply strictly_weakly|]. apply Hin.
Qed.
Lemma inter_points a b c : weakly_sorted a -> weakly_sorted b -> cr_points (cr_op all_ok cr_init a b CR_OP_INTER).1 = [] ->
  in_ranges a c && in_ranges b c = false.
Proof.
  intros Ha Hb H. pose proof (cr_op_spec all_ok cr_init a b CR_OP_INTER Ha Hb eq_refl) as Hx.
  destruct (cr_op all_ok cr_init a b CR_OP_INTER) as [cr r]. destruct Hx as [Hr Hx]. destruct (Hx (Hr (fun _ => eq_refl))) as (_ & Hin & _).
  specialize (Hin c). cbn [fst] in H. by rewrite H in Hin.
Qed.
Lemma casing_tables_ok : forallb (fun ti => table_ok ti.1) property_tables = true.
Proof. vm_compute. reflexivity. Qed.
Lemma table_points_ok t index : (t, index) ∈ property_tables ->
  weakly_sorted (table_points t) /\ forall x, 0 <= x < 0x110000 -> in_ranges (table_points t) x = in_table t x.
Proof.
  intros Hin. pose proof casing_tables_ok as H. rewrite forallb_forall in H. specialize (H _ (proj1 (list_elem_of_In _ _) Hin)). cbn [fst] in H.
  unfold table_points. destruct (prop1_builds all_ok t H) as ([cr r] & -> & Hr & Hb). destruct (Hb (Hr (fun _ => eq_refl))) as [[Hw _] Hx]. done.
Qed.
Lemma in_entry_points c : in_ranges entry_points c = true <-> has_entry c.
Proof.
  unfold entry_points, has_entry. assert (forall tab, in_ranges (flat_map (fun v => [entry_code v; entry_end v]) tab) c = true <-> exists v, v ∈ tab /\ in_entry v c) as H.
  { induction tab as [|v tab IH]; [split; [done|]; by intros (v & []%elem_of_nil & _)|]. cbn [flat_map app in_ranges].
    rewrite orb_true_iff, IH, andb_true_iff, Z.leb_le, Z.ltb_lt. setoid_rewrite elem_of_cons. unfold in_entry. naive_solver. }
  rewrite H. split.
  - intros (v & [j Hj]%list_elem_of_lookup & Hin). exists (Z.of_nat j), v. split; [|done]. apply get_spec. rewrite Nat2Z.id. split; [lia|done].
  - intros (j & v & [_ Hv]%get_spec & Hin). exists v. split; [|done]. by eapply list_elem_of_lookup_2.
Qed.
(** The set of a property by its name *)
Lemma named_set name p : unicode_find_name unicode_prop_name_table name + UNICODE_PROP_ASCII_Hex_Digit = p ->
  (UNICODE_PROP_ASCII_Hex_Digit <=? p) = true -> p ∉ unsupported_props ->
  exists cr, unicode_prop all_ok cr_init name = Some (cr, 0) /\ holds cr (derived_set p).
Proof.
  intros <- Hle Hun. apply Z.leb_le in Hle. destruct (unicode_prop_answers all_ok name ltac:(lia) Hun) as (cr & r & E & _ & Hr & Hh).
  assert (r = 0) as -> by by apply Hr. exists cr. split; [done|by apply Hh].
Qed.
Section Predicates.
Context (c : Z) (Hc : 0 <= c < 0x110000).
Lemma is_cased_set : lre_is_cased c = Some (derived_set UNICODE_PROP_Cased c).
Proof.
  destruct (named_set (bytes_of_string "Cased") UNICODE_PROP_Cased) as (cr & E & [Hw _] & Hx); [vm_compute; reflexivity|reflexivity|by apply (bool_decide_unpack _)|].
  pose proof cased_same as H. apply andb_true_iff in H as [Hs H]. rewrite E in H. cbn [points_of] in H.
  destruct (table_points_ok unicode_prop_Cased1_table unicode_prop_Cased1_index ltac:(left)) as [Hw1 Hx1].
  assert (weakly_sorted entry_points) as Hwe.
  { split; [by apply sortedb_sound|]. unfold entry_points. exists (length case_conv_table1). generalize case_conv_table1. clear. intros tab. induction tab; cbn; lia. }
  destruct (union_points _ _ Hwe Hw1) as [Hwu Hu]. pose proof (same_points_sound _ _ c Hwu Hw H) as Hsame. rewrite Hu, Hx1, Hx in Hsame by done.
  unfold lre_is_cased. rewrite <- Hsame. destruct (case_find_spec c) as [(i & v & -> & Hv & Hin)|[-> Hno]]; bind.
  - rewrite (proj2 (in_entry_points c)) by (exists i, v; split; assumption). reflexivity.
  - rewrite (is_in_table_set _ _ c (table_pair_ok _ _ ltac:(left))) by lia. destruct (in_ranges entry_points c) eqn:Ein; [|reflexivity].
    apply in_entry_points in Ein as (i & v & Hv & Hin). destruct (Hno i v Hv Hin).
Qed.
Lemma is_case_ignorable_set : lre_is_case_ignorable c = Some (derived_set UNICODE_PROP_Case_Ignorable c).
Proof.
  unfold lre_is_case_ignorable. rewrite (is_in_table_set _ _ c (table_pair_ok _ _ ltac:(do 1 right; left))) by lia.
  destruct (in_prop_tables c) as (<- & _ & _). reflexivity.
Qed.
Lemma is_id_start_set : lre_is_id_start c = Some (derived_set UNICODE_PROP_ID_Start c).
Proof.
  unfold lre_is_id_start. rewrite (is_in_table_set _ _ c (table_pair_ok _ _ ltac:(do 2 right; left))) by lia.
  destruct (in_prop_tables c) as (_ & <- & _). reflexivity.
Qed.
Lemma is_id_continue_set : lre_is_id_continue c = Some (derived_set UNICODE_PROP_ID_Continue c).
Proof.
  unfold lre_is_id_continue. rewrite is_id_start_set. bind.
  rewrite (is_in_table_set _ _ c (table_pair_ok unicode_prop_ID_Continue1_table _ ltac:(do 3 right; left))) by lia.
  destruct (table_points_ok unicode_prop_ID_Start_table unicode_prop_ID_Start_index ltac:(do 2 right; left)) as [Hw1 Hx1].
  destruct (table_points_ok unicode_prop_ID_Continue1_table unicode_prop_ID_Continue1_index ltac:(do 3 right; left)) as [Hw2 Hx2].
  pose proof (inter_points _ _ c Hw1 Hw2 continue_disjoint) as H. rewrite Hx1, Hx2 in H by done. destruct (in_prop_tables c) as (_ & E1 & E2).
  change (derived_set UNICODE_PROP_ID_Continue c) with (xorb (in_prop UNICODE_PROP_ID_Start c) (in_prop UNICODE_PROP_ID_Continue1 c)).
  change (derived_set UNICODE_PROP_ID_Start c) with (in_prop UNICODE_PROP_ID_Start c). rewrite E1, E2.
  destruct (in_table unicode_prop_ID_Start_table c), (in_table unicode_prop_ID_Continue1_table c); first [reflexivity | discriminate].
Qed.
End Predicates.

Lemma unicode_prop_unsupported ok name :
  let idx := unicode_find_name unicode_prop_name_table name in
  0 <= idx -> idx + UNICODE_PROP_ASCII_Hex_Digit ∈ unsupported_props -> unicode_prop ok cr_init name = Some (cr_init, -2).
Proof.
  intros idx Hi. unfold unicode_prop. fold idx. rewrite (proj2 (Z.ltb_ge _ _)) by exact Hi. cbv zeta. generalize (idx + UNICODE_PROP_ASCII_Hex_Digit).
  intros p Hun. unfold unsupported_props in Hun. rewrite !elem_of_cons, elem_of_nil in Hun. by destruct_or! Hun; subst p.
Qed.
Lemma unicode_prop_cases ok name :
  unicode_prop ok cr_init name = Some (cr_init, -2) \/ exists set, set_answers ok (unicode_prop ok cr_init name) set.
Proof.
  destruct (unicode_find_name_spec unicode_prop_name_table name) as [[E _]|[[Hi _] _]]; [left; unfold unicode_prop; by rewrite E|].
  destruct (decide (unicode_find_name unicode_prop_name_table name + UNICODE_PROP_ASCII_Hex_Digit ∈ unsupported_props)) as [Hun|Hun];
    [left; by apply unicode_prop_unsupported|right; eexists; by apply unicode_prop_answers].
Qed.

(** No entry of the table has the name. *)
Definition unnamed (table : list string) (name : list Z) : Prop := forall e, e ∈ table -> name ∉ aliases e.

(** C25: the sets of general categories and of properties are the ones their
    names stand for: for every name, [unicode_general_category] and
    [unicode_prop] either report -2, exactly when no entry of the name table has
    the name among its aliases (or the entry is one of three without a set), or
    read inside their tables, end with 0 or -1, with -1 only when memory was
    refused, and 0 comes with the sorted set of the code points whose category
    is one of the named ones, or which have the property: by its table, by case
    conversion, or by the Unicode definition from categories and other
    properties. *)
Theorem named_sets_correct (ok : Z -> bool) (name : list Z) :
  (let idx := unicode_find_name unicode_gc_name_table name in
   unnamed unicode_gc_name_table name /\ unicode_general_category ok cr_init name = Some (cr_init, -2) \/
   named unicode_gc_name_table name idx /\ set_answers ok (unicode_general_category ok cr_init name) (gc_in (gc_ids idx))) /\
  (let idx := unicode_find_name unicode_prop_name_table name in
   unnamed unicode_prop_name_table name /\ unicode_prop ok cr_init name = Some (cr_init, -2) \/
   named unicode_prop_name_table name idx /\
     if bool_decide (idx + UNICODE_PROP_ASCII_Hex_Digit ∈ unsupported_props) then unicode_prop ok cr_init name = Some (cr_init, -2)
     else set_answers ok (unicode_prop ok cr_init name) (derived_set (idx + UNICODE_PROP_ASCII_Hex_Digit))).
Proof.
  split; intros idx.
  - destruct (unicode_find_name_spec unicode_gc_name_table name) as [[E Hn]|[Hi Hn]]; [left|right].
    + split; [exact Hn|]. unfold unicode_general_category. by rewrite E.
    + split; [exact Hn|]. apply unicode_general_category_answers. exact (proj1 Hi).
  - destruct (unicode_find_name_spec unicode_prop_name_table name) as [[E Hn]|[Hi Hn]]; [left|right].
    + split; [exact Hn|]. unfold unicode_prop. by rewrite E.
    + split; [exact Hn|]. case_bool_decide as Hun; [|apply unicode_prop_answers; [exact (proj1 Hi)|exact Hun]].
      apply unicode_prop_unsupported; [exact (proj1 Hi)|exact Hun].
Qed.

(** C26: scripts: for every name, [unicode_script] reports -2 when no entry of
    the table has the name, and otherwise builds the code points of the script,
    or those outside every script for [Unknown]; with extensions, the code
    points with the script among theirs are added, and [Common] and [Inherited]
    leave out every code point that has extensions.  It never reports -1: when
    memory is refused it does not return, as for \p{Script=Greek} when nothing
    can be allocated. *)
Theorem unicode_script_correct (ok : Z -> bool) (name : list Z) (is_ext : bool) :
  (let idx := unicode_find_name unicode_script_name_table name in
   unnamed unicode_script_name_table name /\ unicode_script ok cr_init name is_ext = Some (cr_init, -2) \/
   named unicode_script_name_table name idx /\
     match unicode_script ok cr_init name is_ext with
     | Some (cr, r) => r = 0 /\ holds cr (script_set idx is_ext)
     | None => ~ always_ok ok
     end) /\
  unicode_script (fun _ => false) cr_init (bytes_of_string "Greek") false = None.
Proof.
  split; [intros idx|vm_compute; reflexivity].
  destruct (unicode_find_name_spec unicode_script_name_table name) as [[E Hn]|[Hi Hn]]; [left|right].
  - split; [exact Hn|]. unfold unicode_script. by rewrite E.
  - split; [exact Hn|]. exact (unicode_script_builds ok name is_ext (proj1 Hi)).
Qed.

(** The predicates, with the name of the set each stands for *)
Definition predicates : list (string * (Z -> option bool)) := [
  ("Cased"%string, lre_is_cased); ("Case_Ignorable"%string, lre_is_case_ignorable);
  ("ID_Start"%string, lre_is_id_start); ("ID_Continue"%string, lre_is_id_continue)].

(** C27: the tests on single characters agree with the sets of the same name:
    [lre_is_cased], which looks for an entry of the case conversion table and
    then in an indexed table, answers whether the character is in \p{Cased},
    which is computed from the general categories and two other properties, and
    likewise [lre_is_case_ignorable], [lre_is_id_start] and [lre_is_id_continue];
    no test reads outside its tables. *)
Theorem predicates_agree (c : Z) (name : string) (test : Z -> option bool)
    (Hc : 0 <= c < 0x110000) (Hname : (name, test) ∈ predicates) :
  exists cr, unicode_prop all_ok cr_init (bytes_of_string name) = Some (cr, 0) /\ test c = Some (in_ranges (cr_points cr) c).
Proof.
  assert (exists p, unicode_find_name unicode_prop_name_table (bytes_of_string name) + UNICODE_PROP_ASCII_Hex_Digit = p /\
    (UNICODE_PROP_ASCII_Hex_Digit <=? p) = true /\ (p ∉ unsupported_props) /\ test c = Some (derived_set p c)) as (p & Hp & Hle & Hun & Ht).
  { unfold predicates in Hname. rewrite !elem_of_cons, elem_of_nil in Hname.
    destruct_or! Hname; injection Hname as -> ->; (eexists; split; [vm_compute; reflexivity|]; split; [reflexivity|]; split; [by apply (bool_decide_unpack _)|]).
    - by apply is_cased_set.
    - by apply is_case_ignorable_set.
    - by apply is_id_start_set.
    - by apply is_id_continue_set. }
  destruct (named_set _ p Hp Hle Hun) as (cr & E & _ & Hx). exists cr. split; [done|]. by rewrite Hx.
Qed.

(** U+01C5, a titlecase letter, is cased. *)
Lemma predicates_agree_witness :
  lre_is_cased 0x1c5 = Some true /\
  exists cr, unicode_prop all_ok cr_init (bytes_of_string "Cased") = Some (cr, 0) /\ lre_is_cased 0x1c5 = Some (in_ranges (cr_points cr) 0x1c5).
Proof.
  split; [vm_compute; reflexivity|]. apply (predicates_agree 0x1c5 "Cased" lre_is_cased); [lia|left].
Defined.
