(* ===== verification/UnicodeSequencesProps.v ===== *)
(** * Properties of strings: what the callback is given

    Every sequence that [unicode_sequence_prop] reports is a sequence of code
    points, not empty and within the array [seq]; with memory every name of the
    table is answered. *)
From Stdlib Require Import Sorted.
From S2P Require Import Prelude Sort SortProps CharRange CharRangeProps UnicodeTables UnicodeData UnicodeCase UnicodeCaseProps UnicodeCaseMem.
From S2P Require Import UnicodeProp UnicodeSets UnicodeSetsProps UnicodeSequences UnicodeNamed.

Definition sequence_ok (seq : list Z) : Prop := (0 < length seq <= SEQ_MAX_LEN)%nat /\ Forall (fun c => 0 <= c <= 0x10FFFF) seq.
Definition sequence_okb (seq : list Z) : bool :=
  (0 <? length seq)%nat && (length seq <=? SEQ_MAX_LEN)%nat && forallb (fun c => (0 <=? c) && (c <=? 0x10FFFF)) seq.
Lemma sequence_okb_sound seq : sequence_okb seq = true -> sequence_ok seq.
Proof.
  unfold sequence_okb. rewrite !andb_true_iff. intros [[H1%Nat.ltb_lt H2%Nat.leb_le] H3]. split; [lia|]. apply Forall_forall. intros c Hc%list_elem_of_In.
  rewrite forallb_forall in H3. specialize (H3 c Hc). lia.
Qed.
Lemma sequences_okb l : forallb sequence_okb l = true -> Forall sequence_ok l.
Proof. intros H. apply Forall_forall. intros s Hs%list_elem_of_In. rewrite forallb_forall in H. by apply sequence_okb_sound, H. Qed.

(** The outcome of a property: sequences, a temporary set and a return value *)
Definition sequences_of (ok : Z -> bool) (o : option seq_result) : Prop :=
  exists l cr r, o = Some (l, cr, r) /\ Forall sequence_ok l /\ (r = 0 \/ r = -1) /\ (always_ok ok -> r = 0).

Section Sequences.
Context (ok : Z -> bool).
Lemma range_chars_in n : forall c x, x ∈ range_chars n c <-> c <= x < c + Z.of_nat n.
Proof. induction n as [|n IH]; intros c x; cbn [range_chars]; [rewrite elem_of_nil; lia|]. rewrite elem_of_cons, IH. lia. Qed.
Lemma points_chars_ok pts : weakly_sorted pts -> Forall (fun p => 0 <= p <= 0x110000) pts ->
  exists l, points_chars pts = Some l /\ Forall (fun c => 0 <= c < 0x110000) l.
Proof.
  induction pts as [|x|a b pts IH] using list_pair_ind; intros [Hs He] Hb; [by exists []|destruct He as [k Hk]; cbn in Hk; lia|].
  apply StronglySorted_inv in Hs as [Hs _]. apply StronglySorted_inv in Hs as [Hs _].
  apply Forall_cons in Hb as [Ha Hb]. apply Forall_cons in Hb as [Hb Hbs].
  destruct IH as (l & El & Hl); [split; [done|by apply even_two]|done|]. cbn [points_chars]. rewrite El. bind. eexists. split; [done|].
  apply Forall_app. split; [|done]. apply Forall_forall. intros c [Hc1 Hc2]%range_chars_in. lia.
Qed.
(** From a set without points, whatever its allocated size *)
Lemma prop_sequences_ok cr idx seqs : cr_points cr = [] -> 0 <= idx < Z.of_nat (length unicode_prop_table) ->
  (forall c, 0 <= c < 0x110000 -> Forall sequence_ok (seqs c)) -> sequences_of ok (prop_sequences ok cr idx seqs).
Proof.
  intros Hcr Hi Hseq. unfold prop_sequences, prop1_at. destruct (lookup_lt_is_Some_2 unicode_prop_table (Z.to_nat idx) ltac:(lia)) as [t Et]. rewrite Et. bind.
  assert (table_ok t = true) as Ht.
  { pose proof prop_tables_ok as H. rewrite forallb_forall in H. apply H, list_elem_of_In. by eapply list_elem_of_lookup_2. }
  unfold table_ok in Ht. destruct (runs t) as [rs|] eqn:E; [|done]. apply andb_true_iff in Ht as [Hp Ht%Z.leb_le].
  assert (positive rs) as Hp' by (apply Forall_forall; intros r Hr%list_elem_of_In; rewrite forallb_forall in Hp; apply Z.ltb_lt, Hp, Hr).
  unfold unicode_prop1. destruct (prop1_runs ok t rs E cr 0 false Hp' ltac:(lia) ltac:(lia)) as (cr' & r & -> & H1 & H2). bind.
  destruct r; cbn [negb]; [|exists [], cr', (-1); split_and!; [done|constructor|by right|intros H; by apply H1 in H]].
  rewrite H2, Hcr by done. cbn [app]. destruct (run_points_ok rs 0 false Hp') as [Hw Hb]. pose proof (run_points_low rs 0 false Hp') as Hlo.
  destruct (points_chars_ok (run_points rs 0 false)) as (l & -> & Hl); [done| |].
  { apply Forall_and. split; [done|]. eapply Forall_impl; [exact Hb|]. cbn. lia. }
  bind. exists (concat (map seqs l)), cr', 0. split_and!; [done| |by left|done]. apply Forall_concat, Forall_forall.
  intros s (c & -> & Hc)%list_elem_of_fmap. rewrite Forall_forall in Hl. by apply Hseq, Hl.
Qed.
Lemma seq_then_ok r k : sequences_of ok r -> (forall cr, cr_points cr = [] -> sequences_of ok (k cr)) -> sequences_of ok (seq_then r k).
Proof.
  intros (l & cr & ret & -> & Hl & Hr & Ha) Hk. unfold seq_then. bind. destruct (Z.ltb_spec ret 0).
  { exists l, cr, ret. done. }
  destruct (Hk (cr_clear cr) eq_refl) as (l' & cr' & ret' & -> & Hl' & Hr' & Ha'). bind. exists (l ++ l'), cr', ret'.
  split; [done|]. split; [by apply Forall_app|done].
Qed.
Lemma zwj_sequences_ok : exists l, zwj_loop (length unicode_rgi_emoji_zwj_sequence) unicode_rgi_emoji_zwj_sequence = Some l /\ Forall sequence_ok l.
Proof.
  assert (match zwj_loop (length unicode_rgi_emoji_zwj_sequence) unicode_rgi_emoji_zwj_sequence with Some l => forallb sequence_okb l | None => false end = true) as H
    by (vm_compute; reflexivity). destruct (zwj_loop _ _) as [l|]; [|done]. exists l. split; [done|by apply sequences_okb].
Qed.
Lemma tag_sequences_ok : exists l, tag_loop unicode_rgi_emoji_tag_sequence [] = Some l /\ Forall sequence_ok l.
Proof.
  assert (match tag_loop unicode_rgi_emoji_tag_sequence [] with Some l => forallb sequence_okb l | None => false end = true) as H
    by (vm_compute; reflexivity). destruct (tag_loop _ _) as [l|]; [|done]. exists l. split; [done|by apply sequences_okb].
Qed.
#[local] Ltac seqs := repeat constructor; unfold SEQ_MAX_LEN; cbn; Z.to_euclidean_division_equations; lia.
Lemma sequence_case_ok idx cr : cr_points cr = [] -> 0 <= idx <= UNICODE_SEQUENCE_PROP_RGI_Emoji_ZWJ_Sequence ->
  sequences_of ok (sequence_prop_case ok idx cr).
Proof.
  intros Hcr Hi. unfold sequence_prop_case.
  destruct (Z.eqb_spec idx UNICODE_SEQUENCE_PROP_Basic_Emoji) as [->|H0].
  { apply seq_then_ok; [|intros cr' Hcr']; (apply prop_sequences_ok; [done|split; [done|reflexivity]|]); intros c Hc; seqs. }
  destruct (Z.eqb_spec idx UNICODE_SEQUENCE_PROP_RGI_Emoji_Modifier_Sequence) as [->|H1].
  { apply prop_sequences_ok; [done|split; [done|reflexivity]|]. intros c Hc. seqs. }
  destruct (Z.eqb_spec idx UNICODE_SEQUENCE_PROP_RGI_Emoji_Flag_Sequence) as [->|H2].
  { apply prop_sequences_ok; [done|split; [done|reflexivity]|]. intros c Hc. seqs. }
  destruct (Z.eqb_spec idx UNICODE_SEQUENCE_PROP_RGI_Emoji_ZWJ_Sequence) as [->|H3].
  { destruct zwj_sequences_ok as (l & -> & Hl). bind. exists l, cr, 0. auto. }
  destruct (Z.eqb_spec idx UNICODE_SEQUENCE_PROP_RGI_Emoji_Tag_Sequence) as [->|H4].
  { destruct tag_sequences_ok as (l & -> & Hl). bind. exists l, cr, 0. auto. }
  destruct (Z.eqb_spec idx UNICODE_SEQUENCE_PROP_Emoji_Keycap_Sequence) as [->|H5].
  { apply prop_sequences_ok; [done|split; [done|reflexivity]|]. intros c Hc. seqs. }
  exfalso. unfold UNICODE_SEQUENCE_PROP_Basic_Emoji, UNICODE_SEQUENCE_PROP_RGI_Emoji_Modifier_Sequence, UNICODE_SEQUENCE_PROP_RGI_Emoji_Flag_Sequence,
    UNICODE_SEQUENCE_PROP_RGI_Emoji_ZWJ_Sequence, UNICODE_SEQUENCE_PROP_RGI_Emoji_Tag_Sequence, UNICODE_SEQUENCE_PROP_Emoji_Keycap_Sequence in *. lia.
Qed.
Lemma sequence_props_ok idxs : forall cr, cr_points cr = [] -> Forall (fun i => 0 <= i <= UNICODE_SEQUENCE_PROP_RGI_Emoji_ZWJ_Sequence) idxs ->
  sequences_of ok (sequence_props ok idxs cr).
Proof.
  induction idxs as [|i idxs IH]; intros cr Hcr Hi; cbn [sequence_props]; [exists [], cr, 0; auto|]. apply Forall_cons in Hi as [Hi His].
  apply seq_then_ok; [by apply sequence_case_ok|]. intros cr' Hcr'. by apply IH.
Qed.
Lemma sequence_prop1_ok idx cr : cr_points cr = [] -> 0 <= idx < Z.of_nat (length unicode_sequence_prop_name_table) ->
  sequences_of ok (unicode_sequence_prop1 ok idx cr).
Proof.
  intros Hcr Hi. unfold unicode_sequence_prop1. destruct (Z.eqb_spec idx UNICODE_SEQUENCE_PROP_RGI_Emoji) as [->|Hn].
  - apply sequence_props_ok; [done|]. apply Forall_forall. intros i Hx%range_chars_in.
    unfold UNICODE_SEQUENCE_PROP_Basic_Emoji, UNICODE_SEQUENCE_PROP_RGI_Emoji_ZWJ_Sequence in *. lia.
  - apply sequence_case_ok; [done|]. change (Z.of_nat (length unicode_sequence_prop_name_table)) with 7 in Hi.
    unfold UNICODE_SEQUENCE_PROP_RGI_Emoji, UNICODE_SEQUENCE_PROP_RGI_Emoji_ZWJ_Sequence in *. lia.
Qed.
Lemma sequence_prop_cases name cr : cr_points cr = [] ->
  unicode_sequence_prop ok name cr = Some ([], cr, -2) \/ sequences_of ok (unicode_sequence_prop ok name cr).
Proof.
  intros Hcr. unfold unicode_sequence_prop. destruct (unicode_find_name_spec unicode_sequence_prop_name_table name) as [[-> _]|[Hi _]]; [by left|right].
  rewrite (proj2 (Z.ltb_ge _ _)) by exact (proj1 Hi). by apply sequence_prop1_ok.
Qed.
End Sequences.

(** C28: properties of strings: for every name and every pattern of refused
    requests, [unicode_sequence_prop] reports -2 when no entry of the table has
    the name and otherwise 0, or -1 when memory was refused; it reads inside its
    tables, fails no assertion and never writes past the 16 characters of its
    array, and every sequence it gives to the callback is not empty and consists
    of code points. *)
Theorem sequence_prop_safe (ok : Z -> bool) (name : list Z) (cr : CharRange) (Hcr : cr_points cr = []) :
  unnamed unicode_sequence_prop_name_table name /\ unicode_sequence_prop ok name cr = Some ([], cr, -2) \/
  named unicode_sequence_prop_name_table name (unicode_find_name unicode_sequence_prop_name_table name) /\
    sequences_of ok (unicode_sequence_prop ok name cr).
Proof.
  destruct (unicode_find_name_spec unicode_sequence_prop_name_table name) as [[E Hn]|[Hi Hn]]; [left|right].
  - split; [exact Hn|]. unfold unicode_sequence_prop. by rewrite E.
  - split; [exact Hn|]. unfold unicode_sequence_prop. rewrite (proj2 (Z.ltb_ge _ _)) by exact (proj1 Hi). by apply sequence_prop1_ok.
Qed.

(** The name that calls every other case. *)
Lemma sequence_prop_safe_witness :
  unnamed unicode_sequence_prop_name_table (bytes_of_string "RGI_Emoji") /\
    unicode_sequence_prop all_ok (bytes_of_string "RGI_Emoji") cr_init = Some ([], cr_init, -2) \/
  named unicode_sequence_prop_name_table (bytes_of_string "RGI_Emoji")
    (unicode_find_name unicode_sequence_prop_name_table (bytes_of_string "RGI_Emoji")) /\
    sequences_of all_ok (unicode_sequence_prop all_ok (bytes_of_string "RGI_Emoji") cr_init).
Proof. exact (sequence_prop_safe all_ok (bytes_of_string "RGI_Emoji") cr_init eq_refl). Defined.
