(* ===== verification/Gc.v ===== *)
(** * The cycle collector (quickjs.c)

    The collector of reference cycles: [gc_decref] subtracts the references
    between heap objects, [gc_scan] keeps what the remaining counts reach.  A
    GC object is a pointer (a positive); its header ([ref_count], [mark]) is
    kept in one map, the references it holds in its payload, which the
    collector reads through [mark_children].  The two intrusive lists are
    lists of pointers; [list_del] takes an object out of the list it is in.  A
    failed assertion, an abort and a pointer without an object are [None]. *)
From S2P Require Import Prelude Sort.

Abbreviation ptr := positive.

(** ** Objects *)

(** A value, as far as marking is concerned: a pointer to a GC object (tags
    object, function bytecode and module) or anything else. *)
Inductive JSValue := JSGCPtr (p : ptr) | JSOther.

(** A property: the atom of its shape entry is null, or its kind. *)
Inductive JSProperty :=
| prop_null
| prop_value (v : JSValue)
| prop_getset (getter setter : option ptr)
| prop_varref (var_ref : ptr)
| prop_autoinit (realm : ptr).

(** A context and a module, as far as they hold references. *)
Record JSContext := {
  loaded_modules : list ptr;
  global_obj : JSValue;
  global_var_obj : JSValue;
  throw_type_error : JSValue;
  eval_obj : JSValue;
  array_proto_values : JSValue;
  native_error_proto : list JSValue;
  class_proto : list JSValue;
  iterator_ctor : JSValue;
  async_iterator_proto : JSValue;
  promise_ctor : JSValue;
  array_ctor : JSValue;
  regexp_ctor : JSValue;
  function_ctor : JSValue;
  function_proto : JSValue;
  array_shape : option ptr;
  arguments_shape : option ptr;
  mapped_arguments_shape : option ptr;
  regexp_shape : option ptr;
  regexp_result_shape : option ptr;
}.

Inductive JSExportEntry := EXPORT_LOCAL (var_ref : option ptr) | EXPORT_INDIRECT.
Record JSModuleDef := {
  req_attributes : list JSValue; (* of [req_module_entries] *)
  export_entries : list JSExportEntry;
  module_ns : JSValue;
  func_obj : JSValue;
  eval_exception : JSValue;
  meta_obj : JSValue;
  module_promise : JSValue;
  module_resolving_funcs : JSValue * JSValue;
  private_value : JSValue;
}.

Inductive gc_payload :=
| JS_OBJECT (shape : ptr) (prop : list JSProperty)
    (gc_mark : list JSValue) (* what the [gc_mark] of the class marks; none for JS_CLASS_OBJECT *)
| FUNCTION_BYTECODE (cpool : list JSValue) (realm : option ptr)
| VAR_REF_DETACHED (pvalue : JSValue)
| VAR_REF_FRAME (async_func : option ptr) (* the frame's function, when it is asynchronous *)
| ASYNC_FUNCTION (is_completed : bool) (cur_func this_val : JSValue)
    (stack : option (list JSValue)) (* from arg_buf to cur_sp; none while it runs *)
    (resolving_funcs : JSValue * JSValue)
| SHAPE (proto : option ptr)
| JS_CONTEXT (ctx : JSContext)
| MODULE (m : JSModuleDef).

(** [JS_MarkValue]: the pointers handed to [mark_func]. *)
Definition JS_MarkValue (v : JSValue) : list ptr :=
  match v with JSGCPtr p => [p] | JSOther => [] end.
Definition mark_opt (o : option ptr) : list ptr := match o with Some p => [p] | None => [] end.

Definition mark_property (pr : JSProperty) : list ptr :=
  match pr with
  | prop_null => []
  | prop_value v => JS_MarkValue v
  | prop_getset getter setter => mark_opt getter ++ mark_opt setter
  | prop_varref var_ref => [var_ref]
  | prop_autoinit realm => [realm]
  end.

Definition JS_MarkContext (ctx : JSContext) : list ptr :=
  loaded_modules ctx ++
  JS_MarkValue (global_obj ctx) ++
  JS_MarkValue (global_var_obj ctx) ++
  JS_MarkValue (throw_type_error ctx) ++
  JS_MarkValue (eval_obj ctx) ++
  JS_MarkValue (array_proto_values ctx) ++
  (native_error_proto ctx ≫= JS_MarkValue) ++
  (class_proto ctx ≫= JS_MarkValue) ++
  JS_MarkValue (iterator_ctor ctx) ++
  JS_MarkValue (async_iterator_proto ctx) ++
  JS_MarkValue (promise_ctor ctx) ++
  JS_MarkValue (array_ctor ctx) ++
  JS_MarkValue (regexp_ctor ctx) ++
  JS_MarkValue (function_ctor ctx) ++
  JS_MarkValue (function_proto ctx) ++
  mark_opt (array_shape ctx) ++
  mark_opt (arguments_shape ctx) ++
  mark_opt (mapped_arguments_shape ctx) ++
  mark_opt (regexp_shape ctx) ++
  mark_opt (regexp_result_shape ctx).

Definition mark_export (me : JSExportEntry) : list ptr :=
  match me with EXPORT_LOCAL var_ref => mark_opt var_ref | EXPORT_INDIRECT => [] end.
Definition js_mark_module_def (m : JSModuleDef) : list ptr :=
  (req_attributes m ≫= JS_MarkValue) ++
  (export_entries m ≫= mark_export) ++
  JS_MarkValue (module_ns m) ++
  JS_MarkValue (func_obj m) ++
  JS_MarkValue (eval_exception m) ++
  JS_MarkValue (meta_obj m) ++
  JS_MarkValue (module_promise m) ++
  JS_MarkValue (module_resolving_funcs m).1 ++
  JS_MarkValue (module_resolving_funcs m).2 ++
  JS_MarkValue (private_value m).

(** The pointers that [mark_children] hands to [mark_func], in order. *)
Definition children (gp : gc_payload) : list ptr :=
  match gp with
  | JS_OBJECT shape prop gc_mark => [shape] ++ (prop ≫= mark_property) ++ (gc_mark ≫= JS_MarkValue)
  | FUNCTION_BYTECODE cpool realm => (cpool ≫= JS_MarkValue) ++ mark_opt realm
  | VAR_REF_DETACHED pvalue => JS_MarkValue pvalue
  | VAR_REF_FRAME async_func => mark_opt async_func
  | ASYNC_FUNCTION is_completed cur_func this_val stack resolving_funcs =>
      (if is_completed then []
       else JS_MarkValue cur_func ++ JS_MarkValue this_val ++
            match stack with Some sp => sp ≫= JS_MarkValue | None => [] end) ++
      JS_MarkValue resolving_funcs.1 ++ JS_MarkValue resolving_funcs.2
  | SHAPE proto => mark_opt proto
  | JS_CONTEXT ctx => JS_MarkContext ctx
  | MODULE m => js_mark_module_def m
  end.

(** ** The runtime's part *)
Record header := mk_hdr { ref_count : Z; mark : bool }.
Record runtime := mk_rt {
  objects : gmap ptr gc_payload;
  headers : gmap ptr header;
  gc_obj_list : list ptr;
  tmp_obj_list : list ptr;
}.

Definition set_header (rt : runtime) (p : ptr) (h : header) : runtime :=
  mk_rt (objects rt) (<[p := h]> (headers rt)) (gc_obj_list rt) (tmp_obj_list rt).

(** Taking [p] out of the list it is in, and appending it to one. *)
Definition remove (p : ptr) (l : list ptr) : list ptr := filter (fun q => q <> p) l.
Definition list_del (rt : runtime) (p : ptr) : runtime :=
  mk_rt (objects rt) (headers rt) (remove p (gc_obj_list rt)) (remove p (tmp_obj_list rt)).
Definition add_gc (rt : runtime) (p : ptr) : runtime :=
  mk_rt (objects rt) (headers rt) (gc_obj_list rt ++ [p]) (tmp_obj_list rt).
Definition add_tmp (rt : runtime) (p : ptr) : runtime :=
  mk_rt (objects rt) (headers rt) (gc_obj_list rt) (tmp_obj_list rt ++ [p]).

(** The count of the header is set by the caller. *)
Definition add_gc_object (rt : runtime) (p : ptr) (gp : gc_payload) : option runtime :=
  h ← headers rt !! p;
  Some (add_gc (mk_rt (<[p := gp]> (objects rt)) (<[p := mk_hdr (ref_count h) false]> (headers rt)) (gc_obj_list rt) (tmp_obj_list rt)) p).
Definition remove_gc_object (rt : runtime) (p : ptr) : runtime := list_del rt p.

Definition JS_MarkFunc : Type := runtime -> ptr -> option runtime.

Fixpoint mark_list (mark_func : JS_MarkFunc) (rt : runtime) (ps : list ptr) : option runtime :=
  match ps with
  | [] => Some rt
  | p :: ps => rt ← mark_func rt p; mark_list mark_func rt ps
  end.
Definition mark_children (rt : runtime) (p : ptr) (mark_func : JS_MarkFunc) : option runtime :=
  gp ← objects rt !! p; mark_list mark_func rt (children gp).

Definition gc_decref_child : JS_MarkFunc := fun rt p =>
  h ← headers rt !! p;
  if 0 <? ref_count h then
    let h := mk_hdr (ref_count h - 1) (mark h) in
    let rt := set_header rt p h in
    if (ref_count h =? 0) && mark h then Some (add_tmp (list_del rt p) p) else Some rt
  else None.

(** The successor of [p] in a list. *)
Fixpoint next_of (p : ptr) (l : list ptr) : option ptr :=
  match l with
  | [] => None
  | q :: l => if decide (q = p) then head l else next_of p l
  end.

(** The body of the loop of [gc_decref]. *)
Definition gc_decref_obj (rt : runtime) (p : ptr) : option runtime :=
  h ← headers rt !! p;
  if mark h then None
  else
    rt ← mark_children rt p gc_decref_child;
    h ← headers rt !! p;
    let rt := set_header rt p (mk_hdr (ref_count h) true) in
    if ref_count h =? 0 then Some (add_tmp (list_del rt p) p) else Some rt.

(** [list_for_each_safe]: the successor is read before the body runs. *)
Fixpoint gc_decref_loop (fuel : nat) (rt : runtime) (el : option ptr) : option runtime :=
  match el with
  | None => Some rt
  | Some p =>
      match fuel with
      | O => None
      | S fuel =>
          let el1 := next_of p (gc_obj_list rt) in
          rt ← gc_decref_obj rt p;
          gc_decref_loop fuel rt el1
      end
  end.

Definition gc_decref (rt : runtime) : option runtime :=
  let rt := mk_rt (objects rt) (headers rt) (gc_obj_list rt) [] in
  gc_decref_loop (length (gc_obj_list rt)) rt (head (gc_obj_list rt)).

Definition gc_scan_incref_child : JS_MarkFunc := fun rt p =>
  h ← headers rt !! p;
  let h := mk_hdr (ref_count h + 1) (mark h) in
  let rt := set_header rt p h in
  if ref_count h =? 1 then
    Some (set_header (add_gc (list_del rt p) p) p (mk_hdr (ref_count h) false))
  else Some rt.

Definition gc_scan_incref_child2 : JS_MarkFunc := fun rt p =>
  h ← headers rt !! p;
  Some (set_header rt p (mk_hdr (ref_count h + 1) (mark h))).

Definition gc_scan_obj (rt : runtime) (p : ptr) : option runtime :=
  h ← headers rt !! p;
  if 0 <? ref_count h then
    mark_children (set_header rt p (mk_hdr (ref_count h) false)) p gc_scan_incref_child
  else None.

(** [list_for_each]: the successor is read after the body, so the objects
    appended meanwhile are visited too. *)
Fixpoint gc_scan_loop (fuel : nat) (rt : runtime) (el : option ptr) : option runtime :=
  match el with
  | None => Some rt
  | Some p =>
      match fuel with
      | O => None
      | S fuel =>
          rt ← gc_scan_obj rt p;
          gc_scan_loop fuel rt (next_of p (gc_obj_list rt))
      end
  end.

Fixpoint gc_restore_loop (rt : runtime) (tmp : list ptr) : option runtime :=
  match tmp with
  | [] => Some rt
  | p :: tmp => rt ← mark_children rt p gc_scan_incref_child2; gc_restore_loop rt tmp
  end.

Definition gc_scan (rt : runtime) : option runtime :=
  rt ← gc_scan_loop (length (gc_obj_list rt) + length (tmp_obj_list rt)) rt (head (gc_obj_list rt));
  gc_restore_loop rt (tmp_obj_list rt).

(** The two passes that decide what is garbage. *)
Definition gc_mark_garbage (rt : runtime) : option runtime :=
  rt ← gc_decref rt; gc_scan rt.
