(* ===== verification/GcProps.v ===== *)
(** * What the cycle collector decides (quickjs.c)

    The counting argument behind [gc_decref] and [gc_scan]: after the first
    pass a count is the number of references from outside the heap, after the
    second a count is what it was, and the objects left in [tmp_obj_list] are
    those that no external reference reaches. *)
From S2P Require Import Prelude Sort Gc.

(** ** Counting references *)

(** How often [p] occurs in a list of references. *)
Definition occ (p : ptr) (l : list ptr) : Z := Z.of_nat (count_occ Pos.eq_dec l p).

Lemma occ_nonneg p l : 0 <= occ p l.
Proof. unfold occ; lia. Qed.
Lemma occ_app p l1 l2 : occ p (l1 ++ l2) = occ p l1 + occ p l2.
Proof. unfold occ. rewrite count_occ_app. lia. Qed.
Lemma occ_cons p q l : occ p (q :: l) = (if decide (q = p) then 1 else 0) + occ p l.
Proof. unfold occ. cbn. destruct (Pos.eq_dec q p), (decide (q = p)); lia || done. Qed.
Lemma occ_snoc p q l : occ p (l ++ [q]) = occ p l + (if decide (q = p) then 1 else 0).
Proof. rewrite occ_app, occ_cons. unfold occ at 2; cbn. lia. Qed.
Lemma occ_perm p l1 l2 : l1 ≡ₚ l2 -> occ p l1 = occ p l2.
Proof. induction 1; rewrite ?occ_cons in *; lia. Qed.
Lemma occ_pos p l : p ∈ l -> 0 < occ p l.
Proof.
  intros H. unfold occ.
  pose proof (proj1 (count_occ_In Pos.eq_dec l p) (proj1 (list_elem_of_In _ _) H)). lia.
Qed.

(** The references an object holds. *)
Definition kids (objs : gmap ptr gc_payload) (p : ptr) : list ptr :=
  match objs !! p with Some gp => children gp | None => [] end.

Lemma mark_children_kids rt p f :
  is_Some (objects rt !! p) -> mark_children rt p f = mark_list f rt (kids (objects rt) p).
Proof. intros [gp H]. unfold mark_children, kids. rewrite H. done. Qed.

(** Running a mark function over references, with an invariant indexed by the
    references handled so far. *)
Lemma mark_list_inv (I : list ptr -> runtime -> Prop) f ps c rt :
  I c rt ->
  (forall c1 q c2 rt, ps = c1 ++ q :: c2 -> I (c ++ c1) rt -> exists rt', f rt q = Some rt' /\ I (c ++ c1 ++ [q]) rt') ->
  exists rt', mark_list f rt ps = Some rt' /\ I (c ++ ps) rt'.
Proof.
  revert c rt. induction ps as [|q ps IH]; intros c rt HI Hstep; cbn [mark_list].
  { exists rt. by rewrite app_nil_r. }
  destruct (Hstep [] q ps rt eq_refl) as (rt1 & H1 & HI1); [by rewrite app_nil_r|].
  rewrite H1. bind. destruct (IH (c ++ [q]) rt1) as (rt2 & H2 & HI2); [done| |].
  - intros c1 q' c2 rt' -> HI'. destruct (Hstep (q :: c1) q' c2 rt') as (rt'' & ? & HI''); [done| |].
    + by rewrite <- app_assoc in HI'.
    + exists rt''. split; [done|]. by rewrite <- app_assoc.
  - exists rt2. split; [done|]. by rewrite <- app_assoc in HI2.
Qed.

Lemma next_of_app p l1 l2 : p ∉ l1 -> next_of p (l1 ++ p :: l2) = head l2.
Proof.
  induction l1 as [|q l1 IH]; intros H; cbn [next_of app].
  - by rewrite decide_True.
  - rewrite decide_False by set_solver. apply IH. set_solver.
Qed.

#[local] Arguments remove : simpl never.
Lemma remove_not_in p l : p ∉ l -> remove p l = l.
Proof.
  intros H. unfold remove. induction l as [|q l IH]; [done|].
  rewrite filter_cons_True by set_solver. f_equal. apply IH. set_solver.
Qed.
Lemma remove_perm p l1 l2 : NoDup (l1 ++ p :: l2) -> remove p (l1 ++ p :: l2) = l1 ++ l2.
Proof.
  rewrite NoDup_app, NoDup_cons. intros (_ & Hd & Hn & _). unfold remove. rewrite filter_app, filter_cons_False by tauto.
  f_equal; [apply (remove_not_in p)|by apply (remove_not_in p)]. intros ?. eapply Hd; set_solver.
Qed.

(** Removing an element that a filter no longer keeps. *)
Lemma remove_filter (P Q : ptr -> Prop) `{!forall x, Decision (P x), !forall x, Decision (Q x)} p (l : list ptr) :
  ~ Q p -> (forall x, x <> p -> (P x <-> Q x)) -> remove p (filter P l) = filter Q l.
Proof.
  intros Hp Hx. unfold remove. rewrite list_filter_filter. apply list_filter_iff.
  intros x. destruct (decide (x = p)) as [->|]; [tauto|]. specialize (Hx x). tauto.
Qed.


Lemma filter_agree (P Q : ptr -> Prop) `{!forall x, Decision (P x), !forall x, Decision (Q x)} (l : list ptr) :
  (forall x, x ∈ l -> (P x <-> Q x)) -> filter P l = filter Q l.
Proof.
  induction l as [|x l IH]; intros Hx; [done|]. rewrite !filter_cons, IH by set_solver.
  specialize (Hx x). destruct (decide (P x)), (decide (Q x)); set_solver.
Qed.

(** A filter that begins to keep one element. *)
Lemma filter_admits (P Q : ptr -> Prop) `{!forall x, Decision (P x), !forall x, Decision (Q x)} p (l : list ptr) :
  NoDup l -> p ∈ l -> ~ P p -> Q p -> (forall x, x <> p -> (P x <-> Q x)) -> filter P l ++ [p] ≡ₚ filter Q l.
Proof.
  intros Hnd Hin HP HQ Hx. apply list_elem_of_split in Hin as (l1 & l2 & ->).
  apply NoDup_app in Hnd as (_ & Hd & [Hn _]%NoDup_cons).
  rewrite !filter_app, filter_cons_False, filter_cons_True by done.
  rewrite (filter_agree P Q l1), (filter_agree P Q l2).
  - rewrite <- app_assoc. f_equiv. symmetry. apply Permutation_cons_append.
  - intros x ?. apply Hx. set_solver.
  - intros x ?. apply Hx. intros ->. apply (Hd p); set_solver.
Qed.

(** ** Where the collector starts, and what it decides *)

(** A heap ready for a collection: all objects are in [gc_obj_list] once and
    unmarked, they refer to each other only, and a count is at least the
    number of references from objects. *)
Record gc_ready (rt : runtime) : Prop := {
  ready_nodup : NoDup (gc_obj_list rt);
  ready_object : forall p, p ∈ gc_obj_list rt -> is_Some (objects rt !! p);
  ready_header : forall p, p ∈ gc_obj_list rt -> exists n, headers rt !! p = Some (mk_hdr n false);
  ready_closed : forall p q, p ∈ gc_obj_list rt -> q ∈ kids (objects rt) p -> q ∈ gc_obj_list rt;
  ready_count : forall p h, p ∈ gc_obj_list rt -> headers rt !! p = Some h ->
    occ p (gc_obj_list rt ≫= kids (objects rt)) <= ref_count h;
}.

(** Reachable from an object with a reference from outside the heap. *)
Inductive reachable (rt : runtime) : ptr -> Prop :=
| reach_root p h : p ∈ gc_obj_list rt -> headers rt !! p = Some h ->
    occ p (gc_obj_list rt ≫= kids (objects rt)) < ref_count h -> reachable rt p
| reach_child p q : reachable rt p -> q ∈ kids (objects rt) p -> reachable rt q.

(** ** The two passes *)
Section passes.
Context (rt0 : runtime) (ready : gc_ready rt0).

Let L := gc_obj_list rt0.
Let objs := objects rt0.
Let refs := L ≫= kids objs.
Let count (p : ptr) : Z := match headers rt0 !! p with Some h => ref_count h | None => 0 end.

Lemma count_header p : p ∈ L -> headers rt0 !! p = Some (mk_hdr (count p) false).
Proof. intros H. destruct (ready_header _ ready p H) as [n Hn]. unfold count. by rewrite Hn. Qed.
Lemma count_refs p : p ∈ L -> occ p refs <= count p.
Proof. intros H. apply (ready_count _ ready p _ H (count_header p H)). Qed.
Lemma count_nonneg p : 0 <= count p - occ p refs \/ p ∉ L.
Proof. destruct (decide (p ∈ L)) as [H|]; [|tauto]. pose proof (count_refs p H). lia. Qed.

(** During [gc_decref]: the references [c] are subtracted, [V] is visited,
    [R] is not. *)
Record decref_inv (c V R : list ptr) (rt : runtime) : Prop := {
  di_objects : objects rt = objs;
  di_header : forall p, p ∈ L -> headers rt !! p = Some (mk_hdr (count p - occ p c) (bool_decide (p ∈ V)));
  di_other : forall p, p ∉ L -> headers rt !! p = headers rt0 !! p;
  di_gc : gc_obj_list rt = filter (fun p => 0 < count p - occ p c) V ++ R;
  di_tmp : tmp_obj_list rt ≡ₚ filter (fun p => count p - occ p c = 0) V;
}.

Lemma decref_child_step c V R rt q :
  V ++ R = L -> q ∈ L -> occ q c < count q -> decref_inv c V R rt ->
  exists rt', gc_decref_child rt q = Some rt' /\ decref_inv (c ++ [q]) V R rt'.
Proof.
  intros HL Hq Hlt [Ho Hh Hx Hg Ht]. unfold gc_decref_child. rewrite (Hh q Hq). bind. cbn [ref_count mark].
  rewrite (proj2 (Z.ltb_lt _ _)) by lia.
  pose proof (ready_nodup _ ready) as Hnd. fold L in Hnd. rewrite <- HL in Hnd. apply NoDup_app in Hnd as (HndV & Hdis & HndR).
  assert (Hhd : forall p, p ∈ L -> (<[q:=mk_hdr (count q - occ q c - 1) (bool_decide (q ∈ V))]> (headers rt)) !! p
    = Some (mk_hdr (count p - occ p (c ++ [q])) (bool_decide (p ∈ V)))).
  { intros p Hp. rewrite occ_snoc. destruct (decide (q = p)) as [<-|Hne].
    - rewrite lookup_insert_eq. do 2 f_equal. lia.
    - rewrite lookup_insert_ne, Hh by done. do 2 f_equal. lia. }
  assert (Hoth : forall p, p ∉ L -> (<[q:=mk_hdr (count q - occ q c - 1) (bool_decide (q ∈ V))]> (headers rt)) !! p = headers rt0 !! p).
  { intros p Hp. rewrite lookup_insert_ne by (intros ->; done). by apply Hx. }
  assert (Hsame : forall p, p <> q -> occ p (c ++ [q]) = occ p c).
  { intros p Hne. rewrite occ_snoc, decide_False by congruence. lia. }
  assert (Hself : occ q (c ++ [q]) = occ q c + 1) by (rewrite occ_snoc, decide_True; done).
  destruct ((count q - occ q c - 1 =? 0) && bool_decide (q ∈ V)) eqn:Em; eexists; (split; [done|]).
  - apply andb_true_iff in Em as [Ez HV]. apply Z.eqb_eq in Ez. apply bool_decide_eq_true in HV.
    split; cbn; [done|done|done| |].
    + rewrite Hg. unfold remove. rewrite filter_app. f_equal; [|apply (remove_not_in q); eauto].
      apply (remove_filter (fun p => 0 < count p - occ p c) (fun p => 0 < count p - occ p (c ++ [q]))); [lia|].
      intros p Hp. rewrite (Hsame p Hp). done.
    + rewrite (remove_not_in q) by (rewrite Ht, list_elem_of_filter; lia). rewrite Ht.
      apply filter_admits; [done|done|lia|lia|]. intros p Hp. by rewrite (Hsame p Hp).
  - assert (Hk : q ∈ V -> count q - occ q c - 1 <> 0).
    { intros HV E. by rewrite E, bool_decide_true in Em. }
    split; cbn; [done|done|done| |].
    + rewrite Hg. f_equal. apply filter_agree. intros p Hp. destruct (decide (p = q)) as [->|Hne]; [|by rewrite Hsame].
      specialize (Hk Hp). lia.
    + rewrite Ht. apply reflexive_eq, filter_agree. intros p Hp. destruct (decide (p = q)) as [->|Hne]; [|by rewrite Hsame].
      specialize (Hk Hp). lia.
Qed.

(** An object of which the reference [q] is one: its counts allow one more
    subtraction. *)
Lemma refs_split V p R c1 q c2 :
  V ++ p :: R = L -> kids objs p = c1 ++ q :: c2 ->
  q ∈ L /\ occ q ((V ≫= kids objs) ++ c1) < count q.
Proof.
  intros HL Hk. assert (Hq : q ∈ L).
  { apply (ready_closed _ ready p); [fold L; rewrite <- HL; set_solver|]. fold objs. rewrite Hk. set_solver. }
  split; [done|]. pose proof (count_refs q Hq) as Hc. unfold refs in Hc. rewrite <- HL in Hc.
  rewrite bind_app, bind_cons, Hk in Hc. rewrite !occ_app, occ_cons, decide_True in Hc by done. rewrite occ_app.
  pose proof (occ_nonneg q c2). pose proof (occ_nonneg q (R ≫= kids objs)). lia.
Qed.

Lemma object_of_L p : p ∈ L -> is_Some (objs !! p).
Proof. apply (ready_object _ ready). Qed.

Lemma bind_snoc V p : ((V ++ [p]) ≫= kids objs) = (V ≫= kids objs) ++ kids objs p.
Proof. rewrite bind_app, bind_cons. cbn. by rewrite app_nil_r. Qed.

Lemma L_split V p R : V ++ p :: R = L -> (p ∈ L) /\ NoDup V /\ (p ∉ V) /\ (p ∉ R).
Proof.
  intros HL. pose proof (ready_nodup _ ready) as Hnd. fold L in Hnd. rewrite <- HL in Hnd.
  apply NoDup_app in Hnd as (HndV & Hdis & [HpR _]%NoDup_cons). rewrite <- HL.
  split_and!; [set_solver|done| |done]. intros ?; eapply Hdis; set_solver.
Qed.

(** The end of the loop body: the object is marked, and moved when its count
    is zero. *)
Lemma decref_mark_step c V p R rt :
  V ++ p :: R = L -> 0 <= count p - occ p c -> decref_inv c V (p :: R) rt ->
  let rt1 := set_header rt p (mk_hdr (count p - occ p c) true) in
  decref_inv c (V ++ [p]) R (if count p - occ p c =? 0 then add_tmp (list_del rt1 p) p else rt1).
Proof.
  intros HL Hge [Ho Hh Hx Hg Ht] rt1. destruct (L_split _ _ _ HL) as (Hp & HndV & HpV & HpR).
  assert (Hhd : forall q, q ∈ L -> headers rt1 !! q = Some (mk_hdr (count q - occ q c) (bool_decide (q ∈ V ++ [p])))).
  { intros q Hq. unfold rt1; cbn. destruct (decide (p = q)) as [<-|Hne].
    - rewrite lookup_insert_eq, bool_decide_true by set_solver. done.
    - rewrite lookup_insert_ne, Hh by done. do 2 f_equal. apply bool_decide_ext. set_solver. }
  assert (Hoth : forall q, q ∉ L -> headers rt1 !! q = headers rt0 !! q).
  { intros q Hq. unfold rt1; cbn. rewrite lookup_insert_ne by (intros ->; done). by apply Hx. }
  assert (HpF : forall P `{!forall x, Decision (P x)}, p ∉ filter P V) by (intros P ?; rewrite list_elem_of_filter; tauto).
  destruct (Z.eqb_spec (count p - occ p c) 0) as [Ez|Ez]; (split; [done|done|done| |]); cbn; rewrite filter_app.
  - rewrite (filter_cons_False _ p []), filter_nil, app_nil_r, Hg by lia.
    unfold remove. rewrite filter_app, filter_cons_False by tauto.
    f_equal; by apply (remove_not_in p).
  - rewrite filter_cons_True, filter_nil by done. rewrite (remove_not_in p), Ht; [done|]. rewrite Ht. apply HpF.
  - rewrite Hg, filter_cons_True, filter_nil, <- app_assoc by lia. done.
  - rewrite Ht, filter_cons_False, filter_nil, app_nil_r by lia. done.
Qed.

Lemma decref_obj_step V p R rt :
  V ++ p :: R = L -> decref_inv (V ≫= kids objs) V (p :: R) rt ->
  exists rt', gc_decref_obj rt p = Some rt' /\ decref_inv ((V ++ [p]) ≫= kids objs) (V ++ [p]) R rt'.
Proof.
  intros HL HI. destruct (L_split _ _ _ HL) as (Hp & HndV & HpV & HpR).
  unfold gc_decref_obj. rewrite (di_header _ _ _ _ HI p Hp). bind. cbn [mark]. rewrite bool_decide_false by done.
  rewrite mark_children_kids by (rewrite (di_objects _ _ _ _ HI); by apply object_of_L).
  rewrite (di_objects _ _ _ _ HI).
  destruct (mark_list_inv (fun c => decref_inv c V (p :: R)) gc_decref_child (kids objs p) (V ≫= kids objs) rt HI) as (rt1 & E1 & HI1).
  { intros c1 q c2 rt1 Hk HI1. rewrite app_assoc. destruct (refs_split _ _ _ _ _ _ HL Hk) as [Hq Hlt].
    by apply decref_child_step. }
  rewrite E1. bind. rewrite (di_header _ _ _ _ HI1 p Hp). bind. cbn [ref_count]. rewrite bind_snoc.
  eapply decref_mark_step in HI1; [|done|].
  { destruct (_ =? 0); eauto. }
  pose proof (count_refs p Hp) as Hc. unfold refs in Hc. rewrite <- HL, bind_app, bind_cons, app_assoc, occ_app in Hc.
  pose proof (occ_nonneg p (R ≫= kids objs)). lia.
Qed.

Lemma decref_loop_inv V R rt fuel :
  V ++ R = L -> (length R <= fuel)%nat -> decref_inv (V ≫= kids objs) V R rt ->
  exists rt', gc_decref_loop fuel rt (head R) = Some rt' /\ decref_inv refs L [] rt'.
Proof.
  revert V rt fuel. induction R as [|p R IH]; intros V rt fuel HL Hf HI.
  { rewrite app_nil_r in HL. subst V. exists rt. by destruct fuel. }
  destruct fuel as [|fuel]; [cbn in Hf; lia|]. cbn [gc_decref_loop head].
  destruct (L_split _ _ _ HL) as (_ & _ & HpV & _).
  rewrite (di_gc _ _ _ _ HI), next_of_app by (rewrite list_elem_of_filter; tauto).
  destruct (decref_obj_step _ _ _ _ HL HI) as (rt1 & E1 & HI1). rewrite E1. bind.
  apply (IH (V ++ [p])); [by rewrite <- app_assoc|cbn in Hf; lia|done].
Qed.

(** After [gc_decref] a count is the number of external references. *)
Lemma gc_decref_spec : exists rt, gc_decref rt0 = Some rt /\ decref_inv refs L [] rt.
Proof.
  apply (decref_loop_inv []); [done|done|]. split; cbn; [done| |done|done|done].
  intros p Hp. rewrite count_header by done. unfold occ; cbn. do 2 f_equal. lia.
Qed.

Let ext (p : ptr) : Z := count p - occ p refs.

(** During [gc_scan]: the references [c] are added back, [V] is visited, [W]
    waits in [gc_obj_list]. *)
Record scan_inv (c V W : list ptr) (rt : runtime) : Prop := {
  si_objects : objects rt = objs;
  si_header : forall p, p ∈ L -> exists m, headers rt !! p = Some (mk_hdr (ext p + occ p c) m) /\
    (p ∈ V -> m = false) /\ (p ∈ tmp_obj_list rt -> m = true);
  si_other : forall p, p ∉ L -> headers rt !! p = headers rt0 !! p;
  si_gc : gc_obj_list rt = V ++ W;
  si_perm : (V ++ W) ++ tmp_obj_list rt ≡ₚ L;
  si_kept : forall p, p ∈ L -> (p ∈ V ++ W <-> 0 < ext p + occ p c);
  si_reach : forall p, p ∈ V ++ W -> reachable rt0 p;
}.

Lemma ext_nonneg p : p ∈ L -> 0 <= ext p.
Proof. intros H. unfold ext. pose proof (count_refs p H). lia. Qed.

Lemma scan_nodup (V W tmp : list ptr) : (V ++ W) ++ tmp ≡ₚ L -> NoDup (V ++ W) /\ (forall p, p ∈ V ++ W -> p ∉ tmp) /\ NoDup tmp.
Proof. intros H. pose proof (ready_nodup _ ready) as Hnd. fold L in Hnd. rewrite <- H in Hnd. by apply NoDup_app in Hnd. Qed.

(** What adding the reference [q] back does to the headers. *)
Lemma scan_header_step c (V tmp tmp' : list ptr) (hs : gmap ptr header) q m m' :
  q ∈ L ->
  (forall p, p ∈ L -> exists m, hs !! p = Some (mk_hdr (ext p + occ p c) m) /\ (p ∈ V -> m = false) /\ (p ∈ tmp -> m = true)) ->
  hs !! q = Some (mk_hdr (ext q + occ q c) m) ->
  (q ∈ V -> m' = false) -> (q ∈ tmp' -> m' = true) -> (forall p, p <> q -> p ∈ tmp' -> p ∈ tmp) ->
  forall p, p ∈ L -> exists m, <[q := mk_hdr (ext q + occ q c + 1) m']> hs !! p = Some (mk_hdr (ext p + occ p (c ++ [q])) m) /\
    (p ∈ V -> m = false) /\ (p ∈ tmp' -> m = true).
Proof.
  intros Hq Hh Hm HV Htmp Hsub p Hp. rewrite occ_snoc. destruct (decide (q = p)) as [<-|Hne].
  - exists m'. rewrite lookup_insert_eq. split; [do 2 f_equal; lia|done].
  - rewrite lookup_insert_ne by done. destruct (Hh p Hp) as (mp & Hp1 & Hp2 & Hp3). exists mp.
    split; [rewrite Hp1; do 2 f_equal; lia|]. split; [done|]. intros ?. by apply Hp3, Hsub.
Qed.

Lemma scan_kept_step c q (l l' : list ptr) :
  q ∈ L -> (forall p, p ∈ L -> (p ∈ l <-> 0 < ext p + occ p c)) -> q ∈ l' -> (forall p, p <> q -> (p ∈ l' <-> p ∈ l)) ->
  forall p, p ∈ L -> (p ∈ l' <-> 0 < ext p + occ p (c ++ [q])).
Proof.
  intros Hq Hk Hin Hsame p Hp. rewrite occ_snoc. destruct (decide (q = p)) as [<-|Hne].
  - pose proof (ext_nonneg q Hq). pose proof (occ_nonneg q c). split; [lia|done].
  - rewrite (Hsame p) by done. rewrite (Hk p Hp). lia.
Qed.

Lemma scan_child_step c V q rt :
  q ∈ L -> reachable rt0 q -> (exists W, scan_inv c V W rt) ->
  exists rt', gc_scan_incref_child rt q = Some rt' /\ exists W, scan_inv (c ++ [q]) V W rt'.
Proof.
  intros Hq Hr (W & [Ho Hh Hx Hg Hp Hk Hrch]).
  destruct (Hh q Hq) as (m & Hm & HmV & Hmt). destruct (scan_nodup _ _ _ Hp) as (Hnd & Hdis & Hndt).
  assert (Hoth : forall h p, p ∉ L -> <[q := h]> (headers rt) !! p = headers rt0 !! p).
  { intros h p HpL. rewrite lookup_insert_ne by (intros ->; done). by apply Hx. }
  unfold gc_scan_incref_child. rewrite Hm. bind. cbn [ref_count mark].
  destruct (Z.eqb_spec (ext q + occ q c + 1) 1) as [E|E]; eexists; (split; [done|]).
  - assert (Hn : q ∉ V ++ W) by (rewrite Hk by done; lia).
    assert (Hqt : q ∈ tmp_obj_list rt) by (rewrite <- Hp in Hq; apply elem_of_app in Hq; tauto).
    apply list_elem_of_split in Hqt as (t1 & t2 & Et).
    exists (W ++ [q]). split; cbn; rewrite ?insert_insert_eq; [done| |auto| | | |].
    + rewrite Et in Hndt |- *. rewrite remove_perm by done. eapply scan_header_step; try done.
      * apply NoDup_app in Hndt as (_ & Hd & [Hn2 _]%NoDup_cons). intros Hin. exfalso. set_solver.
      * rewrite Et. set_solver.
    + by rewrite Hg, remove_not_in, <- app_assoc.
    + rewrite Et in Hndt |- *. rewrite remove_perm by done. rewrite <- Hp, Et. solve_Permutation.
    + eapply scan_kept_step; [done|exact Hk|set_solver|]. intros p Hne. set_solver.
    + intros p Hin. rewrite app_assoc in Hin. apply elem_of_app in Hin as [Hin| ->%list_elem_of_singleton]; auto.
  - assert (Hn : q ∈ V ++ W).
    { apply Hk; [done|]. pose proof (ext_nonneg q Hq). pose proof (occ_nonneg q c). lia. }
    exists W. split; cbn; [done| |auto|done|done| |done].
    + by eapply scan_header_step.
    + by eapply scan_kept_step.
Qed.

Lemma reachable_in_L p : reachable rt0 p -> p ∈ L.
Proof. induction 1; [done|]. by eapply (ready_closed _ ready). Qed.

(** The beginning of the loop body: the object is unmarked. *)
Lemma scan_mark_step c V p W rt n m :
  scan_inv c V (p :: W) rt -> headers rt !! p = Some (mk_hdr n m) -> scan_inv c (V ++ [p]) W (set_header rt p (mk_hdr n false)).
Proof.
  intros [Ho Hh Hx Hg Hp Hk Hrch] Hn. assert (Happ : (V ++ [p]) ++ W = V ++ p :: W) by by rewrite <- app_assoc.
  assert (HpL : p ∈ L) by (rewrite <- Hp; set_solver). destruct (scan_nodup _ _ _ Hp) as (_ & Hdis & _).
  split; cbn; rewrite ?Happ; [done| | |done|done|done|done].
  - intros q Hq. destruct (Hh q Hq) as (mq & Hq1 & Hq2 & Hq3). destruct (decide (p = q)) as [<-|Hne].
    + exists false. rewrite lookup_insert_eq. rewrite Hq1 in Hn. simplify_eq. split_and!; [done|done|].
      intros Ht. exfalso. apply (Hdis p); set_solver.
    + exists mq. rewrite lookup_insert_ne by done. split_and!; [done| |done]. intros ?. apply Hq2. set_solver.
  - intros q Hq. rewrite lookup_insert_ne by (intros ->; done). by apply Hx.
Qed.

Lemma scan_obj_step V p W rt :
  scan_inv (V ≫= kids objs) V (p :: W) rt ->
  exists rt' W', gc_scan_obj rt p = Some rt' /\ scan_inv ((V ++ [p]) ≫= kids objs) (V ++ [p]) W' rt'.
Proof.
  intros HI. assert (HpV : p ∈ V ++ p :: W) by set_solver.
  assert (HpL : p ∈ L) by (rewrite <- (si_perm _ _ _ _ HI); set_solver).
  destruct (si_header _ _ _ _ HI p HpL) as (m & Hm & _). pose proof (scan_mark_step _ _ _ _ _ _ _ HI Hm) as HI1.
  pose proof (proj1 (si_kept _ _ _ _ HI p HpL) HpV) as Hpos.
  unfold gc_scan_obj. rewrite Hm. bind. cbn [ref_count]. rewrite (proj2 (Z.ltb_lt _ _)) by done.
  rewrite mark_children_kids by (rewrite (si_objects _ _ _ _ HI1); by apply object_of_L). rewrite (si_objects _ _ _ _ HI1).
  destruct (mark_list_inv (fun c rt => exists W, scan_inv c (V ++ [p]) W rt) gc_scan_incref_child (kids objs p) (V ≫= kids objs)
    (set_header rt p (mk_hdr (ext p + occ p (V ≫= kids objs)) false))) as (rt' & E & W' & HI'); [by exists W| |].
  { intros c1 q c2 rt1 Hkq HI2. rewrite app_assoc. assert (Hr : reachable rt0 q).
    { eapply reach_child; [by apply (si_reach _ _ _ _ HI)|]. fold objs. rewrite Hkq. set_solver. }
    apply scan_child_step; [by apply reachable_in_L|done|done]. }
  exists rt', W'. by rewrite bind_snoc.
Qed.

Lemma scan_loop_inv V W rt fuel :
  (length L <= length V + fuel)%nat -> scan_inv (V ≫= kids objs) V W rt ->
  exists rt' G, gc_scan_loop fuel rt (head W) = Some rt' /\ scan_inv (G ≫= kids objs) G [] rt'.
Proof.
  revert V W rt. induction fuel as [|fuel IH]; intros V W rt Hf HI.
  all: destruct W as [|p W]; [exists rt, V; done|].
  - exfalso. pose proof (Permutation_length (si_perm _ _ _ _ HI)) as Hl. rewrite !length_app in Hl. cbn in Hl. lia.
  - cbn [gc_scan_loop head]. destruct (scan_obj_step _ _ _ _ HI) as (rt1 & W1 & E1 & HI1). rewrite E1. bind.
    assert (Hn : p ∉ V).
    { destruct (scan_nodup _ _ _ (si_perm _ _ _ _ HI)) as ([_ [Hd _]]%NoDup_app & _). intros ?. apply (Hd p); set_solver. }
    rewrite (si_gc _ _ _ _ HI1), <- app_assoc. cbn [app]. rewrite next_of_app by done.
    apply (IH (V ++ [p]) W1); [rewrite length_app; cbn; lia|done].
Qed.

(** The second loop of [gc_scan]: the counts of the rest [T] are restored. *)
Record restore_inv (c G T : list ptr) (rt : runtime) : Prop := {
  ri_objects : objects rt = objs;
  ri_header : forall p, p ∈ L -> exists m, headers rt !! p = Some (mk_hdr (ext p + occ p c) m) /\
    (p ∈ G -> m = false) /\ (p ∈ T -> m = true);
  ri_other : forall p, p ∉ L -> headers rt !! p = headers rt0 !! p;
  ri_gc : gc_obj_list rt = G;
  ri_tmp : tmp_obj_list rt = T;
}.

Lemma restore_child_step c G T q rt :
  q ∈ L -> restore_inv c G T rt -> exists rt', gc_scan_incref_child2 rt q = Some rt' /\ restore_inv (c ++ [q]) G T rt'.
Proof.
  intros Hq [Ho Hh Hx Hg Ht]. destruct (Hh q Hq) as (m & Hm & HmG & HmT).
  unfold gc_scan_incref_child2. rewrite Hm. bind. eexists; split; [done|]. split; cbn; [done| | |done|done].
  - by eapply scan_header_step.
  - intros p HpL. rewrite lookup_insert_ne by (intros ->; done). by apply Hx.
Qed.

Lemma restore_loop_inv V W G T rt :
  (forall p, p ∈ W -> p ∈ L) -> restore_inv (V ≫= kids objs) G T rt ->
  exists rt', gc_restore_loop rt W = Some rt' /\ restore_inv ((V ++ W) ≫= kids objs) G T rt'.
Proof.
  revert V rt. induction W as [|p W IH]; intros V rt HW HI; cbn [gc_restore_loop].
  { exists rt. by rewrite app_nil_r. }
  rewrite mark_children_kids by (rewrite (ri_objects _ _ _ _ HI); apply object_of_L; set_solver). rewrite (ri_objects _ _ _ _ HI).
  destruct (mark_list_inv (fun c => restore_inv c G T) gc_scan_incref_child2 (kids objs p) _ _ HI) as (rt1 & E1 & HI1).
  { intros c1 q c2 rt1 Hk HI1. rewrite app_assoc. apply restore_child_step; [|done].
    apply (ready_closed _ ready p); [apply HW; set_solver|]. fold objs. rewrite Hk. set_solver. }
  rewrite E1. bind. rewrite <- bind_snoc in HI1. destruct (IH _ _ ltac:(set_solver) HI1) as (rt2 & E2 & HI2).
  exists rt2. split; [done|]. by rewrite <- app_assoc in HI2.
Qed.

Lemma decref_scan rt : decref_inv refs L [] rt -> scan_inv [] [] (gc_obj_list rt) rt.
Proof.
  intros [Ho Hh Hx Hg Ht]. rewrite app_nil_r in Hg.
  assert (Hin : forall p, p ∈ gc_obj_list rt <-> p ∈ L /\ 0 < ext p).
  { intros p. rewrite Hg, list_elem_of_filter. unfold ext. tauto. }
  split; cbn; [done| |done|done| | |].
  - intros p Hp. exists true. rewrite (Hh p Hp), bool_decide_true by done. unfold occ at 2, ext; cbn.
    split; [do 2 f_equal; lia|]. set_solver.
  - rewrite Hg, Ht. rewrite (filter_agree (fun p => count p - occ p refs = 0) (fun p => ~ 0 < count p - occ p refs)).
    + apply filter_app_complement.
    + intros p Hp. pose proof (count_refs p Hp). lia.
  - intros p Hp. rewrite Hin. unfold occ; cbn. rewrite Z.add_0_r. tauto.
  - intros p [Hp Hpos]%Hin. eapply reach_root; [done|by apply count_header|]. unfold ext, refs in Hpos. cbn. fold L objs. lia.
Qed.

(** A complete scan keeps exactly what is reachable. *)
Lemma scan_exact G rt : scan_inv (G ≫= kids objs) G [] rt -> forall p, p ∈ G <-> reachable rt0 p.
Proof.
  intros HI p. pose proof (si_kept _ _ _ _ HI) as Hk. pose proof (si_reach _ _ _ _ HI) as Hr. rewrite app_nil_r in Hk, Hr.
  split; [apply Hr|]. induction 1 as [p h Hp Hh Hlt|p q Hp IH Hq].
  - apply Hk; [done|]. rewrite (count_header p Hp) in Hh. simplify_eq. cbn in Hlt. unfold ext, refs.
    pose proof (occ_nonneg p (G ≫= kids objs)). fold L objs in Hlt. lia.
  - assert (HqL : q ∈ L) by (eapply reachable_in_L, reach_child; done). apply Hk; [done|].
    pose proof (ext_nonneg q HqL). assert (0 < occ q (G ≫= kids objs)); [|lia].
    apply occ_pos, list_elem_of_bind. eauto.
Qed.

(** The result of both passes. *)
Lemma gc_mark_garbage_spec : exists rt G T, gc_mark_garbage rt0 = Some rt /\ restore_inv refs G T rt /\
  G ++ T ≡ₚ L /\ forall p, p ∈ G <-> reachable rt0 p.
Proof.
  destruct gc_decref_spec as (rt1 & E1 & HD). pose proof (decref_scan _ HD) as HS.
  unfold gc_mark_garbage. rewrite E1. bind. unfold gc_scan.
  destruct (scan_loop_inv [] (gc_obj_list rt1) rt1 (length (gc_obj_list rt1) + length (tmp_obj_list rt1))) as (rt2 & G & E2 & HS2); [|done|].
  { rewrite <- (Permutation_length (si_perm _ _ _ _ HS)), !length_app. cbn. lia. }
  rewrite E2. bind. pose proof (si_perm _ _ _ _ HS2) as Hp. rewrite app_nil_r in Hp.
  destruct (restore_loop_inv G (tmp_obj_list rt2) G (tmp_obj_list rt2) rt2) as (rt3 & E3 & HR).
  - intros p ?. rewrite <- Hp. set_solver.
  - destruct HS2 as [? ? ? Hg ? ? ?]. rewrite app_nil_r in Hg. by split.
  - exists rt3, G, (tmp_obj_list rt2). split; [done|]. split; [|split; [done|by eapply scan_exact]].
    destruct HR as [Ho Hh Hx Hg Ht]. split; [done| |done|done|done]. intros p HpL. destruct (Hh p HpL) as (m & Hm & ?).
    exists m. split; [|done]. rewrite Hm. do 3 f_equal. apply occ_perm. unfold refs. by rewrite Hp.
Qed.
End passes.

(** C19: the two passes of the collector decide exactly.  From a heap in
    which every count covers the references between objects, [gc_decref] and
    [gc_scan] fail no assertion; the objects are then split between
    [gc_obj_list], which holds exactly those reachable from an object with an
    external reference, and [tmp_obj_list]; every reference count is what it
    was; the survivors are unmarked, as the next collection requires, and what
    is to be freed is marked. *)
Theorem gc_garbage_exact rt : gc_ready rt ->
  exists rt', gc_mark_garbage rt = Some rt' /\ objects rt' = objects rt /\
    gc_obj_list rt' ++ tmp_obj_list rt' ≡ₚ gc_obj_list rt /\
    (forall p, p ∈ gc_obj_list rt' <-> reachable rt p) /\
    (forall p, ref_count <$> headers rt' !! p = ref_count <$> headers rt !! p) /\
    (forall p h, headers rt' !! p = Some h -> p ∈ gc_obj_list rt' -> mark h = false) /\
    (forall p h, headers rt' !! p = Some h -> p ∈ tmp_obj_list rt' -> mark h = true).
Proof.
  intros Hr. destruct (gc_mark_garbage_spec rt Hr) as (rt' & G & T & E & [Ho Hh Hx Hg Ht] & Hp & Hreach).
  exists rt'. rewrite Hg, Ht. split_and!; [done|done|done|done| | |].
  - intros p. destruct (decide (p ∈ gc_obj_list rt)) as [HpL|]; [|by rewrite Hx].
    destruct (Hh p HpL) as (m & Hm & _). rewrite Hm, (count_header rt Hr p HpL). cbn. f_equal. lia.
  - intros p h E' HpG. destruct (Hh p) as (m & Hm & HG & _); [rewrite <- Hp; set_solver|]. simplify_eq. by apply HG.
  - intros p h E' HpT. destruct (Hh p) as (m & Hm & _ & HT); [rewrite <- Hp; set_solver|]. simplify_eq. by apply HT.
Qed.

(** A test of readiness that evaluates. *)
Definition gc_readyb (rt : runtime) : bool :=
  bool_decide (NoDup (gc_obj_list rt)) &&
  forallb (fun p =>
    bool_decide (is_Some (objects rt !! p)) &&
    forallb (fun q => bool_decide (q ∈ gc_obj_list rt)) (kids (objects rt) p) &&
    match headers rt !! p with
    | Some h => negb (mark h) && (occ p (gc_obj_list rt ≫= kids (objects rt)) <=? ref_count h)
    | None => false
    end) (gc_obj_list rt).

Lemma gc_readyb_ready rt : gc_readyb rt = true -> gc_ready rt.
Proof.
  unfold gc_readyb. intros [Hnd Hall]%andb_true_iff. apply bool_decide_eq_true in Hnd. rewrite forallb_forall in Hall.
  setoid_rewrite <- list_elem_of_In in Hall. setoid_rewrite andb_true_iff in Hall. setoid_rewrite andb_true_iff in Hall.
  split; [done| | | |]; intros p.
  - intros [[Ho _] _]%Hall. by apply bool_decide_eq_true in Ho.
  - intros [_ Hh]%Hall. destruct (headers rt !! p) as [[n []]|]; [done| |done]. by exists n.
  - intros q [[_ Hk] _]%Hall Hq. rewrite forallb_forall in Hk. apply list_elem_of_In, Hk, bool_decide_eq_true in Hq. done.
  - intros h [_ Hh]%Hall E. rewrite E in Hh. apply andb_true_iff in Hh as [_ Hle]. by apply Z.leb_le.
Qed.

(** A context whose only reference is its global object. *)
Definition example_context : JSContext := {|
  loaded_modules := []; global_obj := JSGCPtr 2; global_var_obj := JSOther; throw_type_error := JSOther; eval_obj := JSOther;
  array_proto_values := JSOther; native_error_proto := [JSOther]; class_proto := [JSOther; JSOther]; iterator_ctor := JSOther;
  async_iterator_proto := JSOther; promise_ctor := JSOther; array_ctor := JSOther; regexp_ctor := JSOther;
  function_ctor := JSOther; function_proto := JSOther; array_shape := None; arguments_shape := None;
  mapped_arguments_shape := None; regexp_shape := None; regexp_result_shape := None |}.

(** The context and its global object, and two objects that refer to each other
    only; the three objects share a shape. *)
Definition example_heap : runtime :=
  mk_rt
    (list_to_map [(1%positive, JS_CONTEXT example_context); (2%positive, JS_OBJECT 3 [prop_null; prop_value JSOther] []);
      (3%positive, SHAPE None); (4%positive, JS_OBJECT 3 [prop_value (JSGCPtr 5)] []);
      (5%positive, JS_OBJECT 3 [prop_getset (Some 4%positive) None] [])])
    (list_to_map [(1%positive, mk_hdr 1 false); (2%positive, mk_hdr 1 false); (3%positive, mk_hdr 3 false);
      (4%positive, mk_hdr 1 false); (5%positive, mk_hdr 1 false)])
    [1; 2; 3; 4; 5]%positive [].

Example example_heap_collected :
  (fun rt => (gc_obj_list rt, tmp_obj_list rt)) <$> gc_mark_garbage example_heap = Some ([1; 2; 3], [4; 5])%positive.
Proof. vm_compute. reflexivity. Qed.

Lemma gc_garbage_exact_witness : gc_ready example_heap /\ exists rt', gc_mark_garbage example_heap = Some rt' /\
  forall p, p ∈ gc_obj_list rt' <-> reachable example_heap p.
Proof.
  assert (H : gc_ready example_heap) by (apply gc_readyb_ready; vm_compute; reflexivity).
  split; [exact H|]. destruct (gc_garbage_exact example_heap H) as (rt' & E & _ & _ & Hr & _). exists rt'. split; [exact E|exact Hr].
Defined.
