(* ===== verification/Arena.v ===== *)
(** * The engine's memory allocator (quickjs.c, "JS malloc")

    Small blocks are carved out of arenas of one block size each, large blocks
    are passed to the host's [malloc].  Addresses are integers, as the code
    computes an arena's address from a block's; the structures found in memory
    ([JSMallocArena], [JSMallocBlockHeader]) are kept in maps from their
    address, the user data in a memory of bytes.  The intrusive lists are
    lists of arena addresses.  [None] is a read through a pointer to no
    structure; NULL is [None] in a result of type [option Z].  Pointers and
    [size_t] have 64 bits. *)
From S2P Require Import Prelude Sort Allocator.

(** ** The host's allocator

    [JSMallocFunctions] of quickjs.h, on a host state [H]; [mf_regions] is
    the memory the host has handed out (address to size): the code does not see
    it, it says how many bytes the host's [realloc] moves and what its laws
    are about. *)
Class JSMallocFunctions (H : Type) := {
  mf_malloc : Z -> H -> H * option Z;
  mf_free : Z -> H -> H;
  mf_realloc : Z -> Z -> H -> H * option Z;
  mf_malloc_usable_size : option (Z -> H -> Z);
  mf_regions : H -> gmap Z Z;
}.

(** ** Constants and structures *)
Definition JS_MALLOC_ALIGN : Z := 8.
Definition JS_MALLOC_ARENA_SIZE : Z := 4096.
Definition JS_MALLOC_BLOCK_SIZE_COUNT : nat := 31.
Definition JS_MALLOC_MAX_SMALL_SIZE : Z := 512.
Definition FREE_NIL : Z := 65535.
Definition sizeof_JSMallocBlockHeader : Z := 8.
Definition sizeof_JSMallocLargeBlockHeader : Z := 8.
Definition sizeof_JSMallocArena : Z := 40.

(** The union of [block_idx] and [free_next] is one field. *)
Record JSMallocBlockHeader := mk_block {
  b_u : Z;
  b_size_idx : Z;
  b_gc_obj_type : Z;
  b_mark : bool;
  b_ref_count : Z;
}.

Record JSMallocArena := mk_arena {
  ar_block_size_idx : Z;
  ar_n_used_blocks : Z;
  ar_n_blocks : Z;
  ar_first_free_block : Z;
}.

Record JSMallocContext (H : Type) := mk_ctx {
  arena_list : list (list Z);
  free_arena_list : list (list Z);
  zero_size_block : Z;
  arenas : gmap Z JSMallocArena;
  blocks : gmap Z JSMallocBlockHeader;
  bytes : Z -> Z;
  host : H;
}.
Arguments mk_ctx {H}.
Arguments arena_list {H}.
Arguments free_arena_list {H}.
Arguments zero_size_block {H}.
Arguments arenas {H}.
Arguments blocks {H}.
Arguments bytes {H}.
Arguments host {H}.

Definition js_malloc_block_sizes : list Z :=
  [16; 24; 32; 40; 48; 56; 64; 72; 80; 88; 96; 104; 112; 120; 128; 144; 160; 176; 192; 208; 224; 240;
   256; 288; 320; 352; 384; 416; 448; 480; 512].

Definition get_block_size_index (size : Z) : Z :=
  if size <=? 16 then 0
  else if size <=? 128 then (size + 7) / 8 - 2
  else if size <=? 256 then (size + 15) / 16 + 6
  else if size <=? 512 then (size + 31) / 32 + 14
  else Z.of_nat JS_MALLOC_BLOCK_SIZE_COUNT.

Definition block_size (idx : Z) : Z := default 0 (js_malloc_block_sizes !! Z.to_nat idx).

Section malloc.
Context {H : Type} `{!JSMallocFunctions H}.
(** What a header holds in memory just obtained from the host. *)
Context (garbage : Z -> JSMallocBlockHeader).
Abbreviation ctx := (JSMallocContext H).

Definition set_arena_list (l : list (list Z)) (s : ctx) : ctx :=
  mk_ctx l (free_arena_list s) (zero_size_block s) (arenas s) (blocks s) (bytes s) (host s).
Definition set_free_arena_list (l : list (list Z)) (s : ctx) : ctx :=
  mk_ctx (arena_list s) l (zero_size_block s) (arenas s) (blocks s) (bytes s) (host s).
Definition set_arenas (m : gmap Z JSMallocArena) (s : ctx) : ctx :=
  mk_ctx (arena_list s) (free_arena_list s) (zero_size_block s) m (blocks s) (bytes s) (host s).
Definition set_blocks (m : gmap Z JSMallocBlockHeader) (s : ctx) : ctx :=
  mk_ctx (arena_list s) (free_arena_list s) (zero_size_block s) (arenas s) m (bytes s) (host s).
Definition set_bytes (f : Z -> Z) (s : ctx) : ctx :=
  mk_ctx (arena_list s) (free_arena_list s) (zero_size_block s) (arenas s) (blocks s) f (host s).
Definition set_host (h : H) (s : ctx) : ctx :=
  mk_ctx (arena_list s) (free_arena_list s) (zero_size_block s) (arenas s) (blocks s) (bytes s) h.

(** [list_add] at the head of the list of an index; [list_del] from whichever
    list the element is in. *)
Definition list_add (a : Z) (idx : Z) (l : list (list Z)) : list (list Z) := alter (cons a) (Z.to_nat idx) l.
Definition list_del (a : Z) (l : list (list Z)) : list (list Z) := map (filter (fun x => x <> a)) l.

Definition js_malloc_init (z : Z) (f : Z -> Z) (h : H) : ctx :=
  mk_ctx (replicate JS_MALLOC_BLOCK_SIZE_COUNT []) (replicate JS_MALLOC_BLOCK_SIZE_COUNT []) z ∅
    {[z := mk_block FREE_NIL 0 0 false 0]} f h.

Definition get_arena_block (ar : Z) (idx : Z) (size : Z) : Z := ar + sizeof_JSMallocArena + idx * size.
Definition user_data (b : Z) : Z := b + sizeof_JSMallocBlockHeader.

(** The header at an address, and a change of its link. *)
Definition header_at (m : gmap Z JSMallocBlockHeader) (b : Z) : JSMallocBlockHeader := default (garbage b) (m !! b).
Definition set_u (u : Z) (h : JSMallocBlockHeader) : JSMallocBlockHeader :=
  mk_block u (b_size_idx h) (b_gc_obj_type h) (b_mark h) (b_ref_count h).
Definition set_size_idx (i : Z) (h : JSMallocBlockHeader) : JSMallocBlockHeader :=
  mk_block (b_u h) i (b_gc_obj_type h) (b_mark h) (b_ref_count h).

(** The loop that links the blocks [i], [i + 1], ... of a new arena. *)
Fixpoint link_blocks (todo : nat) (i : Z) (ar size idx : Z) (m : gmap Z JSMallocBlockHeader) : gmap Z JSMallocBlockHeader :=
  match todo with
  | O => m
  | S todo =>
      let b := get_arena_block ar i size in
      let next := match todo with O => FREE_NIL | S _ => i + 1 end in
      link_blocks todo (i + 1) ar size idx (<[b := set_size_idx idx (set_u next (garbage b))]> m)
  end.

Definition js_malloc_new_arena (s : ctx) (idx : Z) : ctx * option Z :=
  let size := block_size idx in
  let n_blocks := (JS_MALLOC_ARENA_SIZE - sizeof_JSMallocArena) / size in
  let '(h, r) := mf_malloc (sizeof_JSMallocArena + n_blocks * size) (host s) in
  match r with
  | None => (set_host h s, None)
  | Some ar =>
      (mk_ctx (list_add ar idx (arena_list s)) (list_add ar idx (free_arena_list s)) (zero_size_block s)
         (<[ar := mk_arena idx 0 n_blocks 0]> (arenas s)) (link_blocks (Z.to_nat n_blocks) 0 ar size idx (blocks s))
         (bytes s) h, Some ar)
  end.

Definition js_malloc_large (s : ctx) (size : Z) : ctx * option Z :=
  let '(h, r) := mf_malloc (u64 (sizeof_JSMallocLargeBlockHeader + size)) (host s) in
  match r with
  | None => (set_host h s, None)
  | Some b => (set_host h (set_blocks (<[b := set_size_idx 255 (set_u FREE_NIL (garbage b))]> (blocks s)) s), Some (user_data b))
  end.

(** The size of a block for [size] bytes of user data. *)
Definition total_size (size : Z) : Z :=
  u64 (Z.land (u64 (size + JS_MALLOC_ALIGN - 1)) (Z.lnot (JS_MALLOC_ALIGN - 1)) + sizeof_JSMallocBlockHeader).

(** Taking the first free block of an arena. *)
Definition take_block (s : ctx) (a : Z) (size : Z) : option (ctx * option Z) :=
  ar ← arenas s !! a;
  let block_idx := ar_first_free_block ar in
  let b := get_arena_block a block_idx size in
  h ← blocks s !! b;
  let ar := mk_arena (ar_block_size_idx ar) (u16 (ar_n_used_blocks ar + 1)) (ar_n_blocks ar) (b_u h) in
  let s := set_blocks (<[b := set_u (u16 block_idx) h]> (blocks s)) (set_arenas (<[a := ar]> (arenas s)) s) in
  let s := if ar_n_used_blocks ar =? ar_n_blocks ar then set_free_arena_list (list_del a (free_arena_list s)) s else s in
  Some (s, Some (user_data b)).

Definition __js_malloc (s : ctx) (size : Z) : option (ctx * option Z) :=
  if size =? 0 then Some (s, Some (user_data (zero_size_block s)))
  else if total_size size <=? JS_MALLOC_MAX_SMALL_SIZE then
    let idx := get_block_size_index (total_size size) in
    free ← free_arena_list s !! Z.to_nat idx;
    match free with
    | [] =>
        match js_malloc_new_arena s idx with
        | (s, None) => Some (s, None)
        | (s, Some a) => take_block s a (block_size idx)
        end
    | a :: _ => take_block s a (block_size idx)
    end
  else Some (js_malloc_large s size).

(** Memory given back to the host holds no structure any more. *)
Definition drop_blocks (a n : Z) (m : gmap Z JSMallocBlockHeader) : gmap Z JSMallocBlockHeader :=
  filter (fun kv => ~ (a <= kv.1 < a + n)) m.

(** Giving block [block_idx] back to its arena. *)
Definition free_block (s : ctx) (b : Z) (hb : JSMallocBlockHeader) : option ctx :=
  let block_idx := b_u hb in
  let idx := b_size_idx hb in
  let a := b - block_size idx * block_idx - sizeof_JSMallocArena in
  ar ← arenas s !! a;
  let s := set_blocks (<[b := set_u (ar_first_free_block ar) hb]> (blocks s)) s in
  let s := if ar_n_used_blocks ar =? ar_n_blocks ar
           then set_free_arena_list (list_add a idx (free_arena_list s)) s else s in
  let n := u16 (ar_n_used_blocks ar - 1) in
  if n =? 0 then
    Some (mk_ctx (list_del a (arena_list s)) (list_del a (free_arena_list s)) (zero_size_block s) (delete a (arenas s))
      (drop_blocks a (sizeof_JSMallocArena + ar_n_blocks ar * block_size idx) (blocks s)) (bytes s) (mf_free a (host s)))
  else Some (set_arenas (<[a := mk_arena (ar_block_size_idx ar) n (ar_n_blocks ar) block_idx]> (arenas s)) s).

Definition __js_free (s : ctx) (ptr : option Z) : option ctx :=
  match ptr with
  | None => Some s
  | Some p =>
      let b := p - sizeof_JSMallocBlockHeader in
      hb ← blocks s !! b;
      if b_u hb =? FREE_NIL then
        if b =? zero_size_block s then Some s
        else Some (set_host (mf_free b (host s)) (set_blocks (delete b (blocks s)) s))
      else free_block s b hb
  end.

Definition memcpy (dst src n : Z) (f : Z -> Z) : Z -> Z :=
  fun x => if (dst <=? x) && (x <? dst + n) then f (src + (x - dst)) else f x.
Definition memset (dst c n : Z) (f : Z -> Z) : Z -> Z :=
  fun x => if (dst <=? x) && (x <? dst + n) then c else f x.

(** The host's [realloc] moves the header and the bytes with the block. *)
Definition realloc_large (s : ctx) (b : Z) (hb : JSMallocBlockHeader) (size : Z) : ctx * option Z :=
  let '(h, r) := mf_realloc b (u64 (sizeof_JSMallocLargeBlockHeader + size)) (host s) in
  match r with
  | None => (set_host h s, None)
  | Some b' =>
      let old := default 0 (mf_regions (host s) !! b) in
      let n := Z.min old (u64 (sizeof_JSMallocLargeBlockHeader + size)) in
      (set_host h (set_bytes (memcpy b' b n (bytes s))
         (set_blocks (<[b' := set_size_idx 255 (set_u FREE_NIL hb)]> (delete b (blocks s))) s)), Some (user_data b'))
  end.

(** Moving the block [b] to a larger one. *)
Definition realloc_move (s : ctx) (p b : Z) (hb : JSMallocBlockHeader) (size : Z) : option (ctx * option Z) :=
  r ← __js_malloc s size;
  match r with
  | (s, None) => Some (s, None)
  | (s, Some p') =>
      let b' := p' - sizeof_JSMallocBlockHeader in
      hb' ← blocks s !! b';
      let hb' := mk_block (b_u hb') (b_size_idx hb') (b_gc_obj_type hb) (b_mark hb) (b_ref_count hb) in
      let s := set_blocks (<[b' := hb']> (blocks s)) s in
      let old_size := block_size (b_size_idx hb) - sizeof_JSMallocBlockHeader in
      let size := if old_size <? size then old_size else size in
      let s := set_bytes (memcpy p' p size (bytes s)) s in
      s ← __js_free s (Some p);
      Some (s, Some p')
  end.

Definition __js_realloc (s : ctx) (ptr : option Z) (size : Z) : option (ctx * option Z) :=
  match ptr with
  | None => __js_malloc s size
  | Some p =>
      if size =? 0 then s ← __js_free s (Some p); Some (s, None)
      else
        let b := p - sizeof_JSMallocBlockHeader in
        hb ← blocks s !! b;
        if b_u hb =? FREE_NIL then
          if b =? zero_size_block s then __js_malloc s size
          else Some (realloc_large s b hb size)
        else if total_size size <=? block_size (b_size_idx hb) then Some (s, Some p)
        else realloc_move s p b hb size
  end.

Definition __js_malloc_usable_size (s : ctx) (ptr : option Z) : option Z :=
  match ptr with
  | None => Some 0
  | Some p =>
      let b := p - sizeof_JSMallocBlockHeader in
      hb ← blocks s !! b;
      if b_u hb =? FREE_NIL then
        if b =? zero_size_block s then Some 0
        else match mf_malloc_usable_size with
             | Some f => let size := f b (host s) in
                 Some (if negb (size =? 0) then size - sizeof_JSMallocLargeBlockHeader else size)
             | None => Some 0
             end
      else Some (block_size (b_size_idx hb) - sizeof_JSMallocBlockHeader)
  end.

Definition js_mallocz_rt (s : ctx) (size : Z) : option (ctx * option Z) :=
  r ← __js_malloc s size;
  match r with
  | (s, None) => Some (s, None)
  | (s, Some p) => Some (set_bytes (memset p 0 size (bytes s)) s, Some p)
  end.
End malloc.
