(* ===== verification/ArenaProps.v ===== *)
(** * Correctness of the engine's memory allocator

    The heap invariant that ties arenas, free chains and lists to the blocks
    in use, and its preservation by every operation.  From it: blocks in use
    are aligned, large enough and disjoint, and the host gets back all of its
    memory when nothing is in use. *)
From S2P Require Import Prelude Sort Arena.

(** ** What the host promises *)

(** A region of [n] bytes at [a] beside the regions handed out. *)
Definition fresh_region (m : gmap Z Z) (a n : Z) : Prop :=
  0 < a /\ a mod 8 = 0 /\ a + n <= 2 ^ 64 /\ forall b k, m !! b = Some k -> a + n <= b \/ b + k <= a.

Class HostLaws (H : Type) `{!JSMallocFunctions H} : Prop := {
  host_malloc_ok n h h' a : 0 < n -> mf_malloc n h = (h', Some a) ->
    fresh_region (mf_regions h) a n /\ mf_regions h' = <[a := n]> (mf_regions h);
  host_malloc_null n h h' : 0 < n -> mf_malloc n h = (h', None) -> mf_regions h' = mf_regions h;
  host_free_ok a h k : mf_regions h !! a = Some k -> mf_regions (mf_free a h) = delete a (mf_regions h);
  host_realloc_ok a n h h' b k : 0 < n -> mf_regions h !! a = Some k -> mf_realloc a n h = (h', Some b) ->
    fresh_region (delete a (mf_regions h)) b n /\ mf_regions h' = <[b := n]> (delete a (mf_regions h));
  host_realloc_null a n h h' k : 0 < n -> mf_regions h !! a = Some k -> mf_realloc a n h = (h', None) ->
    mf_regions h' = mf_regions h;
}.

(** ** Regions *)
Definition regions_ok (m : gmap Z Z) : Prop :=
  (forall a n, m !! a = Some n -> 0 < a /\ a mod 8 = 0 /\ 0 < n /\ a + n <= 2 ^ 64) /\
  (forall a n b k, m !! a = Some n -> m !! b = Some k -> a <> b -> a + n <= b \/ b + k <= a).

Lemma regions_owner m a n b k x :
  regions_ok m -> m !! a = Some n -> m !! b = Some k -> a <= x < a + n -> b <= x < b + k -> a = b.
Proof.
  intros [_ Hd] Ha Hb Hx Hy. destruct (decide (a = b)) as [|Hne]; [done|].
  specialize (Hd _ _ _ _ Ha Hb Hne). lia.
Qed.

Lemma regions_ok_insert m a n : regions_ok m -> 0 < n -> fresh_region m a n -> regions_ok (<[a := n]> m).
Proof.
  intros [Hr Hd] Hn (Ha & Hal & Hmax & Hf). split.
  - intros b k. destruct (decide (a = b)) as [<-|Hne].
    + rewrite lookup_insert_eq. intros [= <-]. done.
    + rewrite lookup_insert_ne by done. apply Hr.
  - intros b k c l. destruct (decide (a = b)) as [<-|Hb], (decide (a = c)) as [<-|Hc]; rewrite ?lookup_insert_eq, ?lookup_insert_ne by done.
    + done.
    + intros [= <-] Hl _. by apply Hf.
    + intros Hk [= <-] _. specialize (Hf _ _ Hk). lia.
    + apply Hd.
Qed.

Lemma regions_ok_delete m a : regions_ok m -> regions_ok (delete a m).
Proof.
  intros [Hr Hd]. split.
  - intros b k [_ Hk]%lookup_delete_Some. by apply Hr.
  - intros b k c l [_ Hk]%lookup_delete_Some [_ Hl]%lookup_delete_Some. by apply Hd.
Qed.

Lemma fresh_not_in m a n : regions_ok m -> 0 < n -> fresh_region m a n -> m !! a = None.
Proof.
  intros [Hr _] Hn (_ & _ & _ & Hf). destruct (m !! a) as [k|] eqn:E; [|done].
  pose proof (Hf _ _ E). pose proof (Hr _ _ E). lia.
Qed.

(** ** Block sizes *)
Definition block_count (idx : Z) : Z := (JS_MALLOC_ARENA_SIZE - sizeof_JSMallocArena) / block_size idx.

Definition block_size_check (i : nat) : bool :=
  let s := block_size (Z.of_nat i) in
  let n := block_count (Z.of_nat i) in
  (16 <=? s) && (s <=? 512) && (s mod 8 =? 0) && (7 <=? n) && (n <=? 253).
Lemma block_sizes_checked : forallb block_size_check (seq 0 JS_MALLOC_BLOCK_SIZE_COUNT) = true.
Proof. vm_compute. reflexivity. Qed.

Lemma block_size_bounds idx : 0 <= idx < 31 ->
  16 <= block_size idx <= 512 /\ block_size idx mod 8 = 0 /\ 7 <= block_count idx <= 253.
Proof.
  intros H. pose proof block_sizes_checked as Hc. rewrite forallb_forall in Hc.
  specialize (Hc (Z.to_nat idx)). rewrite in_seq in Hc. unfold JS_MALLOC_BLOCK_SIZE_COUNT in Hc.
  assert (Hi : (0 <= Z.to_nat idx < 0 + 31)%nat) by lia. specialize (Hc Hi). unfold block_size_check in Hc.
  rewrite Z2Nat.id in Hc by lia. lia.
Qed.

Definition size_index_check (t : nat) : bool :=
  let i := get_block_size_index (Z.of_nat t) in (0 <=? i) && (i <? 31) && (Z.of_nat t <=? block_size i).
Lemma size_index_checked : forallb size_index_check (seq 0 513) = true.
Proof. vm_compute. reflexivity. Qed.

Lemma size_index_bounds t : 0 <= t <= 512 ->
  0 <= get_block_size_index t < 31 /\ t <= block_size (get_block_size_index t).
Proof.
  intros H. pose proof size_index_checked as Hc. rewrite forallb_forall in Hc. specialize (Hc (Z.to_nat t)).
  rewrite in_seq in Hc. assert (Hi : (0 <= Z.to_nat t < 0 + 513)%nat) by lia. specialize (Hc Hi).
  unfold size_index_check in Hc. rewrite Z2Nat.id in Hc by lia. lia.
Qed.

(** The largest request whose rounded size fits a [size_t]. *)
Definition max_request : Z := 2 ^ 64 - 16.

Lemma align8 x : Z.land x (Z.lnot 7) = 8 * (x / 8).
Proof.
  change (Z.land x (Z.lnot 7)) with (Z.land x (Z.lnot (Z.ones 3))). rewrite <- Z.ldiff_land, Z.ldiff_ones_r by lia.
  rewrite Z.shiftr_div_pow2, Z.shiftl_mul_pow2 by lia. lia.
Qed.

Lemma total_size_eq size : 0 < size <= max_request -> total_size size = 8 * ((size + 7) / 8) + 8.
Proof.
  unfold max_request. intros H. unfold total_size, JS_MALLOC_ALIGN, sizeof_JSMallocBlockHeader.
  replace (8 - 1) with 7 by lia. rewrite align8, (u64_id (size + 8 - 1)) by lia.
  replace (size + 8 - 1) with (size + 7) by lia. apply u64_id. mod_lia.
Qed.
Lemma total_size_bounds size : 0 < size <= max_request -> 16 <= total_size size /\ size + 8 <= total_size size.
Proof. intros H. rewrite total_size_eq by done. mod_lia. Qed.

(** ** Arenas *)
Definition ar_size (ar : JSMallocArena) : Z := block_size (ar_block_size_idx ar).
Definition arena_bytes (ar : JSMallocArena) : Z := sizeof_JSMallocArena + ar_n_blocks ar * ar_size ar.
Definition block_at (a : Z) (ar : JSMallocArena) (i : Z) : Z := get_arena_block a i (ar_size ar).

(** The free blocks, linked from [first]. *)
Fixpoint chain (m : gmap Z JSMallocBlockHeader) (a size first : Z) (l : list Z) : Prop :=
  match l with
  | [] => first = FREE_NIL
  | i :: l => first = i /\ exists h, m !! get_arena_block a i size = Some h /\ chain m a size (b_u h) l
  end.

Lemma chain_frame m m' a size first l :
  (forall i, i ∈ l -> m' !! get_arena_block a i size = m !! get_arena_block a i size) -> chain m a size first l -> chain m' a size first l.
Proof.
  revert first. induction l as [|i l IH]; intros first Hm; [done|]. intros (-> & h & Hh & Hc). split; [done|].
  exists h. rewrite Hm by set_solver. split; [done|]. apply IH; [|done]. intros j Hj. apply Hm. set_solver.
Qed.

(** An arena whose unused blocks are [l]: the others are in use. *)
Record arena_ok (m : gmap Z JSMallocBlockHeader) (live : gmap Z Z) (a : Z) (ar : JSMallocArena) (l : list Z) : Prop := {
  ao_idx : 0 <= ar_block_size_idx ar < 31;
  ao_blocks : ar_n_blocks ar = block_count (ar_block_size_idx ar);
  ao_chain : chain m a (ar_size ar) (ar_first_free_block ar) l;
  ao_nodup : NoDup l;
  ao_range : forall i, i ∈ l -> 0 <= i < ar_n_blocks ar;
  ao_used : ar_n_used_blocks ar = ar_n_blocks ar - Z.of_nat (length l);
  ao_header : forall i, 0 <= i < ar_n_blocks ar -> exists h, m !! block_at a ar i = Some h /\ b_size_idx h = ar_block_size_idx ar;
  ao_free : forall i, i ∈ l -> live !! user_data (block_at a ar i) = None;
  ao_live : forall i, 0 <= i < ar_n_blocks ar -> i ∉ l -> exists h size, m !! block_at a ar i = Some h /\ b_u h = i /\
    live !! user_data (block_at a ar i) = Some size /\ 0 < size <= ar_size ar - 8;
}.

Lemma NoDup_range_length l n : NoDup l -> (forall i, i ∈ l -> 0 <= i < n) -> Z.of_nat (length l) <= Z.max 0 n.
Proof.
  intros Hnd Hr. assert (l ⊆+ seqZ 0 n) as Hs.
  { apply NoDup_submseteq; [done|]. intros i Hi. apply elem_of_seqZ. specialize (Hr i Hi). lia. }
  apply submseteq_length in Hs. rewrite length_seqZ in Hs. lia.
Qed.

(** What the structure of an arena says about its size. *)
Definition ar_wf (ar : JSMallocArena) : Prop :=
  0 <= ar_block_size_idx ar < 31 /\ ar_n_blocks ar = block_count (ar_block_size_idx ar).

Lemma ar_wf_bounds ar : ar_wf ar -> 16 <= ar_size ar <= 512 /\ ar_size ar mod 8 = 0 /\ 7 <= ar_n_blocks ar <= 253.
Proof. intros [Hi Hn]. rewrite Hn. by apply block_size_bounds. Qed.
Lemma arena_ok_wf m live a ar l : arena_ok m live a ar l -> ar_wf ar.
Proof. intros [Hi Hn]. done. Qed.

Lemma block_at_range a ar i : ar_wf ar -> 0 <= i < ar_n_blocks ar ->
  a + 40 <= block_at a ar i /\ block_at a ar i + ar_size ar <= a + arena_bytes ar.
Proof.
  intros Hw Hi. pose proof (ar_wf_bounds ar Hw). unfold block_at, get_arena_block, arena_bytes, sizeof_JSMallocArena. nia.
Qed.
Lemma block_at_inj a ar i j : ar_wf ar -> block_at a ar i = block_at a ar j -> i = j.
Proof. intros Hw. pose proof (ar_wf_bounds ar Hw). unfold block_at, get_arena_block. nia. Qed.
Lemma block_at_apart a ar i j : ar_wf ar -> i <> j ->
  block_at a ar i + ar_size ar <= block_at a ar j \/ block_at a ar j + ar_size ar <= block_at a ar i.
Proof. intros Hw Hne. pose proof (ar_wf_bounds ar Hw). unfold block_at, get_arena_block. nia. Qed.
Lemma arena_bytes_bounds ar : ar_wf ar -> 56 <= arena_bytes ar <= 4096.
Proof.
  intros Hw. pose proof (ar_wf_bounds ar Hw) as (Hs & _ & Hn). destruct Hw as [_ Hc].
  unfold arena_bytes, ar_size, block_count, JS_MALLOC_ARENA_SIZE, sizeof_JSMallocArena in *.
  pose proof (Z.mul_div_le (4096 - 40) (block_size (ar_block_size_idx ar))). nia.
Qed.

(** An arena depends on the memory inside it only. *)
Lemma arena_ok_frame m m' live live' a ar l :
  (forall x, a <= x < a + arena_bytes ar -> m' !! x = m !! x /\ live' !! user_data x = live !! user_data x) ->
  arena_ok m live a ar l -> arena_ok m' live' a ar l.
Proof.
  intros Hf HA. pose proof (arena_ok_wf _ _ _ _ _ HA) as Hw. pose proof (ar_wf_bounds ar Hw).
  assert (Hb : forall i, 0 <= i < ar_n_blocks ar -> m' !! block_at a ar i = m !! block_at a ar i /\
    live' !! user_data (block_at a ar i) = live !! user_data (block_at a ar i)).
  { intros i Hi. apply Hf. pose proof (block_at_range a ar i Hw Hi). lia. }
  destruct HA as [? ? Hc ? Hr ? Hh Hfr Hl]. split; try done.
  - eapply chain_frame; [|done]. intros i Hi. by apply Hb, Hr.
  - intros i Hi. destruct (Hb i Hi) as [-> _]. by apply Hh.
  - intros i Hi. destruct (Hb i (Hr i Hi)) as [_ ->]. by apply Hfr.
  - intros i Hi Hn. destruct (Hb i Hi) as [-> ->]. by apply Hl.
Qed.

(** Taking the first free block for [size] bytes. *)
Lemma arena_ok_take m live a ar i l size :
  arena_ok m live a ar (i :: l) -> 0 < size <= ar_size ar - 8 ->
  exists h, m !! block_at a ar i = Some h /\ ar_first_free_block ar = i /\
    arena_ok (<[block_at a ar i := set_u i h]> m) (<[user_data (block_at a ar i) := size]> live) a
      (mk_arena (ar_block_size_idx ar) (ar_n_used_blocks ar + 1) (ar_n_blocks ar) (b_u h)) l.
Proof.
  intros HA Hsz. pose proof (arena_ok_wf _ _ _ _ _ HA) as Hw.
  destruct HA as [Hidx Hn (Hi & h & Hh & Hc) Hnd Hr Hu Hhd Hfr Hl]. apply NoDup_cons in Hnd as [Hil Hnd].
  change (get_arena_block a i (ar_size ar)) with (block_at a ar i) in Hh. exists h. split; [done|]. split; [done|]. set (ar' := mk_arena _ _ _ _).
  assert (Hne : forall j, j <> i -> block_at a ar j <> block_at a ar i) by (intros j ? ?; by apply (block_at_inj a ar j i) in Hw).
  assert (Hne' : forall j, j <> i -> user_data (block_at a ar j) <> user_data (block_at a ar i)).
  { intros j Hj E. apply (Hne j Hj). unfold user_data in E. lia. }
  split; try done.
  - eapply (chain_frame m); [|done]. intros j Hj. apply lookup_insert_ne. apply not_eq_sym, Hne. by intros ->.
  - intros j Hj. apply Hr. set_solver.
  - cbn. cbn in Hu. lia.
  - intros j Hj. destruct (Hhd j Hj) as (hj & Hj1 & Hj2). destruct (decide (j = i)) as [->|Hji].
    + exists (set_u i hj). change (block_at a ar' i) with (block_at a ar i). rewrite lookup_insert_eq. rewrite Hj1 in Hh. by simplify_eq.
    + exists hj. rewrite lookup_insert_ne by (apply not_eq_sym, Hne, Hji). done.
  - intros j Hj. rewrite lookup_insert_ne by (apply not_eq_sym, Hne'; by intros ->). apply Hfr. set_solver.
  - intros j Hj Hjl. change (block_at a ar' j) with (block_at a ar j). destruct (decide (j = i)) as [->|Hji].
    + exists (set_u i h), size. rewrite !lookup_insert_eq. done.
    + rewrite !lookup_insert_ne by (apply not_eq_sym; auto). apply Hl; [done|]. set_solver.
Qed.

(** Giving the block [i] back. *)
Lemma arena_ok_give m live a ar i l h :
  arena_ok m live a ar l -> 0 <= i < ar_n_blocks ar -> i ∉ l -> m !! block_at a ar i = Some h ->
  arena_ok (<[block_at a ar i := set_u (ar_first_free_block ar) h]> m) (delete (user_data (block_at a ar i)) live) a
    (mk_arena (ar_block_size_idx ar) (ar_n_used_blocks ar - 1) (ar_n_blocks ar) i) (i :: l).
Proof.
  intros HA Hi Hil Hh. pose proof (arena_ok_wf _ _ _ _ _ HA) as Hw.
  destruct HA as [Hidx Hn Hc Hnd Hr Hu Hhd Hfr Hl]. set (ar' := mk_arena _ _ _ _).
  assert (Hne : forall j, j <> i -> block_at a ar j <> block_at a ar i) by (intros j ? ?; by apply (block_at_inj a ar j i) in Hw).
  assert (Hne' : forall j, j <> i -> user_data (block_at a ar j) <> user_data (block_at a ar i)).
  { intros j Hj E. apply (Hne j Hj). unfold user_data in E. lia. }
  split; try done.
  - split; [done|]. eexists. split; [apply lookup_insert_eq|]. cbn.
    eapply (chain_frame m); [|done]. intros j Hj. apply lookup_insert_ne. apply not_eq_sym, Hne. by intros ->.
  - by apply NoDup_cons.
  - intros j [->|Hj]%elem_of_cons; [done|]. by apply Hr.
  - cbn [ar_n_used_blocks ar_n_blocks ar' length]. cbn. lia.
  - intros j Hj. destruct (Hhd j Hj) as (hj & Hj1 & Hj2). destruct (decide (j = i)) as [->|Hji].
    + eexists. rewrite lookup_insert_eq. split; [done|]. rewrite Hj1 in Hh. by simplify_eq.
    + exists hj. rewrite lookup_insert_ne by (apply not_eq_sym, Hne, Hji). done.
  - intros j [->|Hj]%elem_of_cons; [apply lookup_delete_eq|].
    rewrite lookup_delete_ne by (apply not_eq_sym, Hne'; by intros ->). by apply Hfr.
  - intros j Hj Hjl. change (block_at a ar' j) with (block_at a ar j).
    rewrite lookup_insert_ne, lookup_delete_ne by (apply not_eq_sym; set_solver). apply Hl; [done|]. set_solver.
Qed.

(** ** The lists of arenas *)

(** [Q k a]: the arena [a] belongs to list [k]. *)
Definition lists_ok (Q : nat -> Z -> Prop) (ls : list (list Z)) : Prop :=
  length ls = JS_MALLOC_BLOCK_SIZE_COUNT /\ forall k l, ls !! k = Some l -> NoDup l /\ forall a, a ∈ l <-> Q k a.

Lemma lists_ok_iff Q Q' ls : lists_ok Q ls -> (forall k a, Q' k a <-> Q k a) -> lists_ok Q' ls.
Proof.
  intros [Hlen Hl] HQ. split; [done|]. intros k l E. destruct (Hl k l E) as [Hnd Hin]. split; [done|].
  intros a. by rewrite HQ.
Qed.

Lemma lists_ok_add Q Q' ls a k :
  lists_ok Q ls -> ~ Q (Z.to_nat k) a -> (forall j b, Q' j b <-> Q j b \/ (j = Z.to_nat k /\ b = a)) -> lists_ok Q' (list_add a k ls).
Proof.
  intros [Hlen Hl] Hn HQ. unfold list_add. split; [by rewrite length_alter|]. intros j l E.
  rewrite list_lookup_alter in E. case_decide as Hj; [subst j|].
  - destruct (ls !! Z.to_nat k) as [l0|] eqn:E0; simplify_eq/=. destruct (Hl _ _ E0) as [Hnd Hin]. split.
    + apply NoDup_cons. split; [by rewrite Hin|done].
    + intros b. rewrite elem_of_cons, Hin, HQ. naive_solver.
  - destruct (Hl _ _ E) as [Hnd Hin]. split; [done|]. intros b. rewrite Hin, HQ. naive_solver.
Qed.

Lemma lists_ok_del Q Q' ls a : lists_ok Q ls -> (forall j b, Q' j b <-> Q j b /\ b <> a) -> lists_ok Q' (list_del a ls).
Proof.
  intros [Hlen Hl] HQ. unfold list_del. split; [by rewrite length_map|]. intros j l E.
  rewrite list_lookup_fmap in E. destruct (ls !! j) as [l0|] eqn:E0; simplify_eq/=. destruct (Hl _ _ E0) as [Hnd Hin].
  split; [by apply NoDup_filter|]. intros b. rewrite list_elem_of_filter, Hin, HQ. tauto.
Qed.

Definition in_list (ars : gmap Z JSMallocArena) (k : nat) (a : Z) : Prop :=
  exists ar, ars !! a = Some ar /\ Z.to_nat (ar_block_size_idx ar) = k.
Definition in_free_list (ars : gmap Z JSMallocArena) (k : nat) (a : Z) : Prop :=
  exists ar, ars !! a = Some ar /\ Z.to_nat (ar_block_size_idx ar) = k /\ ar_n_used_blocks ar < ar_n_blocks ar.

(** ** The heap *)
Section heap.
Context {H : Type} `{!JSMallocFunctions H}.
(** The host's memory that is not the allocator's (the runtime itself is there). *)
Context (base : gmap Z Z).

(** The state of the heap: [live] are the blocks in use with the sizes asked
    for, [large] the blocks obtained from the host one by one. *)
Record heap_inv (live large : gmap Z Z) (s : JSMallocContext H) : Prop := {
  hi_regions : regions_ok (mf_regions (host s));
  hi_base : forall a n, base !! a = Some n -> mf_regions (host s) !! a = Some n /\ arenas s !! a = None /\ large !! a = None;
  hi_arena_region : forall a ar, arenas s !! a = Some ar -> mf_regions (host s) !! a = Some (arena_bytes ar) /\ large !! a = None;
  hi_large_region : forall a n, large !! a = Some n -> mf_regions (host s) !! a = Some n;
  hi_owned : forall a n, mf_regions (host s) !! a = Some n -> base !! a = Some n \/ is_Some (arenas s !! a) \/ large !! a = Some n;
  hi_zero : exists a n h, base !! a = Some n /\ a <= zero_size_block s /\ zero_size_block s + 8 <= a + n /\
    blocks s !! zero_size_block s = Some h /\ b_u h = FREE_NIL;
  hi_arena : forall a ar, arenas s !! a = Some ar -> exists l, arena_ok (blocks s) live a ar l;
  hi_large : forall b n, large !! b = Some n -> exists h size, blocks s !! b = Some h /\ b_u h = FREE_NIL /\
    live !! user_data b = Some size /\ 0 < size /\ n = size + 8;
  hi_live : forall p size, live !! p = Some size ->
    (exists a ar i, arenas s !! a = Some ar /\ 0 <= i < ar_n_blocks ar /\ p = user_data (block_at a ar i)) \/
    is_Some (large !! (p - 8));
  hi_list : lists_ok (in_list (arenas s)) (arena_list s);
  hi_free_list : lists_ok (in_free_list (arenas s)) (free_arena_list s);
}.

(** No arena is empty, except between its creation and its first block. *)
Definition no_empty (s : JSMallocContext H) : Prop := forall a ar, arenas s !! a = Some ar -> 0 < ar_n_used_blocks ar.

Lemma arena_wf live large s a ar : heap_inv live large s -> arenas s !! a = Some ar -> ar_wf ar.
Proof. intros HI Ha. destruct (hi_arena _ _ _ HI a ar Ha) as [l Hl]. by eapply arena_ok_wf. Qed.

(** An address inside an arena is in no other arena, large block or part of
    the base. *)
Lemma arena_owner live large s a ar x b n :
  heap_inv live large s -> arenas s !! a = Some ar -> a <= x < a + arena_bytes ar ->
  mf_regions (host s) !! b = Some n -> b <= x < b + n -> b = a.
Proof.
  intros HI Ha Hx Hb Hy. eapply regions_owner; [exact (hi_regions _ _ _ HI)|exact Hb|exact (proj1 (hi_arena_region _ _ _ HI a ar Ha))|exact Hy|exact Hx].
Qed.

Lemma region_pos live large s a n : heap_inv live large s -> mf_regions (host s) !! a = Some n -> 0 < n.
Proof. intros HI Ha. apply (proj1 (hi_regions _ _ _ HI)) in Ha. tauto. Qed.

(** The change that taking or giving back one block of the arena [a] makes:
    its structure, the header at [x] inside it and the use of [x]. *)
Lemma heap_inv_arena live live' large s s' a ar ar' x h' l :
  heap_inv live large s -> arenas s !! a = Some ar ->
  ar_block_size_idx ar' = ar_block_size_idx ar -> ar_n_blocks ar' = ar_n_blocks ar ->
  (exists i, 0 <= i < ar_n_blocks ar /\ x = block_at a ar i) ->
  (forall p, p <> user_data x -> live' !! p = live !! p) ->
  arenas s' = <[a := ar']> (arenas s) -> blocks s' = <[x := h']> (blocks s) ->
  zero_size_block s' = zero_size_block s -> host s' = host s ->
  arena_ok (blocks s') live' a ar' l ->
  lists_ok (in_list (arenas s')) (arena_list s') -> lists_ok (in_free_list (arenas s')) (free_arena_list s') ->
  heap_inv live' large s'.
Proof.
  intros HI Ha Eidx En (i & Hi & Ex) Hlive Ears Ebl Ez Eh Hok Hls Hfls.
  pose proof (arena_wf _ _ _ _ _ HI Ha) as Hw. pose proof (block_at_range a ar i Hw Hi) as Hr.
  pose proof (ar_wf_bounds ar Hw). rewrite <- Ex in Hr.
  assert (Hx : a <= x < a + arena_bytes ar) by lia.
  assert (Ebytes : arena_bytes ar' = arena_bytes ar) by (unfold arena_bytes, ar_size; by rewrite Eidx, En).
  assert (Hother : forall b n y, mf_regions (host s) !! b = Some n -> b <> a -> b <= y < b + n -> y <> x).
  { intros b n y Hb Hne Hy ->. apply Hne. by eapply arena_owner. }
  split; rewrite ?Eh, ?Ez; [apply HI| |  |apply HI| | | | | |done|done].
  - intros b n Hb. destruct (hi_base _ _ _ HI b n Hb) as (H1 & H2 & H3). split_and!; [done| |done].
    rewrite Ears. rewrite lookup_insert_ne; [done|]. intros ->. by rewrite Ha in H2.
  - intros b arb. rewrite Ears. destruct (decide (a = b)) as [<-|Hne].
    + rewrite lookup_insert_eq. intros [= <-]. rewrite Ebytes. by apply HI.
    + rewrite lookup_insert_ne by done. apply HI.
  - intros b n Hb. destruct (hi_owned _ _ _ HI b n Hb) as [?|[?|?]]; [tauto| |tauto]. right; left.
    rewrite Ears. by apply lookup_insert_is_Some'; right.
  - destruct (hi_zero _ _ _ HI) as (b & n & h & Hb & H1 & H2 & Hh & Hu). exists b, n, h. split_and!; try done.
    rewrite Ebl, lookup_insert_ne; [done|]. apply not_eq_sym. destruct (hi_base _ _ _ HI b n Hb) as (Hb1 & Hb2 & _).
    eapply (Hother b n); [done|intros ->; by rewrite Ha in Hb2|lia].
  - intros b arb. rewrite Ears. destruct (decide (a = b)) as [<-|Hne].
    + rewrite lookup_insert_eq. intros [= <-]. eauto.
    + rewrite lookup_insert_ne by done. intros Hb. destruct (hi_arena _ _ _ HI b arb Hb) as [lb Hlb]. exists lb.
      eapply arena_ok_frame; [|exact Hlb]. intros y Hy.
      assert (Hyx : y <> x) by (eapply Hother; [by eapply (hi_arena_region _ _ _ HI)|by apply not_eq_sym|done]).
      rewrite Ebl, lookup_insert_ne by by apply not_eq_sym. split; [done|]. apply Hlive. unfold user_data. lia.
  - intros b n Hb. destruct (hi_large _ _ _ HI b n Hb) as (h & size & Hh & Hu & Hl & Hs & Hn). exists h, size.
    assert (Hbx : b <> x).
    { eapply Hother; [by apply (hi_large_region _ _ _ HI)| |lia]. intros ->. destruct (hi_arena_region _ _ _ HI _ _ Ha) as [_ E].
      by rewrite Hb in E. }
    rewrite Ebl, lookup_insert_ne by by apply not_eq_sym. rewrite Hlive by (unfold user_data; lia). done.
  - intros p size. destruct (decide (p = user_data x)) as [->|Hne].
    + intros _. left. exists a, ar', i. rewrite Ears, lookup_insert_eq, Ex. unfold block_at, ar_size. rewrite Eidx, En. done.
    + rewrite Hlive by done. intros Hp. destruct (hi_live _ _ _ HI p size Hp) as [(b & arb & j & Hb & Hj & Ep)|?]; [|tauto].
      left. destruct (decide (a = b)) as [<-|Hab].
      * exists a, ar', j. rewrite Ears, lookup_insert_eq. simplify_eq. unfold block_at, ar_size. rewrite Eidx, En. done.
      * exists b, arb, j. rewrite Ears, lookup_insert_ne by done. done.
Qed.

(** What an operation leaves alone: the bytes and, for the blocks in [live],
    the headers. *)
Definition framed (live : gmap Z Z) (s s' : JSMallocContext H) : Prop :=
  bytes s' = bytes s /\ zero_size_block s' = zero_size_block s /\
  forall p, is_Some (live !! p) -> blocks s' !! (p - 8) = blocks s !! (p - 8).

Lemma in_list_insert (ars : gmap Z JSMallocArena) a ar ar' :
  ars !! a = Some ar -> ar_block_size_idx ar' = ar_block_size_idx ar ->
  forall k b, in_list (<[a := ar']> ars) k b <-> in_list ars k b.
Proof.
  intros Ha Ei k b. unfold in_list. destruct (decide (a = b)) as [<-|Hne].
  - rewrite lookup_insert_eq, Ha. split; intros (? & [= <-] & <-); [exists ar|exists ar']; by rewrite Ei.
  - by rewrite lookup_insert_ne.
Qed.

(** The free list follows the counter of used blocks. *)
Lemma in_free_list_insert (ars : gmap Z JSMallocArena) a ar ar' :
  ars !! a = Some ar -> ar_block_size_idx ar' = ar_block_size_idx ar -> ar_n_blocks ar' = ar_n_blocks ar ->
  forall k b, in_free_list (<[a := ar']> ars) k b <->
    (b <> a /\ in_free_list ars k b) \/ (b = a /\ k = Z.to_nat (ar_block_size_idx ar) /\ ar_n_used_blocks ar' < ar_n_blocks ar).
Proof.
  intros Ha Ei En k b. unfold in_free_list. destruct (decide (a = b)) as [<-|Hne].
  - rewrite lookup_insert_eq. split.
    + intros (? & [= <-] & <- & ?). rewrite Ei, En in *. tauto.
    + intros [[]|(_ & -> & ?)]; [done|]. exists ar'. by rewrite Ei, En.
  - rewrite lookup_insert_ne by done. split; [|naive_solver]. intros ?. left. split; [congruence|done].
Qed.

Lemma u16_id x : 0 <= x < 2 ^ 16 -> u16 x = x.
Proof. apply Z.mod_small. Qed.

Lemma take_block_spec live large s a ar size :
  heap_inv live large s -> arenas s !! a = Some ar -> ar_n_used_blocks ar < ar_n_blocks ar -> 0 < size <= ar_size ar - 8 ->
  exists s' p ar', take_block s a (ar_size ar) = Some (s', Some p) /\ live !! p = None /\
    heap_inv (<[p := size]> live) large s' /\ framed live s s' /\
    arenas s' = <[a := ar']> (arenas s) /\ 0 < ar_n_used_blocks ar'.
Proof.
  intros HI Ha Hlt Hsz. destruct (hi_arena _ _ _ HI a ar Ha) as [l Hok]. pose proof (arena_ok_wf _ _ _ _ _ Hok) as Hw.
  pose proof (ar_wf_bounds ar Hw) as (Hbs & _ & Hnb). pose proof (ao_used _ _ _ _ _ Hok) as Hu.
  pose proof (NoDup_range_length _ _ (ao_nodup _ _ _ _ _ Hok) (ao_range _ _ _ _ _ Hok)) as Hlen.
  destruct l as [|i l]; [cbn in Hu; lia|]. assert (Hi : 0 <= i < ar_n_blocks ar) by (apply (ao_range _ _ _ _ _ Hok); set_solver).
  pose proof (ao_free _ _ _ _ _ Hok i ltac:(set_solver)) as Hfree.
  destruct (arena_ok_take _ _ _ _ _ _ size Hok Hsz) as (h & Hh & Hfirst & Hok').
  unfold take_block. rewrite Ha. bind. rewrite Hfirst. change (get_arena_block a i (ar_size ar)) with (block_at a ar i).
  rewrite Hh. bind. cbn [ar_n_used_blocks ar_n_blocks].
  rewrite (u16_id (ar_n_used_blocks ar + 1)), (u16_id i) by lia.
  set (ar' := mk_arena _ _ _ _) in *. eexists _, _, ar'. split; [reflexivity|]. split; [done|].
  assert (Hl : forall k b, in_free_list (<[a:=ar']> (arenas s)) k b <-> in_free_list (arenas s) k b /\ (b <> a \/ ar_n_used_blocks ar' < ar_n_blocks ar)).
  { intros k b. rewrite (in_free_list_insert _ _ ar) by done. split; [|].
    - intros [[? ?]|(-> & -> & ?)]; [tauto|]. split; [by exists ar|tauto].
    - intros [Hb [?|?]]; [tauto|]. destruct (decide (b = a)) as [->|]; [|tauto]. right. destruct Hb as (ar1 & ? & ? & ?). by simplify_eq. }
  split; [|split; [|split]].
  - eapply (heap_inv_arena live _ large s _ a ar ar' (block_at a ar i) (set_u i h) l); try done.
    + eauto.
    + intros p Hp. by rewrite lookup_insert_ne.
    + by destruct (_ =? _).
    + by destruct (_ =? _).
    + by destruct (_ =? _).
    + by destruct (_ =? _).
    + by destruct (_ =? _).
    + destruct (_ =? _); eapply lists_ok_iff; try apply (hi_list _ _ _ HI); by apply (in_list_insert _ _ ar).
    + destruct (Z.eqb_spec (ar_n_used_blocks ar + 1) (ar_n_blocks ar)) as [E|E]; cbn.
      * eapply lists_ok_del; [apply (hi_free_list _ _ _ HI)|]. intros k b. rewrite Hl. cbn. naive_solver lia.
      * eapply lists_ok_iff; [apply (hi_free_list _ _ _ HI)|]. intros k b. rewrite Hl. cbn. cbn in Hu. split; [tauto|]. intros ?. split; [done|]. right. lia.
  - split; [by destruct (_ =? _)|]. split; [by destruct (_ =? _)|]. intros p Hp.
    assert (Hne : p - 8 <> block_at a ar i).
    { intros E. unfold user_data, sizeof_JSMallocBlockHeader in Hfree. rewrite <- E in Hfree.
      replace (p - 8 + 8) with p in Hfree by lia. rewrite Hfree in Hp. by destruct Hp. }
    destruct (_ =? _); cbn; by rewrite lookup_insert_ne by by apply not_eq_sym.
  - by destruct (_ =? _).
  - cbn [ar_n_used_blocks ar']. lia.
Qed.

(** A block in use lies inside one region of the host's. *)
Lemma live_region live large s p size : heap_inv live large s -> live !! p = Some size ->
  exists b n, mf_regions (host s) !! b = Some n /\ b <= p - 8 /\ p + size <= b + n /\ p mod 8 = 0 /\ 0 < size /\ base !! b = None.
Proof.
  intros HI Hp. assert (Hnb : forall b, is_Some (arenas s !! b) \/ is_Some (large !! b) -> base !! b = None).
  { intros b Hb. destruct (base !! b) as [n|] eqn:E; [|done]. destruct (hi_base _ _ _ HI b n E) as (_ & E1 & E2).
    rewrite E1, E2 in Hb. destruct Hb as [[]|[]]; done. }
  destruct (hi_live _ _ _ HI p size Hp) as [(a & ar & i & Ha & Hi & ->)|[n Hn]].
  - destruct (hi_arena _ _ _ HI a ar Ha) as [l Hok]. pose proof (arena_ok_wf _ _ _ _ _ Hok) as Hw.
    pose proof (block_at_range a ar i Hw Hi) as Hr. pose proof (ar_wf_bounds ar Hw) as (Hs & Hm & _).
    destruct (decide (i ∈ l)) as [Hil|Hil]; [by rewrite (ao_free _ _ _ _ _ Hok i Hil) in Hp|].
    destruct (ao_live _ _ _ _ _ Hok i Hi Hil) as (h & sz & _ & _ & E & Hsz). rewrite E in Hp. simplify_eq.
    destruct (hi_arena_region _ _ _ HI a ar Ha) as [Hreg _]. exists a, (arena_bytes ar).
    pose proof (proj1 (hi_regions _ _ _ HI) a _ Hreg) as (_ & Hal & _). unfold user_data, sizeof_JSMallocBlockHeader.
    split_and!; [done|lia|lia| |lia|apply Hnb; eauto].
    apply Z.mod_divide in Hal as [u Hu], Hm as [v Hv]; [|lia..]. unfold block_at, get_arena_block, sizeof_JSMallocArena. rewrite Hv, Hu.
    replace (u * 8 + 40 + i * (v * 8) + 8) with ((u + 6 + i * v) * 8) by lia. by apply Z.mod_mul.
  - destruct (hi_large _ _ _ HI _ _ Hn) as (h & sz & _ & _ & E & Hsz & ->).
    unfold user_data, sizeof_JSMallocBlockHeader in E. replace (p - 8 + 8) with p in E by lia. rewrite E in Hp. simplify_eq.
    pose proof (hi_large_region _ _ _ HI _ _ Hn) as Hreg. exists (p - 8), (size + 8).
    pose proof (proj1 (hi_regions _ _ _ HI) _ _ Hreg) as (_ & Hal & _).
    split_and!; [done|lia|lia|mod_lia|lia|apply Hnb; eauto].
Qed.

(** The parts of the heap in the regions [K] do not change when the headers
    and the blocks in use there do not. *)
Lemma heap_frame live live' large s m' (K : Z -> Prop) :
  heap_inv live large s ->
  (forall b n y, K b -> mf_regions (host s) !! b = Some n -> b <= y < b + n ->
    m' !! y = blocks s !! y /\ live' !! user_data y = live !! user_data y) ->
  (forall b, is_Some (base !! b) -> K b) ->
  (exists a n h, base !! a = Some n /\ a <= zero_size_block s /\ zero_size_block s + 8 <= a + n /\
    m' !! zero_size_block s = Some h /\ b_u h = FREE_NIL) /\
  (forall a ar, K a -> arenas s !! a = Some ar -> exists l, arena_ok m' live' a ar l) /\
  (forall b n, K b -> large !! b = Some n -> exists h size, m' !! b = Some h /\ b_u h = FREE_NIL /\
    live' !! user_data b = Some size /\ 0 < size /\ n = size + 8).
Proof.
  intros HI Hf HK. split_and!.
  - destruct (hi_zero _ _ _ HI) as (a & n & h & Ha & H1 & H2 & Hh & Hu). exists a, n, h. split_and!; try done.
    destruct (hi_base _ _ _ HI a n Ha) as (Hr & _). destruct (Hf a n (zero_size_block s)) as [-> _]; [apply HK; eauto|done|lia|done].
  - intros a ar Ka Ha. destruct (hi_arena _ _ _ HI a ar Ha) as [l Hl]. exists l. eapply arena_ok_frame; [|exact Hl].
    intros x Hx. apply (Hf a (arena_bytes ar)); [done| |done]. by apply (hi_arena_region _ _ _ HI).
  - intros b n Kb Hb. destruct (hi_large _ _ _ HI b n Hb) as (h & size & ? & ? & ? & ? & ?). exists h, size.
    pose proof (hi_large_region _ _ _ HI b n Hb) as Hr. destruct (Hf b n b) as [-> ->]; [done|done|lia|done].
Qed.

(** A host that hands out the same memory. *)
Lemma heap_inv_host live large s h : heap_inv live large s -> mf_regions h = mf_regions (host s) -> heap_inv live large (set_host h s).
Proof. intros [] E. split; cbn; rewrite ?E; done. Qed.

Lemma fresh_separate s a n b k x :
  regions_ok (mf_regions (host s)) -> fresh_region (mf_regions (host s)) a n -> mf_regions (host s) !! b = Some k ->
  b <= x < b + k -> ~ a <= x < a + n.
Proof. intros _ (_ & _ & _ & Hf) Hb Hx. specialize (Hf _ _ Hb). lia. Qed.
End heap.

(** ** A new arena *)
Lemma chain_new m a size i n :
  (forall j, i <= j < i + Z.of_nat n -> exists h, m !! get_arena_block a j size = Some h /\
    b_u h = if j =? i + Z.of_nat n - 1 then FREE_NIL else j + 1) ->
  chain m a size (match n with O => FREE_NIL | S _ => i end) (seqZ i (Z.of_nat n)).
Proof.
  revert i. induction n as [|n IH]; intros i Hm; [done|]. rewrite seqZ_cons by lia. replace (Z.pred (Z.of_nat (S n))) with (Z.of_nat n) by lia.
  destruct (Hm i ltac:(lia)) as (h & Hh & Hu). split; [done|]. exists h. split; [done|].
  specialize (IH (i + 1)). replace (Z.succ i) with (i + 1) by lia.
  replace (b_u h) with (match n with O => FREE_NIL | S _ => i + 1 end).
  - apply IH. intros j Hj. destruct (Hm j ltac:(lia)) as (hj & Hhj & Huj). exists hj. split; [done|].
    by replace (i + 1 + Z.of_nat n) with (i + Z.of_nat (S n)) by lia.
  - rewrite Hu. destruct n as [|n]; [rewrite (proj2 (Z.eqb_eq _ _)) by lia|rewrite (proj2 (Z.eqb_neq _ _)) by lia]; done.
Qed.
Section new_arena.
Context (garbage : Z -> JSMallocBlockHeader).

Lemma link_blocks_out todo i a size idx m x :
  (forall j, i <= j < i + Z.of_nat todo -> x <> get_arena_block a j size) -> link_blocks garbage todo i a size idx m !! x = m !! x.
Proof.
  revert i m. induction todo as [|todo IH]; intros i m Hx; [done|]. cbn [link_blocks].
  rewrite IH by (intros j Hj; apply Hx; lia). apply lookup_insert_ne. apply not_eq_sym, Hx. lia.
Qed.

Lemma link_blocks_in todo i a size idx m j : 0 < size -> i <= j < i + Z.of_nat todo ->
  link_blocks garbage todo i a size idx m !! get_arena_block a j size =
  Some (set_size_idx idx (set_u (if j =? i + Z.of_nat todo - 1 then FREE_NIL else j + 1) (garbage (get_arena_block a j size)))).
Proof.
  intros Hs. revert i m. induction todo as [|todo IH]; intros i m Hj; [lia|]. cbn [link_blocks].
  destruct (decide (j = i)) as [->|Hne].
  - rewrite link_blocks_out by (intros k Hk; unfold get_arena_block; nia). rewrite lookup_insert_eq.
    destruct todo as [|todo]; [rewrite (proj2 (Z.eqb_eq _ _)) by lia|rewrite (proj2 (Z.eqb_neq _ _)) by lia]; done.
  - rewrite IH by lia. replace (i + 1 + Z.of_nat todo) with (i + Z.of_nat (S todo)) by lia. done.
Qed.

End new_arena.

Section operations.
Context {H : Type} `{!JSMallocFunctions H, !HostLaws H} (base : gmap Z Z).

Lemma fresh_unused live large (s : JSMallocContext H) a n x :
  heap_inv base live large s -> fresh_region (mf_regions (host s)) a n -> a <= x < a + n -> live !! user_data x = None.
Proof.
  intros HI Hf Hx. destruct (live !! user_data x) as [size|] eqn:E; [|done].
  destruct (live_region base _ _ _ _ _ HI E) as (b & k & Hb & H1 & H2 & _ & H3 & _). exfalso.
  unfold user_data, sizeof_JSMallocBlockHeader in *.
  eapply (fresh_separate s a n b k x); [exact (hi_regions _ _ _ _ HI)|exact Hf|exact Hb|lia|exact Hx].
Qed.


(** A region just obtained becomes a large block of [size] bytes. *)
Lemma heap_inv_large live large (s : JSMallocContext H) h b size hb :
  heap_inv base live large s -> 0 < size -> fresh_region (mf_regions (host s)) b (8 + size) ->
  mf_regions h = <[b := 8 + size]> (mf_regions (host s)) -> b_u hb = FREE_NIL ->
  let s' := set_host h (set_blocks (<[b := hb]> (blocks s)) s) in
  live !! user_data b = None /\ heap_inv base (<[user_data b := size]> live) (<[b := 8 + size]> large) s' /\ framed live s s'.
Proof.
  intros HI Hs Hf Er Hu s'. assert (Hnone : mf_regions (host s) !! b = None) by (eapply fresh_not_in; [apply HI| |exact Hf]; lia).
  assert (Hlive : live !! user_data b = None) by (eapply fresh_unused; [done|exact Hf|lia]).
  assert (Hna : arenas s !! b = None).
  { destruct (arenas s !! b) as [ar1|] eqn:E1; [|done]. destruct (hi_arena_region _ _ _ _ HI b ar1 E1) as [E2 _]. by rewrite E2 in Hnone. }
  assert (Hout : forall c n y, mf_regions (host s) !! c = Some n -> c <= y < c + n -> y <> b).
  { intros c n y Hc Hy ->. eapply (fresh_separate s b (8 + size) c n b); [apply HI|done|done|done|lia]. }
  destruct (heap_frame base live (<[user_data b := size]> live) large s (<[b := hb]> (blocks s)) (fun _ => True) HI) as (Hz & Har & Hlg).
  { intros c n y _ Hc Hy. pose proof (Hout c n y Hc Hy). rewrite !lookup_insert_ne; [done| |done]. unfold user_data. lia. }
  { done. }
  split; [done|]. split.
  - split; cbn; rewrite ?Er; try done.
    + apply regions_ok_insert; [apply HI|lia|done].
    + intros c n Hc. destruct (hi_base _ _ _ _ HI c n Hc) as (Hc1 & Hc2 & Hc3).
      assert (b <> c) by (intros ->; by rewrite Hc1 in Hnone). rewrite !lookup_insert_ne by done. done.
    + intros c arc Hc. assert (b <> c) by (intros ->; by rewrite Hc in Hna). rewrite !lookup_insert_ne by done. by apply HI.
    + intros c n. destruct (decide (b = c)) as [<-|Hne]; [by rewrite !lookup_insert_eq|].
      rewrite !lookup_insert_ne by done. apply (hi_large_region _ _ _ _ HI).
    + intros c n. destruct (decide (b = c)) as [<-|Hne]; [rewrite !lookup_insert_eq; tauto|].
      rewrite !lookup_insert_ne by done. apply HI.
    + intros c arc. by apply Har.
    + intros c n. destruct (decide (b = c)) as [<-|Hne].
      * rewrite lookup_insert_eq. intros [= <-]. exists hb, size. rewrite !lookup_insert_eq. split_and!; try done. lia.
      * rewrite lookup_insert_ne by done. by apply Hlg.
    + intros p sz. destruct (decide (user_data b = p)) as [<-|Hne].
      * intros _. right. unfold user_data, sizeof_JSMallocBlockHeader. replace (b + 8 - 8) with b by lia. rewrite lookup_insert_eq. eauto.
      * rewrite lookup_insert_ne by done. intros Hp. destruct (hi_live _ _ _ _ HI p sz Hp) as [?|[n Hn]]; [tauto|]. right.
        rewrite lookup_insert_ne; [eauto|]. unfold user_data, sizeof_JSMallocBlockHeader in Hne. lia.
    + apply HI.
    + apply HI.
  - split; [done|]. split; [done|]. intros p [sz Hp]. destruct (live_region base _ _ _ _ _ HI Hp) as (c & n & Hc & ? & ? & _ & ? & _).
    cbn. apply lookup_insert_ne. apply not_eq_sym, (Hout c n); [done|lia].
Qed.

(** What an allocation promises: nothing but the new block changes. *)
Definition malloc_post (live large : gmap Z Z) (s : JSMallocContext H) (size : Z) (s' : JSMallocContext H) (r : option Z) : Prop :=
  framed live s s' /\ no_empty s' /\
  match r with
  | None => heap_inv base live large s'
  | Some p => live !! p = None /\ exists large', heap_inv base (<[p := size]> live) large' s'
  end.

Lemma malloc_small_spec live large (s : JSMallocContext H) a ar size :
  heap_inv base live large s -> (forall b arb, b <> a -> arenas s !! b = Some arb -> 0 < ar_n_used_blocks arb) ->
  arenas s !! a = Some ar -> ar_n_used_blocks ar < ar_n_blocks ar -> 0 < size <= ar_size ar - 8 ->
  exists s' r, take_block s a (ar_size ar) = Some (s', r) /\ malloc_post live large s size s' r.
Proof.
  intros HI Hne Ha Hlt Hsz. destruct (take_block_spec base live large s a ar size HI Ha Hlt Hsz) as (s' & p & ar' & E & Hp & HI' & Hfr & Ears & Hu).
  exists s', (Some p). split; [done|]. split_and!; [done| |done|eauto].
  intros b arb. rewrite Ears. destruct (decide (a = b)) as [<-|Hab].
  - rewrite lookup_insert_eq. by intros [= <-].
  - rewrite lookup_insert_ne by done. apply Hne. congruence.
Qed.


(** ** Freeing *)
Lemma drop_blocks_out a n m y : ~ a <= y < a + n -> drop_blocks a n m !! y = m !! y.
Proof.
  intros Hy. unfold drop_blocks. rewrite map_lookup_filter. destruct (m !! y) as [h|]; [|done]. cbn.
  by rewrite option_guard_True.
Qed.

(** The place of a block in use. *)
Lemma live_block live large (s : JSMallocContext H) p size : heap_inv base live large s -> live !! p = Some size ->
  (exists a ar i l h, arenas s !! a = Some ar /\ 0 <= i < ar_n_blocks ar /\ p = user_data (block_at a ar i) /\
    arena_ok (blocks s) live a ar l /\ (i ∉ l) /\ blocks s !! block_at a ar i = Some h /\ b_u h = i /\
    b_size_idx h = ar_block_size_idx ar /\ size <= ar_size ar - 8) \/
  (large !! (p - 8) = Some (8 + size) /\ exists h, blocks s !! (p - 8) = Some h /\ b_u h = FREE_NIL).
Proof.
  intros HI Hp. destruct (hi_live _ _ _ _ HI p size Hp) as [(a & ar & i & Ha & Hi & ->)|[n Hn]].
  - left. destruct (hi_arena _ _ _ _ HI a ar Ha) as [l Hok].
    destruct (decide (i ∈ l)) as [Hil|Hil]; [by rewrite (ao_free _ _ _ _ _ Hok i Hil) in Hp|].
    destruct (ao_live _ _ _ _ _ Hok i Hi Hil) as (h & sz & Hh & Hu & E & Hsz). rewrite E in Hp. simplify_eq.
    destruct (ao_header _ _ _ _ _ Hok _ Hi) as (h' & Hh' & Hx). rewrite Hh in Hh'. simplify_eq.
    exists a, ar, (b_u h'), l, h'. split_and!; try done; lia.
  - right. destruct (hi_large _ _ _ _ HI _ _ Hn) as (h & sz & Hh & Hu & E & _ & ->).
    unfold user_data, sizeof_JSMallocBlockHeader in E. replace (p - 8 + 8) with p in E by lia. rewrite E in Hp. simplify_eq.
    split; [rewrite Hn; f_equal; lia|eauto].
Qed.

(** An arena that goes back to the host: no block of it is in use but [p]. *)
Lemma heap_inv_drop live large (s s' : JSMallocContext H) a ar p m' :
  heap_inv base live large s -> arenas s !! a = Some ar ->
  (forall j, 0 <= j < ar_n_blocks ar -> user_data (block_at a ar j) <> p -> live !! user_data (block_at a ar j) = None) ->
  (exists i, 0 <= i < ar_n_blocks ar /\ p = user_data (block_at a ar i)) ->
  (forall y, ~ a <= y < a + arena_bytes ar -> m' !! y = blocks s !! y) ->
  arenas s' = delete a (arenas s) -> blocks s' = m' -> zero_size_block s' = zero_size_block s ->
  mf_regions (host s') = delete a (mf_regions (host s)) ->
  arena_list s' = list_del a (arena_list s) -> free_arena_list s' = list_del a (free_arena_list s) ->
  heap_inv base (delete p live) large s'.
Proof.
  intros HI Ha Hempty (i & Hi & Ep) Hm Ears Ebl Ez Er El Efl. destruct (hi_arena_region _ _ _ _ HI a ar Ha) as [Hra Hla].
  pose proof (arena_wf base _ _ _ _ _ HI Ha) as Hw. pose proof (block_at_range a ar i Hw Hi). pose proof (ar_wf_bounds ar Hw).
  assert (Hother : forall b n y, b <> a -> mf_regions (host s) !! b = Some n -> b <= y < b + n -> ~ a <= y < a + arena_bytes ar).
  { intros b n y Hne Hb Hy Hy'. apply Hne. by eapply (arena_owner base). }
  assert (Hbase : forall b, is_Some (base !! b) -> b <> a).
  { intros b [n Hb] ->. destruct (hi_base _ _ _ _ HI a n Hb) as (_ & E & _). by rewrite Ha in E. }
  destruct (heap_frame base live (delete p live) large s m' (fun b => b <> a) HI) as (Hz & Har & Hlg); [|done|].
  { intros b n y Hne Hb Hy. pose proof (Hother b n y Hne Hb Hy) as Hy'. split; [by apply Hm|].
    apply lookup_delete_ne. intros E. apply Hy'. unfold user_data in *. lia. }
  split; rewrite ?Er, ?Ez, ?Ebl, ?El, ?Efl, ?Ears.
  - apply regions_ok_delete, HI.
  - intros b n Hb. destruct (hi_base _ _ _ _ HI b n Hb) as (Hb1 & Hb2 & Hb3). pose proof (Hbase b ltac:(eauto)).
    rewrite !lookup_delete_ne by done. done.
  - intros b arb [Hne Hb]%lookup_delete_Some. rewrite lookup_delete_ne by done. by apply HI.
  - intros b n Hb. assert (a <> b) by (intros ->; by rewrite Hb in Hla). rewrite lookup_delete_ne by done. by apply (hi_large_region _ _ _ _ HI).
  - intros b n [Hne Hb]%lookup_delete_Some. rewrite lookup_delete_ne by done. by apply HI.
  - done.
  - intros b arb [Hne Hb]%lookup_delete_Some. apply Har; [by apply not_eq_sym|done].
  - intros b n Hb. apply Hlg; [|done]. intros ->. by rewrite Hb in Hla.
  - intros q sz [Hq Hlq]%lookup_delete_Some. destruct (hi_live _ _ _ _ HI q sz Hlq) as [(b & arb & j & Hb & Hj & Eq)|?]; [|tauto].
    left. exists b, arb, j. rewrite lookup_delete_ne; [done|]. intros ->. simplify_eq.
    rewrite (Hempty j Hj) in Hlq; [done|congruence].
  - eapply lists_ok_del; [apply (hi_list _ _ _ _ HI)|]. intros k b. unfold in_list. setoid_rewrite lookup_delete_Some. naive_solver.
  - eapply lists_ok_del; [apply (hi_free_list _ _ _ _ HI)|]. intros k b. unfold in_free_list. setoid_rewrite lookup_delete_Some. naive_solver.
Qed.

(** A large block that goes back to the host. *)
Lemma heap_inv_drop_large live large (s : JSMallocContext H) h b size :
  heap_inv base live large s -> large !! b = Some (8 + size) -> mf_regions h = delete b (mf_regions (host s)) ->
  heap_inv base (delete (user_data b) live) (delete b large) (set_host h (set_blocks (delete b (blocks s)) s)).
Proof.
  intros HI Hb Er. pose proof (hi_large_region _ _ _ _ HI _ _ Hb) as Hrb. pose proof (region_pos base _ _ _ _ _ HI Hrb) as Hpos.
  assert (Hna : arenas s !! b = None).
  { destruct (arenas s !! b) as [ar1|] eqn:E1; [|done]. destruct (hi_arena_region _ _ _ _ HI b ar1 E1) as [_ E2]. by rewrite Hb in E2. }
  assert (Hbase : forall c, is_Some (base !! c) -> c <> b).
  { intros c [n Hc] ->. destruct (hi_base _ _ _ _ HI b n Hc) as (_ & _ & E). by rewrite Hb in E. }
  destruct (heap_frame base live (delete (user_data b) live) large s (delete b (blocks s)) (fun c => c <> b) HI) as (Hz & Har & Hlg); [|done|].
  { intros c n y Hne Hc Hy. assert (b <> y).
    { intros ->. apply Hne. eapply regions_owner; [apply HI|exact Hc|exact Hrb|done|lia]. }
    rewrite !lookup_delete_ne; [done| |done]. unfold user_data. lia. }
  split; cbn; rewrite ?Er.
  - apply regions_ok_delete, HI.
  - intros c n Hc. destruct (hi_base _ _ _ _ HI c n Hc) as (H1 & H2 & H3). pose proof (Hbase c ltac:(eauto)).
    rewrite !lookup_delete_ne by done. done.
  - intros c arc Hc. assert (b <> c) by (intros ->; by rewrite Hc in Hna). rewrite !lookup_delete_ne by done. by apply HI.
  - intros c n [Hne Hc]%lookup_delete_Some. rewrite lookup_delete_ne by done. by apply (hi_large_region _ _ _ _ HI).
  - intros c n [Hne Hc]%lookup_delete_Some. rewrite lookup_delete_ne by done. by apply HI.
  - done.
  - intros c arc Hc. apply Har; [|done]. intros ->. by rewrite Hc in Hna.
  - intros c n [Hne Hc]%lookup_delete_Some. apply Hlg; [by apply not_eq_sym|done].
  - intros q sz [Hq Hlq]%lookup_delete_Some. destruct (hi_live _ _ _ _ HI q sz Hlq) as [?|?]; [tauto|]. right.
    rewrite lookup_delete_ne; [done|]. intros ->. apply Hq. unfold user_data, sizeof_JSMallocBlockHeader. lia.
  - apply HI.
  - apply HI.
Qed.

(** What a release promises. *)
Definition free_post (live : gmap Z Z) (s : JSMallocContext H) (p : Z) (s' : JSMallocContext H) : Prop :=
  framed (delete p live) s s' /\ no_empty s' /\ exists large', heap_inv base (delete p live) large' s'.

Lemma user_data_sub b : user_data b - sizeof_JSMallocBlockHeader = b.
Proof. unfold user_data. lia. Qed.

Lemma block_arena a ar i : block_at a ar i - block_size (ar_block_size_idx ar) * i - sizeof_JSMallocArena = a.
Proof. unfold block_at, get_arena_block, ar_size. lia. Qed.

(** The last block of an arena: the arena goes. *)
Lemma free_last_block live large (s s' : JSMallocContext H) a ar i l h :
  heap_inv base live large s -> no_empty s -> arenas s !! a = Some ar -> 0 <= i < ar_n_blocks ar ->
  arena_ok (blocks s) live a ar l -> i ∉ l -> ar_n_used_blocks ar = 1 ->
  s' = mk_ctx (list_del a (arena_list s)) (list_del a (free_arena_list s)) (zero_size_block s) (delete a (arenas s))
    (drop_blocks a (arena_bytes ar) (<[block_at a ar i := h]> (blocks s))) (bytes s) (mf_free a (host s)) ->
  free_post live s (user_data (block_at a ar i)) s'.
Proof.
  intros HI Hne Ha Hi Hok Hil Hu ->. pose proof (arena_ok_wf _ _ _ _ _ Hok) as Hw. pose proof (block_at_range a ar i Hw Hi) as Hr.
  pose proof (ar_wf_bounds ar Hw) as (Hs & _ & Hn). destruct (hi_arena_region _ _ _ _ HI a ar Ha) as [Hra _].
  assert (Hm : forall y, ~ a <= y < a + arena_bytes ar ->
    drop_blocks a (arena_bytes ar) (<[block_at a ar i := h]> (blocks s)) !! y = blocks s !! y).
  { intros y Hy. rewrite drop_blocks_out by done. apply lookup_insert_ne. lia. }
  assert (HI' : heap_inv base (delete (user_data (block_at a ar i)) live) large (mk_ctx (list_del a (arena_list s))
    (list_del a (free_arena_list s)) (zero_size_block s) (delete a (arenas s))
    (drop_blocks a (arena_bytes ar) (<[block_at a ar i := h]> (blocks s))) (bytes s) (mf_free a (host s)))).
  { eapply heap_inv_drop; try done; [|eauto|by eapply host_free_ok].
    intros j Hj Hne'. destruct (decide (j ∈ l)) as [Hjl|Hjl]; [by apply (ao_free _ _ _ _ _ Hok)|]. exfalso.
    assert (Hji : j <> i) by (by intros ->). pose proof (NoDup_range_length (i :: j :: l) (ar_n_blocks ar)) as Hlen.
    pose proof (ao_used _ _ _ _ _ Hok). cbn [length] in Hlen. enough (Z.of_nat (S (S (length l))) <= Z.max 0 (ar_n_blocks ar)) by lia.
    apply Hlen; [apply NoDup_cons; split; [set_solver|apply NoDup_cons; split; [done|apply Hok]]|].
    intros k [->|[->|Hk]%elem_of_cons]%elem_of_cons; [done|done|]. by apply (ao_range _ _ _ _ _ Hok). }
  split_and!; [|intros b arb; cbn; intros [_ Hb]%lookup_delete_Some; by eapply Hne|eauto].
  split; [done|]. split; [done|]. intros q [sz Hq]. destruct (live_region base _ _ _ _ _ HI' Hq) as (c & n & Hc & ? & ? & _ & ? & _).
  cbn in Hc. rewrite (host_free_ok _ _ _ Hra) in Hc. apply lookup_delete_Some in Hc as [Hca Hc].
  apply Hm. intros Hq'. apply Hca. eapply regions_owner; [apply HI|exact Hra|exact Hc|exact Hq'|lia].
Qed.

Lemma free_block_spec live large (s : JSMallocContext H) a ar i l h :
  heap_inv base live large s -> no_empty s -> arenas s !! a = Some ar -> 0 <= i < ar_n_blocks ar ->
  arena_ok (blocks s) live a ar l -> i ∉ l -> blocks s !! block_at a ar i = Some h -> b_u h = i ->
  b_size_idx h = ar_block_size_idx ar ->
  exists s', free_block s (block_at a ar i) h = Some s' /\ free_post live s (user_data (block_at a ar i)) s'.
Proof.
  intros HI Hne Ha Hi Hok Hil Hh Hu Hx. pose proof (arena_ok_wf _ _ _ _ _ Hok) as Hw. pose proof (Hne a ar Ha) as Hpos.
  pose proof (ar_wf_bounds ar Hw) as (Hs & _ & Hn). pose proof (ao_used _ _ _ _ _ Hok) as Hused.
  unfold free_block. rewrite Hu, Hx, block_arena, Ha. bind. rewrite u16_id by lia. destruct (Z.eqb_spec (ar_n_used_blocks ar - 1) 0) as [E|E].
  { rewrite (proj2 (Z.eqb_neq (ar_n_used_blocks ar) (ar_n_blocks ar))) by lia. eexists. split; [done|].
    eapply free_last_block; try done. lia. }
  pose proof (arena_ok_give _ _ _ _ _ _ _ Hok Hi Hil Hh) as Hok'. set (ar' := mk_arena _ _ _ _) in *.
  eexists. split; [done|]. split_and!.
  - split; [by destruct (_ =? _)|]. split; [by destruct (_ =? _)|]. intros q [sz [Hq _]%lookup_delete_Some].
    assert (block_at a ar i <> q - 8) by (intros E'; apply Hq; unfold user_data, sizeof_JSMallocBlockHeader; lia).
    destruct (_ =? _); cbn; by rewrite lookup_insert_ne.
  - intros b arb. destruct (_ =? _); cbn; intros [[_ <-]|[_ Hb]]%lookup_insert_Some; cbn; eauto with lia.
  - exists large. eapply (heap_inv_arena base live _ large s _ a ar ar' (block_at a ar i) _ (i :: l)); try done.
    + eauto.
    + intros q Hq. by apply lookup_delete_ne.
    + by destruct (_ =? _).
    + by destruct (_ =? _).
    + by destruct (_ =? _).
    + by destruct (_ =? _).
    + by destruct (_ =? _).
    + destruct (_ =? _); eapply lists_ok_iff; try apply (hi_list _ _ _ _ HI); by apply (in_list_insert _ _ ar).
    + destruct (Z.eqb_spec (ar_n_used_blocks ar) (ar_n_blocks ar)) as [Ef|Ef]; cbn.
      * eapply lists_ok_add; [apply (hi_free_list _ _ _ _ HI)| |].
        -- intros (ar1 & E1 & _ & Hlt). simplify_eq. lia.
        -- intros k b. rewrite (in_free_list_insert _ _ ar) by done. cbn. split.
           ++ intros [[? ?]|(-> & -> & _)]; tauto.
           ++ intros [Hb|[-> ->]]; [|right; split_and!; [done|done|lia]]. left. split; [|done]. intros ->.
              destruct Hb as (ar1 & E1 & _ & Hlt). simplify_eq. lia.
      * eapply lists_ok_iff; [apply (hi_free_list _ _ _ _ HI)|]. intros k b. rewrite (in_free_list_insert _ _ ar) by done. cbn. split.
        -- intros [[? ?]|(-> & -> & _)]; [done|]. exists ar. split_and!; [done|done|lia].
        -- intros Hb. destruct (decide (b = a)) as [->|]; [|tauto]. right. destruct Hb as (ar1 & E1 & E2 & Hlt). simplify_eq. split_and!; [done|done|lia].
Qed.

Lemma zero_not_live live large (s : JSMallocContext H) p size : heap_inv base live large s -> live !! p = Some size -> p - 8 <> zero_size_block s.
Proof.
  intros HI Hp E. destruct (live_region base _ _ _ _ _ HI Hp) as (b & n & Hb & ? & ? & _ & ? & Hnb).
  destruct (hi_zero _ _ _ _ HI) as (c & k & h & Hc & ? & ? & _). destruct (hi_base _ _ _ _ HI c k Hc) as (Hc' & _).
  assert (b = c) as -> by (eapply (regions_owner _ b n c k (p - 8)); [apply HI|done|done|lia|lia]). by rewrite Hc in Hnb.
Qed.

Lemma free_spec live large (s : JSMallocContext H) p size :
  heap_inv base live large s -> no_empty s -> live !! p = Some size ->
  exists s', __js_free s (Some p) = Some s' /\ free_post live s p s'.
Proof.
  intros HI Hne Hp. unfold __js_free. destruct (live_block _ _ _ _ _ HI Hp) as [(a & ar & i & l & h & Ha & Hi & -> & Hok & Hil & Hh & Hu & Hx & _)|(Hl & h & Hh & Hu)].
  - rewrite user_data_sub, Hh. bind. pose proof (arena_ok_wf _ _ _ _ _ Hok) as Hw. pose proof (ar_wf_bounds ar Hw).
    rewrite (proj2 (Z.eqb_neq (b_u h) FREE_NIL)) by (unfold FREE_NIL; lia). by eapply free_block_spec.
  - change sizeof_JSMallocBlockHeader with 8. rewrite Hh. bind. rewrite Hu, Z.eqb_refl.
    rewrite (proj2 (Z.eqb_neq _ _)) by (by eapply zero_not_live). eexists. split; [done|].
    pose proof (hi_large_region _ _ _ _ HI _ _ Hl) as Hr.
    assert (Ep : user_data (p - 8) = p) by (unfold user_data, sizeof_JSMallocBlockHeader; lia).
    split_and!; [|done|].
    + split; [done|]. split; [done|]. intros q [sz [Hq _]%lookup_delete_Some]. cbn. apply lookup_delete_ne. lia.
    + eexists. rewrite <- Ep at 1. eapply heap_inv_drop_large; [done|done|]. by eapply host_free_ok.
Qed.

(** ** Blocks in use do not overlap *)
Lemma live_disjoint live large (s : JSMallocContext H) p q n k :
  heap_inv base live large s -> live !! p = Some n -> live !! q = Some k -> p <> q -> p + n <= q - 8 \/ q + k <= p - 8.
Proof.
  intros HI Hp Hq Hne. destruct (live_region base _ _ _ _ _ HI Hp) as (b & r & Hb & ? & ? & _ & ? & _).
  destruct (live_region base _ _ _ _ _ HI Hq) as (c & t & Hc & ? & ? & _ & ? & _).
  destruct (decide (b = c)) as [<-|Hbc]; [|pose proof (proj2 (hi_regions _ _ _ _ HI) _ _ _ _ Hb Hc Hbc); lia]. rewrite Hb in Hc. simplify_eq.
  assert (Harena : forall x m a ar i, live !! x = Some m -> arenas s !! a = Some ar -> 0 <= i < ar_n_blocks ar ->
    x = user_data (block_at a ar i) -> b <= x - 8 -> x + m <= b + t -> 0 < m -> b = a).
  { intros x m a ar i Hx Ha Hi -> Hx1 Hx2 Hm. pose proof (arena_wf base _ _ _ _ _ HI Ha) as Hw.
    pose proof (block_at_range a ar i Hw Hi). pose proof (ar_wf_bounds ar Hw). unfold user_data, sizeof_JSMallocBlockHeader in *.
    eapply (arena_owner base live large s a ar (block_at a ar i)); [done|done|lia|done|lia]. }
  assert (Hlarge : forall x m, large !! (x - 8) = Some (8 + m) -> b <= x - 8 -> x + m <= b + t -> 0 < m -> b = x - 8).
  { intros x m Hx Hx1 Hx2 Hm. eapply (regions_owner _ b t (x - 8) (8 + m) (x - 8)); [apply HI|done|by apply (hi_large_region _ _ _ _ HI)|lia|lia]. }
  destruct (live_block _ _ _ _ _ HI Hp) as [(a & ar & i & l & h & Ha & Hi & Ep & _ & _ & _ & _ & _ & Hsz)|(Hl & _)],
    (live_block _ _ _ _ _ HI Hq) as [(a' & ar' & i' & l' & h' & Ha' & Hi' & Eq & _ & _ & _ & _ & _ & Hsz')|(Hl' & _)].
  - assert (b = a) by by apply (Harena p n a ar i). assert (b = a') by by apply (Harena q k a' ar' i'). subst a a'. rewrite Ha in Ha'. simplify_eq.
    pose proof (arena_wf base _ _ _ _ _ HI Ha) as Hw. unfold user_data, sizeof_JSMallocBlockHeader in *.
    pose proof (block_at_apart b ar' i i' Hw ltac:(by intros ->)). lia.
  - assert (b = a) by by apply (Harena p n a ar i). assert (b = q - 8) by by apply (Hlarge q k). subst.
    destruct (hi_arena_region _ _ _ _ HI _ _ Ha) as [_ E]. by rewrite Hl' in E.
  - assert (b = a') by by apply (Harena q k a' ar' i'). assert (b = p - 8) by by apply (Hlarge p n). subst.
    destruct (hi_arena_region _ _ _ _ HI _ _ Ha') as [_ E]. by rewrite Hl in E.
  - assert (b = p - 8) by by apply (Hlarge p n). assert (b = q - 8) by by apply (Hlarge q k). lia.
Qed.

(** ** Changes the invariant does not see *)
Lemma heap_inv_bytes live large (s : JSMallocContext H) f : heap_inv base live large s -> heap_inv base live large (set_bytes f s).
Proof. by intros []. Qed.

(** Headers with the same links, whatever their GC data. *)
Definition same_links (m m' : gmap Z JSMallocBlockHeader) : Prop :=
  forall y h, m !! y = Some h -> exists h', m' !! y = Some h' /\ b_u h' = b_u h /\ b_size_idx h' = b_size_idx h.

Lemma chain_links m m' a size first l : same_links m m' -> chain m a size first l -> chain m' a size first l.
Proof.
  intros Hs. revert first. induction l as [|i l IH]; intros first; [done|]. intros (-> & h & Hh & Hc). split; [done|].
  destruct (Hs _ _ Hh) as (h' & Hh' & Hu & _). exists h'. rewrite Hu. auto.
Qed.

Lemma arena_ok_links m m' live a ar l : same_links m m' -> arena_ok m live a ar l -> arena_ok m' live a ar l.
Proof.
  intros Hs [? ? Hc ? ? ? Hh ? Hl]. split; try done.
  - by eapply chain_links.
  - intros i Hi. destruct (Hh i Hi) as (h & Hh1 & Hh2). destruct (Hs _ _ Hh1) as (h' & ? & ? & E). exists h'. by rewrite E.
  - intros i Hi Hil. destruct (Hl i Hi Hil) as (h & sz & Hh1 & Hh2 & ?). destruct (Hs _ _ Hh1) as (h' & ? & E & _). exists h', sz. by rewrite E.
Qed.

Lemma heap_inv_links live large (s : JSMallocContext H) m' : same_links (blocks s) m' -> heap_inv base live large s ->
  heap_inv base live large (set_blocks m' s).
Proof.
  intros Hs [? ? ? ? ? Hz Ha Hl ? ? ?]. split; try done; cbn.
  - destruct Hz as (a & n & h & ? & ? & ? & Hh & Hu). destruct (Hs _ _ Hh) as (h' & ? & E & _). exists a, n, h'. by rewrite E.
  - intros a ar Har. destruct (Ha a ar Har) as [l Hok]. exists l. by eapply arena_ok_links.
  - intros b n Hb. destruct (Hl b n Hb) as (h & sz & Hh & Hu & ?). destruct (Hs _ _ Hh) as (h' & ? & E & _). exists h', sz. by rewrite E.
Qed.

(** A small block asked to hold [n] bytes that it has room for. *)
Lemma heap_inv_resize live large (s : JSMallocContext H) a ar i size n :
  heap_inv base live large s -> arenas s !! a = Some ar -> 0 <= i < ar_n_blocks ar ->
  live !! user_data (block_at a ar i) = Some size -> 0 < n <= ar_size ar - 8 ->
  heap_inv base (<[user_data (block_at a ar i) := n]> live) large s.
Proof.
  intros HI Ha Hi Hp Hn. set (p := user_data (block_at a ar i)) in *. pose proof (arena_wf base _ _ _ _ _ HI Ha) as Hw.
  pose proof (block_at_range a ar i Hw Hi) as Hr. pose proof (ar_wf_bounds ar Hw).
  destruct (heap_frame base live (<[p := n]> live) large s (blocks s) (fun b => b <> a) HI) as (Hz & Har & Hlg).
  { intros b k y Hne Hb Hy. split; [done|]. apply lookup_insert_ne. intros E. apply Hne. unfold p, user_data in E.
    eapply (arena_owner base live large s a ar y); [done|done|lia|done|done]. }
  { intros b [k Hb] ->. destruct (hi_base _ _ _ _ HI a k Hb) as (_ & E & _). by rewrite Ha in E. }
  destruct HI as [? Hb1 Har1 Hl1 ? ? HA HL HLV ? ?]. split; try done.
  - intros b arb Hb. destruct (decide (b = a)) as [->|Hne]; [|by apply Har]. rewrite Ha in Hb. simplify_eq.
    destruct (HA a arb Ha) as [l [? ? ? ? Hrg ? ? Hf Hlv]]. exists l. split; try done.
    + intros j Hj. rewrite lookup_insert_ne; [by apply Hf|]. intros E. specialize (Hf j Hj). unfold p in *. rewrite <- E in Hf. by rewrite Hp in Hf.
    + intros j Hj Hjl. destruct (Hlv j Hj Hjl) as (h & sz & Hh & Hu & Hs & ?). destruct (decide (j = i)) as [->|Hji].
      * exists h, n. unfold p. rewrite lookup_insert_eq. done.
      * exists h, sz. rewrite lookup_insert_ne; [done|]. unfold p, user_data. intros E. apply Hji, (block_at_inj a arb j i Hw). lia.
  - intros b k Hb. apply Hlg; [|done]. intros ->. destruct (Har1 a ar Ha) as [_ E]. by rewrite Hb in E.
  - intros q sz [[<- _]|[_ Hq]]%lookup_insert_Some; [|by eapply HLV]. by eapply HLV.
Qed.
End operations.

(** ** Allocating *)
Section allocation.
Context {H : Type} `{!JSMallocFunctions H, !HostLaws H} (garbage : Z -> JSMallocBlockHeader) (base : gmap Z Z).

(** An arena that holds no block yet. *)
Lemma arena_ok_new (m : gmap Z JSMallocBlockHeader) (live : gmap Z Z) a idx :
  0 <= idx < 31 -> (forall x, a <= x < a + arena_bytes (mk_arena idx 0 (block_count idx) 0) -> live !! user_data x = None) ->
  arena_ok (link_blocks garbage (Z.to_nat (block_count idx)) 0 a (block_size idx) idx m) live a
    (mk_arena idx 0 (block_count idx) 0) (seqZ 0 (block_count idx)).
Proof.
  intros Hi Hl. set (ar := mk_arena idx 0 (block_count idx) 0). assert (Hw : ar_wf ar) by done.
  pose proof (block_size_bounds idx Hi) as (Hs & _ & Hn).
  assert (Hin : forall j, 0 <= j < block_count idx ->
    link_blocks garbage (Z.to_nat (block_count idx)) 0 a (block_size idx) idx m !! get_arena_block a j (block_size idx) =
    Some (set_size_idx idx (set_u (if j =? 0 + Z.of_nat (Z.to_nat (block_count idx)) - 1 then FREE_NIL else j + 1)
      (garbage (get_arena_block a j (block_size idx)))))) by (intros j Hj; apply link_blocks_in; lia).
  split; try done.
  - pose proof (chain_new (link_blocks garbage (Z.to_nat (block_count idx)) 0 a (block_size idx) idx m) a (block_size idx) 0 (Z.to_nat (block_count idx))) as Hc.
    rewrite Z2Nat.id in Hc by lia. destruct (Z.to_nat (block_count idx)) as [|n] eqn:E; [lia|]. apply Hc. intros j Hj. eexists.
    split; [apply Hin; lia|]. by replace (0 + Z.of_nat (S n) - 1) with (0 + block_count idx - 1) by lia.
  - apply NoDup_seqZ.
  - intros j Hj. apply elem_of_seqZ in Hj. cbn; lia.
  - rewrite length_seqZ. cbn; lia.
  - intros j Hj. eexists. split; [by apply Hin|done].
  - intros j Hj. apply elem_of_seqZ in Hj. apply Hl. assert (Hj' : 0 <= j < ar_n_blocks ar) by (cbn; lia).
    pose proof (block_at_range a ar j Hw Hj'). pose proof (ar_wf_bounds ar Hw). fold ar. lia.
  - intros j Hj Hn'. exfalso. apply Hn', elem_of_seqZ. cbn in Hj; lia.
Qed.

Lemma new_arena_spec live large (s : JSMallocContext H) idx :
  heap_inv base live large s -> 0 <= idx < 31 ->
  exists s' r, js_malloc_new_arena garbage s idx = (s', r) /\ heap_inv base live large s' /\ framed live s s' /\
  match r with
  | None => arenas s' = arenas s
  | Some a => arenas s !! a = None /\ arenas s' = <[a := mk_arena idx 0 (block_count idx) 0]> (arenas s)
  end.
Proof.
  intros HI Hi. set (ar := mk_arena idx 0 (block_count idx) 0). assert (Hw : ar_wf ar) by done.
  pose proof (arena_bytes_bounds ar Hw) as Hab. pose proof (block_size_bounds idx Hi) as (Hs & _ & Hn).
  unfold js_malloc_new_arena. fold (block_count idx). change (sizeof_JSMallocArena + block_count idx * block_size idx) with (arena_bytes ar).
  destruct (mf_malloc (arena_bytes ar) (host s)) as [h [a|]] eqn:E.
  2:{ apply host_malloc_null in E; [|lia]. eexists _, _. split; [done|]. split; [by apply heap_inv_host|]. done. }
  apply host_malloc_ok in E as [Hf Er]; [|lia]. assert (Hnone : mf_regions (host s) !! a = None) by (eapply fresh_not_in; [apply HI| |exact Hf]; lia).
  assert (Hna : arenas s !! a = None).
  { destruct (arenas s !! a) as [ar1|] eqn:E1; [|done]. destruct (hi_arena_region _ _ _ _ HI a ar1 E1) as [E2 _]. by rewrite E2 in Hnone. }
  assert (Hnl : large !! a = None).
  { destruct (large !! a) as [n1|] eqn:E1; [|done]. by rewrite (hi_large_region _ _ _ _ HI a n1 E1) in Hnone. }
  set (m' := link_blocks garbage (Z.to_nat (block_count idx)) 0 a (block_size idx) idx (blocks s)).
  assert (Hout : forall b n y, mf_regions (host s) !! b = Some n -> b <= y < b + n -> m' !! y = blocks s !! y).
  { intros b n y Hb Hy. apply link_blocks_out. intros j Hj ->. eapply (fresh_separate s a (arena_bytes ar) b n); [exact (hi_regions _ _ _ _ HI)|done|done|exact Hy|].
    pose proof (block_at_range a ar j Hw) as Hr. pose proof (ar_wf_bounds ar Hw). unfold block_at in Hr. cbn in Hr. unfold ar_size in Hr. cbn in Hr. lia. }
  destruct (heap_frame base live live large s m' (fun _ => True) HI) as (Hz & Har & Hlg); [by eauto|done|].
  eexists _, _. split; [done|]. split; [|split; [|done]].
  - split; cbn; rewrite ?Er; try done.
    + apply regions_ok_insert; [apply HI|lia|done].
    + intros b n Hb. destruct (hi_base _ _ _ _ HI b n Hb) as (Hb1 & Hb2 & Hb3).
      assert (Hab' : a <> b) by (intros ->; by rewrite Hb1 in Hnone). rewrite !lookup_insert_ne by done. done.
    + intros b arb. destruct (decide (a = b)) as [<-|Hne].
      * rewrite !lookup_insert_eq. intros [= <-]. done.
      * rewrite !lookup_insert_ne by done. apply HI.
    + intros b n Hb. rewrite lookup_insert_ne; [by apply (hi_large_region _ _ _ _ HI)|]. intros ->. by rewrite Hb in Hnl.
    + intros b n. destruct (decide (a = b)) as [<-|Hne].
      * rewrite !lookup_insert_eq. intros _. right; left. eauto.
      * rewrite !lookup_insert_ne by done. apply HI.
    + intros b arb. destruct (decide (a = b)) as [<-|Hne].
      * rewrite lookup_insert_eq. intros [= <-]. eexists. apply arena_ok_new; [done|]. intros x Hx. by eapply fresh_unused.
      * rewrite lookup_insert_ne by done. by apply Har.
    + intros b n. by apply Hlg.
    + intros p size Hp. destruct (hi_live _ _ _ _ HI p size Hp) as [(b & arb & j & Hb & ?)|?]; [|tauto]. left. exists b, arb, j.
      rewrite lookup_insert_ne; [done|]. intros ->. by rewrite Hb in Hna.
    + eapply lists_ok_add; [apply (hi_list _ _ _ _ HI)|intros (? & E1 & _); by rewrite E1 in Hna|].
      intros k b. unfold in_list. destruct (decide (a = b)) as [<-|Hne].
      * rewrite lookup_insert_eq, Hna. cbn. naive_solver.
      * rewrite lookup_insert_ne by done. naive_solver.
    + eapply lists_ok_add; [apply (hi_free_list _ _ _ _ HI)|intros (? & E1 & _); by rewrite E1 in Hna|].
      intros k b. unfold in_free_list. destruct (decide (a = b)) as [<-|Hne].
      * rewrite lookup_insert_eq, Hna. cbn. naive_solver lia.
      * rewrite lookup_insert_ne by done. naive_solver.
  - split; [done|]. split; [done|]. intros p [size Hp]. destruct (live_region base _ _ _ _ _ HI Hp) as (b & n & Hb & ? & ? & _ & ? & _).
    apply (Hout b n); [done|lia].
Qed.

Lemma malloc_large_spec live large (s : JSMallocContext H) size :
  heap_inv base live large s -> no_empty s -> 0 < size <= max_request ->
  exists s' r, js_malloc_large garbage s size = (s', r) /\ malloc_post base live large s size s' r.
Proof.
  intros HI Hne Hs. unfold max_request in Hs. unfold js_malloc_large, sizeof_JSMallocLargeBlockHeader. rewrite u64_id by lia.
  destruct (mf_malloc (8 + size) (host s)) as [h [b|]] eqn:E.
  - apply host_malloc_ok in E as [Hf Er]; [|lia]. eexists _, _. split; [done|].
    destruct (heap_inv_large base live large s h b size (set_size_idx 255 (set_u FREE_NIL (garbage b))) HI) as (Hn & HI' & Hfr); try done; [lia|].
    split_and!; [done|done|done|eauto].
  - apply host_malloc_null in E; [|lia]. eexists _, _. split; [done|]. split_and!; [done|done|by apply heap_inv_host].
Qed.

Lemma malloc_spec live large (s : JSMallocContext H) size :
  heap_inv base live large s -> no_empty s -> 0 < size <= max_request ->
  exists s' r, __js_malloc garbage s size = Some (s', r) /\ malloc_post base live large s size s' r.
Proof.
  intros HI Hne Hs. pose proof (total_size_bounds size Hs) as Ht. unfold __js_malloc.
  rewrite (proj2 (Z.eqb_neq size 0)) by lia. destruct (Z.leb_spec (total_size size) JS_MALLOC_MAX_SMALL_SIZE) as [Hsmall|Hbig].
  2:{ destruct (malloc_large_spec live large s size HI Hne Hs) as (s' & r & -> & Hp). eauto. }
  unfold JS_MALLOC_MAX_SMALL_SIZE in Hsmall. set (idx := get_block_size_index (total_size size)).
  destruct (size_index_bounds (total_size size)) as [Hi Hsz]; [lia|]. fold idx in Hi, Hsz.
  destruct (hi_free_list _ _ _ _ HI) as [Hlen Hfl].
  destruct (lookup_lt_is_Some_2 (free_arena_list s) (Z.to_nat idx)) as [l El]; [rewrite Hlen; unfold JS_MALLOC_BLOCK_SIZE_COUNT; lia|].
  rewrite El. bind. destruct l as [|a l].
  - destruct (new_arena_spec live large s idx HI Hi) as (s1 & [a|] & E1 & HI1 & Hfr1 & Hars); rewrite E1.
    + destruct Hars as [Hna Hars]. set (ar := mk_arena idx 0 (block_count idx) 0) in *.
      destruct (malloc_small_spec base live large s1 a ar size HI1) as (s' & r & E & Hfr & Hne' & Hr).
      * intros b arb Hb. rewrite Hars, lookup_insert_ne by congruence. apply Hne.
      * by rewrite Hars, lookup_insert_eq.
      * cbn. pose proof (block_size_bounds idx Hi). lia.
      * unfold ar_size. cbn. lia.
      * exists s', r. split; [exact E|]. split_and!; [|done|done]. destruct Hfr as (F1 & F2 & F3), Hfr1 as (G1 & G2 & G3).
        split_and!; [congruence|congruence|]. intros p Hp. by rewrite F3, G3.
    + exists s1, None. split; [done|]. split_and!; [done| |done]. intros b arb. rewrite Hars. apply Hne.
  - destruct (Hfl _ _ El) as [_ Hin]. destruct (proj1 (Hin a) ltac:(set_solver)) as (ar & Ha & Ek & Hlt).
    destruct (arena_wf base _ _ _ _ _ HI Ha) as [Hidx _].
    assert (Eidx : ar_block_size_idx ar = idx) by lia.
    replace (block_size idx) with (ar_size ar) by (unfold ar_size; by rewrite Eidx).
    apply (malloc_small_spec base live large s a ar size HI); [|done|done|unfold ar_size; rewrite Eidx; lia]. intros b arb _. apply Hne.
Qed.
End allocation.
