(* ===== verification/ArenaRealloc.v ===== *)
(** * Reallocation in the engine's allocator

    [__js_realloc] on each of its paths (in place, by the host, by a move to a
    larger block) keeps what the block holds and every other block. *)
From S2P Require Import Prelude Sort Allocator Arena ArenaProps.

Section heap_ok.
Context {H : Type} `{!JSMallocFunctions H, !HostLaws H} (base : gmap Z Z).

(** A heap with the blocks [live] in use. *)
Definition heap_ok (live : gmap Z Z) (s : JSMallocContext H) : Prop :=
  no_empty s /\ exists large, heap_inv base live large s.

(** The GC data of a header, which moves with the block. *)
Definition same_gc_data (h h' : JSMallocBlockHeader) : Prop :=
  b_gc_obj_type h' = b_gc_obj_type h /\ b_mark h' = b_mark h /\ b_ref_count h' = b_ref_count h.

(** The block [p] of [size] bytes has become [p'] of [n] bytes. *)
Definition moved (live : gmap Z Z) (s : JSMallocContext H) (p size : Z) (s' : JSMallocContext H) (p' n : Z) : Prop :=
  (p' = p \/ live !! p' = None) /\ heap_ok (<[p' := n]> (delete p live)) s' /\ zero_size_block s' = zero_size_block s /\
  (forall k, 0 <= k < Z.min size n -> bytes s' (p' + k) = bytes s (p + k)) /\
  (exists h h', blocks s !! (p - 8) = Some h /\ blocks s' !! (p' - 8) = Some h' /\ same_gc_data h h') /\
  (forall q sz, q <> p -> live !! q = Some sz ->
    blocks s' !! (q - 8) = blocks s !! (q - 8) /\ forall k, 0 <= k < sz -> bytes s' (q + k) = bytes s (q + k)).

Lemma memcpy_in dst src n f x : dst <= x < dst + n -> memcpy dst src n f x = f (src + (x - dst)).
Proof. intros Hx. unfold memcpy. by rewrite (proj2 (Z.leb_le _ _)), (proj2 (Z.ltb_lt _ _)) by lia. Qed.
Lemma memcpy_out dst src n f x : ~ dst <= x < dst + n -> memcpy dst src n f x = f x.
Proof.
  intros Hx. unfold memcpy. destruct (Z.leb_spec dst x), (Z.ltb_spec x (dst + n)); try done. lia.
Qed.

(** Bytes of another block are not those of the new one. *)
Lemma other_bytes live large (s : JSMallocContext H) p n q sz k :
  heap_inv base live large s -> live !! p = Some n -> live !! q = Some sz -> q <> p -> 0 <= k < sz -> ~ p - 8 <= q + k < p + n.
Proof. intros HI Hp Hq Hne Hk. pose proof (live_disjoint base _ _ _ _ _ _ _ HI Hp Hq (not_eq_sym Hne)). lia. Qed.

Lemma realloc_large_spec live large (s : JSMallocContext H) p size n h :
  heap_inv base live large s -> no_empty s -> live !! p = Some size -> large !! (p - 8) = Some (8 + size) ->
  blocks s !! (p - 8) = Some h -> 0 < n <= max_request ->
  exists s' r, realloc_large s (p - 8) h n = (s', r) /\
    match r with None => heap_ok live s' /\ framed live s s' | Some p' => moved live s p size s' p' n end.
Proof.
  intros HI Hne Hp Hl Hh Hn. unfold max_request in Hn. unfold realloc_large, sizeof_JSMallocLargeBlockHeader. rewrite u64_id by lia.
  pose proof (hi_large_region _ _ _ _ HI _ _ Hl) as Hr. assert (Ep : user_data (p - 8) = p) by (unfold user_data, sizeof_JSMallocBlockHeader; lia).
  destruct (mf_realloc (p - 8) (8 + n) (host s)) as [h' [b'|]] eqn:E.
  2:{ eapply host_realloc_null in E; [|lia|done]. eexists _, _. split; [done|]. split; [|done]. split; [done|]. exists large. by apply heap_inv_host. }
  eapply host_realloc_ok in E as [Hf Er]; [|lia|done]. eexists _, _. split; [done|].
  pose proof (host_free_ok _ _ _ Hr) as Efree.
  pose proof (heap_inv_drop_large base live large s _ (p - 8) size HI Hl Efree) as HI1. rewrite Ep in HI1.
  destruct (heap_inv_large base _ _ _ h' b' n (set_size_idx 255 (set_u FREE_NIL h)) HI1) as (Hn' & HI2 & Hfr); cbn; rewrite ?Efree; [lia|done|done|done|].
  set (p' := user_data b') in *. rewrite Hr. cbn [default].
  assert (Hp' : p' - 8 = b') by (unfold p', user_data, sizeof_JSMallocBlockHeader; lia).
  split_and!.
  - destruct (decide (p' = p)) as [|Hpp]; [by left|right]. by rewrite lookup_delete_ne in Hn' by done.
  - split; [done|]. eexists. exact (heap_inv_bytes base _ _ _ _ HI2).
  - done.
  - intros k Hk. cbn. rewrite memcpy_in by lia. f_equal. lia.
  - exists h, (set_size_idx 255 (set_u FREE_NIL h)). rewrite Hp'. cbn. rewrite lookup_insert_eq. done.
  - intros q sz Hqp Hq. destruct Hfr as (_ & _ & Hfr). assert (Hq1 : delete p live !! q = Some sz) by by rewrite lookup_delete_ne.
    assert (Hqp' : q <> p') by (intros ->; by rewrite Hq1 in Hn'). split.
    + cbn. cbn in Hfr. rewrite Hfr by eauto. apply lookup_delete_ne. lia.
    + intros k Hk. cbn. apply memcpy_out. pose proof (other_bytes _ _ _ p' n q sz k HI2) as Ho.
      rewrite lookup_insert_eq, lookup_insert_ne in Ho by done. specialize (Ho eq_refl Hq1 Hqp' Hk). lia.
Qed.

End heap_ok.

Section realloc.
Context {H : Type} `{!JSMallocFunctions H, !HostLaws H} (garbage : Z -> JSMallocBlockHeader) (base : gmap Z Z).

(** The last step of a move: the data is copied and the old block freed. *)
Lemma realloc_move_spec live large (s : JSMallocContext H) p size n h :
  heap_inv base live large s -> no_empty s -> live !! p = Some size -> blocks s !! (p - 8) = Some h ->
  size <= block_size (b_size_idx h) - 8 -> 0 < n <= max_request ->
  exists s' r, realloc_move garbage s p (p - 8) h n = Some (s', r) /\
    match r with None => heap_ok base live s' /\ framed live s s' | Some p' => moved base live s p size s' p' n end.
Proof.
  intros HI Hne Hp Hh Hsz Hn. unfold realloc_move.
  destruct (malloc_spec garbage base live large s n HI Hne Hn) as (s1 & [p'|] & E1 & Hfr1 & Hne1 & Hr1); rewrite E1; bind.
  2:{ exists s1, None. split; [done|]. split; [|done]. split; [done|eauto]. }
  destruct Hr1 as (Hp' & large1 & HI1). assert (Hpp : p <> p') by (intros ->; by rewrite Hp in Hp').
  assert (Hh' : exists h', blocks s1 !! (p' - 8) = Some h').
  { destruct (live_block base _ _ _ p' n HI1) as [(a & ar & i & l & h' & _ & _ & -> & _ & _ & Hh' & _)|(_ & h' & Hh' & _)].
    - by rewrite lookup_insert_eq.
    - exists h'. rewrite <- Hh'. f_equal. unfold user_data, sizeof_JSMallocBlockHeader. lia.
    - eauto. }
  destruct Hh' as [h' Hh']. change sizeof_JSMallocBlockHeader with 8. rewrite Hh'. bind.
  set (h2 := mk_block (b_u h') (b_size_idx h') (b_gc_obj_type h) (b_mark h) (b_ref_count h)).
  set (len := if block_size (b_size_idx h) - 8 <? n then block_size (b_size_idx h) - 8 else n).
  set (s2 := set_bytes (memcpy p' p len (bytes s1)) (set_blocks (<[p' - 8 := h2]> (blocks s1)) s1)).
  assert (HI2 : heap_inv base (<[p' := n]> live) large1 s2).
  { apply heap_inv_bytes, heap_inv_links; [|done]. intros y hy Hy. destruct (decide (p' - 8 = y)) as [<-|Hy'].
    - exists h2. rewrite lookup_insert_eq. rewrite Hh' in Hy. by simplify_eq.
    - exists hy. by rewrite lookup_insert_ne. }
  destruct (free_spec base (<[p' := n]> live) large1 s2 p size HI2 Hne1) as (s3 & E3 & (F1 & F2 & F3) & Hne3 & large3 & HI3).
  { by rewrite lookup_insert_ne by done. }
  replace (__js_free (set_bytes _ _) _) with (__js_free s2 (Some p)) by done. rewrite E3. bind. exists s3, (Some p'). split; [done|].
  destruct Hfr1 as (G1 & G2 & G3). assert (Hlen : Z.min size n <= len) by (unfold len; destruct (Z.ltb_spec (block_size (b_size_idx h) - 8) n); lia).
  assert (Hlen' : len <= n) by (unfold len; destruct (Z.ltb_spec (block_size (b_size_idx h) - 8) n); lia).
  split_and!.
  - by right.
  - split; [done|]. exists large3. by rewrite <- delete_insert_ne.
  - rewrite F2. exact G2.
  - intros k Hk. rewrite F1. cbn. rewrite memcpy_in by lia. rewrite G1. f_equal. lia.
  - exists h, h2. split; [done|]. split; [|done]. rewrite F3 by (rewrite lookup_delete_ne, lookup_insert_eq; [eauto|done]). cbn. by rewrite lookup_insert_eq.
  - intros q sz Hqp Hq. assert (Hqp' : q <> p') by (intros ->; by rewrite Hq in Hp'). split.
    + rewrite F3 by (rewrite lookup_delete_ne, lookup_insert_ne; eauto). cbn. rewrite lookup_insert_ne by lia. apply G3. eauto.
    + intros k Hk. rewrite F1. cbn. rewrite memcpy_out; [by rewrite G1|].
      pose proof (other_bytes base _ _ _ p' n q sz k HI1) as Ho. rewrite lookup_insert_eq, lookup_insert_ne in Ho by done.
      specialize (Ho eq_refl Hq Hqp' Hk). lia.
Qed.

Lemma realloc_spec live (s : JSMallocContext H) p size n :
  heap_ok base live s -> live !! p = Some size -> 0 < n <= max_request ->
  exists s' r, __js_realloc garbage s (Some p) n = Some (s', r) /\
    match r with None => heap_ok base live s' /\ framed live s s' | Some p' => moved base live s p size s' p' n end.
Proof.
  intros (Hne & large & HI) Hp Hn. unfold __js_realloc. rewrite (proj2 (Z.eqb_neq n 0)) by lia. change sizeof_JSMallocBlockHeader with 8.
  destruct (live_block base _ _ _ _ _ HI Hp) as [(a & ar & i & l & h & Ha & Hi & Ep & Hok & Hil & Hh & Hu & Hx & Hsz)|(Hl & h & Hh & Hu)].
  - pose proof (arena_ok_wf _ _ _ _ _ Hok) as Hw. pose proof (ar_wf_bounds ar Hw).
    assert (Eb : p - 8 = block_at a ar i) by (rewrite Ep; unfold user_data, sizeof_JSMallocBlockHeader; lia).
    rewrite <- Eb in Hh. rewrite Hh. bind. rewrite (proj2 (Z.eqb_neq (b_u h) FREE_NIL)) by (unfold FREE_NIL; lia).
    assert (Es : block_size (b_size_idx h) = ar_size ar) by (unfold ar_size; by rewrite Hx).
    destruct (Z.leb_spec (total_size n) (block_size (b_size_idx h))) as [Hfit|_].
    + pose proof (total_size_bounds n Hn). exists s, (Some p). split; [done|]. split_and!; [by left| |done|done|exists h, h; done|done].
      rewrite insert_delete_eq, Ep. split; [done|]. exists large. eapply heap_inv_resize; [done|done|done|by rewrite <- Ep|lia].
    + apply (realloc_move_spec live large); try done. lia.
  - rewrite Hh. bind. rewrite Hu, Z.eqb_refl, (proj2 (Z.eqb_neq _ _)) by (by eapply zero_not_live).
    destruct (realloc_large_spec base live large s p size n h HI Hne Hp Hl Hh Hn) as (s' & r & -> & Hr). eauto.
Qed.
End realloc.
