(* ===== verification/ArenaHistory.v ===== *)
(** * Histories of the engine's allocator, over the invocation's own

    Any sequence of calls the engine may make keeps the heap invariant; the
    invocation's allocator (qjs/c/qjs_allocator.c), over any libc that keeps
    the contract of [malloc], is a host for it. *)
From S2P Require Import Prelude Sort Allocator Arena ArenaProps ArenaRealloc.

(** ** Calls *)
Inductive call :=
| Malloc (n : Z)
| Mallocz (n : Z)
| Free (p : option Z)
| Realloc (p : option Z) (n : Z).

Section history.
Context {H : Type} `{!JSMallocFunctions H, !HostLaws H} (garbage : Z -> JSMallocBlockHeader).

(** The blocks in use after [p] was returned for [n] bytes. *)
Definition note (n : Z) (r : option Z) (live : gmap Z Z) : gmap Z Z :=
  match r with Some p => if n =? 0 then live else <[p := n]> live | None => live end.
Definition drop (p : option Z) (live : gmap Z Z) : gmap Z Z :=
  match p with Some p => delete p live | None => live end.

Definition run_call (c : call) (s : JSMallocContext H) (live : gmap Z Z) : option (JSMallocContext H * gmap Z Z) :=
  match c with
  | Malloc n => '(s, r) ← __js_malloc garbage s n; Some (s, note n r live)
  | Mallocz n => '(s, r) ← js_mallocz_rt garbage s n; Some (s, note n r live)
  | Free p => s ← __js_free s p; Some (s, drop p live)
  | Realloc p n =>
      '(s, r) ← __js_realloc garbage s p n;
      Some (s, if n =? 0 then drop p live else match r with Some _ => note n r (drop p live) | None => live end)
  end.

Fixpoint run_calls (cs : list call) (s : JSMallocContext H) (live : gmap Z Z) : option (JSMallocContext H * gmap Z Z) :=
  match cs with
  | [] => Some (s, live)
  | c :: cs => '(s, live) ← run_call c s live; run_calls cs s live
  end.

(** The pointers the engine may pass: NULL, the zero-size block or a block in
    use; and the sizes. *)
Definition valid_ptr (s : JSMallocContext H) (live : gmap Z Z) (p : option Z) : Prop :=
  match p with None => True | Some p => p = user_data (zero_size_block s) \/ is_Some (live !! p) end.
Definition legal (c : call) (s : JSMallocContext H) (live : gmap Z Z) : Prop :=
  match c with
  | Malloc n | Mallocz n => 0 <= n <= max_request
  | Free p => valid_ptr s live p
  | Realloc p n => valid_ptr s live p /\ 0 <= n <= max_request
  end.
Fixpoint legal_run (cs : list call) (s : JSMallocContext H) (live : gmap Z Z) : Prop :=
  match cs with
  | [] => True
  | c :: cs => legal c s live /\ match run_call c s live with Some (s, live) => legal_run cs s live | None => True end
  end.

(** The block a call passes. *)
Definition argument (c : call) : option Z :=
  match c with Free p | Realloc p _ => p | _ => None end.

(** What a call does to the blocks it does not pass: nothing. *)
Definition keeps (live : gmap Z Z) (s : JSMallocContext H) (p : option Z) (live' : gmap Z Z) (s' : JSMallocContext H) : Prop :=
  forall q sz, live !! q = Some sz -> p <> Some q ->
    live' !! q = Some sz /\ forall k, 0 <= k < sz -> bytes s' (q + k) = bytes s (q + k).

Context (base : gmap Z Z).

Lemma framed_keeps live (s s' : JSMallocContext H) p live' :
  framed (drop p live) s s' -> (forall q sz, drop p live !! q = Some sz -> live' !! q = Some sz) -> keeps live s p live' s'.
Proof.
  intros (Hb & _ & _) Hl q sz Hq Hp. split; [|by rewrite Hb]. apply Hl. destruct p as [p|]; [|done].
  cbn. rewrite lookup_delete_ne; [done|congruence].
Qed.

(** The result of an allocation for a block that is not in use. *)
Definition call_ok (c : call) (s : JSMallocContext H) (live : gmap Z Z) : Prop :=
  exists s' live', run_call c s live = Some (s', live') /\ heap_ok base live' s' /\
    zero_size_block s' = zero_size_block s /\ keeps live s (argument c) live' s'.

Lemma malloc_any live (s : JSMallocContext H) n : heap_ok base live s -> 0 <= n <= max_request ->
  exists s' r, __js_malloc garbage s n = Some (s', r) /\ heap_ok base (note n r live) s' /\ framed live s s' /\
    match r with Some p => n = 0 \/ live !! p = None | None => True end.
Proof.
  intros [Hne [large HI]] Hn. destruct (decide (n = 0)) as [->|Hn0].
  - exists s, (Some (user_data (zero_size_block s))). split; [done|]. split; [by split; [|exists large]|]. split; [done|]. tauto.
  - destruct (malloc_spec garbage base live large s n HI Hne ltac:(lia)) as (s' & r & E & Hf & Hne' & Hr).
    exists s', r. split; [done|]. unfold note. rewrite (proj2 (Z.eqb_neq n 0)) by done.
    destruct r as [p|]; [destruct Hr as [Hp [l2 ?]]|]; (split; [by split; [|eexists]|]); [split; [done|tauto]|done].
Qed.

Lemma note_keeps n r (live : gmap Z Z) q sz :
  match r with Some p => n = 0 \/ live !! p = None | None => True end -> live !! q = Some sz -> note n r live !! q = Some sz.
Proof.
  unfold note. intros Hr Hq. destruct r as [p|]; [|done]. destruct (Z.eqb_spec n 0); [done|]. destruct Hr as [?|Hp]; [done|].
  rewrite lookup_insert_ne; [done|]. intros ->. by rewrite Hp in Hq.
Qed.

Lemma malloc_call live (s : JSMallocContext H) n : heap_ok base live s -> 0 <= n <= max_request -> call_ok (Malloc n) s live.
Proof.
  intros Hok Hn. destruct (malloc_any live s n Hok Hn) as (s' & r & E & Hok' & Hf & Hr). exists s', (note n r live).
  unfold run_call. rewrite E. bind. split_and!; [done|done|by destruct Hf as (_ & ? & _)|].
  apply framed_keeps; [done|]. intros q sz. by apply note_keeps.
Qed.

Lemma free_call live (s : JSMallocContext H) p : heap_ok base live s -> valid_ptr s live p -> call_ok (Free p) s live.
Proof.
  intros [Hne [large HI]] Hp. unfold call_ok, run_call. destruct p as [p|].
  2:{ exists s, live. split_and!; [done|by split; [|exists large]|done|by apply framed_keeps]. }
  cbn [valid_ptr] in Hp. destruct (decide (is_Some (live !! p))) as [[sz Hl]|Hl].
  - destruct (free_spec base live large s p sz HI Hne Hl) as (s' & E & Hf & Hne' & large' & HI'). exists s', (delete p live).
    rewrite E. bind. split_and!; [done|by split; [|exists large']|by destruct Hf as (_ & ? & _)|by apply framed_keeps].
  - destruct Hp as [->|?]; [|done]. exists s, live.
    unfold __js_free. rewrite user_data_sub. destruct (hi_zero _ _ _ _ HI) as (a & n & h & _ & _ & _ & Hh & Hu).
    rewrite Hh. bind. rewrite Hu, !Z.eqb_refl. bind. cbn [drop].
    rewrite delete_id by (by apply eq_None_not_Some). split_and!; [done|by split; [|exists large]|done|].
    intros q k Hq _. done.
Qed.

Lemma realloc_call live (s : JSMallocContext H) p n :
  heap_ok base live s -> valid_ptr s live p -> 0 <= n <= max_request -> call_ok (Realloc p n) s live.
Proof.
  intros Hok Hp Hn. destruct p as [p|].
  2:{ destruct (malloc_call live s n Hok Hn) as (s' & live' & E & ?). exists s', live'. split; [|done].
      rewrite <- E. unfold run_call, __js_realloc, drop. destruct (__js_malloc garbage s n) as [[s1 [q|]]|]; bind; [|by destruct (n =? 0)|done].
      unfold note. by destruct (n =? 0). }
  destruct (Z.eqb_spec n 0) as [->|Hn0].
  { destruct (free_call live s (Some p) Hok Hp) as (s' & live' & E & ?). exists s', live'. split; [|done].
    rewrite <- E. unfold run_call, __js_realloc. destruct (__js_free s (Some p)); done. }
  cbn [valid_ptr] in Hp. unfold call_ok, run_call. rewrite (proj2 (Z.eqb_neq n 0)) by done.
  destruct (decide (is_Some (live !! p))) as [[sz Hl]|Hl].
  - destruct (realloc_spec garbage base live s p sz n Hok Hl ltac:(lia)) as (s' & [p'|] & E & Hr); rewrite E; bind; eexists _, _; (split; [done|]).
    + destruct Hr as (Hpp & Hok' & Hz & _ & _ & Hoth). unfold note. rewrite (proj2 (Z.eqb_neq n 0)) by done. split_and!; [done|done|].
      intros q k Hq Hne. assert (Hqp : q <> p) by (intros ->; by apply Hne). destruct (Hoth q k Hqp Hq) as [_ Hb]. split; [|done].
      cbn [drop]. rewrite lookup_insert_ne by (intros ->; destruct Hpp as [->|E']; [done|by rewrite E' in Hq]).
      by rewrite lookup_delete_ne by congruence.
    + destruct Hr as (Hok' & Hf). split_and!; [done|by destruct Hf as (_ & ? & _)|]. destruct Hf as (Hb & _). intros q k Hq _. by rewrite Hb.
  - destruct Hp as [->|?]; [|done]. assert (Ed : drop (Some (user_data (zero_size_block s))) live = live) by (by apply delete_id, eq_None_not_Some).
    destruct (malloc_any live s n Hok Hn) as (s' & r & E & Hok' & Hf & Hr). unfold __js_realloc. rewrite (proj2 (Z.eqb_neq n 0)) by done.
    destruct Hok as [Hne [large HI]]. destruct (hi_zero _ _ _ _ HI) as (a & k & h & _ & _ & _ & Hh & Hu).
    rewrite user_data_sub, Hh. bind. rewrite Hu, !Z.eqb_refl, E. bind. exists s', (note n r live). rewrite Ed.
    split_and!; [by destruct r|done|by destruct Hf as (_ & ? & _)|]. cbn [argument]. apply framed_keeps; rewrite Ed; [done|]. intros q sz. by apply note_keeps.
Qed.

Lemma mallocz_call live (s : JSMallocContext H) n : heap_ok base live s -> 0 <= n <= max_request -> call_ok (Mallocz n) s live.
Proof.
  intros Hok Hn. destruct (malloc_any live s n Hok Hn) as (s' & r & E & Hok' & Hf & Hr). unfold call_ok, run_call, js_mallocz_rt. rewrite E. bind.
  destruct Hf as (Hb & Hz & Hh). destruct r as [p|].
  - eexists _, _. split; [done|]. destruct Hok' as (Hne' & l' & HI'). split; [split; [done|]; exists l'; by apply heap_inv_bytes|].
    split; [done|]. intros q sz Hq _. split; [by apply note_keeps|]. intros k Hk. cbn. rewrite Hb. unfold memset.
    destruct (decide (n = 0)) as [->|Hn0]; [destruct (Z.leb_spec p (q + k)), (Z.ltb_spec (q + k) (p + 0)); done || lia|].
    destruct Hr as [?|Hp]; [done|]. assert (Hqp : q <> p) by (intros ->; by rewrite Hq in Hp).
    unfold note in HI'. rewrite (proj2 (Z.eqb_neq n 0)) in HI' by done.
    pose proof (other_bytes base _ _ _ p n q sz k HI') as Ho. rewrite lookup_insert_eq, lookup_insert_ne in Ho by done.
    specialize (Ho eq_refl Hq Hqp Hk). destruct (Z.leb_spec p (q + k)), (Z.ltb_spec (q + k) (p + n)); done || lia.
  - eexists _, _. split; [done|]. split; [done|]. split; [done|]. intros q sz Hq _. by rewrite Hb.
Qed.

Lemma legal_call_ok c live (s : JSMallocContext H) : heap_ok base live s -> legal c s live -> call_ok c s live.
Proof.
  intros Hok. destruct c as [n|n|p|p n]; cbn [legal]; [by apply malloc_call|by apply mallocz_call|by apply free_call|].
  intros [? ?]. by apply realloc_call.
Qed.

Lemma legal_run_ok cs live (s : JSMallocContext H) : heap_ok base live s -> legal_run cs s live ->
  exists s' live', run_calls cs s live = Some (s', live') /\ heap_ok base live' s' /\
    forall q sz, live !! q = Some sz -> Forall (fun c => argument c <> Some q) cs ->
      live' !! q = Some sz /\ forall k, 0 <= k < sz -> bytes s' (q + k) = bytes s (q + k).
Proof.
  revert live s. induction cs as [|c cs IH]; intros live s Hok; cbn [legal_run run_calls].
  { intros _. exists s, live. done. }
  intros [Hc Hr]. destruct (legal_call_ok c live s Hok Hc) as (s1 & live1 & E & Hok1 & _ & Hk). rewrite E in Hr |- *. bind.
  destruct (IH live1 s1 Hok1 Hr) as (s2 & live2 & E2 & Hok2 & Hk2). exists s2, live2. split; [done|]. split; [done|].
  intros q sz Hq [Ha Hcs]%Forall_cons. destruct (Hk q sz Hq Ha) as [Hq1 Hb1]. destruct (Hk2 q sz Hq1 Hcs) as [Hq2 Hb2].
  split; [done|]. intros k Hk'. by rewrite Hb2, Hb1.
Qed.

(** With nothing in use the host has everything back. *)
Lemma heap_ok_empty (s : JSMallocContext H) : heap_ok base ∅ s -> mf_regions (host s) = base.
Proof.
  intros [Hne [large HI]].
  assert (Hna : forall a, arenas s !! a = None).
  { intros a. destruct (arenas s !! a) as [ar|] eqn:E; [|done]. exfalso. pose proof (Hne a ar E).
    destruct (hi_arena _ _ _ _ HI a ar E) as [l Hok]. pose proof (arena_ok_wf _ _ _ _ _ Hok) as Hw. pose proof (ar_wf_bounds ar Hw).
    assert (Hall : forall i, 0 <= i < ar_n_blocks ar -> i ∈ l).
    { intros i Hi. destruct (decide (i ∈ l)) as [|Hil]; [done|]. destruct (ao_live _ _ _ _ _ Hok i Hi Hil) as (? & ? & _ & _ & E' & _).
      by rewrite lookup_empty in E'. }
    assert (Hsub : seqZ 0 (ar_n_blocks ar) ⊆+ l).
    { apply NoDup_submseteq; [apply NoDup_seqZ|]. intros i Hi. apply Hall. apply elem_of_seqZ in Hi. lia. }
    apply submseteq_length in Hsub. rewrite length_seqZ in Hsub. pose proof (ao_used _ _ _ _ _ Hok). lia. }
  assert (Hnl : forall b, large !! b = None).
  { intros b. destruct (large !! b) as [n|] eqn:E; [|done]. exfalso. destruct (hi_large _ _ _ _ HI b n E) as (? & ? & _ & _ & E' & _).
    by rewrite lookup_empty in E'. }
  apply map_eq. intros a. destruct (base !! a) as [n|] eqn:E; [by apply (hi_base _ _ _ _ HI)|].
  destruct (mf_regions (host s) !! a) as [n|] eqn:E'; [|done]. exfalso.
  destruct (hi_owned _ _ _ _ HI a n E') as [E2|[[? E2]|E2]]; [by rewrite E in E2|by rewrite Hna in E2|by rewrite Hnl in E2].
Qed.
End history.

Section init.
Context {H : Type} `{!JSMallocFunctions H}.

(** The memory that holds the runtime, with its zero-size block at [z]. *)
Definition runtime_in (z : Z) (m : gmap Z Z) : Prop :=
  regions_ok m /\ exists a n, m !! a = Some n /\ a <= z /\ z + 8 <= a + n.

Lemma init_ok z f (h : H) : runtime_in z (mf_regions h) -> heap_ok (mf_regions h) ∅ (js_malloc_init z f h).
Proof.
  intros (Hr & a & n & Ha & H1 & H2). split; [by intros ? ?|]. exists ∅.
  assert (Hl : forall Q : nat -> Z -> Prop, (forall k b, ~ Q k b) -> lists_ok Q (replicate JS_MALLOC_BLOCK_SIZE_COUNT [])).
  { intros Q HQ. split; [by rewrite length_replicate|]. intros k l [-> _]%lookup_replicate. split; [apply NoDup_nil_2|].
    intros b. split; [by intros ?%not_elem_of_nil|intros ?; by destruct (HQ k b)]. }
  split; cbn; try done.
  - intros b k Hb. tauto.
  - exists a, n, (mk_block FREE_NIL 0 0 false 0). rewrite lookup_singleton_eq. done.
  - apply Hl. by intros k b (? & ? & _).
  - apply Hl. by intros k b (? & ? & _).
Qed.
End init.

Section claims.
Context {H : Type} `{!JSMallocFunctions H, !HostLaws H} (garbage : Z -> JSMallocBlockHeader).

(** C17: the engine's allocator is safe in every history.  From the initial
    state, every sequence of calls with valid pointers and sizes up to 2^64-16
    runs without reading a structure that is not there, whatever the host's
    failures; the blocks in use are 8-byte aligned, inside memory obtained
    from the host, disjoint from each other including their headers; and when
    no block is in use the host has all of its memory back. *)
Theorem heap_history_safe z f (h : H) cs : runtime_in z (mf_regions h) -> legal_run garbage cs (js_malloc_init z f h) ∅ ->
  exists s live, run_calls garbage cs (js_malloc_init z f h) ∅ = Some (s, live) /\
    (forall p n, live !! p = Some n -> p mod 8 = 0 /\ 0 < n /\
      exists b k, mf_regions (host s) !! b = Some k /\ mf_regions h !! b = None /\ b <= p - 8 /\ p + n <= b + k) /\
    (forall p n q k, live !! p = Some n -> live !! q = Some k -> p <> q -> p + n <= q - 8 \/ q + k <= p - 8) /\
    (live = ∅ -> mf_regions (host s) = mf_regions h).
Proof.
  intros Hz Hl. destruct (legal_run_ok garbage _ cs ∅ _ (init_ok z f h Hz) Hl) as (s & live & E & Hok & _). exists s, live.
  split; [done|]. destruct Hok as (Hne & large & HI). split_and!.
  - intros p n Hp. destruct (live_region _ _ _ _ _ _ HI Hp) as (b & k & Hb & ? & ? & ? & ? & ?). eauto 10.
  - intros p n q k Hp Hq. by eapply live_disjoint.
  - intros ->. apply (heap_ok_empty garbage). split; [done|by exists large].
Qed.

(** C18: after any such history, reallocating a block in use either fails and
    leaves every block as it was, or gives a block of the new size (the same or
    one that was not in use) that holds the old bytes up to the smaller of the
    two sizes and the old GC data, every other block keeping its header and
    its bytes. *)
Theorem realloc_keeps_contents z f (h : H) cs s live p size n :
  runtime_in z (mf_regions h) -> legal_run garbage cs (js_malloc_init z f h) ∅ ->
  run_calls garbage cs (js_malloc_init z f h) ∅ = Some (s, live) -> live !! p = Some size -> 0 < n <= max_request ->
  exists s' r, __js_realloc garbage s (Some p) n = Some (s', r) /\
    match r with
    | None => heap_ok (mf_regions h) live s' /\ framed live s s'
    | Some p' => moved (mf_regions h) live s p size s' p' n
    end.
Proof.
  intros Hz Hl E Hp Hn. destruct (legal_run_ok garbage _ cs ∅ _ (init_ok z f h Hz) Hl) as (s' & live' & E' & Hok & _).
  rewrite E in E'. simplify_eq. by apply (realloc_spec garbage).
Qed.

(** The usable size covers the request wherever the host does not hide it. *)
Theorem usable_size_covers base live (s : JSMallocContext H) p size :
  heap_ok base live s -> live !! p = Some size -> mf_malloc_usable_size = None ->
  exists u, __js_malloc_usable_size s (Some p) = Some u /\ (u = 0 \/ size <= u).
Proof.
  intros (_ & large & HI) Hp Hnone. unfold __js_malloc_usable_size. change sizeof_JSMallocBlockHeader with 8.
  destruct (live_block base _ _ _ _ _ HI Hp) as [(a & ar & i & l & h & Ha & Hi & Ep & Hok & Hil & Hh & Hu & Hx & Hsz)|(Hl & h & Hh & Hu)].
  - pose proof (arena_ok_wf _ _ _ _ _ Hok) as Hw. pose proof (ar_wf_bounds ar Hw).
    replace (p - 8) with (block_at a ar i) by (rewrite Ep; unfold user_data, sizeof_JSMallocBlockHeader; lia).
    rewrite Hh. bind. rewrite (proj2 (Z.eqb_neq (b_u h) FREE_NIL)) by (unfold FREE_NIL; lia). eexists. split; [done|].
    right. rewrite Hx. exact Hsz.
  - rewrite Hh. bind. rewrite Hu, Z.eqb_refl, (proj2 (Z.eqb_neq _ _)) by (by eapply zero_not_live). rewrite Hnone. eauto.
Qed.

(** A request above 2^64-16 wraps around when it is rounded: it is served as a
    request for one byte. *)
Theorem malloc_huge_undersized (s : JSMallocContext H) size :
  max_request < size < 2 ^ 64 -> __js_malloc garbage s size = __js_malloc garbage s 1.
Proof.
  unfold max_request. intros Hs. unfold __js_malloc. rewrite (proj2 (Z.eqb_neq size 0)) by lia.
  assert (Ht : total_size size <= 8 /\ 0 <= total_size size).
  { unfold total_size, JS_MALLOC_ALIGN, sizeof_JSMallocBlockHeader. replace (8 - 1) with 7 by lia. rewrite align8.
    replace (size + 8 - 1) with (size + 7) by lia. unfold u64. destruct (decide (size + 7 < 2 ^ 64)).
    - rewrite (Z.mod_small (size + 7)) by lia. replace (8 * ((size + 7) / 8) + 8) with (2 ^ 64) by mod_lia. vm_compute. split; discriminate.
    - replace ((size + 7) mod 2 ^ 64) with (size + 7 - 2 ^ 64) by mod_lia. replace ((size + 7 - 2 ^ 64) / 8) with 0 by mod_lia.
      vm_compute. split; discriminate. }
  change (total_size 1) with 16. unfold JS_MALLOC_MAX_SMALL_SIZE. rewrite (proj2 (Z.leb_le (total_size size) 512)) by lia.
  replace (get_block_size_index (total_size size)) with 0; [done|]. unfold get_block_size_index. by rewrite (proj2 (Z.leb_le (total_size size) 16)) by lia.
Qed.
End claims.

(** ** The host of an invocation *)

(** libc's allocator, and what its documentation promises. *)
Class Libc (L : Type) := {
  libc_malloc : Z -> L -> L * option Z;
  libc_free : Z -> L -> L;
  libc_realloc : Z -> Z -> L -> L * option Z;
  libc_regions : L -> gmap Z Z;
}.
Class LibcLaws (L : Type) `{!Libc L} : Prop := {
  libc_malloc_ok n l l' a : 0 < n -> libc_malloc n l = (l', Some a) ->
    fresh_region (libc_regions l) a n /\ libc_regions l' = <[a := n]> (libc_regions l);
  libc_malloc_null n l l' : 0 < n -> libc_malloc n l = (l', None) -> libc_regions l' = libc_regions l;
  libc_free_ok a l k : libc_regions l !! a = Some k -> libc_regions (libc_free a l) = delete a (libc_regions l);
  libc_realloc_ok a n l l' b k : 0 < n -> libc_regions l !! a = Some k -> libc_realloc a n l = (l', Some b) ->
    fresh_region (delete a (libc_regions l)) b n /\ libc_regions l' = <[b := n]> (delete a (libc_regions l));
  libc_realloc_null a n l l' k : 0 < n -> libc_regions l !! a = Some k -> libc_realloc a n l = (l', None) ->
    libc_regions l' = libc_regions l;
}.

Definition nonzero (n : Z) : Z := if n =? 0 then 1 else n.

(** The table [mlqjs_alloc_functions]: each entry calls libc and updates the
    counters when it succeeds; it has no [js_malloc_usable_size]. *)
#[export] Instance mlqjs_alloc_functions {L} `{!Libc L} : JSMallocFunctions (JSMallocState * L) := {|
  mf_malloc n h :=
    let '(l, r) := libc_malloc (nonzero n) h.2 in
    (((mlqjs_malloc (bool_decide (is_Some r)) h.1 n).1, l), r);
  mf_free a h := (mlqjs_free h.1 (Some a), libc_free a h.2);
  mf_realloc a n h :=
    let '(l, r) := libc_realloc a (nonzero n) h.2 in
    (((mlqjs_realloc (bool_decide (is_Some r)) h.1 (Some a) n).1, l), r);
  mf_malloc_usable_size := None;
  mf_regions h := libc_regions h.2;
|}.

#[export] Instance mlqjs_host_laws {L} `{!Libc L, !LibcLaws L} : HostLaws (JSMallocState * L).
Proof.
  assert (Hnz : forall n, 0 < n -> nonzero n = n) by (intros n Hn; unfold nonzero; by rewrite (proj2 (Z.eqb_neq n 0)) by lia).
  split; cbn.
  - intros n h h' a Hn. rewrite Hnz by done. destruct (libc_malloc n h.2) as [l r] eqn:E. intros [= <- ->]. by eapply libc_malloc_ok.
  - intros n h h' Hn. rewrite Hnz by done. destruct (libc_malloc n h.2) as [l r] eqn:E. intros [= <- ->]. by eapply libc_malloc_null.
  - intros a h k. apply libc_free_ok.
  - intros a n h h' b k Hn Ha. rewrite Hnz by done. destruct (libc_realloc a n h.2) as [l r] eqn:E. intros [= <- ->]. by eapply libc_realloc_ok.
  - intros a n h h' k Hn Ha. rewrite Hnz by done. destruct (libc_realloc a n h.2) as [l r] eqn:E. intros [= <- ->]. by eapply libc_realloc_null.
Qed.

(** ** An example

    A libc that places each region after the others, up to 128 TiB. *)
Definition region_end (m : gmap Z Z) : Z := foldr (fun kv e => Z.max (kv.1 + kv.2) e) 0 (map_to_list m).
Definition place (m : gmap Z Z) (n : Z) : option Z :=
  let a := 16 * (region_end m / 16 + 1) in if a + n <=? 2 ^ 47 then Some a else None.

#[export] Instance example_libc : Libc (gmap Z Z) := {|
  libc_malloc n m := match place m n with Some a => (<[a := n]> m, Some a) | None => (m, None) end;
  libc_free a m := delete a m;
  libc_realloc a n m := match place (delete a m) n with Some b => (<[b := n]> (delete a m), Some b) | None => (m, None) end;
  libc_regions m := m;
|}.

Lemma region_end_bound (m : gmap Z Z) b k : m !! b = Some k -> b + k <= region_end m.
Proof.
  rewrite <- elem_of_map_to_list. unfold region_end. induction (map_to_list m) as [|[c l] kvs IH]; [by intros ?%not_elem_of_nil|].
  intros [[= <- <-]|Hb]%elem_of_cons; cbn; [lia|]. specialize (IH Hb). lia.
Qed.
Lemma region_end_nonneg (m : gmap Z Z) : 0 <= region_end m.
Proof. unfold region_end. induction (map_to_list m); cbn; lia. Qed.

Lemma place_fresh m n a : 0 < n -> place m n = Some a -> fresh_region m a n.
Proof.
  unfold place. intros Hn. destruct (Z.leb_spec (16 * (region_end m / 16 + 1) + n) (2 ^ 47)) as [Hle|]; [|done]. intros [= <-].
  pose proof (region_end_nonneg m). split_and!; [mod_lia|mod_lia|lia|]. intros b k Hb. pose proof (region_end_bound m b k Hb). right. mod_lia.
Qed.

#[export] Instance example_libc_laws : LibcLaws (gmap Z Z).
Proof.
  split; cbn.
  - intros n l l' a Hn. destruct (place l n) as [b|] eqn:E; [|done]. intros [= <- <-]. split; [by apply place_fresh|done].
  - intros n l l' Hn. destruct (place l n) as [b|] eqn:E; [done|]. by intros [= <-].
  - done.
  - intros a n l l' b k Hn Ha. destruct (place (delete a l) n) as [c|] eqn:E; [|done]. intros [= <- <-]. split; [by apply place_fresh|done].
  - intros a n l l' k Hn Ha. destruct (place (delete a l) n) as [b|] eqn:E; [done|]. by intros [= <-].
Qed.

(** The runtime in a region of 2,000 bytes at 16, with its zero-size block at
    48, and a history with small and large blocks, a move and a failure. *)
Definition example_host : JSMallocState * gmap Z Z := (mlqjs_init_malloc, {[16 := 2000]}).
Definition example_garbage (b : Z) : JSMallocBlockHeader := mk_block (b mod 7) 3 1 true 5.
Definition example_calls : list call :=
  [Malloc 100; Malloc 3; Mallocz 5000; Realloc (Some 2080) 600; Malloc 0; Free (Some 56); Malloc (2 ^ 50); Realloc None 24].

Example example_blocks :
  (fun sl => map_to_list sl.2) <$> run_calls example_garbage example_calls (js_malloc_init 48 (fun _ => 0) example_host) ∅ =
  Some [(10216, 5000); (15240, 600); (6160, 3); (15904, 24)].
Proof. vm_compute. reflexivity. Qed.

Lemma example_legal : legal_run example_garbage example_calls (js_malloc_init 48 (fun _ => 0) example_host) ∅.
Proof.
  vm_compute. repeat match goal with
    | |- _ /\ _ => split
    | |- True => exact I
    | |- _ -> False => discriminate
    | |- _ = _ \/ _ => first [left; reflexivity | right; eexists; reflexivity]
    end.
Qed.

Lemma example_runtime : runtime_in 48 (mf_regions example_host).
Proof.
  change (mf_regions example_host) with ({[16 := 2000]} : gmap Z Z).
  split; [|exists 16, 2000; split; [reflexivity|lia]]. split.
  - intros a n [<- <-]%lookup_singleton_Some. split; [lia|]. split; [reflexivity|lia].
  - intros a n b k [<- _]%lookup_singleton_Some [<- _]%lookup_singleton_Some. done.
Qed.

Lemma heap_history_safe_witness : exists s live,
  run_calls example_garbage example_calls (js_malloc_init 48 (fun _ => 0) example_host) ∅ = Some (s, live) /\
  forall p n q k, live !! p = Some n -> live !! q = Some k -> p <> q -> p + n <= q - 8 \/ q + k <= p - 8.
Proof.
  destruct (heap_history_safe example_garbage 48 (fun _ => 0) example_host example_calls example_runtime example_legal)
    as (s & live & E & _ & Hd & _).
  exists s, live. split; [exact E|exact Hd].
Defined.

(** The state after the example, as the model computes it. *)
Definition example_state : JSMallocContext (JSMallocState * gmap Z Z) * gmap Z Z :=
  default (js_malloc_init 48 (fun _ => 0) example_host, ∅)
    (run_calls example_garbage example_calls (js_malloc_init 48 (fun _ => 0) example_host) ∅).

Lemma example_runs :
  run_calls example_garbage example_calls (js_malloc_init 48 (fun _ => 0) example_host) ∅ = Some (example_state.1, example_state.2).
Proof.
  destruct (legal_run_ok example_garbage _ _ _ _ (init_ok 48 (fun _ => 0) example_host example_runtime) example_legal) as (s & live & E & _).
  unfold example_state. rewrite E. reflexivity.
Qed.

Lemma realloc_keeps_contents_witness : example_state.2 !! 6160 = Some 3 /\ exists s' r,
  __js_realloc example_garbage example_state.1 (Some 6160) 40 = Some (s', r).
Proof.
  assert (Hp : example_state.2 !! 6160 = Some 3) by (vm_compute; reflexivity). split; [exact Hp|].
  destruct (realloc_keeps_contents example_garbage 48 (fun _ => 0) example_host example_calls example_state.1 example_state.2 6160 3 40
    example_runtime example_legal example_runs Hp) as (s' & r & E & _); [unfold max_request; lia|].
  exists s', r. exact E.
Defined.
