(* ===== verification/Date.v ===== *)
(** * Dates (quickjs.c)

    The calendar arithmetic behind Date: time values to fields and back, the
    printed forms, and the two parsers of [Date.parse].  A time value is an
    integer-valued double: [None] is NaN, and the double operations on integers
    round to 53 bits ([rnd]).  The text being parsed is the byte buffer with its
    terminating NUL; a read outside the buffer is a fault.  In the parsers the
    outer [None] is such a fault (or an exhausted loop bound), an inner [None]
    the return value FALSE. *)
From S2P Require Import Prelude Sort Digits.

(** ** Integer-valued doubles *)
Definition round_half_even (num den : Z) : Z :=
  let q := num / den in
  let r := num mod den in
  if 2 * r <? den then q else if den <? 2 * r then q + 1 else if Z.even q then q else q + 1.

(** The double nearest to an integer; [None] when it is infinite. *)
Definition rnd (z : Z) : option Z :=
  if Z.abs z <? 2 ^ 53 then Some z
  else
    let e := Z.log2 (Z.abs z) - 52 in
    let r := round_half_even z (2 ^ e) * 2 ^ e in
    if 2 ^ 1024 <=? Z.abs r then None else Some r.
Definition dadd (a b : option Z) : option Z := a ← a; b ← b; rnd (a + b).
Definition dmul (a : option Z) (c : Z) : option Z := a ← a; rnd (a * c).

(** [floor(m / d)], with the quotient rounded to a double. *)
Definition floor_quot (m d : Z) : Z :=
  if Z.abs m <? d then m / d
  else
    let e := Z.log2 (Z.abs m / d) - 52 in
    if 0 <=? e then round_half_even m (d * 2 ^ e) * 2 ^ e
    else round_half_even (m * 2 ^ (- e)) d / 2 ^ (- e).

(** ** The calendar *)
Definition math_mod (a b : Z) : Z := let m := Z.rem a b in m + (if m <? 0 then b else 0).
Definition floor_div (a b : Z) : Z := let m := math_mod a b in Z.quot (a - m) b.

Definition days_from_year (y : Z) : Z :=
  365 * (y - 1970) + floor_div (y - 1969) 4 - floor_div (y - 1901) 100 + floor_div (y - 1601) 400.

Definition is0 (x : Z) : Z := if x =? 0 then 1 else 0.
Definition days_in_year (y : Z) : Z := 365 + is0 (Z.rem y 4) - is0 (Z.rem y 100) + is0 (Z.rem y 400).

(** The loop of [year_from_days]: the year and the day in it.  The first
    guess is off by one at most; the bound of four rounds is never reached. *)
Fixpoint year_loop (fuel : nat) (d y : Z) : option (Z * Z) :=
  match fuel with
  | O => None
  | S fuel =>
      let d1 := d - days_from_year y in
      if d1 <? 0 then year_loop fuel d (y - 1)
      else
        let nd := days_in_year y in
        if d1 <? nd then Some (y, d1) else year_loop fuel d (y + 1)
  end.
Definition year_from_days (d : Z) : option (Z * Z) := year_loop 4 d (floor_div (d * 10000) 3652425 + 1970).

Definition month_days : list Z := [31; 28; 31; 30; 31; 30; 31; 31; 30; 31; 30; 31].
Definition month_length (y : Z) (i : nat) : Z :=
  default 0 (month_days !! i) + (if (i =? 1)%nat then days_in_year y - 365 else 0).

(** Month and day of the month, from month [i] on. *)
Fixpoint month_loop (todo : nat) (i : nat) (y days : Z) : nat * Z :=
  match todo with
  | O => (i, days)
  | S todo => if days <? month_length y i then (i, days) else month_loop todo (S i) y (days - month_length y i)
  end.

(** Days before month [mi]. *)
Fixpoint month_start (mi : nat) (y : Z) : Z :=
  match mi with O => 0 | S i => month_start i y + month_length y i end.

Section timezone.
(** The offset of local time from UTC in minutes, from the system. *)
Context (getTimezoneOffset : Z -> Z).

(** The outer [None] is the bound of [year_loop], the inner one FALSE. *)
Definition get_date_fields (dval : option Z) (is_local force : bool) : option (option (list Z)) :=
  match dval, force with
  | None, false => Some None
  | _, _ =>
      let '(d, tz) :=
        match dval with
        | None => (0, 0)
        | Some d => if is_local then (d + - getTimezoneOffset d * 60000, - getTimezoneOffset d) else (d, 0)
        end in
      let h := math_mod d 86400000 in
      let days := Z.quot (d - h) 86400000 in
      let ms := Z.rem h 1000 in
      let h := Z.quot (h - ms) 1000 in
      let s := Z.rem h 60 in
      let h := Z.quot (h - s) 60 in
      let m := Z.rem h 60 in
      let h := Z.quot (h - m) 60 in
      let wd := math_mod (days + 4) 7 in
      '(y, days) ← year_from_days days;
      let '(i, days) := month_loop 11 0 y days in
      Some (Some [y; Z.of_nat i; days + 1; h; m; s; ms; wd; tz])
  end.

Definition time_clip (t : Z) : option Z :=
  if (-8640000000000000 <=? t) && (t <=? 8640000000000000) then Some t else None.

Definition field (fields : list Z) (i : nat) : Z := default 0 (fields !! i).

Definition set_date_fields (fields : list Z) (is_local : bool) : option Z :=
  let y := field fields 0 in
  let m := field fields 1 in
  let dt := field fields 2 in
  ym ← dadd (Some y) (Some (floor_quot m 12));
  let mn := Z.rem m 12 in
  let mn := if mn <? 0 then mn + 12 else mn in
  if (ym <? -271821) || (275760 <? ym) then None
  else
    let days := days_from_year ym + month_start (Z.to_nat mn) ym in
    let day := dadd (dadd (Some days) (Some dt)) (Some (-1)) in
    let time := dmul (Some (field fields 3)) 3600000 in
    let time := dadd time (dmul (Some (field fields 4)) 60000) in
    let time := dadd time (dmul (Some (field fields 5)) 1000) in
    let time := dadd time (Some (field fields 6)) in
    tv ← dadd (dmul day 86400000) time;
    if is_local then
      let ti := if tv <? - 2 ^ 63 then - 2 ^ 63 else if 2 ^ 63 <=? tv then 2 ^ 63 - 1 else tv in
      tv ← dadd (Some tv) (Some (getTimezoneOffset ti * 60000));
      time_clip tv
    else time_clip tv.
End timezone.

(** ** Printed forms *)

(** printf's [%0*d], and [%+0*d] with [plus]. *)
Definition pad_int (plus : bool) (width : nat) (z : Z) : list Z :=
  let ds := Z.add ch_0 <$> to_digits 10 (Z.abs z) in
  let sign := if z <? 0 then [ch_minus] else if plus then [ch_plus] else [] in
  sign ++ replicate (width - length sign - length ds) ch_0 ++ ds.

Definition month_names : list Z := bytes_of_string "JanFebMarAprMayJunJulAugSepOctNovDec".
Definition day_names : list Z := bytes_of_string "SunMonTueWedThuFriSat".
(** [%.3s] of the table at [3 * i]. *)
Definition name3 (names : list Z) (i : Z) : list Z := take 3 (drop (Z.to_nat (i * 3)) names).

(** [snprintf] into the rest of [char buf[64]]: [None] when the text does not
    fit, as [pos] would then point past what was written. *)
Definition emit (buf text : list Z) : option (list Z) :=
  if (length buf + length text <? 64)%nat then Some (buf ++ text) else None.

Definition year_width (y : Z) : nat := if y <? 0 then 5 else 4.

Definition date_part (fmt part : Z) (fields : list Z) (buf : list Z) : option (list Z) :=
  let y := field fields 0 in
  let mon := field fields 1 in
  let d := field fields 2 in
  let wd := field fields 7 in
  let sp := bytes_of_string " " in
  if fmt =? 0 then
    emit buf (name3 day_names wd ++ bytes_of_string ", " ++ pad_int false 2 d ++ sp ++ name3 month_names mon ++ sp
      ++ pad_int false (year_width y) y ++ sp)
  else if fmt =? 1 then
    buf ← emit buf (name3 day_names wd ++ sp ++ name3 month_names mon ++ sp ++ pad_int false 2 d ++ sp
      ++ pad_int false (year_width y) y);
    if part =? 3 then emit buf sp else Some buf
  else if fmt =? 2 then
    buf ← emit buf (if (0 <=? y) && (y <=? 9999) then pad_int false 4 y else pad_int true 7 y);
    emit buf (bytes_of_string "-" ++ pad_int false 2 (mon + 1) ++ bytes_of_string "-" ++ pad_int false 2 d ++ bytes_of_string "T")
  else if fmt =? 3 then
    buf ← emit buf (pad_int false 2 (mon + 1) ++ bytes_of_string "/" ++ pad_int false 2 d ++ bytes_of_string "/"
      ++ pad_int false (year_width y) y);
    if part =? 3 then emit buf (bytes_of_string ", ") else Some buf
  else Some buf.

Definition time_part (fmt : Z) (fields : list Z) (buf : list Z) : option (list Z) :=
  let h := field fields 3 in
  let m := field fields 4 in
  let s := field fields 5 in
  let ms := field fields 6 in
  let tz := field fields 8 in
  let colon := bytes_of_string ":" in
  let hms := pad_int false 2 h ++ colon ++ pad_int false 2 m ++ colon ++ pad_int false 2 s in
  if fmt =? 0 then emit buf (hms ++ bytes_of_string " GMT")
  else if fmt =? 1 then
    buf ← emit buf (hms ++ bytes_of_string " GMT");
    buf ← emit buf (if tz <? 0 then [ch_minus] else [ch_plus]);
    let tz := Z.abs tz in
    emit buf (pad_int false 2 (Z.quot tz 60) ++ pad_int false 2 (Z.rem tz 60))
  else if fmt =? 2 then emit buf (hms ++ bytes_of_string "." ++ pad_int false 3 ms ++ bytes_of_string "Z")
  else if fmt =? 3 then
    emit buf (pad_int false 2 (Z.rem (h + 11) 12 + 1) ++ colon ++ pad_int false 2 m ++ colon ++ pad_int false 2 s
      ++ bytes_of_string (if h <? 12 then " AM" else " PM"))
  else Some buf.

Inductive date_text := DateText (s : list Z) | DateRangeError (msg : string).

Definition get_date_string (getTimezoneOffset : Z -> Z) (dval : option Z) (fmt part : Z) : option date_text :=
  r ← get_date_fields getTimezoneOffset dval (Z.testbit fmt 0) false;
  match r with
  | None => Some (if fmt =? 2 then DateRangeError "Date value is NaN" else DateText (bytes_of_string "Invalid Date"))
  | Some fields =>
      buf ← (if Z.testbit part 0 then date_part fmt part fields [] else Some []);
      buf ← (if Z.testbit part 1 then time_part fmt fields buf else Some buf);
      Some (DateText buf)
  end.

(** ** Parsing *)
Definition string_skip_char (sp : list Z) (p : nat) (c : Z) : option (bool * nat) :=
  x ← sp !! p; Some (if x =? c then (true, S p) else (false, p)).

Fixpoint skip_while (f : Z -> bool) (fuel : nat) (sp : list Z) (p : nat) : option (Z * nat) :=
  c ← sp !! p;
  if f c then match fuel with O => None | S fuel => skip_while f fuel sp (S p) end
  else Some (c, p).
Definition string_skip_spaces (sp : list Z) (p : nat) : option (Z * nat) := skip_while (Z.eqb 32) (length sp) sp p.
Definition string_skip_separators (sp : list Z) (p : nat) : option (Z * nat) :=
  skip_while (fun c => (c =? 45) || (c =? 47) || (c =? 46) || (c =? 44)) (length sp) sp p.
(** [strchr] finds the terminating NUL too. *)
Definition string_skip_until (sp : list Z) (p : nat) (stoplist : list Z) : option (Z * nat) :=
  skip_while (fun c => negb ((c =? 0) || bool_decide (c ∈ stoplist))) (length sp) sp p.

Fixpoint digits_loop (fuel : nat) (sp : list Z) (p_start p : nat) (v : Z) (max_digits : nat) : option (option (Z * nat)) :=
  c ← sp !! p;
  if (48 <=? c) && (c <=? 57) then
    if 100000000 <=? v then Some None
    else
      let v := v * 10 + c - 48 in
      if (S p - p_start =? max_digits)%nat then Some (Some (v, S p))
      else match fuel with O => None | S fuel => digits_loop fuel sp p_start (S p) v max_digits end
  else Some (Some (v, p)).
Definition string_get_digits (sp : list Z) (p min_digits max_digits : nat) : option (option (Z * nat)) :=
  r ← digits_loop (length sp) sp p p 0 max_digits;
  Some (match r with
        | Some (v, p') => if (p' - p <? min_digits)%nat then None else Some (v, p')
        | None => None
        end).

Fixpoint ms_loop (fuel : nat) (sp : list Z) (p_start p : nat) (ms mul : Z) : option (Z * nat) :=
  c ← sp !! p;
  if (48 <=? c) && (c <=? 57) then
    let ms := ms + (c - 48) * mul in
    let mul := Z.quot mul 10 in
    if (S p - p_start =? 9)%nat then Some (ms, S p)
    else match fuel with O => None | S fuel => ms_loop fuel sp p_start (S p) ms mul end
  else Some (ms, p).
(** The milliseconds ([old] when there are none) and the new offset. *)
Definition string_get_milliseconds (sp : list Z) (p : nat) (old : Z) : option (Z * nat) :=
  c ← sp !! p;
  if (c =? 46) || (c =? 44) then
    '(ms, p') ← ms_loop (length sp) sp (S p) (S p) 0 100;
    Some (if (S p <? p')%nat then (ms, p') else (old, p))
  else Some (old, p).

Definition upper_ascii (c : Z) : Z := if (97 <=? c) && (c <=? 122) then c - 97 + 65 else c.

(** [while (n > 4) { n -= 2; hh /= 100; }] *)
Fixpoint shorten (fuel : nat) (n : nat) (hh : Z) : nat * Z :=
  match fuel with
  | O => (n, hh)
  | S fuel => if (4 <? n)%nat then shorten fuel (n - 2) (Z.quot hh 100) else (n, hh)
  end.

(** Hours and minutes of an offset, and the offset after them. *)
Definition tz_fields (sp : list Z) (p : nat) (strict : bool) : option (option (Z * Z * nat)) :=
  r ← string_get_digits sp p 1 0;
  match r with
  | None => Some None
  | Some (hh, p') =>
      let n := (p' - p)%nat in
      if strict && negb (n =? 2)%nat && negb (n =? 4)%nat then Some None
      else
        let '(n, hh) := shorten n n hh in
        if (2 <? n)%nat then Some (Some (Z.quot hh 100, Z.rem hh 100, p'))
        else
          '(colon, p'') ← string_skip_char sp p' 58;
          if colon : bool then
            r ← string_get_digits sp p'' 2 2;
            Some (match r with Some (mm, q) => Some (hh, mm, q) | None => None end)
          else Some (if strict then None else Some (hh, 0, p''))
  end.
Definition string_get_tzoffset (sp : list Z) (p : nat) (strict : bool) : option (option (Z * nat)) :=
  sgn ← sp !! p;
  if (sgn =? ch_plus) || (sgn =? ch_minus) then
    r ← tz_fields sp (S p) strict;
    Some (match r with
          | None => None
          | Some (hh, mm, q) =>
              if (23 <? hh) || (59 <? mm) then None
              else let tz := hh * 60 + mm in Some (if negb (sgn =? ch_plus) then - tz else tz, q)
          end)
  else Some (if negb (sgn =? 90) then None else Some (0, S p)).

Fixpoint string_match (sp : list Z) (p : nat) (s : list Z) : option (option nat) :=
  match s with
  | [] => Some (Some p)
  | x :: s =>
      c ← sp !! p;
      if negb (upper_ascii c =? upper_ascii x) then Some None else string_match sp (S p) s
  end.

(** The index of the first abbreviation that [sp + p] starts with. *)
Fixpoint find_abbrev (sp : list Z) (p : nat) (names : list Z) (todo : nat) (n : Z) : option (option Z) :=
  match todo with
  | O => Some None
  | S todo =>
      r ← string_match sp p (name3 names n);
      match r with Some _ => Some (Some n) | None => find_abbrev sp p names todo (n + 1) end
  end.
Definition string_get_month (sp : list Z) (p : nat) : option (option (Z * nat)) :=
  r ← find_abbrev sp p month_names 12 0;
  Some (match r with Some n => Some (n + 1, (p + 3)%nat) | None => None end).

(** ** The format of [toISOString] *)

(** Continuing after a parser that may return FALSE. *)
Definition on_true {A B} (r : option (option A)) (k : A -> option (option B)) : option (option B) :=
  r ← r; match r with Some a => k a | None => Some None end.

Definition iso_year (sp : list Z) : option (option (Z * nat)) :=
  sgn ← sp !! 0%nat;
  if (sgn =? ch_minus) || (sgn =? ch_plus) then
    on_true (string_get_digits sp 1 6 6) (fun '(y, p) =>
      if sgn =? ch_minus then Some (if y =? 0 then None else Some (- y, p)) else Some (Some (y, p)))
  else string_get_digits sp 0 4 4.

(** Month and day, both optional. *)
Definition iso_date (sp : list Z) (p : nat) (fields : list Z) : option (option (list Z * nat)) :=
  '(dash, p) ← string_skip_char sp p 45;
  if dash : bool then
    on_true (string_get_digits sp p 2 2) (fun '(mon, p) =>
      if mon <? 1 then Some None
      else
        let fields := <[1%nat := mon - 1]> fields in
        '(dash, p) ← string_skip_char sp p 45;
        if dash : bool then
          on_true (string_get_digits sp p 2 2) (fun '(d, p) =>
            Some (if d <? 1 then None else Some (<[2%nat := d]> fields, p)))
        else Some (Some (fields, p)))
  else Some (Some (fields, p)).

(** Hour and minute: [None] inside when one is missing. *)
Definition iso_hour_minute (sp : list Z) (p : nat) : option (option (Z * Z * nat)) :=
  on_true (string_get_digits sp p 2 2) (fun '(h, p) =>
    '(colon, p) ← string_skip_char sp p 58;
    if colon : bool then on_true (string_get_digits sp p 2 2) (fun '(m, p) => Some (Some (h, m, p)))
    else Some None).

(** Seconds and milliseconds, optional. *)
Definition iso_seconds (sp : list Z) (p : nat) (fields : list Z) : option (option (list Z * nat)) :=
  '(colon, p) ← string_skip_char sp p 58;
  if colon : bool then
    on_true (string_get_digits sp p 2 2) (fun '(s, p) =>
      let fields := <[5%nat := s]> fields in
      '(ms, p) ← string_get_milliseconds sp p (field fields 6);
      Some (Some (<[6%nat := ms]> fields, p)))
  else Some (Some (fields, p)).

(** The time zone and the end of the text. *)
Definition iso_zone (sp : list Z) (p : nat) (fields : list Z) (is_local : bool) : option (option (list Z * bool)) :=
  c ← sp !! p;
  if c =? 0 then Some (Some (fields, is_local))
  else
    on_true (string_get_tzoffset sp p true) (fun '(tz, p) =>
      c ← sp !! p;
      Some (if c =? 0 then Some (<[8%nat := tz]> fields, false) else None)).

Definition js_date_parse_isostring (sp : list Z) : option (option (list Z * bool)) :=
  let fields := [0; 0; 1; 0; 0; 0; 0; 0; 0] in
  on_true (iso_year sp) (fun '(y, p) =>
  on_true (iso_date sp p (<[0%nat := y]> fields)) (fun '(fields, p) =>
    '(t, p) ← string_skip_char sp p 84;
    if t : bool then
      r ← iso_hour_minute sp p;
      match r with
      | None => Some (Some (<[3%nat := 100]> fields, true))
      | Some (h, m, p) =>
          on_true (iso_seconds sp p (<[4%nat := m]> (<[3%nat := h]> fields))) (fun '(fields, p) => iso_zone sp p fields true)
      end
    else iso_zone sp p fields false)).

(** ** Other formats *)
Record other_state := mk_other {
  o_p : nat;
  o_fields : list Z;
  o_is_local : bool;
  o_num : list Z;
  o_has_year : bool;
  o_has_mon : bool;
  o_has_time : bool;
}.

Definition set_p (p : nat) (st : other_state) : other_state :=
  mk_other p (o_fields st) (o_is_local st) (o_num st) (o_has_year st) (o_has_mon st) (o_has_time st).
Definition set_field (i : nat) (v : Z) (st : other_state) : other_state :=
  mk_other (o_p st) (<[i := v]> (o_fields st)) (o_is_local st) (o_num st) (o_has_year st) (o_has_mon st) (o_has_time st).
Definition set_zone (tz : Z) (p : nat) (st : other_state) : other_state :=
  mk_other p (<[8%nat := tz]> (o_fields st)) false (o_num st) (o_has_year st) (o_has_mon st) (o_has_time st).
Definition set_year (y : Z) (p : nat) (st : other_state) : other_state :=
  mk_other p (<[0%nat := y]> (o_fields st)) (o_is_local st) (o_num st) true (o_has_mon st) (o_has_time st).
Definition set_month (m : Z) (p : nat) (st : other_state) : other_state :=
  mk_other p (<[1%nat := m]> (o_fields st)) (o_is_local st) (o_num st) (o_has_year st) true (o_has_time st).
Definition set_time (st : other_state) : other_state :=
  mk_other (o_p st) (o_fields st) (o_is_local st) (o_num st) (o_has_year st) (o_has_mon st) true.
Definition push_num (v : Z) (p : nat) (st : other_state) : other_state :=
  mk_other p (o_fields st) (o_is_local st) (o_num st ++ [v]) (o_has_year st) (o_has_mon st) (o_has_time st).

Definition century (v : Z) : Z := v + (if v <? 100 then 1900 else 0) + (if v <? 50 then 100 else 0).

(** A sign: a time zone after a time, or a signed year. *)
Definition other_sign (sp : list Z) (c : Z) (st : other_state) : option (option other_state) :=
  let p := o_p st in
  r ← (if o_has_time st then string_get_tzoffset sp p false else Some None);
  match r with
  | Some (tz, p) => Some (Some (set_zone tz p st))
  | None =>
      r ← string_get_digits sp (S p) 1 0;
      match r with
      | None => Some (Some (set_p (S p) st))
      | Some (val, p) =>
          if c =? ch_minus then Some (if val =? 0 then None else Some (set_year (- val) p st))
          else Some (Some (set_year val p st))
      end
  end.

(** The time after "hh:". *)
Definition other_time (sp : list Z) (val : Z) (p : nat) (st : other_state) : option (option other_state) :=
  let st := set_field 3 val st in
  on_true (string_get_digits sp p 1 2) (fun '(m, p) =>
    let st := set_field 4 m st in
    '(colon, p) ← string_skip_char sp p 58;
    on_true
      (if colon : bool then
         on_true (string_get_digits sp p 1 2) (fun '(s, p) =>
           let st := set_field 5 s st in
           '(ms, p) ← string_get_milliseconds sp p (field (o_fields st) 6);
           Some (Some (set_p p (set_field 6 ms st))))
       else Some (Some (set_p p st)))
      (fun st =>
         let st := set_time st in
         c ← sp !! o_p st;
         if (c =? ch_plus) || (c =? ch_minus) then
           r ← string_get_tzoffset sp (o_p st) false;
           Some (Some (match r with Some (tz, p) => set_zone tz p st | None => st end))
         else Some (Some st))).

(** A number: the hour of a time, a year, or one of up to three others. *)
Definition other_number (sp : list Z) (val : Z) (p : nat) (st : other_state) : option (option other_state) :=
  let p_start := o_p st in
  '(colon, p) ← string_skip_char sp p 58;
  if colon : bool then other_time sp val p st
  else if (2 <? p - p_start)%nat && negb (o_has_year st) then Some (Some (set_year val p st))
  else if ((val <? 1) || (31 <? val)) && negb (o_has_year st) then Some (Some (set_year (century val) p st))
  else if (length (o_num st) =? 3)%nat then Some None
  else Some (Some (push_num val p st)).

(** The loop over a parenthesized phrase: the offset and the open level. *)
Fixpoint paren_loop (fuel : nat) (sp : list Z) (p : nat) (level : Z) : option (nat * Z) :=
  c ← sp !! p;
  if c =? 0 then Some (p, level)
  else
    let level := level + (if c =? 40 then 1 else 0) - (if c =? 41 then 1 else 0) in
    if level =? 0 then Some (S p, level)
    else match fuel with O => None | S fuel => paren_loop fuel sp (S p) level end.

Definition b2z (b : bool) : Z := if b then 1 else 0.

Definition js_tzabbr : list (list Z * Z) :=
  [(bytes_of_string "GMT", 0); (bytes_of_string "UTC", 0); (bytes_of_string "UT", 0); (bytes_of_string "Z", 0);
   (bytes_of_string "EDT", -4 * 60); (bytes_of_string "EST", -5 * 60); (bytes_of_string "CDT", -5 * 60);
   (bytes_of_string "CST", -6 * 60); (bytes_of_string "MDT", -6 * 60); (bytes_of_string "MST", -7 * 60);
   (bytes_of_string "PDT", -7 * 60); (bytes_of_string "PST", -8 * 60); (bytes_of_string "WET", 0 * 60);
   (bytes_of_string "WEST", 1 * 60); (bytes_of_string "CET", 1 * 60); (bytes_of_string "CEST", 2 * 60);
   (bytes_of_string "EET", 2 * 60); (bytes_of_string "EEST", 3 * 60)].
Fixpoint string_get_tzabbr (sp : list Z) (p : nat) (abbrs : list (list Z * Z)) : option (option (Z * nat)) :=
  match abbrs with
  | [] => Some None
  | (name, offset) :: abbrs =>
      r ← string_match sp p name;
      match r with Some p => Some (Some (offset, p)) | None => string_get_tzabbr sp p abbrs end
  end.

(** A parenthesized phrase, or an unknown word before anything else was read. *)
Definition other_phrase (sp : list Z) (c : Z) (st : other_state) : option (option (bool * other_state)) :=
  let p := o_p st in
  if c =? 40 then
    '(p, level) ← paren_loop (length sp) sp p 0;
    Some (if 0 <? level then None else Some (false, set_p p st))
  else if c =? 41 then Some None
  else if negb (b2z (o_has_year st) + b2z (o_has_mon st) + b2z (o_has_time st) + Z.of_nat (length (o_num st)) =? 0) then Some None
  else
    '(_, p) ← string_skip_until sp p (bytes_of_string " -/(");
    Some (Some (false, set_p p st)).

(** A word: a month, AM or PM, a time zone.  [true] in the pair is [continue]. *)
Definition other_word (sp : list Z) (c : Z) (st : other_state) : option (option (bool * other_state)) :=
  let p := o_p st in
  let h := field (o_fields st) 3 in
  month ← string_get_month sp p;
  pm ← (if o_has_time st then string_match sp p (bytes_of_string "PM") else Some None);
  am ← (if o_has_time st then string_match sp p (bytes_of_string "AM") else Some None);
  zone ← string_get_tzabbr sp p js_tzabbr;
  match month, pm, am, zone with
  | Some (mon, p), _, _, _ =>
      '(_, p) ← string_skip_until sp p (bytes_of_string "0123456789 -/(");
      Some (Some (false, set_month mon p st))
  | None, Some p, _, _ => Some (Some (true, set_p p (if h <? 12 then set_field 3 (h + 12) st else st)))
  | None, None, Some p, _ => Some (Some (true, set_p p (if h =? 12 then set_field 3 (h - 12) st else st)))
  | None, None, None, Some (offset, p) => Some (Some (true, set_zone offset p st))
  | None, None, None, None => other_phrase sp c st
  end.

(** One round of the loop, at a character [c] that is neither space nor NUL. *)
Definition other_step (sp : list Z) (c : Z) (st : other_state) : option (option other_state) :=
  let no_continue st := Some (Some (false, st)) in
  on_true
    (if (c =? ch_plus) || (c =? ch_minus) then on_true (other_sign sp c st) no_continue
     else
       r ← string_get_digits sp (o_p st) 1 0;
       match r with
       | Some (val, p) => on_true (other_number sp val p st) no_continue
       | None => other_word sp c st
       end)
    (fun '(cont, st) =>
       if cont : bool then Some (Some st)
       else '(_, p) ← string_skip_separators sp (o_p st); Some (Some (set_p p st))).

Fixpoint other_loop (fuel : nat) (sp : list Z) (st : other_state) : option (option other_state) :=
  '(c, p) ← string_skip_spaces sp (o_p st);
  if c =? 0 then Some (Some (set_p p st))
  else
    match fuel with
    | O => None
    | S fuel => on_true (other_step sp c (set_p p st)) (other_loop fuel sp)
    end.

(** What the numbers that were read stand for. *)
Definition other_fields (st : other_state) : option (list Z) :=
  let fields := o_fields st in
  let num i := field (o_num st) i in
  if 3 <? Z.of_nat (length (o_num st)) + b2z (o_has_year st) + b2z (o_has_mon st) then None
  else
    fields ← match length (o_num st) with
             | O => if negb (o_has_year st) then None else Some fields
             | 1%nat => Some (if o_has_mon st then <[2%nat := num 0%nat]> fields else <[1%nat := num 0%nat]> fields)
             | 2%nat =>
                 Some (if o_has_year st then <[2%nat := num 1%nat]> (<[1%nat := num 0%nat]> fields)
                       else if o_has_mon st then <[2%nat := num 0%nat]> (<[0%nat := century (num 1%nat)]> fields)
                       else <[2%nat := num 1%nat]> (<[1%nat := num 0%nat]> fields))
             | 3%nat => Some (<[2%nat := num 1%nat]> (<[1%nat := num 0%nat]> (<[0%nat := century (num 2%nat)]> fields)))
             | _ => None
             end;
    if (field fields 1 <? 1) || (field fields 2 <? 1) then None
    else Some (<[1%nat := field fields 1 - 1]> fields).

Definition js_date_parse_otherstring (sp : list Z) : option (option (list Z * bool)) :=
  on_true (other_loop (length sp) sp (mk_other 0 [2001; 1; 1; 0; 0; 0; 0; 0; 0] true [] false false false)) (fun st =>
    Some (match other_fields st with Some fields => Some (fields, o_is_local st) | None => None end)).

(** ** [Date.parse] *)
Definition field_max : list Z := [0; 11; 31; 24; 59; 59].
Definition fields_valid (fields : list Z) : bool :=
  forallb (fun i => field fields i <=? field field_max i) [1%nat; 2%nat; 3%nat; 4%nat; 5%nat] &&
  negb ((field fields 3 =? 24) && negb (Z.lor (Z.lor (field fields 4) (field fields 5)) (field fields 6) =? 0)).

(** The string as bytes: characters above 255 become [x], the minus sign
    U+2212 a dash; at most 127 of them. *)
Definition date_bytes (s : list Z) : list Z :=
  map (fun c => if 255 <? c then (if c =? 8722 then 45 else 120) else c) (take 127 s) ++ [0].

(** The outer [None] is a fault, the inner one NaN. *)
Definition js_Date_parse (getTimezoneOffset : Z -> Z) (s : list Z) : option (option Z) :=
  let buf := date_bytes s in
  r ← js_date_parse_isostring buf;
  r ← match r with Some _ => Some r | None => js_date_parse_otherstring buf end;
  Some (match r with
        | Some (fields, is_local) =>
            if fields_valid fields then
              dadd (set_date_fields getTimezoneOffset (take 7 fields) is_local) (Some (- (field fields 8 * 60000)))
            else None
        | None => None
        end).

(** ** Examples *)
Definition utc (_ : Z) : Z := 0.
Example iso_example : get_date_string utc (Some 1514934176927) 2 3 = Some (DateText (bytes_of_string "2018-01-02T23:02:56.927Z")).
Proof. vm_compute. reflexivity. Qed.
Example utc_example : get_date_string utc (Some (-62198755200001)) 0 3 = Some (DateText (bytes_of_string "Thu, 31 Dec -0002 23:59:59 GMT")).
Proof. vm_compute. reflexivity. Qed.
Example parse_iso_example : js_Date_parse utc (bytes_of_string "2018-01-02T23:02:56.927Z") = Some (Some 1514934176927).
Proof. vm_compute. reflexivity. Qed.
Example parse_other_example :
  js_Date_parse utc (bytes_of_string "Tue, 02 Jan 2018 11:02:56 PM GMT+0100 (CET)") = Some (Some 1514930576000).
Proof. vm_compute. reflexivity. Qed.
