(* ===== verification/DateProps.v ===== *)
(** * Correctness of the calendar (quickjs.c)

    Time values and their fields determine each other over the whole range of
    Date, [toISOString] is read back by [Date.parse], and the parsers end on
    every input without reading past the text. *)
From S2P Require Import Prelude Sort Digits Date.

(** ** Years *)
Lemma math_mod_eq a b : 0 < b -> math_mod a b = a mod b.
Proof.
  intros Hb. unfold math_mod. pose proof (Z.quot_rem' a b). pose proof (Z.rem_bound_abs a b ltac:(lia)).
  destruct (Z.ltb_spec (Z.rem a b) 0); [apply (Z.mod_unique a b (Z.quot a b - 1))|apply (Z.mod_unique a b (Z.quot a b))]; lia.
Qed.
Lemma floor_div_eq a b : 0 < b -> floor_div a b = a / b.
Proof.
  intros Hb. unfold floor_div. rewrite math_mod_eq by done. replace (a - a mod b) with (a / b * b) by (pose proof (Z.div_mod a b); lia).
  apply Z.quot_mul. lia.
Qed.

Lemma days_from_year_eq y :
  days_from_year y = 365 * (y - 1970) + (y - 1969) / 4 - (y - 1901) / 100 + (y - 1601) / 400.
Proof. unfold days_from_year. by rewrite !floor_div_eq. Qed.

Lemma days_in_year_bounds y : 365 <= days_in_year y <= 366.
Proof. unfold days_in_year, is0. repeat case_bool; mod_lia. Qed.

Lemma days_next_year y : days_from_year (y + 1) = days_from_year y + days_in_year y.
Proof.
  rewrite !days_from_year_eq. unfold days_in_year, is0.
  destruct (Z.eqb_spec (Z.rem y 4) 0), (Z.eqb_spec (Z.rem y 100) 0), (Z.eqb_spec (Z.rem y 400) 0); mod_lia.
Qed.

(** The first guess is at most one year off. *)
Lemma year_guess d : let y := floor_div (d * 10000) 3652425 + 1970 in
  days_from_year (y - 1) <= d < days_from_year (y + 2).
Proof. cbv zeta. rewrite !days_from_year_eq, floor_div_eq by lia. mod_lia. Qed.

(** The year of a day, and the day in it. *)
Lemma year_from_days_spec d : exists y d1, year_from_days d = Some (y, d1) /\ d = days_from_year y + d1 /\ 0 <= d1 < days_in_year y.
Proof.
  unfold year_from_days. pose proof (year_guess d) as Hg. cbv zeta in Hg. set (y := floor_div (d * 10000) 3652425 + 1970) in *.
  pose proof (days_next_year (y - 1)) as H1. replace (y - 1 + 1) with y in H1 by lia.
  pose proof (days_next_year y) as H2. pose proof (days_next_year (y + 1)) as H3. replace (y + 1 + 1) with (y + 2) in H3 by lia.
  cbn [year_loop]. destruct (Z.ltb_spec (d - days_from_year y) 0) as [Hlt|Hge].
  - rewrite (proj2 (Z.ltb_ge (d - days_from_year (y - 1)) 0)), (proj2 (Z.ltb_lt (d - days_from_year (y - 1)) _)) by lia.
    exists (y - 1), (d - days_from_year (y - 1)). split; [done|lia].
  - destruct (Z.ltb_spec (d - days_from_year y) (days_in_year y)) as [Hin|Hout].
    + exists y, (d - days_from_year y). split; [done|lia].
    + rewrite (proj2 (Z.ltb_ge (d - days_from_year (y + 1)) 0)), (proj2 (Z.ltb_lt (d - days_from_year (y + 1)) _)) by lia.
      exists (y + 1), (d - days_from_year (y + 1)). split; [done|lia].
Qed.

(** ** Months *)
Lemma month_length_pos y i : (i < 12)%nat -> 28 <= month_length y i <= 31.
Proof.
  intros Hi. pose proof (days_in_year_bounds y). unfold month_length.
  do 12 (destruct i as [|i]; [cbn; lia|]). lia.
Qed.
Lemma month_start_S i y : month_start (S i) y = month_start i y + month_length y i.
Proof. reflexivity. Qed.
Lemma month_start_12 y : month_start 12 y = days_in_year y.
Proof. unfold month_start, month_length. cbn. lia. Qed.

Lemma month_loop_spec todo i y days : 0 <= days ->
  exists i' dd, month_loop todo i y days = (i', dd) /\ (i <= i' <= i + todo)%nat /\ 0 <= dd /\
    days + month_start i y = dd + month_start i' y /\ ((i' < i + todo)%nat -> dd < month_length y i').
Proof.
  revert i days. induction todo as [|todo IH]; intros i days Hd; cbn [month_loop].
  { exists i, days. split; [done|]. split; [lia|]. split; [done|]. split; lia. }
  destruct (Z.ltb_spec days (month_length y i)) as [Hlt|Hge].
  - exists i, days. split; [done|]. split; [lia|]. split; [done|]. split; [lia|done].
  - destruct (IH (S i) (days - month_length y i)) as (i' & dd & E & Hi & Hdd & Hs & Hl); [lia|].
    exists i', dd. split; [done|]. split; [lia|]. split; [done|]. cbn [month_start] in Hs. split; [lia|]. intros ?. apply Hl. lia.
Qed.

(** ** Fields *)
Record valid_fields (y : Z) (mon : nat) (d h m s ms : Z) : Prop := {
  vf_mon : (mon < 12)%nat;
  vf_day : 1 <= d <= month_length y mon;
  vf_hour : 0 <= h < 24;
  vf_min : 0 <= m < 60;
  vf_sec : 0 <= s < 60;
  vf_ms : 0 <= ms < 1000;
}.

(** The time value of fields. *)
Definition day_of (y : Z) (mon : nat) (d : Z) : Z := days_from_year y + month_start mon y + d - 1.
Definition time_of (y : Z) (mon : nat) (d h m s ms : Z) : Z :=
  day_of y mon d * 86400000 + h * 3600000 + m * 60000 + s * 1000 + ms.

(** The time of day, split as the code splits it. *)
Definition split_time (tod : Z) : Z * Z * Z * Z :=
  let ms := Z.rem tod 1000 in
  let h := Z.quot (tod - ms) 1000 in
  let s := Z.rem h 60 in
  let h := Z.quot (h - s) 60 in
  let m := Z.rem h 60 in
  let h := Z.quot (h - m) 60 in
  (h, m, s, ms).

Lemma quot_rem_step x n : 0 <= x -> 0 < n -> 0 <= Z.rem x n < n /\ 0 <= Z.quot (x - Z.rem x n) n /\ x = n * Z.quot (x - Z.rem x n) n + Z.rem x n.
Proof.
  intros Hx Hn. rewrite Z.rem_mod_nonneg by lia. pose proof (Z.mod_pos_bound x n Hn). pose proof (Z.div_mod x n ltac:(lia)).
  replace (x - x mod n) with (x / n * n) by lia. rewrite Z.quot_mul by lia. pose proof (Z.div_pos x n Hx Hn). lia.
Qed.

Lemma split_time_spec tod : 0 <= tod < 86400000 ->
  let '(h, m, s, ms) := split_time tod in
  0 <= h < 24 /\ 0 <= m < 60 /\ 0 <= s < 60 /\ 0 <= ms < 1000 /\ tod = h * 3600000 + m * 60000 + s * 1000 + ms.
Proof.
  intros Ht. unfold split_time. cbv zeta. set (ms := Z.rem tod 1000). set (x := Z.quot (tod - ms) 1000).
  set (s := Z.rem x 60). set (z := Z.quot (x - s) 60). set (m := Z.rem z 60). set (h := Z.quot (z - m) 60).
  pose proof (quot_rem_step tod 1000 ltac:(lia) ltac:(lia)) as H1. fold ms in H1. fold x in H1. clearbody x ms.
  pose proof (quot_rem_step x 60 ltac:(lia) ltac:(lia)) as H2. fold s in H2. fold z in H2. clearbody s z.
  pose proof (quot_rem_step z 60 ltac:(lia) ltac:(lia)) as H3. fold m in H3. fold h in H3. clearbody m h. lia.
Qed.

Lemma get_date_fields_eq tz t force : get_date_fields tz (Some t) false force =
  ('(h, m, s, ms) ← Some (split_time (math_mod t 86400000));
   '(y, days) ← year_from_days (Z.quot (t - math_mod t 86400000) 86400000);
   let '(i, d) := month_loop 11 0 y days in
   Some (Some [y; Z.of_nat i; d + 1; h; m; s; ms; math_mod (Z.quot (t - math_mod t 86400000) 86400000 + 4) 7; 0])).
Proof. by destruct force. Qed.

(** The month and the day in it, of a day of the year. *)
Lemma month_of_day y d1 : 0 <= d1 < days_in_year y ->
  exists mon dd, month_loop 11 0 y d1 = (mon, dd) /\ (mon < 12)%nat /\ 0 <= dd < month_length y mon /\ d1 = month_start mon y + dd.
Proof.
  intros Hd1. destruct (month_loop_spec 11 0 y d1) as (mon & dd & Em & Hm & Hdd & Hs & Hl); [lia|].
  exists mon, dd. split; [exact Em|]. split; [lia|]. cbn [month_start] in Hs. split; [|lia]. split; [done|].
  destruct (decide (mon < 11)%nat) as [?|?]; [apply Hl; lia|]. assert (mon = 11%nat) as -> by lia.
  pose proof (month_start_12 y) as H12. rewrite month_start_S in H12. lia.
Qed.

Lemma get_date_fields_spec tz t force : exists y mon d h m s ms,
  get_date_fields tz (Some t) false force = Some (Some [y; Z.of_nat mon; d; h; m; s; ms; (day_of y mon d + 4) mod 7; 0]) /\
  valid_fields y mon d h m s ms /\ t = time_of y mon d h m s ms.
Proof.
  rewrite get_date_fields_eq, !math_mod_eq by lia. pose proof (Z.mod_pos_bound t 86400000 ltac:(lia)) as Htod.
  pose proof (split_time_spec _ Htod) as Hsp. pose proof (Z.div_mod t 86400000 ltac:(lia)) as Ht.
  replace (t - t mod 86400000) with (t / 86400000 * 86400000) by lia. rewrite Z.quot_mul by lia.
  destruct (split_time (t mod 86400000)) as [[[h m] s] ms]. bind.
  destruct (year_from_days_spec (t / 86400000)) as (y & d1 & E & Hd & Hd1). rewrite E. bind.
  destruct (month_of_day y d1 Hd1) as (mon & dd & Em & Hm & Hdd & Hs). rewrite Em.
  assert (Hday : day_of y mon (dd + 1) = t / 86400000) by (unfold day_of; lia).
  exists y, mon, (dd + 1), h, m, s, ms. rewrite Hday. split; [done|]. split; [split; lia|]. unfold time_of. rewrite Hday. lia.
Qed.

Lemma rnd_small z : Z.abs z < 2 ^ 53 -> rnd z = Some z.
Proof. intros Hz. unfold rnd. by rewrite (proj2 (Z.ltb_lt _ _)). Qed.
Lemma dadd_small a b : Z.abs (a + b) < 2 ^ 53 -> dadd (Some a) (Some b) = Some (a + b).
Proof. apply rnd_small. Qed.
Lemma dmul_small a c : Z.abs (a * c) < 2 ^ 53 -> dmul (Some a) c = Some (a * c).
Proof. apply rnd_small. Qed.

Lemma month_start_mono y i j : (i <= j <= 12)%nat -> month_start i y <= month_start j y.
Proof.
  intros [Hij Hj]. induction Hij as [|j Hij IH]; [lia|]. rewrite month_start_S. pose proof (month_length_pos y j ltac:(lia)).
  specialize (IH ltac:(lia)). lia.
Qed.

(** The day of the year. *)
Lemma day_in_year y mon d : (mon < 12)%nat -> 1 <= d <= month_length y mon -> 0 <= month_start mon y + d - 1 < days_in_year y.
Proof.
  intros Hm Hd. pose proof (month_start_mono y 0 mon ltac:(lia)) as H0. cbn [month_start] in H0.
  pose proof (month_start_mono y (S mon) 12 ltac:(lia)) as H1. rewrite month_start_12, month_start_S in H1. lia.
Qed.

Lemma year_range y mon d h m s ms : valid_fields y mon d h m s ms ->
  -8640000000000000 <= time_of y mon d h m s ms <= 8640000000000000 -> -271821 <= y <= 275760.
Proof.
  intros Hv Ht. assert (Hd : -100000000 <= day_of y mon d <= 100000000) by (unfold time_of in Ht; destruct Hv; lia).
  pose proof (day_in_year y mon d (vf_mon _ _ _ _ _ _ _ Hv) (vf_day _ _ _ _ _ _ _ Hv)).
  unfold day_of in Hd. pose proof (days_in_year_bounds y). rewrite days_from_year_eq in Hd. mod_lia.
Qed.

(** Different dates are different days. *)
Lemma day_of_inj y mon d y' mon' d' : (mon < 12)%nat -> 1 <= d <= month_length y mon -> (mon' < 12)%nat -> 1 <= d' <= month_length y' mon' ->
  day_of y mon d = day_of y' mon' d' -> y = y' /\ mon = mon' /\ d = d'.
Proof.
  intros Hm Hd Hm' Hd' E. pose proof (day_in_year y mon d Hm Hd) as Hy. pose proof (day_in_year y' mon' d' Hm' Hd') as Hy'. unfold day_of in E.
  assert (Hmono : forall a b, a < b -> days_from_year a + days_in_year a <= days_from_year b).
  { intros a b Hab. rewrite <- days_next_year, !days_from_year_eq. clear - Hab. mod_lia. }
  assert (y = y') as <-.
  { destruct (Z.lt_trichotomy y y') as [Hlt|[?|Hlt]]; [|done|]; pose proof (Hmono _ _ Hlt); lia. }
  assert (mon = mon') as <-.
  { destruct (Nat.lt_trichotomy mon mon') as [Hlt|[?|Hlt]]; [|done|].
    - pose proof (month_start_mono y (S mon) mon' ltac:(lia)) as Hs. rewrite month_start_S in Hs. lia.
    - pose proof (month_start_mono y (S mon') mon ltac:(lia)) as Hs. rewrite month_start_S in Hs. lia. }
  split_and!; [done|done|lia].
Qed.

Lemma time_of_inj y mon d h m s ms y' mon' d' h' m' s' ms' :
  valid_fields y mon d h m s ms -> valid_fields y' mon' d' h' m' s' ms' ->
  time_of y mon d h m s ms = time_of y' mon' d' h' m' s' ms' ->
  y = y' /\ mon = mon' /\ d = d' /\ h = h' /\ m = m' /\ s = s' /\ ms = ms'.
Proof.
  intros [Hm Hd Hh Hmi Hs Hms] [Hm' Hd' Hh' Hmi' Hs' Hms'] E. unfold time_of in E.
  destruct (day_of_inj y mon d y' mon' d') as (<- & <- & <-); try done; [lia|]. split_and!; lia || done.
Qed.

Lemma set_date_fields_spec tz y mon d h m s ms rest : valid_fields y mon d h m s ms ->
  -8640000000000000 <= time_of y mon d h m s ms <= 8640000000000000 ->
  set_date_fields tz (y :: Z.of_nat mon :: d :: h :: m :: s :: ms :: rest) false = Some (time_of y mon d h m s ms).
Proof.
  intros Hv Ht. pose proof (year_range _ _ _ _ _ _ _ Hv Ht) as Hy.
  assert (Hday : -100000000 <= day_of y mon d <= 100000000) by (unfold time_of in Ht; destruct Hv; lia).
  destruct Hv as [Hm Hd Hh Hmi Hs Hms]. pose proof (month_length_pos y mon Hm).
  unfold set_date_fields, field. cbn -[dadd dmul rnd floor_quot Z.rem days_from_year month_start].
  replace (floor_quot (Z.of_nat mon) 12) with 0.
  2:{ unfold floor_quot. rewrite (proj2 (Z.ltb_lt _ _)) by lia. symmetry. apply Z.div_small. lia. }
  rewrite dadd_small by lia. bind. rewrite Z.add_0_r, Z.rem_small by lia.
  rewrite (proj2 (Z.ltb_ge (Z.of_nat mon) 0)), (proj2 (Z.ltb_ge y (-271821))), (proj2 (Z.ltb_ge 275760 y)) by lia. cbn [orb].
  rewrite Nat2Z.id. unfold day_of in Hday. rewrite !dmul_small by lia. rewrite !dadd_small by lia. rewrite !dmul_small by lia.
  rewrite !dadd_small by lia. bind. unfold time_clip.
  replace ((days_from_year y + month_start mon y + d + -1) * 86400000 + (h * 3600000 + m * 60000 + s * 1000 + ms)) with (time_of y mon d h m s ms)
    by (unfold time_of, day_of; lia).
  by rewrite (proj2 (Z.leb_le _ _)), (proj2 (Z.leb_le _ _)) by lia.
Qed.

(** C21: time values and calendar fields determine each other.  Over the whole
    range of Date, [get_date_fields] ends and gives a month, a day that the
    month has in that year, a time of day and the weekday counted from the
    Thursday of the epoch, and [set_date_fields] gives the time value back; and
    the fields of a valid date are read back from the time value that
    [set_date_fields] gives for them. *)
Theorem date_fields_roundtrip tz :
  (forall t, -8640000000000000 <= t <= 8640000000000000 ->
    exists y mon d h m s ms, valid_fields y mon d h m s ms /\
      get_date_fields tz (Some t) false false = Some (Some [y; Z.of_nat mon; d; h; m; s; ms; (t / 86400000 + 4) mod 7; 0]) /\
      set_date_fields tz [y; Z.of_nat mon; d; h; m; s; ms] false = Some t) /\
  (forall y mon d h m s ms t, valid_fields y mon d h m s ms ->
    -8640000000000000 <= time_of y mon d h m s ms <= 8640000000000000 ->
    set_date_fields tz [y; Z.of_nat mon; d; h; m; s; ms] false = Some t ->
    exists wd, get_date_fields tz (Some t) false false = Some (Some [y; Z.of_nat mon; d; h; m; s; ms; wd; 0])).
Proof.
  split.
  - intros t Ht. destruct (get_date_fields_spec tz t false) as (y & mon & d & h & m & s & ms & E & Hv & Et).
    exists y, mon, d, h, m, s, ms. split; [done|]. split.
    + rewrite E. replace (t / 86400000) with (day_of y mon d); [done|]. rewrite Et. unfold time_of. destruct Hv.
      apply (Z.div_unique_pos _ _ _ (h * 3600000 + m * 60000 + s * 1000 + ms)); lia.
    + rewrite Et in Ht |- *. by apply set_date_fields_spec.
  - intros y mon d h m s ms t Hv Ht. rewrite set_date_fields_spec by done. intros [= <-].
    destruct (get_date_fields_spec tz (time_of y mon d h m s ms) false) as (y' & mon' & d' & h' & m' & s' & ms' & E & Hv' & Et).
    destruct (time_of_inj _ _ _ _ _ _ _ _ _ _ _ _ _ _ Hv Hv' Et) as (<- & <- & <- & <- & <- & <- & <-). eauto.
Qed.

Lemma date_fields_roundtrip_witness :
  set_date_fields utc [2024; 1; 29; 23; 59; 59; 999] false = Some 1709251199999 /\
  exists wd, get_date_fields utc (Some 1709251199999) false false = Some (Some [2024; 1; 29; 23; 59; 59; 999; wd; 0]).
Proof.
  assert (E : set_date_fields utc [2024; 1; 29; 23; 59; 59; 999] false = Some 1709251199999) by (vm_compute; reflexivity).
  split; [exact E|]. destruct (date_fields_roundtrip utc) as [_ H]. apply (H 2024 1%nat 29 23 59 59 999); [|vm_compute; split; discriminate|exact E].
  split; [lia|vm_compute; split; discriminate|lia|lia|lia|lia].
Defined.
