(* ===== verification/DateParse.v ===== *)
(** * Parsing dates (quickjs.c)

    The parsers of [Date.parse] end on every text and read nothing after its
    NUL; what [toISOString] prints is read back. *)
From S2P Require Import Prelude Sort Digits Date DateProps.

(** ** Staying inside the text *)

(** The text has a NUL at [p] or later. *)
Definition nul_from (sp : list Z) (p : nat) : Prop := exists q, (p <= q)%nat /\ sp !! q = Some 0.

Lemma nul_from_lookup sp p : nul_from sp p -> exists c, sp !! p = Some c /\ (p < length sp)%nat /\ (c <> 0 -> nul_from sp (S p)).
Proof.
  intros (q & Hpq & Hq). pose proof (lookup_lt_Some _ _ _ Hq). destruct (lookup_lt_is_Some_2 sp p ltac:(lia)) as [c Hc].
  exists c. split; [done|]. split; [lia|]. intros Hne. exists q. split; [|done]. destruct (decide (p = q)) as [->|]; [|lia]. congruence.
Qed.

(** A parser that, when it succeeds, leaves the offset at [q] or later. *)
Definition parses {A} (sp : list Z) (q : nat) (r : option (option (A * nat))) : Prop :=
  exists r0, r = Some r0 /\ forall a p', r0 = Some (a, p') -> (q <= p')%nat /\ nul_from sp p'.

Lemma skip_while_ok f fuel sp p : f 0 = false -> nul_from sp p -> (length sp <= p + fuel)%nat ->
  exists c p', skip_while f fuel sp p = Some (c, p') /\ (p <= p')%nat /\ nul_from sp p' /\ sp !! p' = Some c /\ f c = false /\
    (forall x, sp !! p = Some x -> f x = true -> (p < p')%nat).
Proof.
  intros Hf0. revert p. induction fuel as [|fuel IH]; intros p Hn Hl; destruct (nul_from_lookup sp p Hn) as (c & Hc & Hlt & Hne); [lia|].
  cbn [skip_while]. rewrite Hc. bind. destruct (f c) eqn:Ef.
  - destruct (IH (S p)) as (c' & p' & E & Hp & Hn' & Hc' & Hf & _); [apply Hne; congruence|lia|].
    exists c', p'. split_and!; try done; lia.
  - exists c, p. split_and!; try done. intros x [= <-]. by rewrite Ef.
Qed.

Lemma digits_loop_ok fuel sp p0 p v max : nul_from sp p -> (length sp <= p + fuel)%nat ->
  parses sp p (digits_loop fuel sp p0 p v max).
Proof.
  revert p v. induction fuel as [|fuel IH]; intros p v Hn Hl; destruct (nul_from_lookup sp p Hn) as (c & Hc & Hlt & Hne); [lia|].
  cbn [digits_loop]. rewrite Hc. bind. destruct ((48 <=? c) && (c <=? 57)) eqn:Ed.
  - assert (c <> 0) by lia. destruct (100000000 <=? v); [by exists None|].
    destruct (_ =? max)%nat.
    + eexists. split; [done|]. intros a p' [= <- <-]. split; [lia|auto].
    + destruct (IH (S p) (v * 10 + c - 48)) as (r0 & E & Hr); [auto|lia|]. exists r0. split; [done|]. intros a p' E'.
      destruct (Hr a p' E'). split; [lia|done].
  - eexists. split; [done|]. intros a p' [= <- <-]. split; [lia|done].
Qed.

Lemma string_get_digits_ok sp p mn mx : nul_from sp p -> parses sp (p + mn) (string_get_digits sp p mn mx).
Proof.
  intros Hn. unfold string_get_digits. destruct (digits_loop_ok (length sp) sp p p 0 mx Hn ltac:(lia)) as (r0 & -> & Hr). bind.
  eexists. split; [done|]. intros a p'. destruct r0 as [[v q]|]; [|done]. destruct (Nat.ltb_spec (q - p) mn); [done|].
  intros [= <- <-]. destruct (Hr v q eq_refl). split; [lia|done].
Qed.

Lemma string_skip_char_ok sp p c : nul_from sp p -> c <> 0 ->
  exists b p', string_skip_char sp p c = Some (b, p') /\ (p <= p')%nat /\ nul_from sp p'.
Proof.
  intros Hn Hc. unfold string_skip_char. destruct (nul_from_lookup sp p Hn) as (x & Hx & _ & Hne). rewrite Hx. bind.
  destruct (Z.eqb_spec x c) as [->|]; eexists _, _; (split; [done|]); split; auto.
Qed.

Lemma ms_loop_ok fuel sp p0 p ms mul : nul_from sp p -> (length sp <= p + fuel)%nat ->
  exists v p', ms_loop fuel sp p0 p ms mul = Some (v, p') /\ (p <= p')%nat /\ nul_from sp p'.
Proof.
  revert p ms mul. induction fuel as [|fuel IH]; intros p ms mul Hn Hl; destruct (nul_from_lookup sp p Hn) as (c & Hc & Hlt & Hne); [lia|].
  cbn [ms_loop]. rewrite Hc. bind. destruct ((48 <=? c) && (c <=? 57)) eqn:Ed.
  - assert (c <> 0) by lia. destruct (_ =? 9)%nat; [eexists _, _; split; [done|]; split; [lia|auto]|].
    destruct (IH (S p) (ms + (c - 48) * mul) (Z.quot mul 10)) as (v & p' & E & Hp & Hn'); [auto|lia|]. exists v, p'. split_and!; try done. lia.
  - eexists _, _. split; [done|]. split; [lia|done].
Qed.

Lemma string_get_milliseconds_ok sp p old : nul_from sp p ->
  exists v p', string_get_milliseconds sp p old = Some (v, p') /\ (p <= p')%nat /\ nul_from sp p'.
Proof.
  intros Hn. unfold string_get_milliseconds. destruct (nul_from_lookup sp p Hn) as (c & Hc & Hlt & Hne). rewrite Hc. bind.
  destruct ((c =? 46) || (c =? 44)) eqn:E; [|eexists _, _; split; [done|]; split; [lia|done]].
  destruct (ms_loop_ok (length sp) sp (S p) (S p) 0 100) as (v & p' & -> & Hp & Hn'); [apply Hne; lia|lia|]. bind.
  destruct (_ <? _)%nat; eexists _, _; (split; [done|]); split; lia || done.
Qed.

Lemma parses_none {A} sp q : parses (A := A) sp q (Some None).
Proof. by exists None. Qed.
Lemma parses_some {A} sp q (a : A) p : (q <= p)%nat -> nul_from sp p -> parses sp q (Some (Some (a, p))).
Proof. intros. eexists. split; [done|]. by intros ? ? [= <- <-]. Qed.

Lemma tz_fields_ok sp p strict : nul_from sp p -> parses sp (S p) (tz_fields sp p strict).
Proof.
  intros Hn. unfold tz_fields. destruct (string_get_digits_ok sp p 1 0 Hn) as ([[hh p']|] & -> & Hr); bind; [|apply parses_none].
  destruct (Hr hh p' eq_refl) as [Hp Hn']. destruct (strict && _ && _); [apply parses_none|]. destruct (shorten _ _ _) as [n hh'].
  destruct (_ <? n)%nat; [apply parses_some; [lia|done]|].
  destruct (string_skip_char_ok sp p' 58 Hn' ltac:(lia)) as ([] & p2 & -> & Hp2 & Hn2); bind.
  - destruct (string_get_digits_ok sp p2 2 2 Hn2) as ([[mm q]|] & -> & Hr2); bind; [|apply parses_none].
    destruct (Hr2 mm q eq_refl). apply parses_some; [lia|done].
  - destruct strict; [apply parses_none|apply parses_some; [lia|done]].
Qed.

Lemma string_get_tzoffset_ok sp p strict : nul_from sp p -> parses sp (S p) (string_get_tzoffset sp p strict).
Proof.
  intros Hn. unfold string_get_tzoffset. destruct (nul_from_lookup sp p Hn) as (c & Hc & Hlt & Hne). rewrite Hc. bind.
  destruct ((c =? ch_plus) || (c =? ch_minus)) eqn:E.
  - unfold ch_plus, ch_minus in E. destruct (tz_fields_ok sp (S p) strict) as ([[[hh mm] q]|] & -> & Hr); [apply Hne; lia| |]; bind; [|apply parses_none].
    destruct (Hr _ _ eq_refl). destruct ((23 <? hh) || (59 <? mm)); [apply parses_none|apply parses_some; [lia|done]].
  - destruct (Z.eqb_spec c 90) as [->|]; [apply parses_some; [lia|by apply Hne]|apply parses_none].
Qed.

Lemma upper_ascii_0 c : upper_ascii c = 0 <-> c = 0.
Proof. unfold upper_ascii. destruct (Z.leb_spec 97 c), (Z.leb_spec c 122); cbn; lia. Qed.

Lemma string_match_ok sp p s : nul_from sp p -> Forall (fun x => x <> 0) s ->
  exists r, string_match sp p s = Some r /\ forall p', r = Some p' -> p' = (p + length s)%nat /\ nul_from sp p'.
Proof.
  intros Hn Hs. revert p Hn. induction Hs as [|x s Hx Hs IH]; intros p Hn; cbn [string_match].
  { eexists. split; [done|]. intros p' [= <-]. split; [cbn; lia|done]. }
  destruct (nul_from_lookup sp p Hn) as (c & Hc & Hlt & Hne). rewrite Hc. bind.
  destruct (Z.eqb_spec (upper_ascii c) (upper_ascii x)) as [E|E]; cbn [negb]; [|by exists None].
  assert (c <> 0) by (intros ->; apply Hx, upper_ascii_0; by rewrite <- E).
  destruct (IH (S p)) as (r & -> & Hr); [auto|]. exists r. split; [done|]. intros p' Hp'. destruct (Hr p' Hp'). cbn [length]. split; [lia|done].
Qed.

(** ** The two parsers *)
Lemma on_true_ok {A B} (P : A -> Prop) (r : option (option A)) (k : A -> option (option B)) :
  (exists r0, r = Some r0 /\ forall a, r0 = Some a -> P a) -> (forall a, P a -> exists b, k a = Some b) ->
  exists b, on_true r k = Some b.
Proof.
  intros (r0 & -> & Hr) Hk. unfold on_true. bind. destruct r0 as [a|]; [|eauto]. by apply Hk, Hr.
Qed.

Lemma parses_pair {A} sp q (r : option (option (A * nat))) : parses sp q r ->
  exists r0, r = Some r0 /\ forall x, r0 = Some x -> (q <= x.2)%nat /\ nul_from sp x.2.
Proof. intros (r0 & E & Hr). exists r0. split; [done|]. intros [a p] Hx. by apply (Hr a p). Qed.

(** Sequencing parsers. *)
Lemma on_true_parses {A B} sp q q' (r : option (option (A * nat))) (k : A * nat -> option (option (B * nat))) :
  parses sp q r -> (forall a p, (q <= p)%nat -> nul_from sp p -> parses sp q' (k (a, p))) -> parses sp q' (on_true r k).
Proof.
  intros (r0 & -> & Hr) Hk. unfold on_true. bind. destruct r0 as [[a p]|]; [|apply parses_none].
  destruct (Hr a p eq_refl). by apply Hk.
Qed.

Lemma iso_year_ok sp : nul_from sp 0 -> parses sp 0 (iso_year sp).
Proof.
  intros Hn. unfold iso_year. destruct (nul_from_lookup sp 0 Hn) as (c & Hc & Hlt & Hne). rewrite Hc. bind.
  destruct ((c =? ch_minus) || (c =? ch_plus)) eqn:E.
  - unfold ch_plus, ch_minus in E. eapply on_true_parses; [apply string_get_digits_ok, Hne; lia|]. intros y p Hp Hn'. cbv beta iota.
    destruct (c =? ch_minus); [destruct (y =? 0); [apply parses_none|]|]; apply parses_some; lia || done.
  - destruct (string_get_digits_ok sp 0 4 4 Hn) as (r0 & E' & Hr). exists r0. split; [done|]. intros a p' Ha. destruct (Hr a p' Ha). split; [lia|done].
Qed.

Lemma iso_date_ok sp p fields : nul_from sp p -> parses sp p (iso_date sp p fields).
Proof.
  intros Hn. unfold iso_date. destruct (string_skip_char_ok sp p 45 Hn ltac:(lia)) as ([] & p1 & -> & Hp1 & Hn1); bind; [|by apply parses_some].
  eapply on_true_parses; [by apply string_get_digits_ok|]. intros mon p2 Hp2 Hn2. cbv beta iota. destruct (mon <? 1); [apply parses_none|].
  destruct (string_skip_char_ok sp p2 45 Hn2 ltac:(lia)) as ([] & p3 & -> & Hp3 & Hn3); bind; [|apply parses_some; [lia|done]].
  eapply on_true_parses; [by apply string_get_digits_ok|]. intros d p4 Hp4 Hn4. cbv beta iota. destruct (d <? 1); [apply parses_none|].
  apply parses_some; [lia|done].
Qed.

Lemma iso_hour_minute_ok sp p : nul_from sp p -> parses sp p (iso_hour_minute sp p).
Proof.
  intros Hn. unfold iso_hour_minute. eapply on_true_parses; [by apply string_get_digits_ok|]. intros h p1 Hp1 Hn1. cbv beta iota.
  destruct (string_skip_char_ok sp p1 58 Hn1 ltac:(lia)) as ([] & p2 & -> & Hp2 & Hn2); bind; [|apply parses_none].
  eapply on_true_parses; [by apply string_get_digits_ok|]. intros m p3 Hp3 Hn3. apply parses_some; [lia|done].
Qed.

Lemma iso_seconds_ok sp p fields : nul_from sp p -> parses sp p (iso_seconds sp p fields).
Proof.
  intros Hn. unfold iso_seconds. destruct (string_skip_char_ok sp p 58 Hn ltac:(lia)) as ([] & p1 & -> & Hp1 & Hn1); bind; [|by apply parses_some].
  eapply on_true_parses; [by apply string_get_digits_ok|]. intros s p2 Hp2 Hn2. cbv beta iota zeta.
  destruct (string_get_milliseconds_ok sp p2 (field (<[5%nat:=s]> fields) 6) Hn2) as (ms & p3 & -> & Hp3 & Hn3). bind.
  apply parses_some; [lia|done].
Qed.

Lemma iso_zone_ok sp p fields is_local : nul_from sp p -> exists r, iso_zone sp p fields is_local = Some r.
Proof.
  intros Hn. unfold iso_zone. destruct (nul_from_lookup sp p Hn) as (c & Hc & _ & _). rewrite Hc. bind. destruct (c =? 0); [eauto|].
  eapply on_true_ok; [by apply parses_pair, string_get_tzoffset_ok|]. intros [tz q] [_ Hq]. cbv beta iota. cbn in Hq.
  destruct (nul_from_lookup sp q Hq) as (x & -> & _ & _). bind. eauto.
Qed.

Lemma parse_isostring_ok sp : nul_from sp 0 -> exists r, js_date_parse_isostring sp = Some r.
Proof.
  intros Hn. unfold js_date_parse_isostring. cbv zeta. eapply on_true_ok; [by apply parses_pair, iso_year_ok|]. intros [y p] [_ Hp]. cbv beta iota.
  cbn in Hp. eapply on_true_ok; [by apply parses_pair, iso_date_ok|]. intros [fields q] [_ Hq]. cbv beta iota. cbn in Hq.
  destruct (string_skip_char_ok sp q 84 Hq ltac:(lia)) as ([] & p1 & -> & Hp1 & Hn1); bind; [|by apply iso_zone_ok].
  destruct (iso_hour_minute_ok sp p1 Hn1) as ([[[h m] p2]|] & -> & Hr); bind; [|eauto]. destruct (Hr _ _ eq_refl) as [_ Hn2].
  eapply on_true_ok; [by apply parses_pair, iso_seconds_ok|]. intros [f p3] [_ Hp3]. by apply iso_zone_ok.
Qed.

(** A state of the second parser past [q]. *)
Definition past (sp : list Z) (q : nat) (st : other_state) : Prop := (q <= o_p st)%nat /\ nul_from sp (o_p st).
Definition moves (sp : list Z) (q : nat) (r : option (option other_state)) : Prop :=
  exists r0, r = Some r0 /\ forall st, r0 = Some st -> past sp q st.

Lemma moves_none sp q : moves sp q (Some None).
Proof. by exists None. Qed.
Lemma moves_some sp q st : past sp q st -> moves sp q (Some (Some st)).
Proof. intros H. eexists. split; [done|]. by intros ? [= <-]. Qed.

Lemma on_true_moves {A} sp q q' (r : option (option (A * nat))) (k : A * nat -> option (option other_state)) :
  parses sp q r -> (forall a p, (q <= p)%nat -> nul_from sp p -> moves sp q' (k (a, p))) -> moves sp q' (on_true r k).
Proof.
  intros (r0 & -> & Hr) Hk. unfold on_true. bind. destruct r0 as [[a p]|]; [|apply moves_none]. destruct (Hr a p eq_refl). by apply Hk.
Qed.

Lemma other_sign_ok sp c st : nul_from sp (o_p st) -> sp !! o_p st = Some c -> c <> 0 -> moves sp (S (o_p st)) (other_sign sp c st).
Proof.
  intros Hn Hc Hc0. unfold other_sign. cbv zeta. destruct (nul_from_lookup sp (o_p st) Hn) as (c' & Hc' & _ & Hne). rewrite Hc in Hc'. simplify_eq.
  assert (Htz : parses sp (S (o_p st)) (if o_has_time st then string_get_tzoffset sp (o_p st) false else Some None)).
  { destruct (o_has_time st); [by apply string_get_tzoffset_ok|apply parses_none]. }
  destruct Htz as ([[tz p]|] & -> & Hr); bind; [destruct (Hr tz p eq_refl); by apply moves_some|].
  destruct (string_get_digits_ok sp (S (o_p st)) 1 0 (Hne Hc0)) as ([[v p]|] & -> & Hr2); bind.
  2:{ apply moves_some. split; [done|]. by apply Hne. }
  destruct (Hr2 v p eq_refl). destruct (c' =? ch_minus); [destruct (v =? 0); [apply moves_none|]|]; apply moves_some; split; cbn; lia || done.
Qed.

Lemma other_time_ok sp v p st : nul_from sp p -> moves sp p (other_time sp v p st).
Proof.
  intros Hn. unfold other_time. cbv zeta. eapply on_true_moves; [by apply string_get_digits_ok|]. intros m p1 Hp1 Hn1. cbv beta iota.
  destruct (string_skip_char_ok sp p1 58 Hn1 ltac:(lia)) as (b & p2 & -> & Hp2 & Hn2). bind.
  set (st1 := set_field 4 m (set_field 3 v st)).
  assert (Hs : moves sp p2 (if b then on_true (string_get_digits sp p2 1 2) (fun '(s, p) =>
      '(ms, p) ← string_get_milliseconds sp p (field (o_fields (set_field 5 s st1)) 6);
      Some (Some (set_p p (set_field 6 ms (set_field 5 s st1))))) else Some (Some (set_p p2 st1)))).
  { destruct b; [|by apply moves_some]. eapply on_true_moves; [by apply string_get_digits_ok|]. intros s p3 Hp3 Hn3. cbv beta iota.
    destruct (string_get_milliseconds_ok sp p3 (field (o_fields (set_field 5 s st1)) 6) Hn3) as (ms & p4 & -> & Hp4 & Hn4). bind.
    apply moves_some. split; cbn; [lia|done]. }
  destruct Hs as (r0 & -> & Hr). unfold on_true at 1. bind. destruct r0 as [st2|]; [|apply moves_none]. destruct (Hr st2 eq_refl) as [Hp3 Hn3].
  change (o_p (set_time st2)) with (o_p st2). destruct (nul_from_lookup sp (o_p st2) Hn3) as (c & -> & _ & _). bind.
  destruct ((c =? ch_plus) || (c =? ch_minus)); [|apply moves_some; split; cbn; [lia|done]].
  destruct (string_get_tzoffset_ok sp (o_p st2) false Hn3) as ([[tz q]|] & -> & Hr2); bind; apply moves_some; split; cbn; try lia; try done.
  - destruct (Hr2 tz q eq_refl). lia.
  - by destruct (Hr2 tz q eq_refl).
Qed.

Lemma other_number_ok sp v p st : (S (o_p st) <= p)%nat -> nul_from sp p -> moves sp (S (o_p st)) (other_number sp v p st).
Proof.
  intros Hp Hn. unfold other_number. cbv zeta. destruct (string_skip_char_ok sp p 58 Hn ltac:(lia)) as ([] & p1 & -> & Hp1 & Hn1); bind.
  - destruct (other_time_ok sp v p1 st Hn1) as (r0 & -> & Hr). exists r0. split; [done|]. intros st' E. destruct (Hr st' E). split; [lia|done].
  - destruct (_ && negb _); [apply moves_some; split; cbn; [lia|done]|]. destruct (((v <? 1) || _) && _); [apply moves_some; split; cbn; [lia|done]|].
    destruct (_ =? 3)%nat; [apply moves_none|apply moves_some; split; cbn; [lia|done]].
Qed.

Lemma paren_loop_ok fuel sp p level : nul_from sp p -> (length sp <= p + fuel)%nat ->
  exists p' l', paren_loop fuel sp p level = Some (p', l') /\ (p <= p')%nat /\ nul_from sp p' /\
    (forall c, sp !! p = Some c -> c <> 0 -> (p < p')%nat).
Proof.
  revert p level. induction fuel as [|fuel IH]; intros p level Hn Hl; destruct (nul_from_lookup sp p Hn) as (c & Hc & Hlt & Hne); [lia|].
  cbn [paren_loop]. rewrite Hc. bind. destruct (Z.eqb_spec c 0) as [->|Hc0].
  { eexists _, _. split; [done|]. split_and!; [lia|done|congruence]. }
  destruct (_ =? 0); [eexists _, _; split; [done|]; split_and!; [lia|auto|lia]|].
  edestruct (IH (S p)) as (p' & l' & E & Hp & Hn' & _); [auto|lia|]. exists p', l'. split; [exact E|]. split_and!; [lia|done|lia].
Qed.

Lemma string_get_tzabbr_ok sp p abbrs : nul_from sp p -> Forall (fun x => Forall (fun c => c <> 0) x.1 /\ (1 <= length x.1)%nat) abbrs ->
  parses sp (S p) (string_get_tzabbr sp p abbrs).
Proof.
  intros Hn Ha. induction Ha as [|[name off] abbrs [Hx Hl] Ha IH]; cbn [string_get_tzabbr]; [apply parses_none|].
  destruct (string_match_ok sp p name Hn Hx) as ([p'|] & -> & Hr); bind; [|done]. destruct (Hr p' eq_refl) as [-> Hn'].
  apply parses_some; [cbn in Hl; lia|done].
Qed.

Lemma month_names_checked : forallb (fun i => let s := name3 month_names (Z.of_nat i) in
  forallb (fun x => negb (x =? 0)) s && (length s =? 3)%nat) (seq 0 12) = true.
Proof. vm_compute. reflexivity. Qed.
Lemma month_name_ok n : 0 <= n < 12 -> Forall (fun x => x <> 0) (name3 month_names n) /\ length (name3 month_names n) = 3%nat.
Proof.
  intros Hn. pose proof (proj1 (forallb_forall _ _) month_names_checked (Z.to_nat n)) as Hc. rewrite in_seq, Z2Nat.id in Hc by lia.
  specialize (Hc ltac:(lia)). cbv zeta in Hc. apply andb_true_iff in Hc as [Hs Hl]. split; [|by apply Nat.eqb_eq].
  apply Forall_forall. intros x Hx. rewrite forallb_forall in Hs. specialize (Hs x (proj1 (list_elem_of_In _ _) Hx)). lia.
Qed.

Lemma string_get_month_ok sp p : nul_from sp p -> parses sp (p + 3) (string_get_month sp p).
Proof.
  intros Hn. unfold string_get_month.
  assert (Hf : forall todo n, 0 <= n -> n + Z.of_nat todo <= 12 -> exists r, find_abbrev sp p month_names todo n = Some r /\
    (forall k, r = Some k -> nul_from sp (p + 3))).
  { induction todo as [|todo IH]; intros n Hn0 Hn12; cbn [find_abbrev]; [by exists None|].
    assert (Hname : Forall (fun x => x <> 0) (name3 month_names n) /\ length (name3 month_names n) = 3%nat).
    { apply month_name_ok. lia. }
    destruct Hname as [Hnz Hlen]. destruct (string_match_ok sp p (name3 month_names n) Hn Hnz) as ([p'|] & -> & Hr); bind; [|by apply IH; lia].
    destruct (Hr p' eq_refl) as [-> Hn']. rewrite Hlen in Hn'. eauto. }
  destruct (Hf 12%nat 0 ltac:(lia) ltac:(lia)) as ([k|] & -> & Hr); bind; [|apply parses_none]. apply parses_some; [lia|by eapply Hr].
Qed.

(** Progress of a round, up to a separator that the end of the round skips. *)
Definition word_ok (sp : list Z) (p : nat) (r : option (option (bool * other_state))) : Prop :=
  exists r0, r = Some r0 /\ forall cont st, r0 = Some (cont, st) -> past sp p st /\
    ((p < o_p st)%nat \/ (cont = false /\ sp !! o_p st = Some 47)).

Lemma word_none sp p : word_ok sp p (Some None).
Proof. by exists None. Qed.
Lemma word_some sp p cont st : past sp (S p) st -> word_ok sp p (Some (Some (cont, st))).
Proof. intros [Hp Hn]. eexists. split; [done|]. intros ? ? [= <- <-]. split; [split; [lia|done]|lia]. Qed.

Lemma other_phrase_ok sp c st : nul_from sp (o_p st) -> sp !! o_p st = Some c -> c <> 0 -> c <> 32 -> c <> 45 ->
  word_ok sp (o_p st) (other_phrase sp c st).
Proof.
  intros Hn Hc H0 Hsp Hmi. unfold other_phrase. cbv zeta. destruct (Z.eqb_spec c 40) as [->|Hpar].
  { destruct (paren_loop_ok (length sp) sp (o_p st) 0 Hn ltac:(lia)) as (p' & l' & -> & Hp & Hn' & Hs). bind.
    destruct (0 <? l'); [apply word_none|]. apply word_some. split; cbn; [by apply (Hs 40)|done]. }
  destruct (c =? 41); [apply word_none|]. destruct (negb _); [apply word_none|].
  destruct (skip_while_ok (fun c => negb ((c =? 0) || bool_decide (c ∈ bytes_of_string " -/("))) (length sp) sp (o_p st)) as (x & p' & E & Hp & Hn' & Hx & _ & Hs);
    [done|done|lia|]. unfold string_skip_until. rewrite E. bind. eexists. split; [done|]. intros ? ? [= <- <-]. split; [by split|].
  destruct (decide (c = 47)) as [->|Hne].
  - cbn. destruct (decide (p' = o_p st)) as [->|]; [right; done|left; lia].
  - left. apply (Hs c); [done|]. rewrite (proj2 (Z.eqb_neq c 0)) by done. rewrite bool_decide_false; [done|].
    change (bytes_of_string " -/(") with [32; 45; 47; 40]. set_solver.
Qed.

Lemma tzabbr_names : Forall (fun x => Forall (fun c => c <> 0) x.1 /\ (1 <= length x.1)%nat) js_tzabbr.
Proof. unfold js_tzabbr. repeat constructor; cbn; lia. Qed.

Lemma other_word_ok sp c st : nul_from sp (o_p st) -> sp !! o_p st = Some c -> c <> 0 -> c <> 32 -> c <> 45 ->
  word_ok sp (o_p st) (other_word sp c st).
Proof.
  intros Hn Hc H0 Hsp Hmi. unfold other_word. cbv zeta.
  destruct (string_get_month_ok sp (o_p st) Hn) as (month & -> & Hmonth). bind.
  assert (Hap : forall s, Forall (fun x => x <> 0) s -> length s = 2%nat ->
    exists r, (if o_has_time st then string_match sp (o_p st) s else Some None) = Some r /\
      forall p', r = Some p' -> (S (o_p st) <= p')%nat /\ nul_from sp p').
  { intros s Hs Hl. destruct (o_has_time st); [|by exists None]. destruct (string_match_ok sp (o_p st) s Hn Hs) as (r & -> & Hr). exists r.
    split; [done|]. intros p' E. destruct (Hr p' E) as [-> ?]. split; [lia|done]. }
  destruct (Hap (bytes_of_string "PM")) as (pm & -> & Hpm); [by repeat constructor|done|]. bind.
  destruct (Hap (bytes_of_string "AM")) as (am & -> & Ham); [by repeat constructor|done|]. bind.
  destruct (string_get_tzabbr_ok sp (o_p st) js_tzabbr Hn tzabbr_names) as (zone & -> & Hzone). bind.
  destruct month as [[mon p]|].
  { destruct (Hmonth mon p eq_refl) as [Hp Hn']. unfold string_skip_until.
    edestruct (skip_while_ok (fun c => negb ((c =? 0) || bool_decide (c ∈ bytes_of_string "0123456789 -/("))) (length sp) sp p)
      as (x & p' & E & Hp' & Hn'' & _); [done|done|lia|]. rewrite E. bind. apply word_some. split; cbn; [lia|done]. }
  destruct pm as [p|]; [destruct (Hpm p eq_refl); apply word_some; split; cbn; lia || done|].
  destruct am as [p|]; [destruct (Ham p eq_refl); apply word_some; split; cbn; lia || done|].
  destruct zone as [[off p]|]; [destruct (Hzone off p eq_refl); apply word_some; split; cbn; lia || done|].
  by apply other_phrase_ok.
Qed.

Lemma moves_word sp p r : moves sp (S p) r -> word_ok sp p (on_true r (fun st => Some (Some (false, st)))).
Proof.
  intros (r0 & -> & Hr). unfold on_true. bind. destruct r0 as [st|]; [|apply word_none]. apply word_some. by apply Hr.
Qed.

Lemma other_step_ok sp c st : nul_from sp (o_p st) -> sp !! o_p st = Some c -> c <> 0 -> c <> 32 -> moves sp (S (o_p st)) (other_step sp c st).
Proof.
  intros Hn Hc H0 Hsp. unfold other_step. cbv zeta.
  match goal with |- moves _ _ (on_true ?r _) => assert (Hw : word_ok sp (o_p st) r) end.
  { destruct ((c =? ch_plus) || (c =? ch_minus)) eqn:E; [by apply moves_word, other_sign_ok|].
    destruct (string_get_digits_ok sp (o_p st) 1 0 Hn) as ([[v p]|] & -> & Hr); bind.
    - destruct (Hr v p eq_refl). apply moves_word, other_number_ok; [lia|done].
    - apply other_word_ok; try done. unfold ch_plus, ch_minus in E. lia. }
  destruct Hw as (r0 & -> & Hr). unfold on_true. bind. destruct r0 as [[cont st']|]; [|apply moves_none].
  destruct (Hr cont st' eq_refl) as [[Hp' Hn'] Hprog]. destruct cont.
  - apply moves_some. destruct Hprog as [?|[? _]]; [by split|done].
  - unfold string_skip_separators.
    edestruct (skip_while_ok (fun c => (c =? 45) || (c =? 47) || (c =? 46) || (c =? 44)) (length sp) sp (o_p st')) as (x & q & -> & Hq & Hnq & _ & _ & Hs);
      [done|done|lia|]. bind. apply moves_some. split; cbn; [|done]. destruct Hprog as [?|[_ E]]; [lia|]. specialize (Hs 47 E eq_refl). lia.
Qed.

Lemma other_loop_ok fuel sp st : nul_from sp (o_p st) -> (length sp <= o_p st + fuel)%nat -> exists r, other_loop fuel sp st = Some r.
Proof.
  revert st. induction fuel as [|fuel IH]; intros st Hn Hl; cbn [other_loop]; unfold string_skip_spaces;
    edestruct (skip_while_ok (Z.eqb 32) (length sp) sp (o_p st)) as (c & p & -> & Hp & Hn' & Hc & Hne & _); try done; try lia; bind.
  - destruct (nul_from_lookup sp (o_p st) Hn) as (? & _ & ? & _). lia.
  - destruct (Z.eqb_spec c 0) as [->|H0]; [eauto|].
    destruct (other_step_ok sp c (set_p p st)) as (r0 & -> & Hr); [done|done|done|by intros ->|]. unfold on_true. bind.
    destruct r0 as [st'|]; [|eauto]. destruct (Hr st' eq_refl) as [Hp' Hn'']. cbn in Hp'. apply IH; [done|lia].
Qed.

(** C23: [Date.parse] ends on every string, of whatever length and characters,
    and both parsers read only inside the text: no access before its start or
    after its NUL, in the 128 bytes the string is copied to. *)
Theorem date_parse_total tz s : (length (date_bytes s) <= 128)%nat /\ exists r, js_Date_parse tz s = Some r.
Proof.
  split; [unfold date_bytes; rewrite length_app, length_map, length_take; cbn [length]; lia|].
  assert (Hn : nul_from (date_bytes s) 0).
  { eexists (length (map _ (take 127 s))). split; [lia|]. unfold date_bytes. apply list_lookup_middle. reflexivity. }
  unfold js_Date_parse. cbv zeta. destruct (parse_isostring_ok _ Hn) as (r & ->). bind. destruct r as [x|]; bind; [eauto|].
  unfold js_date_parse_otherstring.
  destruct (other_loop_ok (length (date_bytes s)) (date_bytes s) (mk_other 0 [2001; 1; 1; 0; 0; 0; 0; 0; 0] true [] false false false) Hn) as (r & ->); [cbn; lia|].
  unfold on_true. bind. destruct r as [st|]; bind; eauto.
Qed.
