(* ===== verification/DateIso.v ===== *)
(** * [toISOString] is read back by [Date.parse] (quickjs.c)

    The printed form of a time value, digit by digit, and the run of the first
    parser over it. *)
From S2P Require Import Prelude Sort Digits Date DateProps.

(** ** Digits *)
Lemma fixed_digits_range k n : Forall (fun d => 0 <= d < 10) (fixed_digits 10 k n).
Proof.
  revert n. induction k as [|k IH]; intros n; cbn [fixed_digits]; [done|]. apply Forall_app. split; [apply IH|].
  constructor; [|done]. apply Z.mod_pos_bound. lia.
Qed.

Lemma fixed_digits_acc k acc n : 0 <= n < 10 ^ Z.of_nat k -> digits_acc 10 acc (fixed_digits 10 k n) = acc * 10 ^ Z.of_nat k + n.
Proof.
  revert n. induction k as [|k IH]; intros n Hn; cbn [fixed_digits]; [cbn in *; lia|].
  rewrite Nat2Z.inj_succ, Z.pow_succ_r in Hn |- * by lia. rewrite digits_acc_app, IH by (split; [apply Z.div_pos|apply Z.div_lt_upper_bound]; lia).
  cbn. pose proof (Z.div_mod n 10). lia.
Qed.

(** The padded text of a number is its fixed number of digits. *)
Lemma pad_digits k n : 0 <= n < 10 ^ Z.of_nat (S k) ->
  replicate (S k - length (to_digits 10 n)) 0 ++ to_digits 10 n = fixed_digits 10 (S k) n.
Proof.
  revert n. induction k as [|k IH]; intros n Hn; rewrite to_digits_eq by lia; destruct (Z.ltb_spec n 10) as [Hlt|Hge].
  - cbn. rewrite Z.mod_small by lia. done.
  - cbn in Hn. lia.
  - cbn [fixed_digits]. assert (Hz : 0 <= n / 10 < 10 ^ Z.of_nat (S k)) by (rewrite Z.div_small by lia; split; [lia|apply Z.pow_pos_nonneg; lia]).
    specialize (IH (n / 10) Hz). cbn [fixed_digits] in IH. rewrite <- IH, Z.div_small, Z.mod_small by lia. change (to_digits 10 0) with [0].
    cbn [length]. rewrite !Nat.sub_succ, !Nat.sub_0_r. rewrite <- app_assoc. cbn [app]. change (replicate (S k) 0) with (0 :: replicate k 0).
    rewrite replicate_cons_app. by rewrite <- app_assoc.
  - assert (Hz : 0 <= n / 10 < 10 ^ Z.of_nat (S k)).
    { rewrite Nat2Z.inj_succ, Z.pow_succ_r in Hn by lia. split; [apply Z.div_pos|apply Z.div_lt_upper_bound]; lia. }
    specialize (IH (n / 10) Hz). rewrite length_app. cbn [length]. replace (S (S k) - (length (to_digits 10 (n / 10)) + 1))%nat
      with (S k - length (to_digits 10 (n / 10)))%nat by lia. rewrite app_assoc, IH. done.
Qed.

Definition text (k : nat) (n : Z) : list Z := Z.add ch_0 <$> fixed_digits 10 k n.

Lemma text_length k n : length (text k n) = k.
Proof. unfold text. by rewrite length_fmap, fixed_digits_length. Qed.

Lemma pad_int_text k n : 0 <= n < 10 ^ Z.of_nat (S k) -> pad_int false (S k) n = text (S k) n.
Proof.
  intros Hn. unfold pad_int, text. rewrite (proj2 (Z.ltb_ge n 0)), Z.abs_eq by lia. cbn [app length]. rewrite Nat.sub_0_r, length_fmap.
  rewrite <- pad_digits by done. by rewrite fmap_app, fmap_replicate.
Qed.
Lemma pad_int_signed k n : 0 < Z.abs n < 10 ^ Z.of_nat (S k) ->
  pad_int true (S (S k)) n = (if n <? 0 then ch_minus else ch_plus) :: text (S k) (Z.abs n).
Proof.
  intros Hn. unfold pad_int, text. rewrite <- pad_digits by lia. rewrite fmap_app, fmap_replicate.
  destruct (n <? 0); cbn [app length]; by rewrite length_fmap, Nat.sub_succ, Nat.sub_0_r.
Qed.

(** ** The text at an offset *)
Lemma drop_cons_inv {A} (sp : list A) p c l : drop p sp = c :: l -> sp !! p = Some c /\ drop (S p) sp = l.
Proof.
  intros H. split.
  - rewrite <- (Nat.add_0_r p), <- lookup_drop, H. done.
  - rewrite <- Nat.add_1_r, <- drop_drop, H. done.
Qed.
Lemma drop_app_inv {A} (sp : list A) p a l : drop p sp = a ++ l -> drop (p + length a) sp = l.
Proof. intros H. rewrite <- drop_drop, H. by rewrite drop_app_length. Qed.
Lemma drop_length {A} (sp : list A) p l : drop p sp = l -> (length l <= length sp)%nat.
Proof. intros <-. rewrite length_drop. lia. Qed.

Lemma digits_acc_ge ds acc : Forall (fun d => 0 <= d < 10) ds -> 0 <= acc -> acc <= digits_acc 10 acc ds.
Proof.
  intros Hds. revert acc. induction Hds as [|d ds Hd Hds IH]; intros acc Ha; cbn; [lia|]. specialize (IH (acc * 10 + d) ltac:(lia)). lia.
Qed.

Lemma digits_loop_run ds rest fuel sp p0 p v :
  Forall (fun d => 0 <= d < 10) ds -> ds <> [] -> drop p sp = (Z.add ch_0 <$> ds) ++ rest -> 0 <= v -> digits_acc 10 v ds < 10 ^ 9 ->
  (p0 <= p)%nat -> (length ds <= fuel)%nat ->
  digits_loop fuel sp p0 p v (p - p0 + length ds) = Some (Some (digits_acc 10 v ds, p + length ds)%nat).
Proof.
  intros Hds. revert fuel p v. induction Hds as [|d ds Hd Hds IH]; intros fuel p v Hne Hdrop Hv Hmax Hp Hf; [done|].
  cbn [fmap list_fmap app] in Hdrop. destruct (drop_cons_inv _ _ _ _ Hdrop) as [Hc Hrest]. unfold ch_0 in Hc.
  destruct fuel as [|fuel]; [cbn in Hf; lia|]. cbn [digits_loop]. rewrite Hc. bind.
  rewrite (proj2 (Z.leb_le 48 _)), (proj2 (Z.leb_le _ 57)) by lia. cbn [andb].
  cbn [digits_acc] in Hmax. pose proof (digits_acc_ge ds (v * 10 + d) Hds ltac:(lia)).
  rewrite (proj2 (Z.leb_gt 100000000 v)) by lia. replace (v * 10 + (48 + d) - 48) with (v * 10 + d) by lia.
  destruct ds as [|d2 ds'].
  - rewrite (proj2 (Nat.eqb_eq _ _)) by (cbn; lia). cbn. do 3 f_equal. lia.
  - rewrite (proj2 (Nat.eqb_neq _ _)) by (cbn; lia).
    replace (p - p0 + length (d :: d2 :: ds'))%nat with (S p - p0 + length (d2 :: ds'))%nat by (cbn; lia).
    rewrite IH; try done; [|lia|lia|cbn in Hf |- *; lia]. cbn [digits_acc length]. do 3 f_equal. lia.
Qed.

(** A field of exactly [k] digits. *)
Lemma get_digits_text k n rest sp p : (1 <= k <= 8)%nat -> 0 <= n < 10 ^ Z.of_nat k -> drop p sp = text k n ++ rest ->
  string_get_digits sp p k k = Some (Some (n, (p + k)%nat)) /\ drop (p + k) sp = rest.
Proof.
  intros Hk Hn Hd. split; [|rewrite <- (text_length k n); by apply drop_app_inv].
  unfold string_get_digits. pose proof (fixed_digits_length 10 k n) as Hlen. pose proof (fixed_digits_acc k 0 n Hn) as Hval.
  assert (Hsp : (k <= length sp)%nat) by (apply drop_length in Hd; rewrite length_app, text_length in Hd; lia).
  pose proof (digits_loop_run (fixed_digits 10 k n) rest (length sp) sp p p 0 (fixed_digits_range k n)) as Hrun.
  rewrite Hlen, Nat.sub_diag in Hrun. cbn [Nat.add] in Hrun. rewrite Hrun; [|intros E; rewrite E in Hlen; cbn in Hlen; lia|done|lia| |lia|done].
  - bind. rewrite Hval. replace (0 * 10 ^ Z.of_nat k + n) with n by lia. rewrite (proj2 (Nat.ltb_ge _ _)) by lia. done.
  - rewrite Hval. assert (10 ^ Z.of_nat k <= 10 ^ 8) by (apply Z.pow_le_mono_r; lia). lia.
Qed.

Lemma skip_char_hit sp p c rest : drop p sp = c :: rest -> string_skip_char sp p c = Some (true, S p) /\ drop (S p) sp = rest.
Proof.
  intros H. destruct (drop_cons_inv _ _ _ _ H) as [Hc Hr]. unfold string_skip_char. rewrite Hc. bind. by rewrite Z.eqb_refl.
Qed.

(** Three digits of milliseconds. *)
Lemma ms_loop_text n rest sp p : 0 <= n < 1000 -> drop p sp = text 3 n ++ 90 :: rest ->
  ms_loop (length sp) sp p p 0 100 = Some (n, (p + 3)%nat) /\ drop (p + 3) sp = 90 :: rest.
Proof.
  intros Hn Hd. split; [|change 3%nat with (length (text 3 n)); by apply drop_app_inv].
  assert (Hlen : (4 <= length sp)%nat) by (apply drop_length in Hd; rewrite length_app, text_length in Hd; cbn in Hd; lia).
  unfold text in Hd. cbn [fixed_digits app fmap list_fmap] in Hd. set (a := n / 10 / 10 mod 10) in *. set (b := n / 10 mod 10) in *. set (c := n mod 10) in *.
  assert (Hv : n = 100 * a + 10 * b + c /\ 0 <= a < 10 /\ 0 <= b < 10 /\ 0 <= c < 10) by (unfold a, b, c; mod_lia).
  clearbody a b c. unfold ch_0 in Hd. destruct (drop_cons_inv _ _ _ _ Hd) as [Ha Hd1]. destruct (drop_cons_inv _ _ _ _ Hd1) as [Hb Hd2].
  destruct (drop_cons_inv _ _ _ _ Hd2) as [Hc Hd3]. destruct (drop_cons_inv _ _ _ _ Hd3) as [Hz _].
  destruct (length sp) as [|[|[|[|f]]]]; try lia. cbn [ms_loop]. rewrite Ha. bind.
  rewrite (proj2 (Z.leb_le 48 (48 + a))), (proj2 (Z.leb_le (48 + a) 57)), (proj2 (Nat.eqb_neq (S p - p) 9)) by lia. cbn [andb]. rewrite Hb. bind.
  rewrite (proj2 (Z.leb_le 48 (48 + b))), (proj2 (Z.leb_le (48 + b) 57)), (proj2 (Nat.eqb_neq (S (S p) - p) 9)) by lia. cbn [andb]. rewrite Hc. bind.
  rewrite (proj2 (Z.leb_le 48 (48 + c))), (proj2 (Z.leb_le (48 + c) 57)), (proj2 (Nat.eqb_neq (S (S (S p)) - p) 9)) by lia. cbn [andb]. rewrite Hz. bind.
  change (Z.quot (Z.quot 100 10) 10) with 1. change (Z.quot 100 10) with 10. cbn [Z.leb Z.compare Pos.compare Pos.compare_cont andb]. 
  do 2 f_equal; lia.
Qed.

Lemma get_milliseconds_text n rest sp p old : 0 <= n < 1000 -> drop p sp = 46 :: text 3 n ++ 90 :: rest ->
  string_get_milliseconds sp p old = Some (n, (p + 4)%nat) /\ drop (p + 4) sp = 90 :: rest.
Proof.
  intros Hn Hd. destruct (drop_cons_inv _ _ _ _ Hd) as [Hc Hr]. destruct (ms_loop_text n rest sp (S p) Hn Hr) as [Hm Hd'].
  unfold string_get_milliseconds. rewrite Hc. bind. cbn [Z.eqb Pos.eqb orb]. rewrite Hm. bind. rewrite (proj2 (Nat.ltb_lt _ _)) by lia.
  replace (p + 4)%nat with (S p + 3)%nat by lia. done.
Qed.

(** ** The text of a date *)
Definition year_text (y : Z) : list Z :=
  if (0 <=? y) && (y <=? 9999) then text 4 y else (if y <? 0 then ch_minus else ch_plus) :: text 6 (Z.abs y).
Definition iso_text (y : Z) (mon : nat) (d h m s ms : Z) : list Z :=
  year_text y ++ 45 :: text 2 (Z.of_nat mon + 1) ++ 45 :: text 2 d ++ 84 :: text 2 h ++ 58 :: text 2 m ++ 58 :: text 2 s ++ 46 :: text 3 ms ++ [90].

Lemma month_length_31 y mon : (mon < 12)%nat -> month_length y mon <= 31.
Proof. intros H. by apply month_length_pos. Qed.

Lemma year_text_length y : (length (year_text y) <= 7)%nat.
Proof. unfold year_text. destruct (_ && _); cbn [length]; rewrite text_length; lia. Qed.

Lemma iso_string tz t y mon d h m s ms wd : -271821 <= y <= 275760 -> valid_fields y mon d h m s ms ->
  get_date_fields tz (Some t) false false = Some (Some [y; Z.of_nat mon; d; h; m; s; ms; wd; 0]) ->
  get_date_string tz (Some t) 2 3 = Some (DateText (iso_text y mon d h m s ms)).
Proof.
  intros Hy [Hmon Hd Hh Hm Hs Hms] E. pose proof (month_length_31 y mon Hmon). unfold get_date_string. change (Z.testbit 2 0) with false.
  rewrite E. bind. change (Z.testbit 3 0) with true. change (Z.testbit 3 1) with true. unfold date_part, time_part, field. cbn [default lookup list_lookup].
  cbn [Z.eqb Pos.eqb]. unfold id.
  assert (Ey : (if (0 <=? y) && (y <=? 9999) then pad_int false 4 y else pad_int true 7 y) = year_text y).
  { unfold year_text. destruct (Z.leb_spec 0 y), (Z.leb_spec y 9999); cbn [andb]; try lia; [apply pad_int_text|apply pad_int_signed..]; cbn; lia. }
  rewrite Ey, !pad_int_text by (cbn; lia). pose proof (year_text_length y).
  unfold emit. rewrite (proj2 (Nat.ltb_lt _ _)) by (cbn [length]; lia). bind. cbn [app].
  rewrite (proj2 (Nat.ltb_lt _ _)) by (repeat first [rewrite length_app|rewrite text_length|progress cbn [length bytes_of_string]]; cbn; lia). bind.
  rewrite (proj2 (Nat.ltb_lt _ _)) by (repeat first [rewrite length_app|rewrite text_length|progress cbn [length bytes_of_string]]; cbn; lia). bind.
  do 2 f_equal. unfold iso_text. cbn. by rewrite <- !app_assoc.
Qed.

(** ** Parsing it *)
Lemma on_true_some {A B} (a : A) (k : A -> option (option B)) : on_true (Some (Some a)) k = k a.
Proof. reflexivity. Qed.

Lemma iso_year_text y rest sp : -271821 <= y <= 275760 -> drop 0 sp = year_text y ++ rest ->
  exists p, iso_year sp = Some (Some (y, p)) /\ drop p sp = rest.
Proof.
  intros Hy Hd. unfold iso_year, year_text in *. destruct ((0 <=? y) && (y <=? 9999)) eqn:E.
  - destruct (get_digits_text 4 y rest sp 0 ltac:(lia) ltac:(cbn; lia) Hd) as [Hg Hr]. exists 4%nat.
    assert (H0 : exists c, sp !! 0%nat = Some c /\ 48 <= c <= 57).
    { unfold text in Hd. cbn [fixed_digits app fmap list_fmap] in Hd. destruct (drop_cons_inv _ _ _ _ Hd) as [Hc _]. eexists. split; [exact Hc|].
      unfold ch_0. pose proof (Z.mod_pos_bound (y / 10 / 10 / 10) 10). lia. }
    destruct H0 as (c & -> & Hc). bind. unfold ch_minus, ch_plus. rewrite (proj2 (Z.eqb_neq c 45)), (proj2 (Z.eqb_neq c 43)) by lia. done.
  - cbn [app] in Hd. destruct (drop_cons_inv _ _ _ _ Hd) as [Hc Hr]. rewrite Hc. bind.
    destruct (get_digits_text 6 (Z.abs y) rest sp 1 ltac:(lia) ltac:(cbn; lia) Hr) as [Hg Hr']. exists 7%nat. unfold on_true. rewrite Hg.
    destruct (Z.ltb_spec y 0) as [Hneg|Hpos]; cbn [Z.eqb Pos.eqb orb ch_minus ch_plus]; bind.
    + rewrite (proj2 (Z.eqb_neq (Z.abs y) 0)) by lia. split; [|done]. do 3 f_equal. lia.
    + split; [|done]. do 3 f_equal. lia.
Qed.

Lemma iso_parse y mon d h m s ms sp : -271821 <= y <= 275760 -> valid_fields y mon d h m s ms ->
  sp = iso_text y mon d h m s ms ++ [0] ->
  js_date_parse_isostring sp = Some (Some ([y; Z.of_nat mon; d; h; m; s; ms; 0; 0], false)).
Proof.
  intros Hy [Hmon Hd Hh Hm Hs Hms] Esp. pose proof (month_length_31 y mon Hmon).
  assert (D0 : drop 0 sp = iso_text y mon d h m s ms ++ [0]) by done. unfold iso_text in D0. repeat (rewrite <- app_assoc in D0; cbn [app] in D0).
  destruct (iso_year_text y _ sp Hy D0) as (p & Ey & D1). unfold js_date_parse_isostring. cbv zeta.
  destruct (skip_char_hit _ _ _ _ D1) as [S1 D2]. destruct (get_digits_text 2 (Z.of_nat mon + 1) _ sp _ ltac:(lia) ltac:(cbn; lia) D2) as [G1 D3].
  destruct (skip_char_hit _ _ _ _ D3) as [S2 D4]. destruct (get_digits_text 2 d _ sp _ ltac:(lia) ltac:(cbn; lia) D4) as [G2 D5].
  destruct (skip_char_hit _ _ _ _ D5) as [S3 D6]. destruct (get_digits_text 2 h _ sp _ ltac:(lia) ltac:(cbn; lia) D6) as [G3 D7].
  destruct (skip_char_hit _ _ _ _ D7) as [S4 D8]. destruct (get_digits_text 2 m _ sp _ ltac:(lia) ltac:(cbn; lia) D8) as [G4 D9].
  destruct (skip_char_hit _ _ _ _ D9) as [S5 D10]. destruct (get_digits_text 2 s _ sp _ ltac:(lia) ltac:(cbn; lia) D10) as [G5 D11].
  destruct (get_milliseconds_text ms [0] sp _ 0 Hms D11) as [G6 D12].
  destruct (drop_cons_inv _ _ _ _ D12) as [C1 D13]. destruct (drop_cons_inv _ _ _ _ D13) as [C2 _].
  assert (Edate : iso_date sp p (<[0%nat:=y]> [0; 0; 1; 0; 0; 0; 0; 0; 0]) = Some (Some ([y; Z.of_nat mon; d; 0; 0; 0; 0; 0; 0], (S (S p + 2) + 2)%nat))).
  { unfold iso_date. rewrite S1. bind. rewrite G1, on_true_some, (proj2 (Z.ltb_ge (Z.of_nat mon + 1) 1)) by lia.
    rewrite S2. bind. rewrite G2, on_true_some, (proj2 (Z.ltb_ge d 1)) by lia.
    replace (Z.of_nat mon + 1 - 1) with (Z.of_nat mon) by lia. reflexivity. }
  assert (Ehm : iso_hour_minute sp (S (S (S p + 2) + 2)) = Some (Some (h, m, (S (S (S (S p + 2) + 2) + 2) + 2)%nat))).
  { unfold iso_hour_minute. rewrite G3, on_true_some, S4. bind. by rewrite G4, on_true_some. }
  assert (Esec : iso_seconds sp (S (S (S (S p + 2) + 2) + 2) + 2) [y; Z.of_nat mon; d; h; m; 0; 0; 0; 0] =
    Some (Some ([y; Z.of_nat mon; d; h; m; s; ms; 0; 0], (S (S (S (S (S p + 2) + 2) + 2) + 2) + 2 + 4)%nat))).
  { unfold iso_seconds. rewrite S5. bind. rewrite G5, on_true_some. cbv zeta.
    change (field (<[5%nat:=s]> [y; Z.of_nat mon; d; h; m; 0; 0; 0; 0]) 6) with 0. rewrite G6. bind. reflexivity. }
  rewrite Ey, on_true_some, Edate, on_true_some, S3. bind. rewrite Ehm. bind.
  change (<[4%nat:=m]> (<[3%nat:=h]> [y; Z.of_nat mon; d; 0; 0; 0; 0; 0; 0])) with [y; Z.of_nat mon; d; h; m; 0; 0; 0; 0].
  rewrite Esec, on_true_some. unfold iso_zone. rewrite C1. bind. cbn [Z.eqb Pos.eqb]. unfold string_get_tzoffset. rewrite C1. bind.
  cbn [Z.eqb Pos.eqb orb negb ch_plus ch_minus]. rewrite on_true_some, C2. reflexivity.
Qed.

Lemma date_bytes_small s : Forall (fun c => c <= 255) s -> (length s <= 127)%nat -> date_bytes s = s ++ [0].
Proof.
  intros Hs Hl. unfold date_bytes. rewrite take_ge by done. f_equal. rewrite <- (list_fmap_id s) at 2. apply Forall_fmap_ext_1.
  eapply Forall_impl; [exact Hs|]. intros c Hc. cbn in Hc |- *. by rewrite (proj2 (Z.ltb_ge 255 c)).
Qed.

Lemma text_small k n : Forall (fun c => c <= 255) (text k n).
Proof. apply Forall_fmap. eapply Forall_impl; [apply fixed_digits_range|]. intros d Hd. cbv beta in Hd. cbn. unfold ch_0. lia. Qed.

Lemma iso_text_small y mon d h m s ms : Forall (fun c => c <= 255) (iso_text y mon d h m s ms) /\ (length (iso_text y mon d h m s ms) <= 127)%nat.
Proof.
  pose proof (year_text_length y). split.
  - unfold iso_text, year_text. repeat first [apply text_small|apply Forall_app; split|apply Forall_cons; split|destruct (_ && _)]; try done; try lia.
    all: destruct (y <? 0); unfold ch_minus, ch_plus; lia.
  - unfold iso_text. repeat first [rewrite length_app|rewrite text_length|progress cbn [length]]. lia.
Qed.

Lemma fields_valid_ok y mon d h m s ms : valid_fields y mon d h m s ms -> fields_valid [y; Z.of_nat mon; d; h; m; s; ms; 0; 0] = true.
Proof.
  intros [Hmon Hd Hh Hm Hs Hms]. pose proof (month_length_31 y mon Hmon). unfold fields_valid, field, field_max. cbn [forallb default lookup list_lookup].
  unfold id. rewrite (proj2 (Z.eqb_neq h 24)) by lia. cbn [andb negb]. lia.
Qed.

(** C22: what [toISOString] prints, [Date.parse] reads back: for every time
    value of the range of Date, in whatever time zone, the printed text parses
    to the same value. *)
Theorem iso_string_roundtrip tz t : -8640000000000000 <= t <= 8640000000000000 ->
  exists s, get_date_string tz (Some t) 2 3 = Some (DateText s) /\ js_Date_parse tz s = Some (Some t).
Proof.
  intros Ht. destruct (get_date_fields_spec tz t false) as (y & mon & d & h & m & s & ms & E & Hv & Et).
  assert (Hr : -8640000000000000 <= time_of y mon d h m s ms <= 8640000000000000) by by rewrite <- Et.
  pose proof (year_range _ _ _ _ _ _ _ Hv Hr) as Hy. exists (iso_text y mon d h m s ms). split; [by eapply iso_string|].
  destruct (iso_text_small y mon d h m s ms) as [Hsm Hlen]. unfold js_Date_parse. cbv zeta. rewrite date_bytes_small by done.
  rewrite (iso_parse y mon d h m s ms) by done. bind. rewrite fields_valid_ok by done. cbn [take]. rewrite set_date_fields_spec by done.
  unfold field. cbn [default lookup list_lookup]. change (- (id 0 * 60000)) with 0. rewrite dadd_small by lia. do 2 f_equal. lia.
Qed.

Lemma iso_string_roundtrip_witness : -8640000000000000 <= -1 <= 8640000000000000 /\
  exists s, get_date_string utc (Some (-1)) 2 3 = Some (DateText s) /\ js_Date_parse utc s = Some (Some (-1)).
Proof. split; [lia|]. apply (iso_string_roundtrip utc (-1)). lia. Defined.

(** A time zone can take the result out of the range of Date, which is not
    checked again: this is one minute past the last time value. *)
Example parse_past_the_end : js_Date_parse utc (bytes_of_string "+275760-09-13T00:00:00.000-00:01") = Some (Some 8640000000060000).
Proof. vm_compute. reflexivity. Qed.
(** And a valid time value is refused when the local text is past the end. *)
Example parse_refused : js_Date_parse utc (bytes_of_string "+275760-09-13T00:01:00.000+00:01") = Some None.
Proof. vm_compute. reflexivity. Qed.
