(* ===== verification/Regexp.v ===== *)
(** * The regular expression executor (libregexp.c)

    The backtracking interpreter of compiled regular expressions:
    [lre_exec_backtrack] and [lre_exec].  The bytecode is a list of bytes and
    [pc] an offset in it; a pointer to a character is an address, because the
    executor compares such pointers with NULL and keeps them in the same
    [capture] array as the loop counters.

    The executor keeps its captures in one array and makes room for
    backtracking with one stack, on which it pushes saved states (where to
    resume) and undo records (what a capture contained).  The instructions use
    that storage only through the macros [SAVE_CAPTURE], [SAVE_CAPTURE_CHECK]
    and [CHECK_STACK_SPACE] and the pushes and pops of states; here these are
    the operations of the class [Backtrack], the instructions are written
    against the class, and the instance [undo_backtrack] is the code's stack.

    A read outside the bytecode, the input, the captures or the stack, a read
    of another member of the union [StackElem] than the one written, a failed
    assertion and [abort()] are the outcome [Wrong]. *)
From S2P Require Import Prelude Sort UnicodeTables UnicodeCase.

(** ** Opcodes (libregexp-opcode.h) *)
Inductive REOPCodeEnum :=
| REOP_invalid | REOP_char | REOP_char_i | REOP_char32 | REOP_char32_i
| REOP_dot | REOP_any | REOP_space | REOP_not_space
| REOP_line_start | REOP_line_start_m | REOP_line_end | REOP_line_end_m
| REOP_goto | REOP_split_goto_first | REOP_split_next_first
| REOP_match | REOP_lookahead_match | REOP_negative_lookahead_match
| REOP_save_start | REOP_save_end | REOP_save_reset
| REOP_loop | REOP_loop_split_goto_first | REOP_loop_split_next_first
| REOP_loop_check_adv_split_goto_first | REOP_loop_check_adv_split_next_first
| REOP_set_i32
| REOP_word_boundary | REOP_word_boundary_i | REOP_not_word_boundary | REOP_not_word_boundary_i
| REOP_back_reference | REOP_back_reference_i
| REOP_backward_back_reference | REOP_backward_back_reference_i
| REOP_range | REOP_range_i | REOP_range32 | REOP_range32_i
| REOP_lookahead | REOP_negative_lookahead
| REOP_set_char_pos | REOP_check_advance | REOP_prev.

#[export] Instance REOPCodeEnum_eq_dec : EqDecision REOPCodeEnum.
Proof. solve_decision. Defined.

(** [reopcode_info]: the opcodes in order, with the size of an instruction. *)
Definition reopcode_info : list (REOPCodeEnum * Z) :=
  [(REOP_invalid, 1); (REOP_char, 3); (REOP_char_i, 3); (REOP_char32, 5); (REOP_char32_i, 5);
   (REOP_dot, 1); (REOP_any, 1); (REOP_space, 1); (REOP_not_space, 1);
   (REOP_line_start, 1); (REOP_line_start_m, 1); (REOP_line_end, 1); (REOP_line_end_m, 1);
   (REOP_goto, 5); (REOP_split_goto_first, 5); (REOP_split_next_first, 5);
   (REOP_match, 1); (REOP_lookahead_match, 1); (REOP_negative_lookahead_match, 1);
   (REOP_save_start, 2); (REOP_save_end, 2); (REOP_save_reset, 3);
   (REOP_loop, 6); (REOP_loop_split_goto_first, 10); (REOP_loop_split_next_first, 10);
   (REOP_loop_check_adv_split_goto_first, 10); (REOP_loop_check_adv_split_next_first, 10);
   (REOP_set_i32, 6);
   (REOP_word_boundary, 1); (REOP_word_boundary_i, 1);
   (REOP_not_word_boundary, 1); (REOP_not_word_boundary_i, 1);
   (REOP_back_reference, 2); (REOP_back_reference_i, 2);
   (REOP_backward_back_reference, 2); (REOP_backward_back_reference_i, 2);
   (REOP_range, 3); (REOP_range_i, 3); (REOP_range32, 3); (REOP_range32_i, 3);
   (REOP_lookahead, 5); (REOP_negative_lookahead, 5);
   (REOP_set_char_pos, 2); (REOP_check_advance, 2); (REOP_prev, 1)].

Definition opcode_of (b : Z) : option REOPCodeEnum := fst <$> reopcode_info !! Z.to_nat b.

(** ** Constants *)
Definition RE_HEADER_FLAGS : Z := 0.
Definition RE_HEADER_CAPTURE_COUNT : Z := 2.
Definition RE_HEADER_REGISTER_COUNT : Z := 3.
Definition RE_HEADER_BYTECODE_LEN : Z := 4.
Definition RE_HEADER_LEN : Z := 8.
Definition INTERRUPT_COUNTER_INIT : Z := 10000.
Definition LRE_RET_MEMORY_ERROR : Z := -1.
Definition LRE_RET_TIMEOUT : Z := -2.
Definition LRE_FLAG_UNICODE : Z := Z.shiftl 1 4.
Definition LRE_FLAG_NAMED_GROUPS : Z := Z.shiftl 1 7.
Definition LRE_FLAG_UNICODE_SETS : Z := Z.shiftl 1 8.
Definition CP_LS : Z := 0x2028.
Definition CP_PS : Z := 0x2029.

(** ** Bytes of the bytecode (cutils.h) *)
Definition byte_at (tab : list Z) (i : Z) : option Z :=
  if i <? 0 then None else tab !! Z.to_nat i.
Definition get_u16 (tab : list Z) (i : Z) : option Z :=
  b0 ← byte_at tab i; b1 ← byte_at tab (i + 1); Some (b0 + Z.shiftl b1 8).
Definition get_u32 (tab : list Z) (i : Z) : option Z :=
  b0 ← byte_at tab i; b1 ← byte_at tab (i + 1); b2 ← byte_at tab (i + 2); b3 ← byte_at tab (i + 3);
  Some (b0 + Z.shiftl b1 8 + Z.shiftl b2 16 + Z.shiftl b3 24).

(** ** Characters of the input *)
Definition is_hi_surrogate (c : Z) : bool := Z.shiftr c 10 =? Z.shiftr 0xD800 10.
Definition is_lo_surrogate (c : Z) : bool := Z.shiftr c 10 =? Z.shiftr 0xDC00 10.
Definition from_surrogate (hi lo : Z) : Z := 0x10000 + 0x400 * (hi - 0xD800) + (lo - 0xDC00).

Definition is_line_terminator (c : Z) : bool :=
  (c =? 10) || (c =? 13) || (c =? CP_LS) || (c =? CP_PS).

(** The members of [REExecContext] that [lre_exec] sets and nothing changes;
    [input] is the memory from [cbuf] on, by units of one byte ([cbuf_type] 0)
    or two. *)
Record REExecContext := {
  cbuf : Z;
  input : list Z;
  cbuf_end : Z;
  cbuf_type : Z;
  capture_count : Z;
  is_unicode : bool;
}.

Section Chars.
Context (s : REExecContext).

(** [*p], for [p] a [uint8_t *] or a [uint16_t *] as the type says. *)
Definition unit_at (p : Z) : option Z :=
  if p <? cbuf s then None
  else if cbuf_type s =? 0 then input s !! Z.to_nat (p - cbuf s)
  else if (p - cbuf s) mod 2 =? 0 then input s !! Z.to_nat ((p - cbuf s) / 2) else None.

(** [GET_CHAR(c, cptr, cbuf_end, cbuf_type)]: the character and the new [cptr]. *)
Definition GET_CHAR (cptr cend : Z) : option (Z * Z) :=
  if cbuf_type s =? 0 then c ← unit_at cptr; Some (c, cptr + 1)
  else
    c ← unit_at cptr;
    let p := cptr + 2 in
    if is_hi_surrogate c && (cbuf_type s =? 2) then
      if p <? cend then
        c2 ← unit_at p;
        if is_lo_surrogate c2 then Some (from_surrogate c c2, p + 2) else Some (c, p)
      else Some (c, p)
    else Some (c, p).

Definition PEEK_CHAR (cptr cend : Z) : option Z :=
  if cbuf_type s =? 0 then unit_at cptr
  else
    c ← unit_at cptr;
    let p := cptr + 2 in
    if is_hi_surrogate c && (cbuf_type s =? 2) then
      if p <? cend then
        c2 ← unit_at p;
        if is_lo_surrogate c2 then Some (from_surrogate c c2) else Some c
      else Some c
    else Some c.

Definition GET_PREV_CHAR (cptr cstart : Z) : option (Z * Z) :=
  if cbuf_type s =? 0 then c ← unit_at (cptr - 1); Some (c, cptr - 1)
  else
    let p := cptr - 2 in
    c ← unit_at p;
    if is_lo_surrogate c && (cbuf_type s =? 2) then
      if cstart <? p then
        c1 ← unit_at (p - 2);
        if is_hi_surrogate c1 then Some (from_surrogate c1 c, p - 2) else Some (c, p)
      else Some (c, p)
    else Some (c, p).

Definition PEEK_PREV_CHAR (cptr cstart : Z) : option Z :=
  if cbuf_type s =? 0 then unit_at (cptr - 1)
  else
    let p := cptr - 2 in
    c ← unit_at p;
    if is_lo_surrogate c && (cbuf_type s =? 2) then
      if cstart <? p then
        c1 ← unit_at (p - 2);
        if is_hi_surrogate c1 then Some (from_surrogate c1 c) else Some c
      else Some c
    else Some c.

Definition PREV_CHAR (cptr cstart : Z) : option Z :=
  if cbuf_type s =? 0 then Some (cptr - 1)
  else
    let p := cptr - 2 in
    c ← unit_at p;
    if is_lo_surrogate c && (cbuf_type s =? 2) then
      if cstart <? p then
        c1 ← unit_at (p - 2);
        if is_hi_surrogate c1 then Some (p - 2) else Some p
      else Some p
    else Some p.
End Chars.

(** ** Character types (libunicode.h, libunicode.c) *)
Definition UNICODE_C_SPACE : Z := 1.
Definition UNICODE_C_DIGIT : Z := 2.
Definition UNICODE_C_UPPER : Z := 4.
Definition UNICODE_C_LOWER : Z := 8.
Definition UNICODE_C_UNDER : Z := 16.
Definition UNICODE_C_DOLLAR : Z := 32.
Definition UNICODE_C_XDIGIT : Z := 64.

Definition lre_ctype_bits : list Z :=
  let S := UNICODE_C_SPACE in let d := UNICODE_C_DOLLAR in let u := UNICODE_C_UNDER in
  let U := UNICODE_C_UPPER in let L := UNICODE_C_LOWER in
  let XD := Z.lor UNICODE_C_XDIGIT UNICODE_C_DIGIT in
  let XU := Z.lor UNICODE_C_XDIGIT U in let XL := Z.lor UNICODE_C_XDIGIT L in
  replicate 9 0 ++ replicate 5 S ++ replicate 18 0 ++
  [S; 0; 0; 0; d] ++ replicate 11 0 ++ replicate 10 XD ++ replicate 6 0 ++
  [0] ++ replicate 6 XU ++ replicate 20 U ++ [0; 0; 0; 0; u] ++
  [0] ++ replicate 6 XL ++ replicate 20 L ++ replicate 5 0 ++
  replicate 32 0 ++ [S] ++ replicate 95 0.

Definition lre_is_space_byte (c : Z) : option bool :=
  b ← lre_ctype_bits !! Z.to_nat c; Some (negb (Z.land b UNICODE_C_SPACE =? 0)).
Definition lre_is_word_byte (c : Z) : option bool :=
  b ← lre_ctype_bits !! Z.to_nat c;
  Some (negb (Z.land b (Z.lor (Z.lor UNICODE_C_UPPER UNICODE_C_LOWER)
                              (Z.lor UNICODE_C_UNDER UNICODE_C_DIGIT)) =? 0)).

(** [char_range_s], without the length in front, as pairs. *)
Definition char_range_s : list (Z * Z) :=
  [(0x0009, 0x000D + 1); (0x0020, 0x0020 + 1); (0x00A0, 0x00A0 + 1); (0x1680, 0x1680 + 1);
   (0x2000, 0x200A + 1); (0x2028, 0x2029 + 1); (0x202F, 0x202F + 1); (0x205F, 0x205F + 1);
   (0x3000, 0x3000 + 1); (0xFEFF, 0xFEFF + 1)].
Fixpoint space_scan (l : list (Z * Z)) (c : Z) : bool :=
  match l with
  | [] => false
  | (low, high) :: l => if c <? low then false else if c <? high then true else space_scan l c
  end.
Definition lre_is_space_non_ascii (c : Z) : bool := space_scan (drop 2 char_range_s) c.
Definition lre_is_space (c : Z) : option bool :=
  if c <? 256 then lre_is_space_byte c else Some (lre_is_space_non_ascii c).

(** ** Outcomes

    [Val] goes on, [NoMatch] is [goto no_match], [Ret r] is [return r]. *)
Inductive res (S A : Type) :=
| Val (a : A) (s : S)
| NoMatch (s : S)
| Ret (r : Z) (s : S)
| Wrong.
Arguments Val {S A}.
Arguments NoMatch {S A}.
Arguments Ret {S A}.
Arguments Wrong {S A}.

Definition E (S A : Type) : Type := S -> res S A.
Definition eret {S A} (a : A) : E S A := fun s => Val a s.
Definition ebind {S A B} (e : E S A) (k : A -> E S B) : E S B := fun s =>
  match e s with
  | Val a s' => k a s'
  | NoMatch s' => NoMatch s'
  | Ret r s' => Ret r s'
  | Wrong => Wrong
  end.
Definition no_match_if {S} (b : bool) : E S unit := fun s => if b then NoMatch s else Val tt s.
Definition of_opt {S A} (o : option A) : E S A := fun s => match o with Some a => Val a s | None => Wrong end.
Definition assert {S} (b : bool) : E S unit := fun s => if b then Val tt s else Wrong.

Declare Scope re_scope.
Delimit Scope re_scope with re.
#[global] Open Scope re_scope.
Notation "'let!' p ':=' m 'in' k" := (ebind m (fun p => k))
  (at level 10, p as pattern, m at level 200, k at level 200,
   format "'[v' 'let!'  p  ':='  m  'in' '/' k ']'") : re_scope.

(** ** Saved states *)
Inductive REExecStateEnum :=
| RE_EXEC_STATE_SPLIT
| RE_EXEC_STATE_LOOKAHEAD
| RE_EXEC_STATE_NEGATIVE_LOOKAHEAD.
#[export] Instance REExecStateEnum_eq_dec : EqDecision REExecStateEnum.
Proof. solve_decision. Defined.

(** What the instructions use of the storage for captures and backtracking.
    [backtrack] is the loop at [no_match], [lookahead_match] and
    [negative_lookahead_match] the loops of these two opcodes: they give the
    [pc] and [cptr] of the last popped state. *)
Class Backtrack (S : Type) := {
  capture_at : S -> Z -> option Z;
  SAVE_CAPTURE : Z -> Z -> E S unit;
  SAVE_CAPTURE_CHECK : Z -> Z -> E S unit;
  CHECK_STACK_SPACE : Z -> E S unit;
  push_state : Z -> Z -> REExecStateEnum -> E S unit;
  lre_poll_timeout : E S unit;
  backtrack : E S (Z * Z);
  lookahead_match : E S (Z * Z);
  negative_lookahead_match : E S (Z * Z);
}.

(** ** The code's storage: the capture array, and a stack of undo records and
    saved states *)

(** The union [StackElem], with the member that was written last.  [bp.val]
    has 61 bits. *)
Inductive StackElem :=
| E_uninit
| E_ptr (ptr : Z)
| E_val (val : Z)
| E_bp (val : Z) (type : REExecStateEnum).

Definition elem_ptr (e : StackElem) : option Z := match e with E_ptr p => Some p | _ => None end.
Definition elem_val (e : StackElem) : option Z := match e with E_val v => Some v | _ => None end.
Definition elem_bp (e : StackElem) : option (Z * REExecStateEnum) :=
  match e with E_bp v t => Some (v, t) | _ => None end.

(** The functions the embedder provides; [O] is what [opaque] points to.
    [lre_realloc o first size] tells whether the memory is granted. *)
Class LreHost (O : Type) := {
  lre_realloc : O -> bool -> Z -> bool * O;
  lre_check_timeout : O -> bool * O;
}.

(** The mutable members of [REExecContext], the captures and the locals [sp]
    and [bp], as offsets from [stack_buf]; [stack_size] is the length of
    [stack_buf]. *)
Record undo (O : Type) := MkUndo {
  capture : list Z;
  stack_buf : list StackElem;
  is_static : bool; (* stack_buf == static_stack_buf *)
  sp : nat;
  bp : nat;
  interrupt_counter : Z;
  opaque : O;
}.
Arguments MkUndo {O}.
Arguments capture {O}.
Arguments stack_buf {O}.
Arguments is_static {O}.
Arguments sp {O}.
Arguments bp {O}.
Arguments interrupt_counter {O}.
Arguments opaque {O}.

Definition capture_lookup (cap : list Z) (idx : Z) : option Z :=
  if idx <? 0 then None else cap !! Z.to_nat idx.
Definition capture_store (cap : list Z) (idx v : Z) : option (list Z) :=
  _ ← capture_lookup cap idx; Some (<[Z.to_nat idx := v]> cap).
(** [sp[-k]] *)
Definition below (stk : list StackElem) (sp k : nat) : option StackElem :=
  if decide (k <= sp)%nat then stk !! (sp - k)%nat else None.

(** [while (sp > bp) { capture[sp[-2].val] = sp[-1].ptr; sp -= 2; }] *)
Fixpoint undo_loop (fuel : nat) (stk : list StackElem) (cap : list Z) (sp bp : nat)
    : option (list Z * nat) :=
  if decide (bp < sp)%nat then
    match fuel with
    | O => None
    | S fuel =>
        idx ← below stk sp 2 ≫= elem_val;
        v ← below stk sp 1 ≫= elem_ptr;
        cap ← capture_store cap idx v;
        undo_loop fuel stk cap (sp - 2) bp
    end
  else Some (cap, sp).

(** The state under [sp]: its [pc], [cptr], [bp] and type. *)
Definition saved_state (stk : list StackElem) (sp : nat) : option (Z * Z * nat * REExecStateEnum) :=
  pc ← below stk sp 3 ≫= elem_ptr;
  cptr ← below stk sp 2 ≫= elem_ptr;
  '(bp, type) ← below stk sp 1 ≫= elem_bp;
  Some (pc, cptr, Z.to_nat bp, type).

(** [no_match]: pop states, undoing the captures, until one that is not the
    start of a lookahead; [None] in the result is [return 0]. *)
Fixpoint no_match_loop (fuel : nat) (stk : list StackElem) (cap : list Z) (sp bp : nat)
    : option (list Z * nat * nat * option (Z * Z)) :=
  if decide (bp = 0%nat) then Some (cap, sp, bp, None)
  else match fuel with
  | O => None
  | S fuel =>
      '(cap, sp) ← undo_loop sp stk cap sp bp;
      '(pc, cptr, bp, type) ← saved_state stk sp;
      let sp := (sp - 3)%nat in
      if decide (type = RE_EXEC_STATE_LOOKAHEAD) then no_match_loop fuel stk cap sp bp
      else Some (cap, sp, bp, Some (pc, cptr))
  end.

(** [REOP_negative_lookahead_match]: the same, until the start of the
    negative lookahead. *)
Fixpoint neg_match_loop (fuel : nat) (stk : list StackElem) (cap : list Z) (sp bp : nat)
    : option (list Z * nat * nat * (Z * Z)) :=
  match fuel with
  | O => None
  | S fuel =>
      _ ← below stk bp 1 ≫= elem_bp;
      '(cap, sp) ← undo_loop sp stk cap sp bp;
      '(pc, cptr, bp, type) ← saved_state stk sp;
      let sp := (sp - 3)%nat in
      if decide (type = RE_EXEC_STATE_NEGATIVE_LOOKAHEAD) then Some (cap, sp, bp, (pc, cptr))
      else neg_match_loop fuel stk cap sp bp
  end.

(** [REOP_lookahead_match], first loop: pop states without undoing, leaving in
    each the end of its undo records. *)
Fixpoint lookahead_pop (fuel : nat) (stk : list StackElem) (sp bp : nat)
    : option (list StackElem * nat * nat * (Z * Z)) :=
  match fuel with
  | O => None
  | S fuel =>
      let sp1 := sp in
      let sp := bp in
      '(pc, cptr, bp, type) ← saved_state stk sp;
      let stk := <[(sp - 1)%nat := E_ptr (Z.of_nat sp1)]> stk in
      let sp := (sp - 3)%nat in
      if decide (type = RE_EXEC_STATE_LOOKAHEAD) then Some (stk, sp, bp, (pc, cptr))
      else lookahead_pop fuel stk sp bp
  end.

(** [while (sp1 < next_sp) *sp++ = *sp1++;] *)
Fixpoint copy_loop (fuel : nat) (stk : list StackElem) (sp sp1 next_sp : nat)
    : option (list StackElem * nat * nat) :=
  if decide (sp1 < next_sp)%nat then
    match fuel with
    | O => None
    | S fuel => e ← stk !! sp1; copy_loop fuel (<[sp := e]> stk) (S sp) (S sp1) next_sp
    end
  else Some (stk, sp, sp1).

(** second loop: keep the undo records of the popped states *)
Fixpoint lookahead_copy (fuel : nat) (stk : list StackElem) (sp sp1 sp_top : nat)
    : option (list StackElem * nat) :=
  if decide (sp1 < sp_top)%nat then
    match fuel with
    | O => None
    | S fuel =>
        next_sp ← stk !! (sp1 + 2)%nat ≫= elem_ptr;
        let sp1 := (sp1 + 3)%nat in
        '(stk, sp, sp1) ← copy_loop (length stk) stk sp sp1 (Z.to_nat next_sp);
        lookahead_copy fuel stk sp sp1 sp_top
    end
  else Some (stk, sp).

(** [SAVE_CAPTURE_CHECK]: is [idx] among the undo records of this state? *)
Fixpoint already_saved (fuel : nat) (stk : list StackElem) (sp1 bp : nat) (idx : Z) : option bool :=
  if decide (bp < sp1)%nat then
    match fuel with
    | O => None
    | S fuel =>
        v ← below stk sp1 2 ≫= elem_val;
        if v =? idx then Some true else already_saved fuel stk (sp1 - 2) bp idx
    end
  else Some false.

Section Undo.
Context {O : Type} `{!LreHost O}.
Implicit Types u : undo O.

Definition sizeof_StackElem : Z := 8.

(** [stack_realloc(s, n)]; [None] is [return -1].  The new elements hold
    nothing. *)
Definition stack_realloc (u : undo O) (n : Z) : option (undo O) * O :=
  let stack_size := Z.of_nat (length (stack_buf u)) in
  let new_size := u64 (stack_size * 3) / 2 in
  let new_size := if new_size <? n then n else new_size in
  let '(granted, o) := lre_realloc (opaque u) (is_static u) (u64 (new_size * sizeof_StackElem)) in
  if granted then
    let room := Z.to_nat (u64 (new_size * sizeof_StackElem) / sizeof_StackElem) in
    (Some (MkUndo (capture u) (take room (stack_buf u ++ replicate (room - length (stack_buf u)) E_uninit))
             false (sp u) (bp u) (interrupt_counter u) o), o)
  else (None, o).

Definition set_opaque (u : undo O) (o : O) : undo O :=
  MkUndo (capture u) (stack_buf u) (is_static u) (sp u) (bp u) (interrupt_counter u) o.

Definition undo_check_stack_space (n : Z) : E (undo O) unit := fun u =>
  if Z.of_nat (length (stack_buf u)) - Z.of_nat (sp u) <? n then
    match stack_realloc u (u64 (Z.of_nat (sp u) + n)) with
    | (Some u, _) => Val tt u
    | (None, o) => Ret LRE_RET_MEMORY_ERROR (set_opaque u o)
    end
  else Val tt u.

(** [sp[0] = l[0]; ...; sp += n]: the elements must be inside the buffer. *)
Definition stack_push (l : list StackElem) : E (undo O) unit := fun u =>
  if decide (sp u + length l <= length (stack_buf u))%nat then
    Val tt (MkUndo (capture u) (list_inserts (sp u) l (stack_buf u)) (is_static u)
              (sp u + length l) (bp u) (interrupt_counter u) (opaque u))
  else Wrong.

Definition capture_set (idx v : Z) : E (undo O) unit := fun u =>
  match capture_store (capture u) idx v with
  | Some cap => Val tt (MkUndo cap (stack_buf u) (is_static u) (sp u) (bp u) (interrupt_counter u) (opaque u))
  | None => Wrong
  end.

Definition undo_save_capture (idx value : Z) : E (undo O) unit :=
  let! _ := undo_check_stack_space 2 in
  let! old := (fun u => of_opt (capture_lookup (capture u) idx) u) in
  let! _ := stack_push [E_val idx; E_ptr old] in
  capture_set idx value.

Definition undo_save_capture_check (idx value : Z) : E (undo O) unit :=
  let! saved := (fun u => of_opt (already_saved (sp u) (stack_buf u) (sp u) (bp u) idx) u) in
  if (saved : bool) then capture_set idx value else undo_save_capture idx value.

Definition undo_push_state (pc cptr : Z) (type : REExecStateEnum) : E (undo O) unit :=
  let! _ := undo_check_stack_space 3 in
  let! _ := (fun u => stack_push [E_ptr pc; E_ptr cptr; E_bp (Z.of_nat (bp u) mod 2 ^ 61) type] u) in
  fun u => Val tt (MkUndo (capture u) (stack_buf u) (is_static u) (sp u) (sp u) (interrupt_counter u) (opaque u)).

Definition undo_poll_timeout : E (undo O) unit := fun u =>
  let ic := i32 (interrupt_counter u - 1) in
  if ic <=? 0 then
    let '(timeout, o) := lre_check_timeout (opaque u) in
    let u := MkUndo (capture u) (stack_buf u) (is_static u) (sp u) (bp u) INTERRUPT_COUNTER_INIT o in
    if timeout then Ret LRE_RET_TIMEOUT u else Val tt u
  else Val tt (MkUndo (capture u) (stack_buf u) (is_static u) (sp u) (bp u) ic (opaque u)).

Definition undo_backtrack_loop : E (undo O) (Z * Z) := fun u =>
  match no_match_loop (sp u) (stack_buf u) (capture u) (sp u) (bp u) with
  | Some (cap, sp, bp, r) =>
      let u := MkUndo cap (stack_buf u) (is_static u) sp bp (interrupt_counter u) (opaque u) in
      match r with Some p => Val p u | None => Ret 0 u end
  | None => Wrong
  end.

Definition undo_negative_lookahead_match : E (undo O) (Z * Z) := fun u =>
  match neg_match_loop (S (sp u)) (stack_buf u) (capture u) (sp u) (bp u) with
  | Some (cap, sp, bp, p) =>
      Val p (MkUndo cap (stack_buf u) (is_static u) sp bp (interrupt_counter u) (opaque u))
  | None => Wrong
  end.

Definition undo_lookahead_match : E (undo O) (Z * Z) := fun u =>
  let sp_top := sp u in
  match lookahead_pop (S (sp u)) (stack_buf u) (sp u) (bp u) with
  | Some (stk, sp, bp, p) =>
      let r := if decide (sp = 0%nat) then Some (stk, sp) else lookahead_copy sp_top stk sp sp sp_top in
      match r with
      | Some (stk, sp) => Val p (MkUndo (capture u) stk (is_static u) sp bp (interrupt_counter u) (opaque u))
      | None => Wrong
      end
  | None => Wrong
  end.

#[export] Instance undo_backtrack : Backtrack (undo O) := {
  capture_at u := capture_lookup (capture u);
  SAVE_CAPTURE := undo_save_capture;
  SAVE_CAPTURE_CHECK := undo_save_capture_check;
  CHECK_STACK_SPACE := undo_check_stack_space;
  push_state := undo_push_state;
  lre_poll_timeout := undo_poll_timeout;
  backtrack := undo_backtrack_loop;
  lookahead_match := undo_lookahead_match;
  negative_lookahead_match := undo_negative_lookahead_match;
}.
End Undo.

(** ** The instructions *)

(** The locals [pc] and [cptr], and the storage. *)
Record machine (S : Type) := Machine { pc : Z; cptr : Z; store : S }.
Arguments Machine {S}.
Arguments pc {S}.
Arguments cptr {S}.
Arguments store {S}.

Section Exec.
Context (s : REExecContext) (bc_buf : list Z).
Context {S : Type} `{!Backtrack S}.
Implicit Types m : machine S.

Definition get_pc : E (machine S) Z := fun m => Val (pc m) m.
Definition set_pc (p : Z) : E (machine S) unit := fun m => Val tt (Machine p (cptr m) (store m)).
Definition get_cptr : E (machine S) Z := fun m => Val (cptr m) m.
Definition set_cptr (p : Z) : E (machine S) unit := fun m => Val tt (Machine (pc m) p (store m)).
Definition on_store {A} (e : E S A) : E (machine S) A := fun m =>
  match e (store m) with
  | Val a t => Val a (Machine (pc m) (cptr m) t)
  | NoMatch t => NoMatch (Machine (pc m) (cptr m) t)
  | Ret r t => Ret r (Machine (pc m) (cptr m) t)
  | Wrong => Wrong
  end.
(** [capture[idx]] *)
Definition get_capture (idx : Z) : E (machine S) Z := fun m => of_opt (capture_at (store m) idx) m.

(** [*pc++], and [get_u16(pc)], [get_u32(pc)] with the advance of [pc]. *)
Definition fetch_u8 : E (machine S) Z := fun m =>
  match byte_at bc_buf (pc m) with
  | Some v => Val v (Machine (pc m + 1) (cptr m) (store m)) | None => Wrong end.
Definition fetch_u16 : E (machine S) Z := fun m =>
  match get_u16 bc_buf (pc m) with
  | Some v => Val v (Machine (pc m + 2) (cptr m) (store m)) | None => Wrong end.
Definition fetch_u32 : E (machine S) Z := fun m =>
  match get_u32 bc_buf (pc m) with
  | Some v => Val v (Machine (pc m + 4) (cptr m) (store m)) | None => Wrong end.
Definition read_u16 (p : Z) : E (machine S) Z := of_opt (get_u16 bc_buf p).
Definition read_u32 (p : Z) : E (machine S) Z := of_opt (get_u32 bc_buf p).

(** [GET_CHAR(c, cptr, cbuf_end, cbuf_type)] on the local [cptr] *)
Definition next_char : E (machine S) Z := fun m =>
  match GET_CHAR s (cptr m) (cbuf_end s) with
  | Some (c, p) => Val c (Machine (pc m) p (store m)) | None => Wrong end.
Definition canonicalize_if (b : bool) (c : Z) : E (machine S) Z :=
  if b then of_opt (lre_canonicalize c (is_unicode s)) else eret c.

Definition op_char (wide ignore_case : bool) : E (machine S) unit :=
  let! val := (if wide then fetch_u32 else fetch_u16) in
  let! cp := get_cptr in
  let! _ := no_match_if (cbuf_end s <=? cp) in
  let! c := next_char in
  let! c := canonicalize_if ignore_case c in
  no_match_if (negb (val =? c)).

(** push a state that resumes at the other branch; continue with the first *)
Definition split_to (next_first : bool) (val : Z) : E (machine S) unit :=
  let! p := get_pc in
  let! cp := get_cptr in
  if next_first then on_store (push_state (p + i32 val) cp RE_EXEC_STATE_SPLIT)
  else
    let! _ := set_pc (p + i32 val) in
    on_store (push_state p cp RE_EXEC_STATE_SPLIT).

Definition op_split (next_first : bool) : E (machine S) unit :=
  let! val := fetch_u32 in split_to next_first val.

Definition op_lookahead (negative : bool) : E (machine S) unit :=
  let! val := fetch_u32 in
  let! p := get_pc in
  let! cp := get_cptr in
  on_store (push_state (p + i32 val) cp
    (if negative then RE_EXEC_STATE_NEGATIVE_LOOKAHEAD else RE_EXEC_STATE_LOOKAHEAD)).

Definition op_goto : E (machine S) unit :=
  let! val := fetch_u32 in
  let! p := get_pc in
  let! _ := set_pc (p + i32 val) in
  on_store lre_poll_timeout.

Definition op_line_start (multi_line : bool) : E (machine S) unit :=
  let! cp := get_cptr in
  if cp =? cbuf s then eret tt
  else
    let! _ := no_match_if (negb multi_line) in
    let! c := of_opt (PEEK_PREV_CHAR s cp (cbuf s)) in
    no_match_if (negb (is_line_terminator c)).

Definition op_line_end (multi_line : bool) : E (machine S) unit :=
  let! cp := get_cptr in
  if cp =? cbuf_end s then eret tt
  else
    let! _ := no_match_if (negb multi_line) in
    let! c := of_opt (PEEK_CHAR s cp (cbuf_end s)) in
    no_match_if (negb (is_line_terminator c)).

(** [REOP_dot], [REOP_any], [REOP_space], [REOP_not_space]: a character that
    satisfies a test *)
Definition op_char_test (rejected : Z -> option bool) : E (machine S) unit :=
  let! cp := get_cptr in
  let! _ := no_match_if (cp =? cbuf_end s) in
  let! c := next_char in
  let! b := of_opt (rejected c) in
  no_match_if b.

Definition op_save (is_end : bool) : E (machine S) unit :=
  let! val := fetch_u8 in
  let! _ := assert (val <? capture_count s) in
  let! cp := get_cptr in
  on_store (SAVE_CAPTURE (2 * val + (if is_end then 1 else 0)) cp).

(** [while (val <= val2) { ... val++; }] *)
Fixpoint save_reset_loop (n : nat) (val : Z) : E (machine S) unit :=
  match n with
  | O => eret tt
  | Datatypes.S n =>
      let! _ := on_store (SAVE_CAPTURE (2 * val) 0) in
      let! _ := on_store (SAVE_CAPTURE (2 * val + 1) 0) in
      save_reset_loop n (val + 1)
  end.
Definition op_save_reset : E (machine S) unit :=
  let! val := fetch_u8 in
  let! val2 := fetch_u8 in
  let! _ := assert (val2 <? capture_count s) in
  let! _ := on_store (CHECK_STACK_SPACE (u32 (2 * (val2 - val + 1)))) in
  save_reset_loop (Z.to_nat (val2 - val + 1)) val.

(** the register operand: [2 * s->capture_count + pc[0]] *)
Definition fetch_reg : E (machine S) Z :=
  let! r := fetch_u8 in eret (2 * capture_count s + r).

Definition op_set_i32 : E (machine S) unit :=
  let! idx := fetch_reg in
  let! val := fetch_u32 in
  on_store (SAVE_CAPTURE_CHECK idx val).

Definition jump_poll (val : Z) : E (machine S) unit :=
  let! p := get_pc in
  let! _ := set_pc (p + i32 val) in
  on_store lre_poll_timeout.

Definition op_loop : E (machine S) unit :=
  let! idx := fetch_reg in
  let! val := fetch_u32 in
  let! v := get_capture idx in
  let val2 := u32 (v - 1) in
  let! _ := on_store (SAVE_CAPTURE_CHECK idx val2) in
  if negb (val2 =? 0) then jump_poll val else eret tt.

Definition op_loop_split (check_adv next_first : bool) : E (machine S) unit :=
  let! idx := fetch_reg in
  let! limit := fetch_u32 in
  let! val := fetch_u32 in
  let! v := get_capture idx in
  let val2 := u32 (v - 1) in
  let! _ := on_store (SAVE_CAPTURE_CHECK idx val2) in
  if limit <? val2 then jump_poll val
  else
    let! stays := (if check_adv then
                     let! q := get_capture (idx + 1) in
                     let! cp := get_cptr in
                     eret ((q =? cp) && negb (val2 =? limit))
                   else eret false) in
    let! _ := no_match_if stays in
    if negb (val2 =? 0) then split_to next_first val else eret tt.

Definition op_set_char_pos : E (machine S) unit :=
  let! idx := fetch_reg in
  let! cp := get_cptr in
  on_store (SAVE_CAPTURE_CHECK idx cp).

Definition op_check_advance : E (machine S) unit :=
  let! idx := fetch_reg in
  let! q := get_capture idx in
  let! cp := get_cptr in
  no_match_if (q =? cp).

Definition is_word_char (ignore_case : bool) (c : Z) : option bool :=
  if c <? 256 then lre_is_word_byte c
  else Some (ignore_case && ((c =? 0x017f) || (c =? 0x212a))).

Definition op_word_boundary (ignore_case is_boundary : bool) : E (machine S) unit :=
  let! cp := get_cptr in
  let! v1 := (if cp =? cbuf s then eret false
              else let! c := of_opt (PEEK_PREV_CHAR s cp (cbuf s)) in
                   of_opt (is_word_char ignore_case c)) in
  let! v2 := (if cbuf_end s <=? cp then eret false
              else let! c := of_opt (PEEK_CHAR s cp (cbuf_end s)) in
                   of_opt (is_word_char ignore_case c)) in
  no_match_if (xorb (xorb v1 v2) is_boundary).

(** [while (cptr1 < cptr1_end)]: the reference against the input, forwards *)
Fixpoint back_ref_forward (fuel : nat) (ignore_case : bool) (cptr1 cptr1_end : Z) : E (machine S) unit :=
  if cptr1 <? cptr1_end then
    match fuel with
    | O => fun _ => Wrong
    | Datatypes.S fuel =>
        let! cp := get_cptr in
        let! _ := no_match_if (cbuf_end s <=? cp) in
        let! (c1, cptr1) := of_opt (GET_CHAR s cptr1 cptr1_end) in
        let! c2 := next_char in
        let! c1 := canonicalize_if ignore_case c1 in
        let! c2 := canonicalize_if ignore_case c2 in
        let! _ := no_match_if (negb (c1 =? c2)) in
        back_ref_forward fuel ignore_case cptr1 cptr1_end
    end
  else eret tt.

(** [while (cptr1 > cptr1_start)]: backwards *)
Fixpoint back_ref_backward (fuel : nat) (ignore_case : bool) (cptr1 cptr1_start : Z) : E (machine S) unit :=
  if cptr1_start <? cptr1 then
    match fuel with
    | O => fun _ => Wrong
    | Datatypes.S fuel =>
        let! cp := get_cptr in
        let! _ := no_match_if (cp =? cbuf s) in
        let! (c1, cptr1) := of_opt (GET_PREV_CHAR s cptr1 cptr1_start) in
        let! (c2, cp) := of_opt (GET_PREV_CHAR s cp (cbuf s)) in
        let! _ := set_cptr cp in
        let! c1 := canonicalize_if ignore_case c1 in
        let! c2 := canonicalize_if ignore_case c2 in
        let! _ := no_match_if (negb (c1 =? c2)) in
        back_ref_backward fuel ignore_case cptr1 cptr1_start
    end
  else eret tt.

(** [for(i = 0; i < n; i++)]: the first group that is set is compared *)
Fixpoint back_ref_groups (n : nat) (pc1 : Z) (backward ignore_case : bool) : E (machine S) unit :=
  match n with
  | O => eret tt
  | Datatypes.S n =>
      let! val := of_opt (byte_at bc_buf pc1) in
      let! _ := no_match_if (capture_count s <=? val) in
      let! cptr1_start := get_capture (2 * val) in
      let! cptr1_end := get_capture (2 * val + 1) in
      if negb (cptr1_start =? 0) && negb (cptr1_end =? 0) then
        let fuel := Z.to_nat (cptr1_end - cptr1_start) in
        if backward then back_ref_backward fuel ignore_case cptr1_end cptr1_start
        else back_ref_forward fuel ignore_case cptr1_start cptr1_end
      else back_ref_groups n (pc1 + 1) backward ignore_case
  end.

Definition op_back_reference (backward ignore_case : bool) : E (machine S) unit :=
  let! n := fetch_u8 in
  let! pc1 := get_pc in
  let! _ := set_pc (pc1 + n) in
  back_ref_groups (Z.to_nat n) pc1 backward ignore_case.

(** [while (idx_min <= idx_max)]; [read] is [get_u16] or [get_u32], [w] its
    width *)
Fixpoint range_search (fuel : nat) (read : Z -> E (machine S) Z) (w p c idx_min idx_max : Z)
    : E (machine S) bool :=
  if idx_min <=? idx_max then
    match fuel with
    | O => fun _ => Wrong
    | Datatypes.S fuel =>
        let idx := u32 (idx_min + idx_max) / 2 in
        let! low := read (p + u32 (idx * (2 * w))) in
        let! high := read (p + u32 (u32 (idx * (2 * w)) + w)) in
        if c <? low then range_search fuel read w p c idx_min (u32 (idx - 1))
        else if high <? c then range_search fuel read w p c (u32 (idx + 1)) idx_max
        else eret true
    end
  else eret false.

Definition op_range (wide ignore_case : bool) : E (machine S) unit :=
  let read := if wide then read_u32 else read_u16 in
  let w := if wide then 4 else 2 in
  let! n := fetch_u16 in
  let! p := get_pc in
  let! cp := get_cptr in
  let! _ := no_match_if (cbuf_end s <=? cp) in
  let! c := next_char in
  let! c := canonicalize_if ignore_case c in
  let! low := read p in
  let! _ := no_match_if (c <? low) in
  let idx_max := u32 (n - 1) in
  let! high := read (p + u32 (u32 (idx_max * (2 * w)) + w)) in
  if negb wide && (0xffff <=? c) && (high =? 0xffff) then set_pc (p + 2 * w * n)
  else
    let! _ := no_match_if (high <? c) in
    let! found := range_search (Z.to_nat n) read w p c 0 idx_max in
    let! _ := no_match_if (negb found) in
    set_pc (p + 2 * w * n).

Definition op_prev : E (machine S) unit :=
  let! cp := get_cptr in
  let! _ := no_match_if (cp =? cbuf s) in
  let! p := of_opt (PREV_CHAR s cp (cbuf s)) in
  set_cptr p.

(** The instructions that neither end the run nor pop states. *)
Definition exec_op (op : REOPCodeEnum) : E (machine S) unit :=
  match op with
  | REOP_char => op_char false false
  | REOP_char_i => op_char false true
  | REOP_char32 => op_char true false
  | REOP_char32_i => op_char true true
  | REOP_dot => op_char_test (fun c => Some (is_line_terminator c))
  | REOP_any => op_char_test (fun _ => Some false)
  | REOP_space => op_char_test (fun c => negb <$> lre_is_space c)
  | REOP_not_space => op_char_test lre_is_space
  | REOP_line_start => op_line_start false
  | REOP_line_start_m => op_line_start true
  | REOP_line_end => op_line_end false
  | REOP_line_end_m => op_line_end true
  | REOP_goto => op_goto
  | REOP_split_goto_first => op_split false
  | REOP_split_next_first => op_split true
  | REOP_save_start => op_save false
  | REOP_save_end => op_save true
  | REOP_save_reset => op_save_reset
  | REOP_loop => op_loop
  | REOP_loop_split_goto_first => op_loop_split false false
  | REOP_loop_split_next_first => op_loop_split false true
  | REOP_loop_check_adv_split_goto_first => op_loop_split true false
  | REOP_loop_check_adv_split_next_first => op_loop_split true true
  | REOP_set_i32 => op_set_i32
  | REOP_word_boundary => op_word_boundary false true
  | REOP_word_boundary_i => op_word_boundary true true
  | REOP_not_word_boundary => op_word_boundary false false
  | REOP_not_word_boundary_i => op_word_boundary true false
  | REOP_back_reference => op_back_reference false false
  | REOP_back_reference_i => op_back_reference false true
  | REOP_backward_back_reference => op_back_reference true false
  | REOP_backward_back_reference_i => op_back_reference true true
  | REOP_range => op_range false false
  | REOP_range_i => op_range false true
  | REOP_range32 => op_range true false
  | REOP_range32_i => op_range true true
  | REOP_lookahead => op_lookahead false
  | REOP_negative_lookahead => op_lookahead true
  | REOP_set_char_pos => op_set_char_pos
  | REOP_check_advance => op_check_advance
  | REOP_prev => op_prev
  | REOP_invalid | REOP_match | REOP_lookahead_match | REOP_negative_lookahead_match =>
      fun _ => Wrong
  end.

(** [opcode = *pc++], [abort()] on an unknown one. *)
Definition fetch_opcode : E (machine S) REOPCodeEnum :=
  let! b := fetch_u8 in of_opt (opcode_of b).

(** [no_match]: pop a state and resume there. *)
Definition resume : E (machine S) unit :=
  let! (p, cp) := on_store backtrack in
  let! _ := set_pc p in
  let! _ := set_cptr cp in
  on_store lre_poll_timeout.

(** One turn of [for(;;)], up to a [goto no_match]. *)
Definition exec_instr : E (machine S) unit :=
  let! op := fetch_opcode in
  match op with
  | REOP_match => fun m => Ret 1 m
  | REOP_lookahead_match =>
      let! (p, cp) := on_store lookahead_match in
      let! _ := set_pc p in
      set_cptr cp
  | REOP_negative_lookahead_match =>
      let! _ := on_store negative_lookahead_match in
      fun m => NoMatch m
  | _ => exec_op op
  end.

Definition step : E (machine S) unit := fun m =>
  match exec_instr m with
  | NoMatch m => resume m
  | r => r
  end.

(** [lre_exec_backtrack]: at most [fuel] turns; [None] when they are not
    enough. *)
Fixpoint lre_exec_backtrack (fuel : nat) (m : machine S) : option (res (machine S) unit) :=
  match fuel with
  | O => None
  | Datatypes.S fuel =>
      match step m with
      | Val _ m => lre_exec_backtrack fuel m
      | r => Some r
      end
  end.
End Exec.

(** ** Entry point *)
Definition lre_get_flags (bc_buf : list Z) : option Z := get_u16 bc_buf RE_HEADER_FLAGS.
Definition lre_get_capture_count (bc_buf : list Z) : option Z := byte_at bc_buf RE_HEADER_CAPTURE_COUNT.
Definition lre_get_alloc_count (bc_buf : list Z) : option Z :=
  n ← byte_at bc_buf RE_HEADER_CAPTURE_COUNT;
  r ← byte_at bc_buf RE_HEADER_REGISTER_COUNT;
  Some (n * 2 + r).
(** The offset of the group names; [Some None] is NULL. *)
Definition lre_get_groupnames (bc_buf : list Z) : option (option Z) :=
  flags ← lre_get_flags bc_buf;
  if Z.land flags LRE_FLAG_NAMED_GROUPS =? 0 then Some None
  else
    len ← get_u32 bc_buf RE_HEADER_BYTECODE_LEN;
    Some (Some (RE_HEADER_LEN + len)).

Section LreExec.
Context {O : Type} `{!LreHost O}.

(** The context [lre_exec] sets up. *)
Definition exec_context (bc_buf : list Z) (cbuf : Z) (units : list Z) (clen cbuf_type : Z)
    : option REExecContext :=
  re_flags ← lre_get_flags bc_buf;
  n ← byte_at bc_buf RE_HEADER_CAPTURE_COUNT;
  let unicode := negb (Z.land re_flags (Z.lor LRE_FLAG_UNICODE LRE_FLAG_UNICODE_SETS) =? 0) in
  Some {| cbuf := cbuf; input := units; cbuf_end := cbuf + Z.shiftl clen cbuf_type;
          cbuf_type := if (cbuf_type =? 1) && unicode then 2 else cbuf_type;
          capture_count := n; is_unicode := unicode |}.

(** [for(i = 0; i < s->capture_count * 2; i++) capture[i] = NULL;] *)
Definition clear_captures (n : Z) (capture : list Z) : option (list Z) :=
  let k := Z.to_nat (n * 2) in
  if decide (k <= length capture)%nat then Some (replicate k 0 ++ drop k capture) else None.

(** The start, moved off the middle of a surrogate pair. *)
Definition start_cptr (s : REExecContext) (cindex clen cbuf_type0 : Z) : option Z :=
  let cptr := cbuf s + Z.shiftl cindex cbuf_type0 in
  if (0 <? cindex) && (cindex <? clen) && (cbuf_type s =? 2) then
    c ← unit_at s cptr;
    if is_lo_surrogate c then
      c1 ← unit_at s (cptr - 2);
      Some (if is_hi_surrogate c1 then cptr - 2 else cptr)
    else Some cptr
  else Some cptr.

(** The machine [lre_exec] starts, with the static stack of 32 elements. *)
Definition lre_exec_init (capture : list Z) (bc_buf : list Z) (cbuf : Z) (units : list Z)
    (cindex clen cbuf_type : Z) (opaque : O) : option (REExecContext * machine (undo O)) :=
  s ← exec_context bc_buf cbuf units clen cbuf_type;
  cap ← clear_captures (capture_count s) capture;
  cptr ← start_cptr s cindex clen cbuf_type;
  Some (s, Machine RE_HEADER_LEN cptr
             (MkUndo cap (replicate 32 E_uninit) true 0 0 INTERRUPT_COUNTER_INIT opaque)).

(** [lre_exec]: the result, the captures and the embedder's state after the
    stack is freed.  The outer [None] is a run longer than [fuel]. *)
Definition lre_exec (fuel : nat) (capture : list Z) (bc_buf : list Z) (cbuf : Z) (units : list Z)
    (cindex clen cbuf_type : Z) (opaque0 : O) : option (option (Z * list Z * O)) :=
  match lre_exec_init capture bc_buf cbuf units cindex clen cbuf_type opaque0 with
  | None => Some None
  | Some (s, m) =>
      r ← lre_exec_backtrack s bc_buf fuel m;
      match r with
      | Ret ret m =>
          let u := store m in
          let o := if is_static u then opaque u else (lre_realloc (opaque u) false 0).2 in
          Some (Some (ret, Regexp.capture u, o))
      | _ => Some None
      end
  end.
End LreExec.

Example lre_ctype_bits_length : length lre_ctype_bits = 256%nat.
Proof. reflexivity. Qed.
