(* ===== verification/RegexpUndo.v ===== *)
(** * The stack of undo records (libregexp.c)

    How the code's stack lays out saved states and undo records ([rep]), and
    that each of its operations corresponds to the copying storage of
    [RegexpSim]: pushing and growing, undoing to a saved state, and the
    compaction that keeps the undo records of a successful lookahead. *)
From S2P Require Import Prelude Sort UnicodeTables UnicodeCase Regexp RegexpSim.

(** ** Captures *)
Lemma capture_store_spec cap idx v cap' :
  capture_store cap idx v = Some cap' <->
  0 <= idx /\ (Z.to_nat idx < length cap)%nat /\ cap' = <[Z.to_nat idx := v]> cap.
Proof.
  unfold capture_store, capture_lookup. destruct (Z.ltb_spec idx 0); cbn.
  - split; [done|lia].
  - destruct (cap !! Z.to_nat idx) eqn:E; cbn.
    + apply lookup_lt_Some in E. naive_solver.
    + apply lookup_ge_None in E. split; [done|lia].
Qed.

Lemma capture_store_length cap idx v cap' : capture_store cap idx v = Some cap' -> length cap' = length cap.
Proof. intros (_ & _ & ->)%capture_store_spec. apply length_insert. Qed.

(** Storing back what was there. *)
Lemma capture_store_back cap idx v old cap' :
  capture_lookup cap idx = Some old -> capture_store cap idx v = Some cap' ->
  capture_store cap' idx old = Some cap.
Proof.
  intros Hold (? & ? & ->)%capture_store_spec. apply capture_store_spec.
  rewrite length_insert, list_insert_insert_eq. split_and!; try done.
  unfold capture_lookup in Hold. rewrite (proj2 (Z.ltb_ge _ _)) in Hold by done.
  by rewrite list_insert_id.
Qed.

(** ** Undo records

    Newest first; on the stack the oldest is at the bottom. *)
Fixpoint enc_log (log : list (Z * Z)) : list StackElem :=
  match log with
  | [] => []
  | (i, v) :: log => enc_log log ++ [E_val i; E_ptr v]
  end.
Fixpoint undo_log (log : list (Z * Z)) (cap : list Z) : option (list Z) :=
  match log with
  | [] => Some cap
  | (i, v) :: log => cap ← capture_store cap i v; undo_log log cap
  end.

Lemma enc_log_app l1 l2 : enc_log (l1 ++ l2) = enc_log l2 ++ enc_log l1.
Proof.
  induction l1 as [|[i v] l1 IH]; cbn; [by rewrite app_nil_r|]. by rewrite IH, <- app_assoc.
Qed.
Lemma undo_log_app l1 l2 cap : undo_log (l1 ++ l2) cap = (cap ← undo_log l1 cap; undo_log l2 cap).
Proof.
  revert cap. induction l1 as [|[i v] l1 IH]; intros cap; cbn; [done|].
  destruct (capture_store cap i v); cbn; [apply IH|done].
Qed.

(** A capture that is restored anyway can be changed freely. *)
Lemma undo_log_shadow log cap idx v cap' : idx ∈ log.*1 -> capture_store cap idx v = Some cap' ->
  undo_log log cap' = undo_log log cap.
Proof.
  revert cap cap'. induction log as [|[i w] log IH]; intros cap cap' Hin Hst; cbn in *.
  { by apply not_elem_of_nil in Hin. }
  pose proof Hst as (? & ? & ->)%capture_store_spec.
  destruct (decide (i = idx)) as [->|Hne].
  - assert (capture_store (<[Z.to_nat idx:=v]> cap) idx w = capture_store cap idx w) as ->; [|done].
    unfold capture_store, capture_lookup. rewrite (proj2 (Z.ltb_ge _ _)) by done.
    rewrite list_lookup_insert_eq by done. cbn. rewrite list_insert_insert_eq.
    destruct (lookup_lt_is_Some_2 cap (Z.to_nat idx)) as [x ->]; done.
  - destruct (capture_store cap i w) as [c1|] eqn:E1.
    + pose proof E1 as (? & ? & ->)%capture_store_spec.
      assert (capture_store (<[Z.to_nat idx:=v]> cap) i w =
              Some (<[Z.to_nat i:=w]> (<[Z.to_nat idx:=v]> cap))) as ->.
      { apply capture_store_spec. rewrite length_insert. done. }
      cbn. apply (IH (<[Z.to_nat i:=w]> cap)).
      { apply elem_of_cons in Hin as [->|]; done. }
      apply capture_store_spec. rewrite length_insert. split_and!; try done.
      rewrite list_insert_insert_ne; [done|]. lia.
    + assert (capture_store (<[Z.to_nat idx:=v]> cap) i w = None) as ->; [|done].
      unfold capture_store, capture_lookup in *. destruct (i <? 0) eqn:Ei; [done|].
      rewrite list_lookup_insert_ne by lia. destruct (cap !! Z.to_nat i); done.
Qed.

(** ** Reading under the top *)
Lemma below_app stk k l e rest n : n = (length stk + length l)%nat ->
  reverse l !! k = Some e -> below (stk ++ l ++ rest) n (S k) = Some e.
Proof.
  intros -> Hk. unfold below. pose proof (lookup_lt_Some _ _ _ Hk) as Hlt. rewrite length_reverse in Hlt.
  rewrite decide_True by lia. rewrite lookup_app_r by lia. rewrite lookup_app_l by lia.
  rewrite <- Hk, reverse_lookup by lia. f_equal. lia.
Qed.

Lemma undo_loop_log log fuel base rest cap cap' :
  undo_log log cap = Some cap' -> (length log <= fuel)%nat ->
  undo_loop fuel (base ++ enc_log log ++ rest) cap (length base + length (enc_log log)) (length base) =
  Some (cap', length base).
Proof.
  revert fuel rest cap. induction log as [|[i v] log IH]; intros fuel rest cap Hu Hf; cbn in *.
  - simplify_eq. rewrite Nat.add_0_r. destruct fuel; cbn; by rewrite decide_False by lia.
  - destruct fuel as [|fuel]; [lia|]. rewrite length_app. cbn [length]. cbn [undo_loop].
    rewrite decide_True by lia.
    replace (base ++ (enc_log log ++ [E_val i; E_ptr v]) ++ rest)
      with ((base ++ enc_log log) ++ [E_val i; E_ptr v] ++ rest) by (by rewrite <- !app_assoc).
    erewrite !below_app; [|cbn; rewrite ?length_app; lia|reflexivity|cbn; rewrite ?length_app; lia|reflexivity].
    cbn [base.mbind option_bind elem_val elem_ptr].
    destruct (capture_store cap i v) as [cap1|]; [|done]. cbn in Hu |- *.
    rewrite <- (IH fuel ([E_val i; E_ptr v] ++ rest) cap1) by (done || lia).
    rewrite <- !app_assoc. f_equal. lia.
Qed.

Lemma already_saved_log log fuel base rest idx : (length log <= fuel)%nat ->
  already_saved fuel (base ++ enc_log log ++ rest) (length base + length (enc_log log)) (length base) idx =
  Some (bool_decide (idx ∈ log.*1)).
Proof.
  revert fuel rest. induction log as [|[i v] log IH]; intros fuel rest Hf; cbn in *.
  - rewrite Nat.add_0_r. destruct fuel; cbn; by rewrite decide_False by lia.
  - destruct fuel as [|fuel]; [lia|]. rewrite length_app. cbn [length]. cbn [already_saved].
    rewrite decide_True by lia.
    replace (base ++ (enc_log log ++ [E_val i; E_ptr v]) ++ rest)
      with ((base ++ enc_log log) ++ [E_val i; E_ptr v] ++ rest) by (by rewrite <- !app_assoc).
    erewrite !below_app; [|cbn; rewrite ?length_app; lia|reflexivity].
    cbn [base.mbind option_bind elem_val elem_ptr]. destruct (Z.eqb_spec i idx) as [->|Hne].
    + f_equal. symmetry. apply bool_decide_eq_true. apply elem_of_cons. by left.
    + replace (length base + (length (enc_log log) + 2) - 2)%nat
        with (length base + length (enc_log log))%nat by lia.
      rewrite <- !app_assoc, IH by lia. f_equal. apply bool_decide_ext.
      rewrite elem_of_cons. naive_solver.
Qed.

Lemma length_enc_log log : length (enc_log log) = (2 * length log)%nat.
Proof. induction log as [|[i v] log IH]; cbn; [done|]. rewrite length_app, IH. cbn. lia. Qed.

(** ** Layout of the stack

    [rep stk bp cap l]: with captures [cap], the stack [stk], whose top state
    ends at [bp], holds the saved states [l]. *)
Definition enc_state (p cp : Z) (bp : nat) (ty : REExecStateEnum) : list StackElem :=
  [E_ptr p; E_ptr cp; E_bp (Z.of_nat bp) ty].

Inductive rep : list StackElem -> nat -> list Z -> list saved -> Prop :=
| rep_nil log cap : rep (enc_log log) 0 cap []
| rep_cons stk bp0 cap0 l p cp ty log cap :
    rep stk bp0 cap0 l -> undo_log log cap = Some cap0 ->
    rep (stk ++ enc_state p cp bp0 ty ++ enc_log log) (length stk + 3) cap (Saved p cp ty cap0 :: l).

Lemma rep_length stk bp cap l : rep stk bp cap l -> (3 * length l <= length stk)%nat /\ (bp <= length stk)%nat.
Proof.
  induction 1 as [log cap|stk bp0 cap0 l p cp ty log cap Hr [IH ?] Hu]; cbn; [lia|].
  rewrite !length_app. cbn. lia.
Qed.

(** More undo records on top. *)
Lemma rep_extend stk bp cap0 l log cap : rep stk bp cap0 l -> undo_log log cap = Some cap0 ->
  rep (stk ++ enc_log log) bp cap l.
Proof.
  intros Hr Hu. destruct Hr as [log0 cap0|stk bp0 cap00 l p cp ty log0 cap0 Hr Hu0].
  - rewrite <- enc_log_app. constructor.
  - replace ((stk ++ enc_state p cp bp0 ty ++ enc_log log0) ++ enc_log log)
      with (stk ++ enc_state p cp bp0 ty ++ enc_log (log ++ log0)).
    + constructor; [done|]. rewrite undo_log_app, Hu. done.
    + by rewrite enc_log_app, <- !app_assoc.
Qed.

(** The records above the top state, and that only their effect matters. *)
Lemma rep_top stk bp cap l : rep stk bp cap l ->
  exists base log, stk = base ++ enc_log log /\ length base = bp /\
    forall cap', undo_log log cap' = undo_log log cap -> rep stk bp cap' l.
Proof.
  intros [log cap0|stk0 bp0 cap0 l0 p cp ty log cap1 Hr Hu].
  - exists [], log. split_and!; [done..|]. intros cap' _. constructor.
  - exists (stk0 ++ enc_state p cp bp0 ty), log. rewrite <- app_assoc, length_app. cbn.
    split_and!; [done..|]. intros cap' E. constructor; [done|]. by rewrite E.
Qed.

Lemma saved_state_enc stk p cp bp ty rest n : n = (length stk + 3)%nat ->
  saved_state (stk ++ enc_state p cp bp ty ++ rest) n = Some (p, cp, bp, ty).
Proof.
  intros ->. unfold saved_state. unfold enc_state.
  erewrite !below_app; [|cbn; lia|reflexivity|cbn; lia|reflexivity|cbn; lia|reflexivity].
  cbn. by rewrite Nat2Z.id.
Qed.

(** ** Undoing to a saved state *)
Lemma undo_top stk bp0 p cp ty log rest cap cap0 sp0 :
  undo_log log cap = Some cap0 -> sp0 = (length stk + 3 + length (enc_log log))%nat ->
  undo_loop sp0 ((stk ++ enc_state p cp bp0 ty ++ enc_log log) ++ rest) cap sp0 (length stk + 3) =
    Some (cap0, (length stk + 3)%nat) /\
  saved_state ((stk ++ enc_state p cp bp0 ty ++ enc_log log) ++ rest) (length stk + 3) = Some (p, cp, bp0, ty).
Proof.
  intros Hu ->. rewrite <- !app_assoc. split; [|by apply saved_state_enc].
  pose proof (undo_loop_log log (length stk + 3 + length (enc_log log)) (stk ++ enc_state p cp bp0 ty)
    rest cap cap0 Hu) as E.
  rewrite <- app_assoc, length_app in E. cbn [enc_state length] in E. apply E. rewrite length_enc_log. lia.
Qed.

Lemma no_match_loop_rep stk bp cap l : rep stk bp cap l -> forall fuel rest, (length l <= fuel)%nat ->
  exists stk' bp' cap' r,
    no_match_loop fuel (stk ++ rest) cap (length stk) bp = Some (cap', length stk', bp', r) /\
    stk' `prefix_of` stk /\
    match pop_until (negb ∘ is_lookahead) l with
    | Some (f, l') => r = Some (sv_pc f, sv_cptr f) /\ cap' = sv_capture f /\ rep stk' bp' cap' l'
    | None => r = None /\ cap' = oldest cap l /\ rep stk' bp' cap' []
    end.
Proof.
  induction 1 as [log cap|stk bp0 cap0 l p cp ty log cap Hr IH Hu]; intros fuel rest Hf.
  - exists (enc_log log), 0%nat, cap, None. cbn [pop_until oldest]. split_and!; [by destruct fuel|done..|constructor].
  - cbn in Hf. destruct fuel as [|fuel]; [lia|]. cbn [no_match_loop]. rewrite decide_False by lia.
    assert (length (stk ++ enc_state p cp bp0 ty ++ enc_log log) =
      (length stk + 3 + length (enc_log log))%nat) as El by (rewrite !length_app; cbn; lia).
    destruct (undo_top stk bp0 p cp ty log rest cap cap0 _ Hu El) as [E1 E2]. rewrite E1. bind. rewrite E2.
    cbn [base.mbind option_bind pop_until sv_type compose]. unfold is_lookahead.
    rewrite Nat.add_sub. destruct (decide (ty = RE_EXEC_STATE_LOOKAHEAD)) as [Hty|Hty].
    + rewrite bool_decide_true by done. cbn [negb].
      destruct (IH fuel (enc_state p cp bp0 ty ++ enc_log log ++ rest)) as (stk' & bp' & cap' & r & E & Hp & H); [lia|].
      exists stk', bp', cap', r. rewrite <- !app_assoc. split_and!; [exact E| |exact H].
      by apply prefix_app_r.
    + rewrite bool_decide_false by done. cbn [negb]. exists stk, bp0, cap0, (Some (p, cp)).
      split_and!; try done. by apply prefix_app_r.
Qed.

Lemma neg_match_loop_rep stk bp cap l : rep stk bp cap l -> forall fuel rest, (length l < fuel)%nat ->
  match pop_until is_negative l with
  | Some (f, l') => exists stk' bp',
      neg_match_loop fuel (stk ++ rest) cap (length stk) bp =
        Some (sv_capture f, length stk', bp', (sv_pc f, sv_cptr f)) /\
      stk' `prefix_of` stk /\ rep stk' bp' (sv_capture f) l'
  | None => neg_match_loop fuel (stk ++ rest) cap (length stk) bp = None
  end.
Proof.
  induction 1 as [log cap|stk bp0 cap0 l p cp ty log cap Hr IH Hu]; intros fuel rest Hf.
  - destruct fuel; [lia|]. done.
  - cbn in Hf. destruct fuel as [|fuel]; [lia|]. cbn [neg_match_loop].
    assert (length (stk ++ enc_state p cp bp0 ty ++ enc_log log) =
      (length stk + 3 + length (enc_log log))%nat) as El by (rewrite !length_app; cbn; lia).
    assert (below ((stk ++ enc_state p cp bp0 ty ++ enc_log log) ++ rest) (length stk + 3) 1 =
      Some (E_bp (Z.of_nat bp0) ty)) as ->.
    { rewrite <- !app_assoc. by eapply below_app. }
    destruct (undo_top stk bp0 p cp ty log rest cap cap0 _ Hu El) as [E1 E2].
    cbn [base.mbind option_bind elem_bp]. rewrite E1. bind. rewrite E2.
    cbn [base.mbind option_bind pop_until sv_type]. unfold is_negative.
    rewrite Nat.add_sub. destruct (decide (ty = RE_EXEC_STATE_NEGATIVE_LOOKAHEAD)) as [Hty|Hty].
    + rewrite bool_decide_true by done. exists stk, bp0. split_and!; try done. by apply prefix_app_r.
    + rewrite bool_decide_false by done.
      specialize (IH fuel (enc_state p cp bp0 ty ++ enc_log log ++ rest)). rewrite <- !app_assoc.
      fold is_negative. destruct (pop_until is_negative l) as [[f l']|].
      * destruct IH as (stk' & bp' & E & Hp & H); [lia|]. exists stk', bp'. split_and!; try done.
        by apply prefix_app_r.
      * apply IH. lia.
Qed.

(** ** Successful lookaheads

    The popped states, oldest first, while they are being compacted: in place
    of its [bp], each has the position where its undo records end. *)
Fixpoint marked (n : nat) (segs : list (Z * Z * list (Z * Z))) : list StackElem :=
  match segs with
  | [] => []
  | (p, cp, log) :: segs =>
      let n' := (n + 3 + length (enc_log log))%nat in
      [E_ptr p; E_ptr cp; E_ptr (Z.of_nat n')] ++ enc_log log ++ marked n' segs
  end.
(** Their undo records together, newest first. *)
Fixpoint logs (segs : list (Z * Z * list (Z * Z))) : list (Z * Z) :=
  match segs with [] => [] | (_, _, log) :: segs => logs segs ++ log end.

Lemma marked_snoc n segs p cp log :
  marked n (segs ++ [(p, cp, log)]) = marked n segs ++ marked (n + length (marked n segs)) [(p, cp, log)].
Proof.
  revert n. induction segs as [|[[p0 cp0] log0] segs IH]; intros n; cbn [marked app length].
  - by rewrite Nat.add_0_r.
  - set (n' := (n + 3 + length (enc_log log0))%nat). rewrite IH.
    rewrite <- !app_assoc. do 5 f_equal. cbn [marked app]. rewrite length_app. unfold n'.
    do 4 f_equal. lia.
Qed.
Lemma logs_snoc segs p cp log : logs (segs ++ [(p, cp, log)]) = log ++ logs segs.
Proof.
  induction segs as [|[[p0 cp0] log0] segs IH]; cbn; [by rewrite app_nil_r|]. by rewrite IH, <- app_assoc.
Qed.

Lemma lookahead_pop_rep stk bp cap l : rep stk bp cap l -> forall fuel rest, (length l < fuel)%nat ->
  match pop_until is_lookahead l with
  | Some (f, l') => exists stk' bp' cap' segs,
      lookahead_pop fuel (stk ++ rest) (length stk) bp =
        Some (stk' ++ marked (length stk') segs ++ rest, length stk', bp', (sv_pc f, sv_cptr f)) /\
      length stk = (length stk' + length (marked (length stk') segs))%nat /\
      (length segs <= length stk)%nat /\
      undo_log (logs segs) cap = Some cap' /\ rep stk' bp' cap' l'
  | None => lookahead_pop fuel (stk ++ rest) (length stk) bp = None
  end.
Proof.
  induction 1 as [log cap|stk bp0 cap0 l p cp ty log cap Hr IH Hu]; intros fuel rest Hf.
  - destruct fuel; [lia|]. done.
  - cbn in Hf. destruct fuel as [|fuel]; [lia|]. cbn [lookahead_pop].
    rewrite <- !app_assoc, saved_state_enc by done. cbn [base.mbind option_bind pop_until sv_type].
    assert (length (stk ++ enc_state p cp bp0 ty ++ enc_log log) =
      (length stk + 3 + length (enc_log log))%nat) as El by (rewrite !length_app; cbn; lia).
    set (rest' := marked (length stk) [(p, cp, log)] ++ rest).
    assert (<[(length stk + 3 - 1)%nat :=
        E_ptr (Z.of_nat (length (stk ++ enc_state p cp bp0 ty ++ enc_log log)))]>
        (stk ++ enc_state p cp bp0 ty ++ enc_log log ++ rest) = stk ++ rest') as ->.
    { rewrite El. replace (length stk + 3 - 1)%nat with (length stk + 2)%nat by lia.
      rewrite insert_app_r. unfold rest'. cbn [marked]. rewrite app_nil_r, <- app_assoc. done. }
    rewrite Nat.add_sub. unfold is_lookahead.
    destruct (decide (ty = RE_EXEC_STATE_LOOKAHEAD)) as [Hty|Hty].
    + rewrite bool_decide_true by done. exists stk, bp0, cap0, [(p, cp, log)].
      unfold rest'. split_and!; try done.
      * rewrite El. cbn. rewrite app_nil_r. lia.
      * rewrite El. cbn. lia.
    + rewrite bool_decide_false by done. fold is_lookahead.
      specialize (IH fuel rest'). destruct (pop_until is_lookahead l) as [[f l']|]; [|apply IH; lia].
      destruct IH as (stk' & bp' & cap' & segs & E & Hlen & Hs & Hl & Hr'); [lia|].
      exists stk', bp', cap', (segs ++ [(p, cp, log)]).
      rewrite marked_snoc, logs_snoc, undo_log_app, Hu, <- Hlen. bind.
      rewrite E. unfold rest'. split_and!; try done.
      * by rewrite <- !app_assoc.
      * rewrite El, length_app. cbn. rewrite app_nil_r. lia.
      * rewrite El, length_app. cbn. lia.
Qed.

(** [copy_loop] moves [X] down over the gap [G]. *)
Lemma copy_loop_moves X A G Y fuel : (length X <= fuel)%nat ->
  exists G', length G' = length G /\
  copy_loop fuel (A ++ G ++ X ++ Y) (length A) (length A + length G) (length A + length G + length X) =
  Some (A ++ X ++ G' ++ Y, (length A + length X)%nat, (length A + length G + length X)%nat).
Proof.
  revert A G fuel. induction X as [|x X IH]; intros A G fuel Hf; cbn [length] in *.
  - exists G. split; [done|]. rewrite !Nat.add_0_r. destruct fuel; cbn; by rewrite decide_False by lia.
  - destruct fuel as [|fuel]; [lia|]. cbn [copy_loop]. rewrite decide_True by lia.
    rewrite lookup_app_r, lookup_app_r by lia. rewrite Nat.add_comm, Nat.add_sub, Nat.sub_diag. cbn.
    assert (exists G1, length G1 = length G /\
      <[length A:=x]> (A ++ G ++ x :: X ++ Y) = (A ++ [x]) ++ G1 ++ X ++ Y) as (G1 & HG1 & ->).
    { replace (length A) with (length A + 0)%nat by lia. rewrite insert_app_r.
      destruct G as [|g G]; cbn; [by exists []; rewrite <- app_assoc|].
      exists (G ++ [x]). rewrite length_app. cbn. rewrite <- !app_assoc. split; [lia|done]. }
    destruct (IH (A ++ [x]) G1 fuel) as (G' & HG' & E); [lia|].
    exists G'. split; [lia|]. rewrite length_app in E. cbn in E. rewrite HG1 in E.
    replace (S (length A)) with (length A + 1)%nat by lia.
    replace (S (length G + length A)) with (length A + 1 + length G)%nat by lia.
    replace (length G + length A + S (length X))%nat with (length A + 1 + length G + length X)%nat by lia.
    rewrite E. rewrite <- !app_assoc. cbn. f_equal. f_equal. f_equal. lia.
Qed.

Lemma lookahead_copy_marked segs A G rest fuel : (length segs <= fuel)%nat ->
  exists rest', (length (enc_log (logs segs)) + length rest' =
      length G + length (marked (length A + length G) segs) + length rest)%nat /\
    lookahead_copy fuel (A ++ G ++ marked (length A + length G) segs ++ rest) (length A)
      (length A + length G) (length A + length G + length (marked (length A + length G) segs)) =
    Some (A ++ enc_log (logs segs) ++ rest', length (A ++ enc_log (logs segs))).
Proof.
  revert A G fuel. induction segs as [|[[p cp] log] segs IH]; intros A G fuel Hf.
  - exists (G ++ rest). cbn. rewrite length_app, app_nil_r. split; [lia|].
    destruct fuel; cbn; by rewrite decide_False by lia.
  - cbn [length] in Hf. destruct fuel as [|fuel]; [lia|]. cbn [lookahead_copy].
    set (n' := (length A + length G + 3 + length (enc_log log))%nat).
    rewrite decide_True by (cbn; lia).
    assert ((A ++ G ++ marked (length A + length G) ((p, cp, log) :: segs) ++ rest) !!
      (length A + length G + 2)%nat = Some (E_ptr (Z.of_nat n'))) as ->.
    { rewrite lookup_app_r, lookup_app_r by lia.
      replace (length A + length G + 2 - length A - length G)%nat with 2%nat by lia. done. }
    cbn [base.mbind option_bind elem_ptr]. rewrite Nat2Z.id.
    set (G1 := G ++ [E_ptr p; E_ptr cp; E_ptr (Z.of_nat n')]).
    assert (length G1 = (length G + 3)%nat) as HG1 by (unfold G1; by rewrite length_app).
    replace (A ++ G ++ marked (length A + length G) ((p, cp, log) :: segs) ++ rest)
      with (A ++ G1 ++ enc_log log ++ marked n' segs ++ rest)
      by (unfold G1; cbn [marked]; rewrite <- !app_assoc; done).
    destruct (copy_loop_moves (enc_log log) A G1 (marked n' segs ++ rest)
      (length (A ++ G1 ++ enc_log log ++ marked n' segs ++ rest))) as (G2 & HG2 & E);
      [rewrite !length_app; lia|].
    replace (length A + length G + 3)%nat with (length A + length G1)%nat by lia.
    assert (n' = (length A + length G1 + length (enc_log log))%nat) as En0 by (unfold n'; lia).
    rewrite <- En0 in E. rewrite E. bind.
    assert (n' = (length (A ++ enc_log log) + length G2)%nat) as En by (rewrite length_app; lia).
    destruct (IH (A ++ enc_log log) G2 fuel) as (rest' & Hrest' & E'); [lia|].
    rewrite <- En in E', Hrest'. rewrite <- !app_assoc in E'. rewrite (length_app A (enc_log log)) in E'.
    replace (length A + length G + length (marked (length A + length G) ((p, cp, log) :: segs)))%nat
      with (n' + length (marked n' segs))%nat
      by (cbn [marked]; rewrite !length_app; fold n'; cbn; unfold n'; lia).
    rewrite E'. exists rest'. cbn [logs]. rewrite enc_log_app, <- !app_assoc. split; [|done].
    rewrite length_app. cbn [marked]. rewrite !length_app. fold n'. cbn. lia.
Qed.

(** ** The simulation *)

(** What the executor relies on: no object is larger than [PTRDIFF_MAX]. *)
Class LreHostLaws (O : Type) `{!LreHost O} : Prop :=
  realloc_bound : forall o first size, (lre_realloc o first size).1 = true -> size < 2 ^ 63.

(** The errors [lre_exec_backtrack] may report: the embedder refuses memory, or
    asks for the end of the run. *)
Definition exec_error {O} `{!LreHost O} (r : Z) : Prop :=
  (r = LRE_RET_MEMORY_ERROR /\ exists (o : O) first size, (lre_realloc o first size).1 = false) \/
  (r = LRE_RET_TIMEOUT /\ exists o : O, (lre_check_timeout o).1 = true).

Section Simulation.
Context {O : Type} `{!LreHost O} `{!LreHostLaws O}.
Implicit Types (u : undo O) (t : snap).

Definition undo_rel u t : Prop :=
  s_capture t = capture u /\ Z.of_nat (length (stack_buf u)) <= 2 ^ 60 /\
  exists stk rest, stack_buf u = stk ++ rest /\ sp u = length stk /\ rep stk (bp u) (capture u) (s_states t).

(** The growth never wraps around and keeps what is on the stack. *)
Lemma stack_realloc_grows u n : Z.of_nat (length (stack_buf u)) <= 2 ^ 60 -> 0 <= n < 2 ^ 61 ->
  match stack_realloc u n with
  | (Some u', _) => exists more, stack_buf u' = stack_buf u ++ more /\
      Z.of_nat (length (stack_buf u')) <= 2 ^ 60 /\ n <= Z.of_nat (length (stack_buf u')) /\
      capture u' = capture u /\ sp u' = sp u /\ bp u' = bp u
  | (None, _) => exec_error (O:=O) LRE_RET_MEMORY_ERROR
  end.
Proof.
  intros HL Hn. unfold stack_realloc, sizeof_StackElem. set (L := length (stack_buf u)) in *.
  rewrite (u64_id (Z.of_nat L * 3)) by lia.
  set (new := if Z.of_nat L * 3 / 2 <? n then n else Z.of_nat L * 3 / 2).
  assert (Z.of_nat L <= new < 2 ^ 61 /\ n <= new) as [Hnew Hge]
    by (unfold new; destruct (Z.ltb_spec (Z.of_nat L * 3 / 2) n); Z.to_euclidean_division_equations; lia).
  rewrite (u64_id (new * 8)) by lia. rewrite Z.div_mul by lia.
  destruct (lre_realloc (opaque u) (is_static u) (new * 8)) as [[|] o] eqn:E;
    [|left; split; [done|]; exists (opaque u), (is_static u), (new * 8); by rewrite E].
  pose proof (realloc_bound (opaque u) (is_static u) (new * 8)) as Hb. rewrite E in Hb.
  specialize (Hb eq_refl). exists (replicate (Z.to_nat new - L) E_uninit). cbn.
  rewrite take_ge by (rewrite length_app, length_replicate; lia).
  rewrite length_app, length_replicate. fold L. split_and!; try done; lia.
Qed.

Lemma check_stack_space_ok n u t : 0 <= n < 2 ^ 32 -> undo_rel u t ->
  match undo_check_stack_space n u with
  | Val _ u' => undo_rel u' t /\ Z.of_nat (sp u') + n <= Z.of_nat (length (stack_buf u')) /\
      capture u' = capture u
  | Ret r _ => exec_error (O:=O) r
  | _ => False
  end.
Proof.
  intros Hn (Hc & HL & stk & rest & Hb & Hsp & Hr). unfold undo_check_stack_space.
  assert (Z.of_nat (sp u) <= Z.of_nat (length (stack_buf u))) by (rewrite Hb, Hsp, length_app; lia).
  destruct (Z.ltb_spec (Z.of_nat (length (stack_buf u)) - Z.of_nat (sp u)) n).
  - pose proof (stack_realloc_grows u (u64 (Z.of_nat (sp u) + n)) HL) as H1.
    rewrite u64_id in H1 |- * by lia.
    destruct (stack_realloc u (Z.of_nat (sp u) + n)) as [[u'|] o]; [|apply H1; lia].
    destruct H1 as (more & Hb' & HL' & Hge & Hcap & Hsp' & Hbp'); [lia|].
    split_and!; [|lia|done]. split; [congruence|]. split; [done|].
    exists stk, (rest ++ more). rewrite Hb', Hb, Hsp', Hsp, Hbp', Hcap, <- app_assoc. done.
  - split_and!; [|lia|done]. split; [done|]. split; [done|]. by exists stk, rest.
Qed.

(** Pushing keeps the rest of the buffer. *)
Lemma stack_push_ok l u stk rest : stack_buf u = stk ++ rest -> sp u = length stk ->
  (length stk + length l <= length (stack_buf u))%nat ->
  exists rest', length (stk ++ l ++ rest') = length (stack_buf u) /\
    stack_push l u = Val tt (MkUndo (capture u) (stk ++ l ++ rest') (is_static u) (length (stk ++ l)) (bp u)
                               (interrupt_counter u) (opaque u)).
Proof.
  intros Hb Hsp Hle. unfold stack_push. rewrite Hsp, decide_True by done.
  exists (drop (length l) rest). rewrite Hb in Hle |- *. rewrite length_app in Hle.
  assert (list_inserts (length stk) l (stk ++ rest) = stk ++ l ++ drop (length l) rest) as ->.
  { replace (length stk) with (length stk + 0)%nat by lia. rewrite list_inserts_app_r.
    f_equal. rewrite <- (take_drop (length l) rest) at 1.
    rewrite list_inserts_0_r; [done|]. rewrite length_take. lia. }
  rewrite !length_app, length_drop. split; [lia|done].
Qed.

Lemma capture_set_ok idx v u : 
  match capture_store (capture u) idx v with
  | Some cap => capture_set idx v u =
      Val tt (MkUndo cap (stack_buf u) (is_static u) (sp u) (bp u) (interrupt_counter u) (opaque u))
  | None => capture_set idx v u = Wrong
  end.
Proof. unfold capture_set. by destruct (capture_store (capture u) idx v). Qed.

Lemma undo_save_sim idx v : sim (exec_error (O:=O)) undo_rel (undo_save_capture idx v) (snap_save idx v).
Proof.
  intros u t Hu. unfold undo_save_capture, ebind, snap_save.
  pose proof (check_stack_space_ok 2 u t ltac:(lia) Hu) as H.
  destruct (undo_check_stack_space 2 u) as [[] u1|u1|r u1|]; try done; [|by case_match].
  destruct H as (Hu1 & Hspace & Hcap). clear Hu. destruct Hu1 as (Hc & HL & stk & rest & Hb & Hsp & Hr).
  unfold of_opt. rewrite Hc.
  destruct (capture_lookup (capture u1) idx) as [old|] eqn:Eo;
    [|by unfold capture_store; rewrite Eo].
  destruct (stack_push_ok [E_val idx; E_ptr old] u1 stk rest) as (rest' & Hlen & Ep); [done..|cbn; lia|].
  rewrite Ep. pose proof (capture_set_ok idx v (MkUndo (capture u1) (stk ++ [E_val idx; E_ptr old] ++ rest')
    (is_static u1) (length (stk ++ [E_val idx; E_ptr old])) (bp u1) (interrupt_counter u1) (opaque u1))) as Hs.
  cbn [capture stack_buf sp bp interrupt_counter opaque is_static] in Hs.
  destruct (capture_store (capture u1) idx v) as [cap|] eqn:Es; rewrite Hs; [|done].
  split; [done|]. split; [done|]. cbn [capture stack_buf sp bp s_states s_capture]. split; [lia|].
  exists (stk ++ [E_val idx; E_ptr old]), rest'. split_and!; [by rewrite <- app_assoc|done|].
  apply (rep_extend stk (bp u1) (capture u1) (s_states t) [(idx, old)] cap Hr). cbn.
  by rewrite (capture_store_back _ _ _ _ _ Eo Es).
Qed.

Lemma undo_save_check_sim idx v : sim (exec_error (O:=O)) undo_rel (undo_save_capture_check idx v) (snap_save idx v).
Proof.
  intros u t Hu. unfold undo_save_capture_check, ebind.
  pose proof Hu as (Hc & HL & stk & rest & Hb & Hsp & Hr).
  destruct (rep_top _ _ _ _ Hr) as (base & log & -> & Hbase & Hrep).
  assert (already_saved (sp u) (stack_buf u) (sp u) (bp u) idx = Some (bool_decide (idx ∈ log.*1))) as ->.
  { rewrite Hb, Hsp, <- Hbase, length_app, <- app_assoc. apply already_saved_log.
    rewrite length_enc_log. lia. }
  cbn [of_opt]. destruct (bool_decide_reflect (idx ∈ log.*1)) as [Hin|_]; [|by apply undo_save_sim].
  unfold snap_save. rewrite Hc. pose proof (capture_set_ok idx v u) as Hs.
  destruct (capture_store (capture u) idx v) as [cap|] eqn:Es; rewrite Hs; [|done].
  split; [done|]. split; [done|]. split; [done|]. exists (base ++ enc_log log), rest. split_and!; [done..|].
  apply Hrep. by eapply undo_log_shadow.
Qed.

Lemma undo_push_sim p cp ty : sim (exec_error (O:=O)) undo_rel (undo_push_state p cp ty) (snap_push p cp ty).
Proof.
  intros u t Hu. unfold undo_push_state, ebind, snap_push.
  pose proof (check_stack_space_ok 3 u t ltac:(lia) Hu) as H.
  destruct (undo_check_stack_space 3 u) as [[] u1|u1|r u1|]; try done.
  destruct H as (Hu1 & Hspace & Hcap). clear Hu. destruct Hu1 as (Hc & HL & stk & rest & Hb & Hsp & Hr).
  pose proof (rep_length _ _ _ _ Hr) as [_ Hbp].
  assert (length stk <= length (stack_buf u1))%nat by (rewrite Hb, length_app; lia).
  rewrite Z.mod_small by lia.
  destruct (stack_push_ok (enc_state p cp (bp u1) ty) u1 stk rest) as (rest' & Hlen & Ep); [done..|cbn; lia|].
  unfold enc_state in Ep at 1. rewrite Ep. split; [done|]. split; [done|].
  cbn [capture stack_buf sp bp s_states s_capture]. split; [lia|].
  exists (stk ++ enc_state p cp (bp u1) ty), rest'. split_and!; [by rewrite <- app_assoc|done|].
  rewrite length_app. cbn [enc_state length]. rewrite Hc.
  rewrite <- (app_nil_r (enc_state _ _ _ _)). by apply (rep_cons _ _ _ _ _ _ _ []).
Qed.

Lemma undo_ops_sim : ops_sim (exec_error (O:=O)) undo_rel.
Proof.
  split; cbn [capture_at SAVE_CAPTURE SAVE_CAPTURE_CHECK CHECK_STACK_SPACE push_state lre_poll_timeout
              undo_backtrack snap_backtrack].
  - intros u t (Hc & _) idx. by rewrite Hc.
  - apply undo_save_sim.
  - apply undo_save_check_sim.
  - intros n Hn u t Hu. pose proof (check_stack_space_ok n u t Hn Hu) as H.
    destruct (undo_check_stack_space n u) as [[] u1|u1|r u1|]; try done. split; [done|apply H].
  - apply undo_push_sim.
  - intros u t Hu. unfold undo_poll_timeout.
    destruct (_ <=? 0); [|by split; [|exact Hu]].
    destruct (lre_check_timeout (opaque u)) as [[|] o] eqn:E; [|by split; [|exact Hu]].
    right. split; [done|]. exists (opaque u). by rewrite E.
Qed.

(** A state of the stack after some states were popped. *)
Lemma undo_rel_pop u t cap cap' stk stk' bp' l rest :
  Z.of_nat (length (stack_buf u)) <= 2 ^ 60 -> stack_buf u = stk ++ rest -> stk' `prefix_of` stk ->
  rep stk' bp' cap l -> cap' = cap ->
  undo_rel (MkUndo cap (stack_buf u) (is_static u) (length stk') bp' (interrupt_counter u) (opaque u)) (Snap cap' l).
Proof.
  intros HL Hb [k ->] Hr ->. split; [done|]. split; [done|]. exists stk', (k ++ rest).
  cbn. by rewrite Hb, <- app_assoc.
Qed.

Lemma undo_no_match_sim : sim (exec_error (O:=O)) undo_rel undo_backtrack_loop snap_no_match.
Proof.
  intros u t (Hc & HL & stk & rest & Hb & Hsp & Hr). unfold undo_backtrack_loop, snap_no_match.
  destruct (no_match_loop_rep _ _ _ _ Hr (sp u) rest) as (stk' & bp' & cap' & r & E & Hp & H).
  { rewrite Hsp. pose proof (rep_length _ _ _ _ Hr). lia. }
  rewrite Hb at 1. rewrite Hsp in E |- *. rewrite E.
  destruct (pop_until _ _) as [[f l]|]; destruct H as (-> & -> & Hr').
  - split; [done|]. by eapply undo_rel_pop.
  - right. split; [done|]. rewrite <- Hc. eapply undo_rel_pop; try done. by rewrite Hc.
Qed.

Lemma undo_negative_sim : sim (exec_error (O:=O)) undo_rel undo_negative_lookahead_match snap_negative.
Proof.
  intros u t (Hc & HL & stk & rest & Hb & Hsp & Hr). unfold undo_negative_lookahead_match, snap_negative.
  pose proof (neg_match_loop_rep _ _ _ _ Hr (S (sp u)) rest) as H.
  rewrite Hb at 1. rewrite Hsp in H |- *.
  destruct (pop_until _ _) as [[f l]|].
  - destruct H as (stk' & bp' & -> & Hp & Hr'); [pose proof (rep_length _ _ _ _ Hr); lia|].
    split; [done|]. by eapply undo_rel_pop.
  - rewrite H; [done|]. pose proof (rep_length _ _ _ _ Hr). lia.
Qed.

Lemma undo_lookahead_sim : sim (exec_error (O:=O)) undo_rel undo_lookahead_match snap_lookahead.
Proof.
  intros u t (Hc & HL & stk & rest & Hb & Hsp & Hr). unfold undo_lookahead_match, snap_lookahead.
  pose proof (lookahead_pop_rep _ _ _ _ Hr (S (sp u)) rest) as H.
  rewrite Hb at 1. rewrite Hsp in H |- *. pose proof (rep_length _ _ _ _ Hr) as [Hl _].
  destruct (pop_until _ _) as [[f l]|]; [|by rewrite H by lia].
  destruct H as (stk' & bp' & cap' & segs & -> & Hlen & Hs & Hlog & Hr'); [lia|].
  assert (length (stack_buf u) = (length stk + length rest)%nat) as HL' by (by rewrite Hb, length_app).
  destruct (decide (length stk' = 0%nat)) as [H0|_].
  - apply nil_length_inv in H0 as ->. split; [done|]. split; [done|].
    cbn [capture stack_buf sp bp s_states s_capture length]. cbn [app length] in *.
    rewrite length_app. split; [lia|]. exists [], (marked 0 segs ++ rest). split_and!; [done..|].
    inversion Hr' as [log c E1 E2|stk0 bp0 c0 l0 p cp ty log c Hr0 Hu0 E1 E2]; subst.
    + apply rep_nil.
    + by destruct stk0.
  - destruct (lookahead_copy_marked segs stk' [] rest (length stk)) as (rest' & Hrest & E); [lia|].
    cbn [app length] in E, Hrest. rewrite Nat.add_0_r in E, Hrest. rewrite <- Hlen in E. rewrite E.
    split; [done|]. split; [done|]. cbn [capture stack_buf sp bp s_states s_capture].
    rewrite !length_app. split; [lia|].
    exists (stk' ++ enc_log (logs segs)), rest'. rewrite <- app_assoc, length_app. split_and!; [done..|].
    by eapply rep_extend.
Qed.

Lemma undo_pops_sim : pops_sim (exec_error (O:=O)) undo_rel.
Proof. split; [apply undo_no_match_sim|apply undo_lookahead_sim|apply undo_negative_sim]. Qed.

(** The executor on its stack runs as it would with copies of the captures. *)
Lemma undo_exec_sim s bc_buf fuel (m1 : machine (undo O)) (m2 : machine snap) : msim undo_rel m1 m2 ->
  match lre_exec_backtrack s bc_buf fuel m1, lre_exec_backtrack s bc_buf fuel m2 with
  | Some r1, Some r2 => res_sim (exec_error (O:=O)) (msim undo_rel) r1 r2
  | Some (Ret r _), None => exec_error (O:=O) r
  | None, None => True
  | None, Some _ => False
  | Some _, None => False
  end.
Proof. apply lre_exec_backtrack_sim; [apply undo_ops_sim|apply undo_pops_sim]. Qed.
End Simulation.
