(* ===== verification/RegexpSearch.v ===== *)
(** * What the executor searches for

    [search] is the meaning of a compiled regular expression: a depth-first
    search written as a recursive function, without a stack.  An instruction
    that saves a state is a choice: after a split the second branch is tried
    when the first fails; after a lookahead the search goes on from the saved
    position with the captures its body has set, or fails with it; after a
    negative lookahead it goes on when the body fails.  The theorem at the end
    says that [lre_exec] computes this function. *)
From S2P Require Import Prelude Sort UnicodeTables UnicodeCase Regexp RegexpSim RegexpUndo.

(** How the search from a point ends: no match, a match, the end of the body
    of a lookahead or of a negative lookahead, or an invalid access. *)
Inductive search_result :=
| S_fail
| S_match (cap : list Z)
| S_look (cap : list Z)
| S_neg
| S_wrong.

(** How the search goes on when the one that started by saving [f] has ended
    with [r]: from another point, or with a result. *)
Definition choose (f : saved) (r : search_result) : (Z * Z * list Z) + search_result :=
  match sv_type f, r with
  | RE_EXEC_STATE_SPLIT, S_fail => inl (sv_pc f, sv_cptr f, sv_capture f)
  | RE_EXEC_STATE_LOOKAHEAD, S_look cap => inl (sv_pc f, sv_cptr f, cap)
  | RE_EXEC_STATE_NEGATIVE_LOOKAHEAD, S_fail => inl (sv_pc f, sv_cptr f, sv_capture f)
  | RE_EXEC_STATE_NEGATIVE_LOOKAHEAD, S_neg => inr S_fail
  | _, _ => inr r
  end.

Section Search.
Context (s : REExecContext) (bc_buf : list Z).

(** The opcode at [p], and what the instruction does from [cp] and [cap] when
    no state is saved below it. *)
Definition opcode_at (p : Z) : option REOPCodeEnum := byte_at bc_buf p ≫= opcode_of.
Definition exec_at (op : REOPCodeEnum) (p cp : Z) (cap : list Z) : res (machine snap) unit :=
  exec_op s bc_buf op (Machine (p + 1) cp (Snap cap [])).

Fixpoint search (fuel : nat) (p cp : Z) (cap : list Z) : option search_result :=
  match fuel with
  | O => None
  | S fuel =>
      match opcode_at p with
      | None => Some S_wrong
      | Some REOP_match => Some (S_match cap)
      | Some REOP_lookahead_match => Some (S_look cap)
      | Some REOP_negative_lookahead_match => Some S_neg
      | Some op =>
          match exec_at op p cp cap with
          | NoMatch _ => Some S_fail
          | Val _ (Machine p1 cp1 (Snap cap1 [])) => search fuel p1 cp1 cap1
          | Val _ (Machine p1 cp1 (Snap cap1 (f :: _))) =>
              r ← search fuel p1 cp1 cap1;
              match choose f r with
              | inl (p2, cp2, cap2) => search fuel p2 cp2 cap2
              | inr r => Some r
              end
          | _ => Some S_wrong
          end
      end
  end.

(** ** An instruction does not see the saved states, and saves at most one *)

Definition below_rel (K : list saved) (t1 t2 : snap) : Prop :=
  s_capture t2 = s_capture t1 /\ s_states t2 = s_states t1 ++ K.

Lemma below_ops_sim K : ops_sim (fun _ => False) (below_rel K).
Proof.
  assert (forall idx v, sim (fun _ => False) (below_rel K) (snap_save idx v) (snap_save idx v)) as Hsave.
  { intros idx v t1 t2 [Hc Hs]. unfold snap_save. rewrite Hc.
    destruct (capture_store (s_capture t1) idx v); done. }
  split; cbn [capture_at SAVE_CAPTURE SAVE_CAPTURE_CHECK CHECK_STACK_SPACE push_state lre_poll_timeout
              snap_backtrack]; try done.
  - intros t1 t2 [Hc _] idx. by rewrite Hc.
  - intros p cp ty t1 t2 [Hc Hs]. split; [done|]. split; [done|]. cbn. by rewrite Hc, Hs.
Qed.

(** [pushes k e]: [e] leaves the saved states as they are, or (if [k]) with
    one more on top. *)
Definition pushes {A} (k : bool) (e : E (machine snap) A) : Prop := forall m,
  match e m with
  | Val _ m' => s_states (store m') = s_states (store m) \/
                (k = true /\ exists f, s_states (store m') = f :: s_states (store m))
  | NoMatch m' => s_states (store m') = s_states (store m)
  | Ret _ _ => False
  | Wrong => True
  end.

Section Pushes.
#[local] Abbreviation K := (E (machine snap)).
Lemma pushes_bind {A B} k (e : K A) (f : A -> K B) :
  pushes false e -> (forall a, pushes k (f a)) -> pushes k (ebind e f).
Proof.
  intros He Hf m. unfold ebind. specialize (He m). destruct (e m) as [a m1| | |]; try done.
  destruct He as [He|[? _]]; [|done]. specialize (Hf a m1). rewrite He in Hf.
  by destruct (f a m1).
Qed.
Lemma pushes_ret {A} k (a : A) : pushes k (eret a : K A).
Proof. intros m. by left. Qed.
Lemma pushes_no_match_if k b : pushes k (no_match_if b : K unit).
Proof. intros m. destruct b; cbn; auto. Qed.
Lemma pushes_of_opt {A} k (o : option A) : pushes k (of_opt o : K A).
Proof. intros m. destruct o; cbn; auto. Qed.
Lemma pushes_assert k b : pushes k (assert b : K unit).
Proof. intros m. destruct b; cbn; auto. Qed.
Lemma pushes_wrong {A} k : pushes k (fun _ => Wrong : res (machine snap) A).
Proof. done. Qed.
Lemma pushes_get_pc k : pushes k (get_pc : K Z).
Proof. intros m. by left. Qed.
Lemma pushes_get_cptr k : pushes k (get_cptr : K Z).
Proof. intros m. by left. Qed.
Lemma pushes_set_pc k p : pushes k (set_pc p : K unit).
Proof. intros m. by left. Qed.
Lemma pushes_set_cptr k p : pushes k (set_cptr p : K unit).
Proof. intros m. by left. Qed.
Lemma pushes_save k idx v : pushes k (on_store (SAVE_CAPTURE idx v) : K unit).
Proof. intros m. unfold on_store. cbn. unfold snap_save. destruct (capture_store _ _ _); cbn; auto. Qed.
Lemma pushes_save_check k idx v : pushes k (on_store (SAVE_CAPTURE_CHECK idx v) : K unit).
Proof. apply pushes_save. Qed.
Lemma pushes_space k n : pushes k (on_store (CHECK_STACK_SPACE n) : K unit).
Proof. intros m. by left. Qed.
Lemma pushes_poll k : pushes k (on_store lre_poll_timeout : K unit).
Proof. intros m. by left. Qed.
Lemma pushes_push p cp ty : pushes true (on_store (push_state p cp ty) : K unit).
Proof. intros m. right. split; [done|]. by eexists. Qed.
Lemma pushes_get_capture k idx : pushes k (get_capture idx : K Z).
Proof. intros m. apply pushes_of_opt. Qed.
Lemma pushes_fetch_u8 k : pushes k (fetch_u8 bc_buf : K Z).
Proof. intros m. unfold fetch_u8. destruct (byte_at _ _); cbn; auto. Qed.
Lemma pushes_fetch_u16 k : pushes k (fetch_u16 bc_buf : K Z).
Proof. intros m. unfold fetch_u16. destruct (get_u16 _ _); cbn; auto. Qed.
Lemma pushes_fetch_u32 k : pushes k (fetch_u32 bc_buf : K Z).
Proof. intros m. unfold fetch_u32. destruct (get_u32 _ _); cbn; auto. Qed.
Lemma pushes_next_char k : pushes k (next_char s : K Z).
Proof. intros m. unfold next_char. destruct (GET_CHAR _ _ _) as [[c p]|]; cbn; auto. Qed.
End Pushes.

Create HintDb pushes.
#[local] Hint Resolve pushes_ret pushes_no_match_if pushes_of_opt pushes_assert pushes_wrong
  pushes_get_pc pushes_get_cptr pushes_set_pc pushes_set_cptr pushes_save pushes_save_check pushes_space pushes_poll pushes_push
  pushes_get_capture pushes_fetch_u8 pushes_fetch_u16 pushes_fetch_u32 pushes_next_char : pushes.
Ltac pushes_walk :=
  repeat first
    [ progress intros
    | match goal with
      | |- pushes _ (ebind _ _) => apply pushes_bind
      | |- pushes _ (if ?b then _ else _) => destruct b
      | |- pushes _ (let '(_, _) := ?p in _) => destruct p
      end
    | solve [auto with pushes] ].

Lemma pushes_canonicalize_if k b c : pushes k (canonicalize_if s b c).
Proof. unfold canonicalize_if. pushes_walk. Qed.
Lemma pushes_split_to b v : pushes true (split_to b v).
Proof. unfold split_to. pushes_walk. Qed.
Lemma pushes_jump_poll k v : pushes k (jump_poll v).
Proof. unfold jump_poll. pushes_walk. Qed.
Lemma pushes_fetch_reg k : pushes k (fetch_reg s bc_buf).
Proof. unfold fetch_reg. pushes_walk. Qed.
Lemma pushes_save_reset_loop k n v : pushes k (save_reset_loop n v).
Proof. revert v. induction n as [|n IH]; intros v; cbn; pushes_walk. Qed.
#[local] Hint Resolve pushes_canonicalize_if pushes_split_to pushes_jump_poll pushes_fetch_reg
  pushes_save_reset_loop : pushes.
Lemma pushes_back_ref_forward k fuel b p e : pushes k (back_ref_forward s fuel b p e).
Proof. revert p. induction fuel as [|fuel IH]; intros p; cbn; pushes_walk. Qed.
Lemma pushes_back_ref_backward k fuel b p e : pushes k (back_ref_backward s fuel b p e).
Proof. revert p. induction fuel as [|fuel IH]; intros p; cbn; pushes_walk. Qed.
#[local] Hint Resolve pushes_back_ref_forward pushes_back_ref_backward : pushes.
Lemma pushes_back_ref_groups k n p b i : pushes k (back_ref_groups s bc_buf n p b i).
Proof. revert p. induction n as [|n IH]; intros p; cbn; pushes_walk. Qed.
Lemma pushes_range_search k fuel read w p c i j : (forall q, pushes false (read q)) ->
  pushes k (range_search fuel read w p c i j).
Proof. intros Hr. revert i j. induction fuel as [|fuel IH]; intros i j; cbn; pushes_walk. Qed.
#[local] Hint Resolve pushes_back_ref_groups pushes_range_search : pushes.

Lemma exec_op_pushes op : pushes true (exec_op s bc_buf op).
Proof.
  destruct op; unfold exec_op, op_char, op_split, op_lookahead, op_goto, op_line_start, op_line_end,
    op_char_test, op_save, op_save_reset, op_set_i32, op_loop, op_loop_split, op_set_char_pos,
    op_check_advance, op_word_boundary, op_back_reference, op_range, op_prev, read_u16, read_u32;
    pushes_walk.
Qed.

(** What an instruction does with states [K] saved below. *)
Lemma exec_at_below op p cp cap K :
  match exec_at op p cp cap with
  | Val _ (Machine p1 cp1 (Snap cap1 l)) =>
      exec_op s bc_buf op (Machine (p + 1) cp (Snap cap K)) = Val tt (Machine p1 cp1 (Snap cap1 (l ++ K))) /\
      (l = [] \/ exists f, l = [f])
  | NoMatch _ => exists m, exec_op s bc_buf op (Machine (p + 1) cp (Snap cap K)) = NoMatch m /\
      s_states (store m) = K
  | Ret _ _ => False
  | Wrong => exec_op s bc_buf op (Machine (p + 1) cp (Snap cap K)) = Wrong
  end.
Proof.
  pose proof (exec_op_pushes op (Machine (p + 1) cp (Snap cap []))) as Hp.
  pose proof (exec_op_sim (fun _ => False) (below_rel K) s bc_buf (below_ops_sim K) op
    (Machine (p + 1) cp (Snap cap [])) (Machine (p + 1) cp (Snap cap K))) as H.
  fold (exec_at op p cp cap) in H, Hp. unfold res_sim in H.
  assert (msim (below_rel K) (Machine (p + 1) cp (Snap cap [])) (Machine (p + 1) cp (Snap cap K))) as Hm
    by (by repeat split).
  specialize (H Hm). destruct (exec_at op p cp cap) as [[] [p1 cp1 [cap1 l]]|m1|r m1|].
  - destruct (exec_op s bc_buf op (Machine (p + 1) cp (Snap cap K))) as [[] [p2 cp2 [cap2 l2]]|m2|r m2|]; try done.
    destruct H as (_ & H1 & H2 & H3 & H4). cbn in H1, H2, H3, H4. subst. split; [done|].
    cbn in Hp. naive_solver.
  - destruct (exec_op s bc_buf op (Machine (p + 1) cp (Snap cap K))) as [| m2|r m2|]; try done.
    exists m2. split; [done|]. destruct H as (_ & _ & _ & ->). by rewrite Hp.
  - done.
  - by destruct (exec_op s bc_buf op (Machine (p + 1) cp (Snap cap K))).
Qed.

(** ** The run of the machine follows the search *)
Implicit Types (m : machine snap) (K : list saved).

(** [k] turns, all of which go on. *)
Fixpoint turns (k : nat) m : option (machine snap) :=
  match k with
  | O => Some m
  | S k => match step s bc_buf m with Val _ m' => turns k m' | _ => None end
  end.

Lemma turns_app j k m m1 m2 : turns j m = Some m1 -> turns k m1 = Some m2 -> turns (j + k) m = Some m2.
Proof.
  revert m. induction j as [|j IH]; intros m H1 H2; cbn in *; [by simplify_eq|].
  destruct (step s bc_buf m); try done. by apply IH.
Qed.
Lemma turns_run k fuel m m' : turns k m = Some m' ->
  lre_exec_backtrack s bc_buf (k + fuel) m = lre_exec_backtrack s bc_buf fuel m'.
Proof.
  revert m. induction k as [|k IH]; intros m H; cbn in *; [by simplify_eq|].
  destruct (step s bc_buf m); try done. by apply IH.
Qed.

Lemma turns_none j k m m' : turns j m = Some m' -> (k <= j)%nat -> lre_exec_backtrack s bc_buf k m = None.
Proof.
  revert k m. induction j as [|j IH]; intros k m H Hk; cbn in *; (destruct k as [|k]; [done|]); [lia|].
  cbn. destruct (step s bc_buf m); try done. apply IH; [done|lia].
Qed.

(** The last turn of a search that ends with [r], above the states [K]. *)
Definition ends (r : search_result) K (x : res (machine snap) unit) : Prop :=
  match r with
  | S_match cap => exists p cp K', x = Ret 1 (Machine p cp (Snap cap K'))
  | S_fail => exists m, s_states (store m) = K /\ x = resume m
  | S_look cap => x = match pop_until is_lookahead K with
                      | Some (f, l) => Val tt (Machine (sv_pc f) (sv_cptr f) (Snap cap l))
                      | None => Wrong
                      end
  | S_neg => match pop_until is_negative K with
             | Some (f, l) => exists m, store m = Snap (sv_capture f) l /\ x = resume m
             | None => x = Wrong
             end
  | S_wrong => x = Wrong
  end.

(** Resuming in a state that is not the start of a lookahead. *)
Lemma resume_top m f K : s_states (store m) = f :: K -> is_lookahead (sv_type f) = false ->
  resume m = Val tt (Machine (sv_pc f) (sv_cptr f) (Snap (sv_capture f) K)).
Proof.
  destruct m as [p cp [cap l]]. cbn. intros -> Hf. unfold resume, ebind, on_store. cbn.
  unfold snap_no_match. cbn. rewrite Hf. cbn. done.
Qed.
(** A failed lookahead fails. *)
Lemma resume_lookahead m f K : s_states (store m) = f :: K -> is_lookahead (sv_type f) = true ->
  resume m = resume (Machine (pc m) (cptr m) (Snap (sv_capture f) K)).
Proof.
  destruct m as [p cp [cap l]]. cbn. intros -> Hf. unfold resume, ebind, on_store. cbn.
  unfold snap_no_match. cbn. by rewrite Hf.
Qed.

(** One turn, by the opcode. *)
Lemma exec_instr_opcode p cp cap K :
  exec_instr s bc_buf (Machine p cp (Snap cap K)) =
  match opcode_at p with
  | None => Wrong
  | Some REOP_match => Ret 1 (Machine (p + 1) cp (Snap cap K))
  | Some REOP_lookahead_match =>
      match pop_until is_lookahead K with
      | Some (f, l) => Val tt (Machine (sv_pc f) (sv_cptr f) (Snap cap l))
      | None => Wrong
      end
  | Some REOP_negative_lookahead_match =>
      match pop_until is_negative K with
      | Some (f, l) => NoMatch (Machine (p + 1) cp (Snap (sv_capture f) l))
      | None => Wrong
      end
  | Some op => exec_op s bc_buf op (Machine (p + 1) cp (Snap cap K))
  end.
Proof.
  unfold exec_instr, fetch_opcode, ebind, fetch_u8, opcode_at. cbn [pc cptr store].
  destruct (byte_at bc_buf p) as [b|]; [|done]. cbn. unfold of_opt.
  destruct (opcode_of b) as [[]|]; try done; unfold on_store; cbn; unfold snap_lookahead, snap_negative; cbn;
    by destruct (pop_until _ K) as [[f l]|].
Qed.

(** The instructions that [exec_op] handles. *)
Definition plain_op (op : REOPCodeEnum) : bool :=
  match op with
  | REOP_match | REOP_lookahead_match | REOP_negative_lookahead_match => false
  | _ => true
  end.

Lemma step_plain p cp cap K op : opcode_at p = Some op -> plain_op op = true ->
  match exec_at op p cp cap with
  | Val _ (Machine p1 cp1 (Snap cap1 l)) =>
      step s bc_buf (Machine p cp (Snap cap K)) = Val tt (Machine p1 cp1 (Snap cap1 (l ++ K))) /\
      (l = [] \/ exists f, l = [f])
  | NoMatch _ => ends S_fail K (step s bc_buf (Machine p cp (Snap cap K)))
  | Ret _ _ => False
  | Wrong => step s bc_buf (Machine p cp (Snap cap K)) = Wrong
  end.
Proof.
  intros Hop Hpl. pose proof (exec_at_below op p cp cap K) as H. unfold step.
  assert (exec_instr s bc_buf (Machine p cp (Snap cap K)) =
    exec_op s bc_buf op (Machine (p + 1) cp (Snap cap K))) as ->.
  { rewrite exec_instr_opcode, Hop. by destruct op. }
  destruct (exec_at op p cp cap) as [[] [p1 cp1 [cap1 l]]|m1|r m1|].
  - destruct H as [-> ?]. done.
  - destruct H as (m & -> & Hs). by exists m.
  - done.
  - by rewrite H.
Qed.

(** The search and its unfolding on an instruction of [exec_op]. *)
Lemma search_plain fuel p cp cap op : opcode_at p = Some op -> plain_op op = true ->
  search (S fuel) p cp cap =
  match exec_at op p cp cap with
  | NoMatch _ => Some S_fail
  | Val _ (Machine p1 cp1 (Snap cap1 [])) => search fuel p1 cp1 cap1
  | Val _ (Machine p1 cp1 (Snap cap1 (f :: _))) =>
      r ← search fuel p1 cp1 cap1;
      match choose f r with
      | inl (p2, cp2, cap2) => search fuel p2 cp2 cap2
      | inr r => Some r
      end
  | _ => Some S_wrong
  end.
Proof. intros Hop Hpl. cbn [search]. rewrite Hop. by destruct op. Qed.

Lemma search_special fuel p cp cap : (forall op, opcode_at p = Some op -> plain_op op = false) ->
  exists r, search (S fuel) p cp cap = Some r /\
    forall K, ends r K (step s bc_buf (Machine p cp (Snap cap K))).
Proof.
  intros Hop. cbn [search]. unfold step.
  destruct (opcode_at p) as [op|] eqn:E; [specialize (Hop op eq_refl)|]; [destruct op; try done|].
  - eexists; split; [done|]. intros K. rewrite exec_instr_opcode, E. by eexists _, _, _.
  - eexists; split; [done|]. intros K. rewrite exec_instr_opcode, E. cbn.
    by destruct (pop_until is_lookahead K) as [[f l]|].
  - eexists; split; [done|]. intros K. rewrite exec_instr_opcode, E. cbn.
    destruct (pop_until is_negative K) as [[f l]|]; [|done]. by eexists (Machine _ _ _).
  - eexists; split; [done|]. intros K. by rewrite exec_instr_opcode, E.
Qed.

Lemma opcode_cases p : (exists op, opcode_at p = Some op /\ plain_op op = true) \/
  (forall op, opcode_at p = Some op -> plain_op op = false).
Proof.
  destruct (opcode_at p) as [op|]; [|by right]. destruct (plain_op op) eqn:E; [left; eauto|right].
  intros ? [= <-]. done.
Qed.

Lemma ends_choose f r K x : ends r (f :: K) x ->
  match choose f r with
  | inl (p, cp, cap) => x = Val tt (Machine p cp (Snap cap K))
  | inr r' => ends r' K x
  end.
Proof.
  unfold choose. destruct (sv_type f) eqn:Ef, r; cbn; rewrite ?Ef; cbn; try done.
  - intros (m & Hm & ->). apply resume_top; [done|]. by rewrite Ef.
  - intros (m & Hm & ->). eexists. split; [|apply resume_lookahead; [done|by rewrite Ef]]. done.
  - intros (m & Hm & ->). apply resume_top; [done|]. by rewrite Ef.
  - intros (m & Hm & ->). exists m. by rewrite Hm.
Qed.

(** The search is followed turn by turn, whatever is saved below. *)
Lemma search_turns fuel p cp cap r : search fuel p cp cap = Some r -> forall K,
  exists k m, turns k (Machine p cp (Snap cap K)) = Some m /\ ends r K (step s bc_buf m).
Proof.
  revert p cp cap r. induction fuel as [|fuel IH]; intros p cp cap r Hs K; [done|].
  destruct (opcode_cases p) as [(op & Hop & Hpl)|Hsp].
  - rewrite (search_plain _ _ _ _ op) in Hs by done.
    pose proof (step_plain p cp cap K op Hop Hpl) as Hst.
    destruct (exec_at op p cp cap) as [[] [p1 cp1 [cap1 l]]|m1|r1 m1|].
    + destruct Hst as [Hst [->|[f ->]]].
      * destruct (IH _ _ _ _ Hs K) as (k & m & Ht & He). exists (S k), m.
        split; [|done]. cbn. by rewrite Hst.
      * destruct (search fuel p1 cp1 cap1) as [r1|] eqn:E1; [|done]. cbn in Hs.
        destruct (IH _ _ _ _ E1 (f :: K)) as (k & m & Ht & He). apply ends_choose in He.
        assert (turns (S k) (Machine p cp (Snap cap K)) = Some m) as Ht'.
        { cbn. by rewrite Hst. }
        destruct (choose f r1) as [[[p2 cp2] cap2]|r2]; [|simplify_eq; eauto].
        destruct (IH _ _ _ _ Hs K) as (k2 & m2 & Ht2 & He2).
        exists (S k + S k2)%nat, m2. split; [|done]. eapply turns_app; [done|]. cbn. by rewrite He.
    + simplify_eq. by exists 0%nat, (Machine p cp (Snap cap K)).
    + done.
    + simplify_eq. by exists 0%nat, (Machine p cp (Snap cap K)).
  - destruct (search_special fuel p cp cap Hsp) as (r' & E & He). simplify_eq.
    exists 0%nat, (Machine p cp (Snap cap K)). split; [done|apply He].
Qed.

Lemma search_fuel_S fuel p cp cap r : search fuel p cp cap = Some r -> search (S fuel) p cp cap = Some r.
Proof.
  revert p cp cap r. induction fuel as [|fuel IH]; intros p cp cap r Hs; [done|].
  destruct (opcode_cases p) as [(op & Hop & Hpl)|Hsp].
  - rewrite (search_plain (S fuel) _ _ _ op) by done. rewrite (search_plain fuel _ _ _ op) in Hs by done.
    destruct (exec_at op p cp cap) as [[] [p1 cp1 [cap1 [|f l]]]|m1|r1 m1|]; try done; [by apply IH|].
    destruct (search fuel p1 cp1 cap1) as [r1|] eqn:E1; [|done]. rewrite (IH _ _ _ _ E1). cbn in Hs |- *.
    destruct (choose f r1) as [[[p2 cp2] cap2]|r2]; [by apply IH|done].
  - cbn [search] in Hs |- *. destruct (opcode_at p) as [op|]; [|done].
    specialize (Hsp op eq_refl). by destruct op.
Qed.
Lemma search_fuel fuel fuel' p cp cap r : (fuel <= fuel')%nat ->
  search fuel p cp cap = Some r -> search fuel' p cp cap = Some r.
Proof. induction 1; [done|]. intros. by apply search_fuel_S, IHle. Qed.

(** A run that ends has an ending search. *)
Lemma run_search k p cp cap K x : lre_exec_backtrack s bc_buf k (Machine p cp (Snap cap K)) = Some x ->
  exists fuel r, search fuel p cp cap = Some r.
Proof.
  revert p cp cap K. induction k as [k IH] using lt_wf_ind. intros p cp cap K Hrun.
  destruct k as [|k]; [done|]. destruct (opcode_cases p) as [(op & Hop & Hpl)|Hsp].
  2: { destruct (search_special 0 p cp cap Hsp) as (r & E & _). eauto. }
  pose proof (step_plain p cp cap K op Hop Hpl) as Hst. cbn in Hrun.
  pose proof (fun fuel => search_plain fuel p cp cap op Hop Hpl) as Hsr.
  destruct (exec_at op p cp cap) as [[] [p1 cp1 [cap1 l]]|m1|r1 m1|];
    [|by eexists 1%nat, _; rewrite Hsr..].
  destruct Hst as [Hst Hl]. rewrite Hst in Hrun. pose proof Hrun as (f1 & r1 & E1)%IH; [|lia].
  destruct Hl as [->|[f ->]]; [by exists (S f1), r1; rewrite Hsr|].
  destruct (search_turns _ _ _ _ _ E1 (f :: K)) as (j & m & Ht & He). apply ends_choose in He.
  cbn [app] in Hrun.
  assert (exists f2 r2, search (S f2) p cp cap = Some r2) as (f2 & r2 & E2); [|eauto].
  destruct (choose f r1) as [[[p2 cp2] cap2]|r2] eqn:Ec.
  - destruct (decide (k <= j)%nat) as [Hkj|Hkj]; [by rewrite (turns_none _ _ _ _ Ht Hkj) in Hrun|].
    replace k with (j + S (k - j - 1))%nat in Hrun by lia. rewrite (turns_run _ _ _ _ Ht) in Hrun.
    cbn in Hrun. rewrite He in Hrun. apply IH in Hrun as (f3 & r3 & E3); [|lia].
    exists (f1 + f3)%nat, r3. rewrite Hsr, (search_fuel f1 (f1 + f3) _ _ _ _ ltac:(lia) E1). bind.
    rewrite Ec. apply (search_fuel f3); [lia|done].
  - exists f1, r2. rewrite Hsr, E1. bind. by rewrite Ec.
Qed.
End Search.

(** ** [lre_exec] computes the search *)

(** The return value and the captures a result of the search stands for; the
    other results are runs outside the program or the input. *)
Definition verdict (r : search_result) (ret : Z) (cap : list Z) : Prop :=
  match r with
  | S_match c => ret = 1 /\ cap = c
  | S_fail => ret = 0
  | _ => False
  end.

Lemma run_fuel {S} `{!Backtrack S} s bc_buf fuel fuel' (m : machine S) x : (fuel <= fuel')%nat ->
  lre_exec_backtrack s bc_buf fuel m = Some x -> lre_exec_backtrack s bc_buf fuel' m = Some x.
Proof.
  revert fuel' m. induction fuel as [|fuel IH]; intros fuel' m Hle Hr; [done|].
  destruct fuel' as [|fuel']; [lia|]. cbn in *. destruct (step s bc_buf m); try done. apply IH; [lia|done].
Qed.

Section Entry.
Context {O : Type} `{!LreHost O} `{!LreHostLaws O}.
Context (cap0 bc_buf : list Z) (cbuf : Z) (units : list Z) (cindex clen cbuf_type : Z) (o : O).
Context (s : REExecContext) (m : machine (undo O)).
Context (Hinit : lre_exec_init cap0 bc_buf cbuf units cindex clen cbuf_type o = Some (s, m)).
#[local] Abbreviation start := (Machine RE_HEADER_LEN (cptr m) (Snap (capture (store m)) [])).
#[local] Abbreviation run fuel := (lre_exec fuel cap0 bc_buf cbuf units cindex clen cbuf_type o).
#[local] Abbreviation found n := (search s bc_buf n RE_HEADER_LEN (cptr m) (capture (store m))).

Lemma init_sim : msim undo_rel m start.
Proof.
  revert Hinit. unfold lre_exec_init.
  destruct (exec_context _ _ _ _ _) as [s0|]; [bind|done].
  destruct (clear_captures _ _) as [cap|]; [bind|done]. destruct (start_cptr _ _ _ _) as [cp|]; [bind|done].
  intros [= <- <-]. split; [done|]. split; [done|]. split; [done|]. split; [cbn; lia|].
  exists [], (replicate 32 E_uninit). split_and!; [done..|]. apply (rep_nil []).
Qed.

(** The search from the start, run by the machine with copies. *)
Lemma search_run n r : found n = Some r -> exists fuel x,
  lre_exec_backtrack s bc_buf fuel start = Some x /\
  match r with
  | S_match c => exists p cp K, x = Ret 1 (Machine p cp (Snap c K))
  | S_fail => exists m', x = Ret 0 m'
  | _ => x = Wrong
  end.
Proof.
  intros Hs. destruct (search_turns _ _ _ _ _ _ _ Hs []) as (k & m' & Ht & He).
  exists (k + 1)%nat, (step s bc_buf m'). rewrite (turns_run _ _ _ _ _ _ Ht). cbn.
  destruct r; cbn in He.
  - destruct He as ([p cp [c l]] & Hl & ->). cbn in Hl. subst l. split; [done|]. by eexists.
  - destruct He as (p & cp & K & ->). split; [done|]. eauto.
  - by rewrite He.
  - by rewrite He.
  - by rewrite He.
Qed.

(** What the two machines have to do with each other when both have ended. *)
Lemma run_verdict fuel x n r : run fuel = Some x -> found n = Some r ->
  match x with
  | Some (ret, cap, _) => exec_error (O:=O) ret \/ verdict r ret cap
  | None => forall ret cap, ~ verdict r ret cap
  end.
Proof.
  unfold lre_exec. rewrite Hinit. intros Hrun Hs.
  destruct (search_run n r Hs) as (fuel2 & x2 & Hr2 & Hx2).
  destruct (lre_exec_backtrack s bc_buf fuel m) as [x1|] eqn:Hr1; [|done]. cbn in Hrun.
  apply (run_fuel _ _ _ (fuel + fuel2)) in Hr1; [|lia]. apply (run_fuel _ _ _ (fuel + fuel2)) in Hr2; [|lia].
  pose proof (undo_exec_sim s bc_buf (fuel + fuel2) m start init_sim) as H.
  rewrite Hr1, Hr2 in H. destruct r; cbn in Hx2.
  - destruct Hx2 as [m' ->]. destruct x1 as [| |ret m1|]; try done. simplify_eq. destruct H as [|[-> _]]; [by left|by right].
  - destruct Hx2 as (p & cp & K & ->). destruct x1 as [| |ret m1|]; try done. simplify_eq.
    destruct H as [|[-> (_ & _ & H & _)]]; [by left|right]. by split.
  - subst. destruct x1; simplify_eq; auto.
  - subst. destruct x1; simplify_eq; auto.
  - subst. destruct x1; simplify_eq; auto.
Qed.
End Entry.

(** C13: [lre_exec], with its array of captures, its growing stack of saved
    states and undo records and its compaction after lookaheads, computes the
    depth-first search of the bytecode.  Whenever the search ends, so does
    [lre_exec], and conversely; a return value of 1 comes with exactly the
    captures of the first match in search order, 0 means that the search fails,
    and the only other return values are a memory error, which takes an
    embedder that refuses memory, and a timeout, which takes one that asks for
    the end.  An access outside the bytecode, the input, the captures or the
    stack happens only where the search itself leaves the program. *)
Theorem lre_exec_searches {O} `{!LreHost O} `{!LreHostLaws O} capture0 bc_buf cbuf units cindex clen
    cbuf_type (o : O) s m :
  lre_exec_init capture0 bc_buf cbuf units cindex clen cbuf_type o = Some (s, m) ->
  (forall n r, search s bc_buf n RE_HEADER_LEN (cptr m) (capture (store m)) = Some r -> exists fuel x,
     lre_exec fuel capture0 bc_buf cbuf units cindex clen cbuf_type o = Some x) /\
  (forall fuel x, lre_exec fuel capture0 bc_buf cbuf units cindex clen cbuf_type o = Some x ->
     (exists ret cap o', x = Some (ret, cap, o') /\ exec_error (O:=O) ret) \/
     exists n r, search s bc_buf n RE_HEADER_LEN (cptr m) (capture (store m)) = Some r /\
       match x with
       | Some (ret, cap, _) => verdict r ret cap
       | None => forall ret cap, ~ verdict r ret cap
       end).
Proof.
  intros Hinit. split.
  - intros n r Hs. destruct (search_run bc_buf s m n r Hs) as (fuel & x & Hr & _).
    pose proof (undo_exec_sim s bc_buf fuel _ _ (init_sim _ _ _ _ _ _ _ _ _ _ Hinit)) as H.
    unfold lre_exec. rewrite Hr in H.
    destruct (lre_exec_backtrack s bc_buf fuel m) as [x1|] eqn:E; [|done].
    exists fuel. rewrite Hinit, E. bind. destruct x1; eauto.
  - intros fuel x Hrun. pose proof Hrun as Hrun'. unfold lre_exec in Hrun. rewrite Hinit in Hrun.
    destruct (lre_exec_backtrack s bc_buf fuel m) as [x1|] eqn:E; [cbn in Hrun|done].
    pose proof (undo_exec_sim s bc_buf fuel _ _ (init_sim _ _ _ _ _ _ _ _ _ _ Hinit)) as H. rewrite E in H.
    destruct (lre_exec_backtrack s bc_buf fuel (Machine RE_HEADER_LEN (cptr m) _)) as [x2|] eqn:E2.
    + destruct (run_search _ _ _ _ _ _ _ _ E2) as (n & r & Hs).
      pose proof (run_verdict _ _ _ _ _ _ _ _ _ _ Hinit _ _ _ _ Hrun' Hs) as Hv.
      destruct x as [[[ret cap] o']|]; [|by right; eauto].
      destruct Hv; [left; eauto 6|right; eauto].
    + destruct x1 as [| |ret m1|]; try done. simplify_eq. left. eauto 6.
Qed.

(** An embedder that grants memory and never interrupts. *)
#[export] Instance patient_host : LreHost unit := {
  lre_realloc _ _ size := (size <? 2 ^ 63, tt);
  lre_check_timeout _ := (false, tt);
}.
#[export] Instance patient_laws : LreHostLaws unit.
Proof. intros o first size. apply Z.ltb_lt. Qed.

(** The bytecode of [/(?=(a+))a*b\1/], and ["baaabac"]. *)
Definition example_bc : list Z :=
  [0; 0; 2; 0; 53; 0; 0; 0] ++
  [14; 6; 0; 0; 0; 6; 13; 0xF5; 0xFF; 0xFF; 0xFF; 19; 0; 40; 13; 0; 0; 0] ++
  [19; 1; 1; 97; 0; 14; 0xF8; 0xFF; 0xFF; 0xFF; 20; 1; 17] ++
  [15; 8; 0; 0; 0; 1; 97; 0; 13; 0xF3; 0xFF; 0xFF; 0xFF; 1; 98; 0; 32; 1; 1; 20; 0; 16].
Definition example_input : list Z := [98; 97; 97; 97; 98; 97; 99].

Definition example_re_context : REExecContext :=
  {| cbuf := 1000; input := example_input; cbuf_end := 1007; cbuf_type := 0; capture_count := 2;
     is_unicode := false |}.
Definition example_machine : machine (undo unit) :=
  Machine 8 1000 (MkUndo [0; 0; 0; 0] (replicate 32 E_uninit) true 0 0 10000 tt).

Lemma lre_exec_searches_witness :
  search example_re_context example_bc 60 RE_HEADER_LEN 1000 [0; 0; 0; 0] =
    Some (S_match [1003; 1006; 1003; 1004]) /\
  lre_exec 200 [7; 7; 7; 7] example_bc 1000 example_input 0 7 0 tt = Some (Some (1, [1003; 1006; 1003; 1004], tt)) /\
  exists fuel x, lre_exec fuel [7; 7; 7; 7] example_bc 1000 example_input 0 7 0 tt = Some x.
Proof.
  assert (search example_re_context example_bc 60 RE_HEADER_LEN 1000 [0; 0; 0; 0] =
    Some (S_match [1003; 1006; 1003; 1004])) as E by (vm_compute; reflexivity).
  split; [exact E|]. split; [vm_compute; reflexivity|].
  assert (lre_exec_init [7; 7; 7; 7] example_bc 1000 example_input 0 7 0 tt =
    Some (example_re_context, example_machine)) as Hinit by (vm_compute; reflexivity).
  exact (proj1 (lre_exec_searches [7; 7; 7; 7] example_bc 1000 example_input 0 7 0 tt _ _ Hinit) _ _ E).
Defined.
