(* ===== verification/RegexpRange.v ===== *)
(** * Character classes (libregexp.c)

    The binary search of [REOP_range] and [REOP_range32] over the intervals of
    a character class: it never reads outside the intervals and always ends,
    whatever they are, and when they are sorted it decides membership. *)
From S2P Require Import Prelude Sort UnicodeTables UnicodeCase Regexp RegexpSim.

(** [n] intervals at [p] in the bytecode, by the reader of one bound. *)
Definition intervals_at (get : Z -> option Z) (w p n : Z) (lo hi : Z -> Z) : Prop :=
  forall i, 0 <= i < n -> get (p + i * (2 * w)) = Some (lo i) /\ get (p + (i * (2 * w) + w)) = Some (hi i).

Definition sorted_intervals (n : Z) (lo hi : Z -> Z) : Prop :=
  (forall i, 0 <= i < n -> lo i <= hi i) /\ (forall i, 0 <= i -> i + 1 < n -> hi i < lo (i + 1)).

Lemma sorted_intervals_lt n lo hi i j : sorted_intervals n lo hi -> 0 <= i < j -> j < n -> hi i < lo j.
Proof.
  intros [Hle Hlt] Hi Hj.
  assert (forall k : nat, i + 1 + Z.of_nat k < n -> hi i < lo (i + 1 + Z.of_nat k)) as H.
  { induction k as [|k IH]; intros Hk.
    - rewrite Nat2Z.inj_0, Z.add_0_r in *. apply Hlt; lia.
    - specialize (IH ltac:(lia)). specialize (Hle (i + 1 + Z.of_nat k) ltac:(lia)).
      specialize (Hlt (i + 1 + Z.of_nat k) ltac:(lia) ltac:(lia)).
      replace (i + 1 + Z.of_nat (S k)) with (i + 1 + Z.of_nat k + 1) by lia. lia. }
  specialize (H (Z.to_nat (j - i - 1))). replace (i + 1 + Z.of_nat (Z.to_nat (j - i - 1))) with j in H by lia.
  apply H. lia.
Qed.

Section Range.
Context {S : Type} `{!Backtrack S}.
Context (get : Z -> option Z) (w p n c : Z) (lo hi : Z -> Z).
Context (Hw : 0 < w <= 4) (Hn : n <= 65536) (Hget : intervals_at get w p n lo hi).

(** The loop ends, reads only the intervals, and what it finds is one. *)
Lemma range_search_ends fuel i j (m : machine S) : lo 0 <= c -> 0 <= i -> 0 <= j < n ->
  j + 1 - i <= Z.of_nat fuel ->
  exists b, range_search fuel (fun q => of_opt (get q)) w p c i j m = Val b m /\
    (b = true -> exists k, i <= k <= j /\ lo k <= c <= hi k) /\
    (b = false -> sorted_intervals n lo hi -> forall k, i <= k <= j -> ~ lo k <= c <= hi k).
Proof.
  intros H0. revert i j. induction fuel as [|fuel IH]; intros i j Hi Hj Hf; cbn [range_search].
  - rewrite (proj2 (Z.leb_gt _ _)) by lia. exists false. split_and!; [done..|]. intros _ _ k. lia.
  - destruct (Z.leb_spec i j) as [Hij|Hij].
    2: { exists false. split_and!; [done..|]. intros _ _ k. lia. }
    rewrite (u32_id (i + j)) by lia. set (x := (i + j) / 2).
    assert (i <= x <= j) as Hx by (unfold x; Z.to_euclidean_division_equations; lia).
    assert (0 <= x * (2 * w) < 2 ^ 31) by nia.
    rewrite !(u32_id (x * (2 * w))) by lia. rewrite (u32_id (x * (2 * w) + w)) by lia.
    destruct (Hget x ltac:(lia)) as [E1 E2]. unfold ebind, of_opt. rewrite E1, E2.
    destruct (Z.ltb_spec c (lo x)) as [Hlo|Hlo]; [|destruct (Z.ltb_spec (hi x) c) as [Hhi|Hhi]].
    + assert (1 <= x) by (destruct (Z.eq_dec x 0) as [E|]; [rewrite E in Hlo|]; lia).
      rewrite (u32_id (x - 1)) by lia. destruct (IH i (x - 1)) as (b & E & Ht & Hfl); [lia..|].
      exists b. split_and!; [exact E| |].
      * intros Hb. destruct (Ht Hb) as (k & ? & ?). exists k. split; [lia|done].
      * intros Hb Hso k Hk. destruct (Z.le_gt_cases k (x - 1)); [apply Hfl; [done..|lia]|].
        destruct (Z.eq_dec k x) as [->|]; [lia|].
        pose proof (sorted_intervals_lt n lo hi x k Hso ltac:(lia) ltac:(lia)).
        pose proof (proj1 Hso x ltac:(lia)). lia.
    + rewrite (u32_id (x + 1)) by lia. destruct (IH (x + 1) j) as (b & E & Ht & Hfl); [lia..|].
      exists b. split_and!; [exact E| |].
      * intros Hb. destruct (Ht Hb) as (k & ? & ?). exists k. split; [lia|done].
      * intros Hb Hso k Hk. destruct (Z.le_gt_cases (x + 1) k); [apply Hfl; [done..|lia]|].
        destruct (Z.eq_dec k x) as [->|]; [lia|].
        pose proof (sorted_intervals_lt n lo hi k x Hso ltac:(lia) ltac:(lia)).
        pose proof (proj1 Hso x ltac:(lia)). lia.
    + exists true. split_and!; [done| |done]. intros _. exists x. split; [lia|done].
Qed.
End Range.

(** ** The instruction *)
Lemma ebind_val {T A B} (e : E T A) (k : A -> E T B) t a t' : e t = Val a t' -> ebind e k t = k a t'.
Proof. intros H. unfold ebind. by rewrite H. Qed.

Definition range_width (wide : bool) : Z := if wide then 4 else 2.
Definition range_get (bc_buf : list Z) (wide : bool) : Z -> option Z :=
  if wide then get_u32 bc_buf else get_u16 bc_buf.

(** The class of a [REOP_range]; in the 16-bit form a last bound of 0xffff
    stands for no bound. *)
Definition class_has (wide : bool) (n : Z) (lo hi : Z -> Z) (c : Z) : Prop :=
  (exists k, 0 <= k < n /\ lo k <= c <= hi k) \/
  (wide = false /\ 0xffff <= c /\ hi (n - 1) = 0xffff /\ lo 0 <= c).

Section Op.
Context {S : Type} `{!Backtrack S}.
Context (s : REExecContext) (bc_buf : list Z) (wide ignore_case : bool).
Context (n : Z) (lo hi : Z -> Z) (m : machine S) (c0 c cp : Z).
#[local] Abbreviation w := (range_width wide).
Context (Hfetch : get_u16 bc_buf (pc m) = Some n) (Hn : 1 <= n < 65536).
Context (Hint : intervals_at (range_get bc_buf wide) w (pc m + 2) n lo hi).
Context (Hlt : cptr m < cbuf_end s) (Hget : GET_CHAR s (cptr m) (cbuf_end s) = Some (c0, cp)).
Context (Hcan : if ignore_case then lre_canonicalize c0 (is_unicode s) = Some c else c = c0).

(** The instruction reads one character and then only the intervals: it goes
    on after them or does not match. *)
Lemma op_range_ends :
  (op_range s bc_buf wide ignore_case m = Val tt (Machine (pc m + 2 + 2 * w * n) cp (store m)) /\
     class_has wide n lo hi c) \/
  (op_range s bc_buf wide ignore_case m = NoMatch (Machine (pc m + 2) cp (store m)) /\
     (sorted_intervals n lo hi -> ~ class_has wide n lo hi c)).
Proof.
  set (m1 := Machine (pc m + 2) cp (store m)).
  assert (0 < w <= 4) as Hw by (destruct wide; cbn; lia).
  destruct (Hint 0 ltac:(lia)) as [El _]. destruct (Hint (n - 1) ltac:(lia)) as [_ Eh].
  assert (forall q, (if wide then read_u32 bc_buf else read_u16 bc_buf) q =
    (of_opt (range_get bc_buf wide q) : E (machine S) Z)) as Hread by (by destruct wide).
  assert (op_range s bc_buf wide ignore_case m =
    if c <? lo 0 then NoMatch m1
    else if negb wide && (0xffff <=? c) && (hi (n - 1) =? 0xffff) then
      Val tt (Machine (pc m + 2 + 2 * w * n) cp (store m))
    else if hi (n - 1) <? c then NoMatch m1
    else match range_search (Z.to_nat n) (fun q => of_opt (range_get bc_buf wide q)) w (pc m + 2) c 0 (n - 1) m1 with
         | Val true m' => Val tt (Machine (pc m + 2 + 2 * w * n) (cptr m') (store m'))
         | Val false m' => NoMatch m'
         | NoMatch m' => NoMatch m'
         | Ret r m' => Ret r m'
         | Wrong => Wrong
         end) as ->.
  { unfold op_range. fold (range_width wide).
    erewrite ebind_val; [|unfold fetch_u16; by rewrite Hfetch].
    erewrite ebind_val by reflexivity. erewrite ebind_val by reflexivity.
    erewrite ebind_val; [|unfold no_match_if; cbn [cptr]; by rewrite (proj2 (Z.leb_gt _ _))].
    erewrite ebind_val; [|unfold next_char; cbn [cptr pc store]; by rewrite Hget].
    cbn [pc store]. fold m1.
    erewrite (ebind_val _ _ m1 c m1); [|unfold canonicalize_if; destruct ignore_case; by rewrite Hcan].
    rewrite Z.mul_0_l, Z.add_0_r in El. erewrite ebind_val; [|rewrite Hread, El; reflexivity].
    destruct (c <? lo 0); [done|]. erewrite ebind_val by reflexivity.
    rewrite (u32_id (n - 1)) by lia. rewrite (u32_id ((n - 1) * (2 * w))) by nia.
    rewrite (u32_id ((n - 1) * (2 * w) + w)) by nia.
    erewrite ebind_val; [|rewrite Hread, Eh; reflexivity].
    destruct (_ && _ && _); [done|]. destruct (hi (n - 1) <? c); [done|].
    erewrite ebind_val by reflexivity.
    assert ((if wide then read_u32 bc_buf else read_u16 bc_buf : Z -> E (machine S) Z) =
      fun q => of_opt (range_get bc_buf wide q)) as -> by (by destruct wide).
    unfold ebind at 1. destruct (range_search _ _ _ _ _ _ _ _) as [[|] | | |]; done. }
  assert (sorted_intervals n lo hi -> forall k, 0 <= k < n -> lo 0 <= lo k /\ hi k <= hi (n - 1)) as Hends.
  { intros Hso k Hk. pose proof (proj1 Hso 0 ltac:(lia)). pose proof (proj1 Hso (n - 1) ltac:(lia)).
    pose proof (proj1 Hso k Hk). split.
    - destruct (Z.eq_dec k 0) as [->|]; [lia|].
      pose proof (sorted_intervals_lt n lo hi 0 k Hso ltac:(lia) ltac:(lia)). lia.
    - destruct (Z.eq_dec k (n - 1)) as [->|]; [lia|].
      pose proof (sorted_intervals_lt n lo hi k (n - 1) Hso ltac:(lia) ltac:(lia)). lia. }
  destruct (Z.ltb_spec c (lo 0)) as [H0|H0].
  { right. split; [done|]. intros Hso [(k & Hk & Hc)|(_ & _ & _ & ?)]; [|lia].
    specialize (Hends Hso k Hk). lia. }
  destruct (negb wide && (0xffff <=? c) && (hi (n - 1) =? 0xffff)) eqn:Einf.
  { left. split; [done|]. right. apply andb_prop in Einf as [[Hnw H1]%andb_prop H2].
    apply negb_true_iff in Hnw. split_and!; [done|lia..]. }
  assert (~ (wide = false /\ 0xffff <= c /\ hi (n - 1) = 0xffff /\ lo 0 <= c)) as Hninf.
  { intros (-> & ? & ? & _). rewrite (proj2 (Z.leb_le _ _)), (proj2 (Z.eqb_eq _ _)) in Einf by done. done. }
  destruct (Z.ltb_spec (hi (n - 1)) c) as [H1|H1].
  { right. split; [done|]. intros Hso [(k & Hk & Hc)|]; [|done]. specialize (Hends Hso k Hk). lia. }
  destruct (range_search_ends (range_get bc_buf wide) w (pc m + 2) n c lo hi Hw ltac:(lia) Hint
    (Z.to_nat n) 0 (n - 1) m1) as ([|] & -> & Ht & Hf); [lia..| |].
  - left. split; [done|]. left. destruct (Ht eq_refl) as (k & ? & ?). exists k. split; [lia|done].
  - right. split; [done|]. intros Hso [(k & Hk & Hc)|]; [|done]. apply (Hf eq_refl Hso k); [lia|done].
Qed.
End Op.

(** A character class matches exactly its characters: at a sorted class of
    [n] intervals and a readable character, [REOP_range] and [REOP_range32]
    (after canonicalization for the [_i] forms) consume the character and go
    on behind the class when the character is in one of the intervals, or is
    at least 0xffff in a 16-bit class whose last bound is 0xffff; otherwise
    they do not match.  They never read outside the class. *)
Theorem range_decides {S : Type} `{!Backtrack S} s bc_buf wide (ignore_case : bool) n lo hi (m : machine S) c0 c cp :
  get_u16 bc_buf (pc m) = Some n -> 1 <= n < 65536 ->
  intervals_at (range_get bc_buf wide) (range_width wide) (pc m + 2) n lo hi ->
  sorted_intervals n lo hi -> cptr m < cbuf_end s ->
  GET_CHAR s (cptr m) (cbuf_end s) = Some (c0, cp) ->
  (if ignore_case then lre_canonicalize c0 (is_unicode s) = Some c else c = c0) ->
  (op_range s bc_buf wide ignore_case m =
     Val tt (Machine (pc m + 2 + 2 * range_width wide * n) cp (store m)) /\ class_has wide n lo hi c) \/
  (op_range s bc_buf wide ignore_case m = NoMatch (Machine (pc m + 2) cp (store m)) /\
     ~ class_has wide n lo hi c).
Proof.
  intros Hf Hn Hi Hso Hlt Hg Hc.
  destruct (op_range_ends s bc_buf wide ignore_case n lo hi m c0 c cp Hf Hn Hi Hlt Hg Hc) as [?|[? H]];
    [by left|right; auto].
Qed.

(** [[0-9a-z]] at ["k"] *)
Definition example_class : list Z := [2; 0; 48; 0; 57; 0; 97; 0; 122; 0].
Definition example_at_k : REExecContext :=
  {| cbuf := 100; input := [107]; cbuf_end := 101; cbuf_type := 0; capture_count := 1; is_unicode := false |}.
Definition example_at : machine snap := Machine 0 100 (Snap [] []).
Lemma range_decides_witness :
  op_range example_at_k example_class false false example_at = Val tt (Machine 10 101 (Snap [] [])) /\
  class_has false 2 (fun k => 48 + 49 * k) (fun k => 57 + 65 * k) 107.
Proof.
  split; [vm_compute; reflexivity|].
  assert (intervals_at (range_get example_class false) (range_width false) (pc example_at + 2) 2
    (fun k => 48 + 49 * k) (fun k => 57 + 65 * k)) as Hi.
  { intros i Hi. assert (i = 0 \/ i = 1) as [-> | ->] by lia; vm_compute; done. }
  assert (sorted_intervals 2 (fun k => 48 + 49 * k) (fun k => 57 + 65 * k)) as Hso by (split; intros; lia).
  destruct (range_decides example_at_k example_class false false 2 (fun k => 48 + 49 * k) (fun k => 57 + 65 * k)
    example_at 107 107 101 eq_refl ltac:(lia) Hi Hso ltac:(reflexivity) eq_refl eq_refl) as [[_ H]|[H _]];
    [exact H|discriminate H].
Defined.
