(* ===== verification/RegexpType.v ===== *)
(** * Well-typed bytecode

    A checker for compiled regular expressions, in the manner of a bytecode
    verifier, and the proof that the executor is safe on what it accepts.  The
    type of a position is the list of the lookaheads around it, innermost
    first ([true] for a negative one); every instruction must lie inside the
    bytecode, name captures and registers that exist, and go on only to
    positions of the right type.  [lre_exec_safe] is preservation and progress:
    the run stays well-typed, so no read leaves the bytecode, the input, the
    captures or the stack, no assertion fails and [abort()] is not reached. *)
From S2P Require Import Prelude Sort UnicodeTables UnicodeCase UnicodeCaseProps Regexp RegexpSim RegexpUndo.
From S2P Require Import RegexpSearch RegexpRange.

(** ** Length of an instruction *)
Definition reopcode_size (b : Z) : option Z := snd <$> reopcode_info !! Z.to_nat b.

(** The variable part: ranges, and the groups of a back reference. *)
Definition instr_extra (bc_buf : list Z) (op : REOPCodeEnum) (p : Z) : option Z :=
  match op with
  | REOP_range | REOP_range_i => v ← get_u16 bc_buf (p + 1); Some (v * 4)
  | REOP_range32 | REOP_range32_i => v ← get_u16 bc_buf (p + 1); Some (v * 8)
  | REOP_back_reference | REOP_back_reference_i
  | REOP_backward_back_reference | REOP_backward_back_reference_i => byte_at bc_buf (p + 1)
  | _ => Some 0
  end.

(** ** The types of the positions *)
Definition lctx : Type := list bool.
Definition typing : Type := gmap Z lctx.

Section Check.
Context (bc_buf : list Z) (cc rc : Z).

(** The type of the next instruction, as the code is laid out. *)
Definition ctx_after (op : REOPCodeEnum) (c : lctx) : lctx :=
  match op with
  | REOP_lookahead => false :: c
  | REOP_negative_lookahead => true :: c
  | REOP_lookahead_match | REOP_negative_lookahead_match => tail c
  | _ => c
  end.

(** A linear pass gives the types. *)
Fixpoint scan_types (fuel : nat) (p pend : Z) (c : lctx) : option typing :=
  if pend <=? p then Some ∅
  else match fuel with
  | O => None
  | S fuel =>
      b ← byte_at bc_buf p;
      op ← opcode_of b;
      size ← reopcode_size b;
      extra ← instr_extra bc_buf op p;
      ty ← scan_types fuel (p + size + extra) pend (ctx_after op c);
      Some (<[p := c]> ty)
  end.

Context (ty : typing).
Definition flows (p : Z) (c : lctx) : bool := bool_decide (ty !! p = Some c).
Definition u8_sat (q : Z) (f : Z -> bool) : bool :=
  match byte_at bc_buf q with Some v => f v | None => false end.
Definition u16_sat (q : Z) (f : Z -> bool) : bool :=
  match get_u16 bc_buf q with Some v => f v | None => false end.
Definition u32_sat (q : Z) (f : Z -> bool) : bool :=
  match get_u32 bc_buf q with Some v => f v | None => false end.

(** The instruction with opcode [op] and operands from [q] on, at type [c]. *)
Definition instr_ok (op : REOPCodeEnum) (q : Z) (c : lctx) : bool :=
  match op with
  | REOP_invalid => false
  | REOP_char | REOP_char_i => u16_sat q (fun _ => flows (q + 2) c)
  | REOP_char32 | REOP_char32_i => u32_sat q (fun _ => flows (q + 4) c)
  | REOP_dot | REOP_any | REOP_space | REOP_not_space
  | REOP_line_start | REOP_line_start_m | REOP_line_end | REOP_line_end_m
  | REOP_word_boundary | REOP_word_boundary_i | REOP_not_word_boundary | REOP_not_word_boundary_i
  | REOP_prev => flows q c
  | REOP_goto => u32_sat q (fun v => flows (q + 4 + i32 v) c)
  | REOP_split_goto_first | REOP_split_next_first =>
      u32_sat q (fun v => flows (q + 4) c && flows (q + 4 + i32 v) c)
  | REOP_match => true
  | REOP_lookahead_match => match c with false :: _ => true | _ => false end
  | REOP_negative_lookahead_match => match c with true :: _ => true | _ => false end
  | REOP_save_start | REOP_save_end => u8_sat q (fun v => (v <? cc) && flows (q + 1) c)
  | REOP_save_reset => u8_sat q (fun _ => u8_sat (q + 1) (fun v2 => (v2 <? cc) && flows (q + 2) c))
  | REOP_loop =>
      u8_sat q (fun r => (r <? rc) &&
        u32_sat (q + 1) (fun v => flows (q + 5) c && flows (q + 5 + i32 v) c))
  | REOP_loop_split_goto_first | REOP_loop_split_next_first =>
      u8_sat q (fun r => (r <? rc) && u32_sat (q + 1) (fun _ =>
        u32_sat (q + 5) (fun v => flows (q + 9) c && flows (q + 9 + i32 v) c)))
  | REOP_loop_check_adv_split_goto_first | REOP_loop_check_adv_split_next_first =>
      u8_sat q (fun r => (r + 1 <? rc) && u32_sat (q + 1) (fun _ =>
        u32_sat (q + 5) (fun v => flows (q + 9) c && flows (q + 9 + i32 v) c)))
  | REOP_set_i32 => u8_sat q (fun r => (r <? rc) && u32_sat (q + 1) (fun _ => flows (q + 5) c))
  | REOP_set_char_pos | REOP_check_advance => u8_sat q (fun r => (r <? rc) && flows (q + 1) c)
  | REOP_back_reference | REOP_back_reference_i
  | REOP_backward_back_reference | REOP_backward_back_reference_i =>
      u8_sat q (fun n => flows (q + 1 + n) c)
  | REOP_range | REOP_range_i => u16_sat q (fun n => (1 <=? n) && flows (q + 2 + 4 * n) c)
  | REOP_range32 | REOP_range32_i => u16_sat q (fun n => (1 <=? n) && flows (q + 2 + 8 * n) c)
  | REOP_lookahead => u32_sat q (fun v => flows (q + 4) (false :: c) && flows (q + 4 + i32 v) c)
  | REOP_negative_lookahead => u32_sat q (fun v => flows (q + 4) (true :: c) && flows (q + 4 + i32 v) c)
  end.

Definition typed_at (p : Z) (c : lctx) : Prop :=
  match opcode_at bc_buf p with Some op => instr_ok op (p + 1) c = true | None => False end.
#[export] Instance typed_at_dec p c : Decision (typed_at p c).
Proof. unfold typed_at. destruct (opcode_at bc_buf p); apply _. Defined.

Definition well_typed : Prop := ty !! RE_HEADER_LEN = Some [] /\ map_Forall typed_at ty.
End Check.

Definition is_byte (b : Z) : Prop := 0 <= b < 256.
#[export] Instance is_byte_dec b : Decision (is_byte b).
Proof. unfold is_byte. apply _. Defined.

(** The checker: on the counts and the length in the header. *)
Definition re_check (bc_buf : list Z) : bool :=
  match byte_at bc_buf RE_HEADER_CAPTURE_COUNT, byte_at bc_buf RE_HEADER_REGISTER_COUNT,
        get_u32 bc_buf RE_HEADER_BYTECODE_LEN with
  | Some cc, Some rc, Some len =>
      bool_decide (Forall is_byte bc_buf) &&
      match scan_types bc_buf (length bc_buf) RE_HEADER_LEN (RE_HEADER_LEN + len) [] with
      | Some ty => bool_decide (well_typed bc_buf cc rc ty)
      | None => false
      end
  | _, _, _ => false
  end.

Example re_check_example : re_check example_bc = true.
Proof. vm_compute. reflexivity. Qed.

(** ** Positions in the input *)
Definition char_width (s : REExecContext) : Z := if cbuf_type s =? 0 then 1 else 2.
Definition input_len (s : REExecContext) : Z := Z.of_nat (length (input s)).

(** The context of a run on a buffer of [length (input s)] units. *)
Definition context_ok (s : REExecContext) : Prop :=
  0 < cbuf s /\ (0 <= cbuf_type s <= 2) /\ cbuf_end s = cbuf s + char_width s * input_len s /\
  Forall (Z.le 0) (input s).

(** A pointer to a unit of the input, or to its end. *)
Definition in_input (s : REExecContext) (p : Z) : Prop :=
  exists i, 0 <= i <= input_len s /\ p = cbuf s + char_width s * i.

Section Chars.
Context (s : REExecContext) (Hs : context_ok s).

Lemma char_width_cases : (cbuf_type s = 0 /\ char_width s = 1) \/ (cbuf_type s <> 0 /\ char_width s = 2).
Proof. unfold char_width. destruct (Z.eqb_spec (cbuf_type s) 0); auto. Qed.

Lemma in_input_bounds p : in_input s p -> cbuf s <= p <= cbuf_end s.
Proof.
  intros (i & Hi & ->). destruct Hs as (_ & _ & -> & _). destruct char_width_cases as [[_ ->]|[_ ->]]; nia.
Qed.
Lemma in_input_start : in_input s (cbuf s).
Proof. exists 0. unfold input_len. lia. Qed.
Lemma in_input_end : in_input s (cbuf_end s).
Proof. destruct Hs as (_ & _ & -> & _). exists (input_len s). unfold input_len. lia. Qed.
Lemma in_input_next p q : in_input s p -> in_input s q -> p < q ->
  in_input s (p + char_width s) /\ p + char_width s <= q.
Proof.
  intros (i & Hi & ->) (j & Hj & ->) Hlt.
  assert (i < j) by (destruct char_width_cases as [[_ E]|[_ E]]; rewrite E in Hlt; nia).
  split; [exists (i + 1); split; [lia|ring]|].
  destruct char_width_cases as [[_ ->]|[_ ->]]; nia.
Qed.
Lemma in_input_prev p q : in_input s p -> in_input s q -> q < p ->
  in_input s (p - char_width s) /\ q <= p - char_width s.
Proof.
  intros (i & Hi & ->) (j & Hj & ->) Hlt.
  assert (j < i) by (destruct char_width_cases as [[_ E]|[_ E]]; rewrite E in Hlt; nia).
  split; [exists (i - 1); split; [lia|ring]|].
  destruct char_width_cases as [[_ ->]|[_ ->]]; nia.
Qed.

Lemma unit_at_ok p : in_input s p -> p < cbuf_end s -> exists c, unit_at s p = Some c /\ 0 <= c.
Proof.
  intros (i & Hi & ->) Hlt. destruct Hs as (Hb & _ & He & Hin). rewrite He in Hlt. unfold input_len in *.
  assert (i < Z.of_nat (length (input s))) by (destruct char_width_cases as [[_ E]|[_ E]]; rewrite E in Hlt; nia).
  destruct (lookup_lt_is_Some_2 (input s) (Z.to_nat i)) as [c Hc]; [lia|].
  exists c. split; [|by eapply Forall_lookup_1 in Hin]. unfold unit_at.
  destruct char_width_cases as [[Et Ew]|[Et Ew]]; rewrite Ew.
  - rewrite Et. cbn [Z.eqb]. rewrite (proj2 (Z.ltb_ge _ _)) by lia. rewrite <- Hc. f_equal. lia.
  - rewrite (proj2 (Z.ltb_ge _ _)) by lia. rewrite (proj2 (Z.eqb_neq _ _)) by done.
    replace (cbuf s + 2 * i - cbuf s) with (i * 2) by ring.
    rewrite Z.mod_mul, Z.div_mul by lia. by rewrite Z.eqb_refl.
Qed.

Lemma hi_surrogate_ge c : is_hi_surrogate c = true -> 0xD800 <= c.
Proof.
  unfold is_hi_surrogate. rewrite Z.eqb_eq, !Z.shiftr_div_pow2 by lia. intros H.
  change (0xD800 / 2 ^ 10) with 54 in H. Z.to_euclidean_division_equations. lia.
Qed.
Lemma lo_surrogate_ge c : is_lo_surrogate c = true -> 0xDC00 <= c.
Proof.
  unfold is_lo_surrogate. rewrite Z.eqb_eq, !Z.shiftr_div_pow2 by lia. intros H.
  change (0xDC00 / 2 ^ 10) with 55 in H. Z.to_euclidean_division_equations. lia.
Qed.

(** Reading forwards stays below the limit and advances. *)
Lemma GET_CHAR_ok p e : in_input s p -> in_input s e -> p < e ->
  exists c p', GET_CHAR s p e = Some (c, p') /\ 0 <= c /\ in_input s p' /\ p < p' <= e.
Proof.
  intros Hp He Hlt. pose proof (in_input_bounds _ He) as [_ Hee].
  destruct (unit_at_ok p Hp ltac:(lia)) as (c & Hc & Hc0).
  destruct (in_input_next p e Hp He Hlt) as [Hn Hne]. unfold GET_CHAR. rewrite Hc.
  destruct char_width_cases as [[Et Ew]|[Et Ew]]; rewrite Ew in *.
  - rewrite Et. cbn. exists c, (p + 1). split_and!; try done; lia.
  - rewrite (proj2 (Z.eqb_neq _ _)) by done. bind.
    assert (exists c' p', Some (c, p + 2) = Some (c', p') /\ 0 <= c' /\ in_input s p' /\ p < p' <= e) as Hone
      by (exists c, (p + 2); split_and!; try done; lia).
    destruct (is_hi_surrogate c && (cbuf_type s =? 2)) eqn:Eh; [|exact Hone].
    destruct (Z.ltb_spec (p + 2) e) as [H2|]; [|exact Hone].
    destruct (unit_at_ok (p + 2) Hn ltac:(lia)) as (c2 & Hc2 & _). rewrite Hc2. bind.
    destruct (is_lo_surrogate c2) eqn:El; [|exact Hone].
    destruct (in_input_next (p + 2) e Hn He H2) as [Hn2 Hne2]. rewrite Ew in *.
    apply andb_prop in Eh as [Eh _]. apply hi_surrogate_ge in Eh. apply lo_surrogate_ge in El.
    eexists _, _. split; [done|]. unfold from_surrogate. split_and!; try done; lia.
Qed.

Lemma GET_PREV_CHAR_ok p b : in_input s p -> in_input s b -> b < p ->
  exists c p', GET_PREV_CHAR s p b = Some (c, p') /\ 0 <= c /\ in_input s p' /\ b <= p' < p.
Proof.
  intros Hp Hb Hlt. pose proof (in_input_bounds _ Hp) as [_ Hpe]. pose proof (in_input_bounds _ Hb) as [Hbb _].
  destruct (in_input_prev p b Hp Hb Hlt) as [Hn Hne]. unfold GET_PREV_CHAR.
  destruct char_width_cases as [[Et Ew]|[Et Ew]]; rewrite Ew in *.
  - rewrite Et. cbn [Z.eqb]. destruct (unit_at_ok (p - 1) Hn ltac:(lia)) as (c & Hc & Hc0). rewrite Hc. cbn.
    exists c, (p - 1). split_and!; try done; lia.
  - rewrite (proj2 (Z.eqb_neq _ _)) by done.
    destruct (unit_at_ok (p - 2) Hn ltac:(lia)) as (c & Hc & Hc0). rewrite Hc. bind.
    assert (exists c' p', Some (c, p - 2) = Some (c', p') /\ 0 <= c' /\ in_input s p' /\ b <= p' < p) as Hone
      by (exists c, (p - 2); split_and!; try done; lia).
    destruct (is_lo_surrogate c && (cbuf_type s =? 2)) eqn:El; [|exact Hone].
    destruct (Z.ltb_spec b (p - 2)) as [H2|]; [|exact Hone].
    destruct (in_input_prev (p - 2) b Hn Hb H2) as [Hn2 Hne2]. rewrite Ew in *.
    destruct (unit_at_ok (p - 2 - 2) Hn2 ltac:(lia)) as (c1 & Hc1 & _). rewrite Hc1. bind.
    destruct (is_hi_surrogate c1) eqn:Eh; [|exact Hone].
    apply andb_prop in El as [El _]. apply hi_surrogate_ge in Eh. apply lo_surrogate_ge in El.
    eexists _, _. split; [done|]. unfold from_surrogate. split_and!; try done; lia.
Qed.

(** Peeking reads what the advancing reads do. *)
Lemma PEEK_CHAR_fst p e : PEEK_CHAR s p e = fst <$> GET_CHAR s p e.
Proof.
  unfold PEEK_CHAR, GET_CHAR. destruct (cbuf_type s =? 0); destruct (unit_at s p); try done. bind.
  destruct (_ && _); [|done]. destruct (p + 2 <? e); [|done].
  destruct (unit_at s (p + 2)); [|done]. bind. by destruct (is_lo_surrogate _).
Qed.
Lemma PEEK_PREV_CHAR_fst p b : PEEK_PREV_CHAR s p b = fst <$> GET_PREV_CHAR s p b.
Proof.
  unfold PEEK_PREV_CHAR, GET_PREV_CHAR. destruct (cbuf_type s =? 0); [by destruct (unit_at s (p - 1))|].
  destruct (unit_at s (p - 2)); [|done]. bind. destruct (_ && _); [|done]. destruct (b <? p - 2); [|done].
  destruct (unit_at s (p - 2 - 2)); [|done]. bind. by destruct (is_hi_surrogate _).
Qed.
Lemma PREV_CHAR_ok p : in_input s p -> cbuf s < p ->
  exists p', PREV_CHAR s p (cbuf s) = Some p' /\ in_input s p'.
Proof.
  intros Hp Hlt. destruct (GET_PREV_CHAR_ok p (cbuf s) Hp in_input_start Hlt) as (c & p' & E & _ & Hp' & _).
  exists p'. split; [|done]. revert E. unfold PREV_CHAR, GET_PREV_CHAR.
  destruct (cbuf_type s =? 0); [destruct (unit_at s (p - 1)); cbn; congruence|].
  destruct (unit_at s (p - 2)); [|done]. bind. destruct (_ && _); [|congruence].
  destruct (cbuf s <? p - 2); [|congruence]. destruct (unit_at s (p - 2 - 2)); [|done]. bind.
  destruct (is_hi_surrogate _); congruence.
Qed.
End Chars.

(** The table of character types covers the bytes. *)
Lemma is_space_total c : 0 <= c -> exists b, lre_is_space c = Some b.
Proof.
  intros Hc. unfold lre_is_space. destruct (Z.ltb_spec c 256); [|eauto].
  destruct (lookup_lt_is_Some_2 lre_ctype_bits (Z.to_nat c)) as [b Hb].
  { change (length lre_ctype_bits) with 256%nat. lia. }
  unfold lre_is_space_byte. rewrite Hb. eauto.
Qed.
Lemma is_word_char_total i c : 0 <= c -> exists b, is_word_char i c = Some b.
Proof.
  intros Hc. unfold is_word_char. destruct (Z.ltb_spec c 256); [|eauto].
  destruct (lookup_lt_is_Some_2 lre_ctype_bits (Z.to_nat c)) as [b Hb].
  { change (length lre_ctype_bits) with 256%nat. lia. }
  unfold lre_is_word_byte. rewrite Hb. eauto.
Qed.

(** ** Bytes of the bytecode *)
Section Bytes.
Context (bc_buf : list Z) (Hbytes : Forall is_byte bc_buf).

Lemma byte_at_range p v : byte_at bc_buf p = Some v -> 0 <= v < 256 /\ 0 <= p < Z.of_nat (length bc_buf).
Proof.
  unfold byte_at. destruct (Z.ltb_spec p 0); [done|]. intros E.
  pose proof (Forall_lookup_1 _ _ _ _ Hbytes E). apply lookup_lt_Some in E. unfold is_byte in *. lia.
Qed.
Lemma byte_at_in p : 0 <= p < Z.of_nat (length bc_buf) -> exists v, byte_at bc_buf p = Some v.
Proof.
  intros Hp. unfold byte_at. rewrite (proj2 (Z.ltb_ge _ _)) by lia. apply lookup_lt_is_Some_2. lia.
Qed.
Lemma get_u16_in p : 0 <= p -> p + 1 < Z.of_nat (length bc_buf) ->
  exists v, get_u16 bc_buf p = Some v /\ 0 <= v < 65536.
Proof.
  intros H0 H1. unfold get_u16. destruct (byte_at_in p) as [a Ea]; [lia|].
  destruct (byte_at_in (p + 1)) as [b Eb]; [lia|]. rewrite Ea, Eb. bind. eexists. split; [done|].
  apply byte_at_range in Ea as [? _], Eb as [? _]. rewrite Z.shiftl_mul_pow2 by lia. lia.
Qed.
Lemma get_u16_range p v : get_u16 bc_buf p = Some v -> 0 <= v < 65536.
Proof.
  unfold get_u16. destruct (byte_at bc_buf p) as [a|] eqn:Ea; [bind|done].
  destruct (byte_at bc_buf (p + 1)) as [b|] eqn:Eb; [bind|done]. intros [= <-].
  apply byte_at_range in Ea as [? _], Eb as [? _]. rewrite Z.shiftl_mul_pow2 by lia. lia.
Qed.
Lemma get_u32_in p : 0 <= p -> p + 3 < Z.of_nat (length bc_buf) -> exists v, get_u32 bc_buf p = Some v.
Proof.
  intros H0 H1. unfold get_u32. destruct (byte_at_in p) as [a Ea]; [lia|].
  destruct (byte_at_in (p + 1)) as [b Eb]; [lia|]. destruct (byte_at_in (p + 2)) as [c Ec]; [lia|].
  destruct (byte_at_in (p + 3)) as [d Ed]; [lia|]. rewrite Ea, Eb, Ec, Ed. eauto.
Qed.
End Bytes.

(** ** Safety of the instructions *)
Section Safe.
Context (s : REExecContext) (bc_buf : list Z) (rc : Z) (ty : typing).
Context (Hs : context_ok s) (Hbytes : Forall is_byte bc_buf) (Hcc : 0 <= capture_count s) (Hrc : 0 <= rc).
Context (Hty : map_Forall (typed_at bc_buf (capture_count s) rc ty) ty).
#[local] Abbreviation cc := (capture_count s).

(** The captures: those of the groups are null or inside the input. *)
Definition captures_ok (cap : list Z) : Prop :=
  2 * cc + rc <= Z.of_nat (length cap) /\
  forall i v, 0 <= i < 2 * cc -> capture_lookup cap i = Some v -> v = 0 \/ in_input s v.

(** The saved states, from a position of type [c]. *)
Inductive states_ok : lctx -> list saved -> Prop :=
| states_nil : states_ok [] []
| states_split c l p cp cap :
    states_ok c l -> ty !! p = Some c -> in_input s cp -> captures_ok cap ->
    states_ok c (Saved p cp RE_EXEC_STATE_SPLIT cap :: l)
| states_look c l p cp cap :
    states_ok c l -> ty !! p = Some c -> in_input s cp -> captures_ok cap ->
    states_ok (false :: c) (Saved p cp RE_EXEC_STATE_LOOKAHEAD cap :: l)
| states_neg c l p cp cap :
    states_ok c l -> ty !! p = Some c -> in_input s cp -> captures_ok cap ->
    states_ok (true :: c) (Saved p cp RE_EXEC_STATE_NEGATIVE_LOOKAHEAD cap :: l).

Definition snap_ok (c : lctx) (t : snap) : Prop := captures_ok (s_capture t) /\ states_ok c (s_states t).

(** [safe c p cp e Q]: from [pc = p], [cptr = cp] and a storage of type [c],
    [e] goes on with [Q a p' cp' c'] at the value, the new [pc] and [cptr] and
    the new type, or does not match; the storage stays well-typed. *)
Definition safe {A} (c : lctx) (p cp : Z) (e : E (machine snap) A) (Q : A -> Z -> Z -> lctx -> Prop) : Prop :=
  forall t, in_input s cp -> snap_ok c t ->
  match e (Machine p cp t) with
  | Val a m => exists c', in_input s (cptr m) /\ snap_ok c' (store m) /\ Q a (pc m) (cptr m) c'
  | NoMatch m => exists c', snap_ok c' (store m)
  | Ret _ _ | Wrong => False
  end.

Section Rules.
Context {A B : Type}.
Implicit Types (Q : A -> Z -> Z -> lctx -> Prop) (e : E (machine snap) A).

Lemma safe_bind c p cp e (k : A -> E (machine snap) B) Q (Q' : B -> Z -> Z -> lctx -> Prop) :
  safe c p cp e Q -> (forall a p' cp' c', in_input s cp' -> Q a p' cp' c' -> safe c' p' cp' (k a) Q') ->
  safe c p cp (ebind e k) Q'.
Proof.
  intros He Hk t Hcp Ht. specialize (He t Hcp Ht). unfold ebind.
  destruct (e (Machine p cp t)) as [a [p1 cp1 t1]| | |]; try done.
  destruct He as (c1 & Hi & Hok & HQ). by apply (Hk a p1 cp1 c1).
Qed.
(** The position is in the input. *)
Lemma safe_intro c p cp e Q : (in_input s cp -> safe c p cp e Q) -> safe c p cp e Q.
Proof. intros H t Hcp Ht. by apply H. Qed.
Lemma safe_ret c p cp (a : A) Q : Q a p cp c -> safe c p cp (eret a) Q.
Proof. intros HQ t Hcp Ht. by exists c. Qed.
Lemma safe_of_opt c p cp (o : option A) a Q : o = Some a -> Q a p cp c -> safe c p cp (of_opt o) Q.
Proof. intros -> HQ t Hcp Ht. by exists c. Qed.
End Rules.

Lemma captures_read cap i : captures_ok cap -> 0 <= i < 2 * cc + rc -> exists v,
  capture_lookup cap i = Some v /\ (i < 2 * cc -> v = 0 \/ in_input s v).
Proof.
  intros [Hl Hv] Hi. destruct (lookup_lt_is_Some_2 cap (Z.to_nat i)) as [v E]; [lia|].
  assert (capture_lookup cap i = Some v) as Ec.
  { unfold capture_lookup. by rewrite (proj2 (Z.ltb_ge _ _)) by lia. }
  exists v. split; [done|]. intros Hi2. eapply Hv; [|done]. lia.
Qed.

(** The rules for the first action of an instruction. *)
Section Actions.
Context {B : Type} (Q : B -> Z -> Z -> lctx -> Prop).

Lemma safe_get_pc c p cp (k : Z -> E (machine snap) B) : safe c p cp (k p) Q -> safe c p cp (ebind get_pc k) Q.
Proof. intros Hk t Hcp Ht. by apply Hk. Qed.
Lemma safe_get_cptr c p cp (k : Z -> E (machine snap) B) :
  safe c p cp (k cp) Q -> safe c p cp (ebind get_cptr k) Q.
Proof. intros Hk t Hcp Ht. by apply Hk. Qed.
Lemma safe_set_pc c p cp q (k : unit -> E (machine snap) B) :
  safe c q cp (k tt) Q -> safe c p cp (ebind (set_pc q) k) Q.
Proof. intros Hk t Hcp Ht. by apply Hk. Qed.
Lemma safe_set_cptr c p cp q (k : unit -> E (machine snap) B) :
  in_input s q -> safe c p q (k tt) Q -> safe c p cp (ebind (set_cptr q) k) Q.
Proof. intros Hq Hk t Hcp Ht. by apply Hk. Qed.
Lemma safe_no_match_if c p cp b (k : unit -> E (machine snap) B) :
  (b = false -> safe c p cp (k tt) Q) -> safe c p cp (ebind (no_match_if b) k) Q.
Proof. intros Hk t Hcp Ht. unfold ebind, no_match_if. destruct b; [by exists c|]. by apply Hk. Qed.
Lemma safe_fetch_u8 c p cp v (k : Z -> E (machine snap) B) : byte_at bc_buf p = Some v ->
  safe c (p + 1) cp (k v) Q -> safe c p cp (ebind (fetch_u8 bc_buf) k) Q.
Proof. intros E Hk t Hcp Ht. unfold ebind, fetch_u8. cbn [pc cptr store]. rewrite E. by apply Hk. Qed.
Lemma safe_fetch_u16 c p cp v (k : Z -> E (machine snap) B) : get_u16 bc_buf p = Some v ->
  safe c (p + 2) cp (k v) Q -> safe c p cp (ebind (fetch_u16 bc_buf) k) Q.
Proof. intros E Hk t Hcp Ht. unfold ebind, fetch_u16. cbn [pc cptr store]. rewrite E. by apply Hk. Qed.
Lemma safe_fetch_u32 c p cp v (k : Z -> E (machine snap) B) : get_u32 bc_buf p = Some v ->
  safe c (p + 4) cp (k v) Q -> safe c p cp (ebind (fetch_u32 bc_buf) k) Q.
Proof. intros E Hk t Hcp Ht. unfold ebind, fetch_u32. cbn [pc cptr store]. rewrite E. by apply Hk. Qed.
Lemma safe_opt {A} c p cp (o : option A) a (k : A -> E (machine snap) B) : o = Some a ->
  safe c p cp (k a) Q -> safe c p cp (ebind (of_opt o) k) Q.
Proof. intros -> Hk t Hcp Ht. by apply Hk. Qed.
Lemma safe_eret {A} c p cp (a : A) (k : A -> E (machine snap) B) :
  safe c p cp (k a) Q -> safe c p cp (ebind (eret a) k) Q.
Proof. intros Hk t Hcp Ht. by apply Hk. Qed.
Lemma safe_assert c p cp b (k : unit -> E (machine snap) B) : b = true ->
  safe c p cp (k tt) Q -> safe c p cp (ebind (assert b) k) Q.
Proof. intros -> Hk t Hcp Ht. by apply Hk. Qed.

Lemma safe_next_char c p cp (k : Z -> E (machine snap) B) : cp < cbuf_end s ->
  (forall ch cp', in_input s cp' -> 0 <= ch -> safe c p cp' (k ch) Q) ->
  safe c p cp (ebind (next_char s) k) Q.
Proof.
  intros Hlt Hk t Hcp Ht. unfold ebind, next_char. cbn [pc cptr store].
  destruct (GET_CHAR_ok s Hs cp (cbuf_end s) Hcp (in_input_end s Hs) Hlt) as (ch & cp' & -> & Hch & Hcp' & _).
  by apply Hk.
Qed.
Lemma safe_canonicalize c p cp b ch (k : Z -> E (machine snap) B) : 0 <= ch ->
  (forall ch', safe c p cp (k ch') Q) -> safe c p cp (ebind (canonicalize_if s b ch) k) Q.
Proof.
  intros Hch Hk. unfold canonicalize_if. destruct b; [|by apply safe_eret].
  destruct (canonicalize_facts (is_unicode s) ch Hch) as (d & E & _). by apply (safe_opt _ _ _ _ d).
Qed.

Lemma safe_get_capture c p cp i (k : Z -> E (machine snap) B) : 0 <= i < 2 * cc + rc ->
  (forall v, (i < 2 * cc -> v = 0 \/ in_input s v) -> safe c p cp (k v) Q) ->
  safe c p cp (ebind (get_capture i) k) Q.
Proof.
  intros Hi Hk t Hcp Ht. unfold ebind, get_capture. cbn [store]. cbn.
  destruct (captures_read _ i (proj1 Ht) Hi) as (v & -> & Hv). by apply Hk.
Qed.
End Actions.

Lemma captures_store cap i v cap' : captures_ok cap -> (i < 2 * cc -> v = 0 \/ in_input s v) ->
  capture_store cap i v = Some cap' -> captures_ok cap'.
Proof.
  intros [Hl Hv] Hnew E. pose proof E as (H0 & H1 & ->)%capture_store_spec.
  split; [by rewrite length_insert|]. intros j w Hj. unfold capture_lookup.
  rewrite (proj2 (Z.ltb_ge _ _)) by lia. destruct (decide (j = i)) as [->|Hne].
  - rewrite list_lookup_insert_eq by done. intros [= <-]. apply Hnew. lia.
  - rewrite list_lookup_insert_ne by lia. intros Hw. apply (Hv j w Hj). unfold capture_lookup.
    by rewrite (proj2 (Z.ltb_ge _ _)) by lia.
Qed.

(** The actions an instruction ends with. *)
Lemma safe_save c p cp i v (Q : unit -> Z -> Z -> lctx -> Prop) : 0 <= i < 2 * cc + rc ->
  (i < 2 * cc -> v = 0 \/ in_input s v) -> Q tt p cp c -> safe c p cp (on_store (SAVE_CAPTURE i v)) Q.
Proof.
  intros Hi Hv HQ t Hcp [Hcap Hst]. unfold on_store. cbn. unfold snap_save.
  assert (exists cap', capture_store (s_capture t) i v = Some cap') as [cap' E].
  { destruct (captures_read _ i Hcap Hi) as (w & E & _). unfold capture_store. rewrite E. eauto. }
  rewrite E. exists c. split; [done|]. split; [|done]. split; [|done]. by eapply captures_store.
Qed.
Lemma safe_save_check c p cp i v (Q : unit -> Z -> Z -> lctx -> Prop) : 2 * cc <= i < 2 * cc + rc ->
  Q tt p cp c -> safe c p cp (on_store (SAVE_CAPTURE_CHECK i v)) Q.
Proof. intros Hi HQ. apply (safe_save c p cp i v Q); [lia|lia|done]. Qed.
Lemma safe_poll c p cp (Q : unit -> Z -> Z -> lctx -> Prop) : Q tt p cp c -> safe c p cp (on_store lre_poll_timeout) Q.
Proof. intros HQ t Hcp Ht. by exists c. Qed.
Lemma safe_push c p cp q (k : REExecStateEnum) (Q : unit -> Z -> Z -> lctx -> Prop) :
  ty !! q = Some c ->
  Q tt p cp (match k with RE_EXEC_STATE_SPLIT => c | RE_EXEC_STATE_LOOKAHEAD => false :: c
             | RE_EXEC_STATE_NEGATIVE_LOOKAHEAD => true :: c end) ->
  safe c p cp (on_store (push_state q cp k)) Q.
Proof.
  intros Hq HQ t Hcp [Hcap Hst]. unfold on_store. cbn. eexists. split; [done|]. split; [|exact HQ].
  split; [done|]. cbn. destruct k; by constructor.
Qed.

(** *** One lemma per instruction *)
Definition good {A} : A -> Z -> Z -> lctx -> Prop := fun _ p _ c => ty !! p = Some c.

Lemma u8_sat_true q f : u8_sat bc_buf q f = true -> exists v, byte_at bc_buf q = Some v /\ f v = true /\ 0 <= v < 256.
Proof.
  unfold u8_sat. destruct (byte_at bc_buf q) as [v|] eqn:E; [|done]. intros Hf. exists v.
  split_and!; [done..| |]; apply (byte_at_range bc_buf Hbytes) in E; lia.
Qed.
Lemma u16_sat_true q f : u16_sat bc_buf q f = true -> exists v, get_u16 bc_buf q = Some v /\ f v = true /\ 0 <= v < 65536.
Proof.
  unfold u16_sat. destruct (get_u16 bc_buf q) as [v|] eqn:E; [|done]. intros Hf. exists v.
  split_and!; [done..| |]; apply (get_u16_range bc_buf Hbytes) in E; lia.
Qed.
Lemma u32_sat_true q f : u32_sat bc_buf q f = true -> exists v, get_u32 bc_buf q = Some v /\ f v = true.
Proof. unfold u32_sat. destruct (get_u32 bc_buf q) as [v|] eqn:E; [|done]. eauto. Qed.
Lemma flows_true p c : flows ty p c = true -> ty !! p = Some c.
Proof. apply bool_decide_eq_true. Qed.

(** A typed position is inside the bytecode. *)
Lemma typed_inside p c : ty !! p = Some c -> 0 <= p < Z.of_nat (length bc_buf).
Proof.
  intros E. specialize (Hty p c E). unfold typed_at, opcode_at in Hty.
  destruct (byte_at bc_buf p) as [b|] eqn:Eb; [|done]. apply (byte_at_range bc_buf Hbytes p b Eb).
Qed.

(** Take the operands apart. *)
Ltac operands :=
  repeat match goal with
  | H : _ && _ = true |- _ => apply andb_prop in H; destruct H
  | H : flows _ _ _ = true |- _ => apply flows_true in H
  | H : u8_sat _ _ _ = true |- _ =>
      let v := fresh "v" in let E := fresh "E" in
      apply u8_sat_true in H; destruct H as (v & E & H & ?)
  | H : u16_sat _ _ _ = true |- _ =>
      let v := fresh "v" in let E := fresh "E" in
      apply u16_sat_true in H; destruct H as (v & E & H & ?)
  | H : u32_sat _ _ _ = true |- _ =>
      let v := fresh "v" in let E := fresh "E" in
      apply u32_sat_true in H; destruct H as (v & E & H)
  | H : (_ <? _) = true |- _ => apply Z.ltb_lt in H
  | H : (_ <=? _) = true |- _ => apply Z.leb_le in H
  end.

(** The last test of an instruction. *)
Lemma safe_last c p cp b : ty !! p = Some c -> safe c p cp (no_match_if b) good.
Proof. intros Hp t Hcp Ht. unfold no_match_if. destruct b; [by exists c|]. by exists c. Qed.

Lemma op_char_safe (wide i : bool) q c cp :
  (if wide then u32_sat bc_buf q (fun _ => flows ty (q + 4) c)
   else u16_sat bc_buf q (fun _ => flows ty (q + 2) c)) = true ->
  safe c q cp (op_char s bc_buf wide i) good.
Proof.
  intros H. unfold op_char. destruct wide; operands;
    (first [eapply safe_fetch_u32|eapply safe_fetch_u16]; [done|]);
    apply safe_get_cptr, safe_no_match_if; intros Hlt%Z.leb_gt;
    (apply safe_next_char; [done|]); intros ch cp' Hcp' Hch;
    (apply safe_canonicalize; [done|]); intros ch'; by apply safe_last.
Qed.

Lemma op_char_test_safe (rej : Z -> option bool) q c cp : flows ty q c = true -> (forall ch, 0 <= ch -> exists b, rej ch = Some b) ->
  safe c q cp (op_char_test s rej) good.
Proof.
  intros H Hrej. operands. unfold op_char_test. apply safe_intro. intros Hcp.
  apply safe_get_cptr, safe_no_match_if. intros Hne%Z.eqb_neq. pose proof (in_input_bounds s Hs cp Hcp).
  apply safe_next_char; [lia|]. intros ch cp' Hcp' Hch. destruct (Hrej ch Hch) as [b E].
  eapply safe_opt; [done|]. by apply safe_last.
Qed.

Lemma op_line_start_safe b q c cp : flows ty q c = true -> safe c q cp (op_line_start s b) good.
Proof.
  intros H. operands. unfold op_line_start. apply safe_get_cptr.
  destruct (Z.eqb_spec cp (cbuf s)) as [|Hne]; [by apply safe_ret|]. apply safe_no_match_if. intros _.
  apply safe_intro. intros Hcp.  pose proof (in_input_bounds s Hs cp Hcp). rewrite PEEK_PREV_CHAR_fst.
  destruct (GET_PREV_CHAR_ok s Hs cp (cbuf s) Hcp (in_input_start s)) as (ch & p' & -> & _); [lia|].
  eapply safe_opt; [done|]. by apply safe_last.
Qed.
Lemma op_line_end_safe b q c cp : flows ty q c = true -> safe c q cp (op_line_end s b) good.
Proof.
  intros H. operands. unfold op_line_end. apply safe_get_cptr.
  destruct (Z.eqb_spec cp (cbuf_end s)) as [|Hne]; [by apply safe_ret|]. apply safe_no_match_if. intros _.
  apply safe_intro. intros Hcp.  pose proof (in_input_bounds s Hs cp Hcp). rewrite PEEK_CHAR_fst.
  destruct (GET_CHAR_ok s Hs cp (cbuf_end s) Hcp (in_input_end s Hs)) as (ch & p' & -> & _); [lia|].
  eapply safe_opt; [done|]. by apply safe_last.
Qed.

Lemma op_word_boundary_safe i b q c cp : flows ty q c = true -> safe c q cp (op_word_boundary s i b) good.
Proof.
  intros H. operands. unfold op_word_boundary. apply safe_get_cptr, safe_intro. intros Hcp.
  pose proof (in_input_bounds s Hs cp Hcp) as Hb.
  eapply (safe_bind _ _ _ _ _ (fun _ p' cp' c' => p' = q /\ cp' = cp /\ c' = c)).
  - destruct (Z.eqb_spec cp (cbuf s)) as [|Hne]; [by apply safe_ret|]. rewrite PEEK_PREV_CHAR_fst.
    destruct (GET_PREV_CHAR_ok s Hs cp (cbuf s) Hcp (in_input_start s)) as (ch & p' & -> & Hch & _); [lia|].
    destruct (is_word_char_total i ch Hch) as [v Ev].
    eapply safe_opt; [done|]. by eapply safe_of_opt.
  - intros v1 p1 cp1 c1 _ (-> & -> & ->).
    eapply (safe_bind _ _ _ _ _ (fun _ p' cp' c' => p' = q /\ cp' = cp /\ c' = c)).
    + destruct (Z.leb_spec (cbuf_end s) cp) as [|Hlt]; [by apply safe_ret|]. rewrite PEEK_CHAR_fst.
      destruct (GET_CHAR_ok s Hs cp (cbuf_end s) Hcp (in_input_end s Hs)) as (ch & p' & -> & Hch & _); [lia|].
      destruct (is_word_char_total i ch Hch) as [v Ev].
      eapply safe_opt; [done|]. by eapply safe_of_opt.
    + intros v2 p2 cp2 c2 _ (-> & -> & ->). by apply safe_last.
Qed.

Lemma split_to_safe b v q c cp : ty !! q = Some c -> ty !! (q + i32 v) = Some c ->
  safe c q cp (split_to b v) good.
Proof.
  intros H1 H2. unfold split_to. apply safe_get_pc, safe_get_cptr. destruct b; [by apply safe_push|].
  apply safe_set_pc. by apply safe_push.
Qed.
Lemma op_split_safe b q c cp : u32_sat bc_buf q (fun v => flows ty (q + 4) c && flows ty (q + 4 + i32 v) c) = true ->
  safe c q cp (op_split bc_buf b) good.
Proof. intros H. operands. unfold op_split. eapply safe_fetch_u32; [done|]. by apply split_to_safe. Qed.
Lemma op_lookahead_safe b q c cp :
  u32_sat bc_buf q (fun v => flows ty (q + 4) (b :: c) && flows ty (q + 4 + i32 v) c) = true ->
  safe c q cp (op_lookahead bc_buf b) good.
Proof.
  intros H. operands. unfold op_lookahead. eapply safe_fetch_u32; [done|]. apply safe_get_pc, safe_get_cptr.
  apply safe_push; [done|]. by destruct b.
Qed.
Lemma jump_poll_safe v q c cp : ty !! (q + i32 v) = Some c -> safe c q cp (jump_poll v) good.
Proof. intros H. unfold jump_poll. apply safe_get_pc, safe_set_pc. by apply safe_poll. Qed.
Lemma op_goto_safe q c cp : u32_sat bc_buf q (fun v => flows ty (q + 4 + i32 v) c) = true ->
  safe c q cp (op_goto bc_buf) good.
Proof. intros H. operands. unfold op_goto. eapply safe_fetch_u32; [done|]. by apply jump_poll_safe. Qed.
Lemma op_prev_safe q c cp : flows ty q c = true -> safe c q cp (op_prev s) good.
Proof.
  intros H. operands. unfold op_prev. apply safe_get_cptr, safe_no_match_if. intros Hne%Z.eqb_neq.
  apply safe_intro. intros Hcp. pose proof (in_input_bounds s Hs cp Hcp). destruct (PREV_CHAR_ok s Hs cp Hcp) as (p' & -> & Hp'); [lia|].
  eapply safe_opt; [done|]. intros t _ Ht. by exists c.
Qed.

Lemma op_save_safe b q c cp : u8_sat bc_buf q (fun v => (v <? cc) && flows ty (q + 1) c) = true ->
  safe c q cp (op_save s bc_buf b) good.
Proof.
  intros H. operands. unfold op_save. eapply safe_fetch_u8; [done|].
  apply safe_assert; [by apply Z.ltb_lt|]. apply safe_get_cptr, safe_intro. intros Hcp.
  apply safe_save; [|auto|done]. destruct b; lia.
Qed.

Lemma save_reset_loop_safe n v q c cp : 0 <= v -> v + Z.of_nat n <= cc \/ n = 0%nat -> ty !! q = Some c ->
  safe c q cp (save_reset_loop n v) good.
Proof.
  intros Hv Hn Hq. revert v Hv Hn. induction n as [|n IH]; intros v Hv Hn; cbn [save_reset_loop]; [by apply safe_ret|].
  eapply (safe_bind _ _ _ _ _ (fun _ p' cp' c' => p' = q /\ cp' = cp /\ c' = c)); [apply safe_save; [lia|auto|done]|].
  intros [] ? ? ? _ (-> & -> & ->).
  eapply (safe_bind _ _ _ _ _ (fun _ p' cp' c' => p' = q /\ cp' = cp /\ c' = c)); [apply safe_save; [lia|auto|done]|].
  intros [] ? ? ? _ (-> & -> & ->). apply IH; lia.
Qed.
Lemma op_save_reset_safe q c cp :
  u8_sat bc_buf q (fun _ => u8_sat bc_buf (q + 1) (fun v2 => (v2 <? cc) && flows ty (q + 2) c)) = true ->
  safe c q cp (op_save_reset s bc_buf) good.
Proof.
  intros H. operands. unfold op_save_reset. eapply safe_fetch_u8; [done|]. eapply safe_fetch_u8; [done|].
  apply safe_assert; [by apply Z.ltb_lt|].
  eapply (safe_bind _ _ _ _ _ (fun _ p' cp' c' => p' = q + 1 + 1 /\ cp' = cp /\ c' = c)).
  { intros t Hcp Ht. by exists c. }
  intros [] ? ? ? _ (-> & -> & ->). apply save_reset_loop_safe; [lia|lia|].
  by replace (q + 1 + 1) with (q + 2) by ring.
Qed.

(** The registers follow the captures. *)
Lemma fetch_reg_safe {B} c q cp r (k : Z -> E (machine snap) B) Q : byte_at bc_buf q = Some r ->
  safe c (q + 1) cp (k (2 * cc + r)) Q -> safe c q cp (ebind (fetch_reg s bc_buf) k) Q.
Proof.
  intros E Hk. eapply (safe_bind _ _ _ _ _ (fun a p' cp' c' => a = 2 * cc + r /\ p' = q + 1 /\ cp' = cp /\ c' = c)).
  - unfold fetch_reg. eapply safe_fetch_u8; [done|]. by apply safe_ret.
  - intros ? ? ? ? _ (-> & -> & -> & ->). done.
Qed.
Lemma save_check_then {B} c q cp i v (k : unit -> E (machine snap) B) Q : 2 * cc <= i < 2 * cc + rc ->
  safe c q cp (k tt) Q -> safe c q cp (ebind (on_store (SAVE_CAPTURE_CHECK i v)) k) Q.
Proof.
  intros Hi Hk. eapply (safe_bind _ _ _ _ _ (fun _ p' cp' c' => p' = q /\ cp' = cp /\ c' = c)).
  - by apply safe_save_check.
  - intros [] ? ? ? _ (-> & -> & ->). done.
Qed.

Lemma op_set_i32_safe q c cp :
  u8_sat bc_buf q (fun r => (r <? rc) && u32_sat bc_buf (q + 1) (fun _ => flows ty (q + 5) c)) = true ->
  safe c q cp (op_set_i32 s bc_buf) good.
Proof.
  intros H. operands. unfold op_set_i32. eapply fetch_reg_safe; [done|]. eapply safe_fetch_u32; [done|].
  apply safe_save_check; [lia|]. unfold good. by replace (q + 1 + 4) with (q + 5) by ring.
Qed.
Lemma op_set_char_pos_safe q c cp : u8_sat bc_buf q (fun r => (r <? rc) && flows ty (q + 1) c) = true ->
  safe c q cp (op_set_char_pos s bc_buf) good.
Proof.
  intros H. operands. unfold op_set_char_pos. eapply fetch_reg_safe; [done|]. apply safe_get_cptr.
  by apply safe_save_check; [lia|].
Qed.
Lemma op_check_advance_safe q c cp : u8_sat bc_buf q (fun r => (r <? rc) && flows ty (q + 1) c) = true ->
  safe c q cp (op_check_advance s bc_buf) good.
Proof.
  intros H. operands. unfold op_check_advance. eapply fetch_reg_safe; [done|].
  apply safe_get_capture; [lia|]. intros w _. apply safe_get_cptr. by apply safe_last.
Qed.
Lemma op_loop_safe q c cp :
  u8_sat bc_buf q (fun r => (r <? rc) &&
    u32_sat bc_buf (q + 1) (fun v => flows ty (q + 5) c && flows ty (q + 5 + i32 v) c)) = true ->
  safe c q cp (op_loop s bc_buf) good.
Proof.
  intros H. operands. unfold op_loop. eapply fetch_reg_safe; [done|]. eapply safe_fetch_u32; [done|].
  apply safe_get_capture; [lia|]. intros w _. apply save_check_then; [lia|].
  replace (q + 1 + 4) with (q + 5) by ring. destruct (negb _); [by apply jump_poll_safe|by apply safe_ret].
Qed.
Lemma op_loop_split_safe (check_adv b : bool) q c cp :
  u8_sat bc_buf q (fun r => ((if check_adv then r + 1 else r) <? rc) && u32_sat bc_buf (q + 1) (fun _ =>
    u32_sat bc_buf (q + 5) (fun v => flows ty (q + 9) c && flows ty (q + 9 + i32 v) c))) = true ->
  safe c q cp (op_loop_split s bc_buf check_adv b) good.
Proof.
  intros H. operands. assert (v < rc) by (destruct check_adv; lia).
  unfold op_loop_split. eapply fetch_reg_safe; [done|]. eapply safe_fetch_u32; [done|].
  replace (q + 1 + 4) with (q + 5) by ring. eapply safe_fetch_u32; [done|].
  replace (q + 5 + 4) with (q + 9) by ring.
  apply safe_get_capture; [lia|]. intros w _. apply save_check_then; [lia|].
  destruct (_ <? _); [by apply jump_poll_safe|].
  eapply (safe_bind _ _ _ _ _ (fun _ p' cp' c' => p' = q + 9 /\ cp' = cp /\ c' = c)).
  - destruct check_adv; [|by apply safe_ret]. apply safe_get_capture; [lia|]. intros w' _.
    apply safe_get_cptr. by apply safe_ret.
  - intros st ? ? ? _ (-> & -> & ->). apply safe_no_match_if. intros _.
    destruct (negb _); [by apply split_to_safe|by apply safe_ret].
Qed.

(** Back references: both pointers are inside the input. *)
Lemma back_ref_forward_safe fuel i p1 e1 q c cp : in_input s p1 -> in_input s e1 -> e1 - p1 <= Z.of_nat fuel ->
  ty !! q = Some c -> safe c q cp (back_ref_forward s fuel i p1 e1) good.
Proof.
  intros Hp1 He1 Hf Hq. revert p1 cp Hp1 Hf. induction fuel as [|fuel IH]; intros p1 cp Hp1 Hf; cbn [back_ref_forward];
    (destruct (Z.ltb_spec p1 e1) as [Hlt|]; [|by apply safe_ret]); [lia|].
  apply safe_get_cptr, safe_no_match_if. intros Hcp%Z.leb_gt.
  destruct (GET_CHAR_ok s Hs p1 e1 Hp1 He1 Hlt) as (c1 & p1' & E & Hc1 & Hp1' & Hadv).
  eapply safe_opt; [done|]. cbn beta iota. apply safe_next_char; [done|]. intros c2 cp' Hcp' Hc2.
  apply safe_canonicalize; [done|]. intros d1. apply safe_canonicalize; [done|]. intros d2.
  apply safe_no_match_if. intros _. apply IH; [done|lia].
Qed.
Lemma back_ref_backward_safe fuel i p1 b1 q c cp : in_input s p1 -> in_input s b1 -> p1 - b1 <= Z.of_nat fuel ->
  ty !! q = Some c -> safe c q cp (back_ref_backward s fuel i p1 b1) good.
Proof.
  intros Hp1 Hb1 Hf Hq. revert p1 cp Hp1 Hf. induction fuel as [|fuel IH]; intros p1 cp Hp1 Hf; cbn [back_ref_backward];
    (destruct (Z.ltb_spec b1 p1) as [Hlt|]; [|by apply safe_ret]); [lia|].
  apply safe_intro. intros Hcp. pose proof (in_input_bounds s Hs cp Hcp).
  apply safe_get_cptr, safe_no_match_if. intros Hne%Z.eqb_neq.
  destruct (GET_PREV_CHAR_ok s Hs p1 b1 Hp1 Hb1 Hlt) as (c1 & p1' & E & Hc1 & Hp1' & Hadv).
  destruct (GET_PREV_CHAR_ok s Hs cp (cbuf s) Hcp (in_input_start s)) as (c2 & cp' & E' & Hc2 & Hcp' & _); [lia|].
  eapply safe_opt; [done|]. cbn beta iota. eapply safe_opt; [done|]. cbn beta iota. apply safe_set_cptr; [done|].
  apply safe_canonicalize; [done|]. intros d1. apply safe_canonicalize; [done|]. intros d2.
  apply safe_no_match_if. intros _. apply IH; [done|lia].
Qed.
Lemma back_ref_groups_safe n p1 b i q c cp : 0 <= p1 -> p1 + Z.of_nat n <= Z.of_nat (length bc_buf) ->
  ty !! q = Some c -> safe c q cp (back_ref_groups s bc_buf n p1 b i) good.
Proof.
  intros Hp1 Hn Hq. revert p1 Hp1 Hn. induction n as [|n IH]; intros p1 Hp1 Hn; cbn [back_ref_groups]; [by apply safe_ret|].
  destruct (byte_at_in bc_buf p1) as [v Ev]; [lia|]. pose proof (byte_at_range bc_buf Hbytes _ _ Ev).
  eapply safe_opt; [done|]. apply safe_no_match_if. intros Hv%Z.leb_gt.
  apply safe_get_capture; [lia|]. intros w1 H1. apply safe_get_capture; [lia|]. intros w2 H2.
  destruct (Z.eqb_spec w1 0) as [|H1n]; [apply IH; lia|]. destruct (Z.eqb_spec w2 0) as [|H2n]; [apply IH; lia|].
  cbn [negb andb]. destruct H1 as [|H1]; [lia|done|]. destruct H2 as [|H2]; [lia|done|].
  destruct b; [apply back_ref_backward_safe|apply back_ref_forward_safe]; try done; lia.
Qed.
Lemma op_back_reference_safe b i q c cp : u8_sat bc_buf q (fun n => flows ty (q + 1 + n) c) = true ->
  safe c q cp (op_back_reference s bc_buf b i) good.
Proof.
  intros H. operands. pose proof (typed_inside _ _ H). pose proof (byte_at_range bc_buf Hbytes _ _ E).
  unfold op_back_reference. eapply safe_fetch_u8; [done|]. apply safe_get_pc, safe_set_pc.
  apply back_ref_groups_safe; [lia|lia|done].
Qed.

(** Character classes lie inside the bytecode. *)
Lemma intervals_inside (wide : bool) p n : 0 <= p -> p + 2 * range_width wide * n <= Z.of_nat (length bc_buf) ->
  exists lo hi, intervals_at (range_get bc_buf wide) (range_width wide) p n lo hi.
Proof.
  intros Hp Hn. exists (fun i => default 0 (range_get bc_buf wide (p + i * (2 * range_width wide)))),
    (fun i => default 0 (range_get bc_buf wide (p + (i * (2 * range_width wide) + range_width wide)))).
  assert (forall x, 0 <= x -> x + range_width wide <= Z.of_nat (length bc_buf) ->
    exists v, range_get bc_buf wide x = Some v) as Hr.
  { intros x H0 H1. unfold range_get. destruct wide; cbn in H1.
    - apply get_u32_in; lia.
    - destruct (get_u16_in bc_buf Hbytes x) as (v & E & _); [lia..|]. eauto. }
  assert (0 < range_width wide) by (destruct wide; cbn; lia).
  intros i Hi.
  destruct (Hr (p + i * (2 * range_width wide))) as [v1 E1]; [nia..|].
  destruct (Hr (p + (i * (2 * range_width wide) + range_width wide))) as [v2 E2]; [nia..|].
  by rewrite E1, E2.
Qed.
Lemma op_range_safe wide i q c cp :
  u16_sat bc_buf q (fun n => (1 <=? n) && flows ty (q + 2 + 2 * range_width wide * n) c) = true ->
  safe c q cp (op_range s bc_buf wide i) good.
Proof.
  intros H. operands. pose proof (typed_inside _ _ H1) as Hin. pose proof (get_u16_range bc_buf Hbytes _ _ E).
  assert (0 <= q) by (unfold get_u16, byte_at in E; destruct (Z.ltb_spec q 0); done || lia).
  destruct (intervals_inside wide (q + 2) v) as (lo & hi & Hint); [lia..|].
  intros t Hcp Ht. destruct (Z.le_gt_cases (cbuf_end s) cp) as [Hge|Hlt].
  { unfold op_range. erewrite ebind_val; [|unfold fetch_u16; cbn [pc]; by rewrite E].
    erewrite ebind_val by reflexivity. erewrite ebind_val by reflexivity. cbn [cptr].
    rewrite (proj2 (Z.leb_le _ _) Hge). by exists c. }
  destruct (GET_CHAR_ok s Hs cp (cbuf_end s) Hcp (in_input_end s Hs) Hlt) as (c0 & cp' & Eg & Hc0 & Hcp' & _).
  assert (exists d, if i then lre_canonicalize c0 (is_unicode s) = Some d else d = c0) as [d Hd].
  { destruct i; [|eauto]. destruct (canonicalize_facts (is_unicode s) c0 Hc0) as (d & Ed & _). eauto. }
  destruct (op_range_ends s bc_buf wide i v lo hi (Machine q cp t) c0 d cp' E ltac:(lia) Hint Hlt Eg Hd)
    as [[-> _]|[-> _]]; by exists c.
Qed.

(** Every well-typed instruction of [exec_op] goes on to a typed position. *)
Lemma exec_op_safe op q c cp : plain_op op = true -> instr_ok bc_buf cc rc ty op q c = true ->
  safe c q cp (exec_op s bc_buf op) good.
Proof.
  intros Hpl H. destruct op; cbn [instr_ok exec_op plain_op] in *; try done.
  1-2: by apply (op_char_safe false).
  1-2: by apply (op_char_safe true).
  1-4: apply op_char_test_safe; [done|].
  - eauto.
  - eauto.
  - intros ch Hch. destruct (is_space_total ch Hch) as [b ->]. by eexists.
  - apply is_space_total.
  - by apply op_line_start_safe.
  - by apply op_line_start_safe.
  - by apply op_line_end_safe.
  - by apply op_line_end_safe.
  - by apply op_goto_safe.
  - by apply op_split_safe.
  - by apply op_split_safe.
  - by apply op_save_safe.
  - by apply op_save_safe.
  - by apply op_save_reset_safe.
  - by apply op_loop_safe.
  - by apply (op_loop_split_safe false).
  - by apply (op_loop_split_safe false).
  - by apply (op_loop_split_safe true).
  - by apply (op_loop_split_safe true).
  - by apply op_set_i32_safe.
  - by apply op_word_boundary_safe.
  - by apply op_word_boundary_safe.
  - by apply op_word_boundary_safe.
  - by apply op_word_boundary_safe.
  - by apply op_back_reference_safe.
  - by apply op_back_reference_safe.
  - by apply op_back_reference_safe.
  - by apply op_back_reference_safe.
  - by apply (op_range_safe false).
  - by apply (op_range_safe false).
  - by apply (op_range_safe true).
  - by apply (op_range_safe true).
  - by apply op_lookahead_safe.
  - by apply op_lookahead_safe.
  - by apply op_set_char_pos_safe.
  - by apply op_check_advance_safe.
  - by apply op_prev_safe.
Qed.

(** *** Popping states *)
Lemma states_pop_fail c l : states_ok c l ->
  match pop_until (negb ∘ is_lookahead) l with
  | Some (f, l') => exists c', ty !! sv_pc f = Some c' /\ in_input s (sv_cptr f) /\ captures_ok (sv_capture f) /\
                               states_ok c' l'
  | None => forall cap, captures_ok cap -> captures_ok (oldest cap l)
  end.
Proof.
  induction 1; cbn; [done|by exists c| |by exists c].
  change (is_lookahead RE_EXEC_STATE_LOOKAHEAD) with true. cbn [negb].
  destruct (pop_until _ l) as [[f l']|]; auto.
Qed.
Lemma states_pop_look c l : states_ok c l -> forall c', c = false :: c' ->
  exists f l', pop_until is_lookahead l = Some (f, l') /\ ty !! sv_pc f = Some c' /\ in_input s (sv_cptr f) /\
    states_ok c' l'.
Proof. induction 1; intros c' Hc; cbn; simplify_eq; [by apply IHstates_ok|]. by eexists _, _. Qed.
Lemma states_pop_neg c l : states_ok c l -> forall c', c = true :: c' ->
  exists f l', pop_until is_negative l = Some (f, l') /\ captures_ok (sv_capture f) /\ states_ok c' l'.
Proof. induction 1; intros c' Hc; cbn; simplify_eq; [by apply IHstates_ok|]. by eexists _, _. Qed.

(** A well-typed machine. *)
Definition machine_ok (m : machine snap) : Prop :=
  exists c, ty !! pc m = Some c /\ in_input s (cptr m) /\ snap_ok c (store m).

Lemma resume_safe m c : snap_ok c (store m) ->
  match resume m with
  | Val _ m' => machine_ok m'
  | Ret r m' => r = 0 /\ captures_ok (s_capture (store m'))
  | _ => False
  end.
Proof.
  destruct m as [p cp [cap l]]. intros [Hcap Hst]. cbn in Hcap, Hst. apply states_pop_fail in Hst.
  unfold resume, ebind, on_store. cbn. unfold snap_no_match. cbn.
  destruct (pop_until _ l) as [[f l']|]; [|cbn; auto].
  destruct Hst as (c' & Hp & Hcp & Hcf & Hl). cbn. by exists c'.
Qed.

(** Preservation and progress. *)
Lemma step_safe m : machine_ok m ->
  match step s bc_buf m with
  | Val _ m' => machine_ok m'
  | Ret r m' => (r = 0 \/ r = 1) /\ captures_ok (s_capture (store m'))
  | _ => False
  end.
Proof.
  destruct m as [p cp [cap K]]. intros (c & Hp & Hcp & Hok). cbn in Hp, Hcp.
  pose proof (Hty p c Hp) as Ht. unfold typed_at in Ht.
  destruct (opcode_at bc_buf p) as [op|] eqn:Eop; [|done]. unfold step. rewrite exec_instr_opcode, Eop.
  assert (forall m' c', snap_ok c' (store m') ->
    match resume m' with
    | Val _ m'' => machine_ok m''
    | Ret r m'' => (r = 0 \/ r = 1) /\ captures_ok (s_capture (store m''))
    | _ => False
    end) as Hres.
  { intros m' c' H. pose proof (resume_safe m' c' H) as Hr. destruct (resume m'); naive_solver. }
  destruct (plain_op op) eqn:Hpl.
  - pose proof (exec_op_safe op (p + 1) c cp Hpl Ht (Snap cap K) Hcp Hok) as H.
    assert (match op with REOP_match => False | REOP_lookahead_match => False
      | REOP_negative_lookahead_match => False | _ => True end) as Hnot by (by destruct op).
    assert (forall (T : Type) (a b d e : T), match op with REOP_match => a | REOP_lookahead_match => b
      | REOP_negative_lookahead_match => d | _ => e end = e) as Hsel by (by destruct op).
    rewrite Hsel. destruct (exec_op s bc_buf op _) as [[] m'|m'|r m'|]; try done.
    + destruct H as (c' & Hi & Hsn & Hg). by exists c'.
    + destruct H as [c' H]. by eapply Hres.
  - destruct op; try done; cbn [instr_ok] in Ht.
    + cbn. split; [by right|apply Hok].
    + destruct c as [|[|] c]; try done.
      destruct (states_pop_look _ _ (proj2 Hok) c eq_refl) as (f & l' & E & Hpf & Hcf & Hl). cbn in E. rewrite E.
      exists c. split_and!; [done..|]. split; [apply Hok|done].
    + destruct c as [|[|] c]; try done.
      destruct (states_pop_neg _ _ (proj2 Hok) c eq_refl) as (f & l' & E & Hcf & Hl). cbn in E. rewrite E.
      eapply Hres. by split.
Qed.

Lemma run_safe fuel m x : machine_ok m -> lre_exec_backtrack s bc_buf fuel m = Some x ->
  exists r m', x = Ret r m' /\ (r = 0 \/ r = 1) /\ captures_ok (s_capture (store m')).
Proof.
  revert m. induction fuel as [|fuel IH]; intros m Hm Hr; [done|]. cbn in Hr.
  pose proof (step_safe m Hm) as H. destruct (step s bc_buf m) as [[] m'|m'|r m'|]; try done; [by eapply IH|].
  simplify_eq. eauto.
Qed.
End Safe.

(** ** The entry point *)
Lemma re_check_true bc_buf : re_check bc_buf = true ->
  exists cc rc ty, byte_at bc_buf RE_HEADER_CAPTURE_COUNT = Some cc /\
    byte_at bc_buf RE_HEADER_REGISTER_COUNT = Some rc /\ Forall is_byte bc_buf /\ well_typed bc_buf cc rc ty.
Proof.
  unfold re_check. destruct (byte_at bc_buf RE_HEADER_CAPTURE_COUNT) as [cc|]; [|done].
  destruct (byte_at bc_buf RE_HEADER_REGISTER_COUNT) as [rc|]; [|done].
  destruct (get_u32 bc_buf RE_HEADER_BYTECODE_LEN) as [len|]; [|done]. intros [Hb H]%andb_prop.
  destruct (scan_types _ _ _ _ _) as [ty|]; [|done].
  apply bool_decide_eq_true in Hb, H. eauto 8.
Qed.

Section Init.
Context (bc_buf : list Z) (cbuf0 : Z) (units : list Z) (cindex cbuf_type0 : Z).
Context (Hcheck : re_check bc_buf = true) (Hbuf : 0 < cbuf0) (Htype : cbuf_type0 = 0 \/ cbuf_type0 = 1).
Context (Hunits : Forall (Z.le 0) units) (Hindex : 0 <= cindex <= Z.of_nat (length units)).
#[local] Abbreviation clen := (Z.of_nat (length units)).

Lemma exec_context_ok : exists s rc ty, exec_context bc_buf cbuf0 units clen cbuf_type0 = Some s /\
  byte_at bc_buf RE_HEADER_CAPTURE_COUNT = Some (capture_count s) /\
  byte_at bc_buf RE_HEADER_REGISTER_COUNT = Some rc /\ Forall is_byte bc_buf /\
  context_ok s /\ cbuf s = cbuf0 /\ input s = units /\ char_width s = Z.shiftl 1 cbuf_type0 /\
  well_typed bc_buf (capture_count s) rc ty.
Proof.
  destruct (re_check_true bc_buf Hcheck) as (cc & rc & ty & Ec & Er & Hb & Hwt).
  pose proof (byte_at_range bc_buf Hb _ _ Ec) as [_ Hl].
  destruct (get_u16_in bc_buf Hb RE_HEADER_FLAGS) as (fl & Ef & _);
    [done|unfold RE_HEADER_FLAGS, RE_HEADER_CAPTURE_COUNT in *; lia|].
  unfold exec_context, lre_get_flags. rewrite Ef, Ec. bind. eexists _, rc, ty. split; [done|].
  cbn [capture_count cbuf input].
  assert (forall b, char_width {| cbuf := cbuf0; input := units; cbuf_end := cbuf0 + Z.shiftl clen cbuf_type0;
    cbuf_type := if (cbuf_type0 =? 1) && b then 2 else cbuf_type0; capture_count := cc; is_unicode := b |} =
    Z.shiftl 1 cbuf_type0) as Hcw.
  { intros b. unfold char_width. cbn [cbuf_type]. by destruct Htype as [-> | ->]; destruct b. }
  split_and!; try done. unfold context_ok. rewrite Hcw. unfold input_len. cbn [cbuf cbuf_type cbuf_end input].
  split_and!; try done.
  - destruct Htype as [-> | ->]; destruct (negb _); cbn; lia.
  - destruct Htype as [-> | ->]; destruct (negb _); cbn; lia.
  - destruct Htype as [-> | ->]; rewrite !Z.shiftl_mul_pow2 by lia; lia.
Qed.

Lemma start_cptr_ok s : context_ok s -> cbuf s = cbuf0 -> input s = units -> char_width s = Z.shiftl 1 cbuf_type0 ->
  exists cp, start_cptr s cindex clen cbuf_type0 = Some cp /\ in_input s cp.
Proof.
  intros Hs Hc Hi Hw. unfold start_cptr.
  assert (cbuf s + Z.shiftl cindex cbuf_type0 = cbuf s + char_width s * cindex) as ->.
  { rewrite Hw. destruct Htype as [-> | ->]; rewrite !Z.shiftl_mul_pow2 by lia; lia. }
  assert (in_input s (cbuf s + char_width s * cindex)) as Hin.
  { exists cindex. unfold input_len. rewrite Hi. split; [lia|done]. }
  destruct ((0 <? cindex) && (cindex <? clen) && (cbuf_type s =? 2)) eqn:E; [|eauto].
  apply andb_prop in E as [[E1 E2]%andb_prop E3].
  assert (char_width s = 2) as H2 by (unfold char_width; destruct (Z.eqb_spec (cbuf_type s) 0); [lia|done]).
  destruct (unit_at_ok s Hs _ Hin) as (c & -> & _).
  { destruct Hs as (_ & _ & -> & _). unfold input_len. rewrite Hi, H2. lia. }
  bind. destruct (is_lo_surrogate c); [|eauto].
  destruct (in_input_prev s _ (cbuf s) Hin (in_input_start s)) as [Hp Hge]; [rewrite H2; lia|].
  rewrite H2 in Hp, Hge |- *. destruct (unit_at_ok s Hs _ Hp) as (c1 & -> & _).
  { pose proof (in_input_bounds s Hs _ Hin). rewrite H2 in *. lia. }
  bind. destruct (is_hi_surrogate c1); eauto. exists (cbuf s + 2 * cindex). rewrite H2 in Hin. eauto.
Qed.
End Init.

Lemma clear_captures_ok s rc cap : 0 <= capture_count s -> 0 <= rc ->
  2 * capture_count s + rc <= Z.of_nat (length cap) ->
  exists cap', clear_captures (capture_count s) cap = Some cap' /\ captures_ok s rc cap'.
Proof.
  intros Hc Hr Hl. unfold clear_captures. rewrite decide_True by lia. eexists. split; [done|]. split.
  - rewrite length_app, length_replicate, length_drop. lia.
  - intros i v Hi E. left. unfold capture_lookup in E. rewrite (proj2 (Z.ltb_ge _ _)) in E by lia.
    rewrite lookup_app_l in E by (rewrite length_replicate; lia). by apply lookup_replicate in E as [-> _].
Qed.

(** The promise of the executor on bytecode [bc_buf]. *)
Definition exec_safe (bc_buf : list Z) : Prop :=
  forall O (H : LreHost O) (HL : LreHostLaws O) capture0 cbuf units cindex cbuf_type n (o : O),
  0 < cbuf -> cbuf_type = 0 \/ cbuf_type = 1 -> Forall (Z.le 0) units ->
  0 <= cindex <= Z.of_nat (length units) -> lre_get_alloc_count bc_buf = Some n -> n <= Z.of_nat (length capture0) ->
  forall fuel x,
  lre_exec fuel capture0 bc_buf cbuf units cindex (Z.of_nat (length units)) cbuf_type o = Some x ->
  exists ret cap o', x = Some (ret, cap, o') /\
    (exec_error (O:=O) ret \/
     (ret = 0 \/ ret = 1) /\
     exists count, lre_get_capture_count bc_buf = Some count /\
       forall i, 0 <= i < 2 * count -> exists v, cap !! Z.to_nat i = Some v /\
         (v = 0 \/ exists k, 0 <= k <= Z.of_nat (length units) /\ v = cbuf + Z.shiftl k cbuf_type)).
Lemma checked_exec_safe bc_buf : re_check bc_buf = true -> exec_safe bc_buf.
Proof.
  intros Hcheck O Hhost Hlaws capture0 cbuf units cindex cbuf_type n o Hbuf Htype Hunits Hindex Hn Hcap fuel x Hrun.
  destruct (exec_context_ok bc_buf cbuf units cbuf_type Hcheck Hbuf Htype Hunits)
    as (s & rc & ty & Es & Ec & Er & Hb & Hs & Hcb & Hin & Hw & Hstart & Hty).
  destruct (start_cptr_ok cbuf units cindex cbuf_type Htype Hindex s Hs) as (cp & Ecp & Hcp); [done..|].
  pose proof (byte_at_range bc_buf Hb _ _ Ec) as [Hcc _]. pose proof (byte_at_range bc_buf Hb _ _ Er) as [Hrc _].
  unfold lre_get_alloc_count in Hn. rewrite Ec, Er in Hn. cbn in Hn. simplify_eq.
  destruct (clear_captures_ok s rc capture0) as (cap' & Ecap & Hcok); [lia..|].
  assert (exists m, lre_exec_init capture0 bc_buf (Regexp.cbuf s) (input s) cindex
    (Z.of_nat (length (input s))) cbuf_type o = Some (s, m) /\ cptr m = cp /\ capture (store m) = cap')
    as (m & Hinit & Hmcp & Hmcap).
  { unfold lre_exec_init. rewrite Es. bind. rewrite Ecap. bind. rewrite Ecp. eexists. split; [done|]. done. }
  unfold lre_exec in Hrun. rewrite Hinit in Hrun.
  destruct (lre_exec_backtrack s bc_buf fuel m) as [x1|] eqn:E1; [cbn in Hrun|done].
  pose proof (undo_exec_sim s bc_buf fuel _ _ (init_sim _ _ _ _ _ _ _ _ _ _ Hinit)) as H. rewrite E1 in H.
  rewrite Hmcp, Hmcap in H.
  destruct (lre_exec_backtrack s bc_buf fuel (Machine RE_HEADER_LEN cp (Snap cap' []))) as [x2|] eqn:E2.
  - destruct (run_safe s bc_buf rc ty Hs Hb ltac:(lia) ltac:(lia) Hty fuel (Machine RE_HEADER_LEN cp (Snap cap' [])) x2) as (r & m2 & -> & Hr & Hc2); [|done|].
    { exists []. split; [done|]. split; [done|]. split; [done|]. constructor. }
    destruct x1 as [| |ret m1|]; try done. simplify_eq. eexists _, _, _. split; [done|].
    destruct H as [|[-> (_ & _ & HR & _)]]; [by left|right]. split; [done|].
    exists (capture_count s). split; [done|]. intros i Hi. rewrite <- HR.
    destruct (captures_read s rc _ i Hc2) as (v & Ev & Hv); [lia|].
    unfold capture_lookup in Ev. rewrite (proj2 (Z.ltb_ge _ _)) in Ev by lia. exists v. split; [done|].
    destruct (Hv ltac:(lia)) as [|(k & Hk & ->)]; [by left|right]. exists k. unfold input_len in Hk.
    split; [lia|]. rewrite Hw. destruct Htype as [-> | ->]; rewrite !Z.shiftl_mul_pow2 by lia; lia.
  - destruct x1 as [| |ret m1|]; try done. simplify_eq. eexists _, _, _. split; [done|]. by left.
Qed.

(** C14: type safety of the executor.  On bytecode the checker accepts, any
    input of 8- or 16-bit units, any start inside it and a capture array of
    [lre_get_alloc_count] elements, no run of [lre_exec] reads outside the
    bytecode, the input, the captures or the stack, takes a stack element for
    another kind than it is, fails an assertion or aborts: every run that ends
    returns 0, 1 or an error, and after 0 or 1 each capture of a group is null
    or points to a unit of the input or to its end. *)
Theorem lre_exec_safe {O} `{!LreHost O} `{!LreHostLaws O} capture0 bc_buf cbuf units cindex cbuf_type n (o : O) :
  re_check bc_buf = true -> 0 < cbuf -> cbuf_type = 0 \/ cbuf_type = 1 -> Forall (Z.le 0) units ->
  0 <= cindex <= Z.of_nat (length units) -> lre_get_alloc_count bc_buf = Some n -> n <= Z.of_nat (length capture0) ->
  forall fuel x,
  lre_exec fuel capture0 bc_buf cbuf units cindex (Z.of_nat (length units)) cbuf_type o = Some x ->
  exists ret cap o', x = Some (ret, cap, o') /\
    (exec_error (O:=O) ret \/
     (ret = 0 \/ ret = 1) /\
     exists count, lre_get_capture_count bc_buf = Some count /\
       forall i, 0 <= i < 2 * count -> exists v, cap !! Z.to_nat i = Some v /\
         (v = 0 \/ exists k, 0 <= k <= Z.of_nat (length units) /\ v = cbuf + Z.shiftl k cbuf_type)).
Proof. intros Hcheck. by apply checked_exec_safe. Qed.

Lemma lre_exec_safe_witness :
  re_check example_bc = true /\
  exists ret cap o', lre_exec 200 [7; 7; 7; 7] example_bc 1000 example_input 0 7 0 tt = Some (Some (ret, cap, o')) /\
    exists v, cap !! 3%nat = Some v /\ (v = 0 \/ exists k, 0 <= k <= 7 /\ v = 1000 + Z.shiftl k 0).
Proof.
  assert (re_check example_bc = true) as Hc by (vm_compute; reflexivity). split; [done|].
  assert (Forall (Z.le 0) example_input) as Hu by (repeat constructor; lia).
  assert (lre_exec 200 [7; 7; 7; 7] example_bc 1000 example_input 0 7 0 tt =
    Some (Some (1, [1003; 1006; 1003; 1004], tt))) as E by (vm_compute; reflexivity).
  destruct (lre_exec_safe [7; 7; 7; 7] example_bc 1000 example_input 0 0 4 tt Hc ltac:(lia) (or_introl eq_refl) Hu
    ltac:(cbn; lia) eq_refl ltac:(cbn; lia) 200 _ E) as (ret & cap & o' & [= <- <- <-] & H).
  exists 1, [1003; 1006; 1003; 1004], tt. split; [exact E|].
  destruct H as [[[? _]|[? _]]|(_ & count & Hcount & Hv)]; [discriminate..|].
  vm_compute in Hcount. injection Hcount as <-. apply (Hv 3). lia.
Defined.
