(* ===== verification/RegexpRegs.v ===== *)
(** * Allocation of the loop registers (libregexp.c)

    [compute_register_count] walks over the compiled bytecode and writes the
    register operand of every loop instruction, allocating registers as a
    stack.  The bytecode is rewritten in place; [None] is a failed assertion or
    an access outside the bytecode. *)
From S2P Require Import Prelude Sort UnicodeTables UnicodeCase UnicodeCaseProps Regexp RegexpSim RegexpUndo.
From S2P Require Import RegexpSearch RegexpRange RegexpType.

Definition REGISTER_COUNT_MAX : Z := 255.

(** [bc_buf[i] = v] *)
Definition byte_set (tab : list Z) (i v : Z) : option (list Z) :=
  _ ← byte_at tab i; Some (<[Z.to_nat i := u8 v]> tab).

(** What the [switch] does with the opcode: allocate a register, release one
    or two, or nothing. *)
Inductive reg_action := RegPush | RegPop (n : Z) | RegNone.
Definition reg_action_of (op : REOPCodeEnum) : reg_action :=
  match op with
  | REOP_set_i32 | REOP_set_char_pos => RegPush
  | REOP_check_advance | REOP_loop | REOP_loop_split_goto_first | REOP_loop_split_next_first => RegPop 1
  | REOP_loop_check_adv_split_goto_first | REOP_loop_check_adv_split_next_first => RegPop 2
  | _ => RegNone
  end.

(** [while (pos < bc_buf_len)]; the result is the bytecode and the return
    value. *)
Fixpoint register_loop (fuel : nat) (bc_buf : list Z) (pos bc_buf_end stack_size stack_size_max : Z)
    : option (list Z * Z) :=
  if pos <? bc_buf_end then
    match fuel with
    | O => None
    | S fuel =>
        b ← byte_at bc_buf pos;
        len ← reopcode_size b;
        op ← opcode_of b;
        if bc_buf_end <? pos + len then None
        else
          match reg_action_of op with
          | RegPush =>
              bc_buf ← byte_set bc_buf (pos + 1) stack_size;
              let stack_size := stack_size + 1 in
              if stack_size_max <? stack_size then
                if REGISTER_COUNT_MAX <? stack_size then Some (bc_buf, -1)
                else register_loop fuel bc_buf (pos + len) bc_buf_end stack_size stack_size
              else register_loop fuel bc_buf (pos + len) bc_buf_end stack_size stack_size_max
          | RegPop n =>
              if stack_size <? n then None
              else
                bc_buf ← byte_set bc_buf (pos + 1) (stack_size - n);
                register_loop fuel bc_buf (pos + len) bc_buf_end (stack_size - n) stack_size_max
          | RegNone =>
              extra ← instr_extra bc_buf op pos;
              register_loop fuel bc_buf (pos + len + extra) bc_buf_end stack_size stack_size_max
          end
    end
  else Some (bc_buf, stack_size_max).

Definition compute_register_count (bc_buf : list Z) : option (list Z * Z) :=
  register_loop (length bc_buf) bc_buf RE_HEADER_LEN (Z.of_nat (length bc_buf)) 0 0.

(** ** The instructions of a bytecode *)
Fixpoint layout (fuel : nat) (bc_buf : list Z) (p pend : Z) : option (list (Z * REOPCodeEnum)) :=
  if p <? pend then
    match fuel with
    | O => None
    | S fuel =>
        b ← byte_at bc_buf p;
        len ← reopcode_size b;
        op ← opcode_of b;
        extra ← instr_extra bc_buf op p;
        l ← layout fuel bc_buf (p + len + extra) pend;
        Some ((p, op) :: l)
    end
  else Some [].

(** The registers an instruction uses, from its operand on. *)
Definition regs_used (op : REOPCodeEnum) : Z :=
  match reg_action_of op with RegPush => 1 | RegPop n => n | RegNone => 0 end.
Definition uses_reg (op : REOPCodeEnum) : bool :=
  match reg_action_of op with RegNone => false | _ => true end.

(** The registers of the instructions, as a stack: [l] pops or pushes from the
    depth [d], and every operand is the depth at which it is pushed. *)
Fixpoint stacked (bc_buf : list Z) (l : list (Z * REOPCodeEnum)) (d : Z) : Prop :=
  match l with
  | [] => True
  | (p, op) :: l =>
      match reg_action_of op with
      | RegPush => byte_at bc_buf (p + 1) = Some d /\ stacked bc_buf l (d + 1)
      | RegPop n => n <= d /\ byte_at bc_buf (p + 1) = Some (d - n) /\ stacked bc_buf l (d - n)
      | RegNone => stacked bc_buf l d
      end
  end.

Definition regs_bounded (bc_buf : list Z) (l : list (Z * REOPCodeEnum)) (k : Z) : Prop :=
  forall p op, (p, op) ∈ l -> uses_reg op = true ->
  exists r, byte_at bc_buf (p + 1) = Some r /\ 0 <= r /\ r + regs_used op <= k.

(** [bc'] agrees with [bc] except for register operands at [p] or after. *)
Definition same_before (bc bc' : list Z) (p : Z) : Prop :=
  length bc' = length bc /\ forall i, i < p -> byte_at bc' i = byte_at bc i.

Lemma byte_set_spec tab i v tab' : byte_set tab i v = Some tab' ->
  length tab' = length tab /\ byte_at tab' i = Some (u8 v) /\ forall j, j <> i -> byte_at tab' j = byte_at tab j.
Proof.
  unfold byte_set. destruct (byte_at tab i) as [b|] eqn:E; [|done]. intros [= <-].
  unfold byte_at in *. destruct (Z.ltb_spec i 0); [done|]. apply lookup_lt_Some in E.
  split; [by rewrite length_insert|]. split; [by rewrite list_lookup_insert_eq|].
  intros j Hj. destruct (Z.ltb_spec j 0); [done|]. rewrite list_lookup_insert_ne; [done|lia].
Qed.

Lemma opcode_entry b op len : opcode_of b = Some op -> reopcode_size b = Some len ->
  1 <= len /\ (uses_reg op = true -> 2 <= len) /\
  (match op with REOP_range | REOP_range_i | REOP_range32 | REOP_range32_i => 3 <= len
   | REOP_back_reference | REOP_back_reference_i | REOP_backward_back_reference
   | REOP_backward_back_reference_i => 2 <= len | _ => True end).
Proof.
  unfold opcode_of, reopcode_size. destruct (reopcode_info !! Z.to_nat b) as [[op0 len0]|] eqn:E; [|done].
  intros [= ->] [= ->].
  assert (Forall (fun x : REOPCodeEnum * Z => 1 <= x.2 /\ (uses_reg x.1 = true -> 2 <= x.2) /\
    (match x.1 with REOP_range | REOP_range_i | REOP_range32 | REOP_range32_i => 3 <= x.2
     | REOP_back_reference | REOP_back_reference_i | REOP_backward_back_reference
     | REOP_backward_back_reference_i => 2 <= x.2 | _ => True end)) reopcode_info) as H
    by (repeat constructor; cbn; (discriminate || lia)).
  exact (Forall_lookup_1 _ _ _ _ H E).
Qed.

Lemma instr_extra_range bc op p e : Forall is_byte bc -> instr_extra bc op p = Some e -> 0 <= e.
Proof.
  intros Hb. assert (forall v, get_u16 bc (p + 1) = Some v -> 0 <= v) as H16
    by (intros v E; apply (get_u16_range bc Hb) in E; lia).
  assert (forall v, byte_at bc (p + 1) = Some v -> 0 <= v) as H8
    by (intros v E; apply (byte_at_range bc Hb) in E; lia).
  destruct op; cbn; try (intros [= <-]; done); try (by apply H8);
    destruct (get_u16 bc (p + 1)) as [v|] eqn:E; try done; intros [= <-]; specialize (H16 v eq_refl); lia.
Qed.

(** The length of an instruction depends on its own bytes only. *)
Lemma instr_extra_same bc bc' op p b len : opcode_of b = Some op -> reopcode_size b = Some len ->
  (forall i, p <= i < p + len -> byte_at bc i = byte_at bc' i) -> instr_extra bc op p = instr_extra bc' op p.
Proof.
  intros Ho Hl Hsame. destruct (opcode_entry _ _ _ Ho Hl) as (_ & _ & Hlen).
  assert (3 <= len -> get_u16 bc (p + 1) = get_u16 bc' (p + 1)) as H16.
  { intros H. unfold get_u16. rewrite (Hsame (p + 1)) by lia. by rewrite (Hsame (p + 1 + 1)) by lia. }
  destruct op; cbn; try done; first [apply Hsame; lia|by rewrite H16].
Qed.

Lemma layout_same fuel bc bc' p pend : Forall is_byte bc -> (forall i, p <= i -> byte_at bc i = byte_at bc' i) ->
  layout fuel bc p pend = layout fuel bc' p pend.
Proof.
  intros Hb. revert p. induction fuel as [|fuel IH]; intros p Hsame; cbn; [done|].
  destruct (p <? pend); [|done]. rewrite <- (Hsame p) by lia.
  destruct (byte_at bc p) as [b|]; [bind|done]. destruct (reopcode_size b) as [len|] eqn:El; [bind|done].
  destruct (opcode_of b) as [op|] eqn:Eo; [bind|done].
  rewrite <- (instr_extra_same bc bc' op p b len) by (done || intros; apply Hsame; lia).
  destruct (instr_extra bc op p) as [e|] eqn:Ee; [bind|done].
  pose proof (instr_extra_range _ _ _ _ Hb Ee). destruct (opcode_entry _ _ _ Eo El) as (? & _).
  rewrite (IH (p + len + e)); [done|]. intros i Hi. apply Hsame. lia.
Qed.

Lemma byte_set_bytes bc i v bc' : Forall is_byte bc -> byte_set bc i v = Some bc' -> Forall is_byte bc'.
Proof.
  unfold byte_set. intros Hb. destruct (byte_at bc i); [|done]. intros [= <-].
  apply Forall_insert; [done|]. apply u8_range.
Qed.

(** The walk, from [pos] with [ss] registers in use. *)
Definition allocates (fuel : nat) (bc : list Z) (pos pend ss smax : Z) (bc' : list Z) (k : Z) : Prop :=
  same_before bc bc' (pos + 1) /\ smax <= k <= REGISTER_COUNT_MAX /\ Forall is_byte bc' /\
  exists l, layout fuel bc pos pend = Some l /\ layout fuel bc' pos pend = Some l /\
    stacked bc' l ss /\ regs_bounded bc' l k /\
    (forall i, byte_at bc' i <> byte_at bc i -> exists p op, (p, op) ∈ l /\ uses_reg op = true /\ i = p + 1).

(** An instruction with a register operand: it is written, the rest is walked
    over by the recursive call. *)
Lemma allocates_reg fuel bc bc1 bc' pos pend ss ss' smax k b op len r :
  Forall is_byte bc -> (pos <? pend) = true -> byte_at bc pos = Some b -> reopcode_size b = Some len ->
  opcode_of b = Some op -> uses_reg op = true -> byte_set bc (pos + 1) r = Some bc1 -> 0 <= r < 256 ->
  r + regs_used op <= smax ->
  (forall bc l, stacked bc l ss' -> byte_at bc (pos + 1) = Some r -> stacked bc ((pos, op) :: l) ss) ->
  allocates fuel bc1 (pos + len) pend ss' smax bc' k ->
  allocates (S fuel) bc pos pend ss smax bc' k.
Proof.
  intros Hb Hlt Eb El Eo Hu Eset Hr Hmax Hst ([Hlen Hsame] & Hk & Hb' & l & E1 & E2 & Hs & Hreg & Hdiff).
  destruct (opcode_entry _ _ _ Eo El) as (_ & Hl2 & _). specialize (Hl2 Hu).
  destruct (byte_set_spec _ _ _ _ Eset) as (Hlen1 & Hat & Hoth).
  pose proof (byte_set_bytes _ _ _ _ Hb Eset) as Hb1. rewrite u8_id in Hat by lia.
  assert (byte_at bc' (pos + 1) = Some r) as Hat' by (rewrite Hsame by lia; done).
  assert (forall bc0, instr_extra bc0 op pos = Some 0) as Hex by (intros; by destruct op).
  split; [|split; [done|split; [done|]]].
  { split; [lia|]. intros i Hi. rewrite Hsame by lia. apply Hoth. lia. }
  exists ((pos, op) :: l). cbn [layout]. rewrite Hlt. split_and!.
  - rewrite Eb. bind. rewrite El. bind. rewrite Eo. bind. rewrite Hex. bind. rewrite Z.add_0_r.
    rewrite (layout_same fuel bc bc1), E1; [done|done|]. intros i Hi. symmetry. apply Hoth. lia.
  - rewrite (Hsame pos), Hoth, Eb by lia. bind. rewrite El. bind. rewrite Eo. bind. rewrite Hex. bind.
    rewrite Z.add_0_r, E2. done.
  - by apply Hst.
  - intros p op' [[= -> ->]|Hin]%elem_of_cons Huse; [|by apply Hreg]. exists r. split_and!; [done|lia|lia].
  - intros i Hi. destruct (decide (i = pos + 1)) as [->|Hne]; [exists pos, op; split_and!; [left|done..]|].
    rewrite <- (Hoth i) in Hi by done. destruct (Hdiff i Hi) as (p & op' & Hin & ?).
    exists p, op'. split; [by right|done].
Qed.

Lemma allocates_none fuel bc bc' pos pend ss smax k b op len e :
  Forall is_byte bc -> (pos <? pend) = true -> byte_at bc pos = Some b -> reopcode_size b = Some len ->
  opcode_of b = Some op -> reg_action_of op = RegNone -> instr_extra bc op pos = Some e ->
  allocates fuel bc (pos + len + e) pend ss smax bc' k ->
  allocates (S fuel) bc pos pend ss smax bc' k.
Proof.
  intros Hb Hlt Eb El Eo Hu Ee ([Hlen Hsame] & Hk & Hb' & l & E1 & E2 & Hs & Hreg & Hdiff).
  pose proof (instr_extra_range _ _ _ _ Hb Ee). destruct (opcode_entry _ _ _ Eo El) as (Hl1 & _ & _).
  split; [|split; [done|split; [done|]]].
  { split; [lia|]. intros i Hi. apply Hsame. lia. }
  exists ((pos, op) :: l). cbn [layout]. rewrite Hlt. split_and!.
  - rewrite Eb. bind. rewrite El. bind. rewrite Eo. bind. rewrite Ee. bind. by rewrite E1.
  - rewrite Hsame, Eb by lia. bind. rewrite El. bind. rewrite Eo. bind.
    rewrite <- (instr_extra_same bc bc' op pos b len), Ee by (done || intros; symmetry; apply Hsame; lia).
    bind. by rewrite E2.
  - cbn. by rewrite Hu.
  - intros p op' [[= -> ->]|Hin]%elem_of_cons Huse; [|by apply Hreg]. unfold uses_reg in Huse. by rewrite Hu in Huse.
  - intros i Hi. destruct (Hdiff i Hi) as (p & op' & Hin & ?). exists p, op'. split; [by right|done].
Qed.

Lemma register_loop_allocates fuel bc pos pend ss smax bc' k : Forall is_byte bc ->
  0 <= ss <= smax -> smax <= REGISTER_COUNT_MAX -> register_loop fuel bc pos pend ss smax = Some (bc', k) -> k <> -1 ->
  allocates fuel bc pos pend ss smax bc' k.
Proof.
  revert bc pos ss smax. induction fuel as [|fuel IH]; intros bc pos ss smax Hb Hss Hmax Hr Hk.
  - cbn in Hr. destruct (pos <? pend) eqn:Hlt; [done|]. simplify_eq. split; [done|]. split; [lia|]. split; [done|].
    exists []. cbn. rewrite Hlt. split_and!; try done. by intros p op ?%elem_of_nil.
  - cbn [register_loop] in Hr. destruct (pos <? pend) eqn:Hlt.
    2: { simplify_eq. split; [done|]. split; [lia|]. split; [done|]. exists []. cbn. rewrite Hlt.
         split_and!; try done. by intros p op ?%elem_of_nil. }
    destruct (byte_at bc pos) as [b|] eqn:Eb; [cbn [base.mbind option_bind] in Hr|done].
    destruct (reopcode_size b) as [len|] eqn:El; [cbn [base.mbind option_bind] in Hr|done].
    destruct (opcode_of b) as [op|] eqn:Eo; [cbn [base.mbind option_bind] in Hr|done].
    destruct (pend <? pos + len); [done|]. unfold REGISTER_COUNT_MAX in *.
    destruct (reg_action_of op) as [|n|] eqn:Ea.
    + destruct (byte_set bc (pos + 1) ss) as [bc1|] eqn:Es; [cbn [base.mbind option_bind] in Hr|done].
      pose proof (byte_set_bytes _ _ _ _ Hb Es) as Hb1.
      assert (forall smax', ss + 1 <= smax' -> smax <= smax' -> allocates fuel bc1 (pos + len) pend (ss + 1) smax' bc' k ->
        allocates (S fuel) bc pos pend ss smax bc' k) as Hgo.
      { intros smax' H1 H2 Hal. assert (allocates (S fuel) bc pos pend ss smax' bc' k) as (? & ? & ?).
        { eapply (allocates_reg _ _ _ _ _ _ _ _ _ _ _ _ _ ss); try done.
          - unfold uses_reg. by rewrite Ea.
          - destruct Hal as (_ & ? & _). unfold REGISTER_COUNT_MAX in *. lia.
          - unfold regs_used. by rewrite Ea.
          - intros bc0 l Hl Hat. cbn. by rewrite Ea. }
        split; [done|]. split; [lia|done]. }
      destruct (Z.ltb_spec smax (ss + 1)) as [Hgt|Hle].
      * destruct (Z.ltb_spec 255 (ss + 1)); [simplify_eq; lia|]. apply (Hgo (ss + 1)); [lia..|]. apply IH; (done || unfold REGISTER_COUNT_MAX; lia).
      * apply (Hgo smax); [lia..|]. apply IH; (done || unfold REGISTER_COUNT_MAX; lia).
    + destruct (Z.ltb_spec ss n) as [|Hge]; [done|].
      destruct (byte_set bc (pos + 1) (ss - n)) as [bc1|] eqn:Es; [cbn [base.mbind option_bind] in Hr|done].
      pose proof (byte_set_bytes _ _ _ _ Hb Es) as Hb1.
      assert (1 <= n <= 2) by (destruct op; cbn in Ea; simplify_eq; lia).
      eapply (allocates_reg _ _ _ _ _ _ _ _ _ _ _ _ _ (ss - n)); try done.
      * unfold uses_reg. by rewrite Ea.
      * lia.
      * unfold regs_used. rewrite Ea. lia.
      * intros bc0 l Hl Hat. cbn. rewrite Ea. by split_and!.
      * apply IH; (done || unfold REGISTER_COUNT_MAX; lia).
    + destruct (instr_extra bc op pos) as [e|] eqn:Ee; [cbn [base.mbind option_bind] in Hr|done].
      eapply allocates_none; try done. apply IH; done.
Qed.

(** Register allocation.  When [compute_register_count] returns a count, it
    is at most 255; only register operands have changed, so the rewritten
    bytecode has the same instructions at the same places; every loop
    instruction names registers below the count, and the operands follow a
    stack discipline: an instruction that releases a register names the one
    that the matching [REOP_set_i32] or [REOP_set_char_pos] was given. *)
Theorem registers_allocated bc_buf bc' k :
  Forall is_byte bc_buf -> compute_register_count bc_buf = Some (bc', k) -> k <> -1 ->
  0 <= k <= 255 /\ length bc' = length bc_buf /\
  exists l, layout (length bc_buf) bc_buf RE_HEADER_LEN (Z.of_nat (length bc_buf)) = Some l /\
    layout (length bc_buf) bc' RE_HEADER_LEN (Z.of_nat (length bc_buf)) = Some l /\
    stacked bc' l 0 /\ regs_bounded bc' l k /\
    (forall i, byte_at bc' i <> byte_at bc_buf i -> exists p op, (p, op) ∈ l /\ uses_reg op = true /\ i = p + 1).
Proof.
  intros Hb Hr Hk. assert (0 <= 0 <= 0 /\ 0 <= REGISTER_COUNT_MAX) as [H0 H1] by done.
  destruct (register_loop_allocates _ _ _ _ _ _ _ _ Hb H0 H1 Hr Hk)
    as ([Hlen _] & Hk' & _ & l & H). unfold REGISTER_COUNT_MAX in Hk'. split; [lia|]. split; [done|]. by exists l.
Qed.

(** [/(?:ab{2}){3}/] before allocation: two nested counters. *)
Definition example_loops : list Z :=
  [0; 0; 1; 0; 0; 0; 0; 0] ++
  [27; 0; 3; 0; 0; 0; 1; 97; 0; 27; 0; 2; 0; 0; 0; 1; 98; 0] ++
  [22; 0; 0xF7; 0xFF; 0xFF; 0xFF; 22; 0; 0xE8; 0xFF; 0xFF; 0xFF; 16].
Lemma registers_allocated_witness :
  exists bc', compute_register_count example_loops = Some (bc', 2) /\ byte_at bc' 18 = Some 1 /\
    byte_at bc' 27 = Some 1 /\ byte_at bc' 33 = Some 0 /\ length bc' = length example_loops.
Proof.
  destruct (compute_register_count example_loops) as [[bc' k]|] eqn:E; [|vm_compute in E; discriminate].
  pose proof E as E'. vm_compute in E'. injection E' as Ebc Ek.
  exists bc'. rewrite <- Ek. split; [reflexivity|].
  assert (Forall is_byte example_loops) as Hb by (apply (bool_decide_eq_true_1 _); vm_compute; reflexivity).
  destruct (registers_allocated example_loops bc' k Hb E) as (_ & Hlen & _); [rewrite <- Ek; discriminate|].
  rewrite <- Ebc at 1 2 3. split_and!; [reflexivity..|exact Hlen].
Defined.
