(* ===== verification/RegexpParse.v ===== *)
(** * The regular expression compiler: text and character classes (libregexp.c)

    The source text is a list of bytes ending with a NUL; pointers into it are
    offsets.  This file has the lexical functions, the monad of the parser, the
    lists of strings behind character classes, and the parser of classes.

    The parser's outcomes: [PFail] is a return value of -1, with the message if
    one was set; [PWrong] an access outside the text, the bytecode or another
    array, a read of memory nobody wrote, a failed assertion or [abort()];
    [PFuel] a call that does not return, either for a loop of libunicode.c that
    does not end or for the model's bound on recursion.  Memory requests are
    answered by a function of the running number of the operation and the size. *)
From S2P Require Import Prelude Sort Cutils Utf8 CharRange UnicodeTables UnicodeCase UnicodeProp Regexp.

(** ** Characters *)
Definition is_digit (c : Z) : bool := (48 <=? c) && (c <=? 57).
Definition from_hex (c : Z) : Z :=
  if (48 <=? c) && (c <=? 57) then c - 48
  else if (65 <=? c) && (c <=? 70) then c - 65 + 10
  else if (97 <=? c) && (c <=? 102) then c - 97 + 10
  else -1.

Definition lre_is_id_start_byte (c : Z) : option bool :=
  b ← lre_ctype_bits !! Z.to_nat c;
  Some (negb (Z.land b (Z.lor (Z.lor UNICODE_C_UPPER UNICODE_C_LOWER)
                              (Z.lor UNICODE_C_UNDER UNICODE_C_DOLLAR)) =? 0)).
Definition lre_is_id_continue_byte (c : Z) : option bool :=
  b ← lre_ctype_bits !! Z.to_nat c;
  Some (negb (Z.land b (Z.lor (Z.lor (Z.lor UNICODE_C_UPPER UNICODE_C_LOWER)
                                     (Z.lor UNICODE_C_UNDER UNICODE_C_DOLLAR)) UNICODE_C_DIGIT) =? 0)).
Definition lre_js_is_ident_first (c : Z) : option bool :=
  if c <? 128 then lre_is_id_start_byte c else lre_is_id_start c.
Definition lre_js_is_ident_next (c : Z) : option bool :=
  if c <? 128 then lre_is_id_continue_byte c
  else if (0x200C <=? c) && (c <=? 0x200D) then Some true
  else lre_is_id_continue c.

Definition INT32_MAX : Z := 2 ^ 31 - 1.
Definition UTF8_CHAR_LEN_MAX : Z := 6.
Definition TMP_BUF_SIZE : Z := 128.

(** [unicode_from_utf8(p, UTF8_CHAR_LEN_MAX, &p)]; [None] is -1. *)
Definition utf8_at (text : list Z) (p : Z) : option (Z * Z) :=
  match unicode_from_utf8 (drop (Z.to_nat p) text) UTF8_CHAR_LEN_MAX with
  | Some (c, rest) => Some (c, Z.of_nat (length text) - Z.of_nat (length rest))
  | None => None
  end.

(** ** Lexical functions

    [None] is a read outside the text. *)
Section Lex.
Context (text : list Z).
#[local] Abbreviation rd := (byte_at text).

Fixpoint digits_scan (fuel : nat) (p v : Z) (allow_overflow : bool) : option (Z * Z) :=
  match fuel with
  | O => None
  | S fuel =>
      c ← rd p;
      if (c <? 48) || (57 <? c) then Some (v, p)
      else
        let v := u64 (v * 10 + c - 48) in
        if INT32_MAX <=? v then
          if allow_overflow then digits_scan fuel (p + 1) INT32_MAX allow_overflow else Some (-1, p)
        else digits_scan fuel (p + 1) v allow_overflow
  end.
(** The value and the new pointer; after an overflow that is not allowed the
    value is -1 and the pointer does not move. *)
Definition parse_digits (p : Z) (allow_overflow : bool) : option (Z * Z) :=
  '(v, q) ← digits_scan (length text) p 0 allow_overflow;
  Some (if v <? 0 then (v, p) else (v, q)).

(** [\u{...}]: the code and the pointer after the brace, or -1 *)
Fixpoint escape_braces (fuel : nat) (p c : Z) : option (Z * Z) :=
  match fuel with
  | O => None
  | S fuel =>
      b ← rd p;
      let h := from_hex b in
      let p := p + 1 in
      if h <? 0 then Some (-1, p)
      else
        let c := Z.lor (u32 (Z.shiftl c 4)) h in
        if 0x10FFFF <? c then Some (-1, p)
        else
          b ← rd p;
          if b =? 125 then Some (c, p + 1) else escape_braces fuel p c
  end.

(** up to four hexadecimal digits from [p]: how many, and their value *)
Fixpoint escape_hex (n : nat) (p c : Z) : option (nat * Z) :=
  match n with
  | O => Some (O, c)
  | S n =>
      b ← rd p;
      let h := from_hex b in
      if h <? 0 then Some (O, c)
      else
        '(k, c) ← escape_hex n (p + 1) (Z.lor (u32 (Z.shiftl c 4)) h);
        Some (S k, c)
  end.

Definition escape_u (p allow_utf16 : Z) : option (Z * Z) :=
  b ← rd p;
  if (b =? 123) && negb (allow_utf16 =? 0) then escape_braces (length text) (p + 1) 0
  else
    '(k, c) ← escape_hex 4 p 0;
    if negb (k =? 4)%nat then Some (-1, p)
    else
      let p := p + 4 in
      if is_hi_surrogate c && (allow_utf16 =? 2) then
        b0 ← rd p;
        if b0 =? 92 then
          b1 ← rd (p + 1);
          if b1 =? 117 then
            '(k, c1) ← escape_hex 4 (p + 2) 0;
            if (k =? 4)%nat && is_lo_surrogate c1 then Some (from_surrogate c c1, p + 6) else Some (c, p)
          else Some (c, p)
        else Some (c, p)
      else Some (c, p).

(** legacy octal escapes, after the first digit [c] *)
Definition escape_octal (p c allow_utf16 : Z) : option (Z * Z) :=
  b ← rd p;
  if allow_utf16 =? 2 then
    if negb (c =? 0) || is_digit b then Some (-1, p) else Some (c, p)
  else
    let v := u32 (b - 48) in
    if 7 <? v then Some (c, p)
    else
      let c := Z.lor (Z.shiftl c 3) v in
      let p := p + 1 in
      if 32 <=? c then Some (c, p)
      else
        b ← rd p;
        let v := u32 (b - 48) in
        if 7 <? v then Some (c, p) else Some (Z.lor (Z.shiftl c 3) v, p + 1).

(** [lre_parse_escape(pp, allow_utf16)], [p] after the backslash: the result
    and the new pointer; -1 is a malformed escape and -2 not an escape. *)
Definition lre_parse_escape (p allow_utf16 : Z) : option (Z * Z) :=
  c ← rd p;
  let p1 := p + 1 in
  r ← (if c =? 98 then Some (8, p1)
       else if c =? 102 then Some (12, p1)
       else if c =? 110 then Some (10, p1)
       else if c =? 114 then Some (13, p1)
       else if c =? 116 then Some (9, p1)
       else if c =? 118 then Some (11, p1)
       else if c =? 120 then
         b0 ← rd p1;
         let h0 := from_hex b0 in
         if h0 <? 0 then Some (-1, p1)
         else
           b1 ← rd (p1 + 1);
           let h1 := from_hex b1 in
           if h1 <? 0 then Some (-1, p1) else Some (Z.lor (Z.shiftl h0 4) h1, p1 + 2)
       else if c =? 117 then escape_u p1 allow_utf16
       else if (48 <=? c) && (c <=? 55) then escape_octal p1 (c - 48) allow_utf16
       else Some (-2, p1));
  Some (if r.1 <? 0 then (r.1, p) else r).

(** [re_parse_group_name(buf, sizeof(buf), pp)], [p] after the '<': the name
    and the new pointer; [Some None] is -1. *)
Definition group_name_char (p c : Z) : option (option (Z * Z)) :=
  if c =? 92 then
    b ← rd (p + 1);
    if negb (b =? 117) then Some None
    else
      '(c, p) ← lre_parse_escape (p + 1) 2;
      Some (Some (u32 c, p))
  else if 128 <=? c then
    match utf8_at text p with
    | None => Some (Some (UINT32_MAX, p))
    | Some (c, p) =>
        if is_hi_surrogate c then
          match utf8_at text p with
          | Some (d, p1) => if is_lo_surrogate d then Some (Some (from_surrogate c d, p1)) else Some (Some (c, p))
          | None => Some (Some (c, p))
          end
        else Some (Some (c, p))
    end
  else Some (Some (c, p + 1)).

Fixpoint group_name_loop (fuel : nat) (p : Z) (name : list Z) : option (option (list Z * Z)) :=
  match fuel with
  | O => None
  | S fuel =>
      c ← rd p;
      if c =? 62 then Some (if (length name =? 0)%nat then None else Some (name, p + 1))
      else
        r ← group_name_char p c;
        match r with
        | None => Some None
        | Some (c, p) =>
            if 0x10FFFF <? c then Some None
            else
              ok ← (if (length name =? 0)%nat then lre_js_is_ident_first c else lre_js_is_ident_next c);
              if negb ok then Some None
              else if TMP_BUF_SIZE <? Z.of_nat (length name) + UTF8_CHAR_LEN_MAX + 1 then Some None
              else group_name_loop fuel p (name ++ (if c <? 128 then [c] else unicode_to_utf8 c))
        end
  end.
Definition re_parse_group_name (p : Z) : option (option (list Z * Z)) :=
  group_name_loop (length text) p [].
End Lex.

(** ** The state and the monad of the parser *)
Record REParseState := mk_pstate {
  s_byte_code : DynBuf;
  s_buf_ptr : Z;
  s_ignore_case : bool;
  s_multi_line : bool;
  s_dotall : bool;
  s_group_name_scope : Z;
  s_capture_count : Z;
  s_total_capture_count : Z;
  s_has_named_captures : Z;
  s_group_names : DynBuf;
  s_requests : nat; (* operations on memory so far *)
}.

Inductive presult (A : Type) :=
| POk (a : A) (s : REParseState)
| PFail (msg : option string)
| PWrong (s : REParseState)
| PFuel.
Arguments POk {A}.
Arguments PFail {A}.
Arguments PWrong {A}.
Arguments PFuel {A}.

Definition P (A : Type) : Type := REParseState -> presult A.
Definition pret {A} (a : A) : P A := fun s => POk a s.
Definition pbind {A B} (m : P A) (k : A -> P B) : P B := fun s =>
  match m s with
  | POk a s' => k a s'
  | PFail msg => PFail msg
  | PWrong s' => PWrong s'
  | PFuel => PFuel
  end.
Definition pget : P REParseState := fun s => POk s s.
Definition pfail {A} : P A := fun _ => PFail None.
Definition pwrong {A} : P A := fun s => PWrong s.
Definition pfuel {A} : P A := fun _ => PFuel.
Definition of_option {A} (o : option A) : P A := fun s => match o with Some a => POk a s | None => PWrong s end.
Definition re_parse_error {A} (msg : string) : P A := fun _ => PFail (Some msg).
Definition re_parse_out_of_memory {A} : P A := re_parse_error "out of memory".

Declare Scope parse_scope.
Delimit Scope parse_scope with parse.
#[global] Open Scope parse_scope.
Notation "'let?' p ':=' m 'in' k" := (pbind m (fun p => k))
  (at level 10, p as pattern, m at level 200, k at level 200,
   format "'[v' 'let?'  p  ':='  m  'in' '/' k ']'") : parse_scope.

Definition set_buf_ptr (p : Z) : P unit := fun s =>
  POk tt (mk_pstate (s_byte_code s) p (s_ignore_case s) (s_multi_line s) (s_dotall s) (s_group_name_scope s)
    (s_capture_count s) (s_total_capture_count s) (s_has_named_captures s) (s_group_names s) (s_requests s)).
Definition set_modifiers (ic ml da : bool) : P unit := fun s =>
  POk tt (mk_pstate (s_byte_code s) (s_buf_ptr s) ic ml da (s_group_name_scope s)
    (s_capture_count s) (s_total_capture_count s) (s_has_named_captures s) (s_group_names s) (s_requests s)).
Definition set_group_name_scope (v : Z) : P unit := fun s =>
  POk tt (mk_pstate (s_byte_code s) (s_buf_ptr s) (s_ignore_case s) (s_multi_line s) (s_dotall s) v
    (s_capture_count s) (s_total_capture_count s) (s_has_named_captures s) (s_group_names s) (s_requests s)).
Definition set_captures (count total named : Z) : P unit := fun s =>
  POk tt (mk_pstate (s_byte_code s) (s_buf_ptr s) (s_ignore_case s) (s_multi_line s) (s_dotall s)
    (s_group_name_scope s) count total named (s_group_names s) (s_requests s)).
Definition set_bufs (bc gn : DynBuf) (n : nat) (s : REParseState) : REParseState :=
  mk_pstate bc (s_buf_ptr s) (s_ignore_case s) (s_multi_line s) (s_dotall s)
    (s_group_name_scope s) (s_capture_count s) (s_total_capture_count s) (s_has_named_captures s) gn n.

(** What a compilation is given and does not change: the text with its NUL,
    the flags, and the embedder's answers, to the requests for memory of the
    [n]-th operation and to [lre_check_stack_overflow]. *)
Class ReEnv := {
  env_text : list Z;
  env_is_unicode : bool;
  env_unicode_sets : bool;
  env_realloc : nat -> Z -> bool;
  env_stack_overflow : nat -> bool;
}.
Definition buf_end `{ReEnv} : Z := Z.of_nat (length env_text) - 1.

(** The sets of libunicode.c that [\p] names: a return value with the set as
    the function leaves it, for the sequences the calls of the callback.
    [unicode_script] may not return ([None]). *)
Class UnicodeDb := {
  unicode_script : (Z -> bool) -> CharRange -> list Z -> bool -> option (CharRange * Z);
  unicode_general_category : (Z -> bool) -> CharRange -> list Z -> CharRange * Z;
  unicode_prop : (Z -> bool) -> CharRange -> list Z -> CharRange * Z;
  unicode_sequence_prop : (Z -> bool) -> list Z -> list (list Z) * Z;
}.

Section Parse.
Context `{ReEnv}.
#[local] Abbreviation is_unicode := env_is_unicode.
#[local] Abbreviation unicode_sets := env_unicode_sets.

(** [*p], and a function that asks for memory *)
Definition rd (p : Z) : P Z := of_option (byte_at env_text p).
Definition with_mem {A} (f : (Z -> bool) -> A) : P A := fun s =>
  POk (f (env_realloc (s_requests s))) (set_bufs (s_byte_code s) (s_group_names s) (S (s_requests s)) s).
Definition request (size : Z) : P bool := with_mem (fun ok => ok size).
Definition check_stack_overflow : P unit := fun s =>
  if env_stack_overflow (s_requests s) then PFail (Some "stack overflow")
  else POk tt (set_bufs (s_byte_code s) (s_group_names s) (S (s_requests s)) s).
Definition re_parse_expect (p c : Z) (msg : string) : P Z :=
  let? b := rd p in
  if negb (b =? c) then re_parse_error msg else pret (p + 1).

(** ** Lists of strings

    A hash table whose buckets are lists, the last string added first. *)
Record REString := mk_string { rs_hash : Z; rs_buf : list Z }.
Record REStringList := mk_slist {
  sl_cr : CharRange;
  sl_n_strings : Z;
  sl_hash_bits : Z;
  sl_hash_table : list (list REString);
}.
Definition sl_hash_size (s : REStringList) : Z := Z.of_nat (length (sl_hash_table s)).
Definition sl_strings (s : REStringList) : list REString := concat (sl_hash_table s).
Definition re_string_list_init : REStringList := mk_slist cr_init 0 0 [].
Definition sl_set_cr (s : REStringList) (cr : CharRange) : REStringList :=
  mk_slist cr (sl_n_strings s) (sl_hash_bits s) (sl_hash_table s).

Definition re_string_hash (buf : list Z) : Z :=
  u32 (foldl (fun h c => u32 (h * 263 + c)) 1 buf * 0x61C88647).

(** [h >> (32 - hash_bits)], then the chain *)
Definition bucket_of (h hash_bits : Z) : nat := Z.to_nat (Z.shiftr h (32 - hash_bits)).
Definition string_lookup (s : REStringList) (buf : list Z) (h0 : Z) : option bool :=
  if sl_n_strings s =? 0 then Some false
  else
    b ← sl_hash_table s !! bucket_of h0 (sl_hash_bits s);
    Some (existsb (fun p => (rs_hash p =? h0) && bool_decide (rs_buf p = buf)) b).
Definition push_bucket (tab : list (list REString)) (h : nat) (p : REString) : option (list (list REString)) :=
  b ← tab !! h; Some (<[h := p :: b]> tab).
Fixpoint rehash (hash_bits : Z) (l : list REString) (tab : list (list REString)) : option (list (list REString)) :=
  match l with
  | [] => Some tab
  | p :: l => tab ← push_bucket tab (bucket_of (rs_hash p) hash_bits) p; rehash hash_bits l tab
  end.

(** A list with the return value of the function that updates it: [false] is -1. *)
Abbreviation PList := (P (REStringList * bool)).

(** The table with room for one more string. *)
Definition grow_table (s : REStringList) : PList :=
  let new_hash_bits := Z.max (sl_hash_bits s + 1) 4 in
  let new_hash_size := u32 (Z.shiftl 1 new_hash_bits) in
  let? ok := request (8 * new_hash_size) in
  if ok then
    let? tab := of_option (rehash new_hash_bits (sl_strings s) (replicate (Z.to_nat new_hash_size) [])) in
    pret (mk_slist (sl_cr s) (sl_n_strings s) new_hash_bits tab, true)
  else pret (s, false).

(** [re_string_find2(s, len, buf, h0, TRUE)].  The bucket of the first string
    added to a table that has been emptied is 0, as in the code. *)
Definition re_string_find2_add (s : REStringList) (buf : list Z) (h0 : Z) : PList :=
  let? found := of_option (string_lookup s buf h0) in
  if (found : bool) then pret (s, true)
  else
    let grow := sl_hash_size s <? u32 (sl_n_strings s + 1) in
    let? (s', ok) := (if grow then grow_table s else pret (s, true)) in
    if negb ok then pret (s', false)
    else
      let h := if grow || negb (sl_n_strings s =? 0) then bucket_of h0 (sl_hash_bits s') else O in
      let? ok := request (16 + 4 * Z.of_nat (length buf)) in
      if negb ok then pret (s', false)
      else
        let? tab := of_option (push_bucket (sl_hash_table s') h (mk_string h0 buf)) in
        pret (mk_slist (sl_cr s') (u32 (sl_n_strings s' + 1)) (sl_hash_bits s') tab, true).

Definition re_string_add (s : REStringList) (buf : list Z) : PList :=
  match buf with
  | [c] =>
      let? (cr, ok) := with_mem (fun ok => cr_union_interval ok (sl_cr s) c c) in
      pret (sl_set_cr s cr, ok)
  | _ => re_string_find2_add s buf (re_string_hash buf)
  end.

Fixpoint strings_union (a : REStringList) (l : list REString) : PList :=
  match l with
  | [] => pret (a, true)
  | p :: l =>
      let? (a, ok) := re_string_find2_add a (rs_buf p) (rs_hash p) in
      if ok : bool then strings_union a l else pret (a, false)
  end.
(** One chain of [a] for [CR_OP_INTER] ([keep] true) and [CR_OP_SUB]. *)
Fixpoint chain_filter (b : REStringList) (keep : bool) (l : list REString) : option (list REString) :=
  match l with
  | [] => Some []
  | p :: l =>
      found ← string_lookup b (rs_buf p) (rs_hash p);
      l ← chain_filter b keep l;
      Some (if eqb found keep then p :: l else l)
  end.
Fixpoint table_filter (b : REStringList) (keep : bool) (tab : list (list REString)) : option (list (list REString)) :=
  match tab with
  | [] => Some []
  | l :: tab => l ← chain_filter b keep l; tab ← table_filter b keep tab; Some (l :: tab)
  end.
(** [re_string_list_op(a, b, op)]; [abort()] is [PWrong]. *)
Definition re_string_list_op (a b : REStringList) (op : CharRangeOpEnum) : PList :=
  let? (cr, ok) := with_mem (fun ok => cr_op1 ok (sl_cr a) (cr_points (sl_cr b)) op) in
  let a := sl_set_cr a cr in
  if negb ok then pret (a, false)
  else
    let filtered keep :=
      let? tab := of_option (table_filter b keep (sl_hash_table a)) in
      let removed := (length (concat (sl_hash_table a)) - length (concat tab))%nat in
      pret (mk_slist (sl_cr a) (u32 (sl_n_strings a - Z.of_nat removed)) (sl_hash_bits a) tab, true) in
    match op with
    | CR_OP_UNION => if sl_n_strings b =? 0 then pret (a, true) else strings_union a (sl_strings b)
    | CR_OP_INTER => filtered true
    | CR_OP_SUB => filtered false
    | CR_OP_XOR => pwrong
    end.

Fixpoint canonicalize_all (buf : list Z) (is_unicode : bool) : option (list Z) :=
  match buf with
  | [] => Some []
  | c :: buf => c ← lre_canonicalize c is_unicode; buf ← canonicalize_all buf is_unicode; Some (c :: buf)
  end.
Fixpoint strings_canonicalize (s : REStringList) (l : list REString) (is_unicode : bool) : PList :=
  match l with
  | [] => pret (s, true)
  | p :: l =>
      let? buf := of_option (canonicalize_all (rs_buf p) is_unicode) in
      let? (s, ok) := re_string_add s buf in
      if ok : bool then strings_canonicalize s l is_unicode else pret (s, false)
  end.
Definition re_string_list_canonicalize (s : REStringList) (is_unicode : bool) : PList :=
  let? r := with_mem (fun ok => cr_regexp_canonicalize ok (sl_cr s) is_unicode) in
  let? (cr, ok) := of_option r in
  if negb ok then pret (sl_set_cr s cr, false)
  else if sl_n_strings s =? 0 then pret (sl_set_cr s cr, true)
  else strings_canonicalize (mk_slist cr 0 0 []) (sl_strings s) is_unicode.

(** ** Character classes *)
Definition CLASS_RANGE_BASE : Z := 0x40000000.
Definition CHAR_RANGE_d : Z := 0.
Definition CHAR_RANGE_D : Z := 1.
Definition CHAR_RANGE_s : Z := 2.
Definition CHAR_RANGE_S : Z := 3.
Definition CHAR_RANGE_w : Z := 4.
Definition CHAR_RANGE_W : Z := 5.
Definition char_range_d : list Z := [0x0030; 0x0039 + 1].
Definition char_range_w : list Z :=
  [0x0030; 0x0039 + 1; 0x0041; 0x005A + 1; 0x005F; 0x005F + 1; 0x0061; 0x007A + 1].
Definition char_range_table : list (list Z) := [char_range_d; of_pairs char_range_s; char_range_w].

Fixpoint add_points (ok : Z -> bool) (cr : CharRange) (pts : list Z) : CharRange * bool :=
  match pts with
  | [] => (cr, true)
  | v :: pts => let '(cr, r) := cr_add_point ok cr v in if r then add_points ok cr pts else (cr, false)
  end.
Definition cr_init_char_range (c : Z) : PList :=
  let? pts := of_option (char_range_table !! Z.to_nat (Z.shiftr c 1)) in
  let? (cr, ok) := with_mem (fun ok => add_points ok cr_init pts) in
  if negb ok || (Z.land c 1 =? 0) then pret (sl_set_cr re_string_list_init cr, ok)
  else
    let? (cr, ok) := with_mem (fun ok => cr_invert ok cr) in
    pret (sl_set_cr re_string_list_init cr, ok).

(** *** Properties *)
Definition is_unicode_char (c : Z) : bool :=
  ((48 <=? c) && (c <=? 57)) || ((65 <=? c) && (c <=? 90)) || ((97 <=? c) && (c <=? 122)) || (c =? 95).
Definition NAME_SIZE : Z := 64.

(** The characters of a name or value, at most [NAME_SIZE - 1]: [None] when
    there are more. *)
Fixpoint unicode_chars (fuel : nat) (p : Z) (q : list Z) : P (option (list Z) * Z) :=
  match fuel with
  | O => pfuel
  | S fuel =>
      let? c := rd p in
      if is_unicode_char c then
        if NAME_SIZE - 1 <=? Z.of_nat (length q) then pret (None, p)
        else unicode_chars fuel (p + 1) (q ++ [c])
      else pret (Some q, p)
  end.

(** [seq_prop_cb] for every sequence; failures are ignored. *)
Fixpoint seq_prop_cbs (sl : REStringList) (l : list (list Z)) : P REStringList :=
  match l with
  | [] => pret sl
  | seq :: l => let? (sl, _) := re_string_add sl seq in seq_prop_cbs sl l
  end.

Context `{UnicodeDb}.

(** The set of a property, before case folding and inversion *)
Definition property_set (name value : list Z) (is_inv allow_sequence_prop : bool) : P REStringList :=
  let done_ (r : CharRange * Z) (msg : string) :=
    if r.2 =? 0 then pret (sl_set_cr re_string_list_init r.1)
    else if r.2 =? -2 then re_parse_error msg else re_parse_out_of_memory in
  let script ext :=
    let? o := with_mem (fun ok => unicode_script ok cr_init value ext) in
    match o with
    | Some r => done_ r "unknown unicode script"
    | None => pfuel
    end in
  if bool_decide (name = bytes_of_string "Script") || bool_decide (name = bytes_of_string "sc") then script false
  else if bool_decide (name = bytes_of_string "Script_Extensions") || bool_decide (name = bytes_of_string "scx") then script true
  else if bool_decide (name = bytes_of_string "General_Category") || bool_decide (name = bytes_of_string "gc") then
    let? r := with_mem (fun ok => unicode_general_category ok cr_init value) in
    done_ r "unknown unicode general category"
  else if bool_decide (value = []) then
    let? (cr, ret) := with_mem (fun ok => unicode_general_category ok cr_init name) in
    if ret =? -1 then re_parse_out_of_memory
    else
      let? (cr, ret) := (if ret <? 0 then with_mem (fun ok => unicode_prop ok cr name) else pret (cr, ret)) in
      if ret =? -1 then re_parse_out_of_memory
      else
        let sl := sl_set_cr re_string_list_init cr in
        if (ret <? 0) && negb is_inv && allow_sequence_prop then
          let? (seqs, ret) := with_mem (fun ok => unicode_sequence_prop ok name) in
          let? sl := seq_prop_cbs sl seqs in
          if ret =? -1 then re_parse_out_of_memory
          else if ret <? 0 then re_parse_error "unknown unicode property name"
          else pret sl
        else if ret <? 0 then re_parse_error "unknown unicode property name"
        else pret sl
  else re_parse_error "unknown unicode property name".

Definition or_out_of_memory (m : PList) : P REStringList :=
  let? (sl, ok) := m in if ok : bool then pret sl else re_parse_out_of_memory.
Definition or_fail (m : PList) : P REStringList := let? (sl, ok) := m in if ok : bool then pret sl else pfail.
Definition sl_invert (sl : REStringList) : PList :=
  let? (cr, ok) := with_mem (fun ok => cr_invert ok (sl_cr sl)) in
  pret (sl_set_cr sl cr, ok).

Definition parse_unicode_property (p : Z) (is_inv allow_sequence_prop : bool) : P (REStringList * Z) :=
  let? b := rd p in
  if negb (b =? 123) then re_parse_error "expecting '{' after \p"
  else
    let? (name, p) := unicode_chars (length env_text) (p + 1) [] in
    match name with
    | None => re_parse_error "unknown unicode property name"
    | Some name =>
        let? b := rd p in
        let? (value, p) := (if b =? 61 then unicode_chars (length env_text) (p + 1) [] else pret (Some [], p)) in
        match value with
        | None => re_parse_error "unknown unicode property value"
        | Some value =>
            let? p := re_parse_expect p 125 "expecting '}'" in
            let? sl := property_set name value is_inv allow_sequence_prop in
            let? s := pget in
            let? sl := (if s_ignore_case s && unicode_sets
                        then or_out_of_memory (re_string_list_canonicalize sl is_unicode) else pret sl) in
            let? sl := (if is_inv then or_out_of_memory (sl_invert sl) else pret sl) in
            let? sl := (if s_ignore_case s && negb unicode_sets
                        then or_out_of_memory (re_string_list_canonicalize sl is_unicode) else pret sl) in
            pret (sl, p)
        end
    end.

(** *** Atoms

    The character or [CLASS_RANGE_BASE] plus the number of the class, the new
    pointer, and the list [*cr] when it was initialized.  A negative value of
    the 32-bit result is the failure of the callers. *)
Definition class_atom : Type := Z * Z * option REStringList.
Definition invalid_escape : P class_atom := re_parse_error "invalid escape sequence in regular expression".

(** The label [normal_char] *)
Definition class_normal_char (p c : Z) : P class_atom :=
  if 128 <=? c then
    let (c, p) := default (UINT32_MAX, p) (utf8_at env_text p) in
    if (0xffff <? c) && negb is_unicode then re_parse_error "malformed unicode char"
    else if i32 c <? 0 then pfail else pret (c, p, None)
  else pret (c, p + 1, None).

(** The label [default_escape]: [p] is after the character of the escape. *)
Definition class_default_escape (p c : Z) : P class_atom :=
  let p := p - 1 in
  let? (ret, p') := of_option (lre_parse_escape env_text p (if is_unicode then 2 else 0)) in
  if 0 <=? ret then pret (ret, p', None)
  else if is_unicode then invalid_escape
  else class_normal_char p c.

(** [\c] *)
Definition class_control (p : Z) (inclass : bool) : P class_atom :=
  let? c := rd p in
  if ((97 <=? c) && (c <=? 122)) || ((65 <=? c) && (c <=? 90)) ||
     ((((48 <=? c) && (c <=? 57)) || (c =? 95)) && inclass && negb is_unicode)
  then pret (Z.land c 0x1f, p + 1, None)
  else if is_unicode then invalid_escape
  else pret (92, p - 1, None).

(** The number of a class escape, and the characters that may always be
    escaped. *)
Definition class_escape (c : Z) : option Z :=
  if c =? 100 then Some CHAR_RANGE_d else if c =? 68 then Some CHAR_RANGE_D
  else if c =? 115 then Some CHAR_RANGE_s else if c =? 83 then Some CHAR_RANGE_S
  else if c =? 119 then Some CHAR_RANGE_w else if c =? 87 then Some CHAR_RANGE_W
  else None.
Definition char_in (c : Z) (s : string) : bool := bool_decide (c ∈ bytes_of_string s).
Definition syntax_chars : string := "^$\.*+?()[]{}|/".
Definition double_chars : string := "&!#$%*+,.:;<=>?@^`~".
Definition set_chars : string := "()[]{}/-|".

(** The escapes that do not depend on [cr]; the others go to [q]. *)
Definition common_escape (q : Z -> P class_atom) (p c : Z) (inclass : bool) : P class_atom :=
  if c =? 99 then class_control p inclass
  else if c =? 45 then (if negb inclass && is_unicode then invalid_escape else pret (c, p, None))
  else if char_in c syntax_chars then pret (c, p, None)
  else q c.

(** [get_class_atom(s, cr, pp, inclass)], with what it does for an escape *)
Definition class_atom_with (escape : Z -> Z -> P class_atom) (p : Z) : P class_atom :=
  let? c := rd p in
  if c =? 92 then
    let p := p + 1 in
    if buf_end <=? p then re_parse_error "unexpected end"
    else let? c := rd p in escape (p + 1) c
  else if c =? 0 then
    if buf_end <=? p then re_parse_error "unexpected end" else class_normal_char p c
  else if char_in c double_chars then
    if unicode_sets then
      let? c1 := rd (p + 1) in
      if c1 =? c then re_parse_error "invalid class set operation in regular expression"
      else class_normal_char p c
    else class_normal_char p c
  else if char_in c set_chars then
    if unicode_sets then re_parse_error "invalid character in class in regular expression"
    else class_normal_char p c
  else class_normal_char p c.

(** [get_class_atom(s, NULL, pp, FALSE)] *)
Definition get_class_char (p : Z) : P class_atom :=
  class_atom_with (fun p c =>
    match class_escape c with
    | Some r => class_default_escape p r
    | None => common_escape (class_default_escape p) p c false
    end) p.

(** [\q{...}]: the characters of one string in the buffer [str], then the
    strings *)
Fixpoint u32s (l : list Z) : list Z :=
  match l with
  | a :: b :: c :: d :: l => a + Z.shiftl b 8 + Z.shiftl c 16 + Z.shiftl d 24 :: u32s l
  | _ => []
  end.
Fixpoint class_string (fuel : nat) (p : Z) (str : DynBuf) : P (DynBuf * Z) :=
  match fuel with
  | O => pfuel
  | S fuel =>
      let? b := rd p in
      if (b =? 125) || (b =? 124) then pret (str, p)
      else
        let? (c, p, _) := get_class_char p in
        let? (str, ok) := with_mem (fun ok => dbuf_put_u32 ok str c) in
        if ok : bool then class_string fuel p str else re_parse_out_of_memory
  end.
Fixpoint class_strings (fuel : nat) (p : Z) (str : DynBuf) (cr : REStringList) : P (REStringList * Z) :=
  match fuel with
  | O => pfuel
  | S fuel =>
      let? (str, p) := class_string (length env_text) p (mk_dbuf [] (db_allocated_size str) (db_error str)) in
      let? cr := or_out_of_memory (re_string_add cr (u32s (db_data str))) in
      let? b := rd p in
      if b =? 125 then pret (cr, p) else class_strings fuel (p + 1) str cr
  end.
Definition parse_class_string_disjunction (p : Z) : P (REStringList * Z) :=
  let? b := rd p in
  if negb (b =? 123) then re_parse_error "expecting '{' after \q"
  else
    let? (cr, p) := class_strings (length env_text) (p + 1) dbuf_init re_string_list_init in
    let? s := pget in
    let? cr := (if s_ignore_case s then or_fail (re_string_list_canonicalize cr true) else pret cr) in
    pret (cr, p + 1).

Definition get_class_atom (p : Z) (inclass : bool) : P class_atom :=
  class_atom_with (fun p c =>
    match class_escape c with
    | Some r =>
        let? cr := or_fail (cr_init_char_range r) in
        pret (r + CLASS_RANGE_BASE, p, Some cr)
    | None =>
        common_escape (fun c =>
          if ((c =? 112) || (c =? 80)) && is_unicode then
            let? (cr, p) := parse_unicode_property p (c =? 80) unicode_sets in
            pret (CLASS_RANGE_BASE, p, Some cr)
          else if (c =? 113) && unicode_sets && inclass then
            let? (cr, p) := parse_class_string_disjunction p in
            pret (CLASS_RANGE_BASE, p, Some cr)
          else class_default_escape p c) p c inclass
    end) p.

(** *** Nested classes *)
Definition sl_union_interval (cr : REStringList) (c1 c2 : Z) : PList :=
  let? (r, ok) := with_mem (fun ok => cr_union_interval ok (sl_cr cr) c1 c2) in
  pret (sl_set_cr cr r, ok).
Definition canonicalize_if (c : Z) : P Z :=
  let? s := pget in
  if s_ignore_case s then of_option (lre_canonicalize c is_unicode) else pret c.

(** [c1-c2]: the interval, folded when the case is ignored *)
Definition class_add_range (cr : REStringList) (c1 c2 : Z) : P REStringList :=
  let? s := pget in
  if s_ignore_case s then
    let? (cr2, ok) := with_mem (fun ok => cr_add_interval ok cr_init c1 (u32 (c2 + 1))) in
    if negb ok then re_parse_out_of_memory
    else
      let? r := with_mem (fun ok => cr_regexp_canonicalize ok cr2 is_unicode) in
      let? (cr2, ok) := of_option r in
      if negb ok then re_parse_out_of_memory
      else
        let? (r, ok) := with_mem (fun ok => cr_op1 ok (sl_cr cr) (cr_points cr2) CR_OP_UNION) in
        if ok : bool then pret (sl_set_cr cr r) else re_parse_out_of_memory
  else or_out_of_memory (sl_union_interval cr c1 c2).

(** The label [class_atom] *)
Definition class_add_atom (cr : REStringList) (c1 : Z) (cr1 : option REStringList) : P REStringList :=
  if CLASS_RANGE_BASE <=? c1 then
    match cr1 with
    | Some cr1 => or_out_of_memory (re_string_list_op cr cr1 CR_OP_UNION)
    | None => pwrong
    end
  else let? c1 := canonicalize_if c1 in or_out_of_memory (sl_union_interval cr c1 c1).

Definition invalid_class_range {A} : P A := re_parse_error "invalid class range".

(** One element of a union that is not a nested class: the new list, pointer
    and [is_first] *)
Definition class_item (cr : REStringList) (p : Z) (is_first : bool) : P (REStringList * Z * bool) :=
  let? (c1, p, cr1) := get_class_atom p true in
  let atom := let? cr := class_add_atom cr c1 cr1 in pret (cr, p, is_first) in
  let? b := rd p in
  if negb (b =? 45) then atom
  else
    let? b1 := rd (p + 1) in
    if b1 =? 93 then atom
    else if (b1 =? 45) && unicode_sets && is_first then atom
    else if CLASS_RANGE_BASE <=? c1 then (if is_unicode then invalid_class_range else atom)
    else
      let? (c2, p0, _) := get_class_atom (p + 1) true in
      if CLASS_RANGE_BASE <=? c2 then (if is_unicode then invalid_class_range else atom)
      else if c2 <? c1 then invalid_class_range
      else let? cr := class_add_range cr c1 c2 in pret (cr, p0, false).

(** [*p == '&' && p[1] == '&' && p[2] != '&'], or [*p == '-' && p[1] == '-'] *)
Definition at_set_op (op : CharRangeOpEnum) (p : Z) : P bool :=
  let c := match op with CR_OP_INTER => 38 | _ => 45 end in
  let? b := rd p in
  if negb (b =? c) then pret false
  else
    let? b1 := rd (p + 1) in
    if negb (b1 =? c) then pret false
    else match op with
         | CR_OP_INTER => let? b2 := rd (p + 2) in pret (negb (b2 =? 38))
         | _ => pret true
         end.

Section Nested.
Context (nested : Z -> P (REStringList * Z)).

Definition re_parse_class_set_operand (p : Z) : P (REStringList * Z) :=
  let? b := rd p in
  if b =? 91 then nested p
  else
    let? (c1, p, cr) := get_class_atom p true in
    if c1 <? CLASS_RANGE_BASE then
      let? c1 := canonicalize_if c1 in
      let? cr := or_fail (sl_union_interval re_string_list_init c1 c1) in
      pret (cr, p)
    else match cr with Some cr => pret (cr, p) | None => pwrong end.

Fixpoint set_op_loop (fuel : nat) (op : CharRangeOpEnum) (cr : REStringList) (p : Z) : P (REStringList * Z) :=
  match fuel with
  | O => pfuel
  | S fuel =>
      let? b := rd p in
      if b =? 93 then pret (cr, p)
      else
        let? ok := at_set_op op p in
        if negb ok then re_parse_error "invalid operation in regular expression"
        else
          let? (cr1, p) := re_parse_class_set_operand (p + 2) in
          let? cr := or_out_of_memory (re_string_list_op cr cr1 op) in
          set_op_loop fuel op cr p
  end.

Fixpoint class_loop (fuel : nat) (cr : REStringList) (p : Z) (is_first : bool) : P (REStringList * Z) :=
  match fuel with
  | O => pfuel
  | S fuel =>
      let? b := rd p in
      if b =? 93 then pret (cr, p)
      else
        let? (cr, p, is_first) :=
          (if (b =? 91) && unicode_sets then
             let? (cr1, p) := nested p in
             let? cr := or_out_of_memory (re_string_list_op cr cr1 CR_OP_UNION) in
             pret (cr, p, is_first)
           else class_item cr p is_first) in
        let? (cr, p) :=
          (if unicode_sets && is_first then
             let? inter := at_set_op CR_OP_INTER p in
             if inter : bool then set_op_loop (length env_text) CR_OP_INTER cr p
             else
               let? sub := at_set_op CR_OP_SUB p in
               if sub : bool then set_op_loop (length env_text) CR_OP_SUB cr p else pret (cr, p)
           else pret (cr, p)) in
        class_loop fuel cr p false
  end.
End Nested.

(** [p] is at the '['. *)
Fixpoint re_parse_nested_class (fuel : nat) (p : Z) : P (REStringList * Z) :=
  match fuel with
  | O => pfuel
  | S fuel =>
      let? _ := check_stack_overflow in
      let? b := rd (p + 1) in
      let invert := b =? 94 in
      let p := if invert then p + 2 else p + 1 in
      let? (cr, p) := class_loop (re_parse_nested_class fuel) (length env_text) re_string_list_init p true in
      let? cr := (if invert then
                    if negb (sl_n_strings cr =? 0)
                    then re_parse_error "negated character class with strings in regular expression debugger eval code"
                    else or_out_of_memory (sl_invert cr)
                  else pret cr) in
      pret (cr, p + 1)
  end.
End Parse.
