(* ===== verification/RegexpCompile.v ===== *)
(** * The regular expression compiler: terms and bytecode (libregexp.c)

    [lre_compile]: a recursive descent parser that emits bytecode as it goes,
    inserts instructions in front of what it has emitted and patches jumps.
    The bytecode is the [DynBuf] of the parser state; its allocation fails above
    [INT32_MAX / 2] bytes or when the embedder says so, and most of the code
    goes on after such a failure, until [lre_compile] looks at the error flag. *)
From S2P Require Import Prelude Sort Cutils Utf8 CharRange UnicodeTables UnicodeCase UnicodeCaseProps UnicodeProp.
From S2P Require Import Regexp RegexpSim RegexpUndo RegexpSearch RegexpRange RegexpType RegexpRegs RegexpParse.

Definition CAPTURE_COUNT_MAX : Z := 255.
Definition LRE_GROUP_NAME_TRAILER_LEN : Z := 2.
Definition LRE_FLAG_IGNORECASE : Z := Z.shiftl 1 1.
Definition LRE_FLAG_MULTILINE : Z := Z.shiftl 1 2.
Definition LRE_FLAG_DOTALL : Z := Z.shiftl 1 3.
Definition LRE_FLAG_STICKY : Z := Z.shiftl 1 5.

(** The number of an opcode. *)
Definition reop (op : REOPCodeEnum) : Z :=
  Z.of_nat (default O (find_index (fun x => bool_decide (x.1 = op)) reopcode_info)).

Section Compile.
Context `{ReEnv} `{UnicodeDb}.
#[local] Abbreviation is_unicode := env_is_unicode.
#[local] Abbreviation unicode_sets := env_unicode_sets.

(** ** The buffers *)
Definition lre_bytecode_realloc (n : nat) (size : Z) : bool :=
  if INT32_MAX / 2 <? size then false else env_realloc n size.

Definition on_byte_code {A} (f : (Z -> bool) -> DynBuf -> DynBuf * A) : P A := fun s =>
  let '(bc, a) := f (lre_bytecode_realloc (s_requests s)) (s_byte_code s) in
  POk a (set_bufs bc (s_group_names s) (S (s_requests s)) s).
Definition on_group_names {A} (f : (Z -> bool) -> DynBuf -> DynBuf * A) : P A := fun s =>
  let '(gn, a) := f (env_realloc (s_requests s)) (s_group_names s) in
  POk a (set_bufs (s_byte_code s) gn (S (s_requests s)) s).
Definition code_size : P Z := fun s => POk (db_size (s_byte_code s)) s.
Definition set_code (l : list Z) : P unit := fun s =>
  let bc := s_byte_code s in
  POk tt (set_bufs (mk_dbuf l (db_allocated_size bc) (db_error bc)) (s_group_names s) (s_requests s) s).

(** The results of [dbuf_putc] and its like are ignored. *)
Definition putc (c : Z) : P unit := let? _ := on_byte_code (fun ok bc => dbuf_putc ok bc c) in pret tt.
Definition put_u16 (v : Z) : P unit := let? _ := on_byte_code (fun ok bc => dbuf_put_u16 ok bc v) in pret tt.
Definition put_u32 (v : Z) : P unit := let? _ := on_byte_code (fun ok bc => dbuf_put_u32 ok bc v) in pret tt.

(** [byte_code.buf[i] = v]: inside the allocation, what lies beyond [size] is
    not part of the bytecode. *)
Definition poke (i v : Z) : P unit := fun s =>
  let bc := s_byte_code s in
  if (i <? 0) || (db_allocated_size bc <=? i) then PWrong s
  else set_code (<[Z.to_nat i := u8 v]> (db_data bc)) s.
Fixpoint pokes (i : Z) (l : list Z) : P unit :=
  match l with [] => pret tt | v :: l => let? _ := poke i v in pokes (i + 1) l end.
(** [put_u32(byte_code.buf + i, v)] *)
Definition poke_u32 (i v : Z) : P unit := pokes i (le_bytes 4 (u32 v)).

(** The bytes of the gap are those [memmove] leaves there; where nothing was
    written yet they stand for indeterminate ones. *)
Definition dbuf_insert (pos len : Z) : P bool :=
  let? ok := on_byte_code (fun ok bc => dbuf_claim ok bc len) in
  if negb ok then pret false
  else
    let? s := pget in
    let l := db_data (s_byte_code s) in
    let n := Z.to_nat pos in
    if Z.of_nat (length l) <? pos then pwrong
    else
      let tail := drop n l in
      let? _ := set_code (take n l ++ take (Z.to_nat len) (tail ++ replicate (Z.to_nat len) 0) ++ tail) in
      pret true.
Definition insert_or_fail (pos len : Z) : P unit :=
  let? ok := dbuf_insert pos len in if ok : bool then pret tt else re_parse_out_of_memory.

(** ** Emission *)
Definition re_emit_op (op : Z) : P unit := putc op.
Definition re_emit_op_u32 (op v : Z) : P Z :=
  let? _ := putc op in
  let? pos := code_size in
  let? _ := put_u32 v in
  pret pos.
Definition re_emit_goto (op v : Z) : P Z :=
  let? _ := putc op in
  let? pos := code_size in
  let? _ := put_u32 (v - (pos + 4)) in
  pret pos.
Definition re_emit_goto_u8 (op arg v : Z) : P Z :=
  let? _ := putc op in
  let? _ := putc arg in
  let? pos := code_size in
  let? _ := put_u32 (v - (pos + 4)) in
  pret pos.
Definition re_emit_goto_u8_u32 (op arg0 arg1 v : Z) : P Z :=
  let? _ := putc op in
  let? _ := putc arg0 in
  let? _ := put_u32 arg1 in
  let? pos := code_size in
  let? _ := put_u32 (v - (pos + 4)) in
  pret pos.
Definition re_emit_op_u8 (op v : Z) : P unit := let? _ := putc op in putc v.
Definition re_emit_op_u16 (op v : Z) : P unit := let? _ := putc op in put_u16 v.

Definition case_op (op op_i : REOPCodeEnum) : P Z :=
  let? s := pget in pret (reop (if s_ignore_case s then op_i else op)).

(** [for(i = 0; i < cr->len; i += 2)] *)
Fixpoint emit_points16 (pts : list Z) : P unit :=
  match pts with
  | [] => pret tt
  | [_] => pwrong
  | lo :: hi :: pts =>
      let? _ := put_u16 lo in
      let high := u32 (hi - 1) in
      let? _ := put_u16 (if high =? UINT32_MAX - 1 then 0xffff else high) in
      emit_points16 pts
  end.
Fixpoint emit_points32 (pts : list Z) : P unit :=
  match pts with
  | [] => pret tt
  | [_] => pwrong
  | lo :: hi :: pts =>
      let? _ := put_u32 lo in
      let? _ := put_u32 (hi - 1) in
      emit_points32 pts
  end.
Definition re_emit_range (cr : CharRange) : P unit :=
  let pts := cr_points cr in
  let len := cr_len cr / 2 in
  if 65535 <=? len then re_parse_error "too many ranges"
  else if len =? 0 then let? _ := re_emit_op_u32 (reop REOP_char32) (-1) in pret tt
  else
    let? high := of_option (pts !! (length pts - 1)%nat) in
    let? high := (if high =? UINT32_MAX then of_option (pts !! (length pts - 2)%nat) else pret high) in
    if high <=? 0xffff then
      let? op := case_op REOP_range REOP_range_i in
      let? _ := re_emit_op_u16 op len in
      emit_points16 pts
    else
      let? op := case_op REOP_range32 REOP_range32_i in
      let? _ := re_emit_op_u16 op len in
      emit_points32 pts.

Definition re_emit_char (c : Z) : P unit :=
  if c <=? 0xffff then let? op := case_op REOP_char REOP_char_i in re_emit_op_u16 op c
  else let? op := case_op REOP_char32 REOP_char32_i in let? _ := re_emit_op_u32 op c in pret tt.

(** *** Lists of strings: the longest first *)
Definition re_string_cmp_len (p1 p2 : REString) : Z :=
  let l1 := length (rs_buf p1) in
  let l2 := length (rs_buf p2) in
  (if (l1 <? l2)%nat then 1 else 0) - (if (l2 <? l1)%nat then 1 else 0).
Fixpoint emit_chars (l : list Z) : P unit :=
  match l with [] => pret tt | c :: l => let? _ := re_emit_char c in emit_chars l end.
(** The strings of the sorted table; [more] says that something follows the
    last one.  The gotos are chained through their operands. *)
Fixpoint emit_strings (l : list REString) (more : bool) (last_match_pos : Z) : P Z :=
  match l with
  | [] => pret last_match_pos
  | p :: l =>
      let is_last := negb more && bool_decide (l = []) in
      if is_last then let? _ := emit_chars (rs_buf p) in emit_strings l more last_match_pos
      else
        let? split_pos := re_emit_op_u32 (reop REOP_split_next_first) 0 in
        let? _ := emit_chars (rs_buf p) in
        let? last_match_pos := re_emit_op_u32 (reop REOP_goto) last_match_pos in
        let? size := code_size in
        let? _ := poke_u32 split_pos (size - (split_pos + 4)) in
        emit_strings l more last_match_pos
  end.
(** [while (last_match_pos != -1)]; a chain longer than the table would not
    end. *)
Fixpoint patch_gotos (n : nat) (last_match_pos : Z) : P unit :=
  if last_match_pos =? -1 then pret tt
  else match n with
  | O => pwrong
  | S n =>
      let? s := pget in
      let? next_pos := of_option (get_u32 (db_data (s_byte_code s)) last_match_pos) in
      let? _ := poke_u32 last_match_pos (db_size (s_byte_code s) - (last_match_pos + 4)) in
      patch_gotos n (i32 next_pos)
  end.
Definition re_emit_string_list (sl : REStringList) : P unit :=
  if sl_n_strings sl =? 0 then re_emit_range (sl_cr sl)
  else
    let? ok := request (8 * sl_n_strings sl) in
    if negb ok then re_parse_out_of_memory
    else
      let is_empty p := bool_decide (rs_buf p = []) in
      let has_empty_string := existsb is_empty (sl_strings sl) in
      let tab := base.filter (fun p => is_empty p = false) (sl_strings sl) in
      let n := length tab in
      if sl_n_strings sl <? Z.of_nat n then pwrong
      else
        let? tab := of_option (rqsort re_string_cmp_len tab n 8) in
        let has_chars := negb (cr_len (sl_cr sl) =? 0) in
        let? last_match_pos := emit_strings tab (has_empty_string || has_chars) (-1) in
        let? _ :=
          (if has_chars then
             if has_empty_string then
               let? split_pos := re_emit_op_u32 (reop REOP_split_next_first) 0 in
               let? _ := re_emit_range (sl_cr sl) in
               let? size := code_size in
               poke_u32 split_pos (size - (split_pos + 4))
             else re_emit_range (sl_cr sl)
           else pret tt) in
        patch_gotos n last_match_pos.

Definition re_parse_char_class (p : Z) : P Z :=
  let? (cr, p) := re_parse_nested_class (S (length env_text)) p in
  let? _ := re_emit_string_list cr in
  pret p.

(** ** Captures and group names *)

(** What [re_need_check_adv_and_capture_init] does with an opcode. *)
Inductive adv_kind := AdvChar | AdvNone | AdvBackRef | AdvUnknown.
Definition adv_kind_of (op : REOPCodeEnum) : adv_kind :=
  match op with
  | REOP_range | REOP_range_i | REOP_range32 | REOP_range32_i
  | REOP_char | REOP_char_i | REOP_char32 | REOP_char32_i
  | REOP_dot | REOP_any | REOP_space | REOP_not_space => AdvChar
  | REOP_line_start | REOP_line_start_m | REOP_line_end | REOP_line_end_m
  | REOP_set_i32 | REOP_set_char_pos | REOP_word_boundary | REOP_word_boundary_i
  | REOP_not_word_boundary | REOP_not_word_boundary_i | REOP_prev
  | REOP_save_start | REOP_save_end | REOP_save_reset => AdvNone
  | REOP_back_reference | REOP_back_reference_i
  | REOP_backward_back_reference | REOP_backward_back_reference_i => AdvBackRef
  | _ => AdvUnknown
  end.
(** The result and [*pneed_capture_init]; the loop is bounded by the length of
    the code, each instruction having at least one byte. *)
Fixpoint need_check_loop (fuel : nat) (bc_buf : list Z) (pos : Z) (need_check_adv need_capture_init : bool)
    : option (bool * bool) :=
  if pos <? Z.of_nat (length bc_buf) then
    match fuel with
    | O => None
    | S fuel =>
        b ← byte_at bc_buf pos;
        len ← reopcode_size b;
        op ← opcode_of b;
        match adv_kind_of op with
        | AdvChar =>
            extra ← instr_extra bc_buf op pos;
            need_check_loop fuel bc_buf (pos + len + extra) false need_capture_init
        | AdvNone => need_check_loop fuel bc_buf (pos + len) need_check_adv need_capture_init
        | AdvBackRef =>
            extra ← instr_extra bc_buf op pos;
            need_check_loop fuel bc_buf (pos + len + extra) need_check_adv true
        | AdvUnknown => Some (need_check_adv, true)
        end
    end
  else Some (need_check_adv, need_capture_init).
Definition re_need_check_adv_and_capture_init (bc_buf : list Z) : option (bool * bool) :=
  need_check_loop (length bc_buf) bc_buf 0 true false.

(** The scan of [re_parse_captures]: whether a named group was seen, the
    indices of the groups called [capture_name], and the final index. *)
Section Captures.
#[local] Abbreviation byte p := (byte_at env_text p).
Fixpoint skip_class (fuel : nat) (p : Z) : option Z :=
  match fuel with
  | O => None
  | S fuel =>
      if p <? buf_end then
        b ← byte p;
        if b =? 93 then Some p else skip_class fuel (if b =? 92 then p + 2 else p + 1)
      else Some p
  end.
Fixpoint captures_scan (fuel : nat) (capture_name : option (list Z)) (p capture_index : Z) (named : bool)
    (found : list Z) : option (bool * list Z * Z) :=
  match fuel with
  | O => None
  | S fuel =>
      let next p i named found :=
        if CAPTURE_COUNT_MAX <=? i then Some (named, found, i)
        else captures_scan fuel capture_name p i named found in
      let skip p := captures_scan fuel capture_name p capture_index named found in
      if p <? buf_end then
        b ← byte p;
        if b =? 40 then
          b1 ← byte (p + 1);
          if b1 =? 63 then
            b2 ← byte (p + 2);
            if b2 =? 60 then
              b3 ← byte (p + 3);
              if (b3 =? 61) || (b3 =? 33) then skip (p + 1)
              else
                match capture_name with
                | None => next (p + 1) (capture_index + 1) true found
                | Some name =>
                    let p := p + 3 in
                    r ← re_parse_group_name env_text p;
                    match r with
                    | Some (name1, p) =>
                        next (p + 1) (capture_index + 1) true
                          (if bool_decide (name1 = name) then found ++ [capture_index] else found)
                    | None => next (p + 1) (capture_index + 1) true found
                    end
                end
            else skip (p + 1)
          else next (p + 1) (capture_index + 1) named found
        else if b =? 92 then skip (p + 2)
        else if b =? 91 then
          (* *p is '[' here: the increment is 1 *)
          p ← skip_class (length env_text) (p + 1);
          skip (p + 1)
        else skip (p + 1)
      else Some (named, found, capture_index)
  end.
End Captures.
Definition captures_of (capture_name : option (list Z)) : P (bool * list Z * Z) :=
  of_option (captures_scan (S (length env_text)) capture_name 0 1 false []).

Definition re_count_captures : P Z :=
  let? s := pget in
  if s_total_capture_count s <? 0 then
    let? (named, _, n) := captures_of None in
    let? _ := set_captures (s_capture_count s) n (if named : bool then 1 else 0) in
    pret n
  else pret (s_total_capture_count s).
Definition re_has_named_captures : P bool :=
  let? s := pget in
  let? _ := (if s_has_named_captures s <? 0 then re_count_captures else pret 0) in
  let? s := pget in
  pret (negb (s_has_named_captures s =? 0)).

(** [p] up to the NUL; [None] is a read past the names. *)
Fixpoint strlen_at (l : list Z) : option (list Z * list Z) :=
  match l with
  | [] => None
  | c :: l => if c =? 0 then Some ([], l) else '(n, r) ← strlen_at l; Some (c :: n, r)
  end.
(** The names, each with the byte after its NUL when it is there. *)
Fixpoint group_entries (fuel : nat) (l : list Z) : option (list (list Z * option Z)) :=
  match l, fuel with
  | [], _ => Some []
  | _, O => None
  | _, S fuel =>
      '(name, rest) ← strlen_at l;
      es ← group_entries fuel (drop 1 rest);
      Some ((name, head rest) :: es)
  end.
(** When [group_names.buf] is null there is no name. *)
Definition group_list : P (list (list Z * option Z)) :=
  let? s := pget in
  let l := db_data (s_group_names s) in
  of_option (group_entries (length l) l).
(** The indices of the groups called [name]. *)
Fixpoint name_indices (es : list (list Z * option Z)) (name : list Z) (capture_index : Z) : list Z :=
  match es with
  | [] => []
  | (n, _) :: es =>
      let l := name_indices es name (capture_index + 1) in
      if bool_decide (n = name) then capture_index :: l else l
  end.
Definition find_group_name (name : list Z) : P (list Z) :=
  let? es := group_list in pret (name_indices es name 1).
Fixpoint scope_in (es : list (list Z * option Z)) (name : list Z) (scope : Z) : option bool :=
  match es with
  | [] => Some false
  | (n, scope1) :: es =>
      if bool_decide (n = name) then
        scope1 ← scope1; if scope =? scope1 then Some true else scope_in es name scope
      else scope_in es name scope
  end.
Definition is_duplicate_group_name (name : list Z) (scope : Z) : P bool :=
  let? es := group_list in of_option (scope_in es name scope).
(** [emit_group_index] *)
Fixpoint emit_indices (l : list Z) : P unit :=
  match l with [] => pret tt | i :: l => let? _ := putc i in emit_indices l end.

(** ** Modifiers *)
Fixpoint modifiers_loop (fuel : nat) (p mask : Z) : P (Z * Z) :=
  match fuel with
  | O => pfuel
  | S fuel =>
      let? b := rd p in
      let add v :=
        if negb (Z.land mask v =? 0)
        then re_parse_error (String.append "duplicate modifier: '" (String (Ascii.ascii_of_N (Z.to_N b)) "'"))
        else modifiers_loop fuel (p + 1) (Z.lor mask v) in
      if b =? 105 then add LRE_FLAG_IGNORECASE
      else if b =? 109 then add LRE_FLAG_MULTILINE
      else if b =? 115 then add LRE_FLAG_DOTALL
      else pret (mask, p)
  end.
Definition re_parse_modifiers (p : Z) : P (Z * Z) := modifiers_loop (length env_text) p 0.
Definition update_modifier (val : bool) (add_mask remove_mask mask : Z) : bool :=
  let val := if Z.land add_mask mask =? 0 then val else true in
  if Z.land remove_mask mask =? 0 then val else false.

(** ** Atoms

    An atom leaves the new pointer, [last_atom_start] (-1 when there is nothing
    to repeat) and [last_capture_count]. *)
Definition atom : Type := Z * Z * Z.
Definition atom_start : P (Z * Z) :=
  let? size := code_size in let? s := pget in pret (size, s_capture_count s).
Definition emit_prev_if (b : bool) : P unit := if b then re_emit_op (reop REOP_prev) else pret tt.
Definition bz (b : bool) : Z := if b then 1 else 0.

(** The label [normal_char] *)
Definition term_normal_char (is_backward_dir : bool) (p c : Z) (cr : option REStringList) : P atom :=
  let? (start, captures) := atom_start in
  let? _ := emit_prev_if is_backward_dir in
  let? _ :=
    (if CLASS_RANGE_BASE <=? c then
       match cr with
       | None => pwrong
       | Some cr =>
           if c =? CLASS_RANGE_BASE + CHAR_RANGE_s then re_emit_op (reop REOP_space)
           else if c =? CLASS_RANGE_BASE + CHAR_RANGE_S then re_emit_op (reop REOP_not_space)
           else re_emit_string_list cr
       end
     else let? c := canonicalize_if c in re_emit_char c) in
  let? _ := emit_prev_if is_backward_dir in
  pret (p, start, captures).
(** The label [parse_class_atom] *)
Definition term_class_atom (is_backward_dir : bool) (p : Z) : P atom :=
  let? (c, p, cr) := get_class_atom p false in
  term_normal_char is_backward_dir p c cr.

Definition no_atom (p : Z) : P atom := pret (p, -1, 0).
Definition is_octal (c : Z) : bool := (48 <=? c) && (c <=? 55).

(** A '{' that is not a quantifier *)
Definition looks_like_count (p : Z) : option bool :=
  '(_, p1) ← parse_digits env_text (p + 1) true;
  b ← byte_at env_text p1;
  p1 ← (if b =? 44 then
          b ← byte_at env_text (p1 + 1);
          if is_digit b then '(_, p2) ← parse_digits env_text (p1 + 1) true; Some p2 else Some (p1 + 1)
        else Some p1);
  b ← byte_at env_text p1;
  Some (b =? 125).
Definition term_brace (is_backward_dir : bool) (p : Z) : P atom :=
  if is_unicode then re_parse_error "syntax error"
  else
    let? b := rd (p + 1) in
    if negb (is_digit b) then term_class_atom is_backward_dir p
    else
      let? count := of_option (looks_like_count p) in
      if count : bool then re_parse_error "nothing to repeat" else term_class_atom is_backward_dir p.

(** [\k<name>] *)
Definition back_reference_op (is_backward_dir ignore_case : bool) : Z :=
  reop REOP_back_reference + 2 * bz is_backward_dir + bz ignore_case.
Definition term_named_reference (is_backward_dir : bool) (p : Z) : P atom :=
  let not_a_name (msg : string) :=
    let? named := (if is_unicode then pret true else re_has_named_captures) in
    if named : bool then re_parse_error msg else term_class_atom is_backward_dir p in
  let? b := rd (p + 2) in
  if negb (b =? 60) then not_a_name "expecting group name"
  else
    let? r := of_option (re_parse_group_name env_text (p + 3)) in
    match r with
    | None => not_a_name "invalid group name"
    | Some (name, p1) =>
        let? before := find_group_name name in
        let? (_, after, _) := (if bool_decide (before = []) then captures_of (Some name) else pret (false, [], 0)) in
        if bool_decide (before = []) && bool_decide (after = []) then not_a_name "group name not defined"
        else
          let indices := if bool_decide (before = []) then after else before in
          let? (start, captures) := atom_start in
          let? s := pget in
          let? _ := re_emit_op_u8 (back_reference_op is_backward_dir (s_ignore_case s)) (Z.of_nat (length indices)) in
          let? _ := emit_indices indices in
          pret (p1, start, captures)
    end.

(** [\0], and the octal escapes of [\1] to [\9] *)
Definition octal_digit (p c : Z) : option (Z * Z * bool) :=
  b ← byte_at env_text p;
  Some (if is_octal b then (Z.shiftl c 3 + b - 48, p + 1, true) else (c, p, false)).
Definition term_zero (is_backward_dir : bool) (p : Z) : P atom :=
  let p := p + 2 in
  let? b := rd p in
  if is_unicode then
    if is_digit b then re_parse_error "invalid decimal escape in regular expression"
    else term_normal_char is_backward_dir p 0 None
  else
    let? (c, p, more) := of_option (octal_digit p 0) in
    let? (c, p, _) := (if more : bool then of_option (octal_digit p c) else pret (c, p, false)) in
    term_normal_char is_backward_dir p c None.
Definition legacy_octal (p : Z) : option (Z * Z) :=
  b ← byte_at env_text p;
  if b <=? 55 then
    let '(c, p) := if b <=? 51 then (b - 48, p + 1) else (0, p) in
    '(c, p, more) ← octal_digit p c;
    if more : bool then '(c, p, _) ← octal_digit p c; Some (c, p) else Some (c, p)
  else Some (b, p + 1).
Definition term_number (is_backward_dir : bool) (p : Z) : P atom :=
  let q := p + 1 in
  let? (c, p) := of_option (parse_digits env_text q false) in
  let? s := pget in
  let? out :=
    (if c <? 0 then pret true
     else if s_capture_count s <=? c then let? n := re_count_captures in pret (n <=? c) else pret false) in
  if out : bool then
    if is_unicode then re_parse_error "back reference out of range in regular expression"
    else
      let? (c, p) := of_option (legacy_octal q) in
      term_normal_char is_backward_dir p c None
  else
    let? (start, captures) := atom_start in
    let? _ := re_emit_op_u8 (back_reference_op is_backward_dir (s_ignore_case s)) 1 in
    let? _ := putc c in
    pret (p, start, captures).

Definition term_escape (is_backward_dir : bool) (p : Z) : P atom :=
  let? c := rd (p + 1) in
  let? s := pget in
  let fold_case := s_ignore_case s && is_unicode in
  if c =? 98 then
    let? _ := re_emit_op (reop (if fold_case then REOP_word_boundary_i else REOP_word_boundary)) in no_atom (p + 2)
  else if c =? 66 then
    let? _ := re_emit_op (reop (if fold_case then REOP_not_word_boundary_i else REOP_not_word_boundary)) in
    no_atom (p + 2)
  else if c =? 107 then term_named_reference is_backward_dir p
  else if c =? 48 then term_zero is_backward_dir p
  else if (49 <=? c) && (c <=? 57) then term_number is_backward_dir p
  else term_class_atom is_backward_dir p.

(** *** Groups *)
Section Groups.
Context (re_parse_disjunction : bool -> P unit).

(** [s->buf_ptr = p; if (re_parse_disjunction(s, dir)) return -1; p = s->buf_ptr;] *)
Definition disjunction_at (is_backward_dir : bool) (p : Z) : P Z :=
  let? _ := set_buf_ptr p in
  let? _ := re_parse_disjunction is_backward_dir in
  let? s := pget in
  pret (s_buf_ptr s).
Definition expect_paren (p : Z) : P Z := re_parse_expect p 41 "expecting ')'".

Definition term_plain_group (is_backward_dir : bool) (p : Z) : P atom :=
  let? (start, captures) := atom_start in
  let? p := disjunction_at is_backward_dir (p + 3) in
  let? p := expect_paren p in
  pret (p, start, captures).

Definition term_modifiers (is_backward_dir : bool) (p : Z) : P atom :=
  let? (add_mask, p) := re_parse_modifiers (p + 2) in
  let? b := rd p in
  let? (remove_mask, p) := (if b =? 45 then re_parse_modifiers (p + 1) else pret (0, p)) in
  if ((add_mask =? 0) && (remove_mask =? 0)) || negb (Z.land add_mask remove_mask =? 0)
  then re_parse_error "invalid modifiers"
  else
    let? p := re_parse_expect p 58 "expecting ':'" in
    let? s := pget in
    let? _ := set_modifiers (update_modifier (s_ignore_case s) add_mask remove_mask LRE_FLAG_IGNORECASE)
                (update_modifier (s_multi_line s) add_mask remove_mask LRE_FLAG_MULTILINE)
                (update_modifier (s_dotall s) add_mask remove_mask LRE_FLAG_DOTALL) in
    let? (start, captures) := atom_start in
    let? p := disjunction_at is_backward_dir p in
    let? p := expect_paren p in
    let? _ := set_modifiers (s_ignore_case s) (s_multi_line s) (s_dotall s) in
    pret (p, start, captures).

(** The label [lookahead], [p] after the introduction *)
Definition term_lookahead (is_neg is_backward_lookahead : bool) (p : Z) : P atom :=
  let? (start, captures) :=
    (if negb is_unicode && negb is_backward_lookahead then atom_start else pret (-1, 0)) in
  let? pos := re_emit_op_u32 (reop REOP_lookahead + bz is_neg) 0 in
  let? p := disjunction_at is_backward_lookahead p in
  let? p := expect_paren p in
  let? _ := re_emit_op (reop REOP_lookahead_match + bz is_neg) in
  let? s := pget in
  if db_error (s_byte_code s) then pfail
  else
    let? _ := poke_u32 pos (db_size (s_byte_code s) - (pos + 4)) in
    pret (p, start, captures).

(** The label [parse_capture], after the names have been added: the start of the
    atom and the index of the capture *)
Definition enter_capture (names : P unit) : P (Z * Z) :=
  let? _ := names in
  let? s := pget in
  if CAPTURE_COUNT_MAX <=? s_capture_count s then re_parse_error "too many captures"
  else
    let? (start, capture_index) := atom_start in
    let? _ := set_captures (capture_index + 1) (s_total_capture_count s) (s_has_named_captures s) in
    pret (start, capture_index).
Definition term_capture (names : P unit) (is_backward_dir : bool) (p : Z) : P atom :=
  let? (start, capture_index) := enter_capture names in
  let? _ := re_emit_op_u8 (reop REOP_save_start + bz is_backward_dir) capture_index in
  let? p := disjunction_at is_backward_dir p in
  let? _ := re_emit_op_u8 (reop REOP_save_start + 1 - bz is_backward_dir) capture_index in
  let? p := expect_paren p in
  pret (p, start, capture_index).

Definition add_name (name : list Z) : P unit :=
  let? s := pget in
  let? _ := on_group_names (fun ok gn => dbuf_put ok gn (name ++ [0])) in
  let? _ := on_group_names (fun ok gn => dbuf_putc ok gn (s_group_name_scope s)) in
  set_captures (s_capture_count s) (s_total_capture_count s) 1.
Definition add_no_name : P unit :=
  let? _ := on_group_names (fun ok gn => dbuf_putc ok gn 0) in
  let? _ := on_group_names (fun ok gn => dbuf_putc ok gn 0) in
  pret tt.

Definition term_named_group (is_backward_dir : bool) (p : Z) : P atom :=
  let? r := of_option (re_parse_group_name env_text (p + 3)) in
  match r with
  | None => re_parse_error "invalid group name"
  | Some (name, p) =>
      let? s := pget in
      let? dup := is_duplicate_group_name name (s_group_name_scope s) in
      if dup : bool then re_parse_error "duplicate group name"
      else term_capture (add_name name) is_backward_dir p
  end.

Definition term_group (is_backward_dir : bool) (p : Z) : P atom :=
  let? b1 := rd (p + 1) in
  if b1 =? 63 then
    let? b2 := rd (p + 2) in
    if b2 =? 58 then term_plain_group is_backward_dir p
    else if (b2 =? 105) || (b2 =? 109) || (b2 =? 115) || (b2 =? 45) then term_modifiers is_backward_dir p
    else if (b2 =? 61) || (b2 =? 33) then term_lookahead (b2 =? 33) false (p + 3)
    else if b2 =? 60 then
      let? b3 := rd (p + 3) in
      if (b3 =? 61) || (b3 =? 33) then term_lookahead (b3 =? 33) true (p + 4)
      else term_named_group is_backward_dir p
    else re_parse_error "invalid group"
  else
    term_capture add_no_name is_backward_dir (p + 1).

Definition term_atom (is_backward_dir : bool) (p : Z) : P atom :=
  let? c := rd p in
  let? s := pget in
  if c =? 94 then
    let? _ := re_emit_op (reop (if s_multi_line s then REOP_line_start_m else REOP_line_start)) in no_atom (p + 1)
  else if c =? 36 then
    let? _ := re_emit_op (reop (if s_multi_line s then REOP_line_end_m else REOP_line_end)) in no_atom (p + 1)
  else if c =? 46 then
    let? (start, captures) := atom_start in
    let? _ := emit_prev_if is_backward_dir in
    let? _ := re_emit_op (reop (if s_dotall s then REOP_any else REOP_dot)) in
    let? _ := emit_prev_if is_backward_dir in
    pret (p + 1, start, captures)
  else if c =? 123 then term_brace is_backward_dir p
  else if (c =? 42) || (c =? 43) || (c =? 63) then re_parse_error "nothing to repeat"
  else if c =? 40 then term_group is_backward_dir p
  else if c =? 92 then term_escape is_backward_dir p
  else if c =? 91 then
    let? (start, captures) := atom_start in
    let? _ := emit_prev_if is_backward_dir in
    let? p := re_parse_char_class p in
    let? _ := emit_prev_if is_backward_dir in
    pret (p, start, captures)
  else if (c =? 93) || (c =? 125) then
    if is_unicode then re_parse_error "syntax error" else term_class_atom is_backward_dir p
  else term_class_atom is_backward_dir p.
End Groups.

(** ** Quantifiers *)

(** The bounds and the new pointer; [None] when there is no quantifier, with
    the pointer where it was. *)
Definition parse_count (p : Z) : P (option (Z * Z * Z)) :=
  let? b := rd (p + 1) in
  if negb (is_digit b) then
    if is_unicode then re_parse_error "invalid repetition count" else pret None
  else
    let? (quant_min, p) := of_option (parse_digits env_text (p + 1) true) in
    let? b := rd p in
    let? (quant_max, p) :=
      (if b =? 44 then
         let? b := rd (p + 1) in
         if is_digit b then
           let? (quant_max, p) := of_option (parse_digits env_text (p + 1) true) in
           if quant_max <? quant_min then re_parse_error "invalid repetition count" else pret (quant_max, p)
         else pret (INT32_MAX, p + 1)
       else pret (quant_min, p)) in
    let? b := rd p in
    if negb (b =? 125) && negb is_unicode then pret None
    else
      let? p := re_parse_expect p 125 "expecting '}'" in
      pret (Some (quant_min, quant_max, p)).
Definition parse_quantifier (p : Z) : P (option (Z * Z * Z)) :=
  let? c := rd p in
  if c =? 42 then pret (Some (0, INT32_MAX, p + 1))
  else if c =? 43 then pret (Some (1, INT32_MAX, p + 1))
  else if c =? 63 then pret (Some (0, 1, p + 1))
  else if c =? 123 then parse_count p
  else pret None.

Definition insert_save_reset (pos captures : Z) : P unit :=
  let? _ := insert_or_fail pos 3 in
  let? s := pget in
  pokes pos [reop REOP_save_reset; captures; s_capture_count s - 1].

(** [REOP_set_i32], [quant_max] and the position register, from [pos] on *)
Definition loop_prologue (quant_max : Z) (check : bool) : list Z :=
  [reop REOP_set_i32; 0] ++ le_bytes 4 (u32 quant_max) ++ (if check then [reop REOP_set_char_pos; 0] else []).
Definition emit_loop_split (greedy check : bool) (quant_max start : Z) : P unit :=
  let? _ := re_emit_goto_u8_u32
    (reop (if check then REOP_loop_check_adv_split_next_first else REOP_loop_split_next_first) - bz greedy)
    0 quant_max start in
  pret tt.

(** [quant_min == 0], the atom of [len] bytes at [start] *)
Definition quantify_optional (start len quant_max : Z) (greedy check : bool) : P unit :=
  if quant_max =? 0 then
    let? s := pget in set_code (take (Z.to_nat start) (db_data (s_byte_code s)))
  else if (quant_max =? 1) || (quant_max =? INT32_MAX) then
    let has_goto := quant_max =? INT32_MAX in
    let? _ := insert_or_fail start (5 + bz check * 2) in
    let? _ := poke start (reop REOP_split_goto_first + bz greedy) in
    let? _ := poke_u32 (start + 1) (len + 5 * bz has_goto + bz check * 2 * 2) in
    let? _ := (if check then
                 let? _ := pokes (start + 1 + 4) [reop REOP_set_char_pos; 0] in
                 re_emit_op_u8 (reop REOP_check_advance) 0
               else pret tt) in
    if has_goto then let? _ := re_emit_goto (reop REOP_goto) start in pret tt else pret tt
  else
    let? _ := insert_or_fail start (11 + bz check * 2) in
    let? _ := poke start (reop REOP_split_goto_first + bz greedy) in
    let? _ := poke_u32 (start + 1) (6 + bz check * 2 + len + 10) in
    let? _ := pokes (start + 5) (loop_prologue quant_max check) in
    emit_loop_split greedy check quant_max (start + 11).

(** [quant_min >= 1] *)
Definition quantify_repeated (start quant_min quant_max : Z) (greedy check : bool) : P unit :=
  if (quant_min =? 1) && (quant_max =? INT32_MAX) && negb check then
    let? _ := re_emit_goto (reop REOP_split_next_first - bz greedy) start in pret tt
  else
    let check := if quant_min =? quant_max then false else check in
    let? _ := insert_or_fail start (6 + bz check * 2) in
    let? _ := pokes start (loop_prologue quant_max check) in
    let start := start + 6 in
    if quant_min =? quant_max then let? _ := re_emit_goto_u8 (reop REOP_loop) 0 start in pret tt
    else emit_loop_split greedy check (quant_max - quant_min) start.

Definition quantify (start captures quant_min quant_max : Z) (greedy : bool) : P unit :=
  let? s := pget in
  let? (check, need_capture_init) :=
    of_option (re_need_check_adv_and_capture_init (drop (Z.to_nat start) (db_data (s_byte_code s)))) in
  let has_captures := negb (captures =? s_capture_count s) in
  let? _ := (if need_capture_init && has_captures then insert_save_reset start captures else pret tt) in
  let? size := code_size in
  let len := size - start in
  if quant_min =? 0 then
    if negb need_capture_init && has_captures then
      let? _ := insert_save_reset start captures in
      quantify_optional (start + 3) len quant_max greedy check
    else quantify_optional start len quant_max greedy check
  else quantify_repeated start quant_min quant_max greedy check.

(** ** Terms, alternatives, disjunctions *)
Section Terms.
Context (re_parse_disjunction : bool -> P unit).

Definition re_parse_term (is_backward_dir : bool) : P unit :=
  let? s := pget in
  let? (p, start, captures) := term_atom re_parse_disjunction is_backward_dir (s_buf_ptr s) in
  if start <? 0 then set_buf_ptr p
  else
    let? q := parse_quantifier p in
    match q with
    | None => set_buf_ptr p
    | Some (quant_min, quant_max, p) =>
        let? b := rd p in
        let greedy := negb (b =? 63) in
        let? _ := quantify start captures quant_min quant_max greedy in
        set_buf_ptr (if greedy then p else p + 1)
    end.

(** The last [term_size] bytes go to the front of the alternative. *)
Definition move_term (start term_start : Z) : P unit :=
  let? end_ := code_size in
  let term_size := end_ - term_start in
  if (term_start <? start) || (term_size <? 0) then pwrong
  else
    let? ok := on_byte_code (fun ok bc => dbuf_claim ok bc term_size) in
    if negb ok then pfail
    else
      let? s := pget in
      let l := db_data (s_byte_code s) in
      let rest := drop (Z.to_nat start) l in
      let n := Z.to_nat (term_start - start) in
      set_code (take (Z.to_nat start) l ++ drop n rest ++ take n rest).

Fixpoint re_parse_alternative (fuel : nat) (is_backward_dir : bool) (start : Z) : P unit :=
  match fuel with
  | O => pfuel
  | S fuel =>
      let? s := pget in
      if buf_end <=? s_buf_ptr s then pret tt
      else
        let? b := rd (s_buf_ptr s) in
        if (b =? 124) || (b =? 41) then pret tt
        else
          let? term_start := code_size in
          let? _ := re_parse_term is_backward_dir in
          let? _ := (if is_backward_dir then move_term start term_start else pret tt) in
          re_parse_alternative fuel is_backward_dir start
  end.
Definition alternative (is_backward_dir : bool) : P unit :=
  let? start := code_size in re_parse_alternative (S (length env_text)) is_backward_dir start.

Fixpoint disjunction_loop (fuel : nat) (is_backward_dir : bool) (start : Z) : P unit :=
  match fuel with
  | O => pfuel
  | S fuel =>
      let? s := pget in
      let? b := rd (s_buf_ptr s) in
      if negb (b =? 124) then pret tt
      else
        let? _ := set_buf_ptr (s_buf_ptr s + 1) in
        let? size := code_size in
        let len := size - start in
        let? _ := insert_or_fail start 5 in
        let? _ := poke start (reop REOP_split_next_first) in
        let? _ := poke_u32 (start + 1) (len + 5) in
        let? pos := re_emit_op_u32 (reop REOP_goto) 0 in
        let? s := pget in
        let? _ := set_group_name_scope (u8 (s_group_name_scope s + 1)) in
        let? _ := alternative is_backward_dir in
        let? size := code_size in
        let? _ := poke_u32 pos (size - (pos + 4)) in
        disjunction_loop fuel is_backward_dir start
  end.
End Terms.

Fixpoint re_parse_disjunction (fuel : nat) (is_backward_dir : bool) : P unit :=
  match fuel with
  | O => pfuel
  | S fuel =>
      let? _ := check_stack_overflow in
      let? start := code_size in
      let? _ := alternative (re_parse_disjunction fuel) is_backward_dir in
      disjunction_loop (re_parse_disjunction fuel) (S (length env_text)) is_backward_dir start
  end.

(** [lre_compile], after the initialization of the state: first the code *)
Definition compile_code (re_flags : Z) : P unit :=
  let? _ := put_u16 re_flags in
  let? _ := putc 0 in
  let? _ := putc 0 in
  let? _ := put_u32 0 in
  let? _ := (if Z.land re_flags LRE_FLAG_STICKY =? 0 then
               let? _ := re_emit_op_u32 (reop REOP_split_goto_first) (1 + 5) in
               let? _ := re_emit_op (reop REOP_any) in
               let? _ := re_emit_op_u32 (reop REOP_goto) (- (5 + 1 + 5)) in
               pret tt
             else pret tt) in
  let? _ := re_emit_op_u8 (reop REOP_save_start) 0 in
  let? _ := re_parse_disjunction (S (length env_text)) false in
  let? _ := re_emit_op_u8 (reop REOP_save_end) 0 in
  re_emit_op (reop REOP_match).
Definition write_header (capture_count register_count : Z) : P unit :=
  let? _ := poke RE_HEADER_CAPTURE_COUNT capture_count in
  let? _ := poke RE_HEADER_REGISTER_COUNT register_count in
  let? size := code_size in
  poke_u32 RE_HEADER_BYTECODE_LEN (size - RE_HEADER_LEN).
(** The names go behind the bytecode, whether or not there is memory. *)
Definition append_names (names : DynBuf) : P unit :=
  let? _ := on_byte_code (fun ok bc => dbuf_put ok bc (db_data names)) in
  let? s := pget in
  let? flags := of_option (lre_get_flags (db_data (s_byte_code s))) in
  pokes RE_HEADER_FLAGS (le_bytes 2 (u16 (Z.lor flags LRE_FLAG_NAMED_GROUPS))).
(** then the checks, the registers, the header and the names *)
Definition compile_finish : P (list Z) :=
  let? s := pget in
  let? b := rd (s_buf_ptr s) in
  if negb (b =? 0) then re_parse_error "extraneous characters at the end"
  else if db_error (s_byte_code s) then re_parse_out_of_memory
  else
    let? (bc, register_count) := of_option (compute_register_count (db_data (s_byte_code s))) in
    let? _ := set_code bc in
    if register_count <? 0 then re_parse_error "too many imbricated quantifiers"
    else
      let? _ := write_header (s_capture_count s) register_count in
      let names := s_group_names s in
      let? _ := (if (s_capture_count s - 1) * LRE_GROUP_NAME_TRAILER_LEN <? db_size names then append_names names
                 else pret tt) in
      let? s := pget in
      pret (db_data (s_byte_code s)).
Definition compile_body (re_flags : Z) : P (list Z) :=
  let? _ := compile_code re_flags in compile_finish.
End Compile.

(** [lre_compile(plen, error_msg, error_msg_size, buf, buf_len, re_flags,
    opaque)], [buf] without its NUL: the bytecode. *)
Definition re_state0 (re_flags : Z) : REParseState :=
  mk_pstate dbuf_init 0 (negb (Z.land re_flags LRE_FLAG_IGNORECASE =? 0))
    (negb (Z.land re_flags LRE_FLAG_MULTILINE =? 0)) (negb (Z.land re_flags LRE_FLAG_DOTALL =? 0))
    0 1 (-1) (-1) dbuf_init 0.
Definition re_env (buf : list Z) (re_flags : Z) (mem : nat -> Z -> bool) (overflow : nat -> bool) : ReEnv := {|
  env_text := buf ++ [0];
  env_is_unicode := negb (Z.land re_flags (Z.lor LRE_FLAG_UNICODE LRE_FLAG_UNICODE_SETS) =? 0);
  env_unicode_sets := negb (Z.land re_flags LRE_FLAG_UNICODE_SETS =? 0);
  env_realloc := mem;
  env_stack_overflow := overflow;
|}.
Definition lre_compile `{UnicodeDb} (buf : list Z) (re_flags : Z) (mem : nat -> Z -> bool)
    (overflow : nat -> bool) : presult (list Z) :=
  compile_body (H := re_env buf re_flags mem overflow) re_flags (re_state0 re_flags).

(** A database without properties, for the examples. *)
Definition no_unicode : UnicodeDb := {|
  unicode_script _ cr _ _ := Some (cr, -2);
  unicode_general_category _ cr _ := (cr, -2);
  unicode_prop _ cr _ := (cr, -2);
  unicode_sequence_prop _ _ := ([], -2);
|}.
Definition compile_string (s : string) (flags : Z) : presult (list Z) :=
  @lre_compile no_unicode (bytes_of_string s) flags (fun _ _ => true) (fun _ => false).
