(* ===== verification/RegexpBlock.v ===== *)
(** * Blocks of bytecode

    The compiler builds bytecode from blocks that it appends, moves, wraps and
    joins with relative jumps.  Here a block is a list of instructions, and
    [block] says when it is well typed wherever it is placed: its jumps reach
    the start of an instruction of the block or its end, in the same
    lookaheads, it releases the registers it allocates, and the captures it
    names are below a bound.  The combinators are the compiler's, and
    [block_checked] is the bridge to the checker [re_check]. *)
From S2P Require Import Prelude Sort Cutils Utf8 CharRange UnicodeTables UnicodeCase UnicodeCaseProps UnicodeProp.
From S2P Require Import Regexp RegexpSim RegexpUndo RegexpSearch RegexpRange RegexpType RegexpRegs RegexpParse RegexpCompile.

(** ** Instructions *)
Record insn := mk_insn { i_op : REOPCodeEnum; i_args : list Z }.
Definition insn_bytes (i : insn) : list Z := reop (i_op i) :: i_args i.
Definition ilen (i : insn) : Z := 1 + Z.of_nat (length (i_args i)).
Definition code_bytes (bl : list insn) : list Z := concat (insn_bytes <$> bl).
Definition clen (bl : list insn) : Z := Z.of_nat (length (code_bytes bl)).

(** The instruction has the length that the executor gives it. *)
Definition insn_wf (i : insn) : Prop :=
  Forall is_byte (i_args i) /\
  exists n e, reopcode_size (reop (i_op i)) = Some n /\ instr_extra (insn_bytes i) (i_op i) 0 = Some e /\ n + e = ilen i.

Lemma opcode_of_reop op : opcode_of (reop op) = Some op.
Proof. by destruct op. Qed.
Lemma reop_byte op : is_byte (reop op).
Proof. unfold is_byte. by destruct op. Qed.

Lemma code_bytes_app is1 is2 : code_bytes (is1 ++ is2) = code_bytes is1 ++ code_bytes is2.
Proof. unfold code_bytes. by rewrite fmap_app, concat_app. Qed.
Lemma code_bytes_cons i bl : code_bytes (i :: bl) = insn_bytes i ++ code_bytes bl.
Proof. done. Qed.
Lemma clen_app is1 is2 : clen (is1 ++ is2) = clen is1 + clen is2.
Proof. unfold clen. rewrite code_bytes_app, length_app. lia. Qed.
Lemma clen_cons i bl : clen (i :: bl) = ilen i + clen bl.
Proof. unfold clen, ilen. rewrite code_bytes_cons, length_app. cbn. lia. Qed.
Lemma clen_nil : clen [] = 0.
Proof. done. Qed.
Lemma insns_length l : (length l <= length (code_bytes l))%nat.
Proof. induction l as [|i l IH]; [done|]. rewrite code_bytes_cons, length_app. cbn [length insn_bytes]. lia. Qed.
Lemma clen_nonneg bl : 0 <= clen bl.
Proof. unfold clen. lia. Qed.
Lemma ilen_pos i : 1 <= ilen i.
Proof. unfold ilen. lia. Qed.

(** ** Where the instructions start, and in which lookaheads *)
Fixpoint starts (o : Z) (c : lctx) (bl : list insn) : list (Z * lctx) :=
  match bl with
  | [] => [(o, c)]
  | i :: bl => (o, c) :: starts (o + ilen i) (ctx_after (i_op i) c) bl
  end.
Fixpoint end_ctx (c : lctx) (bl : list insn) : lctx :=
  match bl with [] => c | i :: bl => end_ctx (ctx_after (i_op i) c) bl end.
(** The registers in use after the instructions, from [d] on. *)
Fixpoint depth (d : Z) (bl : list insn) : option Z :=
  match bl with
  | [] => Some d
  | i :: bl =>
      match reg_action_of (i_op i) with
      | RegPush => depth (d + 1) bl
      | RegPop n => if d <? n then None else depth (d - n) bl
      | RegNone => depth d bl
      end
  end.

Lemma end_ctx_app c is1 is2 : end_ctx c (is1 ++ is2) = end_ctx (end_ctx c is1) is2.
Proof. revert c. induction is1; intros c; cbn; auto. Qed.
Lemma depth_app d is1 is2 : depth d (is1 ++ is2) = d' ← depth d is1; depth d' is2.
Proof.
  revert d. induction is1 as [|i is1 IH]; intros d; cbn; [done|].
  destruct (reg_action_of (i_op i)); [apply IH| |apply IH]. destruct (d <? n); [done|apply IH].
Qed.

(** [M] holds where the instructions of a block start, and at its end. *)
Definition covers (M : Z -> lctx -> Prop) (o : Z) (c : lctx) (bl : list insn) : Prop :=
  forall p c', (p, c') ∈ starts o c bl -> M p c'.

Lemma covers_nil M o c : covers M o c [] <-> M o c.
Proof.
  split; [intros Hc; apply Hc; left|]. intros HM p c' Hin. cbn in Hin.
  apply list_elem_of_singleton in Hin. by injection Hin as -> ->.
Qed.
Lemma covers_cons M o c i bl :
  covers M o c (i :: bl) <-> M o c /\ covers M (o + ilen i) (ctx_after (i_op i) c) bl.
Proof.
  split.
  - intros Hc. split; [apply Hc; left|]. intros p c' Hin. apply Hc. by right.
  - intros [HM Hc] p c' [[= -> ->]|Hin]%elem_of_cons; [done|by apply Hc].
Qed.
Lemma covers_app M o c is1 is2 :
  covers M o c (is1 ++ is2) <-> covers M o c is1 /\ covers M (o + clen is1) (end_ctx c is1) is2.
Proof.
  revert o c. induction is1 as [|i is1 IH]; intros o c.
  - cbn [app end_ctx]. rewrite clen_nil, Z.add_0_r, covers_nil. split; [|tauto]. intros Hc. split; [|done].
    destruct is2; [by apply covers_nil in Hc|]. by apply covers_cons in Hc as [? _].
  - cbn [app end_ctx]. rewrite !covers_cons, IH, clen_cons, Z.add_assoc. tauto.
Qed.
Lemma covers_start M o c bl : covers M o c bl -> M o c.
Proof. destruct bl; intros Hc; [by apply covers_nil in Hc|]. by apply covers_cons in Hc as [? _]. Qed.
Lemma covers_end M o c bl : covers M o c bl -> M (o + clen bl) (end_ctx c bl).
Proof.
  intros Hc. rewrite <- (app_nil_r bl) in Hc. apply covers_app in Hc as [_ Hc]. by apply covers_nil in Hc.
Qed.

(** ** Typing *)

(** Control goes on to the next instruction, or also to the target of the jump
    whose operand is at this place. *)
Definition falls (op : REOPCodeEnum) : bool :=
  match op with
  | REOP_invalid | REOP_match | REOP_goto | REOP_lookahead_match | REOP_negative_lookahead_match => false
  | _ => true
  end.
Definition jump_at (op : REOPCodeEnum) : option Z :=
  match op with
  | REOP_goto | REOP_split_goto_first | REOP_split_next_first | REOP_lookahead | REOP_negative_lookahead => Some 0
  | REOP_loop => Some 1
  | REOP_loop_split_goto_first | REOP_loop_split_next_first
  | REOP_loop_check_adv_split_goto_first | REOP_loop_check_adv_split_next_first => Some 5
  | _ => None
  end.
Definition operands_ok (cc : Z) (op : REOPCodeEnum) (args : list Z) (c : lctx) : Prop :=
  match op with
  | REOP_invalid | REOP_match => False
  | REOP_lookahead_match => exists c', c = false :: c'
  | REOP_negative_lookahead_match => exists c', c = true :: c'
  | REOP_save_start | REOP_save_end => exists v, byte_at args 0 = Some v /\ v < cc
  | REOP_save_reset => exists v, byte_at args 1 = Some v /\ v < cc
  | REOP_range | REOP_range_i | REOP_range32 | REOP_range32_i => exists n, get_u16 args 0 = Some n /\ 1 <= n
  | _ => True
  end.
Definition insn_ok (M : Z -> lctx -> Prop) (cc o : Z) (c : lctx) (i : insn) : Prop :=
  let next := o + ilen i in
  (falls (i_op i) = true -> M next (ctx_after (i_op i) c)) /\
  (forall k, jump_at (i_op i) = Some k -> exists v, get_u32 (i_args i) k = Some v /\ M (next + i32 v) c) /\
  operands_ok cc (i_op i) (i_args i) c.
Fixpoint all_ok (M : Z -> lctx -> Prop) (cc o : Z) (c : lctx) (bl : list insn) : Prop :=
  match bl with
  | [] => True
  | i :: bl => insn_ok M cc o c i /\ all_ok M cc (o + ilen i) (ctx_after (i_op i) c) bl
  end.

Lemma all_ok_app M cc o c is1 is2 :
  all_ok M cc o c (is1 ++ is2) <-> all_ok M cc o c is1 /\ all_ok M cc (o + clen is1) (end_ctx c is1) is2.
Proof.
  revert o c. induction is1 as [|i is1 IH]; intros o c; cbn [app all_ok end_ctx].
  - rewrite clen_nil, Z.add_0_r. tauto.
  - rewrite IH, clen_cons, Z.add_assoc. tauto.
Qed.
Lemma operands_ok_mono cc cc' op args c : cc <= cc' -> operands_ok cc op args c -> operands_ok cc' op args c.
Proof. intros Hle. destruct op; cbn; try done; intros (v & ? & ?); exists v; split; done || lia. Qed.
Lemma all_ok_mono M cc cc' o c bl : cc <= cc' -> all_ok M cc o c bl -> all_ok M cc' o c bl.
Proof.
  intros Hle. revert o c. induction bl as [|i bl IH]; intros o c; cbn; [done|].
  intros [(Hf & Hj & Ho) H]. split; [|by apply IH]. split_and!; [done|done|]. by eapply operands_ok_mono.
Qed.

(** A block with captures below [cc]. *)
Record block (cc : Z) (bl : list insn) : Prop := {
  block_wf : Forall insn_wf bl;
  block_depth : forall d, 0 <= d -> depth d bl = Some d;
  block_ctx : forall c, end_ctx c bl = c;
  block_ok : forall M o c, covers M o c bl -> all_ok M cc o c bl;
}.

Lemma block_nil cc : block cc [].
Proof. by split. Qed.
Lemma block_mono cc cc' bl : cc <= cc' -> block cc bl -> block cc' bl.
Proof. intros Hle [? ? ? Hok]. split; try done. intros. eapply all_ok_mono; [done|]. by apply Hok. Qed.
Lemma block_app cc is1 is2 : block cc is1 -> block cc is2 -> block cc (is1 ++ is2).
Proof.
  intros [Hw1 Hd1 Hc1 Ho1] [Hw2 Hd2 Hc2 Ho2]. split.
  - by apply Forall_app.
  - intros d Hd. rewrite depth_app, Hd1 by done. by apply Hd2.
  - intros c. by rewrite end_ctx_app, Hc1.
  - intros M o c [H1 H2]%covers_app. apply all_ok_app. split; [by apply Ho1|by apply Ho2].
Qed.

(** Instructions that only go on. *)
Definition straight (op : REOPCodeEnum) : bool :=
  match op with
  | REOP_char | REOP_char_i | REOP_char32 | REOP_char32_i | REOP_dot | REOP_any | REOP_space | REOP_not_space
  | REOP_line_start | REOP_line_start_m | REOP_line_end | REOP_line_end_m
  | REOP_save_start | REOP_save_end | REOP_save_reset
  | REOP_word_boundary | REOP_word_boundary_i | REOP_not_word_boundary | REOP_not_word_boundary_i
  | REOP_back_reference | REOP_back_reference_i | REOP_backward_back_reference | REOP_backward_back_reference_i
  | REOP_range | REOP_range_i | REOP_range32 | REOP_range32_i | REOP_prev => true
  | _ => false
  end.
Lemma block_straight cc i : straight (i_op i) = true -> insn_wf i ->
  (forall c, operands_ok cc (i_op i) (i_args i) c) -> block cc [i].
Proof.
  intros Hs Hw Ho. split; [by apply Forall_singleton|..].
  - intros d _. by destruct i as [[] args].
  - intros c. by destruct i as [[] args].
  - intros M o c Hc. apply covers_cons in Hc as [_ Hc]. apply covers_nil in Hc.
    split; [|done]. split_and!; [done| |apply Ho]. by destruct i as [[] args].
Qed.

(** ** Jumps *)
Lemma i32_u32 v : i32 (u32 v) = i32 v.
Proof. unfold i32, u32. f_equal. rewrite Zplus_mod_idemp_l. done. Qed.
Lemma le_bytes4 v : 0 <= v < 2 ^ 32 ->
  exists a b c d, le_bytes 4 v = [a; b; c; d] /\ is_byte a /\ is_byte b /\ is_byte c /\ is_byte d /\
    a + Z.shiftl b 8 + Z.shiftl c 16 + Z.shiftl d 24 = v.
Proof.
  intros Hv. cbn [le_bytes]. eexists _, _, _, _. split; [done|]. unfold is_byte.
  rewrite !Z.shiftl_mul_pow2 by lia. repeat split; Z.to_euclidean_division_equations; lia.
Qed.
Lemma le_bytes4_bytes v : Forall is_byte (le_bytes 4 (u32 v)).
Proof.
  destruct (le_bytes4 (u32 v) (u32_range v)) as (a & b & c & d & -> & ? & ? & ? & ? & _). by rewrite !Forall_cons, Forall_nil.
Qed.
Lemma le_bytes_length n v : length (le_bytes n v) = n.
Proof. revert v. induction n; intros v; cbn; auto. Qed.
Lemma byte_at_app_r l1 l2 k : 0 <= k -> byte_at (l1 ++ l2) (Z.of_nat (length l1) + k) = byte_at l2 k.
Proof.
  intros Hk. unfold byte_at. rewrite !(proj2 (Z.ltb_ge _ _)) by lia.
  rewrite lookup_app_r by lia. f_equal. lia.
Qed.
Lemma byte_at_app_l l1 l2 k : k < Z.of_nat (length l1) -> byte_at (l1 ++ l2) k = byte_at l1 k.
Proof.
  intros Hk. unfold byte_at. destruct (Z.ltb_spec k 0); [done|]. rewrite lookup_app_l by lia. done.
Qed.
Lemma get_u32_le l1 l2 v : get_u32 (l1 ++ le_bytes 4 (u32 v) ++ l2) (Z.of_nat (length l1)) = Some (u32 v).
Proof.
  destruct (le_bytes4 (u32 v) (u32_range v)) as (a & b & c & d & -> & _ & _ & _ & _ & E). unfold get_u32.
  replace (Z.of_nat (length l1)) with (Z.of_nat (length l1) + 0) at 1 by lia.
  rewrite !byte_at_app_r by lia. cbn -[Z.shiftl Z.add]. by rewrite <- E.
Qed.
Lemma get_u32_le0 v : get_u32 (le_bytes 4 (u32 v)) 0 = Some (u32 v).
Proof. rewrite <- (app_nil_r (le_bytes 4 _)). apply (get_u32_le []). Qed.

Definition jmp (op : REOPCodeEnum) (v : Z) : insn := mk_insn op (le_bytes 4 (u32 v)).
Definition set_i32 (n : Z) : insn := mk_insn REOP_set_i32 (0 :: le_bytes 4 (u32 n)).
Definition loop_jmp (v : Z) : insn := mk_insn REOP_loop (0 :: le_bytes 4 (u32 v)).
Definition loop_split (op : REOPCodeEnum) (n v : Z) : insn :=
  mk_insn op (0 :: le_bytes 4 (u32 n) ++ le_bytes 4 (u32 v)).
Definition small (v : Z) : Prop := - 2 ^ 31 <= v < 2 ^ 31.

Lemma insn_wf_jmp op v : jump_at op = Some 0 -> insn_wf (jmp op v).
Proof.
  intros Hj. split; [apply le_bytes4_bytes|]. exists 5, 0. unfold ilen. cbn [i_args jmp]. rewrite le_bytes_length.
  by destruct op.
Qed.
Lemma insn_wf_set_i32 n : insn_wf (set_i32 n).
Proof.
  split; [constructor; [done|apply le_bytes4_bytes]|]. exists 6, 0. unfold ilen. cbn [i_args set_i32 length].
  by rewrite le_bytes_length.
Qed.
Lemma insn_wf_loop v : insn_wf (loop_jmp v).
Proof.
  split; [constructor; [done|apply le_bytes4_bytes]|]. exists 6, 0. unfold ilen. cbn [i_args loop_jmp length].
  by rewrite le_bytes_length.
Qed.
Lemma insn_wf_loop_split op n v : jump_at op = Some 5 -> insn_wf (loop_split op n v).
Proof.
  intros Hj. split; [constructor; [done|]; apply Forall_app; split; apply le_bytes4_bytes|]. exists 10, 0.
  unfold ilen. cbn [i_args loop_split length]. rewrite length_app, !le_bytes_length. by destruct op.
Qed.
Lemma insn_wf_reg op : uses_reg op = true -> reopcode_size (reop op) = Some 2 -> insn_wf (mk_insn op [0]).
Proof. intros Hu Hs. split; [by apply Forall_singleton|]. exists 2, 0. by destruct op. Qed.

Lemma ilen_jmp op v : ilen (jmp op v) = 5.
Proof. unfold ilen. cbn [i_args jmp]. by rewrite le_bytes_length. Qed.
Lemma ilen_set_i32 n : ilen (set_i32 n) = 6.
Proof. unfold ilen. cbn [i_args set_i32 length]. by rewrite le_bytes_length. Qed.
Lemma ilen_loop v : ilen (loop_jmp v) = 6.
Proof. unfold ilen. cbn [i_args loop_jmp length]. by rewrite le_bytes_length. Qed.
Lemma ilen_loop_split op n v : ilen (loop_split op n v) = 10.
Proof. unfold ilen. cbn [i_args loop_split length]. by rewrite length_app, !le_bytes_length. Qed.

Lemma jump_small (M : Z -> lctx -> Prop) args k next v c :
  small v -> get_u32 args k = Some (u32 v) -> M (next + v) c ->
  exists v, get_u32 args k = Some v /\ M (next + i32 v) c.
Proof. intros Hv E HM. exists (u32 v). split; [done|]. by rewrite i32_u32, i32_id by done. Qed.

Lemma insn_ok_jmp M cc o c op v : jump_at op = Some 0 -> small v -> M (o + 5 + v) c ->
  (falls op = true -> M (o + 5) (ctx_after op c)) -> insn_ok M cc o c (jmp op v).
Proof.
  intros Hj Hv HM Hf. unfold insn_ok. rewrite ilen_jmp. cbn [i_op jmp i_args]. split_and!; [done| |by destruct op].
  intros k Hk. rewrite Hj in Hk. injection Hk as <-. eapply jump_small; [done|apply get_u32_le0|done].
Qed.
Lemma insn_ok_loop M cc o c v : small v -> M (o + 6 + v) c -> M (o + 6) c -> insn_ok M cc o c (loop_jmp v).
Proof.
  intros Hv HM Hf. unfold insn_ok. rewrite ilen_loop. cbn [i_op loop_jmp i_args]. split_and!; [done| |done].
  intros k [= <-]. eapply jump_small; [done| |done].
  pose proof (get_u32_le [0] [] v) as E. by rewrite app_nil_r in E.
Qed.
Lemma insn_ok_loop_split M cc o c op n v : jump_at op = Some 5 -> small v -> M (o + 10 + v) c -> M (o + 10) c ->
  insn_ok M cc o c (loop_split op n v).
Proof.
  intros Hj Hv HM Hf. unfold insn_ok. rewrite ilen_loop_split. cbn [i_op loop_split i_args].
  split_and!; [by destruct op| |by destruct op].
  intros k Hk. rewrite Hj in Hk. injection Hk as <-. eapply jump_small; [done| |done].
  pose proof (get_u32_le (0 :: le_bytes 4 (u32 n)) [] v) as E. rewrite app_nil_r in E.
  cbn [length] in E. by rewrite le_bytes_length in E.
Qed.

(** ** The compiler's combinators *)
Ltac block_cover Hc := repeat (rewrite ?covers_cons, ?covers_app, ?covers_nil in Hc;
  rewrite ?ilen_jmp, ?ilen_loop, ?ilen_set_i32, ?ilen_loop_split in Hc; cbn [i_op jmp set_i32 loop_jmp loop_split ctx_after] in Hc).
Ltac all_ok_split := repeat (rewrite ?all_ok_app; cbn [all_ok i_op jmp set_i32 loop_jmp loop_split ctx_after];
  rewrite ?ilen_jmp, ?ilen_loop, ?ilen_set_i32, ?ilen_loop_split).
Ltac at_pos H := match type of H with ?M ?p ?c => match goal with |- M ?q c => replace q with p by lia; exact H end end.

(** Alternatives: try [b1], then [b2]. *)
Lemma block_alt cc b1 b2 : block cc b1 -> block cc b2 -> clen b1 + 5 < 2 ^ 31 -> clen b2 < 2 ^ 31 ->
  block cc (jmp REOP_split_next_first (clen b1 + 5) :: b1 ++ jmp REOP_goto (clen b2) :: b2).
Proof.
  intros H1 H2 S1 S2. pose proof (clen_nonneg b1). pose proof (clen_nonneg b2). split.
  - apply Forall_cons. split; [by apply insn_wf_jmp|]. apply Forall_app. split; [apply H1|].
    apply Forall_cons. split; [by apply insn_wf_jmp|apply H2].
  - intros d Hd. cbn [depth jmp i_op reg_action_of]. rewrite depth_app, (block_depth _ _ H1) by done. bind.
    cbn [depth i_op reg_action_of]. by apply H2.
  - intros c. cbn [end_ctx jmp i_op ctx_after]. rewrite end_ctx_app. cbn [end_ctx i_op ctx_after].
    by rewrite (block_ctx _ _ H1), (block_ctx _ _ H2).
  - intros M o c Hc. block_cover Hc. rewrite (block_ctx _ _ H1) in Hc. destruct Hc as (_ & Hc1 & Hm & Hc2).
    pose proof (covers_start _ _ _ _ Hc1) as Hs1. pose proof (covers_start _ _ _ _ Hc2) as Hs2.
    pose proof (covers_end _ _ _ _ Hc2) as He2. rewrite (block_ctx _ _ H2) in He2.
    all_ok_split. rewrite (block_ctx _ _ H1).
    split_and!; [|by apply H1| |by apply H2].
    + apply insn_ok_jmp; [done|unfold small; lia|at_pos Hs2|done].
    + apply insn_ok_jmp; [done|unfold small; lia|at_pos He2|done].
Qed.

Definition lookahead_op (neg : bool) : REOPCodeEnum := if neg then REOP_negative_lookahead else REOP_lookahead.
Definition lookahead_end (neg : bool) : insn :=
  mk_insn (if neg then REOP_negative_lookahead_match else REOP_lookahead_match) [].
Lemma block_lookahead cc neg b : block cc b -> clen b + 1 < 2 ^ 31 ->
  block cc (jmp (lookahead_op neg) (clen b + 1) :: b ++ [lookahead_end neg]).
Proof.
  intros Hb S. pose proof (clen_nonneg b). split.
  - apply Forall_cons. split; [apply insn_wf_jmp; by destruct neg|]. apply Forall_app. split; [apply Hb|].
    apply Forall_singleton. split; [done|]. exists 1, 0. by destruct neg.
  - intros d Hd. cbn [depth jmp i_op]. replace (reg_action_of (lookahead_op neg)) with RegNone by by destruct neg.
    rewrite depth_app, (block_depth _ _ Hb) by done. by destruct neg.
  - intros c. cbn [end_ctx jmp i_op]. rewrite end_ctx_app, (block_ctx _ _ Hb). by destruct neg.
  - intros M o c Hc. block_cover Hc. rewrite (block_ctx _ _ Hb) in Hc. destruct Hc as (_ & Hc1 & _ & He).
    all_ok_split. rewrite (block_ctx _ _ Hb). split_and!; [|by apply Hb| |done].
    + apply insn_ok_jmp; [by destruct neg|unfold small; lia| |intros _; by apply covers_start in Hc1].
      replace (o + 5 + (clen b + 1)) with (o + 5 + clen b + ilen (lookahead_end neg)) by (unfold ilen; destruct neg; cbn; lia).
      by destruct neg.
    + split_and!; [by destruct neg|by destruct neg|destruct neg; cbn; by eexists].
Qed.

(** The position register around [b]. *)
Definition set_pos : insn := mk_insn REOP_set_char_pos [0].
Definition check_adv : insn := mk_insn REOP_check_advance [0].
Lemma block_check_advance cc b : block cc b -> block cc (set_pos :: b ++ [check_adv]).
Proof.
  intros Hb. split.
  - apply Forall_cons. split; [by apply insn_wf_reg|]. apply Forall_app. split; [apply Hb|].
    apply Forall_singleton. by apply insn_wf_reg.
  - intros d Hd. cbn [depth set_pos i_op reg_action_of]. rewrite depth_app, (block_depth _ _ Hb) by lia. bind.
    cbn [depth check_adv i_op reg_action_of]. rewrite (proj2 (Z.ltb_ge _ _)) by lia. f_equal. lia.
  - intros c. cbn [end_ctx set_pos i_op ctx_after]. by rewrite end_ctx_app, (block_ctx _ _ Hb).
  - intros M o c Hc. block_cover Hc. cbn [set_pos check_adv i_op ctx_after] in Hc. rewrite (block_ctx _ _ Hb) in Hc.
    destruct Hc as (_ & Hc1 & _ & He). all_ok_split. cbn [set_pos check_adv i_op ctx_after]. rewrite (block_ctx _ _ Hb).
    split_and!; [|by apply Hb| |done].
    + split_and!; [intros _; by apply covers_start in Hc1|done|done].
    + split_and!; [intros _; exact He|done|done].
Qed.

(** Splits over a block: jumps of both splits behave alike here. *)
Definition is_split (op : REOPCodeEnum) : Prop := op = REOP_split_goto_first \/ op = REOP_split_next_first.
Lemma split_facts op : is_split op -> (forall c, ctx_after op c = c) /\ reg_action_of op = RegNone /\ jump_at op = Some 0.
Proof. by intros [-> | ->]. Qed.
Lemma block_skip cc op b : is_split op -> block cc b -> clen b < 2 ^ 31 -> block cc (jmp op (clen b) :: b).
Proof.
  intros Hop Hb S. pose proof (clen_nonneg b). destruct (split_facts op Hop) as (Hctx & Hreg & Hj). split.
  - apply Forall_cons. split; [by apply insn_wf_jmp|apply Hb].
  - intros d Hd. cbn [depth jmp i_op]. rewrite Hreg. by apply Hb.
  - intros c. cbn [end_ctx jmp i_op]. rewrite (block_ctx _ _ Hb). by rewrite Hctx.
  - intros M o c Hc. block_cover Hc. rewrite Hctx in Hc. destruct Hc as (_ & Hc1).
    pose proof (covers_end _ _ _ _ Hc1) as He. rewrite (block_ctx _ _ Hb) in He.
    all_ok_split. rewrite Hctx. split; [|by apply Hb].
    apply insn_ok_jmp; [done|unfold small; lia|exact He|].
    rewrite Hctx. intros _. by apply covers_start in Hc1.
Qed.
Lemma block_star cc op b : is_split op -> block cc b -> clen b + 10 < 2 ^ 31 ->
  block cc (jmp op (clen b + 5) :: b ++ [jmp REOP_goto (- (clen b + 10))]).
Proof.
  intros Hop Hb S. pose proof (clen_nonneg b). destruct (split_facts op Hop) as (Hctx & Hreg & Hj). split.
  - apply Forall_cons. split; [by apply insn_wf_jmp|].
    apply Forall_app. split; [apply Hb|]. apply Forall_singleton. by apply insn_wf_jmp.
  - intros d Hd. cbn [depth jmp i_op]. by rewrite Hreg, depth_app, (block_depth _ _ Hb).
  - intros c. cbn [end_ctx jmp i_op]. rewrite end_ctx_app, (block_ctx _ _ Hb). by rewrite Hctx.
  - intros M o c Hc. block_cover Hc. rewrite Hctx in Hc. rewrite (block_ctx _ _ Hb) in Hc. destruct Hc as (Ho & Hc1 & _ & He).
    all_ok_split. rewrite Hctx, (block_ctx _ _ Hb). split_and!; [|by apply Hb| |done].
    + apply insn_ok_jmp; [done|unfold small; lia|at_pos He|].
      rewrite Hctx. intros _. by apply covers_start in Hc1.
    + apply insn_ok_jmp; [done|unfold small; lia|at_pos Ho|done].
Qed.
Lemma block_plus cc op b : is_split op -> block cc b -> clen b + 5 < 2 ^ 31 ->
  block cc (b ++ [jmp op (- (clen b + 5))]).
Proof.
  intros Hop Hb S. pose proof (clen_nonneg b). destruct (split_facts op Hop) as (Hctx & Hreg & Hj). split.
  - apply Forall_app. split; [apply Hb|]. apply Forall_singleton. by apply insn_wf_jmp.
  - intros d Hd. rewrite depth_app, (block_depth _ _ Hb) by done. bind. cbn [depth jmp i_op]. by rewrite Hreg.
  - intros c. rewrite end_ctx_app, (block_ctx _ _ Hb). cbn. by rewrite Hctx.
  - intros M o c Hc. block_cover Hc. rewrite Hctx, (block_ctx _ _ Hb) in Hc. destruct Hc as (Hc1 & _ & He).
    pose proof (covers_start _ _ _ _ Hc1) as Ho. all_ok_split. rewrite (block_ctx _ _ Hb). split_and!; [by apply Hb| |done].
    apply insn_ok_jmp; [done|unfold small; lia|at_pos Ho|].
    rewrite Hctx. intros _. exact He.
Qed.

(** Loops with a counter: the body runs from after [REOP_set_i32] to the jump. *)
Lemma block_loop cc n b : block cc b -> clen b + 6 < 2 ^ 31 ->
  block cc (set_i32 n :: b ++ [loop_jmp (- (clen b + 6))]).
Proof.
  intros Hb S. pose proof (clen_nonneg b). split.
  - apply Forall_cons. split; [apply insn_wf_set_i32|]. apply Forall_app. split; [apply Hb|].
    apply Forall_singleton, insn_wf_loop.
  - intros d Hd. cbn [depth set_i32 i_op reg_action_of]. rewrite depth_app, (block_depth _ _ Hb) by lia. bind.
    cbn [depth loop_jmp i_op reg_action_of]. rewrite (proj2 (Z.ltb_ge _ _)) by lia. f_equal. lia.
  - intros c. cbn [end_ctx set_i32 i_op ctx_after]. by rewrite end_ctx_app, (block_ctx _ _ Hb).
  - intros M o c Hc. block_cover Hc. rewrite (block_ctx _ _ Hb) in Hc. destruct Hc as (_ & Hc1 & _ & He).
    pose proof (covers_start _ _ _ _ Hc1) as Hs. all_ok_split. rewrite (block_ctx _ _ Hb).
    split_and!; [|by apply Hb| |done].
    + unfold insn_ok. rewrite ilen_set_i32. by split_and!.
    + apply insn_ok_loop; [unfold small; lia|at_pos Hs|exact He].
Qed.
Definition pops (n : Z) (op : REOPCodeEnum) : Prop :=
  jump_at op = Some 5 /\ reg_action_of op = RegPop n /\ (forall c, ctx_after op c = c).
Lemma block_loop_split cc op n m b : pops 1 op -> block cc b -> clen b + 10 < 2 ^ 31 ->
  block cc (set_i32 n :: b ++ [loop_split op m (- (clen b + 10))]).
Proof.
  intros (Hj & Hreg & Hctx) Hb S. pose proof (clen_nonneg b). split.
  - apply Forall_cons. split; [apply insn_wf_set_i32|]. apply Forall_app. split; [apply Hb|].
    apply Forall_singleton. by apply insn_wf_loop_split.
  - intros d Hd. cbn [depth set_i32 i_op reg_action_of]. rewrite depth_app, (block_depth _ _ Hb) by lia. bind.
    cbn [depth loop_split i_op]. rewrite Hreg, (proj2 (Z.ltb_ge _ _)) by lia. f_equal. lia.
  - intros c. cbn [end_ctx set_i32 i_op ctx_after]. rewrite end_ctx_app, (block_ctx _ _ Hb). cbn. by rewrite Hctx.
  - intros M o c Hc. block_cover Hc. rewrite (block_ctx _ _ Hb), Hctx in Hc. destruct Hc as (_ & Hc1 & _ & He).
    pose proof (covers_start _ _ _ _ Hc1) as Hs. all_ok_split. rewrite (block_ctx _ _ Hb).
    split_and!; [|by apply Hb| |done].
    + unfold insn_ok. rewrite ilen_set_i32. by split_and!.
    + apply insn_ok_loop_split; [done|unfold small; lia|at_pos Hs|exact He].
Qed.
Lemma block_loop_check cc op n m b : pops 2 op -> block cc b -> clen b + 12 < 2 ^ 31 ->
  block cc (set_i32 n :: set_pos :: b ++ [loop_split op m (- (clen b + 12))]).
Proof.
  intros (Hj & Hreg & Hctx) Hb S. pose proof (clen_nonneg b). split.
  - apply Forall_cons. split; [apply insn_wf_set_i32|]. apply Forall_cons. split; [by apply insn_wf_reg|].
    apply Forall_app. split; [apply Hb|]. apply Forall_singleton. by apply insn_wf_loop_split.
  - intros d Hd. cbn [depth set_i32 set_pos i_op reg_action_of]. rewrite depth_app, (block_depth _ _ Hb) by lia. bind.
    cbn [depth loop_split i_op]. rewrite Hreg, (proj2 (Z.ltb_ge _ _)) by lia. f_equal. lia.
  - intros c. cbn [end_ctx set_i32 set_pos i_op ctx_after]. rewrite end_ctx_app, (block_ctx _ _ Hb). cbn. by rewrite Hctx.
  - intros M o c Hc. block_cover Hc. change (ilen set_pos) with 2 in Hc. cbn [set_pos i_op ctx_after] in Hc.
    rewrite (block_ctx _ _ Hb), Hctx in Hc. destruct Hc as (_ & Hs & Hc1 & _ & He).
    pose proof (covers_start _ _ _ _ Hc1) as Hs1. all_ok_split. change (ilen set_pos) with 2. cbn [set_pos i_op ctx_after].
    rewrite (block_ctx _ _ Hb). split_and!; [| |by apply Hb| |done].
    + unfold insn_ok. rewrite ilen_set_i32. by split_and!.
    + split_and!; [intros _; exact Hs1|done|done].
    + apply insn_ok_loop_split; [done|unfold small; lia|at_pos Hs|exact He].
Qed.

(** ** Instructions in a buffer *)
Lemma byte_at_some_app l1 l2 k v : byte_at l1 k = Some v -> byte_at (l1 ++ l2) k = Some v.
Proof.
  unfold byte_at. destruct (k <? 0); [done|]. intros E. by apply lookup_app_l_Some.
Qed.
Lemma get_u16_some_app l1 l2 k v : get_u16 l1 k = Some v -> get_u16 (l1 ++ l2) k = Some v.
Proof.
  unfold get_u16. destruct (byte_at l1 k) eqn:E0; [bind|done]. destruct (byte_at l1 (k + 1)) eqn:E1; [bind|done].
  by rewrite (byte_at_some_app _ _ _ _ E0), (byte_at_some_app _ _ _ _ E1).
Qed.
Lemma get_u32_some_app l1 l2 k v : get_u32 l1 k = Some v -> get_u32 (l1 ++ l2) k = Some v.
Proof.
  unfold get_u32. destruct (byte_at l1 k) eqn:E0; [bind|done]. destruct (byte_at l1 (k + 1)) eqn:E1; [bind|done].
  destruct (byte_at l1 (k + 2)) eqn:E2; [bind|done]. destruct (byte_at l1 (k + 3)) eqn:E3; [bind|done].
  by rewrite (byte_at_some_app _ _ _ _ E0), (byte_at_some_app _ _ _ _ E1), (byte_at_some_app _ _ _ _ E2),
    (byte_at_some_app _ _ _ _ E3).
Qed.
Lemma get_u16_app_r l1 l2 k : 0 <= k -> get_u16 (l1 ++ l2) (Z.of_nat (length l1) + k) = get_u16 l2 k.
Proof. intros Hk. unfold get_u16. by rewrite <- !Z.add_assoc, !byte_at_app_r by lia. Qed.
Lemma get_u32_app_r l1 l2 k : 0 <= k -> get_u32 (l1 ++ l2) (Z.of_nat (length l1) + k) = get_u32 l2 k.
Proof. intros Hk. unfold get_u32. by rewrite <- !Z.add_assoc, !byte_at_app_r by lia. Qed.

Section At.
Context (pre post : list Z) (i : insn) (Hwf : insn_wf i).
#[local] Abbreviation buf := (pre ++ insn_bytes i ++ post).
#[local] Abbreviation p := (Z.of_nat (length pre)).

Lemma at_op : byte_at buf p = Some (reop (i_op i)).
Proof. rewrite <- (Z.add_0_r p), byte_at_app_r by lia. done. Qed.
Lemma at_arg k v : 0 <= k -> byte_at (i_args i) k = Some v -> byte_at buf (p + 1 + k) = Some v.
Proof.
  intros Hk E. rewrite <- Z.add_assoc, byte_at_app_r by lia. apply byte_at_some_app.
  change (insn_bytes i) with ([reop (i_op i)] ++ i_args i). change 1 with (Z.of_nat (length [reop (i_op i)])).
  by rewrite byte_at_app_r.
Qed.
Lemma at_u16 k v : 0 <= k -> get_u16 (i_args i) k = Some v -> get_u16 buf (p + 1 + k) = Some v.
Proof.
  intros Hk E. rewrite <- Z.add_assoc, get_u16_app_r by lia. apply get_u16_some_app.
  change (insn_bytes i) with ([reop (i_op i)] ++ i_args i). change 1 with (Z.of_nat (length [reop (i_op i)])).
  by rewrite get_u16_app_r.
Qed.
Lemma at_u32 k v : 0 <= k -> get_u32 (i_args i) k = Some v -> get_u32 buf (p + 1 + k) = Some v.
Proof.
  intros Hk E. rewrite <- Z.add_assoc, get_u32_app_r by lia. apply get_u32_some_app.
  change (insn_bytes i) with ([reop (i_op i)] ++ i_args i). change 1 with (Z.of_nat (length [reop (i_op i)])).
  by rewrite get_u32_app_r.
Qed.
Lemma at_size : exists n e, reopcode_size (reop (i_op i)) = Some n /\ instr_extra buf (i_op i) p = Some e /\
  n + e = ilen i /\ 1 <= n /\ 0 <= e.
Proof.
  destruct Hwf as [Hb (n & e & Hn & He & Hs)]. exists n, e.
  assert (Forall is_byte (insn_bytes i)) as Hbi by (apply Forall_cons; split; [apply reop_byte|done]).
  pose proof (instr_extra_range _ _ _ _ Hbi He) as He0.
  destruct (opcode_entry _ _ _ (opcode_of_reop (i_op i)) Hn) as (Hn1 & _ & _).
  split_and!; try done.
  assert (forall v, get_u16 (insn_bytes i) (0 + 1) = Some v -> get_u16 buf (p + 1) = Some v) as H16.
  { intros v E. rewrite get_u16_app_r by lia. by apply get_u16_some_app. }
  assert (forall v, byte_at (insn_bytes i) (0 + 1) = Some v -> byte_at buf (p + 1) = Some v) as H8.
  { intros v E. rewrite byte_at_app_r by lia. by apply byte_at_some_app. }
  destruct (i_op i); cbn [instr_extra] in *; try done; try (by apply H8);
    destruct (get_u16 (insn_bytes i) (0 + 1)) as [v|]; try done; by rewrite (H16 v).
Qed.
End At.

(** ** The registers of a block *)

(** [j] is [i] with its register allocated below [k]. *)
Definition reg_rel (k : Z) (i j : insn) : Prop :=
  i_op j = i_op i /\
  if uses_reg (i_op i) then
    exists r0 r l, i_args i = r0 :: l /\ i_args j = r :: l /\ 0 <= r < 256 /\ r + regs_used (i_op i) <= k
  else i_args j = i_args i.

Lemma reg_rel_ilen k i j : reg_rel k i j -> ilen j = ilen i.
Proof.
  intros [_ Hr]. unfold ilen. destruct (uses_reg (i_op i)); [|by rewrite Hr].
  by destruct Hr as (r0 & r & l & -> & -> & _).
Qed.
Lemma reg_rel_mono k k' i j : k <= k' -> reg_rel k i j -> reg_rel k' i j.
Proof.
  intros Hle [Ho Hr]. split; [done|]. destruct (uses_reg (i_op i)); [|done].
  destruct Hr as (r0 & r & l & ? & ? & ? & ?). exists r0, r, l. split_and!; try done; lia.
Qed.
Lemma reg_insn_args i : insn_wf i -> uses_reg (i_op i) = true ->
  exists r l, i_args i = r :: l /\ reopcode_size (reop (i_op i)) = Some (ilen i).
Proof.
  intros [_ (n & e & Hn & He & Hs)] Hu. assert (e = 0) as -> by (destruct (i_op i); cbn in *; congruence).
  destruct (opcode_entry _ _ _ (opcode_of_reop (i_op i)) Hn) as (_ & Hn2 & _). specialize (Hn2 Hu).
  unfold ilen in *. destruct (i_args i) as [|r l] eqn:E; cbn in Hs; [lia|]. exists r, l. split; [done|].
  rewrite Hn. f_equal. cbn. lia.
Qed.
Lemma reg_insn_wf k i j : insn_wf i -> reg_rel k i j -> insn_wf j.
Proof.
  intros Hwf Hrel. pose proof (reg_rel_ilen _ _ _ Hrel) as Hlen. destruct Hrel as [Ho Hr].
  destruct (uses_reg (i_op i)) eqn:Hu.
  - destruct (reg_insn_args i Hwf Hu) as (_ & _ & _ & Hn). destruct Hwf as [Hb _].
    destruct Hr as (r0 & r & l & E1 & E2 & Hrb & _). split.
    + rewrite E2. rewrite E1 in Hb. apply Forall_cons in Hb as [_ Hb]. by apply Forall_cons.
    + exists (ilen i), 0. rewrite Ho, Hlen. split_and!; [done| |lia]. by destruct (i_op i).
  - destruct Hwf as [Hb (n & e & Hn & He & Hs)]. split; [by rewrite Hr|]. exists n, e. rewrite Ho, Hlen.
    split_and!; [done| |done]. unfold insn_bytes. by rewrite Ho, Hr.
Qed.

Lemma byte_set_at pre b r l v : byte_set (pre ++ b :: r :: l) (Z.of_nat (length pre) + 1) v = Some (pre ++ b :: u8 v :: l).
Proof.
  unfold byte_set. rewrite byte_at_app_r by lia. cbn. f_equal.
  rewrite insert_app_r_alt by lia. by replace (Z.to_nat (Z.of_nat (length pre) + 1) - length pre)%nat with 1%nat by lia.
Qed.

Lemma register_loop_step fuel pre post i pend ss smax : insn_wf i ->
  Z.of_nat (length pre) + ilen i <= pend ->
  register_loop (S fuel) (pre ++ insn_bytes i ++ post) (Z.of_nat (length pre)) pend ss smax =
  match reg_action_of (i_op i) with
  | RegPush =>
      let bc := pre ++ (reop (i_op i) :: u8 ss :: tail (i_args i)) ++ post in
      if (smax <? ss + 1) && (REGISTER_COUNT_MAX <? ss + 1) then Some (bc, -1)
      else register_loop fuel bc (Z.of_nat (length pre) + ilen i) pend (ss + 1) (Z.max smax (ss + 1))
  | RegPop n =>
      if ss <? n then None
      else register_loop fuel (pre ++ (reop (i_op i) :: u8 (ss - n) :: tail (i_args i)) ++ post)
             (Z.of_nat (length pre) + ilen i) pend (ss - n) smax
  | RegNone => register_loop fuel (pre ++ insn_bytes i ++ post) (Z.of_nat (length pre) + ilen i) pend ss smax
  end.
Proof.
  intros Hwf Hend. pose proof (ilen_pos i). cbn [register_loop]. rewrite (proj2 (Z.ltb_lt _ _)) by lia.
  rewrite at_op. bind. destruct (at_size pre post i Hwf) as (n & e & Hn & He & Hs & Hn1 & He0).
  rewrite Hn. bind. rewrite opcode_of_reop. bind. rewrite (proj2 (Z.ltb_ge _ _)) by lia.
  assert (uses_reg (i_op i) = true -> exists r l, i_args i = r :: l /\ n = ilen i) as Hreg.
  { intros Hu. destruct (reg_insn_args i Hwf Hu) as (r & l & E & En). exists r, l. split; [done|congruence]. }
  destruct (reg_action_of (i_op i)) as [|k|] eqn:Ea.
  - destruct Hreg as (r & l & E & ->); [unfold uses_reg; by rewrite Ea|]. unfold insn_bytes. rewrite E. cbn [app tail].
    rewrite byte_set_at. bind. unfold REGISTER_COUNT_MAX. destruct (Z.ltb_spec smax (ss + 1)); cbn [andb].
    + destruct (255 <? ss + 1); [done|]. by rewrite Z.max_r by lia.
    + by rewrite Z.max_l by lia.
  - destruct (ss <? k); [done|]. destruct Hreg as (r & l & E & ->); [unfold uses_reg; by rewrite Ea|].
    unfold insn_bytes. rewrite E. cbn [app tail]. by rewrite byte_set_at.
  - rewrite He. bind. by rewrite <- Z.add_assoc, Hs.
Qed.

Definition allocated (pre : list Z) (bl : list insn) (smax : Z) (r : option (list Z * Z)) : Prop :=
  exists bc k, r = Some (bc, k) /\
    (k = -1 \/ smax <= k <= REGISTER_COUNT_MAX /\
       exists bl', bc = pre ++ code_bytes bl' /\ Forall2 (reg_rel k) bl bl').

Lemma allocated_cons pre i j bl smax smax' r : smax <= smax' ->
  (forall k, smax' <= k -> reg_rel k i j) ->
  allocated (pre ++ insn_bytes j) bl smax' r -> allocated pre (i :: bl) smax r.
Proof.
  intros Hle Hrel (bc & k & -> & Hk). exists bc, k. split; [done|]. destruct Hk as [->|(Hk & bl' & -> & Hall)]; [by left|].
  right. split; [lia|]. exists (j :: bl'). rewrite code_bytes_cons, app_assoc. split; [done|].
  constructor; [apply Hrel; lia|done].
Qed.

Lemma register_loop_code bl : forall fuel pre ss smax, Forall insn_wf bl -> depth ss bl <> None ->
  (length bl <= fuel)%nat -> 0 <= ss <= smax -> smax <= REGISTER_COUNT_MAX ->
  allocated pre bl smax
    (register_loop fuel (pre ++ code_bytes bl) (Z.of_nat (length pre)) (Z.of_nat (length pre) + clen bl) ss smax).
Proof.
  induction bl as [|i bl IH]; intros fuel pre ss smax Hwf Hd Hf Hss Hmax.
  - rewrite clen_nil, Z.add_0_r. unfold allocated. exists (pre ++ []), smax. split.
    + destruct fuel; cbn [register_loop]; by rewrite Z.ltb_irrefl.
    + right. split; [lia|]. by exists [].
  - apply Forall_cons in Hwf as [Hi Hwf]. destruct fuel as [|fuel]; [cbn in Hf; lia|]. cbn [length] in Hf.
    pose proof (clen_nonneg bl). rewrite code_bytes_cons, clen_cons, register_loop_step by (done || lia).
    cbn [depth] in Hd. unfold REGISTER_COUNT_MAX in *.
    assert (forall j ss' smax', ilen j = ilen i -> smax <= smax' <= 255 -> 0 <= ss' <= smax' -> depth ss' bl <> None ->
      (forall k, smax' <= k -> reg_rel k i j) ->
      allocated pre (i :: bl) smax (register_loop fuel (pre ++ insn_bytes j ++ code_bytes bl)
        (Z.of_nat (length pre) + ilen i) (Z.of_nat (length pre) + (ilen i + clen bl)) ss' smax')) as Hgo.
    { intros j ss' smax' Hj Hm Hs' Hd' Hrel. eapply (allocated_cons _ i j); [|exact Hrel|]; [lia|].
      replace (Z.of_nat (length pre) + ilen i) with (Z.of_nat (length (pre ++ insn_bytes j)))
        by (rewrite length_app, <- Hj; unfold ilen, insn_bytes; cbn; lia).
      replace (Z.of_nat (length pre) + (ilen i + clen bl)) with (Z.of_nat (length (pre ++ insn_bytes j)) + clen bl)
        by (rewrite length_app, <- Hj; unfold ilen, insn_bytes; cbn; lia).
      rewrite (app_assoc pre). apply IH; (done || unfold REGISTER_COUNT_MAX; lia). }
    assert (forall r k0, uses_reg (i_op i) = true -> 0 <= r < 256 -> r + regs_used (i_op i) <= k0 ->
      let j := mk_insn (i_op i) (r :: tail (i_args i)) in ilen j = ilen i /\ forall k, k0 <= k -> reg_rel k i j) as Hreg.
    { intros r k0 Hu Hr Hk0 j. destruct (reg_insn_args i Hi Hu) as (r0 & l & E & _). unfold j. rewrite E. cbn [tail].
      split; [unfold ilen; cbn; by rewrite E|]. intros k Hk. split; [done|]. cbn [i_op]. rewrite Hu.
      exists r0, r, l. split_and!; try done; lia. }
    destruct (reg_action_of (i_op i)) as [|n|] eqn:Ea.
    + destruct (_ && _) eqn:Hov; [eexists _, _; split; [done|by left]|].
      assert (ss + 1 <= 255) by (apply andb_false_iff in Hov as [?%Z.ltb_ge|?%Z.ltb_ge]; lia).
      destruct (Hreg (u8 ss) (Z.max smax (ss + 1))) as [Hl Hrel]; [unfold uses_reg; by rewrite Ea|apply u8_range| |].
      { unfold regs_used. rewrite Ea, u8_id; lia. }
      apply (Hgo (mk_insn (i_op i) (u8 ss :: tail (i_args i)))); (done || lia).
    + destruct (Z.ltb_spec ss n) as [|Hn]; [done|].
      assert (0 <= n) by (destruct (i_op i); cbn in Ea; simplify_eq; lia).
      destruct (Hreg (u8 (ss - n)) smax) as [Hl Hrel]; [unfold uses_reg; by rewrite Ea|apply u8_range| |].
      { unfold regs_used. rewrite Ea, u8_id; lia. }
      apply (Hgo (mk_insn (i_op i) (u8 (ss - n) :: tail (i_args i)))); (done || lia).
    + apply (Hgo i); try (done || lia). intros k _. split; [done|]. unfold uses_reg. by rewrite Ea.
Qed.

Lemma insn_ok_reg M cc o c k i j : reg_rel k i j -> insn_ok M cc o c i -> insn_ok M cc o c j.
Proof.
  intros Hrel (Hf & Hj & Ho). pose proof (reg_rel_ilen _ _ _ Hrel) as Hl. destruct Hrel as [Eop Hr].
  unfold insn_ok. rewrite Eop, Hl. destruct (uses_reg (i_op i)) eqn:Hu; [|by rewrite Hr].
  destruct Hr as (r0 & r & l & E1 & E2 & _). split; [done|]. split.
  - intros q Hq. destruct (Hj q Hq) as (v & Ev & HM). exists v. split; [|done].
    rewrite E1 in Ev. rewrite E2.
    assert (1 <= q) by (destruct (i_op i); cbn in *; simplify_eq; lia).
    assert (forall q, 1 <= q -> byte_at (r :: l) q = byte_at (r0 :: l) q) as Hb.
    { intros q' Hq'. unfold byte_at. destruct (q' <? 0); [done|].
      replace (Z.to_nat q') with (S (Z.to_nat (q' - 1))) by lia. done. }
    unfold get_u32 in *. by rewrite !Hb by lia.
  - destruct (i_op i); cbn in *; try done.
Qed.
Lemma all_ok_reg M cc k bl bl' : Forall2 (reg_rel k) bl bl' -> forall o c, all_ok M cc o c bl -> all_ok M cc o c bl'.
Proof.
  induction 1 as [|i j bl bl' Hrel _ IH]; intros o c; cbn [all_ok]; [done|]. intros [Hi Hok].
  split; [by eapply insn_ok_reg|]. destruct Hrel as [Eop Hr] eqn:Er. rewrite Eop.
  rewrite (reg_rel_ilen k i j) by done. by apply IH.
Qed.

(** ** The types that the checker computes *)
Fixpoint inner (o : Z) (c : lctx) (bl : list insn) : list (Z * lctx) :=
  match bl with
  | [] => []
  | i :: bl => (o, c) :: inner (o + ilen i) (ctx_after (i_op i) c) bl
  end.
Lemma inner_reg k bl bl' : Forall2 (reg_rel k) bl bl' -> forall o c, inner o c bl' = inner o c bl.
Proof.
  induction 1 as [|i j bl bl' Hrel _ IH]; intros o c; cbn [inner]; [done|].
  rewrite (reg_rel_ilen k i j) by done. destruct Hrel as [-> _]. by rewrite IH.
Qed.
Lemma inner_snoc o c bl i : inner o c (bl ++ [i]) = starts o c bl.
Proof. revert o c. induction bl as [|j bl IH]; intros o c; cbn; [done|]. by rewrite IH. Qed.
Lemma inner_ge o c bl p c' : (p, c') ∈ inner o c bl -> o <= p.
Proof.
  revert o c. induction bl as [|i bl IH]; intros o c; cbn [inner]; [by intros ?%elem_of_nil|].
  intros [[= -> ->]|Hin]%elem_of_cons; [lia|]. apply IH in Hin. pose proof (ilen_pos i). lia.
Qed.
Lemma inner_lookup o c bl p c' : (p, c') ∈ inner o c bl -> (list_to_map (inner o c bl) : gmap Z lctx) !! p = Some c'.
Proof.
  revert o c. induction bl as [|i bl IH]; intros o c; cbn [inner]; [by intros ?%elem_of_nil|].
  intros [[= -> ->]|Hin]%elem_of_cons; rewrite list_to_map_cons; [apply lookup_insert_eq|].
  rewrite lookup_insert_ne; [by apply IH|]. apply inner_ge in Hin. pose proof (ilen_pos i). cbn. lia.
Qed.
Lemma inner_insn o c bl p c' : (p, c') ∈ inner o c bl ->
  exists l1 i l2, bl = l1 ++ i :: l2 /\ p = o + clen l1 /\ c' = end_ctx c l1.
Proof.
  revert o c. induction bl as [|i bl IH]; intros o c; cbn [inner]; [by intros ?%elem_of_nil|].
  intros [[= -> ->]|Hin]%elem_of_cons.
  - exists [], i, bl. cbn. split_and!; try done. rewrite clen_nil. lia.
  - destruct (IH _ _ Hin) as (l1 & j & l2 & -> & -> & ->). exists (i :: l1), j, l2. split_and!; [done| |done].
    rewrite clen_cons. lia.
Qed.

Lemma scan_code bl : forall fuel pre post c, Forall insn_wf bl -> (length bl <= fuel)%nat ->
  scan_types (pre ++ code_bytes bl ++ post) fuel (Z.of_nat (length pre)) (Z.of_nat (length pre) + clen bl) c =
  Some (list_to_map (inner (Z.of_nat (length pre)) c bl) : gmap Z lctx).
Proof.
  induction bl as [|i bl IH]; intros fuel pre post c Hwf Hf.
  - rewrite clen_nil, Z.add_0_r. destruct fuel; cbn [scan_types]; by rewrite Z.leb_refl.
  - apply Forall_cons in Hwf as [Hi Hwf]. destruct fuel as [|fuel]; [cbn in Hf; lia|]. cbn [length] in Hf.
    pose proof (clen_nonneg bl). pose proof (ilen_pos i). rewrite code_bytes_cons, clen_cons. cbn [scan_types].
    rewrite (proj2 (Z.leb_gt _ _)) by lia. rewrite <- app_assoc.
    rewrite at_op. bind. rewrite opcode_of_reop. bind.
    destruct (at_size pre (code_bytes bl ++ post) i Hi) as (n & e & Hn & He & Hs & _ & _). rewrite Hn. bind. rewrite He. bind.
    rewrite <- (Z.add_assoc _ n e), Hs, (app_assoc pre).
    replace (Z.of_nat (length pre) + ilen i) with (Z.of_nat (length (pre ++ insn_bytes i)))
      by (rewrite length_app; unfold ilen, insn_bytes; cbn; lia).
    replace (Z.of_nat (length pre) + (ilen i + clen bl)) with (Z.of_nat (length (pre ++ insn_bytes i)) + clen bl)
      by (rewrite length_app; unfold ilen, insn_bytes; cbn; lia).
    rewrite IH by (done || lia). bind. cbn [inner]. rewrite list_to_map_cons.
    rewrite length_app. unfold ilen, insn_bytes. cbn [length]. do 3 f_equal. f_equal. lia.
Qed.

(** ** A typed instruction passes the checker *)
Section Checked.
Context (pre post : list Z) (i : insn) (cc rc : Z) (ty : typing) (c : lctx) (M : Z -> lctx -> Prop).
#[local] Abbreviation buf := (pre ++ insn_bytes i ++ post).
#[local] Abbreviation p := (Z.of_nat (length pre)).
Context (Hwf : insn_wf i) (Hbytes : Forall is_byte buf) (HM : forall q c, M q c -> ty !! q = Some c).
Context (Hok : insn_ok M cc p c i).
Context (Hreg : uses_reg (i_op i) = true -> exists r l, i_args i = r :: l /\ r + regs_used (i_op i) <= rc).

Lemma flows_M q c' : M q c' -> flows ty q c' = true.
Proof. intros Hq. apply bool_decide_eq_true. by apply HM. Qed.
Lemma in_insn k : 0 <= k < ilen i -> 0 <= p + k < Z.of_nat (length buf).
Proof. unfold ilen. intros Hk. rewrite !length_app. cbn [insn_bytes length]. lia. Qed.

Lemma sat_u8 q f : p < q -> q < p + ilen i -> (forall v, byte_at buf q = Some v -> 0 <= v < 256 -> f v = true) ->
  u8_sat buf q f = true.
Proof.
  intros Hq Hl Hf. pose proof (in_insn (q - p) ltac:(lia)). unfold u8_sat.
  destruct (byte_at_in buf q) as [v E]; [lia|]. rewrite E. apply Hf; [done|].
  by apply (byte_at_range buf Hbytes) in E as [? _].
Qed.
Lemma sat_u16 q f : p < q -> q + 1 < p + ilen i -> (forall v, get_u16 buf q = Some v -> f v = true) ->
  u16_sat buf q f = true.
Proof.
  intros Hq Hl Hf. pose proof (in_insn (q + 1 - p) ltac:(lia)). unfold u16_sat.
  destruct (get_u16_in buf Hbytes q) as (v & E & _); [lia|lia|]. rewrite E. by apply Hf.
Qed.
Lemma sat_u32 q f : p < q -> q + 3 < p + ilen i -> (forall v, get_u32 buf q = Some v -> f v = true) ->
  u32_sat buf q f = true.
Proof.
  intros Hq Hl Hf. pose proof (in_insn (q + 3 - p) ltac:(lia)). unfold u32_sat.
  destruct (get_u32_in buf q) as (v & E); [lia|lia|]. rewrite E. by apply Hf.
Qed.
Lemma sat_jump k q v : jump_at (i_op i) = Some k -> 0 <= k -> q = p + 1 + k -> get_u32 buf q = Some v ->
  M (p + ilen i + i32 v) c.
Proof.
  intros Hk Hk0 -> Ev. destruct Hok as (_ & Hj & _). destruct (Hj k Hk) as (v' & E & HMv).
  apply (at_u32 pre post) in E; [|done]. by simplify_eq.
Qed.
End Checked.

Lemma insn_checked pre post i cc rc ty c M : insn_wf i -> Forall is_byte (pre ++ insn_bytes i ++ post) ->
  (forall q c, M q c -> ty !! q = Some c) -> insn_ok M cc (Z.of_nat (length pre)) c i ->
  (uses_reg (i_op i) = true -> exists r l, i_args i = r :: l /\ r + regs_used (i_op i) <= rc) ->
  instr_ok (pre ++ insn_bytes i ++ post) cc rc ty (i_op i) (Z.of_nat (length pre) + 1) c = true.
Proof.
  intros Hwf Hb HM Hok Hreg. pose proof (sat_u8 pre post i Hb) as S8. pose proof (sat_u16 pre post i Hb) as S16.
  pose proof (sat_u32 pre post i) as S32. pose proof (sat_jump pre post i cc c M Hok) as SJ.
  pose proof Hok as (Hf & _ & Ho). set (p := Z.of_nat (length pre)) in *.
  destruct (at_size pre post i Hwf) as (n & e & Hn & He & Hlen & _ & He0). fold p in He.
  pose proof (at_u16 pre post i) as A16. pose proof (at_arg pre post i) as A8. fold p in A16, A8.
  destruct i as [op args]. cbn [i_op i_args] in *.
  assert (forall q q' c', M q c' -> q' = q -> flows ty q' c' = true) as HF by (intros; subst; eapply flows_M; done).
  set (buf := pre ++ _) in *. set (len := ilen _) in *.
  destruct op; vm_compute in Hn; injection Hn as <-; cbn [instr_extra] in He; cbn [falls ctx_after jump_at operands_ok uses_reg reg_action_of regs_used instr_ok] in *;
    try done; try (injection He as <-);
    try (destruct (Hreg eq_refl) as (r & l & Eargs & Hr)).
  all: try (by destruct Ho as (c' & ->)).
  all: try (eapply HF; [by apply Hf|lia]).
  all: try (apply S16; [lia|lia|intros v Ev; eapply HF; [by apply Hf|lia]]).
  all: try (apply S32; [lia|lia|intros v Ev; eapply HF; [by apply Hf|lia]]).
  all: try (apply S8; [lia|lia|]; intros v Ev Hv).
  all: try (assert (byte_at buf (p + 1 + 0) = Some r) as Er by (apply A8; [lia|by rewrite Eargs]);
    rewrite Z.add_0_r, Ev in Er; injection Er as ->; apply andb_true_intro; split; [apply Z.ltb_lt; cbn in Hr; lia|]).
  all: try (eapply HF; [by apply Hf|lia]).
  all: try (apply S32; [lia|lia|]; intros w Ew; try (apply S32; [lia|lia|]; intros u Eu)).
  all: try match goal with E : get_u32 _ _ = Some ?x |- _ => assert (M (p + len + i32 x) c) as HJ by
    (eapply SJ; [reflexivity| | |exact E]; lia) end.
  all: rewrite ?andb_true_iff; split_and?; try (eapply HF; [by apply Hf|lia]); try (eapply HF; [exact HJ|lia]).
  all: try (rewrite Ev in He; injection He as ->; eapply HF; [by apply Hf|lia]).
  all: try (apply S16; [lia|lia|]; intros v Ev; rewrite Ev in He; injection He as <-; destruct Ho as (v' & Ev' & Hv');
    apply A16 in Ev'; [|lia]; rewrite Z.add_0_r, Ev in Ev'; injection Ev' as <-;
    rewrite (proj2 (Z.leb_le _ _)) by done; (eapply HF; [by apply Hf|lia])).
  - destruct Ho as (v' & Ev' & Hv'). apply A8 in Ev'; [|lia]. rewrite Z.add_0_r, Ev in Ev'. simplify_eq. by apply Z.ltb_lt.
  - destruct Ho as (v' & Ev' & Hv'). apply A8 in Ev'; [|lia]. rewrite Z.add_0_r, Ev in Ev'. simplify_eq. by apply Z.ltb_lt.
  - apply S8; [lia|lia|]. intros w Ew _. destruct Ho as (v' & Ev' & Hv'). apply A8 in Ev'; [|lia].
    rewrite Ew in Ev'. simplify_eq. rewrite (proj2 (Z.ltb_lt _ _)) by done. eapply HF; [by apply Hf|lia].
Qed.

Lemma reg_rel_clen k l l' : Forall2 (reg_rel k) l l' -> clen l' = clen l.
Proof. induction 1 as [|i j l l' Hr _ IH]; [done|]. rewrite !clen_cons, IH. f_equal. by eapply reg_rel_ilen. Qed.
Lemma reg_rel_ctx k l l' : Forall2 (reg_rel k) l l' -> forall c, end_ctx c l' = end_ctx c l.
Proof. induction 1 as [|i j l l' Hr _ IH]; intros c; cbn; [done|]. by rewrite IH, (proj1 Hr). Qed.

(** ** A program passes the checker

    [pre] is the header, [post] the names of the groups; [bl] is [b] and the
    final [REOP_match], with registers below [rc]. *)
Definition match_insn : insn := mk_insn REOP_match [].
Lemma block_checked pre post b bl cc rc :
  block cc b -> Forall2 (reg_rel rc) (b ++ [match_insn]) bl -> Z.of_nat (length pre) = RE_HEADER_LEN ->
  Forall is_byte (pre ++ code_bytes bl ++ post) ->
  byte_at pre RE_HEADER_CAPTURE_COUNT = Some cc -> byte_at pre RE_HEADER_REGISTER_COUNT = Some rc ->
  get_u32 pre RE_HEADER_BYTECODE_LEN = Some (clen bl) ->
  re_check (pre ++ code_bytes bl ++ post) = true.
Proof.
  intros Hblk Hreg Hpre Hbytes Hcc Hrc Hlen. unfold re_check.
  rewrite (byte_at_some_app _ _ _ _ Hcc), (byte_at_some_app _ _ _ _ Hrc), (get_u32_some_app _ _ _ _ Hlen).
  rewrite bool_decide_true by done. cbn [andb].
  assert (Forall insn_wf (b ++ [match_insn])) as Hwf0.
  { apply Forall_app. split; [apply Hblk|]. apply Forall_singleton. split; [done|]. by exists 1, 0. }
  assert (Forall insn_wf bl) as Hwf.
  { clear -Hwf0 Hreg. induction Hreg; [done|]. apply Forall_cons in Hwf0 as [? ?].
    apply Forall_cons. split; [by eapply reg_insn_wf|auto]. }
  assert (length bl <= length (pre ++ code_bytes bl ++ post))%nat as Hfuel.
  { rewrite !length_app. assert (length bl <= length (code_bytes bl))%nat; [|lia].
    clear. induction bl; [done|]. rewrite code_bytes_cons, length_app. cbn. lia. }
  pose proof (scan_code bl _ pre post [] Hwf Hfuel) as Hscan. rewrite Hpre in Hscan. rewrite Hscan.
  rewrite (inner_reg _ _ _ Hreg), inner_snoc. clear Hscan.
  set (ty := list_to_map _). apply bool_decide_eq_true.
  assert (forall q c, (q, c) ∈ starts RE_HEADER_LEN [] b -> ty !! q = Some c) as HM.
  { intros q c Hin. unfold ty. rewrite <- (inner_snoc _ _ _ match_insn). apply inner_lookup. by rewrite inner_snoc. }
  split; [apply HM; destruct b; left|].
  intros q c Hq. unfold ty in Hq. apply elem_of_list_to_map_2 in Hq. rewrite <- (inner_snoc _ _ _ match_insn) in Hq.
  rewrite <- (inner_reg _ _ _ Hreg) in Hq. apply inner_insn in Hq as (l1 & j & l2 & Ebl & -> & ->).
  assert (all_ok (fun q c => (q, c) ∈ starts RE_HEADER_LEN [] b) cc RE_HEADER_LEN [] b) as Hok
    by (apply Hblk; by intros ? ?).
  rewrite Ebl in Hreg. apply Forall2_app_inv_r in Hreg as (k1 & k2 & Hr1 & Hr2 & Eb).
  apply Forall2_cons_inv_r in Hr2 as (i & k2' & Hrel & Hr2 & ->).
  assert (insn_wf j) as Hj by (rewrite Ebl in Hwf; apply Forall_app in Hwf as [_ Hwf]; by apply Forall_cons in Hwf as [? _]).
  rewrite Ebl in Hbytes |- *. rewrite code_bytes_app, code_bytes_cons, <- !app_assoc, (app_assoc pre) in Hbytes |- *.
  assert (RE_HEADER_LEN + clen l1 = Z.of_nat (length (pre ++ code_bytes l1))) as Hp by (rewrite length_app; unfold clen; lia).
  unfold typed_at, opcode_at. rewrite Hp, at_op. bind. rewrite opcode_of_reop.
  destruct k2' as [|x k3 _] using rev_ind.
  - apply app_inj_2 in Eb as [-> [= <-]]; [|done]. destruct Hrel as [Eop _]. by rewrite Eop.
  - rewrite app_comm_cons, (app_assoc k1) in Eb. apply app_inj_2 in Eb as [-> [= <-]]; [|done].
    apply all_ok_app in Hok as [_ [Hi _]]. apply (insn_checked _ _ j cc rc ty _ (fun q c => (q, c) ∈ starts RE_HEADER_LEN [] (k1 ++ i :: k3))); try done.
    + rewrite <- Hp, (reg_rel_clen _ _ _ Hr1), (reg_rel_ctx _ _ _ Hr1). by eapply insn_ok_reg.
    + destruct Hrel as [Eop Hr]. rewrite Eop. intros Hu. rewrite Hu in Hr. destruct Hr as (r0 & r & l & _ & E & _ & ?). by exists r, l.
Qed.
