(* ===== verification/RegexpMono.v ===== *)
(** * Invariants of the regular expression compiler

    Every function of the parser keeps an invariant of the buffers, loses no
    capture and never clears the error flag ([Mono]); the parser of classes does
    not touch the bytecode ([Quiet]).  Both are closed under the constructs of
    the monad, so most functions are handled by following their structure. *)
From S2P Require Import Prelude Sort Cutils Utf8 CharRange UnicodeTables UnicodeCase UnicodeCaseProps UnicodeProp.
From S2P Require Import Regexp RegexpSim RegexpUndo RegexpSearch RegexpRange RegexpType RegexpRegs RegexpParse RegexpCompile RegexpBlock.

Definition code (s : REParseState) : list Z := db_data (s_byte_code s).
Definition err (s : REParseState) : bool := db_error (s_byte_code s).
Definition CODE_MAX : Z := INT32_MAX / 2.

(** The ends of non-empty names: NULs after another byte. *)
Fixpoint name_ends (prev : Z) (l : list Z) : Z :=
  match l with
  | [] => 0
  | c :: l => (if (c =? 0) && negb (prev =? 0) then 1 else 0) + name_ends c l
  end.

(** Names as the parser writes them: bytes other than NUL, a NUL and a scope. *)
Definition name_byte (b : Z) : Prop := 0 < b < 256.
Inductive entries : list Z -> Prop :=
| entries_nil : entries []
| entries_snoc l name scope : entries l -> Forall name_byte name -> entries (l ++ name ++ [0; scope]).
(** The buffer of the names is small; it is complete unless its error flag is set. *)
Definition names_ok (gn : DynBuf) (count : Z) : Prop :=
  db_allocated_size gn <= 2 * db_size gn /\ db_size gn <= 140 * count /\ (db_error gn = true \/ entries (db_data gn)).

Record pinv (s : REParseState) : Prop := {
  pinv_code : db_size (s_byte_code s) <= db_allocated_size (s_byte_code s) <= CODE_MAX;
  pinv_count : 1 <= s_capture_count s <= CAPTURE_COUNT_MAX;
  pinv_names : dbuf_wf (s_group_names s) /\ Forall is_byte (db_data (s_group_names s)) /\
    name_ends 0 (db_data (s_group_names s)) < s_capture_count s /\ names_ok (s_group_names s) (s_capture_count s);
}.

(** Steps that keep the invariant, lose no capture and do not clear the flag. *)
Definition mono (s s' : REParseState) : Prop :=
  pinv s -> pinv s' /\ s_capture_count s <= s_capture_count s' /\ (err s' = false -> err s = false).
Definition Mono {A} (m : P A) : Prop := forall s a s', m s = POk a s' -> mono s s'.
(** Steps that leave the buffers and the captures alone. *)
Definition quiet (s s' : REParseState) : Prop :=
  s_byte_code s' = s_byte_code s /\ s_group_names s' = s_group_names s /\ s_capture_count s' = s_capture_count s.
Definition Quiet {A} (m : P A) : Prop := forall s a s', m s = POk a s' -> quiet s s'.

Lemma mono_refl s : mono s s.
Proof. intros Hs. split_and!; done || lia. Qed.
Lemma mono_trans s1 s2 s3 : mono s1 s2 -> mono s2 s3 -> mono s1 s3.
Proof. intros H12 H23 Hs. destruct (H12 Hs) as (? & ? & ?). destruct (H23 ltac:(done)) as (? & ? & ?). split_and!; auto. lia. Qed.
Lemma quiet_mono s s' : quiet s s' -> mono s s'.
Proof.
  intros (E1 & E2 & E3) [H1 H2 H3]. split; [split; rewrite ?E1, ?E2, ?E3; done|]. unfold err. rewrite E1, E3. split; [lia|done].
Qed.
Lemma quiet_trans s1 s2 s3 : quiet s1 s2 -> quiet s2 s3 -> quiet s1 s3.
Proof. intros (E1 & E2 & E3) (F1 & F2 & F3). split_and!; congruence. Qed.

Lemma pbind_ok {A B} (m : P A) (k : A -> P B) s b s2 : pbind m k s = POk b s2 ->
  exists a s1, m s = POk a s1 /\ k a s1 = POk b s2.
Proof. unfold pbind. destruct (m s) as [a s1| | |]; try done. eauto. Qed.

Lemma Mono_bind {A B} (m : P A) (k : A -> P B) : Mono m -> (forall a, Mono (k a)) -> Mono (pbind m k).
Proof. intros Hm Hk s b s2 (a & s1 & E1 & E2)%pbind_ok. eapply mono_trans; [by eapply Hm|by eapply Hk]. Qed.
Lemma Quiet_bind {A B} (m : P A) (k : A -> P B) : Quiet m -> (forall a, Quiet (k a)) -> Quiet (pbind m k).
Proof. intros Hm Hk s b s2 (a & s1 & E1 & E2)%pbind_ok. eapply quiet_trans; [by eapply Hm|by eapply Hk]. Qed.
Lemma Quiet_Mono {A} (m : P A) : Quiet m -> Mono m.
Proof. intros Hm s a s' E. by eapply quiet_mono, Hm. Qed.

Create HintDb quiet.
Create HintDb mono.
Lemma Quiet_ret {A} (a : A) : Quiet (pret a).
Proof. by intros s b s' [= <- <-]. Qed.
Lemma Quiet_get : Quiet pget.
Proof. by intros s b s' [= <- <-]. Qed.
Lemma Quiet_fail {A} : Quiet (@pfail A).
Proof. done. Qed.
Lemma Quiet_wrong {A} : Quiet (@pwrong A).
Proof. done. Qed.
Lemma Quiet_fuel {A} : Quiet (@pfuel A).
Proof. done. Qed.
Lemma Quiet_error {A} msg : Quiet (@re_parse_error A msg).
Proof. done. Qed.
Lemma Quiet_oom {A} : Quiet (@re_parse_out_of_memory A).
Proof. done. Qed.
Lemma Quiet_option {A} (o : option A) : Quiet (of_option o).
Proof. intros s b s'. unfold of_option. destruct o; [|done]. by intros [= <- <-]. Qed.
Lemma Quiet_buf_ptr p : Quiet (set_buf_ptr p).
Proof. by intros s b s' [= <- <-]. Qed.
Lemma Quiet_modifiers a b c : Quiet (set_modifiers a b c).
Proof. by intros s ? s' [= <- <-]. Qed.
Lemma Quiet_scope v : Quiet (set_group_name_scope v).
Proof. by intros s ? s' [= <- <-]. Qed.
#[export] Hint Resolve Quiet_ret Quiet_get Quiet_fail Quiet_wrong Quiet_fuel Quiet_error Quiet_oom Quiet_option
  Quiet_buf_ptr Quiet_modifiers Quiet_scope : quiet.

(** Follow the structure of a computation down to its leaves. *)
Ltac quiet_step tac :=
  match goal with
  | |- Quiet (pbind _ _) => apply Quiet_bind; [|intros ?]
  | |- Quiet (let (_, _) := ?x in _) => destruct x
  | |- Quiet (if ?b then _ else _) => destruct b
  | |- Quiet (match ?x with _ => _ end) => destruct x
  | _ => tac
  end.
Ltac quiet := repeat (cbv zeta; quiet_step ltac:(first [solve [eauto with quiet] | fail 1])).

Section Classes.
Context `{ReEnv} `{UnicodeDb}.

Lemma Quiet_rd p : Quiet (rd p).
Proof. apply Quiet_option. Qed.
Lemma Quiet_with_mem {A} (f : (Z -> bool) -> A) : Quiet (with_mem f).
Proof. by intros s b s' [= <- <-]. Qed.
Lemma Quiet_request n : Quiet (request n).
Proof. apply Quiet_with_mem. Qed.
Lemma Quiet_stack : Quiet check_stack_overflow.
Proof. intros s b s'. unfold check_stack_overflow. destruct (env_stack_overflow _); [done|]. by intros [= <- <-]. Qed.
#[local] Hint Resolve Quiet_rd Quiet_with_mem Quiet_request Quiet_stack : quiet.

Lemma Quiet_expect p c msg : Quiet (re_parse_expect p c msg).
Proof. unfold re_parse_expect. quiet. Qed.
Lemma Quiet_find2_add s buf h0 : Quiet (re_string_find2_add s buf h0).
Proof. unfold re_string_find2_add, grow_table. quiet. Qed.
#[local] Hint Resolve Quiet_expect Quiet_find2_add : quiet.
Lemma Quiet_string_add s buf : Quiet (re_string_add s buf).
Proof. unfold re_string_add. quiet. Qed.
Lemma Quiet_strings_union a l : Quiet (strings_union a l).
Proof. revert a. induction l; intros a'; cbn [strings_union]; quiet. Qed.
#[local] Hint Resolve Quiet_string_add Quiet_strings_union : quiet.
Lemma Quiet_list_op a b op : Quiet (re_string_list_op a b op).
Proof. unfold re_string_list_op. quiet. Qed.
Lemma Quiet_strings_canonicalize s l u : Quiet (strings_canonicalize s l u).
Proof. revert s. induction l; intros s; cbn [strings_canonicalize]; quiet. Qed.
#[local] Hint Resolve Quiet_list_op Quiet_strings_canonicalize : quiet.
Lemma Quiet_canonicalize s u : Quiet (re_string_list_canonicalize s u).
Proof. unfold re_string_list_canonicalize. quiet. Qed.
Lemma Quiet_char_range c : Quiet (cr_init_char_range c).
Proof. unfold cr_init_char_range. quiet. Qed.
Lemma Quiet_unicode_chars fuel p q : Quiet (unicode_chars fuel p q).
Proof. revert p q. induction fuel; intros p q; cbn [unicode_chars]; quiet. Qed.
Lemma Quiet_seq_prop sl l : Quiet (seq_prop_cbs sl l).
Proof. revert sl. induction l; intros sl; cbn [seq_prop_cbs]; quiet. Qed.
#[local] Hint Resolve Quiet_canonicalize Quiet_char_range Quiet_unicode_chars Quiet_seq_prop : quiet.
Lemma Quiet_property_set name value i a : Quiet (property_set name value i a).
Proof. unfold property_set. quiet. Qed.
Lemma Quiet_or_oom m : Quiet m -> Quiet (or_out_of_memory m).
Proof. intros Hm. unfold or_out_of_memory. quiet. Qed.
Lemma Quiet_or_fail m : Quiet m -> Quiet (or_fail m).
Proof. intros Hm. unfold or_fail. quiet. Qed.
Lemma Quiet_invert sl : Quiet (sl_invert sl).
Proof. unfold sl_invert. quiet. Qed.
#[local] Hint Resolve Quiet_property_set Quiet_or_oom Quiet_or_fail Quiet_invert : quiet.
Lemma Quiet_unicode_property p i a : Quiet (parse_unicode_property p i a).
Proof. unfold parse_unicode_property. quiet. Qed.
#[local] Hint Resolve Quiet_unicode_property : quiet.
Lemma Quiet_normal_char p c : Quiet (class_normal_char p c).
Proof. unfold class_normal_char. quiet. Qed.
#[local] Hint Resolve Quiet_normal_char : quiet.
Lemma Quiet_default_escape p c : Quiet (class_default_escape p c).
Proof. unfold class_default_escape, invalid_escape. quiet. Qed.
Lemma Quiet_control p b : Quiet (class_control p b).
Proof. unfold class_control, invalid_escape. quiet. Qed.
#[local] Hint Resolve Quiet_default_escape Quiet_control : quiet.
Lemma Quiet_common_escape q p c b : (forall c, Quiet (q c)) -> Quiet (common_escape q p c b).
Proof. intros Hq. unfold common_escape, invalid_escape. quiet. Qed.
#[local] Hint Resolve Quiet_common_escape : quiet.
Lemma Quiet_atom_with e p : (forall p c, Quiet (e p c)) -> Quiet (class_atom_with e p).
Proof. intros He. unfold class_atom_with. quiet. Qed.
Lemma Quiet_class_char p : Quiet (get_class_char p).
Proof. apply Quiet_atom_with. intros p' c. quiet. Qed.
#[local] Hint Resolve Quiet_class_char : quiet.
Lemma Quiet_class_string fuel p str : Quiet (class_string fuel p str).
Proof. revert p str. induction fuel; intros p str; cbn [class_string]; quiet. Qed.
#[local] Hint Resolve Quiet_class_string : quiet.
Lemma Quiet_class_strings fuel p str cr : Quiet (class_strings fuel p str cr).
Proof. revert p str cr. induction fuel; intros p str cr; cbn [class_strings]; quiet. Qed.
#[local] Hint Resolve Quiet_class_strings : quiet.
Lemma Quiet_string_disjunction p : Quiet (parse_class_string_disjunction p).
Proof. unfold parse_class_string_disjunction. quiet. Qed.
#[local] Hint Resolve Quiet_string_disjunction : quiet.
Lemma Quiet_class_atom p b : Quiet (get_class_atom p b).
Proof. apply Quiet_atom_with. intros p' c. quiet. apply Quiet_common_escape. intros c'. quiet. Qed.
#[local] Hint Resolve Quiet_class_atom : quiet.
Lemma Quiet_union_interval cr a b : Quiet (sl_union_interval cr a b).
Proof. unfold sl_union_interval. quiet. Qed.
Lemma Quiet_canonicalize_if c : Quiet (canonicalize_if c).
Proof. unfold canonicalize_if. quiet. Qed.
#[local] Hint Resolve Quiet_union_interval Quiet_canonicalize_if : quiet.
Lemma Quiet_add_range cr a b : Quiet (class_add_range cr a b).
Proof. unfold class_add_range. quiet. Qed.
Lemma Quiet_add_atom cr c cr1 : Quiet (class_add_atom cr c cr1).
Proof. unfold class_add_atom. quiet. Qed.
#[local] Hint Resolve Quiet_add_range Quiet_add_atom : quiet.
Lemma Quiet_class_item cr p f : Quiet (class_item cr p f).
Proof. unfold class_item, invalid_class_range. quiet. Qed.
Lemma Quiet_set_op op p : Quiet (at_set_op op p).
Proof. unfold at_set_op. quiet. Qed.
#[local] Hint Resolve Quiet_class_item Quiet_set_op : quiet.
Section Nested.
Context (nested : Z -> P (REStringList * Z)) (Hn : forall p, Quiet (nested p)).
#[local] Hint Resolve Hn : quiet.
Lemma Quiet_operand p : Quiet (re_parse_class_set_operand nested p).
Proof. unfold re_parse_class_set_operand. quiet. Qed.
#[local] Hint Resolve Quiet_operand : quiet.
Lemma Quiet_set_op_loop fuel op cr p : Quiet (set_op_loop nested fuel op cr p).
Proof. revert cr p. induction fuel; intros cr p; cbn [set_op_loop]; quiet. Qed.
#[local] Hint Resolve Quiet_set_op_loop : quiet.
Lemma Quiet_class_loop fuel cr p f : Quiet (class_loop nested fuel cr p f).
Proof. revert cr p f. induction fuel; intros cr p f; cbn [class_loop]; quiet. Qed.
End Nested.
#[local] Hint Resolve Quiet_class_loop : quiet.
Lemma Quiet_nested_class fuel p : Quiet (re_parse_nested_class fuel p).
Proof. revert p. induction fuel; intros p; cbn [re_parse_nested_class]; quiet. Qed.

(** Functions of the compiler that only read *)
Lemma Quiet_code_size : Quiet code_size.
Proof. by intros s b s' [= <- <-]. Qed.
Lemma Quiet_captures_of name : Quiet (captures_of name).
Proof. apply Quiet_option. Qed.
Lemma Quiet_group_list : Quiet group_list.
Proof. unfold group_list. quiet. Qed.
Lemma Quiet_find_group_name name : Quiet (find_group_name name).
Proof. unfold find_group_name. apply Quiet_bind; [apply Quiet_group_list|quiet]. Qed.
Lemma Quiet_duplicate name scope : Quiet (is_duplicate_group_name name scope).
Proof. unfold is_duplicate_group_name. apply Quiet_bind; [apply Quiet_group_list|quiet]. Qed.
Lemma Quiet_count_captures : Quiet re_count_captures.
Proof.
  intros s n s'. unfold re_count_captures. unfold pbind, pget. destruct (s_total_capture_count s <? 0).
  - destruct (captures_of None s) as [[[nm f] i] s1| | |] eqn:E; try done. apply Quiet_captures_of in E.
    intros [= <- <-]. by destruct E as (-> & -> & _).
  - by intros [= <- <-].
Qed.
Lemma Quiet_has_named : Quiet re_has_named_captures.
Proof. unfold re_has_named_captures. pose proof Quiet_count_captures. quiet. Qed.
Lemma Quiet_modifiers_loop fuel p mask : Quiet (modifiers_loop fuel p mask).
Proof. revert p mask. induction fuel; intros p mask; cbn [modifiers_loop]; quiet. Qed.
Lemma Quiet_parse_modifiers p : Quiet (re_parse_modifiers p).
Proof. apply Quiet_modifiers_loop. Qed.
Lemma Quiet_parse_count p : Quiet (parse_count p).
Proof. unfold parse_count. quiet; apply Quiet_expect. Qed.
#[local] Hint Resolve Quiet_parse_count Quiet_code_size : quiet.
Lemma Quiet_parse_quantifier p : Quiet (parse_quantifier p).
Proof. unfold parse_quantifier. quiet. Qed.
Lemma Quiet_atom_start : Quiet atom_start.
Proof. unfold atom_start. quiet. Qed.
Lemma Quiet_case_op a b : Quiet (case_op a b).
Proof. unfold case_op. quiet. Qed.
End Classes.
#[export] Hint Resolve Quiet_rd Quiet_with_mem Quiet_request Quiet_stack Quiet_expect Quiet_class_atom Quiet_canonicalize_if
  Quiet_nested_class Quiet_code_size Quiet_captures_of Quiet_find_group_name Quiet_duplicate Quiet_count_captures
  Quiet_has_named Quiet_parse_modifiers Quiet_parse_quantifier Quiet_atom_start Quiet_case_op : quiet.

(** ** The bytecode buffer *)
Section Buffer.
Context (ok : Z -> bool) (Hmax : forall n, ok n = true -> n <= CODE_MAX).

Definition code_ok (bc : DynBuf) : Prop := db_size bc <= db_allocated_size bc <= CODE_MAX.
Lemma code_ok_wf bc : code_ok bc -> dbuf_wf bc.
Proof. unfold code_ok, dbuf_wf, CODE_MAX, INT32_MAX. lia. Qed.

Lemma claim_code bc len bc' r : code_ok bc -> 0 <= len -> dbuf_claim ok bc len = (bc', r) ->
  db_data bc' = db_data bc /\ code_ok bc' /\ (r = true -> db_size bc + len <= db_allocated_size bc') /\
  (db_error bc' = false -> db_error bc = false) /\ (len < 2 ^ 32 -> db_error bc' = false -> r = true).
Proof.
  intros Hc Hlen E. pose proof (dbuf_claim_spec ok bc len (code_ok_wf bc Hc) Hlen) as Hs. rewrite E in Hs.
  destruct Hs as (Hd & _ & Hal & Hok & _). unfold code_ok, CODE_MAX, INT32_MAX in *. unfold db_size in *. rewrite Hd.
  assert (0 <= Z.of_nat (length (db_data bc))) by lia. revert E. unfold dbuf_claim, db_size.
  destruct (Z.ltb_spec (u64 (Z.of_nat (length (db_data bc)) + len)) len) as [Hov|Hov].
  { intros [= <- <-]. split_and!; try done; try lia. intros Hl. rewrite u64_id in Hov by lia. lia. }
  destruct (_ <? _); [|intros [= <- <-]; split_and!; try done; try lia; by intros; apply Hok].
  destruct (db_error bc) eqn:He; [intros [= <- <-]; split_and!; try done; try lia; rewrite He; done|].
  destruct (Z.ltb_spec (u64 (db_allocated_size bc + db_allocated_size bc / 2)) (db_allocated_size bc)) as [Hov2|_].
  { rewrite u64_id in Hov2 by (Z.to_euclidean_division_equations; lia). Z.to_euclidean_division_equations; lia. }
  match goal with |- context [ok ?n] => destruct (ok n) eqn:Eo end; intros [= <- <-]; cbn in *.
  - apply Hmax in Eo. unfold CODE_MAX, INT32_MAX in Eo. destruct (Hok eq_refl) as [? _]. split_and!; try done; lia.
  - split_and!; try done; lia.
Qed.

Lemma put_code bc data bc' r : code_ok bc -> Z.of_nat (length data) < 2 ^ 64 -> dbuf_put ok bc data = (bc', r) ->
  code_ok bc' /\ (db_error bc' = false -> db_error bc = false) /\
  db_data bc' = (if r then db_data bc ++ data else db_data bc) /\
  (Z.of_nat (length data) < 2 ^ 32 -> db_error bc' = false -> r = true).
Proof.
  intros Hc Hlen E. pose proof (dbuf_put_ok ok bc data (code_ok_wf bc Hc) Hlen) as Hs. rewrite E in Hs.
  destruct Hs as (Hwf & Hd). revert E. unfold dbuf_put.
  destruct (u64 _ <? _).
  - destruct (dbuf_claim ok bc _) as [bc1 r1] eqn:E1. apply claim_code in E1 as (Hd1 & Hc1 & Hr1 & He1 & Hok1); [|done|lia].
    destruct r1; intros [= <- <-].
    + unfold dbuf_wf, code_ok in *. cbn in *. split_and!; try done; try lia.
    + split_and!; try done.
  - intros [= <- <-]. unfold dbuf_wf, code_ok in *. cbn in *. split_and!; try done; try lia.
Qed.
End Buffer.

Lemma bytecode_realloc_max `{ReEnv} n size : lre_bytecode_realloc n size = true -> size <= CODE_MAX.
Proof. unfold lre_bytecode_realloc, CODE_MAX. destruct (Z.ltb_spec (INT32_MAX / 2) size); [done|lia]. Qed.

(** Everything but the bytecode is the same. *)
Definition same (s s' : REParseState) : Prop :=
  s' = set_bufs (s_byte_code s') (s_group_names s) (s_requests s') s.
Lemma same_refl s : same s s.
Proof. by destruct s. Qed.
Lemma same_trans s1 s2 s3 : same s1 s2 -> same s2 s3 -> same s1 s3.
Proof. unfold same. intros E1 E2. rewrite E2. rewrite E1. done. Qed.
Lemma same_count s s' : same s s' -> s_capture_count s' = s_capture_count s.
Proof. by intros ->. Qed.
Lemma same_names s s' : same s s' -> s_group_names s' = s_group_names s.
Proof. by intros ->. Qed.
Lemma same_ignore_case s s' : same s s' -> s_ignore_case s' = s_ignore_case s.
Proof. by intros ->. Qed.
Lemma same_mono s s' : same s s' -> (code_ok (s_byte_code s) -> code_ok (s_byte_code s')) -> (err s' = false -> err s = false) -> mono s s'.
Proof.
  intros E Hc He [H1 H2 H3]. pose proof (same_count _ _ E) as Ec. pose proof (same_names _ _ E) as En.
  split; [split; rewrite ?Ec, ?En; [by apply Hc|done|done]|]. rewrite Ec. split; [lia|done].
Qed.
Lemma code_set bc gn n s : code (set_bufs bc gn n s) = db_data bc.
Proof. done. Qed.

Section Ops.
Context `{ReEnv} `{UnicodeDb}.

Lemma put_spec f data s a s' : (forall ok bc, f ok bc = dbuf_put ok bc data) -> pinv s ->
  Z.of_nat (length data) < 2 ^ 64 -> on_byte_code f s = POk a s' ->
  same s s' /\ mono s s' /\ code s' = (if a then code s ++ data else code s) /\
  (Z.of_nat (length data) < 2 ^ 32 -> err s' = false -> a = true).
Proof.
  intros Hf Hs Hl. unfold on_byte_code. rewrite Hf. destruct (dbuf_put _ _ _) as [bc r] eqn:E. intros [= <- <-].
  pose proof Hs as [Hc _ _]. apply put_code in E as (Hc' & He & Hd & Hr); [|apply bytecode_realloc_max|done|done].
  split; [done|]. split; [by apply same_mono|]. unfold code, err. cbn. by rewrite Hd.
Qed.
Lemma claim_spec len s a s' : pinv s -> 0 <= len -> on_byte_code (fun ok bc => dbuf_claim ok bc len) s = POk a s' ->
  same s s' /\ mono s s' /\ code s' = code s /\
  (a = true -> db_size (s_byte_code s) + len <= db_allocated_size (s_byte_code s')) /\
  (len < 2 ^ 32 -> err s' = false -> a = true).
Proof.
  intros Hs Hl. unfold on_byte_code. destruct (dbuf_claim _ _ _) as [bc r] eqn:E. intros [= <- <-].
  pose proof Hs as [Hc _ _]. apply claim_code in E as (Hd & Hc' & Hr & He & Hok); [|apply bytecode_realloc_max|done|done].
  split; [done|]. split; [by apply same_mono|]. done.
Qed.
Lemma set_code_spec l s a s' : set_code l s = POk a s' -> same s s' /\ code s' = l /\ err s' = err s /\
  db_allocated_size (s_byte_code s') = db_allocated_size (s_byte_code s).
Proof. by intros [= <- <-]. Qed.
Lemma set_code_mono l s a s' : set_code l s = POk a s' -> Z.of_nat (length l) <= db_allocated_size (s_byte_code s) -> mono s s'.
Proof.
  intros (E & Hc & He & Ha)%set_code_spec Hl. apply same_mono; [done| |by rewrite He].
  unfold code_ok, db_size. fold (code s'). rewrite Hc, Ha. lia.
Qed.

(** *** [Mono] for the functions that write *)
Lemma Mono_put f data : (forall ok bc, f ok bc = dbuf_put ok bc data) -> Z.of_nat (length data) < 2 ^ 64 ->
  Mono (on_byte_code f).
Proof. intros Hf Hl s a s' E Hs. by eapply put_spec in E as (_ & Hm & _); [apply Hm|..]. Qed.
Lemma Mono_putc c : Mono (putc c).
Proof. apply Mono_bind; [by eapply Mono_put|]. intros. apply Quiet_Mono, Quiet_ret. Qed.
Lemma Mono_put_u16 c : Mono (put_u16 c).
Proof. apply Mono_bind; [by eapply Mono_put|]. intros. apply Quiet_Mono, Quiet_ret. Qed.
Lemma Mono_put_u32 c : Mono (put_u32 c).
Proof. apply Mono_bind; [by eapply Mono_put|]. intros. apply Quiet_Mono, Quiet_ret. Qed.
Lemma Mono_claim len : 0 <= len -> Mono (on_byte_code (fun ok bc => dbuf_claim ok bc len)).
Proof. intros Hl s a s' E Hs. eapply claim_spec in E as (_ & Hm & _); [|done..]. by apply Hm. Qed.
Lemma Mono_poke i v : Mono (poke i v).
Proof.
  intros s a s'. unfold poke. destruct (_ || _); [done|]. intros E Hs. eapply set_code_mono; [done| |done].
  rewrite length_insert. apply Hs.
Qed.
#[local] Hint Resolve Mono_putc Mono_put_u16 Mono_put_u32 Mono_poke : mono.
End Ops.

Ltac mono_step :=
  match goal with
  | |- Mono (pbind _ _) => apply Mono_bind; [|intros ?]
  | |- Mono (let (_, _) := ?x in _) => destruct x
  | |- Mono (if ?b then _ else _) => destruct b
  | |- Mono (match ?x with _ => _ end) => destruct x
  | _ => first [solve [eauto with mono] | solve [apply Quiet_Mono; eauto with quiet] | fail 1]
  end.
Ltac mono := repeat (cbv zeta; mono_step).
#[export] Hint Resolve Mono_putc Mono_put_u16 Mono_put_u32 Mono_poke : mono.

Section Mono.
Context `{ReEnv} `{UnicodeDb}.
Lemma Mono_pokes i l : Mono (pokes i l).
Proof. revert i. induction l; intros i; cbn [pokes]; mono. Qed.
#[local] Hint Resolve Mono_pokes : mono.
Lemma Mono_poke_u32 i v : Mono (poke_u32 i v).
Proof. apply Mono_pokes. Qed.
Lemma Mono_insert pos len : 0 <= len -> Mono (dbuf_insert pos len).
Proof.
  intros Hl s a s'. unfold dbuf_insert. intros (r & s1 & E1 & E2)%pbind_ok Hs.
  apply claim_spec in E1 as (_ & Hm & Hc & Hroom & _); [|done|done]. revert Hs. change (mono s s').
  eapply mono_trans; [done|]. destruct r; cbn [negb] in E2; [|by injection E2 as <- <-].
  unfold pbind at 1, pget in E2. cbn iota in E2. destruct (_ <? pos) eqn:Ep; [done|]. apply Z.ltb_ge in Ep.
  apply pbind_ok in E2 as (u & s2 & E2 & [= <- <-]). eapply set_code_mono; [done|].
  specialize (Hroom eq_refl). unfold db_size in Hroom. fold (code s) in Hroom. fold (code s1). rewrite Hc.
  rewrite !length_app, !length_take, !length_app, length_replicate, !length_drop. lia.
Qed.
Lemma Mono_insert_or_fail pos len : 0 <= len -> Mono (insert_or_fail pos len).
Proof. intros Hl. unfold insert_or_fail. apply Mono_bind; [by apply Mono_insert|]. intros []; mono. Qed.
#[local] Hint Resolve Mono_poke_u32 : mono.
Lemma Mono_emit_op_u32 op v : Mono (re_emit_op_u32 op v).
Proof. unfold re_emit_op_u32. mono. Qed.
Lemma Mono_emit_goto op v : Mono (re_emit_goto op v).
Proof. unfold re_emit_goto. mono. Qed.
Lemma Mono_emit_goto_u8 op a v : Mono (re_emit_goto_u8 op a v).
Proof. unfold re_emit_goto_u8. mono. Qed.
Lemma Mono_emit_goto_u8_u32 op a b v : Mono (re_emit_goto_u8_u32 op a b v).
Proof. unfold re_emit_goto_u8_u32. mono. Qed.
Lemma Mono_emit_op op : Mono (re_emit_op op).
Proof. apply Mono_putc. Qed.
Lemma Mono_emit_op_u8 op v : Mono (re_emit_op_u8 op v).
Proof. unfold re_emit_op_u8. mono. Qed.
Lemma Mono_emit_op_u16 op v : Mono (re_emit_op_u16 op v).
Proof. unfold re_emit_op_u16. mono. Qed.
#[local] Hint Resolve Mono_emit_op_u32 Mono_emit_goto Mono_emit_goto_u8 Mono_emit_goto_u8_u32 Mono_emit_op Mono_emit_op_u8
  Mono_emit_op_u16 : mono.
Lemma Mono_emit_points pts : Mono (emit_points16 pts) /\ Mono (emit_points32 pts).
Proof.
  enough (forall n, (length pts <= n)%nat -> Mono (emit_points16 pts) /\ Mono (emit_points32 pts)) as Hn by by eapply Hn.
  intros n. revert pts. induction n as [|n IH]; intros [|lo [|hi pts]] Hl; cbn in Hl |- *; try lia; try (split; mono; fail).
  destruct (IH pts ltac:(lia)). split; mono.
Qed.
Lemma Mono_emit_range cr : Mono (re_emit_range cr).
Proof. unfold re_emit_range. destruct (Mono_emit_points (cr_points cr)). mono. Qed.
Lemma Mono_emit_char c : Mono (re_emit_char c).
Proof. unfold re_emit_char. mono. Qed.
#[local] Hint Resolve Mono_emit_range Mono_emit_char : mono.
Lemma Mono_emit_chars l : Mono (emit_chars l).
Proof. induction l; cbn [emit_chars]; mono. Qed.
#[local] Hint Resolve Mono_emit_chars : mono.
Lemma Mono_emit_strings l more pos : Mono (emit_strings l more pos).
Proof. revert pos. induction l; intros pos; cbn [emit_strings]; mono. Qed.
Lemma Mono_patch_gotos n pos : Mono (patch_gotos n pos).
Proof. revert pos. induction n; intros pos; cbn [patch_gotos]; mono. Qed.
#[local] Hint Resolve Mono_emit_strings Mono_patch_gotos : mono.
Lemma Mono_emit_string_list sl : Mono (re_emit_string_list sl).
Proof. unfold re_emit_string_list. mono. Qed.
#[local] Hint Resolve Mono_emit_string_list : mono.
Lemma Mono_char_class p : Mono (re_parse_char_class p).
Proof. unfold re_parse_char_class. mono. Qed.
Lemma Mono_emit_indices l : Mono (emit_indices l).
Proof. induction l; cbn [emit_indices]; mono. Qed.
Lemma Mono_prev_if b : Mono (emit_prev_if b).
Proof. unfold emit_prev_if. mono. Qed.
#[local] Hint Resolve Mono_char_class Mono_emit_indices Mono_prev_if : mono.
Lemma Mono_term_normal_char b p c cr : Mono (term_normal_char b p c cr).
Proof. unfold term_normal_char. mono. Qed.
#[local] Hint Resolve Mono_term_normal_char : mono.
Lemma Mono_term_class_atom b p : Mono (term_class_atom b p).
Proof. unfold term_class_atom. mono. Qed.
#[local] Hint Resolve Mono_term_class_atom : mono.
Lemma Mono_term_brace b p : Mono (term_brace b p).
Proof. unfold term_brace. mono. Qed.
Lemma Mono_term_named_reference b p : Mono (term_named_reference b p).
Proof. unfold term_named_reference. mono. Qed.
Lemma Mono_term_zero b p : Mono (term_zero b p).
Proof. unfold term_zero. mono. Qed.
Lemma Mono_term_number b p : Mono (term_number b p).
Proof. unfold term_number. mono. Qed.
#[local] Hint Resolve Mono_term_brace Mono_term_named_reference Mono_term_zero Mono_term_number : mono.
Lemma Mono_term_escape b p : Mono (term_escape b p).
Proof. unfold term_escape, no_atom. mono. Qed.
#[local] Hint Resolve Mono_term_escape : mono.

(** *** Names of groups *)
Lemma name_ends_app l1 l2 prev : name_ends prev (l1 ++ l2) = name_ends prev l1 + name_ends (default prev (last l1)) l2.
Proof.
  revert prev. induction l1 as [|c l1 IH]; intros prev; [done|]. cbn [app name_ends]. rewrite IH.
  destruct l1; [cbn; lia|]. rewrite last_cons_cons. destruct (last (z :: l1)) eqn:E; [cbn [default]; cbn; lia|].
  by apply last_None in E.
Qed.
Lemma name_ends_nonneg prev l : 0 <= name_ends prev l.
Proof. revert prev. induction l as [|c l IH]; intros prev; cbn; [done|]. specialize (IH c). destruct (_ && _); lia. Qed.
Lemma name_ends_name prev name : Forall name_byte name -> name_ends prev name = 0.
Proof.
  intros Hn. revert prev. induction Hn as [|c name Hc _ IH]; intros prev; cbn; [done|]. rewrite IH.
  unfold name_byte in Hc. by rewrite (proj2 (Z.eqb_neq c 0)) by lia.
Qed.
(** What a capture may append: at most one end of a name, whatever fails. *)
Definition name_chunk (l : list Z) : Prop := Forall is_byte l /\ forall prev, name_ends prev l <= 1.
(** A put into a small buffer that fails sets the error flag, which stays set. *)
Lemma small_put ok gn data gn' r : dbuf_wf gn -> db_allocated_size gn <= 2 * db_size gn ->
  db_size gn + Z.of_nat (length data) < 2 ^ 32 -> dbuf_put ok gn data = (gn', r) ->
  db_allocated_size gn' <= 2 * db_size gn' /\ (r = false -> db_error gn' = true) /\ (db_error gn = true -> db_error gn' = true).
Proof.
  unfold dbuf_wf, dbuf_put, dbuf_claim, db_size. intros Hw Ha Hl. rewrite !u64_id by (Z.to_euclidean_division_equations; lia).
  destruct (Z.ltb_spec (db_allocated_size gn - Z.of_nat (length (db_data gn))) (Z.of_nat (length data))).
  2: { intros [= <- <-]. cbn. rewrite length_app. split_and!; done || lia. }
  destruct (Z.ltb_spec (Z.of_nat (length (db_data gn)) + Z.of_nat (length data)) (Z.of_nat (length data))); [lia|].
  destruct (_ <? _); [|intros [= <- <-]; cbn; rewrite length_app; split_and!; done || lia].
  destruct (db_error gn) eqn:He; [intros [= <- <-]; rewrite He; done|].
  destruct (Z.ltb_spec (db_allocated_size gn + db_allocated_size gn / 2) (db_allocated_size gn)); [Z.to_euclidean_division_equations; lia|].
  match goal with |- context [ok ?n] => destruct (ok n) end; intros [= <- <-]; cbn; [|done]. rewrite length_app.
  split_and!; [|done..]. destruct (Z.ltb_spec (Z.of_nat (length (db_data gn)) + Z.of_nat (length data)) (db_allocated_size gn + db_allocated_size gn / 2));
    Z.to_euclidean_division_equations; lia.
Qed.
Definition small_names (gn : DynBuf) : Prop := db_allocated_size gn <= 2 * db_size gn /\ db_size gn < 2 ^ 31.
Lemma name_put f data s a s' : (forall ok gn, f ok gn = dbuf_put ok gn data) -> dbuf_wf (s_group_names s) ->
  small_names (s_group_names s) -> Z.of_nat (length data) < 2 ^ 31 -> on_group_names f s = POk a s' ->
  dbuf_wf (s_group_names s') /\ db_data (s_group_names s') = db_data (s_group_names s) ++ (if a then data else []) /\
  s_byte_code s' = s_byte_code s /\ s_capture_count s' = s_capture_count s /\
  db_allocated_size (s_group_names s') <= 2 * db_size (s_group_names s') /\
  (a = false -> db_error (s_group_names s') = true) /\
  (db_error (s_group_names s) = true -> db_error (s_group_names s') = true).
Proof.
  intros Hf Hw [Ha Hs] Hl. unfold on_group_names. rewrite Hf. destruct (dbuf_put _ _ _) as [gn r] eqn:E. intros [= <- <-].
  pose proof (dbuf_put_ok (env_realloc (s_requests s)) _ data Hw ltac:(lia)) as Hp. rewrite E in Hp. destruct Hp as [Hw' Hd].
  apply small_put in E as (Ha' & Hr & He); [|done|done|lia]. cbn. split_and!; try done. rewrite Hd. destruct r; by rewrite ?app_nil_r.
Qed.
(** [names] appends such a chunk and leaves the rest alone. *)
Definition AddsName (names : P unit) : Prop := forall s a s', dbuf_wf (s_group_names s) -> small_names (s_group_names s) ->
  db_size (s_group_names s) < 2 ^ 30 -> names s = POk a s' ->
  dbuf_wf (s_group_names s') /\ s_byte_code s' = s_byte_code s /\ s_capture_count s' = s_capture_count s /\
  db_allocated_size (s_group_names s') <= 2 * db_size (s_group_names s') /\
  exists l, name_chunk l /\ (length l <= 140)%nat /\ db_data (s_group_names s') = db_data (s_group_names s) ++ l /\
    (db_error (s_group_names s) = true -> db_error (s_group_names s') = true) /\
    (db_error (s_group_names s') = true \/ exists name scope, Forall name_byte name /\ l = name ++ [0; scope]).
Lemma name_chunk_parts name c (r1 r2 : bool) : Forall name_byte name -> 0 <= c < 256 ->
  name_chunk ((if r1 then name ++ [0] else []) ++ (if r2 then [c] else [])).
Proof.
  intros Hn Hc. assert (Forall is_byte name) as Hb by (eapply Forall_impl; [done|]; unfold name_byte, is_byte; lia).
  split.
  - apply Forall_app. split; [destruct r1; [apply Forall_app; split; [done|]|]|destruct r2]; try done; by apply Forall_singleton.
  - intros prev. destruct r1.
    + rewrite name_ends_app, name_ends_app, name_ends_name by done. rewrite last_snoc. cbn [default].
      destruct r2; cbn [name_ends]; rewrite ?Z.eqb_refl; cbn [negb]; rewrite ?andb_false_r; destruct (_ && _); lia.
    + destruct r2; cbn [app name_ends]; [destruct (_ && _)|]; lia.
Qed.
Lemma u8_lor_pos x k : Z.testbit k 7 = true -> name_byte (u8 (Z.lor x k)).
Proof.
  intros Hk. pose proof (u8_range (Z.lor x k)). unfold name_byte. destruct (Z.eq_dec (u8 (Z.lor x k)) 0) as [E|]; [|lia].
  assert (Z.testbit (u8 (Z.lor x k)) 7 = true) as Ht.
  { unfold u8. rewrite Z.mod_pow2_bits_low by lia. by rewrite Z.lor_spec, Hk, orb_true_r. }
  by rewrite E in Ht.
Qed.
Lemma utf8_bytes c : 128 <= c -> Forall name_byte (unicode_to_utf8 c) /\ (length (unicode_to_utf8 c) <= 6)%nat.
Proof.
  intros Hc. unfold unicode_to_utf8, utf8_cont. rewrite (proj2 (Z.ltb_ge _ _)) by lia.
  repeat case_match; (split; [|cbn; lia]); rewrite ?Forall_cons, ?Forall_nil; split_and?; done || (by apply u8_lor_pos).
Qed.
Lemma ident_first_byte c : c < 128 -> lre_js_is_ident_first c = Some true -> name_byte c.
Proof.
  intros Hc. unfold lre_js_is_ident_first. rewrite (proj2 (Z.ltb_lt _ _)) by done. unfold name_byte.
  destruct (Z.ltb_spec 0 c); [lia|]. unfold lre_is_id_start_byte. replace (Z.to_nat c) with 0%nat by lia. done.
Qed.
Lemma ident_next_byte c : c < 128 -> lre_js_is_ident_next c = Some true -> name_byte c.
Proof.
  intros Hc. unfold lre_js_is_ident_next. rewrite (proj2 (Z.ltb_lt _ _)) by done. unfold name_byte.
  destruct (Z.ltb_spec 0 c); [lia|]. unfold lre_is_id_continue_byte. replace (Z.to_nat c) with 0%nat by lia. done.
Qed.
Lemma group_name_loop_bytes text fuel p name r : Forall name_byte name -> Z.of_nat (length name) < TMP_BUF_SIZE ->
  group_name_loop text fuel p name = Some (Some r) ->
  Forall name_byte r.1 /\ 0 < Z.of_nat (length r.1) < TMP_BUF_SIZE.
Proof.
  unfold TMP_BUF_SIZE. revert p name. induction fuel as [|fuel IH]; intros p name Hb Hl; cbn [group_name_loop]; [done|].
  destruct (byte_at text p) as [c0|]; [bind|done].
  destruct (c0 =? 62); [destruct (Nat.eqb_spec (length name) 0); [done|]; intros [= <-]; split; [done|cbn; lia]|].
  destruct (group_name_char text p c0) as [[[c p']|]|]; [bind|done|done].
  destruct (0x10FFFF <? c); [done|].
  destruct (if (length name =? 0)%nat then _ else _) as [ok|] eqn:Eok; [bind|done]. destruct ok; [|done]. cbn [negb].
  destruct (Z.ltb_spec TMP_BUF_SIZE (Z.of_nat (length name) + UTF8_CHAR_LEN_MAX + 1)) as [|Hroom]; [done|].
  unfold TMP_BUF_SIZE, UTF8_CHAR_LEN_MAX in Hroom.
  assert (Forall name_byte (if c <? 128 then [c] else unicode_to_utf8 c) /\
          Z.of_nat (length (if c <? 128 then [c] else unicode_to_utf8 c)) <= 6) as [Hb' Hl'].
  { destruct (Z.ltb_spec c 128); [|destruct (utf8_bytes c); [done|]; split; [done|lia]]. split; [|cbn; lia]. apply Forall_singleton.
    destruct (length name =? 0)%nat; [by apply ident_first_byte|by apply ident_next_byte]. }
  apply IH; [by apply Forall_app|]. rewrite length_app. lia.
Qed.
Lemma adds_name name c f1 f2 s a1 s1 a2 s2 : Forall name_byte name -> Z.of_nat (length name) < TMP_BUF_SIZE -> 0 <= c < 256 ->
  (forall ok gn, f1 ok gn = dbuf_put ok gn (name ++ [0])) -> (forall ok gn, f2 ok gn = dbuf_put ok gn [c]) ->
  dbuf_wf (s_group_names s) -> small_names (s_group_names s) -> db_size (s_group_names s) < 2 ^ 30 ->
  on_group_names f1 s = POk a1 s1 -> on_group_names f2 s1 = POk a2 s2 ->
  dbuf_wf (s_group_names s2) /\ s_byte_code s2 = s_byte_code s /\ s_capture_count s2 = s_capture_count s /\
  db_allocated_size (s_group_names s2) <= 2 * db_size (s_group_names s2) /\
  exists l, name_chunk l /\ (length l <= 140)%nat /\ db_data (s_group_names s2) = db_data (s_group_names s) ++ l /\
    (db_error (s_group_names s) = true -> db_error (s_group_names s2) = true) /\
    (db_error (s_group_names s2) = true \/ exists name scope, Forall name_byte name /\ l = name ++ [0; scope]).
Proof.
  intros Hn Hl Hc Hf1 Hf2 Hw Hsm Hsz E1 E2. unfold TMP_BUF_SIZE in Hl.
  eapply name_put in E1 as (Hw1 & Hd1 & Hb1 & Hc1 & Ha1 & Hr1 & He1); [|done|done|done|rewrite length_app; cbn; lia].
  assert (small_names (s_group_names s1)) as Hsm1.
  { split; [done|]. unfold db_size in *. rewrite Hd1. destruct a1; rewrite !length_app; cbn; lia. }
  eapply name_put in E2 as (Hw2 & Hd2 & Hb2 & Hc2 & Ha2 & Hr2 & He2); [|done|done|done|cbn; lia]. rewrite Hb2, Hb1, Hc2, Hc1.
  split_and!; try done. exists ((if a1 then name ++ [0] else []) ++ (if a2 then [c] else [])). split_and!.
  - by apply name_chunk_parts.
  - destruct a1, a2; rewrite !length_app; cbn; lia.
  - by rewrite Hd2, Hd1, <- app_assoc.
  - auto.
  - destruct a1; [|left; auto]. destruct a2; [|left; auto]. right. exists name, c. split; [done|]. by rewrite <- app_assoc.
Qed.
Lemma AddsName_name name : Forall name_byte name -> Z.of_nat (length name) < TMP_BUF_SIZE -> AddsName (add_name name).
Proof.
  intros Hn Hl s a s' Hw Hsm Hsz. unfold add_name. intros (s0 & s1 & [= <- <-] & E)%pbind_ok.
  apply pbind_ok in E as (r1 & s1 & E1 & E). apply pbind_ok in E as (r2 & s2 & E2 & E). injection E as <- <-. cbn.
  eapply (adds_name name (u8 (s_group_name_scope s))) in E2 as (? & ? & ? & ? & ?); [|done|done|apply u8_range|done|done|exact Hw|done|done|exact E1].
  done.
Qed.
Lemma AddsName_none : AddsName add_no_name.
Proof.
  intros s a s' Hw Hsm Hsz. unfold add_no_name. intros (r1 & s1 & E1 & E)%pbind_ok. apply pbind_ok in E as (r2 & s2 & E2 & [= <- <-]).
  by eapply (adds_name [] 0) in E2; [|done|done|done|done|done|exact Hw|done|done|exact E1].
Qed.
(** Entering a group adds one capture and emits nothing. *)
Lemma enter_capture_spec names s st ci s' : AddsName names -> pinv s -> enter_capture names s = POk (st, ci) s' ->
  mono s s' /\ s_byte_code s' = s_byte_code s /\ s_capture_count s' = s_capture_count s + 1 /\
  ci = s_capture_count s /\ st = Z.of_nat (length (code s)).
Proof.
  intros Hn Hs. unfold enter_capture. intros (u & s1 & E1 & E)%pbind_ok. pose proof Hs as [Hc Hcount (Hw & Hb & He & Hal & Hsz & Hok)].
  assert (db_size (s_group_names s) < 2 ^ 30) as Hsz' by (unfold CAPTURE_COUNT_MAX in Hcount; lia).
  apply Hn in E1 as (Hw1 & Hb1 & Hc1 & Hal1 & l & [Hl1 Hl2] & Hl3 & Hd1 & Herr & Hent); [|done|split; [done|lia]|done].
  apply pbind_ok in E as (s1' & s1'' & [= <- <-] & E).
  destruct (Z.leb_spec CAPTURE_COUNT_MAX (s_capture_count s1)) as [|Hlt]; [done|].
  apply pbind_ok in E as ([st' ci'] & s2 & E2 & E). injection E2 as <- <- <-. apply pbind_ok in E as (u' & s3 & [= <- <-] & [= <- <- <-]).
  assert (mono s (mk_pstate (s_byte_code s1) (s_buf_ptr s1) (s_ignore_case s1) (s_multi_line s1) (s_dotall s1)
    (s_group_name_scope s1) (s_capture_count s1 + 1) (s_total_capture_count s1) (s_has_named_captures s1) (s_group_names s1) (s_requests s1))) as Hm.
  { intros _. split; [split; cbn; rewrite ?Hb1; [done|lia|]|split; [cbn; lia|unfold err; cbn; by rewrite Hb1]].
    split; [done|]. rewrite Hd1. split; [by apply Forall_app|]. rewrite name_ends_app, Hc1.
    specialize (Hl2 (default 0 (last (db_data (s_group_names s))))). split; [lia|]. split; [done|].
    unfold db_size in *. rewrite Hd1, length_app. split; [lia|].
    destruct Hok as [Hok|Hok]; [left; auto|]. destruct Hent as [?|(name & scope & Hnm & ->)]; [by left|right]. by apply entries_snoc. }
  cbn. rewrite Hb1, Hc1. split_and!; try done. by rewrite <- Hc1, <- Hb1.
Qed.

(** *** Groups, quantifiers, terms *)
Section Rec.
Context (disj : bool -> P unit) (Hdisj : forall b, Mono (disj b)).
#[local] Hint Resolve Hdisj : mono.
Lemma Mono_disjunction_at b p : Mono (disjunction_at disj b p).
Proof. unfold disjunction_at. mono. Qed.
#[local] Hint Resolve Mono_disjunction_at : mono.
Lemma Mono_plain_group b p : Mono (term_plain_group disj b p).
Proof. unfold term_plain_group, expect_paren. mono. Qed.
Lemma Mono_term_modifiers b p : Mono (term_modifiers disj b p).
Proof. unfold term_modifiers, expect_paren. mono. Qed.
Lemma Mono_lookahead n b p : Mono (term_lookahead disj n b p).
Proof. unfold term_lookahead, expect_paren. mono. Qed.
Lemma Mono_enter names : AddsName names -> Mono (enter_capture names).
Proof. intros Hn s [st ci] s' E Hs. by eapply enter_capture_spec in E as (Hm & _); [apply Hm| |]. Qed.
Lemma Mono_capture names b p : AddsName names -> Mono (term_capture disj names b p).
Proof. intros Hn. unfold term_capture, expect_paren. apply Mono_bind; [by apply Mono_enter|]. intros []. mono. Qed.
#[local] Hint Resolve Mono_plain_group Mono_term_modifiers Mono_lookahead : mono.
Lemma Mono_named_group b p : Mono (term_named_group disj b p).
Proof.
  intros s a s'. unfold term_named_group. intros (r & s1 & E1 & E)%pbind_ok. unfold of_option in E1.
  destruct (re_parse_group_name env_text (p + 3)) as [r'|] eqn:En; [|done]. injection E1 as -> ->.
  destruct r as [[name p']|]; [|done]. apply group_name_loop_bytes in En as [Hb Hl]; [|done|done]. cbn [fst] in *.
  revert E. match goal with |- ?m _ = _ -> _ => enough (Mono m) as Hm by (intros E; by eapply Hm) end.
  apply Mono_bind; [mono|]. intros. apply Mono_bind; [mono|]. intros []; [mono|]. apply Mono_capture, AddsName_name; [done|lia].
Qed.
Lemma Mono_plain_capture b p : Mono (term_capture disj add_no_name b p).
Proof. apply Mono_capture, AddsName_none. Qed.
#[local] Hint Resolve Mono_named_group Mono_plain_capture : mono.
Lemma Mono_group b p : Mono (term_group disj b p).
Proof. unfold term_group. mono. Qed.
#[local] Hint Resolve Mono_group : mono.
Lemma Mono_atom b p : Mono (term_atom disj b p).
Proof. unfold term_atom, no_atom. mono. Qed.
#[local] Hint Resolve Mono_atom : mono.

Lemma bz_range b : 0 <= bz b <= 1.
Proof. by destruct b. Qed.
Lemma Mono_save_reset pos c : Mono (insert_save_reset pos c).
Proof. unfold insert_save_reset. apply Mono_bind; [by apply Mono_insert_or_fail|]. intros. mono. Qed.
Lemma Mono_loop_split g c m st : Mono (emit_loop_split g c m st).
Proof. unfold emit_loop_split. mono. Qed.
#[local] Hint Resolve Mono_save_reset Mono_loop_split : mono.
Lemma Mono_truncate n : Mono (let? s := pget in set_code (take n (db_data (s_byte_code s)))).
Proof.
  intros s a s' (s0 & s1 & [= <- <-] & E)%pbind_ok. intros Hs. eapply set_code_mono; [done| |done].
  rewrite length_take. destruct Hs as [Hc _ _]. unfold db_size in Hc. lia.
Qed.
#[local] Hint Resolve Mono_truncate : mono.
Lemma Mono_optional st len m g c : Mono (quantify_optional st len m g c).
Proof.
  unfold quantify_optional. pose proof (bz_range c). destruct (m =? 0); [apply Mono_truncate|].
  destruct (_ || _); (apply Mono_bind; [apply Mono_insert_or_fail; lia|]); intros; mono.
Qed.
Lemma Mono_repeated st a m g c : Mono (quantify_repeated st a m g c).
Proof.
  unfold quantify_repeated. destruct (_ && _); [mono|]. cbv zeta.
  apply Mono_bind; [apply Mono_insert_or_fail; pose proof (bz_range (if a =? m then false else c)); lia|]. intros; mono.
Qed.
#[local] Hint Resolve Mono_optional Mono_repeated : mono.
Lemma Mono_quantify st c a m g : Mono (quantify st c a m g).
Proof. unfold quantify. mono. Qed.
#[local] Hint Resolve Mono_quantify : mono.
Lemma Mono_term b : Mono (re_parse_term disj b).
Proof. unfold re_parse_term. mono. Qed.
Lemma Mono_move st ts : Mono (move_term st ts).
Proof.
  intros s a s'. unfold move_term. intros (n & s1 & [= <- <-] & E)%pbind_ok.
  destruct ((ts <? st) || _) eqn:Eg; [done|]. apply orb_false_iff in Eg as [_ Hn%Z.ltb_ge].
  apply pbind_ok in E as (r & s2 & E2 & E). apply Mono_claim in E2; [|done]. destruct r; [|done]. cbn [negb] in E.
  eapply mono_trans; [exact E2|]. apply pbind_ok in E as (s3 & s3' & [= <- <-] & E). intros Hs.
  eapply set_code_mono; [done| |done]. destruct Hs as [Hc _ _]. unfold db_size in Hc.
  rewrite !length_app, length_take, length_drop, length_take, length_drop. lia.
Qed.
#[local] Hint Resolve Mono_term Mono_move : mono.
Lemma Mono_alternative_loop fuel b st : Mono (re_parse_alternative disj fuel b st).
Proof. induction fuel; cbn [re_parse_alternative]; mono. Qed.
Lemma Mono_alternative b : Mono (alternative disj b).
Proof. unfold alternative. apply Mono_bind; [mono|]. intros. apply Mono_alternative_loop. Qed.
#[local] Hint Resolve Mono_alternative : mono.
Lemma Mono_disjunction_loop fuel b st : Mono (disjunction_loop disj fuel b st).
Proof.
  induction fuel; cbn [disjunction_loop]; [mono|]. do 2 (apply Mono_bind; [mono|intros ?]). destruct (negb _); [mono|].
  do 2 (apply Mono_bind; [mono|intros ?]). cbv zeta. apply Mono_bind; [by apply Mono_insert_or_fail|]. intros. mono.
Qed.
End Rec.
Lemma Mono_disjunction fuel b : Mono (re_parse_disjunction fuel b).
Proof.
  revert b. induction fuel as [|fuel IH]; intros b; cbn [re_parse_disjunction]; [mono|].
  do 2 (apply Mono_bind; [mono|intros ?]). apply Mono_bind; [by apply Mono_alternative|]. intros. by apply Mono_disjunction_loop.
Qed.
End Mono.
#[export] Hint Resolve Mono_pokes Mono_poke_u32 Mono_emit_op_u32 Mono_emit_goto Mono_emit_goto_u8 Mono_emit_goto_u8_u32
  Mono_emit_op Mono_emit_op_u8 Mono_emit_op_u16 Mono_emit_range Mono_emit_char Mono_emit_chars Mono_emit_strings
  Mono_patch_gotos Mono_emit_string_list Mono_char_class Mono_emit_indices Mono_prev_if Mono_term_normal_char
  Mono_term_class_atom Mono_term_brace Mono_term_named_reference Mono_term_zero Mono_term_number Mono_term_escape
  Mono_disjunction_at Mono_plain_group Mono_term_modifiers Mono_lookahead Mono_capture Mono_named_group Mono_plain_capture
  Mono_group Mono_atom Mono_save_reset Mono_loop_split Mono_truncate Mono_optional Mono_repeated Mono_quantify
  Mono_term Mono_move Mono_alternative_loop Mono_alternative Mono_disjunction_loop Mono_disjunction : mono.
