(* ===== verification/RegexpTyped.v ===== *)
(** * The compiler emits well-typed bytecode

    As long as the error flag of the bytecode stays clear, what the parser of a
    term emits is a block in the sense of [block]; so a compilation that
    succeeds gives bytecode that [re_check] accepts. *)
From S2P Require Import Prelude Sort SortProps Cutils Utf8 CharRange UnicodeTables UnicodeCase UnicodeCaseProps UnicodeProp.
From S2P Require Import Regexp RegexpSim RegexpUndo RegexpSearch RegexpRange RegexpType RegexpRegs RegexpParse RegexpCompile.
From S2P Require Import RegexpBlock RegexpMono.

(** What holds after [m] when it returns with the flag clear. *)
Definition typed {A} (s : REParseState) (m : P A) (Q : A -> REParseState -> Prop) : Prop :=
  pinv s -> err s = false -> forall a s', m s = POk a s' -> err s' = false -> Q a s'.

Lemma typed_bind {A B} s (m : P A) (k : A -> P B) Q : Mono m -> (forall a, Mono (k a)) ->
  typed s m (fun a s1 => typed s1 (k a) Q) -> typed s (pbind m k) Q.
Proof.
  intros Hm Hk Ht Hs He b s2 (a & s1 & E1 & E2)%pbind_ok He2.
  destruct (Hm _ _ _ E1 Hs) as (Hs1 & _ & _). destruct (Hk _ _ _ _ E2 Hs1) as (_ & _ & He1).
  exact (Ht Hs He a s1 E1 (He1 He2) Hs1 (He1 He2) b s2 E2 He2).
Qed.
Lemma typed_conseq {A} s (m : P A) (Q Q' : A -> REParseState -> Prop) : Mono m -> typed s m Q ->
  (forall a s', pinv s' -> s_capture_count s <= s_capture_count s' -> Q a s' -> Q' a s') -> typed s m Q'.
Proof.
  intros Hm Ht HQ Hs He a s' E He'. destruct (Hm _ _ _ E Hs) as (Hs' & Hle & _).
  apply HQ; [done|done|]. by apply Ht.
Qed.
Lemma typed_ret {A} s (a : A) (Q : A -> REParseState -> Prop) : Q a s -> typed s (pret a) Q.
Proof. by intros HQ _ _ b s' [= <- <-] _. Qed.
Lemma typed_get s (Q : REParseState -> REParseState -> Prop) : Q s s -> typed s pget Q.
Proof. by intros HQ _ _ b s' [= <- <-] _. Qed.
Lemma typed_quiet {A} s (m : P A) (Q : A -> REParseState -> Prop) : Quiet m ->
  (forall a s', quiet s s' -> Q a s') -> typed s m Q.
Proof. intros Hm HQ _ _ a s' E _. apply HQ. by eapply Hm. Qed.
Lemma typed_option {A} s (o : option A) (Q : A -> REParseState -> Prop) :
  (forall a, o = Some a -> Q a s) -> typed s (of_option o) Q.
Proof. intros HQ _ _ a s'. unfold of_option. destruct o; [|done]. intros [= <- <-] _. by apply HQ. Qed.
Lemma typed_error {A} s msg (Q : A -> REParseState -> Prop) : typed s (re_parse_error msg) Q.
Proof. by intros _ _ a s'. Qed.
Lemma typed_fail {A} s (Q : A -> REParseState -> Prop) : typed s pfail Q.
Proof. by intros _ _ a s'. Qed.
Lemma typed_wrong {A} s (Q : A -> REParseState -> Prop) : typed s pwrong Q.
Proof. by intros _ _ a s'. Qed.
Lemma typed_pre {A} s (m : P A) Q : (pinv s -> err s = false -> typed s m Q) -> typed s m Q.
Proof. intros Ht Hs He. by apply Ht. Qed.

Lemma quiet_code s s' : quiet s s' -> code s' = code s.
Proof. intros (E & _ & _). unfold code. by rewrite E. Qed.
Lemma quiet_count s s' : quiet s s' -> s_capture_count s' = s_capture_count s.
Proof. by intros (_ & _ & E). Qed.

Section Emit.
Context `{ReEnv} `{UnicodeDb}.

(** ** Primitive writes *)
Lemma typed_size s (Q : Z -> REParseState -> Prop) : Q (Z.of_nat (length (code s))) s -> typed s code_size Q.
Proof. by intros HQ _ _ b s' [= <- <-] _. Qed.
Lemma typed_put f data s (Q : unit -> REParseState -> Prop) : (forall ok bc, f ok bc = dbuf_put ok bc data) ->
  Z.of_nat (length data) < 2 ^ 32 -> (forall s', same s s' -> code s' = code s ++ data -> Q tt s') ->
  typed s (let? _ := on_byte_code f in pret tt) Q.
Proof.
  intros Hf Hl HQ Hs He a s' (r & s1 & E1 & [= <- <-])%pbind_ok He'.
  eapply put_spec in E1 as (Hsame & _ & Hc & Hr); [|done|done|lia]. rewrite (Hr Hl He') in Hc. by apply HQ.
Qed.
Lemma typed_putc c s (Q : unit -> REParseState -> Prop) :
  (forall s', same s s' -> code s' = code s ++ [u8 c] -> Q tt s') -> typed s (putc c) Q.
Proof. intros HQ. by eapply typed_put. Qed.
Lemma typed_put_u16 v s (Q : unit -> REParseState -> Prop) :
  (forall s', same s s' -> code s' = code s ++ le_bytes 2 (u16 v) -> Q tt s') -> typed s (put_u16 v) Q.
Proof. intros HQ. by eapply typed_put. Qed.
Lemma typed_put_u32 v s (Q : unit -> REParseState -> Prop) :
  (forall s', same s s' -> code s' = code s ++ le_bytes 4 (u32 v) -> Q tt s') -> typed s (put_u32 v) Q.
Proof. intros HQ. by eapply typed_put. Qed.

Lemma insert_mid {A} (pre rest : list A) x y : <[length pre := y]> (pre ++ x :: rest) = pre ++ y :: rest.
Proof. rewrite insert_app_r_alt by lia. by rewrite Nat.sub_diag. Qed.
Lemma pokes_spec l : forall i s pre old rest a s', pokes i l s = POk a s' ->
  code s = pre ++ old ++ rest -> i = Z.of_nat (length pre) -> length old = length l ->
  same s s' /\ code s' = pre ++ (u8 <$> l) ++ rest /\ err s' = err s.
Proof.
  induction l as [|v l IH]; intros i s pre old rest a s' E Hc Hi Hl; cbn [pokes] in E.
  - destruct old; [|done]. injection E as <- <-. split; [apply same_refl|done].
  - destruct old as [|x old]; [done|]. cbn [length] in Hl. cbn [app] in Hc. apply pbind_ok in E as (u & s1 & E1 & E).
    unfold poke in E1. destruct (_ || _); [done|]. apply set_code_spec in E1 as (Hsame & Hc1 & He1 & _).
    unfold code in Hc. rewrite Hc in Hc1. rewrite Hi, Nat2Z.id in Hc1. rewrite insert_mid in Hc1.
    eapply (IH _ _ (pre ++ [u8 v]) old rest) in E as (Hsame' & Hc' & He'); [|by rewrite Hc1, <- app_assoc|rewrite length_app; cbn; lia|lia].
    split_and!; [by eapply same_trans|by rewrite Hc', <- app_assoc|congruence].
Qed.
Lemma poke_spec i v s pre x rest a s' : poke i v s = POk a s' ->
  code s = pre ++ x :: rest -> i = Z.of_nat (length pre) ->
  same s s' /\ code s' = pre ++ u8 v :: rest /\ err s' = err s.
Proof.
  intros E Hc Hi. destruct a. eapply (pokes_spec [v] i s pre [x] rest); try done. cbn [pokes]. unfold pbind. by rewrite E.
Qed.
Lemma typed_pokes l i s pre old rest (Q : unit -> REParseState -> Prop) :
  code s = pre ++ old ++ rest -> i = Z.of_nat (length pre) -> length old = length l ->
  (forall s', same s s' -> code s' = pre ++ (u8 <$> l) ++ rest -> Q tt s') -> typed s (pokes i l) Q.
Proof.
  intros Hc Hi Hl HQ _ _ [] s' E _. eapply pokes_spec in E as (Hs & Hc' & _); [|done..]. by apply HQ.
Qed.
Lemma typed_poke i v s pre x rest (Q : unit -> REParseState -> Prop) :
  code s = pre ++ x :: rest -> i = Z.of_nat (length pre) ->
  (forall s', same s s' -> code s' = pre ++ u8 v :: rest -> Q tt s') -> typed s (poke i v) Q.
Proof.
  intros Hc Hi HQ Hs He a s1 E1 He1. destruct a. eapply (typed_pokes [v] i s pre [x] rest Q); try done.
  cbn [pokes]. unfold pbind. by rewrite E1.
Qed.
Lemma u8_le_bytes n v : u8 <$> le_bytes n v = le_bytes n v.
Proof. revert v. induction n as [|n IH]; intros v; cbn; [done|]. rewrite IH. f_equal. unfold u8. by rewrite Z.mod_mod. Qed.
Lemma typed_poke_u32 i v s pre old rest (Q : unit -> REParseState -> Prop) :
  code s = pre ++ old ++ rest -> i = Z.of_nat (length pre) -> length old = 4%nat ->
  (forall s', same s s' -> code s' = pre ++ le_bytes 4 (u32 v) ++ rest -> Q tt s') -> typed s (poke_u32 i v) Q.
Proof.
  intros Hc Hi Hl HQ. eapply typed_pokes; [done|done|by rewrite le_bytes_length|]. intros s' Hsame. rewrite u8_le_bytes. by apply HQ.
Qed.

Lemma typed_insert pos len s pre rest (Q : unit -> REParseState -> Prop) :
  code s = pre ++ rest -> pos = Z.of_nat (length pre) -> 0 <= len < 2 ^ 32 ->
  (forall s' gap, same s s' -> Z.of_nat (length gap) = len -> code s' = pre ++ gap ++ rest -> Q tt s') ->
  typed s (insert_or_fail pos len) Q.
Proof.
  intros Hc Hpos Hlen HQ Hs He a s'. unfold insert_or_fail, dbuf_insert. intros (r & s1 & E1 & E)%pbind_ok He'.
  apply pbind_ok in E1 as (r1 & s2 & E2 & E1). apply claim_spec in E2 as (Hsame & _ & Hc2 & _ & _); [|done|lia].
  destruct r1; cbn [negb] in E1; [|injection E1 as <- <-; done].
  apply pbind_ok in E1 as (s2' & s2'' & [= <- <-] & E1). fold (code s2) in E1. rewrite Hc2, Hc, Hpos, Nat2Z.id in E1.
  destruct (_ <? _); [done|]. apply pbind_ok in E1 as (u & s3 & E3 & [= <- <-]).
  apply set_code_spec in E3 as (Hsame3 & Hc3 & _ & _). injection E as <- <-.
  rewrite take_app_length, drop_app_length in Hc3. eapply HQ; [by eapply same_trans| |exact Hc3].
  rewrite length_take, length_app, length_replicate. lia.
Qed.

(** ** Emitting one instruction *)
Lemma u8_reop op : u8 (reop op) = reop op.
Proof. apply u8_id, reop_byte. Qed.
Definition emits (s : REParseState) (i : insn) (s' : REParseState) : Prop :=
  same s s' /\ code s' = code s ++ insn_bytes i.

Lemma typed_emit_op op s (Q : unit -> REParseState -> Prop) :
  (forall s', emits s (mk_insn op []) s' -> Q tt s') -> typed s (re_emit_op (reop op)) Q.
Proof. intros HQ. apply typed_putc. intros s' Hsame Hc. rewrite u8_reop in Hc. by apply HQ. Qed.
Lemma typed_emit_op_u8 op v s (Q : unit -> REParseState -> Prop) :
  (forall s', emits s (mk_insn op [u8 v]) s' -> Q tt s') -> typed s (re_emit_op_u8 (reop op) v) Q.
Proof.
  intros HQ. apply typed_bind; [mono|intros; mono|]. apply typed_putc. intros s1 Hs1 Hc1. apply typed_putc. intros s2 Hs2 Hc2.
  apply HQ. split; [by eapply same_trans|]. by rewrite Hc2, Hc1, u8_reop, <- app_assoc.
Qed.
Lemma typed_emit_op_u16 op v s (Q : unit -> REParseState -> Prop) :
  (forall s', emits s (mk_insn op (le_bytes 2 (u16 v))) s' -> Q tt s') -> typed s (re_emit_op_u16 (reop op) v) Q.
Proof.
  intros HQ. apply typed_bind; [mono|intros; mono|]. apply typed_putc. intros s1 Hs1 Hc1. apply typed_put_u16. intros s2 Hs2 Hc2.
  apply HQ. split; [by eapply same_trans|]. by rewrite Hc2, Hc1, u8_reop, <- app_assoc.
Qed.
Lemma typed_emit_op_u32 op v s (Q : Z -> REParseState -> Prop) :
  (forall s', emits s (jmp op v) s' -> Q (Z.of_nat (length (code s)) + 1) s') -> typed s (re_emit_op_u32 (reop op) v) Q.
Proof.
  intros HQ. apply typed_bind; [mono|intros; mono|]. apply typed_putc. intros s1 Hs1 Hc1.
  apply typed_bind; [mono|intros; mono|]. apply typed_size. apply typed_bind; [mono|intros; mono|]. apply typed_put_u32. intros s2 Hs2 Hc2.
  apply typed_ret. replace (Z.of_nat (length (code s1))) with (Z.of_nat (length (code s)) + 1) by (rewrite Hc1, length_app; cbn; lia).
  apply HQ. split; [by eapply same_trans|]. by rewrite Hc2, Hc1, u8_reop, <- app_assoc.
Qed.
Lemma typed_emit_goto op target s (Q : Z -> REParseState -> Prop) :
  (forall s' pos, emits s (jmp op (target - (Z.of_nat (length (code s)) + 5))) s' -> Q pos s') ->
  typed s (re_emit_goto (reop op) target) Q.
Proof.
  intros HQ. apply typed_bind; [mono|intros; mono|]. apply typed_putc. intros s1 Hs1 Hc1.
  apply typed_bind; [mono|intros; mono|]. apply typed_size. apply typed_bind; [mono|intros; mono|]. apply typed_put_u32. intros s2 Hs2 Hc2.
  apply typed_ret. apply HQ. split; [by eapply same_trans|]. rewrite Hc2, Hc1, u8_reop, <- app_assoc. unfold jmp, insn_bytes.
  cbn [i_op i_args app]. do 5 f_equal. rewrite length_app. cbn. lia.
Qed.
Lemma typed_emit_loop target s (Q : Z -> REParseState -> Prop) :
  (forall s' pos, emits s (loop_jmp (target - (Z.of_nat (length (code s)) + 6))) s' -> Q pos s') ->
  typed s (re_emit_goto_u8 (reop REOP_loop) 0 target) Q.
Proof.
  intros HQ. apply typed_bind; [mono|intros; mono|]. apply typed_putc. intros s1 Hs1 Hc1.
  apply typed_bind; [mono|intros; mono|]. apply typed_putc. intros s2 Hs2 Hc2. apply typed_bind; [mono|intros; mono|].
  apply typed_size. apply typed_bind; [mono|intros; mono|]. apply typed_put_u32. intros s3 Hs3 Hc3.
  apply typed_ret. apply HQ. split; [by do 2 (eapply same_trans; [done|])|].
  rewrite Hc3, Hc2, Hc1, u8_reop, <- !app_assoc. unfold loop_jmp, insn_bytes. cbn [i_op i_args app]. do 6 f_equal. rewrite !length_app. cbn. lia.
Qed.
Lemma typed_emit_loop_split op n target s (Q : Z -> REParseState -> Prop) :
  (forall s' pos, emits s (loop_split op n (target - (Z.of_nat (length (code s)) + 10))) s' -> Q pos s') ->
  typed s (re_emit_goto_u8_u32 (reop op) 0 n target) Q.
Proof.
  intros HQ. apply typed_bind; [mono|intros; mono|]. apply typed_putc. intros s1 Hs1 Hc1.
  apply typed_bind; [mono|intros; mono|]. apply typed_putc. intros s2 Hs2 Hc2. apply typed_bind; [mono|intros; mono|].
  apply typed_put_u32. intros s3 Hs3 Hc3. apply typed_bind; [mono|intros; mono|].
  apply typed_size. apply typed_bind; [mono|intros; mono|]. apply typed_put_u32. intros s4 Hs4 Hc4.
  apply typed_ret. apply HQ. split; [by do 3 (eapply same_trans; [done|])|].
  assert (length (code s3) = length (code s) + 6)%nat as Hl3 by (rewrite Hc3, Hc2, Hc1, !length_app, le_bytes_length; cbn; lia).
  replace (Z.of_nat (length (code s3)) + 4) with (Z.of_nat (length (code s)) + 10) in Hc4 by lia.
  rewrite Hc4, Hc3, Hc2, Hc1, u8_reop, <- !app_assoc. done.
Qed.

(** ** Blocks *)
Definition grown (s s' : REParseState) : Prop :=
  exists b, code s' = code s ++ code_bytes b /\ block (s_capture_count s') b.
(** A function that emits a block. *)
Definition EmitsBlock {A} (m : P A) : Prop := Mono m /\ forall s, typed s m (fun _ s' => grown s s').

Lemma grown_quiet s s' : quiet s s' -> grown s s'.
Proof. intros Hq. exists []. rewrite (quiet_code _ _ Hq), app_nil_r. split; [done|apply block_nil]. Qed.
Lemma grown_trans s1 s2 s3 : s_capture_count s2 <= s_capture_count s3 -> grown s1 s2 -> grown s2 s3 -> grown s1 s3.
Proof.
  intros Hle (b1 & E1 & B1) (b2 & E2 & B2). exists (b1 ++ b2). rewrite E2, E1, code_bytes_app, app_assoc. split; [done|].
  apply block_app; [by eapply block_mono|done].
Qed.
Lemma grown_insn s i s' : emits s i s' -> block (s_capture_count s) [i] -> grown s s'.
Proof.
  intros [Hsame Hc] Hb. exists [i]. rewrite Hc, code_bytes_cons, app_nil_r, (same_count _ _ Hsame). done.
Qed.
Lemma typed_grown {A} s (m : P A) (Q : A -> REParseState -> Prop) : EmitsBlock m ->
  (forall a s', pinv s' -> grown s s' -> s_capture_count s <= s_capture_count s' -> Q a s') -> typed s m Q.
Proof.
  intros [Hm Ht] HQ. apply (typed_conseq _ _ (fun _ s' => grown s s')); [done|apply Ht|]. auto.
Qed.
Lemma EB_quiet {A} (m : P A) : Quiet m -> EmitsBlock m.
Proof. intros Hq. split; [by apply Quiet_Mono|]. intros s. apply typed_quiet; [done|]. intros a s'. apply grown_quiet. Qed.
Lemma EB_bind {A B} (m : P A) (k : A -> P B) : EmitsBlock m -> (forall a, EmitsBlock (k a)) -> EmitsBlock (pbind m k).
Proof.
  intros Hm Hk. assert (forall a, Mono (k a)) as Hk' by (intros a; apply Hk).
  split; [by apply Mono_bind; [apply Hm|]|]. intros s. apply typed_bind; [apply Hm|done|].
  apply typed_grown; [done|]. intros a s1 Hs1 Hg1 _. apply typed_grown; [done|]. intros b s2 Hs2 Hg2 Hle.
  by eapply grown_trans.
Qed.

(** *** Instructions that are blocks *)
Definition simple (op : REOPCodeEnum) : bool :=
  match op with
  | REOP_dot | REOP_any | REOP_space | REOP_not_space
  | REOP_line_start | REOP_line_start_m | REOP_line_end | REOP_line_end_m
  | REOP_word_boundary | REOP_word_boundary_i | REOP_not_word_boundary | REOP_not_word_boundary_i
  | REOP_prev => true
  | _ => false
  end.
Lemma EB_op op : simple op = true -> EmitsBlock (re_emit_op (reop op)).
Proof.
  intros Hop. split; [mono|]. intros s. apply typed_emit_op. intros s' Hi. eapply grown_insn; [exact Hi|].
  apply block_straight; [by destruct op|split; [done|exists 1, 0; by destruct op]|intros c; by destruct op].
Qed.
Lemma le_bytes2 v : Forall is_byte (le_bytes 2 (u16 v)) /\ forall l, get_u16 (le_bytes 2 (u16 v) ++ l) 0 = Some (u16 v).
Proof.
  assert (0 <= u16 v < 2 ^ 16) as Hv by (by apply Z.mod_pos_bound). cbn [le_bytes app]. split.
  - rewrite !Forall_cons, Forall_nil. unfold is_byte. split_and!; try done; Z.to_euclidean_division_equations; lia.
  - intros l. change (Some (u16 v mod 256 + Z.shiftl (u16 v / 256 mod 256) 8) = Some (u16 v)). f_equal.
    rewrite Z.shiftl_mul_pow2 by lia.
    Z.to_euclidean_division_equations; lia.
Qed.
Lemma EB_char c : EmitsBlock (re_emit_char c).
Proof.
  unfold re_emit_char. split; [mono|]. intros s.
  destruct (c <=? 0xffff); (apply typed_bind; [mono|intros; mono|]); unfold case_op;
    (apply typed_bind; [mono|intros; mono|]); apply typed_get, typed_ret.
  - apply typed_emit_op_u16. intros s' Hi. eapply grown_insn; [exact Hi|]. destruct (le_bytes2 c) as [Hb _].
    apply block_straight; [by destruct (s_ignore_case s)| |by destruct (s_ignore_case s)].
    split; [done|]. exists 3, 0. by destruct (s_ignore_case s).
  - apply typed_bind; [mono|intros; mono|]. apply typed_emit_op_u32. intros s' Hi. apply typed_ret. eapply grown_insn; [exact Hi|].
    apply block_straight; [by destruct (s_ignore_case s)| |by destruct (s_ignore_case s)].
    split; [apply le_bytes4_bytes|]. exists 5, 0. by destruct (s_ignore_case s).
Qed.
Lemma EB_chars l : EmitsBlock (emit_chars l).
Proof. induction l; cbn [emit_chars]; [by apply EB_quiet, Quiet_ret|]. apply EB_bind; [apply EB_char|done]. Qed.

(** *** Ranges *)
Definition points_spec (w : Z) (pts : list Z) (s : REParseState) (_ : unit) (s' : REParseState) : Prop :=
  same s s' /\ Z.even (Z.of_nat (length pts)) = true /\
  exists l, code s' = code s ++ l /\ Z.of_nat (length l) = w * Z.of_nat (length pts) /\ Forall is_byte l.
Lemma points_spec_nil w s : points_spec w [] s tt s.
Proof. split; [apply same_refl|]. split; [done|]. exists []. rewrite app_nil_r. split_and!; try done. cbn. lia. Qed.
Lemma points_spec_cons w pts lo hi s s1 s' l : same s s1 -> code s1 = code s ++ l -> Z.of_nat (length l) = 2 * w ->
  Forall is_byte l -> points_spec w pts s1 tt s' -> points_spec w (lo :: hi :: pts) s tt s'.
Proof.
  intros Hs Hc Hl Hb (Hs' & He & l' & Hc' & Hl' & Hb'). split; [by eapply same_trans|]. cbn [length]. split.
  - by rewrite !Nat2Z.inj_succ, Z.even_succ_succ.
  - exists (l ++ l'). rewrite Hc', Hc, app_assoc, length_app. split_and!; [done|lia|by apply Forall_app].
Qed.
Lemma typed_points16 n : forall pts s, (length pts <= n)%nat -> typed s (emit_points16 pts) (points_spec 2 pts s).
Proof.
  induction n as [|n IH]; intros [|lo [|hi pts]] s Hn; cbn in Hn; try lia; try (apply typed_ret, points_spec_nil);
    cbn [emit_points16]; [apply typed_wrong|]. destruct (Mono_emit_points pts) as [? _].
  apply typed_bind; [mono|intros; mono|]. apply typed_put_u16. intros s1 Hs1 Hc1. cbv zeta.
  apply typed_bind; [mono|intros; mono|]. apply typed_put_u16. intros s2 Hs2 Hc2.
  apply (typed_conseq _ _ (points_spec 2 pts s2)); [done|apply IH; lia|]. intros [] s' _ _ Hp.
  eapply points_spec_cons; [by eapply same_trans|by rewrite Hc2, Hc1, <- app_assoc|done| |done].
  apply Forall_app. split; apply le_bytes2.
Qed.
Lemma typed_points32 n : forall pts s, (length pts <= n)%nat -> typed s (emit_points32 pts) (points_spec 4 pts s).
Proof.
  induction n as [|n IH]; intros [|lo [|hi pts]] s Hn; cbn in Hn; try lia; try (apply typed_ret, points_spec_nil);
    cbn [emit_points32]; [apply typed_wrong|]. destruct (Mono_emit_points pts) as [_ ?].
  apply typed_bind; [mono|intros; mono|]. apply typed_put_u32. intros s1 Hs1 Hc1.
  apply typed_bind; [mono|intros; mono|]. apply typed_put_u32. intros s2 Hs2 Hc2.
  apply (typed_conseq _ _ (points_spec 4 pts s2)); [done|apply IH; lia|]. intros [] s' _ _ Hp.
  eapply points_spec_cons; [by eapply same_trans|by rewrite Hc2, Hc1, <- app_assoc|done| |done].
  apply Forall_app. split; apply le_bytes4_bytes.
Qed.
Lemma grown_range w op len pts s s1 s2 : (w = 2 /\ (op = REOP_range \/ op = REOP_range_i) \/ w = 4 /\ (op = REOP_range32 \/ op = REOP_range32_i)) ->
  emits s (mk_insn op (le_bytes 2 (u16 len))) s1 -> len = Z.of_nat (length pts) / 2 -> 1 <= len < 65535 ->
  points_spec w pts s1 tt s2 -> grown s s2.
Proof.
  intros Hw [Hs1 Hc1] Hlen Hr (Hs2 & He & l & Hc2 & Hl & Hb).
  exists [mk_insn op (le_bytes 2 (u16 len) ++ l)]. split; [rewrite Hc2, Hc1, code_bytes_cons, app_nil_r, <- app_assoc; done|].
  destruct (le_bytes2 len) as [Hb2 Hg]. assert (u16 len = len) as Hu by (apply Z.mod_small; lia).
  assert (Z.of_nat (length pts) = 2 * len) as Hev.
  { apply Z.even_spec in He as [k Hk]. rewrite Hk, Z.mul_comm, Z.div_mul in Hlen by lia. lia. }
  apply block_straight.
  - by destruct Hw as [[_ [-> | ->]]|[_ [-> | ->]]].
  - split; [by apply Forall_app|]. exists 3, (w * Z.of_nat (length pts)). unfold ilen. cbn [i_args i_op].
    rewrite length_app, le_bytes_length. split_and!; [by destruct Hw as [[_ [-> | ->]]|[_ [-> | ->]]]| |lia].
    assert (get_u16 (insn_bytes (mk_insn op (le_bytes 2 (u16 len) ++ l))) (0 + 1) = Some len) as E.
    { pose proof (get_u16_app_r [reop op] (le_bytes 2 (u16 len) ++ l) 0 ltac:(lia)) as E. rewrite Hg in E. rewrite <- Hu at 2. exact E. }
    destruct Hw as [[-> [-> | ->]]|[-> [-> | ->]]]; cbn [instr_extra]; rewrite E; bind; f_equal; lia.
  - intros c. destruct Hw as [[_ [-> | ->]]|[_ [-> | ->]]]; cbn [operands_ok i_op i_args]; exists len; rewrite Hg, Hu; (split; [done|lia]).
Qed.
Lemma EB_range cr : EmitsBlock (re_emit_range cr).
Proof.
  unfold re_emit_range. split; [apply Mono_emit_range|]. intros s.
  destruct (Z.leb_spec 65535 (cr_len cr / 2)); [apply typed_error|]. destruct (Z.eqb_spec (cr_len cr / 2) 0).
  { apply typed_bind; [mono|intros; mono|]. apply typed_emit_op_u32. intros s' Hi. apply typed_ret. eapply grown_insn; [exact Hi|].
    apply block_straight; [done| |done]. split; [apply le_bytes4_bytes|]. by exists 5, 0. }
  assert (1 <= cr_len cr / 2 < 65535) as Hlen by (unfold cr_len in *; Z.to_euclidean_division_equations; lia).
  destruct (Mono_emit_points (cr_points cr)) as [M16 M32].
  apply typed_bind; [mono|intros; mono|]. apply typed_option. intros high _.
  apply typed_bind; [mono|intros; mono|]. apply typed_quiet; [destruct (high =? UINT32_MAX); quiet|]. intros high' s1 Hq.
  apply (typed_conseq _ _ (fun _ s' => grown s1 s')); [mono| |intros _ s' _ _ (b & Hc & Hb); exists b; split; [by rewrite Hc, (quiet_code _ _ Hq)|done]].
  destruct (high' <=? 0xffff); (apply typed_bind; [mono|intros; mono|]); unfold case_op;
    (apply typed_bind; [mono|intros; mono|]); apply typed_get, typed_ret; (apply typed_bind; [mono|intros; mono|]);
    apply typed_emit_op_u16; intros s2 Hi.
  - apply (typed_conseq _ _ (points_spec 2 (cr_points cr) s2)); [done|by eapply typed_points16|]. intros [] s3 _ _ Hp.
    eapply grown_range; [|exact Hi|done|done|exact Hp]. left. destruct (s_ignore_case s1); auto.
  - apply (typed_conseq _ _ (points_spec 4 (cr_points cr) s2)); [done|by eapply typed_points32|]. intros [] s3 _ _ Hp.
    eapply grown_range; [|exact Hi|done|done|exact Hp]. right. destruct (s_ignore_case s1); auto.
Qed.

(** *** Lists of strings

    While the strings are emitted the gotos hold the position of the previous
    one; [patch_gotos] turns them into jumps to the end. *)
Definition segment (ch : list insn) (link : Z) : list insn :=
  jmp REOP_split_next_first (clen ch + 5) :: ch ++ [jmp REOP_goto link].
Fixpoint unlinked (o : Z) (segs : list (list insn)) (link : Z) : list insn :=
  match segs with
  | [] => []
  | ch :: segs => segment ch link ++ unlinked (o + clen ch + 10) segs (o + clen ch + 6)
  end.
Fixpoint last_link (o : Z) (segs : list (list insn)) (link : Z) : Z :=
  match segs with [] => link | ch :: segs => last_link (o + clen ch + 10) segs (o + clen ch + 6) end.
Definition linked (segs : list (list insn)) (tl : list insn) : list insn :=
  foldr (fun ch acc => jmp REOP_split_next_first (clen ch + 5) :: ch ++ jmp REOP_goto (clen acc) :: acc) tl segs.

Lemma clen_segment ch link : clen (segment ch link) = clen ch + 10.
Proof. unfold segment. rewrite clen_cons, clen_app, clen_cons, clen_nil, !ilen_jmp. lia. Qed.
Lemma unlinked_snoc segs ch : forall o link, unlinked o (segs ++ [ch]) link =
  unlinked o segs link ++ segment ch (last_link o segs link).
Proof.
  induction segs as [|c segs IH]; intros o link; cbn [app unlinked last_link]; [by rewrite app_nil_r|].
  by rewrite IH, app_assoc.
Qed.
Lemma last_link_snoc segs ch : forall o link, last_link o (segs ++ [ch]) link = o + clen (unlinked o segs link) + clen ch + 6.
Proof.
  induction segs as [|c segs IH]; intros o link; cbn [app unlinked last_link]; [rewrite clen_nil; lia|].
  rewrite IH, clen_app, clen_segment. lia.
Qed.
Lemma block_linked cc segs tl : Forall (block cc) segs -> block cc tl -> clen (linked segs tl) < 2 ^ 31 -> block cc (linked segs tl).
Proof.
  intros Hs Ht. induction Hs as [|ch segs Hch _ IH]; cbn [linked foldr]; [done|]. fold (linked segs tl).
  rewrite clen_cons, clen_app, clen_cons, !ilen_jmp. pose proof (clen_nonneg ch). pose proof (clen_nonneg (linked segs tl)).
  intros Hl. apply block_alt; [done|apply IH; lia|lia|lia].
Qed.

(** The last goto of the chain: where its operand is, and its patch. *)
Lemma unlinked_last segs ch pre tl : Z.of_nat (length (pre ++ code_bytes (unlinked (Z.of_nat (length pre)) (segs ++ [ch]) (-1)) ++ code_bytes tl)) <= 2 ^ 30 ->
  exists a, let link := last_link (Z.of_nat (length pre)) segs (-1) in
    last_link (Z.of_nat (length pre)) (segs ++ [ch]) (-1) = Z.of_nat (length a) /\ small link /\
    pre ++ code_bytes (unlinked (Z.of_nat (length pre)) (segs ++ [ch]) (-1)) ++ code_bytes tl = a ++ le_bytes 4 (u32 link) ++ code_bytes tl /\
    a ++ le_bytes 4 (u32 (clen tl)) ++ code_bytes tl = pre ++ code_bytes (unlinked (Z.of_nat (length pre)) segs (-1)) ++
      code_bytes (jmp REOP_split_next_first (clen ch + 5) :: ch ++ jmp REOP_goto (clen tl) :: tl).
Proof.
  rewrite last_link_snoc, unlinked_snoc. set (u := unlinked _ segs _) in *. intros Hmax.
  pose proof (clen_nonneg u). pose proof (clen_nonneg ch). pose proof (clen_nonneg tl). cbv zeta.
  set (link := last_link _ segs _) in *. set (a := pre ++ code_bytes u ++ insn_bytes (jmp REOP_split_next_first (clen ch + 5)) ++ code_bytes ch ++ [reop REOP_goto]).
  exists a. assert (Z.of_nat (length pre) + clen u + clen ch + 6 = Z.of_nat (length a)) as Ea.
  { unfold a. rewrite !length_app. unfold clen, jmp, insn_bytes. cbn [i_op i_args length]. rewrite le_bytes_length. lia. }
  assert (pre ++ code_bytes (u ++ segment ch link) ++ code_bytes tl = a ++ le_bytes 4 (u32 link) ++ code_bytes tl) as Hc'.
  { unfold a, segment. rewrite !code_bytes_app, code_bytes_cons, code_bytes_app, code_bytes_cons, app_nil_r.
    unfold jmp at 2, insn_bytes at 2. cbn [i_op i_args]. rewrite <- !app_assoc. done. }
  split; [done|]. split_and!; [|done|].
  - assert (Z.of_nat (length a) <= 2 ^ 30) as Hal by (rewrite Hc', length_app in Hmax; lia).
    assert (-1 <= link <= Z.of_nat (length pre) + clen u) as Hlink; [|unfold small; lia].
    clear -u link. unfold link, u. clear link u. pose proof (clen_nonneg (unlinked (Z.of_nat (length pre)) segs (-1))).
    destruct segs as [|c0 segs' _] using rev_ind; cbn [last_link]; [lia|]. rewrite last_link_snoc.
    rewrite unlinked_snoc, clen_app, clen_segment. pose proof (clen_nonneg c0).
    pose proof (clen_nonneg (unlinked (Z.of_nat (length pre)) segs' (-1))). lia.
  - unfold a. rewrite code_bytes_cons, code_bytes_app, code_bytes_cons, <- !app_assoc. done.
Qed.
Lemma pinv_size s : pinv s -> Z.of_nat (length (code s)) < 2 ^ 30.
Proof. intros [Hc _ _]. unfold db_size in Hc. fold (code s) in Hc. unfold CODE_MAX, INT32_MAX in Hc. lia. Qed.
Lemma typed_patch segs : forall n s pre tl (Q : unit -> REParseState -> Prop),
  code s = pre ++ code_bytes (unlinked (Z.of_nat (length pre)) segs (-1)) ++ code_bytes tl ->
  (forall s', same s s' -> code s' = pre ++ code_bytes (linked segs tl) -> Q tt s') ->
  typed s (patch_gotos n (last_link (Z.of_nat (length pre)) segs (-1))) Q.
Proof.
  induction segs as [|ch segs IH] using rev_ind; intros n s pre tl Q Hc HQ.
  - cbn [last_link]. destruct n; cbn [patch_gotos]; apply typed_ret, HQ; (apply same_refl || exact Hc).
  - apply typed_pre. intros Hp%pinv_size _. rewrite Hc in Hp.
    destruct (unlinked_last segs ch pre tl ltac:(lia)) as (a & -> & Hsm & Ea & Eb). rewrite Ea in Hc.
    destruct n as [|n]; cbn [patch_gotos]; rewrite (proj2 (Z.eqb_neq _ _)) by lia; [apply typed_wrong|].
    apply typed_bind; [mono|intros; mono|]. apply typed_get. fold (code s).
    apply typed_bind; [mono|intros; mono|]. rewrite Hc, get_u32_le. apply typed_option. intros v [= <-].
    apply typed_bind; [mono|intros; mono|]. eapply typed_poke_u32; [exact Hc|done|apply le_bytes_length|].
    intros s1 Hs1 Hc1. rewrite i32_u32, i32_id by done. eapply (IH n s1 pre).
    + replace (db_size (s_byte_code s) - (Z.of_nat (length a) + 4)) with (clen tl) in Hc1
        by (unfold db_size; fold (code s); rewrite Hc, !length_app, le_bytes_length; unfold clen; lia).
      rewrite Hc1. exact Eb.
    + intros s' Hs' Hc2. apply HQ; [by eapply same_trans|]. rewrite Hc2. unfold linked. by rewrite foldr_app.
Qed.

(** A split emitted with a dummy target, what follows it, and its patch. *)
Lemma typed_patch_split op s s1 s2 l (Q : unit -> REParseState -> Prop) :
  emits s (jmp op 0) s1 -> code s2 = code s1 ++ l ->
  (forall s', same s2 s' -> code s' = code s ++ insn_bytes (jmp op (Z.of_nat (length l))) ++ l -> Q tt s') ->
  typed s2 (poke_u32 (Z.of_nat (length (code s)) + 1) (Z.of_nat (length (code s2)) - (Z.of_nat (length (code s)) + 1 + 4))) Q.
Proof.
  intros [Hs1 Hc1] Hc2 HQ. eapply (typed_poke_u32 _ _ _ (code s ++ [reop op]) (le_bytes 4 (u32 0)) l).
  - by rewrite Hc2, Hc1, <- !app_assoc.
  - rewrite length_app. cbn. lia.
  - apply le_bytes_length.
  - intros s' Hs' Hc'. apply HQ; [done|].
    replace (Z.of_nat (length (code s2)) - (Z.of_nat (length (code s)) + 1 + 4)) with (Z.of_nat (length l)) in Hc'.
    2: { rewrite Hc2, Hc1, !length_app. unfold jmp, insn_bytes. cbn [i_op i_args length]. rewrite le_bytes_length. lia. }
    by rewrite Hc', <- app_assoc.
Qed.

Definition strings_spec (n : nat) (s : REParseState) (link r : Z) (s' : REParseState) : Prop :=
  exists segs tl, (length segs <= n)%nat /\ Forall (block (s_capture_count s')) segs /\ block (s_capture_count s') tl /\
    code s' = code s ++ code_bytes (unlinked (Z.of_nat (length (code s))) segs link) ++ code_bytes tl /\
    r = last_link (Z.of_nat (length (code s))) segs link.
Lemma typed_emit_strings more l : forall s link, typed s (emit_strings l more link) (strings_spec (length l) s link).
Proof.
  induction l as [|p l IH]; intros s link; cbn [emit_strings].
  - apply typed_ret. exists [], []. cbn. rewrite app_nil_r. split_and!; [done|done|apply block_nil|done|done].
  - destruct (negb more && bool_decide (l = [])) eqn:El.
    + apply andb_true_iff in El as [_ El%bool_decide_eq_true]. subst l.
      apply typed_bind; [mono|intros; mono|]. apply typed_grown; [apply EB_chars|]. intros _ s1 _ (b & Hc & Hb) _. cbn [emit_strings].
      apply typed_ret. exists [], b. split_and!; try done. cbn. lia.
    + apply typed_bind; [mono|intros; mono|]. apply typed_emit_op_u32. intros s1 Hi1.
      apply typed_bind; [mono|intros; mono|]. apply typed_grown; [apply EB_chars|]. intros _ s2 _ (ch & Hc2 & Hch) _.
      apply typed_bind; [mono|intros; mono|]. apply typed_emit_op_u32. intros s3 [Hs3 Hc3].
      apply typed_bind; [mono|intros; mono|]. apply typed_size.
      apply typed_bind; [mono|intros; mono|]. eapply typed_patch_split; [exact Hi1|by rewrite Hc3, Hc2, <- app_assoc|].
      intros s4 Hs4 Hc4. set (link' := Z.of_nat (length (code s2)) + 1).
      apply (typed_conseq _ _ (strings_spec (length l) s4 link')); [mono|apply IH|].
      intros r s5 _ Hle (segs & tl & Hn & Hsegs & Htl & Hc5 & Hr).
      assert (code s4 = code s ++ code_bytes (segment ch link)) as Hc4'.
      { rewrite Hc4. unfold segment. rewrite code_bytes_cons, code_bytes_app, code_bytes_cons, app_nil_r.
        rewrite length_app. unfold jmp at 2, insn_bytes at 2. cbn [i_op i_args length]. rewrite le_bytes_length.
        unfold clen. replace (Z.of_nat (length (code_bytes ch) + 5)) with (Z.of_nat (length (code_bytes ch)) + 5) by lia. done. }
      assert (Z.of_nat (length (code s4)) = Z.of_nat (length (code s)) + clen ch + 10) as Hl4.
      { rewrite Hc4', length_app. pose proof (clen_segment ch link). unfold clen in *. lia. }
      assert (link' = Z.of_nat (length (code s)) + clen ch + 6) as Hlink.
      { unfold link'. rewrite Hc2. destruct Hi1 as [_ ->]. rewrite !length_app. unfold clen, jmp, insn_bytes. cbn [i_op i_args length].
        rewrite le_bytes_length. lia. }
      exists (ch :: segs), tl. rewrite Hl4, Hlink in *. cbn [unlinked last_link length]. split_and!; [lia| |done| |done].
      * apply Forall_cons. split; [|done].
        rewrite (same_count _ _ Hs4), (same_count _ _ Hs3) in Hle. by eapply block_mono.
      * by rewrite Hc5, Hc4', code_bytes_app, <- !app_assoc.
Qed.

Lemma EB_optional_range cr :
  EmitsBlock (let? split_pos := re_emit_op_u32 (reop REOP_split_next_first) 0 in
              let? _ := re_emit_range cr in
              let? size := code_size in
              poke_u32 split_pos (size - (split_pos + 4))).
Proof.
  split; [mono|]. intros s. apply typed_bind; [mono|intros; mono|]. apply typed_emit_op_u32. intros s1 Hi1.
  apply typed_bind; [mono|intros; mono|]. apply typed_grown; [apply EB_range|]. intros _ s2 Hp (b & Hc2 & Hb) _.
  apply typed_bind; [mono|intros; mono|]. apply typed_size. eapply typed_patch_split; [exact Hi1|exact Hc2|].
  intros s' Hs' Hc'. exists (jmp REOP_split_next_first (clen b) :: b). rewrite code_bytes_cons. split; [exact Hc'|].
  rewrite (same_count _ _ Hs'). apply block_skip; [by right|done|]. apply pinv_size in Hp. rewrite Hc2, length_app in Hp.
  unfold clen. lia.
Qed.
Lemma EB_string_list sl : EmitsBlock (re_emit_string_list sl).
Proof.
  unfold re_emit_string_list. split; [apply Mono_emit_string_list|]. intros s.
  destruct (sl_n_strings sl =? 0); [apply EB_range|].
  apply typed_bind; [mono|intros; mono|]. apply typed_quiet; [quiet|]. intros ok s1 Hq1. destruct ok; [|apply typed_error]. cbn [negb]. cbv zeta.
  destruct (_ <? _); [apply typed_wrong|]. apply typed_bind; [mono|intros; mono|]. apply typed_option. intros tab _.
  apply typed_bind; [mono|intros; mono|]. eapply typed_conseq; [mono|apply typed_emit_strings|].
  intros r s2 Hp2 _ (segs & tl & _ & Hsegs & Htl & Hc2 & ->).
  apply typed_bind; [mono|intros; mono|]. rewrite (quiet_code _ _ Hq1) in Hc2 |- *.
  apply typed_grown.
  { destruct (negb (cr_len _ =? 0)); [|apply EB_quiet; quiet]. destruct (existsb _ _); [apply EB_optional_range|apply EB_range]. }
  intros _ s3 Hp3 (b & Hc3 & Hb) Hle.
  apply (typed_conseq _ _ (fun _ s' => same s3 s' /\ code s' = code s ++ code_bytes (linked segs (tl ++ b)))); [mono| |].
  { eapply (typed_patch segs _ _ _ (tl ++ b)); [by rewrite Hc3, Hc2, code_bytes_app, <- !app_assoc|auto]. }
  intros _ s4 Hp4 _ [Hs4 Hc4]. exists (linked segs (tl ++ b)). split; [done|]. rewrite (same_count _ _ Hs4).
  apply block_linked; [|apply block_app; [by eapply block_mono|done]|].
  - eapply Forall_impl; [exact Hsegs|]. intros x. by apply block_mono.
  - apply pinv_size in Hp4. rewrite Hc4, length_app in Hp4. unfold clen. lia.
Qed.
Lemma EB_char_class p : EmitsBlock (re_parse_char_class p).
Proof.
  unfold re_parse_char_class. apply EB_bind; [apply EB_quiet; quiet|]. intros [cr p'].
  apply EB_bind; [apply EB_string_list|]. intros. apply EB_quiet; quiet.
Qed.

(** ** Atoms *)
(** An atom: [start] is -1, or where the emitted block starts. *)
Definition AtomSpec (m : P atom) : Prop := Mono m /\ forall s, typed s m (fun a s' =>
  grown s s' /\ (a.1.2 < 0 \/ a.1.2 = Z.of_nat (length (code s)) /\ a.2 = s_capture_count s)).
(** What follows [atom_start]. *)
Definition TailSpec (start captures : Z) (m : P atom) : Prop := Mono m /\ forall s, typed s m (fun a s' =>
  grown s s' /\ a.1.2 = start /\ a.2 = captures).

Lemma Tail_ret start captures p : TailSpec start captures (pret (p, start, captures)).
Proof. split; [mono|]. intros s. apply typed_ret. split; [by apply grown_quiet|done]. Qed.
Lemma Tail_bind {A} start captures (m : P A) k : EmitsBlock m -> (forall a, TailSpec start captures (k a)) ->
  TailSpec start captures (pbind m k).
Proof.
  intros Hm Hk. assert (forall a, Mono (k a)) as Hk' by (intros a; apply Hk).
  split; [by apply Mono_bind; [apply Hm|]|]. intros s. apply typed_bind; [apply Hm|done|].
  apply typed_grown; [done|]. intros a s1 Hs1 Hg1 _. eapply typed_conseq; [done|apply Hk|].
  intros b s2 _ Hle [Hg2 Ha]. split; [by eapply grown_trans|done].
Qed.
Lemma Atom_start (k : Z * Z -> P atom) : (forall start captures, TailSpec start captures (k (start, captures))) ->
  AtomSpec (pbind atom_start k).
Proof.
  intros Hk. assert (forall a, Mono (k a)) as Hk' by (intros []; apply Hk). split; [mono|].
  intros s. apply typed_bind; [mono|done|]. intros _ _ a s1 E _. injection E as <- <-.
  eapply typed_conseq; [done|apply Hk|]. intros b s2 _ _ [Hg [E1 E2]]. split; [done|]. right. by rewrite E1, E2.
Qed.
Lemma Atom_quiet {A} (m : P A) k : Quiet m -> (forall a, AtomSpec (k a)) -> AtomSpec (pbind m k).
Proof.
  intros Hm Hk. assert (forall a, Mono (k a)) as Hk' by (intros a; apply Hk). split; [mono|].
  intros s. apply typed_bind; [mono|done|]. apply typed_quiet; [done|]. intros a s1 Hq.
  eapply typed_conseq; [done|apply Hk|]. intros b s2 _ Hle [Hg Ha]. rewrite (quiet_code _ _ Hq), (quiet_count _ _ Hq) in *.
  split; [|done]. eapply grown_trans; [|by apply grown_quiet|done]. by rewrite (quiet_count _ _ Hq).
Qed.
Lemma Atom_none p : AtomSpec (no_atom p).
Proof. split; [unfold no_atom; mono|]. intros s. apply typed_ret. split; [by apply grown_quiet|by left]. Qed.
Lemma Atom_none_after {A} (m : P A) p : EmitsBlock m -> AtomSpec (let? _ := m in no_atom p).
Proof.
  intros Hm. split; [apply Mono_bind; [apply Hm|]; intros; apply Atom_none|]. intros s. apply typed_bind; [apply Hm|intros; apply Atom_none|].
  apply typed_grown; [done|]. intros a s1 _ Hg _. apply typed_ret. split; [done|by left].
Qed.
Lemma Atom_error msg : AtomSpec (re_parse_error msg).
Proof. split; [mono|]. intros s. apply typed_error. Qed.
Lemma Atom_wrong : AtomSpec pwrong.
Proof. split; [mono|]. intros s. apply typed_wrong. Qed.
End Emit.

Create HintDb blocks.
#[export] Hint Resolve EB_char EB_string_list EB_char_class Tail_ret Atom_none Atom_error Atom_wrong : blocks.
Ltac blocks_step :=
  match goal with
  | |- AtomSpec (pbind atom_start _) => apply Atom_start; intros ? ?
  | |- AtomSpec (let? _ := _ in no_atom _) => apply Atom_none_after
  | |- AtomSpec (pbind _ _) => apply Atom_quiet; [solve [quiet]|intros ?]
  | |- TailSpec _ _ (pbind _ _) => apply Tail_bind; [|intros ?]
  | |- EmitsBlock (pbind _ _) => apply EB_bind; [|intros ?]
  | |- ?f (let (_, _) := ?x in _) => destruct x
  | |- ?f (if ?b then _ else _) => destruct b
  | |- ?f (match ?x with _ => _ end) => destruct x
  | _ => first [solve [eauto with blocks] | solve [apply EB_quiet; quiet] | solve [apply EB_op; repeat case_match; reflexivity] | fail 1]
  end.
Ltac blocks := repeat (cbv zeta; blocks_step).

Section Atoms.
Context `{ReEnv} `{UnicodeDb}.
Lemma EB_prev_if b : EmitsBlock (emit_prev_if b).
Proof. unfold emit_prev_if. blocks. Qed.
#[local] Hint Resolve EB_prev_if : blocks.
Lemma Atom_normal_char b p c cr : AtomSpec (term_normal_char b p c cr).
Proof. unfold term_normal_char. blocks. Qed.
#[local] Hint Resolve Atom_normal_char : blocks.
Lemma Atom_class_atom b p : AtomSpec (term_class_atom b p).
Proof. unfold term_class_atom. blocks. Qed.
#[local] Hint Resolve Atom_class_atom : blocks.
Lemma Atom_brace b p : AtomSpec (term_brace b p).
Proof. unfold term_brace. blocks. Qed.
Lemma Atom_zero b p : AtomSpec (term_zero b p).
Proof. unfold term_zero. blocks. Qed.

(** *** Back references *)
Definition is_back_reference (op : REOPCodeEnum) : Prop :=
  match op with
  | REOP_back_reference | REOP_back_reference_i | REOP_backward_back_reference | REOP_backward_back_reference_i => True
  | _ => False
  end.
Lemma back_reference_op_spec b i : exists op, is_back_reference op /\ back_reference_op b i = reop op.
Proof.
  exists (if b then if i then REOP_backward_back_reference_i else REOP_backward_back_reference
          else if i then REOP_back_reference_i else REOP_back_reference). by destruct b, i.
Qed.
Lemma typed_indices l : forall s (Q : unit -> REParseState -> Prop),
  (forall s', same s s' -> code s' = code s ++ (u8 <$> l) -> Q tt s') -> typed s (emit_indices l) Q.
Proof.
  induction l as [|i l IH]; intros s Q HQ; cbn [emit_indices].
  - apply typed_ret, HQ; [apply same_refl|by rewrite app_nil_r].
  - apply typed_bind; [mono|intros; mono|]. apply typed_putc. intros s1 Hs1 Hc1. apply IH. intros s2 Hs2 Hc2.
    apply HQ; [by eapply same_trans|]. by rewrite Hc2, Hc1, <- app_assoc.
Qed.
Lemma EB_back_reference op l : is_back_reference op -> Z.of_nat (length l) < 256 ->
  EmitsBlock (let? _ := re_emit_op_u8 (reop op) (Z.of_nat (length l)) in emit_indices l).
Proof.
  intros Hop Hl. split; [mono|]. intros s. apply typed_bind; [mono|intros; mono|]. apply typed_emit_op_u8. intros s1 [Hs1 Hc1].
  apply typed_indices. intros s2 Hs2 Hc2. apply (grown_insn s (mk_insn op (u8 (Z.of_nat (length l)) :: (u8 <$> l)))).
  { split; [by eapply same_trans|]. by rewrite Hc2, Hc1, <- app_assoc. }
  assert (forall x, is_byte (u8 x)) as Hu by (intros x; apply u8_range).
  apply block_straight; [by destruct op| |intros c; by destruct op]. split.
  - apply Forall_cons. split; [apply Hu|]. apply Forall_fmap. by apply Forall_true.
  - exists 2, (Z.of_nat (length l)). unfold ilen. cbn [i_args i_op length]. rewrite length_fmap. split_and!; [by destruct op| |lia].
    rewrite u8_id by lia. by destruct op.
Qed.
Lemma pbind_assoc {A B C} (m : P A) (f : A -> P B) (g : B -> P C) s :
  pbind (pbind m f) g s = pbind m (fun a => pbind (f a) g) s.
Proof. unfold pbind. by destruct (m s). Qed.
Lemma Tail_ext start captures m m' : (forall s, m s = m' s) -> TailSpec start captures m' -> TailSpec start captures m.
Proof.
  intros E [Hm Ht]. split; [intros s a s'; rewrite E; apply Hm|]. intros s Hs He a s'. rewrite E. by apply Ht.
Qed.
Lemma Tail_back_reference op l start captures (k : P atom) : is_back_reference op -> Z.of_nat (length l) < 256 ->
  TailSpec start captures k ->
  TailSpec start captures (let? _ := re_emit_op_u8 (reop op) (Z.of_nat (length l)) in let? _ := emit_indices l in k).
Proof.
  intros Hop Hl Hk. eapply Tail_ext; [intros s; symmetry; apply pbind_assoc|].
  apply Tail_bind; [by apply EB_back_reference|done].
Qed.
Lemma Atom_number b p : AtomSpec (term_number b p).
Proof.
  unfold term_number. apply Atom_quiet; [quiet|]. intros [c p']. apply Atom_quiet; [quiet|]. intros s. cbv zeta.
  apply Atom_quiet; [quiet|]. intros []; [blocks|]. apply Atom_start. intros st ci.
  destruct (back_reference_op_spec b (s_ignore_case s)) as (op & Hop & ->).
  apply (Tail_ext _ _ _ (let? _ := re_emit_op_u8 (reop op) (Z.of_nat (length [c])) in
    let? _ := emit_indices [c] in pret (p', st, ci))); [|apply Tail_back_reference; [done|done|apply Tail_ret]].
  intros s1. cbn [emit_indices length]. unfold pbind. destruct (re_emit_op_u8 _ _ s1); try done. by destruct (putc c _).
Qed.

(** The number of groups with a name fits a byte. *)
Lemma strlen_at_spec l n r : strlen_at l = Some (n, r) -> l = n ++ 0 :: r /\ Forall (fun b => b <> 0) n.
Proof.
  revert n r. induction l as [|c l IH]; intros n r; cbn; [done|]. destruct (Z.eqb_spec c 0) as [->|Hc].
  - intros [= <- <-]. by split.
  - destruct (strlen_at l) as [[n' r']|] eqn:E; [|done]. intros [= <- <-]. destruct (IH _ _ eq_refl) as [-> Hn].
    split; [done|]. by constructor.
Qed.
Lemma name_ends_nonzero n prev : Forall (fun b => b <> 0) n -> name_ends prev n = 0.
Proof.
  intros Hn. revert prev. induction Hn as [|c n Hc _ IH]; intros prev; cbn; [done|]. rewrite IH.
  by rewrite (proj2 (Z.eqb_neq c 0)) by done.
Qed.
Lemma name_indices_length name fuel : forall l es prev i, name <> [] -> group_entries fuel l = Some es ->
  Z.of_nat (length (name_indices es name i)) <= name_ends prev l.
Proof.
  induction fuel as [|fuel IH]; intros [|c l] es prev i Hname; cbn [group_entries]; try done;
    try (intros [= <-]; apply name_ends_nonneg).
  destruct (strlen_at (c :: l)) as [[n r]|] eqn:En; [bind|done]. apply strlen_at_spec in En as [-> Hn].
  destruct (group_entries fuel (drop 1 r)) as [es'|] eqn:Ees; [bind|done]. intros [= <-].
  rewrite name_ends_app, name_ends_nonzero by done. cbn [name_ends name_indices].
  assert (name_ends 0 r >= Z.of_nat (length (name_indices es' name (i + 1)))) as Hr.
  { destruct r as [|x r]; cbn [drop] in Ees.
    - eapply (IH [] es' 0 (i + 1)) in Ees; [|done]. cbn in *. lia.
    - rewrite drop_0 in Ees. eapply (IH r es' x (i + 1)) in Ees; [|done]. cbn [name_ends]. destruct (_ && _); lia. }
  rewrite Z.eqb_refl. destruct (bool_decide_reflect (n = name)) as [->|]; cbn [length andb].
  - destruct (last name) as [z|] eqn:El; [|by apply last_None in El].
    assert (z <> 0) as Hz by (eapply (Forall_forall (fun b => b <> 0) name); [done|by apply last_Some_elem_of]).
    change (default prev (Some z)) with z. rewrite (proj2 (Z.eqb_neq z 0)) by done. cbn [negb]. lia.
  - destruct (negb _); lia.
Qed.
Lemma typed_find_group_name name s (Q : list Z -> REParseState -> Prop) : name <> [] ->
  (forall l, Z.of_nat (length l) < 255 -> Q l s) -> typed s (find_group_name name) Q.
Proof.
  intros Hn HQ. apply typed_pre. intros [_ Hc (_ & _ & He)] _. unfold find_group_name, group_list.
  intros _ _ a s' (es & s1 & E & [= <- <-])%pbind_ok _. apply pbind_ok in E as (s0 & s0' & [= <- <-] & E).
  unfold of_option in E. destruct (group_entries _ _) as [es'|] eqn:Ees; [|done]. injection E as <- <-.
  apply HQ. eapply (name_indices_length name _ _ _ 0 1 Hn) in Ees. unfold CAPTURE_COUNT_MAX in Hc. lia.
Qed.
Lemma captures_scan_length fuel name : forall p i named found r, Z.of_nat (length found) < i -> i < CAPTURE_COUNT_MAX ->
  captures_scan fuel name p i named found = Some r -> Z.of_nat (length r.1.2) < 255.
Proof.
  unfold CAPTURE_COUNT_MAX. induction fuel as [|fuel IH]; intros p i named found r Hf Hi; cbn [captures_scan]; [done|].
  unfold CAPTURE_COUNT_MAX.
  assert (forall p named found, Z.of_nat (length found) < i + 1 ->
    (if 255 <=? i + 1 then Some (named, found, i + 1) else captures_scan fuel name p (i + 1) named found) = Some r ->
    Z.of_nat (length r.1.2) < 255) as Hnext.
  { intros p' named' found' Hf'. destruct (Z.leb_spec 255 (i + 1)); [intros [= <-]; cbn; lia|]. apply IH; lia. }
  assert (forall p, captures_scan fuel name p i named found = Some r -> Z.of_nat (length r.1.2) < 255) as Hskip.
  { intros p'. apply IH; lia. }
  destruct (p <? buf_end); [|intros [= <-]; cbn; lia].
  destruct (byte_at env_text p) as [b|]; [bind|done]. destruct (b =? 40).
  - destruct (byte_at env_text (p + 1)) as [b1|]; [bind|done]. destruct (b1 =? 63); [|apply Hnext; lia].
    destruct (byte_at env_text (p + 2)) as [b2|]; [bind|done]. destruct (b2 =? 60); [|apply Hskip].
    destruct (byte_at env_text (p + 3)) as [b3|]; [bind|done]. destruct (_ || _); [apply Hskip|].
    destruct name as [name|]; [|apply Hnext; lia].
    destruct (re_parse_group_name env_text (p + 3)) as [[[name1 p1]|]|]; [bind| |done]; bind; [|apply Hnext; lia].
    apply Hnext. destruct (bool_decide _); rewrite ?length_app; cbn; lia.
  - destruct (b =? 92); [apply Hskip|]. destruct (b =? 91); [|apply Hskip].
    destruct (skip_class _ _) as [p'|]; [bind|done]. apply Hskip.
Qed.
Lemma typed_captures_of name s (Q : bool * list Z * Z -> REParseState -> Prop) :
  (forall r, Z.of_nat (length r.1.2) < 255 -> Q r s) -> typed s (captures_of name) Q.
Proof. intros HQ. apply typed_option. intros r E. apply HQ. by eapply captures_scan_length in E. Qed.
Lemma Atom_not_a_name b p msg :
  AtomSpec (let? named := (if env_is_unicode then pret true else re_has_named_captures) in
            if named : bool then re_parse_error msg else term_class_atom b p).
Proof. blocks. Qed.
Lemma Atom_named_reference b p : AtomSpec (term_named_reference b p).
Proof.
  split; [apply Mono_term_named_reference|]. unfold term_named_reference. cbv zeta. pose proof (Atom_not_a_name b p) as Hn.
  intros s. apply typed_bind; [mono|intros; mono|]. apply typed_option. intros b2 _.
  destruct (negb (b2 =? 60)); [apply Hn|]. apply typed_bind; [mono|intros; mono|]. apply typed_option. intros [[name p1]|] En; [|apply Hn].
  apply group_name_loop_bytes in En as [_ Hlen]; [|done|done]. cbn [fst] in Hlen.
  apply typed_bind; [mono|intros; mono|]. apply typed_find_group_name; [intros ->; cbn in Hlen; lia|]. intros before Hb.
  apply typed_bind; [mono|intros; mono|].
  assert (forall (k : bool * list Z * Z -> P atom) Q, (forall r, Z.of_nat (length r.1.2) < 255 -> typed s (k r) Q) ->
    typed s (if bool_decide (before = []) then captures_of (Some name) else pret (false, [], 0)) (fun r s' => typed s' (k r) Q)) as Hafter.
  { intros k Q Hk. destruct (bool_decide _); [apply typed_captures_of; auto|]. apply typed_ret, Hk. done. }
  apply Hafter. intros [[nm after] n] Ha. cbn [fst snd] in Ha.
  destruct (_ && _); [apply Hn|]. set (indices := if bool_decide (before = []) then after else before).
  assert (Z.of_nat (length indices) < 256) as Hi by (unfold indices; destruct (bool_decide _); lia).
  revert s Hafter. match goal with |- forall s, _ -> typed s ?m _ => enough (AtomSpec m) as [_ Hat] by (intros s _; apply Hat) end.
  apply Atom_start. intros st ci. apply Tail_bind; [apply EB_quiet; quiet|]. intros s.
  destruct (back_reference_op_spec b (s_ignore_case s)) as (op & Hop & ->). apply Tail_back_reference; [done|done|apply Tail_ret].
Qed.
#[local] Hint Resolve Atom_brace Atom_zero Atom_number Atom_named_reference : blocks.
Lemma Atom_escape b p : AtomSpec (term_escape b p).
Proof. unfold term_escape. blocks. Qed.
#[local] Hint Resolve Atom_escape : blocks.

(** *** Groups *)
Section Groups.
Context (disj : bool -> P unit) (Hdisj : forall b, EmitsBlock (disj b)).
#[local] Hint Resolve Hdisj : blocks.
Lemma disj_mono b : Mono (disj b).
Proof. apply Hdisj. Qed.
#[local] Hint Resolve disj_mono : mono.
Lemma EB_disjunction_at b p : EmitsBlock (disjunction_at disj b p).
Proof. unfold disjunction_at. blocks. Qed.
#[local] Hint Resolve EB_disjunction_at : blocks.
Lemma Atom_plain_group b p : AtomSpec (term_plain_group disj b p).
Proof. unfold term_plain_group, expect_paren. blocks. Qed.
Lemma Atom_modifiers b p : AtomSpec (term_modifiers disj b p).
Proof. unfold term_modifiers, expect_paren. blocks. Qed.
Lemma block_save cc op v : op = REOP_save_start \/ op = REOP_save_end -> 0 <= v < cc -> cc <= 255 -> block cc [mk_insn op [u8 v]].
Proof.
  intros Hop Hv Hcc. apply block_straight.
  - by destruct Hop as [-> | ->].
  - split; [apply Forall_singleton, u8_range|]. exists 2, 0. by destruct Hop as [-> | ->].
  - intros c. rewrite u8_id by lia. destruct Hop as [-> | ->]; cbn [operands_ok i_op i_args]; exists v; (split; [done|lia]).
Qed.
Lemma typed_save op v s (Q : unit -> REParseState -> Prop) : op = REOP_save_start \/ op = REOP_save_end -> 0 <= v < s_capture_count s ->
  (forall s', pinv s' -> grown s s' -> s_capture_count s <= s_capture_count s' -> Q tt s') -> typed s (re_emit_op_u8 (reop op) v) Q.
Proof.
  intros Hop Hv HQ. apply typed_pre. intros [_ Hc _] _. apply (typed_conseq _ _ (fun _ s' => grown s s')); [mono| |by intros []; auto].
  apply typed_emit_op_u8. intros s' Hi. eapply grown_insn; [exact Hi|]. apply block_save; [done|lia|apply Hc].
Qed.
Lemma save_op b : reop REOP_save_start + bz b = reop (if b then REOP_save_end else REOP_save_start) /\
  reop REOP_save_start + 1 - bz b = reop (if b then REOP_save_start else REOP_save_end).
Proof. by destruct b. Qed.
Lemma Atom_capture names b p : AddsName names -> AtomSpec (term_capture disj names b p).
Proof.
  intros Hn. split; [apply Mono_capture; [apply disj_mono|done]|]. intros s. unfold term_capture. destruct (save_op b) as [-> ->].
  apply typed_bind; [by apply Mono_enter|intros []; unfold expect_paren; mono|].
  intros Hs He [st ci] s1 E1 _. apply enter_capture_spec in E1 as (_ & Hbc & Hcnt & -> & ->); [|done|done].
  apply typed_bind; [mono|intros; unfold expect_paren; mono|]. pose proof Hs as [_ Hc _].
  apply typed_save; [destruct b; auto|lia|]. intros s2 _ Hg2 Hle2.
  apply typed_bind; [mono|intros; unfold expect_paren; mono|]. apply typed_grown; [blocks|]. intros p' s3 _ Hg3 Hle3.
  apply typed_bind; [mono|intros; unfold expect_paren; mono|]. apply typed_save; [destruct b; auto|lia|]. intros s4 _ Hg4 Hle4.
  apply typed_bind; [unfold expect_paren; mono|intros; mono|]. apply typed_quiet; [unfold expect_paren; quiet|]. intros p'' s5 Hq5.
  apply typed_ret. cbn [fst snd]. split; [|right; split; [done|done]].
  assert (grown s1 s5) as (bl & Ebl & Hbl).
  { eapply grown_trans; [|exact Hg2|]; [rewrite (quiet_count _ _ Hq5); lia|]. eapply grown_trans; [|exact Hg3|]; [rewrite (quiet_count _ _ Hq5); lia|].
    eapply grown_trans; [|exact Hg4|by apply grown_quiet]. rewrite (quiet_count _ _ Hq5). lia. }
  exists bl. split; [|done]. unfold code in *. by rewrite Ebl, Hbc.
Qed.
Lemma lookahead_ops neg : reop REOP_lookahead + bz neg = reop (lookahead_op neg) /\
  reop REOP_lookahead_match + bz neg = reop (i_op (lookahead_end neg)).
Proof. by destruct neg. Qed.
Lemma Tail_lookahead neg b p start captures :
  TailSpec start captures (let? pos := re_emit_op_u32 (reop REOP_lookahead + bz neg) 0 in
    let? p := disjunction_at disj b p in
    let? p := expect_paren p in
    let? _ := re_emit_op (reop REOP_lookahead_match + bz neg) in
    let? s := pget in
    if db_error (s_byte_code s) then pfail
    else let? _ := poke_u32 pos (db_size (s_byte_code s) - (pos + 4)) in pret (p, start, captures)).
Proof.
  split; [unfold expect_paren; mono|]. intros s. destruct (lookahead_ops neg) as [-> ->].
  apply typed_bind; [mono|intros; unfold expect_paren; mono|]. apply typed_emit_op_u32. intros s1 Hi1.
  apply typed_bind; [mono|intros; unfold expect_paren; mono|]. apply typed_grown; [blocks|]. intros p1 s2 _ (bl & Hc2 & Hbl) Hle2.
  apply typed_bind; [unfold expect_paren; mono|intros; mono|]. apply typed_quiet; [unfold expect_paren; quiet|]. intros p2 s3 Hq3.
  apply typed_bind; [mono|intros; mono|]. apply typed_emit_op. intros s4 [Hs4 Hc4].
  apply typed_bind; [mono|intros; mono|]. apply typed_get. destruct (db_error _); [apply typed_fail|].
  apply typed_bind; [mono|intros; mono|].
  assert (code s4 = code s1 ++ code_bytes bl ++ insn_bytes (lookahead_end neg)) as Hc4'.
  { rewrite Hc4, (quiet_code _ _ Hq3), Hc2, <- app_assoc. by destruct neg. }
  apply typed_pre. intros Hp4%pinv_size _. eapply typed_patch_split; [exact Hi1|exact Hc4'|].
  intros s5 Hs5 Hc5. apply typed_ret. split; [|done].
  exists (jmp (lookahead_op neg) (clen bl + 1) :: bl ++ [lookahead_end neg]). split.
  - rewrite Hc5, code_bytes_cons, code_bytes_app, code_bytes_cons, app_nil_r, length_app.
    replace (Z.of_nat (length (code_bytes bl) + length (insn_bytes (lookahead_end neg)))) with (clen bl + 1); [done|].
    unfold clen. destruct neg; cbn [lookahead_end insn_bytes i_op i_args length]; lia.
  - rewrite (same_count _ _ Hs5), (same_count _ _ Hs4), (quiet_count _ _ Hq3). apply block_lookahead; [done|].
    rewrite Hc4', !length_app in Hp4. unfold clen. lia.
Qed.
Lemma Tail_Atom_none m : TailSpec (-1) 0 m -> AtomSpec m.
Proof.
  intros [Hm Ht]. split; [done|]. intros s. eapply typed_conseq; [done|apply Ht|]. intros a s' _ _ (Hg & -> & _). split; [done|by left].
Qed.
Lemma Atom_lookahead neg b p : AtomSpec (term_lookahead disj neg b p).
Proof.
  unfold term_lookahead. destruct (negb env_is_unicode && negb b).
  - apply Atom_start. intros. apply Tail_lookahead.
  - assert (forall (k : Z * Z -> P atom) s, pbind (pret (-1, 0)) k s = k (-1, 0) s) as E by done.
    match goal with |- AtomSpec (pbind _ ?k) => assert (AtomSpec (k (-1, 0))) as [Hm Ht] by apply Tail_Atom_none, Tail_lookahead end.
    split; [intros s a s'; apply Hm|intros s Hs He a s'; by apply Ht].
Qed.
Lemma Atom_named_group b p : AtomSpec (term_named_group disj b p).
Proof.
  split; [apply Mono_named_group, disj_mono|]. intros s. unfold term_named_group.
  assert (forall name, Forall name_byte name -> Z.of_nat (length name) < TMP_BUF_SIZE -> forall p1, AtomSpec
    (let? s := pget in let? dup := is_duplicate_group_name name (s_group_name_scope s) in
     if dup : bool then re_parse_error "duplicate group name" else term_capture disj (add_name name) b p1)) as Hrest.
  { intros name Hb Hl p1. apply Atom_quiet; [quiet|]. intros s0. apply Atom_quiet; [quiet|]. intros []; [blocks|].
    by apply Atom_capture, AddsName_name. }
  intros Hs He a s' (r & s1 & E1 & E)%pbind_ok He'. unfold of_option in E1.
  destruct (re_parse_group_name env_text (p + 3)) as [r'|] eqn:En; [|done]. injection E1 as -> ->.
  destruct r as [[name p']|]; [|done]. apply group_name_loop_bytes in En as [Hb Hl]; [|done|done]. cbn [fst] in *.
  destruct (Hrest name Hb ltac:(lia) p') as [_ Ht]. by eapply Ht.
Qed.
#[local] Hint Resolve Atom_plain_group Atom_modifiers Atom_lookahead Atom_named_group : blocks.
Lemma Atom_group b p : AtomSpec (term_group disj b p).
Proof. unfold term_group. pose proof (Atom_capture add_no_name b) as Hcap. pose proof AddsName_none. blocks. Qed.
#[local] Hint Resolve Atom_group : blocks.
Lemma Atom_atom b p : AtomSpec (term_atom disj b p).
Proof. unfold term_atom. blocks. Qed.
End Groups.
End Atoms.

(** ** Quantifiers *)
Section Quantifiers.
Context `{ReEnv} `{UnicodeDb}.

(** Filling part of the gap that an insertion has left. *)
Lemma typed_fill l i s pre gap rest (Q : unit -> REParseState -> Prop) :
  code s = pre ++ gap ++ rest -> i = Z.of_nat (length pre) -> (length l <= length gap)%nat ->
  (forall s', same s s' -> code s' = (pre ++ (u8 <$> l)) ++ drop (length l) gap ++ rest -> Q tt s') -> typed s (pokes i l) Q.
Proof.
  intros Hc Hi Hl HQ. apply (typed_pokes l i s pre (take (length l) gap) (drop (length l) gap ++ rest)); [|done|by rewrite length_take_le|].
  - rewrite (app_assoc (take _ _)), take_drop. done.
  - intros s' Hs' Hc'. apply HQ; [done|]. by rewrite Hc', <- app_assoc.
Qed.
Lemma typed_fill1 v i s pre gap rest (Q : unit -> REParseState -> Prop) :
  code s = pre ++ gap ++ rest -> i = Z.of_nat (length pre) -> (1 <= length gap)%nat ->
  (forall s', same s s' -> code s' = (pre ++ [u8 v]) ++ drop 1 gap ++ rest -> Q tt s') -> typed s (poke i v) Q.
Proof.
  intros Hc Hi Hl HQ Hs He a s1 E1 He1. destruct a. eapply (typed_fill [v] i s pre gap rest Q); try done.
  cbn [pokes]. unfold pbind. by rewrite E1.
Qed.
Lemma typed_fill32 v i s pre gap rest (Q : unit -> REParseState -> Prop) :
  code s = pre ++ gap ++ rest -> i = Z.of_nat (length pre) -> (4 <= length gap)%nat ->
  (forall s', same s s' -> code s' = (pre ++ le_bytes 4 (u32 v)) ++ drop 4 gap ++ rest -> Q tt s') -> typed s (poke_u32 i v) Q.
Proof.
  intros Hc Hi Hl HQ. eapply typed_fill; [done|done|by rewrite le_bytes_length|]. intros s' Hs'. rewrite u8_le_bytes, le_bytes_length. by apply HQ.
Qed.

Lemma typed_save_reset s pre rest captures (Q : unit -> REParseState -> Prop) :
  code s = pre ++ rest -> 0 <= captures < s_capture_count s ->
  (forall s' i, same s s' -> block (s_capture_count s) [i] -> ilen i = 3 -> code s' = pre ++ insn_bytes i ++ rest -> Q tt s') ->
  typed s (insert_save_reset (Z.of_nat (length pre)) captures) Q.
Proof.
  intros Hc Hcap HQ. apply typed_pre. intros [_ Hcc _] _. unfold CAPTURE_COUNT_MAX in Hcc.
  apply typed_bind; [by apply Mono_insert_or_fail|intros; mono|]. eapply typed_insert; [exact Hc|done|lia|].
  intros s1 gap Hs1 Hg Hc1. apply typed_bind; [mono|intros; mono|]. apply typed_get.
  eapply typed_fill; [exact Hc1|done|cbn; lia|]. intros s2 Hs2 Hc2. rewrite (same_count _ _ Hs1) in Hc2.
  apply (HQ s2 (mk_insn REOP_save_reset [u8 captures; u8 (s_capture_count s - 1)])); [by eapply same_trans| |done|].
  - apply block_straight; [done| |].
    + split; [cbn [i_args]; rewrite !Forall_cons, Forall_nil; split_and!; try done; apply u8_range|]. by exists 3, 0.
    + intros c. cbn [operands_ok i_op i_args]. exists (s_capture_count s - 1). rewrite (u8_id (_ - 1)) by lia. split; [done|lia].
  - rewrite Hc2. cbn [fmap list_fmap length]. rewrite u8_reop, drop_ge by lia. by rewrite <- app_assoc.
Qed.

Definition becomes (pre : list Z) (_ : unit) (s' : REParseState) : Prop :=
  exists b, code s' = pre ++ code_bytes b /\ block (s_capture_count s') b.

Lemma split_op greedy : reop REOP_split_goto_first + bz greedy = reop (if greedy then REOP_split_next_first else REOP_split_goto_first) /\
  reop REOP_split_next_first - bz greedy = reop (if greedy then REOP_split_goto_first else REOP_split_next_first).
Proof. by destruct greedy. Qed.
Definition loop_op (greedy check : bool) : REOPCodeEnum :=
  if check then if greedy then REOP_loop_check_adv_split_goto_first else REOP_loop_check_adv_split_next_first
  else if greedy then REOP_loop_split_goto_first else REOP_loop_split_next_first.
Lemma loop_op_spec (greedy check : bool) :
  reop (if check then REOP_loop_check_adv_split_next_first else REOP_loop_split_next_first) - bz greedy = reop (loop_op greedy check) /\
  pops (if check then 2 else 1) (loop_op greedy check).
Proof. by destruct greedy, check. Qed.

(** The loop around [b], with its counter and its jump back. *)
Definition loop_of (op : REOPCodeEnum) (check : bool) (n m : Z) (b : list insn) : list insn :=
  set_i32 n :: (if check then [set_pos] else []) ++ b ++ [loop_split op m (- (clen b + 10 + bz check * 2))].
Lemma block_loop_of cc greedy check n m b : block cc b -> clen b + 12 < 2 ^ 31 -> block cc (loop_of (loop_op greedy check) check n m b).
Proof.
  intros Hb Hl. destruct (loop_op_spec greedy check) as [_ Hp]. unfold loop_of. destruct check; cbn [app bz].
  - replace (clen b + 10 + 1 * 2) with (clen b + 12) by lia. by apply block_loop_check.
  - replace (clen b + 10 + 0 * 2) with (clen b + 10) by lia. apply block_loop_split; [done|done|lia].
Qed.
Lemma clen_loop_of op check n m b : clen (loop_of op check n m b) = 6 + bz check * 2 + clen b + 10.
Proof.
  unfold loop_of. rewrite clen_cons, !clen_app, clen_cons, clen_nil, ilen_set_i32, ilen_loop_split.
  destruct check; cbn [bz]; [rewrite clen_cons, clen_nil; change (ilen set_pos) with 2|rewrite clen_nil]; lia.
Qed.
Lemma code_bytes_one i : code_bytes [i] = insn_bytes i.
Proof. by rewrite code_bytes_cons, app_nil_r. Qed.
Lemma prologue_bytes n check : loop_prologue n check = code_bytes (set_i32 n :: (if check then [set_pos] else [])).
Proof. unfold loop_prologue. rewrite code_bytes_cons. by destruct check. Qed.
Lemma u8_code_bytes b : Forall insn_wf b -> u8 <$> code_bytes b = code_bytes b.
Proof.
  induction 1 as [|i b [Hi _] _ IH]; [done|]. rewrite code_bytes_cons, fmap_app, IH. f_equal. unfold insn_bytes.
  rewrite fmap_cons, u8_reop. f_equal. clear -Hi. induction Hi as [|x l Hx _ IHl]; [done|]. rewrite fmap_cons, IHl. f_equal. by apply u8_id.
Qed.
Lemma prologue_u8 n check : u8 <$> loop_prologue n check = loop_prologue n check.
Proof.
  rewrite prologue_bytes. apply u8_code_bytes. apply Forall_cons. split; [apply insn_wf_set_i32|].
  destruct check; [|done]. apply Forall_singleton. by apply insn_wf_reg.
Qed.
Lemma prologue_length n check : Z.of_nat (length (loop_prologue n check)) = 6 + bz check * 2.
Proof. unfold loop_prologue. rewrite !length_app, le_bytes_length. destruct check; cbn [length bz]; lia. Qed.

Lemma typed_loop_split greedy check m s pre n b target :
  code s = pre ++ loop_prologue n check ++ code_bytes b -> target = Z.of_nat (length pre) + 6 ->
  typed s (emit_loop_split greedy check m target) (fun _ s' => same s s' /\
    code s' = pre ++ code_bytes (loop_of (loop_op greedy check) check n m b)).
Proof.
  intros Hc Ht. unfold emit_loop_split. destruct (loop_op_spec greedy check) as [-> _].
  apply typed_bind; [mono|intros; mono|]. apply typed_emit_loop_split. intros s' pos [Hs' Hc']. apply typed_ret. split; [done|].
  replace (target - (Z.of_nat (length (code s)) + 10)) with (- (clen b + 10 + bz check * 2)) in Hc'.
  2: { rewrite Hc, !length_app. pose proof (prologue_length n check). unfold clen. lia. }
  rewrite Hc', Hc, prologue_bytes. unfold loop_of. rewrite (app_comm_cons _ _ (set_i32 n)), !code_bytes_app, code_bytes_one, <- !app_assoc. done.
Qed.

Definition check_block (check : bool) (b : list insn) : list insn := if check then set_pos :: b ++ [check_adv] else b.
Lemma block_check_block cc check b : block cc b -> block cc (check_block check b).
Proof. destruct check; [apply block_check_advance|done]. Qed.
Lemma clen_check_block check b : clen (check_block check b) = clen b + bz check * 4.
Proof.
  destruct check; cbn [check_block bz]; [|lia]. rewrite clen_cons, clen_app, clen_cons, clen_nil.
  change (ilen set_pos) with 2. change (ilen check_adv) with 2. lia.
Qed.

(** [?] and [*] *)
Lemma typed_optional1 s pre b greedy check has_goto : code s = pre ++ code_bytes b -> block (s_capture_count s) b ->
  typed s (let start := Z.of_nat (length pre) in
    let? _ := insert_or_fail start (5 + bz check * 2) in
    let? _ := poke start (reop REOP_split_goto_first + bz greedy) in
    let? _ := poke_u32 (start + 1) (clen b + 5 * bz has_goto + bz check * 2 * 2) in
    let? _ := (if check then
                 let? _ := pokes (start + 1 + 4) [reop REOP_set_char_pos; 0] in
                 re_emit_op_u8 (reop REOP_check_advance) 0
               else pret tt) in
    if has_goto then let? _ := re_emit_goto (reop REOP_goto) start in pret tt else pret tt) (becomes pre).
Proof.
  intros Hc Hb. cbv zeta. pose proof (bz_range check). destruct (split_op greedy) as [-> _].
  set (op := if greedy then _ else _). assert (is_split op) as Hop by (unfold is_split, op; destruct greedy; auto).
  apply typed_bind; [apply Mono_insert_or_fail; lia|intros; mono|]. eapply typed_insert; [exact Hc|done|lia|]. intros s1 gap Hs1 Hg Hc1.
  apply typed_bind; [mono|intros; mono|]. eapply typed_fill1; [exact Hc1|done|lia|]. intros s2 Hs2 Hc2.
  apply typed_bind; [mono|intros; mono|]. eapply typed_fill32; [exact Hc2|rewrite length_app; cbn; lia|rewrite length_drop; lia|]. intros s3 Hs3 Hc3.
  set (v := clen b + _ + _) in *. rewrite u8_reop, drop_drop in Hc3.
  assert (same s s3) as Hs13 by (do 2 (eapply same_trans; [done|]); done).
  apply typed_bind; [destruct check; mono|intros; mono|].
  assert (clen (check_block check b) + 5 * bz has_goto = v) as Hv by (unfold v; rewrite clen_check_block; lia).
  apply (typed_conseq _ _ (fun _ s4 => same s3 s4 /\ code s4 = pre ++ insn_bytes (jmp op v) ++ code_bytes (check_block check b))).
  { destruct check; mono. }
  { destruct check.
    - apply typed_bind; [mono|intros; mono|]. eapply typed_fill; [exact Hc3|rewrite !length_app, le_bytes_length; cbn; lia|rewrite length_drop; cbn in *; lia|].
      intros s4 Hs4 Hc4. apply typed_emit_op_u8. intros s5 [Hs5 Hc5]. split; [by eapply same_trans|].
      rewrite Hc5, Hc4. cbn [length]. rewrite drop_ge by (rewrite length_drop; cbn in Hg; lia). cbn [check_block].
      rewrite code_bytes_cons, code_bytes_app, code_bytes_one, <- !app_assoc. done.
    - apply typed_ret. split; [apply same_refl|]. rewrite Hc3, drop_ge by (cbn in Hg; lia). rewrite <- !app_assoc. done. }
  intros _ s4 Hp4 _ [Hs4 Hc4]. apply pinv_size in Hp4. pose proof (same_count _ _ (same_trans _ _ _ Hs13 Hs4)) as Hcnt.
  assert (clen (check_block check b) + 5 + Z.of_nat (length pre) < 2 ^ 30) as Hsz.
  { rewrite Hc4, !length_app in Hp4. unfold clen, insn_bytes in *. cbn [jmp i_op i_args length] in Hp4. rewrite le_bytes_length in Hp4. lia. }
  destruct has_goto.
  - apply typed_bind; [mono|intros; mono|]. apply typed_emit_goto. intros s5 pos [Hs5 Hc5]. apply typed_ret.
    exists (jmp op (clen (check_block check b) + 5) :: check_block check b ++ [jmp REOP_goto (- (clen (check_block check b) + 10))]).
    rewrite (same_count _ _ Hs5), Hcnt. split; [|apply block_star; [done|by apply block_check_block|lia]].
    replace (Z.of_nat (length pre) - (Z.of_nat (length (code s4)) + 5)) with (- (clen (check_block check b) + 10)) in Hc5.
    2: { rewrite Hc4, !length_app. unfold clen, insn_bytes. cbn [jmp i_op i_args length]. rewrite le_bytes_length. lia. }
    rewrite Hc5, Hc4, code_bytes_cons, code_bytes_app, code_bytes_one, <- !app_assoc.
    replace v with (clen (check_block check b) + 5) by (cbn [bz] in Hv; lia). done.
  - apply typed_ret. exists (jmp op (clen (check_block check b)) :: check_block check b). rewrite Hcnt.
    split; [|apply block_skip; [done|by apply block_check_block|lia]].
    rewrite Hc4, code_bytes_cons. replace v with (clen (check_block check b)) by (cbn [bz] in Hv; lia). done.
Qed.

(** The counted loop, once its prologue is in place *)
Lemma typed_loop_becomes s pre b n m greedy check (wrap : list insn -> list insn) pre' : 
  code s = pre' ++ loop_prologue n check ++ code_bytes b -> block (s_capture_count s) b ->
  (forall l, Z.of_nat (length pre') + clen l < 2 ^ 30 -> block (s_capture_count s) l ->
     block (s_capture_count s) (wrap l) /\ (clen l = 6 + bz check * 2 + clen b + 10 -> pre' ++ code_bytes l = pre ++ code_bytes (wrap l))) ->
  typed s (emit_loop_split greedy check m (Z.of_nat (length pre') + 6)) (becomes pre).
Proof.
  intros Hc Hb Hwrap. eapply typed_conseq; [mono|by eapply typed_loop_split|]. intros [] s' Hp' _ [Hs' Hc']. apply pinv_size in Hp'.
  set (l := loop_of (loop_op greedy check) check n m b) in *. pose proof (bz_range check).
  assert (Z.of_nat (length pre') + clen l < 2 ^ 30) as Hsz by (rewrite Hc', length_app in Hp'; unfold clen; lia).
  assert (clen l = 6 + bz check * 2 + clen b + 10) as Hcl by (unfold l; by rewrite clen_loop_of).
  destruct (Hwrap l Hsz) as [Hbw Hcw]. { unfold l. apply block_loop_of; [done|]. lia. }
  exists (wrap l). rewrite (same_count _ _ Hs'). split; [|done]. by rewrite Hc', Hcw.
Qed.

Lemma typed_optional s pre b qmax greedy check : code s = pre ++ code_bytes b -> block (s_capture_count s) b ->
  typed s (quantify_optional (Z.of_nat (length pre)) (clen b) qmax greedy check) (becomes pre).
Proof.
  intros Hc Hb. unfold quantify_optional. destruct (qmax =? 0).
  { intros _ _ a s' (s0 & s1 & [= <- <-] & E)%pbind_ok _. apply set_code_spec in E as (Hs' & Hc' & _ & _). exists [].
    rewrite app_nil_r, (same_count _ _ Hs'). split; [|apply block_nil]. rewrite Hc'. fold (code s). by rewrite Hc, Nat2Z.id, take_app_length. }
  destruct (_ || _); [by apply typed_optional1|]. pose proof (bz_range check). destruct (split_op greedy) as [-> _].
  set (op := if greedy then _ else _). assert (is_split op) as Hop by (unfold is_split, op; destruct greedy; auto).
  apply typed_bind; [apply Mono_insert_or_fail; lia|intros; mono|]. eapply typed_insert; [exact Hc|done|lia|]. intros s1 gap Hs1 Hg Hc1.
  apply typed_bind; [mono|intros; mono|]. eapply typed_fill1; [exact Hc1|done|lia|]. intros s2 Hs2 Hc2.
  apply typed_bind; [mono|intros; mono|]. eapply typed_fill32; [exact Hc2|rewrite length_app; cbn; lia|rewrite length_drop; lia|]. intros s3 Hs3 Hc3.
  set (v := 6 + _ + _ + _) in *. rewrite u8_reop, drop_drop, <- (app_assoc pre) in Hc3. change ([reop op] ++ le_bytes 4 (u32 v)) with (insn_bytes (jmp op v)) in Hc3.
  assert (Z.of_nat (length (pre ++ insn_bytes (jmp op v))) = Z.of_nat (length pre) + 5) as Hpre'.
  { rewrite length_app. unfold insn_bytes. cbn [jmp i_op i_args length]. rewrite le_bytes_length. lia. }
  apply typed_bind; [mono|intros; mono|]. pose proof (prologue_length qmax check) as Hpl.
  eapply typed_fill; [exact Hc3|lia|rewrite length_drop; lia|]. intros s4 Hs4 Hc4. rewrite prologue_u8 in Hc4.
  rewrite (drop_ge (drop _ gap)), <- app_assoc in Hc4 by (rewrite length_drop; lia). cbn [app] in Hc4.
  replace (Z.of_nat (length pre) + 11) with (Z.of_nat (length (pre ++ insn_bytes (jmp op v))) + 6) by lia.
  assert (s_capture_count s4 = s_capture_count s) as Hcnt by (rewrite (same_count _ _ Hs4), (same_count _ _ Hs3), (same_count _ _ Hs2), (same_count _ _ Hs1); done).
  eapply (typed_loop_becomes s4 pre b qmax qmax greedy check (fun l => jmp op (clen l) :: l)); [exact Hc4|by rewrite Hcnt|].
  intros l Hl Hbl. split; [apply block_skip; [done|done|lia]|]. intros El. rewrite code_bytes_cons, <- app_assoc.
  replace v with (clen l) by (unfold v; lia). done.
Qed.

Lemma typed_repeated s pre b qmin qmax greedy check : code s = pre ++ code_bytes b -> block (s_capture_count s) b ->
  typed s (quantify_repeated (Z.of_nat (length pre)) qmin qmax greedy check) (becomes pre).
Proof.
  intros Hc Hb. unfold quantify_repeated. destruct (_ && _).
  { destruct (split_op greedy) as [_ ->]. set (op := if greedy then _ else _).
    assert (is_split op) as Hop by (unfold is_split, op; destruct greedy; auto).
    apply typed_pre. intros Hp%pinv_size _. apply typed_bind; [mono|intros; mono|]. apply typed_emit_goto. intros s1 pos [Hs1 Hc1].
    apply typed_ret. exists (b ++ [jmp op (- (clen b + 5))]). rewrite (same_count _ _ Hs1). rewrite Hc, length_app in Hp.
    split; [|apply block_plus; [done|done|unfold clen; lia]].
    replace (Z.of_nat (length pre) - (Z.of_nat (length (code s)) + 5)) with (- (clen b + 5)) in Hc1 by (rewrite Hc, length_app; unfold clen; lia).
    by rewrite Hc1, Hc, code_bytes_app, code_bytes_one, <- app_assoc. }
  cbv zeta. set (chk := if qmin =? qmax then false else check). pose proof (bz_range chk). pose proof (prologue_length qmax chk) as Hpl.
  apply typed_bind; [apply Mono_insert_or_fail; lia|intros; mono|]. eapply typed_insert; [exact Hc|done|lia|]. intros s1 gap Hs1 Hg Hc1.
  apply typed_bind; [mono|intros; mono|]. eapply typed_fill; [exact Hc1|done|lia|]. intros s2 Hs2 Hc2. rewrite prologue_u8 in Hc2.
  rewrite (drop_ge gap), <- app_assoc in Hc2 by lia. cbn [app] in Hc2.
  assert (s_capture_count s2 = s_capture_count s) as Hcnt by (rewrite (same_count _ _ Hs2), (same_count _ _ Hs1); done).
  destruct (qmin =? qmax) eqn:Eq.
  - apply typed_pre. intros Hp2%pinv_size _. apply typed_bind; [mono|intros; mono|]. apply typed_emit_loop. intros s3 pos [Hs3 Hc3]. apply typed_ret.
    exists (set_i32 qmax :: b ++ [loop_jmp (- (clen b + 6))]). rewrite (same_count _ _ Hs3), Hcnt.
    assert (loop_prologue qmax chk = insn_bytes (set_i32 qmax)) as Hlp by done.
    rewrite Hlp in Hc2, Hpl. cbn [bz chk] in Hpl. rewrite Hc2, !length_app in Hp2.
    split; [|apply block_loop; [done|unfold clen; lia]].
    replace (Z.of_nat (length pre) + 6 - (Z.of_nat (length (code s2)) + 6)) with (- (clen b + 6)) in Hc3 by (rewrite Hc2, !length_app; unfold clen; lia).
    by rewrite Hc3, Hc2, code_bytes_cons, code_bytes_app, code_bytes_one, <- !app_assoc.
  - eapply (typed_loop_becomes s2 pre b qmax (qmax - qmin) greedy chk id); [exact Hc2|by rewrite Hcnt|]. done.
Qed.

Lemma typed_quantify s pre b captures qmin qmax greedy : code s = pre ++ code_bytes b -> block (s_capture_count s) b ->
  0 <= captures <= s_capture_count s ->
  typed s (quantify (Z.of_nat (length pre)) captures qmin qmax greedy) (becomes pre).
Proof.
  intros Hc Hb Hcap. unfold quantify. apply typed_bind; [mono|intros; mono|]. apply typed_get.
  apply typed_bind; [mono|intros [? ?]; mono|]. apply typed_option. intros [check init] _. cbv zeta.
  set (has := negb (captures =? s_capture_count s)).
  assert (has = true -> captures < s_capture_count s) as Hlt by (unfold has; destruct (Z.eqb_spec captures (s_capture_count s)); [done|lia]).
  assert (forall s1 pre1 b1, code s1 = pre1 ++ code_bytes b1 -> Z.of_nat (length (code s1)) - Z.of_nat (length pre1) = clen b1) as Hlen.
  { intros s1 pre1 b1 ->. rewrite length_app. unfold clen. lia. }
  apply typed_bind; [destruct (init && has); mono|intros; mono|].
  apply (typed_conseq _ _ (fun _ s1 => s_capture_count s1 = s_capture_count s /\ exists b1, code s1 = pre ++ code_bytes b1 /\ block (s_capture_count s) b1)).
  { destruct (init && has); mono. }
  { destruct (init && has) eqn:Ei; [|apply typed_ret; split; [done|by exists b]]. apply andb_true_iff in Ei as [_ Hhas].
    eapply typed_save_reset; [exact Hc|split; [lia|by apply Hlt]|]. intros s1 i Hs1 Hbi _ Hc1. rewrite (same_count _ _ Hs1). split; [done|].
    exists (i :: b). rewrite code_bytes_cons. split; [done|]. by apply (block_app _ [i] b). }
  intros _ s1 _ _ (Hcnt & b1 & Hc1 & Hb1). apply typed_bind; [mono|intros; mono|]. apply typed_size.
  rewrite (Hlen s1 pre b1 Hc1). rewrite <- Hcnt in Hb1. destruct (qmin =? 0); [|by eapply typed_repeated].
  destruct (negb init && has) eqn:Ei; [|by apply typed_optional]. apply andb_true_iff in Ei as [_ Hhas].
  apply typed_bind; [mono|intros; mono|]. eapply typed_save_reset; [exact Hc1|rewrite Hcnt; split; [lia|by apply Hlt]|].
  intros s2 i Hs2 Hbi Hli Hc2. rewrite app_assoc in Hc2.
  replace (Z.of_nat (length pre) + 3) with (Z.of_nat (length (pre ++ insn_bytes i))) by (rewrite length_app; unfold ilen in Hli; unfold insn_bytes; cbn [length]; lia).
  apply (typed_conseq _ _ (becomes (pre ++ insn_bytes i))); [mono|apply typed_optional; [done|by rewrite (same_count _ _ Hs2)]|].
  intros [] s3 _ Hle (b3 & Hc3 & Hb3). exists (i :: b3). rewrite code_bytes_cons, app_assoc. split; [done|].
  apply (block_app _ [i] b3); [|done]. rewrite (same_count _ _ Hs2) in Hle. by eapply block_mono.
Qed.
End Quantifiers.

(** ** Terms, alternatives, disjunctions *)
Section Terms.
Context `{ReEnv} `{UnicodeDb}.
Section Rec.
Context (disj : bool -> P unit) (Hdisj : forall b, EmitsBlock (disj b)).
#[local] Hint Resolve disj_mono : mono.

Lemma becomes_grown s u s' : becomes (code s) u s' -> grown s s'.
Proof. done. Qed.
Lemma becomes_quiet pre s s' : quiet s s' -> becomes pre tt s -> becomes pre tt s'.
Proof. intros Hq (b & Hc & Hb). exists b. by rewrite (quiet_code _ _ Hq), (quiet_count _ _ Hq). Qed.
Lemma EB_term b : EmitsBlock (re_parse_term disj b).
Proof.
  split; [apply Mono_term; by apply disj_mono|]. intros s. unfold re_parse_term.
  pose proof (fun b => disj_mono disj Hdisj b) as Hdm.
  apply typed_bind; [mono|intros; mono|]. apply typed_get. destruct (Atom_atom disj Hdisj b (s_buf_ptr s)) as [Ham Hat].
  apply typed_bind; [done|intros [[? ?] ?]; mono|]. apply typed_pre. intros [_ Hcount _] _. eapply typed_conseq; [done|apply Hat|].
  intros [[p st] ci] s1 _ Hle [(bl & Hc & Hbl) Hst]. cbn [fst snd] in Hst.
  destruct (Z.ltb_spec st 0) as [|Hge].
  { apply typed_quiet; [quiet|]. intros _ s2 Hq. exists bl. by rewrite (quiet_code _ _ Hq), (quiet_count _ _ Hq). }
  destruct Hst as [|[-> ->]]; [lia|]. apply typed_bind; [mono|intros; mono|]. apply typed_quiet; [quiet|]. intros q s2 Hq2.
  rewrite <- (quiet_code _ _ Hq2) in Hc. rewrite <- (quiet_count _ _ Hq2) in Hbl, Hle.
  destruct q as [[[qmin qmax] p']|].
  2: { apply typed_quiet; [quiet|]. intros _ s3 Hq3. exists bl. by rewrite (quiet_code _ _ Hq3), (quiet_count _ _ Hq3). }
  apply typed_bind; [mono|intros; mono|]. apply typed_option. intros b0 _. cbv zeta.
  apply typed_bind; [mono|intros; mono|]. eapply typed_conseq; [mono|eapply typed_quantify; [exact Hc|exact Hbl|lia]|].
  intros u s3 _ _ Hbec. apply typed_quiet; [quiet|]. intros _ s4 Hq4. apply (becomes_grown s tt). destruct u. by eapply becomes_quiet.
Qed.

Lemma typed_move s pre acc bl : code s = (pre ++ code_bytes acc) ++ code_bytes bl ->
  typed s (move_term (Z.of_nat (length pre)) (Z.of_nat (length (pre ++ code_bytes acc))))
    (fun _ s' => s_capture_count s' = s_capture_count s /\ code s' = pre ++ code_bytes (bl ++ acc)).
Proof.
  intros Hc Hs He a s'. unfold move_term. intros (n & s1 & [= <- <-] & E)%pbind_ok _.
  assert (db_size (s_byte_code s) - Z.of_nat (length (pre ++ code_bytes acc)) = clen bl) as Hl.
  { unfold db_size. fold (code s). rewrite Hc, length_app. unfold clen. lia. }
  rewrite Hl in E. destruct ((_ <? _) || _); [done|]. apply pbind_ok in E as (r & s2 & E2 & E).
  apply claim_spec in E2 as (Hs2 & _ & Hc2 & _ & _); [|done|apply clen_nonneg]. destruct r; [|done]. cbn [negb] in E.
  apply pbind_ok in E as (s3 & s3' & [= <- <-] & E). apply set_code_spec in E as (Hs3 & Hc3 & _ & _).
  rewrite (same_count _ _ Hs3), (same_count _ _ Hs2). split; [done|]. rewrite Hc3. fold (code s2). rewrite Hc2, Hc.
  rewrite Nat2Z.id, <- (app_assoc pre), take_app_length, drop_app_length.
  replace (Z.to_nat (Z.of_nat (length (pre ++ code_bytes acc)) - Z.of_nat (length pre))) with (length (code_bytes acc)) by (rewrite length_app; lia).
  by rewrite take_app_length, drop_app_length, code_bytes_app.
Qed.
Lemma typed_alternative_loop fuel bwd : forall s pre acc, code s = pre ++ code_bytes acc -> block (s_capture_count s) acc ->
  typed s (re_parse_alternative disj fuel bwd (Z.of_nat (length pre))) (becomes pre).
Proof.
  pose proof (fun b => disj_mono disj Hdisj b) as Hdm.
  induction fuel as [|fuel IH]; intros s pre acc Hc Hacc; cbn [re_parse_alternative]; [by intros _ _ a s'|].
  apply typed_bind; [mono|intros; mono|]. apply typed_get. destruct (_ <=? _); [apply typed_ret; by exists acc|].
  apply typed_bind; [mono|intros; mono|]. apply typed_option. intros c _. destruct (_ || _); [apply typed_ret; by exists acc|].
  apply typed_bind; [mono|intros; mono|]. apply typed_size. apply typed_bind; [mono|intros; mono|].
  apply typed_grown; [apply EB_term|]. intros _ s1 _ (bl & Hc1 & Hbl) Hle. rewrite Hc in Hc1 |- *.
  assert (block (s_capture_count s1) acc) as Hacc1 by by eapply block_mono.
  apply typed_bind; [destruct bwd; mono|intros; mono|]. destruct bwd.
  - eapply typed_conseq; [mono|by apply typed_move|]. intros _ s2 _ _ [Hcnt Hc2]. eapply IH; [exact Hc2|].
    rewrite Hcnt. by apply block_app.
  - apply typed_ret. apply (IH s1 pre (acc ++ bl)); [by rewrite Hc1, code_bytes_app, app_assoc|by apply block_app].
Qed.
Lemma EB_alternative b : EmitsBlock (alternative disj b).
Proof.
  pose proof (fun b => disj_mono disj Hdisj b) as Hdm.
  split; [by apply Mono_alternative|]. intros s. unfold alternative. apply typed_bind; [mono|intros; by apply Mono_alternative_loop|].
  apply typed_size. eapply (typed_conseq _ _ (becomes (code s))); [by apply Mono_alternative_loop| |by intros [] s' _ _ ?].
  apply (typed_alternative_loop _ _ s (code s) []); [by rewrite app_nil_r|apply block_nil].
Qed.
Lemma typed_disjunction_loop fuel bwd : forall s pre b, code s = pre ++ code_bytes b -> block (s_capture_count s) b ->
  typed s (disjunction_loop disj fuel bwd (Z.of_nat (length pre))) (becomes pre).
Proof.
  pose proof (fun b => disj_mono disj Hdisj b) as Hdm. pose proof (fun b => Mono_alternative disj Hdm b) as Halt.
  assert (forall fuel b st, Mono (disjunction_loop disj fuel b st)) as Hloop by (intros; by apply Mono_disjunction_loop).
  induction fuel as [|fuel IH]; intros s pre b Hc Hb; cbn [disjunction_loop]; [by intros _ _ a s'|].
  assert (forall p l, 0 <= l -> Mono (insert_or_fail p l)) as Hins by (intros; by apply Mono_insert_or_fail).
  assert (Mono (insert_or_fail (Z.of_nat (length pre)) 5)) as Hins5 by by apply Hins.
  apply typed_bind; [mono|intros; mono|]. apply typed_get. apply typed_bind; [mono|intros; mono|]. apply typed_option. intros c _.
  destruct (negb _); [apply typed_ret; by exists b|]. apply typed_bind; [mono|intros; mono|]. apply typed_quiet; [quiet|]. intros _ s1 Hq1.
  rewrite <- (quiet_code _ _ Hq1) in Hc. rewrite <- (quiet_count _ _ Hq1) in Hb.
  apply typed_bind; [mono|intros; mono|]. apply typed_size. cbv zeta.
  replace (Z.of_nat (length (code s1)) - Z.of_nat (length pre) + 5) with (clen b + 5) by (rewrite Hc, length_app; unfold clen; lia).
  apply typed_bind; [done|intros; mono|]. eapply typed_insert; [exact Hc|done|done|]. intros s2 gap Hs2 Hg Hc2.
  apply typed_bind; [mono|intros; mono|]. eapply typed_fill1; [exact Hc2|done|lia|]. intros s3 Hs3 Hc3.
  apply typed_bind; [mono|intros; mono|]. eapply typed_fill32; [exact Hc3|rewrite length_app; cbn; lia|rewrite length_drop; lia|]. intros s4 Hs4 Hc4.
  rewrite u8_reop, drop_drop, drop_ge, <- !app_assoc in Hc4 by lia. cbn [app] in Hc4.
  apply typed_bind; [mono|intros; mono|]. apply typed_emit_op_u32. intros s5 Hi5.
  apply typed_bind; [mono|intros; mono|]. apply typed_get. apply typed_bind; [mono|intros; mono|]. apply typed_quiet; [quiet|]. intros _ s6 Hq6.
  apply typed_bind; [mono|intros; mono|]. apply typed_grown; [apply EB_alternative|]. intros _ s7 Hp7 (b2 & Hc7 & Hb2) Hle7.
  rewrite (quiet_code _ _ Hq6) in Hc7. apply typed_bind; [mono|intros; mono|]. apply typed_size.
  apply typed_bind; [mono|intros; mono|]. eapply typed_patch_split; [exact Hi5|exact Hc7|]. intros s8 Hs8 Hc8. apply pinv_size in Hp7.
  assert (s_capture_count s1 <= s_capture_count s7) as Hle.
  { destruct Hi5 as [Hs5 _]. rewrite (quiet_count _ _ Hq6), (same_count _ _ Hs5), (same_count _ _ Hs4), (same_count _ _ Hs3), (same_count _ _ Hs2) in Hle7. done. }
  destruct Hi5 as [_ Hc5]. rewrite Hc5, Hc4 in Hc7. rewrite Hc7 in Hp7.
  rewrite !length_app in Hp7. cbn [length] in Hp7. rewrite length_app in Hp7.
  apply (IH s8 pre (jmp REOP_split_next_first (clen b + 5) :: b ++ jmp REOP_goto (clen b2) :: b2)).
  - rewrite Hc8, Hc4, code_bytes_cons, code_bytes_app, code_bytes_cons, <- !app_assoc. done.
  - rewrite (same_count _ _ Hs8). apply block_alt; [by eapply block_mono|done|unfold clen; lia|unfold clen; lia].
Qed.
End Rec.
Lemma EB_disjunction fuel b : EmitsBlock (re_parse_disjunction fuel b).
Proof.
  revert b. induction fuel as [|fuel IH]; intros b; (split; [apply Mono_disjunction|]); intros s; cbn [re_parse_disjunction]; [by intros _ _ a s'|].
  pose proof (fun b => disj_mono _ IH b) as Hdm. pose proof (fun b => Mono_alternative _ Hdm b) as Halt.
  assert (forall n b st, Mono (disjunction_loop (re_parse_disjunction fuel) n b st)) as Hloop by (intros; by apply Mono_disjunction_loop).
  apply typed_bind; [mono|intros; mono|]. apply typed_quiet; [quiet|]. intros _ s1 Hq1. apply typed_bind; [mono|intros; mono|]. apply typed_size.
  apply typed_bind; [mono|intros; mono|]. apply typed_grown; [by apply EB_alternative|]. intros _ s2 _ (b2 & Hc2 & Hb2) _.
  rewrite (quiet_code _ _ Hq1) in Hc2 |- *. eapply (typed_conseq _ _ (becomes (code s))); [mono| |by intros [] s' _ _ ?].
  by eapply typed_disjunction_loop.
Qed.
End Terms.
