(* ===== verification/RegexpCompiled.v ===== *)
(** * Compiled regular expressions are safe to execute

    The end of the proof about the compiler: whatever the pattern, the flags
    and the failures of the embedder, bytecode returned by [lre_compile] passes
    the checker, and so its execution is safe on every input. *)
From S2P Require Import Prelude Sort Cutils Utf8 CharRange UnicodeTables UnicodeCase UnicodeCaseProps UnicodeProp.
From S2P Require Import Regexp RegexpSim RegexpUndo RegexpSearch RegexpRange RegexpType RegexpRegs RegexpParse RegexpCompile.
From S2P Require Import RegexpBlock RegexpMono RegexpTyped.

Section Front.
Context `{ReEnv} `{UnicodeDb}.
Definition header (re_flags : Z) : list Z := le_bytes 2 (u16 re_flags) ++ [0; 0] ++ le_bytes 4 (u32 0).
(** The loop over all positions of a pattern that is not sticky *)
Definition search_loop : list insn :=
  jmp REOP_split_goto_first (clen [mk_insn REOP_any []] + 5) :: [mk_insn REOP_any []] ++
  [jmp REOP_goto (- (clen [mk_insn REOP_any []] + 10))].
Lemma block_search_loop cc : block cc search_loop.
Proof.
  apply block_star; [by left| |done]. apply block_straight; [done| |done]. split; [done|]. by exists 1, 0.
Qed.

Lemma Mono_compile_code re_flags : Mono (compile_code re_flags).
Proof. unfold compile_code. mono. Qed.
Definition program (re_flags : Z) (_ : unit) (s' : REParseState) : Prop :=
  exists b, code s' = header re_flags ++ code_bytes (b ++ [match_insn]) /\ block (s_capture_count s') b.
Lemma EB_search_loop :
  EmitsBlock (let? _ := re_emit_op_u32 (reop REOP_split_goto_first) (1 + 5) in
              let? _ := re_emit_op (reop REOP_any) in
              let? _ := re_emit_op_u32 (reop REOP_goto) (- (5 + 1 + 5)) in
              pret tt).
Proof.
  split; [mono|]. intros s. apply typed_bind; [mono|intros; mono|]. apply typed_emit_op_u32. intros s1 [Hs1 Hc1].
  apply typed_bind; [mono|intros; mono|]. apply typed_emit_op. intros s2 [Hs2 Hc2].
  apply typed_bind; [mono|intros; mono|]. apply typed_emit_op_u32. intros s3 [Hs3 Hc3]. apply typed_ret.
  exists search_loop. split; [|apply block_search_loop]. rewrite Hc3, Hc2, Hc1, <- !app_assoc. done.
Qed.
Lemma typed_compile_code re_flags s : code s = [] -> typed s (compile_code re_flags) (program re_flags).
Proof.
  intros Hc0. apply typed_pre. intros [_ Hcount _] _. unfold compile_code.
  apply typed_bind; [mono|intros; mono|]. apply typed_put_u16. intros s1 Hs1 Hc1.
  apply typed_bind; [mono|intros; mono|]. apply typed_putc. intros s2 Hs2 Hc2.
  apply typed_bind; [mono|intros; mono|]. apply typed_putc. intros s3 Hs3 Hc3.
  apply typed_bind; [mono|intros; mono|]. apply typed_put_u32. intros s4 Hs4 Hc4.
  assert (code s4 = header re_flags) as Hh by (rewrite Hc4, Hc3, Hc2, Hc1, Hc0; done).
  assert (s_capture_count s4 = s_capture_count s) as Hcnt
    by (rewrite (same_count _ _ Hs4), (same_count _ _ Hs3), (same_count _ _ Hs2), (same_count _ _ Hs1); done).
  apply typed_bind; [destruct (_ =? _); mono|intros; mono|]. apply typed_grown.
  { destruct (_ =? _); [apply EB_search_loop|apply EB_quiet; quiet]. }
  intros _ s5 _ Hg5 Hle5.
  apply typed_bind; [mono|intros; mono|]. apply typed_save; [auto|lia|]. intros s6 _ Hg6 Hle6.
  apply typed_bind; [mono|intros; mono|]. apply typed_grown; [apply EB_disjunction|]. intros _ s7 _ Hg7 Hle7.
  apply typed_bind; [mono|intros; mono|]. apply typed_save; [auto|lia|]. intros s8 _ Hg8 Hle8.
  apply typed_emit_op. intros s9 [Hs9 Hc9].
  assert (grown s4 s8) as (b & Hb & Hblock).
  { eapply grown_trans; [|exact Hg5|]; [lia|]. eapply grown_trans; [|exact Hg6|]; [lia|]. by eapply grown_trans. }
  exists b. rewrite (same_count _ _ Hs9). split; [|done]. by rewrite Hc9, Hb, Hh, code_bytes_app, code_bytes_one, app_assoc.
Qed.

Lemma header_length re_flags : Z.of_nat (length (header re_flags)) = RE_HEADER_LEN.
Proof. unfold header. by rewrite !length_app, !le_bytes_length. Qed.
(** Allocating the registers of a block ends, with the block renumbered or with -1. *)
Lemma block_registers hdr b cc : block cc b -> Z.of_nat (length hdr) = RE_HEADER_LEN ->
  allocated hdr (b ++ [match_insn]) 0 (compute_register_count (hdr ++ code_bytes (b ++ [match_insn]))).
Proof.
  intros Hb Hh. unfold compute_register_count.
  replace (Z.of_nat (length (hdr ++ code_bytes (b ++ [match_insn])))) with (Z.of_nat (length hdr) + clen (b ++ [match_insn]))
    by (rewrite (length_app hdr); unfold clen; lia).
  rewrite <- Hh. apply register_loop_code; [| | |lia|done].
  - apply Forall_app. split; [apply Hb|]. apply Forall_singleton. split; [done|]. by exists 1, 0.
  - rewrite depth_app, (block_depth _ _ Hb) by done. done.
  - pose proof (insns_length (b ++ [match_insn])). rewrite (length_app hdr). lia.
Qed.
Lemma compiled_registers hdr b cc bc k : block cc b -> Z.of_nat (length hdr) = RE_HEADER_LEN ->
  compute_register_count (hdr ++ code_bytes (b ++ [match_insn])) = Some (bc, k) -> 0 <= k ->
  k <= REGISTER_COUNT_MAX /\ exists bl, bc = hdr ++ code_bytes bl /\ Forall2 (reg_rel k) (b ++ [match_insn]) bl.
Proof.
  intros Hb Hh E Hk. destruct (block_registers hdr b cc Hb Hh) as (bc' & k' & E' & Hk'). rewrite E' in E. injection E as -> ->.
  destruct Hk' as [->|(Hk' & bl & -> & Hbl)]; [lia|]. split; [lia|]. by exists bl.
Qed.

Definition final_header (flags cc rc len : Z) : list Z :=
  le_bytes 2 (u16 flags) ++ [u8 cc; u8 rc] ++ le_bytes 4 (u32 len).
Lemma Forall_le_bytes n v : Forall is_byte (le_bytes n v).
Proof. revert v. induction n as [|n IH]; intros v; cbn; [done|]. constructor; [|apply IH]. unfold is_byte. lia. Qed.
Lemma code_bytes_byte l : Forall insn_wf l -> Forall is_byte (code_bytes l).
Proof.
  induction 1 as [|i l [Hi _] _ IH]; [done|]. rewrite code_bytes_cons. apply Forall_app. split; [|done].
  constructor; [apply reop_byte|done].
Qed.
(** The bytecode of a block behind its header passes the checker. *)
Lemma final_checked flags cc rc b bl post : block cc b -> Forall2 (reg_rel rc) (b ++ [match_insn]) bl ->
  is_byte cc -> is_byte rc -> clen bl < 2 ^ 32 -> Forall is_byte post ->
  re_check (final_header flags cc rc (clen bl) ++ code_bytes bl ++ post) = true.
Proof.
  intros Hb Hrel Hcc Hrc Hlen Hpost. pose proof (clen_nonneg bl).
  assert (Forall insn_wf bl) as Hwf.
  { apply Forall_forall. intros j (n & Hj)%list_elem_of_lookup. destruct (Forall2_lookup_r _ _ _ _ _ Hrel Hj) as (i & Hi & Hr).
    eapply reg_insn_wf; [|exact Hr]. eapply (Forall_lookup_1 insn_wf (b ++ [match_insn])); [|exact Hi].
    apply Forall_app. split; [apply Hb|]. apply Forall_singleton. split; [done|]. by exists 1, 0. }
  unfold final_header. rewrite !u8_id by done. eapply (block_checked (le_bytes 2 (u16 flags) ++ [cc; rc] ++ le_bytes 4 (u32 (clen bl)))); [done|done| | | | |].
  - by rewrite !length_app, !le_bytes_length.
  - rewrite <- app_assoc. repeat (apply Forall_app_2); try apply Forall_le_bytes; [by rewrite !Forall_cons|by apply code_bytes_byte|done].
  - done.
  - done.
  - rewrite app_assoc. change RE_HEADER_BYTECODE_LEN with (Z.of_nat (length (le_bytes 2 (u16 flags) ++ [cc; rc])) + 0).
    rewrite <- (app_nil_r (le_bytes 4 _)), Z.add_0_r, get_u32_le. f_equal. unfold u32. apply Z.mod_small. lia.
Qed.

(** What the compiler returns: a header, a block and [REOP_match], the names. *)
Definition compiled_form (cc : Z) (bc : list Z) : Prop :=
  exists flags rc b bl post, block cc b /\ Forall2 (reg_rel rc) (b ++ [match_insn]) bl /\ 0 <= rc <= REGISTER_COUNT_MAX /\
    clen bl < 2 ^ 30 /\ Forall is_byte post /\ bc = final_header flags cc rc (clen bl) ++ code_bytes bl ++ post.

Lemma append_names_spec names flags rest s u s' : pinv s -> Z.of_nat (length (db_data names)) < 2 ^ 64 ->
  code s = le_bytes 2 (u16 flags) ++ rest -> append_names names s = POk u s' ->
  exists flags' post, (post = [] \/ post = db_data names) /\ code s' = le_bytes 2 (u16 flags') ++ rest ++ post.
Proof.
  intros Hs Hl Hc (ok & s1 & E1 & E)%pbind_ok. eapply put_spec in E1 as (_ & _ & Hc1 & _); [|done..].
  apply pbind_ok in E as (s1' & s1'' & [= <- <-] & E). apply pbind_ok in E as (fl & s2 & E2 & E).
  unfold of_option in E2. destruct (lre_get_flags _); [|done]. injection E2 as <- <-.
  assert (exists post, (post = [] \/ post = db_data names) /\ code s1 = le_bytes 2 (u16 flags) ++ rest ++ post) as (post & Hpost & Hc1').
  { rewrite Hc in Hc1. destruct ok; [exists (db_data names)|exists []]; rewrite Hc1, ?app_nil_r, <- ?app_assoc; auto. }
  eapply (pokes_spec _ _ _ []) in E as (_ & Hc2 & _); [|exact Hc1'|done|by rewrite !le_bytes_length].
  rewrite u8_le_bytes in Hc2. eauto.
Qed.
Lemma Mono_write_header cc rc : Mono (write_header cc rc).
Proof. unfold write_header. mono. Qed.
Lemma write_header_spec re_flags cc rc bl s u s' : code s = header re_flags ++ code_bytes bl -> write_header cc rc s = POk u s' ->
  same s s' /\ code s' = final_header re_flags cc rc (clen bl) ++ code_bytes bl.
Proof.
  intros Hc (u1 & s1 & E1 & E)%pbind_ok.
  eapply (poke_spec _ _ _ (le_bytes 2 (u16 re_flags)) 0 (0 :: le_bytes 4 (u32 0) ++ code_bytes bl)) in E1 as (Hs1 & Hc1 & _); [|done..].
  apply pbind_ok in E as (u2 & s2 & E2 & E).
  eapply (poke_spec _ _ _ (le_bytes 2 (u16 re_flags) ++ [u8 cc]) 0 (le_bytes 4 (u32 0) ++ code_bytes bl))
    in E2 as (Hs2 & Hc2 & _); [|by rewrite Hc1|done].
  apply pbind_ok in E as (size & s2' & [= <- <-] & E).
  assert (db_size (s_byte_code s2) - RE_HEADER_LEN = clen bl) as Hsize.
  { unfold db_size. fold (code s2). rewrite Hc2. cbn [length app]. rewrite !length_app. cbn [length]. rewrite length_app, !le_bytes_length.
    unfold clen, RE_HEADER_LEN. lia. }
  rewrite Hsize in E. eapply (pokes_spec _ _ _ (le_bytes 2 (u16 re_flags) ++ [u8 cc; u8 rc]) (le_bytes 4 (u32 0)) (code_bytes bl))
    in E as (Hs3 & Hc3 & _); [|by rewrite Hc2|done|by rewrite !le_bytes_length].
  split; [by do 2 (eapply same_trans; [done|])|]. by rewrite Hc3, u8_le_bytes.
Qed.
Lemma rd_spec p s c s' : rd p s = POk c s' -> s' = s.
Proof. unfold rd, of_option. by destruct (byte_at _ _); intros [=]. Qed.
Lemma finish_form re_flags s bc s' : pinv s -> (err s = false -> program re_flags tt s) ->
  compile_finish s = POk bc s' -> compiled_form (s_capture_count s) bc.
Proof.
  intros Hs Hprog. unfold compile_finish. intros (s0 & s0' & [= <- <-] & E)%pbind_ok.
  apply pbind_ok in E as (c & s1 & ->%rd_spec & E).
  destruct (negb _); [done|]. fold (err s) in E. destruct (err s); [done|]. destruct (Hprog eq_refl) as (b & Hc & Hb).
  apply pbind_ok in E as ([bc1 rc] & s2 & E2 & E). unfold of_option in E2. fold (code s) in E2. rewrite Hc in E2.
  destruct (compute_register_count _) as [[bc1' rc']|] eqn:Er; [|done]. injection E2 as -> -> <-.
  apply pbind_ok in E as (u & s3 & E3 & E). destruct (Z.ltb_spec rc 0); [done|].
  eapply compiled_registers in Er as (Hrc & bl & -> & Hrel); [|exact Hb|apply header_length|done].
  pose proof (reg_rel_clen _ _ _ Hrel) as Hlen.
  assert (length (header re_flags ++ code_bytes bl) = length (code s)) as Hsize by (rewrite Hc, !length_app; unfold clen in Hlen; lia).
  assert (pinv s3) as Hp3.
  { eapply (set_code_mono _ _ _ _ E3); [|done]. rewrite Hsize. apply Hs. }
  apply set_code_spec in E3 as (Hs3 & Hc3 & _). apply pbind_ok in E as (u4 & s4 & E4 & E).
  pose proof (Mono_write_header _ _ _ _ _ E4 Hp3) as (Hp4 & _). eapply write_header_spec in E4 as (Hs4 & Hc4); [|exact Hc3].
  apply pbind_ok in E as (u5 & s5 & E5 & E). apply pbind_ok in E as (s6 & s6' & [= <- <-] & [= <- <-]).
  assert (clen bl < 2 ^ 30) as Hclen.
  { apply pinv_size in Hs. rewrite <- Hsize, length_app in Hs. unfold clen. lia. }
  pose proof Hs as [_ _ (Hnwf & Hnames & _)]. destruct (_ <? _).
  - eapply append_names_spec in E5 as (flags & post & Hpost & Hc5); [|done| |unfold final_header in Hc4; by rewrite <- app_assoc in Hc4].
    2: { unfold dbuf_wf, db_size in Hnwf. lia. }
    exists flags, rc, b, bl, post. split_and!; try done. by destruct Hpost as [->| ->].
  - injection E5 as <- <-. exists re_flags, rc, b, bl, []. split_and!; try done. fold (code s4). by rewrite Hc4, app_nil_r.
Qed.
Lemma pinv_state0 re_flags : pinv (re_state0 re_flags).
Proof. split; [done|done|]. split_and!; try done. split_and!; try done. right. apply entries_nil. Qed.
Lemma compile_form re_flags bc s' : compile_body re_flags (re_state0 re_flags) = POk bc s' ->
  exists cc, 1 <= cc <= CAPTURE_COUNT_MAX /\ compiled_form cc bc.
Proof.
  pose proof (pinv_state0 re_flags) as Hp. intros (u & s & E1 & E)%pbind_ok. destruct u.
  destruct (Mono_compile_code re_flags _ _ _ E1 Hp) as (Hs & _ & _). exists (s_capture_count s). split; [apply Hs|].
  eapply finish_form; [done| |exact E]. intros He. by eapply (typed_compile_code re_flags (re_state0 re_flags)).
Qed.
Lemma form_checked cc bc : 1 <= cc <= CAPTURE_COUNT_MAX -> compiled_form cc bc -> re_check bc = true.
Proof.
  intros Hcc (flags & rc & b & bl & post & Hb & Hrel & Hrc & Hlen & Hpost & ->).
  unfold CAPTURE_COUNT_MAX, REGISTER_COUNT_MAX in *. eapply final_checked; try done; unfold is_byte; lia.
Qed.
End Front.

(** [buf] compiles to [bc] for some behaviour of the allocator and of the stack. *)
Definition compiles_to `{UnicodeDb} (buf : list Z) (re_flags : Z) (bc : list Z) : Prop :=
  exists mem overflow s, lre_compile buf re_flags mem overflow = POk bc s.
Lemma compiles_checked `{UnicodeDb} buf re_flags bc : compiles_to buf re_flags bc -> re_check bc = true.
Proof. intros (mem & overflow & s & (cc & Hcc & Hf)%compile_form). by eapply form_checked. Qed.

(** C15: regular expressions are safe.  Whatever the pattern, the flags, the
    Unicode tables and the allocations that fail, bytecode that [lre_compile]
    returns is accepted by the checker (every instruction is complete, jumps lead
    to instructions inside the same lookahead, the lookaheads nest, captures and
    registers are below the counts of the header), and executing it on any input
    of 8- or 16-bit units, from any start inside it, never reads outside the
    bytecode, the input, the captures or the stack and never reaches an
    assertion that fails or [abort()]. *)
Theorem lre_compile_safe `{UnicodeDb} buf re_flags bc :
  compiles_to buf re_flags bc -> re_check bc = true /\ exec_safe bc.
Proof. intros Hc%compiles_checked. split; [done|by apply checked_exec_safe]. Qed.

(** A pattern with a quantified group, a lookbehind, a class and names. *)
Definition sample_pattern : list Z := bytes_of_string "(?<y>[0-9]{2,4}?|x)*(?<!a(b)\2)\k<y>$".
Definition sample_code : list Z :=
  Eval vm_compute in
  match @lre_compile no_unicode sample_pattern 0 (fun _ _ => true) (fun _ => false) with POk bc _ => bc | _ => [] end.
Lemma sample_compiles : @compiles_to no_unicode sample_pattern 0 sample_code.
Proof. exists (fun _ _ => true), (fun _ => false). eexists. vm_compute. reflexivity. Qed.
Lemma lre_compile_safe_witness :
  @compiles_to no_unicode sample_pattern 0 sample_code /\ re_check sample_code = true /\
  exists cap, lre_exec 500 (replicate 8 7) sample_code 1000 (bytes_of_string "ab1212") 0 6 0 tt = Some (Some (1, cap, tt)) /\
    exists v, cap !! 2%nat = Some v /\ (v = 0 \/ exists k, 0 <= k <= 6 /\ v = 1000 + Z.shiftl k 0).
Proof.
  split; [exact sample_compiles|]. set (units := bytes_of_string "ab1212").
  assert (Forall (Z.le 0) units) as Hu by (repeat constructor; lia).
  assert (lre_exec 500 (replicate 8 7) sample_code 1000 units 0 6 0 tt =
    Some (Some (1, [1002; 1006; 1002; 1004; 0; 0; 1002; 2], tt))) as E by (vm_compute; reflexivity).
  destruct (@lre_compile_safe no_unicode sample_pattern 0 sample_code sample_compiles) as [Hcheck Hsafe]. split; [exact Hcheck|].
  destruct (Hsafe unit _ _ (replicate 8 7) 1000 units 0 0 8 tt
    ltac:(lia) (or_introl eq_refl) Hu ltac:(cbn; lia) eq_refl ltac:(cbn; lia) 500%nat _ E) as (ret & cap & o' & [= <- <- <-] & H).
  eexists. split; [exact E|]. destruct H as [[[? _]|[? _]]|(_ & count & Hcount & Hv)]; [discriminate..|].
  vm_compute in Hcount. injection Hcount as <-. apply (Hv 2). lia.
Defined.
