(* ===== verification/RegexpText.v ===== *)
(** * Reading the text of a regular expression

    The lexical functions of the compiler never read past the NUL at the end of
    the text, and leave their pointer inside it. *)
From S2P Require Import Prelude Sort Cutils Utf8 CharRange CharRangeProps UnicodeTables UnicodeCase UnicodeCaseProps UnicodeProp.
From S2P Require Import Regexp RegexpSim RegexpUndo RegexpSearch RegexpRange RegexpType RegexpRegs RegexpParse RegexpCompile.

(** The bytes of a text whose code points have at most 21 bits. *)
Definition text_byte (b : Z) : Prop := 0 <= b < 0xf8.

Section Text.
Context (buf : list Z) (Hbuf : Forall text_byte buf).
#[local] Abbreviation text := (buf ++ [0]).
#[local] Abbreviation L := (Z.of_nat (length buf)).
(** A pointer to a byte of the text or to its NUL *)
Definition inside (p : Z) : Prop := 0 <= p <= L.

Lemma text_nul_length : length text = S (length buf).
Proof. rewrite length_app. cbn. lia. Qed.
Lemma read_inside p : inside p ->
  exists c, byte_at text p = Some c /\ text_byte c /\ (c <> 0 -> inside (p + 1)).
Proof.
  intros Hp. unfold inside in *. unfold byte_at. rewrite (proj2 (Z.ltb_ge p 0)) by lia.
  destruct (decide (p = L)) as [->|Hne].
  - exists 0. rewrite Nat2Z.id, lookup_app_r, Nat.sub_diag by lia. split_and!; [done|split; lia|done].
  - destruct (lookup_lt_is_Some_2 buf (Z.to_nat p) ltac:(lia)) as [c Hc]. exists c.
    rewrite lookup_app_l by lia. split_and!; [done| |lia]. by eapply Forall_lookup_1.
Qed.
End Text.

(** Reads the byte the goal asks for. *)
Ltac read Hbuf :=
  match goal with
  | |- context [byte_at (?buf ++ [0]) ?p] =>
      let c := fresh "c" in let Hc := fresh "Hc" in let Hn := fresh "Hn" in
      destruct (read_inside buf Hbuf p) as (c & -> & Hc & Hn); [unfold inside, text_byte in *; lia|]; bind
  end.
(** Case analysis on the tests of the goal *)
Ltac tests :=
  repeat match goal with
  | |- context [if ?b then _ else _] =>
      match b with
      | Z.eqb _ _ => destruct (Z.eqb_spec _ _)
      | Z.ltb _ _ => destruct (Z.ltb_spec _ _)
      | Z.leb _ _ => destruct (Z.leb_spec _ _)
      end
  end.

Section Lexer.
Context (buf : list Z) (Hbuf : Forall text_byte buf).
#[local] Abbreviation text := (buf ++ [0]).
#[local] Abbreviation ins := (inside buf).
#[local] Abbreviation L := (Z.of_nat (length buf)).
#[local] Ltac rd := read Hbuf.
#[local] Ltac fin := unfold inside, text_byte, INT32_MAX in *; lia.

Lemma digits_scan_inside fuel p v allow : ins p -> L - p < Z.of_nat fuel -> 0 <= v <= INT32_MAX ->
  exists w q, digits_scan text fuel p v allow = Some (w, q) /\ p <= q /\ ins q /\ -1 <= w <= INT32_MAX.
Proof.
  revert p v. induction fuel as [|fuel IH]; intros p v Hp Hf Hv; [fin|]. cbn [digits_scan]. rd.
  destruct (Z.ltb_spec c 48); [exists v, p; split_and!; done || fin|].
  destruct (Z.ltb_spec 57 c); [exists v, p; split_and!; done || fin|]. cbn [orb].
  assert (u64 (v * 10 + c - 48) = v * 10 + c - 48) as -> by (apply u64_id; fin).
  destruct (Z.leb_spec INT32_MAX (v * 10 + c - 48)); [destruct allow|].
  - destruct (IH (p + 1) INT32_MAX) as (w & q & -> & ?); [fin..|]. exists w, q. split_and!; done || fin || apply H1.
  - exists (-1), p. split_and!; done || fin.
  - destruct (IH (p + 1) (v * 10 + c - 48)) as (w & q & -> & ?); [fin..|]. exists w, q. split_and!; done || fin || apply H1.
Qed.
Lemma parse_digits_inside p allow : ins p ->
  exists w q, parse_digits text p allow = Some (w, q) /\ p <= q /\ ins q /\ -1 <= w <= INT32_MAX.
Proof.
  intros Hp. unfold parse_digits.
  destruct (digits_scan_inside (length text) p 0 allow) as (w & q & -> & ?); [done|rewrite text_nul_length; fin|fin|]. bind.
  destruct (w <? 0); eexists _, _; (split; [done|]); fin.
Qed.

Lemma from_hex_range b : -1 <= from_hex b < 16 /\ (0 <= from_hex b -> b <> 0).
Proof. unfold from_hex. repeat case_match; lia. Qed.
Lemma escape_step c h : 0 <= c -> 0 <= h < 16 -> 0 <= Z.lor (u32 (Z.shiftl c 4)) h.
Proof. intros Hc Hh. apply Z.lor_nonneg. split; [|lia]. by apply Z.mod_pos_bound. Qed.
Lemma escape_braces_inside fuel p c : ins p -> L - p < Z.of_nat fuel -> 0 <= c <= 0x10FFFF ->
  exists d q, escape_braces text fuel p c = Some (d, q) /\ p < q /\ -1 <= d <= 0x10FFFF /\ (0 <= d -> ins q).
Proof.
  revert p c. induction fuel as [|fuel IH]; intros p c Hp Hf Hc0; [fin|]. cbn [escape_braces]. rd.
  destruct (from_hex_range c0) as [Hh Hz]. destruct (Z.ltb_spec (from_hex c0) 0); [eexists _, _; split; [done|]; fin|].
  pose proof (escape_step c (from_hex c0) ltac:(lia) ltac:(lia)).
  destruct (Z.ltb_spec 0x10FFFF (Z.lor (u32 (Z.shiftl c 4)) (from_hex c0))); [eexists _, _; split; [done|]; fin|].
  assert (ins (p + 1)) as Hp1 by (apply Hn, Hz; lia). rd.
  destruct (Z.eqb_spec c1 125) as [->|].
  - eexists _, _. split; [done|]. specialize (Hn0 ltac:(lia)). fin.
  - destruct (IH (p + 1) (Z.lor (u32 (Z.shiftl c 4)) (from_hex c0))) as (d & q & -> & ?); [fin..|].
    exists d, q. split; [done|]. fin.
Qed.
Lemma lor_small n c h : 0 < n -> 0 <= c < 2 ^ n -> 0 <= h < 2 ^ n -> 0 <= Z.lor c h < 2 ^ n.
Proof.
  intros Hn Hc Hh. assert (0 <= Z.lor c h) as Hl by (apply Z.lor_nonneg; lia). split; [done|].
  destruct (decide (Z.lor c h = 0)) as [->|]; [lia|]. apply Z.log2_lt_pow2; [lia|]. rewrite Z.log2_lor by lia.
  assert (forall x, 0 <= x < 2 ^ n -> Z.log2 x < n) as Hlog.
  { intros x Hx. destruct (decide (x = 0)) as [->|]; [cbn; lia|]. apply Z.log2_lt_pow2; lia. }
  apply Z.max_lub_lt; by apply Hlog.
Qed.
Lemma hex_step c h k : 0 <= k -> 0 <= c < 2 ^ k -> k <= 28 -> 0 <= h < 16 -> 0 <= Z.lor (u32 (Z.shiftl c 4)) h < 2 ^ (k + 4).
Proof.
  intros Hk Hc Hk28 Hh. assert (0 <= Z.shiftl c 4 < 2 ^ (k + 4)) as Hs.
  { rewrite Z.shiftl_mul_pow2, Z.pow_add_r by lia. lia. }
  assert (2 ^ (k + 4) <= 2 ^ 32) by (apply Z.pow_le_mono_r; lia). assert (2 ^ 4 <= 2 ^ (k + 4)) by (apply Z.pow_le_mono_r; lia).
  rewrite u32_id by lia. apply lor_small; lia.
Qed.
Lemma escape_hex_inside n p c b : ins p -> 0 <= b -> b + 4 * Z.of_nat n <= 32 -> 0 <= c < 2 ^ b ->
  exists k d, escape_hex text n p c = Some (k, d) /\ (k <= n)%nat /\ ins (p + Z.of_nat k) /\ 0 <= d < 2 ^ (b + 4 * Z.of_nat n).
Proof.
  revert p c b. induction n as [|n IH]; intros p c b Hp Hb Hbn Hc0; cbn [escape_hex].
  { exists O, c. rewrite Z.add_0_r, Z.mul_0_r, Z.add_0_r. split_and!; done || lia. }
  rd. destruct (from_hex_range c0) as [Hh Hz].
  assert (2 ^ b <= 2 ^ (b + 4 * Z.of_nat (S n))) by (apply Z.pow_le_mono_r; lia).
  destruct (Z.ltb_spec (from_hex c0) 0).
  { exists O, c. rewrite Z.add_0_r. split_and!; done || lia. }
  destruct (IH (p + 1) (Z.lor (u32 (Z.shiftl c 4)) (from_hex c0)) (b + 4)) as (k & d & -> & ?);
    [apply Hn, Hz; lia|lia|lia|apply hex_step; lia|].
  bind. exists (S k), d. split; [done|]. replace (p + Z.of_nat (S k)) with (p + 1 + Z.of_nat k) by lia.
  replace (b + 4 * Z.of_nat (S n)) with (b + 4 + 4 * Z.of_nat n) by lia. split_and!; [lia|apply H1..].
Qed.
(** An escape: the value, -1 or -2, and where it ends *)
Definition escaped (p : Z) (r : option (Z * Z)) : Prop :=
  exists d q, r = Some (d, q) /\ -2 <= d <= 0x10FFFF /\ (0 <= d -> p < q /\ ins q).
Lemma surrogates_range c d : is_hi_surrogate c = true -> is_lo_surrogate d = true -> 0 <= from_surrogate c d <= 0x10FFFF.
Proof.
  unfold is_hi_surrogate, is_lo_surrogate, from_surrogate. rewrite !Z.eqb_eq, !Z.shiftr_div_pow2 by lia.
  change (0xD800 / 2 ^ 10) with 54. change (0xDC00 / 2 ^ 10) with 55. change (2 ^ 10) with 1024.
  intros Hc Hd. Z.to_euclidean_division_equations. lia.
Qed.
Lemma escape_u_inside p allow : ins p -> escaped p (escape_u text p allow).
Proof.
  intros Hp. unfold escape_u. rd. destruct (_ && _) eqn:Eb.
  { apply andb_true_iff in Eb as [->%Z.eqb_eq _].
    destruct (escape_braces_inside (length text) (p + 1) 0) as (d & q & -> & ?); [apply Hn; lia|rewrite text_nul_length; fin|lia|].
    exists d, q. split; [done|]. fin. }
  destruct (escape_hex_inside 4 p 0 0) as (k & d & -> & Hk & Hpk & Hd); [done|lia|lia|lia|]. bind.
  destruct (Nat.eqb_spec k 4) as [->|]; cbn [negb]; [|eexists _, _; split; [done|]; fin].
  assert (escaped p (Some (d, p + 4))) as Hend by (eexists _, _; split; [done|]; fin).
  destruct (is_hi_surrogate d) eqn:Ehi; cbn [andb]; [|done]. destruct (allow =? 2); [|done]. change (Z.of_nat 4) with 4 in Hpk.
  rd. destruct (Z.eqb_spec c0 92); [|done]. specialize (Hn0 ltac:(lia)). rd. destruct (Z.eqb_spec c1 117); [|done].
  specialize (Hn1 ltac:(lia)). replace (p + 4 + 1 + 1) with (p + 4 + 2) in Hn1 by lia.
  destruct (escape_hex_inside 4 (p + 4 + 2) 0 0) as (k & d1 & -> & Hk1 & Hpk1 & Hd1); [done|lia|lia|lia|]. bind.
  destruct (Nat.eqb_spec k 4) as [->|]; cbn [andb]; [|done]. destruct (is_lo_surrogate d1) eqn:Elo; [|done].
  pose proof (surrogates_range _ _ Ehi Elo). eexists _, _. split; [done|]. fin.
Qed.
Lemma octal_lor c v : 0 <= c < 32 -> 0 <= v <= 7 -> 0 <= Z.lor (Z.shiftl c 3) v <= 0x10FFFF.
Proof.
  intros Hc Hv. rewrite Z.shiftl_mul_pow2 by lia. change (2 ^ 3) with 8.
  pose proof (lor_small 8 (c * 8) v ltac:(lia) ltac:(lia) ltac:(lia)). lia.
Qed.
Lemma escape_octal_inside p c allow : ins p -> 0 <= c <= 7 -> escaped (p - 1) (escape_octal text p c allow).
Proof.
  intros Hp Hc7. unfold escape_octal. rd. destruct (allow =? 2).
  { destruct (_ || _); eexists _, _; (split; [done|]); fin. }
  assert (forall b, text_byte b -> (7 <? u32 (b - 48)) = false -> 48 <= b <= 55 /\ u32 (b - 48) = b - 48) as Hdig.
  { intros b Hb Hu%Z.ltb_ge. unfold u32, text_byte in *. Z.to_euclidean_division_equations. lia. }
  destruct (7 <? u32 (c0 - 48)) eqn:E; [eexists _, _; split; [done|]; fin|].
  destruct (Hdig c0 Hc E) as [Hr ->]. specialize (Hn ltac:(lia)). pose proof (octal_lor c (c0 - 48) ltac:(lia) ltac:(lia)).
  destruct (Z.leb_spec 32 (Z.lor (Z.shiftl c 3) (c0 - 48))); [eexists _, _; split; [done|]; fin|]. rd.
  destruct (7 <? u32 (c1 - 48)) eqn:E1; [eexists _, _; split; [done|]; fin|].
  destruct (Hdig c1 Hc0 E1) as [Hr1 ->]. specialize (Hn0 ltac:(lia)).
  pose proof (octal_lor (Z.lor (Z.shiftl c 3) (c0 - 48)) (c1 - 48) ltac:(lia) ltac:(lia)). eexists _, _. split; [done|]. fin.
Qed.
Lemma lre_parse_escape_inside p allow : ins p -> escaped p (lre_parse_escape text p allow).
Proof.
  intros Hp. unfold lre_parse_escape. rd.
  assert (forall r, escaped p r -> escaped p (r' ← r; Some (if r'.1 <? 0 then (r'.1, p) else r'))) as Hwrap.
  { intros r (d & q & -> & Hd & Hq). bind. cbn [fst]. destruct (Z.ltb_spec d 0); eexists _, _; (split; [done|]); fin. }
  apply Hwrap. assert (c <> 0 -> forall d, -2 <= d <= 0x10FFFF -> escaped p (Some (d, p + 1))) as Hone.
  { intros Hc0 d Hd. specialize (Hn Hc0). eexists _, _. split; [done|]. fin. }
  destruct (Z.eqb_spec c 98); [apply Hone; lia|]. destruct (Z.eqb_spec c 102); [apply Hone; lia|].
  destruct (Z.eqb_spec c 110); [apply Hone; lia|]. destruct (Z.eqb_spec c 114); [apply Hone; lia|].
  destruct (Z.eqb_spec c 116); [apply Hone; lia|]. destruct (Z.eqb_spec c 118); [apply Hone; lia|].
  destruct (Z.eqb_spec c 120) as [->|].
  { specialize (Hn ltac:(lia)). rd. destruct (from_hex_range c) as [Hh Hz]. destruct (Z.ltb_spec (from_hex c) 0); [apply Hone; lia|].
    specialize (Hn0 (Hz ltac:(lia))). rd. destruct (from_hex_range c0) as [Hh1 Hz1]. destruct (Z.ltb_spec (from_hex c0) 0); [apply Hone; lia|].
    specialize (Hn1 (Hz1 ltac:(lia))). pose proof (lor_small 8 (Z.shiftl (from_hex c) 4) (from_hex c0) ltac:(lia)) as Hl.
    rewrite Z.shiftl_mul_pow2 in * by lia. eexists _, _. split; [done|]. specialize (Hl ltac:(lia) ltac:(lia)). fin. }
  destruct (Z.eqb_spec c 117) as [->|].
  { destruct (escape_u_inside (p + 1) allow) as (d & q & -> & ?); [apply Hn; lia|]. eexists _, _. split; [done|]. fin. }
  destruct (_ && _) eqn:E; [|eexists _, _; split; [done|]; fin].
  apply andb_true_iff in E as [E1%Z.leb_le E2%Z.leb_le].
  destruct (escape_octal_inside (p + 1) (c - 48) allow) as (d & q & -> & ?); [apply Hn; lia|lia|].
  eexists _, _. split; [done|]. fin.
Qed.

(** Decoding a code point *)
Lemma utf8_loop_suffix i : forall c l d rest, 0 <= c -> utf8_loop i c l = Some (d, rest) ->
  0 <= d < (c + 1) * 2 ^ (6 * Z.of_nat i) /\ exists used, l = used ++ rest /\ length used = i /\ Forall (Z.le 0x80) used.
Proof.
  induction i as [|i IH]; intros c l d rest Hc E; cbn [utf8_loop] in E.
  { injection E as <- <-. change (2 ^ (6 * Z.of_nat 0)) with 1. split; [lia|]. by exists []. }
  destruct l as [|b l]; [done|]. destruct (Z.ltb_spec b 0x80); [done|]. destruct (Z.leb_spec 0xc0 b); [done|]. cbn [orb] in E.
  assert (0 <= Z.land b 63 < 64) as Hl by (change 63 with (Z.ones 6); rewrite Z.land_ones by lia; apply Z.mod_pos_bound; lia).
  rewrite lor_shiftl_small in E by lia. apply IH in E as (Hd & used & -> & Hlen & Hu); [|lia]. split.
  - replace (6 * Z.of_nat (S i)) with (6 + 6 * Z.of_nat i) by lia. rewrite Z.pow_add_r by lia. change (2 ^ 6) with 64 in *. nia.
  - exists (b :: used). split; [done|]. split; [cbn; lia|]. by constructor.
Qed.
Lemma utf8_length_max c l : 0x80 <= c < 0xf8 -> utf8_length c = Some l ->
  (1 <= l <= 3)%nat /\ 0 <= Z.land c (default 0 (utf8_first_code_mask !! (l - 1)%nat)) < 2 ^ (6 - Z.of_nat l).
Proof.
  intros Hc. unfold utf8_length. repeat case_match; intros [= <-]; try lia; (split; [lia|]);
    match goal with |- context [Z.land c ?m] => let m' := eval cbv in m in change m with m' end.
  1: change 31 with (Z.ones 5). 2: change 15 with (Z.ones 4). 3: change 7 with (Z.ones 3).
  all: rewrite ?Z.land_ones by lia; try (apply Z.mod_pos_bound; lia);
    repeat match goal with H : (_ && _) = true |- _ => apply andb_true_iff in H as [?%Z.leb_le ?%Z.leb_le] end; lia.
Qed.
Lemma utf8_at_inside p d q : ins p -> utf8_at text p = Some (d, q) -> d <> 0 -> p < q /\ ins q /\ 0 <= d < 2 ^ 21.
Proof.
  intros Hp E Hd. destruct (read_inside buf Hbuf p Hp) as (c & Ec & Hc & Hn). unfold utf8_at in E.
  assert (drop (Z.to_nat p) text = c :: drop (S (Z.to_nat p)) text) as Edrop.
  { unfold byte_at in Ec. destruct (p <? 0); [done|]. by apply drop_S. }
  rewrite Edrop in E. cbn [unicode_from_utf8] in E.
  assert (length (drop (S (Z.to_nat p)) text) = length buf - Z.to_nat p)%nat as Hlen by (rewrite length_drop, text_nul_length; lia).
  destruct (Z.ltb_spec c 0x80).
  { injection E as <- <-. specialize (Hn ltac:(done)). rewrite text_nul_length, Hlen. fin. }
  destruct (utf8_length c) as [l|] eqn:El; [|done]. apply utf8_length_max in El as [Hl Hm]; [|fin].
  destruct (_ <? _); [done|]. destruct (utf8_loop l _ _) as [[c' rest]|] eqn:Eu; [|done].
  destruct (_ <? _); [done|]. injection E as <- <-. apply utf8_loop_suffix in Eu as (Hr & used & Eu & Hlu & Hu); [|lia].
  assert (length rest <> O) as Hrest.
  { intros Hz. destruct rest; [|done]. rewrite app_nil_r in Eu. assert (0 ∈ used) as Hin.
    { rewrite <- Eu. destruct (decide (Z.to_nat p < length buf)%nat); [|exfalso; specialize (Hn ltac:(lia)); unfold inside in *; lia].
      rewrite drop_app_le by lia. apply elem_of_app. right. by left. }
    rewrite Forall_forall in Hu. specialize (Hu 0 Hin). cbn in Hu. lia. }
  apply (f_equal length) in Eu. rewrite Hlen, length_app in Eu. rewrite text_nul_length. split; [fin|]. split; [fin|]. split; [lia|].
  eapply Z.lt_le_trans; [apply Hr|]. transitivity (2 ^ (6 - Z.of_nat l) * 2 ^ (6 * Z.of_nat l)); [apply Z.mul_le_mono_nonneg_r; lia|].
  rewrite <- Z.pow_add_r by lia. apply Z.pow_le_mono_r; lia.
Qed.
(** *** Names of groups *)
Lemma in_table_total c table index : (table, index) ∈ property_tables -> 0 <= c -> exists b, lre_is_in_table c table index = Some b.
Proof.
  intros Hin Hc. pose proof tables_ok as H. rewrite forallb_forall in H.
  specialize (H (table, index) (proj1 (list_elem_of_In _ _) Hin)). cbn [fst snd] in H.
  destruct (is_in_table_spec table index c H Hc) as (rs & _ & _ & _ & ->). eauto.
Qed.
Lemma is_id_start_total c : 0 <= c -> exists b, lre_is_id_start c = Some b.
Proof. apply in_table_total. unfold property_tables. set_solver. Qed.
Lemma is_id_continue_total c : 0 <= c -> exists b, lre_is_id_continue c = Some b.
Proof.
  intros Hc. unfold lre_is_id_continue. destruct (is_id_start_total c Hc) as [[] ->]; bind; [eauto|].
  apply in_table_total; [|done]. unfold property_tables. set_solver.
Qed.
Lemma ctype_total c : 0 <= c < 128 -> exists b, lre_ctype_bits !! Z.to_nat c = Some b.
Proof. intros Hc. apply lookup_lt_is_Some_2. change (length lre_ctype_bits) with 256%nat. lia. Qed.
Lemma ident_total (first : bool) c : 0 <= c ->
  exists b, (if first then lre_js_is_ident_first c else lre_js_is_ident_next c) = Some b.
Proof.
  intros Hc. destruct first; [unfold lre_js_is_ident_first|unfold lre_js_is_ident_next]; destruct (Z.ltb_spec c 128).
  - destruct (ctype_total c) as [b Hb]; [lia|]. unfold lre_is_id_start_byte. rewrite Hb. bind. eauto.
  - by apply is_id_start_total.
  - destruct (ctype_total c) as [b Hb]; [lia|]. unfold lre_is_id_continue_byte. rewrite Hb. bind. eauto.
  - destruct (_ && _); [eauto|by apply is_id_continue_total].
Qed.
Lemma group_name_char_inside p c : ins p -> byte_at text p = Some c ->
  exists r, group_name_char text p c = Some r /\
    match r with Some (d, q) => 0 <= d /\ (0 < d <= 0x10FFFF -> p < q /\ ins q) | None => True end.
Proof.
  intros Hp Ec. destruct (read_inside buf Hbuf p Hp) as (c' & Ec' & Hc & Hn). rewrite Ec in Ec'. injection Ec' as <-.
  unfold group_name_char. destruct (Z.eqb_spec c 92) as [->|].
  { specialize (Hn ltac:(lia)). rd. destruct (Z.eqb_spec c 117); cbn [negb]; [|by exists None].
    destruct (lre_parse_escape_inside (p + 1) 2 Hn) as (d & q & -> & Hd & Hq). bind. eexists. split; [done|]. cbn.
    pose proof (u32_range d) as Hu. split; [lia|]. intros Hr. destruct (Z.ltb_spec d 0) as [Hneg|].
    - unfold u32 in *. Z.to_euclidean_division_equations. lia.
    - destruct (Hq ltac:(lia)). split; [lia|done]. }
  destruct (Z.leb_spec 128 c).
  2: { eexists. split; [done|]. cbn. split; [fin|]. intros Hr. specialize (Hn ltac:(lia)). split; [lia|done]. }
  destruct (utf8_at text p) as [[d q]|] eqn:E1.
  2: { eexists. split; [done|]. cbn. unfold UINT32_MAX. lia. }
  destruct (Z.eq_dec d 0) as [->|Hd0].
  { change (is_hi_surrogate 0) with false. eexists. split; [done|]. cbn. lia. }
  pose proof (utf8_at_inside _ _ _ Hp E1 Hd0) as (Hq1 & Hq2 & Hd).
  assert (exists r, Some (Some (d, q)) = Some r /\
    match r with Some (d, q) => 0 <= d /\ (0 < d <= 0x10FFFF -> p < q /\ ins q) | None => True end) as Hdone.
  { eexists. split; [done|]. cbn. split; [lia|done]. }
  destruct (is_hi_surrogate d) eqn:Ehi; [|done]. destruct (utf8_at text q) as [[d1 q1]|] eqn:E2; [|done].
  destruct (is_lo_surrogate d1) eqn:Elo; [|done]. pose proof (surrogates_range _ _ Ehi Elo).
  apply utf8_at_inside in E2 as (Hq3 & Hq4 & _); [|done|intros ->; done]. eexists. split; [done|]. cbn. split; [lia|]. split; [lia|done].
Qed.
Lemma group_name_loop_inside fuel p name : ins p -> L - p < Z.of_nat fuel ->
  exists r, group_name_loop text fuel p name = Some r /\ match r with Some (_, q) => p < q /\ ins q | None => True end.
Proof.
  revert p name. induction fuel as [|fuel IH]; intros p name Hp Hf; [fin|]. cbn [group_name_loop].
  destruct (read_inside buf Hbuf p Hp) as (c & Ec & Hc & Hn). rewrite Ec. bind. destruct (Z.eqb_spec c 62) as [->|].
  { destruct (_ =? _)%nat; eexists; (split; [done|]); [done|]. specialize (Hn ltac:(lia)). split; [lia|done]. }
  destruct (group_name_char_inside p c Hp Ec) as (r & -> & Hr). bind. destruct r as [[d q]|]; [|by eexists]. destruct Hr as [Hd Hq].
  destruct (Z.ltb_spec 0x10FFFF d); [by eexists|].
  destruct (ident_total (length name =? 0)%nat d Hd) as [b Eb]. rewrite Eb. bind. destruct b; cbn [negb]; [|by eexists].
  destruct (_ <? _); [by eexists|]. assert (0 < d) as Hpos.
  { destruct (Z.eq_dec d 0) as [->|]; [|lia]. by destruct (length name =? 0)%nat. }
  destruct (Hq ltac:(lia)) as [Hlt Hin]. destruct (IH q (name ++ (if d <? 128 then [d] else unicode_to_utf8 d)) Hin ltac:(lia)) as (r & -> & Hr).
  exists r. split; [done|]. destruct r as [[? q']|]; [|done]. split; [lia|apply Hr].
Qed.
Lemma group_name_inside p : ins p ->
  exists r, re_parse_group_name text p = Some r /\ match r with Some (_, q) => p < q /\ ins q | None => True end.
Proof. intros Hp. apply group_name_loop_inside; [done|]. rewrite text_nul_length. fin. Qed.
End Lexer.
