(* ===== verification/RegexpTotal.v ===== *)
(** * Running the compiler: the rules

    Total correctness of the parser's monad.  [wp s m Q]: from [s] the function
    [m] ends, with [Q] or with an error, unless a call of [unicode_script] does
    not return; it goes wrong only when an allocation for the bytecode or for the
    names of the groups has failed before.  Facts about the bytecode come from
    [typed]. *)
From S2P Require Import Prelude Sort SortProps Cutils Utf8 CharRange CharRangeProps UnicodeTables UnicodeCase UnicodeCaseProps UnicodeProp.
From S2P Require Import Regexp RegexpSim RegexpUndo RegexpSearch RegexpRange RegexpType RegexpRegs RegexpParse RegexpCompile.
From S2P Require Import RegexpBlock RegexpMono RegexpTyped RegexpText.

(** An allocation has failed. *)
Definition bad (s : REParseState) : Prop := err s = true \/ db_error (s_group_names s) = true.
(** A call of [unicode_script] under the answers of the allocator that loops. *)
Definition hangs `{ReEnv} `{UnicodeDb} : Prop := exists n v ext, unicode_script (env_realloc n) cr_init v ext = None.

Section Rules.
Context `{ReEnv} `{UnicodeDb}.
Definition wp {A} (s : REParseState) (m : P A) (Q : A -> REParseState -> Prop) : Prop :=
  pinv s ->
  match m s with
  | POk a s' => Q a s'
  | PFail _ => True
  | PWrong s' => bad s'
  | PFuel => hangs
  end.

Lemma wp_bind {A B} s (m : P A) (k : A -> P B) Q : Mono m ->
  wp s m (fun a s1 => (err s1 = false -> err s = false) -> wp s1 (k a) Q) -> wp s (pbind m k) Q.
Proof.
  unfold wp. intros Hm Hw Hs. specialize (Hw Hs). unfold pbind. destruct (m s) as [a s1| | |] eqn:E; try done.
  destruct (Hm _ _ _ E Hs) as (Hs1 & _ & He). by apply Hw.
Qed.
Lemma wp_conseq {A} s (m : P A) (Q Q' : A -> REParseState -> Prop) :
  wp s m Q -> (forall a s', Q a s' -> Q' a s') -> wp s m Q'.
Proof. unfold wp. intros Hw HQ Hs. specialize (Hw Hs). destruct (m s); auto. Qed.
Lemma wp_pre {A} s (m : P A) Q : (pinv s -> wp s m Q) -> wp s m Q.
Proof. unfold wp. intros Hw Hs. by apply Hw. Qed.
Lemma wp_ret {A} s (a : A) (Q : A -> REParseState -> Prop) : Q a s -> wp s (pret a) Q.
Proof. by intros HQ _. Qed.
Lemma wp_get s (Q : REParseState -> REParseState -> Prop) : Q s s -> wp s pget Q.
Proof. by intros HQ _. Qed.
Lemma wp_error {A} s msg (Q : A -> REParseState -> Prop) : wp s (re_parse_error msg) Q.
Proof. done. Qed.
Lemma wp_oom {A} s (Q : A -> REParseState -> Prop) : wp s re_parse_out_of_memory Q.
Proof. done. Qed.
Lemma wp_fail {A} s (Q : A -> REParseState -> Prop) : wp s pfail Q.
Proof. done. Qed.
Lemma wp_wrong {A} s (Q : A -> REParseState -> Prop) : bad s -> wp s pwrong Q.
Proof. by intros Hb _. Qed.
Lemma wp_option {A} s (o : option A) (Q : A -> REParseState -> Prop) : (exists a, o = Some a /\ Q a s) -> wp s (of_option o) Q.
Proof. intros (a & -> & HQ) _. done. Qed.
Lemma wp_option_bad {A} s (o : option A) (Q : A -> REParseState -> Prop) : bad s \/ o <> None ->
  (forall a, o = Some a -> Q a s) -> wp s (of_option o) Q.
Proof. intros Hb HQ _. unfold of_option. destruct o; [by apply HQ|]. by destruct Hb. Qed.
Lemma wp_set_buf_ptr s p (Q : unit -> REParseState -> Prop) :
  (forall s', s_buf_ptr s' = p -> quiet s s' -> Q tt s') -> wp s (set_buf_ptr p) Q.
Proof. intros HQ _. by apply HQ. Qed.
(** The bytecode, when there was memory. *)
Lemma wp_typed {A} s (m : P A) (Q1 Q2 Q : A -> REParseState -> Prop) : Mono m -> wp s m Q1 -> typed s m Q2 ->
  (forall a s', pinv s' -> Q1 a s' -> (err s' = false -> Q2 a s') -> Q a s') -> wp s m Q.
Proof.
  unfold wp, typed. intros Hm Hw Ht HQ Hs. specialize (Hw Hs). destruct (m s) as [a s'| | |] eqn:E; try done.
  destruct (Hm _ _ _ E Hs) as (Hs' & _ & He). apply HQ; [done|done|]. intros He'. by apply Ht; auto.
Qed.

(** Functions that leave the pointer alone *)
Definition Keeps {A} (m : P A) : Prop := forall s a s', m s = POk a s' -> s_buf_ptr s' = s_buf_ptr s.
Lemma Keeps_bind {A B} (m : P A) (k : A -> P B) : Keeps m -> (forall a, Keeps (k a)) -> Keeps (pbind m k).
Proof. intros Hm Hk s b s2 (a & s1 & E1 & E2)%pbind_ok. rewrite (Hk _ _ _ _ E2). by eapply Hm. Qed.
Lemma wp_keeps {A} s (m : P A) (Q : A -> REParseState -> Prop) : Keeps m -> wp s m (fun _ _ => True) ->
  (forall a s', s_buf_ptr s' = s_buf_ptr s -> Q a s') -> wp s m Q.
Proof. unfold wp. intros Hk Hw HQ Hs. specialize (Hw Hs). destruct (m s) eqn:E; try done. apply HQ. by eapply Hk. Qed.

(** Functions that always return *)
Definition Sure {A} (m : P A) : Prop := forall s, exists a s', m s = POk a s' /\ s_buf_ptr s' = s_buf_ptr s.
Lemma Sure_bind {A B} (m : P A) (k : A -> P B) : Sure m -> (forall a, Sure (k a)) -> Sure (pbind m k).
Proof.
  intros Hm Hk s. destruct (Hm s) as (a & s1 & E1 & P1). destruct (Hk a s1) as (b & s2 & E2 & P2). exists b, s2.
  unfold pbind. rewrite E1. split; [done|congruence].
Qed.
Lemma Sure_Keeps {A} (m : P A) : Sure m -> Keeps m.
Proof. intros Hm s a s' E. destruct (Hm s) as (a1 & s1 & E1 & P1). rewrite E in E1. by injection E1 as <- <-. Qed.
Lemma wp_sure {A} s (m : P A) (Q : A -> REParseState -> Prop) : Sure m ->
  (forall a s', s_buf_ptr s' = s_buf_ptr s -> Q a s') -> wp s m Q.
Proof. intros Hm HQ _. destruct (Hm s) as (a & s' & -> & Hp). by apply HQ. Qed.
Lemma wp_sure_quiet {A} s (m : P A) (Q : A -> REParseState -> Prop) : Sure m -> Quiet m ->
  (forall a s', s_buf_ptr s' = s_buf_ptr s -> quiet s s' -> Q a s') -> wp s m Q.
Proof. intros Hm Hq HQ _. destruct (Hm s) as (a & s' & E & Hp). rewrite E. apply HQ; [done|by eapply Hq]. Qed.
End Rules.
Lemma Sure_ret {A} (a : A) : Sure (pret a).
Proof. intros s. by exists a, s. Qed.
Lemma Sure_get : Sure pget.
Proof. intros s. by exists s, s. Qed.
Create HintDb sure.
#[export] Hint Resolve Sure_ret Sure_get : sure.
Ltac sure_step :=
  match goal with
  | |- Sure (pbind _ _) => apply Sure_bind; [|intros ?]
  | |- Sure (if ?b then _ else _) => destruct b
  | |- Sure (let (_, _) := ?x in _) => destruct x
  | _ => solve [eauto with sure]
  end.
Ltac sure := repeat (cbv zeta; sure_step).

Section Primitives.
Context `{ReEnv}.
Lemma Sure_mem {A} (f : (Z -> bool) -> A) : Sure (with_mem f).
Proof. intros s. by eexists _, _. Qed.
Lemma Sure_byte_code {A} (f : (Z -> bool) -> DynBuf -> DynBuf * A) : Sure (on_byte_code f).
Proof. intros s. unfold on_byte_code. destruct (f _ _). by eexists _, _. Qed.
Lemma Sure_group_names {A} (f : (Z -> bool) -> DynBuf -> DynBuf * A) : Sure (on_group_names f).
Proof. intros s. unfold on_group_names. destruct (f _ _). by eexists _, _. Qed.
Lemma Sure_size : Sure code_size.
Proof. intros s. by eexists _, _. Qed.
Lemma Sure_set_code l : Sure (set_code l).
Proof. intros s. by eexists _, _. Qed.
Lemma Sure_captures a b c : Sure (set_captures a b c).
Proof. intros s. by eexists _, _. Qed.
Lemma Sure_modifiers a b c : Sure (set_modifiers a b c).
Proof. intros s. by eexists _, _. Qed.
Lemma Sure_scope v : Sure (set_group_name_scope v).
Proof. intros s. by eexists _, _. Qed.
End Primitives.
#[export] Hint Resolve Sure_mem Sure_byte_code Sure_group_names Sure_size Sure_set_code Sure_captures Sure_modifiers Sure_scope : sure.

Section Emitters.
Context `{ReEnv}.
Lemma Sure_putc c : Sure (putc c).
Proof. unfold putc. sure. Qed.
Lemma Sure_put_u16 c : Sure (put_u16 c).
Proof. unfold put_u16. sure. Qed.
Lemma Sure_put_u32 c : Sure (put_u32 c).
Proof. unfold put_u32. sure. Qed.
#[local] Hint Resolve Sure_putc Sure_put_u16 Sure_put_u32 : sure.
Lemma Sure_emit_op op : Sure (re_emit_op op).
Proof. apply Sure_putc. Qed.
Lemma Sure_emit_op_u32 op v : Sure (re_emit_op_u32 op v).
Proof. unfold re_emit_op_u32. sure. Qed.
Lemma Sure_emit_goto op v : Sure (re_emit_goto op v).
Proof. unfold re_emit_goto. sure. Qed.
Lemma Sure_emit_goto_u8 op a v : Sure (re_emit_goto_u8 op a v).
Proof. unfold re_emit_goto_u8. sure. Qed.
Lemma Sure_emit_goto_u8_u32 op a b v : Sure (re_emit_goto_u8_u32 op a b v).
Proof. unfold re_emit_goto_u8_u32. sure. Qed.
Lemma Sure_emit_op_u8 op v : Sure (re_emit_op_u8 op v).
Proof. unfold re_emit_op_u8. sure. Qed.
Lemma Sure_emit_op_u16 op v : Sure (re_emit_op_u16 op v).
Proof. unfold re_emit_op_u16. sure. Qed.
#[local] Hint Resolve Sure_emit_op Sure_emit_op_u32 Sure_emit_goto Sure_emit_goto_u8 Sure_emit_goto_u8_u32 Sure_emit_op_u8 Sure_emit_op_u16 : sure.
Lemma Sure_case_op a b : Sure (case_op a b).
Proof. unfold case_op. sure. Qed.
#[local] Hint Resolve Sure_case_op : sure.
Lemma Sure_emit_char c : Sure (re_emit_char c).
Proof. unfold re_emit_char. sure. Qed.
#[local] Hint Resolve Sure_emit_char : sure.
Lemma Sure_emit_chars l : Sure (emit_chars l).
Proof. induction l; cbn [emit_chars]; sure. Qed.
Lemma Sure_emit_indices l : Sure (emit_indices l).
Proof. induction l; cbn [emit_indices]; sure. Qed.
Lemma Sure_prev_if b : Sure (emit_prev_if b).
Proof. unfold emit_prev_if. sure. Qed.
Lemma Sure_atom_start : Sure atom_start.
Proof. unfold atom_start. sure. Qed.
Lemma Sure_add_name name : Sure (add_name name).
Proof. unfold add_name. sure. Qed.
Lemma Sure_add_no_name : Sure add_no_name.
Proof. unfold add_no_name. sure. Qed.
Lemma Sure_loop_split g c m st : Sure (emit_loop_split g c m st).
Proof. unfold emit_loop_split. sure. Qed.
End Emitters.
#[export] Hint Resolve Sure_putc Sure_put_u16 Sure_put_u32 Sure_emit_op Sure_emit_op_u32 Sure_emit_goto Sure_emit_goto_u8
  Sure_emit_goto_u8_u32 Sure_emit_op_u8 Sure_emit_op_u16 Sure_case_op Sure_emit_char Sure_emit_chars Sure_emit_indices
  Sure_prev_if Sure_atom_start Sure_add_name Sure_add_no_name Sure_loop_split : sure.

(** ** Writing into the bytecode *)
Definition sz (s : REParseState) : Z := Z.of_nat (length (code s)).
Lemma quiet_err s s' : quiet s s' -> err s' = err s.
Proof. intros (E & _). unfold err. by rewrite E. Qed.
Lemma quiet_sz s s' : quiet s s' -> sz s' = sz s.
Proof. intros Hq. unfold sz. by rewrite (quiet_code _ _ Hq). Qed.
Section Writes.
Context `{ReEnv} `{UnicodeDb}.
Lemma wp_size s (Q : Z -> REParseState -> Prop) : Q (sz s) s -> wp s code_size Q.
Proof. by intros HQ _. Qed.
Lemma wp_pokes l : forall i s (Q : unit -> REParseState -> Prop),
  (err s = false -> 0 <= i /\ i + Z.of_nat (length l) <= sz s) ->
  (forall s', s_buf_ptr s' = s_buf_ptr s -> sz s' = sz s -> err s' = err s -> Q tt s') -> wp s (pokes i l) Q.
Proof.
  induction l as [|v l IH]; intros i s Q Hr HQ; cbn [pokes]; [by apply wp_ret, HQ|].
  apply wp_bind; [mono|]. intros [Hsize _ _]. unfold poke. unfold db_size in Hsize. fold (code s) in Hsize. unfold sz in Hr. cbn [length] in Hr.
  destruct (_ || _) eqn:Eo.
  - destruct (err s) eqn:He; [by left|]. specialize (Hr eq_refl).
    apply orb_true_iff in Eo as [?%Z.ltb_lt|?%Z.leb_le]; lia.
  - destruct (set_code _ s) eqn:E; try done. pose proof E as E'. apply set_code_spec in E' as (Hsame & Hc & He & _).
    intros _. apply IH.
    + unfold sz. rewrite Hc, length_insert, He. fold (code s). intros Hf. specialize (Hr Hf). lia.
    + intros s' Hp Hz He'. apply HQ; [rewrite Hp; by rewrite Hsame| |congruence]. rewrite Hz. unfold sz. by rewrite Hc, length_insert.
Qed.
Lemma wp_poke i v s (Q : unit -> REParseState -> Prop) : (err s = false -> 0 <= i < sz s) ->
  (forall s', s_buf_ptr s' = s_buf_ptr s -> sz s' = sz s -> err s' = err s -> Q tt s') -> wp s (poke i v) Q.
Proof.
  intros Hr HQ Hs. pose proof (wp_pokes [v] i s Q) as Hw. specialize (Hw ltac:(cbn; intros; specialize (Hr ltac:(done)); lia) HQ Hs).
  cbn [pokes] in Hw. unfold pbind in Hw. by destruct (poke i v s) as [[] ?| | |].
Qed.
Lemma wp_poke_u32 i v s (Q : unit -> REParseState -> Prop) : (err s = false -> 0 <= i /\ i + 4 <= sz s) ->
  (forall s', s_buf_ptr s' = s_buf_ptr s -> sz s' = sz s -> err s' = err s -> Q tt s') -> wp s (poke_u32 i v) Q.
Proof. intros Hr. apply wp_pokes. by rewrite le_bytes_length. Qed.
Lemma wp_insert pos len s (Q : unit -> REParseState -> Prop) : 0 <= len -> (err s = false -> 0 <= pos <= sz s) ->
  (forall s', s_buf_ptr s' = s_buf_ptr s -> (err s' = false -> sz s' = sz s + len) -> Q tt s') ->
  wp s (insert_or_fail pos len) Q.
Proof.
  intros Hlen Hpos HQ Hs. unfold insert_or_fail, dbuf_insert, pbind.
  destruct (on_byte_code _ s) as [r s1| | |] eqn:E1; try (by destruct (Sure_byte_code (fun ok bc => dbuf_claim ok bc len) s) as (? & ? & E & _); rewrite E in E1).
  pose proof (Sure_Keeps _ (Sure_byte_code _) _ _ _ E1) as Hp1.
  apply claim_spec in E1 as (Hsame & Hm & Hc & _ & _); [|done|done]. destruct (Hm Hs) as (_ & _ & He).
  destruct r; cbn [negb]; [|done]. cbn [pget]. fold (code s1). rewrite Hc. unfold sz in *.
  destruct (Z.ltb_spec (Z.of_nat (length (code s))) pos) as [Hlt|Hge].
  - left. destruct (err s1) eqn:E; [done|]. specialize (Hpos (He eq_refl)). lia.
  - cbn. apply HQ; [done|]. intros Hf. unfold code at 1. cbn. specialize (Hpos (He Hf)).
    rewrite !length_app, length_take, length_take, length_app, length_replicate, length_drop. lia.
Qed.
Lemma Keeps_pokes i l : Keeps (pokes i l).
Proof.
  revert i. induction l as [|v l IH]; intros i; cbn [pokes]; [apply Sure_Keeps; sure|]. apply Keeps_bind; [|auto].
  intros s a s' E. unfold poke in E. destruct (_ || _); [done|]. by injection E as <- <-.
Qed.

(** What an emission adds, when there was memory *)
Lemma wp_emits {A} s (m : P A) i (Q : A -> REParseState -> Prop) : Sure m -> Mono m ->
  typed s m (fun _ s' => emits s i s') ->
  (forall a s', s_buf_ptr s' = s_buf_ptr s -> (err s' = false -> emits s i s') -> Q a s') -> wp s m Q.
Proof.
  intros Hsure Hm Ht HQ. eapply (wp_typed _ _ (fun _ s' => s_buf_ptr s' = s_buf_ptr s)); [done|by apply wp_sure|exact Ht|].
  intros a s' _ Hp He. by apply HQ.
Qed.
Lemma emits_sz s i s' : emits s i s' -> sz s' = sz s + ilen i.
Proof. intros [_ Hc]. unfold sz, ilen. rewrite Hc, length_app. unfold insn_bytes. cbn [length]. lia. Qed.
Lemma wp_emit_op_u32 op v s (Q : Z -> REParseState -> Prop) :
  (forall pos s', s_buf_ptr s' = s_buf_ptr s -> (err s' = false -> emits s (jmp op v) s' /\ pos = sz s + 1) -> Q pos s') ->
  wp s (re_emit_op_u32 (reop op) v) Q.
Proof.
  intros HQ. eapply (wp_typed _ _ (fun _ s' => s_buf_ptr s' = s_buf_ptr s) (fun pos s' => emits s (jmp op v) s' /\ pos = sz s + 1));
    [mono|apply wp_sure; [sure|done]|by apply typed_emit_op_u32|]. intros a s' _ Hp He. by apply HQ.
Qed.
End Writes.

(** The quantifiers; [start] is the start of the atom *)
Section Quantify.
Context `{ReEnv} `{UnicodeDb}.
Lemma wp_save_reset pos c s (Q : unit -> REParseState -> Prop) : (err s = false -> 0 <= pos <= sz s) ->
  (forall s', s_buf_ptr s' = s_buf_ptr s -> (err s' = false -> sz s' = sz s + 3) -> Q tt s') -> wp s (insert_save_reset pos c) Q.
Proof.
  intros Hpos HQ. unfold insert_save_reset. apply wp_bind; [by apply Mono_insert_or_fail|]. apply wp_insert; [lia|done|].
  intros s1 Hp1 Hz1 He1. apply wp_bind; [mono|]. apply wp_get. intros _. apply wp_pokes.
  - intros Hf. specialize (Hz1 Hf). specialize (Hpos (He1 Hf)). cbn [length]. lia.
  - intros s' Hp Hz He. apply HQ; [congruence|]. rewrite Hz, He. done.
Qed.
Definition done_at (p : Z) (_ : unit) (s' : REParseState) : Prop := s_buf_ptr s' = p.
Lemma wp_optional start len qmax greedy check s : (err s = false -> 0 <= start <= sz s) ->
  wp s (quantify_optional start len qmax greedy check) (done_at (s_buf_ptr s)).
Proof.
  intros Hst. unfold quantify_optional. pose proof (bz_range check) as Hb. destruct (qmax =? 0); [apply wp_sure; [sure|done]|].
  assert (forall k s1, s_buf_ptr s1 = s_buf_ptr s -> (err s1 = false -> err s = false) ->
    (err s1 = false -> sz s1 = sz s + k) -> err s1 = false -> 0 <= start /\ start + k <= sz s1) as Hroom.
  { intros k s1 _ He Hz Hf. specialize (Hz Hf). specialize (Hst (He Hf)). lia. }
  destruct (_ || _); cbv zeta.
  - apply wp_bind; [apply Mono_insert_or_fail; lia|]. apply wp_insert; [lia|done|]. intros s1 Hp1 Hz1 He1.
    pose proof (Hroom _ _ Hp1 He1 Hz1) as Hr. clear Hroom.
    apply wp_bind; [mono|]. apply wp_poke; [intros Hf; specialize (Hr Hf); lia|]. intros s2 Hp2 Hz2 Ee2 _.
    apply wp_bind; [mono|]. apply wp_poke_u32; [rewrite Ee2, Hz2; intros Hf; specialize (Hr Hf); lia|]. intros s3 Hp3 Hz3 Ee3 _.
    apply wp_bind; [destruct check; mono|].
    apply (wp_conseq _ _ (done_at (s_buf_ptr s))).
    + destruct check; [|apply wp_ret; unfold done_at; congruence]. cbn [bz] in *. apply wp_bind; [mono|].
      apply wp_pokes; [rewrite Ee3, Ee2, Hz3, Hz2; intros Hf; specialize (Hr Hf); cbn [length]; lia|]. intros s4 Hp4 _ _ _.
      apply wp_sure; [sure|]. unfold done_at. intros [] s5 ?. congruence.
    + intros [] s4 Hp4 _. unfold done_at in *. destruct (qmax =? INT32_MAX); (apply wp_sure; [sure|]); intros [] s5 ?; congruence.
  - apply wp_bind; [apply Mono_insert_or_fail; lia|]. apply wp_insert; [lia|done|]. intros s1 Hp1 Hz1 He1.
    pose proof (Hroom _ _ Hp1 He1 Hz1) as Hr. clear Hroom.
    apply wp_bind; [mono|]. apply wp_poke; [intros Hf; specialize (Hr Hf); lia|]. intros s2 Hp2 Hz2 Ee2 _.
    apply wp_bind; [mono|]. apply wp_poke_u32; [rewrite Ee2, Hz2; intros Hf; specialize (Hr Hf); lia|]. intros s3 Hp3 Hz3 Ee3 _.
    pose proof (prologue_length qmax check) as Hpl.
    apply wp_bind; [mono|]. apply wp_pokes; [rewrite Ee3, Ee2, Hz3, Hz2, Hpl; intros Hf; specialize (Hr Hf); lia|].
    intros s4 Hp4 _ _ _. apply wp_sure; [sure|]. unfold done_at. intros [] s5 ?. congruence.
Qed.
Lemma wp_repeated start qmin qmax greedy check s : (err s = false -> 0 <= start <= sz s) ->
  wp s (quantify_repeated start qmin qmax greedy check) (done_at (s_buf_ptr s)).
Proof.
  intros Hst. unfold quantify_repeated. destruct (_ && _); [apply wp_sure; [sure|done]|]. cbv zeta.
  set (chk := if qmin =? qmax then false else check). pose proof (bz_range chk). pose proof (prologue_length qmax chk) as Hpl.
  apply wp_bind; [apply Mono_insert_or_fail; lia|]. apply wp_insert; [lia|done|]. intros s1 Hp1 Hz1 He1.
  apply wp_bind; [mono|]. apply wp_pokes.
  { rewrite Hpl. intros Hf. specialize (Hz1 Hf). specialize (Hst (He1 Hf)). lia. }
  intros s2 Hp2 _ _ _. apply wp_sure; [sure|]. unfold done_at. intros [] s5 ?. congruence.
Qed.
(** The scan of an atom ends. *)
Lemma need_check_code bl : forall fuel pre a b, Forall insn_wf bl -> (length bl <= fuel)%nat ->
  need_check_loop fuel (pre ++ code_bytes bl) (Z.of_nat (length pre)) a b <> None.
Proof.
  induction bl as [|i bl IH]; intros fuel pre a b Hwf Hf.
  { destruct fuel; cbn [need_check_loop]; rewrite app_nil_r, Z.ltb_irrefl; done. }
  apply Forall_cons in Hwf as [Hi Hwf]. destruct fuel as [|fuel]; cbn [length] in Hf; [lia|]. cbn [need_check_loop].
  rewrite code_bytes_cons. pose proof (ilen_pos i) as Hpos.
  assert (Z.of_nat (length (insn_bytes i)) = ilen i) as Hlen by (unfold insn_bytes, ilen; cbn [length]; lia).
  rewrite (proj2 (Z.ltb_lt _ _)) by (rewrite !length_app; lia).
  rewrite at_op. bind. destruct (at_size pre (code_bytes bl) i Hi) as (n & e & Hn & He & Hs & _ & _). rewrite Hn. bind.
  rewrite opcode_of_reop. bind.
  assert (forall a b, need_check_loop fuel (pre ++ insn_bytes i ++ code_bytes bl) (Z.of_nat (length pre) + n + e) a b <> None) as Hnext.
  { intros a' b'. specialize (IH fuel (pre ++ insn_bytes i) a' b' Hwf ltac:(lia)). rewrite <- app_assoc, length_app in IH.
    by replace (Z.of_nat (length pre) + n + e) with (Z.of_nat (length pre + length (insn_bytes i))) by lia. }
  destruct (adv_kind_of (i_op i)) eqn:Ek; [rewrite He; bind; apply Hnext| |rewrite He; bind; apply Hnext|done].
  assert (e = 0) as ->.
  { destruct (i_op i); try discriminate Ek; cbn [instr_extra] in He; by injection He as <-. }
  specialize (Hnext a b). by rewrite Z.add_0_r in Hnext.
Qed.
Lemma need_check_block cc b : block cc b -> re_need_check_adv_and_capture_init (code_bytes b) <> None.
Proof. intros Hb. apply (need_check_code b _ []); [apply Hb|apply insns_length]. Qed.
Lemma wp_quantify start captures qmin qmax greedy s :
  (err s = false -> exists pre b, code s = pre ++ code_bytes b /\ start = Z.of_nat (length pre) /\ block (s_capture_count s) b) ->
  wp s (quantify start captures qmin qmax greedy) (done_at (s_buf_ptr s)).
Proof.
  intros Hst. assert (err s = false -> 0 <= start <= sz s) as Hstart.
  { intros (pre & b & Hc & -> & _)%Hst. unfold sz. rewrite Hc, length_app. lia. }
  unfold quantify. apply wp_bind; [mono|]. apply wp_get. intros _. apply wp_bind; [mono|]. apply wp_option_bad.
  { destruct (err s) eqn:He; [left; by left|right]. destruct (Hst eq_refl) as (pre & b & Hc & -> & Hb). fold (code s).
    rewrite Hc, Nat2Z.id, drop_app_length. by eapply need_check_block. }
  intros [check init] _ _. cbv zeta. set (has := negb _).
  assert (forall s1 m, s_buf_ptr s1 = s_buf_ptr s -> wp s1 m (done_at (s_buf_ptr s1)) -> wp s1 m (done_at (s_buf_ptr s))) as Hsame
    by (intros s1 m ->; done).
  apply wp_bind; [destruct (init && has); mono|].
  apply (wp_conseq _ _ (fun _ s1 => s_buf_ptr s1 = s_buf_ptr s /\ (err s1 = false -> err s = false -> sz s <= sz s1))).
  { destruct (init && has); [|apply wp_ret; split; [done|lia]]. apply wp_save_reset; [done|]. intros s1 Hp1 Hz1. split; [done|].
    intros Hf _. rewrite Hz1 by done. lia. }
  intros _ s1 [Hp1 Hz1] He1. apply wp_bind; [mono|]. apply wp_size. intros _.
  assert (err s1 = false -> 0 <= start <= sz s1) as Hstart1.
  { intros Hf. specialize (Hz1 Hf (He1 Hf)). specialize (Hstart (He1 Hf)). lia. }
  destruct (qmin =? 0); [|apply Hsame; [done|by apply wp_repeated]].
  destruct (negb init && has); [|apply Hsame; [done|by apply wp_optional]].
  apply wp_bind; [mono|]. apply wp_save_reset; [done|]. intros s2 Hp2 Hz2 He2. apply Hsame; [congruence|]. apply wp_optional.
  intros Hf. specialize (Hz2 Hf). specialize (Hstart1 (He2 Hf)). lia.
Qed.
End Quantify.
