(* ===== verification/RegexpSets.v ===== *)
(** * Running the compiler: sets of strings

    The lists of strings of the character classes: an invariant of the hash
    table and of the set of characters, which every operation keeps and under
    which none goes wrong. *)
From S2P Require Import Prelude Sort SortProps Cutils Utf8 CharRange CharRangeProps UnicodeTables UnicodeCase UnicodeCaseProps UnicodeCaseMem UnicodeProp.
From S2P Require Import Regexp RegexpSim RegexpUndo RegexpSearch RegexpRange RegexpType RegexpRegs RegexpParse RegexpCompile.
From S2P Require Import RegexpBlock RegexpMono RegexpTyped RegexpText RegexpTotal.

(** A character of a class; [CLASS_RANGE_BASE] and above are the numbers of classes. *)
Definition char_ok (c : Z) : Prop := 0 <= c < CLASS_RANGE_BASE.
Definition string_ok (p : REString) : Prop := 0 <= rs_hash p < 2 ^ 32 /\ Forall char_ok (rs_buf p).
Record sl_ok (sl : REStringList) : Prop := {
  slo_cr : cr_ok (sl_cr sl);
  slo_count : sl_n_strings sl = Z.of_nat (length (sl_strings sl));
  slo_room : sl_n_strings sl <= sl_hash_size sl;
  slo_table : (sl_hash_bits sl = 0 /\ sl_hash_table sl = []) \/
    (4 <= sl_hash_bits sl <= 30 /\ sl_hash_size sl = 2 ^ sl_hash_bits sl);
  slo_strings : Forall string_ok (sl_strings sl);
}.

(** ** Emission *)
Section EmitSets.
Context `{ReEnv} `{UnicodeDb}.
Lemma wp_points16 pts s : Nat.Even (length pts) -> wp s (emit_points16 pts) (done_at (s_buf_ptr s)).
Proof.
  revert s. induction pts as [|x|lo hi pts IH] using list_pair_ind; intros s He; cbn [emit_points16].
  - by apply wp_ret.
  - destruct He as [k Hk]. cbn in Hk. lia.
  - apply wp_bind; [mono|]. apply wp_sure; [sure|]. intros _ s1 Hp1 _. cbv zeta. apply wp_bind; [mono|]. apply wp_sure; [sure|]. intros _ s2 Hp2 _.
    rewrite <- Hp1, <- Hp2. apply IH. by apply even_two.
Qed.
Lemma wp_points32 pts s : Nat.Even (length pts) -> wp s (emit_points32 pts) (done_at (s_buf_ptr s)).
Proof.
  revert s. induction pts as [|x|lo hi pts IH] using list_pair_ind; intros s He; cbn [emit_points32].
  - by apply wp_ret.
  - destruct He as [k Hk]. cbn in Hk. lia.
  - apply wp_bind; [mono|]. apply wp_sure; [sure|]. intros _ s1 Hp1 _. apply wp_bind; [mono|]. apply wp_sure; [sure|]. intros _ s2 Hp2 _.
    rewrite <- Hp1, <- Hp2. apply IH. by apply even_two.
Qed.
Lemma wp_range cr s : Nat.Even (length (cr_points cr)) -> wp s (re_emit_range cr) (done_at (s_buf_ptr s)).
Proof.
  intros He. unfold re_emit_range. destruct (_ <=? _); [apply wp_error|]. destruct (Z.eqb_spec (cr_len cr / 2) 0) as [|Hne].
  { apply wp_bind; [mono|]. apply wp_sure; [sure|]. intros _ s1 Hp1 _. by apply wp_ret. }
  assert (2 <= length (cr_points cr))%nat as Hlen.
  { destruct He as [k Hk]. unfold cr_len in Hne. destruct k; [by rewrite Hk in Hne|lia]. }
  destruct (lookup_lt_is_Some_2 (cr_points cr) (length (cr_points cr) - 1) ltac:(lia)) as [x Ex].
  destruct (lookup_lt_is_Some_2 (cr_points cr) (length (cr_points cr) - 2) ltac:(lia)) as [y Ey].
  destruct (Mono_emit_points (cr_points cr)) as [M16 M32].
  apply wp_bind; [mono|]. apply wp_option. exists x. split; [done|]. intros _.
  apply wp_bind; [mono|]. apply (wp_conseq _ _ (fun _ s1 => s_buf_ptr s1 = s_buf_ptr s)).
  { destruct (_ =? _); [apply wp_option; by exists y|by apply wp_ret]. }
  intros high s1 Hp1 _.
  destruct (_ <=? _); (apply wp_bind; [mono|]; apply wp_sure; [sure|]; intros op s2 Hp2 _; apply wp_bind; [mono|]; apply wp_sure; [sure|];
    intros _ s3 Hp3 _; rewrite <- Hp1, <- Hp2, <- Hp3); [by apply wp_points16|by apply wp_points32].
Qed.

(** The strings: [typed] says where they are, so the patches are in range. *)
Lemma wp_patch_split s s1 s2 l pos (Q : unit -> REParseState -> Prop) :
  (err s2 = false -> sz s1 = sz s + 5 /\ pos = sz s + 1 /\ code s2 = code s1 ++ l) ->
  (forall s', s_buf_ptr s' = s_buf_ptr s2 -> sz s' = sz s2 -> err s' = err s2 -> Q tt s') ->
  wp s2 (let? size := code_size in poke_u32 pos (size - (pos + 4))) Q.
Proof.
  intros Hf HQ. apply wp_bind; [mono|]. apply wp_size. intros _. apply wp_poke_u32; [|done].
  intros (Hz & -> & Hc)%Hf. assert (sz s2 = sz s1 + Z.of_nat (length l)) by (unfold sz; rewrite Hc, length_app; lia).
  unfold sz in *. lia.
Qed.
Lemma sz_jmp s op v s' : emits s (jmp op v) s' -> sz s' = sz s + 5.
Proof. intros He%emits_sz. by rewrite ilen_jmp in He. Qed.
Lemma wp_emit_strings more l : forall s link, wp s (emit_strings l more link) (fun _ s' => s_buf_ptr s' = s_buf_ptr s).
Proof.
  induction l as [|p l IH]; intros s link; cbn [emit_strings]; [by apply wp_ret|]. destruct (_ && _).
  { apply wp_bind; [mono|]. apply wp_sure; [sure|]. intros _ s1 Hp1 _. rewrite <- Hp1. apply IH. }
  apply wp_bind; [mono|]. apply wp_emit_op_u32. intros pos s1 Hp1 Hi1 He1.
  apply wp_bind; [mono|]. eapply (wp_typed _ _ (fun _ s2 => s_buf_ptr s2 = s_buf_ptr s)); [mono|apply wp_sure; [sure|]|apply EB_chars|].
  { intros _ s2 ->. done. }
  intros u s2 _ Hp2 Hg2 He2. apply wp_bind; [mono|]. apply wp_emit_op_u32. intros pos2 s3 Hp3 Hi3 He3.
  apply wp_bind; [mono|]. apply wp_size. intros _. apply wp_bind; [mono|]. apply wp_poke_u32.
  - intros Hf. destruct (Hi3 Hf) as [Hz3%sz_jmp _]. destruct (Hi1 (He2 (He3 Hf))) as [Hz1%sz_jmp ->].
    destruct (Hg2 (He3 Hf)) as (b & Hc & _). assert (sz s1 <= sz s2) by (unfold sz; rewrite Hc, length_app; lia).
    unfold sz in *. lia.
  - intros s4 Hp4 _ _ _. replace (s_buf_ptr s) with (s_buf_ptr s4) by congruence. apply IH.
Qed.
Lemma wp_patch_bad n : forall s p, err s = true -> wp s (patch_gotos n p) (fun _ s' => s_buf_ptr s' = s_buf_ptr s).
Proof.
  induction n as [|n IH]; intros s p He; cbn [patch_gotos]; (destruct (p =? -1); [by apply wp_ret|]); [by apply wp_wrong; left|].
  apply wp_bind; [mono|]. apply wp_get. intros _. apply wp_bind; [mono|]. apply wp_option_bad; [by left; left|]. intros v _ _.
  apply wp_bind; [mono|]. apply wp_poke_u32; [congruence|]. intros s1 Hp1 _ He1 _. rewrite <- Hp1. apply IH. congruence.
Qed.
Lemma wp_patch segs : forall n s pre tl, (length segs <= n)%nat ->
  code s = pre ++ code_bytes (unlinked (Z.of_nat (length pre)) segs (-1)) ++ code_bytes tl ->
  wp s (patch_gotos n (last_link (Z.of_nat (length pre)) segs (-1))) (fun _ s' => s_buf_ptr s' = s_buf_ptr s).
Proof.
  induction segs as [|ch segs IH] using rev_ind; intros n s pre tl Hn Hc.
  { cbn [last_link]. destruct n; cbn [patch_gotos]; by apply wp_ret. }
  rewrite length_app in Hn. cbn [length] in Hn. destruct n as [|n]; [lia|].
  apply wp_pre. intros Hp%pinv_size. rewrite Hc in Hp.
  destruct (unlinked_last segs ch pre tl ltac:(lia)) as (a & -> & Hsm & Ea & Eb). rewrite Ea in Hc.
  cbn [patch_gotos]. rewrite (proj2 (Z.eqb_neq _ _)) by lia.
  apply wp_bind; [mono|]. apply wp_get. intros _. fold (code s).
  apply wp_bind; [mono|]. apply wp_option. exists (u32 (last_link (Z.of_nat (length pre)) segs (-1))). split; [by rewrite Hc, get_u32_le|]. intros _.
  apply wp_bind; [mono|].
  eapply (wp_typed _ _ (fun _ s' => s_buf_ptr s' = s_buf_ptr s /\ err s' = err s) (fun _ s' => code s' = _)); [mono| | |].
  - apply wp_poke_u32; [|done]. intros _. unfold sz. rewrite Hc, !length_app, le_bytes_length. lia.
  - eapply typed_poke_u32; [exact Hc|done|apply le_bytes_length|]. intros s1 _ Hc1. exact Hc1.
  - intros _ s1 _ [Hp1 He1] Hc1 _. rewrite <- Hp1, i32_u32, i32_id by done.
    destruct (err s1) eqn:Ee; [by apply wp_patch_bad|]. eapply (IH n s1 pre); [lia|].
    replace (db_size (s_byte_code s) - (Z.of_nat (length a) + 4)) with (clen tl) in Hc1
      by (unfold db_size; fold (code s); rewrite Hc, !length_app, le_bytes_length; unfold clen; lia).
    rewrite (Hc1 eq_refl). exact Eb.
Qed.
Lemma wp_optional_range cr s : Nat.Even (length (cr_points cr)) ->
  wp s (let? split_pos := re_emit_op_u32 (reop REOP_split_next_first) 0 in
        let? _ := re_emit_range cr in
        let? size := code_size in
        poke_u32 split_pos (size - (split_pos + 4))) (done_at (s_buf_ptr s)).
Proof.
  intros He. apply wp_bind; [mono|]. apply wp_emit_op_u32. intros pos s1 Hp1 Hi1 He1.
  apply wp_bind; [mono|]. eapply (wp_typed _ _ (done_at (s_buf_ptr s1))); [mono|by apply wp_range|apply EB_range|].
  intros u s2 _ Hp2 Hg2 He2. apply wp_bind; [mono|]. apply wp_size. intros _. apply wp_poke_u32.
  - intros Hf. destruct (Hi1 (He2 Hf)) as [Hz1%sz_jmp ->]. destruct (Hg2 Hf) as (b & Hc & _).
    assert (sz s1 <= sz s2) by (unfold sz; rewrite Hc, length_app; lia). unfold sz in *. lia.
  - intros s3 Hp3 _ _. unfold done_at in *. congruence.
Qed.
Lemma wp_string_list sl s : sl_ok sl -> wp s (re_emit_string_list sl) (done_at (s_buf_ptr s)).
Proof.
  intros Hsl. pose proof (slo_cr _ Hsl) as [[_ Hev] _]. unfold re_emit_string_list. destruct (sl_n_strings sl =? 0); [by apply wp_range|].
  apply wp_bind; [mono|]. apply wp_sure; [unfold request; sure|]. intros ok s1 Hp1 _. destruct ok; cbn [negb]; [|apply wp_oom]. cbv zeta.
  set (tab := base.filter _ _).
  assert (length tab <= length (sl_strings sl))%nat as Hlt by apply length_filter.
  destruct (Z.ltb_spec (sl_n_strings sl) (Z.of_nat (length tab))) as [Hbad|_]; [rewrite (slo_count _ Hsl) in Hbad; lia|].
  destruct (rqsort_sorts re_string_cmp_len tab 8 ltac:(lia)) as (tab' & Esort & Hperm & _).
  apply wp_bind; [mono|]. apply wp_option. exists tab'. split; [exact Esort|]. intros _.
  assert (length tab' = length tab) as Hl by (by rewrite Hperm). apply wp_bind; [mono|].
  eapply (wp_typed _ _ (fun _ s2 => s_buf_ptr s2 = s_buf_ptr s)); [mono| |apply typed_emit_strings|].
  { rewrite <- Hp1. apply wp_emit_strings. }
  intros link s2 _ Hp2 Hstr He2. apply wp_bind; [mono|].
  eapply (wp_typed _ _ (done_at (s_buf_ptr s)) (fun _ s3 => grown s2 s3)).
  - mono.
  - unfold done_at. rewrite <- Hp2. destruct (negb (cr_len _ =? 0)); [|by apply wp_ret].
    destruct (existsb _ _); [by apply wp_optional_range|by apply wp_range].
  - destruct (negb (cr_len _ =? 0)); [|apply EB_quiet; quiet]. destruct (existsb _ _); [apply EB_optional_range|apply EB_range].
  - intros u3 s3 _ Hp3 Hg3 He3. unfold done_at in *. rewrite <- Hp3. destruct (err s3) eqn:Ee; [by apply wp_patch_bad|].
    destruct (Hstr (He3 eq_refl)) as (segs & tl & Hn & _ & _ & Hc2 & ->). destruct (Hg3 eq_refl) as (b & Hc3 & _).
    eapply (wp_patch segs _ _ _ (tl ++ b)); [lia|]. by rewrite Hc3, Hc2, code_bytes_app, <- !app_assoc.
Qed.
End EmitSets.
