(* ===== verification/RegexpStrings.v ===== *)
(** * Running the compiler: operations on sets of strings

    The functions behind the character classes leave the bytecode alone; [Tot m
    Q] says that [m] ends from every state, with a value in [Q] or with an
    error, unless a call of [unicode_script] does not return, and never goes
    wrong.  The operations on lists of strings are total
    and keep [sl_ok], provided a hash table never gets 2^34 bytes. *)
From Stdlib Require Import Sorted.
From S2P Require Import Prelude Sort SortProps Cutils Utf8 CharRange CharRangeProps UnicodeTables UnicodeCase UnicodeCaseProps UnicodeCaseMem UnicodeProp.
From S2P Require Import Regexp RegexpSim RegexpUndo RegexpSearch RegexpRange RegexpType RegexpRegs RegexpParse RegexpCompile.
From S2P Require Import RegexpBlock RegexpMono RegexpTyped RegexpText RegexpTotal RegexpSets.

Section Total.
Context `{ReEnv} `{UnicodeDb}.
Definition Tot {A} (m : P A) (Q : A -> Prop) : Prop := forall s,
  match m s with POk a _ => Q a | PFail _ => True | PWrong _ => False | PFuel => hangs end.
Lemma Tot_bind {A B} (m : P A) (k : A -> P B) Q1 Q : Tot m Q1 -> (forall a, Q1 a -> Tot (k a) Q) -> Tot (pbind m k) Q.
Proof. intros Hm Hk s. specialize (Hm s). unfold pbind. destruct (m s); try done. by apply Hk. Qed.
Lemma Tot_conseq {A} (m : P A) (Q Q' : A -> Prop) : Tot m Q -> (forall a, Q a -> Q' a) -> Tot m Q'.
Proof. intros Hm HQ s. specialize (Hm s). destruct (m s); auto. Qed.
Lemma Tot_ret {A} (a : A) (Q : A -> Prop) : Q a -> Tot (pret a) Q.
Proof. by intros HQ s. Qed.
Lemma Tot_get : Tot pget (fun _ => True).
Proof. by intros s. Qed.
Lemma Tot_error {A} msg (Q : A -> Prop) : Tot (re_parse_error msg) Q.
Proof. by intros s. Qed.
Lemma Tot_oom {A} (Q : A -> Prop) : Tot re_parse_out_of_memory Q.
Proof. by intros s. Qed.
Lemma Tot_fail {A} (Q : A -> Prop) : Tot pfail Q.
Proof. by intros s. Qed.
Lemma Tot_option {A} (o : option A) (Q : A -> Prop) : (exists a, o = Some a /\ Q a) -> Tot (of_option o) Q.
Proof. intros (a & -> & HQ) s. exact HQ. Qed.
Lemma wp_tot {A} s (m : P A) (Q : A -> Prop) (Q' : A -> REParseState -> Prop) : Tot m Q -> (forall a s', Q a -> Q' a s') -> wp s m Q'.
Proof. intros Hm HQ _. specialize (Hm s). destruct (m s); auto. done. Qed.
End Total.
(** ** Unions that cannot fail
    A set of code points has at most 0x110001 points, so an operation on two of
    them asks for less than 2^24 bytes at a time. *)
Definition grants (ok : Z -> bool) : Prop := forall size, size < 2 ^ 24 -> ok size = true.
Definition every_size (size : Z) : bool := true.
Lemma add_point_granted ok cr v N : grants ok -> Z.of_nat (length (cr_points cr)) < N -> 6 * N < 2 ^ 24 ->
  cr_add_point ok cr v = cr_add_point every_size cr v.
Proof.
  intros Hg Hl HN. unfold cr_add_point, cr_realloc, cr_len. destruct (Z.leb_spec (cr_size cr) (Z.of_nat (length (cr_points cr)))) as [Hle|]; [|done].
  destruct (_ <? _); [|done]. rewrite (Hg (_ * 4)); [done|]. pose proof (Z.mul_div_le (cr_size cr * 3) 2 ltac:(lia)). lia.
Qed.
Lemma op_loop_granted ok a b op N : grants ok -> 6 * N < 2 ^ 24 -> forall fuel cr m n, Z.of_nat (length (cr_points cr)) + Z.of_nat fuel <= N ->
  cr_op_loop ok fuel cr a b m n op = cr_op_loop every_size fuel cr a b m n op.
Proof.
  intros Hg HN. induction fuel as [|fuel IH]; intros cr m n Hl; [done|]. cbn [cr_op_loop].
  destruct (cr_next a b m n) as [[[v m'] n']|]; [|done]. destruct (xorb _ _); [|apply IH; lia].
  rewrite (add_point_granted ok cr v N) by (done || lia). destruct (cr_add_point_spec every_size cr v) as [_ Hp].
  destruct (cr_add_point every_size cr v) as [cr1 []]; [|done]. specialize (Hp eq_refl). cbn in Hp. apply IH. rewrite Hp, length_app. cbn [length]. lia.
Qed.
Lemma strict_length pts : forall lo hi, StronglySorted Z.lt pts -> Forall (fun p => lo <= p <= hi) pts -> Z.of_nat (length pts) <= Z.max 0 (hi - lo + 1).
Proof.
  induction pts as [|p pts IH]; intros lo hi Hs Hb; cbn [length]; [lia|]. apply StronglySorted_inv in Hs as [Hs Hp].
  apply Forall_cons in Hb as [Hlo Hb]. specialize (IH (p + 1) hi Hs).
  assert (Forall (fun q => p + 1 <= q <= hi) pts); [|specialize (IH ltac:(done)); lia].
  apply Forall_forall. intros q Hq. rewrite Forall_forall in Hp, Hb. specialize (Hp q Hq). specialize (Hb q Hq). lia.
Qed.
(** A sorted set of code points *)
Definition code_points (cr : CharRange) : Prop := strictly_sorted (cr_points cr) /\ Forall (fun p => 0 <= p <= 0x110000) (cr_points cr).
Lemma union_granted ok cr c : grants ok -> code_points cr -> 0 <= c <= 0x10FFFF ->
  (cr_union_interval ok cr c c).2 = true /\ code_points (cr_union_interval ok cr c c).1.
Proof.
  intros Hg [Hs Hb] Hc. unfold cr_union_interval. rewrite u32_id by lia. unfold cr_op1.
  assert (weakly_sorted [c; c + 1]) as Hw by (split; [repeat constructor; lia|by exists 1%nat]).
  pose proof (strict_length _ 0 0x110000 (proj1 Hs) Hb) as Hl.
  assert (cr_op ok cr_init (cr_points cr) [c; c + 1] CR_OP_UNION = cr_op every_size cr_init (cr_points cr) [c; c + 1] CR_OP_UNION) as ->.
  { unfold cr_op. rewrite (op_loop_granted ok _ _ _ 0x110010 Hg); [done|lia|]. cbn [length cr_points cr_init]. lia. }
  pose proof (cr_op_spec every_size cr_init _ _ CR_OP_UNION (strictly_weakly _ Hs) Hw eq_refl) as H.
  destruct (cr_op _ _ _ _ _) as [cr' r]. destruct H as [Ht H]. specialize (Ht (fun _ => eq_refl)). subst r. split; [done|].
  destruct (H eq_refl) as (Hs' & _ & Hlo & Hhi). split; [done|]. cbn [fst]. apply Forall_forall. intros p Hp.
  assert (Forall (fun p => 0 <= p) (cr_points cr')) as H0 by (apply Hlo; [eapply Forall_impl; [exact Hb|]; cbn; lia|repeat constructor; lia]).
  assert (Forall (fun p => p <= 0x110000) (cr_points cr')) as H1 by (apply Hhi; [eapply Forall_impl; [exact Hb|]; cbn; lia|repeat constructor; lia]).
  rewrite Forall_forall in H0, H1. auto.
Qed.

Create HintDb tot.
#[export] Hint Resolve Tot_error Tot_oom Tot_fail : tot.

Section Ops.
Context `{ReEnv} `{UnicodeDb}.
(** The embedder grants no block of 16 GB. *)
Context (Hmem : forall n size, env_realloc n size = true -> size < 2 ^ 34).

Lemma Tot_mem {A} (f : (Z -> bool) -> A) (Q : A -> Prop) : (forall n, Q (f (env_realloc n))) -> Tot (with_mem f) Q.
Proof. intros HQ s. apply HQ. Qed.
Lemma Tot_request n (Q : bool -> Prop) : (n < 2 ^ 34 -> Q true) -> Q false -> Tot (request n) Q.
Proof. intros Ht Hf. apply Tot_mem. intros k. destruct (env_realloc k n) eqn:E; [|done]. apply Ht. by eapply Hmem. Qed.
Lemma Tot_stack : Tot check_stack_overflow (fun _ => True).
Proof. intros s. unfold check_stack_overflow. by destruct (env_stack_overflow _). Qed.

(** ** The hash table *)
Lemma bucket_range h bits : 0 <= h < 2 ^ 32 -> 4 <= bits <= 30 -> (Z.of_nat (bucket_of h bits) < 2 ^ bits).
Proof.
  intros Hh Hb. unfold bucket_of. rewrite Z2Nat.id by (apply Z.shiftr_nonneg; lia). rewrite Z.shiftr_div_pow2 by lia.
  apply Z.div_lt_upper_bound; [lia|]. rewrite <- Z.pow_add_r by lia. replace (32 - bits + bits) with 32 by lia. apply Hh.
Qed.
Lemma hash_range buf : 0 <= re_string_hash buf < 2 ^ 32.
Proof. apply u32_range. Qed.
Lemma sl_nonempty sl : sl_ok sl -> sl_hash_size sl <> 0 -> 4 <= sl_hash_bits sl <= 30 /\ sl_hash_size sl = 2 ^ sl_hash_bits sl.
Proof. intros Hs Hn. destruct (slo_table _ Hs) as [[_ E]|]; [|done]. unfold sl_hash_size in Hn. by rewrite E in Hn. Qed.
Lemma sl_size_max sl : sl_ok sl -> 0 <= sl_hash_size sl <= 2 ^ 30.
Proof.
  intros Hs. destruct (slo_table _ Hs) as [[_ E]|[Hb ->]]; [unfold sl_hash_size; rewrite E; cbn; lia|].
  split; [lia|]. apply Z.pow_le_mono_r; lia.
Qed.
Lemma lookup_total sl buf h : sl_ok sl -> 0 <= h < 2 ^ 32 -> exists b, string_lookup sl buf h = Some b.
Proof.
  intros Hs Hh. unfold string_lookup. destruct (Z.eqb_spec (sl_n_strings sl) 0); [eauto|].
  pose proof (slo_count _ Hs). pose proof (slo_room _ Hs). destruct (sl_nonempty sl Hs ltac:(lia)) as [Hb Hz].
  pose proof (bucket_range h _ Hh Hb). destruct (lookup_lt_is_Some_2 (sl_hash_table sl) (bucket_of h (sl_hash_bits sl))) as [l ->]; [|bind; eauto].
  unfold sl_hash_size in Hz. lia.
Qed.
Lemma push_total tab h p : (h < length tab)%nat ->
  exists tab', push_bucket tab h p = Some tab' /\ length tab' = length tab /\ concat tab' ≡ₚ p :: concat tab.
Proof.
  intros Hh. unfold push_bucket. destruct (lookup_lt_is_Some_2 tab h Hh) as [b Hb]. rewrite Hb. bind. eexists. split; [done|].
  rewrite length_insert. split; [done|]. rewrite insert_take_drop by done. rewrite <- (take_drop_middle tab h b Hb) at 3.
  rewrite !concat_app. cbn. symmetry. apply Permutation_middle.
Qed.
Lemma rehash_total bits l : forall tab, 4 <= bits <= 30 -> Z.of_nat (length tab) = 2 ^ bits -> Forall string_ok l ->
  exists tab', rehash bits l tab = Some tab' /\ length tab' = length tab /\ concat tab' ≡ₚ l ++ concat tab.
Proof.
  induction l as [|p l IH]; intros tab Hb Hl Hok; cbn [rehash]; [by exists tab|]. apply Forall_cons in Hok as [[Hh _] Hok].
  pose proof (bucket_range _ _ Hh Hb). destruct (push_total tab (bucket_of (rs_hash p) bits) p) as (tab1 & -> & Hl1 & Hp1); [lia|]. bind.
  destruct (IH tab1 Hb ltac:(lia) Hok) as (tab2 & -> & Hl2 & Hp2). exists tab2. split; [done|]. split; [congruence|].
  rewrite Hp2, Hp1. cbn. by rewrite Permutation_middle.
Qed.
Lemma concat_empties {A} n : concat (replicate n (@nil A)) = [].
Proof. induction n; cbn; auto. Qed.
Lemma sl_ok_perm sl cr n bits tab : cr_ok cr -> n = Z.of_nat (length (concat tab)) -> n <= Z.of_nat (length tab) ->
  4 <= bits <= 30 -> Z.of_nat (length tab) = 2 ^ bits -> Forall string_ok (concat tab) -> sl = mk_slist cr n bits tab -> sl_ok sl.
Proof. intros Hcr Hn Hr Hb Hl Hs ->. split; auto. Qed.
(** Growing makes room for one more string. *)
Lemma grow_ok sl : sl_ok sl -> sl_hash_size sl < sl_n_strings sl + 1 ->
  Tot (grow_table sl) (fun r => sl_ok r.1 /\ sl_cr r.1 = sl_cr sl /\ (r.2 = true -> sl_n_strings r.1 = sl_n_strings sl /\ sl_n_strings sl < sl_hash_size r.1)).
Proof.
  intros Hs Hg. unfold grow_table. set (bits := Z.max _ _).
  assert (4 <= bits <= 31 /\ sl_n_strings sl < 2 ^ bits) as [Hb Hroom].
  { pose proof (slo_room _ Hs). destruct (slo_table _ Hs) as [[Eb Et]|[Hb Hz]].
    - assert (bits = 4) as -> by lia. unfold sl_hash_size in *. rewrite Et in *. cbn in *. lia.
    - assert (bits = sl_hash_bits sl + 1) as -> by lia. rewrite Z.pow_add_r by lia. lia. }
  assert (u32 (Z.shiftl 1 bits) = 2 ^ bits) as Eu.
  { rewrite Z.shiftl_1_l. apply u32_id. split; [lia|]. apply Z.pow_lt_mono_r; lia. }
  cbv zeta. rewrite Eu. eapply Tot_bind.
  { apply (Tot_request _ (fun b => b = true -> 8 * 2 ^ bits < 2 ^ 34)); [done|discriminate]. }
  intros [] Hlt; [|apply Tot_ret; split_and!; [done|done|discriminate]].
  assert (bits <= 30) as Hb30.
  { destruct (Z.le_gt_cases bits 30); [done|]. assert (bits = 31) as E31 by lia. rewrite E31 in Hlt. specialize (Hlt eq_refl). lia. }
  destruct (rehash_total bits (sl_strings sl) (replicate (Z.to_nat (2 ^ bits)) [])) as (tab & Et & Hl & Hp);
    [lia|rewrite length_replicate; lia|apply Hs|].
  rewrite length_replicate in Hl. rewrite concat_empties, app_nil_r in Hp.
  eapply Tot_bind; [apply (Tot_option _ (fun t => t = tab)); eauto|]. intros ? ->. apply Tot_ret. cbn [fst snd]. split_and!; [|done|].
  - eapply sl_ok_perm; [| | | | | |reflexivity]; [apply Hs| | |lia|lia|].
    + rewrite Hp. apply Hs.
    + lia.
    + rewrite Hp. apply Hs.
  - intros _. split; [done|]. unfold sl_hash_size. cbn. lia.
Qed.
Lemma find2_add_ok sl buf h : sl_ok sl -> 0 <= h < 2 ^ 32 -> Forall char_ok buf ->
  Tot (re_string_find2_add sl buf h) (fun r => sl_ok r.1 /\ sl_cr r.1 = sl_cr sl).
Proof.
  intros Hs Hh Hbuf. unfold re_string_find2_add. destruct (lookup_total sl buf h Hs Hh) as [b Eb].
  eapply Tot_bind; [apply (Tot_option _ (fun _ => True)); eauto|]. intros [] _; [by apply Tot_ret|]. cbv zeta.
  pose proof (sl_size_max sl Hs) as Hmax. pose proof (slo_room _ Hs) as Hroom. pose proof (slo_count _ Hs) as Hcnt.
  rewrite (u32_id (sl_n_strings sl + 1)) by lia. set (grow := _ <? _).
  eapply (Tot_bind _ _ (fun r => sl_ok r.1 /\ sl_cr r.1 = sl_cr sl /\ (r.2 = true -> sl_n_strings r.1 = sl_n_strings sl /\ sl_n_strings sl < sl_hash_size r.1))).
  { destruct grow eqn:Eg; [apply grow_ok; [done|by apply Z.ltb_lt]|]. apply Z.ltb_ge in Eg. apply Tot_ret. split_and!; [done|done|]. cbn. lia. }
  intros [s1 ok] (Hs1 & Hcr1 & Hr1). cbn [fst snd] in *. destruct ok; cbn [negb]; [|by apply Tot_ret]. destruct (Hr1 eq_refl) as [En Hlt].
  eapply (Tot_bind _ _ (fun _ => True)); [by apply Tot_request|]. intros [] _; cbn [negb]; [|by apply Tot_ret].
  destruct (sl_nonempty s1 Hs1 ltac:(lia)) as [Hb1 Hz1].
  match goal with |- context [push_bucket _ ?k _] => assert (k < length (sl_hash_table s1))%nat as Hk end.
  { pose proof (bucket_range h _ Hh Hb1). unfold sl_hash_size in *. destruct (_ || _); lia. }
  destruct (push_total _ _ (mk_string h buf) Hk) as (tab & Et & Hl & Hp). eapply Tot_bind; [apply (Tot_option _ (fun t => t = tab)); eauto|].
  intros ? ->. apply Tot_ret. pose proof (sl_size_max s1 Hs1). unfold sl_hash_size in *. rewrite En, (u32_id (sl_n_strings sl + 1)) by lia.
  split; [|exact Hcr1].
  eapply sl_ok_perm; [| | | | | |reflexivity]; [apply Hs1| |lia|done|lia|].
  - rewrite Hp. cbn [length]. pose proof (slo_count _ Hs1). unfold sl_strings in *. lia.
  - rewrite Hp. constructor; [by split|apply Hs1].
Qed.

(** ** Sets of characters *)
(** A list of strings, if the function says so *)
Definition good_list (r : REStringList * bool) : Prop := r.2 = true -> sl_ok r.1.
Lemma Tot_good sl b : sl_ok sl -> Tot (pret (sl, b)) good_list.
Proof. intros Hs. apply Tot_ret. intros _. exact Hs. Qed.
Lemma Tot_no sl : Tot (pret (sl, false)) good_list.
Proof. apply Tot_ret. discriminate. Qed.
Lemma set_cr_ok sl cr : sl_ok sl -> cr_ok cr -> sl_ok (sl_set_cr sl cr).
Proof. intros [] Hcr. by split. Qed.
Lemma empty_list_ok : sl_ok re_string_list_init.
Proof. split; cbn; auto; try done. split; [|constructor]. split; [constructor|by exists 0%nat]. Qed.
Lemma Tot_or_oom m : Tot m good_list -> Tot (or_out_of_memory m) sl_ok.
Proof. intros Hm. eapply Tot_bind; [exact Hm|]. intros [sl []] Hr; [by apply Tot_ret, Hr|apply Tot_oom]. Qed.
Lemma Tot_or_fail m : Tot m good_list -> Tot (or_fail m) sl_ok.
Proof. intros Hm. eapply Tot_bind; [exact Hm|]. intros [sl []] Hr; [by apply Tot_ret, Hr|apply Tot_fail]. Qed.
(** An operation on the characters of a list *)
Lemma Tot_mem_cr sl f : sl_ok sl -> (forall ok cr, f ok (sl_cr sl) = (cr, true) -> cr_ok cr) ->
  Tot (let? (cr, r) := with_mem (fun ok => f ok (sl_cr sl)) in pret (sl_set_cr sl cr, r)) good_list.
Proof.
  intros Hs Hf. eapply Tot_bind; [apply (Tot_mem _ (fun r => r.2 = true -> cr_ok r.1))|].
  { intros n. destruct (f _ _) as [cr r] eqn:E. cbn. intros ->. by eapply Hf. }
  intros [cr r] Hr. apply Tot_ret. intros Ht. apply set_cr_ok; [done|by apply Hr].
Qed.
Lemma char_interval c : char_ok c -> 0 <= c <= c /\ c < UINT32_MAX.
Proof. unfold char_ok, CLASS_RANGE_BASE, UINT32_MAX. lia. Qed.
Lemma invert_ok sl : sl_ok sl -> Tot (sl_invert sl) good_list.
Proof. intros Hs. apply Tot_mem_cr; [done|]. intros ok cr. apply cr_invert_ok, Hs. Qed.
Lemma union_interval_ok sl c1 c2 : sl_ok sl -> 0 <= c1 <= c2 -> c2 < UINT32_MAX -> Tot (sl_union_interval sl c1 c2) good_list.
Proof. intros Hs Hc Hm. apply (Tot_mem_cr sl (fun ok cr => cr_union_interval ok cr c1 c2)); [done|]. intros ok cr. by apply cr_union_interval_ok; [apply Hs|..]. Qed.
Lemma string_add_ok sl buf : sl_ok sl -> Forall char_ok buf -> Tot (re_string_add sl buf) good_list.
Proof.
  intros Hs Hb. assert (Tot (re_string_find2_add sl buf (re_string_hash buf)) good_list) as Hfind.
  { eapply Tot_conseq; [apply find2_add_ok; [done|apply hash_range|done]|]. by intros r [Hr _] _. }
  destruct buf as [|c [|c2 buf]]; [exact Hfind| |exact Hfind]. apply Forall_cons in Hb as [[Hc1 Hc2]%char_interval _].
  by apply union_interval_ok.
Qed.
Lemma strings_union_ok l : forall a, sl_ok a -> Forall string_ok l -> Tot (strings_union a l) good_list.
Proof.
  induction l as [|p l IH]; intros a Ha Hl; cbn [strings_union]; [by apply Tot_good|]. apply Forall_cons in Hl as [[Hh Hc] Hl].
  eapply Tot_bind; [by apply find2_add_ok|]. intros [a1 []] [Ha1 _]; [by apply IH|]. apply Tot_no.
Qed.
Lemma chain_filter_total b keep l : sl_ok b -> Forall string_ok l ->
  exists l', chain_filter b keep l = Some l' /\ l' `sublist_of` l.
Proof.
  intros Hb. induction l as [|p l IH]; intros Hl; cbn [chain_filter]; [by exists []|]. apply Forall_cons in Hl as [[Hh Hc] Hl].
  destruct (lookup_total b (rs_buf p) (rs_hash p) Hb Hh) as [x ->]. bind. destruct (IH Hl) as (l' & -> & Hsub). bind.
  eexists. split; [done|]. destruct (eqb x keep); by constructor.
Qed.
Lemma table_filter_total b keep tab : sl_ok b -> Forall string_ok (concat tab) ->
  exists tab', table_filter b keep tab = Some tab' /\ length tab' = length tab /\ concat tab' `sublist_of` concat tab.
Proof.
  intros Hb. induction tab as [|l tab IH]; intros Hl; cbn [table_filter]; [by exists []|]. cbn in Hl. apply Forall_app in Hl as [Hl Ht].
  destruct (chain_filter_total b keep l Hb Hl) as (l' & -> & Hsub). bind. destruct (IH Ht) as (tab' & -> & Hlen & Hsub'). bind.
  exists (l' :: tab'). split; [done|]. split; [cbn; lia|]. cbn. by apply sublist_app.
Qed.
Lemma filtered_ok a b keep : sl_ok a -> sl_ok b ->
  Tot (let? tab := of_option (table_filter b keep (sl_hash_table a)) in
       pret (mk_slist (sl_cr a) (u32 (sl_n_strings a - Z.of_nat (length (concat (sl_hash_table a)) - length (concat tab)))) (sl_hash_bits a) tab, true))
    good_list.
Proof.
  intros Ha Hb. destruct (table_filter_total b keep (sl_hash_table a) Hb (slo_strings _ Ha)) as (tab & Et & Hlen & Hsub).
  eapply Tot_bind; [apply (Tot_option _ (fun t => t = tab)); eauto|]. intros ? ->. apply Tot_ret. intros _. cbn [fst].
  pose proof (sublist_length _ _ Hsub) as Hle. pose proof (slo_count _ Ha) as Hc. pose proof (slo_room _ Ha) as Hr. pose proof (sl_size_max a Ha).
  unfold sl_strings, sl_hash_size in *. rewrite u32_id by lia. split; unfold sl_strings, sl_hash_size; cbn; [apply Ha|lia|lia| |].
  - destruct (slo_table _ Ha) as [[E1 E2]|[E1 E2]]; [left|right].
    + split; [done|]. rewrite E2 in Hlen. by destruct tab.
    + split; [done|]. unfold sl_hash_size in E2. lia.
  - apply Forall_forall. intros x Hx. pose proof (slo_strings _ Ha) as Hst. rewrite Forall_forall in Hst. by eapply Hst, elem_of_sublist.
Qed.
Lemma list_op_ok a b op : sl_ok a -> sl_ok b -> op <> CR_OP_XOR -> Tot (re_string_list_op a b op) good_list.
Proof.
  intros Ha Hb Hop. unfold re_string_list_op. eapply Tot_bind; [apply (Tot_mem _ (fun r => r.2 = true -> cr_ok r.1))|].
  { intros n. destruct (cr_op1 _ _ _ _) as [cr r] eqn:E. cbn. intros ->. destruct (slo_cr _ Hb). eapply cr_op1_ok; [apply Ha| | |exact E]; done. }
  intros [cr []] Hr; cbn [negb]; [|apply Tot_no]. assert (sl_ok (sl_set_cr a cr)) as Ha1 by (apply set_cr_ok; [done|by apply Hr]).
  cbv zeta. destruct op; [|by apply filtered_ok|done|by apply filtered_ok].
  destruct (_ =? _); [by apply Tot_good|]. apply strings_union_ok; [done|apply Hb].
Qed.

(** ** Folding the case *)
Lemma canonicalize_char u c : char_ok c -> exists d, lre_canonicalize c u = Some d /\ char_ok d.
Proof.
  intros Hc. destruct (canonicalize_facts u c ltac:(unfold char_ok in Hc; lia)) as (d & Ed & Hd & _ & Hid). exists d. split; [done|].
  destruct (Z.lt_ge_cases c 0x110000) as [Hlt|Hge]; [specialize (Hd Hlt); unfold char_ok, CLASS_RANGE_BASE; lia|].
  rewrite Hid; [done|]. destruct (in_ranges (mask_points u) c) eqn:E; [|done]. destruct (mask_facts u) as (_ & Hmr & _).
  eapply in_ranges_bounds in E; [|exact Hmr]. lia.
Qed.
Lemma canonicalize_all_ok u buf : Forall char_ok buf -> exists buf', canonicalize_all buf u = Some buf' /\ Forall char_ok buf'.
Proof.
  induction buf as [|c buf IH]; intros Hb; cbn [canonicalize_all]; [by exists []|]. apply Forall_cons in Hb as [Hc Hb].
  destruct (canonicalize_char u c Hc) as (d & -> & Hd). bind. destruct (IH Hb) as (buf' & -> & Hb'). bind. eauto.
Qed.
Lemma strings_canonicalize_ok u l : forall sl, sl_ok sl -> Forall string_ok l -> Tot (strings_canonicalize sl l u) good_list.
Proof.
  induction l as [|p l IH]; intros sl Hs Hl; cbn [strings_canonicalize]; [by apply Tot_good|]. apply Forall_cons in Hl as [[_ Hc] Hl].
  destruct (canonicalize_all_ok u _ Hc) as (buf & Eb & Hb). eapply Tot_bind; [apply (Tot_option _ (Forall char_ok)); eauto|]. intros b Hb'.
  eapply Tot_bind; [by apply string_add_ok|]. intros [s1 []] H1; [by apply IH; [apply H1|]|]. apply Tot_no.
Qed.
Lemma canonicalize_ok sl u : sl_ok sl -> Tot (re_string_list_canonicalize sl u) good_list.
Proof.
  intros Hs. unfold re_string_list_canonicalize. eapply Tot_bind.
  { apply (Tot_mem _ (fun o => exists cr r, o = Some (cr, r) /\ (r = true -> cr_ok cr))). intros n. apply canonicalize_total, Hs. }
  intros o (cr & r & -> & Hr). eapply Tot_bind; [apply (Tot_option _ (fun x => x = (cr, r))); eauto|]. intros ? ->.
  destruct r; cbn [negb]; [|apply Tot_no]. specialize (Hr eq_refl). destruct (_ =? _).
  - apply Tot_ret. intros _. by apply set_cr_ok.
  - apply strings_canonicalize_ok; [|apply Hs]. apply (set_cr_ok re_string_list_init cr empty_list_ok Hr).
Qed.
Lemma canonicalize_if_ok c : char_ok c -> Tot (canonicalize_if c) char_ok.
Proof.
  intros Hc. eapply Tot_bind; [apply Tot_get|]. intros s _. destruct (s_ignore_case s); [|by apply Tot_ret].
  apply Tot_option. destruct (canonicalize_char env_is_unicode c Hc) as (d & ? & ?). eauto.
Qed.

(** ** The classes with a name *)
Lemma add_points_spec ok pts : forall cr cr', add_points ok cr pts = (cr', true) -> cr_points cr' = cr_points cr ++ pts.
Proof.
  induction pts as [|v pts IH]; intros cr cr' E; cbn [add_points] in E; [injection E as <-; by rewrite app_nil_r|].
  destruct (cr_add_point_spec ok cr v) as [_ Hp]. destruct (cr_add_point ok cr v) as [cr1 []]; [|done]. cbn in Hp.
  rewrite (IH _ _ E), Hp by done. by rewrite <- app_assoc.
Qed.
Lemma char_range_table_ok : Forall (fun pts => cr_ok (mk_cr pts 0)) char_range_table.
Proof.
  repeat (constructor; [split; [split; [repeat (constructor; cbn; try lia)|apply Nat.even_spec; reflexivity]
    |repeat (constructor; [unfold UINT32_MAX; lia|]); constructor]|]). constructor.
Qed.
Lemma init_char_range_ok c : 0 <= c <= 5 -> Tot (cr_init_char_range c) good_list.
Proof.
  intros Hc. unfold cr_init_char_range. destruct (lookup_lt_is_Some_2 char_range_table (Z.to_nat (Z.shiftr c 1))) as [pts Ep].
  { rewrite Z.shiftr_div_pow2 by lia. change (length char_range_table) with 3%nat. change (2 ^ 1) with 2. pose proof (Z.div_lt_upper_bound c 2 3). lia. }
  pose proof (Forall_lookup_1 _ _ _ _ char_range_table_ok Ep) as [Hw Hr]. cbn [cr_points] in *.
  eapply Tot_bind; [apply (Tot_option _ (fun x => x = pts)); eauto|]. intros ? ->.
  eapply Tot_bind; [apply (Tot_mem _ (fun r => r.2 = true -> cr_ok r.1))|].
  { intros n. destruct (add_points _ _ _) as [cr r] eqn:E. cbn. intros ->. apply add_points_spec in E. cbn in E. split; by rewrite E. }
  intros [cr ok] Hcr. cbn [fst snd] in Hcr. destruct (negb ok || _) eqn:Eo.
  - apply Tot_ret. intros Ht. apply set_cr_ok; [apply empty_list_ok|by apply Hcr].
  - destruct ok; [|done]. specialize (Hcr eq_refl).
    apply (Tot_mem_cr (sl_set_cr re_string_list_init cr) (fun ok cr => cr_invert ok cr)); [by apply set_cr_ok; [apply empty_list_ok|]|].
    intros ok' cr'. by apply cr_invert_ok.
Qed.
End Ops.
