(* ===== verification/RegexpClass.v ===== *)
(** * Running the compiler: the parser of character classes

    [re_parse_nested_class] and everything it calls end, stay inside the text,
    move forward and return a well formed list of strings, whatever the bytes
    of the text (below 0xf8), the memory and the stack.  The database of
    properties is assumed to follow its documentation, as libunicode.c does
    (RegexpUnicode.v). *)
From S2P Require Import Prelude Sort SortProps Cutils Utf8 CharRange CharRangeProps UnicodeTables UnicodeCase UnicodeCaseProps UnicodeCaseMem UnicodeProp.
From S2P Require Import Regexp RegexpSim RegexpUndo RegexpSearch RegexpRange RegexpType RegexpRegs RegexpParse RegexpCompile.
From S2P Require Import RegexpBlock RegexpMono RegexpTyped RegexpText RegexpTotal RegexpSets RegexpStrings.

(** What the functions of libunicode.c that fill a set return: 0 with a sorted
    set, -1 for lack of memory, -2 for an unknown name, and then the set is as
    it was; the sequences hold code points. *)
Definition set_result (r : CharRange * Z) : Prop :=
  (r.2 = 0 /\ cr_ok r.1) \/ r.2 = -1 \/ (r.2 = -2 /\ r.1 = cr_init).
Class UnicodeDbLaws `{UnicodeDb} : Prop := {
  law_script : forall ok v ext r, unicode_script ok cr_init v ext = Some r -> set_result r;
  law_general_category : forall ok v, set_result (unicode_general_category ok cr_init v);
  law_prop : forall ok v, set_result (unicode_prop ok cr_init v);
  law_sequence_prop : forall ok v, Forall (Forall (fun c => 0 <= c <= 0x10FFFF)) (unicode_sequence_prop ok v).1;
}.
(** A property of strings may list single characters, whose union with the set
    may fail; [seq_prop_cb] ignores the failure and leaves a set cut short.  So
    there are none, or memory for a set of code points is always granted. *)
Definition long_sequences `{UnicodeDb} : Prop := forall ok v, Forall (fun seq => length seq <> 1%nat) (unicode_sequence_prop ok v).1.
Definition unions_succeed `{ReEnv} `{UnicodeDb} : Prop := long_sequences \/ forall n, grants (env_realloc n).

Section Class.
Context `{ReEnv} `{UnicodeDb}.
Context (Hmem : forall n size, env_realloc n size = true -> size < 2 ^ 34).
Context (buf : list Z) (Hbuf : Forall text_byte buf) (Htext : env_text = buf ++ [0]).
Context {Hlaws : UnicodeDbLaws} (Hseq : env_unicode_sets = true -> unions_succeed).
#[local] Abbreviation ins := (inside buf).
#[local] Abbreviation L := (Z.of_nat (length buf)).
#[local] Ltac fin := unfold inside, text_byte, char_ok, CLASS_RANGE_BASE in *; lia.

Lemma buf_end_L : buf_end = L.
Proof. unfold buf_end. rewrite Htext, text_nul_length. lia. Qed.
(** Reading: a byte, which is not the last one unless it is NUL *)
Definition read_at (p c : Z) : Prop := byte_at (buf ++ [0]) p = Some c /\ text_byte c /\ (c <> 0 -> ins (p + 1)).
Lemma Tot_rd p : ins p -> Tot (rd p) (read_at p).
Proof.
  intros Hp. apply Tot_option. rewrite Htext. destruct (read_inside buf Hbuf p Hp) as (c & Ec & Hc & Hn).
  exists c. split; [done|]. by split.
Qed.
Lemma Tot_expect p c msg : ins p -> c <> 0 -> Tot (re_parse_expect p c msg) (fun q => q = p + 1 /\ ins q).
Proof.
  intros Hp Hc. eapply Tot_bind; [by apply Tot_rd|]. intros b (_ & _ & Hn). destruct (Z.eqb_spec b c) as [->|]; cbn [negb]; [|apply Tot_error].
  apply Tot_ret. auto.
Qed.

(** ** Properties *)
Lemma unicode_chars_ok fuel : forall p q, ins p -> L - p < Z.of_nat fuel ->
  Tot (unicode_chars fuel p q) (fun r => p <= r.2 /\ ins r.2).
Proof.
  induction fuel as [|fuel IH]; intros p q Hp Hf; [fin|]. cbn [unicode_chars]. eapply Tot_bind; [by apply Tot_rd|]. intros c (_ & _ & Hn).
  assert (Tot (pret (None (A := list Z), p)) (fun r => p <= r.2 /\ ins r.2)) as Hnone by (apply Tot_ret; cbn; split; [lia|done]).
  destruct (is_unicode_char c) eqn:Ec; [|apply Tot_ret; cbn; split; [lia|done]]. destruct (_ <=? _); [done|].
  assert (c <> 0) as Hc0 by (intros ->; done). eapply Tot_conseq; [apply IH; [by apply Hn|fin]|]. cbn. intros r [? ?]. split; [lia|done].
Qed.
Definition code_point (c : Z) : Prop := 0 <= c <= 0x10FFFF.
Lemma code_points_ok cr : code_points cr -> cr_ok cr.
Proof. intros [Hs Hb]. split; [by apply strictly_weakly|]. eapply Forall_impl; [exact Hb|]. cbn. unfold UINT32_MAX. lia. Qed.
Lemma chars_ok seq : Forall code_point seq -> Forall char_ok seq.
Proof. intros Hs. eapply Forall_impl; [exact Hs|]. unfold code_point. intros. fin. Qed.
Lemma sequence_ok sl seq : sl_ok sl -> code_points (sl_cr sl) -> Forall code_point seq ->
  length seq <> 1%nat \/ (forall n, grants (env_realloc n)) ->
  Tot (re_string_add sl seq) (fun r => sl_ok r.1 /\ code_points (sl_cr r.1)).
Proof.
  intros Hs Hp Hc Hn. assert (Tot (re_string_find2_add sl seq (re_string_hash seq)) (fun r => sl_ok r.1 /\ code_points (sl_cr r.1))) as Hfind.
  { eapply Tot_conseq; [apply (find2_add_ok Hmem); [done|apply hash_range|by apply chars_ok]|]. by intros r [? ->]. }
  destruct seq as [|c [|c2 seq]]; [exact Hfind| |exact Hfind]. destruct Hn as [Hn|Hg]; [by cbn in Hn|]. apply Forall_cons in Hc as [Hc _].
  eapply Tot_bind; [apply (Tot_mem _ (fun r => code_points r.1))|].
  - intros n. by apply (union_granted (env_realloc n) (sl_cr sl) c (Hg n)).
  - intros [cr r] Hcr. apply Tot_ret. cbn. split; [|done]. by apply set_cr_ok, code_points_ok.
Qed.
Lemma sequences_ok l : forall sl, sl_ok sl -> code_points (sl_cr sl) -> Forall (Forall code_point) l ->
  Forall (fun seq => length seq <> 1%nat) l \/ (forall n, grants (env_realloc n)) -> Tot (seq_prop_cbs sl l) sl_ok.
Proof.
  induction l as [|seq l IH]; intros sl Hs Hp Hc Hn; cbn [seq_prop_cbs]; [by apply Tot_ret|].
  apply Forall_cons in Hc as [Hc Hcs]. eapply Tot_bind; [apply sequence_ok; [done|done|done|]|].
  - destruct Hn as [Hn|?]; [left; by apply Forall_cons in Hn as [? _]|by right].
  - intros [s1 b] [H1 H2]. apply IH; [done|done|done|]. destruct Hn as [Hn|?]; [left; by apply Forall_cons in Hn as [_ ?]|by right].
Qed.
Lemma set_result_done r msg : set_result r ->
  Tot (if r.2 =? 0 then pret (sl_set_cr re_string_list_init r.1)
       else if r.2 =? -2 then re_parse_error msg else re_parse_out_of_memory) sl_ok.
Proof.
  intros Hr. destruct (Z.eqb_spec r.2 0) as [E|].
  - apply Tot_ret, set_cr_ok; [apply empty_list_ok|]. destruct Hr as [[_ ?]|[?|[? _]]]; [done|lia|lia].
  - destruct (_ =? -2); auto with tot.
Qed.
Lemma empty_cr_ok cr : cr_points cr = [] -> cr_ok cr.
Proof. intros E. split; rewrite E; [|constructor]. split; [constructor|by exists 0%nat]. Qed.
Lemma script_set_ok value ext msg :
  Tot (let? o := with_mem (fun ok => unicode_script ok cr_init value ext) in
       match o with
       | Some r => if r.2 =? 0 then pret (sl_set_cr re_string_list_init r.1)
                   else if r.2 =? -2 then re_parse_error msg else re_parse_out_of_memory
       | None => pfuel
       end) sl_ok.
Proof.
  eapply (Tot_bind _ _ (fun o => match o with Some r => set_result r | None => hangs end)).
  - apply Tot_mem. intros n. destruct (unicode_script _ _ _ _) eqn:E; [by eapply law_script|by exists n, value, ext].
  - intros [r|] Hr; [by apply set_result_done|by intros s].
Qed.
Lemma property_set_ok name value is_inv : Tot (property_set name value is_inv env_unicode_sets) sl_ok.
Proof.
  unfold property_set. cbv zeta. repeat case_match; [| |by apply Tot_bind with set_result; [apply Tot_mem; intros; apply law_general_category|]; intros; apply set_result_done| |auto with tot].
  1-2: by apply script_set_ok.
  eapply Tot_bind; [apply (Tot_mem _ set_result); intros; apply law_general_category|]. intros [cr ret] Hr.
  destruct (Z.eqb_spec ret (-1)); [auto with tot|]. eapply (Tot_bind _ _ set_result).
  { destruct (Z.ltb_spec ret 0); [|by apply Tot_ret]. apply Tot_mem. intros k.
    assert (cr = cr_init) as -> by (destruct Hr as [[? _]|[?|[_ ?]]]; cbn in *; lia || done). apply law_prop. }
  clear cr ret Hr n. intros [cr ret] Hr. destruct (Z.eqb_spec ret (-1)); [auto with tot|].
  assert (sl_ok (sl_set_cr re_string_list_init cr)) as Hsl.
  { apply set_cr_ok; [apply empty_list_ok|]. destruct Hr as [[_ ?]|[?|[_ ?]]]; cbn in *; [done|lia|subst cr; by apply empty_cr_ok]. }
  destruct (_ && _ && _) eqn:Ea; [|destruct (_ <? _); [auto with tot|by apply Tot_ret]].
  apply andb_true_iff in Ea as [[Hneg%Z.ltb_lt _]%andb_true_iff Hv]. specialize (Hseq Hv).
  assert (code_points cr) as Hcr.
  { destruct Hr as [[? _]|[?|[_ ?]]]; cbn in *; [lia|lia|subst cr]. split; [split; [constructor|by exists 0%nat]|constructor]. }
  eapply Tot_bind; [apply (Tot_mem _ (fun r => Forall (Forall code_point) r.1 /\ (Forall (fun seq => length seq <> 1%nat) r.1 \/ forall n, grants (env_realloc n))))|].
  { intros k. split; [apply law_sequence_prop|]. destruct Hseq as [Hl|Hg]; [left; apply Hl|by right]. }
  intros [seqs r] [Hs1 Hs2]. eapply Tot_bind; [by apply sequences_ok|]. intros sl1 Hsl1.
  destruct (_ =? _); [auto with tot|]. destruct (_ <? _); [auto with tot|by apply Tot_ret].
Qed.
(** A list, and a pointer further on *)
Definition class_at (p : Z) (r : REStringList * Z) : Prop := sl_ok r.1 /\ p < r.2 /\ ins r.2.
Lemma sl_if (b : bool) (m : P REStringList) sl : sl_ok sl -> (sl_ok sl -> Tot m sl_ok) -> Tot (if b then m else pret sl) sl_ok.
Proof. intros Hs Hm. destruct b; [by apply Hm|by apply Tot_ret]. Qed.
Lemma unicode_property_ok p is_inv : ins p -> Tot (parse_unicode_property p is_inv env_unicode_sets) (class_at p).
Proof.
  intros Hp. unfold parse_unicode_property. eapply Tot_bind; [by apply Tot_rd|]. intros b (_ & _ & Hn).
  destruct (Z.eqb_spec b 123); cbn [negb]; [|auto with tot]. specialize (Hn ltac:(lia)).
  assert (forall q, L - q < Z.of_nat (length env_text) <-> 0 <= q) as Hfuel by (intros q; rewrite Htext, text_nul_length; lia).
  eapply Tot_bind; [apply unicode_chars_ok; [done|apply Hfuel; fin]|]. intros [name p1] [Hp1 Hi1]. cbn [fst snd] in *.
  destruct name as [name|]; [|auto with tot]. eapply Tot_bind; [by apply Tot_rd|]. intros b1 (_ & _ & Hn1).
  eapply (Tot_bind _ _ (fun r => p1 <= r.2 /\ ins r.2)).
  { destruct (Z.eqb_spec b1 61); [|apply Tot_ret; cbn; split; [lia|done]]. specialize (Hn1 ltac:(lia)).
    eapply Tot_conseq; [apply unicode_chars_ok; [done|apply Hfuel; fin]|]. cbn. intros r [? ?]. split; [lia|done]. }
  intros [value p2] [Hp2 Hi2]. cbn [fst snd] in *. destruct value as [value|]; [|auto with tot].
  eapply Tot_bind; [by apply Tot_expect|]. intros p3 [-> Hi3]. eapply Tot_bind; [apply property_set_ok|]. intros sl Hsl.
  eapply Tot_bind; [apply Tot_get|]. intros s _.
  eapply Tot_bind; [apply sl_if; [exact Hsl|]; intros; apply Tot_or_oom; by apply canonicalize_ok|]. intros sl1 Hsl1.
  eapply Tot_bind; [apply sl_if; [exact Hsl1|]; intros; apply Tot_or_oom; by apply invert_ok|]. intros sl2 Hsl2.
  eapply Tot_bind; [apply sl_if; [exact Hsl2|]; intros; apply Tot_or_oom; by apply canonicalize_ok|]. intros sl3 Hsl3.
  apply Tot_ret. split; [done|]. cbn. split; [lia|done].
Qed.

(** ** Atoms *)
(** A character, or a class with its list, and a pointer further on *)
Definition char_at (p : Z) (r : class_atom) : Prop := let '(c, q, _) := r in p < q /\ ins q /\ char_ok c.
Definition atom_at (p : Z) (r : class_atom) : Prop :=
  let '(c, q, cr) := r in p < q /\ ins q /\ (char_ok c \/ exists sl, CLASS_RANGE_BASE <= c /\ cr = Some sl /\ sl_ok sl).
Lemma char_atom p r : char_at p r -> atom_at p r.
Proof. destruct r as [[c q] cr]. cbn. intros (? & ? & ?). auto. Qed.
Lemma char_at_mono p q r : p <= q -> char_at q r -> char_at p r.
Proof. destruct r as [[c e] cr]. cbn. intros Hle (? & ? & ?). split; [lia|auto]. Qed.
Lemma Tot_char p c q cr : p < q -> ins q -> char_ok c -> Tot (pret (c, q, cr)) (char_at p).
Proof. intros. by apply Tot_ret. Qed.
Lemma utf8_high p c d q : byte_at (buf ++ [0]) p = Some c -> 128 <= c -> utf8_at (buf ++ [0]) p = Some (d, q) -> d <> 0.
Proof.
  intros Ec Hc E ->. unfold utf8_at in E. unfold byte_at in Ec. destruct (p <? 0); [done|]. rewrite (drop_S _ _ _ Ec) in E.
  cbn [unicode_from_utf8] in E. rewrite (proj2 (Z.ltb_ge c 0x80)) in E by lia. destruct (utf8_length c) as [l|] eqn:El; [|done].
  destruct (_ <? _); [done|]. destruct (utf8_loop _ _ _) as [[c' rest]|]; [|done]. destruct (Z.ltb_spec c' (default 0 (utf8_min_code !! (l - 1)%nat))) as [|Hge]; [done|].
  injection E as -> _. revert El Hge. unfold utf8_length. repeat case_match; intros [= <-]; cbn; lia.
Qed.
Lemma normal_char_ok p c : ins p -> text_byte c -> (128 <= c -> read_at p c) -> ins (p + 1) -> Tot (class_normal_char p c) (char_at p).
Proof.
  intros Hp Hc Hr Hp1. unfold class_normal_char. destruct (Z.leb_spec 128 c) as [Hge|]; [|apply Tot_char; fin].
  destruct (Hr Hge) as (Ec & _ & Hn). rewrite Htext. destruct (utf8_at (buf ++ [0]) p) as [[d q]|] eqn:E; cbn.
  - pose proof (utf8_high _ _ _ _ Ec Hge E) as Hd. destruct (utf8_at_inside buf Hbuf _ _ _ Hp E Hd) as (Hq & Hiq & Hd21).
    destruct (_ && _); [auto with tot|]. destruct (_ <? 0); [auto with tot|]. apply Tot_char; [done|done|fin].
  - destruct (_ && _); [auto with tot|]. change (i32 UINT32_MAX <? 0) with true. auto with tot.
Qed.
(** [p] is after the character of the escape. *)
Lemma default_escape_ok p c : ins (p - 2) -> ins p -> text_byte c -> (128 <= c -> read_at (p - 1) c) ->
  Tot (class_default_escape p c) (char_at (p - 2)).
Proof.
  intros Hp2 Hp Hc Hr. unfold class_default_escape. assert (ins (p - 1)) as Hp1 by fin. rewrite Htext.
  destruct (lre_parse_escape_inside buf Hbuf (p - 1) (if env_is_unicode then 2 else 0) Hp1) as (d & q & E & Hd & Hq).
  eapply Tot_bind; [apply (Tot_option _ (fun r => r = (d, q))); eauto|]. intros ? ->. destruct (Z.leb_spec 0 d).
  { destruct (Hq ltac:(lia)). apply Tot_char; [lia|done|fin]. }
  destruct env_is_unicode; [unfold invalid_escape; auto with tot|]. eapply Tot_conseq; [apply normal_char_ok; [done|done|done|]|].
  { by replace (p - 1 + 1) with p by lia. }
  intros r. apply char_at_mono. lia.
Qed.
Lemma control_ok p inclass : ins (p - 2) -> ins p -> Tot (class_control p inclass) (char_at (p - 2)).
Proof.
  intros Hp2 Hp. unfold class_control. eapply Tot_bind; [by apply Tot_rd|]. intros c (_ & Hc & Hn). destruct (_ || _) eqn:Eo.
  - apply Tot_char; [lia| |].
    + apply Hn. intros ->. by destruct inclass.
    + assert (0 <= Z.land c 31 < 32) by (change 31 with (Z.ones 5); rewrite Z.land_ones by lia; apply Z.mod_pos_bound; lia). fin.
  - destruct env_is_unicode; [unfold invalid_escape; auto with tot|]. apply Tot_char; fin.
Qed.
Lemma common_escape_ok q p c inclass (Q : class_atom -> Prop) : ins (p - 2) -> ins p -> text_byte c ->
  (forall r, char_at (p - 2) r -> Q r) -> Tot (q c) Q -> Tot (common_escape q p c inclass) Q.
Proof.
  intros Hp2 Hp Hc HQ Hq. unfold common_escape.
  assert (Tot (pret (c, p, None)) Q) as Hself by (eapply Tot_conseq; [apply Tot_char; [|exact Hp|fin]|exact HQ]; lia).
  destruct (c =? 99); [eapply Tot_conseq; [by apply control_ok|done]|]. destruct (c =? 45).
  { destruct (_ && _); [unfold invalid_escape; auto with tot|done]. }
  destruct (char_in c syntax_chars); done.
Qed.
Lemma atom_with_ok escape p (Q : class_atom -> Prop) : ins p -> (forall r, char_at p r -> Q r) ->
  (forall c, read_at (p + 1) c -> ins (p + 2) -> Tot (escape (p + 2) c) Q) -> Tot (class_atom_with escape p) Q.
Proof.
  intros Hp HQ He. unfold class_atom_with. rewrite buf_end_L. eapply Tot_bind; [by apply Tot_rd|]. intros c Hr. pose proof Hr as (_ & Hc & Hn).
  assert (ins (p + 1) -> Tot (class_normal_char p c) Q) as Hnormal.
  { intros Hp1. eapply Tot_conseq; [by apply normal_char_ok|done]. }
  destruct (Z.eqb_spec c 92) as [->|].
  { specialize (Hn ltac:(lia)). destruct (Z.leb_spec L (p + 1)); [auto with tot|]. eapply Tot_bind; [by apply Tot_rd|]. intros c1 Hr1.
    replace (p + 1 + 1) with (p + 2) by lia. apply He; [done|fin]. }
  destruct (Z.eqb_spec c 0) as [->|Hc0].
  { destruct (Z.leb_spec L p); [auto with tot|]. apply Hnormal. fin. }
  specialize (Hn Hc0). destruct (char_in c double_chars).
  { destruct env_unicode_sets; [|auto]. eapply Tot_bind; [by apply Tot_rd|]. intros c1 _. destruct (_ =? _); auto with tot. }
  destruct (char_in c set_chars); [|auto]. destruct env_unicode_sets; auto with tot.
Qed.
Lemma class_escape_range c r : class_escape c = Some r -> 0 <= r <= 5.
Proof. unfold class_escape. repeat case_match; intros [= <-]; unfold CHAR_RANGE_d, CHAR_RANGE_D, CHAR_RANGE_s, CHAR_RANGE_S, CHAR_RANGE_w, CHAR_RANGE_W; lia. Qed.
Lemma class_char_ok p : ins p -> Tot (get_class_char p) (char_at p).
Proof.
  intros Hp. apply atom_with_ok; [done|done|]. intros c Hr Hp2. pose proof Hr as (_ & Hc & _).
  replace (p + 1) with (p + 2 - 1) in Hr by lia. assert (ins (p + 2 - 2)) as Hp0 by fin.
  assert (forall m, Tot m (char_at (p + 2 - 2)) -> Tot m (char_at p)) as Hback by (intros m; by replace (p + 2 - 2) with p by lia).
  apply Hback. destruct (class_escape c) as [r|] eqn:E.
  - apply class_escape_range in E. apply default_escape_ok; [done|done|fin|lia].
  - apply common_escape_ok; [done|done|done|done|]. by apply default_escape_ok.
Qed.

(** ** Strings of [\q] *)
Lemma u32s_le c l : char_ok c -> u32s (le_bytes 4 (u32 c) ++ l) = c :: u32s l.
Proof.
  intros Hc. rewrite u32_id by fin. destruct (le_bytes4 c ltac:(fin)) as (a & b & d & e & -> & _ & _ & _ & _ & E). cbn [u32s app].
  by rewrite E.
Qed.
(** The bytes of the characters collected *)
Definition holds_chars (str : DynBuf) : Prop :=
  dbuf_wf str /\ exists cs, Forall char_ok cs /\ db_data str = concat (map (fun c => le_bytes 4 (u32 c)) cs).
Lemma holds_chars_u32s str : holds_chars str -> Forall char_ok (u32s (db_data str)).
Proof.
  intros (_ & cs & Hcs & ->). assert (u32s (concat (map (fun c => le_bytes 4 (u32 c)) cs)) = cs) as ->; [|done].
  induction Hcs as [|c cs Hc Hcs IH]; [done|]. cbn [map concat]. by rewrite u32s_le, IH.
Qed.
Lemma holds_chars_empty str : dbuf_wf str -> holds_chars (mk_dbuf [] (db_allocated_size str) (db_error str)).
Proof. intros Hwf. split; [|by exists []]. unfold dbuf_wf, db_size in *. cbn. lia. Qed.
Lemma holds_chars_put ok str c : holds_chars str -> char_ok c ->
  dbuf_wf (dbuf_put_u32 ok str c).1 /\ ((dbuf_put_u32 ok str c).2 = true -> holds_chars (dbuf_put_u32 ok str c).1).
Proof.
  intros (Hwf & cs & Hcs & Ed) Hc. unfold dbuf_put_u32. pose proof (dbuf_put_ok ok str (le_bytes 4 (u32 c)) Hwf) as Hput.
  rewrite le_bytes_length in Hput. specialize (Hput ltac:(lia)). destruct (dbuf_put _ _ _) as [str' r]. destruct Hput as [Hwf' Hd]. cbn.
  split; [done|]. intros ->. split; [done|]. exists (cs ++ [c]). split; [by apply Forall_app; split; [|constructor]|].
  rewrite Hd, Ed, map_app, concat_app. cbn [map concat]. by rewrite app_nil_r.
Qed.
Lemma class_string_ok fuel : forall p str, ins p -> L - p < Z.of_nat fuel -> holds_chars str ->
  Tot (class_string fuel p str) (fun r => holds_chars r.1 /\ p <= r.2 /\ ins r.2 /\ ins (r.2 + 1)).
Proof.
  induction fuel as [|fuel IH]; intros p str Hp Hf Hs; [fin|]. cbn [class_string]. eapply Tot_bind; [by apply Tot_rd|]. intros b (_ & _ & Hn).
  destruct (_ || _) eqn:Eb.
  { apply Tot_ret. split_and!; [done|cbn; lia|done|]. apply Hn. intros ->. done. }
  eapply Tot_bind; [by apply class_char_ok|]. intros [[c q] cr] (Hq & Hiq & Hc).
  eapply Tot_bind; [apply (Tot_mem _ (fun r => r.2 = true -> holds_chars r.1)); intros; by apply holds_chars_put|].
  intros [str1 []] H1; [|auto with tot]. eapply Tot_conseq; [apply IH; [done|lia|by apply H1]|]. cbn. intros r (? & ? & ? & ?). split_and!; done || lia.
Qed.
Lemma class_strings_ok fuel : forall p str cr, ins p -> L - p < Z.of_nat fuel -> dbuf_wf str -> sl_ok cr ->
  Tot (class_strings fuel p str cr) (fun r => sl_ok r.1 /\ p <= r.2 /\ ins (r.2 + 1)).
Proof.
  induction fuel as [|fuel IH]; intros p str cr Hp Hf Hs Hcr; [fin|]. cbn [class_strings].
  eapply Tot_bind; [apply class_string_ok; [done|rewrite Htext, text_nul_length; fin|by apply holds_chars_empty]|].
  intros [str1 q] (Hs1 & Hq & Hiq & Hiq1). cbn [fst snd] in *.
  eapply Tot_bind; [apply Tot_or_oom, (string_add_ok Hmem); [done|by apply holds_chars_u32s]|]. intros cr1 Hcr1.
  eapply Tot_bind; [by apply Tot_rd|]. intros b _. destruct (_ =? _); [by apply Tot_ret|].
  eapply Tot_conseq; [apply IH; [done|lia|apply Hs1|done]|]. cbn. intros r (? & ? & ?). split_and!; [done|lia|done].
Qed.
Lemma string_disjunction_ok p : ins p -> Tot (parse_class_string_disjunction p) (class_at p).
Proof.
  intros Hp. unfold parse_class_string_disjunction. eapply Tot_bind; [by apply Tot_rd|]. intros b (_ & _ & Hn).
  destruct (Z.eqb_spec b 123); cbn [negb]; [|auto with tot]. specialize (Hn ltac:(lia)).
  eapply Tot_bind; [apply class_strings_ok; [done|rewrite Htext, text_nul_length; fin|by unfold dbuf_wf|apply empty_list_ok]|].
  intros [cr q] (Hcr & Hq & Hiq). cbn [fst snd] in *. eapply Tot_bind; [apply Tot_get|]. intros s _.
  eapply Tot_bind; [apply sl_if; [exact Hcr|]; intros; apply Tot_or_fail; by apply canonicalize_ok|]. intros cr1 Hcr1.
  apply Tot_ret. split; [done|]. cbn. split; [lia|done].
Qed.
Lemma class_atom_at p q sl : class_at q (sl, p) -> forall p0, p0 <= q -> Tot (pret (CLASS_RANGE_BASE, p, Some sl)) (atom_at p0).
Proof. intros (Hs & Hp & Hi) p0 Hle. apply Tot_ret. cbn in *. split_and!; [lia|done|]. right. exists sl. done. Qed.
Lemma get_class_atom_ok p inclass : ins p -> Tot (get_class_atom p inclass) (atom_at p).
Proof.
  intros Hp. apply atom_with_ok; [done|apply char_atom|]. intros c Hr Hp2. pose proof Hr as (_ & Hc & _).
  destruct (class_escape c) as [r|] eqn:E.
  { apply class_escape_range in E. eapply Tot_bind; [by apply Tot_or_fail, init_char_range_ok|]. intros cr Hcr. apply Tot_ret.
    split_and!; [lia|done|]. right. exists cr. split; [fin|done]. }
  assert (ins (p + 2 - 2)) as Hp0 by fin. assert (p + 2 - 2 = p) as Ep by lia. replace (p + 1) with (p + 2 - 1) in Hr by lia.
  apply common_escape_ok; [done|done|done|rewrite Ep; apply char_atom|].
  destruct (_ && _).
  { eapply Tot_bind; [by apply unicode_property_ok|]. intros [cr q] Hq. eapply class_atom_at; [exact Hq|lia]. }
  destruct (_ && _ && _).
  { eapply Tot_bind; [by apply string_disjunction_ok|]. intros [cr q] Hq. eapply class_atom_at; [exact Hq|lia]. }
  eapply Tot_conseq; [by apply default_escape_ok|]. rewrite Ep. apply char_atom.
Qed.

(** ** Elements of a class *)
Lemma interval_cr_ok c1 c2 cr : char_ok c1 -> char_ok c2 -> c1 <= c2 -> cr_points cr = [c1; u32 (c2 + 1)] -> cr_ok cr.
Proof. intros H1 H2 Hle E. destruct (interval_points c1 c2) as [? ?]; [fin|unfold UINT32_MAX; fin|]. split; by rewrite E. Qed.
Lemma add_range_ok cr c1 c2 : sl_ok cr -> char_ok c1 -> char_ok c2 -> c1 <= c2 -> Tot (class_add_range cr c1 c2) sl_ok.
Proof.
  intros Hcr Hc1 Hc2 Hle. unfold class_add_range. eapply Tot_bind; [apply Tot_get|]. intros s _.
  destruct (s_ignore_case s); [|apply Tot_or_oom; by apply union_interval_ok; [|fin|unfold UINT32_MAX; fin]].
  eapply Tot_bind; [apply (Tot_mem _ (fun r => r.2 = true -> cr_ok r.1))|].
  { intros n Ht. destruct (cr_add_interval_spec (env_realloc n) cr_init c1 (u32 (c2 + 1))) as [_ Hp]. by eapply interval_cr_ok, Hp. }
  intros [cr2 []] H2; cbn [negb]; [|auto with tot]. specialize (H2 eq_refl). cbn [fst] in H2.
  eapply Tot_bind; [apply (Tot_mem _ (fun o => exists cr' r, o = Some (cr', r) /\ (r = true -> cr_ok cr'))); intros; by apply canonicalize_total|].
  intros o (cr3 & r & -> & H3). eapply Tot_bind; [apply (Tot_option _ (fun x => x = (cr3, r))); eauto|]. intros ? ->.
  destruct r; cbn [negb]; [|auto with tot]. destruct (H3 eq_refl) as [Hw3 Hr3].
  eapply Tot_bind; [apply (Tot_mem _ (fun r => r.2 = true -> cr_ok r.1))|].
  { intros n. destruct (cr_op1 _ _ _ _) as [cr4 r] eqn:E4. cbn. intros ->. eapply cr_op1_ok; [apply Hcr|exact Hw3|exact Hr3|exact E4]. }
  intros [cr4 []] H4; [|auto with tot]. apply Tot_ret, set_cr_ok; [done|by apply H4].
Qed.
Lemma add_atom_ok p cr c1 q cr1 : sl_ok cr -> atom_at p (c1, q, cr1) -> Tot (class_add_atom cr c1 cr1) sl_ok.
Proof.
  intros Hcr (_ & _ & Ha). unfold class_add_atom. destruct (Z.leb_spec CLASS_RANGE_BASE c1) as [Hge|Hlt].
  - destruct Ha as [Hc|(sl & _ & -> & Hsl)]; [fin|]. by apply Tot_or_oom, list_op_ok.
  - destruct Ha as [Hc|(sl & Hge & _)]; [|fin]. eapply Tot_bind; [by apply canonicalize_if_ok|]. intros d [Hd1 Hd2]%char_interval.
    by apply Tot_or_oom, union_interval_ok.
Qed.
(** A list, a pointer further on, and [is_first] *)
Definition item_at (p : Z) (r : REStringList * Z * bool) : Prop := class_at p r.1.
Lemma class_item_ok cr p first : sl_ok cr -> ins p -> Tot (class_item cr p first) (item_at p).
Proof.
  intros Hcr Hp. unfold class_item. eapply Tot_bind; [by apply get_class_atom_ok|]. intros [[c1 p1] cr1] Ha. pose proof Ha as (Hp1 & Hi1 & Hc1).
  set (atom := pbind (class_add_atom _ _ _) _). assert (Tot atom (item_at p)) as Hatom.
  { eapply Tot_bind; [by eapply add_atom_ok|]. intros cr2 Hcr2. by apply Tot_ret. }
  assert (Tot (if env_is_unicode then invalid_class_range else atom) (item_at p)) as Hrange.
  { destruct env_is_unicode; [unfold invalid_class_range; auto with tot|done]. }
  eapply Tot_bind; [by apply Tot_rd|]. intros b (_ & _ & Hn). destruct (Z.eqb_spec b 45); cbn [negb]; [|done]. specialize (Hn ltac:(lia)).
  eapply Tot_bind; [by apply Tot_rd|]. intros b1 _. destruct (b1 =? 93); [done|]. destruct (_ && _ && _); [done|].
  destruct (Z.leb_spec CLASS_RANGE_BASE c1); [done|]. eapply Tot_bind; [by apply get_class_atom_ok|]. intros [[c2 p2] cr2] (Hp2 & Hi2 & Hc2).
  destruct (Z.leb_spec CLASS_RANGE_BASE c2); [done|]. destruct (Z.ltb_spec c2 c1); [unfold invalid_class_range; auto with tot|].
  destruct Hc1 as [Hc1|(? & ? & _)]; [|lia]. destruct Hc2 as [Hc2|(? & ? & _)]; [|lia].
  eapply Tot_bind; [by apply add_range_ok|]. intros cr3 Hcr3. apply Tot_ret. split; [done|]. cbn. split; [lia|done].
Qed.
Lemma at_set_op_ok op p : ins p -> Tot (at_set_op op p) (fun b => b = true -> ins (p + 2)).
Proof.
  intros Hp. unfold at_set_op. set (c := match op with CR_OP_INTER => 38 | _ => 45 end). assert (c <> 0) as Hc by (by destruct op).
  cbv zeta. eapply Tot_bind; [by apply Tot_rd|]. intros b (_ & _ & Hn). destruct (Z.eqb_spec b c) as [->|]; cbn [negb]; [|by apply Tot_ret].
  specialize (Hn Hc). eapply Tot_bind; [by apply Tot_rd|]. intros b1 (_ & _ & Hn1). destruct (Z.eqb_spec b1 c) as [->|]; cbn [negb]; [|by apply Tot_ret].
  specialize (Hn1 Hc). replace (p + 1 + 1) with (p + 2) in Hn1 by lia. destruct op; try (by apply Tot_ret).
  eapply Tot_bind; [by apply Tot_rd|]. intros. by apply Tot_ret.
Qed.

(** ** Nested classes *)
Section Nested.
Context (nested : Z -> P (REStringList * Z)) (p0 : Z).
Context (Hnested : forall p, p0 < p -> ins p -> ins (p + 1) -> Tot (nested p) (class_at p)).
Lemma set_operand_ok p : p0 < p -> ins p -> Tot (re_parse_class_set_operand nested p) (class_at p).
Proof.
  intros Hlt Hp. unfold re_parse_class_set_operand. eapply Tot_bind; [by apply Tot_rd|]. intros b (_ & _ & Hn).
  destruct (Z.eqb_spec b 91); [apply Hnested; [done|done|apply Hn; lia]|]. eapply Tot_bind; [by apply get_class_atom_ok|].
  intros [[c1 p1] cr] (Hp1 & Hi1 & Hc). destruct (Z.ltb_spec c1 CLASS_RANGE_BASE).
  - destruct Hc as [Hc|(? & ? & _)]; [|lia]. eapply Tot_bind; [by apply canonicalize_if_ok|]. intros d [Hd1 Hd2]%char_interval.
    eapply Tot_bind; [by apply Tot_or_fail, union_interval_ok; [apply empty_list_ok|..]|]. intros cr1 Hcr1. by apply Tot_ret.
  - destruct Hc as [Hc|(sl & _ & -> & Hsl)]; [fin|]. by apply Tot_ret.
Qed.
(** Before the bracket that closes the class *)
Definition close_at (p : Z) (r : REStringList * Z) : Prop := sl_ok r.1 /\ p <= r.2 /\ ins r.2 /\ ins (r.2 + 1).
Lemma close_at_mono p q r : p <= q -> close_at q r -> close_at p r.
Proof. intros Hle (? & ? & ? & ?). split_and!; done || lia. Qed.
Lemma set_op_loop_ok op fuel : op <> CR_OP_XOR -> forall cr p, sl_ok cr -> p0 < p -> ins p -> L - p < Z.of_nat fuel ->
  Tot (set_op_loop nested fuel op cr p) (close_at p).
Proof.
  intros Hop. induction fuel as [|fuel IH]; intros cr p Hcr Hlt Hp Hf; [fin|]. cbn [set_op_loop]. eapply Tot_bind; [by apply Tot_rd|].
  intros b (_ & _ & Hn). destruct (Z.eqb_spec b 93).
  { apply Tot_ret. split_and!; [done|cbn; lia|done|]. apply Hn. lia. }
  eapply Tot_bind; [by apply at_set_op_ok|]. intros [] Hop2; cbn [negb]; [|auto with tot]. specialize (Hop2 eq_refl).
  eapply Tot_bind; [by apply set_operand_ok; [lia|]|]. intros [cr1 q] (Hcr1 & Hq & Hiq). cbn [fst snd] in *.
  eapply Tot_bind; [by apply Tot_or_oom, list_op_ok|]. intros cr2 Hcr2. eapply Tot_conseq; [apply IH; [done|lia|done|lia]|].
  intros r. apply close_at_mono. lia.
Qed.
Lemma class_loop_ok fuel : forall cr p first, sl_ok cr -> p0 < p -> ins p -> L - p < Z.of_nat fuel ->
  Tot (class_loop nested fuel cr p first) (close_at p).
Proof.
  induction fuel as [|fuel IH]; intros cr p first Hcr Hlt Hp Hf; [fin|]. cbn [class_loop]. eapply Tot_bind; [by apply Tot_rd|].
  intros b (_ & _ & Hn). destruct (Z.eqb_spec b 93).
  { apply Tot_ret. split_and!; [done|cbn; lia|done|]. apply Hn. lia. }
  eapply (Tot_bind _ _ (item_at p)).
  { destruct (_ && _) eqn:Eb; [apply andb_true_iff in Eb as [Eb%Z.eqb_eq _]|by apply class_item_ok].
    eapply Tot_bind; [apply Hnested; [done|done|apply Hn; lia]|]. intros [cr1 q] (Hcr1 & Hq & Hiq). cbn [fst snd] in *.
    eapply Tot_bind; [by apply Tot_or_oom, list_op_ok|]. intros cr2 Hcr2. by apply Tot_ret. }
  intros [[cr1 p1] first1] (Hcr1 & Hp1 & Hi1). cbn [fst snd] in *.
  eapply (Tot_bind _ _ (fun r => sl_ok r.1 /\ p1 <= r.2 /\ ins r.2)).
  { assert (Tot (pret (cr1, p1)) (fun r => sl_ok r.1 /\ p1 <= r.2 /\ ins r.2)) as Hsame by (apply Tot_ret; cbn; split_and!; done || lia).
    assert (forall op, op <> CR_OP_XOR -> Tot (set_op_loop nested (length env_text) op cr1 p1) (fun r => sl_ok r.1 /\ p1 <= r.2 /\ ins r.2)) as Hops.
    { intros op Hop. eapply Tot_conseq; [apply set_op_loop_ok; [done|done|lia|done|rewrite Htext, text_nul_length; fin]|]. by intros r (? & ? & ? & _). }
    destruct (env_unicode_sets && first1); [|done]. eapply Tot_bind; [by apply at_set_op_ok|]. intros [] _; [by apply Hops|].
    eapply Tot_bind; [by apply at_set_op_ok|]. intros [] _; [by apply Hops|done]. }
  intros [cr2 p2] (Hcr2 & Hp2 & Hi2). cbn [fst snd] in *. eapply Tot_conseq; [apply IH; [done|lia|done|lia]|]. intros r. apply close_at_mono. lia.
Qed.
End Nested.
Lemma nested_class_ok fuel : forall p, ins p -> ins (p + 1) -> L - p < Z.of_nat fuel -> Tot (re_parse_nested_class fuel p) (class_at p).
Proof.
  induction fuel as [|fuel IH]; intros p Hp Hp1 Hf; [fin|]. cbn [re_parse_nested_class]. eapply Tot_bind; [apply Tot_stack|]. intros _ _.
  eapply Tot_bind; [by apply Tot_rd|]. intros b (_ & _ & Hn). cbv zeta. set (q := if b =? 94 then p + 2 else p + 1).
  assert (p < q /\ ins q) as [Hq Hiq].
  { unfold q. destruct (Z.eqb_spec b 94); [|split; [lia|done]]. specialize (Hn ltac:(lia)). replace (p + 1 + 1) with (p + 2) in Hn by lia. split; [lia|done]. }
  eapply Tot_bind; [apply (class_loop_ok _ p); [|apply empty_list_ok|done|done|rewrite Htext, text_nul_length; fin]|].
  { intros p1 Hlt Hi1 Hi1'. apply IH; [done|done|lia]. }
  intros [cr r] (Hcr & Hr & Hir & Hir1). cbn [fst snd] in *. eapply (Tot_bind _ _ sl_ok).
  { destruct (b =? 94); [|by apply Tot_ret]. destruct (negb _); [auto with tot|]. by apply Tot_or_oom, invert_ok. }
  intros cr1 Hcr1. apply Tot_ret. split; [done|]. cbn. split; [lia|done].
Qed.
End Class.
