(* ===== verification/RegexpUnicode.v ===== *)
(** * The database of properties of the compiler

    libunicode.c behind the class [UnicodeDb] of RegexpParse.v, and the proof
    that it keeps the laws which the compiler of regular expressions relies on.
    The functions are those of UnicodeSets.v and UnicodeSequences.v: where
    [unicode_script] does not return, for lack of memory, neither does the
    instance; the other three always return, by the theorems used here. *)
From S2P Require Import Prelude Sort SortProps Cutils Utf8 CharRange CharRangeProps UnicodeTables UnicodeData UnicodeCase UnicodeCaseProps UnicodeCaseMem.
From S2P Require Import UnicodeProp UnicodeSets UnicodeSetsProps UnicodeNamed UnicodeSequences UnicodeSequencesProps.
From S2P Require Import Regexp RegexpSim RegexpUndo RegexpSearch RegexpRange RegexpType RegexpRegs RegexpParse RegexpCompile.
From S2P Require Import RegexpBlock RegexpMono RegexpTyped RegexpText RegexpTotal RegexpSets RegexpStrings RegexpClass.

Definition returned (cr : CharRange) (o : option (CharRange * Z)) : CharRange * Z := default (cr, -1) o.
Definition libunicode : UnicodeDb := {|
  unicode_script := UnicodeSets.unicode_script;
  unicode_general_category ok cr v := returned cr (UnicodeSets.unicode_general_category ok cr v);
  unicode_prop ok cr v := returned cr (UnicodeSets.unicode_prop ok cr v);
  unicode_sequence_prop ok v :=
    match UnicodeSequences.unicode_sequence_prop ok v cr_init with Some (l, _, r) => (l, r) | None => ([], -1) end;
|}.

Lemma answers_set_result ok o set : set_answers ok o set -> set_result (returned cr_init o).
Proof.
  intros (cr & r & -> & Hr & _ & Hh). cbn. destruct Hr as [->| ->]; [left; split; [done|by apply Hh]|by right; left].
Qed.
Lemma script_result ok v ext r : UnicodeSets.unicode_script ok cr_init v ext = Some r -> set_result r.
Proof.
  intros Er. destruct (unicode_find_name_spec unicode_script_name_table v) as [[E _]|[Hi _]].
  - unfold UnicodeSets.unicode_script in Er. rewrite E in Er. injection Er as <-. by right; right.
  - pose proof (unicode_script_builds ok v ext (proj1 Hi)) as H. cbv zeta in H.
    rewrite Er in H. destruct r as [cr r], H as [-> [Hk _]]. by left.
Qed.
Lemma category_result ok v : set_result (returned cr_init (UnicodeSets.unicode_general_category ok cr_init v)).
Proof.
  destruct (unicode_find_name_spec unicode_gc_name_table v) as [[E _]|[Hi _]].
  - unfold UnicodeSets.unicode_general_category. rewrite E. by right; right.
  - eapply answers_set_result, unicode_general_category_answers, Hi.
Qed.
Lemma prop_result ok v : set_result (returned cr_init (UnicodeSets.unicode_prop ok cr_init v)).
Proof.
  destruct (unicode_prop_cases ok v) as [->|[set Ha]]; [by right; right|]. by eapply answers_set_result.
Qed.
#[export] Instance libunicode_laws : @UnicodeDbLaws libunicode.
Proof.
  split; [exact script_result|exact category_result|exact prop_result|]. intros ok v. cbn.
  destruct (sequence_prop_cases ok v cr_init eq_refl) as [->|(l & cr & r & -> & Hl & _)]; [constructor|].
  cbn. eapply Forall_impl; [exact Hl|]. intros seq [_ Hs]. exact Hs.
Qed.

(** ** When memory is there
    [unicode_script] asks for less than 2^24 bytes at a time, so it returns as
    soon as such requests are granted. *)
Definition N : Z := 0x110010.
Lemma add_interval_granted ok cr c1 c2 : grants ok -> cr_len cr + 2 <= N -> cr_add_interval ok cr c1 c2 = cr_add_interval every_size cr c1 c2.
Proof.
  unfold N, cr_len. intros Hg Hl. unfold cr_add_interval, cr_realloc, cr_len. destruct (Z.ltb_spec (cr_size cr) (Z.of_nat (length (cr_points cr)) + 2)); [|done].
  rewrite (Hg (_ * 4)); [done|]. pose proof (Z.mul_div_le (cr_size cr * 3) 2 ltac:(lia)). lia.
Qed.
Lemma add_if_length b ok cr c c1 : cr_len (add_if ok b cr c c1).1 <= cr_len cr + 2.
Proof.
  destruct b; cbn; [|lia]. unfold cr_add_interval. destruct (cr_realloc_spec ok cr (cr_len cr + 2)) as [Hp _]. unfold cr_len in *.
  destruct (_ <? _); [destruct (cr_realloc _ _ _) as [cr1 []]|]; cbn in *; rewrite ?length_app, ?Hp; cbn [length]; lia.
Qed.
Section Runs.
Context {V : Type} (decode : list Z -> option (Z * V * list Z)) (hit : V -> bool).
Lemma run_loop_granted ok : grants ok -> forall fuel p cr c, cr_len cr + 2 * Z.of_nat fuel <= N ->
  run_loop decode (fun cr v => add_if ok (hit v) cr) fuel p cr c = run_loop decode (fun cr v => add_if every_size (hit v) cr) fuel p cr c /\
  match run_loop decode (fun cr v => add_if every_size (hit v) cr) fuel p cr c with Some r => cr_len r.1 <= cr_len cr + 2 * Z.of_nat fuel | None => True end.
Proof.
  intros Hg. induction fuel as [|fuel IH]; intros p cr c Hl; destruct p as [|b p]; cbn [run_loop]; try (split; [done|cbn; lia]).
  destruct (decode (b :: p)) as [[[n v] p']|]; bind; [|done].
  assert (add_if ok (hit v) cr c (u32 (c + n + 1)) = add_if every_size (hit v) cr c (u32 (c + n + 1))) as ->.
  { unfold add_if. destruct (hit v); [|done]. apply add_interval_granted; [done|lia]. }
  pose proof (add_if_length (hit v) every_size cr c (u32 (c + n + 1))) as Hlen. destruct (add_if _ _ _ _ _) as [cr1 []]; cbn [negb fst] in *; [|split; [done|cbn; lia]].
  destruct (IH p' cr1 (u32 (c + n + 1)) ltac:(lia)) as [-> Hr]. split; [done|]. destruct (run_loop _ _ _ _ _ _); [lia|done].
Qed.
End Runs.
Lemma compress_loop_length fuel : forall pt len i k, length (compress_loop fuel pt len i k).1 = length pt.
Proof.
  induction fuel as [|fuel IH]; intros; cbn [compress_loop]; [done|]. destruct (_ <? _)%nat; [|done]. destruct (_ =? _); [apply IH|].
  cbv zeta. by rewrite IH, !length_insert.
Qed.
Lemma compress_length cr : cr_len (cr_compress cr) <= cr_len cr.
Proof.
  unfold cr_compress, cr_len. pose proof (compress_loop_length (length (cr_points cr)) (cr_points cr) (length (cr_points cr)) 0 0) as H.
  destruct (compress_loop _ _ _ _ _) as [pt k]. cbn in *. rewrite length_take. lia.
Qed.
Lemma invert_granted ok cr : grants ok -> cr_len cr + 2 <= N -> cr_invert ok cr = cr_invert every_size cr /\ cr_len (cr_invert every_size cr).1 <= cr_len cr + 2.
Proof.
  unfold N. intros Hg Hl. unfold cr_invert, cr_realloc. destruct (Z.ltb_spec (cr_size cr) (cr_len cr + 2)) as [Hlt|]; cbn [every_size].
  - rewrite (Hg (_ * 4)). 2:{ pose proof (Z.mul_div_le (cr_size cr * 3) 2 ltac:(lia)). lia. }
    split; [done|]. cbn [fst cr_points]. etrans; [apply compress_length|]. unfold cr_len. cbn [cr_points]. rewrite !length_app. cbn [length]. lia.
  - split; [done|]. cbn [fst]. etrans; [apply compress_length|]. unfold cr_len. cbn [cr_points]. rewrite !length_app. cbn [length]. lia.
Qed.
Lemma op_granted ok cr a b op : grants ok -> cr_points cr = [] -> Z.of_nat (length a) + Z.of_nat (length b) + 1 <= N ->
  cr_op ok cr a b op = cr_op every_size cr a b op.
Proof. unfold N. intros Hg Hc Hl. unfold cr_op. rewrite (op_loop_granted ok a b op 0x110010 Hg); [done|lia|]. rewrite Hc. cbn [length]. lia. Qed.
(** The same set, with at most [n] points *)
Definition same_set (n : Z) (m m' : option CharRange) : Prop := m = m' /\ match m' with Some cr => cr_len cr <= n | None => True end.
Lemma same_set_bind {A} n m m' (k k' : CharRange -> option A) : same_set n m m' -> (forall cr, cr_len cr <= n -> k cr = k' cr) ->
  (cr ← m; k cr) = (cr ← m'; k' cr).
Proof. intros [-> Hm] Hk. destruct m' as [cr|]; [|done]. bind. by apply Hk. Qed.
Lemma same_set_some n cr : cr_len cr <= n -> same_set n (Some cr) (Some cr).
Proof. by split. Qed.
Lemma same_set_invert ok cr n : grants ok -> cr_len cr <= n -> n + 2 <= N ->
  same_set (n + 2) (ok_or_fail (cr_invert ok cr)) (ok_or_fail (cr_invert every_size cr)).
Proof.
  intros Hg Hl Hn. destruct (invert_granted ok cr Hg ltac:(lia)) as [-> Hi]. split; [done|]. unfold ok_or_fail. destruct (cr_invert _ _) as [cr' []]; cbn in *; [lia|done].
Qed.
Lemma same_set_op ok cr a b op n n' : grants ok -> cr_points cr = [] -> Z.of_nat (length a) <= n -> Z.of_nat (length b) <= n' -> n + n' + 1 <= N ->
  ok_or_fail (cr_op ok cr a b op) = ok_or_fail (cr_op every_size cr a b op).
Proof. intros Hg Hc Ha Hb Hn. by rewrite (op_granted ok) by (done || lia). Qed.
Lemma runs_bind {V A} decode (hit : V -> bool) table ok n (k k' : CharRange -> option A) : grants ok -> length table = n -> 2 * Z.of_nat n <= N ->
  (forall cr, cr_len cr <= 2 * Z.of_nat n -> k cr = k' cr) ->
  (r ← run_loop decode (fun cr v => add_if ok (hit v) cr) (length table) table cr_init 0; cr ← ok_or_fail r; k cr) =
  (r ← run_loop decode (fun cr v => add_if every_size (hit v) cr) (length table) table cr_init 0; cr ← ok_or_fail r; k' cr).
Proof.
  intros Hg <- Hn Hk. destruct (run_loop_granted decode hit ok Hg (length table) table cr_init 0) as [-> Hl]; [change (cr_len cr_init) with 0; lia|].
  destruct (run_loop _ _ _ _ _ _) as [[cr []]|]; bind; [|done|done]. unfold ok_or_fail. cbn [fst snd] in *. bind. apply Hk. change (cr_len cr_init) with 0 in Hl. lia.
Qed.
Lemma script_granted ok v ext : grants ok -> UnicodeSets.unicode_script ok cr_init v ext = UnicodeSets.unicode_script every_size cr_init v ext.
Proof.
  intros Hg. unfold UnicodeSets.unicode_script, script_loop, script_ext_loop. set (idx := unicode_find_name _ v). destruct (idx <? 0); [done|].
  cbv zeta. replace (if ext then cr_init else cr_init) with cr_init by by destruct ext. fold (is_common idx).
  apply (runs_bind script_run (script_hit idx) unicode_script_table ok 2818); [done|by vm_compute|unfold N; lia|]. intros cr Hl.
  apply (same_set_bind (2 * 2818 + 2)).
  { destruct (idx =? _); [apply same_set_invert; [done|lia|unfold N; lia]|]. apply same_set_some. lia. }
  clear cr Hl. intros cr1 Hl1. destruct ext; [|done].
  apply (runs_bind script_ext_run (script_ext_hit idx (is_common idx)) unicode_script_ext_table ok 1278); [done|by vm_compute|unfold N; lia|]. intros cr2 Hl2.
  apply (f_equal (fun o => cr ← o; Some (cr, 0))). destruct (is_common idx).
  - apply (same_set_bind (2 * 1278 + 2)); [apply same_set_invert; [done|lia|unfold N; lia]|]. intros cr3 Hl3.
    apply (same_set_op _ _ _ _ _ (2 * 2818 + 2) (2 * 1278 + 2)); [done|done|done|done|unfold N; lia].
  - apply (same_set_op _ _ _ _ _ (2 * 2818 + 2) (2 * 1278)); [done|done|done|done|unfold N; lia].
Qed.
Lemma script_returns ok v ext : grants ok -> UnicodeSets.unicode_script ok cr_init v ext <> None.
Proof.
  intros Hg E. rewrite script_granted in E by done. destruct (unicode_find_name_spec unicode_script_name_table v) as [[En _]|[Hi _]].
  - unfold UnicodeSets.unicode_script in E. by rewrite En in E.
  - pose proof (unicode_script_builds every_size v ext (proj1 Hi)) as H. cbv zeta in H. rewrite E in H. by apply H.
Qed.
