(* ===== verification/RegexpTerms.v ===== *)
(** * Running the compiler: terms and disjunctions

    Every function of the parser, from the atoms to [re_parse_disjunction]:
    from a pointer inside the text it ends with a pointer inside the text that
    has moved forward, or with an error, unless a call of [unicode_script] does
    not return, and goes wrong only when memory was refused for the bytecode or
    for the names. *)
From S2P Require Import Prelude Sort SortProps Cutils Utf8 CharRange CharRangeProps UnicodeTables UnicodeCase UnicodeCaseProps UnicodeCaseMem UnicodeProp.
From S2P Require Import Regexp RegexpSim RegexpUndo RegexpSearch RegexpRange RegexpType RegexpRegs RegexpParse RegexpCompile.
From S2P Require Import RegexpBlock RegexpMono RegexpTyped RegexpText RegexpTotal RegexpSets RegexpStrings RegexpClass.

(** Steps over a function that always returns. *)
Ltac skip_sure := apply wp_bind; [mono|]; apply wp_sure; [sure|]; intros ? ? _ _.

Lemma wp_bind_option `{ReEnv} `{UnicodeDb} {A B} s (o : option A) a (k : A -> P B) Q : o = Some a -> wp s (k a) Q -> wp s (pbind (of_option o) k) Q.
Proof. by intros ->. Qed.

(** ** The names of the groups *)
Definition name_entry (e : list Z * Z) : list Z := e.1 ++ [0; e.2].
Lemma entries_list l : entries l -> exists es, Forall (fun e => Forall name_byte e.1) es /\ l = concat (map name_entry es).
Proof.
  induction 1 as [|l name scope Hl (es & Hes & ->) Hn]; [by exists []|]. exists (es ++ [(name, scope)]). split.
  - apply Forall_app. split; [done|]. by constructor.
  - rewrite map_app, concat_app. cbn. by rewrite app_nil_r.
Qed.
Lemma strlen_entry name rest : Forall name_byte name -> strlen_at (name ++ 0 :: rest) = Some (name, rest).
Proof.
  induction 1 as [|b name Hb Hn IH]; cbn; [done|]. rewrite (proj2 (Z.eqb_neq b 0)) by (unfold name_byte in Hb; lia). by rewrite IH.
Qed.
Lemma group_entries_total es : forall fuel, Forall (fun e => Forall name_byte e.1) es -> (length (concat (map name_entry es)) <= fuel)%nat ->
  group_entries fuel (concat (map name_entry es)) = Some (map (fun e => (e.1, Some e.2)) es).
Proof.
  induction es as [|[name scope] es IH]; intros fuel Hes Hf; [by destruct fuel|]. apply Forall_cons in Hes as [Hn Hes].
  cbn [map concat] in *. unfold name_entry at 1 in Hf. unfold name_entry at 1. cbn [fst snd] in *. rewrite <- app_assoc in *. cbn [app] in *.
  rewrite length_app in Hf. cbn [length] in Hf. destruct fuel as [|fuel]; [lia|].
  assert (exists x l, name ++ 0 :: scope :: concat (map name_entry es) = x :: l) as (x & l & E) by (destruct name; cbn; eauto).
  rewrite E. cbn [group_entries]. rewrite <- E, strlen_entry by done. bind. cbn [drop head]. rewrite IH; [|done|lia]. by bind.
Qed.
Lemma scope_in_total name scope es : exists b, scope_in (map (fun e : list Z * Z => (e.1, Some e.2)) es) name scope = Some b.
Proof.
  induction es as [|[n c] es IH]; cbn [map scope_in]; [eauto|]. destruct (bool_decide _); [|done]. bind. destruct (_ =? _); [eauto|done].
Qed.
Lemma wp_group_list `{ReEnv} `{UnicodeDb} s (Q : list (list Z * option Z) -> REParseState -> Prop) :
  (forall es, Q (map (fun e : list Z * Z => (e.1, Some e.2)) es) s) -> (forall es, bad s -> Q es s) -> wp s group_list Q.
Proof.
  intros HQ Hbad. apply wp_pre. intros [_ _ (_ & _ & _ & _ & _ & Hn)]. unfold group_list. apply wp_bind; [mono|]. apply wp_get. intros _. cbv zeta.
  destruct Hn as [He|Hn]; [apply wp_option_bad; [left; by right|intros; apply Hbad; by right]|].
  apply entries_list in Hn as (es & Hes & ->). apply wp_option. rewrite group_entries_total by done. eauto.
Qed.
Section Names.
Context `{ReEnv} `{UnicodeDb}.
Lemma wp_find_name name s (Q : list Z -> REParseState -> Prop) : (forall l, Q l s) -> wp s (find_group_name name) Q.
Proof.
  intros HQ. unfold find_group_name. apply wp_bind; [apply Quiet_Mono, Quiet_group_list|]. apply wp_group_list; [intros es _|intros es _ _]; by apply wp_ret, HQ.
Qed.
Lemma wp_duplicate name scope s (Q : bool -> REParseState -> Prop) : (forall b, Q b s) -> wp s (is_duplicate_group_name name scope) Q.
Proof.
  intros HQ. unfold is_duplicate_group_name. apply wp_bind; [apply Quiet_Mono, Quiet_group_list|]. apply wp_group_list.
  - intros es _. apply wp_option. destruct (scope_in_total name scope es) as [b Eb]. eauto.
  - intros es Hb _. apply wp_option_bad; [by left|auto].
Qed.
End Names.

Section Terms.
Context `{ReEnv} `{UnicodeDb}.
Context (Hmem : forall n size, env_realloc n size = true -> size < 2 ^ 34).
Context (buf : list Z) (Hbuf : Forall text_byte buf) (Htext : env_text = buf ++ [0]).
Context {Hlaws : UnicodeDbLaws} (Hseq : env_unicode_sets = true -> unions_succeed).
#[local] Abbreviation ins := (inside buf).
#[local] Abbreviation L := (Z.of_nat (length buf)).
#[local] Ltac fin := unfold inside, text_byte, char_ok, CLASS_RANGE_BASE in *; lia.
#[local] Abbreviation Tot_rd := (Tot_rd buf Hbuf Htext).

(** ** Counting the captures *)
Lemma skip_class_total fuel : forall p, 0 <= p -> L - p < Z.of_nat fuel -> (0 < fuel)%nat -> exists q, skip_class fuel p = Some q /\ p <= q.
Proof.
  induction fuel as [|fuel IH]; intros p Hp Hf Hf0; [lia|]. cbn [skip_class]. rewrite (buf_end_L buf Htext).
  destruct (Z.ltb_spec p L); [|exists p; split; [done|lia]]. rewrite Htext. destruct (read_inside buf Hbuf p ltac:(fin)) as (c & -> & _ & _). bind.
  destruct (c =? 93); [exists p; split; [done|lia]|].
  destruct (IH (if c =? 92 then p + 2 else p + 1)) as (q & -> & Hq); [destruct (c =? 92); lia..|]. exists q. split; [done|]. destruct (c =? 92); lia.
Qed.
Lemma captures_scan_total fuel name : forall p i named found, 0 <= p -> L - p < Z.of_nat fuel -> (0 < fuel)%nat ->
  exists r, captures_scan fuel name p i named found = Some r.
Proof.
  induction fuel as [|fuel IH]; intros p i named found Hp Hf Hf0; [lia|]. cbn [captures_scan]. rewrite (buf_end_L buf Htext). cbv zeta.
  destruct (Z.ltb_spec p L) as [Hlt|]; [|eauto].
  assert (forall q, p < q -> exists r, captures_scan fuel name q i named found = Some r) as Hskip by (intros q Hq; apply IH; lia).
  assert (forall q j nm fd, p < q -> exists r, (if CAPTURE_COUNT_MAX <=? j then Some (nm, fd, j) else captures_scan fuel name q j nm fd) = Some r) as Hnext.
  { intros q j nm fd Hq. destruct (_ <=? _); [eauto|]. apply IH; lia. }
  rewrite Htext. destruct (read_inside buf Hbuf p ltac:(fin)) as (c & -> & _ & _). bind.
  destruct (c =? 40).
  { destruct (read_inside buf Hbuf (p + 1) ltac:(fin)) as (c1 & -> & _ & Hn1). bind. destruct (Z.eqb_spec c1 63); [|apply Hnext; lia].
    specialize (Hn1 ltac:(lia)). replace (p + 1 + 1) with (p + 2) in Hn1 by lia.
    destruct (read_inside buf Hbuf (p + 2) Hn1) as (c2 & -> & _ & Hn2). bind. destruct (Z.eqb_spec c2 60); [|apply Hskip; lia].
    specialize (Hn2 ltac:(lia)). replace (p + 2 + 1) with (p + 3) in Hn2 by lia.
    destruct (read_inside buf Hbuf (p + 3) Hn2) as (c3 & -> & _ & _). bind. destruct (_ || _); [apply Hskip; lia|].
    destruct name as [name|]; [|apply Hnext; lia]. destruct (group_name_inside buf Hbuf (p + 3) Hn2) as (r & -> & Hr). bind.
    destruct r as [[n1 q]|]; [apply Hnext; destruct Hr; lia|apply Hnext; lia]. }
  destruct (c =? 92); [apply Hskip; lia|]. destruct (c =? 91); [|apply Hskip; lia].
  destruct (skip_class_total (length (buf ++ [0])) (p + 1)) as (q & -> & Hq); [lia|rewrite text_nul_length; lia|rewrite text_nul_length; lia|].
  bind. apply Hskip. lia.
Qed.
Lemma Tot_captures_of name : Tot (captures_of name) (fun _ => True).
Proof.
  apply Tot_option. destruct (captures_scan_total (S (length env_text)) name 0 1 false []) as [r Hr]; [lia|rewrite Htext, text_nul_length; lia|lia|]. eauto.
Qed.
Lemma Tot_set_captures a b c : Tot (set_captures a b c) (fun _ => True).
Proof. by intros s. Qed.
Lemma Tot_count_captures : Tot re_count_captures (fun _ => True).
Proof.
  eapply Tot_bind; [apply Tot_get|]. intros s _. destruct (_ <? _); [|by apply Tot_ret]. eapply Tot_bind; [apply Tot_captures_of|]. intros [[named l] n] _.
  eapply Tot_bind; [apply Tot_set_captures|]. intros. by apply Tot_ret.
Qed.
Lemma Tot_has_named : Tot re_has_named_captures (fun _ => True).
Proof.
  eapply Tot_bind; [apply Tot_get|]. intros s _. eapply (Tot_bind _ _ (fun _ => True)); [destruct (_ <? _); [apply Tot_count_captures|by apply Tot_ret]|].
  intros _ _. eapply Tot_bind; [apply Tot_get|]. intros. by apply Tot_ret.
Qed.

(** ** Atoms *)
Definition atom_end (p : Z) (a : atom) (_ : REParseState) : Prop := p < a.1.1 /\ ins a.1.1.
Lemma wp_rd p s (Q : Z -> REParseState -> Prop) : ins p -> (forall c, read_at buf p c -> Q c s) -> wp s (rd p) Q.
Proof.
  intros Hp HQ. unfold rd. apply wp_option. rewrite Htext. destruct (read_inside buf Hbuf p Hp) as (c & Ec & Hc & Hn). exists c. split; [done|]. by apply HQ.
Qed.
Lemma wp_normal_char b p c cr s p0 : p0 < p -> ins p -> char_ok c \/ (exists sl, CLASS_RANGE_BASE <= c /\ cr = Some sl /\ sl_ok sl) ->
  wp s (term_normal_char b p c cr) (atom_end p0).
Proof.
  intros Hlt Hp Hc. unfold term_normal_char. apply wp_bind; [mono|]. apply wp_sure; [sure|]. intros [start captures] s1 _ _.
  apply wp_bind; [mono|]. apply wp_sure; [sure|]. intros _ s2 _ _. apply wp_bind; [destruct (_ <=? _); [destruct cr|]; mono|].
  apply (wp_conseq _ _ (fun _ _ => True)).
  { destruct (Z.leb_spec CLASS_RANGE_BASE c).
    - destruct Hc as [Hc|(sl & _ & -> & Hsl)]; [fin|]. destruct (_ =? _); [by apply wp_sure; [sure|]|]. destruct (_ =? _); [by apply wp_sure; [sure|]|].
      eapply wp_conseq; [by apply wp_string_list|done].
    - destruct Hc as [Hc|(sl & Hge & _)]; [|fin]. apply wp_bind; [mono|]. eapply wp_tot; [by apply canonicalize_if_ok|]. intros d s3 _ _. by apply wp_sure; [sure|]. }
  intros _ s3 _ _. apply wp_bind; [mono|]. apply wp_sure; [sure|]. intros _ s4 _ _. by apply wp_ret.
Qed.
Lemma wp_class_atom b p s p0 : p0 <= p -> ins p -> wp s (term_class_atom b p) (atom_end p0).
Proof.
  intros Hle Hp. unfold term_class_atom. apply wp_bind; [mono|]. eapply wp_tot; [by apply (get_class_atom_ok Hmem buf Hbuf Htext Hseq)|].
  intros [[c q] cr] s1 (Hq & Hiq & Hc) _. apply wp_normal_char; [lia|done|done].
Qed.
Lemma looks_like_count_total p : ins (p + 1) -> exists b, looks_like_count p = Some b.
Proof.
  intros Hp. unfold looks_like_count. rewrite Htext. destruct (parse_digits_inside buf Hbuf (p + 1) true Hp) as (w & q & -> & _ & Hq & _). bind.
  destruct (read_inside buf Hbuf q Hq) as (c & -> & _ & Hn). bind.
  assert (forall q, ins q -> exists b, (b ← byte_at (buf ++ [0]) q; Some (b =? 125)) = Some b) as Hend.
  { intros r Hr. destruct (read_inside buf Hbuf r Hr) as (d & -> & _ & _). bind. eauto. }
  destruct (Z.eqb_spec c 44); [|bind; by apply Hend]. specialize (Hn ltac:(lia)). destruct (read_inside buf Hbuf (q + 1) Hn) as (d & -> & _ & _). bind.
  destruct (is_digit d); [|bind; by apply Hend]. destruct (parse_digits_inside buf Hbuf (q + 1) true Hn) as (w2 & q2 & -> & _ & Hq2 & _). bind. by apply Hend.
Qed.
Lemma wp_brace b p s : ins p -> ins (p + 1) -> wp s (term_brace b p) (atom_end p).
Proof.
  intros Hp Hp1. unfold term_brace. destruct env_is_unicode; [apply wp_error|]. apply wp_bind; [mono|]. apply wp_rd; [done|]. intros c _ _.
  destruct (negb _); [by apply wp_class_atom|]. apply wp_bind; [mono|]. apply wp_option. destruct (looks_like_count_total p Hp1) as [r Er].
  exists r. split; [done|]. intros _. destruct r; [apply wp_error|by apply wp_class_atom].
Qed.
Lemma wp_named_reference b p s : ins p -> ins (p + 2) -> wp s (term_named_reference b p) (atom_end p).
Proof.
  intros Hp Hp2. unfold term_named_reference. cbv zeta.
  assert (forall msg s, wp s (let? named := (if env_is_unicode then pret true else re_has_named_captures) in
    if named : bool then re_parse_error msg else term_class_atom b p) (atom_end p)) as Hnot.
  { intros msg s1. apply wp_bind; [destruct env_is_unicode; mono|]. eapply (wp_tot _ _ (fun _ => True)).
    - destruct env_is_unicode; [by apply Tot_ret|apply Tot_has_named].
    - intros [] s2 _ _; [apply wp_error|by apply wp_class_atom]. }
  apply wp_bind; [mono|]. apply wp_rd; [done|]. intros c (_ & _ & Hn) _. destruct (Z.eqb_spec c 60); cbn [negb]; [|apply Hnot].
  specialize (Hn ltac:(lia)). replace (p + 2 + 1) with (p + 3) in Hn by lia. rewrite Htext. apply wp_bind; [mono|]. apply wp_option.
  destruct (group_name_inside buf Hbuf (p + 3) Hn) as (r & -> & Hr). eexists. split; [done|]. intros _.
  destruct r as [[name p1]|]; [|apply Hnot]. destruct Hr as [Hp1 Hi1]. apply wp_bind; [mono|]. apply wp_find_name. intros before _.
  apply wp_bind; [destruct (bool_decide _); mono|]. eapply (wp_tot _ _ (fun _ => True)).
  { destruct (bool_decide _); [apply Tot_captures_of|by apply Tot_ret]. }
  intros [[x after] y] s1 _ _. destruct (_ && _); [apply Hnot|]. apply wp_bind; [mono|]. apply wp_sure; [sure|]. intros [start captures] s2 _ _.
  do 3 skip_sure. apply wp_ret. split; [cbn; lia|done].
Qed.

Lemma octal_digit_total k p c : ins p -> 0 <= c <= k ->
  exists d q more, octal_digit p c = Some (d, q, more) /\ 0 <= d <= 8 * k + 7 /\ p <= q /\ ins q.
Proof.
  intros Hp Hc. unfold octal_digit. rewrite Htext. destruct (read_inside buf Hbuf p Hp) as (b & -> & _ & Hn). bind.
  unfold is_octal. destruct (Z.leb_spec 48 b); [destruct (Z.leb_spec b 55)|]; cbn [andb]; (eexists _, _, _; split; [done|]).
  - rewrite Z.shiftl_mul_pow2 by lia. change (2 ^ 3) with 8. split; [lia|]. split; [lia|]. apply Hn. lia.
  - split_and!; done || lia.
  - split_and!; done || lia.
Qed.
Lemma wp_zero b p s : ins p -> ins (p + 2) -> wp s (term_zero b p) (atom_end p).
Proof.
  intros Hp Hp2. unfold term_zero. cbv zeta. apply wp_bind; [mono|]. apply wp_rd; [done|]. intros c _ _. destruct env_is_unicode.
  { destruct (is_digit c); [apply wp_error|]. apply wp_normal_char; [lia|done|]. left. fin. }
  apply wp_bind; [mono|]. apply wp_option. destruct (octal_digit_total 0 (p + 2) 0 Hp2 ltac:(lia)) as (d & q & more & E & Hd & Hq & Hiq).
  eexists. split; [exact E|]. intros _. cbv beta. apply wp_bind; [destruct more; mono|].
  eapply (wp_tot _ _ (fun r => 0 <= r.1.1 <= 63 /\ p < r.1.2 /\ ins r.1.2)).
  { destruct more; [|apply Tot_ret; cbn; split_and!; done || lia]. apply Tot_option.
    destruct (octal_digit_total 7 q d Hiq ltac:(lia)) as (d2 & q2 & more2 & E2 & Hd2 & Hq2 & Hiq2). eexists. split; [exact E2|]. cbn. split_and!; done || lia. }
  intros [[d2 q2] more2] s1 (Hd2 & Hq2 & Hiq2) _. cbn [fst snd] in *. apply wp_normal_char; [done|done|]. left. fin.
Qed.
Lemma legacy_octal_total q : ins q -> (exists c, read_at buf q c /\ 49 <= c <= 57) ->
  exists c r, legacy_octal q = Some (c, r) /\ char_ok c /\ q <= r /\ ins r.
Proof.
  intros Hq (c & (Ec & _ & Hn) & Hc). unfold legacy_octal. rewrite Htext, Ec. bind. specialize (Hn ltac:(lia)).
  destruct (c <=? 55); [|exists c, (q + 1); split_and!; done || fin].
  set (first := if c <=? 51 then (c - 48, q + 1) else (0, q)). assert (0 <= first.1 <= 3 /\ q <= first.2 /\ ins first.2) as (H1 & H2 & H3).
  { unfold first. destruct (Z.leb_spec c 51); cbn; split_and!; done || lia. }
  destruct first as [c1 q1]. cbn [fst snd] in *. destruct (octal_digit_total 3 q1 c1 H3 H1) as (d & r & more & -> & Hd & Hr & Hir). bind.
  destruct more; [|exists d, r; split_and!; done || fin].
  destruct (octal_digit_total 31 r d Hir ltac:(lia)) as (d2 & r2 & more2 & -> & Hd2 & Hr2 & Hir2). bind. exists d2, r2. split_and!; done || fin.
Qed.
Lemma wp_number b p s : (exists c, read_at buf (p + 1) c /\ 49 <= c <= 57) -> ins p -> ins (p + 1) -> wp s (term_number b p) (atom_end p).
Proof.
  intros Hc Hp Hp1. unfold term_number. cbv zeta. rewrite Htext. apply wp_bind; [mono|]. apply wp_option.
  destruct (parse_digits_inside buf Hbuf (p + 1) false Hp1) as (n & q & -> & Hq & Hiq & Hn). eexists. split; [done|]. intros _.
  apply wp_bind; [mono|]. apply wp_get. intros _. apply wp_bind; [destruct (_ <? _); [|destruct (_ <=? _)]; mono|].
  eapply (wp_tot _ _ (fun _ => True)).
  { destruct (_ <? _); [by apply Tot_ret|]. destruct (_ <=? _); [|by apply Tot_ret]. eapply Tot_bind; [apply Tot_count_captures|]. intros. by apply Tot_ret. }
  intros out s1 _ _. destruct out.
  - destruct env_is_unicode; [apply wp_error|]. apply wp_bind; [mono|]. apply wp_option. destruct (legacy_octal_total (p + 1) Hp1 Hc) as (c & r & E & Hch & Hr & Hir).
    eexists. split; [exact E|]. intros _. cbv beta. apply wp_normal_char; [lia|done|by left].
  - do 1 skip_sure. destruct a as [start captures]. do 2 skip_sure. apply wp_ret. split; [cbn; lia|done].
Qed.
Lemma wp_escape b p s : ins p -> ins (p + 1) -> wp s (term_escape b p) (atom_end p).
Proof.
  intros Hp Hp1. unfold term_escape. apply wp_bind; [mono|]. apply wp_rd; [done|]. intros c Hr _. pose proof Hr as (_ & _ & Hn).
  apply wp_bind; [mono|]. apply wp_get. intros _. cbv zeta. replace (p + 1 + 1) with (p + 2) in Hn by lia.
  assert (forall m, Sure m -> Mono m -> ins (p + 2) -> wp s (let? _ := (m : P unit) in no_atom (p + 2)) (atom_end p)) as Hnone.
  { intros m Hs Hm Hi. apply wp_bind; [done|]. apply wp_sure; [done|]. intros _ s1 _ _. apply wp_ret. split; [cbn; lia|done]. }
  destruct (Z.eqb_spec c 98); [apply Hnone; [sure|mono|apply Hn; lia]|]. destruct (Z.eqb_spec c 66); [apply Hnone; [sure|mono|apply Hn; lia]|].
  destruct (Z.eqb_spec c 107); [apply wp_named_reference; [done|apply Hn; lia]|]. destruct (Z.eqb_spec c 48); [apply wp_zero; [done|apply Hn; lia]|].
  destruct (_ && _) eqn:Ed; [|by apply wp_class_atom]. apply andb_true_iff in Ed as [?%Z.leb_le ?%Z.leb_le].
  apply wp_number; [by exists c|done|done].
Qed.
Lemma wp_char_class p s : ins p -> ins (p + 1) -> wp s (re_parse_char_class p) (fun q _ => p < q /\ ins q).
Proof.
  intros Hp Hp1. unfold re_parse_char_class. apply wp_bind; [mono|]. eapply wp_tot; [apply (nested_class_ok Hmem buf Hbuf Htext Hseq); [done|done|rewrite Htext, text_nul_length; fin]|].
  intros [cr q] s1 (Hcr & Hq & Hiq) _. apply wp_bind; [mono|]. eapply wp_conseq; [by apply wp_string_list|]. intros _ s2 _ _. by apply wp_ret.
Qed.
Lemma modifiers_ok fuel : forall p mask, ins p -> L - p < Z.of_nat fuel -> Tot (modifiers_loop fuel p mask) (fun r => p <= r.2 /\ ins r.2).
Proof.
  induction fuel as [|fuel IH]; intros p mask Hp Hf; [fin|]. cbn [modifiers_loop]. eapply Tot_bind; [by apply Tot_rd|]. intros c (_ & _ & Hn). cbv zeta.
  assert (forall v, c <> 0 -> Tot (if negb (Z.land mask v =? 0)
        then re_parse_error (String.append "duplicate modifier: '" (String (Ascii.ascii_of_N (Z.to_N c)) "'"))
        else modifiers_loop fuel (p + 1) (Z.lor mask v)) (fun r => p <= r.2 /\ ins r.2)) as Hadd.
  { intros v Hc. destruct (negb _); [apply Tot_error|]. eapply Tot_conseq; [apply IH; [by apply Hn|lia]|]. cbn. intros r [? ?]. split; [lia|done]. }
  destruct (Z.eqb_spec c 105); [apply Hadd; lia|]. destruct (Z.eqb_spec c 109); [apply Hadd; lia|]. destruct (Z.eqb_spec c 115); [apply Hadd; lia|].
  apply Tot_ret. cbn. split; [lia|done].
Qed.
Lemma parse_modifiers_ok p : ins p -> Tot (re_parse_modifiers p) (fun r => p <= r.2 /\ ins r.2).
Proof. intros Hp. apply modifiers_ok; [done|]. rewrite Htext, text_nul_length. fin. Qed.

(** ** Groups

    [disj] is the parser of disjunctions, good after [p0]. *)
Definition moved (p : Z) (_ : unit) (s' : REParseState) : Prop := p <= s_buf_ptr s' /\ ins (s_buf_ptr s').
Lemma wp_grows {A} s (m : P A) (Q1 Q : A -> REParseState -> Prop) : EmitsBlock m -> wp s m Q1 ->
  (forall a s', Q1 a s' -> (err s' = false -> sz s <= sz s') -> Q a s') -> wp s m Q.
Proof.
  intros [Hm Ht] Hw HQ. eapply wp_typed; [done|exact Hw|apply Ht|]. intros a s' _ H1 Hg. apply HQ; [done|]. intros Hf.
  destruct (Hg Hf) as (b & Hc & _). unfold sz. rewrite Hc, length_app. lia.
Qed.
Section Groups.
Context (disj : bool -> P unit) (Hdisj : forall b, EmitsBlock (disj b)) (p0 : Z).
Context (Hwp : forall b s, p0 < s_buf_ptr s -> ins (s_buf_ptr s) -> wp s (disj b) (moved (s_buf_ptr s))).
Lemma rec_mono b : Mono (disj b).
Proof. apply Hdisj. Qed.
#[local] Hint Resolve rec_mono : mono.
Lemma wp_disjunction_at b p s : p0 < p -> ins p -> wp s (disjunction_at disj b p) (fun q _ => p <= q /\ ins q).
Proof.
  intros Hlt Hp. unfold disjunction_at. apply wp_bind; [mono|]. apply wp_set_buf_ptr. intros s1 Hp1 _ _. apply wp_bind; [mono|].
  eapply wp_conseq; [apply Hwp; by rewrite Hp1|]. rewrite Hp1. intros _ s2 [Hle Hi] _. apply wp_bind; [mono|]. apply wp_get. intros _. by apply wp_ret.
Qed.
Lemma wp_expect p c msg s (Q : Z -> REParseState -> Prop) : ins p -> c <> 0 -> (forall s', ins (p + 1) -> Q (p + 1) s') -> wp s (re_parse_expect p c msg) Q.
Proof. intros Hp Hc HQ. eapply wp_tot; [by apply (Tot_expect buf Hbuf Htext)|]. intros q s' [-> Hi]. by apply HQ. Qed.
Lemma wp_plain_group b p s : p0 <= p -> ins (p + 3) -> wp s (term_plain_group disj b p) (atom_end p).
Proof.
  intros Hle Hp3. unfold term_plain_group, expect_paren. skip_sure. destruct a as [start captures]. apply wp_bind; [mono|].
  eapply wp_conseq; [apply wp_disjunction_at; [lia|done]|]. intros q s2 [Hq Hiq] _. apply wp_bind; [mono|]. apply wp_expect; [done|done|]. intros s3 Hi3 _.
  apply wp_ret. split; [cbn; lia|done].
Qed.
Lemma wp_modifiers b p s : p0 <= p -> ins (p + 2) -> wp s (term_modifiers disj b p) (atom_end p).
Proof.
  intros Hle Hp2. unfold term_modifiers, expect_paren. apply wp_bind; [mono|]. eapply wp_tot; [by apply parse_modifiers_ok|].
  intros [add p1] s1 [Hp1 Hi1] _. cbn [fst snd] in *. apply wp_bind; [mono|]. apply wp_rd; [done|]. intros c (_ & _ & Hn) _.
  apply wp_bind; [destruct (_ =? _); mono|]. eapply (wp_tot _ _ (fun r => p1 <= r.2 /\ ins r.2)).
  { destruct (Z.eqb_spec c 45); [|apply Tot_ret; cbn; split; [lia|done]]. eapply Tot_conseq; [apply parse_modifiers_ok, Hn; lia|]. cbn. intros r [? ?]. split; [lia|done]. }
  intros [remove p2] s2 [Hp2' Hi2] _. cbn [fst snd] in *. destruct (_ || _); [apply wp_error|]. apply wp_bind; [mono|].
  apply wp_expect; [done|done|]. intros s3 Hi3 _. do 3 skip_sure. destruct a1 as [start captures]. apply wp_bind; [mono|].
  eapply wp_conseq; [apply wp_disjunction_at; [lia|done]|]. intros q s5 [Hq Hiq] _. apply wp_bind; [mono|]. apply wp_expect; [done|done|]. intros s6 Hi6 _.
  skip_sure. apply wp_ret. split; [cbn; lia|done].
Qed.
Lemma wp_lookahead neg bwd p s : p0 < p -> ins p -> wp s (term_lookahead disj neg bwd p) (atom_end p).
Proof.
  intros Hlt Hp. unfold term_lookahead, expect_paren. destruct (lookahead_ops neg) as [-> Eend].
  apply wp_bind; [destruct (_ && _); mono|]. apply wp_sure; [sure|]. intros [start captures] s1 _ _.
  apply wp_bind; [mono|]. apply wp_emit_op_u32. intros pos s2 _ Hi2 _. apply wp_bind; [mono|].
  eapply wp_grows; [by apply EB_disjunction_at|by apply wp_disjunction_at|]. intros q s3 [Hq Hiq] Hz3 He3.
  apply wp_bind; [mono|]. eapply (wp_grows _ _ (fun r _ => r = q + 1 /\ ins r)); [apply EB_quiet; quiet|by apply wp_expect|]. intros r s4 [-> Hi4] Hz4 He4.
  rewrite Eend. apply wp_bind; [mono|]. eapply (wp_emits _ _ (mk_insn _ [])); [sure|mono|by apply typed_emit_op|]. intros _ s5 _ Hi5 He5.
  apply wp_bind; [mono|]. apply wp_get. intros _. fold (err s5). destruct (err s5) eqn:Ee; [apply wp_fail|].
  apply wp_bind; [mono|]. apply wp_poke_u32; [|intros s6 _ _ _ _; apply wp_ret; split; [cbn; lia|done]].
  intros _. pose proof (Hi5 eq_refl) as Hz5%emits_sz. pose proof (ilen_pos (mk_insn (i_op (lookahead_end neg)) [])).
  specialize (Hz4 (He5 eq_refl)). specialize (Hz3 (He4 (He5 eq_refl))). destruct (Hi2 (He3 (He4 (He5 eq_refl)))) as [Hz2%sz_jmp ->]. unfold sz in *. lia.
Qed.
Lemma wp_capture names b p s : AddsName names -> Sure names -> p0 < p -> ins p -> wp s (term_capture disj names b p) (atom_end p).
Proof.
  intros Hn Hs Hlt Hp. unfold term_capture, expect_paren. apply wp_bind; [by apply Mono_enter|]. apply (wp_conseq _ _ (fun _ _ => True)).
  { intros _. unfold enter_capture, pbind. destruct (Hs s) as (u & s1 & -> & _). cbn. by destruct (_ <=? _). }
  intros [start captures] s1 _ _. skip_sure. apply wp_bind; [mono|].
  eapply wp_conseq; [by apply wp_disjunction_at|]. intros q s3 [Hq Hiq] _. skip_sure. apply wp_bind; [mono|]. apply wp_expect; [done|done|]. intros s5 Hi5 _.
  apply wp_ret. split; [cbn; lia|done].
Qed.
Lemma wp_named_group b p s : p0 <= p -> ins (p + 3) -> wp s (term_named_group disj b p) (atom_end p).
Proof.
  intros Hle Hp3. unfold term_named_group. rewrite Htext. destruct (group_name_inside buf Hbuf (p + 3) Hp3) as (r & E & Hr).
  eapply wp_bind_option; [exact E|]. destruct r as [[name q]|]; [|apply wp_error].
  apply group_name_loop_bytes in E as [Hb Hl]; [|done|done]. cbn [fst] in *. destruct Hr as [Hq Hiq].
  assert (Mono (term_capture disj (add_name name) b q)) as Hm by (apply Mono_capture; [apply rec_mono|apply AddsName_name; [done|lia]]).
  apply wp_bind; [mono|]. apply wp_get. intros _. apply wp_bind; [mono|]. apply wp_duplicate. intros [] _; [apply wp_error|].
  eapply wp_conseq; [apply wp_capture; [apply AddsName_name; [done|lia]|sure|lia|done]|]. intros a s1 [? ?]. split; [lia|done].
Qed.
Lemma wp_group b p s : p0 <= p -> ins (p + 1) -> wp s (term_group disj b p) (atom_end p).
Proof.
  intros Hle Hp1. unfold term_group. apply wp_bind; [mono|]. apply wp_rd; [done|]. intros b1 (_ & _ & Hn1) _.
  assert (forall k m, 0 <= k -> wp s m (atom_end (p + k)) -> wp s m (atom_end p)) as Hend.
  { intros k m Hk Hm. eapply wp_conseq; [exact Hm|]. intros a s' [? ?]. split; [lia|done]. }
  destruct (Z.eqb_spec b1 63); [|apply (Hend 1); [lia|]; apply wp_capture; [apply AddsName_none|sure|lia|done]].
  specialize (Hn1 ltac:(lia)). replace (p + 1 + 1) with (p + 2) in Hn1 by lia.
  apply wp_bind; [mono|]. apply wp_rd; [done|]. intros b2 (_ & _ & Hn2) _. replace (p + 2 + 1) with (p + 3) in Hn2 by lia.
  destruct (Z.eqb_spec b2 58); [apply wp_plain_group; [done|apply Hn2; lia]|].
  destruct (_ || _); [by apply wp_modifiers|].
  destruct ((b2 =? 61) || (b2 =? 33)) eqn:E2.
  { apply (Hend 3); [lia|]. apply wp_lookahead; [lia|]. apply Hn2. apply orb_true_iff in E2 as [?%Z.eqb_eq|?%Z.eqb_eq]; lia. }
  destruct (Z.eqb_spec b2 60); [|apply wp_error]. specialize (Hn2 ltac:(lia)). apply wp_bind; [mono|]. apply wp_rd; [done|]. intros b3 (_ & _ & Hn3) _.
  destruct ((b3 =? 61) || (b3 =? 33)) eqn:E3; [|by apply wp_named_group].
  apply (Hend 4); [lia|]. apply wp_lookahead; [lia|]. replace (p + 4) with (p + 3 + 1) by lia. apply Hn3. apply orb_true_iff in E3 as [?%Z.eqb_eq|?%Z.eqb_eq]; lia.
Qed.
Lemma wp_atom b p s : p0 <= p -> ins p -> wp s (term_atom disj b p) (atom_end p).
Proof.
  intros Hle Hp. unfold term_atom. apply wp_bind; [mono|]. apply wp_rd; [done|]. intros c (_ & _ & Hn) _. apply wp_bind; [mono|]. apply wp_get. intros _.
  assert (c <> 0 -> forall m, Sure m -> Mono m -> wp s (let? _ := (m : P unit) in no_atom (p + 1)) (atom_end p)) as Hnone.
  { intros Hc m Hs Hm. apply wp_bind; [done|]. apply wp_sure; [done|]. intros _ s1 _ _. apply wp_ret. split; [cbn; lia|by apply Hn]. }
  destruct (Z.eqb_spec c 94); [apply Hnone; [lia|sure|mono]|]. destruct (Z.eqb_spec c 36); [apply Hnone; [lia|sure|mono]|].
  destruct (Z.eqb_spec c 46).
  { skip_sure. destruct a as [start captures]. do 3 skip_sure. apply wp_ret. split; [cbn; lia|apply Hn; lia]. }
  destruct (Z.eqb_spec c 123); [apply wp_brace; [done|apply Hn; lia]|]. destruct (_ || _); [apply wp_error|].
  destruct (Z.eqb_spec c 40); [apply wp_group; [done|apply Hn; lia]|]. destruct (Z.eqb_spec c 92); [apply wp_escape; [done|apply Hn; lia]|].
  destruct (Z.eqb_spec c 91).
  { skip_sure. destruct a as [start captures]. skip_sure. apply wp_bind; [mono|]. eapply wp_conseq; [apply wp_char_class; [done|apply Hn; lia]|].
    intros q s3 [Hq Hiq] _. skip_sure. by apply wp_ret. }
  destruct (_ || _); [destruct env_is_unicode; [apply wp_error|]|]; by apply wp_class_atom.
Qed.

(** ** Terms *)
Definition quant_end (p : Z) (o : option (Z * Z * Z)) : Prop := match o with Some (_, _, q) => p < q /\ ins q | None => True end.
Lemma parse_count_ok p : ins (p + 1) -> Tot (parse_count p) (quant_end p).
Proof.
  intros Hp1. unfold parse_count. eapply Tot_bind; [by apply Tot_rd|]. intros b _. destruct (negb _); [destruct env_is_unicode; [apply Tot_error|by apply Tot_ret]|].
  assert (forall q, ins q -> Tot (of_option (parse_digits env_text q true)) (fun r => q <= r.2 /\ ins r.2)) as Hdigits.
  { intros q Hq. apply Tot_option. rewrite Htext. destruct (parse_digits_inside buf Hbuf q true Hq) as (w & r & E & ? & ? & _). by exists (w, r). }
  eapply Tot_bind; [by apply Hdigits|]. intros [qmin p1] [Hp1' Hi1]. cbn [fst snd] in *. eapply Tot_bind; [by apply Tot_rd|]. intros c (_ & _ & Hn).
  eapply (Tot_bind _ _ (fun r => p1 <= r.2 /\ ins r.2)).
  { destruct (Z.eqb_spec c 44); [|apply Tot_ret; cbn; split; [lia|done]]. specialize (Hn ltac:(lia)). eapply Tot_bind; [by apply Tot_rd|]. intros d _.
    destruct (is_digit d); [|apply Tot_ret; cbn; split; [lia|done]]. eapply Tot_bind; [by apply Hdigits|]. intros [qmax p2] [Hp2 Hi2]. cbn [fst snd] in *.
    destruct (_ <? _); [apply Tot_error|]. apply Tot_ret. cbn. split; [lia|done]. }
  intros [qmax p2] [Hp2 Hi2]. cbn [fst snd] in *. eapply Tot_bind; [by apply Tot_rd|]. intros e _. destruct (_ && _); [by apply Tot_ret|].
  eapply Tot_bind; [by apply (Tot_expect buf Hbuf Htext)|]. intros p3 [-> Hi3]. apply Tot_ret. cbn. split; [lia|done].
Qed.
Lemma parse_quantifier_ok p : ins p -> Tot (parse_quantifier p) (quant_end p).
Proof.
  intros Hp. unfold parse_quantifier. eapply Tot_bind; [by apply Tot_rd|]. intros c (_ & _ & Hn).
  assert (c <> 0 -> forall a b, Tot (pret (Some (a, b, p + 1))) (quant_end p)) as Hone.
  { intros Hc a b. apply Tot_ret. cbn. split; [lia|by apply Hn]. }
  destruct (Z.eqb_spec c 42); [apply Hone; lia|]. destruct (Z.eqb_spec c 43); [apply Hone; lia|]. destruct (Z.eqb_spec c 63); [apply Hone; lia|].
  destruct (Z.eqb_spec c 123); [apply parse_count_ok, Hn; lia|by apply Tot_ret].
Qed.
Lemma wp_quiet {A} s (m : P A) (Q : A -> Prop) (Q' : A -> REParseState -> Prop) : Quiet m -> Tot m Q ->
  (forall a s', Q a -> quiet s s' -> Q' a s') -> wp s m Q'.
Proof. intros Hq Hm HQ _. specialize (Hm s). destruct (m s) eqn:E; try done. apply HQ; [done|]. by eapply Hq. Qed.
Lemma wp_set_ptr s p (Q : unit -> REParseState -> Prop) : (forall s', s_buf_ptr s' = p -> Q tt s') -> wp s (set_buf_ptr p) Q.
Proof. intros HQ. apply wp_set_buf_ptr. auto. Qed.
Lemma wp_term b s : p0 <= s_buf_ptr s -> ins (s_buf_ptr s) ->
  wp s (re_parse_term disj b) (fun _ s' => s_buf_ptr s < s_buf_ptr s' /\ ins (s_buf_ptr s')).
Proof.
  intros Hle Hp. unfold re_parse_term. apply wp_bind; [mono|]. apply wp_get. intros _.
  destruct (Atom_atom disj Hdisj b (s_buf_ptr s)) as [Ham Hat]. apply wp_bind; [done|].
  eapply wp_typed; [done|by apply wp_atom|apply Hat|]. intros [[p start] captures] s1 _ [Hp1 Hi1] Hty _. cbn [fst snd] in *.
  destruct (Z.ltb_spec start 0) as [|Hst]; [by apply wp_set_ptr; intros s2 ->|].
  apply wp_bind; [mono|]. eapply wp_quiet; [quiet|by apply parse_quantifier_ok|]. intros q s2 Hq Hquiet _.
  destruct q as [[[qmin qmax] p1]|]; [|by apply wp_set_ptr; intros s3 ->]. destruct Hq as [Hp2 Hi2].
  apply wp_bind; [mono|]. apply wp_rd; [done|]. intros c (_ & _ & Hn) _. cbv zeta. apply wp_bind; [mono|].
  eapply wp_conseq; [apply wp_quantify|].
  { intros Hf. assert (err s1 = false) as Hf1 by (by rewrite <- (quiet_err _ _ Hquiet)).
    destruct (Hty Hf1) as [(bl & Hc & Hbl) Hs]. exists (code s), bl. rewrite (quiet_code _ _ Hquiet), (quiet_count _ _ Hquiet).
    split; [done|]. split; [|done]. destruct Hs as [|[? _]]; [lia|done]. }
  intros _ s3 _ _. apply wp_set_ptr. intros s4 ->. destruct (Z.eqb_spec c 63); cbn [negb]; [|split; [lia|done]]. split; [lia|]. apply Hn. lia.
Qed.
Lemma wp_move start ts s : (err s = false -> 0 <= start <= ts /\ ts <= sz s) ->
  wp s (move_term start ts) (fun _ s' => s_buf_ptr s' = s_buf_ptr s /\ (err s' = false -> sz s' = sz s)).
Proof.
  intros Hr Hs. unfold move_term. unfold pbind at 1, code_size at 1. change (db_size (s_byte_code s)) with (sz s).
  destruct (_ || _) eqn:Eo.
  { left. destruct (err s) eqn:Ee; [done|]. specialize (Hr eq_refl). apply orb_true_iff in Eo as [?%Z.ltb_lt|?%Z.ltb_lt]; lia. }
  apply orb_false_iff in Eo as [?%Z.ltb_ge ?%Z.ltb_ge]. unfold pbind at 1.
  destruct (on_byte_code _ s) as [r s1| | |] eqn:E1; try (by destruct (Sure_byte_code (fun ok bc => dbuf_claim ok bc (sz s - ts)) s) as (? & ? & E & _); rewrite E in E1).
  pose proof (Sure_Keeps _ (Sure_byte_code _) _ _ _ E1) as Hp1. apply claim_spec in E1 as (_ & Hm & Hc & _ & _); [|done|lia].
  destruct (Hm Hs) as (_ & _ & He). destruct r; cbn [negb]; [|done]. cbn. split; [done|]. intros Hf. unfold sz, code at 1. cbn. fold (code s1). rewrite Hc.
  specialize (Hr (He Hf)). unfold sz in Hr. rewrite !length_app, length_take, !length_drop, length_take, length_drop. lia.
Qed.
(** An alternative, from [start]; each term moves the pointer. *)
Lemma wp_alternative_loop b start fuel : forall s, p0 <= s_buf_ptr s -> ins (s_buf_ptr s) -> L - s_buf_ptr s < Z.of_nat fuel ->
  (err s = false -> 0 <= start <= sz s) -> wp s (re_parse_alternative disj fuel b start) (moved (s_buf_ptr s)).
Proof.
  pose proof rec_mono as Hdm. assert (forall fuel, Mono (re_parse_alternative disj fuel b start)) as Hloop by (intros; by apply Mono_alternative_loop).
  assert (Mono (re_parse_term disj b)) as Hterm by (by apply Mono_term).
  induction fuel as [|fuel IH]; intros s Hle Hp Hf Hst; [fin|]. cbn [re_parse_alternative]. apply wp_bind; [mono|]. apply wp_get. intros _.
  assert (wp s (pret tt) (moved (s_buf_ptr s))) as Hdone by (apply wp_ret; split; [lia|done]).
  destruct (_ <=? _); [done|]. apply wp_bind; [mono|]. apply wp_rd; [done|]. intros c _ _. destruct (_ || _); [done|].
  apply wp_bind; [mono|]. apply wp_size. intros _. apply wp_bind; [done|].
  eapply wp_grows; [by apply EB_term|by apply wp_term|]. intros _ s1 [Hlt Hi1] Hz1 He1. cbn beta in *.
  apply wp_bind; [destruct b; [apply Mono_move|mono]|].
  apply (wp_conseq _ _ (fun _ s2 => s_buf_ptr s2 = s_buf_ptr s1 /\ (err s2 = false -> sz s2 = sz s1))).
  { destruct b; [|by apply wp_ret]. apply wp_move. intros Hf1. specialize (Hst (He1 Hf1)). specialize (Hz1 Hf1). lia. }
  intros _ s2 [Hp2 Hz2] He2. eapply wp_conseq; [apply IH; rewrite ?Hp2; [lia|done|lia|]|].
  - intros Hf2. specialize (Hz2 Hf2). specialize (Hz1 (He2 Hf2)). specialize (Hst (He1 (He2 Hf2))). lia.
  - intros u s3 [? ?]. rewrite Hp2 in *. split; [lia|done].
Qed.
Lemma wp_alternative b s : p0 <= s_buf_ptr s -> ins (s_buf_ptr s) -> wp s (alternative disj b) (moved (s_buf_ptr s)).
Proof.
  intros Hle Hp. unfold alternative. apply wp_bind; [mono|]. apply wp_size. intros _. apply wp_alternative_loop; [done|done|rewrite Htext, text_nul_length; fin|].
  unfold sz. lia.
Qed.

(** ** Disjunctions *)
Lemma wp_disjunction_loop b start fuel : forall s, p0 <= s_buf_ptr s -> ins (s_buf_ptr s) -> L - s_buf_ptr s < Z.of_nat fuel ->
  (err s = false -> 0 <= start <= sz s) -> wp s (disjunction_loop disj fuel b start) (moved (s_buf_ptr s)).
Proof.
  pose proof rec_mono as Hdm. assert (forall b, Mono (alternative disj b)) as Halt by (intros; by apply Mono_alternative).
  induction fuel as [|fuel IH]; intros s Hle Hp Hf Hst; [fin|]. cbn [disjunction_loop]. apply wp_bind; [mono|]. apply wp_get. intros _.
  apply wp_bind; [mono|]. apply wp_rd; [done|]. intros c (_ & _ & Hn) _. destruct (Z.eqb_spec c 124); cbn [negb]; [|apply wp_ret; split; [lia|done]].
  specialize (Hn ltac:(lia)). apply wp_bind; [mono|]. apply wp_set_buf_ptr. intros s1 Hp1 Hq1 _.
  apply wp_bind; [mono|]. apply wp_size. intros _. cbv zeta. apply wp_bind; [by apply Mono_insert_or_fail|]. apply wp_insert; [lia|by rewrite (quiet_err _ _ Hq1), (quiet_sz _ _ Hq1)|].
  intros s2 Hp2 Hz2 He2. assert (err s2 = false -> 0 <= start /\ start + 5 <= sz s2) as Hst2.
  { intros Hf2. specialize (Hz2 Hf2). rewrite (quiet_sz _ _ Hq1) in Hz2. rewrite (quiet_err _ _ Hq1) in He2. specialize (Hst (He2 Hf2)). lia. }
  apply wp_bind; [mono|]. apply wp_poke; [intros Hf2; specialize (Hst2 Hf2); lia|]. intros s3 Hp3 Hz3 He3 _.
  apply wp_bind; [mono|]. apply wp_poke_u32; [rewrite He3, Hz3; intros Hf2; specialize (Hst2 Hf2); lia|]. intros s4 Hp4 Hz4 He4 _.
  apply wp_bind; [mono|]. apply wp_emit_op_u32. intros pos s5 Hp5 Hi5 He5. apply wp_bind; [mono|]. apply wp_get. intros _.
  apply wp_bind; [mono|]. apply wp_sure_quiet; [sure|quiet|]. intros _ s6 Hp6 Hq6 He6.
  assert (s_buf_ptr s6 = s_buf_ptr s + 1) as Hp' by congruence.
  apply wp_bind; [mono|]. eapply wp_grows; [by apply EB_alternative|apply wp_alternative; rewrite Hp'; [lia|done]|].
  rewrite Hp'. intros u7 s7 [Hp7 Hi7] Hz7 He7. apply wp_bind; [mono|]. apply wp_size. intros _.
  assert (err s7 = false -> 0 <= start /\ start <= sz s7 /\ 0 <= pos /\ pos + 4 <= sz s7) as Hst7.
  { intros Hf7. specialize (Hz7 Hf7). rewrite (quiet_sz _ _ Hq6) in Hz7. apply He7, He6 in Hf7 as Hf5. destruct (Hi5 Hf5) as [Hz5%sz_jmp ->].
    apply He5 in Hf5. rewrite He4, He3 in Hf5. specialize (Hst2 Hf5). unfold sz in *. lia. }
  apply wp_bind; [mono|]. apply wp_poke_u32; [intros Hf7; specialize (Hst7 Hf7); lia|]. intros s8 Hp8 Hz8 He8 _.
  eapply wp_conseq; [apply IH; rewrite ?Hp8; [lia|done|lia|]|].
  - rewrite He8, Hz8. intros Hf7. specialize (Hst7 Hf7). lia.
  - intros u s9 [? ?]. rewrite Hp8 in *. split; [lia|done].
Qed.
End Groups.
(** Every parenthesis takes one unit of fuel and one byte of the text. *)
Lemma wp_stack s (Q : unit -> REParseState -> Prop) : (forall s', s_buf_ptr s' = s_buf_ptr s -> quiet s s' -> Q tt s') -> wp s check_stack_overflow Q.
Proof. intros HQ _. unfold check_stack_overflow. destruct (env_stack_overflow _); [done|]. by apply HQ. Qed.
Lemma wp_disjunction fuel : forall b s, ins (s_buf_ptr s) -> L - s_buf_ptr s < Z.of_nat fuel -> wp s (re_parse_disjunction fuel b) (moved (s_buf_ptr s)).
Proof.
  induction fuel as [|fuel IH]; intros b s Hp Hf; [fin|]. cbn [re_parse_disjunction]. pose proof (EB_disjunction fuel) as Heb.
  assert (forall b, Mono (alternative (re_parse_disjunction fuel) b)) as Halt by (intros; apply Mono_alternative; intros; apply Heb).
  apply wp_bind; [mono|]. apply wp_stack. intros s1 Hp1 Hq1 _. rewrite <- Hp1 in *. apply wp_bind; [mono|]. apply wp_size. intros _.
  assert (forall b s2, s_buf_ptr s1 < s_buf_ptr s2 -> ins (s_buf_ptr s2) -> wp s2 (re_parse_disjunction fuel b) (moved (s_buf_ptr s2))) as Hwp
    by (intros b2 s2 Hlt Hi2; apply IH; [done|lia]).
  apply wp_bind; [mono|]. eapply wp_grows; [by apply EB_alternative|by apply (wp_alternative _ Heb (s_buf_ptr s1) Hwp)|].
  intros u2 s2 [Hp2 Hi2] Hz2 He2. eapply wp_conseq; [apply (wp_disjunction_loop _ Heb (s_buf_ptr s1) Hwp); [done|done|rewrite Htext, text_nul_length; fin|]|].
  - intros Hf2. specialize (Hz2 Hf2). unfold sz in *. lia.
  - intros u3 s3 [? ?]. split; [lia|done].
Qed.
End Terms.
