(* ===== verification/RegexpAnswers.v ===== *)
(** * Regular expressions: the compiler answers

    The total correctness of [lre_compile]: the parser's rules of RegexpTerms.v
    around the header, the registers and the names. *)
From S2P Require Import Prelude Sort SortProps Cutils Utf8 CharRange CharRangeProps UnicodeTables UnicodeCase UnicodeCaseProps UnicodeCaseMem UnicodeProp.
From S2P Require Import Regexp RegexpSim RegexpUndo RegexpSearch RegexpRange RegexpType RegexpRegs RegexpParse RegexpCompile.
From S2P Require Import RegexpBlock RegexpMono RegexpTyped RegexpCompiled RegexpText RegexpTotal RegexpSets RegexpStrings RegexpClass RegexpUnicode RegexpTerms.

Section Front.
Context `{ReEnv} `{UnicodeDb}.
Context (Hmem : forall n size, env_realloc n size = true -> size < 2 ^ 34).
Context (buf : list Z) (Hbuf : Forall text_byte buf) (Htext : env_text = buf ++ [0]).
Context {Hlaws : UnicodeDbLaws} (Hseq : env_unicode_sets = true -> unions_succeed).

Lemma wp_compile_code re_flags s : s_buf_ptr s = 0 -> wp s (compile_code re_flags) (fun _ s' => inside buf (s_buf_ptr s')).
Proof.
  intros Hp. unfold compile_code. do 4 (apply wp_bind; [mono|]; apply wp_sure; [sure|]; intros ? ? ? _).
  apply wp_bind; [destruct (_ =? _); mono|]. apply wp_sure; [sure|]. intros _ s5 Hp5 _.
  apply wp_bind; [mono|]. apply wp_sure; [sure|]. intros _ s6 Hp6 _. assert (s_buf_ptr s6 = 0) as Hp0 by congruence.
  apply wp_bind; [mono|]. eapply wp_conseq.
  { apply (wp_disjunction Hmem buf Hbuf Htext Hseq); rewrite Hp0; [unfold inside; lia|]. rewrite Htext, text_nul_length. lia. }
  intros _ s7 [_ Hi7] _. apply wp_bind; [mono|]. apply wp_sure; [sure|]. intros _ s8 Hp8 _. apply wp_sure; [sure|]. intros _ s9 Hp9. by rewrite Hp9, Hp8.
Qed.
Lemma wp_set_code l s (k : P (list Z)) Q : Z.of_nat (length l) <= db_allocated_size (s_byte_code s) ->
  (forall s', code s' = l -> wp s' k Q) -> wp s (let? _ := set_code l in k) Q.
Proof.
  intros Hl Hk Hs. unfold pbind. destruct (set_code l s) as [u s'| | |] eqn:E; try done.
  pose proof (set_code_mono _ _ _ _ E Hl Hs) as (Hs' & _). apply set_code_spec in E as (_ & Hc & _). by apply Hk.
Qed.
Lemma wp_write_header cc rc s : RE_HEADER_LEN <= sz s -> wp s (write_header cc rc) (fun _ s' => RE_HEADER_LEN <= sz s').
Proof.
  intros Hz. unfold write_header. change RE_HEADER_LEN with 8 in *. change RE_HEADER_CAPTURE_COUNT with 2.
  apply wp_bind; [mono|]. apply wp_poke; [lia|]. intros s1 _ Hz1 _ _. apply wp_bind; [mono|]. apply wp_poke; [change RE_HEADER_REGISTER_COUNT with 3; lia|].
  intros s2 _ Hz2 _ _. apply wp_bind; [mono|]. apply wp_size. intros _. apply wp_poke_u32; [change RE_HEADER_BYTECODE_LEN with 4; lia|].
  intros s3 _ Hz3 _. lia.
Qed.
Lemma get_u16_total l p : 0 <= p -> p + 2 <= Z.of_nat (length l) -> exists v, get_u16 l p = Some v.
Proof.
  intros Hp Hl. unfold get_u16, byte_at. rewrite !(proj2 (Z.ltb_ge _ 0)) by lia.
  destruct (lookup_lt_is_Some_2 l (Z.to_nat p)) as [a ->]; [lia|]. destruct (lookup_lt_is_Some_2 l (Z.to_nat (p + 1))) as [b ->]; [lia|]. bind. eauto.
Qed.
Lemma Mono_append_names names : dbuf_wf names -> Mono (append_names names).
Proof.
  intros Hwf. unfold append_names. apply Mono_bind; [|intros; mono]. eapply Mono_put; [done|]. unfold dbuf_wf, db_size in Hwf. lia.
Qed.
Lemma wp_append_names names s : dbuf_wf names -> RE_HEADER_LEN <= sz s -> wp s (append_names names) (fun _ _ => True).
Proof.
  intros Hwf Hz. unfold append_names. change RE_HEADER_LEN with 8 in *. assert (Z.of_nat (length (db_data names)) < 2 ^ 64) as Hlen by (unfold dbuf_wf, db_size in Hwf; lia).
  apply wp_bind; [by eapply Mono_put|]. apply (wp_conseq _ _ (fun _ s1 => 8 <= sz s1)).
  { intros Hs. destruct (on_byte_code _ s) as [r s1| | |] eqn:E;
      try (by destruct (Sure_byte_code (fun ok bc => dbuf_put ok bc (db_data names)) s) as (? & ? & E' & _); rewrite E' in E).
    eapply put_spec in E as (_ & _ & Hc & _); [|done..]. unfold sz in *. rewrite Hc. destruct r; rewrite ?length_app; lia. }
  intros r s1 Hz1 _. apply wp_bind; [mono|]. apply wp_get. intros _. apply wp_bind; [mono|]. apply wp_option.
  destruct (get_u16_total (code s1) RE_HEADER_FLAGS) as [v Ev]; [done|change RE_HEADER_FLAGS with 0; unfold sz in Hz1; lia|].
  exists v. split; [exact Ev|]. intros _. apply wp_pokes; [|done]. rewrite le_bytes_length. change RE_HEADER_FLAGS with 0. lia.
Qed.
Lemma wp_compile_finish re_flags s : inside buf (s_buf_ptr s) -> (err s = false -> program re_flags tt s) -> wp s compile_finish (fun _ _ => True).
Proof.
  intros Hp Hprog. apply wp_pre. intros Hs. unfold compile_finish. apply wp_bind; [mono|]. apply wp_get. intros _.
  apply wp_bind; [mono|]. apply (wp_rd buf Hbuf Htext); [done|]. intros c _ _. destruct (negb _); [apply wp_error|].
  fold (err s). destruct (err s) eqn:Ee; [apply wp_oom|]. destruct (Hprog eq_refl) as (b & Hc & Hb).
  destruct (block_registers (header re_flags) b _ Hb (header_length re_flags)) as (bc & rc & Er & Hrc). fold (code s). rewrite Hc.
  eapply wp_bind_option; [exact Er|]. destruct Hrc as [->|(Hrc & bl & -> & Hrel)]; [done|].
  assert (length (header re_flags ++ code_bytes bl) = length (code s)) as Hsize.
  { pose proof (reg_rel_clen _ _ _ Hrel) as Hlen. rewrite Hc, !length_app. unfold clen in Hlen. lia. }
  apply wp_set_code; [rewrite Hsize; apply Hs|]. intros s1 Hc1. rewrite (proj2 (Z.ltb_ge rc 0)) by lia.
  assert (RE_HEADER_LEN <= sz s1) as Hz1 by (unfold sz; rewrite Hc1, length_app, Nat2Z.inj_add, header_length; lia).
  apply wp_bind; [apply Mono_write_header|]. eapply wp_conseq; [by apply wp_write_header|]. intros u2 s2 Hz2 _. cbn beta in Hz2. cbv zeta.
  destruct Hs as [_ _ (Hwf & _)]. apply wp_bind; [destruct (_ <? _); [by apply Mono_append_names|mono]|].
  apply (wp_conseq _ _ (fun _ _ => True)); [destruct (_ <? _); [by apply wp_append_names|by apply wp_ret]|].
  intros u3 s3 _ _. apply wp_bind; [mono|]. apply wp_get. intros _. by apply wp_ret.
Qed.
Lemma compile_answers re_flags :
  match compile_body re_flags (re_state0 re_flags) with POk _ _ | PFail _ => True | PWrong s => bad s | PFuel => hangs end.
Proof.
  assert (wp (re_state0 re_flags) (compile_body re_flags) (fun _ _ => True)) as Hw; [|by apply (Hw (pinv_state0 re_flags))].
  unfold compile_body. apply wp_bind; [apply Mono_compile_code|].
  eapply wp_typed; [apply Mono_compile_code|by apply wp_compile_code|by apply typed_compile_code|].
  intros [] s _ Hp Hprog _. by eapply wp_compile_finish.
Qed.
End Front.

(** What the caller of [lre_compile] may count on: bytecode that can be
    executed, or an error; or, when memory for the bytecode or for the names of
    the groups has been refused before, an access the code does not check; or no
    answer, when [unicode_script] does not return for some script under the
    answers of the allocator. *)
Definition answers `{UnicodeDb} (mem : nat -> Z -> bool) (r : presult (list Z)) : Prop :=
  match r with
  | POk bc _ => re_check bc = true /\ exec_safe bc
  | PFail _ => True
  | PWrong s => bad s
  | PFuel => exists n script ext, unicode_script (mem n) cr_init script ext = None
  end.

(** C16: the compiler of regular expressions answers.  Take a text whose code
    points have at most 21 bits (no byte from 0xf8 on), an allocator that never
    hands out 16 GB, and a database of properties whose functions, when they
    return, do so as documented (those of libunicode.c do).  Then for every choice
    of flags, of failing allocations and of stack overflows, except that under
    the v flag either every request below 16 MB is granted or the database has no
    sequence of one character: [lre_compile] ends with bytecode or an error,
    unless a call of [unicode_script] itself does not return, as happens when
    memory is refused to it (that function's own theorem); it never reads outside
    the text, the bytecode, the tables or the sets and fails no assertion, unless
    memory for the bytecode or the names was refused before; and bytecode it
    returns is accepted by the checker and safe to execute. *)
Theorem lre_compile_total `{UnicodeDb} `{!UnicodeDbLaws} buf re_flags mem overflow :
  Forall text_byte buf -> (forall n size, mem n size = true -> size < 2 ^ 34) ->
  (Z.land re_flags LRE_FLAG_UNICODE_SETS = 0 \/ long_sequences \/ forall n, grants (mem n)) ->
  answers mem (lre_compile buf re_flags mem overflow).
Proof.
  intros Hbuf Hmem Hv. pose proof (compiles_checked buf re_flags) as Hchecked.
  assert (env_unicode_sets (ReEnv := re_env buf re_flags mem overflow) = true -> unions_succeed (H := re_env buf re_flags mem overflow)) as Hseq.
  { cbn. destruct Hv as [->|Hv]; [done|]. by intros _. }
  pose proof (compile_answers (H := re_env buf re_flags mem overflow) Hmem buf Hbuf eq_refl Hseq re_flags) as Ha.
  unfold answers. unfold compiles_to, lre_compile in *. destruct (compile_body _ _) as [bc s'| | |] eqn:E; try done.
  assert (re_check bc = true) as Hc by (apply Hchecked; eauto). split; [done|by apply checked_exec_safe].
Qed.

(** A database without properties follows the documentation. *)
#[export] Instance no_unicode_laws : @UnicodeDbLaws no_unicode.
Proof. split; intros; cbn in *; [simplify_eq; by right; right|by right; right..|constructor]. Qed.
(** With the tables of libunicode.c the compiler ends as soon as requests below
    16 MB are granted. *)
Lemma libunicode_ends mem r : (forall n, grants (mem n)) -> @answers libunicode mem r -> r <> PFuel.
Proof. intros Hg Ha ->. destruct Ha as (n & v & ext & E). by eapply script_returns. Qed.
(** A pattern with set operations, strings, a range and a repeated group, under
    the flags v and i, and memory that runs out at the eighth operation; *)
Definition v_pattern : list Z := bytes_of_string "(?:[[a-z\d]&&[^aeiou]]|[\q{ab|c}])+?(?<n>x)\k<n>".
Definition v_flags : Z := Z.lor LRE_FLAG_UNICODE_SETS LRE_FLAG_IGNORECASE.
(** one with properties, under the flag u, on the tables of libunicode.c, *)
Definition u_pattern : list Z := bytes_of_string "\p{Lu}+[\p{sc=Greek}\P{Cased}a-f]|(?=\p{scx=Grek})x{2,3}".
Definition u_flags : Z := Z.lor LRE_FLAG_UNICODE LRE_FLAG_IGNORECASE.
(** and one with a property of strings that lists single characters. *)
Definition emoji_pattern : list Z := bytes_of_string "[\p{Basic_Emoji}--\q{x|yz}]\p{sc=Greek}".
Lemma lre_compile_total_witness :
  @answers no_unicode (fun n size => (n <? 8)%nat && (size <? 2 ^ 34))
    (@lre_compile no_unicode v_pattern v_flags (fun n size => (n <? 8)%nat && (size <? 2 ^ 34)) (fun _ => false)) /\
  @answers libunicode (fun n size => (n <? 8)%nat && (size <? 2 ^ 34))
    (@lre_compile libunicode u_pattern u_flags (fun n size => (n <? 8)%nat && (size <? 2 ^ 34)) (fun _ => false)) /\
  @answers libunicode (fun _ size => size <? 2 ^ 24)
    (@lre_compile libunicode emoji_pattern v_flags (fun _ size => size <? 2 ^ 24) (fun _ => false)) /\
  @lre_compile libunicode emoji_pattern v_flags (fun _ size => size <? 2 ^ 24) (fun _ => false) <> PFuel.
Proof.
  assert (forall l, forallb (fun b => (0 <=? b) && (b <? 0xf8)) l = true -> Forall text_byte l) as Ht.
  { intros l Hl. apply Forall_forall. intros b Hb. rewrite forallb_forall in Hl. apply list_elem_of_In in Hb. specialize (Hl b Hb).
    unfold text_byte. lia. }
  assert (forall n : nat, grants (fun size => size <? 2 ^ 24)) as Hg by (intros _ size Hs; by apply Z.ltb_lt).
  assert (@answers libunicode (fun _ size => size <? 2 ^ 24)
    (@lre_compile libunicode emoji_pattern v_flags (fun _ size => size <? 2 ^ 24) (fun _ => false))) as He.
  { apply (@lre_compile_total libunicode libunicode_laws); [by apply Ht|intros _ size Hs%Z.ltb_lt; lia|by right; right]. }
  split; [|split; [|split; [exact He|exact (libunicode_ends (fun _ size => size <? 2 ^ 24) _ Hg He)]]].
  - refine (@lre_compile_total no_unicode no_unicode_laws v_pattern v_flags _ _ (Ht v_pattern eq_refl) _ _).
    + intros n size [_ Hs%Z.ltb_lt]%andb_true_iff. exact Hs.
    + right; left. intros ok v. constructor.
  - refine (@lre_compile_total libunicode libunicode_laws u_pattern u_flags _ _ (Ht u_pattern eq_refl) _ _).
    + intros n size [_ Hs%Z.ltb_lt]%andb_true_iff. exact Hs.
    + left. reflexivity.
Defined.
